(* ===== verification/_CoqProject ===== *)
-Q . S2P
Prelude.v
RustText.v
DomainTypes.v
FailureText.v
Domain.v
DomainInv.v
DomainSafety.v
DomainWorld.v
DomainTrace.v
DomainTheorems.v
CoordModel.v
CoordMemory.v
CoordInv.v
CoordTheorems.v
CoordSelection.v
CoordDelivery.v
CoordOutbox.v
CoordOutboxThms.v
CoordProjector.v
EgressState.v
EgressInv.v
EgressThms.v
EgressReplay.v
RepoTypes.v
ServiceTypes.v
Context.v
ContextThms.v
PlanModel.v
RepoMemory.v
RepoClaims.v
ServiceCommands.v
ServiceMemory.v
ServiceReconcile.v
RepoFrame.v
RepoCommit.v
RepoInv.v
RepoEffects.v
ServiceEffects.v
ServiceSample.v
RepoOutbox.v
ServiceControls.v
RepoTheorems.v
RepoAttach.v
RepoDeadlines.v
RepoFence.v
RepoProgress.v
RepoCatalog.v
RepoRows.v
RepoEvents.v
ServiceRecords.v
ServicePlans.v
ServiceLinks.v
BroadcastCommands.v
BroadcastInv.v
BroadcastThms.v
BroadcastExecutor.v
Principal.v
PrincipalThms.v
ControlCrypto.v
CryptoThms.v
GatewayAttachment.v
GatewayThms.v
SignalingToken.v
SignalingThms.v
ServiceBirths.v
ServiceApi.v
ServiceWorld.v
ServicePlacement.v
ServiceOperations.v
ServiceCalls.v
ServiceFlow.v
PlacementThms.v
AdmissionThms.v
CreateThms.v
TranscriptThms.v
CommandThms.v
RetryThms.v
GetThms.v
Execution.v
ExecutionThms.v
