(* ===== verification/Prelude.v ===== *)
(** * Bridgefu: the control plane of a media gateway

    Bridgefu connects two call legs (SIP, WebRTC, telephony providers, ...).  Workers run the media;
    what a call is, who owns it and what remains to be done about it is decided by pure or
    single-lock code, which this development models and verifies.

    ** The parts and how they interact

    - The call engine ([src/call_engine/domain.rs]) is a pure state machine.  [CallAggregate::decide]
      takes the stored aggregate of a call and a command, and returns the next aggregate with the
      effects the runtime has to execute (timers, media bridging, starting and stopping legs).
      Reports of workers carry the binding generation of the leg and timers a deadline generation,
      so that late ones are recognised.
    - The call repository ([src/call_engine/repository.rs], [src/persistence/memory.rs]) is the
      authority.  A command is committed against the stored aggregate under the lease of the worker
      that owns the call: in one transaction the decided aggregate, the receipt of the command, its
      effects (an outbox), its deadlines and the attachment tokens it needs are written, and the
      capacity of a call that is over is given back.  Workers claim effects, due deadlines and
      provider events, and take their calls over again after a restart.
    - The call service repository (the second trait of [src/persistence/memory.rs], with the
      contracts of [src/call_service/model.rs, repository.rs]) adds what the service needs beside
      the aggregate: the execution plan of each call, the payloads of its effects, a control outbox,
      outbound bindings, external references, idempotency receipts, and the reconciliation of effect
      results and provider callbacks, each in one transaction with the command it leads to.
    - The call service ([src/call_service/service.rs, view.rs]) is what the HTTP interface calls:
      creation, reading, hangup, transfer, replacement of a leg, DTMF, the source of a broadcast and
      the admission of an inbound connection.  It authorises the principal, digests the request for
      idempotency, places the call on a worker and runs the transactions of the two repositories,
      while other tasks use them too.
    - The worker execution ([src/call_service/execution.rs, runtime.rs, provider_execution.rs]) claims
      the durable work of a worker (effects, controls, provider events, due deadlines, calls left by
      an earlier process) and reports its outcome to the repositories, in loops that build a request
      anew when they lose a race and repeat it while the store is unavailable and the lease is held.
    - Context ([src/context.rs]) carries application metadata between SIP headers and data channels,
      and a bridge policy decides which envelopes may cross the bridge of a call.
    - Coordination ([src/coordination/model.rs, memory.rs, outbox.rs]) publishes what the
      authoritative store knows to the other processes: an ordered outbox of events, a projector
      that claims a prefix of it, applies each event to a projection and acknowledges it, and the
      projection itself, which answers routing questions and wakes workers through streams read by
      consumer groups.
    - The private-egress store ([src/private_egress_state.rs], with the values of
      [src/private_egress.rs]) makes the commands a worker sends to a gateway idempotent, keeps the
      state of each outbound route and a journal of its lifecycle, and hands the routes of a dead
      gateway process to its successor.
    - Broadcasts ([src/broadcast/commands.rs, command_executor.rs]) are asked for by a gateway and
      run by a worker: the command repository keeps the broadcasts, their receipts and the queue of
      start and stop commands of each worker; the worker's executor reports each result until the
      repository has it, and its subscription authority admits listeners of a committed broadcast.
    - Admission of a caller's browser goes through four files.  [src/api_principal.rs] turns a
      credential into a principal of one tenant; [src/call_service/idempotency.rs] authenticates
      request digests and attachment tokens; [src/signaling_token.rs] binds a short-lived JWT to one
      attachment; [src/gateway_attachment.rs] looks the presented token up in the coordination
      projection and carries it to the one worker whose call issued it.

    ** Files

    - [Prelude], [RustText]: results, record update, integers, dates, strings as the Rust code has
      them; shared tactics, the hint database [rust] and the lemmas on results and runs.
    - [DomainTypes], [Domain]: every type, and every method, of [domain.rs].  A [&mut self] method
      takes the aggregate and returns it; effects are threaded in the order they are pushed.  The
      body of a loop, or a match inside a method, is a definition of its own where a lemma is
      about it ([stop_leg], [merge_outcome], [start_leg]).
    - [FailureText]: sanitizing of provider text.  [DomainInv]: the invariant [valid_call], which
      [validate] decides.  [DomainSafety]: each handler establishes it.  [DomainWorld]: the effects
      against an abstract timer service and media graph.  [DomainTrace]: sequences of decisions and
      their generations.  [DomainTheorems]: the properties of the call engine.
    - [RepoTypes]: the rows, requests, outcomes and validations of [call_engine/repository.rs], and
      the service rows ([call_service/repository.rs]) they are stored beside.  [RepoMemory],
      [RepoClaims]: every method of [CallRepository for MemoryRepository] and the functions they
      call; a closure passed to [transaction] is the definition with the suffix [_in_state].
      [RepoFrame]: what the helpers read and write.  [RepoCommit]: creation, commit and consumption
      as guards and written state.  [RepoInv]: the step relation over all methods, reachability and
      the capacity invariant.  [RepoEffects]: the effect of each step on outbox,
      deadlines and events.  [RepoOutbox], [RepoTheorems], [RepoAttach], [RepoDeadlines], [RepoFence], [RepoProgress], [RepoCatalog],
      [RepoRows], [RepoEvents]: one group of properties each.
    - [CoordModel], [CoordMemory], [CoordOutbox]: the three coordination files.  [CoordInv]: the
      invariant of the coordinator and its step relation.  [CoordTheorems], [CoordSelection],
      [CoordDelivery]: the properties of projections, worker selection and wakeups.
      [CoordOutboxThms]: the outbox, and any number of projectors at work on it, proved against the
      classes [OutboxLaws] and [ProjectionLaws].  [CoordProjector]: the standalone coordinator
      implements [ProjectionLaws], so that the projectors' guarantee holds of the two together.
    - [EgressState]: every method of the memory store.  [EgressInv]: its invariant, preserved by each
      method.  [EgressThms]: fencing and recovery.  [EgressReplay]: idempotence of commands,
      and the journal of a route as a queue.
    - [BroadcastCommands]: every method of the standalone command repository.  [BroadcastInv]: runs
      and the invariant of the rows.  [BroadcastThms]: claims, failures and takeover.
      [BroadcastExecutor]: the completion loop, the end of a command and the subscription authority
      of the worker, with their theorems.
    - [Principal], [PrincipalThms]: principals and the configured key.  [ControlCrypto],
      [CryptoThms]: digests, idempotency keys and attachment tokens.  [GatewayAttachment],
      [GatewayThms]: routing and the private exchange, composed with the coordinator of
      [CoordMemory].  [SignalingToken], [SignalingThms]: issue and verification of signaling tokens.
    - [Context], [ContextThms]: the context contract and its bridge policy.
    - [ServiceTypes], [PlanModel]: the values of the service, execution plans and their validation.
      [ServiceCommands], [ServiceMemory], [ServiceReconcile]: every method of [CallServiceRepository
      for MemoryRepository].  [ServiceEffects]: the row writes of these methods and the runs of a
      store that calls methods of both repositories in any order ([store_step],
      [store_reachable]).  [ServiceSample]: concrete runs.  [ServiceControls], [ServiceRecords],
      [ServicePlans], [ServiceLinks], [ServiceBirths]: one group of properties each.
    - [ServiceApi]: the requests, views and transcripts of the service.  [ServiceWorld]: the world a
      service operation runs in, and reasoning about it.  [ServicePlacement]: worker
      placements and attachment principals.  [ServiceOperations]: admission and creation.
      [ServiceCalls]: the operations on a call that exists.  [ServiceFlow]: a concrete
      world and a service in it.  [PlacementThms], [AdmissionThms], [CreateThms], [TranscriptThms],
      [CommandThms], [RetryThms], [GetThms]: the properties of the service's operations.
    - [Execution]: the tasks of the worker on the durable store, as programs of the same monad
      ([commit_deadline], [ensure_ending_deadline], [commit_binding_state],
      [recover_restarted_call], [reconcile_effect], [execute_provider_event], [claim_durable_work]),
      and the client states of provider dials.  [ExecutionThms]: a weakest precondition for these
      programs, the rules for their loops and the properties of the tasks.

    ** What the theorems show

    - Call engine: [decide] is exactly its handler guarded by the version counter and two hold
      conflicts; every reachable call satisfies the invariant and keeps its identity; a terminal call
      is final; superseded bindings are fenced; a recorded failure is never lost; a call that was
      asked to end is over once its ending deadline has elapsed, whatever commands came in between;
      generations reserved for replacements are never reused;
      executing the effects keeps the timers and the media graph equal to what the aggregate records.
    - Call repository: a commit is exactly the domain decision behind its guards, and nothing
      internal can make it fail; capacity is never oversold and never leaks; the deadline table is
      the image of the stored calls; effects of a call are executed one at a time in order, provider
      events once in order of receipt; a command is applied once and its receipt is stable, a
      creation is idempotent while its claim lives; an attachment token admits one connection, which the
      leg then carries; a superseded worker is refused everywhere; the indexes of the store agree with its rows; a
      route-catalogue fingerprint survives its advertisement.
    - Call service repository: an operation runs once and an exact retry is answered from its
      record; controls of a binding run one at a time in order; a plan governs its call for good; a
      connection is never rebound, and an external reference belongs to one binding.
    - Call service: creation and every command are idempotent across the whole service, tokens
      included, while the receipt is retained, and a different request under a used key is refused;
      the digested text identifies the request; a command acts on the tenant's own call alone, in
      one transaction that carries what was asked for, and a refusal changes nothing; an admitted
      connection has given every proof, by the clock at each step; selected workers are eligible
      whatever the hints say; a created call can be read from then on,
      by its tenant only.  All of it holds with arbitrary other tasks between the steps.
    - Worker execution: the tasks on a call always come to an answer, and lose at most as many races
      as the version of the call rises; an elapsed deadline is settled once, under its claim; after a
      restart every leg of a claimed call is wound up or bound anew, but for a leg whose binding is
      older than itself, and the recovery stops early only for a lost lease, an interruption, lost
      races or a refusal of the store; a provider's callback acts only
      on the leg, generation and call that the store and the client state name.
    - Context: an envelope crosses the bridge of its own call only; a context written to SIP headers
      is read back from them.
    - Coordination: projections converge whatever the order of delivery; attachment hints fail closed
      and removals are permanent; worker selection is the least loaded one, in any map order; wakeups
      are delivered in order, once, and settled by acknowledgement; the outbox is gap-free, a
      claim takes the head of the line and holds it until it expires or is acknowledged, and an
      acknowledged event is projected, however many projectors there are.
    - Private egress: the store is consistent in every reachable state; a superseded process can do
      nothing; its open routes, and no others, are handed over and stay owed until cleaned up; a
      command is acquired once and its outcome is stable; the journal is a queue.
    - Broadcasts: a claimed command is completed once, whoever else reports; a failed broadcast keeps
      its listener grant until the worker has cleaned up; a takeover fences every earlier incarnation
      of the worker; the completion loop ends in its first round while the claim lives, and in any
      case when it is cancelled, and a grant comes into force only when the stored record shows it; a
      listener is served until it is released, its broadcast revoked or
      its grant replaced.
    - Admission: two requests with the same authenticated text are the same request; an issued token
      is recognised with its digest, and its text is the only one accepted for its bytes; a principal never acts for another
      tenant; a signaling token verifies for its own attachment only, while it lives; the gateway
      sends a token to the worker that issued it or refuses.

    ** Conventions and bounds

    - Integers are [Z] or [N]; the counters stop where the code stops them ([i64::MAX] for
      persisted generations, [u64::MAX] for stream identifiers and sequences), with the error the
      code returns.  The cross-multiplied loads of worker selection are taken modulo 2^128 and shown
      never to wrap.
    - A date is its number of nanoseconds; the checked additions and conversions of [chrono] are
      parameters (class [Chrono]) with their documented behaviour as the class [ChronoLaws], which
      [chrono_sample] satisfies.  Clock readings are arguments of the methods that make them.
    - A [HashMap] is a [gmap]; where the code depends on the order in which one is visited, the order
      is an argument, constrained only to be a permutation of the map.  A [BTreeMap] is an
      association list in key order, or a [gmap] visited with [btree_entries].
    - A UUID is its 128-bit value, a digest its 256-bit value, a string the list of its scalar values.
    - Recursion is structural everywhere.  The retry loops of the worker's tasks take a number of
      rounds and answer [None] when it runs out; a round without an answer has lost a race on the
      call's version, so [MAX_PERSISTED_GENERATION] rounds are always enough.  A decimal rendering is given 20 digits, which hold every
      64-bit number ([parse_display_u64] shows that no value is cut); [poll] takes the list of
      notifications that arrive before its deadline.
    - A mutex-protected store is a value passed through; methods of one store are therefore ordered,
      as the lock orders them.  The awaits of the projector are points where an arbitrary function of
      the environment runs, which the theorems take to be steps of further projectors and producers.  An operation of the call service is a program of the monad [Svc]: at
      each step the [Environment] gives the time, fresh identifiers, whether a timeout strikes, and
      what all other tasks have done to the store since, which [EnvironmentLaws] only requires to be
      steps of the repositories; a panic is the absence of an answer.
      The tasks of the worker also ask [Ownership] whether the lease is still held.
    - Libraries are classes of parameters, each with a concrete instance; the documented behaviour
      that a theorem relies on is a class of laws, which the instance satisfies: the principal of the authentication
      library ([AuthTypes], [AuthCore], [AuthLaws], [ScopeLaws], [BearerCore]), HMAC and SHA-256
      ([Hashing], [HashingLaws]), base64 ([Base64], [Base64Laws]), Unix times ([ChronoUnix],
      [ChronoFrom]), JWT ([Jwt], [JwtLaws]), UUID text ([UuidText]), the JSON of the private
      exchange ([PrivateWire], [PrivateWireLaws]) and of contexts and destinations ([ContextWire],
      [ContextWireLaws], [DestinationJson]), the client states of provider
      dials ([ProviderWire]) and the URL, header and adapter libraries that plans are checked with
      ([ServiceLibs]).  No law says that a digest has no collision: the
      theorems speak of equal digests, or of the text that is digested.

    ** Not modelled

    The database and Redis backends (their behaviour is in SQL and Lua run elsewhere), with the row
    encodings of the in-memory repository that only they use.  The rest of the worker execution
    ([call_service/execution.rs, runtime.rs, provider_execution.rs, outbound_profiles.rs]): carrying
    out effects on the media core, an external library, the actors that run the tasks and the
    start-up of the runtime.
    Network ingress, providers, the HTTP interface, process start-up and observability, which are
    I/O.  Configuration, recipes, rate limiting, broadcast tokens, the managed broadcast service and
    context events, which are code of the same kind as what is modelled here.  Random identifiers are
    supplied by the environment; serde field encodings, the decoding of stored snapshots, zeroization
    and [Debug] output are left out of the modelled files. *)

From stdpp Require Export base tactics option list gmap strings numbers sorting fin_maps relations.
From stdpp Require Import options.
From Stdlib Require Export Lia.

(** ** Results

    Rust's [Result<A, E>].  The [?] operator is the bind of the [result E] monad, written with
    stdpp's [x ← e; k]. *)

Inductive result (E A : Type) : Type :=
| Ok (value : A)
| Err (error : E).
Arguments Ok {E A} value.
Arguments Err {E A} error.

#[export] Instance result_ret {E} : MRet (result E) := λ A x, Ok x.
#[export] Instance result_bind {E} : MBind (result E) := λ A B f r,
  match r with Ok x => f x | Err e => Err e end.
#[export] Instance result_fmap {E} : FMap (result E) := λ A B f r,
  match r with Ok x => Ok (f x) | Err e => Err e end.
#[export] Instance result_eq_dec {E A} `{EqDecision E, EqDecision A} : EqDecision (result E A).
Proof. solve_decision. Defined.

(** [Option::ok_or]. *)
Definition ok_or {E A} (o : option A) (e : E) : result E A :=
  match o with Some x => Ok x | None => Err e end.

(** [if b { return Err(e) }] followed by the rest of the body. *)
Definition reject_if {E} (b : bool) (e : E) : result E () :=
  if b then Err e else Ok ().

Definition is_ok {E A} (r : result E A) : bool :=
  match r with Ok _ => true | Err _ => false end.

(** ** Boolean tests *)

Declare Scope rust_scope.
Delimit Scope rust_scope with rust.
Notation "x ==? y" := (bool_decide (x = y)) (at level 70, no associativity) : rust_scope.
Notation "x !=? y" := (negb (bool_decide (x = y))) (at level 70, no associativity) : rust_scope.
Open Scope rust_scope.

(** [Option::is_some_and]. *)
Definition is_some_and {A} (p : A → bool) (o : option A) : bool :=
  match o with Some x => p x | None => false end.

(** [Option::is_none_or]. *)
Definition is_none_or {A} (p : A → bool) (o : option A) : bool :=
  match o with Some x => p x | None => true end.

Definition is_some {A} (o : option A) : bool :=
  match o with Some _ => true | None => false end.

Definition is_none {A} (o : option A) : bool :=
  match o with Some _ => false | None => true end.

(** ** Record update

    [r <| field := v |>] is the record [r] with one field replaced.  A record type opts in with
    an [Eta] instance that rebuilds it field by field; the setter of a projection is then
    synthesised by abstracting the projection in the rebuilt record. *)

Class Eta (R : Type) := eta : R → R.

Class SetField {R T : Type} (proj : R → T) := set_field : (T → T) → R → R.
Arguments set_field {R T} proj {_} _ _.

Ltac synth_set_field :=
  lazymatch goal with
  | |- @SetField ?R ?T ?proj =>
      let r := fresh "r" in
      let f := fresh "f" in
      let go :=
        constr:(fun (f : T → T) (r : R) =>
          ltac:(let i := constr:(_ : Eta R) in
                let body := eval hnf in (i r) in
                let b' := eval pattern (proj r) in body in
                lazymatch b' with
                | ?g (proj r) => let c := eval cbv beta in (g (f (proj r))) in exact c
                end)) in
      exact go
  end.

#[export] Hint Extern 1 (SetField _) => synth_set_field : typeclass_instances.

Notation "r <| proj := v |>" := (set_field proj (λ _, v) r)
  (at level 1, proj at level 9, v at level 200, left associativity) : rust_scope.

(** ** Machine integers *)

Open Scope Z_scope.

Definition I64_MAX : Z := 9223372036854775807.
Definition U64_MAX : Z := 18446744073709551615.

Lemma I64_MAX_pow : I64_MAX = 2 ^ 63 - 1.
Proof. reflexivity. Qed.
Lemma U64_MAX_pow : U64_MAX = 2 ^ 64 - 1.
Proof. reflexivity. Qed.

(** [u64::checked_add]. *)
Definition checked_add_u64 (a b : Z) : option Z :=
  if a + b <=? U64_MAX then Some (a + b) else None.

(** [i64::saturating_sub] on a pair of in-range operands. *)
Definition saturating_sub_i64 (a b : Z) : Z :=
  Z.max (- I64_MAX - 1) (Z.min I64_MAX (a - b)).

(** A [chrono::DateTime<Utc>], as its number of nanoseconds from the Unix epoch; the source only
    compares instants and adds bounded durations to them. *)
Definition DateTime : Type := Z.

(** [chrono::TimeDelta] and [std::time::Duration], in nanoseconds. *)
Definition Duration : Type := Z.
Definition from_secs (s : Z) : Duration := s * 1000000000.

(** A [uuid::Uuid], as its 128-bit big-endian value; the nil UUID is [0]. *)
Definition Uuid : Type := Z.
Definition is_nil (u : Uuid) : bool := u =? 0.

(** ** Shared automation *)

Create HintDb rust discriminated.

(** Turns boolean tests in the context into propositions. *)
Ltac bool_hyps :=
  repeat match goal with
  | H : (_ || _)%bool = false |- _ => apply orb_false_iff in H; destruct H
  | H : (_ && _)%bool = true |- _ => apply andb_true_iff in H; destruct H
  | H : (_ || _)%bool = true |- _ => apply orb_true_iff in H
  | H : (_ && _)%bool = false |- _ => apply andb_false_iff in H
  | H : negb _ = true |- _ => apply negb_true_iff in H
  | H : negb _ = false |- _ => apply negb_false_iff in H
  | H : bool_decide _ = true |- _ => apply bool_decide_eq_true in H
  | H : bool_decide _ = false |- _ => apply bool_decide_eq_false in H
  | H : (_ =? _) = true |- _ => apply Z.eqb_eq in H
  | H : (_ =? _) = false |- _ => apply Z.eqb_neq in H
  | H : (_ <? _) = true |- _ => apply Z.ltb_lt in H
  | H : (_ <? _) = false |- _ => apply Z.ltb_ge in H
  | H : (_ <=? _) = true |- _ => apply Z.leb_le in H
  | H : (_ <=? _) = false |- _ => apply Z.leb_gt in H
  | H : (_ =? _)%N = true |- _ => apply N.eqb_eq in H
  | H : (_ =? _)%N = false |- _ => apply N.eqb_neq in H
  | H : (_ <? _)%N = true |- _ => apply N.ltb_lt in H
  | H : (_ <? _)%N = false |- _ => apply N.ltb_ge in H
  | H : (_ <=? _)%N = true |- _ => apply N.leb_le in H
  | H : (_ <=? _)%N = false |- _ => apply N.leb_gt in H
  end.

(** Evaluates the closed equality tests of a hypothesis or of the goal. *)
Ltac eval_tests_in H :=
  repeat match type of H with
  | context [@bool_decide ?P ?d] =>
      let v := eval vm_compute in (@bool_decide P d) in
      lazymatch v with
      | true => change (@bool_decide P d) with true in H
      | false => change (@bool_decide P d) with false in H
      end
  end; cbn [negb andb orb] in H.

Ltac eval_tests :=
  repeat match goal with
  | |- context [@bool_decide ?P ?d] =>
      let v := eval vm_compute in (@bool_decide P d) in
      lazymatch v with
      | true => change (@bool_decide P d) with true
      | false => change (@bool_decide P d) with false
      end
  end; cbn [negb andb orb].

(** Walks down the branches of a computation that is known to return a given value. *)
Ltac run_in H :=
  repeat first
    [ discriminate H
    | progress (cbn beta iota in H)
    | match type of H with
      | context [match ?x with _ => _ end] =>
          lazymatch x with
          | context [match _ with _ => _ end] => fail
          | _ => let E := fresh "E" in destruct x eqn:E
          end
      end ].

Lemma reject_if_ok {E} (b : bool) (e : E) u : reject_if b e = Ok u ↔ b = false.
Proof. destruct b, u; cbn; split; congruence. Qed.

Lemma result_bind_ok {E A B} (r : result E A) (f : A → result E B) y :
  r ≫= f = Ok y ↔ ∃ x, r = Ok x ∧ f x = Ok y.
Proof. destruct r; cbn; naive_solver. Qed.

Lemma result_bind_err {E A B} (r : result E A) (f : A → result E B) e :
  r ≫= f = Err e ↔ r = Err e ∨ ∃ x, r = Ok x ∧ f x = Err e.
Proof. destruct r; cbn; naive_solver. Qed.

Lemma reject_if_err {E} (b : bool) (e e' : E) : reject_if b e = Err e' ↔ b = true ∧ e' = e.
Proof. destruct b; cbn; split; [|intros [??]| |intros [??]]; intuition congruence. Qed.

(** A guard in front of a computation. *)
Lemma bind_reject_ok {E A} (b : bool) (e : E) (r : result E A) x :
  (reject_if b e;; r) = Ok x ↔ b = false ∧ r = Ok x.
Proof. destruct b; cbn; intuition congruence. Qed.

Lemma bind_unit_ok {E A} (r : result E ()) (k : result E A) x :
  (r;; k) = Ok x ↔ r = Ok () ∧ k = Ok x.
Proof. destruct r as [[]|]; cbn; intuition congruence. Qed.

Lemma bool_impl_false (b c : bool) : b && negb c = false ↔ (b = true → c = true).
Proof. destruct b, c; cbn; intuition congruence. Qed.

Lemma negb_eqb_false (b c : bool) : (b !=? c) = false ↔ b = c.
Proof. rewrite negb_false_iff. apply bool_decide_eq_true. Qed.

(** An invariant of a step relation holds along every run. *)
Lemma rtc_preserves {A} (step : relation A) (P : A → Prop) :
  (∀ x y, P x → step x y → P y) → ∀ x y, rtc step x y → P x → P y.
Proof. intros Hstep x y Hr. induction Hr; eauto. Qed.

(** The loop [for x in l { check(x)?; }]. *)
Fixpoint try_each {A E} (check : A → result E ()) (l : list A) : result E () :=
  match l with
  | [] => Ok ()
  | x :: l => check x;; try_each check l
  end.

Lemma try_each_ok {A E} (check : A → result E ()) l :
  try_each check l = Ok () ↔ ∀ x, x ∈ l → check x = Ok ().
Proof.
  induction l as [|x l IH]; cbn.
  - split; [|done]. intros _ x Hx. by apply elem_of_nil in Hx.
  - rewrite bind_unit_ok, IH. split.
    + intros [Hx Hl] y [->|Hy]%elem_of_cons; auto.
    + intros Hall. split; [|intros y Hy]; apply Hall; set_solver.
Qed.

Lemma ok_or_ok {E A} (o : option A) (e : E) x : ok_or o e = Ok x ↔ o = Some x.
Proof. destruct o; cbn; split; congruence. Qed.

Lemma is_some_true {A} (o : option A) : is_some o = true ↔ is_Some o.
Proof. destruct o as [x|]; cbn; split; [by eexists|done|done|by intros []]. Qed.

Lemma is_some_false {A} (o : option A) : is_some o = false ↔ o = None.
Proof. by destruct o. Qed.

Lemma is_none_true {A} (o : option A) : is_none o = true ↔ o = None.
Proof. by destruct o. Qed.

(** ** Hash maps *)

(** [HashMap::values]. *)
Definition values {K} `{Countable K} {V} (m : gmap K V) : list V := (map_to_list m).*2.

(** [HashMap::contains_key]. *)
Definition contains_key {K} `{Countable K} {V} (m : gmap K V) (key : K) : bool :=
  is_some (m !! key).

(** [for row in map.values_mut().filter(p) { row = f(row) }]. *)
Definition update_where {K} `{Countable K} {V} (p : V → bool) (f : V → V) (m : gmap K V)
    : gmap K V := (λ row, if p row then f row else row) <$> m.

Lemma contains_key_false {K} `{Countable K} {V} (m : gmap K V) k :
  contains_key m k = false ↔ m !! k = None.
Proof. apply is_some_false. Qed.

Lemma update_where_lookup {K} `{Countable K} {V} p f (m : gmap K V) k v :
  update_where p f m !! k = Some v ↔ ∃ v0, m !! k = Some v0 ∧ v = if p v0 then f v0 else v0.
Proof. unfold update_where. rewrite lookup_fmap, fmap_Some. naive_solver. Qed.

Lemma values_nodup {K} `{Countable K} {V} (key : V → K) (m : gmap K V) (p : V → bool) :
  (∀ k v, m !! k = Some v → key v = k) → NoDup (map key (List.filter p (values m))).
Proof.
  intros Hkey. change (map key) with (fmap key : list V → list K).
  assert (E : key <$> values m = (map_to_list m).*1).
  { unfold values. rewrite <- list_fmap_compose. apply list_fmap_ext. intros i [k v] Hi. cbn.
    apply Hkey, elem_of_map_to_list. by eapply list_elem_of_lookup_2. }
  eapply (sublist_NoDup _ (key <$> values m)); [rewrite E; apply NoDup_fst_map_to_list|].
  generalize (values m). intros l. induction l as [|v l IH]; cbn; [constructor|].
  destruct (p v); cbn; by constructor.
Qed.

Lemma values_elem {K} `{Countable K} {V} (m : gmap K V) v :
  v ∈ values m ↔ ∃ k, m !! k = Some v.
Proof.
  unfold values. rewrite list_elem_of_fmap. split.
  - intros ([k v'] & -> & Hin). exists k. by apply elem_of_map_to_list.
  - intros [k Hk]. exists (k, v). split; [done|]. by apply elem_of_map_to_list.
Qed.

