(* ===== verification/RustText.v ===== *)
(** Rust's [char], [str] and [String] as the source uses them: a string is the list of its
    Unicode scalar values, its byte view is the UTF-8 encoding, and the character classes are
    those of the standard library ([char::is_control], [char::is_whitespace], the ASCII tests).
    After them, the orderings and sorts of the standard library. *)

From S2P Require Import Prelude.
From stdpp Require Import options.

Definition rchar : Type := Z.
Definition rstr : Type := list Z.

(** A source literal. *)
Fixpoint str (s : string) : rstr :=
  match s with
  | EmptyString => []
  | String a s' => Z.of_N (Ascii.N_of_ascii a) :: str s'
  end.

(** ** UTF-8 *)

(** [char::encode_utf8]. *)
Definition encode_utf8 (c : rchar) : list Z :=
  if c <? 128 then [c]
  else if c <? 2048 then [192 + c / 64; 128 + c mod 64]
  else if c <? 65536 then [224 + c / 4096; 128 + (c / 64) mod 64; 128 + c mod 64]
  else [240 + c / 262144; 128 + (c / 4096) mod 64; 128 + (c / 64) mod 64; 128 + c mod 64].

(** [str::bytes] and [str::len]. *)
Definition bytes (s : rstr) : list Z := s ≫= encode_utf8.
Definition len (s : rstr) : Z := Z.of_nat (length (bytes s)).

(** [str::chars().count()]. *)
Definition chars_count (s : rstr) : Z := Z.of_nat (length s).

Definition is_empty {A} (s : list A) : bool := match s with [] => true | _ => false end.

(** ** Character classes *)

Definition between (lo hi c : Z) : bool := (lo <=? c) && (c <=? hi).

(** [char::is_control]: general category Cc. *)
Definition is_control (c : rchar) : bool := between 0 31 c || between 127 159 c.

(** [char::is_whitespace]: the [White_Space] property. *)
Definition is_whitespace (c : rchar) : bool :=
  between 9 13 c || (c =? 32) || (c =? 133) || (c =? 160) || (c =? 5760)
  || between 8192 8202 c || (c =? 8232) || (c =? 8233) || (c =? 8239) || (c =? 8287)
  || (c =? 12288).

Definition is_ascii_digit (c : Z) : bool := between 48 57 c.
Definition is_ascii_lowercase (c : Z) : bool := between 97 122 c.
Definition is_ascii_uppercase (c : Z) : bool := between 65 90 c.
Definition is_ascii_alphanumeric (c : Z) : bool :=
  is_ascii_digit c || is_ascii_lowercase c || is_ascii_uppercase c.
Definition to_ascii_lowercase (c : rchar) : rchar :=
  if is_ascii_uppercase c then c + 32 else c.

(** [u8::is_ascii_control] and [u8::is_ascii_whitespace]. *)
Definition is_ascii_control (c : Z) : bool := between 0 31 c || (c =? 127).
Definition is_ascii_whitespace (c : Z) : bool :=
  (c =? 32) || (c =? 9) || (c =? 10) || (c =? 12) || (c =? 13).

(** Membership of a byte in a literal, [b"..".contains(&byte)]. *)
Definition contains (lit : string) (c : Z) : bool := bool_decide (c ∈ str lit).

(** ** Trimming *)

Fixpoint drop_while {A} (p : A → bool) (l : list A) : list A :=
  match l with
  | [] => []
  | x :: l' => if p x then drop_while p l' else l
  end.

(** [str::trim_matches]. *)
Definition trim_matches {A} (p : A → bool) (l : list A) : list A :=
  rev (drop_while p (rev (drop_while p l))).

(** [str::trim]. *)
Definition trim (s : rstr) : rstr := trim_matches is_whitespace s.

(** ** Lemmas *)

Lemma drop_while_suffix {A} (p : A → bool) l : ∃ k, l = k ++ drop_while p l ∧ forallb p k.
Proof.
  induction l as [|x l IH]; [by exists []|]. simpl. destruct (p x) eqn:Hx; [|by exists []].
  destruct IH as (k & Hk & Hp). exists (x :: k). simpl. rewrite Hx, <- Hk. done.
Qed.

Lemma drop_while_head {A} (p : A → bool) l x k : drop_while p l = x :: k → p x = false.
Proof.
  induction l as [|y l IH]; simpl; [done|]. destruct (p y) eqn:Hy; [done|]. naive_solver.
Qed.

Lemma drop_while_id {A} (p : A → bool) l :
  (∀ x k, l = x :: k → p x = false) → drop_while p l = l.
Proof. destruct l as [|x k]; [done|]. intros H. simpl. by rewrite (H x k eq_refl). Qed.

Lemma drop_while_Forall {A} (p : A → bool) (P : A → Prop) l :
  Forall P l → Forall P (drop_while p l).
Proof. induction 1; simpl; [done|]. destruct (p x); auto. Qed.

Lemma drop_while_length {A} (p : A → bool) l : (length (drop_while p l) ≤ length l)%nat.
Proof. induction l as [|x l IH]; simpl; [done|]. destruct (p x); simpl; lia. Qed.

Lemma trim_matches_Forall {A} (p : A → bool) (P : A → Prop) l :
  Forall P l → Forall P (trim_matches p l).
Proof. intros H. unfold trim_matches. by apply Forall_rev, drop_while_Forall, Forall_rev, drop_while_Forall. Qed.

Lemma trim_matches_length {A} (p : A → bool) l : (length (trim_matches p l) ≤ length l)%nat.
Proof.
  unfold trim_matches. rewrite length_rev.
  etrans; [apply drop_while_length|]. rewrite length_rev. apply drop_while_length.
Qed.

Lemma trim_matches_infix {A} (p : A → bool) l :
  ∃ k1 k2, l = k1 ++ trim_matches p l ++ k2 ∧ forallb p k1 ∧ forallb p k2.
Proof.
  unfold trim_matches. destruct (drop_while_suffix p l) as (k1 & H1 & Hp1).
  destruct (drop_while_suffix p (rev (drop_while p l))) as (k2 & H2 & Hp2).
  exists k1, (rev k2). split_and!; [|done|].
  - rewrite <- rev_app_distr, <- H2, rev_involutive. done.
  - apply Is_true_true, forallb_forall. intros x Hx. apply in_rev in Hx.
    apply Is_true_true in Hp2. eapply forallb_forall in Hp2; eauto.
Qed.

Lemma drop_while_nil_all {A} (p : A → bool) l : drop_while p l = [] → forallb p l.
Proof.
  intros H. destruct (drop_while_suffix p l) as (k & Hk & Hp).
  rewrite H, app_nil_r in Hk. by subst.
Qed.

(** Trimming is idempotent. *)
Lemma trim_matches_idemp {A} (p : A → bool) l :
  trim_matches p (trim_matches p l) = trim_matches p l.
Proof.
  unfold trim_matches. set (m := drop_while p l).
  assert (Hlast : ∀ x k, drop_while p (rev m) = x :: k → p x = false)
    by (intros x k; apply drop_while_head).
  assert (Hhead : drop_while p (rev (drop_while p (rev m))) = rev (drop_while p (rev m))).
  { apply drop_while_id. intros x k Hx.
    destruct (drop_while_suffix p (rev m)) as (s & Hs & _).
    apply (f_equal (@rev A)) in Hs. rewrite rev_involutive, rev_app_distr, Hx in Hs.
    subst m. eapply (drop_while_head p l). rewrite Hs. done. }
  rewrite Hhead, rev_involutive. f_equal. by apply drop_while_id.
Qed.

Lemma trim_matches_id {A} (p : A → bool) l x y k1 k2 :
  l = x :: k1 → l = k2 ++ [y] → p x = false → p y = false → trim_matches p l = l.
Proof.
  intros H1 H2 Hx Hy. unfold trim_matches.
  rewrite (drop_while_id p l) by (intros ?? E; rewrite H1 in E; by simplify_eq).
  rewrite drop_while_id; [apply rev_involutive|].
  intros ?? E. rewrite H2, rev_app_distr in E. by simplify_eq/=.
Qed.

Lemma encode_utf8_ascii c : c < 128 → encode_utf8 c = [c].
Proof. unfold encode_utf8. destruct (Z.ltb_spec c 128); [done|lia]. Qed.

Lemma bytes_ascii s : Forall (λ c, c < 128) s → bytes s = s.
Proof.
  unfold bytes. induction 1 as [|c s Hc _ IH]; [done|].
  cbn [mbind list_bind]. rewrite encode_utf8_ascii by done. cbn. by f_equal.
Qed.

Lemma len_ascii s : Forall (λ c, c < 128) s → len s = chars_count s.
Proof. intros H. unfold len, chars_count. by rewrite bytes_ascii. Qed.

Lemma encode_utf8_non_ascii c : 128 ≤ c → Exists (λ b, 128 ≤ b) (encode_utf8 c).
Proof.
  intros H. unfold encode_utf8.
  destruct (Z.ltb_spec c 128); [lia|].
  destruct (c <? 2048), (c <? 65536); constructor; cbn;
    match goal with |- context [c / ?d] => pose proof (Z.div_pos c d) end; lia.
Qed.

(** A byte test that only ASCII passes holds of every byte exactly when it holds of every char. *)
Lemma bytes_all_ascii (p : Z → bool) s :
  (∀ c, p c = true → c < 128) → forallb p (bytes s) = forallb p s.
Proof.
  intros Hp. unfold bytes. induction s as [|c s IH]; [done|].
  cbn [mbind list_bind forallb]. rewrite forallb_app, IH. f_equal.
  destruct (Z.lt_ge_cases c 128) as [Hc|Hc].
  - rewrite encode_utf8_ascii by done. cbn. by rewrite andb_true_r.
  - destruct (p c) eqn:E; [apply Hp in E; lia|].
    apply not_true_iff_false. rewrite forallb_forall. intros Hall.
    destruct (proj1 (Exists_exists _ _) (encode_utf8_non_ascii c Hc)) as (b & Hb & Hge).
    apply list_elem_of_In in Hb. specialize (Hp b (Hall b Hb)). lia.
Qed.

(** ** Decimal integers *)

(** [format!("{}", n)] of a [u64], whose at most twenty digits bound the recursion. *)
Fixpoint decimal_digits (fuel : nat) (n : N) (acc : rstr) : rstr :=
  match fuel with
  | O => acc
  | S fuel =>
      let acc := (48 + Z.of_N (n mod 10)) :: acc in
      if (n / 10 =? 0)%N then acc else decimal_digits fuel (n / 10)%N acc
  end.

Definition display_u64 (n : N) : rstr := decimal_digits 20 n [].

(** [str::parse::<u64>]: an optional plus sign, then digits, with checked arithmetic. *)
Fixpoint parse_digits (l : rstr) (acc : N) : option N :=
  match l with
  | [] => Some acc
  | c :: l =>
      if is_ascii_digit c then
        let acc := (acc * 10 + Z.to_N (c - 48))%N in
        if (Z.to_N U64_MAX <? acc)%N then None else parse_digits l acc
      else None
  end.

Definition parse_u64 (s : rstr) : option N :=
  match s with
  | [] => None
  | [c] => if c =? 43 then None else parse_digits s 0
  | c :: s' => if c =? 43 then parse_digits s' 0 else parse_digits s 0
  end.

(** [str::starts_with]. *)
Definition starts_with (prefix s : rstr) : bool := take (length prefix) s ==? prefix.

(** [str::strip_prefix]. *)
Definition strip_prefix (prefix s : rstr) : option rstr :=
  if starts_with prefix s then Some (drop (length prefix) s) else None.

(** [str::split_once] at a character. *)
Fixpoint split_once (separator : rchar) (value : rstr) : option (rstr * rstr) :=
  match value with
  | [] => None
  | c :: rest =>
      if c =? separator then Some ([], rest)
      else '(before, after) ← split_once separator rest; Some (c :: before, after)
  end.

(** [str::strip_suffix]. *)
Definition strip_suffix (suffix s : rstr) : option rstr :=
  let n := (length s - length suffix)%nat in
  if bool_decide (drop n s = suffix) && (length suffix <=? length s)%nat
  then Some (take n s) else None.

Lemma strip_suffix_app s suffix : strip_suffix suffix (s ++ suffix) = Some s.
Proof.
  unfold strip_suffix. rewrite length_app.
  replace (length s + length suffix - length suffix)%nat with (length s) by lia.
  rewrite drop_app_length, take_app_length, bool_decide_true by done.
  by rewrite (proj2 (Nat.leb_le _ _)) by lia.
Qed.

Lemma digit_value (n : N) : (n < 10)%N → is_ascii_digit (48 + Z.of_N n) = true ∧
  Z.to_N (48 + Z.of_N n - 48) = n.
Proof.
  intros. unfold is_ascii_digit, between. split; [|lia].
  apply andb_true_iff. rewrite !Z.leb_le. lia.
Qed.

Lemma parse_digit (n a : N) l :
  (n < 10)%N → (a * 10 + n ≤ Z.to_N U64_MAX)%N →
  parse_digits ((48 + Z.of_N n) :: l) a = parse_digits l (a * 10 + n)%N.
Proof.
  intros Hn Ha. cbn [parse_digits]. destruct (digit_value n Hn) as [-> ->].
  by destruct (N.ltb_spec (Z.to_N U64_MAX) (a * 10 + n)); [lia|].
Qed.

Lemma parse_decimal_digits fuel n acc :
  (n < 10 ^ N.of_nat fuel)%N → (n ≤ Z.to_N U64_MAX)%N → (0 < fuel)%nat →
  parse_digits (decimal_digits fuel n acc) 0 = parse_digits acc n.
Proof.
  revert n acc. induction fuel as [|fuel IH]; intros n acc Hn Hu Hf; [lia|].
  assert (Hmod : (n mod 10 < 10)%N) by (apply N.mod_lt; lia).
  pose proof (N.div_mod n 10 ltac:(lia)) as Hdiv.
  cbn [decimal_digits]. destruct (N.eqb_spec (n / 10) 0) as [E|E].
  - rewrite parse_digit by lia. f_equal. lia.
  - assert (0 < fuel)%nat by (destruct fuel; [by rewrite N.div_small in E|lia]).
    rewrite IH; [|apply N.Div0.div_lt_upper_bound| |done].
    + rewrite parse_digit by lia. f_equal. lia.
    + by rewrite Nat2N.inj_succ, N.pow_succ_r' in Hn.
    + etrans; [apply N.Div0.div_le_upper_bound|exact Hu]. lia.
Qed.

Lemma decimal_digits_head fuel n acc :
  (∀ c l, acc = c :: l → is_ascii_digit c = true) → (0 < fuel)%nat →
  ∃ c l, decimal_digits fuel n acc = c :: l ∧ is_ascii_digit c = true.
Proof.
  revert n acc. induction fuel as [|fuel IH]; intros n acc Ha Hf; [lia|]. cbn [decimal_digits].
  assert (Hd : is_ascii_digit (48 + Z.of_N (n mod 10)) = true).
  { apply digit_value, N.mod_lt. lia. }
  destruct (n / 10 =? 0)%N; [eauto|]. destruct fuel as [|fuel]; [cbn; eauto|].
  apply IH; [|lia]. by intros ? ? [= <- <-].
Qed.

Lemma parse_display_u64 n : (n ≤ Z.to_N U64_MAX)%N → parse_u64 (display_u64 n) = Some n.
Proof.
  intros Hn. destruct (decimal_digits_head 20 n []) as (c & l & E & Hc); [done|lia|].
  assert (Hp : parse_digits (display_u64 n) 0 = Some n).
  { unfold display_u64. rewrite parse_decimal_digits; [done| |done|lia].
    eapply N.le_lt_trans; [exact Hn|]. vm_compute. reflexivity. }
  unfold display_u64 in *. rewrite E in *. unfold parse_u64.
  assert ((c =? 43) = false) as Hplus.
  { apply Z.eqb_neq. intros ->. done. }
  rewrite Hplus. by destruct l.
Qed.

(** Ordering and sorting as the Rust standard library has them: [Ordering::then], the stable
    [slice::sort_by], the lexicographic order of tuples and strings, and [u128] products. *)

(** [Ordering::then]. *)
Definition then_ (first second : comparison) : comparison :=
  match first with Eq => second | _ => first end.

(** [slice::sort_by]: a stable sort. *)
Fixpoint sort_insert {A} (cmp : A → A → comparison) (x : A) (l : list A) : list A :=
  match l with
  | [] => [x]
  | y :: l' => match cmp x y with Gt => y :: sort_insert cmp x l' | _ => x :: l end
  end.

Definition sort_by {A} (cmp : A → A → comparison) (l : list A) : list A :=
  foldr (sort_insert cmp) [] l.

(** The order of strings: lexicographic in their bytes. *)
Fixpoint compare_bytes (l r : list Z) : comparison :=
  match l, r with
  | [], [] => Eq
  | [], _ => Lt
  | _, [] => Gt
  | x :: l, y :: r => then_ (x ?= y) (compare_bytes l r)
  end.

Definition compare_rstr (l r : rstr) : comparison := compare_bytes (bytes l) (bytes r).

(** [BTreeSet::iter]: the elements in increasing order. *)
Definition btree_iter (s : gset rstr) : list rstr := sort_by compare_rstr (elements s).

(** [BTreeMap::iter]: the entries in increasing order of their keys. *)
Definition btree_entries {V} (m : gmap rstr V) : list (rstr * V) :=
  sort_by (λ x y, compare_rstr x.1 y.1) (map_to_list m).

(** [u128] multiplication, with its wrap-around. *)
Definition u128_mul (a b : N) : N := ((a * b) mod 2 ^ 128)%N.

(** ** Stable sorting *)

Section Sorting.
Context {A : Type} (cmp : A → A → comparison) (P : A → Prop).

Definition cmp_le (x y : A) : Prop := cmp x y ≠ Gt.

(** [cmp] is a total preorder on the elements that satisfy [P]. *)
Hypothesis cmp_total : ∀ x y, P x → P y → cmp_le x y ∨ cmp_le y x.
Hypothesis cmp_trans : ∀ x y z, P x → P y → P z → cmp_le x y → cmp_le y z → cmp_le x z.

Lemma sort_insert_perm x l : sort_insert cmp x l ≡ₚ x :: l.
Proof.
  induction l as [|y l IH]; cbn; [done|]. destruct (cmp x y); try done.
  rewrite IH. apply perm_swap.
Qed.

Lemma sort_by_perm l : sort_by cmp l ≡ₚ l.
Proof.
  unfold sort_by. induction l as [|x l IH]; cbn; [done|]. by rewrite sort_insert_perm, IH.
Qed.

Lemma sort_insert_sorted x l :
  P x → Forall P l → StronglySorted cmp_le l → StronglySorted cmp_le (sort_insert cmp x l).
Proof using cmp_total cmp_trans.
  intros Hx Hl Hs. induction Hs as [|y l Hs IH Hy]; cbn; [repeat constructor|].
  apply Forall_cons in Hl as [Hy' Hl].
  destruct (cmp x y) eqn:E.
  1,2: assert (cmp_le x y) as Hxy by (unfold cmp_le; congruence);
    constructor; [by constructor|]; constructor; [done|]; rewrite Forall_forall in *;
    intros z Hz; apply (cmp_trans x y z); auto.
  constructor; [by apply IH|]. rewrite sort_insert_perm. constructor; [|done].
  destruct (cmp_total x y) as [Hxy|]; auto. by destruct Hxy.
Qed.

Lemma sort_by_sorted l : Forall P l → StronglySorted cmp_le (sort_by cmp l).
Proof using cmp_total cmp_trans.
  intros Hl. unfold sort_by. induction Hl as [|x l Hx Hl IH]; cbn; [constructor|].
  apply sort_insert_sorted; auto. change (foldr _ _ _) with (sort_by cmp l). by rewrite sort_by_perm.
Qed.

(** Sorting is insensitive to the input order when ties are equal. *)
Lemma sort_by_unique l l' :
  Forall P l → l ≡ₚ l' → (∀ x y, x ∈ l → y ∈ l → cmp_le x y → cmp_le y x → x = y) →
  sort_by cmp l = sort_by cmp l'.
Proof using cmp_total cmp_trans.
  intros Hl Hp Ha. assert (Forall P l') by (by rewrite <- Hp).
  eapply (StronglySorted_unique_strong cmp_le).
  - intros x y Hx Hy. rewrite sort_by_perm in Hx, Hy. rewrite <- Hp in Hy. by apply Ha.
  - by apply sort_by_sorted.
  - by apply sort_by_sorted.
  - by rewrite !sort_by_perm.
Qed.
End Sorting.

Lemma u128_mul_exact a b :
  (a ≤ Z.to_N U64_MAX → b ≤ Z.to_N U64_MAX → u128_mul a b = a * b)%N.
Proof.
  intros Ha Hb. unfold u128_mul. apply N.mod_small.
  eapply N.le_lt_trans; [apply N.mul_le_mono; eassumption|]. vm_compute. reflexivity.
Qed.
