(* ===== verification/DomainTypes.v ===== *)
(** The value types of the durable call engine ([src/call_engine/domain.rs]): identifiers,
    generations, enumerations, sanitized failures, legs, deadlines, the call aggregate, and the
    commands, effects and errors of its transition function. *)

From S2P Require Import Prelude RustText.
From stdpp Require Import options.

(** ** Limits *)

Definition MAX_TENANT_ID_BYTES : Z := 128.
Definition MAX_FAILURE_CODE_BYTES : Z := 64.
Definition MAX_FAILURE_MESSAGE_CHARS : Z := 256.
Definition MAX_PERSISTED_GENERATION : N := Z.to_N I64_MAX.

(** ** Identifiers and generations *)

Definition CallId : Type := Uuid.
Definition LegId : Type := Uuid.
Definition TenantId : Type := rstr.

(** The three [u64] newtypes; their values never exceed [MAX_PERSISTED_GENERATION] because
    [next] and deserialization refuse to, so no addition on them can wrap. *)
Definition AggregateVersion : Type := N.
Definition BindingGeneration : Type := N.
Definition DeadlineGeneration : Type := N.

(** [BindingGeneration::INITIAL]. *)
Definition BindingGeneration_INITIAL : BindingGeneration := 1%N.

(** ** Enumerations *)

Module LegDirection.
Inductive LegDirection := Inbound | Outbound.
End LegDirection.
Abbreviation LegDirection := LegDirection.LegDirection.
#[export] Instance LegDirection_eq : EqDecision LegDirection.
Proof. solve_decision. Defined.

Module SignalingInitiator.
Inductive SignalingInitiator := Bridgefu | Remote.
End SignalingInitiator.
Abbreviation SignalingInitiator := SignalingInitiator.SignalingInitiator.
#[export] Instance SignalingInitiator_eq : EqDecision SignalingInitiator.
Proof. solve_decision. Defined.

(** [SignalingInitiator::legacy_default]. *)
Definition initiator_legacy_default (direction : LegDirection) : SignalingInitiator :=
  match direction with
  | LegDirection.Inbound => SignalingInitiator.Remote
  | LegDirection.Outbound => SignalingInitiator.Bridgefu
  end.

Module MediaFlow.
Inductive MediaFlow := SendReceive | SendOnly | ReceiveOnly | Inactive.
End MediaFlow.
Abbreviation MediaFlow := MediaFlow.MediaFlow.
#[export] Instance MediaFlow_eq : EqDecision MediaFlow.
Proof. solve_decision. Defined.

Definition source_enabled (self : MediaFlow) : bool :=
  match self with MediaFlow.SendReceive | MediaFlow.ReceiveOnly => true | _ => false end.

Definition sink_enabled (self : MediaFlow) : bool :=
  match self with MediaFlow.SendReceive | MediaFlow.SendOnly => true | _ => false end.

Module LegKind.
Inductive LegKind :=
  Sip | InteractiveWebRtc | Whip | Whep | AmazonConnect | Twilio | Telnyx | Vonage.
End LegKind.
Abbreviation LegKind := LegKind.LegKind.
#[export] Instance LegKind_eq : EqDecision LegKind.
Proof. solve_decision. Defined.

Module CallState.
Inductive CallState :=
  Pending | Connecting | Active | Transferring | Ending | Ended | Failed.
End CallState.
Abbreviation CallState := CallState.CallState.
#[export] Instance CallState_eq : EqDecision CallState.
Proof. solve_decision. Defined.

(** [CallState::is_terminal]. *)
Definition call_is_terminal (self : CallState) : bool :=
  match self with CallState.Ended | CallState.Failed => true | _ => false end.

Module LegState.
Inductive LegState :=
  Pending | AwaitingAttach | Signaling | Connected | Held | Ending | Ended | Failed.
End LegState.
Abbreviation LegState := LegState.LegState.
#[export] Instance LegState_eq : EqDecision LegState.
Proof. solve_decision. Defined.

(** [LegState::is_terminal]. *)
Definition leg_is_terminal (self : LegState) : bool :=
  match self with LegState.Ended | LegState.Failed => true | _ => false end.

Module DeadlineKind.
Inductive DeadlineKind := Setup | Media | Transfer | Ending.
End DeadlineKind.
Abbreviation DeadlineKind := DeadlineKind.DeadlineKind.
#[export] Instance DeadlineKind_eq : EqDecision DeadlineKind.
Proof. solve_decision. Defined.

Module SourceBeforeAnswerTermination.
Inductive SourceBeforeAnswerTermination := Cancelled | RemoteEnded | Failed.
End SourceBeforeAnswerTermination.
Abbreviation SourceBeforeAnswerTermination :=
  SourceBeforeAnswerTermination.SourceBeforeAnswerTermination.
#[export] Instance SourceBeforeAnswerTermination_eq : EqDecision SourceBeforeAnswerTermination.
Proof. solve_decision. Defined.

Module StopLegReason.
Inductive StopLegReason := Requested | PeerEnded | Failure | DeadlineExpired.
End StopLegReason.
Abbreviation StopLegReason := StopLegReason.StopLegReason.
#[export] Instance StopLegReason_eq : EqDecision StopLegReason.
Proof. solve_decision. Defined.

Module CommandDisposition.
Inductive CommandDisposition := Applied | IgnoredNoop | IgnoredStaleGeneration.
End CommandDisposition.
Abbreviation CommandDisposition := CommandDisposition.CommandDisposition.
#[export] Instance CommandDisposition_eq : EqDecision CommandDisposition.
Proof. solve_decision. Defined.

(** ** Errors *)

Inductive DomainError :=
| InvalidIdentifier (kind : string)
| InvalidTenantId
| UnsafeFailureDetails
| DuplicateLegId (id : LegId)
| UnknownLeg (id : LegId)
| InvalidCallTransition (from : CallState) (command : string)
| InvalidLegTransition (from to : LegState)
| FailureRequired
| UnexpectedFailure
| TimestampRegression
| DeadlineNotFuture
| DeadlineNotElapsed
| FutureBindingGeneration (leg_id : LegId) (current supplied : N)
| FutureDeadlineGeneration (kind : DeadlineKind) (current supplied : N)
| GenerationExhausted (kind : string)
| InvalidSnapshot (message : string)
| InvalidMediaPlan (message : string).
#[export] Instance DomainError_eq : EqDecision DomainError.
Proof. solve_decision. Defined.

(** The [from_uuid] constructor shared by [CallId] and [LegId] ([uuid_id!]). *)
Definition from_uuid (label : string) (value : Uuid) : result DomainError Uuid :=
  if is_nil value then Err (InvalidIdentifier label) else Ok value.

Definition tenant_byte (byte : Z) : bool := is_ascii_alphanumeric byte || contains "._:-" byte.

(** [TenantId::parse]. *)
Definition TenantId_parse (value : rstr) : result DomainError TenantId :=
  let valid :=
    negb (is_empty value) && (len value <=? MAX_TENANT_ID_BYTES)
    && forallb tenant_byte (bytes value) in
  if negb valid then Err InvalidTenantId else Ok value.

(** The [next] functions of the three generation types. *)
Definition AggregateVersion_next (self : AggregateVersion) : result DomainError AggregateVersion :=
  if (MAX_PERSISTED_GENERATION <=? self)%N then Err (GenerationExhausted "aggregate_version")
  else Ok (self + 1)%N.

Definition BindingGeneration_next (self : BindingGeneration)
    : result DomainError BindingGeneration :=
  if (MAX_PERSISTED_GENERATION <=? self)%N then Err (GenerationExhausted "binding_generation")
  else Ok (self + 1)%N.

Definition DeadlineGeneration_next (self : DeadlineGeneration)
    : result DomainError DeadlineGeneration :=
  if (MAX_PERSISTED_GENERATION <=? self)%N then Err (GenerationExhausted "deadline_generation")
  else Ok (self + 1)%N.

(** The range checks of the three [Deserialize] instances. *)
Definition AggregateVersion_deserialize (value : N) : option AggregateVersion :=
  if (MAX_PERSISTED_GENERATION <? value)%N then None else Some value.

Definition BindingGeneration_deserialize (value : N) : option BindingGeneration :=
  if ((value =? 0) || (MAX_PERSISTED_GENERATION <? value))%N then None else Some value.

Definition DeadlineGeneration_deserialize (value : N) : option DeadlineGeneration :=
  if (MAX_PERSISTED_GENERATION <? value)%N then None else Some value.

(** ** Sanitized failures *)

Record FailureDetails := {
  fd_code : rstr;
  fd_message : rstr;
  fd_retryable : bool;
}.
#[export] Instance FailureDetails_eq : EqDecision FailureDetails.
Proof. solve_decision. Defined.

Definition failure_code_byte (byte : Z) : bool :=
  is_ascii_lowercase byte || is_ascii_digit byte || contains "._-" byte.

Definition valid_failure_code (value : rstr) : bool :=
  negb (is_empty value) && (len value <=? MAX_FAILURE_CODE_BYTES)
  && forallb failure_code_byte (bytes value).

Definition valid_failure_message (value : rstr) : bool :=
  negb (is_empty value) && (chars_count value <=? MAX_FAILURE_MESSAGE_CHARS)
  && negb (existsb is_control value).

(** [FailureDetails::new], also the body of its [Deserialize] instance. *)
Definition FailureDetails_new (code message : rstr) (retryable : bool)
    : result DomainError FailureDetails :=
  if negb (valid_failure_code code) || negb (valid_failure_message message)
  then Err UnsafeFailureDetails
  else Ok {| fd_code := code; fd_message := message; fd_retryable := retryable |}.

(** The character map of [FailureDetails::sanitized]'s code. *)
Definition sanitize_code_char (character : rchar) : rchar :=
  let character := to_ascii_lowercase character in
  if is_ascii_alphanumeric character || contains "._-" character then character else 95.

Definition sanitize_code (code : rstr) : rstr :=
  let safe_code :=
    take (Z.to_nat MAX_FAILURE_CODE_BYTES) (map sanitize_code_char code) in
  let safe_code := trim_matches (λ c, c =? 95) safe_code in
  if is_empty safe_code then str "unknown_failure" else safe_code.

(** The loop over [message.chars()], with its early [break]. *)
Fixpoint sanitize_message_loop (chars safe_message : rstr) (previous_whitespace : bool) : rstr :=
  match chars with
  | [] => safe_message
  | character :: chars =>
      let character := if is_control character then 32 else character in
      let '(safe_message, previous_whitespace) :=
        if is_whitespace character then
          (if negb previous_whitespace && negb (is_empty safe_message)
           then safe_message ++ [32] else safe_message, true)
        else (safe_message ++ [character], false) in
      if MAX_FAILURE_MESSAGE_CHARS <=? chars_count safe_message then safe_message
      else sanitize_message_loop chars safe_message previous_whitespace
  end.

Definition sanitize_message (message : rstr) : rstr :=
  let safe_message := trim (sanitize_message_loop message [] false) in
  if is_empty safe_message then str "operation failed" else safe_message.

(** [FailureDetails::sanitized]. *)
Definition sanitized (code message : rstr) (retryable : bool) : FailureDetails :=
  {| fd_code := sanitize_code code;
     fd_message := sanitize_message message;
     fd_retryable := retryable |}.

(** ** Legs *)

Record LegSpec := { spec_direction : LegDirection; spec_kind : LegKind }.

Record LegSemantics := {
  sem_signaling_initiator : SignalingInitiator;
  sem_media_flow : MediaFlow;
}.

(** [LegSemantics::legacy_default]. *)
Definition semantics_legacy_default (direction : LegDirection) : LegSemantics :=
  {| sem_signaling_initiator := initiator_legacy_default direction;
     sem_media_flow := MediaFlow.SendReceive |}.

Record Leg := {
  leg_id : LegId;
  leg_direction : LegDirection;
  leg_kind : LegKind;
  leg_signaling_initiator : option SignalingInitiator;
  leg_media_flow : MediaFlow;
  leg_state : LegState;
  leg_binding_generation : BindingGeneration;
  leg_replacement_generation_cursor : option BindingGeneration;
  leg_created_at : DateTime;
  leg_state_changed_at : DateTime;
  leg_connected_at : option DateTime;
  leg_ended_at : option DateTime;
  leg_failure : option FailureDetails;
}.
#[export] Instance Leg_eta : Eta Leg := λ r,
  {| leg_id := leg_id r; leg_direction := leg_direction r; leg_kind := leg_kind r;
     leg_signaling_initiator := leg_signaling_initiator r; leg_media_flow := leg_media_flow r;
     leg_state := leg_state r; leg_binding_generation := leg_binding_generation r;
     leg_replacement_generation_cursor := leg_replacement_generation_cursor r;
     leg_created_at := leg_created_at r; leg_state_changed_at := leg_state_changed_at r;
     leg_connected_at := leg_connected_at r; leg_ended_at := leg_ended_at r;
     leg_failure := leg_failure r |}.

(** [Leg::new]. *)
Definition Leg_new (id : LegId) (spec : LegSpec) (semantics : LegSemantics) (now : DateTime)
    : Leg :=
  {| leg_id := id;
     leg_direction := spec_direction spec;
     leg_kind := spec_kind spec;
     leg_signaling_initiator := Some (sem_signaling_initiator semantics);
     leg_media_flow := sem_media_flow semantics;
     leg_state := LegState.Pending;
     leg_binding_generation := BindingGeneration_INITIAL;
     leg_replacement_generation_cursor := None;
     leg_created_at := now;
     leg_state_changed_at := now;
     leg_connected_at := None;
     leg_ended_at := None;
     leg_failure := None |}.

(** The accessor [Leg::signaling_initiator]. *)
Definition signaling_initiator (self : Leg) : SignalingInitiator :=
  match leg_signaling_initiator self with
  | Some initiator => initiator
  | None => initiator_legacy_default (leg_direction self)
  end.

(** The accessor [Leg::replacement_generation_cursor]. *)
Definition replacement_generation_cursor (self : Leg) : BindingGeneration :=
  match leg_replacement_generation_cursor self with
  | Some generation => generation
  | None => leg_binding_generation self
  end.

Definition next_replacement_binding_generation (self : Leg)
    : result DomainError BindingGeneration :=
  BindingGeneration_next (replacement_generation_cursor self).

(** ** Deadlines *)

Record DeadlineSlot := {
  slot_generation : DeadlineGeneration;
  slot_due_at : option DateTime;
}.
#[export] Instance DeadlineSlot_eta : Eta DeadlineSlot := λ r,
  {| slot_generation := slot_generation r; slot_due_at := slot_due_at r |}.

(** [DeadlineSlot::default()]. *)
Definition DeadlineSlot_default : DeadlineSlot := {| slot_generation := 0%N; slot_due_at := None |}.

Record CallDeadlines := {
  dl_setup : DeadlineSlot;
  dl_media : DeadlineSlot;
  dl_transfer : DeadlineSlot;
  dl_ending : DeadlineSlot;
}.
#[export] Instance CallDeadlines_eta : Eta CallDeadlines := λ r,
  {| dl_setup := dl_setup r; dl_media := dl_media r; dl_transfer := dl_transfer r;
     dl_ending := dl_ending r |}.

(** [CallDeadlines::get]. *)
Definition deadline_get (self : CallDeadlines) (kind : DeadlineKind) : DeadlineSlot :=
  match kind with
  | DeadlineKind.Setup => dl_setup self
  | DeadlineKind.Media => dl_media self
  | DeadlineKind.Transfer => dl_transfer self
  | DeadlineKind.Ending => dl_ending self
  end.

(** A write through [CallDeadlines::get_mut]. *)
Definition deadline_put (self : CallDeadlines) (kind : DeadlineKind) (slot : DeadlineSlot)
    : CallDeadlines :=
  match kind with
  | DeadlineKind.Setup => self <| dl_setup := slot |>
  | DeadlineKind.Media => self <| dl_media := slot |>
  | DeadlineKind.Transfer => self <| dl_transfer := slot |>
  | DeadlineKind.Ending => self <| dl_ending := slot |>
  end.

(** ** The aggregate *)

Inductive TerminalOutcome :=
| OutcomeEnded
| OutcomeFailed (failure : FailureDetails).
#[export] Instance TerminalOutcome_eq : EqDecision TerminalOutcome.
Proof. solve_decision. Defined.

Record LegReplacement := {
  rp_leg_id : LegId;
  rp_previous_binding_generation : BindingGeneration;
  rp_pending_binding_generation : BindingGeneration;
  rp_pending_kind : LegKind;
}.

(** The fixed array [[Leg; 2]] and its indices. *)
Inductive LegIndex := Leg0 | Leg1.
#[export] Instance LegIndex_eq : EqDecision LegIndex.
Proof. solve_decision. Defined.

Record CallAggregate := {
  ca_id : CallId;
  ca_tenant_id : TenantId;
  ca_version : AggregateVersion;
  ca_state : CallState;
  ca_leg0 : Leg;
  ca_leg1 : Leg;
  ca_deadlines : CallDeadlines;
  ca_terminal_outcome : option TerminalOutcome;
  ca_replacement : option LegReplacement;
  ca_created_at : DateTime;
  ca_updated_at : DateTime;
  ca_state_changed_at : DateTime;
}.
#[export] Instance CallAggregate_eta : Eta CallAggregate := λ r,
  {| ca_id := ca_id r; ca_tenant_id := ca_tenant_id r; ca_version := ca_version r;
     ca_state := ca_state r; ca_leg0 := ca_leg0 r; ca_leg1 := ca_leg1 r;
     ca_deadlines := ca_deadlines r; ca_terminal_outcome := ca_terminal_outcome r;
     ca_replacement := ca_replacement r; ca_created_at := ca_created_at r;
     ca_updated_at := ca_updated_at r; ca_state_changed_at := ca_state_changed_at r |}.

(** [self.legs[index]], read and written. *)
Definition leg_at (self : CallAggregate) (index : LegIndex) : Leg :=
  match index with Leg0 => ca_leg0 self | Leg1 => ca_leg1 self end.

Definition set_leg (self : CallAggregate) (index : LegIndex) (leg : Leg) : CallAggregate :=
  match index with
  | Leg0 => self <| ca_leg0 := leg |>
  | Leg1 => self <| ca_leg1 := leg |>
  end.

(** [self.legs.iter()]. *)
Definition legs (self : CallAggregate) : list Leg := [ca_leg0 self; ca_leg1 self].

(** ** Commands and effects *)

Inductive TransferResult :=
| TransferCompleted
| TransferRejected (failure : FailureDetails).

Inductive LegReplacementResult :=
| ReplacementConnected
| ReplacementRejected (failure : FailureDetails).

Inductive CallCommand :=
| StartConnecting (at_ setup_deadline : DateTime)
| SetLegState (at_ : DateTime) (leg_id : LegId) (binding_generation : BindingGeneration)
    (state : LegState) (failure : option FailureDetails)
| SourceTerminatedBeforeAnswer (at_ : DateTime) (source_leg_id : LegId)
    (binding_generation : BindingGeneration) (reason : SourceBeforeAnswerTermination)
| ProviderMediaStarted (at_ : DateTime) (leg_id : LegId) (binding_generation : BindingGeneration)
| ProviderMediaAttached (at_ : DateTime) (leg_id : LegId) (binding_generation : BindingGeneration)
| RotateLegBinding (at_ : DateTime) (leg_id : LegId) (binding_generation : BindingGeneration)
| ArmDeadline (at_ : DateTime) (kind : DeadlineKind) (due_at : DateTime)
| BeginTransfer (at_ transfer_deadline : DateTime)
| BeginLegReplacement (at_ : DateTime) (leg_id : LegId) (pending_kind : LegKind)
    (transfer_deadline : DateTime)
| FinishTransfer (at_ : DateTime) (deadline_generation : DeadlineGeneration)
    (result : TransferResult)
| FinishLegReplacement (at_ : DateTime) (deadline_generation : DeadlineGeneration)
    (pending_binding_generation : BindingGeneration) (result : LegReplacementResult)
| BeginEnding (at_ : DateTime) (ending_deadline : option DateTime) (reason : StopLegReason)
| DeadlineElapsed (at_ : DateTime) (kind : DeadlineKind) (generation : DeadlineGeneration)
    (ending_deadline : option DateTime).

(** [CallCommand::at]. *)
Definition command_at (self : CallCommand) : DateTime :=
  match self with
  | StartConnecting at_ _
  | SetLegState at_ _ _ _ _
  | SourceTerminatedBeforeAnswer at_ _ _ _
  | ProviderMediaStarted at_ _ _
  | ProviderMediaAttached at_ _ _
  | RotateLegBinding at_ _ _
  | ArmDeadline at_ _ _
  | BeginTransfer at_ _
  | BeginLegReplacement at_ _ _ _
  | FinishTransfer at_ _ _
  | FinishLegReplacement at_ _ _ _
  | BeginEnding at_ _ _
  | DeadlineElapsed at_ _ _ _ => at_
  end.

Inductive EffectIntent :=
| StartLeg (leg_id : LegId) (binding_generation : BindingGeneration) (kind : LegKind)
    (direction : LegDirection)
| ConnectProviderDestination (leg_id : LegId) (binding_generation : BindingGeneration)
| AwaitLegAttachment (leg_id : LegId) (binding_generation : BindingGeneration)
| BridgeMedia (left_leg_id right_leg_id : LegId)
| UnbridgeMedia (left_leg_id right_leg_id : LegId)
| StopLeg (leg_id : LegId) (binding_generation : BindingGeneration) (reason : StopLegReason)
| ScheduleDeadline (kind : DeadlineKind) (generation : DeadlineGeneration) (due_at : DateTime)
| CancelDeadline (kind : DeadlineKind) (generation : DeadlineGeneration)
| ExecuteTransfer (deadline_generation : DeadlineGeneration)
| StartLegReplacement (leg_id : LegId) (previous_binding_generation : BindingGeneration)
    (pending_binding_generation : BindingGeneration) (kind : LegKind)
    (deadline_generation : DeadlineGeneration)
| AbortLegReplacement (leg_id : LegId) (pending_binding_generation : BindingGeneration)
| CompensateTransfer (failure : FailureDetails).

Record CommandResult := {
  cr_at : DateTime;
  cr_effects : list EffectIntent;
  cr_disposition : CommandDisposition;
}.

Record CallDecision := {
  cd_aggregate : CallAggregate;
  cd_effects : list EffectIntent;
  cd_disposition : CommandDisposition;
}.
