(* ===== verification/FailureText.v ===== *)
(** [FailureDetails::sanitized] turns any provider text into details that
    [FailureDetails::new] accepts, and is the identity on text that is already sanitized. *)

From S2P Require Import Prelude RustText DomainTypes.
From stdpp Require Import options.

(** ** Codes *)

Ltac char_cases :=
  unfold failure_code_byte, sanitize_code_char, to_ascii_lowercase, is_ascii_alphanumeric,
    is_ascii_digit, is_ascii_lowercase, is_ascii_uppercase, between in *.

Lemma contains_punct c : contains "._-" c = true ↔ c = 46 ∨ c = 95 ∨ c = 45.
Proof.
  unfold contains. rewrite bool_decide_eq_true. cbn. rewrite !elem_of_cons, elem_of_nil. tauto.
Qed.

Lemma failure_code_byte_true c :
  failure_code_byte c = true ↔ 97 ≤ c ≤ 122 ∨ 48 ≤ c ≤ 57 ∨ c = 46 ∨ c = 95 ∨ c = 45.
Proof.
  unfold failure_code_byte. rewrite !orb_true_iff, contains_punct.
  unfold is_ascii_lowercase, is_ascii_digit, between. rewrite !andb_true_iff, !Z.leb_le. tauto.
Qed.

Lemma failure_code_byte_ascii c : failure_code_byte c = true → c < 128.
Proof. rewrite failure_code_byte_true. lia. Qed.

Lemma sanitize_code_char_valid c : failure_code_byte (sanitize_code_char c) = true.
Proof.
  apply failure_code_byte_true. unfold sanitize_code_char.
  destruct (_ || _) eqn:E; [|lia].
  rewrite orb_true_iff, contains_punct in E. destruct E as [E|E]; [|lia].
  char_cases. rewrite !orb_true_iff, !andb_true_iff, !Z.leb_le in E.
  destruct (Z.leb_spec 65 c), (Z.leb_spec c 90); cbn in *; lia.
Qed.

Lemma sanitize_code_char_id c : failure_code_byte c = true → sanitize_code_char c = c.
Proof.
  rewrite failure_code_byte_true. intros H. unfold sanitize_code_char.
  assert (to_ascii_lowercase c = c) as ->.
  { char_cases. destruct (Z.leb_spec 65 c), (Z.leb_spec c 90); cbn; lia. }
  replace (is_ascii_alphanumeric c || contains "._-" c) with true; [done|].
  symmetry. apply orb_true_iff. rewrite contains_punct. char_cases.
  rewrite !orb_true_iff, !andb_true_iff, !Z.leb_le. lia.
Qed.

Definition clean_code (s : rstr) : Prop := Forall (λ c, failure_code_byte c = true) s.

Lemma clean_code_len s : clean_code s → len s = chars_count s ∧ forallb failure_code_byte (bytes s) = true.
Proof.
  intros H. split.
  - apply len_ascii. eapply Forall_impl; [exact H|]. apply failure_code_byte_ascii.
  - rewrite bytes_all_ascii by apply failure_code_byte_ascii. apply forallb_forall.
    intros c Hc%list_elem_of_In. by eapply Forall_forall in H.
Qed.

Lemma sanitize_code_clean s :
  clean_code (sanitize_code s) ∧ (length (sanitize_code s) ≤ 64)%nat ∧
  is_empty (sanitize_code s) = false ∧
  (trim_matches (λ c, c =? 95) (sanitize_code s) = sanitize_code s).
Proof.
  unfold sanitize_code. cbv zeta.
  set (t := take (Z.to_nat MAX_FAILURE_CODE_BYTES) (map sanitize_code_char s)).
  assert (Ht : clean_code t).
  { apply Forall_take, Forall_map, Forall_true. intros c. apply sanitize_code_char_valid. }
  assert (Hlen : (length t ≤ 64)%nat) by (subst t; rewrite length_take; unfold MAX_FAILURE_CODE_BYTES; lia).
  destruct (is_empty _) eqn:E.
  - split_and!; try reflexivity; [|cbn; lia]. repeat constructor.
  - split_and!; try done; [by apply trim_matches_Forall| |apply trim_matches_idemp].
    etrans; [apply trim_matches_length|done].
Qed.

Lemma sanitize_code_valid s : valid_failure_code (sanitize_code s) = true.
Proof.
  destruct (sanitize_code_clean s) as (Hc & Hl & He & _). generalize dependent (sanitize_code s).
  intros t Hc Hl He. destruct (clean_code_len _ Hc) as [Hlen Hb].
  unfold valid_failure_code. rewrite He, Hlen, Hb, andb_true_r.
  apply Z.leb_le. unfold chars_count, MAX_FAILURE_CODE_BYTES. lia.
Qed.

Lemma sanitize_code_idemp s : sanitize_code (sanitize_code s) = sanitize_code s.
Proof.
  destruct (sanitize_code_clean s) as (Hc & Hl & He & Ht).
  set (t := sanitize_code s) in *. clearbody t. unfold sanitize_code. cbv zeta.
  assert (map sanitize_code_char t = t) as ->.
  { clear -Hc. induction Hc; cbn; [done|]. by rewrite sanitize_code_char_id, IHHc. }
  rewrite take_ge by exact Hl. by rewrite Ht, He.
Qed.

(** ** Messages *)

(** Text in normal form: no control characters, only single spaces as whitespace. *)
Fixpoint norm (prev : bool) (l : rstr) : Prop :=
  match l with
  | [] => True
  | c :: l =>
      is_control c = false ∧ (is_whitespace c = true → c = 32 ∧ prev = false) ∧
      norm (is_whitespace c) l
  end.

(** Whether the text so far ends in whitespace. *)
Fixpoint last_ws (prev : bool) (l : rstr) : bool :=
  match l with [] => prev | c :: l => last_ws (is_whitespace c) l end.

Lemma norm_app p l1 l2 : norm p (l1 ++ l2) ↔ norm p l1 ∧ norm (last_ws p l1) l2.
Proof. revert p. induction l1 as [|c l1 IH]; intros p; cbn; [tauto|]. rewrite IH. tauto. Qed.

Lemma last_ws_app p l1 l2 : last_ws p (l1 ++ l2) = last_ws (last_ws p l1) l2.
Proof. revert p. induction l1; intros p; cbn; auto. Qed.

Lemma last_ws_nonempty p q l : l ≠ [] → last_ws p l = last_ws q l.
Proof. by destruct l. Qed.

Lemma control_not_space : is_control 32 = false.
Proof. done. Qed.

Definition shown (c : rchar) : rchar := if is_control c then 32 else c.

Lemma shown_not_control c : is_control (shown c) = false.
Proof. unfold shown. by destruct (is_control c) eqn:E. Qed.

(** The state of the loop: normalized text, and whether it ends in whitespace. *)
Definition loop_inv (acc : rstr) (prev : bool) : Prop :=
  norm true acc ∧ (acc ≠ [] → prev = last_ws true acc).

Lemma sanitize_loop_norm l acc prev :
  loop_inv acc prev → (length acc < 256)%nat →
  norm true (sanitize_message_loop l acc prev) ∧
  (length (sanitize_message_loop l acc prev) ≤ 256)%nat.
Proof.
  revert acc prev. induction l as [|c l IH]; intros acc prev [Hn Hp] Hlen;
    cbn [sanitize_message_loop]; [split; [done|lia]|].
  change (if is_control c then 32 else c) with (shown c). pose proof (shown_not_control c) as Hctl.
  assert (Hstep : ∀ acc' prev', loop_inv acc' prev' → (length acc' ≤ 256)%nat →
    let r := if MAX_FAILURE_MESSAGE_CHARS <=? chars_count acc' then acc'
             else sanitize_message_loop l acc' prev' in
    norm true r ∧ (length r ≤ 256)%nat).
  { intros acc' prev' Hi' Hl' r. subst r.
    unfold MAX_FAILURE_MESSAGE_CHARS, chars_count.
    destruct (Z.leb_spec 256 (Z.of_nat (length acc'))); [split; [apply Hi'|done]|].
    apply IH; [done|lia]. }
  destruct (is_whitespace (shown c)) eqn:Ew.
  - apply Hstep.
    + destruct acc as [|d acc]; [rewrite andb_false_r; split; [done|by intros []]|].
      specialize (Hp ltac:(done)). cbn [is_empty negb]. rewrite andb_true_r.
      destruct prev; cbn [negb]; [split; [done|by intros _]|].
      split; [|intros _; by rewrite last_ws_app].
      apply norm_app. rewrite <- Hp. split; [done|]. cbn. split_and!; auto.
    + destruct (negb prev && _); rewrite ?length_app; cbn; lia.
  - apply Hstep; [|rewrite length_app; cbn; lia].
    split; [|intros _; by rewrite last_ws_app; cbn].
    apply norm_app. split; [done|]. cbn. split_and!; auto. by rewrite Ew.
Qed.

(** Normalized text that fits goes through the loop unchanged. *)
Lemma sanitize_loop_id l acc prev :
  norm true (acc ++ l) → (acc ≠ [] → prev = last_ws true acc) → (length (acc ++ l) ≤ 256)%nat →
  sanitize_message_loop l acc prev = acc ++ l.
Proof.
  revert acc prev. induction l as [|c l IH]; intros acc prev Hn Hp Hlen;
    cbn [sanitize_message_loop]; [by rewrite app_nil_r|].
  apply norm_app in Hn as Hn'. destruct Hn' as (Ha & Hc & Hw & Hl).
  change (if is_control c then 32 else c) with (shown c). assert (shown c = c) as -> by (unfold shown; by rewrite Hc).
  assert (Hpush : (if is_whitespace c
      then (if negb prev && negb (is_empty acc) then acc ++ [32] else acc, true)
      else (acc ++ [c], false)) = (acc ++ [c], is_whitespace c)).
  { destruct (is_whitespace c) eqn:Ew; [|done]. destruct (Hw eq_refl) as [-> Hlw].
    destruct acc as [|d acc]; [done|]. specialize (Hp (λ E, nil_cons (eq_sym E))). by rewrite Hp, Hlw. }
  rewrite Hpush. rewrite length_app in Hlen. cbn in Hlen.
  assert (Ha1 : acc ++ c :: l = (acc ++ [c]) ++ l) by (by rewrite <- app_assoc).
  rewrite Ha1 in Hn |- *.
  unfold MAX_FAILURE_MESSAGE_CHARS, chars_count. rewrite length_app. cbn [length].
  destruct (Z.leb_spec 256 (Z.of_nat (length acc + 1))).
  - destruct l; [by rewrite app_nil_r|cbn in Hlen; lia].
  - apply IH; [done|intros _; by rewrite last_ws_app|].
    rewrite !length_app. cbn. lia.
Qed.

Lemma norm_no_control p l : norm p l → existsb is_control l = false.
Proof. revert p. induction l as [|c l IH]; intros p; cbn; [done|]. intros (-> & _ & H). eauto. Qed.

Lemma norm_prev p q l : (∀ c k, l = c :: k → is_whitespace c = false) → norm p l → norm q l.
Proof.
  destruct l as [|c l]; [done|]. intros Hc. cbn. rewrite (Hc c l eq_refl).
  intros (? & _ & ?). split_and!; auto; discriminate.
Qed.

Lemma trim_head s c k : trim s = c :: k → is_whitespace c = false.
Proof.
  unfold trim, trim_matches. set (m := drop_while is_whitespace s). intros H.
  destruct (drop_while_suffix is_whitespace (rev m)) as (q & Hq & _).
  apply (f_equal (@rev Z)) in Hq. rewrite rev_involutive, rev_app_distr, H in Hq.
  eapply (drop_while_head is_whitespace s). fold m. by rewrite Hq.
Qed.

Lemma norm_trim l : norm true l → norm true (trim l).
Proof.
  intros H. destruct (trim_matches_infix is_whitespace l) as (k1 & k2 & E & _). fold (trim l) in E.
  rewrite E in H. apply norm_app in H as [_ H]. apply norm_app in H as [H _].
  eapply norm_prev; [|exact H]. intros c k. apply trim_head.
Qed.

Lemma sanitize_message_norm s :
  norm true (sanitize_message s) ∧ (length (sanitize_message s) ≤ 256)%nat ∧
  is_empty (sanitize_message s) = false ∧ trim (sanitize_message s) = sanitize_message s.
Proof.
  unfold sanitize_message. cbv zeta.
  destruct (sanitize_loop_norm s [] false) as [Hn Hl]; [by split; [|intros []]|cbn; lia|].
  destruct (is_empty _) eqn:E.
  - split_and!; try reflexivity; [|cbn; lia]. cbn. repeat split; discriminate.
  - split_and!; try done; [by apply norm_trim| |apply trim_matches_idemp].
    etrans; [apply trim_matches_length|done].
Qed.

Lemma sanitize_message_valid s : valid_failure_message (sanitize_message s) = true.
Proof.
  destruct (sanitize_message_norm s) as (Hn & Hl & He & _). generalize dependent (sanitize_message s).
  intros t Hn Hl He. unfold valid_failure_message. rewrite He, (norm_no_control _ _ Hn).
  rewrite andb_true_r. apply Z.leb_le. unfold chars_count, MAX_FAILURE_MESSAGE_CHARS. lia.
Qed.

Lemma sanitize_message_idemp s : sanitize_message (sanitize_message s) = sanitize_message s.
Proof.
  destruct (sanitize_message_norm s) as (Hn & Hl & He & Ht).
  set (t := sanitize_message s) in *. clearbody t. unfold sanitize_message. cbv zeta.
  rewrite sanitize_loop_id by (done || (by intros [])). cbn [app]. by rewrite Ht, He.
Qed.

(** Sanitized failure details are always accepted by the validating constructor, whatever
    provider text they come from, and sanitizing them again changes nothing. *)
Theorem sanitized_accepted_and_stable (code message : rstr) (retryable : bool) :
  let d := sanitized code message retryable in
  FailureDetails_new (fd_code d) (fd_message d) (fd_retryable d) = Ok d ∧
  sanitized (fd_code d) (fd_message d) (fd_retryable d) = d.
Proof.
  cbn. unfold FailureDetails_new, sanitized. cbn.
  rewrite sanitize_code_valid, sanitize_message_valid, sanitize_code_idemp, sanitize_message_idemp.
  done.
Qed.
