(* ===== verification/Domain.v ===== *)
(** The pure transition function of the call engine, [CallAggregate::decide] and everything it
    calls in [src/call_engine/domain.rs].  A method that takes [&mut self] takes the aggregate
    and returns the next one; a [&mut Vec<EffectIntent>] argument is threaded the same way, in
    the order the source pushes. *)

From S2P Require Import Prelude RustText DomainTypes.
From stdpp Require Import options.

(** ** Helpers *)

Definition applied (at_ : DateTime) (effects : list EffectIntent) : CommandResult :=
  {| cr_at := at_; cr_effects := effects; cr_disposition := CommandDisposition.Applied |}.

Definition ignored (at_ : DateTime) (disposition : CommandDisposition) : CommandResult :=
  {| cr_at := at_; cr_effects := []; cr_disposition := disposition |}.

Definition valid_leg_transition (from to : LegState) : bool :=
  match from with
  | LegState.Pending =>
      match to with
      | LegState.AwaitingAttach | LegState.Signaling | LegState.Ending | LegState.Failed => true
      | _ => false
      end
  | LegState.AwaitingAttach =>
      match to with LegState.Signaling | LegState.Ending | LegState.Failed => true | _ => false end
  | LegState.Signaling =>
      match to with LegState.Connected | LegState.Ending | LegState.Failed => true | _ => false end
  | LegState.Connected =>
      match to with
      | LegState.Held | LegState.Ending | LegState.Ended | LegState.Failed => true
      | _ => false
      end
  | LegState.Held =>
      match to with
      | LegState.Connected | LegState.Ending | LegState.Ended | LegState.Failed => true
      | _ => false
      end
  | LegState.Ending => match to with LegState.Ended | LegState.Failed => true | _ => false end
  | LegState.Ended | LegState.Failed => false
  end.

Definition validate_media_flows (left right : MediaFlow) : result DomainError () :=
  let left_to_right := source_enabled left && sink_enabled right in
  let right_to_left := source_enabled right && sink_enabled left in
  if (source_enabled left !=? sink_enabled right) || (source_enabled right !=? sink_enabled left)
  then Err (InvalidMediaPlan "each enabled source requires exactly one peer sink")
  else if negb left_to_right && negb right_to_left
  then Err (InvalidMediaPlan "at least one media direction must be enabled")
  else Ok ().

Definition compare_binding_generation (leg_id : LegId) (current supplied : BindingGeneration)
    (at_ : DateTime) : result DomainError (option CommandResult) :=
  if (supplied <? current)%N then
    Ok (Some (ignored at_ CommandDisposition.IgnoredStaleGeneration))
  else if (current <? supplied)%N then Err (FutureBindingGeneration leg_id current supplied)
  else Ok None.

Definition compare_deadline_generation (self : CallAggregate) (kind : DeadlineKind)
    (supplied : DeadlineGeneration) (at_ : DateTime)
    : result DomainError (option CommandResult) :=
  let current := slot_generation (deadline_get (ca_deadlines self) kind) in
  if (supplied <? current)%N then
    Ok (Some (ignored at_ CommandDisposition.IgnoredStaleGeneration))
  else if (current <? supplied)%N then Err (FutureDeadlineGeneration kind current supplied)
  else Ok None.

Definition deadline_allowed_in (state : CallState) (kind : DeadlineKind) : bool :=
  match kind with
  | DeadlineKind.Setup => state ==? CallState.Connecting
  | DeadlineKind.Media =>
      match state with CallState.Active | CallState.Transferring => true | _ => false end
  | DeadlineKind.Transfer => state ==? CallState.Transferring
  | DeadlineKind.Ending => state ==? CallState.Ending
  end.

Definition deadline_allowed (self : CallAggregate) (kind : DeadlineKind) : bool :=
  deadline_allowed_in (ca_state self) kind.

(** [self.legs.iter().position(|leg| leg.id == id)]. *)
Definition leg_index (self : CallAggregate) (id : LegId) : result DomainError LegIndex :=
  if leg_id (ca_leg0 self) ==? id then Ok Leg0
  else if leg_id (ca_leg1 self) ==? id then Ok Leg1
  else Err (UnknownLeg id).

(** [CallAggregate::leg]. *)
Definition find_leg (self : CallAggregate) (id : LegId) : option Leg :=
  if leg_id (ca_leg0 self) ==? id then Some (ca_leg0 self)
  else if leg_id (ca_leg1 self) ==? id then Some (ca_leg1 self)
  else None.

Definition ensure_timestamp (self : CallAggregate) (at_ : DateTime) : result DomainError () :=
  if at_ <? ca_updated_at self then Err TimestampRegression else Ok ().

Definition set_call_state (self : CallAggregate) (state : CallState) (at_ : DateTime)
    : CallAggregate :=
  if ca_state self !=? state
  then self <| ca_state := state |> <| ca_state_changed_at := at_ |>
  else self.

Definition bridge_media_effect (self : CallAggregate) : EffectIntent :=
  BridgeMedia (leg_id (ca_leg0 self)) (leg_id (ca_leg1 self)).

Definition unbridge_media_effect (self : CallAggregate) : EffectIntent :=
  UnbridgeMedia (leg_id (ca_leg0 self)) (leg_id (ca_leg1 self)).

(** [self.deadlines.get_mut(kind)] written back. *)
Definition put_slot (self : CallAggregate) (kind : DeadlineKind) (slot : DeadlineSlot)
    : CallAggregate :=
  self <| ca_deadlines := deadline_put (ca_deadlines self) kind slot |>.

Definition cancel_deadline_internal (kind : DeadlineKind) (st : CallAggregate * list EffectIntent)
    : CallAggregate * list EffectIntent :=
  let '(self, effects) := st in
  let slot := deadline_get (ca_deadlines self) kind in
  match slot_due_at slot with
  | Some _ =>
      (put_slot self kind (slot <| slot_due_at := None |>),
       effects ++ [CancelDeadline kind (slot_generation slot)])
  | None => (self, effects)
  end.

Definition arm_deadline_internal (kind : DeadlineKind) (due_at : DateTime)
    (st : CallAggregate * list EffectIntent)
    : result DomainError (DeadlineGeneration * (CallAggregate * list EffectIntent)) :=
  let '(self, effects) := cancel_deadline_internal kind st in
  let slot := deadline_get (ca_deadlines self) kind in
  generation ← DeadlineGeneration_next (slot_generation slot);
  Ok (generation,
      (put_slot self kind {| slot_generation := generation; slot_due_at := Some due_at |},
       effects ++ [ScheduleDeadline kind generation due_at])).

Definition all_legs (p : Leg → bool) (self : CallAggregate) : bool := forallb p (legs self).
Definition any_leg (p : Leg → bool) (self : CallAggregate) : bool := existsb p (legs self).

(** [self.legs.iter().find_map(|leg| leg.failure.clone())]. *)
Definition first_leg_failure (self : CallAggregate) : option FailureDetails :=
  match leg_failure (ca_leg0 self) with
  | Some failure => Some failure
  | None => leg_failure (ca_leg1 self)
  end.

Definition finalize_terminal (at_ : DateTime) (st : CallAggregate * list EffectIntent)
    : CallAggregate * list EffectIntent :=
  let st := cancel_deadline_internal DeadlineKind.Setup st in
  let st := cancel_deadline_internal DeadlineKind.Media st in
  let st := cancel_deadline_internal DeadlineKind.Transfer st in
  let '(self, effects) := cancel_deadline_internal DeadlineKind.Ending st in
  let self :=
    match first_leg_failure self with
    | Some failure => self <| ca_terminal_outcome := Some (OutcomeFailed failure) |>
    | None => self
    end in
  let '(self, final_state) :=
    match ca_terminal_outcome self with
    | Some (OutcomeFailed _) => (self, CallState.Failed)
    | Some OutcomeEnded | None =>
        (self <| ca_terminal_outcome := Some OutcomeEnded |>, CallState.Ended)
    end in
  (set_call_state self final_state at_, effects).

(** One iteration of the stop loop of [begin_ending_internal]. *)
Definition stop_leg (at_ : DateTime) (reason : StopLegReason) (leg : Leg)
    : Leg * list EffectIntent :=
  if negb (leg_is_terminal (leg_state leg)) && (leg_state leg !=? LegState.Ending)
  then (leg <| leg_state := LegState.Ending |> <| leg_state_changed_at := at_ |>,
        [StopLeg (leg_id leg) (leg_binding_generation leg) reason])
  else (leg, []).

(** [match (&self.terminal_outcome, outcome)]: a recorded failure is never overwritten. *)
Definition merge_outcome (existing : option TerminalOutcome) (outcome : TerminalOutcome)
    : option TerminalOutcome :=
  match existing with
  | Some (OutcomeFailed existing) => Some (OutcomeFailed existing)
  | _ => Some outcome
  end.

Definition begin_ending_internal (at_ : DateTime) (outcome : TerminalOutcome)
    (reason : StopLegReason) (ending_deadline : option DateTime)
    (st : CallAggregate * list EffectIntent)
    : result DomainError (CallAggregate * list EffectIntent) :=
  let '(self, effects) := st in
  let effects :=
    match ca_state self with
    | CallState.Active | CallState.Transferring => effects ++ [unbridge_media_effect self]
    | _ => effects
    end in
  let '(self, effects) :=
    match ca_replacement self with
    | Some replacement =>
        (self <| ca_replacement := None |>,
         effects ++ [AbortLegReplacement (rp_leg_id replacement)
                       (rp_pending_binding_generation replacement)])
    | None => (self, effects)
    end in
  let st := cancel_deadline_internal DeadlineKind.Setup (self, effects) in
  let st := cancel_deadline_internal DeadlineKind.Media st in
  let '(self, effects) := cancel_deadline_internal DeadlineKind.Transfer st in
  let self := self <| ca_terminal_outcome := merge_outcome (ca_terminal_outcome self) outcome |> in
  let self := set_call_state self CallState.Ending at_ in
  let '(leg0, stop0) := stop_leg at_ reason (ca_leg0 self) in
  let '(leg1, stop1) := stop_leg at_ reason (ca_leg1 self) in
  let self := self <| ca_leg0 := leg0 |> <| ca_leg1 := leg1 |> in
  let effects := effects ++ stop0 ++ stop1 in
  if all_legs (λ leg, leg_is_terminal (leg_state leg)) self
  then Ok (finalize_terminal at_ (self, effects))
  else
    match ending_deadline with
    | Some deadline =>
        armed ← arm_deadline_internal DeadlineKind.Ending deadline (self, effects);
        Ok armed.2
    | None => Ok (self, effects)
    end.

Definition reconcile_leg_state (changed_index : LegIndex) (at_ : DateTime)
    (st : CallAggregate * list EffectIntent)
    : result DomainError (CallAggregate * list EffectIntent) :=
  let '(self, effects) := st in
  let changed := leg_at self changed_index in
  if (ca_state self ==? CallState.Connecting)
     && all_legs (λ leg, leg_state leg ==? LegState.Connected) self
  then
    let '(self, effects) := cancel_deadline_internal DeadlineKind.Setup (self, effects) in
    let self := set_call_state self CallState.Active at_ in
    Ok (self, effects ++ [bridge_media_effect self])
  else if ca_state self ==? CallState.Ending
  then
    let self :=
      match leg_failure changed with
      | Some failure => self <| ca_terminal_outcome := Some (OutcomeFailed failure) |>
      | None => self
      end in
    if all_legs (λ leg, leg_is_terminal (leg_state leg)) self
    then Ok (finalize_terminal at_ (self, effects))
    else Ok (self, effects)
  else
    match leg_state changed with
    | LegState.Ending | LegState.Ended | LegState.Failed =>
        let outcome :=
          match leg_failure changed with
          | Some failure => OutcomeFailed failure
          | None => OutcomeEnded
          end in
        let reason :=
          if is_some (leg_failure changed) then StopLegReason.Failure
          else StopLegReason.PeerEnded in
        begin_ending_internal at_ outcome reason None (self, effects)
    | _ => Ok (self, effects)
    end.

(** ** Command handlers *)

(** The result of a handler: the mutated aggregate and its [CommandResult]. *)
Abbreviation Handled := (result DomainError (CallAggregate * CommandResult)).

(** One iteration of the leg loop of [start_connecting]. *)
Definition start_leg (at_ : DateTime) (leg : Leg) : Leg * EffectIntent :=
  if signaling_initiator leg ==? SignalingInitiator.Remote
  then (leg <| leg_state := LegState.AwaitingAttach |> <| leg_state_changed_at := at_ |>,
        AwaitLegAttachment (leg_id leg) (leg_binding_generation leg))
  else (leg, StartLeg (leg_id leg) (leg_binding_generation leg) (leg_kind leg)
               (leg_direction leg)).

Definition start_connecting (self : CallAggregate) (at_ setup_deadline : DateTime) : Handled :=
  ensure_timestamp self at_;;
  if ca_state self !=? CallState.Pending
  then Err (InvalidCallTransition (ca_state self) "start_connecting")
  else if setup_deadline <=? at_ then Err DeadlineNotFuture
  else
    let self := set_call_state self CallState.Connecting at_ in
    let '(leg0, effect0) := start_leg at_ (ca_leg0 self) in
    let '(leg1, effect1) := start_leg at_ (ca_leg1 self) in
    let self := self <| ca_leg0 := leg0 |> <| ca_leg1 := leg1 |> in
    armed ← arm_deadline_internal DeadlineKind.Setup setup_deadline (self, [effect0; effect1]);
    let '(_, (self, effects)) := armed in
    Ok (self, applied at_ effects).

(** The leg mutation of [set_leg_state]. *)
Definition update_leg_state (at_ : DateTime) (next_state : LegState)
    (failure : option FailureDetails) (leg : Leg) : Leg :=
  let leg := leg <| leg_state := next_state |> <| leg_state_changed_at := at_ |> in
  let leg :=
    if (next_state ==? LegState.Connected) && is_none (leg_connected_at leg)
    then leg <| leg_connected_at := Some at_ |> else leg in
  let leg :=
    if leg_is_terminal next_state then leg <| leg_ended_at := Some at_ |> else leg in
  leg <| leg_failure := failure |>.

Definition set_leg_state (self : CallAggregate) (at_ : DateTime) (id : LegId)
    (supplied_generation : BindingGeneration) (next_state : LegState)
    (failure : option FailureDetails) : Handled :=
  index ← leg_index self id;
  early ← compare_binding_generation id (leg_binding_generation (leg_at self index))
            supplied_generation at_;
  match early with
  | Some result => Ok (self, result)
  | None =>
  ensure_timestamp self at_;;
  if call_is_terminal (ca_state self) || (ca_state self ==? CallState.Pending)
  then Err (InvalidCallTransition (ca_state self) "set_leg_state")
  else if (next_state ==? LegState.Failed) && is_none failure then Err FailureRequired
  else if (next_state !=? LegState.Failed) && is_some failure then Err UnexpectedFailure
  else
    let current_state := leg_state (leg_at self index) in
    if current_state ==? next_state
    then Ok (self, ignored at_ CommandDisposition.IgnoredNoop)
    else if negb (valid_leg_transition current_state next_state)
    then Err (InvalidLegTransition current_state next_state)
    else if (ca_state self ==? CallState.Ending) && (current_state !=? LegState.Ending)
    then Err (InvalidLegTransition current_state next_state)
    else
      let self :=
        set_leg self index (update_leg_state at_ next_state failure (leg_at self index)) in
      st ← reconcile_leg_state index at_ (self, []);
      let '(self, effects) := st in
      Ok (self, applied at_ effects)
  end.

Definition source_failed_before_answer : FailureDetails :=
  sanitized (str "source_failed_before_answer")
    (str "the remotely initiated source failed before final answer") false.

Definition source_terminated_before_answer (self : CallAggregate) (at_ : DateTime)
    (source_leg_id : LegId) (supplied_generation : BindingGeneration)
    (reason : SourceBeforeAnswerTermination) : Handled :=
  index ← leg_index self source_leg_id;
  early ← compare_binding_generation source_leg_id
            (leg_binding_generation (leg_at self index)) supplied_generation at_;
  match early with
  | Some result => Ok (self, result)
  | None =>
  ensure_timestamp self at_;;
  let source := leg_at self index in
  if signaling_initiator source !=? SignalingInitiator.Remote
  then Err (InvalidCallTransition (ca_state self) "source_terminated_before_answer")
  else if leg_is_terminal (leg_state source)
  then Ok (self, ignored at_ CommandDisposition.IgnoredNoop)
  else if negb (match ca_state self with
                | CallState.Connecting | CallState.Ending => true | _ => false end)
          || negb (match leg_state source with
                   | LegState.Pending | LegState.AwaitingAttach | LegState.Signaling
                   | LegState.Ending => true | _ => false end)
  then Err (InvalidCallTransition (ca_state self) "source_terminated_before_answer")
  else
    let failure :=
      if reason ==? SourceBeforeAnswerTermination.Failed
      then Some source_failed_before_answer else None in
    let source :=
      source <| leg_state := if is_some failure then LegState.Failed else LegState.Ended |>
             <| leg_state_changed_at := at_ |>
             <| leg_ended_at := Some at_ |>
             <| leg_failure := failure |> in
    st ← reconcile_leg_state index at_ (set_leg self index source, []);
    let '(self, effects) := st in
    Ok (self, applied at_ effects)
  end.

(** [if leg.state == Pending { leg.state = Signaling; leg.state_changed_at = at }]. *)
Definition advance_to_signaling (at_ : DateTime) (leg : Leg) : Leg :=
  if leg_state leg ==? LegState.Pending
  then leg <| leg_state := LegState.Signaling |> <| leg_state_changed_at := at_ |>
  else leg.

Definition pending_or_signaling (state : LegState) : bool :=
  match state with LegState.Pending | LegState.Signaling => true | _ => false end.

Definition provider_media_started (self : CallAggregate) (at_ : DateTime) (id : LegId)
    (supplied_generation : BindingGeneration) : Handled :=
  index ← leg_index self id;
  early ← compare_binding_generation id (leg_binding_generation (leg_at self index))
            supplied_generation at_;
  match early with
  | Some result => Ok (self, result)
  | None =>
  ensure_timestamp self at_;;
  let leg := leg_at self index in
  if (ca_state self !=? CallState.Connecting)
     || (leg_direction leg !=? LegDirection.Outbound)
     || (leg_kind leg !=? LegKind.Telnyx)
     || negb (pending_or_signaling (leg_state leg))
  then Err (InvalidCallTransition (ca_state self) "provider_media_started")
  else
    let self := set_leg self index (advance_to_signaling at_ leg) in
    Ok (self, applied at_ [ConnectProviderDestination id supplied_generation])
  end.

Definition provider_media_attached (self : CallAggregate) (at_ : DateTime) (id : LegId)
    (supplied_generation : BindingGeneration) : Handled :=
  ensure_timestamp self at_;;
  index ← leg_index self id;
  let leg := leg_at self index in
  let ordinary :=
    (ca_state self ==? CallState.Connecting)
    && (leg_direction leg ==? LegDirection.Outbound)
    && (leg_kind leg ==? LegKind.Telnyx)
    && (leg_binding_generation leg ==? supplied_generation)
    && pending_or_signaling (leg_state leg) in
  let replacement :=
    (ca_state self ==? CallState.Transferring)
    && is_some_and (λ replacement,
         (rp_leg_id replacement ==? id)
         && (rp_pending_kind replacement ==? LegKind.Telnyx)
         && (rp_pending_binding_generation replacement ==? supplied_generation))
         (ca_replacement self) in
  if negb ordinary && negb replacement
  then Err (InvalidCallTransition (ca_state self) "provider_media_attached")
  else
    let self := if ordinary then set_leg self index (advance_to_signaling at_ leg) else self in
    Ok (self, applied at_ []).

Definition rotate_leg_binding (self : CallAggregate) (at_ : DateTime) (id : LegId)
    (supplied_generation : BindingGeneration) : Handled :=
  index ← leg_index self id;
  early ← compare_binding_generation id (leg_binding_generation (leg_at self index))
            supplied_generation at_;
  match early with
  | Some result => Ok (self, result)
  | None =>
  ensure_timestamp self at_;;
  let leg := leg_at self index in
  if (ca_state self !=? CallState.Connecting)
     || negb (match leg_state leg with
              | LegState.AwaitingAttach | LegState.Signaling => true | _ => false end)
  then Err (InvalidCallTransition (ca_state self) "rotate_leg_binding")
  else
    generation ← BindingGeneration_next (leg_binding_generation leg);
    let leg := leg <| leg_binding_generation := generation |> in
    let leg :=
      if is_some_and (λ cursor, (cursor <? leg_binding_generation leg)%N)
           (leg_replacement_generation_cursor leg)
      then leg <| leg_replacement_generation_cursor := Some (leg_binding_generation leg) |>
      else leg in
    let leg := leg <| leg_state := LegState.AwaitingAttach |> <| leg_state_changed_at := at_ |> in
    Ok (set_leg self index leg,
        applied at_ [AwaitLegAttachment id (leg_binding_generation leg)])
  end.

Definition arm_deadline_command (self : CallAggregate) (at_ : DateTime) (kind : DeadlineKind)
    (due_at : DateTime) : Handled :=
  ensure_timestamp self at_;;
  if negb (deadline_allowed self kind)
  then Err (InvalidCallTransition (ca_state self) "arm_deadline")
  else if due_at <=? at_ then Err DeadlineNotFuture
  else
    armed ← arm_deadline_internal kind due_at (self, []);
    let '(_, (self, effects)) := armed in
    Ok (self, applied at_ effects).

Definition begin_transfer (self : CallAggregate) (at_ transfer_deadline : DateTime) : Handled :=
  ensure_timestamp self at_;;
  if ca_state self !=? CallState.Active
  then Err (InvalidCallTransition (ca_state self) "begin_transfer")
  else if transfer_deadline <=? at_ then Err DeadlineNotFuture
  else
    let self := set_call_state self CallState.Transferring at_ in
    armed ← arm_deadline_internal DeadlineKind.Transfer transfer_deadline (self, []);
    let '(generation, (self, effects)) := armed in
    Ok (self, applied at_ (effects ++ [ExecuteTransfer generation])).

Definition begin_leg_replacement (self : CallAggregate) (at_ : DateTime) (id : LegId)
    (pending_kind : LegKind) (transfer_deadline : DateTime) : Handled :=
  ensure_timestamp self at_;;
  if (ca_state self !=? CallState.Active) || is_some (ca_replacement self)
  then Err (InvalidCallTransition (ca_state self) "begin_leg_replacement")
  else if transfer_deadline <=? at_ then Err DeadlineNotFuture
  else
    index ← leg_index self id;
    let leg := leg_at self index in
    if leg_state leg !=? LegState.Connected
    then Err (InvalidLegTransition (leg_state leg) LegState.Held)
    else
      let previous := leg_binding_generation leg in
      pending ← next_replacement_binding_generation leg;
      let leg :=
        leg <| leg_state := LegState.Held |> <| leg_state_changed_at := at_ |>
            <| leg_replacement_generation_cursor := Some pending |> in
      let self := set_call_state (set_leg self index leg) CallState.Transferring at_ in
      armed ← arm_deadline_internal DeadlineKind.Transfer transfer_deadline
                (self, [unbridge_media_effect self]);
      let '(deadline_generation, (self, effects)) := armed in
      let self :=
        self <| ca_replacement :=
          Some {| rp_leg_id := id;
                  rp_previous_binding_generation := previous;
                  rp_pending_binding_generation := pending;
                  rp_pending_kind := pending_kind |} |> in
      Ok (self, applied at_
            (effects ++ [StartLegReplacement id previous pending pending_kind
                           deadline_generation])).

Definition transfer_due (self : CallAggregate) : option DateTime :=
  slot_due_at (deadline_get (ca_deadlines self) DeadlineKind.Transfer).

Definition finish_transfer (self : CallAggregate) (at_ : DateTime)
    (supplied_generation : DeadlineGeneration) (result : TransferResult) : Handled :=
  early ← compare_deadline_generation self DeadlineKind.Transfer supplied_generation at_;
  match early with
  | Some result => Ok (self, result)
  | None =>
  ensure_timestamp self at_;;
  if is_some (ca_replacement self)
  then Err (InvalidCallTransition (ca_state self) "finish_transfer")
  else if is_none (transfer_due self) && (ca_state self ==? CallState.Active)
  then Ok (self, ignored at_ CommandDisposition.IgnoredNoop)
  else if (ca_state self !=? CallState.Transferring) || is_none (transfer_due self)
  then Err (InvalidCallTransition (ca_state self) "finish_transfer")
  else
    let '(self, effects) := cancel_deadline_internal DeadlineKind.Transfer (self, []) in
    let effects :=
      match result with
      | TransferRejected failure => effects ++ [CompensateTransfer failure]
      | TransferCompleted => effects
      end in
    Ok (set_call_state self CallState.Active at_, applied at_ effects)
  end.

Definition finish_leg_replacement (self : CallAggregate) (at_ : DateTime)
    (supplied_deadline_generation : DeadlineGeneration)
    (supplied_binding_generation : BindingGeneration) (result : LegReplacementResult) : Handled :=
  early ← compare_deadline_generation self DeadlineKind.Transfer supplied_deadline_generation at_;
  match early with
  | Some result => Ok (self, result)
  | None =>
  ensure_timestamp self at_;;
  match ca_replacement self with
  | None =>
      if ca_state self ==? CallState.Active
      then Ok (self, ignored at_ CommandDisposition.IgnoredNoop)
      else Err (InvalidCallTransition (ca_state self) "finish_leg_replacement")
  | Some replacement =>
  let pending := rp_pending_binding_generation replacement in
  if (ca_state self !=? CallState.Transferring) || is_none (transfer_due self)
  then Err (InvalidCallTransition (ca_state self) "finish_leg_replacement")
  else if (supplied_binding_generation <? pending)%N
  then Ok (self, ignored at_ CommandDisposition.IgnoredStaleGeneration)
  else if (pending <? supplied_binding_generation)%N
  then Err (FutureBindingGeneration (rp_leg_id replacement) pending supplied_binding_generation)
  else
    index ← leg_index self (rp_leg_id replacement);
    let '(self, effects) := cancel_deadline_internal DeadlineKind.Transfer (self, []) in
    let leg := leg_at self index in
    let '(leg, effect) :=
      match result with
      | ReplacementConnected =>
          (leg <| leg_kind := rp_pending_kind replacement |>
               <| leg_binding_generation := pending |>
               <| leg_state := LegState.Connected |>
               <| leg_state_changed_at := at_ |>
               <| leg_failure := None |>,
           StopLeg (rp_leg_id replacement) (rp_previous_binding_generation replacement)
             StopLegReason.Requested)
      | ReplacementRejected _ =>
          (leg <| leg_state := LegState.Connected |> <| leg_state_changed_at := at_ |>,
           AbortLegReplacement (rp_leg_id replacement) pending)
      end in
    let self := (set_leg self index leg) <| ca_replacement := None |> in
    let self := set_call_state self CallState.Active at_ in
    Ok (self, applied at_ (effects ++ [effect] ++ [bridge_media_effect self]))
  end
  end.

Definition begin_ending_command (self : CallAggregate) (at_ : DateTime)
    (ending_deadline : option DateTime) (reason : StopLegReason) : Handled :=
  ensure_timestamp self at_;;
  if call_is_terminal (ca_state self)
  then Err (InvalidCallTransition (ca_state self) "begin_ending")
  else if (ca_state self ==? CallState.Ending) && is_none ending_deadline
  then Ok (self, ignored at_ CommandDisposition.IgnoredNoop)
  else if is_some_and (λ deadline, deadline <=? at_) ending_deadline then Err DeadlineNotFuture
  else
    st ← begin_ending_internal at_ OutcomeEnded reason ending_deadline (self, []);
    let '(self, effects) := st in
    Ok (self, applied at_ effects).

Definition ending_timeout : FailureDetails :=
  sanitized (str "ending_timeout") (str "leg teardown deadline elapsed") false.

(** The [(code, message)] table of [deadline_elapsed]. *)
Definition timeout_failure (kind : DeadlineKind) : FailureDetails :=
  match kind with
  | DeadlineKind.Setup =>
      sanitized (str "setup_timeout") (str "call setup deadline elapsed") true
  | DeadlineKind.Media =>
      sanitized (str "media_timeout") (str "media activity deadline elapsed") true
  | DeadlineKind.Transfer =>
      sanitized (str "transfer_timeout") (str "call transfer deadline elapsed") true
  | DeadlineKind.Ending => ending_timeout
  end.

(** One iteration of the leg loop for an elapsed ending deadline. *)
Definition fail_leg (at_ : DateTime) (failure : FailureDetails) (leg : Leg) : Leg :=
  if negb (leg_is_terminal (leg_state leg))
  then leg <| leg_state := LegState.Failed |> <| leg_failure := Some failure |>
           <| leg_ended_at := Some at_ |> <| leg_state_changed_at := at_ |>
  else leg.

Definition deadline_elapsed (self : CallAggregate) (at_ : DateTime) (kind : DeadlineKind)
    (supplied_generation : DeadlineGeneration) (ending_deadline : option DateTime) : Handled :=
  early ← compare_deadline_generation self kind supplied_generation at_;
  match early with
  | Some result => Ok (self, result)
  | None =>
  let slot := deadline_get (ca_deadlines self) kind in
  match slot_due_at slot with
  | None => Ok (self, ignored at_ CommandDisposition.IgnoredStaleGeneration)
  | Some due_at =>
  ensure_timestamp self at_;;
  if at_ <? due_at then Err DeadlineNotElapsed
  else if is_some_and (λ deadline, deadline <=? at_) ending_deadline then Err DeadlineNotFuture
  else
    let self := put_slot self kind (slot <| slot_due_at := None |>) in
    if kind ==? DeadlineKind.Ending then
      let failure := ending_timeout in
      let self :=
        self <| ca_leg0 := fail_leg at_ failure (ca_leg0 self) |>
             <| ca_leg1 := fail_leg at_ failure (ca_leg1 self) |>
             <| ca_terminal_outcome := Some (OutcomeFailed failure) |> in
      let '(self, effects) := finalize_terminal at_ (self, []) in
      Ok (self, applied at_ effects)
    else
      match (if kind ==? DeadlineKind.Transfer then ca_replacement self else None) with
      | Some replacement =>
          let self := self <| ca_replacement := None |> in
          index ← leg_index self (rp_leg_id replacement);
          let leg :=
            (leg_at self index) <| leg_state := LegState.Connected |>
                                <| leg_state_changed_at := at_ |> in
          let self := set_call_state (set_leg self index leg) CallState.Active at_ in
          Ok (self, applied at_
                [AbortLegReplacement (rp_leg_id replacement)
                   (rp_pending_binding_generation replacement);
                 bridge_media_effect self])
      | None =>
          let failure := timeout_failure kind in
          let effects :=
            if kind ==? DeadlineKind.Transfer then [CompensateTransfer failure] else [] in
          st ← begin_ending_internal at_ (OutcomeFailed failure) StopLegReason.DeadlineExpired
                 ending_deadline (self, effects);
          let '(self, effects) := st in
          Ok (self, applied at_ effects)
      end
  end
  end.

Definition apply_command (self : CallAggregate) (command : CallCommand) : Handled :=
  match command with
  | StartConnecting at_ setup_deadline => start_connecting self at_ setup_deadline
  | SetLegState at_ leg_id binding_generation state failure =>
      set_leg_state self at_ leg_id binding_generation state failure
  | SourceTerminatedBeforeAnswer at_ source_leg_id binding_generation reason =>
      source_terminated_before_answer self at_ source_leg_id binding_generation reason
  | ProviderMediaStarted at_ leg_id binding_generation =>
      provider_media_started self at_ leg_id binding_generation
  | ProviderMediaAttached at_ leg_id binding_generation =>
      provider_media_attached self at_ leg_id binding_generation
  | RotateLegBinding at_ leg_id binding_generation =>
      rotate_leg_binding self at_ leg_id binding_generation
  | ArmDeadline at_ kind due_at => arm_deadline_command self at_ kind due_at
  | BeginTransfer at_ transfer_deadline => begin_transfer self at_ transfer_deadline
  | BeginLegReplacement at_ leg_id pending_kind transfer_deadline =>
      begin_leg_replacement self at_ leg_id pending_kind transfer_deadline
  | FinishTransfer at_ deadline_generation result =>
      finish_transfer self at_ deadline_generation result
  | FinishLegReplacement at_ deadline_generation pending_binding_generation result =>
      finish_leg_replacement self at_ deadline_generation pending_binding_generation result
  | BeginEnding at_ ending_deadline reason => begin_ending_command self at_ ending_deadline reason
  | DeadlineElapsed at_ kind generation ending_deadline =>
      deadline_elapsed self at_ kind generation ending_deadline
  end.

(** ** Validation *)

(** The per-leg checks of [CallAggregate::validate]. *)
Definition validate_leg (self : CallAggregate) (leg : Leg) : result DomainError () :=
  reject_if (leg_binding_generation leg =? 0)%N
    (InvalidSnapshot "leg binding generation must be nonzero");;
  reject_if (replacement_generation_cursor leg <? leg_binding_generation leg)%N
    (InvalidSnapshot "leg replacement generation cursor precedes current binding");;
  reject_if
    ((leg_created_at leg <? ca_created_at self)
     || (leg_state_changed_at leg <? leg_created_at leg)
     || (ca_updated_at self <? leg_state_changed_at leg)
     || is_some_and (λ at_, (at_ <? leg_created_at leg) || (ca_updated_at self <? at_))
          (leg_connected_at leg)
     || is_some_and (λ at_, (at_ <? leg_created_at leg) || (ca_updated_at self <? at_))
          (leg_ended_at leg))
    (InvalidSnapshot "invalid leg timestamps");;
  reject_if ((leg_state leg ==? LegState.Failed) && is_none (leg_failure leg))
    (InvalidSnapshot "failed leg must contain failure details");;
  reject_if ((leg_state leg !=? LegState.Failed) && is_some (leg_failure leg))
    (InvalidSnapshot "only failed leg may contain failure details");;
  reject_if (leg_is_terminal (leg_state leg) !=? is_some (leg_ended_at leg))
    (InvalidSnapshot "terminal leg timestamp does not match state").

Definition outcome_is_failed (outcome : option TerminalOutcome) : bool :=
  match outcome with Some (OutcomeFailed _) => true | _ => false end.

Definition connecting_leg_state (state : LegState) : bool :=
  match state with
  | LegState.Pending | LegState.AwaitingAttach | LegState.Signaling | LegState.Connected => true
  | _ => false
  end.

Definition active_leg_state (state : LegState) : bool :=
  match state with LegState.Connected | LegState.Held => true | _ => false end.

Definition ending_leg_state (state : LegState) : bool :=
  match state with LegState.Ending | LegState.Ended | LegState.Failed => true | _ => false end.

(** The [match self.state] of [CallAggregate::validate]. *)
Definition validate_state (self : CallAggregate) : result DomainError () :=
  match ca_state self with
  | CallState.Pending =>
      reject_if (any_leg (λ leg, leg_state leg !=? LegState.Pending) self)
        (InvalidSnapshot "pending call must contain pending legs")
  | CallState.Connecting =>
      reject_if (any_leg (λ leg, negb (connecting_leg_state (leg_state leg))) self)
        (InvalidSnapshot "connecting call contains an incompatible leg state")
  | CallState.Active | CallState.Transferring =>
      reject_if (any_leg (λ leg, negb (active_leg_state (leg_state leg))) self)
        (InvalidSnapshot "active call legs must be connected or held")
  | CallState.Ending =>
      reject_if (is_none (ca_terminal_outcome self)
                 || any_leg (λ leg, negb (ending_leg_state (leg_state leg))) self)
        (InvalidSnapshot "ending call requires an outcome and ending or terminal legs");;
      reject_if (any_leg (λ leg, leg_state leg ==? LegState.Failed) self
                 && negb (outcome_is_failed (ca_terminal_outcome self)))
        (InvalidSnapshot "failed ending leg requires failed terminal outcome")
  | CallState.Ended =>
      reject_if ((ca_terminal_outcome self !=? Some OutcomeEnded)
                 || any_leg (λ leg, leg_state leg !=? LegState.Ended) self)
        (InvalidSnapshot "ended call requires two normally ended legs and normal outcome")
  | CallState.Failed =>
      reject_if (negb (outcome_is_failed (ca_terminal_outcome self))
                 || any_leg (λ leg, negb (leg_is_terminal (leg_state leg))) self)
        (InvalidSnapshot "failed call requires two terminal legs and failed outcome")
  end.

(** The [if let Some(replacement)] block of [CallAggregate::validate]. *)
Definition validate_replacement (self : CallAggregate) : result DomainError () :=
  match ca_replacement self with
  | None => Ok ()
  | Some replacement =>
      leg ← ok_or (find_leg self (rp_leg_id replacement))
              (InvalidSnapshot "replacement leg does not belong to call");
      reject_if
        ((ca_state self !=? CallState.Transferring)
         || (leg_state leg !=? LegState.Held)
         || (leg_binding_generation leg !=? rp_previous_binding_generation replacement)
         || (rp_pending_binding_generation replacement !=? replacement_generation_cursor leg)
         || (rp_pending_binding_generation replacement
             <=? rp_previous_binding_generation replacement)%N
         || is_none (transfer_due self))
        (InvalidSnapshot "replacement state does not match held leg and transfer deadline")
  end.

Definition armed (self : CallAggregate) (kind : DeadlineKind) : bool :=
  is_some (slot_due_at (deadline_get (ca_deadlines self) kind)).

Definition deadline_kinds : list DeadlineKind :=
  [DeadlineKind.Setup; DeadlineKind.Media; DeadlineKind.Transfer; DeadlineKind.Ending].

(** [CallAggregate::validate]. *)
Definition validate (self : CallAggregate) : result DomainError () :=
  reject_if (leg_id (ca_leg0 self) ==? leg_id (ca_leg1 self))
    (DuplicateLegId (leg_id (ca_leg0 self)));;
  validate_media_flows (leg_media_flow (ca_leg0 self)) (leg_media_flow (ca_leg1 self));;
  reject_if ((ca_updated_at self <? ca_created_at self)
             || (ca_updated_at self <? ca_state_changed_at self))
    (InvalidSnapshot "invalid call timestamps");;
  validate_leg self (ca_leg0 self);;
  validate_leg self (ca_leg1 self);;
  validate_state self;;
  validate_replacement self;;
  reject_if ((ca_state self !=? CallState.Transferring) && is_some (ca_replacement self))
    (InvalidSnapshot "replacement exists outside transferring state");;
  reject_if (negb (match ca_state self with
                   | CallState.Ending | CallState.Ended | CallState.Failed => true
                   | _ => false end) && is_some (ca_terminal_outcome self))
    (InvalidSnapshot "non-ending call cannot have a terminal outcome");;
  reject_if (existsb (λ kind, armed self kind && negb (deadline_allowed self kind)) deadline_kinds)
    (InvalidSnapshot "deadline is armed in an incompatible call state");;
  reject_if (call_is_terminal (ca_state self) && existsb (armed self) deadline_kinds)
    (InvalidSnapshot "terminal call cannot have armed deadlines").

(** ** Construction and the decision function *)

(** [CallDeadlines::default()]. *)
Definition CallDeadlines_default : CallDeadlines :=
  {| dl_setup := DeadlineSlot_default; dl_media := DeadlineSlot_default;
     dl_transfer := DeadlineSlot_default; dl_ending := DeadlineSlot_default |}.

Definition with_ids_and_semantics (id : CallId) (tenant_id : TenantId)
    (leg_specs : (LegId * LegSpec) * (LegId * LegSpec))
    (semantics : LegSemantics * LegSemantics) (now : DateTime)
    : result DomainError CallAggregate :=
  let '((id0, spec0), (id1, spec1)) := leg_specs in
  if id0 ==? id1 then Err (DuplicateLegId id0)
  else
    let aggregate :=
      {| ca_id := id;
         ca_tenant_id := tenant_id;
         ca_version := 0%N;
         ca_state := CallState.Pending;
         ca_leg0 := Leg_new id0 spec0 semantics.1 now;
         ca_leg1 := Leg_new id1 spec1 semantics.2 now;
         ca_deadlines := CallDeadlines_default;
         ca_terminal_outcome := None;
         ca_replacement := None;
         ca_created_at := now;
         ca_updated_at := now;
         ca_state_changed_at := now |} in
    validate aggregate;;
    Ok aggregate.

Definition with_ids (id : CallId) (tenant_id : TenantId)
    (leg_specs : (LegId * LegSpec) * (LegId * LegSpec)) (now : DateTime)
    : result DomainError CallAggregate :=
  with_ids_and_semantics id tenant_id leg_specs
    (semantics_legacy_default (spec_direction leg_specs.1.2),
     semantics_legacy_default (spec_direction leg_specs.2.2)) now.

(** [CallAggregate::decide]. *)
Definition decide (self : CallAggregate) (command : CallCommand)
    : result DomainError CallDecision :=
  handled ← apply_command self command;
  let '(aggregate, command_result) := handled in
  aggregate ←
    (if cr_disposition command_result ==? CommandDisposition.Applied
     then
       version ← AggregateVersion_next (ca_version aggregate);
       Ok (aggregate <| ca_version := version |> <| ca_updated_at := cr_at command_result |>)
     else Ok aggregate);
  validate aggregate;;
  Ok {| cd_aggregate := aggregate;
        cd_effects := cr_effects command_result;
        cd_disposition := cr_disposition command_result |}.
