(* ===== verification/DomainInv.v ===== *)
(** The durable invariant of the call aggregate.

    [valid_upto u a] is what [CallAggregate::validate] checks of [a] when its last update is at
    [u], split in a part no transition touches by itself ([core_valid]: identifiers, media plan,
    timestamps and each leg's own consistency) and a part that ties the call state to the leg
    states, the replacement, the outcome and the deadlines ([shape_valid]).  The file shows that
    [validate] decides exactly this predicate and that the internal transitions
    ([begin_ending_internal], [finalize_terminal], [reconcile_leg_state], the deadline
    operations) establish it. *)

From S2P Require Import Prelude RustText DomainTypes Domain.
From stdpp Require Import options.

(** ** The invariant *)

Record valid_leg (created u : DateTime) (leg : Leg) : Prop := {
  vl_generation : leg_binding_generation leg ≠ 0%N;
  vl_cursor : (leg_binding_generation leg ≤ replacement_generation_cursor leg)%N;
  vl_created : created ≤ leg_created_at leg;
  vl_changed : leg_created_at leg ≤ leg_state_changed_at leg;
  vl_changed_u : leg_state_changed_at leg ≤ u;
  vl_connected : ∀ t, leg_connected_at leg = Some t → leg_created_at leg ≤ t ≤ u;
  vl_ended : ∀ t, leg_ended_at leg = Some t → leg_created_at leg ≤ t ≤ u;
  vl_failure : is_some (leg_failure leg) = (leg_state leg ==? LegState.Failed);
  vl_terminal : leg_is_terminal (leg_state leg) = is_some (leg_ended_at leg);
}.

Record core_valid (u : DateTime) (a : CallAggregate) : Prop := {
  cv_ids : leg_id (ca_leg0 a) ≠ leg_id (ca_leg1 a);
  cv_media : validate_media_flows (leg_media_flow (ca_leg0 a)) (leg_media_flow (ca_leg1 a)) = Ok ();
  cv_created : ca_created_at a ≤ u;
  cv_changed : ca_state_changed_at a ≤ u;
  cv_leg0 : valid_leg (ca_created_at a) u (ca_leg0 a);
  cv_leg1 : valid_leg (ca_created_at a) u (ca_leg1 a);
}.

(** Which leg states and outcome each call state admits. *)
Definition state_legs_ok (state : CallState) (s0 s1 : LegState) (outcome : option TerminalOutcome)
    : Prop :=
  match state with
  | CallState.Pending => s0 = LegState.Pending ∧ s1 = LegState.Pending ∧ outcome = None
  | CallState.Connecting =>
      connecting_leg_state s0 = true ∧ connecting_leg_state s1 = true ∧ outcome = None
  | CallState.Active | CallState.Transferring =>
      active_leg_state s0 = true ∧ active_leg_state s1 = true ∧ outcome = None
  | CallState.Ending =>
      ending_leg_state s0 = true ∧ ending_leg_state s1 = true ∧ is_some outcome = true ∧
      (s0 = LegState.Failed ∨ s1 = LegState.Failed → outcome_is_failed outcome = true)
  | CallState.Ended =>
      s0 = LegState.Ended ∧ s1 = LegState.Ended ∧ outcome = Some OutcomeEnded
  | CallState.Failed =>
      leg_is_terminal s0 = true ∧ leg_is_terminal s1 = true ∧ outcome_is_failed outcome = true
  end.

(** What a pending make-before-break attempt requires of the leg it replaces. *)
Definition replacement_leg_ok (replacement : LegReplacement) (leg : Leg) : Prop :=
  leg_state leg = LegState.Held ∧
  leg_binding_generation leg = rp_previous_binding_generation replacement ∧
  rp_pending_binding_generation replacement = replacement_generation_cursor leg ∧
  (rp_previous_binding_generation replacement < rp_pending_binding_generation replacement)%N.

Definition replacement_ok (a : CallAggregate) : Prop :=
  match ca_replacement a with
  | None => True
  | Some replacement =>
      ∃ leg, find_leg a (rp_leg_id replacement) = Some leg ∧
        ca_state a = CallState.Transferring ∧ replacement_leg_ok replacement leg ∧
        armed a DeadlineKind.Transfer = true
  end.

Record shape_valid (a : CallAggregate) : Prop := {
  sv_state : state_legs_ok (ca_state a) (leg_state (ca_leg0 a)) (leg_state (ca_leg1 a))
               (ca_terminal_outcome a);
  sv_replacement : replacement_ok a;
  sv_deadlines : ∀ kind, armed a kind = true → deadline_allowed a kind = true;
}.

Definition valid_upto (u : DateTime) (a : CallAggregate) : Prop :=
  core_valid u a ∧ shape_valid a.

(** The durable invariant. *)
Definition valid_call (a : CallAggregate) : Prop := valid_upto (ca_updated_at a) a.

(** ** [validate] decides the invariant *)

Lemma is_some_and_range lo hi (o : option Z) :
  is_some_and (λ t, (t <? lo) || (hi <? t)) o = false ↔ ∀ t, o = Some t → lo ≤ t ≤ hi.
Proof.
  destruct o as [t|]; cbn; [|naive_solver]. rewrite orb_false_iff, !Z.ltb_ge. naive_solver.
Qed.

Lemma failure_matches_state (leg : Leg) :
  (leg_state leg ==? LegState.Failed) && is_none (leg_failure leg) = false ∧
  (leg_state leg !=? LegState.Failed) && is_some (leg_failure leg) = false ↔
  is_some (leg_failure leg) = (leg_state leg ==? LegState.Failed).
Proof. destruct (leg_state leg ==? LegState.Failed), (leg_failure leg); cbn; intuition congruence. Qed.

Lemma validate_leg_ok a leg :
  validate_leg a leg = Ok () ↔ valid_leg (ca_created_at a) (ca_updated_at a) leg.
Proof.
  unfold validate_leg. rewrite !bind_reject_ok, reject_if_ok, !orb_false_iff, !is_some_and_range,
    negb_eqb_false, !Z.ltb_ge, N.ltb_ge, N.eqb_neq.
  pose proof (failure_matches_state leg) as Hf.
  split.
  - intros (?&?&[[[[??]?]?]?]&?&?&?). split; auto; apply Hf; auto.
  - intros []. apply Hf in vl_failure0. tauto.
Qed.

Lemma find_leg_Some a id leg :
  find_leg a id = Some leg → leg_id leg = id ∧ (leg = ca_leg0 a ∨ leg = ca_leg1 a).
Proof. unfold find_leg. repeat case_bool_decide; naive_solver. Qed.

Lemma validate_state_ok a :
  validate_state a = Ok () ∧
  negb (match ca_state a with CallState.Ending | CallState.Ended | CallState.Failed => true
        | _ => false end) && is_some (ca_terminal_outcome a) = false ↔
  state_legs_ok (ca_state a) (leg_state (ca_leg0 a)) (leg_state (ca_leg1 a))
    (ca_terminal_outcome a).
Proof.
  unfold validate_state, any_leg, legs.
  destruct (ca_state a); cbn [existsb negb andb state_legs_ok];
    rewrite ?bind_reject_ok, ?reject_if_ok, ?bool_impl_false, ?orb_false_r, ?orb_false_iff,
      ?negb_false_iff, ?orb_true_iff, ?bool_decide_eq_true;
    destruct (ca_terminal_outcome a) as [[]|]; cbn; intuition congruence.
Qed.

Lemma validate_replacement_ok a :
  validate_replacement a = Ok () ∧
  (ca_state a !=? CallState.Transferring) && is_some (ca_replacement a) = false ↔
  replacement_ok a.
Proof.
  unfold validate_replacement, replacement_ok, replacement_leg_ok.
  destruct (ca_replacement a) as [r|]; cbn; [|rewrite andb_false_r; naive_solver].
  rewrite andb_true_r. destruct (find_leg a (rp_leg_id r)) as [leg|]; cbn; [|naive_solver].
  rewrite reject_if_ok, !orb_false_iff, !negb_false_iff, !bool_decide_eq_true, N.leb_gt.
  unfold armed, transfer_due, is_none, is_some.
  destruct (slot_due_at _); cbn; [|naive_solver].
  split; [naive_solver|]. intros (? & [= <-] & Hs & (? & ? & ? & ?) & _). tauto.
Qed.

Lemma validate_deadlines_ok a :
  existsb (λ kind, armed a kind && negb (deadline_allowed a kind)) deadline_kinds = false ∧
  call_is_terminal (ca_state a) && existsb (armed a) deadline_kinds = false ↔
  ∀ kind, armed a kind = true → deadline_allowed a kind = true.
Proof.
  unfold deadline_kinds. cbn [existsb]. rewrite !orb_false_r, !orb_false_iff, !bool_impl_false.
  split.
  - intros [(?&?&?&?) _] []; assumption.
  - intros H. split; [split_and!; apply H|].
    destruct (call_is_terminal (ca_state a)) eqn:Et; [|done]. cbn.
    rewrite !orb_false_iff. split_and!; apply not_true_iff_false; intros Ha%H;
      unfold deadline_allowed in Ha; destruct (ca_state a); discriminate.
Qed.

Lemma validate_ok a : validate a = Ok () ↔ valid_call a.
Proof.
  unfold validate, valid_call, valid_upto.
  rewrite !bind_unit_ok, !reject_if_ok, !validate_leg_ok, bool_decide_eq_false, orb_false_iff, !Z.ltb_ge.
  pose proof (validate_state_ok a) as Hs. pose proof (validate_replacement_ok a) as Hr.
  pose proof (validate_deadlines_ok a) as Hd.
  split.
  - intros (?&?&[??]&?&?&?&?&?&?&?&?). split; split; tauto.
  - intros [[] [S R D]]. apply Hs in S. apply Hr in R. apply Hd in D. tauto.
Qed.

(** ** Canonical forms of the internal mutations *)

#[global] Arguments set_call_state : simpl never.
#[global] Arguments stop_leg : simpl never.
#[global] Arguments merge_outcome : simpl never.

Definition generation_of (a : CallAggregate) (kind : DeadlineKind) : DeadlineGeneration :=
  slot_generation (deadline_get (ca_deadlines a) kind).

(** The aggregate with one deadline slot disarmed. *)
Definition cleared (kind : DeadlineKind) (a : CallAggregate) : CallAggregate :=
  put_slot a kind {| slot_generation := generation_of a kind; slot_due_at := None |}.

Definition cancel_effects (kind : DeadlineKind) (a : CallAggregate) : list EffectIntent :=
  if armed a kind then [CancelDeadline kind (generation_of a kind)] else [].

Lemma cancel_deadline_eq kind a e :
  cancel_deadline_internal kind (a, e) = (cleared kind a, e ++ cancel_effects kind a).
Proof.
  unfold cancel_deadline_internal, cleared, cancel_effects, armed, generation_of.
  destruct a as [???????? ???? ]; destruct ca_deadlines as [[g0 d0] [g1 d1] [g2 d2] [g3 d3]].
  destruct kind; cbn; repeat case_match; cbn; rewrite ?app_nil_r; done.
Qed.

Lemma set_call_state_eq a s t :
  set_call_state a s t =
  a <| ca_state := s |>
    <| ca_state_changed_at := if ca_state a !=? s then t else ca_state_changed_at a |>.
Proof.
  unfold set_call_state. destruct a. cbn. case_bool_decide; cbn; by subst.
Qed.

Lemma put_slot_cleared kind a slot : put_slot (cleared kind a) kind slot = put_slot a kind slot.
Proof. destruct a, ca_deadlines, kind; reflexivity. Qed.

Lemma generation_cleared kind a kind' : generation_of (cleared kind a) kind' = generation_of a kind'.
Proof. destruct kind, kind'; reflexivity. Qed.

Lemma arm_deadline_ok kind due a e g st :
  arm_deadline_internal kind due (a, e) = Ok (g, st) ↔
  (generation_of a kind < MAX_PERSISTED_GENERATION)%N ∧ g = (generation_of a kind + 1)%N ∧
  st = (put_slot a kind {| slot_generation := g; slot_due_at := Some due |},
        e ++ cancel_effects kind a ++ [ScheduleDeadline kind g due]).
Proof.
  unfold arm_deadline_internal. rewrite cancel_deadline_eq. cbv beta iota zeta.
  change (slot_generation _) with (generation_of (cleared kind a) kind).
  rewrite generation_cleared. unfold DeadlineGeneration_next. destruct (N.leb_spec MAX_PERSISTED_GENERATION (generation_of a kind));
    [split; [done|intros [? _]; lia]|]; cbn -[MAX_PERSISTED_GENERATION].
  rewrite put_slot_cleared, <- app_assoc. split.
  - intros [= <- <-]. auto.
  - intros (_ & -> & ->). done.
Qed.

(** All four deadline slots disarmed. *)
Definition all_cleared (a : CallAggregate) : CallAggregate :=
  cleared DeadlineKind.Ending
    (cleared DeadlineKind.Transfer (cleared DeadlineKind.Media (cleared DeadlineKind.Setup a))).

Definition three_cleared (a : CallAggregate) : CallAggregate :=
  cleared DeadlineKind.Transfer (cleared DeadlineKind.Media (cleared DeadlineKind.Setup a)).

Definition three_cancels (a : CallAggregate) : list EffectIntent :=
  cancel_effects DeadlineKind.Setup a ++ cancel_effects DeadlineKind.Media a
  ++ cancel_effects DeadlineKind.Transfer a.

Definition all_cancels (a : CallAggregate) : list EffectIntent :=
  three_cancels a ++ cancel_effects DeadlineKind.Ending a.

(** The outcome and the state a finalized call settles in. *)
Definition final_outcome (a : CallAggregate) : TerminalOutcome :=
  match first_leg_failure a with
  | Some failure => OutcomeFailed failure
  | None => match ca_terminal_outcome a with
            | Some (OutcomeFailed failure) => OutcomeFailed failure
            | _ => OutcomeEnded
            end
  end.

Definition final_state (a : CallAggregate) : CallState :=
  match final_outcome a with
  | OutcomeFailed _ => CallState.Failed
  | OutcomeEnded => CallState.Ended
  end.

Lemma finalize_terminal_eq at_ a e :
  finalize_terminal at_ (a, e) =
  (set_call_state ((all_cleared a) <| ca_terminal_outcome := Some (final_outcome a) |>)
     (final_state a) at_,
   e ++ all_cancels a).
Proof.
  unfold finalize_terminal. rewrite !cancel_deadline_eq. cbv beta iota zeta.
  change (cancel_effects ?k (cleared ?k' ?b)) with (cancel_effects k b).
  change (cleared DeadlineKind.Ending _) with (all_cleared a).
  unfold final_state, final_outcome, all_cancels, three_cancels. rewrite <- !app_assoc.
  change (first_leg_failure (all_cleared a)) with (first_leg_failure a).
  destruct (first_leg_failure a) as [f|]; [reflexivity|].
  change (ca_terminal_outcome (all_cleared a)) with (ca_terminal_outcome a).
  destruct (ca_terminal_outcome a) as [[|f]|] eqn:E; [reflexivity| |reflexivity].
  do 2 f_equal. unfold all_cleared, cleared, put_slot. destruct a. cbn in *. by subst.
Qed.

Definition unbridge_if_active (a : CallAggregate) : list EffectIntent :=
  match ca_state a with
  | CallState.Active | CallState.Transferring => [unbridge_media_effect a]
  | _ => []
  end.

Definition abort_replacement (a : CallAggregate) : list EffectIntent :=
  match ca_replacement a with
  | Some r => [AbortLegReplacement (rp_leg_id r) (rp_pending_binding_generation r)]
  | None => []
  end.

(** The aggregate [begin_ending_internal] builds before it finalizes or arms the deadline. *)
Definition ending_body (at_ : DateTime) (outcome : TerminalOutcome) (reason : StopLegReason)
    (a : CallAggregate) : CallAggregate :=
  (set_call_state
     ((three_cleared (a <| ca_replacement := None |>))
        <| ca_terminal_outcome := merge_outcome (ca_terminal_outcome a) outcome |>)
     CallState.Ending at_)
    <| ca_leg0 := (stop_leg at_ reason (ca_leg0 a)).1 |>
    <| ca_leg1 := (stop_leg at_ reason (ca_leg1 a)).1 |>.

Definition ending_effects (at_ : DateTime) (reason : StopLegReason) (a : CallAggregate)
    : list EffectIntent :=
  unbridge_if_active a ++ abort_replacement a ++ three_cancels a
  ++ (stop_leg at_ reason (ca_leg0 a)).2 ++ (stop_leg at_ reason (ca_leg1 a)).2.

Definition both_terminal (a : CallAggregate) : bool :=
  all_legs (λ leg, leg_is_terminal (leg_state leg)) a.

Lemma begin_ending_eq at_ outcome reason dl a e :
  begin_ending_internal at_ outcome reason dl (a, e) =
  let body := ending_body at_ outcome reason a in
  let effects := e ++ ending_effects at_ reason a in
  if both_terminal body then Ok (finalize_terminal at_ (body, effects))
  else match dl with
       | Some deadline =>
           armed ← arm_deadline_internal DeadlineKind.Ending deadline (body, effects); Ok armed.2
       | None => Ok (body, effects)
       end.
Proof.
  unfold begin_ending_internal, ending_effects, unbridge_if_active, abort_replacement.
  assert (∃ e', (match ca_replacement a with
          | Some replacement =>
              (a <| ca_replacement := None |>,
               match ca_state a with
               | CallState.Active | CallState.Transferring => e ++ [unbridge_media_effect a]
               | _ => e end ++
               [AbortLegReplacement (rp_leg_id replacement)
                  (rp_pending_binding_generation replacement)])
          | None => (a, match ca_state a with
               | CallState.Active | CallState.Transferring => e ++ [unbridge_media_effect a]
               | _ => e end) end) = (a <| ca_replacement := None |>, e') ∧
      e' = e ++ unbridge_if_active a ++ abort_replacement a) as (e' & -> & ->).
  { unfold unbridge_if_active, abort_replacement. destruct a as [??? s ???? r ???].
    cbn. destruct r, s; cbn; eexists; rewrite ?app_nil_r, <- ?app_assoc; done. }
  rewrite !cancel_deadline_eq. unfold ending_body, three_cancels, unbridge_if_active,
    abort_replacement, both_terminal.
  rewrite !set_call_state_eq.
  change (cancel_effects ?k (cleared ?k' ?b)) with (cancel_effects k b).
  cbn [ca_leg0 ca_leg1 set_field cleared put_slot three_cleared].
  destruct (stop_leg at_ reason (ca_leg0 a)) as [l0 s0], (stop_leg at_ reason (ca_leg1 a)) as [l1 s1].
  rewrite <- !app_assoc. reflexivity.
Qed.

(** ** Preservation *)

Lemma core_valid_ext u a b :
  ca_leg0 b = ca_leg0 a → ca_leg1 b = ca_leg1 a → ca_created_at b = ca_created_at a →
  ca_state_changed_at b ≤ u → core_valid u a → core_valid u b.
Proof. intros H0 H1 Hc Hu []. split; rewrite ?H0, ?H1, ?Hc; auto. Qed.

Lemma valid_leg_mono created u u' leg : u ≤ u' → valid_leg created u leg → valid_leg created u' leg.
Proof.
  intros Hle []. split; auto; try lia.
  - intros t Ht. specialize (vl_connected0 t Ht). lia.
  - intros t Ht. specialize (vl_ended0 t Ht). lia.
Qed.

Lemma core_valid_mono u u' a : u ≤ u' → core_valid u a → core_valid u' a.
Proof. intros Hle []. split; auto; try lia; eauto using valid_leg_mono. Qed.

Lemma core_valid_legs u a l0 l1 :
  core_valid u a → leg_id l0 = leg_id (ca_leg0 a) → leg_id l1 = leg_id (ca_leg1 a) →
  leg_media_flow l0 = leg_media_flow (ca_leg0 a) →
  leg_media_flow l1 = leg_media_flow (ca_leg1 a) →
  valid_leg (ca_created_at a) u l0 → valid_leg (ca_created_at a) u l1 →
  core_valid u (a <| ca_leg0 := l0 |> <| ca_leg1 := l1 |>).
Proof. intros [] H0 H1 H2 H3 ??. split; cbn; rewrite ?H0, ?H1, ?H2, ?H3; auto. Qed.

Lemma core_valid_set_leg u a i leg :
  core_valid u a → leg_id leg = leg_id (leg_at a i) →
  leg_media_flow leg = leg_media_flow (leg_at a i) →
  valid_leg (ca_created_at a) u leg → core_valid u (set_leg a i leg).
Proof. intros [] Hid Hm ?. destruct i; cbn in *; split; cbn; rewrite ?Hid, ?Hm; auto. Qed.

Lemma core_valid_set_call_state u a s t :
  core_valid u a → t ≤ u → core_valid u (set_call_state a s t).
Proof.
  intros H Ht. rewrite set_call_state_eq. eapply core_valid_ext; [..|exact H]; try reflexivity.
  cbn. destruct H. destruct (_ !=? _); cbn; lia.
Qed.

Lemma core_valid_leg_at u a i : core_valid u a → valid_leg (ca_created_at a) u (leg_at a i).
Proof. intros []. by destruct i. Qed.

Lemma valid_leg_created created u leg : valid_leg created u leg → leg_created_at leg ≤ u.
Proof. intros []. lia. Qed.

(** A leg that moves to a nonterminal state. *)
Lemma valid_leg_move created u leg s t :
  valid_leg created u leg → leg_is_terminal (leg_state leg) = false → leg_is_terminal s = false →
  leg_created_at leg ≤ t ≤ u →
  valid_leg created u (leg <| leg_state := s |> <| leg_state_changed_at := t |>).
Proof.
  intros H Ht Hs Hle. destruct H. split; cbn; auto; try lia.
  - rewrite vl_failure0. destruct (leg_state leg), s; done.
  - rewrite <- vl_terminal0. congruence.
Qed.

Lemma valid_leg_between created u leg t :
  valid_leg created u leg → created ≤ t → u = t → leg_created_at leg ≤ t ≤ u.
Proof. intros []. lia. Qed.

Lemma stop_leg_valid created u leg reason :
  valid_leg created u leg → valid_leg created u (stop_leg u reason leg).1.
Proof.
  intros H. unfold stop_leg. destruct (negb _ && _) eqn:E; [|done]. bool_hyps.
  apply valid_leg_move; auto. destruct H; lia.
Qed.

Lemma stop_leg_state at_ reason leg :
  leg_state (stop_leg at_ reason leg).1 =
  if leg_is_terminal (leg_state leg) then leg_state leg else LegState.Ending.
Proof. unfold stop_leg. destruct leg as [????? s]; destruct s; reflexivity. Qed.

Lemma stop_leg_id at_ reason leg : leg_id (stop_leg at_ reason leg).1 = leg_id leg.
Proof. unfold stop_leg. by destruct (_ && _). Qed.

Lemma stop_leg_flow at_ reason leg :
  leg_media_flow (stop_leg at_ reason leg).1 = leg_media_flow leg.
Proof. unfold stop_leg. by destruct (_ && _). Qed.

Lemma failure_of_failed created u leg :
  valid_leg created u leg → leg_failure leg = None → leg_is_terminal (leg_state leg) = true →
  leg_state leg = LegState.Ended.
Proof.
  intros [] Hf Ht. rewrite Hf in *. destruct (leg_state leg); try done.
Qed.

Lemma armed_cleared kind a kind' :
  armed (cleared kind a) kind' = negb (kind ==? kind') && armed a kind'.
Proof. destruct kind, kind'; reflexivity. Qed.

Lemma finalize_core u a e :
  core_valid u a → core_valid u (finalize_terminal u (a, e)).1.
Proof.
  intros H. rewrite finalize_terminal_eq. cbn [fst]. apply core_valid_set_call_state; [|lia].
  eapply core_valid_ext; [..|exact H]; try reflexivity. destruct H; done.
Qed.

Lemma finalize_valid u a e :
  core_valid u a → both_terminal a = true → ca_replacement a = None →
  valid_upto u (finalize_terminal u (a, e)).1.
Proof.
  intros Hc Ht Hr. split; [by apply finalize_core|].
  rewrite finalize_terminal_eq, set_call_state_eq. cbn [fst].
  unfold both_terminal, all_legs, legs in Ht. cbn in Ht. bool_hyps.
  split.
  - cbn. unfold final_state, final_outcome. destruct Hc.
    destruct (first_leg_failure a) as [f|] eqn:Ef; [done|].
    unfold first_leg_failure in Ef. case_match; [done|].
    destruct (ca_terminal_outcome a) as [[|f]|]; cbn;
      split_and!; eauto using failure_of_failed.
  - unfold replacement_ok. cbn. by rewrite Hr.
  - intros kind. destruct kind; done.
Qed.

(** Both legs after [begin_ending_internal] are ending or terminal. *)
Lemma ending_body_states at_ outcome reason a :
  let b := ending_body at_ outcome reason a in
  ending_leg_state (leg_state (ca_leg0 b)) = true ∧ ending_leg_state (leg_state (ca_leg1 b)) = true.
Proof.
  cbv zeta. unfold ending_body. rewrite !set_call_state_eq. cbn. rewrite !stop_leg_state.
  destruct (leg_state (ca_leg0 a)), (leg_state (ca_leg1 a)); done.
Qed.

Lemma ending_body_core u outcome reason a :
  core_valid u a → core_valid u (ending_body u outcome reason a).
Proof.
  intros H. unfold ending_body.
  assert (Hc : core_valid u (set_call_state ((three_cleared (a <| ca_replacement := None |>))
             <| ca_terminal_outcome := merge_outcome (ca_terminal_outcome a) outcome |>)
          CallState.Ending u)).
  { apply core_valid_set_call_state; [|lia]. eapply core_valid_ext; [..|exact H]; try reflexivity.
    destruct H; done. }
  rewrite set_call_state_eq in *.
  apply (core_valid_legs _ _ _ _ Hc); cbn; rewrite ?stop_leg_id, ?stop_leg_flow; try done;
    apply stop_leg_valid; apply H.
Qed.

Lemma ending_body_shape u outcome reason a :
  (leg_state (ca_leg0 a) = LegState.Failed ∨ leg_state (ca_leg1 a) = LegState.Failed →
   outcome_is_failed (merge_outcome (ca_terminal_outcome a) outcome) = true) →
  shape_valid (ending_body u outcome reason a).
Proof.
  intros Hf. pose proof (ending_body_states u outcome reason a) as [H0 H1].
  unfold ending_body in *. rewrite set_call_state_eq in *. cbn in H0, H1.
  split.
  - cbn. split_and!; auto.
    + unfold merge_outcome. destruct (ca_terminal_outcome a) as [[]|]; done.
    + intros Hst. apply Hf. rewrite !stop_leg_state in Hst.
      destruct (leg_state (ca_leg0 a)), (leg_state (ca_leg1 a)); naive_solver.
  - done.
  - intros kind. destruct kind; done.
Qed.

Lemma arm_valid u kind due a e g st :
  valid_upto u a → deadline_allowed a kind = true →
  arm_deadline_internal kind due (a, e) = Ok (g, st) → valid_upto u st.1.
Proof.
  intros [Hc Hs] Hk (_ & -> & ->)%arm_deadline_ok. cbn [fst]. split.
  - eapply core_valid_ext; [..|exact Hc]; try reflexivity. by destruct Hc.
  - destruct Hs. split; [done| |].
    + unfold replacement_ok in *. cbn. destruct (ca_replacement a); [|done].
      destruct sv_replacement0 as (leg & ? & ? & ? & Ha). exists leg. split_and!; auto.
      destruct kind; cbn; done.
    + intros k Ha. unfold deadline_allowed in *. cbn.
      specialize (sv_deadlines0 k). unfold armed in *. destruct kind, k; cbn in *; auto.
Qed.

Lemma begin_ending_valid u outcome reason dl a e a' e' :
  core_valid u a →
  (leg_state (ca_leg0 a) = LegState.Failed ∨ leg_state (ca_leg1 a) = LegState.Failed →
   outcome_is_failed (merge_outcome (ca_terminal_outcome a) outcome) = true) →
  begin_ending_internal u outcome reason dl (a, e) = Ok (a', e') → valid_upto u a'.
Proof.
  intros Hc Hf. rewrite begin_ending_eq. cbv zeta.
  assert (Hv : valid_upto u (ending_body u outcome reason a))
    by (split; auto using ending_body_core, ending_body_shape).
  assert (Hst : ca_state (ending_body u outcome reason a) = CallState.Ending)
    by (unfold ending_body; rewrite set_call_state_eq; done).
  destruct (both_terminal _) eqn:Et.
  - intros [= H]. apply (f_equal fst) in H. cbn in H. subst a'. destruct Hv.
    apply finalize_valid; auto. unfold ending_body. by rewrite set_call_state_eq.
  - destruct dl as [dl|]; [|naive_solver].
    rewrite result_bind_ok. intros ([g st] & Harm & [= ->]).
    apply (arm_valid _ _ _ _ _ _ _ Hv) in Harm; [done|].
    unfold deadline_allowed. by rewrite Hst.
Qed.
