(* ===== verification/DomainSafety.v ===== *)
(** Safety of the decision function.

    For a durable (valid) aggregate the closing [validate] of [CallAggregate::decide] can only
    reject the two hold conflicts of [hold_conflict]; every other applied command establishes the
    invariant by construction.  Ignored commands leave the aggregate untouched and emit nothing,
    and a terminal call absorbs every command. *)

From S2P Require Import Prelude RustText DomainTypes Domain DomainInv.
From stdpp Require Import options.

(** Inverts [H : handler = Ok _] down to the branch that returned. *)
Ltac inv_ok H :=
  repeat match type of H with
  | mbind _ _ = Ok _ =>
      let x := fresh "x" in let Hx := fresh "Hx" in
      apply result_bind_ok in H; destruct H as (x & Hx & H)
  | (let '(_, _) := ?p in _) = Ok _ => let E := fresh "E" in destruct p eqn:E; cbv zeta in H
  | (if ?b then _ else _) = Ok _ => let E := fresh "E" in destruct b eqn:E; [try discriminate H|]
  | (if ?b then _ else _) = Ok _ => let E := fresh "E" in destruct b eqn:E; [|try discriminate H]
  | match ?x with _ => _ end = Ok _ => let E := fresh "E" in destruct x eqn:E; try discriminate H
  | _ => progress cbv zeta in H
  end.

Lemma ensure_timestamp_ok a t u : ensure_timestamp a t = Ok u ↔ ca_updated_at a ≤ t.
Proof. unfold ensure_timestamp. destruct u, (Z.ltb_spec t (ca_updated_at a)); split; intros; (lia || congruence). Qed.

Lemma compare_binding_None id cur sup t :
  compare_binding_generation id cur sup t = Ok None ↔ sup = cur.
Proof.
  unfold compare_binding_generation. destruct (N.ltb_spec sup cur), (N.ltb_spec cur sup);
    split; intros; (lia || congruence).
Qed.

Lemma compare_binding_Some id cur sup t r :
  compare_binding_generation id cur sup t = Ok (Some r) ↔
  (sup < cur)%N ∧ r = ignored t CommandDisposition.IgnoredStaleGeneration.
Proof.
  unfold compare_binding_generation. destruct (N.ltb_spec sup cur), (N.ltb_spec cur sup);
    (split; [intros [=]; subst; auto | intros [? ->]; done || lia]).
Qed.

Lemma compare_deadline_None a k sup t :
  compare_deadline_generation a k sup t = Ok None ↔ sup = generation_of a k.
Proof.
  unfold compare_deadline_generation, generation_of. cbv zeta.
  set (cur := slot_generation _).
  destruct (N.ltb_spec sup cur), (N.ltb_spec cur sup); split; intros; (lia || congruence).
Qed.

Lemma compare_deadline_Some a k sup t r :
  compare_deadline_generation a k sup t = Ok (Some r) ↔
  (sup < generation_of a k)%N ∧ r = ignored t CommandDisposition.IgnoredStaleGeneration.
Proof.
  unfold compare_deadline_generation, generation_of. cbv zeta. set (cur := slot_generation _).
  destruct (N.ltb_spec sup cur), (N.ltb_spec cur sup);
    (split; [intros [=]; subst; auto | intros [? ->]; done || lia]).
Qed.

Lemma leg_index_ok a id i :
  leg_index a id = Ok i → leg_id (leg_at a i) = id.
Proof. unfold leg_index. repeat case_bool_decide; naive_solver. Qed.

(** Opens a command handler and inverts [H : handler = Ok _]. *)
Ltac open_handler H :=
  match type of H with
  | ?f _ _ _ = _ => unfold f in H
  | ?f _ _ _ _ = _ => unfold f in H
  | ?f _ _ _ _ _ = _ => unfold f in H
  | ?f _ _ _ _ _ _ = _ => unfold f in H
  end; inv_ok H.

(** The same for a handler that is known to have applied: the branches that ignore the command are
    closed. *)
Ltac open_applied H :=
  open_handler H; simplify_eq; try done;
  repeat match goal with
  | Hc : compare_binding_generation _ _ _ _ = Ok (Some _) |- _ =>
      by apply compare_binding_Some in Hc as [_ ->]
  | Hc : compare_deadline_generation _ _ _ _ = Ok (Some _) |- _ =>
      by apply compare_deadline_Some in Hc as [_ ->]
  end.

(** ** Handlers that do not apply *)

(** A handler either applies, or returns the aggregate as it was with no effect. *)
Definition applied_or_same (a : CallAggregate) (t : DateTime) (a' : CallAggregate)
    (r : CommandResult) : Prop :=
  cr_at r = t ∧
  (cr_disposition r = CommandDisposition.Applied ∨ (a' = a ∧ cr_effects r = [])).

Lemma apply_command_same a c a' r :
  apply_command a c = Ok (a', r) → applied_or_same a (command_at c) a' r.
Proof.
  unfold applied_or_same. destruct c; cbn [apply_command command_at]; intros H;
    open_handler H;
    repeat match goal with
    | Hc : compare_binding_generation _ _ _ _ = Ok (Some _) |- _ =>
        apply compare_binding_Some in Hc as [_ ->]
    | Hc : compare_deadline_generation _ _ _ _ = Ok (Some _) |- _ =>
        apply compare_deadline_Some in Hc as [_ ->]
    end; simplify_eq/=; auto.
Qed.

(** ** Applied handlers establish the invariant *)

Lemma valid_upto_mono u u' a : u ≤ u' → valid_upto u a → valid_upto u' a.
Proof. intros ? [??]. split; eauto using core_valid_mono. Qed.

Lemma valid_call_core a t : valid_call a → ca_updated_at a ≤ t → core_valid t a.
Proof. intros [H _] Ht. eauto using core_valid_mono. Qed.

Lemma leg_at_set_leg a i leg : leg_at (set_leg a i leg) i = leg.
Proof. by destruct i. Qed.

Lemma set_leg_projections a i leg :
  ca_state (set_leg a i leg) = ca_state a ∧ ca_replacement (set_leg a i leg) = ca_replacement a ∧
  ca_terminal_outcome (set_leg a i leg) = ca_terminal_outcome a ∧
  ca_deadlines (set_leg a i leg) = ca_deadlines a.
Proof. by destruct i. Qed.

(** The same call state with one leg moved within what the state admits. *)
Lemma shape_set_leg a i leg :
  shape_valid a → leg_id leg = leg_id (leg_at a i) →
  state_legs_ok (ca_state a) (leg_state (ca_leg0 (set_leg a i leg)))
    (leg_state (ca_leg1 (set_leg a i leg))) (ca_terminal_outcome a) →
  (∀ r, ca_replacement a = Some r → rp_leg_id r = leg_id leg → False) →
  shape_valid (set_leg a i leg).
Proof.
  intros [S R D] Hid Hs Hr. destruct (set_leg_projections a i leg) as (E1 & E2 & E3 & E4).
  split; rewrite ?E1, ?E2, ?E3.
  - done.
  - unfold replacement_ok in *. rewrite E1, E2. destruct (ca_replacement a) as [r|] eqn:Er; [|done].
    destruct R as (l & Hf & ? & ? & ?). exists l. split_and!; auto.
    + specialize (Hr r eq_refl). destruct i; cbn in *; unfold find_leg in *; cbn;
        rewrite Hid in *; repeat case_bool_decide; try done; exfalso; eauto.
    + unfold armed. by rewrite E4.
  - intros k. unfold armed, deadline_allowed. rewrite E1, E4. apply D.
Qed.

Lemma update_leg_state_valid created u s f leg :
  valid_leg created u leg → leg_is_terminal (leg_state leg) = false →
  is_some f = (s ==? LegState.Failed) → valid_leg created u (update_leg_state u s f leg).
Proof.
  intros H Ht Hf. destruct H. unfold update_leg_state. cbn. rewrite Ht in vl_terminal.
  destruct (leg_ended_at leg) eqn:Ee; [done|].
  split; repeat case_match; cbn in *; auto; try lia; bool_hyps; intros; simplify_eq;
    rewrite ?Ee in *; try lia; try (by destruct s); eauto.
Qed.

Lemma update_leg_state_fields u s f leg :
  let leg' := update_leg_state u s f leg in
  leg_id leg' = leg_id leg ∧ leg_media_flow leg' = leg_media_flow leg ∧ leg_state leg' = s ∧
  leg_failure leg' = f.
Proof. unfold update_leg_state. repeat case_match; auto. Qed.

(** The leg-state moves a command may make in a call state, hold conflicts excluded. *)
Definition move_ok (a : CallAggregate) (id : LegId) (s' : LegState) : Prop :=
  match ca_state a with
  | CallState.Connecting =>
      connecting_leg_state s' = true ∨ ending_leg_state s' = true
  | CallState.Active | CallState.Transferring =>
      (active_leg_state s' = true ∧ ∀ r, ca_replacement a = Some r → rp_leg_id r ≠ id) ∨
      ending_leg_state s' = true
  | CallState.Ending => leg_is_terminal s' = true
  | _ => False
  end.

Section Reconcile.
Context (u : DateTime) (a : CallAggregate) (i : LegIndex) (leg : Leg).
Hypothesis (Ha : valid_upto u a) (Hc : core_valid u (set_leg a i leg)).
Hypothesis (Hid : leg_id leg = leg_id (leg_at a i)) (Hm : move_ok a (leg_id leg) (leg_state leg)).

Lemma changed_leg_valid : valid_leg (ca_created_at (set_leg a i leg)) u leg.
Proof using Hc.
  pose proof (core_valid_leg_at u _ i Hc) as Hl. by rewrite leg_at_set_leg in Hl.
Qed.

(** Both legs are connected: the call becomes active. *)
Lemma reconcile_connected a' e' :
  ca_state a = CallState.Connecting →
  all_legs (λ leg, leg_state leg ==? LegState.Connected) (set_leg a i leg) = true →
  reconcile_leg_state i u (set_leg a i leg, []) = Ok (a', e') → valid_upto u a'.
Proof using All.
  intros H Hall. unfold reconcile_leg_state.
  destruct (set_leg_projections a i leg) as (E1 & E2 & E3 & E4).
  rewrite Hall, E1, H, bool_decide_true by done. cbn [andb].
  rewrite cancel_deadline_eq. intros [= <- <-].
  unfold all_legs, legs in *. cbn in *. bool_hyps. split.
  - apply core_valid_set_call_state; [|lia]. eapply core_valid_ext; [..|exact Hc]; try reflexivity.
    by destruct Hc.
  - destruct Ha as [_ [S R D]]. rewrite H in *. rewrite set_call_state_eq. split.
    + cbn in *. rewrite E3, H0, H1. by destruct S as (_ & _ & ->).
    + unfold replacement_ok in *. cbn. rewrite E2. destruct (ca_replacement a); [|done].
      destruct R as (? & _ & ? & _). congruence.
    + intros k Hk. unfold deadline_allowed, armed, cleared in *. cbn in *. rewrite E4 in *.
      specialize (D k). rewrite H in D. destruct k; cbn in *; auto.
Qed.

(** The call is already ending: it may be over. *)
Lemma reconcile_ending a' e' :
  ca_state a = CallState.Ending →
  reconcile_leg_state i u (set_leg a i leg, []) = Ok (a', e') → valid_upto u a'.
Proof using All.
  intros Eend. unfold reconcile_leg_state, move_ok in *. rewrite Eend in Hm.
  destruct (set_leg_projections a i leg) as (E1 & E2 & E3 & E4).
  rewrite leg_at_set_leg, E1, Eend. eval_tests.
  set (b := match leg_failure leg with
            | Some failure => (set_leg a i leg) <| ca_terminal_outcome := Some (OutcomeFailed failure) |>
            | None => set_leg a i leg end).
  assert (Hb : core_valid u b).
  { subst b. destruct (leg_failure leg); [|done].
    eapply core_valid_ext; [..|exact Hc]; try reflexivity. by destruct Hc. }
  destruct Ha as [_ [S R D]]. unfold replacement_ok in R.
  destruct (ca_replacement a) as [r|] eqn:Er; [destruct R as (? & _ & ? & _); congruence|].
  destruct (all_legs _ b) eqn:Et.
  { intros [= H]. apply (f_equal fst) in H. cbn in H. subst a'.
    apply finalize_valid; auto. subst b. by destruct (leg_failure leg). }
  intros [= <- <-]. split; [done|]. rewrite Eend in S.
  assert (Hst : ca_state b = CallState.Ending)
    by (subst b; destruct (leg_failure leg); cbn; congruence).
  split; rewrite ?Hst.
  - destruct changed_leg_valid. subst b. destruct (leg_failure leg) as [f|]; cbn in *; rewrite ?E3;
      destruct i; cbn in *; destruct (leg_state leg); naive_solver.
  - unfold replacement_ok. subst b. destruct (leg_failure leg); cbn; by rewrite E2.
  - intros k. unfold deadline_allowed, armed. rewrite Hst.
    replace (ca_deadlines b) with (ca_deadlines a) by (subst b; by destruct (leg_failure leg), i).
    specialize (D k). unfold deadline_allowed, armed in *. by rewrite Eend in *.
Qed.

(** A live call whose leg did not start to end keeps its shape. *)
Lemma live_move_valid :
  ca_state a ≠ CallState.Ending → ending_leg_state (leg_state leg) = false →
  valid_upto u (set_leg a i leg).
Proof using All.
  intros Hend Hne. split; [done|]. unfold move_ok in Hm. destruct Ha as [_ Hs].
  apply shape_set_leg; auto.
  - destruct Hs as [S _ _], (ca_state a); try done; destruct i;
      cbn [state_legs_ok set_leg ca_leg0 ca_leg1 set_field] in *; intuition congruence.
  - intros r Hr Hri. destruct Hs as [S R D]. unfold replacement_ok in R. rewrite Hr in *.
    destruct R as (? & _ & Hst & _). rewrite Hst in Hm.
    destruct Hm as [[_ Hm']|]; [by eapply Hm'|congruence].
Qed.

(** A live call has no failed leg but the one that just changed. *)
Lemma live_failed_leg :
  ca_state a ≠ CallState.Ending →
  leg_state (ca_leg0 (set_leg a i leg)) = LegState.Failed ∨
  leg_state (ca_leg1 (set_leg a i leg)) = LegState.Failed → leg_state leg = LegState.Failed.
Proof using All.
  intros Hend Hf. destruct Ha as [_ [S _ _]]. unfold move_ok in Hm.
  destruct i, (ca_state a); try done; cbn in S, Hf; destruct Hf as [Hf|Hf]; try done;
    rewrite Hf in S; intuition discriminate.
Qed.

Lemma reconcile_live a' e' :
  ca_state a ≠ CallState.Ending →
  (ca_state a ==? CallState.Connecting) &&
    all_legs (λ leg, leg_state leg ==? LegState.Connected) (set_leg a i leg) = false →
  reconcile_leg_state i u (set_leg a i leg, []) = Ok (a', e') → valid_upto u a'.
Proof using All.
  intros Hend Econ. unfold reconcile_leg_state.
  destruct (set_leg_projections a i leg) as (E1 & E2 & E3 & E4).
  rewrite leg_at_set_leg, E1, Econ, bool_decide_false by done.
  assert (Hover : begin_ending_internal u
      match leg_failure leg with Some failure => OutcomeFailed failure | None => OutcomeEnded end
      (if is_some (leg_failure leg) then StopLegReason.Failure else StopLegReason.PeerEnded)
      None (set_leg a i leg, []) = Ok (a', e') → valid_upto u a').
  { intros Hbe. eapply begin_ending_valid; [exact Hc| |exact Hbe]. intros Hf%live_failed_leg; [|done].
    destruct changed_leg_valid. rewrite Hf in vl_failure. destruct (leg_failure leg); [|done].
    rewrite E3. destruct (ca_terminal_outcome a) as [[]|]; done. }
  pose proof (live_move_valid Hend) as Hmove.
  destruct (leg_state leg) eqn:El; auto; intros [= <- <-]; auto.
Qed.

Lemma reconcile_valid a' e' :
  reconcile_leg_state i u (set_leg a i leg, []) = Ok (a', e') → valid_upto u a'.
Proof using All.
  intros H. destruct (ca_state a ==? CallState.Ending) eqn:Ee; bool_hyps;
    [by eapply reconcile_ending|].
  destruct ((ca_state a ==? CallState.Connecting) &&
    all_legs (λ leg, leg_state leg ==? LegState.Connected) (set_leg a i leg)) eqn:Ec;
    [|by eapply reconcile_live]. bool_hyps. by eapply reconcile_connected.
Qed.
End Reconcile.

Lemma valid_call_upto a t : valid_call a → ca_updated_at a ≤ t → valid_upto t a.
Proof. intros H Ht. eapply valid_upto_mono; eauto. Qed.

Lemma updated_after_created a t i :
  valid_call a → ca_updated_at a ≤ t → leg_created_at (leg_at a i) ≤ t ≤ t.
Proof.
  intros [Hc _] Ht. pose proof (core_valid_leg_at _ _ i Hc) as []. lia.
Qed.

(** A call that is not transferring has no replacement. *)
Lemma no_replacement a :
  shape_valid a → ca_state a ≠ CallState.Transferring → ca_replacement a = None.
Proof.
  intros [_ R _] Hs. unfold replacement_ok in R. destruct (ca_replacement a); [|done].
  destruct R as (? & _ & ? & _). congruence.
Qed.

(** A slot changed within what the state admits, the transfer slot of a pending replacement
    staying armed. *)
Lemma shape_put_slot a k slot :
  shape_valid a → (is_some (slot_due_at slot) = true → deadline_allowed a k = true) →
  (k = DeadlineKind.Transfer → ca_replacement a = None ∨ is_some (slot_due_at slot) = true) →
  shape_valid (put_slot a k slot).
Proof.
  intros [S R D] Hk Hr. split; [exact S| |].
  - unfold replacement_ok in *. cbn. destruct (ca_replacement a) as [r|]; [|done].
    destruct R as (l & ? & ? & ? & Ha). exists l. split_and!; auto.
    destruct k; try exact Ha. destruct (Hr eq_refl); [done|]. auto.
  - intros k' Ha. unfold deadline_allowed in *. cbn. specialize (D k').
    unfold armed in *. destruct k, k'; cbn in *; auto.
Qed.

Lemma core_put_slot u a k slot : core_valid u a → core_valid u (put_slot a k slot).
Proof. intros H. eapply core_valid_ext; [..|exact H]; try reflexivity. by destruct H. Qed.

Lemma core_set_replacement u a r : core_valid u a → core_valid u (a <| ca_replacement := r |>).
Proof. intros H. eapply core_valid_ext; [..|exact H]; try reflexivity. by destruct H. Qed.

#[export] Hint Resolve core_put_slot core_set_replacement core_valid_set_call_state
  core_valid_leg_at valid_call_core valid_call_upto : rust.

Lemma start_connecting_valid a t d a' r :
  valid_call a → start_connecting a t d = Ok (a', r) → valid_upto t a'.
Proof.
  intros Hv H. unfold start_connecting in H. inv_ok H. simplify_eq.
  apply ensure_timestamp_ok in Hx. bool_hyps.
  pose proof (valid_call_core a t Hv Hx) as Hc. destruct Hv as [_ Hs].
  pose proof (no_replacement a Hs) as Hr. destruct Hs as [S R D]. rewrite E in *.
  rewrite set_call_state_eq in *. destruct S as (S0 & S1 & So).
  assert (Hl : ∀ leg l e, start_leg t leg = (l, e) → leg_state leg = LegState.Pending →
     valid_leg (ca_created_at a) t leg → leg_created_at leg ≤ t → 
     leg_id l = leg_id leg ∧ leg_media_flow l = leg_media_flow leg ∧
     valid_leg (ca_created_at a) t l ∧ connecting_leg_state (leg_state l) = true).
  { intros leg lg eg. unfold start_leg.
    destruct (signaling_initiator leg ==? _); intros Heq Hst Hvl ?; simplify_eq/=;
      (split_and!; [done|done| |by cbn; rewrite ?Hst]); [|done].
    apply valid_leg_move; rewrite ?Hst; auto; lia. }
  cbn in E1, E2. destruct Hc as [Hi Hm Hcr Hch Hv0 Hv1].
  apply Hl in E1 as (I1 & M1 & V1 & C1); auto; [|destruct Hv0; lia].
  apply Hl in E2 as (I2 & M2 & V2 & C2); auto; [|destruct Hv1; lia].
  apply (arm_valid t _ _ _ _ _ _) in Hx0; [done| |done].
  split.
  - split; cbn; rewrite ?I1, ?I2, ?M1, ?M2; auto. case_match; lia.
  - split; [by cbn; rewrite So|by unfold replacement_ok; cbn; rewrite Hr|].
    intros k Hk. change (armed _ k) with (armed a k) in Hk. specialize (D k Hk).
    unfold deadline_allowed in *. rewrite E in D. destruct k; done.
Qed.

Lemma begin_ending_command_valid a t d reason a' r :
  valid_call a → begin_ending_command a t d reason = Ok (a', r) →
  cr_disposition r = CommandDisposition.Applied → valid_upto t a'.
Proof.
  intros Hv H Hd. unfold begin_ending_command in H. inv_ok H; simplify_eq; try done.
  apply ensure_timestamp_ok in Hx.
  refine (begin_ending_valid _ _ _ _ _ _ _ _ _ _ Hx0); [eauto with rust|].
  intros Hf. destruct Hv as [_ [S _ _]].
  destruct (ca_state a); try done; cbn in S; destruct Hf as [Hf|Hf]; rewrite Hf in S;
    try (intuition discriminate); destruct S as (_ & _ & _ & So);
    specialize (So ltac:(auto)); destruct (ca_terminal_outcome a) as [[]|]; done.
Qed.

Lemma arm_deadline_command_valid a t k d a' r :
  valid_call a → arm_deadline_command a t k d = Ok (a', r) → valid_upto t a'.
Proof.
  intros Hv H. unfold arm_deadline_command in H. inv_ok H. simplify_eq.
  apply ensure_timestamp_ok in Hx. bool_hyps.
  apply (arm_valid t) in Hx0; eauto with rust.
Qed.

Lemma begin_transfer_valid a t d a' r :
  valid_call a → begin_transfer a t d = Ok (a', r) → valid_upto t a'.
Proof.
  intros Hv H. unfold begin_transfer in H. inv_ok H. simplify_eq.
  apply ensure_timestamp_ok in Hx. bool_hyps.
  apply (arm_valid t) in Hx0; [done| |by rewrite set_call_state_eq].
  split; [apply core_valid_set_call_state; eauto with rust; lia|].
  destruct Hv as [_ Hs]. pose proof (no_replacement a Hs) as Hr. destruct Hs as [S R D].
  rewrite set_call_state_eq. rewrite E in *. split; [exact S| |].
  - unfold replacement_ok. cbn. by rewrite Hr.
  - intros k Hk. specialize (D k Hk). unfold deadline_allowed in *. rewrite E in D.
    destruct k; done.
Qed.

(** The two reports that contradict the hold state of a valid call: a hold while the call is
    still connecting, and a resume of the leg a pending replacement keeps on hold. *)
Definition hold_conflict (a : CallAggregate) (c : CallCommand) : bool :=
  match c with
  | SetLegState _ id _ LegState.Held _ => ca_state a ==? CallState.Connecting
  | SetLegState _ id _ LegState.Connected _ =>
      is_some_and (λ r, rp_leg_id r ==? id) (ca_replacement a)
  | _ => false
  end.

Lemma transition_nonterminal s s' : valid_leg_transition s s' = true → leg_is_terminal s = false.
Proof. by destruct s, s'. Qed.

Lemma find_leg_at u a i : core_valid u a → find_leg a (leg_id (leg_at a i)) = Some (leg_at a i).
Proof. intros []. unfold find_leg. destruct i; cbn; repeat case_bool_decide; congruence. Qed.

(** A leg under replacement is on hold. *)
Lemma replaced_leg_held u a i r :
  valid_upto u a → ca_replacement a = Some r → rp_leg_id r = leg_id (leg_at a i) →
  ca_state a = CallState.Transferring ∧ replacement_leg_ok r (leg_at a i).
Proof.
  intros [Hc [_ R _]] Hr Hid. unfold replacement_ok in R. rewrite Hr, Hid in R.
  rewrite (find_leg_at _ _ _ Hc) in R. destruct R as (? & [= <-] & ? & ? & _). auto.
Qed.

Lemma transition_move u a t g s f i :
  valid_upto u a →
  call_is_terminal (ca_state a) || (ca_state a ==? CallState.Pending) = false →
  valid_leg_transition (leg_state (leg_at a i)) s = true →
  (ca_state a ==? CallState.Ending) && (leg_state (leg_at a i) !=? LegState.Ending) = false →
  hold_conflict a (SetLegState t (leg_id (leg_at a i)) g s f) = false →
  move_ok a (leg_id (leg_at a i)) s.
Proof.
  intros Hv Hn Ht He Hh. unfold move_ok, hold_conflict in *.
  assert (Hheld : ∀ r, ca_replacement a = Some r → rp_leg_id r = leg_id (leg_at a i) →
    leg_state (leg_at a i) = LegState.Held).
  { intros r Hr Hid. destruct (replaced_leg_held _ _ _ _ Hv Hr Hid) as [_ H]. apply H. }
  assert (Hrep : ∀ r, s = LegState.Connected → ca_replacement a = Some r →
    rp_leg_id r ≠ leg_id (leg_at a i)).
  { intros r -> Hr. rewrite Hr in Hh. cbn in Hh. by bool_hyps. }
  destruct Hv as [_ [S _ _]].
  assert (Hst : state_legs_ok (ca_state a) (leg_state (leg_at a i)) (leg_state (leg_at a i))
      (ca_terminal_outcome a)) by (destruct (ca_state a), i; cbn in *; intuition).
  destruct (ca_state a); try done; destruct (leg_state (leg_at a i));
    try (cbn in Hst; intuition discriminate); destruct s; try done; cbn in *; eauto;
    left; (split; [done|]); intros r Hr Hid; specialize (Hheld r Hr Hid); try discriminate;
    eapply Hrep; eauto.
Qed.

Lemma set_leg_state_valid a t id g s f a' r :
  valid_call a → set_leg_state a t id g s f = Ok (a', r) →
  cr_disposition r = CommandDisposition.Applied →
  hold_conflict a (SetLegState t id g s f) = false → valid_upto t a'.
Proof.
  intros Hv H Hd Hh. unfold set_leg_state in H. inv_ok H; simplify_eq; try done.
  { by apply compare_binding_Some in Hx0 as [_ ->]. }
  apply ensure_timestamp_ok in Hx1. apply leg_index_ok in Hx as <-.
  pose proof (valid_call_upto a t Hv Hx1) as Hu.
  destruct (update_leg_state_fields t s f (leg_at a x)) as (Fi & Fm & Fs & _).
  assert (Hl : valid_leg (ca_created_at a) t (update_leg_state t s f (leg_at a x))).
  { apply negb_false_iff in E4. apply transition_nonterminal in E4.
    apply update_leg_state_valid; [apply core_valid_leg_at, Hu|done|].
    destruct f, (s ==? LegState.Failed); cbn in *; congruence. }
  refine (reconcile_valid t a x _ Hu _ Fi _ _ _ Hx2).
  - apply core_valid_set_leg; auto. apply Hu.
  - rewrite Fi, Fs. apply negb_false_iff in E4. eapply transition_move; eauto.
Qed.

Lemma source_terminated_valid a t id g reason a' r :
  valid_call a → source_terminated_before_answer a t id g reason = Ok (a', r) →
  cr_disposition r = CommandDisposition.Applied → valid_upto t a'.
Proof.
  intros Hv H Hd. unfold source_terminated_before_answer in H. inv_ok H; simplify_eq; try done.
  { by apply compare_binding_Some in Hx0 as [_ ->]. }
  apply ensure_timestamp_ok in Hx1. apply leg_index_ok in Hx as <-.
  pose proof (valid_call_upto a t Hv Hx1) as Hu.
  refine (reconcile_valid t a x _ Hu _ _ _ _ _ Hx2).
  - apply core_valid_set_leg; [apply Hu|done..|].
    pose proof (core_valid_leg_at t a x (proj1 Hu)) as [].
    split; cbn; auto; try lia; intros; simplify_eq; try lia; by destruct reason.
  - done.
  - unfold move_ok. cbn. bool_hyps. destruct (ca_state a), reason; cbn in *; auto; discriminate.
Qed.

Lemma advance_valid created u leg :
  valid_leg created u leg → valid_leg created u (advance_to_signaling u leg).
Proof.
  intros H. unfold advance_to_signaling. case_bool_decide as E; [|done].
  apply valid_leg_move; rewrite ?E; auto. destruct H; lia.
Qed.

Lemma advance_fields u leg :
  leg_id (advance_to_signaling u leg) = leg_id leg ∧
  leg_media_flow (advance_to_signaling u leg) = leg_media_flow leg.
Proof. unfold advance_to_signaling. by destruct (_ ==? _). Qed.

(** Both provider handlers advance a connecting leg. *)
Lemma advance_leg_valid u a i :
  valid_upto u a → ca_state a = CallState.Connecting →
  pending_or_signaling (leg_state (leg_at a i)) = true →
  valid_upto u (set_leg a i (advance_to_signaling u (leg_at a i))).
Proof.
  intros [Hc Hs] Hst Hp. destruct (advance_fields u (leg_at a i)) as [Fi Fm].
  split; [apply core_valid_set_leg; auto using advance_valid with rust|].
  apply shape_set_leg; auto.
  - destruct Hs as [S _ _]. rewrite Hst in *.
    assert (connecting_leg_state (leg_state (advance_to_signaling u (leg_at a i))) = true)
      by (unfold advance_to_signaling; case_bool_decide; [done|];
          by destruct (leg_state (leg_at a i))).
    destruct i; cbn in *; intuition.
  - intros r Hr. rewrite (no_replacement a Hs) in Hr; congruence.
Qed.

Lemma provider_media_started_valid a t id g a' r :
  valid_call a → provider_media_started a t id g = Ok (a', r) →
  cr_disposition r = CommandDisposition.Applied → valid_upto t a'.
Proof.
  intros Hv H Hd. unfold provider_media_started in H. inv_ok H; simplify_eq; try done.
  { by apply compare_binding_Some in Hx0 as [_ ->]. }
  apply ensure_timestamp_ok in Hx1. bool_hyps. apply advance_leg_valid; eauto with rust.
Qed.

Lemma provider_media_attached_valid a t id g a' r :
  valid_call a → provider_media_attached a t id g = Ok (a', r) → valid_upto t a'.
Proof.
  intros Hv H. unfold provider_media_attached in H. inv_ok H. simplify_eq.
  apply ensure_timestamp_ok in Hx. case_match eqn:Eo; [|eauto with rust].
  bool_hyps. apply advance_leg_valid; eauto with rust.
Qed.

Lemma BindingGeneration_next_ok g g' :
  BindingGeneration_next g = Ok g' ↔ (g < MAX_PERSISTED_GENERATION)%N ∧ g' = (g + 1)%N.
Proof.
  unfold BindingGeneration_next. destruct (N.leb_spec MAX_PERSISTED_GENERATION g);
    (split; [intros [=]; subst; auto|intros [? ->]; done || lia]).
Qed.

(** The leg after its binding generation was rotated. *)
Definition rotated (t : DateTime) (leg : Leg) : Leg :=
  let g := (leg_binding_generation leg + 1)%N in
  leg <| leg_binding_generation := g |>
      <| leg_replacement_generation_cursor :=
           match leg_replacement_generation_cursor leg with
           | Some cursor => Some (N.max cursor g) | None => None end |>
      <| leg_state := LegState.AwaitingAttach |> <| leg_state_changed_at := t |>.

Lemma rotated_eq t leg :
  rotated t leg =
  (let leg := leg <| leg_binding_generation := (leg_binding_generation leg + 1)%N |> in
   if is_some_and (λ cursor, (cursor <? leg_binding_generation leg)%N)
        (leg_replacement_generation_cursor leg)
   then leg <| leg_replacement_generation_cursor := Some (leg_binding_generation leg) |>
   else leg) <| leg_state := LegState.AwaitingAttach |> <| leg_state_changed_at := t |>.
Proof.
  unfold rotated. destruct leg as [i d k si mf st g cu ca sc co en fa]; cbn.
  destruct cu as [c|]; cbn; [|done].
  destruct (N.ltb_spec c (g + 1)); cbn; rewrite ?N.max_r, ?N.max_l by lia; done.
Qed.

Lemma rotate_leg_binding_applied a t id g a' r :
  rotate_leg_binding a t id g = Ok (a', r) → cr_disposition r = CommandDisposition.Applied →
  ∃ i, leg_index a id = Ok i ∧ g = leg_binding_generation (leg_at a i) ∧ ca_updated_at a ≤ t ∧
    ca_state a = CallState.Connecting ∧ leg_is_terminal (leg_state (leg_at a i)) = false ∧
    (g < MAX_PERSISTED_GENERATION)%N ∧
    a' = set_leg a i (rotated t (leg_at a i)) ∧
    r = applied t [AwaitLegAttachment id (g + 1)%N].
Proof.
  intros H Hd. unfold rotate_leg_binding in H. inv_ok H.
  { injection H as <- <-. by apply compare_binding_Some in Hx0 as [_ ->]. }
  injection H as <- <-.
  apply ensure_timestamp_ok in Hx1. apply compare_binding_None in Hx0. subst g.
  apply BindingGeneration_next_ok in Hx2 as [? ->]. bool_hyps.
  exists x. rewrite rotated_eq. split_and!; auto; [by destruct (leg_state (leg_at a x))|].
  by destruct (is_some_and _ _).
Qed.

Lemma rotated_valid created u leg :
  valid_leg created u leg → leg_is_terminal (leg_state leg) = false →
  valid_leg created u (rotated u leg).
Proof.
  intros H Ht. destruct H as [?????? Hend Hf He]. unfold replacement_generation_cursor in *.
  split; cbn; auto; try lia.
  - unfold replacement_generation_cursor. cbn. destruct (leg_replacement_generation_cursor leg); lia.
  - rewrite Hf. by destruct (leg_state leg).
  - by rewrite <- He, Ht.
Qed.

Lemma rotate_leg_binding_valid a t id g a' r :
  valid_call a → rotate_leg_binding a t id g = Ok (a', r) →
  cr_disposition r = CommandDisposition.Applied → valid_upto t a'.
Proof.
  intros Hv H Hd.
  destruct (rotate_leg_binding_applied _ _ _ _ _ _ H Hd) as (i & _ & _ & Ht & Hst & Hnt & _ & -> & _).
  pose proof (valid_call_upto a t Hv Ht) as [Hc Hs]. split.
  - apply core_valid_set_leg; auto using rotated_valid with rust.
  - apply shape_set_leg; auto.
    + destruct Hs as [S _ _]. rewrite Hst in *. destruct i; cbn in *; intuition.
    + intros rp Hr. rewrite (no_replacement a Hs) in Hr; congruence.
Qed.

Lemma begin_leg_replacement_valid a t id k d a' r :
  valid_call a → begin_leg_replacement a t id k d = Ok (a', r) → valid_upto t a'.
Proof.
  intros Hv H. unfold begin_leg_replacement in H. inv_ok H. simplify_eq.
  apply ensure_timestamp_ok in Hx. bool_hyps. apply leg_index_ok in Hx0 as <-.
  pose proof (valid_call_upto a t Hv Hx) as [Hc Hs].
  unfold next_replacement_binding_generation, BindingGeneration_next in Hx1.
  destruct (_ <=? _)%N; [done|]. injection Hx1 as <-.
  apply arm_deadline_ok in Hx2 as (_ & -> & [= -> ->]).
  pose proof (core_valid_leg_at t a x0 Hc) as Hl. rewrite set_call_state_eq.
  set (leg' := (leg_at a x0) <| leg_state := _ |> <| leg_state_changed_at := _ |>
                 <| leg_replacement_generation_cursor := _ |>).
  assert (Hc' : core_valid t (set_leg a x0 leg')).
  { apply core_valid_set_leg; auto. subst leg'. destruct Hl.
    rewrite E1 in *. split; cbn; auto; try lia. }
  destruct (set_leg_projections a x0 leg') as (P1 & P2 & P3 & P4).
  split.
  - apply core_set_replacement, core_put_slot. eapply core_valid_ext; [..|exact Hc']; try reflexivity.
    cbn. destruct Hc'. case_match; lia.
  - destruct Hs as [S R D]. rewrite H in *. split.
    + cbn. rewrite P3. destruct x0; cbn in *; intuition.
    + unfold replacement_ok. cbn. exists leg'. split_and!; [|done| |done].
      * destruct Hc'. destruct x0; cbn in *; unfold find_leg; cbn; repeat case_bool_decide; congruence.
      * destruct Hl. unfold replacement_leg_ok. cbn. split_and!; auto. lia.
    + intros kd Ha. unfold deadline_allowed, armed in *. cbn in *. rewrite P4 in Ha.
      specialize (D kd). rewrite H in D. destruct kd; cbn in *; auto.
Qed.

Lemma finish_transfer_valid a t g res a' r :
  valid_call a → finish_transfer a t g res = Ok (a', r) →
  cr_disposition r = CommandDisposition.Applied → valid_upto t a'.
Proof.
  intros Hv H Hd. unfold finish_transfer in H. inv_ok H; simplify_eq; try done.
  { by apply compare_deadline_Some in Hx as [_ ->]. }
  apply ensure_timestamp_ok in Hx0. rewrite cancel_deadline_eq in *. simplify_eq. bool_hyps.
  pose proof (valid_call_upto a t Hv Hx0) as [Hc Hs]. split.
  - apply core_valid_set_call_state; [|lia]. by apply core_put_slot.
  - destruct Hs as [S R D]. rewrite H in *. rewrite set_call_state_eq. split; [exact S| |].
    + unfold replacement_ok. cbn. by destruct (ca_replacement a).
    + intros k Hk. unfold deadline_allowed, armed in *. cbn in *. specialize (D k).
      rewrite H in D. destruct k; cbn in *; auto.
Qed.

(** A call whose replacement settles is active again. *)
Lemma settle_replacement_valid u a i leg rp due :
  valid_upto u a → ca_replacement a = Some rp → rp_leg_id rp = leg_id (leg_at a i) →
  leg_id leg = leg_id (leg_at a i) → leg_media_flow leg = leg_media_flow (leg_at a i) →
  valid_leg (ca_created_at a) u leg → leg_state leg = LegState.Connected →
  slot_due_at due = None →
  valid_upto u (set_call_state
    ((set_leg (put_slot a DeadlineKind.Transfer due) i leg) <| ca_replacement := None |>)
    CallState.Active u).
Proof.
  intros Hu Hr Hri Fi Fm Hl Fs Hdue. destruct (replaced_leg_held _ _ _ _ Hu Hr Hri) as [Hst _].
  destruct Hu as [Hc [S R D]]. split.
  - apply core_valid_set_call_state; [|lia]. apply core_set_replacement.
    apply (core_put_slot _ _ DeadlineKind.Transfer due) in Hc.
    apply core_valid_set_leg; auto; destruct i; done.
  - rewrite set_call_state_eq. rewrite Hst in *. split.
    + destruct i; cbn in *; rewrite Fs; cbn; intuition.
    + done.
    + intros k. specialize (D k). unfold deadline_allowed, armed in *. rewrite Hst in D.
      destruct i, k; cbn in *; rewrite ?Hdue; auto.
Qed.

Lemma valid_leg_resume created u leg :
  valid_leg created u leg → leg_state leg = LegState.Held →
  valid_leg created u (leg <| leg_state := LegState.Connected |> <| leg_state_changed_at := u |>).
Proof. intros H E. apply valid_leg_move; rewrite ?E; auto. destruct H; lia. Qed.

Lemma finish_leg_replacement_valid a t dg g res a' r :
  valid_call a → finish_leg_replacement a t dg g res = Ok (a', r) →
  cr_disposition r = CommandDisposition.Applied → valid_upto t a'.
Proof.
  intros Hv H Hd. unfold finish_leg_replacement in H. inv_ok H; simplify_eq; try done.
  { by apply compare_deadline_Some in Hx as [_ ->]. }
  apply ensure_timestamp_ok in Hx0. apply leg_index_ok in Hx1.
  rewrite cancel_deadline_eq in *. simplify_eq.
  pose proof (valid_call_upto a t Hv Hx0) as Hu.
  destruct (replaced_leg_held _ _ _ _ Hu E0 (eq_sym Hx1)) as [Hst (Hh & Hg & Hp & Hlt)].
  pose proof (core_valid_leg_at t a x1 (proj1 Hu)) as Hl.
  assert (leg_at (cleared DeadlineKind.Transfer a) x1 = leg_at a x1) as Hat by by destruct x1.
  rewrite Hat in *. unfold cleared.
  destruct res; simplify_eq; apply (settle_replacement_valid _ _ _ _ l); auto using valid_leg_resume.
  apply valid_leg_resume in Hl; [|done]. destruct Hl.
  split; cbn in *; auto; try lia.
  unfold replacement_generation_cursor in *. cbn in *. destruct (leg_replacement_generation_cursor _); lia.
Qed.

Lemma fail_leg_valid created u f leg :
  valid_leg created u leg →
  valid_leg created u (fail_leg u f leg) ∧ leg_is_terminal (leg_state (fail_leg u f leg)) = true ∧
  leg_id (fail_leg u f leg) = leg_id leg ∧ leg_media_flow (fail_leg u f leg) = leg_media_flow leg.
Proof.
  intros H. unfold fail_leg. destruct (leg_is_terminal (leg_state leg)) eqn:E; cbn; [done|].
  destruct H. split_and!; auto. split; cbn; auto; try lia. intros t [= <-]. lia.
Qed.

Lemma armed_allowed a k d :
  shape_valid a → slot_due_at (deadline_get (ca_deadlines a) k) = Some d →
  deadline_allowed_in (ca_state a) k = true.
Proof. intros [_ _ D] E. apply (D k). unfold armed. by rewrite E. Qed.

Lemma live_leg_not_failed a s0 s1 o :
  state_legs_ok a s0 s1 o → deadline_allowed_in a DeadlineKind.Ending = false →
  call_is_terminal a = false → s0 ≠ LegState.Failed ∧ s1 ≠ LegState.Failed.
Proof. intros S ??. destruct a; try done; cbn in S; split; intros ->; intuition discriminate. Qed.

Lemma deadline_elapsed_valid a t k g d a' r :
  valid_call a → deadline_elapsed a t k g d = Ok (a', r) →
  cr_disposition r = CommandDisposition.Applied → valid_upto t a'.
Proof.
  intros Hv H Hd. unfold deadline_elapsed in H. inv_ok H; injection H as <- <-; try done.
  { by apply compare_deadline_Some in Hx as [_ ->]. }
  all: apply ensure_timestamp_ok in Hx0; pose proof (valid_call_upto a t Hv Hx0) as Hu;
    pose proof (armed_allowed _ _ _ (proj2 Hu) E0) as Hk;
    pose proof (no_replacement a (proj2 Hu)) as Hnr; pose proof (proj1 Hu) as Hc.
  - (* ending *)
    apply bool_decide_eq_true in E3 as ->. apply bool_decide_eq_true in Hk.
    apply (f_equal fst) in E4. cbn [fst] in E4. subst c.
    pose proof (fail_leg_valid _ _ ending_timeout _ (cv_leg0 _ _ Hc)) as (V0 & T0 & I0 & M0).
    pose proof (fail_leg_valid _ _ ending_timeout _ (cv_leg1 _ _ Hc)) as (V1 & T1 & I1 & M1).
    apply finalize_valid.
    + eapply core_valid_ext; [..|eapply (core_valid_legs _ _ _ _ Hc I0 I1 M0 M1 V0 V1)];
        try reflexivity. by destruct Hc.
    + unfold both_terminal, all_legs, legs. cbn. by rewrite T0, T1.
    + cbn. apply Hnr. congruence.
  - (* a transfer deadline with a pending replacement *)
    destruct (k ==? DeadlineKind.Transfer) eqn:Ek; [|done]. apply bool_decide_eq_true in Ek as ->.
    cbn in E4. apply leg_index_ok in Hx1.
    set (due := (deadline_get (ca_deadlines a) DeadlineKind.Transfer) <| slot_due_at := None |>) in *.
    change (leg_at _ x1) with (leg_at a x1) in *.
    replace (set_leg _ x1 _) with
      ((set_leg (put_slot a DeadlineKind.Transfer due) x1
         ((leg_at a x1) <| leg_state := LegState.Connected |> <| leg_state_changed_at := t |>))
         <| ca_replacement := None |>) by by destruct x1.
    destruct (replaced_leg_held _ _ _ _ Hu E4 (eq_sym Hx1)) as [Hst (Hh & _)].
    apply (settle_replacement_valid _ _ _ _ l); auto using valid_leg_resume with rust.
  - (* setup, media, or a transfer without replacement *)
    refine (begin_ending_valid _ _ _ _ _ _ _ _ (core_put_slot _ _ _ _ Hc) _ Hx1).
    cbn. intros Hf. exfalso. destruct Hu as [_ [S _ _]].
    destruct (live_leg_not_failed _ _ _ _ S) as [??]; [..|tauto].
    + destruct k, (ca_state a); done.
    + destruct k, (ca_state a); done.
Qed.

Lemma apply_command_valid a c a' r :
  valid_call a → apply_command a c = Ok (a', r) →
  cr_disposition r = CommandDisposition.Applied → hold_conflict a c = false →
  valid_upto (command_at c) a'.
Proof.
  intros Hv H Hd Hh. destruct c; cbn [apply_command command_at] in *;
    eauto using start_connecting_valid, set_leg_state_valid, source_terminated_valid,
      provider_media_started_valid, provider_media_attached_valid, rotate_leg_binding_valid,
      arm_deadline_command_valid, begin_transfer_valid, begin_leg_replacement_valid,
      finish_transfer_valid, finish_leg_replacement_valid, begin_ending_command_valid,
      deadline_elapsed_valid.
Qed.

(** ** What no command changes *)

Definition leg_identity (leg : Leg) :=
  (leg_id leg, leg_direction leg, leg_signaling_initiator leg, leg_media_flow leg,
   leg_created_at leg).

Definition identity (a : CallAggregate) :=
  (ca_id a, ca_tenant_id a, ca_version a, ca_created_at a, ca_updated_at a,
   leg_identity (ca_leg0 a), leg_identity (ca_leg1 a)).

Lemma identity_set_call_state a s t : identity (set_call_state a s t) = identity a.
Proof. by rewrite set_call_state_eq. Qed.

Lemma identity_set_leg a i leg :
  leg_identity leg = leg_identity (leg_at a i) → identity (set_leg a i leg) = identity a.
Proof. intros H. destruct i; unfold identity; cbn in *; by rewrite H. Qed.

Lemma identity_stop_leg t reason leg : leg_identity (stop_leg t reason leg).1 = leg_identity leg.
Proof. unfold stop_leg. by destruct (_ && _). Qed.

Lemma identity_fail_leg t f leg : leg_identity (fail_leg t f leg) = leg_identity leg.
Proof. unfold fail_leg. by destruct (negb _). Qed.

Lemma identity_arm k d a e g st :
  arm_deadline_internal k d (a, e) = Ok (g, st) → identity st.1 = identity a.
Proof. by intros (_ & -> & ->)%arm_deadline_ok. Qed.

Lemma identity_finalize t a e : identity (finalize_terminal t (a, e)).1 = identity a.
Proof. rewrite finalize_terminal_eq. cbn [fst]. by rewrite identity_set_call_state. Qed.

Lemma identity_begin_ending t o reason d a e a' e' :
  begin_ending_internal t o reason d (a, e) = Ok (a', e') → identity a' = identity a.
Proof.
  rewrite begin_ending_eq. cbv zeta.
  assert (Hb : identity (ending_body t o reason a) = identity a).
  { unfold ending_body. rewrite set_call_state_eq. unfold identity. cbn.
    by rewrite !identity_stop_leg. }
  intros H. rewrite <- Hb. inv_ok H; injection H as H; try done.
  - apply (f_equal fst) in H. cbn [fst] in H. subst a'. apply identity_finalize.
  - destruct x as [g st]. apply identity_arm in Hx. cbn in H. subst st. done.
  - by subst a'.
Qed.

Lemma identity_reconcile i t a e a' e' :
  reconcile_leg_state i t (a, e) = Ok (a', e') → identity a' = identity a.
Proof.
  unfold reconcile_leg_state. intros H. inv_ok H; try (by simplify_eq);
    try (eapply identity_begin_ending; exact H).
  - rewrite cancel_deadline_eq in E0. simplify_eq. by rewrite identity_set_call_state.
  - injection H as H. apply (f_equal fst) in H. cbn [fst] in H. subst a'.
    rewrite identity_finalize. by destruct (leg_failure _).
  - simplify_eq. by destruct (leg_failure _).
Qed.

Ltac use_identity :=
  repeat match goal with
  | H : arm_deadline_internal _ _ _ = Ok (_, (_, _)) |- _ => apply identity_arm in H; cbn [fst] in H
  | H : reconcile_leg_state _ _ _ = Ok _ |- _ => apply identity_reconcile in H
  | H : begin_ending_internal _ _ _ _ _ = Ok _ |- _ => apply identity_begin_ending in H
  | H : finalize_terminal _ _ = (_, _) |- _ =>
      apply (f_equal fst) in H; rewrite identity_finalize in H || (cbn [fst] in H; subst)
  | H : cancel_deadline_internal _ _ = _ |- _ => rewrite cancel_deadline_eq in H; injection H as <- <-
  | H : start_leg _ ?l = (?l', _) |- _ =>
      assert (leg_identity l' = leg_identity l)
        by (unfold start_leg in H; destruct (_ ==? _) in H; by simplify_eq); clear H
  end.

Ltac identity_step :=
  match goal with
  | |- _ => reflexivity
  | H : identity ?a' = _ |- identity ?a' = _ => rewrite H; clear H
  | |- context [set_call_state ?a ?s ?t] => rewrite (set_call_state_eq a s t) in *
  | |- identity (set_leg ?a ?i ?leg) = _ => rewrite (identity_set_leg a i leg)
  | |- identity (if ?b then _ else _) = _ => destruct b
  | |- leg_identity (update_leg_state _ _ _ _) = _ => unfold update_leg_state; repeat case_match
  | |- leg_identity (advance_to_signaling _ _) = _ => unfold advance_to_signaling; case_match
  | |- context [if is_some_and ?p ?o then _ else _] => destruct (is_some_and p o)
  | H : match ?res with ReplacementConnected => _ | ReplacementRejected _ => _ end = (?l, _) |- _ =>
      destruct res; injection H as <- <-
  | |- identity (?b <| ca_replacement := ?r |>) = _ =>
      change (identity (b <| ca_replacement := r |>)) with (identity b)
  | i : LegIndex |- _ => destruct i
  | |- identity _ = identity _ => unfold identity; cbn in *; congruence
  end.

Lemma apply_command_identity a c a' r :
  apply_command a c = Ok (a', r) → identity a' = identity a.
Proof.
  destruct c; cbn [apply_command]; intros H;
    match type of H with
    | ?f _ _ _ = _ => unfold f in H
    | ?f _ _ _ _ = _ => unfold f in H
    | ?f _ _ _ _ _ = _ => unfold f in H
    | ?f _ _ _ _ _ _ = _ => unfold f in H
    end;
    inv_ok H; simplify_eq; try done; use_identity; repeat identity_step.
  rewrite identity_finalize. unfold identity. cbn. by rewrite !identity_fail_leg.
Qed.

(** ** The decision function *)

(** The aggregate [decide] persists for an applied command. *)
Definition committed (a : CallAggregate) (c : CallCommand) : CallAggregate :=
  a <| ca_version := (ca_version a + 1)%N |> <| ca_updated_at := command_at c |>.

Lemma valid_committed a c : valid_call (committed a c) ↔ valid_upto (command_at c) a.
Proof.
  unfold valid_call, valid_upto. split; intros [[] []]; (split; split; done).
Qed.

(** What the closing validation answers to a hold conflict. *)
Definition hold_conflict_message (a : CallAggregate) : string :=
  if ca_state a ==? CallState.Connecting
  then "connecting call contains an incompatible leg state"
  else "replacement state does not match held leg and transfer deadline".

Lemma validate_core_err u a :
  core_valid u a → ca_updated_at a = u →
  validate a = (validate_state a;; validate_replacement a;;
    reject_if ((ca_state a !=? CallState.Transferring) && is_some (ca_replacement a))
      (InvalidSnapshot "replacement exists outside transferring state");;
    reject_if (negb (match ca_state a with
                     | CallState.Ending | CallState.Ended | CallState.Failed => true
                     | _ => false end) && is_some (ca_terminal_outcome a))
      (InvalidSnapshot "non-ending call cannot have a terminal outcome");;
    reject_if (existsb (λ kind, armed a kind && negb (deadline_allowed a kind)) deadline_kinds)
      (InvalidSnapshot "deadline is armed in an incompatible call state");;
    reject_if (call_is_terminal (ca_state a) && existsb (armed a) deadline_kinds)
      (InvalidSnapshot "terminal call cannot have armed deadlines")).
Proof.
  intros [Hi Hm Hc Hch H0 H1] <-. unfold validate.
  apply validate_leg_ok in H0, H1. rewrite Hm, H0, H1.
  rewrite (bool_decide_eq_false_2 _ Hi).
  destruct (Z.ltb_spec (ca_updated_at a) (ca_created_at a)); [lia|].
  destruct (Z.ltb_spec (ca_updated_at a) (ca_state_changed_at a)); [lia|]. done.
Qed.

(** A hold conflict only moves its leg: the call state does not react to it. *)
Lemma hold_conflict_moves a t x g s f leg' a' e' :
  valid_upto t a → leg_state leg' = s →
  hold_conflict a (SetLegState t (leg_id (leg_at a x)) g s f) = true →
  reconcile_leg_state x t (set_leg a x leg', []) = Ok (a', e') → a' = set_leg a x leg'.
Proof.
  intros Hu Fs Hh Hr. destruct (set_leg_projections a x leg') as (P1 & _).
  unfold reconcile_leg_state in Hr. rewrite leg_at_set_leg, P1, Fs in Hr.
  unfold hold_conflict in Hh. destruct s; try done.
  - destruct (ca_replacement a) as [rp|] eqn:Er; [|done]. cbn in Hh. bool_hyps.
    destruct (replaced_leg_held _ _ _ _ Hu Er Hh) as [Hst _]. rewrite Hst in Hr.
    eval_tests_in Hr. by simplify_eq.
  - bool_hyps. rewrite Hh in Hr.
    replace (all_legs (λ leg, leg_state leg ==? LegState.Connected) (set_leg a x leg'))
      with false in Hr by
      (unfold all_legs, legs; destruct x; cbn; rewrite Fs; cbn; by rewrite ?andb_false_r).
    rewrite andb_false_r in Hr. eval_tests_in Hr. by simplify_eq.
Qed.

(** The closing validation refuses the move. *)
Lemma hold_conflict_invalid a t x g s f leg' :
  let c := SetLegState t (leg_id (leg_at a x)) g s f in
  valid_upto t a → core_valid t (set_leg a x leg') → leg_id leg' = leg_id (leg_at a x) →
  leg_state leg' = s → hold_conflict a c = true →
  validate (committed (set_leg a x leg') c) = Err (InvalidSnapshot (hold_conflict_message a)).
Proof.
  intros c Hu Hc Fi Fs Hh. destruct (set_leg_projections a x leg') as (P1 & P2 & _).
  erewrite (validate_core_err t);
    [|eapply core_valid_ext; [..|exact Hc]; try reflexivity; by destruct Hc|done].
  unfold hold_conflict_message, hold_conflict, validate_state, validate_replacement in *.
  change (ca_state (committed _ _)) with (ca_state (set_leg a x leg')).
  change (ca_replacement (committed _ _)) with (ca_replacement (set_leg a x leg')).
  change (find_leg (committed _ _)) with (find_leg (set_leg a x leg')).
  rewrite P1, P2. unfold c in Hh. destruct s; try done.
  - destruct (ca_replacement a) as [rp|] eqn:Er; [|done]. cbn in Hh. bool_hyps.
    destruct (replaced_leg_held _ _ _ _ Hu Er Hh) as [Hst (Hheld & _)].
    assert (Hf : find_leg (set_leg a x leg') (rp_leg_id rp) = Some leg').
    { pose proof (find_leg_at t _ x Hc) as Hfl. rewrite leg_at_set_leg in Hfl. congruence. }
    rewrite Hst, Hf. destruct Hu as [_ [S _ _]]. rewrite Hst in S.
    destruct S as (S0 & S1 & _). unfold any_leg, legs.
    destruct x; cbn in Fs |- *; rewrite Fs, ?S0, ?S1; done.
  - bool_hyps. rewrite Hh.
    unfold any_leg, legs. destruct x; cbn in *; rewrite Fs; cbn; rewrite ?orb_true_r; done.
Qed.

(** A hold conflict that reaches the closing validation is rejected by it. *)
Lemma hold_conflict_rejected a c a' r :
  valid_call a → apply_command a c = Ok (a', r) →
  cr_disposition r = CommandDisposition.Applied → hold_conflict a c = true →
  validate (committed a' c) = Err (InvalidSnapshot (hold_conflict_message a)).
Proof.
  intros Hv H Hd Hh. destruct c as [|t id g s f|?|?|?|?|?|?|?|?|?|?|?]; try done.
  cbn [apply_command] in H. open_applied H.
  apply ensure_timestamp_ok in Hx1. apply leg_index_ok in Hx as <-.
  pose proof (valid_call_upto a t Hv Hx1) as Hu.
  destruct (update_leg_state_fields t s f (leg_at a x)) as (Fi & Fm & Fs & Ff).
  assert (Hl : valid_leg (ca_created_at a) t (update_leg_state t s f (leg_at a x))).
  { apply negb_false_iff in E4. apply transition_nonterminal in E4.
    apply update_leg_state_valid; [apply core_valid_leg_at, Hu|done|].
    destruct f, (s ==? LegState.Failed); cbn in *; congruence. }
  rewrite (hold_conflict_moves _ _ _ _ _ _ _ _ _ Hu Fs Hh Hx2).
  apply hold_conflict_invalid; auto. apply core_valid_set_leg; auto. apply Hu.
Qed.

Lemma decide_apply a c :
  valid_call a →
  decide a c =
  match apply_command a c with
  | Err e => Err e
  | Ok (a', r) =>
      if cr_disposition r ==? CommandDisposition.Applied then
        if (MAX_PERSISTED_GENERATION <=? ca_version a)%N
        then Err (GenerationExhausted "aggregate_version")
        else if hold_conflict a c then Err (InvalidSnapshot (hold_conflict_message a))
        else Ok {| cd_aggregate := committed a' c; cd_effects := cr_effects r;
                   cd_disposition := CommandDisposition.Applied |}
      else Ok {| cd_aggregate := a; cd_effects := []; cd_disposition := cr_disposition r |}
  end.
Proof.
  intros Hv. unfold decide. destruct (apply_command a c) as [[a' r]|e] eqn:H; [|done].
  cbn [mbind result_bind]. destruct (apply_command_same _ _ _ _ H) as [Hat Hsame].
  pose proof (apply_command_identity _ _ _ _ H) as Hid.
  case_bool_decide as Hd.
  - assert (Hver : ca_version a' = ca_version a) by (unfold identity in Hid; congruence).
    unfold AggregateVersion_next. rewrite Hver, Hat.
    destruct (_ <=? _)%N; [done|]. cbn [mbind result_bind]. rewrite <- Hver.
    change (a' <| ca_version := _ |> <| ca_updated_at := _ |>) with (committed a' c).
    destruct (hold_conflict a c) eqn:Hh.
    + by rewrite (hold_conflict_rejected _ _ _ _ Hv H Hd Hh).
    + pose proof (apply_command_valid _ _ _ _ Hv H Hd Hh) as Hn.
      apply valid_committed, validate_ok in Hn. by rewrite Hn, Hd.
  - destruct Hsame as [?|[-> He]]; [done|]. cbn [mbind result_bind].
    rewrite (proj2 (validate_ok a) Hv), He. done.
Qed.
