(* ===== verification/DomainWorld.v ===== *)
(** The effect intents of a decision against an abstract runtime.

    [Timers] is the timer service a worker runs: [ScheduleDeadline] installs a timer,
    [CancelDeadline] removes the one of the given generation.  [run_graph] is the media
    graph, as the set of bridged pairs of legs.  Executing the effects of a decision, in order, keeps
    both equal to what the durable aggregate records. *)

From S2P Require Import Prelude RustText DomainTypes Domain DomainInv DomainSafety.
From stdpp Require Import options.

(** ** The abstract timer service *)

Definition Timers : Type := DeadlineKind → option (DeadlineGeneration * DateTime).

#[export] Instance Timers_equiv : Equiv Timers := λ T1 T2, ∀ k, T1 k = T2 k.
#[export] Instance Timers_equivalence : Equivalence (≡@{Timers}).
Proof.
  split.
  - by intros T k.
  - intros T1 T2 H k. symmetry. apply H.
  - intros T1 T2 T3 H1 H2 k. etrans; [apply H1|apply H2].
Qed.

Definition timer_set (k : DeadlineKind) (v : option (DeadlineGeneration * DateTime)) (T : Timers)
    : Timers := λ k', if k ==? k' then v else T k'.

Definition timer_effect (T : Timers) (e : EffectIntent) : Timers :=
  match e with
  | ScheduleDeadline k g d => timer_set k (Some (g, d)) T
  | CancelDeadline k g =>
      match T k with
      | Some (g', _) => if g =? g' then timer_set k None T else T
      | None => T
      end%N
  | _ => T
  end.

Definition run_timers (effects : list EffectIntent) (T : Timers) : Timers :=
  fold_left timer_effect effects T.

(** The timers an aggregate records as armed. *)
Definition timers_of (a : CallAggregate) : Timers := λ k,
  match slot_due_at (deadline_get (ca_deadlines a) k) with
  | Some d => Some (generation_of a k, d)
  | None => None
  end.

(** The service when a command arrives: the timer that elapsed is gone. *)
Definition timers_before (a : CallAggregate) (c : CallCommand) : Timers :=
  match c with
  | DeadlineElapsed _ k _ _ => timer_set k None (timers_of a)
  | _ => timers_of a
  end.

#[export] Instance timer_set_proper k v : Proper ((≡) ==> (≡)) (timer_set k v).
Proof. intros T1 T2 H k'. unfold timer_set. by destruct (_ ==? _). Qed.

#[export] Instance timer_effect_proper : Proper ((≡) ==> (=) ==> (≡)) timer_effect.
Proof.
  intros T1 T2 H e ? <-. destruct e; cbn; auto; [by rewrite H|].
  rewrite (H kind). destruct (T2 kind) as [[g d]|]; [|done]. destruct (_ =? _)%N; by rewrite ?H.
Qed.

#[export] Instance run_timers_proper effects : Proper ((≡) ==> (≡)) (run_timers effects).
Proof.
  unfold run_timers. induction effects as [|e effects IH]; intros T1 T2 H; [done|].
  cbn. apply IH. by rewrite H.
Qed.

Lemma run_timers_app e1 e2 T : run_timers (e1 ++ e2) T = run_timers e2 (run_timers e1 T).
Proof. apply fold_left_app. Qed.

(** Effects that are not about deadlines. *)
Definition timer_free (e : EffectIntent) : bool :=
  match e with ScheduleDeadline _ _ _ | CancelDeadline _ _ => false | _ => true end.

Lemma run_timers_free effects T : forallb timer_free effects = true → run_timers effects T = T.
Proof.
  revert T. induction effects as [|e effects IH]; intros T H; [done|]. cbn in *. bool_hyps.
  rewrite <- (IH T) at 2 by done. by destruct e.
Qed.

(** [sync T (a, e)]: the effects emitted so far bring the service from [T] to what [a] records. *)
Definition sync (T : Timers) (st : CallAggregate * list EffectIntent) : Prop :=
  run_timers st.2 T ≡ timers_of st.1.

Lemma sync_free T a e a' e' :
  sync T (a, e) → ca_deadlines a' = ca_deadlines a → forallb timer_free e' = true →
  sync T (a', e ++ e').
Proof.
  unfold sync. cbn [fst snd]. intros H Hd He. rewrite run_timers_app, run_timers_free by done.
  intros k. rewrite (H k). unfold timers_of, generation_of. by rewrite Hd.
Qed.

Lemma timers_of_put_slot a k slot :
  timers_of (put_slot a k slot) ≡
  timer_set k (match slot_due_at slot with Some d => Some (slot_generation slot, d) | None => None end)
    (timers_of a).
Proof. intros k'. unfold timers_of, timer_set, generation_of. by destruct k, k'. Qed.

Lemma timer_set_idem k T : T k = None → timer_set k None T ≡ T.
Proof. intros H k'. unfold timer_set. case_bool_decide; by subst. Qed.

Lemma sync_cancel T k st : sync T st → sync T (cancel_deadline_internal k st).
Proof.
  destruct st as [a e]. rewrite cancel_deadline_eq. unfold sync. cbn [fst snd]. intros H.
  rewrite run_timers_app, H. unfold cleared. rewrite timers_of_put_slot. cbn.
  unfold cancel_effects, armed. destruct (slot_due_at _) as [d|] eqn:Ed; cbn.
  - unfold timers_of at 1. rewrite Ed, N.eqb_refl. done.
  - symmetry. apply timer_set_idem. unfold timers_of. by rewrite Ed.
Qed.

Lemma sync_arm T k d st g st' :
  sync T st → arm_deadline_internal k d st = Ok (g, st') → sync T st'.
Proof.
  destruct st as [a e]. intros H (_ & -> & ->)%arm_deadline_ok.
  apply (sync_cancel T k) in H. rewrite cancel_deadline_eq in H. unfold sync in *. cbn [fst snd] in *.
  rewrite app_assoc, run_timers_app, H, timers_of_put_slot. cbn.
  unfold cleared. rewrite timers_of_put_slot. cbn.
  intros k'. unfold timer_set. by destruct (k ==? k').
Qed.

(** ** Following the deadline effects

    Any relation between an aggregate and the effects emitted so far that effects without deadlines
    leave alone, and that cancelling and arming a slot preserve, is preserved by every handler. *)

(** The aggregate a handler starts from: the slot of the timer that elapsed is disarmed without a
    cancellation. *)
Definition disarmed (a : CallAggregate) (c : CallCommand) : CallAggregate :=
  match c with
  | DeadlineElapsed _ k _ _ => put_slot a k ((deadline_get (ca_deadlines a) k) <| slot_due_at := None |>)
  | _ => a
  end.

Lemma stop_leg_free t reason leg : forallb timer_free (stop_leg t reason leg).2 = true.
Proof. unfold stop_leg. by destruct (_ && _). Qed.

Lemma deadlines_set_leg a i leg : ca_deadlines (set_leg a i leg) = ca_deadlines a.
Proof. by destruct i. Qed.

Lemma deadlines_set_call_state a s t : ca_deadlines (set_call_state a s t) = ca_deadlines a.
Proof. by rewrite set_call_state_eq. Qed.

Section Tracking.
Context (P : CallAggregate * list EffectIntent → Prop).
Hypothesis P_free : ∀ a e a' e', P (a, e) → ca_deadlines a' = ca_deadlines a →
  forallb timer_free e' = true → P (a', e ++ e').
Hypothesis P_cancel : ∀ k st, P st → P (cancel_deadline_internal k st).
Hypothesis P_arm : ∀ k d st g st', P st → arm_deadline_internal k d st = Ok (g, st') → P st'.

Lemma track_same a e a' : P (a, e) → ca_deadlines a' = ca_deadlines a → P (a', e).
Proof using P_free P_cancel P_arm. intros H Hd. rewrite <- (app_nil_r e). by eapply P_free. Qed.

Lemma track_start a e : P (a, []) → forallb timer_free e = true → P (a, e).
Proof using P_free P_cancel P_arm. intros H He. change e with ([] ++ e). by eapply P_free. Qed.

Lemma track_finalize t st : P st → P (finalize_terminal t st).
Proof using P_free P_cancel P_arm.
  intros H. unfold finalize_terminal.
  apply (P_cancel DeadlineKind.Setup), (P_cancel DeadlineKind.Media),
    (P_cancel DeadlineKind.Transfer), (P_cancel DeadlineKind.Ending) in H.
  destruct (cancel_deadline_internal DeadlineKind.Ending _) as [a e]. cbv zeta.
  set (b := match first_leg_failure a with Some _ => _ | None => _ end).
  assert (ca_deadlines b = ca_deadlines a) as Hb by (subst b; by destruct (first_leg_failure a)).
  destruct (ca_terminal_outcome b) as [[]|]; rewrite set_call_state_eq; eapply track_same; eauto.
Qed.

Lemma track_begin_ending t o reason d st st' :
  P st → begin_ending_internal t o reason d st = Ok st' → P st'.
Proof using P_free P_cancel P_arm.
  destruct st as [a e]. rewrite begin_ending_eq. cbv zeta. intros H.
  assert (Hb : P (ending_body t o reason a, e ++ ending_effects t reason a)).
  { unfold ending_effects.
    assert (H1 : P (a <| ca_replacement := None |>,
                         e ++ (unbridge_if_active a ++ abort_replacement a))).
    { eapply P_free; [exact H|done|]. unfold unbridge_if_active, abort_replacement.
      destruct (ca_state a), (ca_replacement a); done. }
    apply (P_cancel DeadlineKind.Setup), (P_cancel DeadlineKind.Media),
      (P_cancel DeadlineKind.Transfer) in H1.
    rewrite !cancel_deadline_eq in H1.
    match type of H1 with
    | P (_, ?l) =>
        replace (e ++ _) with (l ++ ((stop_leg t reason (ca_leg0 a)).2
                                     ++ (stop_leg t reason (ca_leg1 a)).2))
          by (unfold three_cancels; rewrite <- !app_assoc; reflexivity)
    end.
    eapply P_free; [exact H1| |].
    - unfold ending_body. by rewrite set_call_state_eq.
    - by rewrite forallb_app, !stop_leg_free. }
  intros Hr. inv_ok Hr; injection Hr as <-; try done.
  - by apply track_finalize.
  - destruct x as [g st]. eapply P_arm; eauto.
Qed.

Lemma track_reconcile i t st st' :
  P st → reconcile_leg_state i t st = Ok st' → P st'.
Proof using P_free P_cancel P_arm.
  destruct st as [a e]. unfold reconcile_leg_state. intros H Hr.
  destruct (_ && _).
  { apply (P_cancel DeadlineKind.Setup) in H. destruct (cancel_deadline_internal _ _) as [b e'].
    injection Hr as <-. eapply P_free; [exact H| |done]. by rewrite set_call_state_eq. }
  destruct (_ ==? _).
  { set (b := match leg_failure (leg_at a i) with Some _ => _ | None => _ end) in *.
    assert (P (b, e)) as Hb by (eapply track_same; [exact H|];
      subst b; by destruct (leg_failure (leg_at a i))).
    destruct (all_legs _ b); injection Hr as <-; [|done]. by apply track_finalize. }
  destruct (leg_state _); try (by injection Hr as <-); eapply track_begin_ending; eauto.
Qed.

(** Solves the bookkeeping of [P_free]: the same deadlines, and effects without timers. *)
Ltac track_side :=
  rewrite ?deadlines_set_call_state, ?deadlines_set_leg; cbn;
  rewrite ?deadlines_set_call_state, ?deadlines_set_leg; try done.

Lemma apply_command_track a c a' r :
  P (disarmed a c, []) →
  apply_command a c = Ok (a', r) → cr_disposition r = CommandDisposition.Applied →
  P (a', cr_effects r).
Proof using P_free P_cancel P_arm.
  intros Hs H Hd. destruct c; cbn [apply_command disarmed] in *; open_applied H.
  - (* start_connecting *)
    eapply P_arm; [|exact Hx0]. eapply track_start; [eapply track_same; [exact Hs|track_side]|].
    unfold start_leg in *. destruct (_ ==? _) in E1; destruct (_ ==? _) in E2; by simplify_eq.
  - (* set_leg_state *)
    eapply track_reconcile; [|exact Hx2]. eapply track_same; [exact Hs|track_side].
  - (* source_terminated_before_answer *)
    eapply track_reconcile; [|exact Hx2]. eapply track_same; [exact Hs|track_side].
  - eapply track_start; [eapply track_same; [exact Hs|track_side]|done].
  - eapply track_same; [exact Hs|].
    match goal with |- context [if ?b then _ else _] => destruct b end; track_side.
  - eapply track_start; [eapply track_same; [exact Hs|track_side]|done].
  - eapply P_arm; [exact Hs|exact Hx0].
  - (* begin_transfer *)
    eapply P_free; [eapply P_arm; [|exact Hx0]|done|done].
    eapply track_same; [exact Hs|track_side].
  - (* begin_leg_replacement *)
    eapply P_free; [eapply P_arm; [|exact Hx2]|done|done].
    eapply track_start; [eapply track_same; [exact Hs|track_side]|done].
  - (* finish_transfer *)
    apply (P_cancel DeadlineKind.Transfer) in Hs. rewrite E3 in Hs. cbn.
    destruct result; [eapply track_same; [exact Hs|track_side]|].
    eapply P_free; [exact Hs|track_side|done].
  - (* finish_leg_replacement *)
    apply (P_cancel DeadlineKind.Transfer) in Hs. rewrite E4 in Hs. cbn.
    eapply P_free; [exact Hs|track_side|]. destruct result; by simplify_eq.
  - (* begin_ending *)
    eapply track_begin_ending; [exact Hs|exact Hx0].
  - (* deadline_elapsed: ending *)
    cbn [cr_effects applied].
    rewrite <- E4. apply track_finalize. eapply track_same; [exact Hs|done].
  - (* deadline_elapsed: a replacement times out *)
    cbn [cr_effects applied]. eapply track_start; [|done].
    eapply track_same; [exact Hs|track_side].
  - (* deadline_elapsed: the call ends *)
    cbn [cr_effects applied]. eapply track_begin_ending; [|exact Hx1].
    eapply track_start; [exact Hs|by destruct (kind ==? DeadlineKind.Transfer)].
Qed.
End Tracking.

Lemma sync_refl a c : sync (timers_before a c) (disarmed a c, []).
Proof.
  destruct c; cbn [disarmed timers_before]; try done.
  intros k'. unfold timers_of, timer_set, generation_of. by destruct kind, k'.
Qed.

Lemma apply_command_sync a c a' r :
  apply_command a c = Ok (a', r) → cr_disposition r = CommandDisposition.Applied →
  sync (timers_before a c) (a', cr_effects r).
Proof.
  apply (apply_command_track (sync (timers_before a c))); eauto using sync_free, sync_cancel, sync_arm.
  apply sync_refl.
Qed.

(** ** The deadline ledger

    A stricter runtime: it accepts a [ScheduleDeadline] only for the next generation of a slot that
    is not armed, and a [CancelDeadline] only for the armed generation. *)

Definition ledger_effect (b : CallDeadlines) (e : EffectIntent) : option CallDeadlines :=
  match e with
  | ScheduleDeadline k g d =>
      let slot := deadline_get b k in
      if is_none (slot_due_at slot) && (g =? slot_generation slot + 1)%N
      then Some (deadline_put b k {| slot_generation := g; slot_due_at := Some d |}) else None
  | CancelDeadline k g =>
      let slot := deadline_get b k in
      if is_some (slot_due_at slot) && (g =? slot_generation slot)%N
      then Some (deadline_put b k {| slot_generation := g; slot_due_at := None |}) else None
  | _ => Some b
  end.

Fixpoint run_ledger (effects : list EffectIntent) (b : CallDeadlines) : option CallDeadlines :=
  match effects with
  | [] => Some b
  | e :: effects => b ← ledger_effect b e; run_ledger effects b
  end.

Lemma run_ledger_app e1 e2 b : run_ledger (e1 ++ e2) b = run_ledger e1 b ≫= run_ledger e2.
Proof.
  revert b. induction e1 as [|e e1 IH]; intros b; [done|]. cbn.
  destruct (ledger_effect b e); cbn; auto.
Qed.

Lemma run_ledger_free effects b : forallb timer_free effects = true → run_ledger effects b = Some b.
Proof.
  revert b. induction effects as [|e effects IH]; intros b H; [done|]. cbn in *. bool_hyps.
  destruct e; try done; cbn; auto.
Qed.

(** [booked b (a, e)]: the ledger accepts the effects emitted so far and agrees with [a]. *)
Definition booked (b : CallDeadlines) (st : CallAggregate * list EffectIntent) : Prop :=
  run_ledger st.2 b = Some (ca_deadlines st.1).

Lemma booked_free b a e a' e' :
  booked b (a, e) → ca_deadlines a' = ca_deadlines a → forallb timer_free e' = true →
  booked b (a', e ++ e').
Proof.
  unfold booked. cbn [fst snd]. intros H Hd He. rewrite run_ledger_app, H. cbn.
  by rewrite run_ledger_free, Hd.
Qed.

Lemma booked_cancel b k st : booked b st → booked b (cancel_deadline_internal k st).
Proof.
  destruct st as [a e]. rewrite cancel_deadline_eq. unfold booked. cbn [fst snd]. intros H.
  rewrite run_ledger_app, H. unfold cleared, cancel_effects, armed, generation_of, put_slot. cbn.
  destruct (slot_due_at (deadline_get (ca_deadlines a) k)) as [d|] eqn:Ed; cbn.
  - by rewrite Ed, N.eqb_refl.
  - destruct a, ca_deadlines as [[] [] [] []]; destruct k; cbn in *; by subst.
Qed.

Lemma booked_arm b k d st g st' :
  booked b st → arm_deadline_internal k d st = Ok (g, st') → booked b st'.
Proof.
  destruct st as [a e]. intros H (_ & -> & ->)%arm_deadline_ok.
  apply (booked_cancel b k) in H. rewrite cancel_deadline_eq in H. unfold booked in *. cbn [fst snd] in *.
  rewrite app_assoc, run_ledger_app, H. cbn. unfold cleared, put_slot, generation_of. cbn.
  destruct a, ca_deadlines as [[] [] [] []]; destruct k; cbn; by rewrite N.eqb_refl.
Qed.

(** The ledger accepts the effects of every applied command. *)
Lemma apply_command_booked a c a' r :
  apply_command a c = Ok (a', r) → cr_disposition r = CommandDisposition.Applied →
  run_ledger (cr_effects r) (ca_deadlines (disarmed a c)) = Some (ca_deadlines a').
Proof.
  apply (apply_command_track (booked (ca_deadlines (disarmed a c))));
    eauto using booked_free, booked_cancel, booked_arm.
  done.
Qed.

(** ** The media graph and the call lifecycle *)

Definition media_effect (b : bool) (e : EffectIntent) : bool :=
  match e with BridgeMedia _ _ => true | UnbridgeMedia _ _ => false | _ => b end.

Definition run_media (effects : list EffectIntent) (b : bool) : bool :=
  fold_left media_effect effects b.

(** Whether the aggregate's legs are meant to be connected through the media graph. *)
Definition media_of (a : CallAggregate) : bool :=
  match ca_state a with
  | CallState.Active => true
  | CallState.Transferring => is_none (ca_replacement a)
  | _ => false
  end.

(** The lifecycle of a call, as a transition relation on its state. *)
Definition call_step (s s' : CallState) : bool :=
  match s with
  | CallState.Pending =>
      match s' with CallState.Connecting | CallState.Ending => true | _ => false end
  | CallState.Connecting =>
      match s' with
      | CallState.Connecting | CallState.Active | CallState.Ending => true | _ => false end
  | CallState.Active | CallState.Transferring =>
      match s' with
      | CallState.Active | CallState.Transferring | CallState.Ending => true | _ => false end
  | CallState.Ending =>
      match s' with
      | CallState.Ending | CallState.Ended | CallState.Failed => true | _ => false end
  | CallState.Ended | CallState.Failed => false
  end.

Definition media_free (e : EffectIntent) : bool :=
  match e with BridgeMedia _ _ | UnbridgeMedia _ _ => false | _ => true end.

Lemma run_media_app e1 e2 b : run_media (e1 ++ e2) b = run_media e2 (run_media e1 b).
Proof. apply fold_left_app. Qed.

Lemma run_media_free effects b : forallb media_free effects = true → run_media effects b = b.
Proof.
  revert b. induction effects as [|e effects IH]; intros b H; [done|]. cbn in *. bool_hyps.
  rewrite <- (IH b) at 2 by done. by destruct e.
Qed.

Lemma cancel_effects_media k a : forallb media_free (cancel_effects k a) = true.
Proof. unfold cancel_effects. by destruct (armed a k). Qed.

Lemma all_cancels_media a : forallb media_free (all_cancels a) = true.
Proof. unfold all_cancels, three_cancels. by rewrite !forallb_app, !cancel_effects_media. Qed.

Lemma stop_leg_media t reason leg : forallb media_free (stop_leg t reason leg).2 = true.
Proof. unfold stop_leg. by destruct (_ && _). Qed.

Lemma ending_effects_media t reason a b :
  (b = true → ca_state a = CallState.Active ∨ ca_state a = CallState.Transferring) →
  run_media (ending_effects t reason a) b = false.
Proof.
  intros Hb. unfold ending_effects. rewrite run_media_app.
  rewrite (run_media_free (_ ++ _)).
  - unfold unbridge_if_active. destruct (ca_state a), b; try done; naive_solver.
  - unfold three_cancels. rewrite !forallb_app, !cancel_effects_media, !stop_leg_media.
    unfold abort_replacement. by destruct (ca_replacement a).
Qed.

(** What ending a call does to the media graph and to the call state. *)
Definition ends (a : CallAggregate) (a' : CallAggregate) (effects : list EffectIntent) : Prop :=
  (∀ b, (b = true → ca_state a = CallState.Active ∨ ca_state a = CallState.Transferring) →
    run_media effects b = false) ∧
  (ca_state a' = CallState.Ending ∨ both_terminal a = true ∧ call_is_terminal (ca_state a') = true).

Lemma finalize_terminal_state t a e :
  call_is_terminal (ca_state (finalize_terminal t (a, e)).1) = true.
Proof.
  rewrite finalize_terminal_eq. cbn [fst]. rewrite set_call_state_eq. cbn. unfold final_state.
  by destruct (final_outcome a).
Qed.

Lemma both_terminal_body t o reason a :
  both_terminal (ending_body t o reason a) = both_terminal a.
Proof.
  unfold both_terminal, all_legs, legs, ending_body. rewrite set_call_state_eq. cbn.
  rewrite !stop_leg_state. by destruct (leg_state (ca_leg0 a)), (leg_state (ca_leg1 a)).
Qed.

Lemma put_slot_state a k slot : ca_state (put_slot a k slot) = ca_state a.
Proof. done. Qed.

Lemma begin_ending_ends t o reason d a e a' e' :
  begin_ending_internal t o reason d (a, e) = Ok (a', e') → ∃ e2, e' = e ++ e2 ∧ ends a a' e2.
Proof.
  rewrite begin_ending_eq. cbv zeta. intros H. unfold ends.
  assert (Hst : ca_state (ending_body t o reason a) = CallState.Ending)
    by (unfold ending_body; by rewrite set_call_state_eq).
  destruct (both_terminal (ending_body t o reason a)) eqn:Eb.
  - rewrite both_terminal_body in Eb. injection H as H.
    pose proof (finalize_terminal_state t (ending_body t o reason a) (e ++ ending_effects t reason a)) as Ht.
    rewrite H in Ht. rewrite finalize_terminal_eq in H. injection H as _ <-.
    exists (ending_effects t reason a ++ all_cancels (ending_body t o reason a)).
    split; [by rewrite app_assoc|]. split; [|by right].
    intros b Hb. rewrite run_media_app, ending_effects_media by done.
    by rewrite run_media_free by apply all_cancels_media.
  - inv_ok H; injection H as H.
    + destruct x as [g st]. apply arm_deadline_ok in Hx as (_ & _ & ->). cbn in H. simplify_eq.
      exists (ending_effects t reason a ++ cancel_effects DeadlineKind.Ending (ending_body t o reason a)
              ++ [ScheduleDeadline DeadlineKind.Ending g d0]).
      split; [by rewrite <- app_assoc|]. split; [|left; by rewrite put_slot_state].
      intros b Hb. rewrite run_media_app, ending_effects_media by done.
      rewrite run_media_free; [done|]. by rewrite forallb_app, cancel_effects_media.
    + subst. exists (ending_effects t reason a). split; [done|]. split; [|left; exact Hst].
      intros b. apply ending_effects_media.
Qed.

(** A handler keeps the media graph in step and follows the lifecycle. *)
Definition follows (a a' : CallAggregate) (effects : list EffectIntent) : Prop :=
  run_media effects (media_of a) = media_of a' ∧ call_step (ca_state a) (ca_state a') = true.

Lemma media_of_live a :
  media_of a = true → ca_state a = CallState.Active ∨ ca_state a = CallState.Transferring.
Proof. unfold media_of. destruct (ca_state a); auto; discriminate. Qed.

Lemma ends_follows a b a' e :
  ca_state b = ca_state a → call_is_terminal (ca_state a) = false →
  (both_terminal b = true → ca_state a = CallState.Ending) → ends b a' e → follows a a' e.
Proof.
  intros Hs Hn Hb [Hm Hst]. unfold follows. rewrite Hm by (rewrite Hs; apply media_of_live).
  unfold media_of. rewrite Hs in *. destruct Hst as [->|[Ht Hst]].
  - by destruct (ca_state a).
  - rewrite Hb by done. by destruct (ca_state a').
Qed.

(** At most one leg of a live call is terminal, even right after a report. *)
Lemma live_not_both_terminal a i leg :
  shape_valid a → call_is_terminal (ca_state a) = false →
  both_terminal (set_leg a i leg) = true → ca_state a = CallState.Ending.
Proof.
  intros [S _ _] Hn Hb. unfold both_terminal, all_legs, legs in Hb. cbn in Hb. bool_hyps.
  destruct i; cbn in *; destruct (ca_state a); try done;
    destruct (leg_state (ca_leg0 a)), (leg_state (ca_leg1 a)); cbn in S; intuition discriminate.
Qed.

Lemma reconcile_follows t a i leg a' e' :
  shape_valid a → call_is_terminal (ca_state a) = false → ca_state a ≠ CallState.Pending →
  reconcile_leg_state i t (set_leg a i leg, []) = Ok (a', e') → follows a a' e'.
Proof.
  intros Hs Hn Hp H. unfold reconcile_leg_state in H.
  destruct (set_leg_projections a i leg) as (P1 & P2 & P3 & P4). rewrite P1 in H.
  assert (Hbe : ∀ o r, begin_ending_internal t o r None (set_leg a i leg, []) = Ok (a', e') →
    follows a a' e').
  { intros o r (e2 & -> & He)%begin_ending_ends. cbn.
    eapply ends_follows; eauto using live_not_both_terminal. }
  assert (Hsame : follows a (set_leg a i leg) []).
  { unfold follows, media_of. rewrite P1, P2. cbn. split; [done|]. by destruct (ca_state a). }
  destruct (_ && _) eqn:Ec.
  { rewrite cancel_deadline_eq in H. simplify_eq. bool_hyps. unfold follows, media_of.
    rewrite set_call_state_eq, run_media_app. by rewrite H. }
  destruct (ca_state a ==? CallState.Ending) eqn:Ee.
  { bool_hyps. unfold follows, media_of. rewrite Ee.
    match type of H with (if ?b then _ else _) = _ => destruct b end; simplify_eq.
    - match type of H with
      | finalize_terminal _ (?b, _) = _ => pose proof (finalize_terminal_state t b []) as Ht
      end.
      rewrite H in Ht. cbn [fst] in Ht. rewrite finalize_terminal_eq in H. injection H as _ <-.
      rewrite run_media_free by apply all_cancels_media. by destruct (ca_state a').
    - cbn. destruct (leg_failure _); cbn; by rewrite P1, Ee. }
  destruct (leg_state _); try (by simplify_eq); by eapply Hbe.
Qed.

Lemma follows_same_state a a' e :
  ca_state a' = ca_state a → ca_replacement a' = ca_replacement a →
  call_is_terminal (ca_state a) = false → ca_state a ≠ CallState.Pending →
  forallb media_free e = true → follows a a' e.
Proof.
  intros Hs Hr Ht Hp He. unfold follows, media_of.
  rewrite run_media_free, Hs, Hr by done. split; [done|]. by destruct (ca_state a).
Qed.

Lemma set_leg_same_state a i leg :
  ca_state (set_leg a i leg) = ca_state a ∧ ca_replacement (set_leg a i leg) = ca_replacement a.
Proof. by destruct i. Qed.

Lemma pending_not_both_terminal a :
  shape_valid a → call_is_terminal (ca_state a) = false →
  both_terminal a = true → ca_state a = CallState.Ending.
Proof.
  intros H Hn Hb. eapply (live_not_both_terminal a Leg0 (ca_leg0 a)); auto.
Qed.

Lemma start_connecting_follows a at_ setup_deadline a' r :
  start_connecting a at_ setup_deadline = Ok (a', r) → follows a a' (cr_effects r).
Proof.
  intros H. open_handler H. simplify_eq.
  bool_hyps. apply arm_deadline_ok in Hx0 as (_ & _ & [= -> ->]). unfold follows, media_of.
  rewrite set_call_state_eq, E. cbn. rewrite !run_media_app. 
  unfold start_leg in *. destruct (_ ==? _) in E1; destruct (_ ==? _) in E2; simplify_eq; cbn;
    by rewrite run_media_free by apply cancel_effects_media.
Qed.

Lemma deadline_elapsed_follows a at_ kind generation ending_deadline a' r :
  shape_valid a → deadline_elapsed a at_ kind generation ending_deadline = Ok (a', r) →
  cr_disposition r = CommandDisposition.Applied → follows a a' (cr_effects r).
Proof.
  intros Hv H Hd. open_applied H.
  - (* deadline_elapsed: ending *)
    bool_hyps. subst kind. pose proof (armed_allowed _ _ _ Hv E0) as Hk. bool_hyps. cbn in Hk.
    match type of E4 with
    | finalize_terminal _ (?b, _) = _ => pose proof (finalize_terminal_state at_ b []) as Ht
    end.
    rewrite E4 in Ht. cbn [fst] in Ht. rewrite finalize_terminal_eq in E4. injection E4 as _ <-.
    unfold follows, media_of. bool_hyps. rewrite Hk. cbn.
    rewrite run_media_free by apply all_cancels_media. by destruct (ca_state a').
  - (* deadline_elapsed: a replacement times out *)
    destruct (kind ==? DeadlineKind.Transfer) eqn:Ek; [|done]. cbn in E4. bool_hyps. subst kind.
    pose proof (armed_allowed _ _ _ Hv E0) as Hk. cbn in Hk. bool_hyps.
    unfold follows, media_of. by rewrite set_call_state_eq, Hk.
  - (* deadline_elapsed: the call ends *)
    pose proof (armed_allowed _ _ _ Hv E0) as Hk.
    apply begin_ending_ends in Hx1 as (e2 & -> & He).
    assert (Hlive : call_is_terminal (ca_state a) = false) by by destruct kind, (ca_state a).
    destruct (ends_follows a _ _ _ eq_refl Hlive (pending_not_both_terminal a Hv Hlive) He) as [Hm Hst].
    split; [|done]. cbn. rewrite run_media_app, <- Hm. by destruct (kind ==? DeadlineKind.Transfer).
Qed.

Lemma apply_command_follows a c a' r :
  valid_call a → apply_command a c = Ok (a', r) →
  cr_disposition r = CommandDisposition.Applied → follows a a' (cr_effects r).
Proof.
  intros [_ Hv] H Hd. pose proof (no_replacement a Hv) as Hnr.
  destruct c; cbn [apply_command] in *;
    [by eapply start_connecting_follows|..|by eapply deadline_elapsed_follows]; open_applied H.
  - refine (reconcile_follows _ _ _ _ _ _ Hv _ _ Hx2); bool_hyps; by destruct (ca_state a).
  - refine (reconcile_follows _ _ _ _ _ _ Hv _ _ Hx2); bool_hyps; by destruct (ca_state a).
  - bool_hyps. apply follows_same_state; try apply set_leg_same_state; by destruct (ca_state a).
  - (* provider_media_attached *)
    assert (ca_state a = CallState.Connecting ∨ ca_state a = CallState.Transferring) as Hst
      by (destruct (ca_state a); try (cbn in E; discriminate E); auto).
    apply follows_same_state; try done; try (by destruct Hst as [-> | ->]);
      match goal with |- context [if ?b then _ else _] => destruct b end; try done;
      apply set_leg_same_state.
  - bool_hyps. apply follows_same_state; try apply set_leg_same_state; by destruct (ca_state a).
  - (* arm_deadline *)
    apply arm_deadline_ok in Hx0 as (_ & _ & [= -> ->]). bool_hyps.
    unfold deadline_allowed in *. apply follows_same_state; try done.
    + by destruct kind, (ca_state a).
    + by destruct kind, (ca_state a).
    + cbn. by rewrite forallb_app, cancel_effects_media.
  - (* begin_transfer *)
    apply arm_deadline_ok in Hx0 as (_ & _ & [= -> ->]). bool_hyps.
    unfold follows, media_of. rewrite set_call_state_eq, E. cbn.
    rewrite !run_media_app, (run_media_free (cancel_effects _ _)) by apply cancel_effects_media.
    by rewrite Hnr by congruence.
  - (* begin_leg_replacement *)
    apply arm_deadline_ok in Hx2 as (_ & _ & [= -> ->]). bool_hyps.
    unfold follows, media_of. rewrite set_call_state_eq, H. cbn.
    rewrite !run_media_app. cbn. by rewrite run_media_free by apply cancel_effects_media.
  - (* finish_transfer *)
    rewrite cancel_deadline_eq in E3. simplify_eq. bool_hyps.
    unfold follows, media_of. rewrite set_call_state_eq, H. cbn.
    destruct (ca_replacement a); [done|]. 
    rewrite run_media_free; [done|].
    destruct result; cbn; by rewrite ?forallb_app, cancel_effects_media.
  - (* finish_leg_replacement *)
    rewrite cancel_deadline_eq in E4. simplify_eq. bool_hyps.
    unfold follows, media_of. rewrite set_call_state_eq, H. cbn. by rewrite !run_media_app.
  - (* begin_ending *)
    apply begin_ending_ends in Hx0 as (e2 & -> & He). bool_hyps.
    eapply ends_follows; eauto using pending_not_both_terminal.
Qed.

(** The media graph itself: bridged pairs of legs. *)
Definition graph_effect (g : gset (LegId * LegId)) (e : EffectIntent) : gset (LegId * LegId) :=
  match e with
  | BridgeMedia l r => g ∪ {[(l, r)]}
  | UnbridgeMedia l r => g ∖ {[(l, r)]}
  | _ => g
  end.

Definition run_graph (effects : list EffectIntent) (g : gset (LegId * LegId)) : gset (LegId * LegId) :=
  fold_left graph_effect effects g.

(** The pair of a call's legs, when they are to be bridged. *)
Definition graph_of (a : CallAggregate) (b : bool) : gset (LegId * LegId) :=
  if b then {[(leg_id (ca_leg0 a), leg_id (ca_leg1 a))]} else ∅.

(** The effect bridges or unbridges no other pair of legs than the call's. *)
Definition names (a : CallAggregate) (e : EffectIntent) : bool :=
  match e with
  | BridgeMedia l r | UnbridgeMedia l r => (l ==? leg_id (ca_leg0 a)) && (r ==? leg_id (ca_leg1 a))
  | _ => true
  end.

Lemma run_graph_named a effects b :
  forallb (names a) effects = true → run_graph effects (graph_of a b) = graph_of a (run_media effects b).
Proof.
  revert b. induction effects as [|e effects IH]; intros b He; [done|]. cbn in He. bool_hyps.
  cbn. rewrite <- IH by done. f_equal. destruct e; cbn in *; try done; bool_hyps; subst;
    unfold graph_of; destruct b; cbn; set_solver.
Qed.

Lemma free_names a effects : forallb media_free effects = true → forallb (names a) effects = true.
Proof. rewrite !forallb_forall. intros Hf e He. specialize (Hf e He). by destruct e. Qed.

Lemma names_same a b e :
  leg_id (ca_leg0 b) = leg_id (ca_leg0 a) → leg_id (ca_leg1 b) = leg_id (ca_leg1 a) →
  names b e = names a e.
Proof. intros E0 E1. unfold names. by rewrite E0, E1. Qed.

Lemma all_named_same a b effects :
  leg_id (ca_leg0 b) = leg_id (ca_leg0 a) → leg_id (ca_leg1 b) = leg_id (ca_leg1 a) →
  forallb (names b) effects = true → forallb (names a) effects = true.
Proof.
  intros E0 E1. rewrite !forallb_forall. intros Hb e He. rewrite <- (names_same a b e) by done. auto.
Qed.

Lemma ending_effects_named t reason a : forallb (names a) (ending_effects t reason a) = true.
Proof.
  unfold ending_effects. rewrite forallb_app. apply andb_true_iff. split.
  - unfold unbridge_if_active. destruct (ca_state a); cbn; try done; by rewrite !bool_decide_eq_true_2.
  - apply free_names. unfold three_cancels. rewrite !forallb_app, !cancel_effects_media, !stop_leg_media.
    unfold abort_replacement. by destruct (ca_replacement a).
Qed.

Lemma begin_ending_named t o reason d a e a' e' :
  begin_ending_internal t o reason d (a, e) = Ok (a', e') →
  forallb (names a) e = true → forallb (names a) e' = true.
Proof.
  rewrite begin_ending_eq. cbv zeta. intros H He.
  assert (Hb : forallb (names a) (e ++ ending_effects t reason a) = true)
    by (rewrite forallb_app, He; apply ending_effects_named).
  destruct (both_terminal _).
  - rewrite finalize_terminal_eq in H. injection H as _ <-. rewrite forallb_app, Hb.
    apply free_names, all_cancels_media.
  - inv_ok H; injection H as H; [|by subst].
    destruct x as [g st]. apply arm_deadline_ok in Hx as (_ & _ & ->). cbn in H. simplify_eq.
    rewrite !forallb_app, <- forallb_app, Hb. cbn. rewrite andb_true_r.
    apply free_names, cancel_effects_media.
Qed.

Lemma set_leg_ids a i leg :
  leg_id leg = leg_id (leg_at a i) →
  leg_id (ca_leg0 (set_leg a i leg)) = leg_id (ca_leg0 a) ∧
  leg_id (ca_leg1 (set_leg a i leg)) = leg_id (ca_leg1 a).
Proof. by destruct i. Qed.

Lemma reconcile_named t a i leg a' e' :
  leg_id leg = leg_id (leg_at a i) →
  reconcile_leg_state i t (set_leg a i leg, []) = Ok (a', e') → forallb (names a) e' = true.
Proof.
  intros [E0 E1]%set_leg_ids H. apply (all_named_same a (set_leg a i leg)); [done..|].
  clear E0 E1. unfold reconcile_leg_state in H. set (b := set_leg a i leg) in *. clearbody b.
  destruct (_ && _).
  { rewrite cancel_deadline_eq in H. simplify_eq. rewrite forallb_app. apply andb_true_iff.
    split; [apply free_names, cancel_effects_media|]. rewrite set_call_state_eq. cbn. by rewrite !bool_decide_eq_true_2. }
  destruct (_ ==? _).
  { destruct (all_legs _ _); simplify_eq; [|done]. rewrite finalize_terminal_eq in H. simplify_eq.
    apply free_names, all_cancels_media. }
  destruct (leg_state _); try (by simplify_eq); by eapply begin_ending_named.
Qed.

Lemma arm_named a k d b e g a' e' :
  arm_deadline_internal k d (b, e) = Ok (g, (a', e')) →
  forallb (names a) e = true → forallb (names a) e' = true.
Proof.
  intros (_ & _ & [= -> ->])%arm_deadline_ok He. rewrite !forallb_app, He. cbn. rewrite andb_true_r.
  apply free_names, cancel_effects_media.
Qed.

Lemma cancel_named a k b e a' e' :
  cancel_deadline_internal k (b, e) = (a', e') → forallb (names a) e = true →
  (ca_leg0 a' = ca_leg0 b ∧ ca_leg1 a' = ca_leg1 b) ∧ forallb (names a) e' = true.
Proof.
  rewrite cancel_deadline_eq. intros [= <- <-] He. split; [done|].
  rewrite forallb_app, He. apply free_names, cancel_effects_media.
Qed.

Lemma bridged_named a b s t :
  leg_id (ca_leg0 b) = leg_id (ca_leg0 a) → leg_id (ca_leg1 b) = leg_id (ca_leg1 a) →
  names a (bridge_media_effect (set_call_state b s t)) = true ∧
  names a (unbridge_media_effect (set_call_state b s t)) = true.
Proof. intros E0 E1. rewrite set_call_state_eq. cbn. rewrite E0, E1, !bool_decide_eq_true_2; auto. Qed.

(** The decision on a command bridges and unbridges the legs of its call alone. *)
Lemma apply_command_named a c a' r :
  apply_command a c = Ok (a', r) → cr_disposition r = CommandDisposition.Applied →
  forallb (names a) (cr_effects r) = true.
Proof.
  intros H Hd. destruct c; cbn [apply_command] in *; open_applied H; cbn [cr_effects applied] in *.
  - eapply arm_named; [exact Hx0|]. unfold start_leg in *.
    destruct (_ ==? _) in E1; destruct (_ ==? _) in E2; by simplify_eq.
  - eapply reconcile_named; [|exact Hx2]. unfold update_leg_state. by repeat case_match.
  - eapply reconcile_named; [|exact Hx2]. unfold update_leg_state. by repeat case_match.
  - by eapply arm_named.
  - rewrite forallb_app. by erewrite arm_named by done.
  - rewrite forallb_app. erewrite arm_named; [done|exact Hx2|]. cbn [forallb]. rewrite andb_true_r.
    by apply bridged_named; apply set_leg_ids.
  - destruct (cancel_named a _ _ _ _ _ E3 eq_refl) as [_ Hl].
    destruct result; [done|]. by rewrite forallb_app, Hl.
  - destruct (cancel_named a _ _ _ _ _ E4 eq_refl) as [[L0 L1] Hl]. rewrite forallb_app, Hl.
    cbn [forallb andb]. rewrite andb_true_r. apply andb_true_iff.
    assert (leg_id l1 = leg_id (leg_at c x1)) as [I0 I1]%set_leg_ids by (by destruct result; simplify_eq).
    split; [by destruct result; simplify_eq|]. rewrite L0 in I0. rewrite L1 in I1. by apply bridged_named.
  - by eapply begin_ending_named.
  - match goal with He : finalize_terminal _ _ = _ |- _ => rewrite finalize_terminal_eq in He; injection He as _ <- end.
    apply free_names, all_cancels_media.
  - cbn [forallb andb]. rewrite andb_true_r.
    apply bridged_named; by destruct x1.
  - eapply (all_named_same a); [| |eapply begin_ending_named; [exact Hx1|]]; [done..|].
    by destruct (kind ==? DeadlineKind.Transfer).
Qed.
