(* ===== verification/DomainTrace.v ===== *)
(** Executions of the call engine: sequences of accepted commands, as an inductive step relation,
    with the invariants and the generation discipline along them. *)

From S2P Require Import Prelude RustText DomainTypes Domain DomainInv DomainSafety DomainWorld.
From stdpp Require Import options.

(** ** Executions *)

(** [trace a es a']: accepted commands lead from [a] to [a'] emitting [es], in order. *)
Inductive trace : CallAggregate → list EffectIntent → CallAggregate → Prop :=
| trace_nil a : trace a [] a
| trace_step a c d es a' :
    decide a c = Ok d → trace (cd_aggregate d) es a' → trace a (cd_effects d ++ es) a'.

Lemma decide_valid a c d : valid_call a → decide a c = Ok d → valid_call (cd_aggregate d).
Proof.
  intros Hv H. unfold decide in H. inv_ok H. injection H as <-. cbn.
  apply validate_ok. by match goal with Hc : validate _ = Ok ?u |- _ => destruct u end.
Qed.

Lemma trace_valid a es a' : valid_call a → trace a es a' → valid_call a'.
Proof. induction 2; eauto using decide_valid. Qed.

(** An accepted command is applied and committed, or leaves the call as it was. *)
Lemma decide_inv a c d :
  valid_call a → decide a c = Ok d →
  (∃ a' r, apply_command a c = Ok (a', r) ∧ cr_disposition r = CommandDisposition.Applied ∧
     hold_conflict a c = false ∧ (ca_version a < MAX_PERSISTED_GENERATION)%N ∧
     cd_aggregate d = committed a' c ∧ cd_effects d = cr_effects r ∧
     cd_disposition d = CommandDisposition.Applied) ∨
  (cd_aggregate d = a ∧ cd_effects d = [] ∧ cd_disposition d ≠ CommandDisposition.Applied).
Proof.
  intros Hv H. rewrite decide_apply in H by done.
  destruct (apply_command a c) as [[a' r]|]; [|done].
  case_bool_decide; [|injection H as <-; right; done].
  destruct (N.leb_spec MAX_PERSISTED_GENERATION (ca_version a)); [done|].
  destruct (hold_conflict a c) eqn:Hh; [done|]. injection H as <-. left. eauto 10.
Qed.

(** ** Generations *)

(** The kind of a leg belongs to its generation: only a new generation can change it. *)
Definition leg_gens (leg : Leg) : BindingGeneration * option BindingGeneration * LegKind :=
  (leg_binding_generation leg, leg_replacement_generation_cursor leg, leg_kind leg).

Definition gens (a : CallAggregate) := (leg_gens (ca_leg0 a), leg_gens (ca_leg1 a)).

(** Effects that do not reserve a replacement generation. *)
Definition start_free (e : EffectIntent) : bool :=
  match e with StartLegReplacement _ _ _ _ _ => false | _ => true end.

Lemma cancel_start_free k a : forallb start_free (cancel_effects k a) = true.
Proof. unfold cancel_effects. by destruct (armed a k). Qed.

Lemma all_cancels_start_free a : forallb start_free (all_cancels a) = true.
Proof. unfold all_cancels, three_cancels. by rewrite !forallb_app, !cancel_start_free. Qed.

Lemma stop_leg_gens t reason leg :
  leg_gens (stop_leg t reason leg).1 = leg_gens leg ∧
  forallb start_free (stop_leg t reason leg).2 = true.
Proof. unfold stop_leg. by destruct (_ && _). Qed.

Definition keeps (st st' : CallAggregate * list EffectIntent) : Prop :=
  gens st'.1 = gens st.1 ∧
  (forallb start_free st.2 = true → forallb start_free st'.2 = true).

Lemma arm_keeps k d st g st' : arm_deadline_internal k d st = Ok (g, st') → keeps st st'.
Proof.
  destruct st as [a e]. intros (_ & -> & ->)%arm_deadline_ok. split; [done|]. cbn.
  by rewrite !forallb_app, cancel_start_free; intros ->.
Qed.

Lemma finalize_keeps t st : keeps st (finalize_terminal t st).
Proof.
  destruct st as [a e]. rewrite finalize_terminal_eq, set_call_state_eq. split; [done|]. cbn.
  by rewrite forallb_app, all_cancels_start_free; intros ->.
Qed.

Lemma begin_ending_keeps t o reason d st st' :
  begin_ending_internal t o reason d st = Ok st' → keeps st st'.
Proof.
  destruct st as [a e]. rewrite begin_ending_eq. cbv zeta.
  assert (Hb : keeps (a, e) (ending_body t o reason a, e ++ ending_effects t reason a)).
  { split.
    - unfold ending_body. rewrite set_call_state_eq. unfold gens. cbn.
      by rewrite !(proj1 (stop_leg_gens _ _ _)).
    - cbn. intros He. unfold ending_effects, three_cancels, unbridge_if_active, abort_replacement.
      rewrite !forallb_app, !cancel_start_free, !(proj2 (stop_leg_gens _ _ _)), He.
      by destruct (ca_state a), (ca_replacement a). }
  intros H. destruct Hb as [Hg Hf]. inv_ok H; injection H as H; subst; [| |done].
  - destruct (finalize_keeps t (ending_body t o reason a, e ++ ending_effects t reason a)) as [G F].
    split; [etrans; [exact G|exact Hg]|auto].
  - destruct x as [g st]. apply arm_keeps in Hx as [G F]. split; [etrans; [exact G|exact Hg]|auto].
Qed.

Lemma reconcile_keeps i t st st' : reconcile_leg_state i t st = Ok st' → keeps st st'.
Proof.
  destruct st as [a e]. unfold reconcile_leg_state. intros H.
  inv_ok H; try (injection H as <-); try (eapply begin_ending_keeps; exact H); try done.
  - rewrite cancel_deadline_eq in E0. simplify_eq. rewrite set_call_state_eq. split; [done|]. cbn.
    by rewrite !forallb_app, cancel_start_free; intros ->.
  - match goal with |- keeps _ (finalize_terminal _ (?b, _)) =>
      destruct (finalize_keeps t (b, e)) as [G F] end.
    split; [rewrite G|exact F]. by destruct (leg_failure _).
  - split; [|done]. by destruct (leg_failure _).
Qed.

(** [gens_le a a']: no binding generation and no replacement cursor moved backwards, and a leg of
    the same generation has the same kind. *)
Definition leg_gens_le (l l' : Leg) : Prop :=
  (leg_binding_generation l ≤ leg_binding_generation l' ∧
   replacement_generation_cursor l ≤ replacement_generation_cursor l')%N ∧
  (leg_binding_generation l' = leg_binding_generation l → leg_kind l' = leg_kind l).

Definition gens_le (a a' : CallAggregate) : Prop := ∀ i, leg_gens_le (leg_at a i) (leg_at a' i).

Lemma gens_le_eq a a' : gens a' = gens a → gens_le a a'.
Proof.
  unfold gens, leg_gens, gens_le, leg_gens_le, replacement_generation_cursor.
  intros [= G0 C0 K0 G1 C1 K1] i. destruct i; cbn; rewrite ?G0, ?G1, ?C0, ?C1, ?K0, ?K1; done.
Qed.

#[export] Instance gens_le_preorder : PreOrder gens_le.
Proof.
  split; [by intros a i|]. intros a b c H1 H2 i. specialize (H1 i). specialize (H2 i).
  unfold leg_gens_le in *. destruct H1 as [H1 K1], H2 as [H2 K2]. split; [lia|]. intros E.
  rewrite K2, K1; [done|lia..].
Qed.

Lemma gens_set_leg a i leg : leg_gens leg = leg_gens (leg_at a i) → gens (set_leg a i leg) = gens a.
Proof. intros H. destruct i; unfold gens; cbn in *; by rewrite H. Qed.

Lemma gens_set_call_state a s t : gens (set_call_state a s t) = gens a.
Proof. by rewrite set_call_state_eq. Qed.

Lemma gens_le_set_leg a i leg : leg_gens_le (leg_at a i) leg → gens_le a (set_leg a i leg).
Proof. intros H j. destruct i, j; cbn in *; done. Qed.

(** A reservation made by a handler is one above everything the leg reserved before. *)
Definition reserves (a : CallAggregate) (a' : CallAggregate) (effects : list EffectIntent) : Prop :=
  forallb start_free effects = true ∨
  ∃ i prev pending kind g pre, effects = pre ++ [StartLegReplacement (leg_id (leg_at a i)) prev pending kind g] ∧
    forallb start_free pre = true ∧
    pending = (replacement_generation_cursor (leg_at a i) + 1)%N ∧
    replacement_generation_cursor (leg_at a' i) = pending.

Lemma reserves_free a a' e : forallb start_free e = true → reserves a a' e.
Proof. by left. Qed.

Lemma keeps_progress a b e a' e' :
  gens b = gens a → forallb start_free e = true → keeps (b, e) (a', e') →
  gens_le a a' ∧ reserves a a' e'.
Proof.
  intros Hg He [G F]. split; [apply gens_le_eq; cbn in G; congruence|left; auto].
Qed.

Lemma update_leg_gens t s f leg : leg_gens (update_leg_state t s f leg) = leg_gens leg.
Proof. unfold update_leg_state. by repeat case_match. Qed.

Lemma advance_gens t leg : leg_gens (advance_to_signaling t leg) = leg_gens leg.
Proof. unfold advance_to_signaling. by case_match. Qed.

Lemma start_leg_gens t leg leg' e :
  start_leg t leg = (leg', e) → leg_gens leg' = leg_gens leg ∧ start_free e = true.
Proof. unfold start_leg. destruct (_ ==? _); intros [= <- <-]; done. Qed.

Lemma rotated_gens t leg : leg_gens_le leg (rotated t leg).
Proof.
  unfold leg_gens_le, replacement_generation_cursor. cbn. split; [|done].
  destruct (leg_replacement_generation_cursor leg); lia.
Qed.

Lemma begin_leg_replacement_progress a at_ id pending_kind transfer_deadline a' r :
  begin_leg_replacement a at_ id pending_kind transfer_deadline = Ok (a', r) →
  gens_le a a' ∧ reserves a a' (cr_effects r).
Proof.
  intros H. open_handler H. simplify_eq. cbn [cr_effects applied].
  apply leg_index_ok in Hx0 as <-.
  unfold next_replacement_binding_generation in Hx1. apply BindingGeneration_next_ok in Hx1 as [_ ->].
  apply arm_deadline_ok in Hx2 as (_ & -> & [= -> ->]). rewrite set_call_state_eq. split.
  + intros j. destruct x0, j; (split; [split|]); cbn; try lia; done.
  + right. do 6 eexists. split; [reflexivity|]. split_and!; [|done|by destruct x0].
    cbn. by rewrite forallb_app, cancel_start_free.
Qed.

Lemma finish_leg_replacement_progress a at_ dg bg result a' r :
  valid_call a → finish_leg_replacement a at_ dg bg result = Ok (a', r) →
  cr_disposition r = CommandDisposition.Applied → gens_le a a' ∧ reserves a a' (cr_effects r).
Proof.
  intros Hv H Hd. open_applied H. cbn [cr_effects applied].
  rewrite cancel_deadline_eq in E4. simplify_eq. apply ensure_timestamp_ok in Hx0.
  apply leg_index_ok in Hx1. pose proof (valid_call_upto _ _ Hv Hx0) as Hu.
  destruct (replaced_leg_held _ _ _ _ Hu E0 (eq_sym Hx1)) as [_ (_ & Hb & Hp & Hlt)].
  split.
  + rewrite set_call_state_eq. intros j. unfold leg_gens_le, replacement_generation_cursor in *.
    destruct result; simplify_eq; destruct x1, j; cbn in *; (split; [split|]); try lia; try done;
      repeat case_match; lia.
  + left. cbn. rewrite !forallb_app, cancel_start_free. destruct result; by simplify_eq.
Qed.

Lemma apply_command_progress a c a' r :
  valid_call a → apply_command a c = Ok (a', r) →
  cr_disposition r = CommandDisposition.Applied →
  gens_le a a' ∧ reserves a a' (cr_effects r).
Proof.
  intros Hv H Hd. destruct c; cbn [apply_command] in H.
  6: { (* rotate_leg_binding *)
    destruct (rotate_leg_binding_applied _ _ _ _ _ _ H Hd) as (i & _ & _ & _ & _ & _ & _ & -> & ->).
    split; [apply gens_le_set_leg, rotated_gens|by left]. }
  8: by eapply begin_leg_replacement_progress.
  9: by eapply finish_leg_replacement_progress.
  all: open_applied H; cbn [cr_effects applied].
  - (* start_connecting *)
    apply start_leg_gens in E1 as [G0 F0], E2 as [G1 F1]. rewrite set_call_state_eq in *.
    eapply keeps_progress; [| |eapply arm_keeps; exact Hx0]; [|by cbn; rewrite F0, F1].
    unfold gens. cbn in *. by rewrite G0, G1.
  - eapply keeps_progress; [| |eapply reconcile_keeps; exact Hx2]; [|done].
    apply gens_set_leg, update_leg_gens.
  - eapply keeps_progress; [| |eapply reconcile_keeps; exact Hx2]; [|done]. by apply gens_set_leg.
  - split; [apply gens_le_eq, gens_set_leg, advance_gens|by left].
  - split; [|by left]. match goal with |- context [if ?b then _ else _] => destruct b end; [|done].
    apply gens_le_eq, gens_set_leg, advance_gens.
  - eapply keeps_progress; [| |eapply arm_keeps; exact Hx0]; done.
  - (* begin_transfer *)
    apply arm_keeps in Hx0 as [G F]. split; [apply gens_le_eq; etrans; [exact G|apply gens_set_call_state]|].
    left. cbn in F. rewrite forallb_app. by rewrite F.
  - (* finish_transfer *)
    rewrite cancel_deadline_eq in E3. simplify_eq. split; [apply gens_le_eq; by rewrite gens_set_call_state|].
    left. destruct result; cbn; by rewrite ?forallb_app, cancel_start_free.
  - eapply keeps_progress; [| |eapply begin_ending_keeps; exact Hx0]; done.
  - (* deadline_elapsed: ending *)
    match type of E4 with finalize_terminal _ (?b, ?e) = _ =>
      destruct (finalize_keeps at_ (b, e)) as [G F] end.
    rewrite E4 in G, F. split; [apply gens_le_eq; etrans; [exact G|]|left; by apply F].
    unfold gens. cbn. unfold fail_leg. by repeat case_match.
  - split; [|by left]. apply gens_le_eq. rewrite gens_set_call_state, gens_set_leg; done.
  - eapply keeps_progress; [| |eapply begin_ending_keeps; exact Hx1]; [done|].
    by destruct (kind ==? DeadlineKind.Transfer).
Qed.
