(* ===== verification/DomainTheorems.v ===== *)
(** What the call engine's transition function guarantees.

    The theorems of this file are about [CallAggregate::decide] and its callers' view of it: one
    decision, the effects it hands to the runtime, and whole sequences of decisions. *)

From S2P Require Import Prelude RustText DomainTypes Domain DomainInv DomainSafety DomainWorld.
From S2P Require Import DomainTrace.
From stdpp Require Import options.

(** ** Fixtures *)

(** Runs commands in order, collecting the effects; stops at the first error. *)
Fixpoint run_commands (a : CallAggregate) (commands : list CallCommand)
    : result DomainError (CallAggregate * list EffectIntent) :=
  match commands with
  | [] => Ok (a, [])
  | c :: commands =>
      d ← decide a c;
      rest ← run_commands (cd_aggregate d) commands;
      Ok (rest.1, cd_effects d ++ rest.2)
  end.

Lemma run_commands_trace a commands a' es :
  run_commands a commands = Ok (a', es) → trace a es a'.
Proof.
  revert a es. induction commands as [|c commands IH]; intros a es H; cbn in H.
  - injection H as <- <-. constructor.
  - inv_ok H. injection H as <- <-. destruct x0 as [b es']. cbn. econstructor; eauto.
Qed.

Definition sip_leg (direction : LegDirection) : LegSpec :=
  {| spec_direction := direction; spec_kind := LegKind.Sip |}.

Definition sample_specs : (LegId * LegSpec) * (LegId * LegSpec) :=
  ((2, sip_leg LegDirection.Inbound), (3, sip_leg LegDirection.Outbound)).

Definition after {A} (r : result DomainError (CallAggregate * A)) (a : CallAggregate) : CallAggregate :=
  match r with Ok (a', _) => a' | Err _ => a end.

Definition sample_call : CallAggregate :=
  {| ca_id := 1; ca_tenant_id := str "tenant"; ca_version := 0%N; ca_state := CallState.Pending;
     ca_leg0 := Leg_new 2 (sip_leg LegDirection.Inbound) (semantics_legacy_default LegDirection.Inbound) 0;
     ca_leg1 := Leg_new 3 (sip_leg LegDirection.Outbound) (semantics_legacy_default LegDirection.Outbound) 0;
     ca_deadlines := CallDeadlines_default; ca_terminal_outcome := None; ca_replacement := None;
     ca_created_at := 0; ca_updated_at := 0; ca_state_changed_at := 0 |}.

(** Both legs connected. *)
Definition sample_setup : list CallCommand :=
  [StartConnecting 1 10;
   SetLegState 2 2 1%N LegState.Signaling None; SetLegState 3 3 1%N LegState.Signaling None;
   SetLegState 4 2 1%N LegState.Connected None; SetLegState 5 3 1%N LegState.Connected None].

Definition sample_active : CallAggregate := after (run_commands sample_call sample_setup) sample_call.

(** Two make-before-break attempts on the second leg. *)
Definition sample_replacements : list CallCommand :=
  [BeginLegReplacement 6 3 LegKind.Telnyx 20;
   FinishLegReplacement 7 1%N 2%N (ReplacementRejected source_failed_before_answer);
   BeginLegReplacement 8 3 LegKind.Telnyx 20].

Definition sample_ended : CallAggregate :=
  after (run_commands sample_active
           [BeginEnding 6 (Some 9) StopLegReason.Requested;
            DeadlineElapsed 9 DeadlineKind.Ending 1%N None]) sample_call.

Lemma validate_valid a : validate a = Ok () → valid_call a.
Proof. apply validate_ok. Qed.

Ltac sample_valid := apply validate_valid; vm_compute; reflexivity.

(** ** Lemmas on decisions *)

Lemma identity_committed a b c :
  identity b = identity a →
  ca_id (committed b c) = ca_id a ∧ ca_tenant_id (committed b c) = ca_tenant_id a ∧
  leg_identity (ca_leg0 (committed b c)) = leg_identity (ca_leg0 a) ∧
  leg_identity (ca_leg1 (committed b c)) = leg_identity (ca_leg1 a) ∧
  ca_created_at (committed b c) = ca_created_at a ∧
  ca_version (committed b c) = (ca_version a + 1)%N.
Proof. unfold identity, leg_identity. cbn -[N.add]. intros [=]. split_and!; congruence. Qed.

(** A handler that passes its guards for a call that is over does not apply. *)
Lemma terminal_not_applied a c a' r :
  valid_call a → call_is_terminal (ca_state a) = true → apply_command a c = Ok (a', r) →
  cr_disposition r ≠ CommandDisposition.Applied.
Proof.
  intros Hv Ht H Hd. destruct (apply_command_follows a c a' r Hv H Hd) as [_ Hs].
  by destruct (ca_state a).
Qed.

Lemma gens_le_committed a b c : gens_le a b → gens_le a (committed b c).
Proof. intros H i. specialize (H i). by destruct i. Qed.

(** A command's time is never before the call's last update when it applies. *)
Lemma applied_time a c a' r :
  apply_command a c = Ok (a', r) → cr_disposition r = CommandDisposition.Applied →
  ca_updated_at a ≤ command_at c.
Proof.
  intros H Hd. destruct c; cbn [apply_command command_at] in *;
    match type of H with
    | ?f _ _ _ = _ => unfold f in H
    | ?f _ _ _ _ = _ => unfold f in H
    | ?f _ _ _ _ _ = _ => unfold f in H
    | ?f _ _ _ _ _ _ = _ => unfold f in H
    end;
    inv_ok H; simplify_eq; try done;
    repeat match goal with
    | Hc : compare_binding_generation _ _ _ _ = Ok (Some _) |- _ =>
        by apply compare_binding_Some in Hc as [_ ->]
    | Hc : compare_deadline_generation _ _ _ _ = Ok (Some _) |- _ =>
        by apply compare_deadline_Some in Hc as [_ ->]
    | Hc : ensure_timestamp _ _ = Ok _ |- _ => by apply ensure_timestamp_ok in Hc
    end.
Qed.

(** Effects that stop no leg. *)
Definition stop_free (e : EffectIntent) : bool :=
  match e with StopLeg _ _ _ => false | _ => true end.

Lemma cancel_effects_stop_free k a : forallb stop_free (cancel_effects k a) = true.
Proof. unfold cancel_effects. by destruct (armed a k). Qed.

Lemma stop_leg_effects t reason leg id g why :
  StopLeg id g why ∈ (stop_leg t reason leg).2 ↔
  why = reason ∧ leg_id leg = id ∧ leg_binding_generation leg = g ∧
  ending_leg_state (leg_state leg) = false.
Proof.
  unfold stop_leg.
  destruct (leg_state leg); cbn -[elem_of]; eval_tests; cbn;
    rewrite ?list_elem_of_singleton, ?elem_of_nil; naive_solver.
Qed.

Lemma stop_free_no_stop es id g why : forallb stop_free es = true → StopLeg id g why ∉ es.
Proof. rewrite forallb_forall. intros H Hin%list_elem_of_In. by apply H in Hin. Qed.

Lemma ending_effects_stops t reason a id g why :
  StopLeg id g why ∈ ending_effects t reason a ↔
  why = reason ∧ ∃ i, leg_id (leg_at a i) = id ∧ leg_binding_generation (leg_at a i) = g ∧
    ending_leg_state (leg_state (leg_at a i)) = false.
Proof.
  unfold ending_effects. rewrite !elem_of_app, !stop_leg_effects.
  assert (Hu : StopLeg id g why ∉ unbridge_if_active a).
  { apply stop_free_no_stop. unfold unbridge_if_active. by destruct (ca_state a). }
  assert (Hr : StopLeg id g why ∉ abort_replacement a).
  { apply stop_free_no_stop. unfold abort_replacement. by destruct (ca_replacement a). }
  assert (Hc : StopLeg id g why ∉ three_cancels a).
  { apply stop_free_no_stop. unfold three_cancels. by rewrite !forallb_app, !cancel_effects_stop_free. }
  split.
  - intros [?|[?|[?|[(? & ? & ? & ?)|(? & ? & ? & ?)]]]]; try done; split; auto.
    + by exists Leg0.
    + by exists Leg1.
  - intros (? & [] & ? & ? & ?); [do 3 right; left|do 4 right]; auto.
Qed.

(** What [begin_ending_internal] adds after its own teardown effects stops no leg. *)
Lemma begin_ending_shape t o reason d a a' e' :
  begin_ending_internal t o reason d (a, []) = Ok (a', e') →
  ∃ tail, e' = ending_effects t reason a ++ tail ∧ forallb stop_free tail = true ∧
    ca_replacement a' = None.
Proof.
  rewrite begin_ending_eq. cbv zeta. cbn [app]. intros H.
  assert (Hr : ca_replacement (ending_body t o reason a) = None)
    by (unfold ending_body; by rewrite set_call_state_eq).
  revert H Hr. generalize (ending_body t o reason a), (ending_effects t reason a).
  intros body eff H Hr. inv_ok H.
  - rewrite finalize_terminal_eq in H. injection H as <- <-. eexists. split; [reflexivity|].
    rewrite set_call_state_eq. split; [|done]. unfold all_cancels, three_cancels.
    by rewrite !forallb_app, !cancel_effects_stop_free.
  - destruct x as [g st]. apply arm_deadline_ok in Hx as (_ & _ & ->). injection H as <- <-.
    eexists. split; [reflexivity|]. split; [|done].
    by rewrite forallb_app, cancel_effects_stop_free.
  - injection H as <- <-. exists []. by rewrite app_nil_r.
Qed.

(** [BeginEnding] with a future deadline runs on every call that is not over. *)
Lemma begin_ending_command_runs a (t due : DateTime) reason :
  call_is_terminal (ca_state a) = false → ca_updated_at a ≤ t < due →
  (generation_of a DeadlineKind.Ending < MAX_PERSISTED_GENERATION)%N →
  ∃ a' r, begin_ending_command a t (Some due) reason = Ok (a', r) ∧
    cr_disposition r = CommandDisposition.Applied ∧
    (call_is_terminal (ca_state a') = true ∨
     ca_state a' = CallState.Ending ∧ ca_version a' = ca_version a ∧
     generation_of a' DeadlineKind.Ending = (generation_of a DeadlineKind.Ending + 1)%N ∧
     slot_due_at (deadline_get (ca_deadlines a') DeadlineKind.Ending) = Some due).
Proof.
  intros Hn Ht Hg. unfold begin_ending_command.
  rewrite (proj2 (ensure_timestamp_ok a t ())) by lia. cbn [mbind result_bind]. rewrite Hn.
  cbn [is_none]. rewrite andb_false_r. cbn [is_some_and].
  destruct (Z.leb_spec due t); [lia|]. rewrite begin_ending_eq. cbv zeta.
  set (body := ending_body t OutcomeEnded reason a).
  assert (Hb : generation_of body DeadlineKind.Ending = generation_of a DeadlineKind.Ending ∧
    ca_state body = CallState.Ending ∧ ca_version body = ca_version a).
  { subst body. unfold ending_body. by rewrite set_call_state_eq. }
  destruct Hb as (Hbg & Hbs & Hbv). clearbody body.
  generalize ([] ++ ending_effects t reason a). intros e. destruct (both_terminal body).
  - pose proof (finalize_terminal_state t body e) as Hf.
    destruct (finalize_terminal _ _) as [a' e'] in *. cbn. eexists _, _. eauto.
  - assert (Ha : ∃ g a' e', arm_deadline_internal DeadlineKind.Ending due (body, e) = Ok (g, (a', e')) ∧
      ca_state a' = ca_state body ∧ ca_version a' = ca_version body ∧
      generation_of a' DeadlineKind.Ending = (generation_of body DeadlineKind.Ending + 1)%N ∧
      slot_due_at (deadline_get (ca_deadlines a') DeadlineKind.Ending) = Some due).
    { eexists _, _, _. split; [apply arm_deadline_ok; split; [by rewrite Hbg|]; split; reflexivity|].
      by destruct body. }
    destruct Ha as (g & a' & e' & -> & Es & Ev & Eg & Ed). cbn [mbind result_bind snd].
    eexists _, _. split_and!; [reflexivity|reflexivity|right]. split_and!; congruence.
Qed.

(** An armed ending deadline, once due, ends the call. *)
Lemma deadline_elapsed_runs a (t due : DateTime) :
  ca_updated_at a ≤ t → due ≤ t →
  slot_due_at (deadline_get (ca_deadlines a) DeadlineKind.Ending) = Some due →
  ∃ a' r, deadline_elapsed a t DeadlineKind.Ending (generation_of a DeadlineKind.Ending) None =
      Ok (a', r) ∧
    cr_disposition r = CommandDisposition.Applied ∧ call_is_terminal (ca_state a') = true.
Proof.
  intros Hu Hd Hs. unfold deadline_elapsed.
  rewrite (proj2 (compare_deadline_None a DeadlineKind.Ending _ t) eq_refl).
  cbn [mbind result_bind]. rewrite Hs.
  rewrite (proj2 (ensure_timestamp_ok a t ())) by lia. cbn [mbind result_bind].
  destruct (Z.ltb_spec t due); [lia|]. cbn [is_some_and]. eval_tests.
  match goal with |- context [finalize_terminal t (?b, [])] =>
    pose proof (finalize_terminal_state t b []) as Hf end.
  destruct (finalize_terminal _ _) as [a' e']. eexists _, _. eauto.
Qed.

(** ** A recorded failure stays *)

Definition failing (a : CallAggregate) : bool := outcome_is_failed (ca_terminal_outcome a).

Lemma failing_final a : failing a = true → outcome_is_failed (Some (final_outcome a)) = true.
Proof.
  unfold failing, final_outcome. destruct (first_leg_failure a); [done|].
  by destruct (ca_terminal_outcome a) as [[]|].
Qed.

Lemma failing_finalize t a e : failing a = true → failing (finalize_terminal t (a, e)).1 = true.
Proof.
  intros H%failing_final. rewrite finalize_terminal_eq, set_call_state_eq. exact H.
Qed.

Lemma failing_begin_ending t o reason d a e a' e' :
  failing a = true → begin_ending_internal t o reason d (a, e) = Ok (a', e') → failing a' = true.
Proof.
  intros Hf. rewrite begin_ending_eq. cbv zeta.
  assert (Hb : failing (ending_body t o reason a) = true).
  { unfold ending_body. rewrite set_call_state_eq. unfold failing in *. cbn.
    by destruct (ca_terminal_outcome a) as [[]|]. }
  revert Hb. generalize (ending_body t o reason a), (ending_effects t reason a).
  intros body eff Hb H. inv_ok H.
  - injection H as H. apply (f_equal fst) in H. cbn [fst] in H. subst a'. by apply failing_finalize.
  - destruct x as [g st]. apply arm_deadline_ok in Hx as (_ & _ & ->). by injection H as <- <-.
  - by injection H as <- <-.
Qed.

Lemma failing_set_leg a i leg : failing (set_leg a i leg) = failing a.
Proof. by destruct i. Qed.

Lemma failing_reconcile i t a e a' e' :
  failing a = true → reconcile_leg_state i t (a, e) = Ok (a', e') → failing a' = true.
Proof.
  intros Hf H. unfold reconcile_leg_state in H. inv_ok H; try (by simplify_eq);
    try (eapply failing_begin_ending; [|exact H]; done).
  - rewrite cancel_deadline_eq in E0. simplify_eq. by rewrite set_call_state_eq.
  - injection H as H. apply (f_equal fst) in H. cbn [fst] in H. subst a'.
    apply failing_finalize. by destruct (leg_failure _).
  - simplify_eq. by destruct (leg_failure _).
Qed.

(** Only three commands can apply to a call whose outcome is already a failure. *)
Lemma apply_command_failing a c a' r :
  valid_call a → failing a = true → apply_command a c = Ok (a', r) →
  cr_disposition r = CommandDisposition.Applied → failing a' = true.
Proof.
  intros Hv Hf H Hd.
  assert (Hs : ca_state a = CallState.Ending).
  { destruct (apply_command_follows _ _ _ _ Hv H Hd) as [_ Hstep]. destruct Hv as [_ [S _ _]].
    unfold failing in Hf. destruct (ca_state a); try done; cbn in S; destruct S as (_ & _ & S);
      by rewrite S in Hf. }
  destruct c; cbn [apply_command] in H;
    match type of H with
    | ?f _ _ _ = _ => unfold f in H
    | ?f _ _ _ _ = _ => unfold f in H
    | ?f _ _ _ _ _ = _ => unfold f in H
    | ?f _ _ _ _ _ _ = _ => unfold f in H
    end;
    inv_ok H; simplify_eq; try done; rewrite ?Hs in *; try done; bool_hyps; try done;
    try (eapply failing_reconcile; [|eassumption]; by rewrite failing_set_leg);
    try (eapply failing_begin_ending; [|eassumption]; done);
    try (by rewrite ?set_call_state_eq, ?failing_set_leg).
  - by apply arm_deadline_ok in Hx0 as (_ & -> & [= -> ->]).
  - apply (f_equal fst) in E4. cbn [fst] in E4. subst a'. by apply failing_finalize.
  - rewrite set_call_state_eq. unfold failing in *. by destruct x1.
Qed.

(** ** One decision *)

(** C1. On a valid call, [decide] is its handler: it fails with the handler's own error, or when
    the version counter is exhausted, or for the two hold conflicts the closing validation
    catches; otherwise it commits the handler's aggregate with the next version and the command's
    time.  No other input is rejected by the closing validation, and a command that does not apply
    returns the call untouched with no effects. *)
Theorem decide_exact (a : CallAggregate) (c : CallCommand) :
  valid_call a →
  decide a c =
  match apply_command a c with
  | Err e => Err e
  | Ok (a', r) =>
      if cr_disposition r ==? CommandDisposition.Applied then
        if (MAX_PERSISTED_GENERATION <=? ca_version a)%N
        then Err (GenerationExhausted "aggregate_version")
        else if hold_conflict a c then Err (InvalidSnapshot (hold_conflict_message a))
        else Ok {| cd_aggregate := committed a' c; cd_effects := cr_effects r;
                   cd_disposition := CommandDisposition.Applied |}
      else Ok {| cd_aggregate := a; cd_effects := []; cd_disposition := cr_disposition r |}
  end.
Proof. apply decide_apply. Qed.

Lemma decide_exact_witness :
  valid_call sample_call ∧
  match decide sample_call (StartConnecting 1 10) with
  | Ok d => cd_disposition d = CommandDisposition.Applied ∧ ca_version (cd_aggregate d) = 1%N
  | Err _ => False
  end.
Proof.
  split; [sample_valid|].
  rewrite (decide_exact sample_call (StartConnecting 1 10)) by sample_valid.
  vm_compute. done.
Defined.

(** A call that has ended or failed is final: every command is refused or ignored, the
    aggregate is unchanged to its version and timestamps, and no effect is emitted. *)
Theorem terminal_call_is_final (a : CallAggregate) (c : CallCommand) (d : CallDecision) :
  valid_call a → call_is_terminal (ca_state a) = true → decide a c = Ok d →
  cd_aggregate d = a ∧ cd_effects d = [] ∧ cd_disposition d ≠ CommandDisposition.Applied.
Proof.
  intros Hv Ht H. destruct (decide_inv _ _ _ Hv H) as [(a' & r & Ha & Hd & _)|]; [|done].
  by destruct (terminal_not_applied _ _ _ _ Hv Ht Ha).
Qed.

Lemma terminal_call_is_final_witness :
  ∃ d, decide sample_ended (DeadlineElapsed 12 DeadlineKind.Setup 0%N None) = Ok d ∧
  cd_aggregate d = sample_ended.
Proof.
  eexists. split; [vm_compute; reflexivity|].
  eapply (terminal_call_is_final sample_ended (DeadlineElapsed 12 DeadlineKind.Setup 0%N None));
    [sample_valid|vm_compute; reflexivity|vm_compute; reflexivity].
Defined.

(** The command that carries a leg binding, and the binding it addresses. *)
Definition addressed_binding (c : CallCommand) : option (LegId * BindingGeneration) :=
  match c with
  | SetLegState _ id g _ _ | SourceTerminatedBeforeAnswer _ id g _
  | ProviderMediaStarted _ id g | RotateLegBinding _ id g => Some (id, g)
  | _ => None
  end.

(** Binding fencing: a command sent under an older binding of a leg is acknowledged and
    ignored, whatever it asks, so a superseded worker cannot change the call; one that claims a
    binding the call never issued is an error. *)
Theorem stale_binding_is_fenced (a : CallAggregate) (c : CallCommand) (id : LegId)
    (g : BindingGeneration) (i : LegIndex) :
  valid_call a → addressed_binding c = Some (id, g) → leg_index a id = Ok i →
  let current := leg_binding_generation (leg_at a i) in
  ((g < current)%N → decide a c =
     Ok {| cd_aggregate := a; cd_effects := [];
           cd_disposition := CommandDisposition.IgnoredStaleGeneration |}) ∧
  ((current < g)%N → decide a c = Err (FutureBindingGeneration id current g)).
Proof.
  intros Hv Hc Hi current. rewrite !decide_apply by done.
  split; intros Hg; destruct c; simplify_eq/=;
    unfold set_leg_state, source_terminated_before_answer, provider_media_started,
      rotate_leg_binding; rewrite Hi; cbn [mbind result_bind];
    unfold compare_binding_generation; fold current;
    destruct (N.ltb_spec g current), (N.ltb_spec current g); done || lia.
Qed.

Lemma stale_binding_is_fenced_witness :
  decide sample_active (SetLegState 6 2 0%N LegState.Failed None) =
    Ok {| cd_aggregate := sample_active; cd_effects := [];
          cd_disposition := CommandDisposition.IgnoredStaleGeneration |}.
Proof.
  apply (stale_binding_is_fenced sample_active (SetLegState 6 2 0%N LegState.Failed None)
           2 0%N Leg0); [sample_valid|reflexivity|vm_compute; reflexivity|vm_compute; reflexivity].
Defined.

(** A new call is valid whenever its leg identifiers differ and its media plan is consistent;
    those are the only reasons the constructor refuses. *)
Theorem with_ids_and_semantics_valid (id : CallId) (tenant : TenantId) (id0 id1 : LegId)
    (spec0 spec1 : LegSpec) (sem0 sem1 : LegSemantics) (now : DateTime) :
  match with_ids_and_semantics id tenant ((id0, spec0), (id1, spec1)) (sem0, sem1) now with
  | Ok a => valid_call a ∧ ca_state a = CallState.Pending ∧ ca_version a = 0%N ∧
            timers_of a ≡ (λ _, None)
  | Err (DuplicateLegId i) => i = id0 ∧ id0 = id1
  | Err e => validate_media_flows (sem_media_flow sem0) (sem_media_flow sem1) = Err e
  end.
Proof.
  unfold with_ids_and_semantics. case_bool_decide as Hid; [done|].
  match goal with |- context [validate ?b] => set (a := b) end.
  destruct (validate_media_flows (sem_media_flow sem0) (sem_media_flow sem1)) as [[]|e] eqn:Em.
  - assert (validate a = Ok ()) as Hv.
    { apply validate_ok. split; [split|split]; try done; try (by cbn; lia);
        try (split; cbn; try done; try lia; by intros ? [=]). by intros []. }
    rewrite Hv. cbn. split_and!; [by apply validate_ok|done|done|by intros []].
  - unfold validate. cbn. rewrite (bool_decide_eq_false_2 _ Hid), Em. cbn.
    unfold validate_media_flows in Em. repeat case_match; simplify_eq; done.
Qed.

(** ** Decisions against the runtime *)

(** C37. Refinement of the timer service: executing the effects of an applied decision in order
    brings a timer service that agreed with the call (the elapsed timer being gone) to exactly the
    deadlines the new aggregate records, with their generations and due times. *)
Theorem decision_keeps_timers (a : CallAggregate) (c : CallCommand) (d : CallDecision) :
  valid_call a → decide a c = Ok d → cd_disposition d = CommandDisposition.Applied →
  run_timers (cd_effects d) (timers_before a c) ≡ timers_of (cd_aggregate d).
Proof.
  intros Hv H Hd. destruct (decide_inv _ _ _ Hv H) as [(a' & r & Ha & Hr & _ & _ & -> & -> & _)|Hn].
  - by apply (apply_command_sync a c a' r).
  - by destruct Hn as (_ & _ & ?).
Qed.

Lemma decision_keeps_timers_witness :
  ∃ d, decide sample_call (StartConnecting 1 10) = Ok d ∧
  run_timers (cd_effects d) (timers_of sample_call) DeadlineKind.Setup = Some (1%N, 10).
Proof.
  eexists. split; [vm_compute; reflexivity|].
  etrans; [eapply (decision_keeps_timers sample_call (StartConnecting 1 10));
    [sample_valid|vm_compute; reflexivity|reflexivity]|].
  vm_compute. reflexivity.
Defined.

(** Ending a call asks the runtime to stop exactly the legs that are still running, each under
    its current binding and with the given reason, and aborts the replacement in progress. *)
Theorem begin_ending_stops_live_legs (a : CallAggregate) (t : DateTime) (deadline : option DateTime)
    (reason : StopLegReason) (d : CallDecision) :
  valid_call a → decide a (BeginEnding t deadline reason) = Ok d →
  cd_disposition d = CommandDisposition.Applied →
  (∀ id g why, StopLeg id g why ∈ cd_effects d ↔
     why = reason ∧ ∃ i, leg_id (leg_at a i) = id ∧ leg_binding_generation (leg_at a i) = g ∧
       ending_leg_state (leg_state (leg_at a i)) = false) ∧
  (∀ rp, ca_replacement a = Some rp →
     AbortLegReplacement (rp_leg_id rp) (rp_pending_binding_generation rp) ∈ cd_effects d) ∧
  ca_replacement (cd_aggregate d) = None.
Proof.
  intros Hv H Hd. destruct (decide_inv _ _ _ Hv H) as [(a' & r & Ha & Hr & _ & _ & -> & -> & _)|Hn];
    [|by destruct Hn as (_ & _ & ?)].
  cbn [apply_command] in Ha. unfold begin_ending_command in Ha. inv_ok Ha; simplify_eq; try done.
  apply begin_ending_shape in Hx0 as (tail & -> & Hfree & Hrep). cbn [cr_effects applied].
  split_and!; [|intros rp Hrp|done].
  - intros id g why. rewrite elem_of_app, ending_effects_stops. split; [|by left].
    intros [?|Hin]; [done|]. rewrite forallb_forall in Hfree.
    by apply list_elem_of_In, Hfree in Hin.
  - apply elem_of_app. left. unfold ending_effects, abort_replacement. rewrite Hrp. set_solver.
Qed.

Lemma begin_ending_stops_live_legs_witness :
  ∃ d, decide sample_active (BeginEnding 6 (Some 9) StopLegReason.Requested) = Ok d ∧
  StopLeg 3 1%N StopLegReason.Requested ∈ cd_effects d.
Proof.
  eexists. split; [vm_compute; reflexivity|].
  eapply (begin_ending_stops_live_legs sample_active 6 (Some 9) StopLegReason.Requested);
    [sample_valid|vm_compute; reflexivity|reflexivity|].
  split; [reflexivity|]. exists Leg1. vm_compute. auto.
Defined.

(** ** Runs of decisions *)

(** The replacement generations a sequence of effects reserves for a leg, in order. *)
Definition reserved (id : LegId) (es : list EffectIntent) : list BindingGeneration :=
  omap (λ e, match e with
             | StartLegReplacement id' _ pending _ _ => if id ==? id' then Some pending else None
             | _ => None
             end) es.

Lemma reserved_free id es : forallb start_free es = true → reserved id es = [].
Proof.
  unfold reserved. induction es as [|e es IH]; [done|]. cbn. intros H. bool_hyps.
  destruct e; cbn; auto; done.
Qed.

Lemma reserved_app id es1 es2 : reserved id (es1 ++ es2) = reserved id es1 ++ reserved id es2.
Proof. apply omap_app. Qed.

Definition cursor (a : CallAggregate) (i : LegIndex) : BindingGeneration :=
  replacement_generation_cursor (leg_at a i).

Lemma trace_identity a es a' :
  valid_call a → trace a es a' →
  (ca_id a', ca_tenant_id a', ca_created_at a') = (ca_id a, ca_tenant_id a, ca_created_at a) ∧
  (∀ i, leg_identity (leg_at a' i) = leg_identity (leg_at a i)) ∧ (ca_version a ≤ ca_version a')%N ∧
  ca_updated_at a ≤ ca_updated_at a'.
Proof.
  intros Hv Ht. induction Ht as [a|a c d es a' Hd Ht IH]; [done|].
  destruct IH as (E & L & V & U); [by eapply decide_valid|].
  destruct (decide_inv _ _ _ Hv Hd) as [(b & r & Ha & Hr & _ & _ & Hb & _)|(Hb & _)];
    rewrite Hb in *; [|done].
  pose proof (applied_time _ _ _ _ Ha Hr).
  apply apply_command_identity, (identity_committed _ _ c) in Ha as (I1 & I2 & I3 & I4 & I5 & I6).
  split_and!; [congruence| |lia|cbn in U; lia].
  intros []; rewrite L; done.
Qed.

(** The media graph along a run. *)
Lemma trace_media a es a' :
  valid_call a → trace a es a' → run_media es (media_of a) = media_of a'.
Proof.
  intros Hv Ht. induction Ht as [a|a c d es a' Hd Ht IH]; [done|].
  rewrite run_media_app, <- IH by eauto using decide_valid. f_equal.
  destruct (decide_inv _ _ _ Hv Hd) as [(b & r & Ha & Hr & _ & _ & -> & -> & _)|(-> & -> & _)]; [|done].
  by destruct (apply_command_follows _ _ _ _ Hv Ha Hr).
Qed.

Lemma trace_named a es a' : valid_call a → trace a es a' → forallb (names a) es = true.
Proof.
  intros Hv Ht. induction Ht as [a|a c d es a' Hd Ht IH]; [done|].
  assert (Hid : ∀ i, leg_identity (leg_at (cd_aggregate d) i) = leg_identity (leg_at a i)).
  { apply (trace_identity a (cd_effects d ++ [])); [done|]. econstructor; [done|constructor]. }
  rewrite forallb_app. apply andb_true_iff. split.
  - destruct (decide_inv _ _ _ Hv Hd) as [(b & r & Ha & Hr & _ & _ & _ & -> & _)|(_ & -> & _)]; [|done].
    by eapply apply_command_named.
  - pose proof (Hid Leg0) as I0. pose proof (Hid Leg1) as I1. unfold leg_identity in I0, I1. cbn in I0, I1.
    apply (all_named_same a (cd_aggregate d)); [congruence..|]. by apply IH, (decide_valid a c).
Qed.

(** C40. Refinement of the media graph along a whole run: starting a pending call and executing
    every effect of every decision in order on an empty graph of bridged pairs of legs, the graph
    consists of the call's first and second leg exactly when the call is active, or transferring
    without a leg replacement in progress, and is empty otherwise; no other pair is ever bridged. *)
Theorem media_graph_follows_call (a a' : CallAggregate) (es : list EffectIntent) :
  valid_call a → ca_state a = CallState.Pending → trace a es a' →
  run_graph es ∅ = (if media_of a' then {[(leg_id (ca_leg0 a'), leg_id (ca_leg1 a'))]} else ∅) ∧
  ∀ l r, BridgeMedia l r ∈ es → l = leg_id (ca_leg0 a) ∧ r = leg_id (ca_leg1 a).
Proof.
  intros Hv Hp Ht. assert (Hm : media_of a = false) by (unfold media_of; by rewrite Hp).
  pose proof (trace_media _ _ _ Hv Ht) as Hrun. pose proof (trace_named _ _ _ Hv Ht) as Hn. split.
  - change (run_graph es ∅) with (run_graph es (graph_of a false)). rewrite run_graph_named by done.
    rewrite <- Hm, Hrun. destruct (trace_identity _ _ _ Hv Ht) as (_ & Hid & _).
    unfold graph_of. destruct (media_of a'); [|done].
    pose proof (Hid Leg0) as I0. pose proof (Hid Leg1) as I1. unfold leg_identity in I0, I1. cbn in *. congruence.
  - intros l r Hin%list_elem_of_In. rewrite forallb_forall in Hn. specialize (Hn _ Hin). cbn in Hn. by bool_hyps.
Qed.

Lemma media_graph_follows_call_witness :
  ∃ es, trace sample_call es sample_active ∧
    run_graph es ∅ = {[(leg_id (ca_leg0 sample_active), leg_id (ca_leg1 sample_active))]}.
Proof.
  eexists. split; [eapply (run_commands_trace _ sample_setup); vm_compute; reflexivity|].
  refine (proj1 (media_graph_follows_call sample_call sample_active _ _ _ _));
    [sample_valid|reflexivity|].
  eapply (run_commands_trace _ sample_setup); vm_compute; reflexivity.
Defined.

(** The reservations of one decision lie above the cursor it found and at or below the one it
    leaves. *)
Lemma decide_reserved a c d i :
  valid_call a → decide a c = Ok d →
  (cursor a i ≤ cursor (cd_aggregate d) i)%N ∧
  (reserved (leg_id (leg_at a i)) (cd_effects d) = [] ∨
   ∃ g, reserved (leg_id (leg_at a i)) (cd_effects d) = [g] ∧
     (cursor a i < g)%N ∧ cursor (cd_aggregate d) i = g).
Proof.
  intros Hv H. destruct (decide_inv _ _ _ Hv H) as [(b & r & Ha & Hr & _ & _ & -> & -> & _)|(-> & -> & _)];
    [|split; [done|by left]].
  destruct (apply_command_progress _ _ _ _ Hv Ha Hr) as [G R].
  split; [by apply gens_le_committed|].
  destruct R as [R|(j & prev & pending & kind & g & pre & -> & Hpre & Hp & Hc)];
    [left; by apply reserved_free|].
  rewrite reserved_app, reserved_free by done. cbn.
  case_bool_decide as Hid; [|by left]. right. exists pending.
  assert (i = j) as <-.
  { destruct Hv as [[Hne _ _ _ _ _] _]. destruct i, j; cbn in Hid; congruence. }
  split_and!; [done|unfold cursor; lia|]. unfold cursor. rewrite <- Hc. by destruct i.
Qed.

(** Make-before-break attempts never reuse a binding: along any run of decisions, the
    generations reserved for replacements of a leg are strictly increasing, all above the leg's
    cursor at the start and within the one at the end, so a late answer to an abandoned attempt
    can never be taken for a newer one. *)
Theorem replacement_generations_fresh (a a' : CallAggregate) (es : list EffectIntent) (i : LegIndex) :
  valid_call a → trace a es a' →
  StronglySorted N.lt (reserved (leg_id (leg_at a i)) es) ∧
  Forall (λ g, (cursor a i < g ≤ cursor a' i)%N) (reserved (leg_id (leg_at a i)) es) ∧
  (cursor a i ≤ cursor a' i)%N.
Proof.
  intros Hv Ht. induction Ht as [a|a c d es a' Hd Ht IH].
  { split_and!; [constructor|constructor|done]. }
  pose proof (decide_valid _ _ _ Hv Hd) as Hv'. specialize (IH Hv') as (S & F & L).
  destruct (decide_reserved a c d i Hv Hd) as [Lc R].
  assert (Hid : leg_id (leg_at (cd_aggregate d) i) = leg_id (leg_at a i)).
  { destruct (trace_identity a (cd_effects d ++ []) (cd_aggregate d) Hv) as (_ & I & _);
      [econstructor; [done|constructor]|]. specialize (I i). unfold leg_identity in I. congruence. }
  rewrite Hid in *. rewrite reserved_app.
  destruct R as [->|(g & -> & Hg & Hc)]; cbn [app].
  - split_and!; [done| |lia]. eapply Forall_impl; [exact F|]. cbn. lia.
  - split_and!; [|constructor; [lia|]|lia].
    + constructor; [done|]. eapply Forall_impl; [exact F|]. cbn. lia.
    + eapply Forall_impl; [exact F|]. cbn. lia.
Qed.

Lemma replacement_generations_fresh_witness :
  ∃ a' es, trace sample_active es a' ∧ reserved 3 es = [2; 3]%N ∧
  StronglySorted N.lt (reserved 3 es).
Proof.
  eexists _, _. split; [eapply (run_commands_trace _ sample_replacements); vm_compute; reflexivity|].
  split; [vm_compute; reflexivity|].
  eapply (replacement_generations_fresh sample_active _ _ Leg1); [sample_valid|].
  eapply (run_commands_trace _ sample_replacements); vm_compute; reflexivity.
Defined.

(** C2. Every call reachable from a valid one is valid, keeps its identity (call, tenant, leg
    identifiers, directions, initiators, media flows and creation times), and its version and
    update time never go back. *)
Theorem reachable_calls_are_valid (a a' : CallAggregate) (es : list EffectIntent) :
  valid_call a → trace a es a' →
  valid_call a' ∧
  (ca_id a', ca_tenant_id a', ca_created_at a') = (ca_id a, ca_tenant_id a, ca_created_at a) ∧
  (∀ i, leg_identity (leg_at a' i) = leg_identity (leg_at a i)) ∧
  (ca_version a ≤ ca_version a')%N ∧ ca_updated_at a ≤ ca_updated_at a'.
Proof. intros Hv Ht. split; [by eapply trace_valid|by apply (trace_identity a es)]. Qed.

Lemma reachable_calls_are_valid_witness :
  ∃ es, trace sample_call es sample_active ∧ valid_call sample_active.
Proof.
  eexists. split; [eapply (run_commands_trace _ sample_setup); vm_compute; reflexivity|].
  eapply (reachable_calls_are_valid sample_call sample_active); [sample_valid|].
  eapply (run_commands_trace _ sample_setup); vm_compute; reflexivity.
Defined.

(** The due time of the ending deadline after a command to a call that is ending: only a command that
    asks for another one changes it. *)
Definition rearmed (due : DateTime) (c : CallCommand) : DateTime :=
  match c with
  | ArmDeadline _ DeadlineKind.Ending due' | BeginEnding _ (Some due') _ => due'
  | _ => due
  end.

Definition ending_due_at (a : CallAggregate) : option DateTime :=
  slot_due_at (deadline_get (ca_deadlines a) DeadlineKind.Ending).

(** The call is over, or it is ending and its deadline is set. *)
Definition winding_down (due : DateTime) (a : CallAggregate) : Prop :=
  call_is_terminal (ca_state a) = true ∨ ca_state a = CallState.Ending ∧ ending_due_at a = Some due.

Lemma winding_committed due a c : winding_down due a → winding_down due (committed a c).
Proof. done. Qed.

Lemma winding_finalized due t a e : winding_down due (finalize_terminal t (a, e)).1.
Proof. left. apply finalize_terminal_state. Qed.

Lemma winding_set_leg due a i leg : winding_down due a → winding_down due (set_leg a i leg).
Proof. by destruct i. Qed.

Lemma winding_reconcile due i t a e a' e' :
  ca_state a = CallState.Ending → ending_due_at a = Some due →
  reconcile_leg_state i t (a, e) = Ok (a', e') → winding_down due a'.
Proof.
  intros Hs Hd H. unfold reconcile_leg_state in H. rewrite Hs in H.
  eval_tests_in H.
  set (b := match leg_failure _ with Some _ => _ | None => _ end) in H.
  assert (winding_down due b) as Hb by (right; subst b; by destruct (leg_failure _)).
  inv_ok H; [|by injection H as <- <-].
  injection H as H. apply (f_equal fst) in H. cbn [fst] in H. subst a'. apply winding_finalized.
Qed.

Lemma winding_begin_ending due t o reason dl a e a' e' :
  ca_state a = CallState.Ending → ending_due_at a = Some due →
  begin_ending_internal t o reason dl (a, e) = Ok (a', e') → winding_down (default due dl) a'.
Proof.
  intros Hs Hd. rewrite begin_ending_eq. cbv zeta.
  assert (Hb : ca_state (ending_body t o reason a) = CallState.Ending ∧
    ending_due_at (ending_body t o reason a) = Some due)
    by (unfold ending_body; by rewrite set_call_state_eq).
  revert Hb. generalize (ending_body t o reason a), (ending_effects t reason a).
  intros body eff [Hbs Hbd] H. inv_ok H.
  - injection H as H. apply (f_equal fst) in H. cbn [fst] in H. subst a'. apply winding_finalized.
  - destruct x as [g st]. apply arm_deadline_ok in Hx as (_ & _ & ->). injection H as <- <-.
    right. split; [done|]. by destruct body.
  - injection H as <- <-. by right.
Qed.

(** No other timer runs while a call is ending. *)
Lemma ending_armed a kind due :
  valid_call a → ca_state a = CallState.Ending →
  slot_due_at (deadline_get (ca_deadlines a) kind) = Some due → kind = DeadlineKind.Ending.
Proof.
  intros [_ [_ _ D]] Hs Hd. assert (Ha : armed a kind = true) by (unfold armed; by rewrite Hd).
  apply D in Ha. unfold deadline_allowed in Ha. rewrite Hs in Ha. by destruct kind.
Qed.

(** A command that asks for another deadline is refused or applied. *)
Lemma rearmed_applied a c d due :
  valid_call a → ca_state a = CallState.Ending → decide a c = Ok d →
  rearmed due c = due ∨ cd_disposition d = CommandDisposition.Applied.
Proof.
  intros Hv Hs H. rewrite decide_apply in H by done.
  destruct c; cbn [rearmed]; try (by left).
  - destruct kind; try (by left). right. cbn [apply_command] in H.
    destruct (arm_deadline_command _ _ _ _) as [[a' r]|] eqn:E; [|done].
    unfold arm_deadline_command in E. inv_ok E. injection E as <- <-. cbn in H.
    inv_ok H; by injection H as <-.
  - destruct ending_deadline as [due'|]; [|by left]. right. cbn [apply_command] in H.
    destruct (begin_ending_command _ _ _ _) as [[a' r]|] eqn:E; [|done].
    unfold begin_ending_command in E. inv_ok E; injection E as <- <-.
    + bool_hyps. done.
    + cbn in H. inv_ok H; by injection H as <-.
Qed.

(** One accepted command to a call that is ending. *)
Lemma ending_step a c a' r due :
  valid_call a → ca_state a = CallState.Ending → ending_due_at a = Some due →
  apply_command a c = Ok (a', r) → cr_disposition r = CommandDisposition.Applied →
  winding_down (rearmed due c) a'.
Proof.
  intros Hv Hs Hdue H Hd.
  destruct c; cbn [apply_command] in H;
    match type of H with
    | ?f _ _ _ = _ => unfold f in H
    | ?f _ _ _ _ = _ => unfold f in H
    | ?f _ _ _ _ _ = _ => unfold f in H
    | ?f _ _ _ _ _ _ = _ => unfold f in H
    end;
    inv_ok H; simplify_eq; try done; rewrite ?Hs in *; try done; bool_hyps; try done.
  all: try (by right).
  all: try (by eapply winding_reconcile; [..|eassumption]; destruct x).
  - apply arm_deadline_ok in Hx0 as (_ & -> & [= -> ->]). right.
    unfold deadline_allowed in E. rewrite Hs in E. by destruct kind, a.
  - by eapply winding_begin_ending in Hx0; [|done..]; destruct ending_deadline.
  - apply (f_equal fst) in E4. cbn [fst] in E4. subst a'. apply winding_finalized.
  - apply (ending_armed a kind) in E0; [|done..]. by subst kind.
  - apply (ending_armed a kind) in E0; [|done..]. by subst kind.
Qed.

(** ... and a run of them. *)
Lemma ending_run commands a a' es due :
  valid_call a → winding_down due a → run_commands a commands = Ok (a', es) →
  winding_down (foldl rearmed due commands) a'.
Proof.
  revert a es due. induction commands as [|c commands IH]; intros a es due Hv Hw H; cbn in H.
  - by injection H as <- _.
  - apply result_bind_ok in H as (d & Hd & H). apply result_bind_ok in H as ([b es'] & Hb & H).
    injection H as <- <-. pose proof (decide_valid _ _ _ Hv Hd) as Hv'.
    eapply IH; [exact Hv'| |exact Hb]. clear IH Hb.
    destruct (decide_inv _ _ _ Hv Hd) as [(b1 & r & Ha & Hr & _ & _ & -> & _)|(-> & _ & Hn)].
    + destruct Hw as [Ht|[Hs Hdue]]; [by destruct (terminal_not_applied _ _ _ _ Hv Ht Ha)|].
      by apply winding_committed, (ending_step a c b1 r).
    + destruct Hw as [?|[Hs Hdue]]; [by left|].
      destruct (rearmed_applied _ _ _ due Hv Hs Hd) as [E|?]; [|done]. rewrite E. by right.
Qed.


(** C38. Liveness of teardown: as long as the counters have room, a call that is not over can always
    be ended.  The request is accepted at once.  From then on, whatever commands are accepted in
    between (reports of its legs, transfers, further requests to end it, other deadlines), the call
    is over or it is ending and its ending deadline is set, to the time of the request unless a
    command asked for another one; and when that time has come, the elapsed deadline ends the
    call, whatever its legs did or did not answer. *)
Theorem ending_always_terminates (a : CallAggregate) (t due : DateTime) (reason : StopLegReason) :
  valid_call a → call_is_terminal (ca_state a) = false → ca_updated_at a ≤ t < due →
  (ca_version a < MAX_PERSISTED_GENERATION)%N →
  (generation_of a DeadlineKind.Ending < MAX_PERSISTED_GENERATION)%N →
  ∃ d, decide a (BeginEnding t (Some due) reason) = Ok d ∧
    cd_disposition d = CommandDisposition.Applied ∧
    ∀ commands a' es, run_commands (cd_aggregate d) commands = Ok (a', es) →
      call_is_terminal (ca_state a') = true ∨
      ca_state a' = CallState.Ending ∧ ending_due_at a' = Some (foldl rearmed due commands) ∧
      ∀ t', ca_updated_at a' ≤ t' → foldl rearmed due commands ≤ t' →
        (ca_version a' < MAX_PERSISTED_GENERATION)%N →
        ∃ d', decide a' (DeadlineElapsed t' DeadlineKind.Ending
                (generation_of a' DeadlineKind.Ending) None) = Ok d' ∧
          call_is_terminal (ca_state (cd_aggregate d')) = true.
Proof.
  intros Hv Hn Ht Hver Hgen.
  destruct (begin_ending_command_runs a t due reason) as (a1 & r1 & H1 & Hd1 & Hend); try done.
  eexists. split; [|split].
  - rewrite decide_apply by done. cbn [apply_command]. rewrite H1, Hd1. cbn [hold_conflict].
    destruct (N.leb_spec MAX_PERSISTED_GENERATION (ca_version a)); [lia|]. reflexivity.
  - done.
  - cbn [cd_aggregate]. intros commands a' es Hrun.
    assert (Hv1 : valid_call (committed a1 (BeginEnding t (Some due) reason))).
    { apply valid_committed. by eapply (apply_command_valid a (BeginEnding t (Some due) reason)). }
    pose proof (run_commands_trace _ _ _ _ Hrun) as Htr.
    pose proof (trace_valid _ _ _ Hv1 Htr) as Hv'.
    eapply ending_run in Hrun as [Hover|[Hs Hdue]]; [by left| |exact Hv1|].
    2: { apply winding_committed. destruct Hend as [?|(? & _ & _ & ?)]; [by left|by right]. }
    right. split; [done|]. split; [exact Hdue|]. intros t' Hu Ht' Hver'.
    destruct (deadline_elapsed_runs a' t' (foldl rearmed due commands)) as (a2 & r2 & H2 & Hd2 & Hs2);
      try done.
    eexists. split; [|exact (Hs2 : call_is_terminal (ca_state (cd_aggregate
      {| cd_aggregate := committed a2 (DeadlineElapsed t' DeadlineKind.Ending
           (generation_of a' DeadlineKind.Ending) None);
         cd_effects := cr_effects r2; cd_disposition := CommandDisposition.Applied |})) = true)].
    rewrite decide_apply by done. cbn [apply_command]. rewrite H2, Hd2. cbn [hold_conflict].
    by destruct (N.leb_spec MAX_PERSISTED_GENERATION (ca_version a')); [lia|].
Qed.

(** One leg answers and the other does not: the call ends all the same. *)
Definition sample_answers : list CallCommand := [SetLegState 7 2 1%N LegState.Ended None].

Lemma ending_always_terminates_witness :
  ∃ d a' es d', decide sample_active (BeginEnding 6 (Some 9) StopLegReason.Requested) = Ok d ∧
    run_commands (cd_aggregate d) sample_answers = Ok (a', es) ∧
    decide a' (DeadlineElapsed 9 DeadlineKind.Ending (generation_of a' DeadlineKind.Ending) None) = Ok d' ∧
    call_is_terminal (ca_state (cd_aggregate d')) = true.
Proof.
  destruct (ending_always_terminates sample_active 6 9 StopLegReason.Requested) as (d & H & _ & Hrun);
    [sample_valid|reflexivity|vm_compute; split; [discriminate|reflexivity]|reflexivity|reflexivity|].
  assert (Hx : ∃ a' es, run_commands (cd_aggregate d) sample_answers = Ok (a', es) ∧
    call_is_terminal (ca_state a') = false ∧ ca_updated_at a' ≤ 9 ∧
    (ca_version a' < MAX_PERSISTED_GENERATION)%N).
  { vm_compute in H. injection H as <-. eexists _, _. split; [vm_compute; reflexivity|].
    vm_compute. split_and!; congruence. }
  destruct Hx as (a' & es & E & Hn & Hu & Hver).
  destruct (Hrun sample_answers a' es E) as [Ht|(_ & _ & Hel)]; [congruence|].
  destruct (Hel 9 Hu) as (d' & Hd' & Ht); [vm_compute; congruence|exact Hver|].
  exists d, a', es, d'. split; [exact H|]. split; [exact E|]. split; [exact Hd'|exact Ht].
Defined.

(** C31. A failure is never lost: once a call has recorded a failed outcome, no later command, not
    even an orderly end or a leg that ends normally, turns it into a normal end; if the run reaches
    a terminal state, that state is [Failed]. *)
Theorem failure_is_never_lost (a a' : CallAggregate) (es : list EffectIntent) :
  valid_call a → trace a es a' → outcome_is_failed (ca_terminal_outcome a) = true →
  outcome_is_failed (ca_terminal_outcome a') = true ∧ ca_state a' ≠ CallState.Ended.
Proof.
  intros Hv Ht Hf. assert (failing a' = true ∧ valid_call a') as [Hf' [_ [S _ _]]].
  { induction Ht as [a|a c d es a' Hd Ht IH]; [done|]. apply IH; [by eapply decide_valid|].
    destruct (decide_inv _ _ _ Hv Hd) as [(b & r & Ha & Hr & _ & _ & -> & _)|(-> & _)]; [|done].
    by apply (apply_command_failing a c b r). }
  split; [done|]. intros Hs. rewrite Hs in S. destruct S as (_ & _ & S).
  unfold failing in Hf'. by rewrite S in Hf'.
Qed.

Lemma failure_is_never_lost_witness :
  ∃ a es, trace (after (run_commands sample_active
                   [SetLegState 6 2 1%N LegState.Failed (Some ending_timeout)]) sample_active) es a ∧
  ca_state a ≠ CallState.Ended.
Proof.
  eexists _, _. split.
  - eapply (run_commands_trace _ [SetLegState 7 3 1%N LegState.Ended None]). vm_compute. reflexivity.
  - eapply (failure_is_never_lost (after (run_commands sample_active
                   [SetLegState 6 2 1%N LegState.Failed (Some ending_timeout)]) sample_active));
      [sample_valid| |vm_compute; reflexivity].
    eapply (run_commands_trace _ [SetLegState 7 3 1%N LegState.Ended None]). vm_compute. reflexivity.
Defined.
