(* ===== verification/CoordModel.v ===== *)
(** The backend-neutral coordination model ([src/coordination/model.rs]): sequences, worker
    snapshots, routing hints, the safe projection payload and the checks each value passes before
    it reaches a projection or an outbox. *)

From S2P Require Import Prelude RustText DomainTypes.
From stdpp Require Import options.

(** ** Dates

    [chrono] is a library the sources only call; the development takes the functions it uses from
    it as parameters. *)

Class Chrono := {
  (** [DateTime::checked_add_signed]. *)
  checked_add_signed : DateTime → Duration → option DateTime;
  (** [TimeDelta::from_std]. *)
  from_std : Duration → option Duration;
  (** [DateTime::timestamp_millis]. *)
  timestamp_millis : DateTime → Z;
}.

(** Their documented behaviour: a sum or conversion that is returned is exact, and the number of
    milliseconds from the epoch is negative exactly before it. *)
Class ChronoLaws `{Chrono} : Prop := {
  checked_add_signed_exact t d r : checked_add_signed t d = Some r → r = t + d;
  from_std_exact d r : from_std d = Some r → r = d;
  timestamp_millis_negative t : timestamp_millis t < 0 ↔ t < 0;
}.

(** An instance with the library's range of about 262,000 years either side of the epoch. *)
Definition chrono_limit : Z := 8210298412799 * 1000000000.
Definition chrono_sample : Chrono := {|
  checked_add_signed t d := if Z.abs (t + d) <=? chrono_limit then Some (t + d) else None;
  from_std d := if d <=? I64_MAX * 1000000 then Some d else None;
  timestamp_millis t := t / 1000000;
|}.

Lemma chrono_sample_laws : @ChronoLaws chrono_sample.
Proof.
  split; cbn; intros.
  - repeat case_match; simplify_eq; done.
  - repeat case_match; simplify_eq; done.
  - split; intros; [|apply Z.div_lt_upper_bound; lia].
    destruct (Z.le_gt_cases 0 t); [|lia]. assert (0 ≤ t / 1000000) by (apply Z.div_pos; lia). lia.
Qed.

(** ** Limits *)

Definition MAX_DEPLOYMENT_BYTES : Z := 63.
Definition MAX_NAME_BYTES : Z := 128.
Definition MAX_CAPABILITIES : Z := 65.
Definition MAX_CLAIM_TTL : Duration := from_secs (5 * 60).
Definition MAX_POLL_INTERVAL : Duration := from_secs 30.
Definition MAX_PROJECTION_LIFETIME : Duration := from_secs (24 * 60 * 60).

(** [Duration::is_zero]. *)
Definition is_zero (d : Duration) : bool := d =? 0.

(** ** Errors *)

Inductive CoordinationError :=
| InvalidInput (message : string)
| SequenceConflict
| StaleFence
| LeaseExpired
| DrainIsOneWay
| StaleClaim
| CounterExhausted
| Unavailable
| InvalidData.
#[export] Instance CoordinationError_eq : EqDecision CoordinationError.
Proof. solve_decision. Defined.

(** ** Identifiers and counters *)

Definition WorkerId : Type := Uuid.
(** The 256-bit digests, as their big-endian value. *)
Definition Digest : Type := Z.
Definition AttachmentTokenDigest : Type := Digest.
Definition PrincipalFingerprint : Type := Digest.
Definition RouteCatalogFingerprint : Type := Digest.
Definition ReplayDigest : Type := Digest.

Definition DeploymentId : Type := rstr.

Definition deployment_byte (byte : Z) : bool := is_ascii_alphanumeric byte || contains "-_." byte.

(** [DeploymentId::parse]. *)
Definition DeploymentId_parse (value : rstr) : result CoordinationError DeploymentId :=
  if is_empty value || (MAX_DEPLOYMENT_BYTES <? len value)
     || negb (forallb deployment_byte (bytes value))
  then Err (InvalidInput "invalid deployment ID")
  else Ok value.

(** [ProjectionSequence], [CoordinationClaimGeneration] and [WorkerFence]: [u64] newtypes that stay
    within [i64::MAX]. *)
Definition ProjectionSequence : Type := N.
Definition CoordinationClaimGeneration : Type := N.
Definition WorkerFence : Type := N.

Definition ProjectionSequence_INITIAL : ProjectionSequence := 1%N.

(** [ProjectionSequence::from_i64]. *)
Definition ProjectionSequence_from_i64 (value : Z) : result CoordinationError ProjectionSequence :=
  if value <=? 0 then Err (InvalidInput "projection sequence must be positive")
  else Ok (Z.to_N value).

Definition ProjectionSequence_as_i64 (self : ProjectionSequence) : Z := Z.of_N self.

(** [ProjectionSequence::next]. *)
Definition ProjectionSequence_next (self : ProjectionSequence)
    : result CoordinationError ProjectionSequence :=
  if (MAX_PERSISTED_GENERATION <=? self)%N then Err CounterExhausted else Ok (self + 1)%N.

Definition ProjectionSequence_deserialize (value : N) : option ProjectionSequence :=
  if ((value =? 0) || (MAX_PERSISTED_GENERATION <? value))%N then None else Some value.

(** [CoordinationClaimGeneration::from_i64], [::next] and its [Deserialize]. *)
Definition ClaimGeneration_from_i64 (value : Z)
    : result CoordinationError CoordinationClaimGeneration :=
  if value <? 0 then Err (InvalidInput "claim generation must not be negative")
  else Ok (Z.to_N value).

Definition ClaimGeneration_next (self : CoordinationClaimGeneration)
    : result CoordinationError CoordinationClaimGeneration :=
  if (MAX_PERSISTED_GENERATION <=? self)%N then Err CounterExhausted else Ok (self + 1)%N.

Definition ClaimGeneration_deserialize (value : N) : option CoordinationClaimGeneration :=
  if (MAX_PERSISTED_GENERATION <? value)%N then None else Some value.

(** ** Snapshots and hints *)

Record WorkerLease := { wl_worker_id : WorkerId; wl_fence : WorkerFence }.
#[export] Instance WorkerLease_eq : EqDecision WorkerLease.
Proof. solve_decision. Defined.

Module AttachmentTransport.
Inductive AttachmentTransport := Sip | WebRtc.
End AttachmentTransport.
Abbreviation AttachmentTransport := AttachmentTransport.AttachmentTransport.
#[export] Instance AttachmentTransport_eq : EqDecision AttachmentTransport.
Proof. solve_decision. Defined.

(** [usize] counts are naturals. *)
Record WorkerCoordinationSnapshot := {
  ws_lease : WorkerLease;
  ws_max_calls : N;
  ws_reserved_calls : N;
  ws_draining : bool;
  ws_capabilities : gset rstr;
  ws_lease_expires_at : DateTime;
}.
#[export] Instance WorkerCoordinationSnapshot_eq : EqDecision WorkerCoordinationSnapshot.
Proof. solve_decision. Defined.

Record CallRouteHint := {
  rh_call_id : CallId;
  rh_worker : WorkerLease;
  rh_expires_at : DateTime;
}.
#[export] Instance CallRouteHint_eq : EqDecision CallRouteHint.
Proof. solve_decision. Defined.

Record AttachmentRouteHint := {
  ar_token_digest : AttachmentTokenDigest;
  ar_worker : WorkerLease;
  ar_route_catalog_fingerprint : option RouteCatalogFingerprint;
  ar_transport : AttachmentTransport;
  ar_tenant_binding : PrincipalFingerprint;
  ar_expires_at : DateTime;
}.
#[export] Instance AttachmentRouteHint_eq : EqDecision AttachmentRouteHint.
Proof. solve_decision. Defined.

Record AttachmentRouteLookup := {
  al_token_digest : AttachmentTokenDigest;
  al_transport : AttachmentTransport;
  al_tenant_binding : PrincipalFingerprint;
}.

Record ReplayMarker := { rm_digest : ReplayDigest; rm_expires_at : DateTime }.
#[export] Instance ReplayMarker_eq : EqDecision ReplayMarker.
Proof. solve_decision. Defined.

Module WakeupReason.
Inductive WakeupReason := Effects | Controls | Deadlines | ProviderEvents | Assignment | Broadcasts.
End WakeupReason.
Abbreviation WakeupReason := WakeupReason.WakeupReason.
#[export] Instance WakeupReason_eq : EqDecision WakeupReason.
Proof. solve_decision. Defined.

(** [WakeupReason::as_str] and [WakeupReason::parse]. *)
Definition WakeupReason_as_str (self : WakeupReason) : string :=
  match self with
  | WakeupReason.Effects => "effects"
  | WakeupReason.Controls => "controls"
  | WakeupReason.Deadlines => "deadlines"
  | WakeupReason.ProviderEvents => "provider_events"
  | WakeupReason.Assignment => "assignment"
  | WakeupReason.Broadcasts => "broadcasts"
  end.

Definition WakeupReason_parse (value : string) : result CoordinationError WakeupReason :=
  if value ==? "effects" then Ok WakeupReason.Effects
  else if value ==? "controls" then Ok WakeupReason.Controls
  else if value ==? "deadlines" then Ok WakeupReason.Deadlines
  else if value ==? "provider_events" then Ok WakeupReason.ProviderEvents
  else if value ==? "assignment" then Ok WakeupReason.Assignment
  else if value ==? "broadcasts" then Ok WakeupReason.Broadcasts
  else Err InvalidData.

Inductive CoordinationPayload :=
| Worker (worker : WorkerCoordinationSnapshot)
| Route (route : CallRouteHint)
| RouteRemoved (call_id : CallId)
| AttachmentRoute (route : AttachmentRouteHint)
| AttachmentRouteRemoved (token_digest : AttachmentTokenDigest)
| Replay (marker : ReplayMarker)
| WakeWorker (worker_id : WorkerId) (reason : WakeupReason).
#[export] Instance CoordinationPayload_eq : EqDecision CoordinationPayload.
Proof. solve_decision. Defined.

Record CoordinationEvent := {
  ev_deployment : DeploymentId;
  ev_sequence : ProjectionSequence;
  ev_payload : CoordinationPayload;
  ev_recorded_at : DateTime;
}.

Record WakeupMessage := {
  wm_entry_id : rstr;
  wm_sequence : ProjectionSequence;
  wm_reason : WakeupReason;
}.

Module DatabasePollReason.
Inductive DatabasePollReason := Wakeup | IntervalElapsed | CoordinationUnavailable.
End DatabasePollReason.
Abbreviation DatabasePollReason := DatabasePollReason.DatabasePollReason.

Record WakeupPoll := {
  wp_messages : list WakeupMessage;
  wp_database_poll_reason : DatabasePollReason;
}.

Record WorkerSelectionRequest := {
  sr_required_capabilities : gset rstr;
  sr_limit : N;
}.

Module ProjectionApplyOutcome.
Inductive ProjectionApplyOutcome := Applied | Duplicate | Stale.
End ProjectionApplyOutcome.
Abbreviation ProjectionApplyOutcome := ProjectionApplyOutcome.ProjectionApplyOutcome.
#[export] Instance ProjectionApplyOutcome_eq : EqDecision ProjectionApplyOutcome.
Proof. solve_decision. Defined.

(** ** Validation *)

Definition bad_capability (capability : rstr) : bool :=
  is_empty capability || (MAX_NAME_BYTES <? len capability) || existsb is_control capability.

Definition validate_capabilities (capabilities : gset rstr) : result CoordinationError () :=
  if (MAX_CAPABILITIES <? Z.of_nat (size capabilities))
     || existsb bad_capability (elements capabilities)
  then Err (InvalidInput "invalid projected worker capability")
  else Ok ().

(** [WorkerCoordinationSnapshot::validate] and [::available_calls]. *)
Definition validate_worker (self : WorkerCoordinationSnapshot) : result CoordinationError () :=
  if ((ws_max_calls self =? 0) || (ws_max_calls self <? ws_reserved_calls self))%N
  then Err (InvalidInput "invalid projected worker capacity")
  else validate_capabilities (ws_capabilities self).

(** [usize::saturating_sub]. *)
Definition available_calls (self : WorkerCoordinationSnapshot) : N :=
  (ws_max_calls self - ws_reserved_calls self)%N.

(** [WorkerSelectionRequest::validate]. *)
Definition validate_request (self : WorkerSelectionRequest) : result CoordinationError () :=
  if ((sr_limit self =? 0) || (1024 <? sr_limit self))%N
  then Err (InvalidInput "invalid selection limit")
  else validate_capabilities (sr_required_capabilities self).

Section Dated.
Context `{Chrono}.

Definition validate_projection_expiry (expires_at recorded_at : DateTime) (error : string)
    : result CoordinationError () :=
  maximum ← ok_or (checked_add_signed recorded_at MAX_PROJECTION_LIFETIME) InvalidData;
  if (expires_at <=? recorded_at) || (maximum <? expires_at) then Err (InvalidInput error)
  else Ok ().

(** [CoordinationEvent::validate]. *)
Definition validate_event (self : CoordinationEvent) : result CoordinationError () :=
  if timestamp_millis (ev_recorded_at self) <? 0
  then Err (InvalidInput "coordination time must follow the Unix epoch")
  else
    match ev_payload self with
    | Worker worker =>
        validate_worker worker;;
        validate_projection_expiry (ws_lease_expires_at worker) (ev_recorded_at self)
          "invalid projected worker lease expiry"
    | Route route =>
        validate_projection_expiry (rh_expires_at route) (ev_recorded_at self)
          "invalid projected route expiry"
    | AttachmentRoute route =>
        validate_projection_expiry (ar_expires_at route) (ev_recorded_at self)
          "invalid projected attachment route expiry"
    | Replay marker =>
        validate_projection_expiry (rm_expires_at marker) (ev_recorded_at self)
          "invalid projected replay expiry"
    | _ => Ok ()
    end.

Definition checked_claim_expiry (now : DateTime) (ttl : Duration)
    : result CoordinationError DateTime :=
  if is_zero ttl || (MAX_CLAIM_TTL <? ttl) then Err (InvalidInput "invalid claim TTL")
  else
    delta ← ok_or (from_std ttl) (InvalidInput "claim TTL is too large");
    ok_or (checked_add_signed now delta) (InvalidInput "claim expiry overflow").
End Dated.

Definition validate_poll_interval (interval : Duration) : result CoordinationError () :=
  if is_zero interval || (MAX_POLL_INTERVAL <? interval)
  then Err (InvalidInput "invalid database fallback poll interval")
  else Ok ().

(** ** Lemmas *)

Lemma validate_worker_ok w u :
  validate_worker w = Ok u →
  (0 < ws_max_calls w)%N ∧ (ws_reserved_calls w ≤ ws_max_calls w)%N.
Proof.
  unfold validate_worker. destruct (_ || _)%bool eqn:E; [done|]. intros _. bool_hyps. lia.
Qed.

Lemma wakeup_reason_roundtrip r : WakeupReason_parse (WakeupReason_as_str r) = Ok r.
Proof. by destruct r. Qed.

Lemma wakeup_reason_parse_sound s r : WakeupReason_parse s = Ok r → s = WakeupReason_as_str r.
Proof.
  unfold WakeupReason_parse. repeat case_bool_decide; subst; intros [=]; by subst.
Qed.
