(* ===== verification/CoordMemory.v ===== *)
(** The standalone coordination backend ([src/coordination/memory.rs]): the projection cache with
    its per-key sequence compare-and-set, and the wakeup streams with their consumer groups.

    Every method takes the readings of the injected clock it makes as arguments and returns the
    coordinator with its result, so that what a failing method has already written is visible.
    A hash map is a [gmap]; where the source depends on the iteration order of one, the order is
    an argument. *)

From S2P Require Import Prelude RustText DomainTypes CoordModel.
From stdpp Require Import options.

Definition DEFAULT_TOMBSTONE_TTL : Duration := from_secs (24 * 60 * 60).
Definition DEFAULT_STREAM_TTL : Duration := from_secs (24 * 60 * 60).
Definition MAX_RETENTION : Duration := from_secs (7 * 24 * 60 * 60).

(** ** State *)

Record Versioned (V : Type) := {
  vs_sequence : ProjectionSequence;
  vs_value : V;
  vs_retained_until : DateTime;
}.
Arguments Build_Versioned {V} _ _ _.
Arguments vs_sequence {V} _.
Arguments vs_value {V} _.
Arguments vs_retained_until {V} _.

Record MemoryWakeupEntry := {
  we_id : N;
  we_sequence : ProjectionSequence;
  we_reason : WakeupReason;
}.

Record PendingWakeup := {
  pw_consumer : rstr;
  pw_delivered_at : DateTime;
}.

Record MemoryConsumerGroup := {
  cg_last_delivered : N;
  cg_pending : gmap N PendingWakeup;
  cg_retained_until : option DateTime;
}.
#[export] Instance MemoryConsumerGroup_eta : Eta MemoryConsumerGroup := λ r,
  {| cg_last_delivered := cg_last_delivered r; cg_pending := cg_pending r;
     cg_retained_until := cg_retained_until r |}.

(** [MemoryConsumerGroup::default()]. *)
Definition MemoryConsumerGroup_default : MemoryConsumerGroup :=
  {| cg_last_delivered := 0%N; cg_pending := ∅; cg_retained_until := None |}.

Record MemoryWakeupStream := {
  st_entries : list MemoryWakeupEntry;
  st_retained_until : DateTime;
}.

Definition GroupKey : Type := WorkerId * rstr.

Record MemoryState := {
  ms_workers : gmap WorkerId (Versioned WorkerCoordinationSnapshot);
  ms_routes : gmap CallId (Versioned (option CallRouteHint));
  ms_attachment_routes : gmap AttachmentTokenDigest (Versioned (option AttachmentRouteHint));
  ms_replay : gmap ReplayDigest (Versioned ReplayMarker);
  ms_wakeup_sequences : gmap WorkerId (Versioned WakeupReason);
  ms_streams : gmap WorkerId MemoryWakeupStream;
  ms_groups : gmap GroupKey MemoryConsumerGroup;
  ms_next_stream_id : N;
}.
#[export] Instance MemoryState_eta : Eta MemoryState := λ r,
  {| ms_workers := ms_workers r; ms_routes := ms_routes r;
     ms_attachment_routes := ms_attachment_routes r; ms_replay := ms_replay r;
     ms_wakeup_sequences := ms_wakeup_sequences r; ms_streams := ms_streams r;
     ms_groups := ms_groups r; ms_next_stream_id := ms_next_stream_id r |}.

Definition MemoryState_default : MemoryState :=
  {| ms_workers := ∅; ms_routes := ∅; ms_attachment_routes := ∅; ms_replay := ∅;
     ms_wakeup_sequences := ∅; ms_streams := ∅; ms_groups := ∅; ms_next_stream_id := 0%N |}.

(** [mc_poisoned]: a thread panicked while it held the mutex. *)
Record MemoryCoordinator := {
  mc_deployment : DeploymentId;
  mc_max_stream_len : N;
  mc_tombstone_ttl : Duration;
  mc_stream_ttl : Duration;
  mc_state : MemoryState;
  mc_poisoned : bool;
}.
#[export] Instance MemoryCoordinator_eta : Eta MemoryCoordinator := λ r,
  {| mc_deployment := mc_deployment r; mc_max_stream_len := mc_max_stream_len r;
     mc_tombstone_ttl := mc_tombstone_ttl r; mc_stream_ttl := mc_stream_ttl r;
     mc_state := mc_state r; mc_poisoned := mc_poisoned r |}.

(** [MemoryCoordinator::new]. *)
Definition MemoryCoordinator_new (deployment : DeploymentId) (max_stream_len : N)
    : result CoordinationError MemoryCoordinator :=
  if ((max_stream_len =? 0) || (1000000 <? max_stream_len))%N
  then Err (InvalidInput "invalid wakeup stream bound")
  else Ok {| mc_deployment := deployment; mc_max_stream_len := max_stream_len;
             mc_tombstone_ttl := DEFAULT_TOMBSTONE_TTL; mc_stream_ttl := DEFAULT_STREAM_TTL;
             mc_state := MemoryState_default; mc_poisoned := false |}.

Definition with_retention (self : MemoryCoordinator) (tombstone_ttl stream_ttl : Duration)
    : result CoordinationError MemoryCoordinator :=
  if is_zero tombstone_ttl || (MAX_RETENTION <? tombstone_ttl)
     || is_zero stream_ttl || (MAX_RETENTION <? stream_ttl)
  then Err (InvalidInput "invalid memory coordination retention")
  else Ok (self <| mc_tombstone_ttl := tombstone_ttl |> <| mc_stream_ttl := stream_ttl |>).

(** [MemoryCoordinator::lock]: a poisoned mutex is reported as an unavailable backend. *)
Definition lock (self : MemoryCoordinator) : result CoordinationError MemoryState :=
  if mc_poisoned self then Err Unavailable else Ok (mc_state self).

(** ** Retention *)

(** [HashMap::retain] on versioned entries. *)
Definition retain_live {K} `{Countable K} {V} (now : DateTime) (values : gmap K (Versioned V))
    : gmap K (Versioned V) :=
  filter (λ kv, now < vs_retained_until kv.2) values.

Definition stream_expired (streams : gmap WorkerId MemoryWakeupStream) (now : DateTime)
    (worker_id : WorkerId) : bool :=
  is_some_and (λ stream, st_retained_until stream <=? now) (streams !! worker_id).

(** Whether the two [retain] calls of [cleanup_locked] keep a group. *)
Definition group_live (streams : gmap WorkerId MemoryWakeupStream) (now : DateTime)
    (key : GroupKey) (group : MemoryConsumerGroup) : bool :=
  negb (stream_expired streams now key.1)
  && is_some_and (λ retained_until, now <? retained_until) (cg_retained_until group).

Definition cleanup_locked (state : MemoryState) (now : DateTime) : MemoryState :=
  {| ms_workers := retain_live now (ms_workers state);
     ms_routes := retain_live now (ms_routes state);
     ms_attachment_routes := retain_live now (ms_attachment_routes state);
     ms_replay := retain_live now (ms_replay state);
     ms_wakeup_sequences := retain_live now (ms_wakeup_sequences state);
     ms_streams := filter (λ kv, now < st_retained_until kv.2) (ms_streams state);
     ms_groups := filter (λ kv, group_live (ms_streams state) now kv.1 kv.2 = true) (ms_groups state);
     ms_next_stream_id := ms_next_stream_id state |}.

(** ** Versioned writes *)

Definition apply_versioned {K} `{Countable K} {V} `{EqDecision V} (values : gmap K (Versioned V))
    (key : K) (sequence : ProjectionSequence) (value : V) (retained_until : DateTime)
    : gmap K (Versioned V) * result CoordinationError ProjectionApplyOutcome :=
  let written := <[key := Build_Versioned sequence value retained_until]> values in
  match values !! key with
  | Some existing =>
      if (sequence <? vs_sequence existing)%N then (values, Ok ProjectionApplyOutcome.Stale)
      else if sequence ==? vs_sequence existing then
        if value ==? vs_value existing then (values, Ok ProjectionApplyOutcome.Duplicate)
        else (values, Err SequenceConflict)
      else (written, Ok ProjectionApplyOutcome.Applied)
  | None => (written, Ok ProjectionApplyOutcome.Applied)
  end.

(** Drops the pending delivery of a trimmed entry from every group of the worker. *)
Definition forget_pending (worker_id : WorkerId) (id : N) (groups : gmap GroupKey MemoryConsumerGroup)
    : gmap GroupKey MemoryConsumerGroup :=
  map_imap (λ key group,
    Some (if key.1 ==? worker_id then group <| cg_pending := delete id (cg_pending group) |>
          else group)) groups.

(** The [while stream.entries.len() > self.max_stream_len] loop. *)
Fixpoint trim_stream (worker_id : WorkerId) (max_stream_len : N)
    (entries : list MemoryWakeupEntry) (groups : gmap GroupKey MemoryConsumerGroup)
    : list MemoryWakeupEntry * gmap GroupKey MemoryConsumerGroup :=
  match entries with
  | [] => ([], groups)
  | trimmed :: rest =>
      if (max_stream_len <? N.of_nat (length entries))%N
      then trim_stream worker_id max_stream_len rest (forget_pending worker_id (we_id trimmed) groups)
      else (entries, groups)
  end.

Section Methods.
Context `{Chrono}.

Definition retained_until (expiry now : DateTime) (retention : Duration)
    : result CoordinationError DateTime :=
  retention ← ok_or (from_std retention) (InvalidInput "coordination retention is too large");
  ok_or (checked_add_signed (Z.max expiry now) retention) InvalidData.

Definition publish_locked (self : MemoryCoordinator) (state : MemoryState) (now : DateTime)
    (worker_id : WorkerId) (sequence : ProjectionSequence) (reason : WakeupReason)
    : MemoryState * result CoordinationError () :=
  match retained_until now now (mc_stream_ttl self) with
  | Err e => (state, Err e)
  | Ok stream_retained_until =>
      if (Z.to_N U64_MAX <? ms_next_stream_id state + 1)%N then (state, Err CounterExhausted)
      else
        let id := (ms_next_stream_id state + 1)%N in
        let entry := {| we_id := id; we_sequence := sequence; we_reason := reason |} in
        let entries :=
          match ms_streams state !! worker_id with
          | Some stream => st_entries stream
          | None => []
          end ++ [entry] in
        let '(entries, groups) :=
          trim_stream worker_id (mc_max_stream_len self) entries (ms_groups state) in
        let stream := {| st_entries := entries; st_retained_until := stream_retained_until |} in
        (state <| ms_next_stream_id := id |>
               <| ms_streams := <[worker_id := stream]> (ms_streams state) |>
               <| ms_groups := groups |>,
         Ok ())
  end.

Definition apply_worker (self : MemoryCoordinator) (state : MemoryState) (now : DateTime)
    (sequence : ProjectionSequence) (recorded_at : DateTime)
    (incoming : WorkerCoordinationSnapshot)
    : MemoryState * result CoordinationError ProjectionApplyOutcome :=
  let id := wl_worker_id (ws_lease incoming) in
  let write keep_until :=
    (state <| ms_workers :=
       <[id := Build_Versioned sequence incoming keep_until]> (ms_workers state) |>,
     Ok ProjectionApplyOutcome.Applied) in
  match (validate_worker incoming;;
         retained_until (ws_lease_expires_at incoming) now (mc_tombstone_ttl self)) with
  | Err e => (state, Err e)
  | Ok keep_until =>
      match ms_workers state !! id with
      | Some existing =>
          let fence := wl_fence (ws_lease incoming) in
          let existing_fence := wl_fence (ws_lease (vs_value existing)) in
          if (sequence <? vs_sequence existing)%N then (state, Ok ProjectionApplyOutcome.Stale)
          else if sequence ==? vs_sequence existing then
            if incoming ==? vs_value existing then (state, Ok ProjectionApplyOutcome.Duplicate)
            else (state, Err SequenceConflict)
          else if (fence <? existing_fence)%N then (state, Err StaleFence)
          else if (fence ==? existing_fence)
                  && (ws_lease_expires_at (vs_value existing) <=? recorded_at)
          then (state, Err LeaseExpired)
          else if (fence ==? existing_fence)
                  && ws_draining (vs_value existing) && negb (ws_draining incoming)
          then (state, Err DrainIsOneWay)
          else write keep_until
      | None => write keep_until
      end
  end.

Definition apply_route (self : MemoryCoordinator) (state : MemoryState) (now : DateTime)
    (sequence : ProjectionSequence) (incoming : CallRouteHint)
    : MemoryState * result CoordinationError ProjectionApplyOutcome :=
  match retained_until (rh_expires_at incoming) now (mc_tombstone_ttl self) with
  | Err e => (state, Err e)
  | Ok keep_until =>
      let '(routes, outcome) :=
        apply_versioned (ms_routes state) (rh_call_id incoming) sequence (Some incoming) keep_until in
      (state <| ms_routes := routes |>, outcome)
  end.

Definition remove_route (self : MemoryCoordinator) (state : MemoryState) (now : DateTime)
    (sequence : ProjectionSequence) (recorded_at : DateTime) (call_id : CallId)
    : MemoryState * result CoordinationError ProjectionApplyOutcome :=
  match retained_until recorded_at now (mc_tombstone_ttl self) with
  | Err e => (state, Err e)
  | Ok keep_until =>
      let '(routes, outcome) :=
        apply_versioned (ms_routes state) call_id sequence None keep_until in
      (state <| ms_routes := routes |>, outcome)
  end.

Definition apply_attachment_route (self : MemoryCoordinator) (state : MemoryState) (now : DateTime)
    (sequence : ProjectionSequence) (incoming : AttachmentRouteHint)
    : MemoryState * result CoordinationError ProjectionApplyOutcome :=
  match retained_until (ar_expires_at incoming) now (mc_tombstone_ttl self) with
  | Err e => (state, Err e)
  | Ok keep_until =>
      let '(routes, outcome) :=
        apply_versioned (ms_attachment_routes state) (ar_token_digest incoming) sequence
          (Some incoming) keep_until in
      (state <| ms_attachment_routes := routes |>, outcome)
  end.

Definition remove_attachment_route (self : MemoryCoordinator) (state : MemoryState) (now : DateTime)
    (sequence : ProjectionSequence) (recorded_at : DateTime) (token_digest : AttachmentTokenDigest)
    : MemoryState * result CoordinationError ProjectionApplyOutcome :=
  match retained_until recorded_at now (mc_tombstone_ttl self) with
  | Err e => (state, Err e)
  | Ok keep_until =>
      let '(routes, outcome) :=
        apply_versioned (ms_attachment_routes state) token_digest sequence None keep_until in
      (state <| ms_attachment_routes := routes |>, outcome)
  end.

Definition apply_replay (self : MemoryCoordinator) (state : MemoryState) (now : DateTime)
    (sequence : ProjectionSequence) (incoming : ReplayMarker)
    : MemoryState * result CoordinationError ProjectionApplyOutcome :=
  match retained_until (rm_expires_at incoming) now (mc_tombstone_ttl self) with
  | Err e => (state, Err e)
  | Ok keep_until =>
      let '(replay, outcome) :=
        apply_versioned (ms_replay state) (rm_digest incoming) sequence incoming keep_until in
      (state <| ms_replay := replay |>, outcome)
  end.

Definition apply_wakeup (self : MemoryCoordinator) (state : MemoryState) (now now' : DateTime)
    (sequence : ProjectionSequence) (worker_id : WorkerId) (reason : WakeupReason)
    : MemoryState * result CoordinationError ProjectionApplyOutcome :=
  match retained_until now now (mc_stream_ttl self) with
  | Err e => (state, Err e)
  | Ok keep_until =>
      let '(sequences, outcome) :=
        apply_versioned (ms_wakeup_sequences state) worker_id sequence reason keep_until in
      let state := state <| ms_wakeup_sequences := sequences |> in
      match outcome with
      | Ok ProjectionApplyOutcome.Applied =>
          let '(state, published) := publish_locked self state now' worker_id sequence reason in
          (state, published;; Ok ProjectionApplyOutcome.Applied)
      | _ => (state, outcome)
      end
  end.

(** ** The projection *)

(** The successive readings of the clock in one call. *)
Record Readings := { at_cleanup : DateTime; at_apply : DateTime; at_publish : DateTime }.

(** The [match &event.payload] of [apply], under the lock. *)
Definition apply_payload (self : MemoryCoordinator) (state : MemoryState) (r : Readings)
    (event : CoordinationEvent)
    : MemoryState * result CoordinationError ProjectionApplyOutcome :=
  let sequence := ev_sequence event in
  match ev_payload event with
  | Worker worker => apply_worker self state (at_apply r) sequence (ev_recorded_at event) worker
  | Route route => apply_route self state (at_apply r) sequence route
  | RouteRemoved call_id =>
      remove_route self state (at_apply r) sequence (ev_recorded_at event) call_id
  | AttachmentRoute route => apply_attachment_route self state (at_apply r) sequence route
  | AttachmentRouteRemoved token_digest =>
      remove_attachment_route self state (at_apply r) sequence (ev_recorded_at event) token_digest
  | Replay marker => apply_replay self state (at_apply r) sequence marker
  | WakeWorker worker_id reason =>
      apply_wakeup self state (at_apply r) (at_publish r) sequence worker_id reason
  end.

(** [<MemoryCoordinator as CoordinationProjection>::apply]. *)
Definition apply (self : MemoryCoordinator) (r : Readings) (event : CoordinationEvent)
    : MemoryCoordinator * result CoordinationError ProjectionApplyOutcome :=
  match (validate_event event;;
         reject_if (ev_deployment event !=? mc_deployment self)
           (InvalidInput "coordination deployment mismatch");;
         lock self) with
  | Err e => (self, Err e)
  | Ok state =>
      let '(state, outcome) :=
        apply_payload self (cleanup_locked state (at_cleanup r)) r event in
      (self <| mc_state := state |>, outcome)
  end.

(** [<MemoryCoordinator as WakeupPublisher>::publish_wakeup]. *)
Definition publish_wakeup (self : MemoryCoordinator) (r : Readings) (worker_id : WorkerId)
    (sequence : ProjectionSequence) (reason : WakeupReason)
    : MemoryCoordinator * result CoordinationError () :=
  match lock self with
  | Err e => (self, Err e)
  | Ok state =>
      let '(state, outcome) :=
        apply_wakeup self (cleanup_locked state (at_cleanup r)) (at_apply r) (at_publish r)
          sequence worker_id reason in
      (self <| mc_state := state |>, outcome;; Ok ())
  end.
End Methods.

(** ** Hints *)

(** The comparator of [worker_hints]. *)
Definition compare_workers (left right : WorkerCoordinationSnapshot) : comparison :=
  let left_load := u128_mul (ws_reserved_calls left) (ws_max_calls right) in
  let right_load := u128_mul (ws_reserved_calls right) (ws_max_calls left) in
  then_ (then_ (then_ (left_load ?= right_load)%N
    (ws_reserved_calls left ?= ws_reserved_calls right)%N)
    (wl_worker_id (ws_lease left) ?= wl_worker_id (ws_lease right)))
    (wl_fence (ws_lease right) ?= wl_fence (ws_lease left))%N.

(** The filter of [worker_hints]. *)
Definition selectable (now : DateTime) (request : WorkerSelectionRequest)
    (worker : WorkerCoordinationSnapshot) : bool :=
  (now <? ws_lease_expires_at worker) && negb (ws_draining worker)
  && (ws_reserved_calls worker <? ws_max_calls worker)%N
  && bool_decide (sr_required_capabilities request ⊆ ws_capabilities worker).

(** [state.workers.values()] visits the entries in the order of [values]. *)
Definition worker_hints
    (values : gmap WorkerId (Versioned WorkerCoordinationSnapshot) →
              list (Versioned WorkerCoordinationSnapshot))
    (self : MemoryCoordinator) (now : DateTime) (request : WorkerSelectionRequest)
    : MemoryCoordinator * result CoordinationError (list WorkerCoordinationSnapshot) :=
  match (validate_request request;; lock self) with
  | Err e => (self, Err e)
  | Ok state =>
      let state := cleanup_locked state now in
      let workers :=
        filter (λ worker, selectable now request worker = true)
          (map vs_value (values (ms_workers state))) in
      (self <| mc_state := state |>,
       Ok (take (N.to_nat (sr_limit request)) (sort_by compare_workers workers)))
  end.

(** The liveness test of [route_hint]. *)
Definition route_worker_live (state : MemoryState) (now : DateTime) (lease : WorkerLease) : bool :=
  is_some_and (λ worker, (ws_lease (vs_value worker) ==? lease)
                         && (now <? ws_lease_expires_at (vs_value worker)))
    (ms_workers state !! wl_worker_id lease).

Definition route_hint (self : MemoryCoordinator) (now : DateTime) (call_id : CallId)
    : MemoryCoordinator * result CoordinationError (option CallRouteHint) :=
  match lock self with
  | Err e => (self, Err e)
  | Ok state =>
      let state := cleanup_locked state now in
      (self <| mc_state := state |>,
       Ok (match ms_routes state !! call_id ≫= vs_value with
           | None => None
           | Some route =>
               if rh_expires_at route <=? now then None
               else if route_worker_live state now (rh_worker route) then Some route else None
           end))
  end.

(** The liveness test of [attachment_route_hint], which also refuses a draining worker. *)
Definition attachment_worker_live (state : MemoryState) (now : DateTime) (lease : WorkerLease)
    : bool :=
  is_some_and (λ worker, (ws_lease (vs_value worker) ==? lease)
                         && (now <? ws_lease_expires_at (vs_value worker))
                         && negb (ws_draining (vs_value worker)))
    (ms_workers state !! wl_worker_id lease).

Definition attachment_route_hint (self : MemoryCoordinator) (now : DateTime)
    (lookup : AttachmentRouteLookup)
    : MemoryCoordinator * result CoordinationError (option AttachmentRouteHint) :=
  match lock self with
  | Err e => (self, Err e)
  | Ok state =>
      let state := cleanup_locked state now in
      (self <| mc_state := state |>,
       Ok (match ms_attachment_routes state !! al_token_digest lookup ≫= vs_value with
           | None => None
           | Some route =>
               if (ar_expires_at route <=? now)
                  || (ar_transport route !=? al_transport lookup)
                  || (ar_tenant_binding route !=? al_tenant_binding lookup)
               then None
               else if attachment_worker_live state now (ar_worker route) then Some route else None
           end))
  end.

Definition replay_seen (self : MemoryCoordinator) (now : DateTime) (digest : ReplayDigest)
    : MemoryCoordinator * result CoordinationError bool :=
  match lock self with
  | Err e => (self, Err e)
  | Ok state =>
      let state := cleanup_locked state now in
      (self <| mc_state := state |>,
       Ok (is_some_and (λ entry, now <? rm_expires_at (vs_value entry)) (ms_replay state !! digest)))
  end.

(** ** Consumers *)

Record MemoryWakeupConsumer := {
  wc_worker_id : WorkerId;
  wc_group : rstr;
  wc_consumer : rstr;
  wc_poll_interval : Duration;
}.

Definition bad_name_byte (byte : Z) : bool := is_ascii_control byte || is_ascii_whitespace byte.

Definition validate_name (value : rstr) : result CoordinationError rstr :=
  if is_empty value || (128 <? len value) || existsb bad_name_byte (bytes value)
  then Err (InvalidInput "invalid consumer or group name")
  else Ok value.

Definition memory_message (entry : MemoryWakeupEntry) : WakeupMessage :=
  {| wm_entry_id := display_u64 (we_id entry) ++ str "-0";
     wm_sequence := we_sequence entry;
     wm_reason := we_reason entry |}.

(** [state.groups.entry(key).or_default()]. *)
Definition group_entry (state : MemoryState) (key : GroupKey) : MemoryConsumerGroup :=
  default MemoryConsumerGroup_default (ms_groups state !! key).

Definition put_group (state : MemoryState) (key : GroupKey) (group : MemoryConsumerGroup)
    : MemoryState :=
  state <| ms_groups := <[key := group]> (ms_groups state) |>.

(** The entries of a worker's stream, oldest first. *)
Definition stream_entries (state : MemoryState) (worker_id : WorkerId) : list MemoryWakeupEntry :=
  match ms_streams state !! worker_id with Some stream => st_entries stream | None => [] end.

Definition parse_entry_id (id : rstr) : result CoordinationError N :=
  digits ← ok_or (strip_suffix (str "-0") id) (InvalidInput "invalid memory stream ID");
  ok_or (parse_u64 digits) (InvalidInput "invalid memory stream ID").

(** [.collect::<Result<Vec<_>, _>>()]. *)
Fixpoint parse_entry_ids (ids : list rstr) : result CoordinationError (list N) :=
  match ids with
  | [] => Ok []
  | id :: ids => n ← parse_entry_id id; rest ← parse_entry_ids ids; Ok (n :: rest)
  end.

(** [.filter(|id| group.pending.remove(id).is_some()).count()]. *)
Fixpoint remove_pending (ids : list N) (pending : gmap N PendingWakeup)
    : gmap N PendingWakeup * N :=
  match ids with
  | [] => (pending, 0%N)
  | id :: ids =>
      let '(pending', count) := remove_pending ids (delete id pending) in
      (pending', if is_some (pending !! id) then (count + 1)%N else count)
  end.

Section Consumer.
Context `{Chrono}.

(** [MemoryCoordinator::wakeup_consumer]. *)
Definition wakeup_consumer (self : MemoryCoordinator) (now : DateTime) (worker_id : WorkerId)
    (group consumer : rstr) (poll_interval : Duration)
    : MemoryCoordinator * result CoordinationError MemoryWakeupConsumer :=
  match (validate_poll_interval poll_interval;;
         group ← validate_name group;
         consumer ← validate_name consumer;
         until ← retained_until now now (mc_stream_ttl self);
         state ← lock self;
         Ok (group, consumer, until, state)) with
  | Err e => (self, Err e)
  | Ok (group, consumer, until, state) =>
      let state := cleanup_locked state now in
      let key := (worker_id, group) in
      let state := put_group state key ((group_entry state key) <| cg_retained_until := Some until |>) in
      (self <| mc_state := state |>,
       Ok {| wc_worker_id := worker_id; wc_group := group; wc_consumer := consumer;
             wc_poll_interval := poll_interval |})
  end.

(** One iteration of the delivery loop of [take_ready]. *)
Definition deliver (consumer : rstr) (now : DateTime) (group : MemoryConsumerGroup)
    (entry : MemoryWakeupEntry) : MemoryConsumerGroup :=
  group <| cg_last_delivered := N.max (cg_last_delivered group) (we_id entry) |>
        <| cg_pending := <[we_id entry := {| pw_consumer := consumer; pw_delivered_at := now |}]>
                           (cg_pending group) |>.

Definition take_ready (coordinator : MemoryCoordinator) (self : MemoryWakeupConsumer)
    (now : DateTime) (count : N)
    : MemoryCoordinator * result CoordinationError (list WakeupMessage) :=
  match (until ← retained_until now now (mc_stream_ttl coordinator);
         state ← lock coordinator;
         Ok (until, state)) with
  | Err e => (coordinator, Err e)
  | Ok (until, state) =>
      let state := cleanup_locked state now in
      let key := (wc_worker_id self, wc_group self) in
      let last_delivered :=
        match ms_groups state !! key with Some group => cg_last_delivered group | None => 0%N end in
      let entries :=
        take (N.to_nat count)
          (filter (λ entry, (last_delivered < we_id entry)%N)
             (stream_entries state (wc_worker_id self))) in
      let group := (group_entry state key) <| cg_retained_until := Some until |> in
      let group := fold_left (deliver (wc_consumer self) now) entries group in
      (coordinator <| mc_state := put_group state key group |>, Ok (map memory_message entries))
  end.

(** [usize::clamp]. *)
Definition clamp (n lo hi : N) : N := N.max lo (N.min n hi).

(** [<MemoryWakeupConsumer as WakeupConsumer>::poll].  Each element of [wakeups] is a notification
    that arrives before the deadline: the coordinator as other tasks have left it by then, and
    the reading of the clock.  The deadline passes when they run out. *)
Fixpoint poll_loop (coordinator : MemoryCoordinator) (self : MemoryWakeupConsumer) (now : DateTime)
    (count : N) (wakeups : list ((MemoryCoordinator → MemoryCoordinator) * DateTime))
    : MemoryCoordinator * WakeupPoll :=
  let '(coordinator, ready) := take_ready coordinator self now count in
  match ready with
  | Ok (message :: messages) =>
      (coordinator, {| wp_messages := message :: messages;
                       wp_database_poll_reason := DatabasePollReason.Wakeup |})
  | Err _ =>
      (coordinator, {| wp_messages := [];
                       wp_database_poll_reason := DatabasePollReason.CoordinationUnavailable |})
  | Ok [] =>
      match wakeups with
      | [] => (coordinator, {| wp_messages := [];
                               wp_database_poll_reason := DatabasePollReason.IntervalElapsed |})
      | (others, now) :: wakeups => poll_loop (others coordinator) self now count wakeups
      end
  end.

Definition poll (coordinator : MemoryCoordinator) (self : MemoryWakeupConsumer) (now : DateTime)
    (count : N) (wakeups : list ((MemoryCoordinator → MemoryCoordinator) * DateTime))
    : MemoryCoordinator * WakeupPoll :=
  poll_loop coordinator self now (clamp count 1 1024) wakeups.

(** The lazy [filter(..).take(count)] over the pending deliveries of [auto_claim]; [None] is the
    panic of [DateTime + TimeDelta] when the sum is out of range. *)
Fixpoint eligible_loop (self : MemoryWakeupConsumer) (now : DateTime) (min_idle : Duration)
    (pending : list (N * PendingWakeup)) (count : nat) : option (list N) :=
  match count, pending with
  | O, _ | _, [] => Some []
  | S rest, (id, p) :: pending =>
      if pw_consumer p !=? wc_consumer self then
        due ← checked_add_signed (pw_delivered_at p) min_idle;
        if due <=? now
        then ids ← eligible_loop self now min_idle pending rest; Some (id :: ids)
        else eligible_loop self now min_idle pending count
      else eligible_loop self now min_idle pending count
  end.

(** The loop that reassigns the claimed deliveries. *)
Definition reclaim (consumer : rstr) (now : DateTime) (group : MemoryConsumerGroup)
    (entry : MemoryWakeupEntry) : MemoryConsumerGroup :=
  match cg_pending group !! we_id entry with
  | Some _ =>
      group <| cg_pending := <[we_id entry := {| pw_consumer := consumer; pw_delivered_at := now |}]>
                               (cg_pending group) |>
  | None => group
  end.

(** [auto_claim]; [iter] is the order in which the pending map is visited, and a result of [None]
    is a panic, which poisons the mutex. *)
Definition auto_claim (iter : gmap N PendingWakeup → list (N * PendingWakeup))
    (coordinator : MemoryCoordinator) (self : MemoryWakeupConsumer) (now : DateTime)
    (min_idle : Duration) (count : N)
    : MemoryCoordinator * option (result CoordinationError (list WakeupMessage)) :=
  match (reject_if (is_zero min_idle || (count =? 0)%N || (1024 <? count)%N)
           (InvalidInput "invalid wakeup auto-claim request");;
         min_idle ← ok_or (from_std min_idle) (InvalidInput "auto-claim idle is too large");
         state ← lock coordinator;
         Ok (min_idle, state)) with
  | Err e => (coordinator, Some (Err e))
  | Ok (min_idle, state) =>
      let state := cleanup_locked state now in
      let key := (wc_worker_id self, wc_group self) in
      match retained_until now now (mc_stream_ttl coordinator) with
      | Err e => (coordinator <| mc_state := state |>, Some (Err e))
      | Ok until =>
          let group := (group_entry state key) <| cg_retained_until := Some until |> in
          let state := put_group state key group in
          match eligible_loop self now min_idle (iter (cg_pending group)) (N.to_nat count) with
          | None => (coordinator <| mc_state := state |> <| mc_poisoned := true |>, None)
          | Some eligible =>
              let entries :=
                filter (λ entry, we_id entry ∈ eligible)
                  (stream_entries state (wc_worker_id self)) in
              let group := fold_left (reclaim (wc_consumer self) now) entries group in
              (coordinator <| mc_state := put_group state key group |>,
               Some (Ok (map memory_message entries)))
          end
      end
  end.

(** [acknowledge]. *)
Definition acknowledge_wakeups (coordinator : MemoryCoordinator) (self : MemoryWakeupConsumer)
    (now : DateTime) (entry_ids : list rstr)
    : MemoryCoordinator * result CoordinationError N :=
  match (ids ← parse_entry_ids entry_ids; state ← lock coordinator; Ok (ids, state)) with
  | Err e => (coordinator, Err e)
  | Ok (ids, state) =>
      let state := cleanup_locked state now in
      let key := (wc_worker_id self, wc_group self) in
      let group := group_entry state key in
      match retained_until now now (mc_stream_ttl coordinator) with
      | Err e => (coordinator <| mc_state := put_group state key group |>, Err e)
      | Ok until =>
          let '(pending, count) := remove_pending ids (cg_pending group) in
          let group := group <| cg_retained_until := Some until |> <| cg_pending := pending |> in
          (coordinator <| mc_state := put_group state key group |>, Ok count)
      end
  end.
End Consumer.
