(* ===== verification/CoordInv.v ===== *)
(** The invariant of the standalone coordinator and its preservation by every method. *)

From S2P Require Import Prelude RustText DomainTypes CoordModel CoordMemory.
From stdpp Require Import options.

(** ** The invariant *)

Definition entry_ids (entries : list MemoryWakeupEntry) : list N := map we_id entries.

(** A projected worker sits under its own identifier with a capacity that passed validation. *)
Definition worker_ok (id : WorkerId) (entry : Versioned WorkerCoordinationSnapshot) : Prop :=
  let w := vs_value entry in
  wl_worker_id (ws_lease w) = id ∧ (0 < ws_max_calls w)%N ∧
  (ws_reserved_calls w ≤ ws_max_calls w)%N.

Definition route_ok (id : CallId) (entry : Versioned (option CallRouteHint)) : Prop :=
  ∀ route, vs_value entry = Some route → rh_call_id route = id.

Definition attachment_ok (digest : AttachmentTokenDigest) (entry : Versioned (option AttachmentRouteHint))
    : Prop :=
  ∀ route, vs_value entry = Some route → ar_token_digest route = digest.

(** A stream is bounded and its identifiers increase up to the last one issued. *)
Record stream_ok (max next : N) (stream : MemoryWakeupStream) : Prop := {
  so_sorted : StronglySorted N.lt (entry_ids (st_entries stream));
  so_issued : Forall (λ id, (id ≤ next)%N) (entry_ids (st_entries stream));
  so_bounded : (N.of_nat (length (st_entries stream)) ≤ max)%N;
}.

(** What a group still awaits was delivered to it and is still in the stream. *)
Record group_ok (next : N) (ids : list N) (group : MemoryConsumerGroup) : Prop := {
  go_cursor : (cg_last_delivered group ≤ next)%N;
  go_pending : ∀ id p, cg_pending group !! id = Some p →
    (id ≤ cg_last_delivered group)%N ∧ id ∈ ids;
}.

Record state_ok (max : N) (s : MemoryState) : Prop := {
  ok_workers : map_Forall worker_ok (ms_workers s);
  ok_routes : map_Forall route_ok (ms_routes s);
  ok_attachments : map_Forall attachment_ok (ms_attachment_routes s);
  ok_streams : map_Forall (λ _, stream_ok max (ms_next_stream_id s)) (ms_streams s);
  ok_groups : map_Forall (λ key, group_ok (ms_next_stream_id s)
                (entry_ids (stream_entries s key.1))) (ms_groups s);
  ok_next : (ms_next_stream_id s ≤ Z.to_N U64_MAX)%N;
}.

Definition coordinator_ok (c : MemoryCoordinator) : Prop :=
  (0 < mc_max_stream_len c)%N ∧ state_ok (mc_max_stream_len c) (mc_state c).

(** ** Cleanup *)

Lemma retain_live_Some {K} `{Countable K} {V} now (m : gmap K (Versioned V)) k e :
  retain_live now m !! k = Some e ↔ m !! k = Some e ∧ now < vs_retained_until e.
Proof. unfold retain_live. by rewrite map_lookup_filter_Some. Qed.

Lemma retain_live_Forall {K} `{Countable K} {V} now (m : gmap K (Versioned V)) P :
  map_Forall P m → map_Forall P (retain_live now m).
Proof. intros Hm k e [Hk _]%retain_live_Some. by apply Hm. Qed.

Lemma retain_live_idemp {K} `{Countable K} {V} now (m : gmap K (Versioned V)) :
  retain_live now (retain_live now m) = retain_live now m.
Proof. apply map_filter_id. by intros k e [_ ?]%retain_live_Some. Qed.

Lemma cleanup_stream s now w :
  ms_streams (cleanup_locked s now) !! w =
  if stream_expired (ms_streams s) now w then None else ms_streams s !! w.
Proof.
  cbn. unfold stream_expired. rewrite map_lookup_filter.
  destruct (ms_streams s !! w) as [st|]; cbn; [|done].
  destruct (Z.leb_spec (st_retained_until st) now); case_guard; try lia; done.
Qed.

Lemma cleanup_group s now key g :
  ms_groups (cleanup_locked s now) !! key = Some g ↔
  ms_groups s !! key = Some g ∧ group_live (ms_streams s) now key g = true.
Proof. cbn. by rewrite map_lookup_filter_Some. Qed.

Lemma cleanup_ok max s now : state_ok max s → state_ok max (cleanup_locked s now).
Proof.
  intros [W R A S G N]. split; try (by apply retain_live_Forall); try done.
  - intros w st Hst. rewrite cleanup_stream in Hst. case_match; [done|]. by apply (S w).
  - intros key g [Hg Hl]%cleanup_group. specialize (G _ _ Hg) as [Gc Gp].
    split; [done|]. intros id p Hp. destruct (Gp id p Hp) as [? Hin]. split; [done|].
    unfold group_live in Hl. apply andb_true_iff in Hl as [Hl _]. apply negb_true_iff in Hl.
    unfold stream_entries in *. by rewrite cleanup_stream, Hl.
Qed.

(** ** Versioned writes *)

Lemma apply_versioned_Forall {K} `{Countable K} {V} `{EqDecision V} (m : gmap K (Versioned V))
    k sq v u P :
  map_Forall P m → P k (Build_Versioned sq v u) → map_Forall P (apply_versioned m k sq v u).1.
Proof.
  intros Hm Hk. unfold apply_versioned. repeat case_match; cbn [fst]; try done;
    by apply map_Forall_insert_2.
Qed.

(** ** Publication *)

Lemma forget_pending_lookup w id groups key g :
  forget_pending w id groups !! key = Some g ↔
  ∃ g0, groups !! key = Some g0 ∧
    g = if key.1 ==? w then g0 <| cg_pending := delete id (cg_pending g0) |> else g0.
Proof.
  unfold forget_pending. rewrite map_lookup_imap.
  destruct (groups !! key) as [g0|]; cbn; naive_solver.
Qed.

(** Trimming keeps the last [max] entries and forgets the pending deliveries of the others. *)
Lemma trim_stream_spec w max entries groups entries' groups' :
  trim_stream w max entries groups = (entries', groups') →
  (∃ dropped, entries = dropped ++ entries' ∧
     ∀ key g', groups' !! key = Some g' → ∃ g, groups !! key = Some g ∧
       cg_last_delivered g' = cg_last_delivered g ∧
       cg_retained_until g' = cg_retained_until g ∧
       ∀ id p, cg_pending g' !! id = Some p →
         cg_pending g !! id = Some p ∧ (key.1 = w → id ∉ entry_ids dropped)) ∧
  (N.of_nat (length entries') ≤ max)%N ∧
  (N.of_nat (length entries') = N.min max (N.of_nat (length entries)))%N.
Proof.
  revert groups. induction entries as [|e entries IH]; intros groups; cbn [trim_stream].
  { intros [= <- <-]. split; [|cbn; lia]. exists []. split; [done|]. intros key g Hg.
    exists g. split_and!; auto. intros. split; [done|]. intros _. apply not_elem_of_nil. }
  destruct (N.ltb_spec max (N.of_nat (length (e :: entries)))) as [Hlt|Hge].
  - intros Ht. destruct (IH _ Ht) as [(dropped & -> & Hg) [Hl Hm]].
    split; [|split; [done|]; cbn in *; lia].
    exists (e :: dropped). split; [done|]. intros key g' Hg'.
    destruct (Hg _ _ Hg') as (g1 & Hf & Hd & Hr & Hp).
    apply forget_pending_lookup in Hf as (g & Hf & ->). exists g.
    case_bool_decide as Hk; cbn in *; (split_and!; [done..|]); intros id p Hid;
      destruct (Hp id p Hid) as [Hin Hnot]; [|by split].
    apply lookup_delete_Some in Hin as [Hne Hin]. split; [done|]. intros _.
    unfold entry_ids. cbn. apply not_elem_of_cons. split; [done|auto].
  - intros [= <- <-]. split; [|split; lia]. exists []. split; [done|]. intros key g Hg.
    exists g. split_and!; auto. intros. split; [done|]. intros _. apply not_elem_of_nil.
Qed.

Lemma entry_ids_app l1 l2 : entry_ids (l1 ++ l2) = entry_ids l1 ++ entry_ids l2.
Proof. apply map_app. Qed.

Lemma StronglySorted_snoc (l : list N) n :
  StronglySorted N.lt l → Forall (λ id, (id < n)%N) l → StronglySorted N.lt (l ++ [n]).
Proof.
  induction 1 as [|x l Hs IH Hx]; cbn; [repeat constructor|]. intros Hf.
  apply Forall_cons in Hf as [Hx' Hf]. constructor; [auto|].
  apply Forall_app. split; [done|]. by constructor.
Qed.

Lemma StronglySorted_suffix (l1 l2 : list N) :
  StronglySorted N.lt (l1 ++ l2) → StronglySorted N.lt l2.
Proof. induction l1; [done|]. cbn. inversion 1; subst. auto. Qed.

Section Preservation.
Context `{Chrono}.

Lemma stream_entries_insert s w st key :
  stream_entries (s <| ms_streams := <[w := st]> (ms_streams s) |>) key =
  if w ==? key then st_entries st else stream_entries s key.
Proof.
  unfold stream_entries. cbn. case_bool_decide; subst;
    [by rewrite lookup_insert_eq|by rewrite lookup_insert_ne].
Qed.

Lemma stream_ok_mono max n n' st : (n ≤ n')%N → stream_ok max n st → stream_ok max n' st.
Proof. intros Hn []. split; auto. eapply Forall_impl; [done|]. cbn. lia. Qed.

Lemma publish_locked_ok c s now w sq reason s' res :
  state_ok (mc_max_stream_len c) s →
  publish_locked c s now w sq reason = (s', res) → state_ok (mc_max_stream_len c) s'.
Proof.
  intros Hs. unfold publish_locked.
  destruct (retained_until now now (mc_stream_ttl c)) as [until|]; [|by intros [= <- _]].
  destruct (N.ltb_spec (Z.to_N U64_MAX) (ms_next_stream_id s + 1)); [by intros [= <- _]|].
  set (next := (ms_next_stream_id s + 1)%N) in *.
  change (match ms_streams s !! w with Some _ => _ | None => _ end) with (stream_entries s w).
  set (entry := {| we_id := next; we_sequence := sq; we_reason := reason |}).
  destruct (trim_stream _ _ _ _) as [entries groups] eqn:Et. intros [= <- _].
  apply trim_stream_spec in Et as [(dropped & Hd & Hg) [Hl _]]. destruct Hs as [W R A S G N].
  assert (Hold : StronglySorted N.lt (entry_ids (stream_entries s w)) ∧
                 Forall (λ id, (id ≤ ms_next_stream_id s)%N) (entry_ids (stream_entries s w))).
  { unfold stream_entries. destruct (ms_streams s !! w) as [st|] eqn:E; [|split; constructor].
    destruct (S _ _ E). done. }
  assert (Hids : entry_ids (stream_entries s w) ++ [next] = entry_ids dropped ++ entry_ids entries).
  { by rewrite <- entry_ids_app, <- Hd, entry_ids_app. }
  destruct Hold as [Hsorted Hissued].
  split; try done.
  - apply map_Forall_insert_2.
    + split; cbn; [| |done].
      * apply (StronglySorted_suffix (entry_ids dropped)).
        change (map we_id entries) with (entry_ids entries). rewrite <- Hids. apply StronglySorted_snoc; [done|].
        eapply Forall_impl; [exact Hissued|]. cbn. lia.
      * assert (Forall (λ id, (id ≤ next)%N) (entry_ids dropped ++ entry_ids entries)) as Hf.
        { rewrite <- Hids. apply Forall_app. split; [|by repeat constructor].
          eapply Forall_impl; [exact Hissued|]. cbn. lia. }
        by apply Forall_app in Hf as [_ ?].
    + intros k st Hst. eapply stream_ok_mono; [|by apply (S k)]. cbn. lia.
  - intros key g' Hg'. destruct (Hg _ _ Hg') as (g & Hgs & Hcur & _ & Hp).
    destruct (G _ _ Hgs) as [Gc Gp]. split; [cbn; lia|]. intros id p Hid.
    destruct (Hp _ _ Hid) as [Hid' Hnot]. destruct (Gp _ _ Hid') as [Hle Hin].
    split; [lia|]. unfold stream_entries in *. cbn. destruct (decide (key.1 = w)) as [E|E].
    + rewrite E, lookup_insert_eq. cbn. rewrite E in Hin.
      specialize (Hnot E).
      assert (id ∈ entry_ids dropped ++ entry_ids entries) as Hall.
      { rewrite <- Hids. apply elem_of_app. by left. }
      apply elem_of_app in Hall as [?|?]; done.
    + by rewrite lookup_insert_ne by done.
Qed.

Lemma apply_worker_ok c s now sq at_ w s' res :
  state_ok (mc_max_stream_len c) s → apply_worker c s now sq at_ w = (s', res) →
  state_ok (mc_max_stream_len c) s'.
Proof.
  intros Hs Ha. unfold apply_worker in Ha.
  destruct (validate_worker w) as [u|] eqn:Ev; cbn in Ha; [|by injection Ha as <- _].
  apply validate_worker_ok in Ev.
  assert (Hw : ∀ k, state_ok (mc_max_stream_len c)
    (s <| ms_workers := <[wl_worker_id (ws_lease w) := Build_Versioned sq w k]> (ms_workers s) |>)).
  { intros k. destruct Hs as [W R A S G N]. split; try done.
    apply map_Forall_insert_2; [by split|done]. }
  repeat case_match; simplify_eq; auto.
Qed.

Lemma apply_payload_ok c s r e s' res :
  state_ok (mc_max_stream_len c) s → apply_payload c s r e = (s', res) →
  state_ok (mc_max_stream_len c) s'.
Proof.
  intros Hs Ha. unfold apply_payload in Ha.
  assert (Hr : ∀ m : gmap CallId (Versioned (option CallRouteHint)),
    map_Forall route_ok m → state_ok (mc_max_stream_len c) (s <| ms_routes := m |>))
    by (intros; destruct Hs; by split).
  assert (Har : ∀ m : gmap AttachmentTokenDigest (Versioned (option AttachmentRouteHint)),
    map_Forall attachment_ok m → state_ok (mc_max_stream_len c) (s <| ms_attachment_routes := m |>))
    by (intros; destruct Hs; by split).
  assert (Hv : ∀ m, state_ok (mc_max_stream_len c) (s <| ms_wakeup_sequences := m |>))
    by (intros; destruct Hs; by split).
  destruct (ev_payload e); try (by eapply apply_worker_ok);
    unfold apply_route, remove_route, apply_attachment_route, remove_attachment_route,
      apply_replay, apply_wakeup in Ha;
    destruct (retained_until _ _ _); try (by injection Ha as <- _);
    destruct (apply_versioned _ _ _ _ _) as [m out] eqn:Em;
    apply (f_equal fst) in Em; cbn [fst] in Em; subst m.
  1-2: injection Ha as <- _; apply Hr, apply_versioned_Forall; [apply Hs|by intros ? [= <-]].
  1-2: injection Ha as <- _; apply Har, apply_versioned_Forall; [apply Hs|by intros ? [= <-]].
  - injection Ha as <- _. destruct Hs; by split.
  - destruct out as [[]|]; try (by injection Ha as <- _).
    destruct (publish_locked _ _ _ _ _ _) as [s1 pub] eqn:Ep. injection Ha as <- _.
    eapply publish_locked_ok; [|exact Ep]. apply Hv.
Qed.

(** A group rewritten over a state with the same streams. *)
Lemma put_group_ok max s (key : GroupKey) g :
  state_ok max s → group_ok (ms_next_stream_id s) (entry_ids (stream_entries s key.1)) g →
  state_ok max (put_group s key g).
Proof.
  intros [W R A S G N] Hg. split; try done. by apply map_Forall_insert_2.
Qed.

Lemma group_entry_ok max s (key : GroupKey) :
  state_ok max s → group_ok (ms_next_stream_id s) (entry_ids (stream_entries s key.1)) (group_entry s key).
Proof.
  intros Hs. unfold group_entry. destruct (ms_groups s !! key) as [g|] eqn:E; cbn.
  - exact (ok_groups _ _ Hs _ _ E).
  - split; cbn; [lia|]. intros id p Hp. by rewrite lookup_empty in Hp.
Qed.

Lemma group_ok_retained n ids g u : group_ok n ids g → group_ok n ids (g <| cg_retained_until := u |>).
Proof. intros []. by split. Qed.

Lemma deliver_ok n ids consumer now g entries :
  group_ok n ids g → Forall (λ e, (we_id e ≤ n)%N ∧ we_id e ∈ ids) entries →
  group_ok n ids (fold_left (deliver consumer now) entries g).
Proof.
  intros Hg Hf. revert g Hg. induction Hf as [|e entries [Hn Hin] Hf IH]; intros g Hg; [done|].
  cbn. apply IH. destruct Hg as [Gc Gp]. split; cbn; [lia|].
  intros id p [[<- <-]|[Hne Hp]]%lookup_insert_Some; [split; [lia|done]|].
  destruct (Gp _ _ Hp). split; [lia|done].
Qed.

Lemma reclaim_ok n ids consumer now g entries :
  group_ok n ids g → group_ok n ids (fold_left (reclaim consumer now) entries g).
Proof.
  revert g. induction entries as [|e entries IH]; intros g Hg; [done|]. cbn. apply IH.
  unfold reclaim. destruct (cg_pending g !! we_id e) eqn:E; [|done].
  destruct Hg as [Gc Gp]. split; cbn; [done|].
  intros id q [[<- <-]|[Hne Hp]]%lookup_insert_Some; eauto.
Qed.

Lemma remove_pending_lookup ids pending pending' n :
  remove_pending ids pending = (pending', n) →
  ∀ id p, pending' !! id = Some p ↔ pending !! id = Some p ∧ id ∉ ids.
Proof.
  revert pending pending' n. induction ids as [|i ids IH]; intros pending pending' n; cbn.
  { intros [= <- <-] id p. rewrite elem_of_nil. tauto. }
  destruct (remove_pending ids (delete i pending)) as [q m] eqn:E. intros [= <- _] id p.
  rewrite (IH _ _ _ E), lookup_delete_Some, not_elem_of_cons. naive_solver.
Qed.

Lemma stream_entries_issued max s w e :
  state_ok max s → e ∈ stream_entries s w →
  (we_id e ≤ ms_next_stream_id s)%N ∧ we_id e ∈ entry_ids (stream_entries s w).
Proof.
  intros Hs He. assert (Hin : we_id e ∈ entry_ids (stream_entries s w)).
  { unfold entry_ids. apply list_elem_of_fmap. eauto. }
  split; [|done]. unfold stream_entries in *. destruct (ms_streams s !! w) as [st|] eqn:E.
  - pose proof (so_issued _ _ _ (ok_streams _ _ Hs _ _ E)) as Hf.
    rewrite Forall_forall in Hf. by apply Hf.
  - by apply elem_of_nil in He.
Qed.

(** ** Methods *)

Lemma lock_Ok c s : lock c = Ok s ↔ mc_poisoned c = false ∧ s = mc_state c.
Proof. unfold lock. destruct (mc_poisoned c); naive_solver. Qed.

(** The state a method stores in place of a valid one. *)
Lemma coordinator_ok_set c s :
  coordinator_ok c → state_ok (mc_max_stream_len c) s → coordinator_ok (c <| mc_state := s |>).
Proof. intros [Hp _] Hs. by split. Qed.

Lemma cleaned_ok c s now :
  coordinator_ok c → lock c = Ok s → state_ok (mc_max_stream_len c) (cleanup_locked s now).
Proof. intros [_ Hs] [_ ->]%lock_Ok. by apply cleanup_ok. Qed.

(** Any call of a method of the coordinator or of one of its consumers. *)
Inductive coord_step : MemoryCoordinator → MemoryCoordinator → Prop :=
| step_apply c r e : coord_step c (apply c r e).1
| step_publish c r w sq reason : coord_step c (publish_wakeup c r w sq reason).1
| step_worker_hints values c now request : coord_step c (worker_hints values c now request).1
| step_route_hint c now id : coord_step c (route_hint c now id).1
| step_attachment_hint c now lookup : coord_step c (attachment_route_hint c now lookup).1
| step_replay_seen c now digest : coord_step c (replay_seen c now digest).1
| step_consumer c now w group consumer interval :
    coord_step c (wakeup_consumer c now w group consumer interval).1
| step_take_ready c consumer now count : coord_step c (take_ready c consumer now count).1
| step_auto_claim iter c consumer now idle count :
    coord_step c (auto_claim iter c consumer now idle count).1
| step_acknowledge c consumer now ids : coord_step c (acknowledge_wakeups c consumer now ids).1.

Lemma take_ready_entries_ok max s w lo n :
  state_ok max s →
  Forall (λ e, (we_id e ≤ ms_next_stream_id s)%N ∧ we_id e ∈ entry_ids (stream_entries s w))
    (take n (filter (λ e, (lo < we_id e)%N) (stream_entries s w))).
Proof.
  intros Hs. apply Forall_take, Forall_forall. intros e [_ He]%list_elem_of_filter.
  by eapply stream_entries_issued.
Qed.

Ltac coord_method :=
  match goal with
  | |- coordinator_ok (fst (match ?x with Ok _ => _ | Err _ => _ end)) =>
      let E := fresh "E" in destruct x eqn:E; [|done]
  end;
  repeat match goal with
  | E : _ ≫= _ = Ok _ |- _ => apply result_bind_ok in E as (? & ? & E)
  | E : Ok _ = Ok _ |- _ => injection E as <-
  end.

Lemma auto_claim_ok iter c consumer now idle count :
  coordinator_ok c → coordinator_ok (auto_claim iter c consumer now idle count).1.
Proof using All.
  intros Hc.
  unfold auto_claim. coord_method.
  assert (Hs : ∀ (key : GroupKey) u, let s := cleanup_locked x1 now in
    group_ok (ms_next_stream_id s) (entry_ids (stream_entries s key.1))
      (group_entry s key) <| cg_retained_until := u |>).
  { intros key u. apply group_ok_retained. by eapply group_entry_ok, cleaned_ok. }
  destruct (retained_until _ _ _) as [until|]; cbn [fst];
    [|apply coordinator_ok_set; [done|by eapply cleaned_ok]].
  destruct (eligible_loop _ _ _ _ _) as [el|]; cbn [fst].
  - apply coordinator_ok_set; [done|].
    apply put_group_ok; [apply put_group_ok; [by eapply cleaned_ok|apply Hs]|].
    apply reclaim_ok, Hs.
  - destruct Hc as [Hp Hc]. split; [done|]. cbn.
    apply put_group_ok; [eapply (cleaned_ok c); [by split|done]|apply Hs].
Qed.

Lemma acknowledge_wakeups_ok c consumer now ids :
  coordinator_ok c → coordinator_ok (acknowledge_wakeups c consumer now ids).1.
Proof using All.
  intros Hc.
  unfold acknowledge_wakeups. coord_method.
  destruct (retained_until _ _ _) as [until|]; cbn [fst].
  - destruct (remove_pending _ _) as [pending n] eqn:Er. cbn [fst].
    apply coordinator_ok_set; [done|]. apply put_group_ok; [by eapply cleaned_ok|].
    pose proof (group_entry_ok _ _ (wc_worker_id consumer, wc_group consumer)
      (cleaned_ok c _ now Hc ltac:(eassumption))) as [Gc Gp].
    split; cbn; [exact Gc|]. intros id p Hp. apply (remove_pending_lookup _ _ _ _ Er) in Hp as [Hp _].
    by eapply Gp.
  - apply coordinator_ok_set; [done|]. apply put_group_ok; [by eapply cleaned_ok|].
    by eapply group_entry_ok, cleaned_ok.
Qed.

Lemma coord_step_ok c c' : coordinator_ok c → coord_step c c' → coordinator_ok c'.
Proof.
  intros Hc Hst. destruct Hst.
  - unfold apply. coord_method. destruct (apply_payload _ _ _ _) as [s' out] eqn:Ea. cbn [fst].
    apply coordinator_ok_set; [done|]. eapply apply_payload_ok; [|exact Ea]. by eapply cleaned_ok.
  - unfold publish_wakeup. coord_method.
    destruct (apply_wakeup _ _ _ _ _ _ _) as [s' out] eqn:Ea. cbn [fst].
    apply coordinator_ok_set; [done|].
    eapply (apply_payload_ok c _ r {| ev_deployment := []; ev_sequence := sq;
      ev_payload := WakeWorker w reason; ev_recorded_at := 0 |}); [|exact Ea]. by eapply cleaned_ok.
  - unfold worker_hints. coord_method. apply coordinator_ok_set; [done|by eapply cleaned_ok].
  - unfold route_hint. coord_method. apply coordinator_ok_set; [done|by eapply cleaned_ok].
  - unfold attachment_route_hint. coord_method. apply coordinator_ok_set; [done|by eapply cleaned_ok].
  - unfold replay_seen. coord_method. apply coordinator_ok_set; [done|by eapply cleaned_ok].
  - unfold wakeup_consumer. coord_method. cbn [fst].
    apply coordinator_ok_set; [done|]. apply put_group_ok; [by eapply cleaned_ok|].
    apply group_ok_retained. by eapply group_entry_ok, cleaned_ok.
  - unfold take_ready. coord_method. cbn [fst].
    apply coordinator_ok_set; [done|]. apply put_group_ok; [by eapply cleaned_ok|].
    apply deliver_ok; [|by eapply take_ready_entries_ok, cleaned_ok].
    apply group_ok_retained. by eapply group_entry_ok, cleaned_ok.
  - by apply auto_claim_ok.
  - by apply acknowledge_wakeups_ok.
Qed.

Lemma coord_steps_ok c c' : coordinator_ok c → rtc coord_step c c' → coordinator_ok c'.
Proof. intros Hc Hs. induction Hs; eauto using coord_step_ok. Qed.

Lemma new_coordinator_ok d n c : MemoryCoordinator_new d n = Ok c → coordinator_ok c.
Proof.
  unfold MemoryCoordinator_new. destruct (_ || _) eqn:E; [done|]. intros [= <-]. bool_hyps.
  split; [cbn; lia|]. split; [apply map_Forall_empty..|]. cbn. lia.
Qed.
End Preservation.
