(* ===== verification/CoordTheorems.v ===== *)
(** What the projections of the standalone coordinator guarantee: convergence whatever the delivery
    order, worker fencing, fail-closed attachment hints and permanent removals. *)

From S2P Require Import Prelude RustText DomainTypes CoordModel CoordMemory CoordInv.
From stdpp Require Import options.

(** ** Fixtures *)

Definition sample_readings (now : DateTime) : Readings :=
  {| at_cleanup := now; at_apply := now; at_publish := now |}.

Definition sample_event (sequence : ProjectionSequence) (payload : CoordinationPayload) : CoordinationEvent :=
  {| ev_deployment := str "prod"; ev_sequence := sequence; ev_payload := payload;
     ev_recorded_at := 1 |}.

Definition sample_worker (id : WorkerId) (reserved : N) (draining : bool) : WorkerCoordinationSnapshot :=
  {| ws_lease := {| wl_worker_id := id; wl_fence := 1%N |}; ws_max_calls := 4%N;
     ws_reserved_calls := reserved; ws_draining := draining; ws_capabilities := ∅;
     ws_lease_expires_at := 100 |}.

Definition sample_attachment : AttachmentRouteHint :=
  {| ar_token_digest := 9; ar_worker := {| wl_worker_id := 7; wl_fence := 1%N |};
     ar_route_catalog_fingerprint := None; ar_transport := AttachmentTransport.Sip;
     ar_tenant_binding := 5; ar_expires_at := 50 |}.

Definition sample_coordinator : MemoryCoordinator :=
  {| mc_deployment := str "prod"; mc_max_stream_len := 2%N;
     mc_tombstone_ttl := DEFAULT_TOMBSTONE_TTL; mc_stream_ttl := DEFAULT_STREAM_TTL;
     mc_state := MemoryState_default; mc_poisoned := false |}.

Fixpoint apply_all `{Chrono} (c : MemoryCoordinator) (events : list (Readings * CoordinationEvent))
    : MemoryCoordinator :=
  match events with
  | [] => c
  | (r, e) :: events => apply_all (apply c r e).1 events
  end.

Definition sample_projected : MemoryCoordinator :=
  @apply_all chrono_sample sample_coordinator
    [(sample_readings 2, sample_event 1%N (Worker (sample_worker 7 1%N false)));
     (sample_readings 3, sample_event 2%N (Worker (sample_worker 8 0%N false)));
     (sample_readings 4, sample_event 3%N (AttachmentRoute sample_attachment));
     (sample_readings 5, sample_event 4%N (WakeWorker 7 WakeupReason.Effects));
     (sample_readings 5, sample_event 5%N (WakeWorker 7 WakeupReason.Controls));
     (sample_readings 5, sample_event 6%N (WakeWorker 7 WakeupReason.Deadlines))].

Definition sample_consumer : MemoryWakeupConsumer :=
  {| wc_worker_id := 7; wc_group := str "group"; wc_consumer := str "one"; wc_poll_interval := 1 |}.

Lemma sample_coordinator_ok : coordinator_ok sample_coordinator.
Proof. by apply (new_coordinator_ok (str "prod") 2%N). Qed.

Lemma apply_all_steps `{Chrono} c events : rtc coord_step c (apply_all c events).
Proof.
  revert c. induction events as [|[r e] events IH]; intros c; cbn; [done|].
  eapply rtc_l; [apply step_apply|apply IH].
Qed.

Lemma sample_projected_ok : coordinator_ok sample_projected.
Proof. eapply coord_steps_ok; [apply sample_coordinator_ok|apply apply_all_steps]. Qed.

(** ** Reachable coordinators *)

(** Whatever calls reach it, a coordinator keeps its invariant: each projected worker, route
    and attachment is stored under its own key, worker capacities passed validation, every wakeup
    stream is bounded with strictly increasing identifiers, and a consumer group only awaits
    acknowledgement of entries it was given and that the stream still holds. *)
Theorem reachable_coordinator_is_ok `{Chrono} (deployment : DeploymentId) (max : N)
    (c c' : MemoryCoordinator) :
  MemoryCoordinator_new deployment max = Ok c → rtc coord_step c c' → coordinator_ok c'.
Proof. intros Hn. apply coord_steps_ok. by eapply new_coordinator_ok. Qed.

Lemma reachable_coordinator_is_ok_witness : coordinator_ok sample_projected.
Proof.
  apply (@reachable_coordinator_is_ok chrono_sample (str "prod") 2%N sample_coordinator);
    [reflexivity|].
  apply (@apply_all_steps chrono_sample sample_coordinator).
Defined.

(** ** Convergence of the projection *)

Section Convergence.
Context {K : Type} `{Countable K} {V : Type} `{EqDecision V}.

(** One write to a versioned map. *)
Record Write := {
  wr_key : K;
  wr_sequence : ProjectionSequence;
  wr_value : V;
  wr_until : DateTime;
}.

Definition write_one (m : gmap K (Versioned V)) (w : Write) : gmap K (Versioned V) :=
  (apply_versioned m (wr_key w) (wr_sequence w) (wr_value w) (wr_until w)).1.

Definition written (w : Write) : Versioned V :=
  Build_Versioned (wr_sequence w) (wr_value w) (wr_until w).

(** A write lands exactly when the key is free or holds an older sequence. *)
Lemma write_one_lookup m w k :
  write_one m w !! k =
  if (wr_key w ==? k) && is_none_or (λ e, vs_sequence e <? wr_sequence w)%N (m !! k)
  then Some (written w) else m !! k.
Proof.
  unfold write_one, apply_versioned.
  destruct (decide (wr_key w = k)) as [<-|Hne].
  - rewrite (bool_decide_true (wr_key w = wr_key w)) by done. cbn [andb].
    destruct (m !! wr_key w) as [e|] eqn:E; cbn [is_none_or].
    + destruct (N.ltb_spec (wr_sequence w) (vs_sequence e)).
      { destruct (N.ltb_spec (vs_sequence e) (wr_sequence w)); [lia|done]. }
      case_bool_decide as Hs.
      { rewrite Hs, N.ltb_irrefl. by case_bool_decide. }
      destruct (N.ltb_spec (vs_sequence e) (wr_sequence w)); [|lia]. cbn. apply lookup_insert_eq.
    + cbn. apply lookup_insert_eq.
  - rewrite bool_decide_false by done. cbn [andb].
    repeat case_match; cbn; rewrite ?lookup_insert_ne; done.
Qed.

(** The same sequence of a key always carries the same write. *)
Definition consistent (l : list Write) : Prop :=
  ∀ w w', w ∈ l → w' ∈ l → wr_key w = wr_key w' → wr_sequence w = wr_sequence w' → w = w'.

Lemma write_one_comm m a b :
  (wr_key a = wr_key b → wr_sequence a = wr_sequence b → a = b) →
  write_one (write_one m a) b = write_one (write_one m b) a.
Proof.
  intros Hc. apply map_eq. intros k. rewrite !write_one_lookup.
  destruct (decide (wr_key a = k)) as [Ha|Ha], (decide (wr_key b = k)) as [Hb|Hb];
    rewrite ?(bool_decide_true _ Ha), ?(bool_decide_true _ Hb), ?(bool_decide_false _ Ha),
      ?(bool_decide_false _ Hb); cbn [andb]; try done.
  assert (Hs : wr_sequence a = wr_sequence b → a = b) by (intros; apply Hc; congruence).
  destruct (m !! k) as [e|];
    repeat (cbn [is_none_or vs_sequence written];
            match goal with |- context [(?x <? ?y)%N] => destruct (N.ltb_spec x y) end);
    try done; try lia; by rewrite Hs by lia.
Qed.

Lemma write_all_perm l l' m :
  l ≡ₚ l' → consistent l → fold_left write_one l m = fold_left write_one l' m.
Proof.
  intros Hp. revert m. induction Hp as [|a l l' Hp IH|a b l|l l1 l2 Hp1 IH1 Hp2 IH2]; intros m Hc; cbn.
  - done.
  - apply IH. intros w w' Hw Hw'. apply Hc; by apply elem_of_cons; right.
  - f_equal. apply write_one_comm. intros. apply Hc; [set_solver|set_solver|done|done].
  - rewrite IH1 by done. apply IH2. intros w w' Hw Hw'. apply Hc; by rewrite Hp1.
Qed.

Lemma write_all_newest l m w :
  w ∈ l → ∃ e, fold_left write_one l m !! wr_key w = Some e ∧ (wr_sequence w ≤ vs_sequence e)%N.
Proof.
  assert (Hgrow : ∀ l m k e, m !! k = Some e →
    ∃ e', fold_left write_one l m !! k = Some e' ∧ (vs_sequence e ≤ vs_sequence e')%N).
  { clear l m. intros l. induction l as [|a l IH]; intros m k e He; cbn; [eauto|].
    assert (∃ e1, write_one m a !! k = Some e1 ∧ (vs_sequence e ≤ vs_sequence e1)%N)
      as (e1 & He1 & Hle).
    { rewrite write_one_lookup, He. cbn.
      destruct (_ && _) eqn:E; [|eauto]. bool_hyps. eexists. split; [done|]. cbn. lia. }
    destruct (IH _ _ _ He1) as (e2 & ? & ?). exists e2. split; [done|]. lia. }
  revert m. induction l as [|a l IH]; intros m; [by intros ?%elem_of_nil|].
  intros [->|Hw]%elem_of_cons; cbn; [|by apply IH].
  assert (∃ e1, write_one m a !! wr_key a = Some e1 ∧ (wr_sequence a ≤ vs_sequence e1)%N)
    as (e1 & He1 & Hle).
  { rewrite write_one_lookup, bool_decide_true by done. cbn [andb].
    destruct (m !! wr_key a) as [e|]; cbn [is_none_or]; [|by eexists].
    destruct (N.ltb_spec (vs_sequence e) (wr_sequence a)); by eexists. }
  destruct (Hgrow l _ _ _ He1) as (e2 & ? & ?). exists e2. split; [done|]. lia.
Qed.

(** Last writer wins, whatever the delivery order: as long as a sequence number of a key always
    carries the same content, applying the same events to a projection map in any order gives the
    same map, which for every key holds an event at least as new as each one applied. *)
Theorem projection_converges (l l' : list Write) (m : gmap K (Versioned V)) :
  l ≡ₚ l' → consistent l →
  fold_left write_one l m = fold_left write_one l' m ∧
  (∀ w, w ∈ l → ∃ e, fold_left write_one l m !! wr_key w = Some e ∧
     (wr_sequence w ≤ vs_sequence e)%N).
Proof. intros Hp Hc. split; [by apply write_all_perm|]. intros w. apply write_all_newest. Qed.
End Convergence.
Arguments Write : clear implicits.

Lemma projection_converges_witness :
  let a : Write N N := {| wr_key := 1%N; wr_sequence := 1%N; wr_value := 5%N; wr_until := 9 |} in
  let b : Write N N := {| wr_key := 1%N; wr_sequence := 2%N; wr_value := 6%N; wr_until := 9 |} in
  fold_left write_one [a; b] ∅ = fold_left write_one [b; a] ∅.
Proof.
  intros a b. apply (projection_converges [a; b] [b; a] ∅).
  - apply perm_swap.
  - intros w w' Hw Hw' _. apply list_elem_of_In in Hw, Hw'. cbn in Hw, Hw'.
    destruct Hw as [<-|[<-|[]]], Hw' as [<-|[<-|[]]]; done.
Defined.

(** ** Worker fencing *)

(** How a stored worker may change under an event with result [res]. *)
Record worker_advances (old new : Versioned WorkerCoordinationSnapshot)
    (res : result CoordinationError ProjectionApplyOutcome) : Prop := {
  wa_newer : new = old ∨
    (vs_sequence old < vs_sequence new)%N ∧ res = Ok ProjectionApplyOutcome.Applied;
  wa_fence : (wl_fence (ws_lease (vs_value old)) ≤ wl_fence (ws_lease (vs_value new)))%N;
  wa_drain : wl_fence (ws_lease (vs_value old)) = wl_fence (ws_lease (vs_value new)) →
    ws_draining (vs_value old) = true → ws_draining (vs_value new) = true;
}.

Lemma worker_advances_refl w res : worker_advances w w res.
Proof. by split; auto. Qed.

Section Fencing.
Context `{Chrono}.

Lemma publish_locked_workers c s now w sq reason s' res :
  publish_locked c s now w sq reason = (s', res) →
  ms_workers s' = ms_workers s ∧ ms_attachment_routes s' = ms_attachment_routes s.
Proof.
  unfold publish_locked. intros Hp.
  repeat (case_match; simplify_eq/=; try done).
Qed.

(** An event of another kind leaves the workers alone. *)
Lemma apply_payload_workers c s r e s' res :
  apply_payload c s r e = (s', res) → (∀ w, ev_payload e ≠ Worker w) →
  ms_workers s' = ms_workers s.
Proof.
  intros Ha Hk. unfold apply_payload, apply_route, remove_route, apply_attachment_route,
    remove_attachment_route, apply_replay, apply_wakeup in Ha.
  destruct (ev_payload e); [by destruct (Hk worker)|..];
    repeat (case_match; simplify_eq/=; try done).
  by match goal with Hp : publish_locked _ _ _ _ _ _ = _ |- _ =>
    apply publish_locked_workers in Hp as [-> _] end.
Qed.

Lemma apply_worker_advances c s now sq at_ w s' res id old :
  apply_worker c s now sq at_ w = (s', res) → ms_workers s !! id = Some old →
  ∃ new, ms_workers s' !! id = Some new ∧ worker_advances old new res.
Proof.
  intros Ha Hold. unfold apply_worker in Ha. cbv zeta in Ha.
  assert (Hsame : ∀ res, ∃ new, ms_workers s !! id = Some new ∧ worker_advances old new res)
    by eauto using worker_advances_refl.
  destruct (_ ≫= _) as [keep|]; [|by injection Ha as <- <-].
  destruct (decide (wl_worker_id (ws_lease w) = id)) as [Hid|Hid].
  - rewrite Hid, Hold in Ha.
    repeat (case_match; simplify_eq/=; try (by apply Hsame)).
    eexists. split; [apply lookup_insert_eq|].
    assert (sq ≠ vs_sequence old) by (by eapply bool_decide_eq_false).
    split; cbn; [right; split; [|done]| |intros Hf Hd];
      repeat match goal with Hb : (_ <? _)%N = false |- _ => apply N.ltb_ge in Hb end; try lia.
    destruct (ws_draining w) eqn:Ew; [done|].
    rewrite (bool_decide_true (wl_fence (ws_lease w) = _)) in * by done.
    rewrite Hd in *. cbn in *. done.
  - repeat (case_match; simplify_eq/=; try by apply Hsame); exists old;
      (split; [by rewrite lookup_insert_ne|apply worker_advances_refl]).
Qed.
End Fencing.

(** A projected worker never moves backwards while it is retained: no event lowers its sequence
    or its fence, a drained worker stays drained until a new fence registers, and its record changes
    only by a strictly newer event that is reported as applied. *)
Theorem worker_projection_is_monotone `{Chrono} (c c' : MemoryCoordinator) (r : Readings)
    (e : CoordinationEvent) (res : result CoordinationError ProjectionApplyOutcome)
    (id : WorkerId) (old : Versioned WorkerCoordinationSnapshot) :
  apply c r e = (c', res) → ms_workers (mc_state c) !! id = Some old →
  at_cleanup r < vs_retained_until old →
  ∃ new, ms_workers (mc_state c') !! id = Some new ∧ worker_advances old new res.
Proof.
  intros Ha Hold Hret. unfold apply in Ha.
  destruct (_ ≫= _) as [s|] eqn:El in Ha; [|injection Ha as <- _; eauto using worker_advances_refl].
  rewrite !bind_unit_ok, lock_Ok in El. destruct El as (_ & _ & _ & ->).
  destruct (apply_payload _ _ _ _) as [s' out] eqn:Ep. injection Ha as <- <-. change (mc_state (c <| mc_state := s' |>)) with s'.
  assert (Hc : ms_workers (cleanup_locked (mc_state c) (at_cleanup r)) !! id = Some old)
    by (by apply retain_live_Some).
  destruct (ev_payload e) as [w| | | | | |] eqn:Ee.
  { unfold apply_payload in Ep. rewrite Ee in Ep. by eapply apply_worker_advances. }
  all: apply apply_payload_workers in Ep; [|by rewrite Ee];
    exists old; split; [by rewrite Ep|apply worker_advances_refl].
Qed.

Lemma worker_projection_is_monotone_witness :
  ∃ old new res,
    @apply chrono_sample sample_projected (sample_readings 6)
      (sample_event 9%N (Worker (sample_worker 7 2%N true))) =
      (new, res) ∧ res = Ok ProjectionApplyOutcome.Applied ∧
    ∃ w, ms_workers (mc_state new) !! (7 : WorkerId) = Some w ∧ worker_advances old w res.
Proof.
  do 3 eexists. split; [vm_compute; reflexivity|]. split; [reflexivity|].
  eapply (@worker_projection_is_monotone chrono_sample sample_projected _ (sample_readings 6)
    (sample_event 9%N (Worker (sample_worker 7 2%N true))));
    [vm_compute; reflexivity|vm_compute; reflexivity|vm_compute; reflexivity].
Defined.

(** ** Routing hints fail closed *)

(** A worker the cache still holds, under the exact lease, unexpired and accepting attachments. *)
Definition accepts_attachments (s : MemoryState) (now : DateTime) (lease : WorkerLease) : Prop :=
  ∃ w, ms_workers s !! wl_worker_id lease = Some w ∧ now < vs_retained_until w ∧
    ws_lease (vs_value w) = lease ∧ now < ws_lease_expires_at (vs_value w) ∧
    ws_draining (vs_value w) = false.

Lemma attachment_worker_live_iff s now lease :
  attachment_worker_live (cleanup_locked s now) now lease = true ↔ accepts_attachments s now lease.
Proof.
  unfold attachment_worker_live, accepts_attachments. cbn [ms_workers cleanup_locked].
  destruct (retain_live now (ms_workers s) !! wl_worker_id lease) as [w|] eqn:E; cbn [is_some_and].
  - apply retain_live_Some in E as [E Hr].
    rewrite !andb_true_iff, bool_decide_eq_true, Z.ltb_lt, negb_true_iff.
    split; [intros [[? ?] ?]; exists w; auto|]. intros (w' & Hw & _ & ? & ? & ?). simplify_eq. auto.
  - split; [done|]. intros (w & Hw & Hr & _).
    by rewrite (proj2 (retain_live_Some _ _ _ _) (conj Hw Hr)) in E.
Qed.

(** When [attachment_route_hint] answers with a route. *)
Lemma attachment_route_hint_iff (c : MemoryCoordinator) (now : DateTime)
    (lookup : AttachmentRouteLookup) (route : AttachmentRouteHint) :
  (attachment_route_hint c now lookup).2 = Ok (Some route) ↔
  mc_poisoned c = false ∧
  ar_transport route = al_transport lookup ∧ ar_tenant_binding route = al_tenant_binding lookup ∧
  now < ar_expires_at route ∧ accepts_attachments (mc_state c) now (ar_worker route) ∧
  ∃ entry, ms_attachment_routes (mc_state c) !! al_token_digest lookup = Some entry ∧
    now < vs_retained_until entry ∧ vs_value entry = Some route.
Proof.
  unfold attachment_route_hint, lock. destruct (mc_poisoned c); [cbn; split; [done|by intros []]|].
  cbn [snd]. cbn [ms_attachment_routes cleanup_locked].
  destruct (retain_live now (ms_attachment_routes (mc_state c)) !! al_token_digest lookup)
    as [entry|] eqn:E; cbn [mbind option_bind].
  2: { split; [done|]. intros (_ & _ & _ & _ & _ & e & He & Hr & _).
       by rewrite (proj2 (retain_live_Some _ _ _ _) (conj He Hr)) in E. }
  apply retain_live_Some in E as [E Hr].
  destruct (vs_value entry) as [found|] eqn:Ev.
  2: { split; [done|]. intros (_ & _ & _ & _ & _ & e & He & _ & Hv). congruence. }
  rewrite <- attachment_worker_live_iff.
  transitivity (found = route ∧ ar_transport found = al_transport lookup ∧
    ar_tenant_binding found = al_tenant_binding lookup ∧ now < ar_expires_at found ∧
    attachment_worker_live (cleanup_locked (mc_state c) now) now (ar_worker found) = true).
  - destruct ((_ <=? _) || _ || _) eqn:Eb.
    + split; [done|]. intros (-> & Ht & Hb & He & _).
      rewrite Ht, Hb, !bool_decide_true in Eb by done. cbn in Eb. bool_hyps. lia.
    + bool_hyps. destruct (attachment_worker_live _ _ _); naive_solver.
  - split.
    + intros (-> & Ht & Hb & He & Hl). split_and!; auto. exists entry. auto.
    + intros (_ & Ht & Hb & He & Hl & e & He' & _ & Hv). assert (found = route) by congruence.
      subst. auto.
Qed.

(** An attachment route is handed to a gateway exactly when everything about it checks out: the
    digest is projected and not removed, the bearer has not expired, transport and tenant binding
    are the ones presented, and the very worker incarnation that issued it is still live and not
    draining.  In every other case the answer is none. *)
Theorem attachment_hint_fails_closed (c : MemoryCoordinator) (now : DateTime)
    (lookup : AttachmentRouteLookup) (route : AttachmentRouteHint) :
  (attachment_route_hint c now lookup).2 = Ok (Some route) ↔
  mc_poisoned c = false ∧
  ar_transport route = al_transport lookup ∧ ar_tenant_binding route = al_tenant_binding lookup ∧
  now < ar_expires_at route ∧ accepts_attachments (mc_state c) now (ar_worker route) ∧
  ∃ entry, ms_attachment_routes (mc_state c) !! al_token_digest lookup = Some entry ∧
    now < vs_retained_until entry ∧ vs_value entry = Some route.
Proof. apply attachment_route_hint_iff. Qed.

(** ** Removed attachments *)

(** The entry of a digest after a removal at [sq], until something newer arrives. *)
Definition buried (d : AttachmentTokenDigest) (sq : ProjectionSequence) (until : DateTime)
    (c : MemoryCoordinator) : Prop :=
  ms_attachment_routes (mc_state c) !! d = Some (Build_Versioned sq None until).

(** The digest an event projects, and whether it is older than a sequence. *)
Definition attachment_target (e : CoordinationEvent) : option AttachmentTokenDigest :=
  match ev_payload e with
  | AttachmentRoute route => Some (ar_token_digest route)
  | AttachmentRouteRemoved d => Some d
  | _ => None
  end.

Lemma apply_versioned_old {K} `{Countable K} {V} `{EqDecision V} (m : gmap K (Versioned V))
    k sq v u k' entry :
  m !! k' = Some entry → (k = k' → (sq ≤ vs_sequence entry)%N) →
  (apply_versioned m k sq v u).1 !! k' = Some entry.
Proof.
  intros Hm Hk. unfold apply_versioned.
  destruct (decide (k = k')) as [<-|Hne].
  - rewrite Hm. specialize (Hk eq_refl). destruct (N.ltb_spec sq (vs_sequence entry)); [done|].
    rewrite bool_decide_true by lia. by case_bool_decide.
  - repeat case_match; cbn; rewrite ?lookup_insert_ne; done.
Qed.

Section Removal.
Context `{Chrono}.

Lemma apply_keeps_buried c r e d sq until :
  buried d sq until c → at_cleanup r < until →
  (attachment_target e = Some d → (ev_sequence e ≤ sq)%N) → buried d sq until (apply c r e).1.
Proof.
  unfold buried. intros Hb Hr Ht. unfold apply.
  destruct (_ ≫= _) as [s|] eqn:El; [|done].
  rewrite !bind_unit_ok, lock_Ok in El. destruct El as (_ & _ & _ & ->).
  set (s0 := cleanup_locked (mc_state c) (at_cleanup r)).
  assert (Hs0 : ms_attachment_routes s0 !! d = Some (Build_Versioned sq None until))
    by (by apply retain_live_Some).
  destruct (apply_payload c s0 r e) as [s' out] eqn:Ep. cbn [fst].
  change (mc_state (c <| mc_state := s' |>)) with s'. clearbody s0.
  unfold apply_payload, attachment_target in *.
  destruct (ev_payload e);
    unfold apply_worker, apply_route, remove_route, apply_attachment_route, remove_attachment_route,
      apply_replay, apply_wakeup in Ep; cbv zeta in Ep.
  4-5: (destruct (retained_until _ _ _); [|by injection Ep as <- _]);
    destruct (apply_versioned _ _ _ _ _) as [m o] eqn:Em; injection Ep as <- _; cbn;
    apply (f_equal fst) in Em; cbn [fst] in Em; rewrite <- Em; apply apply_versioned_old; [done|];
    cbn; intros; apply Ht; congruence.
  all: repeat (case_match; simplify_eq/=; try done).
  by match goal with Hp : publish_locked _ _ _ _ _ _ = _ |- _ =>
    apply publish_locked_workers in Hp as [_ ->] end.
Qed.

(** An applied removal buries the digest until the tombstone time runs out. *)
Lemma removal_buries `{!ChronoLaws} c r e d c' :
  ev_payload e = AttachmentRouteRemoved d →
  apply c r e = (c', Ok ProjectionApplyOutcome.Applied) →
  ∃ until, buried d (ev_sequence e) until c' ∧ at_apply r + mc_tombstone_ttl c ≤ until.
Proof.
  intros He Ha. unfold apply in Ha. destruct (_ ≫= _) as [s|]; [|done].
  unfold apply_payload in Ha. rewrite He in Ha. unfold remove_attachment_route in Ha.
  destruct (retained_until _ _ _) as [until|] eqn:Eu; [|done]. exists until. split.
  - unfold apply_versioned in Ha. unfold buried. repeat (case_match; simplify_eq/=).
    all: apply lookup_insert_eq.
  - unfold retained_until in Eu. apply result_bind_ok in Eu as (ttl & Ettl & Eu).
    destruct (from_std (mc_tombstone_ttl c)) as [ttl'|] eqn:Es; [|done]. injection Ettl as <-.
    destruct (checked_add_signed _ ttl') as [sum|] eqn:Ec; [|done]. injection Eu as <-.
    apply from_std_exact in Es. apply checked_add_signed_exact in Ec. lia.
Qed.
End Removal.

(** A consumed or revoked attachment stays gone: once its removal has been applied, replayed or
    delayed events no newer than the removal cannot bring the route back for as long as the
    tombstone is kept, however many of them arrive and whatever else is projected in between. *)
Theorem removed_attachment_stays_removed `{Chrono} `{!ChronoLaws} (c c1 : MemoryCoordinator)
    (r : Readings) (e : CoordinationEvent) (d : AttachmentTokenDigest)
    (later : list (Readings * CoordinationEvent)) (now : DateTime) (lookup : AttachmentRouteLookup) :
  ev_payload e = AttachmentRouteRemoved d →
  apply c r e = (c1, Ok ProjectionApplyOutcome.Applied) →
  Forall (λ re, at_cleanup re.1 < at_apply r + mc_tombstone_ttl c ∧
     (attachment_target re.2 = Some d → (ev_sequence re.2 ≤ ev_sequence e)%N)) later →
  al_token_digest lookup = d →
  ∀ route, (attachment_route_hint (apply_all c1 later) now lookup).2 ≠ Ok (Some route).
Proof.
  intros He Ha Hl Hd route. destruct (removal_buries c r e d c1 He Ha) as (until & Hb & Hu).
  assert (Hb' : buried d (ev_sequence e) until (apply_all c1 later)).
  { clear Ha. revert c1 Hb. induction Hl as [|[r' e'] later [Hr Ht] Hl IH]; intros c1 Hb; [done|].
    cbn. apply IH, apply_keeps_buried; [done|cbn in Hr; lia|done]. }
  unfold attachment_route_hint, lock. destruct (mc_poisoned _); [done|]. cbn [snd].
  cbn [ms_attachment_routes cleanup_locked]. rewrite Hd.
  destruct (retain_live _ _ !! d) as [entry|] eqn:E; [|done].
  apply retain_live_Some in E as [E _]. unfold buried in Hb'. rewrite Hb' in E.
  injection E as <-. done.
Qed.

Definition sample_lookup : AttachmentRouteLookup :=
  {| al_token_digest := 9; al_transport := AttachmentTransport.Sip; al_tenant_binding := 5 |}.

Lemma removed_attachment_stays_removed_witness :
  (attachment_route_hint sample_projected 6 sample_lookup).2 = Ok (Some sample_attachment) ∧
  ∃ c1, @apply chrono_sample sample_projected (sample_readings 6)
          (sample_event 9%N (AttachmentRouteRemoved 9)) = (c1, Ok ProjectionApplyOutcome.Applied) ∧
  (attachment_route_hint (@apply_all chrono_sample c1
     [(sample_readings 7, sample_event 3%N (AttachmentRoute sample_attachment))]) 8 sample_lookup).2
    ≠ Ok (Some sample_attachment).
Proof.
  split; [vm_compute; reflexivity|]. eexists. split; [vm_compute; reflexivity|].
  eapply (@removed_attachment_stays_removed chrono_sample chrono_sample_laws sample_projected _
    (sample_readings 6) (sample_event 9%N (AttachmentRouteRemoved 9)) 9);
    [reflexivity|vm_compute; reflexivity| |reflexivity].
  apply Forall_cons. split; [|apply Forall_nil; done].
  split; [vm_compute; reflexivity|]. intros _. vm_compute. discriminate.
Defined.
