(* ===== verification/CoordSelection.v ===== *)
(** Worker selection ([worker_hints] of [src/coordination/memory.rs]): the comparator is a total
    order on projected workers, so the answer does not depend on the iteration order of the hash
    map, and it is the least loaded selection the cache allows. *)

From S2P Require Import Prelude RustText DomainTypes CoordModel CoordMemory CoordInv CoordTheorems.
From stdpp Require Import options.

(** ** The load order *)

(** Capacities of a validated snapshot, at the width of [usize]. *)
Definition sized (w : WorkerCoordinationSnapshot) : Prop :=
  (0 < ws_max_calls w ≤ Z.to_N U64_MAX)%N ∧ (ws_reserved_calls w ≤ ws_max_calls w)%N.

(** [less_loaded l r]: the fraction of capacity in use, then the number of calls, then the
    identifier. *)
Definition less_loaded (l r : WorkerCoordinationSnapshot) : Prop :=
  let a := (ws_reserved_calls l * ws_max_calls r)%N in
  let b := (ws_reserved_calls r * ws_max_calls l)%N in
  (a < b)%N ∨ a = b ∧
  ((ws_reserved_calls l < ws_reserved_calls r)%N ∨
   ws_reserved_calls l = ws_reserved_calls r ∧
   wl_worker_id (ws_lease l) < wl_worker_id (ws_lease r)).

Lemma compare_workers_spec l r :
  sized l → sized r →
  match compare_workers l r with
  | Lt => less_loaded l r ∨
          ws_reserved_calls l = ws_reserved_calls r ∧
          wl_worker_id (ws_lease l) = wl_worker_id (ws_lease r)
  | Eq => wl_worker_id (ws_lease l) = wl_worker_id (ws_lease r)
  | Gt => less_loaded r l ∨
          ws_reserved_calls l = ws_reserved_calls r ∧
          wl_worker_id (ws_lease l) = wl_worker_id (ws_lease r)
  end.
Proof.
  intros [Hl Hlr] [Hr Hrr]. unfold compare_workers, less_loaded, then_.
  rewrite !u128_mul_exact by lia.
  set (a := (ws_reserved_calls l * ws_max_calls r)%N).
  set (b := (ws_reserved_calls r * ws_max_calls l)%N).
  destruct (N.compare_spec a b); [|lia|lia].
  destruct (N.compare_spec (ws_reserved_calls l) (ws_reserved_calls r)); [|lia|lia].
  destruct (Z.compare_spec (wl_worker_id (ws_lease l)) (wl_worker_id (ws_lease r))); [|lia|lia].
  destruct (_ ?= _)%N; auto.
Qed.

Lemma less_loaded_irrefl l r : less_loaded l r → less_loaded r l → False.
Proof. unfold less_loaded. lia. Qed.

Lemma less_loaded_trans x y z :
  sized x → sized y → sized z → less_loaded x y → less_loaded y z → less_loaded x z.
Proof.
  intros [[Hx _] _] [[Hy _] _] [[Hz _] _]. unfold less_loaded. cbv zeta.
  generalize dependent (ws_max_calls x). intros mx Hx.
  generalize dependent (ws_max_calls y). intros my Hy.
  generalize dependent (ws_max_calls z). intros mz Hz.
  generalize (ws_reserved_calls x) (ws_reserved_calls y) (ws_reserved_calls z).
  intros rx ry rz.
  assert (Hm : ∀ a b, (a * my < b * my → a < b)%N) by (intros; nia).
  assert (He : ∀ a b, (a * my = b * my → a = b)%N) by (intros; nia).
  assert (E1 : (rx * mz * my = rx * my * mz)%N) by lia.
  assert (E2 : (rz * mx * my = rz * my * mx)%N) by lia.
  assert (E3 : (ry * mx * mz = ry * mz * mx)%N) by lia.
  intros [H1|[H1 T1]] [H2|[H2 T2]].
  - left. apply Hm. rewrite E1, E2. nia.
  - left. apply Hm. rewrite E1, E2, <- H2. nia.
  - left. apply Hm. rewrite E1, E2, H1. nia.
  - right. split; [|lia]. apply He. rewrite E1, E2, H1, <- H2. lia.
Qed.

Lemma less_loaded_total l r :
  wl_worker_id (ws_lease l) ≠ wl_worker_id (ws_lease r) → less_loaded l r ∨ less_loaded r l.
Proof. unfold less_loaded. lia. Qed.

(** ** Selection *)

(** The snapshots the cache may offer for a request. *)
Definition candidate (s : MemoryState) (now : DateTime) (request : WorkerSelectionRequest)
    (w : WorkerCoordinationSnapshot) : Prop :=
  ∃ id e, ms_workers s !! id = Some e ∧ now < vs_retained_until e ∧ vs_value e = w ∧
    selectable now request w = true.

(** One snapshot per identifier. *)
Definition distinct (l : list WorkerCoordinationSnapshot) : Prop :=
  ∀ x y, x ∈ l → y ∈ l → wl_worker_id (ws_lease x) = wl_worker_id (ws_lease y) → x = y.

Lemma cmp_le_iff l x y :
  distinct l → x ∈ l → y ∈ l → sized x → sized y →
  cmp_le compare_workers x y ↔ x = y ∨ less_loaded x y.
Proof.
  intros Hd Hx Hy Sx Sy. unfold cmp_le. pose proof (compare_workers_spec x y Sx Sy) as Hs.
  split.
  - intros Hc. destruct (compare_workers x y); [left; by apply Hd| |done].
    destruct Hs as [|[_ Hid]]; [by right|left; by apply Hd].
  - intros [<-|Hl] E; rewrite E in Hs.
    + unfold compare_workers, then_ in E. by rewrite !N.compare_refl, Z.compare_refl in E.
    + destruct Hs as [Hs|[Hr Hid]]; [by eapply less_loaded_irrefl|].
      assert (x = y) as -> by auto. by eapply less_loaded_irrefl.
Qed.

Section Select.
Context (l : list WorkerCoordinationSnapshot) (Hd : distinct l) (Hs : Forall sized l).

Lemma workers_total x y :
  x ∈ l → y ∈ l → cmp_le compare_workers x y ∨ cmp_le compare_workers y x.
Proof using Hd Hs.
  intros Hx Hy. rewrite Forall_forall in Hs. rewrite !(cmp_le_iff l) by auto.
  destruct (Z.eq_dec (wl_worker_id (ws_lease x)) (wl_worker_id (ws_lease y))) as [E|E].
  - left. left. by apply Hd.
  - destruct (less_loaded_total x y E); auto.
Qed.

Lemma workers_trans x y z :
  x ∈ l → y ∈ l → z ∈ l → cmp_le compare_workers x y → cmp_le compare_workers y z →
  cmp_le compare_workers x z.
Proof using Hd Hs.
  intros Hx Hy Hz. rewrite Forall_forall in Hs. rewrite !(cmp_le_iff l) by auto.
  intros [->|H1] [->|H2]; auto. right. eapply (less_loaded_trans x y z); auto.
Qed.

Lemma sort_workers_perm l' : l ≡ₚ l' → sort_by compare_workers l = sort_by compare_workers l'.
Proof using Hd Hs.
  intros Hp. eapply (sort_by_unique compare_workers (.∈ l)); [apply workers_total|apply workers_trans| |done|].
  - by apply Forall_forall.
  - intros x y Hx Hy. rewrite Forall_forall in Hs. rewrite !(cmp_le_iff l) by auto.
    intros [->|H1] [E|H2]; auto. by destruct (less_loaded_irrefl x y).
Qed.

Lemma sort_workers_sorted : NoDup l → StronglySorted less_loaded (sort_by compare_workers l).
Proof using Hd Hs.
  intros Hn. assert (Hss : StronglySorted (cmp_le compare_workers) (sort_by compare_workers l)).
  { apply (sort_by_sorted compare_workers (.∈ l)); [apply workers_total|apply workers_trans|].
    by apply Forall_forall. }
  assert (Hp := sort_by_perm compare_workers l).
  assert (Hnd : NoDup (sort_by compare_workers l)) by (by rewrite Hp).
  assert (Hin : ∀ x, x ∈ sort_by compare_workers l → x ∈ l) by (intros x; by rewrite Hp).
  clear Hp. induction Hss as [|x k Hss IH Hx]; [constructor|].
  apply NoDup_cons in Hnd as [Hnx Hnd]. constructor; [apply IH; auto; intros y Hy; apply Hin; set_solver|].
  rewrite Forall_forall in Hx, Hs |- *. intros y Hy.
  assert (x ∈ l) by (apply Hin; set_solver). assert (y ∈ l) by (apply Hin; set_solver).
  specialize (Hx y Hy). rewrite (cmp_le_iff l) in Hx by auto. destruct Hx as [->|]; done.
Qed.
End Select.

Lemma StronglySorted_take_drop {A} (R : A → A → Prop) l n x y :
  StronglySorted R l → x ∈ take n l → y ∈ drop n l → R x y.
Proof.
  revert n. induction l as [|a l IH]; intros [|n] Hs Hx Hy; cbn in *; try by apply elem_of_nil in Hx.
  inversion Hs as [|? ? Hs' Ha]; subst. apply elem_of_cons in Hx as [->|Hx]; [|eauto].
  rewrite Forall_forall in Ha. apply Ha. rewrite <- (take_drop n l). by apply elem_of_app; right.
Qed.

Lemma StronglySorted_take {A} (R : A → A → Prop) l n : StronglySorted R l → StronglySorted R (take n l).
Proof.
  revert n. induction l as [|a l IH]; intros [|n] Hs; cbn; try constructor; inversion Hs; subst.
  - by apply IH.
  - by apply Forall_take.
Qed.

Definition map_values {K} `{Countable K} {V} (m : gmap K V) : list V := (map_to_list m).*2.

Lemma map_values_NoDup_id s :
  map_Forall worker_ok (ms_workers s) →
  NoDup (map vs_value (map_values (ms_workers s))) ∧
  distinct (map vs_value (map_values (ms_workers s))).
Proof.
  intros Hw. assert (Hk : ∀ x, x ∈ map_to_list (ms_workers s) →
    wl_worker_id (ws_lease (vs_value x.2)) = x.1).
  { intros [k e] Hx%elem_of_map_to_list. by destruct (Hw _ _ Hx) as (? & _). }
  assert (Hn : NoDup (map (λ e, wl_worker_id (ws_lease (vs_value e))) (map_values (ms_workers s)))).
  { unfold map_values. rewrite map_map.
    replace (map _ (map_to_list (ms_workers s))) with ((map_to_list (ms_workers s)).*1).
    - apply NoDup_fst_map_to_list.
    - apply list_fmap_ext. intros i x Hx. symmetry. apply Hk. by eapply list_elem_of_lookup_2. }
  rewrite <- (map_map vs_value (λ w, wl_worker_id (ws_lease w))) in Hn.
  split; [by eapply NoDup_fmap_1|].
  revert Hn. generalize (map vs_value (map_values (ms_workers s))). intros l Hn x y Hx Hy E.
  apply list_elem_of_lookup in Hx as [i Hi], Hy as [j Hj].
  assert (i = j) as <-; [|congruence].
  eapply NoDup_lookup; [exact Hn| |].
  - change (map ?f l) with (f <$> l). rewrite list_lookup_fmap, Hi. reflexivity.
  - change (map ?f l) with (f <$> l). rewrite list_lookup_fmap, Hj. cbn. by rewrite E.
Qed.

Lemma picked_candidates s now request w :
  w ∈ filter (λ w, selectable now request w = true)
        (map vs_value (map_values (ms_workers (cleanup_locked s now)))) ↔
  candidate s now request w.
Proof.
  rewrite list_elem_of_filter. unfold candidate, map_values. split.
  - intros [Hsel Hin]. apply list_elem_of_fmap in Hin as (e & -> & Hin).
    apply list_elem_of_fmap in Hin as ([id e'] & -> & Hin).
    apply elem_of_map_to_list, retain_live_Some in Hin as [? ?]. eauto 6.
  - intros (id & e & He & Hr & <- & Hsel). split; [done|].
    apply list_elem_of_fmap. exists e. split; [done|].
    apply list_elem_of_fmap. exists (id, e). split; [done|].
    by apply elem_of_map_to_list, retain_live_Some.
Qed.

(** The first [n] of the sorted candidates. *)
Lemma selected_prefix l n (P : WorkerCoordinationSnapshot → Prop) :
  NoDup l → distinct l → Forall sized l → (∀ w, w ∈ l ↔ P w) →
  let ws := take (N.to_nat n) (sort_by compare_workers l) in
  StronglySorted less_loaded ws ∧ (N.of_nat (length ws) ≤ n)%N ∧ (∀ w, w ∈ ws → P w) ∧
  (∀ w, P w → w ∈ ws ∨ N.of_nat (length ws) = n ∧ ∀ x, x ∈ ws → less_loaded x w).
Proof.
  intros Hn Hd Hs HP ws. pose proof (sort_workers_sorted l Hd Hs Hn) as Hss.
  pose proof (sort_by_perm compare_workers l) as Hp. subst ws. split_and!.
  - by apply StronglySorted_take.
  - rewrite length_take. lia.
  - intros w Hw. apply HP. rewrite <- Hp. rewrite <- (take_drop (N.to_nat n)). set_solver.
  - intros w Hw%HP. rewrite <- Hp in Hw. rewrite <- (take_drop (N.to_nat n)) in Hw.
    apply elem_of_app in Hw as [Hw|Hw]; [by left|right]. split.
    + rewrite length_take. apply list_elem_of_lookup in Hw as [i Hi].
      apply lookup_lt_Some in Hi. rewrite length_drop in Hi. lia.
    + intros x Hx. by eapply StronglySorted_take_drop.
Qed.

(** Worker selection is deterministic and optimal for the cache: the answer does not depend on
    the order in which the hash map is visited; it lists, least loaded first and up to the limit,
    live non-draining workers with free capacity and the required capabilities; and a suitable worker
    is left out only when the limit is reached and every listed one is less loaded.  The
    cross-multiplied loads never wrap around. *)
Theorem worker_hints_least_loaded
    (values values' : gmap WorkerId (Versioned WorkerCoordinationSnapshot) →
                      list (Versioned WorkerCoordinationSnapshot))
    (c : MemoryCoordinator) (now : DateTime) (request : WorkerSelectionRequest) :
  coordinator_ok c → (∀ m, values m ≡ₚ map_values m) → (∀ m, values' m ≡ₚ map_values m) →
  (∀ id e, ms_workers (mc_state c) !! id = Some e →
     (ws_max_calls (vs_value e) ≤ Z.to_N U64_MAX)%N) →
  worker_hints values c now request = worker_hints values' c now request ∧
  ∀ ws, (worker_hints values c now request).2 = Ok ws →
    StronglySorted less_loaded ws ∧ (N.of_nat (length ws) ≤ sr_limit request)%N ∧
    (∀ w, w ∈ ws → candidate (mc_state c) now request w) ∧
    (∀ w, candidate (mc_state c) now request w → w ∈ ws ∨
       N.of_nat (length ws) = sr_limit request ∧ ∀ x, x ∈ ws → less_loaded x w).
Proof.
  intros Hc Hv Hv' Hsz. set (s := cleanup_locked (mc_state c) now).
  pose (pick (vals : gmap WorkerId (Versioned WorkerCoordinationSnapshot) →
                     list (Versioned WorkerCoordinationSnapshot)) :=
    filter (λ w, selectable now request w = true) (map vs_value (vals (ms_workers s)))).
  assert (Hpick : ∀ vals, (∀ m, vals m ≡ₚ map_values m) → pick vals ≡ₚ pick map_values).
  { intros vals Hp. unfold pick. by rewrite Hp. }
  assert (Hcand : ∀ w, w ∈ pick map_values ↔ candidate (mc_state c) now request w).
  { intros w. apply picked_candidates. }
  destruct (map_values_NoDup_id s) as [Hnd Hdist]; [apply (ok_workers _ _ (cleanup_ok _ _ now (proj2 Hc)))|].
  assert (Hn : NoDup (pick map_values)) by (by apply NoDup_filter).
  assert (Hd : distinct (pick map_values)).
  { intros x y [_ Hx]%list_elem_of_filter [_ Hy]%list_elem_of_filter. by apply Hdist. }
  assert (Hs : Forall sized (pick map_values)).
  { apply Forall_forall. intros w (id & e & He & _ & <- & _)%Hcand.
    destruct (ok_workers _ _ (proj2 Hc) _ _ He) as (_ & ? & ?). split; [split; eauto|done]. }
  assert (Hsort : ∀ vals, (∀ m, vals m ≡ₚ map_values m) →
    sort_by compare_workers (pick vals) = sort_by compare_workers (pick map_values)).
  { intros vals Hp. symmetry. apply sort_workers_perm; auto. symmetry. by apply Hpick. }
  assert (Hres : ∀ vals, (∀ m, vals m ≡ₚ map_values m) →
    worker_hints vals c now request =
    match validate_request request;; lock c with
    | Err e => (c, Err e)
    | Ok _ => (c <| mc_state := s |>,
        Ok (take (N.to_nat (sr_limit request)) (sort_by compare_workers (pick map_values))))
    end).
  { intros vals Hp. unfold worker_hints. destruct (_ ≫= _) as [s'|] eqn:El; [|done].
    rewrite bind_unit_ok, lock_Ok in El. destruct El as (_ & _ & ->). fold s.
    rewrite <- (Hsort vals) by done. done. }
  rewrite (Hres values), (Hres values') by done. split; [done|]. intros ws Hws.
  destruct (_ ≫= _) in Hws; [|done]. injection Hws as <-.
  apply (selected_prefix _ _ _ Hn Hd Hs Hcand).
Qed.

Lemma worker_hints_least_loaded_witness :
  let request := {| sr_required_capabilities := ∅; sr_limit := 1%N |} in
  (worker_hints map_values sample_projected 6 request).2 = Ok [sample_worker 8 0%N false] ∧
  worker_hints (λ m, rev (map_values m)) sample_projected 6 request =
  worker_hints map_values sample_projected 6 request.
Proof.
  intros request. split; [vm_compute; reflexivity|].
  apply (worker_hints_least_loaded (λ m, rev (map_values m)) map_values sample_projected 6 request).
  - apply sample_projected_ok.
  - intros m. symmetry. apply Permutation_rev.
  - done.
  - intros id e He. apply elem_of_map_to_list, list_elem_of_In in He.
    assert (Hall : forallb (λ x, (ws_max_calls (vs_value x.2) <=? Z.to_N U64_MAX)%N)
      (map_to_list (ms_workers (mc_state sample_projected))) = true) by (vm_compute; reflexivity).
    apply N.leb_le. exact (proj1 (forallb_forall _ _) Hall _ He).
Defined.
