(* ===== verification/CoordDelivery.v ===== *)
(** Wakeup delivery ([take_ready], [acknowledge]) and retried projection writes of
    [src/coordination/memory.rs]. *)

From S2P Require Import Prelude RustText DomainTypes CoordModel CoordMemory CoordInv CoordTheorems.
From stdpp Require Import options.

(** ** Cursors *)

Definition ids_after (lo : N) (entries : list MemoryWakeupEntry) : list MemoryWakeupEntry :=
  filter (λ e, (lo < we_id e)%N) entries.

Definition advance (lo : N) (entries : list MemoryWakeupEntry) : N :=
  fold_left (λ n e, N.max n (we_id e)) entries lo.

Lemma advance_ge lo entries : (lo ≤ advance lo entries)%N.
Proof.
  revert lo. induction entries as [|e entries IH]; intros lo; [cbn; lia|].
  cbn. etrans; [|apply IH]. lia.
Qed.

Lemma ids_after_cons lo e entries :
  ids_after lo (e :: entries) =
  if (lo <? we_id e)%N then e :: ids_after lo entries else ids_after lo entries.
Proof.
  unfold ids_after. rewrite filter_cons.
  destruct (N.ltb_spec lo (we_id e)); case_decide; try lia; done.
Qed.

Lemma ids_after_all lo entries : Forall (λ e, (lo < we_id e)%N) entries → ids_after lo entries = entries.
Proof.
  induction 1 as [|e entries He _ IH]; [done|].
  by rewrite ids_after_cons, IH, (proj2 (N.ltb_lt _ _) He).
Qed.

(** Moving the cursor over the next [n] entries leaves exactly the others. *)
Lemma advance_take n lo entries :
  StronglySorted N.lt (entry_ids entries) →
  ids_after (advance lo (take n (ids_after lo entries))) entries = drop n (ids_after lo entries).
Proof.
  revert n lo. induction entries as [|e entries IH]; intros n lo Hs; [by destruct n|].
  inversion Hs as [|? ? Hs' Hall]; subst.
  rewrite !ids_after_cons. destruct (N.ltb_spec lo (we_id e)) as [Hlt|Hge].
  - assert (Hafter : Forall (λ x, (we_id e < we_id x)%N) entries).
    { apply Forall_forall. intros x Hx. rewrite Forall_forall in Hall.
      apply Hall. apply list_elem_of_fmap. eauto. }
    assert (Hrest : ids_after lo entries = entries).
    { apply ids_after_all. eapply Forall_impl; [exact Hafter|]. cbn. lia. }
    rewrite Hrest. destruct n as [|n]; cbn [take drop].
    + cbn [advance fold_left]. by rewrite (proj2 (N.ltb_lt _ _) Hlt), Hrest.
    + unfold advance. cbn [fold_left]. rewrite N.max_r by lia. fold (advance (we_id e) (take n entries)).
      specialize (IH n (we_id e) Hs'). rewrite (ids_after_all _ _ Hafter) in IH.
      pose proof (advance_ge (we_id e) (take n entries)).
      by rewrite (proj2 (N.ltb_ge _ _)).
  - pose proof (advance_ge lo (take n (ids_after lo entries))).
    rewrite (proj2 (N.ltb_ge _ _)) by lia. by apply IH.
Qed.

Lemma deliver_all consumer now entries g :
  let g' := fold_left (deliver consumer now) entries g in
  cg_last_delivered g' = advance (cg_last_delivered g) entries ∧
  ∀ id, cg_pending g' !! id =
    if bool_decide (id ∈ entry_ids entries)
    then Some {| pw_consumer := consumer; pw_delivered_at := now |} else cg_pending g !! id.
Proof.
  revert g. induction entries as [|e entries IH]; intros g; [done|].
  destruct (IH (deliver consumer now g e)) as [Hc Hp]. split; [exact Hc|].
  intros id. cbn [fold_left]. rewrite Hp. cbn [entry_ids map].
  change (map we_id entries) with (entry_ids entries).
  destruct (decide (id ∈ entry_ids entries)) as [Hin|Hin].
  - rewrite !bool_decide_true by set_solver. done.
  - rewrite (bool_decide_false _ Hin). destruct (decide (id = we_id e)) as [->|Hne].
    + rewrite bool_decide_true by set_solver. cbn. apply lookup_insert_eq.
    + rewrite bool_decide_false by set_solver. cbn. by rewrite lookup_insert_ne.
Qed.

(** ** Delivery *)

(** How far a group has been served, and what its stream still holds for it. *)
Definition group_cursor (s : MemoryState) (key : GroupKey) : N :=
  match ms_groups s !! key with Some group => cg_last_delivered group | None => 0%N end.

Definition undelivered (s : MemoryState) (key : GroupKey) : list MemoryWakeupEntry :=
  ids_after (group_cursor s key) (stream_entries s key.1).

Definition pending_of (s : MemoryState) (key : GroupKey) : gmap N PendingWakeup :=
  cg_pending (group_entry s key).

Definition consumer_key (k : MemoryWakeupConsumer) : GroupKey := (wc_worker_id k, wc_group k).

Lemma stream_sorted max s w : state_ok max s → StronglySorted N.lt (entry_ids (stream_entries s w)).
Proof.
  intros Hs. unfold stream_entries. destruct (ms_streams s !! w) as [st|] eqn:E; [|constructor].
  apply (ok_streams _ _ Hs _ _ E).
Qed.

Lemma group_cursor_entry s key : cg_last_delivered (group_entry s key) = group_cursor s key.
Proof. unfold group_entry, group_cursor. by destruct (ms_groups s !! key). Qed.

Section Delivery.
Context `{Chrono}.

Lemma take_ready_Ok c k now count c' msgs :
  take_ready c k now count = (c', Ok msgs) →
  let s := cleanup_locked (mc_state c) now in
  let key := consumer_key k in
  let delivered := take (N.to_nat count) (undelivered s key) in
  msgs = map memory_message delivered ∧
  ∃ until, mc_state c' = put_group s key
    (fold_left (deliver (wc_consumer k) now) delivered
       (group_entry s key) <| cg_retained_until := Some until |>) ∧ c' = c <| mc_state := mc_state c' |>.
Proof.
  unfold take_ready. destruct (_ ≫= _) as [[until st]|] eqn:El; [|done].
  apply result_bind_ok in El as (u & Hu & El). apply result_bind_ok in El as (s0 & Hl & El).
  injection El as -> ->. apply lock_Ok in Hl as [_ ->]. intros [= <- <-]. split; [done|].
  exists until. split; done.
Qed.

(** Wakeups are delivered to a consumer group in order, without loss and without repetition: a
    read returns the next entries the group has not been given, as many as requested and
    available, records each as pending for the reading consumer, and leaves exactly the remaining
    ones undelivered. *)
Theorem take_ready_delivers_in_order (c c' : MemoryCoordinator) (k : MemoryWakeupConsumer)
    (now : DateTime) (count : N) (msgs : list WakeupMessage) :
  coordinator_ok c → take_ready c k now count = (c', Ok msgs) →
  let s := cleanup_locked (mc_state c) now in
  let key := consumer_key k in
  ∃ delivered,
    undelivered s key = delivered ++ undelivered (mc_state c') key ∧
    msgs = map memory_message delivered ∧
    length delivered = Nat.min (N.to_nat count) (length (undelivered s key)) ∧
    (∀ w, stream_entries (mc_state c') w = stream_entries s w) ∧
    (∀ id, pending_of (mc_state c') key !! id =
       if bool_decide (id ∈ entry_ids delivered)
       then Some {| pw_consumer := wc_consumer k; pw_delivered_at := now |}
       else pending_of s key !! id).
Proof.
  intros [_ Hok] Ht s key. apply take_ready_Ok in Ht. cbv zeta in Ht. fold s key in Ht.
  destruct Ht as (-> & until & Hst & _).
  exists (take (N.to_nat count) (undelivered s key)).
  set (g0 := (group_entry s key) <| cg_retained_until := Some until |>) in *.
  destruct (deliver_all (wc_consumer k) now (take (N.to_nat count) (undelivered s key)) g0)
    as [Hcur Hpend]. cbv zeta in Hcur, Hpend.
  set (g' := fold_left _ _ _) in *. rewrite Hst.
  assert (Hg : ms_groups (put_group s key g') !! key = Some g') by apply lookup_insert_eq.
  assert (Hrest : undelivered (put_group s key g') key =
    drop (N.to_nat count) (undelivered s key)).
  { unfold undelivered at 1, group_cursor. rewrite Hg, Hcur. cbn [cg_last_delivered].
    change (cg_last_delivered g0) with (cg_last_delivered (group_entry s key)).
    rewrite group_cursor_entry. apply advance_take.
    exact (stream_sorted _ s key.1 (cleanup_ok _ _ now Hok)). }
  split_and!.
  - by rewrite Hrest, take_drop.
  - done.
  - apply length_take.
  - done.
  - intros id. unfold pending_of at 1, group_entry. rewrite Hg. cbn [default]. apply Hpend.
Qed.
End Delivery.

(** The coordinator after the consumer has read its two wakeups. *)
Definition sample_delivered : MemoryCoordinator :=
  (@take_ready chrono_sample sample_projected sample_consumer 6 10%N).1.

Definition sample_messages : list WakeupMessage :=
  map memory_message
    [{| we_id := 2; we_sequence := 5; we_reason := WakeupReason.Controls |};
     {| we_id := 3; we_sequence := 6; we_reason := WakeupReason.Deadlines |}]%N.

Lemma sample_take :
  @take_ready chrono_sample sample_projected sample_consumer 6 10%N =
  (sample_delivered, Ok sample_messages).
Proof. vm_compute. reflexivity. Qed.

Lemma take_ready_delivers_in_order_witness :
  ∃ delivered, sample_messages = map memory_message delivered ∧ length delivered = 2%nat.
Proof.
  destruct (@take_ready_delivers_in_order chrono_sample sample_projected sample_delivered
    sample_consumer 6 10%N sample_messages sample_projected_ok sample_take)
    as (delivered & _ & Hm & Hl & _).
  exists delivered. split; [exact Hm|]. rewrite Hl. vm_compute. reflexivity.
Defined.

(** ** Acknowledgement *)

Lemma parse_memory_message entry :
  (we_id entry ≤ Z.to_N U64_MAX)%N → parse_entry_id (wm_entry_id (memory_message entry)) = Ok (we_id entry).
Proof.
  intros H. unfold parse_entry_id, memory_message. cbn [wm_entry_id].
  rewrite strip_suffix_app. cbn [ok_or mbind result_bind]. by rewrite parse_display_u64.
Qed.

Lemma parse_memory_messages entries :
  Forall (λ e, (we_id e ≤ Z.to_N U64_MAX)%N) entries →
  parse_entry_ids (map wm_entry_id (map memory_message entries)) = Ok (entry_ids entries).
Proof.
  induction 1 as [|e entries He _ IH]; [done|]. cbn [map parse_entry_ids].
  rewrite parse_memory_message by done. cbn [mbind result_bind]. rewrite IH. done.
Qed.

Lemma remove_pending_count ids pending pending' n :
  NoDup ids → (∀ id, id ∈ ids → is_Some (pending !! id)) →
  remove_pending ids pending = (pending', n) → n = N.of_nat (length ids).
Proof.
  revert pending pending' n. induction ids as [|i ids IH]; intros pending pending' n Hn Hp; cbn.
  { by intros [= _ <-]. }
  apply NoDup_cons in Hn as [Hi Hn].
  destruct (remove_pending ids (delete i pending)) as [q m] eqn:E. intros [= _ <-].
  assert (m = N.of_nat (length ids)) as ->.
  { eapply (IH (delete i pending)); [done| |exact E]. intros id Hid.
    rewrite lookup_delete_ne by (intros ->; done). apply Hp. set_solver. }
  destruct (Hp i) as [p ->]; [set_solver|]. cbn [is_some length]. lia.
Qed.

(** Acknowledging the messages of a delivery, by the identifiers the consumer was given, settles
    exactly that delivery: every identifier parses back to its entry, the count is the number of
    messages, none of them is pending any more, and every other pending delivery is untouched. *)
Theorem acknowledge_settles_delivery `{Chrono} (c c' : MemoryCoordinator) (k : MemoryWakeupConsumer)
    (now : DateTime) (entries : list MemoryWakeupEntry) (n : N) :
  coordinator_ok c → NoDup (entry_ids entries) →
  (∀ id, id ∈ entry_ids entries →
     is_Some (pending_of (cleanup_locked (mc_state c) now) (consumer_key k) !! id)) →
  acknowledge_wakeups c k now (map wm_entry_id (map memory_message entries)) = (c', Ok n) →
  n = N.of_nat (length entries) ∧
  ∀ id p, pending_of (mc_state c') (consumer_key k) !! id = Some p ↔
    pending_of (cleanup_locked (mc_state c) now) (consumer_key k) !! id = Some p ∧
    id ∉ entry_ids entries.
Proof.
  intros [_ Hok] Hnd Hpend Ha. set (s := cleanup_locked (mc_state c) now) in *.
  set (key := consumer_key k) in *.
  assert (Hu : Forall (λ e, (we_id e ≤ Z.to_N U64_MAX)%N) entries).
  { apply Forall_forall. intros e He. destruct (Hpend (we_id e)) as [p Hp].
    { apply list_elem_of_fmap. eauto. }
    pose proof (cleanup_ok _ _ now Hok) as Hs. fold s in Hs.
    destruct (group_entry_ok _ s key Hs) as [Gc Gp]. destruct (Gp _ _ Hp) as [Hle _].
    pose proof (ok_next _ _ Hs). lia. }
  unfold acknowledge_wakeups in Ha. rewrite parse_memory_messages in Ha by done.
  cbn [mbind result_bind] in Ha. destruct (lock c) as [s0|] eqn:El; [|done].
  apply lock_Ok in El as [_ ->]. cbn [mbind result_bind] in Ha. fold s in Ha.
  change (wc_worker_id k, wc_group k) with key in Ha.
  destruct (retained_until _ _ _) as [until|]; [|done].
  destruct (remove_pending _ _) as [pending m] eqn:Er. injection Ha as <- <-.
  split.
  - rewrite (remove_pending_count _ _ _ _ Hnd Hpend Er). unfold entry_ids. by rewrite length_map.
  - intros id p.
    rewrite <- (remove_pending_lookup (entry_ids entries) (pending_of s key) pending m Er).
    unfold pending_of at 1, group_entry. cbn. rewrite lookup_insert_eq. done.
Qed.

Lemma acknowledge_settles_delivery_witness :
  ∃ c' n, @acknowledge_wakeups chrono_sample sample_delivered sample_consumer 7
    (map wm_entry_id sample_messages) = (c', Ok n) ∧ n = 2%N.
Proof.
  exists (@acknowledge_wakeups chrono_sample sample_delivered sample_consumer 7
    (map wm_entry_id sample_messages)).1, 2%N.
  assert (E : @acknowledge_wakeups chrono_sample sample_delivered sample_consumer 7
    (map wm_entry_id sample_messages) = ((@acknowledge_wakeups chrono_sample sample_delivered
       sample_consumer 7 (map wm_entry_id sample_messages)).1, Ok 2%N)) by (vm_compute; reflexivity).
  split; [exact E|].
  unfold sample_messages in E.
  refine (proj1 (@acknowledge_settles_delivery chrono_sample sample_delivered _ sample_consumer 7
    _ 2%N _ _ _ E)).
  - eapply coord_steps_ok; [apply sample_projected_ok|]. apply rtc_once.
    apply (@step_take_ready chrono_sample).
  - apply (bool_decide_unpack _). vm_compute. exact I.
  - assert (Hf : forallb (λ id, is_some (pending_of (cleanup_locked (mc_state sample_delivered) 7)
      (consumer_key sample_consumer) !! id)) [2; 3]%N = true) by (vm_compute; reflexivity).
    intros id Hid%list_elem_of_In. rewrite forallb_forall in Hf. apply Hf in Hid.
    destruct (_ !! id); [eauto|done].
Defined.

(** ** Retried writes *)

Lemma apply_versioned_again {K} `{Countable K} {V} `{EqDecision V} (m m1 m2 : gmap K (Versioned V))
    k sq v u u' o o' :
  apply_versioned m k sq v u = (m1, Ok o) → apply_versioned m1 k sq v u' = (m2, Ok o') →
  m2 = m1 ∧ o' ≠ ProjectionApplyOutcome.Applied.
Proof.
  unfold apply_versioned. intros H1 H2.
  destruct (m !! k) as [e|] eqn:E; repeat (case_match; simplify_eq/=);
    rewrite ?lookup_insert_eq in *; simplify_eq/=; bool_hyps; subst; try done; lia || congruence.
Qed.

Section Retry.
Context `{Chrono}.

Lemma apply_worker_again c s s1 s2 now now' sq at_ at' w o o' :
  apply_worker c s now sq at_ w = (s1, Ok o) → apply_worker c s1 now' sq at' w = (s2, Ok o') →
  s2 = s1 ∧ o' ≠ ProjectionApplyOutcome.Applied.
Proof.
  unfold apply_worker. cbv zeta. intros H1 H2.
  destruct (_ ≫= _) as [keep|] in H1; [|done]. destruct (_ ≫= _) as [keep'|] in H2; [|done].
  destruct (ms_workers s !! _) as [e|] eqn:E; repeat (case_match; simplify_eq/=);
    rewrite ?lookup_insert_eq in *; simplify_eq/=; bool_hyps; subst; try done; lia || congruence.
Qed.

Lemma publish_locked_sequences c s now w sq reason s' res :
  publish_locked c s now w sq reason = (s', res) → ms_wakeup_sequences s' = ms_wakeup_sequences s.
Proof. unfold publish_locked. intros Hp. repeat (case_match; simplify_eq/=; try done). Qed.

Lemma apply_payload_again c s s1 s2 r r' e o o' :
  apply_payload c s r e = (s1, Ok o) → apply_payload c s1 r' e = (s2, Ok o') →
  s2 = s1 ∧ o' ≠ ProjectionApplyOutcome.Applied.
Proof.
  unfold apply_payload. destruct (ev_payload e); try (by apply apply_worker_again);
    unfold apply_route, remove_route, apply_attachment_route, remove_attachment_route,
      apply_replay, apply_wakeup; intros H1 H2;
    destruct (retained_until _ _ _) in H1; try done; destruct (retained_until _ _ _) in H2; try done;
    destruct (apply_versioned _ _ _ _ _) as [m1 o1] eqn:E1 in H1;
    destruct (apply_versioned _ _ _ _ _) as [m2 o2] eqn:E2 in H2.
  1-5: injection H1 as <- ->; injection H2 as <- ->; cbn in E2;
    destruct (apply_versioned_again _ _ _ _ _ _ _ _ _ _ E1 E2) as [-> ?]; by destruct s.
  assert (Hs1 : ∃ ok, o1 = Ok ok ∧ ms_wakeup_sequences s1 = m1).
  { destruct o1 as [ok|]; [|done]. exists ok. split; [done|].
    destruct ok; [|by injection H1 as <- _..].
    destruct (publish_locked _ _ _ _ _ _) as [s' p] eqn:Ep. injection H1 as <- _.
    by apply publish_locked_sequences in Ep. }
  destruct Hs1 as (ok & -> & Hseq). rewrite Hseq in E2.
  destruct o2 as [ok2|]; [|done].
  destruct (apply_versioned_again _ _ _ _ _ _ _ _ _ _ E1 E2) as [-> Hne].
  destruct ok2; [done| |]; injection H2 as <- <-; rewrite <- Hseq; by destruct s1.
Qed.

(** Projection writes are idempotent, so an event may be delivered more than once: when an event
    that was accepted is presented again and nothing has expired in between, a second acceptance
    reports a duplicate or a newer winner and leaves the whole coordinator unchanged; no second
    wakeup is published. *)
Theorem reprojection_is_harmless (c c1 c2 : MemoryCoordinator) (r r' : Readings)
    (e : CoordinationEvent) (o o' : ProjectionApplyOutcome) :
  apply c r e = (c1, Ok o) → cleanup_locked (mc_state c1) (at_cleanup r') = mc_state c1 →
  apply c1 r' e = (c2, Ok o') →
  c2 = c1 ∧ o' ≠ ProjectionApplyOutcome.Applied.
Proof.
  unfold apply. intros H1 Hq H2.
  destruct (_ ≫= _) as [s|] eqn:E1 in H1; [|done]. destruct (_ ≫= _) as [s'|] eqn:E2 in H2; [|done].
  rewrite !bind_unit_ok, lock_Ok in E1, E2.
  destruct E1 as (_ & _ & _ & ->), E2 as (_ & _ & _ & ->). rewrite Hq in H2.
  destruct (apply_payload _ _ _ _) as [s1 o1] eqn:P1 in H1. injection H1 as <- ->.
  destruct (apply_payload _ _ _ _) as [s2 o2] eqn:P2 in H2. injection H2 as <- ->.
  change (mc_state (c <| mc_state := s1 |>)) with s1 in *.
  destruct (apply_payload_again c _ _ _ _ _ _ _ _ P1 P2) as [-> ?]. by destruct c.
Qed.
End Retry.

Lemma reprojection_is_harmless_witness :
  ∃ c1 c2, @apply chrono_sample sample_projected (sample_readings 6)
      (sample_event 9%N (WakeWorker 8 WakeupReason.Assignment)) =
      (c1, Ok ProjectionApplyOutcome.Applied) ∧
    @apply chrono_sample c1 (sample_readings 7)
      (sample_event 9%N (WakeWorker 8 WakeupReason.Assignment)) =
      (c2, Ok ProjectionApplyOutcome.Duplicate) ∧ c2 = c1.
Proof.
  pose (e := sample_event 9%N (WakeWorker 8 WakeupReason.Assignment)).
  pose (c1 := (@apply chrono_sample sample_projected (sample_readings 6) e).1).
  pose (c2 := (@apply chrono_sample c1 (sample_readings 7) e).1).
  assert (E1 : @apply chrono_sample sample_projected (sample_readings 6) e =
    (c1, Ok ProjectionApplyOutcome.Applied)) by (vm_compute; reflexivity).
  assert (E2 : @apply chrono_sample c1 (sample_readings 7) e =
    (c2, Ok ProjectionApplyOutcome.Duplicate)) by (vm_compute; reflexivity).
  assert (Eq : cleanup_locked (mc_state c1) (at_cleanup (sample_readings 7)) = mc_state c1)
    by (vm_compute; reflexivity).
  exists c1, c2. split; [exact E1|]. split; [exact E2|].
  exact (proj1 (@reprojection_is_harmless chrono_sample sample_projected c1 c2 (sample_readings 6)
    (sample_readings 7) e _ _ E1 Eq E2)).
Defined.
