(* ===== verification/CoordOutbox.v ===== *)
(** The ordered coordination outbox and its projector ([src/coordination/outbox.rs]).

    The records of a [BTreeMap] keyed by sequence are an association list in key order.  The two
    traits the projector is generic over are the classes [CoordinationOutbox] and
    [CoordinationProjection]. *)

From S2P Require Import Prelude RustText DomainTypes CoordModel CoordMemory.
From stdpp Require Import options.

(** ** Records *)

Inductive CoordinationOutboxState :=
| Ready
| Claimed (projector : rstr) (generation : CoordinationClaimGeneration)
    (claimed_at expires_at : DateTime)
| Applied (at_ : DateTime).

Record CoordinationOutboxRecord := {
  or_event : CoordinationEvent;
  or_state : CoordinationOutboxState;
}.
#[export] Instance CoordinationOutboxRecord_eta : Eta CoordinationOutboxRecord := λ r,
  {| or_event := or_event r; or_state := or_state r |}.

Record CoordinationOutboxClaim := {
  oc_record : CoordinationOutboxRecord;
  oc_claim_generation : CoordinationClaimGeneration;
}.

Definition Records : Type := list (ProjectionSequence * CoordinationOutboxRecord).

Record MemoryOutboxState := {
  mo_last_sequence : option ProjectionSequence;
  mo_records : Records;
}.

(** [MemoryOutboxState::default()]. *)
Definition MemoryOutboxState_default : MemoryOutboxState :=
  {| mo_last_sequence := None; mo_records := [] |}.

(** The outbox with its namespace and the reading of its clock. *)
Record MemoryCoordinationOutbox := {
  mo_deployment : DeploymentId;
  mo_now : DateTime;
  mo_state : MemoryOutboxState;
}.
#[export] Instance MemoryCoordinationOutbox_eta : Eta MemoryCoordinationOutbox := λ r,
  {| mo_deployment := mo_deployment r; mo_now := mo_now r; mo_state := mo_state r |}.

Definition MemoryCoordinationOutbox_new (deployment : DeploymentId) (now : DateTime)
    : MemoryCoordinationOutbox :=
  {| mo_deployment := deployment; mo_now := now; mo_state := MemoryOutboxState_default |}.

(** ** [BTreeMap] by sequence *)

Fixpoint btree_insert (key : ProjectionSequence) (value : CoordinationOutboxRecord) (m : Records)
    : Records :=
  match m with
  | [] => [(key, value)]
  | (k, v) :: rest =>
      if (key <? k)%N then (key, value) :: m
      else if key ==? k then (key, value) :: rest
      else (k, v) :: btree_insert key value rest
  end.

Fixpoint btree_get (key : ProjectionSequence) (m : Records) : option CoordinationOutboxRecord :=
  match m with
  | [] => None
  | (k, v) :: rest => if key ==? k then Some v else btree_get key rest
  end.

(** A write through [get_mut]. *)
Fixpoint btree_put (key : ProjectionSequence) (value : CoordinationOutboxRecord) (m : Records)
    : Records :=
  match m with
  | [] => []
  | (k, v) :: rest => if key ==? k then (k, value) :: rest else (k, v) :: btree_put key value rest
  end.

(** ** Operations *)

Definition bad_projector_byte (byte : Z) : bool := is_ascii_whitespace byte || is_ascii_control byte.

Definition validate_projector (projector : rstr) : result CoordinationError () :=
  if is_empty projector || (128 <? len projector) || existsb bad_projector_byte (bytes projector)
  then Err (InvalidInput "invalid coordination projector ID")
  else Ok ().

Definition record (self : MemoryCoordinationOutbox) (sequence : ProjectionSequence)
    : option CoordinationOutboxRecord :=
  btree_get sequence (mo_records (mo_state self)).

(** The claim generation a record is claimed from, [None] when a live claim blocks the prefix;
    applied records are skipped by the caller. *)
Definition previous_generation (now : DateTime) (state : CoordinationOutboxState)
    : option CoordinationClaimGeneration :=
  match state with
  | Claimed _ generation _ expires_at => if expires_at <=? now then Some generation else None
  | _ => Some 0%N
  end.

(** The loop of [claim] over [state.records.values_mut()]; the records written before an error
    stay written. *)
Fixpoint claim_loop (projector : rstr) (now expires_at : DateTime) (limit : nat) (records : Records)
    : Records * result CoordinationError (list CoordinationOutboxClaim) :=
  match records, limit with
  | [], _ | _, O => (records, Ok [])
  | (key, record) :: rest, S limit' =>
      match or_state record with
      | Applied _ =>
          let '(rest, claims) := claim_loop projector now expires_at limit rest in
          ((key, record) :: rest, claims)
      | _ =>
          match previous_generation now (or_state record) with
          | None => (records, Ok [])
          | Some previous =>
              match ClaimGeneration_next previous with
              | Err e => (records, Err e)
              | Ok generation =>
                  let record := record <| or_state := Claimed projector generation now expires_at |> in
                  let '(rest, claims) := claim_loop projector now expires_at limit' rest in
                  ((key, record) :: rest,
                   claims ← claims;
                   Ok ({| oc_record := record; oc_claim_generation := generation |} :: claims))
              end
          end
      end
  end.

Definition set_records (self : MemoryCoordinationOutbox) (records : Records)
    : MemoryCoordinationOutbox :=
  self <| mo_state := {| mo_last_sequence := mo_last_sequence (mo_state self);
                         mo_records := records |} |>.

(** [<MemoryCoordinationOutbox as CoordinationOutbox>::acknowledge]. *)
Definition acknowledge (self : MemoryCoordinationOutbox) (sequence : ProjectionSequence)
    (projector : rstr) (claim_generation : CoordinationClaimGeneration)
    : MemoryCoordinationOutbox * result CoordinationError () :=
  match validate_projector projector with
  | Err e => (self, Err e)
  | Ok _ =>
      let now := mo_now self in
      match btree_get sequence (mo_records (mo_state self)) with
      | None => (self, Err StaleClaim)
      | Some record =>
          match or_state record with
          | Claimed owner generation claimed_at expires_at =>
              if (owner ==? projector) && (generation ==? claim_generation)
                 && (claimed_at <=? now) && (now <? expires_at)
              then (set_records self
                      (btree_put sequence (record <| or_state := Applied now |>)
                         (mo_records (mo_state self))), Ok ())
              else (self, Err StaleClaim)
          | _ => (self, Err StaleClaim)
          end
      end
  end.

Section Dated.
Context `{Chrono}.

(** [MemoryCoordinationOutbox::append]. *)
Definition append (self : MemoryCoordinationOutbox) (payload : CoordinationPayload)
    : MemoryCoordinationOutbox * result CoordinationError CoordinationOutboxRecord :=
  match (sequence ← match mo_last_sequence (mo_state self) with
                    | Some last => ProjectionSequence_next last
                    | None => Ok ProjectionSequence_INITIAL
                    end;
         let event := {| ev_deployment := mo_deployment self; ev_sequence := sequence;
                         ev_payload := payload; ev_recorded_at := mo_now self |} in
         validate_event event;;
         Ok (sequence, event)) with
  | Err e => (self, Err e)
  | Ok (sequence, event) =>
      let record := {| or_event := event; or_state := Ready |} in
      (self <| mo_state := {| mo_last_sequence := Some sequence;
                              mo_records := btree_insert sequence record (mo_records (mo_state self)) |} |>,
       Ok record)
  end.

(** [<MemoryCoordinationOutbox as CoordinationOutbox>::claim]. *)
Definition claim (self : MemoryCoordinationOutbox) (projector : rstr) (claim_ttl : Duration)
    (limit : N) : MemoryCoordinationOutbox * result CoordinationError (list CoordinationOutboxClaim) :=
  match (validate_projector projector;;
         reject_if ((limit =? 0)%N || (1024 <? limit)%N)
           (InvalidInput "invalid coordination claim limit");;
         checked_claim_expiry (mo_now self) claim_ttl) with
  | Err e => (self, Err e)
  | Ok expires_at =>
      let '(records, claims) :=
        claim_loop projector (mo_now self) expires_at (N.to_nat limit) (mo_records (mo_state self)) in
      (set_records self records, claims)
  end.
End Dated.

(** ** The projector *)

(** The trait [CoordinationOutbox]. *)
Class CoordinationOutbox (O : Type) := {
  outbox_claim : O → rstr → Duration → N →
    O * result CoordinationError (list CoordinationOutboxClaim);
  outbox_acknowledge : O → ProjectionSequence → rstr → CoordinationClaimGeneration →
    O * result CoordinationError ();
}.

(** The method of the trait [CoordinationProjection] the projector calls. *)
Class CoordinationProjection (P : Type) := {
  projection_apply : P → CoordinationEvent → P * result CoordinationError ProjectionApplyOutcome;
}.

#[export] Instance memory_outbox `{Chrono} : CoordinationOutbox MemoryCoordinationOutbox := {|
  outbox_claim := claim;
  outbox_acknowledge := acknowledge;
|}.

Record CoordinationProjector := {
  cp_projector : rstr;
  cp_claim_ttl : Duration;
  cp_batch_size : N;
}.

(** [CoordinationProjector::new], at a reading of the wall clock. *)
Definition CoordinationProjector_new `{Chrono} (now : DateTime) (projector : rstr)
    (claim_ttl : Duration) (batch_size : N) : result CoordinationError CoordinationProjector :=
  validate_projector projector;;
  reject_if ((batch_size =? 0)%N || (1024 <? batch_size)%N)
    (InvalidInput "invalid projector batch size");;
  _ ← checked_claim_expiry now claim_ttl;
  Ok {| cp_projector := projector; cp_claim_ttl := claim_ttl; cp_batch_size := batch_size |}.

Section Projector.
Context {O P : Type} `{!CoordinationOutbox O} `{!CoordinationProjection P}.

(** What other tasks do to the outbox and the projection while the projector waits; the index
    counts its await points. *)
Context (others : nat → O * P → O * P).

(** The [for claim in claims] loop. *)
Fixpoint project_claims (self : CoordinationProjector) (claims : list CoordinationOutboxClaim)
    (step : nat) (applied : N) (st : O * P) : (O * P) * result CoordinationError N :=
  match claims with
  | [] => (st, Ok applied)
  | claim :: claims =>
      let '(outbox, projection) := others step st in
      let event := or_event (oc_record claim) in
      let '(projection, outcome) := projection_apply projection event in
      match outcome with
      | Err e => ((outbox, projection), Err e)
      | Ok _ =>
          let '(outbox, projection) := others (S step) (outbox, projection) in
          let '(outbox, acked) :=
            outbox_acknowledge outbox (ev_sequence event) (cp_projector self)
              (oc_claim_generation claim) in
          match acked with
          | Err e => ((outbox, projection), Err e)
          | Ok _ => project_claims self claims (S (S step)) (applied + 1)%N (outbox, projection)
          end
      end
  end.

(** [CoordinationProjector::project_once]. *)
Definition project_once (self : CoordinationProjector) (st : O * P)
    : (O * P) * result CoordinationError N :=
  let '(outbox, projection) := st in
  let '(outbox, claims) :=
    outbox_claim outbox (cp_projector self) (cp_claim_ttl self) (cp_batch_size self) in
  match claims with
  | Err e => ((outbox, projection), Err e)
  | Ok claims => project_claims self claims 0 0%N (outbox, projection)
  end.
End Projector.
