(* ===== verification/CoordOutboxThms.v ===== *)
(** What the ordered outbox and its projector guarantee. *)

From S2P Require Import Prelude RustText DomainTypes CoordModel CoordMemory CoordInv CoordTheorems.
From S2P Require Import CoordOutbox.
From stdpp Require Import options.

(** ** Order *)

Definition keys (m : Records) : list ProjectionSequence := map fst m.
Definition events (m : Records) : list CoordinationEvent := map (λ kv, or_event kv.2) m.

(** [1, 2, .., n]. *)
Definition first_sequences (n : nat) : list ProjectionSequence := map N.of_nat (seq 1 n).

Lemma first_sequences_S n : first_sequences (S n) = first_sequences n ++ [N.of_nat (S n)].
Proof. unfold first_sequences. by rewrite seq_S, map_app. Qed.

(** The outbox holds the events it numbered, without a gap, in order. *)
Record outbox_ok (o : MemoryCoordinationOutbox) : Prop := {
  bo_keys : keys (mo_records (mo_state o)) =
            first_sequences (length (mo_records (mo_state o)));
  bo_last : mo_last_sequence (mo_state o) =
            match length (mo_records (mo_state o)) with O => None | n => Some (N.of_nat n) end;
  bo_events : map ev_sequence (events (mo_records (mo_state o))) = keys (mo_records (mo_state o));
}.

Lemma btree_insert_last key value m :
  Forall (λ k, (k < key)%N) (keys m) → btree_insert key value m = m ++ [(key, value)].
Proof.
  induction m as [|[k v] m IH]; cbn; [done|]. intros [Hk Hm]%Forall_cons.
  destruct (N.ltb_spec key k); [lia|]. rewrite bool_decide_false by lia. by rewrite IH.
Qed.

Lemma btree_put_shape key r m r0 :
  btree_get key m = Some r0 → or_event r = or_event r0 →
  keys (btree_put key r m) = keys m ∧ events (btree_put key r m) = events m.
Proof.
  unfold keys, events. induction m as [|[k v] m IH]; cbn; [done|]. case_bool_decide as Hk.
  - intros [= ->] He. cbn. by rewrite He.
  - intros Hg He. destruct (IH Hg He) as [E1 E2]. cbn. by rewrite E1, E2.
Qed.

Lemma claim_loop_shape p now ex limit m m' res :
  claim_loop p now ex limit m = (m', res) → keys m' = keys m ∧ events m' = events m.
Proof.
  unfold keys, events. revert limit m' res. induction m as [|[k r] m IH]; intros limit m' res; cbn [claim_loop].
  { destruct limit; by intros [= <- _]. }
  destruct limit as [|limit]; [by intros [= <- _]|].
  destruct (or_state r) eqn:Es.
  3: { destruct (claim_loop _ _ _ (S limit) m) as [rest cs] eqn:E. intros [= <- _].
       destruct (IH _ _ _ E) as [E1 E2]. cbn. by rewrite E1, E2. }
  all: destruct (previous_generation _ _) as [g|]; [|by intros [= <- _]];
    destruct (ClaimGeneration_next g) as [g'|]; [|by intros [= <- _]];
    destruct (claim_loop _ _ _ limit m) as [rest cs] eqn:E; intros [= <- _];
    destruct (IH _ _ _ E) as [E1 E2]; cbn; by rewrite E1, E2.
Qed.

Lemma outbox_ok_shape o m :
  outbox_ok o → keys m = keys (mo_records (mo_state o)) →
  events m = events (mo_records (mo_state o)) → outbox_ok (set_records o m).
Proof.
  intros [K L E] Hk He.
  assert (Hl : length m = length (mo_records (mo_state o))).
  { apply (f_equal length) in Hk. unfold keys in Hk. by rewrite !length_map in Hk. }
  split; change (mo_records (mo_state (set_records o m))) with m;
    change (mo_last_sequence (mo_state (set_records o m))) with (mo_last_sequence (mo_state o));
    rewrite ?Hk, ?He, ?Hl; done.
Qed.

(** Calls of the outbox, and the passage of time. *)
Inductive outbox_step `{Chrono} : MemoryCoordinationOutbox → MemoryCoordinationOutbox → Prop :=
| ostep_append o payload : outbox_step o (append o payload).1
| ostep_claim o p ttl limit : outbox_step o (claim o p ttl limit).1
| ostep_ack o sq p g : outbox_step o (acknowledge o sq p g).1
| ostep_time o now : outbox_step o (o <| mo_now := now |>).

Lemma append_shape `{Chrono} o payload o' r :
  outbox_ok o → append o payload = (o', Ok r) →
  mo_records (mo_state o') =
    mo_records (mo_state o) ++ [(N.of_nat (S (length (mo_records (mo_state o)))), r)] ∧
  ev_sequence (or_event r) = N.of_nat (S (length (mo_records (mo_state o)))) ∧
  mo_last_sequence (mo_state o') = Some (ev_sequence (or_event r)) ∧
  ev_payload (or_event r) = payload ∧ or_state r = Ready.
Proof.
  intros [K L _]. unfold append. destruct (_ ≫= _) as [[sq e]|] eqn:E; [|done].
  apply result_bind_ok in E as (n & Hn & E). apply bind_unit_ok in E as [_ E].
  injection E as <- <-. intros [= <- <-].
  assert (n = N.of_nat (S (length (mo_records (mo_state o))))) as ->.
  { rewrite L in Hn. destruct (length _) as [|k]; [by injection Hn as <-|].
    unfold ProjectionSequence_next in Hn. destruct (_ <=? _)%N; [done|]. injection Hn as <-. lia. }
  split_and!; try done. cbn. apply btree_insert_last. rewrite K. apply Forall_forall.
  intros k Hk. apply list_elem_of_fmap in Hk as (i & -> & Hi%elem_of_seq). lia.
Qed.

Lemma outbox_step_ok `{Chrono} o o' : outbox_ok o → outbox_step o o' → outbox_ok o'.
Proof.
  intros Ho Hs. destruct Hs as [o payload|o p ttl limit|o sq p g|o now].
  - destruct (append o payload) as [o' [r|e]] eqn:E.
    + destruct (append_shape _ _ _ _ Ho E) as (Hr & Hs & Hl & _). cbn [fst].
      destruct Ho as [K L V]. split; rewrite ?Hr, ?Hl; unfold keys, events in *;
        rewrite ?map_app, ?length_app, ?Nat.add_1_r; cbn [length map].
      * by rewrite first_sequences_S, K.
      * by rewrite Hs.
      * cbn [fst snd]. by rewrite V, Hs.
    + unfold append in E. destruct (_ ≫= _) as [[]|]; simplify_eq. done.
  - unfold claim. destruct (_ ≫= _); [|done].
    destruct (claim_loop _ _ _ _ _) as [m cs] eqn:E. apply claim_loop_shape in E as [??].
    by apply outbox_ok_shape.
  - unfold acknowledge. repeat (case_match; try done). cbn [fst].
    destruct (btree_put_shape sq (c <| or_state := Applied (mo_now o) |>) (mo_records (mo_state o)) c)
      as [??]; [done|done|]. by apply outbox_ok_shape.
  - destruct Ho. by split.
Qed.

(** The outbox numbers events without gaps: in every state it can reach from empty, its records
    carry exactly the sequences 1, 2, .., n in that order, each event under its own number, and an
    append is given n + 1; claims, acknowledgements and time never add, drop, renumber or alter an
    event. *)
Theorem outbox_is_gap_free `{Chrono} (deployment : DeploymentId) (now : DateTime)
    (o : MemoryCoordinationOutbox) :
  rtc outbox_step (MemoryCoordinationOutbox_new deployment now) o →
  let n := length (mo_records (mo_state o)) in
  map fst (mo_records (mo_state o)) = first_sequences n ∧
  map ev_sequence (events (mo_records (mo_state o))) = first_sequences n ∧
  ∀ payload o' r, append o payload = (o', Ok r) →
    ev_sequence (or_event r) = N.of_nat (S n) ∧
    events (mo_records (mo_state o')) = events (mo_records (mo_state o)) ++ [or_event r].
Proof.
  intros Hr n. assert (Ho : outbox_ok o).
  { apply (rtc_preserves outbox_step outbox_ok outbox_step_ok _ _ Hr). by split. }
  pose proof Ho as [K L V]. split_and!; [done|by rewrite V|].
  intros payload o' r Ha. destruct (append_shape _ _ _ _ Ho Ha) as (Hm & Hs & _).
  split; [done|]. rewrite Hm. unfold events. by rewrite map_app.
Qed.

Definition sample_projector : rstr := str "projector".
Definition sample_outbox : MemoryCoordinationOutbox :=
  let wake o sq := (@append chrono_sample o (WakeWorker sq WakeupReason.Effects)).1 in
  wake (wake (MemoryCoordinationOutbox_new (str "prod") 10) 7) 8.

Lemma sample_outbox_run :
  rtc (@outbox_step chrono_sample) (MemoryCoordinationOutbox_new (str "prod") 10) sample_outbox.
Proof.
  eapply rtc_l; [apply (@ostep_append chrono_sample)|].
  eapply rtc_l; [apply (@ostep_append chrono_sample)|]. apply rtc_refl.
Qed.

Lemma outbox_is_gap_free_witness :
  map fst (mo_records (mo_state sample_outbox)) = [1; 2]%N.
Proof. exact (proj1 (@outbox_is_gap_free chrono_sample (str "prod") 10 sample_outbox sample_outbox_run)). Defined.

(** ** Claims *)

Definition is_applied (state : CoordinationOutboxState) : bool :=
  match state with Applied _ => true | _ => false end.

(** The records still to be projected, in order. *)
Definition open_records (m : Records) : Records :=
  List.filter (λ kv, negb (is_applied (or_state kv.2))) m.

(** A live claim holds the record at [now]. *)
Definition held (now : DateTime) (r : CoordinationOutboxRecord) : bool :=
  match or_state r with Claimed _ _ _ expires_at => now <? expires_at | _ => false end.

(** The generation above that of the last claim. *)
Definition next_generation (r : CoordinationOutboxRecord) : CoordinationClaimGeneration :=
  match or_state r with Claimed _ generation _ _ => generation + 1 | _ => 1 end%N.

Lemma held_blocks now r : held now r = negb (is_some (previous_generation now (or_state r))).
Proof.
  unfold held, previous_generation. destruct (or_state r); try done.
  destruct (Z.leb_spec expires_at now), (Z.ltb_spec now expires_at); done || lia.
Qed.

Lemma next_generation_previous now r g :
  previous_generation now (or_state r) = Some g → next_generation r = (g + 1)%N.
Proof.
  unfold next_generation, previous_generation. destruct (or_state r); [by intros [= <-]| |by intros [= <-]].
  destruct (_ <=? _); [by intros [= <-]|done].
Qed.

(** The record and the claim a projector gets. *)
Definition claimed_record (p : rstr) (now ex : DateTime) (r : CoordinationOutboxRecord)
    : CoordinationOutboxRecord :=
  r <| or_state := Claimed p (next_generation r) now ex |>.

Definition claim_of (p : rstr) (now ex : DateTime) (kv : ProjectionSequence * CoordinationOutboxRecord)
    : CoordinationOutboxClaim :=
  {| oc_record := claimed_record p now ex kv.2; oc_claim_generation := next_generation kv.2 |}.

Definition relabel (p : rstr) (now ex : DateTime) (kv : ProjectionSequence * CoordinationOutboxRecord)
    : ProjectionSequence * CoordinationOutboxRecord := (kv.1, claimed_record p now ex kv.2).

(** What [claim_loop] returns: the longest prefix of the open records, up to the limit, that no live
    claim interrupts. *)
Record claims_prefix (p : rstr) (now ex : DateTime) (limit : nat) (m m' : Records)
    (claims : list CoordinationOutboxClaim) (taken rest : Records) : Prop := {
  px_split : open_records m = taken ++ rest;
  px_claims : claims = map (claim_of p now ex) taken;
  px_after : open_records m' = map (relabel p now ex) taken ++ rest;
  px_limit : (length taken ≤ limit)%nat;
  px_free : Forall (λ kv, held now kv.2 = false) taken;
  px_maximal : length taken = limit ∨ rest = [] ∨
    ∃ kv rest', rest = kv :: rest' ∧ held now kv.2 = true;
}.

Lemma open_records_cons k r m :
  open_records ((k, r) :: m) =
  if is_applied (or_state r) then open_records m else (k, r) :: open_records m.
Proof.
  unfold open_records. cbn. by destruct (is_applied (or_state r)).
Qed.

Lemma claim_loop_prefix p now ex limit m m' claims :
  claim_loop p now ex limit m = (m', Ok claims) →
  ∃ taken rest, claims_prefix p now ex limit m m' claims taken rest.
Proof.
  revert limit m' claims. induction m as [|[k r] m IH]; intros limit m' claims; cbn [claim_loop].
  { destruct limit; intros [= <- <-]; exists [], []; split; cbn; auto; lia. }
  destruct limit as [|limit].
  { intros [= <- <-]. exists [], (open_records ((k, r) :: m)). split; cbn; auto. }
  destruct (is_applied (or_state r)) eqn:Ea.
  { destruct (or_state r) eqn:Es; try done. destruct (claim_loop _ _ _ (S limit) m) as [rest cs] eqn:E.
    intros [= <- ->]. destruct (IH _ _ _ E) as (taken & rest' & []). exists taken, rest'.
    split; auto; rewrite open_records_cons, Es; done. }
  assert (Hloop : ∀ g, previous_generation now (or_state r) = Some g →
    match ClaimGeneration_next g with
    | Err e => ((k, r) :: m, Err e)
    | Ok generation =>
        let '(rest, claims) := claim_loop p now ex limit m in
        ((k, r <| or_state := Claimed p generation now ex |>) :: rest,
         claims ← claims;
         Ok ({| oc_record := r <| or_state := Claimed p generation now ex |>;
                oc_claim_generation := generation |} :: claims))
    end = (m', Ok claims) →
    ∃ taken rest, claims_prefix p now ex (S limit) ((k, r) :: m) m' claims taken rest).
  { intros g Hg. unfold ClaimGeneration_next. destruct (_ <=? _)%N; [done|].
    destruct (claim_loop p now ex limit m) as [rest [cs|]] eqn:E; [|done]. intros [= <- <-].
    destruct (IH _ _ _ E) as (taken & rest' & []). exists ((k, r) :: taken), rest'.
    pose proof (next_generation_previous _ _ _ Hg) as Hn.
    split; rewrite ?open_records_cons, ?Ea; cbn [map length app]; try (constructor; [|done]);
      unfold relabel, claim_of, claimed_record; cbn [fst snd]; rewrite ?held_blocks, ?Hn, ?Hg; try done.
    - by rewrite px_split0.
    - by rewrite px_claims0.
    - cbn [or_state is_applied]. change (is_applied (or_state _)) with false. cbn iota.
      by rewrite px_after0.
    - lia.
    - destruct px_maximal0 as [|]; [left; lia|by right]. }
  destruct (or_state r) eqn:Es; [| |done];
    (destruct (previous_generation now _) as [g|] eqn:Eg; [by apply (Hloop g)|]);
    intros [= <- <-]; exists [], ((k, r) :: open_records m);
    (split; rewrite ?open_records_cons, ?Es; cbn; auto; [lia|]);
    right; right; exists (k, r), (open_records m); (split; [done|]);
    cbn [snd]; rewrite held_blocks, Es, Eg; done.
Qed.

Lemma claim_loop_blocked p now ex limit m kv rest :
  open_records m = kv :: rest → held now kv.2 = true → claim_loop p now ex limit m = (m, Ok []).
Proof.
  induction m as [|[k r] m IH]; [done|]. rewrite open_records_cons. cbn [claim_loop].
  destruct limit as [|limit]; [by destruct (is_applied _)|].
  destruct (or_state r) eqn:Es; cbn [is_applied]; intros Ho Hh.
  1,2: injection Ho as <- <-; rewrite held_blocks in Hh; cbn [snd] in Hh; rewrite Es in Hh;
    by destruct (previous_generation _ _).
  by rewrite (IH Ho Hh).
Qed.

Lemma claim_Ok `{Chrono} o p ttl limit o' claims :
  claim o p ttl limit = (o', Ok claims) →
  validate_projector p = Ok () ∧
  ∃ ex m', checked_claim_expiry (mo_now o) ttl = Ok ex ∧ o' = set_records o m' ∧
    claim_loop p (mo_now o) ex (N.to_nat limit) (mo_records (mo_state o)) = (m', Ok claims).
Proof.
  unfold claim. destruct (_ ≫= _) as [ex|] eqn:E; [|done].
  rewrite !bind_unit_ok in E. destruct E as (Hv & _ & E).
  destruct (claim_loop _ _ _ _ _) as [m' cs] eqn:El. intros [= <- ->].
  split; [done|]. eauto 6.
Qed.

Lemma btree_get_in m k r : NoDup (keys m) → (k, r) ∈ m → btree_get k m = Some r.
Proof.
  unfold keys. induction m as [|[k' r'] m IH]; cbn; [by intros _ ?%elem_of_nil|].
  intros [Hk Hn]%NoDup_cons [E|Hin]%elem_of_cons.
  - injection E as -> ->. by rewrite bool_decide_true.
  - rewrite bool_decide_false; [by apply IH|]. intros <-. destruct Hk.
    apply list_elem_of_fmap. exists (k, r). done.
Qed.

Lemma open_records_in m kv : kv ∈ open_records m → kv ∈ m.
Proof. unfold open_records. rewrite !list_elem_of_In, filter_In. by intros [? _]. Qed.

Lemma outbox_keys_NoDup o : outbox_ok o → NoDup (keys (mo_records (mo_state o))).
Proof.
  intros [-> _ _]. unfold first_sequences. apply NoDup_fmap_2; [apply _|]. apply NoDup_seq.
Qed.

Lemma outbox_key_event o k r :
  outbox_ok o → (k, r) ∈ mo_records (mo_state o) → ev_sequence (or_event r) = k.
Proof.
  intros [_ _ V] Hin. unfold events, keys in V. rewrite map_map in V.
  apply list_elem_of_lookup in Hin as [i Hi].
  assert (E := f_equal (.!! i) V). cbn in E.
  change (map ?f ?l) with (f <$> l) in E. rewrite !list_lookup_fmap, Hi in E. by injection E.
Qed.

(** *** The claim while it lives *)

(** Calls before the claim expires. *)
Definition live_step `{Chrono} (ex : DateTime) (o o' : MemoryCoordinationOutbox) : Prop :=
  mo_now o < ex ∧ outbox_step o o'.

(** A record of the claim: still claimed, or acknowledged. *)
Definition claimed_or_applied (p : rstr) (now ex : DateTime) (o : MemoryCoordinationOutbox)
    (kv : ProjectionSequence * CoordinationOutboxRecord) : Prop :=
  record o kv.1 = Some (claimed_record p now ex kv.2) ∨
  ∃ at_, record o kv.1 = Some (kv.2 <| or_state := Applied at_ |>).

(** What is before a record of the claim is of the claim too, or is projected. *)
Record claim_kept (p : rstr) (now ex : DateTime) (taken : Records) (o : MemoryCoordinationOutbox)
    : Prop := {
  ck_ok : outbox_ok o;
  ck_rows kv : kv ∈ taken → claimed_or_applied p now ex o kv;
  ck_before kv k r : kv ∈ taken → record o k = Some r → (k < kv.1)%N →
    k ∈ keys taken ∨ is_applied (or_state r) = true;
}.

Lemma keys_sorted o : outbox_ok o → StronglySorted N.lt (keys (mo_records (mo_state o))).
Proof.
  intros [-> _ _]. unfold first_sequences. generalize 1%nat.
  induction (length _) as [|n IH]; intros i; cbn; constructor; [apply IH|].
  apply Forall_forall. intros k Hk. apply list_elem_of_fmap in Hk as (j & -> & Hj%elem_of_seq). lia.
Qed.

Lemma open_sorted m : StronglySorted N.lt (keys m) → StronglySorted N.lt (keys (open_records m)).
Proof.
  unfold keys. induction m as [|[k r] m IH]; [done|]. rewrite open_records_cons. cbn [map fst].
  intros [Hs Hf]%StronglySorted_inv. destruct (is_applied _); [by apply IH|]. cbn. constructor; [by apply IH|].
  apply Forall_forall. intros k' (kv & -> & Hin%open_records_in)%list_elem_of_fmap.
  rewrite Forall_forall in Hf. apply Hf, list_elem_of_fmap. by exists kv.
Qed.

Lemma record_in o k r : outbox_ok o → record o k = Some r ↔ (k, r) ∈ mo_records (mo_state o).
Proof.
  intros Ho. split; [|by apply btree_get_in, outbox_keys_NoDup]. unfold record.
  induction (mo_records _) as [|[k' r'] m IH]; cbn; [done|]. case_bool_decide as E.
  - intros [= ->]. subst. constructor.
  - intros ?%IH. by constructor.
Qed.

Lemma in_open m k r : (k, r) ∈ m → is_applied (or_state r) = false → (k, r) ∈ open_records m.
Proof.
  intros Hin Ha. unfold open_records. rewrite list_elem_of_In, filter_In, <- list_elem_of_In.
  split; [done|]. cbn. by rewrite Ha.
Qed.

(** An event of the claim that is not acknowledged stops every other claim. *)
Lemma kept_blocks p now ex taken o kv q ex' limit :
  claim_kept p now ex taken o → mo_now o < ex → kv ∈ taken →
  record o kv.1 = Some (claimed_record p now ex kv.2) →
  claim_loop q (mo_now o) ex' limit (mo_records (mo_state o)) = (mo_records (mo_state o), Ok []).
Proof.
  intros [Ho Hr Hb] Hn Hin Hrec. pose proof (keys_sorted o Ho) as Hs.
  apply (record_in o _ _ Ho) in Hrec. apply in_open in Hrec; [|done].
  destruct (open_records (mo_records (mo_state o))) as [|[k r] rest] eqn:Eo; [by apply not_elem_of_nil in Hrec|].
  assert (Hopen : (k, r) ∈ open_records (mo_records (mo_state o))) by (rewrite Eo; constructor).
  assert (Hna : is_applied (or_state r) = false).
  { unfold open_records in Hopen. rewrite list_elem_of_In, filter_In in Hopen.
    by destruct Hopen as [_ ?%negb_true_iff]. }
  apply open_records_in in Hopen. apply (record_in o _ _ Ho) in Hopen.
  assert (Hk : k ∈ keys taken).
  { apply elem_of_cons in Hrec as [E|Hrec].
    - injection E as <- _. apply list_elem_of_fmap. by exists kv.
    - apply open_sorted in Hs. rewrite Eo in Hs. apply StronglySorted_inv in Hs as [_ Hf].
      rewrite Forall_forall in Hf. assert (Hlt : (k < kv.1)%N).
      { apply Hf, list_elem_of_fmap. by eexists (kv.1, _). }
      destruct (Hb kv k r Hin Hopen Hlt) as [?|?]; [done|congruence]. }
  apply list_elem_of_fmap in Hk as ([k' r'] & Ek & Hin'). cbn in Ek. subst k'.
  eapply claim_loop_blocked; [exact Eo|]. cbn.
  destruct (Hr _ Hin') as [E|[at_ E]]; cbn in E; rewrite Hopen in E; injection E as ->; [|done].
  unfold held. cbn. lia.
Qed.

(** The records a claim does not write. *)
Lemma claim_loop_keeps p now ex limit m m' res k r :
  claim_loop p now ex limit m = (m', res) → (k, r) ∈ m → is_applied (or_state r) = true → (k, r) ∈ m'.
Proof.
  revert limit m' res. induction m as [|[k0 r0] m IH]; intros limit m' res; cbn [claim_loop].
  { destruct limit; by intros [= <- _]. }
  destruct limit as [|limit]; [by intros [= <- _]|].
  destruct (or_state r0) eqn:Es.
  3: { destruct (claim_loop _ _ _ (S limit) m) as [rest cs] eqn:E. intros [= <- _].
       intros [?|Hin]%elem_of_cons Ha; apply elem_of_cons; [by left|right; eauto]. }
  all: destruct (previous_generation _ _) as [g|]; [|by intros [= <- _]];
    destruct (ClaimGeneration_next g) as [g'|]; [|by intros [= <- _]];
    destruct (claim_loop _ _ _ limit m) as [rest cs] eqn:E; intros [= <- _];
    intros [[= -> ->]|Hin]%elem_of_cons Ha; [by rewrite Es in Ha|apply elem_of_cons; right; eauto].
Qed.

Lemma key_record o k : outbox_ok o → k ∈ keys (mo_records (mo_state o)) → ∃ r, record o k = Some r.
Proof.
  intros Ho Hk. apply list_elem_of_fmap in Hk as ([k' r] & -> & Hin). exists r. by apply record_in.
Qed.

Lemma record_key o k r : outbox_ok o → record o k = Some r → k ∈ keys (mo_records (mo_state o)).
Proof. intros Ho Hr%record_in; [|done]. apply list_elem_of_fmap. by exists (k, r). Qed.

(** A step that keeps the records of the claim and what is projected keeps the claim. *)
Lemma kept_mono p now ex taken o o' :
  claim_kept p now ex taken o → outbox_ok o' →
  (∀ kv, kv ∈ taken → claimed_or_applied p now ex o' kv) →
  (∀ k r', record o' k = Some r' → (∃ r, record o k = Some r ∧
     (is_applied (or_state r) = true → is_applied (or_state r') = true)) ∨
     ∀ k', k' ∈ keys (mo_records (mo_state o)) → (k' < k)%N) →
  claim_kept p now ex taken o'.
Proof.
  intros [Ho Hr Hb] Ho' Hr' Hold. split; [done|done|]. intros kv k r' Hin Hk Hlt.
  destruct (Hold k r' Hk) as [(r & Hrec & Ha)|Hnew].
  - destruct (Hb kv k r Hin Hrec Hlt) as [?|?]; [by left|right; auto].
  - assert (kv.1 ∈ keys (mo_records (mo_state o))) as Hkey.
    { destruct (Hr kv Hin) as [E|[at_ E]]; by eapply record_key. }
    apply Hnew in Hkey. lia.
Qed.

Lemma btree_put_get k r m k' r0 :
  btree_get k m = Some r0 → btree_get k' (btree_put k r m) = if k' ==? k then Some r else btree_get k' m.
Proof.
  induction m as [|[k0 v0] m IH]; cbn [btree_get btree_put]; [done|].
  destruct (base.decide (k = k0)) as [<-|E]; [rewrite (bool_decide_eq_true_2 (k = k)) by done|
    rewrite (bool_decide_eq_false_2 (k = k0)) by done]; intros Hg; cbn [btree_get].
  - by destruct (k' ==? k).
  - rewrite (IH Hg). destruct (base.decide (k' = k0)) as [->|?];
      [|by rewrite !(bool_decide_eq_false_2 (k' = k0))].
    rewrite !(bool_decide_eq_true_2 (k0 = k0)) by done. by rewrite bool_decide_eq_false_2.
Qed.

(** Some event of the claim is still claimed, or all of them are acknowledged. *)
Lemma claim_settled p now ex (taken : Records) o :
  (∀ kv, kv ∈ taken → claimed_or_applied p now ex o kv) →
  (∃ kv, kv ∈ taken ∧ record o kv.1 = Some (claimed_record p now ex kv.2)) ∨
  (∀ kv, kv ∈ taken → ∃ at_, record o kv.1 = Some (kv.2 <| or_state := Applied at_ |>)).
Proof.
  induction taken as [|kv taken IH]; intros Hr; [right; by intros kv ?%not_elem_of_nil|].
  destruct (Hr kv) as [?|?]; [constructor|left; exists kv; by split; [constructor|]|].
  destruct IH as [(kv' & ? & ?)|Hall]; [intros kv' ?; apply Hr; by constructor| |].
  - left. exists kv'. by split; [constructor|].
  - right. by intros kv' [->|?]%elem_of_cons; [|apply Hall].
Qed.

Lemma kept_step `{Chrono} p now ex taken o o' :
  claim_kept p now ex taken o → live_step ex o o' → claim_kept p now ex taken o'.
Proof.
  intros Hk [Hlive Hst]. pose proof Hk as [Ho Hr Hb]. pose proof (outbox_step_ok _ _ Ho Hst) as Ho'.
  destruct Hst as [o payload|o q ttl limit|o sq q g|o t].
  - destruct (append o payload) as [o' [r|e]] eqn:E; cbn [fst] in *.
    2: { unfold append in E. destruct (_ ≫= _) as [[]|]; by simplify_eq. }
    destruct (append_shape _ _ _ _ Ho E) as (Hm & _).
    assert (Hin : ∀ k x, record o k = Some x → record o' k = Some x).
    { intros k x Hx. apply record_in; [done|]. rewrite Hm. apply elem_of_app. left. by apply record_in. }
    apply (kept_mono _ _ _ _ o); [done|done| |].
    + intros kv [?|[at_ ?]]%Hr; [left; auto|right; exists at_; auto].
    + intros k r' Hrec. apply (record_in _ _ _ Ho') in Hrec. rewrite Hm in Hrec.
      apply elem_of_app in Hrec as [Hrec|Hrec%list_elem_of_singleton].
      * left. exists r'. split; [by apply record_in|done].
      * right. injection Hrec as -> _. rewrite (bo_keys _ Ho). intros k' Hk'.
        apply list_elem_of_fmap in Hk' as (j & -> & Hj%elem_of_seq). lia.
  - unfold claim in *. destruct (_ ≫= _) as [ex'|]; [|done].
    destruct (claim_loop _ _ _ _ _) as [m cs] eqn:E. cbn [fst] in *.
    destruct (claim_settled p now ex taken o Hr) as [(kv & Hin & Hrec)|Hap].
    + rewrite (kept_blocks p now ex taken o kv) in E by done. injection E as <- <-.
      by destruct Hk as [[] ? ?], o as [? ? []].
    + assert (Hkeep : ∀ k r, record o k = Some r → is_applied (or_state r) = true →
        record (set_records o m) k = Some r).
      { intros k r Hrec Ha. apply record_in; [done|]. eapply claim_loop_keeps; [exact E| |done].
        by apply record_in. }
      apply (kept_mono _ _ _ _ o); [done|done| |].
      * intros kv Hin. right. destruct (Hap kv Hin) as [at_ Hrec]. exists at_. by apply Hkeep.
      * intros k r' Hrec. left. destruct (claim_loop_shape _ _ _ _ _ _ _ E) as [Hkeys _].
        assert (Hkey : k ∈ keys (mo_records (mo_state o)))
          by (rewrite <- Hkeys; by apply (record_key (set_records o m) k r')).
        destruct (key_record _ _ Ho Hkey) as [r Hrec0]. exists r. split; [done|]. intros Ha.
        rewrite (Hkeep _ _ Hrec0 Ha) in Hrec. by injection Hrec as <-.
  - unfold acknowledge in *. destruct (validate_projector q); [|done].
    destruct (btree_get sq _) as [r0|] eqn:Eg; [|done]. destruct (or_state r0) eqn:Es; try done.
    destruct (_ && _); [|done]. cbn [fst] in *. set (r1 := r0 <| or_state := _ |>) in *.
    assert (Hget : ∀ k, record (set_records o (btree_put sq r1 (mo_records (mo_state o)))) k
      = if k ==? sq then Some r1 else record o k) by (intros k; by eapply btree_put_get).
    apply (kept_mono _ _ _ _ o); [done|done| |].
    + intros kv Hin. unfold claimed_or_applied. rewrite Hget. case_bool_decide as Ek; [|by apply Hr].
      right. exists (mo_now o). subst sq. destruct (Hr kv Hin) as [E|[at_ E]]; unfold record in E;
        rewrite Eg in E; injection E as ->; [done|discriminate Es].
    + intros k r'. rewrite Hget. case_bool_decide as Ek; [|by left; exists r'].
      intros [= <-]. left. exists r0. split; [by subst k|done].
  - by destruct Hk as [[] ? ?].
Qed.

Lemma claim_starts o p limit o' claims ex m' taken rest :
  outbox_ok o → outbox_ok o' → o' = set_records o m' →
  claims_prefix p (mo_now o) ex limit (mo_records (mo_state o)) m' claims taken rest →
  claim_kept p (mo_now o) ex taken o'.
Proof.
  intros Ho Ho' -> [Hs _ Ha _ _ _]. pose proof (keys_sorted _ Ho') as Hsort.
  change (mo_records (mo_state (set_records o m'))) with m' in *. split; [done| |].
  - intros kv Hin. left. apply record_in; [done|]. apply open_records_in.
    change (mo_records (mo_state (set_records o m'))) with m'. rewrite Ha. apply elem_of_app. left. apply list_elem_of_fmap. exists kv. by destruct kv.
  - intros kv k r Hin Hrec Hlt. destruct (is_applied (or_state r)) eqn:E; [by right|left].
    apply record_in in Hrec; [|done]. apply in_open in Hrec; [|done].
    change (mo_records (mo_state (set_records o m'))) with m' in Hrec. rewrite Ha in Hrec.
    apply elem_of_app in Hrec as [Hrec|Hrec].
    + apply list_elem_of_fmap in Hrec as (kv' & E' & Hin'). injection E' as -> _.
      apply list_elem_of_fmap. by exists kv'.
    + exfalso. apply open_sorted in Hsort. rewrite Ha in Hsort. unfold keys in Hsort.
      rewrite map_app in Hsort.
      assert (kv.1 < k)%N; [|lia]. apply (StronglySorted_app_1_elem_of _ _ _ _ _ Hsort).
      * rewrite map_map. apply list_elem_of_fmap. by exists kv.
      * apply list_elem_of_fmap. by exists (k, r).
Qed.

Lemma claim_ok_preserved `{Chrono} o p ttl limit o' claims :
  outbox_ok o → claim o p ttl limit = (o', Ok claims) → outbox_ok o'.
Proof.
  intros Ho E. pose proof (outbox_step_ok _ _ Ho (ostep_claim o p ttl limit)) as Hk.
  by rewrite E in Hk.
Qed.

Lemma acknowledged_ok o sq q g o' :
  acknowledge o sq q g = (o', Ok ()) →
  ∃ r, record o sq = Some r ∧ ∃ owner gen ca ex, or_state r = Claimed owner gen ca ex ∧ q = owner ∧ g = gen.
Proof.
  unfold acknowledge. destruct (validate_projector q); [|done].
  fold (record o sq). destruct (record o sq) as [r|]; [|done].
  destruct (or_state r) as [|owner gen ca ex|] eqn:Es; try done. destruct (_ && _) eqn:E; [|done].
  intros _. bool_hyps. exists r. split; [done|]. by exists owner, gen, ca, ex.
Qed.

(** C20. A claim takes the head of the line and holds it.  It returns the longest run of unprojected
    events, oldest first and up to the limit, that no live claim interrupts, each under a generation
    above that of its previous claim.  Whatever calls are made before it expires, each of its events
    is still claimed or has been acknowledged, and only the claimant under the claim's generation
    can acknowledge it; and as long as one of them is not acknowledged, nobody obtains any event,
    so the live claims of two projectors never overlap. *)
Theorem claim_is_exclusive_prefix `{Chrono} (deployment : DeploymentId) (start : DateTime)
    (o o' : MemoryCoordinationOutbox) (p : rstr) (ttl : Duration) (limit : N)
    (claims : list CoordinationOutboxClaim) :
  rtc outbox_step (MemoryCoordinationOutbox_new deployment start) o →
  claim o p ttl limit = (o', Ok claims) →
  ∃ ex taken rest,
    checked_claim_expiry (mo_now o) ttl = Ok ex ∧
    claims_prefix p (mo_now o) ex (N.to_nat limit) (mo_records (mo_state o))
      (mo_records (mo_state o')) claims taken rest ∧
    ∀ o1, rtc (live_step ex) o' o1 →
      (∀ kv, kv ∈ taken → claimed_or_applied p (mo_now o) ex o1 kv ∧
         ∀ q g o2, acknowledge o1 kv.1 q g = (o2, Ok ()) → q = p ∧ g = next_generation kv.2) ∧
      (∀ kv q ttl' limit' o2 claims', kv ∈ taken → mo_now o1 < ex →
         record o1 kv.1 = Some (claimed_record p (mo_now o) ex kv.2) →
         claim o1 q ttl' limit' = (o2, Ok claims') → claims' = [] ∧ mo_state o2 = mo_state o1).
Proof.
  intros Hrun Hc. assert (Ho : outbox_ok o).
  { apply (rtc_preserves outbox_step outbox_ok outbox_step_ok _ _ Hrun). by split. }
  pose proof (claim_ok_preserved _ _ _ _ _ _ Ho Hc) as Ho'.
  apply claim_Ok in Hc as (_ & ex & m' & He & E & Hl).
  destruct (claim_loop_prefix _ _ _ _ _ _ _ Hl) as (taken & rest & Hp).
  exists ex, taken, rest. split; [done|]. split; [by subst o'|].
  pose proof (claim_starts _ _ _ _ _ _ _ _ _ Ho Ho' E Hp) as Hk. intros o1 Hlive.
  apply (rtc_preserves (live_step ex) (claim_kept p (mo_now o) ex taken)) in Hlive; [|apply kept_step|done].
  clear Hk. split.
  - intros kv Hin. pose proof (ck_rows _ _ _ _ _ Hlive kv Hin) as Hr. split; [done|].
    intros q g o2 Hack. apply acknowledged_ok in Hack as (r & Hrec & owner & gen & ca & ex' & Es & -> & ->).
    destruct Hr as [Hr|[at_ Hr]]; rewrite Hr in Hrec; injection Hrec as <-; [|done].
    by injection Es as -> -> _ _.
  - intros kv q ttl' limit' o2 claims' Hin Hn Hrec Hc'.
    apply claim_Ok in Hc' as (_ & ex' & m2 & _ & -> & Hl').
    rewrite (kept_blocks p (mo_now o) ex taken o1 kv) in Hl' by done. injection Hl' as <- <-.
    split; [done|]. by destruct o1 as [? ? []].
Qed.

(** While the first event is claimed, the second is not to be had. *)
Lemma claim_is_exclusive_prefix_witness :
  ∃ o' claims, @claim chrono_sample sample_outbox sample_projector (from_secs 1) 1%N =
    (o', Ok claims) ∧ map (λ c, ev_sequence (or_event (oc_record c))) claims = [1]%N ∧
  ∀ q limit' o2 claims', @claim chrono_sample o' q (from_secs 1) limit' = (o2, Ok claims') →
    claims' = [].
Proof.
  do 2 eexists. split; [vm_compute; reflexivity|]. split; [vm_compute; reflexivity|].
  intros q limit' o2 claims' Hc'.
  destruct (@claim_is_exclusive_prefix chrono_sample (str "prod") 10 sample_outbox _ sample_projector
    (from_secs 1) 1%N _ sample_outbox_run ltac:(vm_compute; reflexivity))
    as (ex & taken & rest & He & [Hs Hcl Ha _ _ _] & Hlive).
  vm_compute in He. injection He as <-.
  destruct taken as [|kv [|? ?]]; [vm_compute in Hcl; discriminate| |vm_compute in Hcl; discriminate].
  destruct (Hlive _ (rtc_refl _ _)) as [_ Hx]. vm_compute in Hs. injection Hs as <- <-.
  eapply (Hx _ q (from_secs 1) limit' o2 claims');
    [apply list_elem_of_here|vm_compute; reflexivity|vm_compute; reflexivity|exact Hc'].
Defined.

(** The record a claim left behind. *)
Lemma claim_record `{Chrono} o p ttl limit o' claims c :
  outbox_ok o → claim o p ttl limit = (o', Ok claims) → c ∈ claims →
  let sq := ev_sequence (or_event (oc_record c)) in
  ∃ r ex, (sq, r) ∈ open_records (mo_records (mo_state o)) ∧
    c = claim_of p (mo_now o) ex (sq, r) ∧ held (mo_now o) r = false ∧
    (sq, oc_record c) ∈ open_records (mo_records (mo_state o')).
Proof.
  intros Ho Hc Hin. apply claim_Ok in Hc as (_ & ex & m' & _ & -> & Hl).
  destruct (claim_loop_prefix _ _ _ _ _ _ _ Hl) as (taken & rest & [Hs -> Ha _ Hf _]).
  apply list_elem_of_fmap in Hin as ([k r] & -> & Hin).
  assert (Hopen : (k, r) ∈ open_records (mo_records (mo_state o))).
  { rewrite Hs. set_solver. }
  cbv zeta. change (or_event (oc_record (claim_of p (mo_now o) ex (k, r)))) with (or_event r).
  rewrite (outbox_key_event o k r Ho (open_records_in _ _ Hopen)).
  exists r, ex. split_and!; [done|done| |].
  - rewrite Forall_forall in Hf. apply (Hf (k, r) Hin).
  - change (mo_records (mo_state (set_records o m'))) with m'. rewrite Ha. apply elem_of_app. left.
    apply list_elem_of_fmap. by exists (k, r).
Qed.

(** A projector that lost its claim cannot acknowledge it: once an event has been claimed again
    after expiry, by anyone, an acknowledgement under the earlier claim is refused as stale at any
    time and the record is left as it is. *)
Theorem superseded_claim_cannot_acknowledge `{Chrono} (o o1 o2 : MemoryCoordinationOutbox)
    (p q : rstr) (ttl ttl' : Duration) (limit limit' : N) (t t' : DateTime)
    (claims claims' : list CoordinationOutboxClaim) (c c' : CoordinationOutboxClaim) :
  outbox_ok o → claim o p ttl limit = (o1, Ok claims) → c ∈ claims →
  claim (o1 <| mo_now := t |>) q ttl' limit' = (o2, Ok claims') → c' ∈ claims' →
  or_event (oc_record c') = or_event (oc_record c) →
  acknowledge (o2 <| mo_now := t' |>) (ev_sequence (or_event (oc_record c))) p
    (oc_claim_generation c) = (o2 <| mo_now := t' |>, Err StaleClaim).
Proof.
  intros Ho H1 Hin1 H2 Hin2 He.
  pose proof (claim_ok_preserved _ _ _ _ _ _ Ho H1) as Ho1.
  assert (Ho1' : outbox_ok (o1 <| mo_now := t |>)) by (destruct Ho1; by split).
  pose proof (claim_ok_preserved _ _ _ _ _ _ Ho1' H2) as Ho2.
  destruct (claim_record _ _ _ _ _ _ _ Ho H1 Hin1) as (r & ex & _ & Hc & _ & Hopen1).
  destruct (claim_record _ _ _ _ _ _ _ Ho1' H2 Hin2) as (r' & ex' & Hopen' & Hc' & Hfree & Hopen2).
  rewrite He in Hopen', Hopen2, Hc'. set (sq := ev_sequence _) in *.
  change (mo_records (mo_state (o1 <| mo_now := t |>))) with (mo_records (mo_state o1)) in Hopen'.
  assert (Hr : r' = oc_record c).
  { pose proof (btree_get_in _ _ _ (outbox_keys_NoDup _ Ho1) (open_records_in _ _ Hopen')) as E1.
    pose proof (btree_get_in _ _ _ (outbox_keys_NoDup _ Ho1) (open_records_in _ _ Hopen1)) as E2.
    congruence. }
  assert (Hgen : oc_claim_generation c' = (oc_claim_generation c + 1)%N).
  { rewrite Hc', Hc in *. cbn [oc_claim_generation claim_of snd oc_record] in *. subst r'.
    done. }
  unfold acknowledge. destruct (claim_Ok _ _ _ _ _ _ H1) as [-> _].
  change (mo_records (mo_state (o2 <| mo_now := t' |>))) with (mo_records (mo_state o2)).
  rewrite (btree_get_in _ _ _ (outbox_keys_NoDup _ Ho2) (open_records_in _ _ Hopen2)).
  rewrite Hc' at 1. cbn [or_state oc_record claim_of claimed_record set_field snd].
  destruct (_ && _) eqn:Eb; [|done]. exfalso. bool_hyps.
  assert (next_generation r' = oc_claim_generation c') as Hng by (by rewrite Hc').
  cbn in *. congruence || lia.
Qed.

Definition sample_claimed : MemoryCoordinationOutbox :=
  (@claim chrono_sample sample_outbox sample_projector (from_secs 1) 1%N).1.
Definition sample_reclaimed : MemoryCoordinationOutbox :=
  (@claim chrono_sample (sample_claimed <| mo_now := from_secs 5 |>) (str "other") (from_secs 1) 1%N).1.

Definition sample_wake : CoordinationEvent :=
  {| ev_deployment := str "prod"; ev_sequence := 1%N;
     ev_payload := WakeWorker 7 WakeupReason.Effects; ev_recorded_at := 10 |}.
Definition sample_claim (p : rstr) (g : N) (at_ : DateTime) : CoordinationOutboxClaim :=
  {| oc_record := {| or_event := sample_wake; or_state := Claimed p g at_ (at_ + from_secs 1) |};
     oc_claim_generation := g |}.

Lemma sample_outbox_ok : outbox_ok sample_outbox.
Proof. by split; vm_compute. Qed.

Lemma superseded_claim_cannot_acknowledge_witness :
  acknowledge (sample_reclaimed <| mo_now := from_secs 5 |>) 1%N sample_projector 1%N =
  (sample_reclaimed <| mo_now := from_secs 5 |>, Err StaleClaim).
Proof.
  apply (@superseded_claim_cannot_acknowledge chrono_sample sample_outbox sample_claimed
    sample_reclaimed sample_projector (str "other") (from_secs 1) (from_secs 1) 1%N 1%N (from_secs 5)
    (from_secs 5) [sample_claim sample_projector 1%N 10]
    [sample_claim (str "other") 2%N (from_secs 5)]
    (sample_claim sample_projector 1%N 10) (sample_claim (str "other") 2%N (from_secs 5))).
  - apply sample_outbox_ok.
  - vm_compute. reflexivity.
  - apply list_elem_of_singleton. reflexivity.
  - vm_compute. reflexivity.
  - apply list_elem_of_singleton. reflexivity.
  - reflexivity.
Defined.

(** ** The projector against its interfaces *)

(** What the projector relies on of an outbox: which events it stores, under their sequences, and
    which of them are acknowledged.  A claim is a run of events such that everything stored before
    one of them is acknowledged or claimed with it; events are added at the end. *)
Class OutboxLaws (O : Type) `{!CoordinationOutbox O} := {
  stored : O → CoordinationEvent → Prop;
  acked : O → CoordinationEvent → Prop;
  outbox_inv : O → Prop;
  outbox_env : O → O → Prop;
  stored_unique o e e' : outbox_inv o → stored o e → stored o e' →
    ev_sequence e = ev_sequence e' → e = e';
  acked_stored o e : acked o e → stored o e;
  env_keeps o o' : outbox_inv o → outbox_env o o' →
    outbox_inv o' ∧ (∀ e, stored o e → stored o' e) ∧ (∀ e, acked o' e ↔ acked o e) ∧
    (∀ e, stored o' e → stored o e ∨ ∀ e0, stored o e0 → (ev_sequence e0 < ev_sequence e)%N);
  claim_keeps o p ttl limit o' res : outbox_inv o → outbox_claim o p ttl limit = (o', res) →
    outbox_inv o' ∧ (∀ e, stored o' e ↔ stored o e) ∧ (∀ e, acked o' e ↔ acked o e);
  claim_in_order o p ttl limit o' claims : outbox_inv o →
    outbox_claim o p ttl limit = (o', Ok claims) →
    StronglySorted N.lt (map (λ c, ev_sequence (or_event (oc_record c))) claims) ∧
    (∀ c, c ∈ claims → stored o' (or_event (oc_record c))) ∧
    (∀ c e, c ∈ claims → stored o' e → (ev_sequence e < ev_sequence (or_event (oc_record c)))%N →
       acked o' e ∨ ∃ c', c' ∈ claims ∧ or_event (oc_record c') = e);
  acknowledge_keeps o sq p g o' res : outbox_inv o → outbox_acknowledge o sq p g = (o', res) →
    outbox_inv o' ∧ (∀ e, stored o' e ↔ stored o e) ∧
    (∀ e, acked o' e ↔ acked o e ∨ res = Ok () ∧ stored o e ∧ ev_sequence e = sq);
}.

(** And of a projection: an accepted event is covered, for good. *)
Class ProjectionLaws (P : Type) `{!CoordinationProjection P} := {
  covers : P → CoordinationEvent → Prop;
  projection_inv : P → Prop;
  apply_keeps p e p' res : projection_inv p → projection_apply p e = (p', res) →
    projection_inv p' ∧ (∀ e', covers p e' → covers p' e') ∧
    (∀ outcome, res = Ok outcome → covers p' e);
}.

Section ProjectorSafety.
Context {O P : Type} `{OutboxLaws O} `{ProjectionLaws P}.

(** What tasks do to the two stores.  Events are added and time passes; anybody claims and applies
    events; and a projector acknowledges an event in turn, after the projection has it. *)
Inductive peer_step : O * P → O * P → Prop :=
| peer_env o o' p : outbox_env o o' → peer_step (o, p) (o', p)
| peer_claim o p q ttl limit : peer_step (o, p) ((outbox_claim o q ttl limit).1, p)
| peer_apply o p e : peer_step (o, p) (o, (projection_apply p e).1)
| peer_acknowledge o p sq q g :
    (∀ e, stored o e → ev_sequence e = sq → covers p e) →
    (∀ e, stored o e → (ev_sequence e < sq)%N → acked o e) →
    peer_step (o, p) ((outbox_acknowledge o sq q g).1, p).

(** Everything acknowledged is in the projection, and so is everything before it. *)
Record projected (st : O * P) : Prop := {
  pj_outbox : outbox_inv st.1;
  pj_projection : projection_inv st.2;
  pj_covers e : acked st.1 e → covers st.2 e;
  pj_order e e' : acked st.1 e → stored st.1 e' → (ev_sequence e' < ev_sequence e)%N → acked st.1 e';
}.

(** What no step takes back. *)
Record onward (st st' : O * P) : Prop := {
  on_stored e : stored st.1 e → stored st'.1 e;
  on_acked e : acked st.1 e → acked st'.1 e;
  on_covers e : covers st.2 e → covers st'.2 e;
  on_new e : stored st'.1 e → stored st.1 e ∨ ∀ e0, stored st.1 e0 → (ev_sequence e0 < ev_sequence e)%N;
}.

#[export] Instance onward_preorder : PreOrder onward.
Proof.
  split; [split; auto|]. intros x y z [S1 A1 C1 N1] [S2 A2 C2 N2]. split; auto.
  intros e [He|He]%N2; [auto|]. right. auto.
Qed.

Lemma peer_step_keeps st st' : projected st → peer_step st st' → projected st' ∧ onward st st'.
Proof.
  intros [Io Ip C Or] Hs. destruct Hs as [o o' p He|o p q ttl limit|o p e|o p sq q g Hc Ht]; cbn [fst snd] in *.
  - destruct (env_keeps _ _ Io He) as (I' & S' & A' & N'). split; split; cbn; auto.
    + intros e ?%A'. auto.
    + intros e e' Ha%A' Hst Hlt. apply A'. destruct (N' _ Hst) as [?|Hnew]; [by eapply Or|].
      apply acked_stored, Hnew in Ha. lia.
    + intros e ?. by apply A'.
  - destruct (outbox_claim _ _ _ _) as [o' res] eqn:E. cbn.
    destruct (claim_keeps _ _ _ _ _ _ Io E) as (I' & S' & A').
    split; split; cbn; auto; [intros e ?%A'; auto| |intros e ?; by apply S'|intros e ?; by apply A'|].
    + intros e e' Ha%A' Hst%S' Hlt. apply A'. by eapply Or.
    + intros e ?%S'. by left.
  - destruct (projection_apply p e) as [p' res] eqn:E. cbn.
    destruct (apply_keeps _ _ _ _ Ip E) as (I' & K & _). split; split; cbn; auto.
  - destruct (outbox_acknowledge _ _ _ _) as [o' res] eqn:E. cbn.
    destruct (acknowledge_keeps _ _ _ _ _ _ Io E) as (I' & S' & A').
    split; split; cbn; auto; [| |intros e ?; by apply S'|intros e ?; apply A'; by left|intros e ?%S'; by left].
    + intros e [?|(_ & Hst & Esq)]%A'; auto.
    + intros e e' Ha Hst%S' Hlt. apply A'. left. apply A' in Ha as [Ha|(_ & _ & <-)]; [by eapply Or|by apply Ht].
Qed.

Lemma peer_run_keeps st st' : projected st → rtc peer_step st st' → projected st' ∧ onward st st'.
Proof.
  intros Hp Hr. induction Hr as [|x y z Hxy _ IH]; [split; [done|reflexivity]|].
  destruct (peer_step_keeps _ _ Hp Hxy) as [Hy Hon]. destruct (IH Hy) as [Hz Hon']. split; [done|by etrans].
Qed.

(** The claims a projector still works on. *)
Record pending (claims : list CoordinationOutboxClaim) (st : O * P) : Prop := {
  pg_sorted : StronglySorted N.lt (map (λ c, ev_sequence (or_event (oc_record c))) claims);
  pg_stored c : c ∈ claims → stored st.1 (or_event (oc_record c));
  pg_before c e : c ∈ claims → stored st.1 e → (ev_sequence e < ev_sequence (or_event (oc_record c)))%N →
    acked st.1 e ∨ ∃ c', c' ∈ claims ∧ or_event (oc_record c') = e;
}.

Lemma pending_onward claims st st' : pending claims st → onward st st' → pending claims st'.
Proof.
  intros [Hs Hst Hb] [S A C N]. split; [done|auto|]. intros c e Hc He Hlt.
  destruct (N _ He) as [He0|Hnew].
  - destruct (Hb c e Hc He0 Hlt) as [?|?]; [left; auto|by right].
  - specialize (Hnew _ (Hst c Hc)). lia.
Qed.

(** It is the turn of the first of them. *)
Lemma pending_turn c claims st e :
  pending (c :: claims) st → stored st.1 e →
  (ev_sequence e < ev_sequence (or_event (oc_record c)))%N → acked st.1 e.
Proof.
  intros [Hs Hst Hb] He Hlt. destruct (Hb c e) as [?|(c' & Hin & E)]; [constructor|done|done|done|].
  exfalso. apply elem_of_cons in Hin as [->|Hin]; [subst e; lia|].
  cbn in Hs. apply StronglySorted_inv in Hs as [_ Hf]. rewrite Forall_forall in Hf.
  assert (ev_sequence (or_event (oc_record c)) < ev_sequence e)%N; [|lia].
  apply Hf, list_elem_of_fmap. exists c'. by subst e.
Qed.

Lemma pending_rest c claims st :
  pending (c :: claims) st → acked st.1 (or_event (oc_record c)) → pending claims st.
Proof.
  intros [Hs Hst Hb] Ha. split.
  - cbn in Hs. by apply StronglySorted_inv in Hs as [? _].
  - intros c' ?. apply Hst. by constructor.
  - intros c' e Hc He Hlt. destruct (Hb c' e) as [?|(c2 & Hin & E)]; [by constructor|done|done|by left|].
    apply elem_of_cons in Hin as [->|Hin]; [left; by subst e|right; eauto].
Qed.

Lemma claimed_pending o q ttl limit o' claims p :
  outbox_inv o → outbox_claim o q ttl limit = (o', Ok claims) → pending claims (o', p).
Proof. intros Io Ec. destruct (claim_in_order _ _ _ _ _ _ Io Ec) as (? & ? & ?). by split. Qed.

(** The acknowledgement of the first of them is in turn. *)
Lemma acknowledge_in_turn claims c st q g :
  projected st → pending (c :: claims) st → covers st.2 (or_event (oc_record c)) →
  peer_step st ((outbox_acknowledge st.1 (ev_sequence (or_event (oc_record c))) q g).1, st.2).
Proof.
  destruct st as [o p]. intros Hp Hg Hc. cbn [fst snd] in *.
  apply peer_acknowledge; [|intros e; by apply (pending_turn c claims (o, p))].
  intros e He Es. assert (e = or_event (oc_record c)) as ->; [|done].
  apply (stored_unique o); [apply Hp|done|apply (pg_stored _ _ Hg); constructor|done].
Qed.

(** A run of the projector keeps an invariant that its own steps and the other tasks keep. *)
Section Run.
Context (I : O * P → Prop) (others : nat → O * P → O * P).
Hypothesis I_projected : ∀ st, I st → projected st.
Hypothesis I_peer : ∀ st st', I st → peer_step st st' → I st'.
Hypothesis I_others : ∀ i st, I st → I (others i st) ∧ onward st (others i st).

Lemma own_step st st' : I st → peer_step st st' → I st' ∧ onward st st'.
Proof using I_projected I_peer. intros Hi Hs. split; [eauto|]. by apply peer_step_keeps; [apply I_projected|]. Qed.

Lemma project_claims_keeps self claims step n st st' res :
  I st → pending claims st → project_claims others self claims step n st = (st', res) →
  I st' ∧ onward st st' ∧
  ∀ m, res = Ok m → m = (n + N.of_nat (length claims))%N ∧
    ∀ c, c ∈ claims → acked st'.1 (or_event (oc_record c)).
Proof using All.
  revert step n st. induction claims as [|c claims IH]; intros step n st Hi Hg; cbn [project_claims].
  { intros [= <- <-]. split_and!; [done|reflexivity|]. intros m [= <-]. split; [cbn; lia|by intros c ?%not_elem_of_nil]. }
  destruct (I_others step st Hi) as [Hi1 On1]. pose proof (pending_onward _ _ _ Hg On1) as Hg1.
  destruct (others step st) as [o1 p1].
  destruct (own_step _ _ Hi1 (peer_apply o1 p1 (or_event (oc_record c)))) as [Hi2 On2].
  destruct (projection_apply p1 _) as [p2 out] eqn:Ea. cbn [fst] in Hi2, On2.
  assert (On12 : onward st (o1, p2)) by (by etrans). clear On1 On2.
  destruct (apply_keeps _ _ _ _ (pj_projection _ (I_projected _ Hi1)) Ea) as (_ & _ & Hnew).
  destruct out as [outcome|e]; [|by intros [= <- <-]].
  specialize (Hnew _ eq_refl). destruct (I_others (S step) (o1, p2) Hi2) as [Hi3 On3].
  apply (on_covers _ _ On3) in Hnew. assert (On13 := transitivity On12 On3).
  destruct (others (S step) (o1, p2)) as [o3 p3]. cbn [fst snd] in Hnew. clear On12 On3.
  pose proof (pending_onward _ _ _ Hg On13) as Hg3.
  assert (R4 : peer_step (o3, p3) ((outbox_acknowledge o3 (ev_sequence (or_event (oc_record c)))
    (cp_projector self) (oc_claim_generation c)).1, p3))
    by (by apply (acknowledge_in_turn claims c (o3, p3)); [apply I_projected|..]).
  destruct (own_step _ _ Hi3 R4) as [Hi4 On4].
  destruct (outbox_acknowledge o3 _ _ _) as [o4 ack] eqn:Ek. cbn [fst] in Hi4, On4.
  assert (On := transitivity On13 On4).
  destruct ack as [[]|e]; [|by intros [= <- <-]].
  assert (Ha : acked o4 (or_event (oc_record c))).
  { apply (acknowledge_keeps _ _ _ _ _ _ (pj_outbox _ (I_projected _ Hi3)) Ek). right.
    split; [done|]. split; [apply (pg_stored _ _ Hg3); constructor|done]. }
  intros Hrun. destruct (IH _ _ _ Hi4 (pending_rest _ _ _ (pending_onward _ _ _ Hg On) Ha) Hrun)
    as (Hi5 & On5 & Hok).
  split_and!; [done|by etrans|]. intros m Hm. destruct (Hok m Hm) as [-> Hall]. split; [cbn [length]; lia|].
  intros c' [->|Hin]%elem_of_cons; [|by apply Hall]. by apply (on_acked _ _ On5).
Qed.

Lemma project_once_keeps self st st' res :
  I st → project_once others self st = (st', res) →
  I st' ∧ ∀ n, res = Ok n → ∃ o1 claims,
    outbox_claim st.1 (cp_projector self) (cp_claim_ttl self) (cp_batch_size self) = (o1, Ok claims) ∧
    n = N.of_nat (length claims) ∧ ∀ c, c ∈ claims → acked st'.1 (or_event (oc_record c)).
Proof using All.
  intros Hi. unfold project_once. destruct st as [o p]. cbn [fst].
  destruct (own_step _ _ Hi (peer_claim o p (cp_projector self) (cp_claim_ttl self) (cp_batch_size self)))
    as [Hi1 _].
  destruct (outbox_claim o _ _ _) as [o1 claims] eqn:Ec. cbn [fst] in Hi1.
  destruct claims as [claims|e]; [|by intros [= <- <-]].
  intros Hrun. destruct (project_claims_keeps _ _ _ _ _ _ _ Hi1
    (claimed_pending _ _ _ _ _ _ p (pj_outbox _ (I_projected _ Hi)) Ec) Hrun) as (Hi2 & _ & Hok).
  split; [done|]. intros n Hn. exists o1, claims. destruct (Hok n Hn) as [-> ?]. by split_and!.
Qed.
End Run.
End ProjectorSafety.

(** *** Any number of projectors *)

(** A projector at work: the claims it has left, and whether the projection has taken the first. *)
Record Working := {
  wk_self : CoordinationProjector;
  wk_claims : list CoordinationOutboxClaim;
  wk_applied : bool;
}.

(** The outbox, together with the projectors that work on it. *)
Definition Crowded (O : Type) : Type := O * gmap nat Working.

#[export] Instance crowded_outbox {O} `{!CoordinationOutbox O} : CoordinationOutbox (Crowded O) := {|
  outbox_claim '(o, ws) p ttl limit := let '(o', res) := outbox_claim o p ttl limit in ((o', ws), res);
  outbox_acknowledge '(o, ws) sq p g := let '(o', res) := outbox_acknowledge o sq p g in ((o', ws), res);
|}.

#[export] Program Instance crowded_laws {O} `{OutboxLaws O} : OutboxLaws (Crowded O) := {|
  stored ow := stored ow.1;
  acked ow := acked ow.1;
  outbox_inv ow := outbox_inv ow.1;
  outbox_env ow ow' := outbox_env ow.1 ow'.1 ∧ ow.2 = ow'.2;
|}.
Next Obligation. intros O ? ? o e e'. apply stored_unique. Qed.
Next Obligation. intros O ? ? o e. apply acked_stored. Qed.
Next Obligation. intros O ? ? o o' Io [? _]. by apply env_keeps. Qed.
Next Obligation.
  intros O ? ? [o ws] p ttl limit o' res Io. cbn. destruct (outbox_claim o _ _ _) eqn:E.
  intros [= <- <-]. by eapply claim_keeps.
Qed.
Next Obligation.
  intros O ? ? [o ws] p ttl limit o' claims Io. cbn. destruct (outbox_claim o _ _ _) eqn:E.
  intros [= <- ->]. by eapply (claim_in_order o).
Qed.
Next Obligation.
  intros O ? ? [o ws] sq p g o' res Io. cbn. destruct (outbox_acknowledge o _ _ _) eqn:E.
  intros [= <- <-]. by eapply acknowledge_keeps.
Qed.

Section Crowd.
Context {O P : Type} `{OutboxLaws O} `{ProjectionLaws P}.

(** What happens beside a projector: events are added and time passes, and other projectors go
    through [project_once], each step at any time.  A projector begins with a claim, whatever became of
    its last run; it stops at the first error. *)
Inductive crowd_step : Crowded O * P → Crowded O * P → Prop :=
| crowd_env o o' ws p : outbox_env o o' → crowd_step ((o, ws), p) ((o', ws), p)
| crowd_claim o o' ws p i self res :
    outbox_claim o (cp_projector self) (cp_claim_ttl self) (cp_batch_size self) = (o', res) →
    crowd_step ((o, ws), p)
      ((o', match res with Ok claims => <[i := Build_Working self claims false]> ws | Err _ => delete i ws end), p)
| crowd_apply o ws p p' i self c claims res :
    ws !! i = Some (Build_Working self (c :: claims) false) →
    projection_apply p (or_event (oc_record c)) = (p', res) →
    crowd_step ((o, ws), p)
      ((o, match res with Ok _ => <[i := Build_Working self (c :: claims) true]> ws | Err _ => delete i ws end), p')
| crowd_acknowledge o o' ws p i self c claims res :
    ws !! i = Some (Build_Working self (c :: claims) true) →
    outbox_acknowledge o (ev_sequence (or_event (oc_record c))) (cp_projector self) (oc_claim_generation c)
      = (o', res) →
    crowd_step ((o, ws), p)
      ((o', match res with Ok _ => <[i := Build_Working self claims false]> ws | Err _ => delete i ws end), p).

(** Each projector works on its claims in turn. *)
Definition working_ok (st : O * P) (w : Working) : Prop :=
  pending (wk_claims w) st ∧
  ∀ c, wk_applied w = true → head (wk_claims w) = Some c → covers st.2 (or_event (oc_record c)).

Definition crowd_ok (st : Crowded O * P) : Prop :=
  projected (st.1.1, st.2) ∧ map_Forall (λ _, working_ok (st.1.1, st.2)) st.1.2.

Lemma working_onward st st' w : onward st st' → working_ok st w → working_ok st' w.
Proof. intros Hon [Hp Hc]. split; [by eapply pending_onward|]. intros c Ha Hh. apply (on_covers _ _ Hon). auto. Qed.

(** A step of the two stores, with what becomes of a projector. *)
Lemma crowd_moves o o' (ws ws' : gmap nat Working) p p' :
  crowd_ok ((o, ws), p) → peer_step (o, p) (o', p') →
  (∀ i w, ws' !! i = Some w → ws !! i = Some w ∨ working_ok (o', p') w) →
  crowd_ok ((o', ws'), p') ∧ onward (o, p) (o', p').
Proof.
  intros [Hp Hw] Hs Hnew. destruct (peer_step_keeps _ _ Hp Hs) as [Hp' Hon].
  split; [|done]. split; [done|]. intros i w Hi. destruct (Hnew i w Hi) as [Hold|?]; [|done].
  by apply (working_onward (o, p)), (Hw i).
Qed.

Lemma delete_old (ws : gmap nat Working) i j w (Q : Prop) :
  delete i ws !! j = Some w → ws !! j = Some w ∨ Q.
Proof. rewrite lookup_delete_Some. by intros [_ ?]; left. Qed.

Lemma insert_new (ws : gmap nat Working) i j w0 w (Q : Working → Prop) :
  Q w0 → <[i := w0]> ws !! j = Some w → ws !! j = Some w ∨ Q w.
Proof. intros Hq. rewrite lookup_insert_Some. by intros [[_ <-]|[_ ?]]; [right|left]. Qed.

Lemma crowd_step_keeps st st' :
  crowd_ok st → crowd_step st st' → crowd_ok st' ∧ onward (st.1.1, st.2) (st'.1.1, st'.2).
Proof.
  intros Hok Hs. pose proof Hok as [Hp Hw].
  destruct Hs as [o o' ws p He|o o' ws p i self res Hc|o ws p p' i self c claims res Hi Ha|
    o o' ws p i self c claims res Hi Hk]; cbn [fst snd] in *.
  - apply crowd_moves with ws; [done|by constructor|auto].
  - pose proof (peer_claim o p (cp_projector self) (cp_claim_ttl self) (cp_batch_size self)) as Hs.
    rewrite Hc in Hs. cbn [fst] in Hs. apply crowd_moves with ws; [done|done|].
    intros j w. destruct res as [claims|]; [|apply delete_old]. apply insert_new. split; [|done].
    by apply (claimed_pending _ _ _ _ _ _ p (pj_outbox _ Hp) Hc).
  - pose proof (peer_apply o p (or_event (oc_record c))) as Hs. rewrite Ha in Hs. cbn [fst] in Hs.
    apply crowd_moves with ws; [done|done|]. intros j w. destruct res as [out|]; [|apply delete_old].
    apply insert_new. destruct (peer_step_keeps _ _ Hp Hs) as [_ Hon].
    destruct (working_onward _ _ _ Hon (Hw i _ Hi)) as [Hg _]. split; [done|].
    intros c' _ [= <-]. destruct (apply_keeps _ _ _ _ (pj_projection _ Hp) Ha) as (_ & _ & Hx). by apply (Hx out).
  - destruct (Hw i _ Hi) as [Hg Hc]. specialize (Hc c eq_refl eq_refl).
    pose proof (acknowledge_in_turn claims c (o, p) (cp_projector self) (oc_claim_generation c) Hp Hg Hc) as Hs.
    cbn [fst snd] in Hs. rewrite Hk in Hs. cbn [fst] in Hs.
    apply crowd_moves with ws; [done|done|]. intros j w. destruct res as [[]|]; [|apply delete_old].
    apply insert_new. split; [|done]. destruct (peer_step_keeps _ _ Hp Hs) as [_ Hon].
    apply (pending_rest c); [by apply (pending_onward _ (o, p))|].
    apply (acknowledge_keeps _ _ _ _ _ _ (pj_outbox _ Hp) Hk). right.
    split; [done|]. split; [apply (pg_stored _ _ Hg); constructor|done].
Qed.

Lemma crowd_run_keeps st st' :
  crowd_ok st → rtc crowd_step st st' → crowd_ok st' ∧ onward (st.1.1, st.2) (st'.1.1, st'.2).
Proof.
  intros Hp Hr. induction Hr as [|x y z Hxy _ IH]; [split; [done|reflexivity]|].
  destruct (crowd_step_keeps _ _ Hp Hxy) as [Hy Hon]. destruct (IH Hy) as [Hz Hon']. split; [done|by etrans].
Qed.

(** The steps of a projector of its own do not disturb the others. *)
Lemma crowd_peer (st st' : Crowded O * P) : crowd_ok st → peer_step st st' → crowd_ok st'.
Proof.
  intros Hok Hs. assert (peer_step (st.1.1, st.2) (st'.1.1, st'.2) ∧ st'.1.2 = st.1.2) as [Hp Hw].
  { destruct Hs as [[o ws] [o' ws'] p [He Ew]|[o ws] p q ttl limit|[o ws] p e|[o ws] p sq q g Hc Ht]; cbn in *.
    - subst. split; [by constructor|done].
    - pose proof (peer_claim o p q ttl limit). by destruct (outbox_claim o _ _ _).
    - split; [constructor|done].
    - pose proof (peer_acknowledge o p sq q g Hc Ht). by destruct (outbox_acknowledge o _ _ _). }
  destruct st as [[o ws] p], st' as [[o' ws'] p']. cbn in Hp, Hw. subst ws'.
  apply (crowd_moves o o' ws ws p p'); auto.
Qed.

(** A run of the projector among the others. *)
Lemma project_once_crowd others self (st st' : Crowded O * P) res :
  (∀ i st, rtc crowd_step st (others i st)) → crowd_ok st →
  project_once others self st = (st', res) →
  crowd_ok st' ∧ ∀ n, res = Ok n → ∃ o1 claims,
    outbox_claim st.1 (cp_projector self) (cp_claim_ttl self) (cp_batch_size self) = (o1, Ok claims) ∧
    n = N.of_nat (length claims) ∧ ∀ c, c ∈ claims → acked st'.1 (or_event (oc_record c)).
Proof.
  intros Ho Hok. apply (project_once_keeps crowd_ok); [|apply crowd_peer| |done].
  - intros x [[A B C D] _]. by split.
  - intros i x Hx. destruct (crowd_run_keeps _ _ Hx (Ho i x)) as [? [A B C D]]. split; [done|]. by split.
Qed.
End Crowd.

(** *** The standalone outbox satisfies its laws *)

Definition record_of (o : MemoryCoordinationOutbox) (e : CoordinationEvent)
    (r : CoordinationOutboxRecord) : Prop :=
  (ev_sequence e, r) ∈ mo_records (mo_state o) ∧ or_event r = e.

Lemma claim_loop_applied p now ex limit m m' res k r :
  claim_loop p now ex limit m = (m', res) → (k, r) ∈ m' → is_applied (or_state r) = true → (k, r) ∈ m.
Proof.
  revert limit m' res. induction m as [|[k0 r0] m IH]; intros limit m' res; cbn [claim_loop].
  { destruct limit; by intros [= <- _]. }
  destruct limit as [|limit]; [by intros [= <- _]|].
  destruct (or_state r0) eqn:Es.
  3: { destruct (claim_loop _ _ _ (S limit) m) as [rest cs] eqn:E. intros [= <- _].
       intros [?|Hin]%elem_of_cons Ha; apply elem_of_cons; [by left|right; eauto]. }
  all: destruct (previous_generation _ _) as [g|]; [|by intros [= <- _]];
    destruct (ClaimGeneration_next g) as [g'|]; [|by intros [= <- _]];
    destruct (claim_loop _ _ _ limit m) as [rest cs] eqn:E; intros [= <- _];
    intros [[= -> ->]|Hin]%elem_of_cons Ha; [done|apply elem_of_cons; right; eauto].
Qed.

Lemma stored_by_events o e :
  outbox_ok o → (∃ r, record_of o e r) ↔ e ∈ events (mo_records (mo_state o)).
Proof.
  intros Ho. unfold record_of, events. rewrite list_elem_of_fmap. split.
  - intros (r & Hin & <-). by exists (ev_sequence (or_event r), r).
  - intros ([k r] & -> & Hin). exists r. split; [|done].
    cbn [snd]. by rewrite (outbox_key_event o k r Ho Hin).
Qed.

Lemma memory_stored_unique o e e' :
  outbox_ok o → (∃ r, record_of o e r) → (∃ r, record_of o e' r) → ev_sequence e = ev_sequence e' → e = e'.
Proof.
  intros Ho (r & Hr & <-) (r' & Hr' & <-) Hs. rewrite Hs in Hr.
  apply btree_get_in in Hr, Hr'; auto using outbox_keys_NoDup. congruence.
Qed.

Lemma btree_put_in k r m k' r' :
  (k', r') ∈ btree_put k r m → (k', r') ∈ m ∨ k' = k ∧ r' = r.
Proof.
  induction m as [|[k0 r0] m IH]; cbn; [by left|]. case_bool_decide as E.
  - intros [[= -> ->]|?]%elem_of_cons; [by right|left; set_solver].
  - intros [?|Hin]%elem_of_cons; [left; set_solver|]. destruct (IH Hin) as [?|?]; [left; set_solver|by right].
Qed.

(** Everything stored, with its record. *)
Lemma memory_acked o e :
  outbox_ok o → (∃ r, record_of o e r ∧ is_applied (or_state r) = true) ↔
  ∃ r, record o (ev_sequence e) = Some r ∧ or_event r = e ∧ is_applied (or_state r) = true.
Proof. intros Ho. unfold record_of. setoid_rewrite <- (record_in o _ _ Ho). naive_solver. Qed.

Lemma append_records `{Chrono} o payload :
  outbox_ok o → mo_records (mo_state (append o payload).1) = mo_records (mo_state o) ∨
  ∃ r, mo_records (mo_state (append o payload).1) =
       mo_records (mo_state o) ++ [(N.of_nat (S (length (mo_records (mo_state o)))), r)] ∧
       ev_sequence (or_event r) = N.of_nat (S (length (mo_records (mo_state o)))) ∧ or_state r = Ready.
Proof.
  intros Ho. destruct (append o payload) as [o' [r|e]] eqn:E; cbn [fst].
  - right. exists r. by destruct (append_shape _ _ _ _ Ho E) as (? & ? & _ & _ & ?).
  - left. unfold append in E. destruct (_ ≫= _) as [[]|]; by simplify_eq.
Qed.

(** An event of a claim comes after everything else that is open. *)
Lemma claim_run o m' p now ex limit claims taken rest c e r :
  outbox_ok o → outbox_ok (set_records o m') →
  claims_prefix p now ex limit (mo_records (mo_state o)) m' claims taken rest → c ∈ claims →
  (ev_sequence e, r) ∈ m' → or_event r = e → is_applied (or_state r) = false →
  (ev_sequence e < ev_sequence (or_event (oc_record c)))%N →
  ∃ c', c' ∈ claims ∧ or_event (oc_record c') = e.
Proof.
  intros Ho Ho' [Hs -> Ha _ _ _] Hc Hr He Hap Hlt. pose proof (keys_sorted _ Ho') as Hsort.
  change (mo_records (mo_state (set_records o m'))) with m' in Hsort.
  apply in_open in Hr; [|done]. rewrite Ha in Hr. apply elem_of_app in Hr as [Hr|Hr].
  - apply list_elem_of_fmap in Hr as (kv & E & Hin). exists (claim_of p now ex kv).
    split; [apply list_elem_of_fmap; by exists kv|]. injection E as _ Er. by rewrite <- He, Er.
  - exfalso. apply open_sorted in Hsort. rewrite Ha in Hsort. unfold keys in Hsort. rewrite map_app in Hsort.
    apply list_elem_of_fmap in Hc as ([k r0] & -> & Hin).
    change (or_event (oc_record (claim_of p now ex (k, r0)))) with (or_event r0) in Hlt.
    rewrite (outbox_key_event o k r0 Ho) in Hlt by (apply open_records_in; rewrite Hs; set_solver).
    assert (k < ev_sequence e)%N; [|lia]. apply (StronglySorted_app_1_elem_of _ _ _ _ _ Hsort).
    + rewrite map_map. apply list_elem_of_fmap. by exists (k, r0).
    + apply list_elem_of_fmap. by exists (ev_sequence e, r).
Qed.

Lemma claims_sorted o m' p now ex limit claims taken rest :
  outbox_ok o → claims_prefix p now ex limit (mo_records (mo_state o)) m' claims taken rest →
  StronglySorted N.lt (map (λ c, ev_sequence (or_event (oc_record c))) claims).
Proof.
  intros Ho [Hs -> _ _ _ _]. pose proof (open_sorted _ (keys_sorted _ Ho)) as Hsort.
  rewrite Hs in Hsort. unfold keys in Hsort. rewrite map_app in Hsort.
  apply StronglySorted_app_1_l in Hsort. rewrite map_map.
  replace (map _ taken) with (map fst taken); [done|]. apply map_ext_in. intros [k r] Hin.
  cbn. symmetry. apply (outbox_key_event o k r Ho), open_records_in. rewrite Hs.
  apply elem_of_app. left. by apply list_elem_of_In.
Qed.

#[export] Program Instance memory_outbox_laws `{Chrono} : OutboxLaws MemoryCoordinationOutbox := {|
  stored o e := ∃ r, record_of o e r;
  acked o e := ∃ r, record_of o e r ∧ is_applied (or_state r) = true;
  outbox_inv := outbox_ok;
  outbox_env o o' := (∃ payload, o' = (append o payload).1) ∨ (∃ now, o' = o <| mo_now := now |>);
|}.
Next Obligation. intros ? o e e'. apply memory_stored_unique. Qed.
Next Obligation. intros ? o e (r & ? & _). eauto. Qed.
Next Obligation.
  intros ? o o' Ho [[payload ->]|[now ->]]; [|split_and!; [by destruct Ho|done|done|by left]].
  split; [by apply (outbox_step_ok o); [|constructor]|].
  destruct (append_records o payload Ho) as [E|(r & E & Es & Er)]; unfold record_of; rewrite E;
    [split_and!; by auto|].
  split_and!.
  - intros e (x & Hin & He). exists x. split; [set_solver|done].
  - intros e. split.
    + intros (x & [[Hin|Hin]%elem_of_app He] & Ha); [by exists x|].
      apply list_elem_of_singleton in Hin. injection Hin as _ ->. by rewrite Er in Ha.
    + intros (x & [Hin He] & Ha). exists x. split; [|done]. split; [set_solver|done].
  - intros e (x & [Hin|Hin]%elem_of_app & He); [left; by exists x|right].
    apply list_elem_of_singleton in Hin. injection Hin as -> _. intros e0 (x0 & Hin & _).
    assert (Hk : ev_sequence e0 ∈ keys (mo_records (mo_state o))) by (apply list_elem_of_fmap; by eexists (_, _)).
    rewrite (bo_keys _ Ho) in Hk. apply list_elem_of_fmap in Hk as (j & -> & Hj%elem_of_seq). lia.
Qed.
Next Obligation.
  intros ? o p ttl limit o' res Ho Hc. cbn [outbox_claim memory_outbox] in Hc.
  pose proof (outbox_step_ok _ _ Ho (ostep_claim o p ttl limit)) as Ho'. rewrite Hc in Ho'. cbn [fst] in Ho'.
  unfold claim in Hc. destruct (_ ≫= _) as [ex|]; [|by injection Hc as <- <-].
  destruct (claim_loop _ _ _ _ _) as [m cs] eqn:E. injection Hc as <- <-.
  pose proof (claim_loop_shape _ _ _ _ _ _ _ E) as [_ Hev].
  split_and!; [done| |].
  - intros e. rewrite !stored_by_events by done.
    change (mo_records (mo_state (set_records o m))) with m. by rewrite Hev.
  - intros e. split; intros (r & [Hin He] & Ha); exists r; (split; [|done]); (split; [|done]).
    + by eapply claim_loop_applied.
    + by eapply (claim_loop_keeps _ _ _ _ _ m).
Qed.
Next Obligation.
  intros ? o p ttl limit o' claims Ho Hc. cbn [outbox_claim memory_outbox] in Hc.
  pose proof (claim_ok_preserved _ _ _ _ _ _ Ho Hc) as Ho'.
  pose proof Hc as (_ & ex & m' & _ & -> & Hl)%claim_Ok.
  destruct (claim_loop_prefix _ _ _ _ _ _ _ Hl) as (taken & rest & Hp).
  split_and!; [exact (claims_sorted _ _ _ _ _ _ _ _ _ Ho Hp)| |].
  - intros c Hin. destruct (claim_record _ _ _ _ _ _ _ Ho Hc Hin) as (r & ex' & _ & _ & _ & Hr).
    exists (oc_record c). split; [by apply open_records_in|done].
  - intros c e Hin (r & Hr & He) Hlt. destruct (is_applied (or_state r)) eqn:Ea; [left; by exists r|right].
    exact (claim_run _ _ _ _ _ _ _ _ _ _ _ _ Ho Ho' Hp Hin Hr He Ea Hlt).
Qed.
Next Obligation.
  intros ? o sq p g o' res Ho Hk. cbn [outbox_acknowledge memory_outbox] in Hk.
  pose proof (outbox_step_ok _ _ Ho (ostep_ack o sq p g)) as Ho'. rewrite Hk in Ho'. cbn [fst] in Ho'.
  unfold acknowledge in Hk.
  destruct (validate_projector p) as [u|]; [|injection Hk as <- <-; split_and!; naive_solver].
  destruct (btree_get sq _) as [r0|] eqn:Eg; [|injection Hk as <- <-; split_and!; naive_solver].
  destruct (or_state r0) as [|owner gen ca ex|at_] eqn:Es;
    try (injection Hk as <- <-; split_and!; naive_solver).
  destruct (_ && _); [|injection Hk as <- <-; split_and!; naive_solver]. injection Hk as <- <-.
  set (r1 := r0 <| or_state := Applied (mo_now o) |>) in *.
  destruct (btree_put_shape sq r1 (mo_records (mo_state o)) r0 Eg eq_refl) as [_ Hev].
  assert (Hget : ∀ k, record (set_records o (btree_put sq r1 (mo_records (mo_state o)))) k
    = if k ==? sq then Some r1 else record o k) by (intros k; by eapply btree_put_get).
  assert (Hsq : ev_sequence (or_event r0) = sq).
  { apply (outbox_key_event o sq r0 Ho). by apply record_in. }
  split_and!; [done| |].
  - intros e. rewrite !stored_by_events by done.
    change (mo_records (mo_state (set_records o ?m))) with m. by rewrite Hev.
  - intros e. rewrite !memory_acked by done. setoid_rewrite Hget. split.
    + intros (r & Hr & He & Ha). case_bool_decide as Ek; [right|left; by exists r].
      injection Hr as <-. split_and!; [done| |done]. exists r0. split; [apply record_in; [done|]|done].
      by rewrite Ek.
    + intros [(r & Hr & He & Ha)|(_ & (r & Hr & He) & Ek)].
      * exists r. rewrite bool_decide_eq_false_2; [done|]. intros Ek. rewrite Ek in Hr.
        unfold record in Hr. rewrite Eg in Hr. injection Hr as <-. by rewrite Es in Ha.
      * exists r1. rewrite bool_decide_eq_true_2 by done. split_and!; [done| |done].
        apply record_in in Hr; [|done]. rewrite Ek in Hr. unfold record in Hr. rewrite Eg in Hr.
        by injection Hr as <-.
Qed.
