(* ===== verification/CoordProjector.v ===== *)
(** The standalone coordinator as the projection of the ordered projector: within a window shorter
    than its retention, an accepted event stays covered, so the projector's guarantee holds of the
    two standalone implementations together. *)

From S2P Require Import Prelude RustText DomainTypes CoordModel CoordMemory CoordInv CoordTheorems.
From S2P Require Import CoordOutbox CoordOutboxThms.
From stdpp Require Import options.

(** ** Sequences by key *)

(** The sequence the projection holds for what an event is about. *)
Definition version_at (s : MemoryState) (e : CoordinationEvent) : option ProjectionSequence :=
  match ev_payload e with
  | Worker w => vs_sequence <$> ms_workers s !! wl_worker_id (ws_lease w)
  | Route route => vs_sequence <$> ms_routes s !! rh_call_id route
  | RouteRemoved id => vs_sequence <$> ms_routes s !! id
  | AttachmentRoute route => vs_sequence <$> ms_attachment_routes s !! ar_token_digest route
  | AttachmentRouteRemoved d => vs_sequence <$> ms_attachment_routes s !! d
  | Replay marker => vs_sequence <$> ms_replay s !! rm_digest marker
  | WakeWorker id _ => vs_sequence <$> ms_wakeup_sequences s !! id
  end.

(** Every versioned entry outlives [horizon]. *)
Definition outlives {K} `{Countable K} {V} (horizon : DateTime) (m : gmap K (Versioned V)) : Prop :=
  map_Forall (λ _ v, horizon ≤ vs_retained_until v) m.

(** Every key keeps its sequence or a newer one. *)
Definition seq_le {K} `{Countable K} {V} (m m' : gmap K (Versioned V)) : Prop :=
  ∀ k v, m !! k = Some v → ∃ v', m' !! k = Some v' ∧ (vs_sequence v ≤ vs_sequence v')%N.

Lemma seq_le_refl {K} `{Countable K} {V} (m : gmap K (Versioned V)) : seq_le m m.
Proof. intros k v Hv. eauto. Qed.

Lemma seq_le_trans {K} `{Countable K} {V} (m1 m2 m3 : gmap K (Versioned V)) :
  seq_le m1 m2 → seq_le m2 m3 → seq_le m1 m3.
Proof.
  intros H1 H2 k v Hv. destruct (H1 _ _ Hv) as (v2 & Hv2 & ?). destruct (H2 _ _ Hv2) as (v3 & ? & ?).
  exists v3. split; [done|]. lia.
Qed.

Record window_ok (horizon : DateTime) (s : MemoryState) : Prop := {
  wo_workers : outlives horizon (ms_workers s);
  wo_routes : outlives horizon (ms_routes s);
  wo_attachments : outlives horizon (ms_attachment_routes s);
  wo_replay : outlives horizon (ms_replay s);
  wo_wakeups : outlives horizon (ms_wakeup_sequences s);
}.

Record advances (s s' : MemoryState) : Prop := {
  av_workers : seq_le (ms_workers s) (ms_workers s');
  av_routes : seq_le (ms_routes s) (ms_routes s');
  av_attachments : seq_le (ms_attachment_routes s) (ms_attachment_routes s');
  av_replay : seq_le (ms_replay s) (ms_replay s');
  av_wakeups : seq_le (ms_wakeup_sequences s) (ms_wakeup_sequences s');
}.

Lemma advances_refl s : advances s s.
Proof. split; apply seq_le_refl. Qed.

Lemma advances_trans s1 s2 s3 : advances s1 s2 → advances s2 s3 → advances s1 s3.
Proof. intros [] []. split; eauto using seq_le_trans. Qed.

Lemma seq_le_version {K} `{Countable K} {V} (m m' : gmap K (Versioned V)) k sq :
  seq_le m m' → vs_sequence <$> m !! k = Some sq →
  ∃ sq', vs_sequence <$> m' !! k = Some sq' ∧ (sq ≤ sq')%N.
Proof.
  intros Hle Hv. apply fmap_Some in Hv as (v & Hv & ->). destruct (Hle _ _ Hv) as (v' & -> & ?). eauto.
Qed.

Lemma advances_version s s' e sq :
  advances s s' → version_at s e = Some sq → ∃ sq', version_at s' e = Some sq' ∧ (sq ≤ sq')%N.
Proof.
  intros []. unfold version_at. destruct (ev_payload e); intros; eapply seq_le_version; eauto.
Qed.

Lemma outlives_retained {K} `{Countable K} {V} horizon now (m : gmap K (Versioned V)) :
  now < horizon → outlives horizon m → retain_live now m = m.
Proof. intros Hn Hm. apply map_filter_id. intros k v Hv. cbn. specialize (Hm _ _ Hv). cbn in Hm. lia. Qed.

Lemma cleanup_window horizon now s :
  now < horizon → window_ok horizon s →
  window_ok horizon (cleanup_locked s now) ∧ advances s (cleanup_locked s now).
Proof.
  intros Hn [W R A P U]. unfold cleanup_locked.
  rewrite !(outlives_retained horizon now) by done.
  split; split; auto using seq_le_refl.
Qed.

Lemma apply_versioned_window {K} `{Countable K} {V} `{EqDecision V} horizon (m m' : gmap K (Versioned V))
    k sq v u res :
  outlives horizon m → horizon ≤ u → apply_versioned m k sq v u = (m', res) →
  outlives horizon m' ∧ seq_le m m' ∧
  ∀ o, res = Ok o → ∃ sq', vs_sequence <$> m' !! k = Some sq' ∧ (sq ≤ sq')%N.
Proof.
  intros Hm Hu. unfold apply_versioned.
  assert (Hins : outlives horizon (<[k := Build_Versioned sq v u]> m)) by (by apply map_Forall_insert_2).
  destruct (m !! k) as [e|] eqn:E.
  - destruct (N.ltb_spec sq (vs_sequence e)).
    { intros [= <- <-]. split_and!; auto using seq_le_refl. intros _ _. rewrite E. cbn. eauto with lia. }
    case_bool_decide.
    { case_bool_decide; intros [= <- <-]; (split_and!; auto using seq_le_refl); [|done].
      intros _ _. rewrite E. cbn. eexists. split; [done|]. lia. }
    intros [= <- <-]. split_and!; [done| |].
    + intros k' v' Hv'. destruct (decide (k = k')) as [<-|Hne].
      * rewrite lookup_insert_eq. simplify_eq. eexists. split; [done|]. cbn. lia.
      * rewrite lookup_insert_ne by done. eauto.
    + intros _ _. rewrite lookup_insert_eq. cbn. eauto.
  - intros [= <- <-]. split_and!; [done| |].
    + intros k' v' Hv'. rewrite lookup_insert_ne by congruence. eauto.
    + intros _ _. rewrite lookup_insert_eq. cbn. eauto.
Qed.

Section Window.
Context `{Chrono} `{!ChronoLaws} (horizon : DateTime).

Lemma retained_until_window expiry now ttl u :
  horizon ≤ now + ttl → retained_until expiry now ttl = Ok u → horizon ≤ u.
Proof using All.
  intros Hn Hu. unfold retained_until in Hu. apply result_bind_ok in Hu as (d & Hd & Hu).
  destruct (from_std ttl) as [d'|] eqn:Es; [|done]. injection Hd as <-.
  destruct (checked_add_signed _ d') as [sum|] eqn:Ec; [|done]. injection Hu as <-.
  apply from_std_exact in Es. apply checked_add_signed_exact in Ec. lia.
Qed.

Lemma publish_locked_versions c s now w sq reason s' res :
  publish_locked c s now w sq reason = (s', res) →
  window_ok horizon s → window_ok horizon s' ∧ advances s s' ∧
  ms_wakeup_sequences s' = ms_wakeup_sequences s.
Proof.
  unfold publish_locked. intros Hp [W R A P U].
  destruct (retained_until _ _ _); [|injection Hp as <- _; by auto using advances_refl, window_ok].
  destruct (_ <? _)%N; [injection Hp as <- _; by auto using advances_refl, window_ok|].
  destruct (trim_stream _ _ _ _). injection Hp as <- _.
  split_and!; [by split|split; apply seq_le_refl|done].
Qed.

Lemma apply_worker_window c s now sq at_ w s' res :
  horizon ≤ now + mc_tombstone_ttl c → window_ok horizon s →
  apply_worker c s now sq at_ w = (s', res) →
  window_ok horizon s' ∧ advances s s' ∧
  ∀ o, res = Ok o → ∃ sq', vs_sequence <$> ms_workers s' !! wl_worker_id (ws_lease w) = Some sq' ∧
    (sq ≤ sq')%N.
Proof using All.
  intros Ht Hw Ha. pose proof Hw as [W R A P U].
  assert (Hadv : seq_le (ms_workers s) (ms_workers s')).
  { intros k v Hv. destruct (apply_worker_advances _ _ _ _ _ _ _ _ _ _ Ha Hv) as (v' & Hv' & [N _ _]).
    exists v'. split; [done|]. destruct N as [->|[? _]]; lia. }
  unfold apply_worker in Ha. cbv zeta in Ha.
  destruct (_ ≫= _) as [u|] eqn:Eu; [|injection Ha as <- <-; split_and!; [done|apply advances_refl|done]].
  apply bind_unit_ok in Eu as [_ Eu]. apply retained_until_window in Eu; [|done].
  assert (Hwrite : ∀ m, m = <[wl_worker_id (ws_lease w) := Build_Versioned sq w u]> (ms_workers s) →
    outlives horizon m) by (intros m ->; by apply map_Forall_insert_2).
  destruct (ms_workers s !! _) as [v|] eqn:E; repeat (case_match; simplify_eq/=); simplify_eq/=;
    first
      [ split_and!; [exact Hw|apply advances_refl|]; intros o Ho; simplify_eq; rewrite E; cbn;
        eexists; (split; [reflexivity|]); bool_hyps; lia
      | split_and!; [split; cbn; auto|split; cbn; auto using seq_le_refl|];
        intros o Ho; rewrite lookup_insert_eq; cbn; eauto ].
Qed.

(** One projection write within the window. *)
Lemma apply_payload_window c s r e s' res :
  horizon ≤ at_apply r + mc_tombstone_ttl c → horizon ≤ at_apply r + mc_stream_ttl c →
  window_ok horizon s → apply_payload c s r e = (s', res) →
  window_ok horizon s' ∧ advances s s' ∧
  ∀ o, res = Ok o → ∃ sq, version_at s' e = Some sq ∧ (ev_sequence e ≤ sq)%N.
Proof using All.
  intros Ht Hst Hw Ha. pose proof Hw as [W R A P U]. unfold apply_payload, version_at in *.
  destruct (ev_payload e) as [w|route|id|route|d|marker|id reason].
  { by eapply apply_worker_window. }
  all: unfold apply_route, remove_route, apply_attachment_route, remove_attachment_route,
      apply_replay, apply_wakeup in Ha;
    (destruct (retained_until _ _ _) as [u|] eqn:Eu; [|injection Ha as <- <-; split_and!; [done|apply advances_refl|done]]);
    apply (retained_until_window) in Eu; [|done];
    destruct (apply_versioned _ _ _ _ _) as [m o] eqn:Em;
    eapply apply_versioned_window in Em as (Hm & Hle & Hok); [|done|done].
  1-5: injection Ha as <- <-; split_and!; [by split|split; by auto using seq_le_refl|done].
  set (s1 := s <| ms_wakeup_sequences := m |>) in *.
  assert (H1 : window_ok horizon s1 ∧ advances s s1) by (split; split; auto using seq_le_refl).
  destruct H1 as [H1 H2].
  destruct o as [[]|]; try (injection Ha as <- <-; by auto).
  destruct (publish_locked _ _ _ _ _ _) as [s2 pub] eqn:Ep. injection Ha as <- <-.
  destruct (publish_locked_versions _ _ _ _ _ _ _ _ Ep H1) as (H3 & H4 & H5).
  split_and!; [done| |].
  - by eapply advances_trans.
  - intros o _. rewrite H5. by apply (Hok ProjectionApplyOutcome.Applied).
Qed.

(** ** The coordinator as a projection *)

(** The coordinator with the readings its next calls will make. *)
Context (readings : nat → Readings).

Definition TimedCoordinator : Type := MemoryCoordinator * nat.

#[export] Instance timed_projection : CoordinationProjection TimedCoordinator := {|
  projection_apply '(c, n) e := let '(c', res) := apply c (readings n) e in ((c', S n), res);
|}.

(** Each call is before the horizon and retains its writes beyond it. *)
Definition in_window (c : MemoryCoordinator) : Prop :=
  window_ok horizon (mc_state c) ∧
  ∀ n, at_cleanup (readings n) < horizon ∧
    horizon ≤ at_apply (readings n) + mc_tombstone_ttl c ∧
    horizon ≤ at_apply (readings n) + mc_stream_ttl c.

(** The projection holds the event, or a newer one about the same key. *)
Definition covered (c : MemoryCoordinator) (e : CoordinationEvent) : Prop :=
  ∃ sq, version_at (mc_state c) e = Some sq ∧ (ev_sequence e ≤ sq)%N.

Lemma apply_window c n e c' res :
  in_window c → apply c (readings n) e = (c', res) →
  in_window c' ∧ advances (mc_state c) (mc_state c') ∧ ∀ o, res = Ok o → covered c' e.
Proof using All.
  intros [Hw Hr] Ha. destruct (Hr n) as (Hn & Ht & Hs). unfold apply in Ha.
  destruct (_ ≫= _) as [s|] eqn:E;
    [|injection Ha as <- <-; split_and!; [done|apply advances_refl|done]].
  rewrite !bind_unit_ok, lock_Ok in E. destruct E as (_ & _ & _ & ->).
  destruct (cleanup_window _ _ _ Hn Hw) as [Hw1 Ha1].
  destruct (apply_payload _ _ _ _) as [s' o'] eqn:Ep. injection Ha as <- <-.
  destruct (apply_payload_window _ _ _ _ _ _ Ht Hs Hw1 Ep) as (Hw2 & Ha2 & Hc).
  split_and!; [by split|by eapply advances_trans|done].
Qed.

#[export] Program Instance timed_projection_laws : ProjectionLaws TimedCoordinator := {|
  covers p e := covered p.1 e;
  projection_inv p := in_window p.1;
|}.
Next Obligation.
  intros [c n] e p' res Hi Ha. cbn in *. destruct (apply c (readings n) e) as [c' o] eqn:E.
  injection Ha as <- <-. destruct (apply_window _ _ _ _ _ Hi E) as (Hi' & Hadv & Hc).
  split_and!; [done| |done]. intros e' (sq & Hv & Hle).
  destruct (advances_version _ _ _ _ Hadv Hv) as (sq' & ? & ?). exists sq'. split; [done|]. lia.
Qed.

(** From empty stores, before the horizon. *)
Definition fresh (deployment : DeploymentId) (now : DateTime) (c : MemoryCoordinator)
    (st : Crowded MemoryCoordinationOutbox * TimedCoordinator) : Prop :=
  st = ((MemoryCoordinationOutbox_new deployment now, ∅), (c, 0%nat)) ∧
  mc_state c = MemoryState_default ∧ in_window c.

Lemma fresh_crowd deployment now c st : fresh deployment now c st → crowd_ok st.
Proof.
  intros (-> & _ & Hw). split; [|apply map_Forall_empty].
  split; [by split|done|by intros e (r & [?%not_elem_of_nil _] & _)|].
  by intros e e' (r & [?%not_elem_of_nil _] & _).
Qed.

(** C39. Acknowledged means projected, in order.  Any number of projectors work on the standalone
    outbox and coordinator, from empty stores: each claims events, applies them to the projection
    and acknowledges them, any step of one between any steps of another, while events are appended
    and time passes.  After a run of one of them among the others, every acknowledged event is
    covered by the projection, itself or by a newer event about the same key, for as long as the
    retention lasts; and every event before an acknowledged one is acknowledged too, so no event is
    passed over because its projection failed or its claim was lost.  A run that succeeds reports
    how many events it claimed, and all of them are acknowledged. *)
Theorem acknowledged_events_are_projected
    (others : nat → Crowded MemoryCoordinationOutbox * TimedCoordinator →
                    Crowded MemoryCoordinationOutbox * TimedCoordinator)
    (deployment : DeploymentId) (now : DateTime) (c : MemoryCoordinator)
    (start : Crowded MemoryCoordinationOutbox * TimedCoordinator)
    (self : CoordinationProjector) (o o' : MemoryCoordinationOutbox) (ws ws' : gmap nat Working)
    (p p' : TimedCoordinator) (res : result CoordinationError N) :
  fresh deployment now c start → rtc crowd_step start ((o, ws), p) →
  (∀ i st, rtc crowd_step st (others i st)) →
  project_once others self ((o, ws), p) = (((o', ws'), p'), res) →
  (∀ sq r, record o' sq = Some r → is_applied (or_state r) = true →
     covered p'.1 (or_event r) ∧
     ∀ sq' r', record o' sq' = Some r' → (sq' < sq)%N → is_applied (or_state r') = true) ∧
  (∀ n, res = Ok n → ∃ o1 claims,
     claim o (cp_projector self) (cp_claim_ttl self) (cp_batch_size self) = (o1, Ok claims) ∧
     n = N.of_nat (length claims) ∧
     ∀ c, c ∈ claims → ∃ r, record o' (ev_sequence (or_event (oc_record c))) = Some r ∧
       or_event r = or_event (oc_record c) ∧ is_applied (or_state r) = true).
Proof using All.
  intros Hf Hrun Ho Hp. destruct (crowd_run_keeps _ _ (fresh_crowd _ _ _ _ Hf) Hrun) as [Hok _].
  destruct (project_once_crowd _ _ _ _ _ Ho Hok Hp) as [[[Io _ Hc Hord] _] Hres]. cbn [fst snd] in *.
  assert (Hback : ∀ sq r, record o' sq = Some r → record_of o' (or_event r) r ∧ ev_sequence (or_event r) = sq).
  { intros sq r Hr. apply record_in in Hr; [|done]. unfold record_of.
    by rewrite (outbox_key_event o' sq r Io Hr). }
  split.
  - intros sq r [Hr <-]%Hback Ha. assert (Hap : acked o' (or_event r)) by (by exists r).
    split; [by apply Hc|]. intros sq' r' Hr' Hlt. destruct (Hback sq' r' Hr') as [Hr1 <-].
    apply memory_acked in Hap as Hap'; [|done].
    destruct (Hord (or_event r) (or_event r')) as (x & [Hin _] & Hx); [done|by exists r'|done|].
    apply (record_in o' _ _ Io) in Hin. by simplify_eq.
  - intros n Hn. destruct (Hres n Hn) as ([o1 ws1] & claims & Hcl & -> & Hall).
    cbn in Hcl. destruct (claim o _ _ _) as [o2 res2] eqn:Ec. injection Hcl as -> _ ->.
    exists o1, claims. split_and!; [done..|]. intros c0 Hin.
    apply (memory_acked o' _ Io). by apply Hall.
Qed.
End Window.

(** Another projector has claimed both events and gone away; its claim expires, and the two events are
    projected by the next. *)
Definition sample_expired : MemoryCoordinationOutbox :=
  ((@claim chrono_sample sample_outbox (str "other") (from_secs 1) 2%N).1) <| mo_now := from_secs 5 |>.
Definition sample_gone : Working :=
  {| wk_self := {| cp_projector := str "other"; cp_claim_ttl := from_secs 1; cp_batch_size := 2%N |};
     wk_claims := match (@claim chrono_sample sample_outbox (str "other") (from_secs 1) 2%N).2 with
                  | Ok claims => claims | Err _ => [] end;
     wk_applied := false |}.
Definition sample_self : CoordinationProjector :=
  {| cp_projector := sample_projector; cp_claim_ttl := from_secs 1; cp_batch_size := 8%N |}.
Definition sample_start : Crowded MemoryCoordinationOutbox * TimedCoordinator :=
  ((MemoryCoordinationOutbox_new (str "prod") 10, ∅), (sample_coordinator, 0%nat)).

Definition sample_run : (Crowded MemoryCoordinationOutbox * TimedCoordinator) * result CoordinationError N :=
  @project_once _ _ (@crowded_outbox _ (@memory_outbox chrono_sample))
    (@timed_projection chrono_sample (λ _, sample_readings 11))
    (λ _ st, st) sample_self ((sample_expired, {[0%nat := sample_gone]}), (sample_coordinator, 0%nat)).

Lemma acknowledged_events_are_projected_witness :
  sample_run.2 = Ok 2%N ∧ covered sample_run.1.2.1 sample_wake.
Proof.
  split; [vm_compute; reflexivity|].
  destruct (@acknowledged_events_are_projected chrono_sample chrono_sample_laws 12
    (λ _, sample_readings 11) (λ _ st, st) (str "prod") 10 sample_coordinator sample_start
    sample_self sample_expired sample_run.1.1.1 {[0%nat := sample_gone]} sample_run.1.1.2
    (sample_coordinator, 0%nat) sample_run.1.2 sample_run.2) as [H _].
  - split; [reflexivity|]. split; [reflexivity|]. split; [split; apply map_Forall_empty|].
    intros n. vm_compute. intuition discriminate.
  - eapply rtc_l; [apply crowd_env; left; exists (WakeWorker 7 WakeupReason.Effects); reflexivity|].
    eapply rtc_l; [apply crowd_env; left; exists (WakeWorker 8 WakeupReason.Effects); reflexivity|].
    eapply rtc_l; [eapply (crowd_claim _ _ _ _ 0%nat (wk_self sample_gone)); vm_compute; reflexivity|].
    apply rtc_once. apply crowd_env. right. exists (from_secs 5). reflexivity.
  - intros i st. apply rtc_refl.
  - vm_compute. reflexivity.
  - apply (H 1%N {| or_event := sample_wake; or_state := Applied (from_secs 5) |});
      vm_compute; reflexivity.
Defined.
