(* ===== verification/EgressState.v ===== *)
(** The state store of gateway private egress ([src/private_egress_state.rs], with the values of
    [src/private_egress.rs] it stores): process epochs, idempotent commands, route transitions and
    the lifecycle journal.  A method returns the store with its result; the mutex recovers from
    poisoning, so it never fails. *)

From S2P Require Import Prelude RustText DomainTypes CoordModel.
From stdpp Require Import options.

(** ** Values *)

Definition PROTOCOL_VERSION : N := 1%N.

Module PrivateEgressError.
Inductive PrivateEgressError :=
  InvalidCommand | InvalidResponse | Expired | OwnershipMismatch | ReplayConflict
| InvalidTransition | CapacityExceeded | Timeout | HandlerRejected | Draining | StateUnavailable
| DeadEpoch | DeadEpochRecoveryFailed.
End PrivateEgressError.
Abbreviation PrivateEgressError := PrivateEgressError.PrivateEgressError.
#[export] Instance PrivateEgressError_eq : EqDecision PrivateEgressError.
Proof. solve_decision. Defined.

(** [PrivateEgressError::code]. *)
Definition error_code (self : PrivateEgressError) : string :=
  match self with
  | PrivateEgressError.InvalidCommand => "invalid_command"
  | PrivateEgressError.InvalidResponse => "invalid_response"
  | PrivateEgressError.Expired => "expired"
  | PrivateEgressError.OwnershipMismatch => "ownership_mismatch"
  | PrivateEgressError.ReplayConflict => "replay_conflict"
  | PrivateEgressError.InvalidTransition => "invalid_transition"
  | PrivateEgressError.CapacityExceeded => "capacity_exceeded"
  | PrivateEgressError.Timeout => "timeout"
  | PrivateEgressError.HandlerRejected => "handler_rejected"
  | PrivateEgressError.Draining => "draining"
  | PrivateEgressError.StateUnavailable => "state_unavailable"
  | PrivateEgressError.DeadEpoch => "dead_epoch"
  | PrivateEgressError.DeadEpochRecoveryFailed => "dead_epoch_recovery_failed"
  end.

Module LifecycleState.
Inductive PrivateEgressLifecycleState := Prepared | Active | Ended | Failed.
End LifecycleState.
Abbreviation PrivateEgressLifecycleState := LifecycleState.PrivateEgressLifecycleState.
#[export] Instance PrivateEgressLifecycleState_eq : EqDecision PrivateEgressLifecycleState.
Proof. solve_decision. Defined.

Record PrivateEgressSource := {
  src_tenant_id : TenantId;
  src_call_id : CallId;
  src_leg_id : LegId;
  src_binding_generation : BindingGeneration;
}.
#[export] Instance PrivateEgressSource_eq : EqDecision PrivateEgressSource.
Proof. solve_decision. Defined.

Record PrivateEgressTarget := {
  tgt_leg_id : LegId;
  tgt_binding_generation : BindingGeneration;
}.
#[export] Instance PrivateEgressTarget_eq : EqDecision PrivateEgressTarget.
Proof. solve_decision. Defined.

Inductive PrivateEgressLifecycleKind :=
| State (state : PrivateEgressLifecycleState) (reason_code : option rstr)
| Progress (status_code : Z) (early_media : bool).

Record PrivateEgressResponse := {
  rsp_version : N;
  rsp_command_id : Uuid;
  rsp_accepted : bool;
  rsp_replayed : bool;
  rsp_state : option PrivateEgressLifecycleState;
  rsp_failure_code : option string;
  rsp_external_reference : option rstr;
}.
#[export] Instance PrivateEgressResponse_eq : EqDecision PrivateEgressResponse.
Proof. solve_decision. Defined.

(** [PrivateEgressResponse::rejected]. *)
Definition rejected (command_id : Uuid) (error : PrivateEgressError) : PrivateEgressResponse :=
  {| rsp_version := PROTOCOL_VERSION; rsp_command_id := command_id; rsp_accepted := false;
     rsp_replayed := false; rsp_state := None; rsp_failure_code := Some (error_code error);
     rsp_external_reference := None |}.

Record PrivateEgressLifecycleEvent := {
  le_version : N;
  le_event_id : Uuid;
  le_worker : WorkerLease;
  le_source : PrivateEgressSource;
  le_target : PrivateEgressTarget;
  le_gateway_epoch : Uuid;
  le_sequence : N;
  le_kind : PrivateEgressLifecycleKind;
}.
#[export] Instance PrivateEgressLifecycleEvent_eta : Eta PrivateEgressLifecycleEvent := λ r,
  {| le_version := le_version r; le_event_id := le_event_id r; le_worker := le_worker r;
     le_source := le_source r; le_target := le_target r; le_gateway_epoch := le_gateway_epoch r;
     le_sequence := le_sequence r; le_kind := le_kind r |}.

(** ** Epochs and route keys *)

Record PrivateEgressGatewayEpoch := { ge_gateway_id : rstr; ge_instance_id : Uuid }.

Definition gateway_byte (byte : Z) : bool := is_ascii_alphanumeric byte || contains "._-:" byte.

(** [PrivateEgressGatewayEpoch::new]. *)
Definition PrivateEgressGatewayEpoch_new (gateway_id : rstr) (instance_id : Uuid)
    : result PrivateEgressError PrivateEgressGatewayEpoch :=
  if is_empty gateway_id || (128 <? len gateway_id) || is_nil instance_id
     || negb (forallb gateway_byte (bytes gateway_id))
  then Err PrivateEgressError.InvalidCommand
  else Ok {| ge_gateway_id := gateway_id; ge_instance_id := instance_id |}.

Record PrivateEgressRouteAuthority := {
  ra_worker : WorkerLease;
  ra_source : PrivateEgressSource;
}.

Record PrivateEgressRouteKey := {
  rk_worker : WorkerLease;
  rk_tenant_id : TenantId;
  rk_call_id : CallId;
  rk_source_leg_id : LegId;
  rk_source_binding_generation : BindingGeneration;
  rk_target : PrivateEgressTarget;
}.
#[export] Instance PrivateEgressRouteKey_eq : EqDecision PrivateEgressRouteKey.
Proof. solve_decision. Defined.

(** [PrivateEgressRouteKey::new]. *)
Definition PrivateEgressRouteKey_new (worker : WorkerLease) (source : PrivateEgressSource)
    (target : PrivateEgressTarget) : PrivateEgressRouteKey :=
  {| rk_worker := worker; rk_tenant_id := src_tenant_id source; rk_call_id := src_call_id source;
     rk_source_leg_id := src_leg_id source;
     rk_source_binding_generation := src_binding_generation source; rk_target := target |}.

(** [PrivateEgressRouteKey::authority] and [::belongs_to]. *)
Definition authority (self : PrivateEgressRouteKey) : PrivateEgressRouteAuthority :=
  {| ra_worker := rk_worker self;
     ra_source := {| src_tenant_id := rk_tenant_id self; src_call_id := rk_call_id self;
                     src_leg_id := rk_source_leg_id self;
                     src_binding_generation := rk_source_binding_generation self |} |}.

Definition belongs_to (self : PrivateEgressRouteKey) (authority : PrivateEgressRouteAuthority) : bool :=
  (rk_worker self ==? ra_worker authority)
  && (rk_tenant_id self ==? src_tenant_id (ra_source authority))
  && (rk_call_id self ==? src_call_id (ra_source authority))
  && (rk_source_leg_id self ==? src_leg_id (ra_source authority))
  && (rk_source_binding_generation self ==? src_binding_generation (ra_source authority)).

(** Route keys are hashable. *)
Definition key_tuple (k : PrivateEgressRouteKey) : Z * N * (list Z * Z * (Z * N)) * (Z * N) :=
  (wl_worker_id (rk_worker k), wl_fence (rk_worker k),
   (rk_tenant_id k, rk_call_id k, (rk_source_leg_id k, rk_source_binding_generation k)),
   (tgt_leg_id (rk_target k), tgt_binding_generation (rk_target k))).

Definition tuple_key (t : Z * N * (list Z * Z * (Z * N)) * (Z * N)) : PrivateEgressRouteKey :=
  let '(w, f, (tenant, call, (leg, g)), (tl, tg)) := t in
  {| rk_worker := {| wl_worker_id := w; wl_fence := f |}; rk_tenant_id := tenant; rk_call_id := call;
     rk_source_leg_id := leg; rk_source_binding_generation := g;
     rk_target := {| tgt_leg_id := tl; tgt_binding_generation := tg |} |}.

#[export] Program Instance PrivateEgressRouteKey_countable : Countable PrivateEgressRouteKey :=
  inj_countable' key_tuple tuple_key _.
Next Obligation. by intros [[] ? ? ? ? []]. Qed.

Inductive PrivateEgressCommandClaim :=
| Acquired
| InFlight
| Completed (response : PrivateEgressResponse).

Record PrivateEgressRecoveredRoute := {
  rr_dead_epoch : Uuid;
  rr_key : PrivateEgressRouteKey;
}.

(** ** The store *)

Record MemoryCommandRecord := {
  mr_epoch : Uuid;
  mr_digest : Digest;
  mr_created_at_ms : Z;
  mr_completed_at_ms : option Z;
  mr_response : option PrivateEgressResponse;
}.
#[export] Instance MemoryCommandRecord_eta : Eta MemoryCommandRecord := λ r,
  {| mr_epoch := mr_epoch r; mr_digest := mr_digest r; mr_created_at_ms := mr_created_at_ms r;
     mr_completed_at_ms := mr_completed_at_ms r; mr_response := mr_response r |}.

Record MemoryRouteRecord := {
  rt_epoch : Uuid;
  rt_state : option PrivateEgressLifecycleState;
  rt_pending : option (Uuid * PrivateEgressLifecycleState);
  rt_next_lifecycle_sequence : N;
  rt_tombstoned_at_ms : option Z;
  rt_recovery_required : bool;
}.
#[export] Instance MemoryRouteRecord_eta : Eta MemoryRouteRecord := λ r,
  {| rt_epoch := rt_epoch r; rt_state := rt_state r; rt_pending := rt_pending r;
     rt_next_lifecycle_sequence := rt_next_lifecycle_sequence r;
     rt_tombstoned_at_ms := rt_tombstoned_at_ms r; rt_recovery_required := rt_recovery_required r |}.

Record MemoryLifecycleRecord := {
  lr_epoch : Uuid;
  lr_key : PrivateEgressRouteKey;
  lr_event : PrivateEgressLifecycleEvent;
  lr_acked : bool;
  lr_created_at_ms : Z;
}.
#[export] Instance MemoryLifecycleRecord_eta : Eta MemoryLifecycleRecord := λ r,
  {| lr_epoch := lr_epoch r; lr_key := lr_key r; lr_event := lr_event r; lr_acked := lr_acked r;
     lr_created_at_ms := lr_created_at_ms r |}.

Definition IdKey : Type := rstr * Uuid.
Definition RouteKey : Type := rstr * PrivateEgressRouteKey.

Record MemoryState := {
  es_active_epochs : gmap rstr Uuid;
  es_commands : gmap IdKey MemoryCommandRecord;
  es_routes : gmap RouteKey MemoryRouteRecord;
  es_lifecycle : gmap IdKey MemoryLifecycleRecord;
}.
#[export] Instance MemoryState_eta : Eta MemoryState := λ r,
  {| es_active_epochs := es_active_epochs r; es_commands := es_commands r;
     es_routes := es_routes r; es_lifecycle := es_lifecycle r |}.

Definition MemoryState_default : MemoryState :=
  {| es_active_epochs := ∅; es_commands := ∅; es_routes := ∅; es_lifecycle := ∅ |}.

Record MemoryPrivateEgressStateStore := {
  ss_max_entries : N;
  ss_ttl : Duration;
  ss_state : MemoryState;
}.
#[export] Instance MemoryPrivateEgressStateStore_eta : Eta MemoryPrivateEgressStateStore := λ r,
  {| ss_max_entries := ss_max_entries r; ss_ttl := ss_ttl r; ss_state := ss_state r |}.

(** [MemoryPrivateEgressStateStore::new]. *)
Definition MemoryPrivateEgressStateStore_new (max_entries : N) (ttl : Duration)
    : result PrivateEgressError MemoryPrivateEgressStateStore :=
  if (max_entries =? 0)%N || (ttl =? 0) then Err PrivateEgressError.InvalidCommand
  else Ok {| ss_max_entries := max_entries; ss_ttl := ttl; ss_state := MemoryState_default |}.

(** [self.ttl.as_millis()], saturated at [i64::MAX]. *)
Definition ttl_ms (self : MemoryPrivateEgressStateStore) : Z :=
  let millis := ss_ttl self / 1000000 in
  if millis <=? I64_MAX then millis else I64_MAX.

Definition is_terminal (state : PrivateEgressLifecycleState) : bool :=
  match state with LifecycleState.Ended | LifecycleState.Failed => true | _ => false end.

Definition lifecycle_transition_allowed (current next : PrivateEgressLifecycleState) : bool :=
  match current, next with
  | LifecycleState.Prepared,
    (LifecycleState.Prepared | LifecycleState.Active | LifecycleState.Ended | LifecycleState.Failed) =>
      true
  | LifecycleState.Active,
    (LifecycleState.Active | LifecycleState.Ended | LifecycleState.Failed) => true
  | _, _ => false
  end.

(** [route.pending.is_some() || route.state.is_some_and(|state| !is_terminal(state))]. *)
Definition route_is_open (route : MemoryRouteRecord) : bool :=
  is_some (rt_pending route) || is_some_and (λ state, negb (is_terminal state)) (rt_state route).

Definition ensure_epoch (state : MemoryState) (epoch : PrivateEgressGatewayEpoch)
    : result PrivateEgressError () :=
  if es_active_epochs state !! ge_gateway_id epoch ==? Some (ge_instance_id epoch) then Ok ()
  else Err PrivateEgressError.DeadEpoch.

(** ** Retention *)

Definition command_live (at_ms ttl : Z) (record : MemoryCommandRecord) : bool :=
  let completed := default (mr_created_at_ms record) (mr_completed_at_ms record) in
  (saturating_sub_i64 at_ms completed <? ttl) || is_none (mr_response record).

Definition route_expired (at_ms ttl : Z) (route : MemoryRouteRecord) : bool :=
  negb (rt_recovery_required route)
  && is_some_and (λ completed, ttl <=? saturating_sub_i64 at_ms completed) (rt_tombstoned_at_ms route).

(** Whether the two [retain] calls keep a journal record: its route was not expired by this sweep,
    and it is unacknowledged or recent. *)
Definition lifecycle_live (routes : gmap RouteKey MemoryRouteRecord) (at_ms ttl : Z) (key : IdKey)
    (record : MemoryLifecycleRecord) : bool :=
  negb (is_some_and (route_expired at_ms ttl) (routes !! ((key.1, lr_key record) : RouteKey)))
  && (negb (lr_acked record) || (saturating_sub_i64 at_ms (lr_created_at_ms record) <? ttl)).

Definition sweep_locked (self : MemoryPrivateEgressStateStore) (state : MemoryState) (at_ms : Z)
    : MemoryState :=
  let ttl := ttl_ms self in
  {| es_active_epochs := es_active_epochs state;
     es_commands := filter (λ kv, command_live at_ms ttl kv.2 = true) (es_commands state);
     es_routes := filter (λ kv, route_expired at_ms ttl kv.2 = false) (es_routes state);
     es_lifecycle :=
       filter (λ kv, lifecycle_live (es_routes state) at_ms ttl kv.1 kv.2 = true)
         (es_lifecycle state) |}.

(** ** Methods *)

Definition set_state (self : MemoryPrivateEgressStateStore) (state : MemoryState)
    : MemoryPrivateEgressStateStore := self <| ss_state := state |>.

(** The command loop of [begin_epoch_locked]. *)
Definition fence_command (epoch : PrivateEgressGatewayEpoch) (at_ms : Z) (key : IdKey)
    (command : MemoryCommandRecord) : MemoryCommandRecord :=
  if (key.1 ==? ge_gateway_id epoch) && (mr_epoch command !=? ge_instance_id epoch)
  then command <| mr_epoch := ge_instance_id epoch |>
               <| mr_response := Some (rejected key.2 PrivateEgressError.DeadEpoch) |>
               <| mr_completed_at_ms := Some at_ms |>
  else command.

(** The route loop of [begin_epoch_locked]. *)
Definition fence_route (epoch : PrivateEgressGatewayEpoch) (dead_epoch : Uuid) (at_ms : Z)
    (key : RouteKey) (route : MemoryRouteRecord) : MemoryRouteRecord :=
  if (key.1 ==? ge_gateway_id epoch) && (rt_epoch route ==? dead_epoch) && route_is_open route
  then route <| rt_pending := None |> <| rt_state := Some LifecycleState.Failed |>
             <| rt_tombstoned_at_ms := Some at_ms |> <| rt_recovery_required := true |>
  else route.

Definition begin_epoch_locked
    (iter : gmap RouteKey MemoryRouteRecord → list (RouteKey * MemoryRouteRecord))
    (state : MemoryState) (epoch : PrivateEgressGatewayEpoch) (at_ms : Z)
    : MemoryState * list PrivateEgressRecoveredRoute :=
  let previous := es_active_epochs state !! ge_gateway_id epoch in
  let state :=
    state <| es_active_epochs :=
      <[ge_gateway_id epoch := ge_instance_id epoch]> (es_active_epochs state) |> in
  let state :=
    match previous with
    | Some dead_epoch =>
        if dead_epoch !=? ge_instance_id epoch then
          state <| es_commands :=
                     map_imap (λ key c, Some (fence_command epoch at_ms key c)) (es_commands state) |>
                <| es_routes :=
                     map_imap (λ key r, Some (fence_route epoch dead_epoch at_ms key r))
                       (es_routes state) |>
        else state
    | None => state
    end in
  (state,
   map (λ kv, {| rr_dead_epoch := rt_epoch kv.2; rr_key := kv.1.2 |})
     (filter (λ kv, kv.1.1 = ge_gateway_id epoch ∧ rt_recovery_required kv.2 = true)
        (iter (es_routes state)))).

Definition activate
    (iter : gmap RouteKey MemoryRouteRecord → list (RouteKey * MemoryRouteRecord))
    (self : MemoryPrivateEgressStateStore) (epoch : PrivateEgressGatewayEpoch) (at_ms : Z)
    : MemoryPrivateEgressStateStore * list PrivateEgressRecoveredRoute :=
  let '(state, recovered) := begin_epoch_locked iter (ss_state self) epoch at_ms in
  (set_state self state, recovered).

Definition begin_epoch
    (iter : gmap RouteKey MemoryRouteRecord → list (RouteKey * MemoryRouteRecord))
    (self : MemoryPrivateEgressStateStore) (epoch : PrivateEgressGatewayEpoch) (at_ms : Z)
    : MemoryPrivateEgressStateStore * result PrivateEgressError (list PrivateEgressRecoveredRoute) :=
  let '(self, recovered) := activate iter self epoch at_ms in
  (self, Ok recovered).

Definition assert_epoch (self : MemoryPrivateEgressStateStore) (epoch : PrivateEgressGatewayEpoch)
    : result PrivateEgressError () := ensure_epoch (ss_state self) epoch.

Definition put_route (self : MemoryPrivateEgressStateStore) (key : RouteKey)
    (route : MemoryRouteRecord) : MemoryPrivateEgressStateStore :=
  set_state self ((ss_state self) <| es_routes := <[key := route]> (es_routes (ss_state self)) |>).

Definition complete_route_recovery (self : MemoryPrivateEgressStateStore)
    (epoch : PrivateEgressGatewayEpoch) (key : PrivateEgressRouteKey)
    : MemoryPrivateEgressStateStore * result PrivateEgressError () :=
  match ensure_epoch (ss_state self) epoch with
  | Err e => (self, Err e)
  | Ok _ =>
      match es_routes (ss_state self) !! ((ge_gateway_id epoch, key) : RouteKey) with
      | None => (self, Err PrivateEgressError.StateUnavailable)
      | Some route =>
          if negb (rt_recovery_required route)
             || (rt_state route !=? Some LifecycleState.Failed)
             || is_none (rt_tombstoned_at_ms route)
          then (self, Err PrivateEgressError.InvalidTransition)
          else (put_route self (ge_gateway_id epoch, key) (route <| rt_recovery_required := false |>),
                Ok ())
      end
  end.

Definition claim_command (self : MemoryPrivateEgressStateStore) (epoch : PrivateEgressGatewayEpoch)
    (command_id : Uuid) (digest : Digest) (at_ms : Z)
    : MemoryPrivateEgressStateStore * result PrivateEgressError PrivateEgressCommandClaim :=
  match ensure_epoch (ss_state self) epoch with
  | Err e => (self, Err e)
  | Ok _ =>
      let state := sweep_locked self (ss_state self) at_ms in
      let key : IdKey := (ge_gateway_id epoch, command_id) in
      match es_commands state !! key with
      | Some record =>
          (set_state self state,
           if mr_digest record !=? digest then Err PrivateEgressError.ReplayConflict
           else Ok (match mr_response record with
                    | Some response => Completed response
                    | None => InFlight
                    end))
      | None =>
          if (ss_max_entries self <=? N.of_nat (size (es_commands state)))%N
          then (set_state self state, Err PrivateEgressError.CapacityExceeded)
          else
            let record :=
              {| mr_epoch := ge_instance_id epoch; mr_digest := digest; mr_created_at_ms := at_ms;
                 mr_completed_at_ms := None; mr_response := None |} in
            (set_state self (state <| es_commands := <[key := record]> (es_commands state) |>),
             Ok Acquired)
      end
  end.

Definition complete_command (self : MemoryPrivateEgressStateStore) (epoch : PrivateEgressGatewayEpoch)
    (command_id : Uuid) (digest : Digest) (response : PrivateEgressResponse) (at_ms : Z)
    : MemoryPrivateEgressStateStore * result PrivateEgressError () :=
  match ensure_epoch (ss_state self) epoch with
  | Err e => (self, Err e)
  | Ok _ =>
      let key : IdKey := (ge_gateway_id epoch, command_id) in
      match es_commands (ss_state self) !! key with
      | None => (self, Err PrivateEgressError.StateUnavailable)
      | Some record =>
          if (mr_epoch record !=? ge_instance_id epoch) || (mr_digest record !=? digest)
          then (self, Err PrivateEgressError.ReplayConflict)
          else
            match mr_response record with
            | Some existing =>
                (self, if existing ==? response then Ok () else Err PrivateEgressError.ReplayConflict)
            | None =>
                let record :=
                  record <| mr_response := Some response |> <| mr_completed_at_ms := Some at_ms |> in
                (set_state self ((ss_state self) <| es_commands :=
                   <[key := record]> (es_commands (ss_state self)) |>), Ok ())
            end
      end
  end.

Definition claim_route_transition (self : MemoryPrivateEgressStateStore)
    (epoch : PrivateEgressGatewayEpoch) (key : PrivateEgressRouteKey) (command_id : Uuid)
    (expected : option PrivateEgressLifecycleState) (next : PrivateEgressLifecycleState)
    : MemoryPrivateEgressStateStore * result PrivateEgressError () :=
  match ensure_epoch (ss_state self) epoch with
  | Err e => (self, Err e)
  | Ok _ =>
      let route_key : RouteKey := (ge_gateway_id epoch, key) in
      match es_routes (ss_state self) !! route_key with
      | Some route =>
          if (rt_epoch route ==? ge_instance_id epoch) && (rt_state route ==? expected)
             && is_none (rt_pending route) && is_none (rt_tombstoned_at_ms route)
          then (put_route self route_key (route <| rt_pending := Some (command_id, next) |>), Ok ())
          else (self, Err PrivateEgressError.InvalidTransition)
      | None =>
          if is_none expected then
            if (ss_max_entries self <=? N.of_nat (size (es_routes (ss_state self))))%N
            then (self, Err PrivateEgressError.CapacityExceeded)
            else (put_route self route_key
                    {| rt_epoch := ge_instance_id epoch; rt_state := None;
                       rt_pending := Some (command_id, next); rt_next_lifecycle_sequence := 0%N;
                       rt_tombstoned_at_ms := None; rt_recovery_required := false |}, Ok ())
          else (self, Err PrivateEgressError.InvalidTransition)
      end
  end.

Definition complete_route_transition (self : MemoryPrivateEgressStateStore)
    (epoch : PrivateEgressGatewayEpoch) (key : PrivateEgressRouteKey) (command_id : Uuid)
    (next : PrivateEgressLifecycleState) (at_ms : Z)
    : MemoryPrivateEgressStateStore * result PrivateEgressError () :=
  match ensure_epoch (ss_state self) epoch with
  | Err e => (self, Err e)
  | Ok _ =>
      let route_key : RouteKey := (ge_gateway_id epoch, key) in
      match es_routes (ss_state self) !! route_key with
      | None => (self, Err PrivateEgressError.InvalidTransition)
      | Some route =>
          if (rt_epoch route !=? ge_instance_id epoch) || (rt_pending route !=? Some (command_id, next))
          then (self, Err PrivateEgressError.InvalidTransition)
          else
            let route := route <| rt_pending := None |> <| rt_state := Some next |> in
            let route :=
              if is_terminal next then route <| rt_tombstoned_at_ms := Some at_ms |> else route in
            (put_route self route_key route, Ok ())
      end
  end.

Definition abort_route_transition (self : MemoryPrivateEgressStateStore)
    (epoch : PrivateEgressGatewayEpoch) (key : PrivateEgressRouteKey) (command_id : Uuid)
    : MemoryPrivateEgressStateStore * result PrivateEgressError () :=
  match ensure_epoch (ss_state self) epoch with
  | Err e => (self, Err e)
  | Ok _ =>
      let route_key : RouteKey := (ge_gateway_id epoch, key) in
      match es_routes (ss_state self) !! route_key with
      | None => (self, Err PrivateEgressError.InvalidTransition)
      | Some route =>
          if (rt_epoch route !=? ge_instance_id epoch)
             || is_none_or (λ pending, pending.1 !=? command_id) (rt_pending route)
          then (self, Err PrivateEgressError.InvalidTransition)
          else if is_none (rt_state route)
          then (set_state self ((ss_state self) <| es_routes :=
                  delete route_key (es_routes (ss_state self)) |>), Ok ())
          else (put_route self route_key (route <| rt_pending := None |>), Ok ())
      end
  end.

(** The filter of [fail_source]. *)
Definition fails_with (epoch : PrivateEgressGatewayEpoch) (authority : PrivateEgressRouteAuthority)
    (key : RouteKey) (route : MemoryRouteRecord) : bool :=
  (key.1 ==? ge_gateway_id epoch) && (rt_epoch route ==? ge_instance_id epoch)
  && belongs_to key.2 authority && route_is_open route.

(** [fail_source]; the keys come in the order the map is visited. *)
Definition fail_source
    (iter : gmap RouteKey MemoryRouteRecord → list (RouteKey * MemoryRouteRecord))
    (self : MemoryPrivateEgressStateStore) (epoch : PrivateEgressGatewayEpoch)
    (authority : PrivateEgressRouteAuthority) (at_ms : Z)
    : MemoryPrivateEgressStateStore * result PrivateEgressError (list PrivateEgressRouteKey) :=
  match ensure_epoch (ss_state self) epoch with
  | Err e => (self, Err e)
  | Ok _ =>
      let routes := es_routes (ss_state self) in
      let keys :=
        map (λ kv, kv.1.2)
          (filter (λ kv, fails_with epoch authority kv.1 kv.2 = true) (iter routes)) in
      let fail_one routes key :=
        let route_key : RouteKey := (ge_gateway_id epoch, key) in
        match routes !! route_key with
        | Some route =>
            <[route_key := route <| rt_pending := None |>
                                 <| rt_state := Some LifecycleState.Failed |>
                                 <| rt_tombstoned_at_ms := Some at_ms |>]> routes
        | None => routes
        end in
      (set_state self ((ss_state self) <| es_routes := fold_left fail_one keys routes |>), Ok keys)
  end.

(** The checks and the route mutation of [append_lifecycle] before a sequence is drawn. *)
Definition lifecycle_route (route : MemoryRouteRecord) (current : PrivateEgressLifecycleState)
    (kind : PrivateEgressLifecycleKind) (at_ms : Z) : result PrivateEgressError MemoryRouteRecord :=
  match kind with
  | State next _ =>
      if is_some (rt_pending route) || negb (lifecycle_transition_allowed current next)
      then Err PrivateEgressError.InvalidTransition
      else
        let route := route <| rt_state := Some next |> in
        Ok (if is_terminal next then route <| rt_tombstoned_at_ms := Some at_ms |> else route)
  | Progress status_code _ =>
      let pending_activate :=
        is_none_or (λ pending, pending.2 ==? LifecycleState.Active) (rt_pending route) in
      if (current !=? LifecycleState.Prepared) || negb pending_activate
         || negb ((100 <=? status_code) && (status_code <=? 199))
      then Err PrivateEgressError.InvalidTransition
      else Ok route
  end.

Definition append_lifecycle (self : MemoryPrivateEgressStateStore) (epoch : PrivateEgressGatewayEpoch)
    (key : PrivateEgressRouteKey) (event : PrivateEgressLifecycleEvent) (at_ms : Z)
    : MemoryPrivateEgressStateStore * result PrivateEgressError PrivateEgressLifecycleEvent :=
  let state := ss_state self in
  let journal_key : IdKey := (ge_gateway_id epoch, le_event_id event) in
  let route_key : RouteKey := (ge_gateway_id epoch, key) in
  match (ensure_epoch state epoch;;
         reject_if ((le_worker event !=? rk_worker key)
                    || (le_source event !=? ra_source (authority key))
                    || (le_target event !=? rk_target key)
                    || negb (is_nil (le_gateway_epoch event))
                    || negb (le_sequence event =? 0)%N) PrivateEgressError.OwnershipMismatch;;
         reject_if (is_some (es_lifecycle state !! journal_key)) PrivateEgressError.ReplayConflict;;
         reject_if (ss_max_entries self <=? N.of_nat (size (es_lifecycle state)))%N
           PrivateEgressError.CapacityExceeded;;
         route ← ok_or (es_routes state !! route_key) PrivateEgressError.InvalidTransition;
         reject_if ((rt_epoch route !=? ge_instance_id epoch) || rt_recovery_required route
                    || is_some (rt_tombstoned_at_ms route)) PrivateEgressError.InvalidTransition;;
         current ← ok_or (rt_state route) PrivateEgressError.InvalidTransition;
         lifecycle_route route current (le_kind event) at_ms) with
  | Err e => (self, Err e)
  | Ok route =>
      let sequence := (rt_next_lifecycle_sequence route + 1)%N in
      if (Z.to_N U64_MAX <? sequence)%N
      then (put_route self route_key route, Err PrivateEgressError.StateUnavailable)
      else
        let stamped := event <| le_gateway_epoch := ge_instance_id epoch |>
                             <| le_sequence := sequence |> in
        let record :=
          {| lr_epoch := ge_instance_id epoch; lr_key := key; lr_event := stamped; lr_acked := false;
             lr_created_at_ms := at_ms |} in
        let routes := <[route_key := route <| rt_next_lifecycle_sequence := sequence |>]>
                        (es_routes state) in
        (set_state self (state <| es_routes := routes |>
                               <| es_lifecycle := <[journal_key := record]> (es_lifecycle state) |>),
         Ok stamped)
  end.

Definition ack_lifecycle (self : MemoryPrivateEgressStateStore) (epoch : PrivateEgressGatewayEpoch)
    (key : PrivateEgressRouteKey) (event_id : Uuid) (sequence : N)
    : MemoryPrivateEgressStateStore * result PrivateEgressError () :=
  match ensure_epoch (ss_state self) epoch with
  | Err e => (self, Err e)
  | Ok _ =>
      let journal_key : IdKey := (ge_gateway_id epoch, event_id) in
      match es_lifecycle (ss_state self) !! journal_key with
      | None => (self, Err PrivateEgressError.InvalidResponse)
      | Some record =>
          if (lr_epoch record !=? ge_instance_id epoch) || (lr_key record !=? key)
             || (le_sequence (lr_event record) !=? sequence)
          then (self, Err PrivateEgressError.OwnershipMismatch)
          else (set_state self ((ss_state self) <| es_lifecycle :=
                  <[journal_key := record <| lr_acked := true |>]> (es_lifecycle (ss_state self)) |>),
                Ok ())
      end
  end.

(** [sort_by_key(|event| event.sequence)], a stable sort. *)
Fixpoint insert_by_sequence (event : PrivateEgressLifecycleEvent)
    (events : list PrivateEgressLifecycleEvent) : list PrivateEgressLifecycleEvent :=
  match events with
  | [] => [event]
  | e :: rest =>
      if (le_sequence event <=? le_sequence e)%N then event :: events
      else e :: insert_by_sequence event rest
  end.

Definition sort_by_sequence (events : list PrivateEgressLifecycleEvent)
    : list PrivateEgressLifecycleEvent := foldr insert_by_sequence [] events.

(** The filter of [unacked_lifecycle]. *)
Definition is_unacked (epoch : PrivateEgressGatewayEpoch) (key : PrivateEgressRouteKey)
    (journal_key : IdKey) (record : MemoryLifecycleRecord) : bool :=
  (journal_key.1 ==? ge_gateway_id epoch) && (lr_epoch record ==? ge_instance_id epoch)
  && (lr_key record ==? key) && negb (lr_acked record).

(** [unacked_lifecycle]; [iter] is the order in which the journal is visited. *)
Definition unacked_lifecycle
    (iter : gmap IdKey MemoryLifecycleRecord → list (IdKey * MemoryLifecycleRecord))
    (self : MemoryPrivateEgressStateStore) (epoch : PrivateEgressGatewayEpoch)
    (key : PrivateEgressRouteKey)
    : result PrivateEgressError (list PrivateEgressLifecycleEvent) :=
  ensure_epoch (ss_state self) epoch;;
  Ok (sort_by_sequence
        (map (λ kv, lr_event kv.2)
           (filter (λ kv, is_unacked epoch key kv.1 kv.2 = true)
              (iter (es_lifecycle (ss_state self)))))).
