(* ===== verification/EgressInv.v ===== *)
(** The invariant of the private-egress state store and its preservation by every method. *)

From S2P Require Import Prelude RustText DomainTypes CoordModel EgressState.
From stdpp Require Import options.

(** ** The invariant *)

(** A route, given the active epoch of its gateway. *)
Record route_ok (active : option Uuid) (r : MemoryRouteRecord) : Prop := {
  ro_terminal : is_some (rt_tombstoned_at_ms r) = is_some_and is_terminal (rt_state r);
  ro_closed : is_some (rt_tombstoned_at_ms r) = true → rt_pending r = None;
  ro_started : rt_state r = None → is_some (rt_pending r) = true ∧ rt_next_lifecycle_sequence r = 0%N;
  ro_recovery : rt_recovery_required r = true → rt_state r = Some LifecycleState.Failed;
  ro_live : rt_tombstoned_at_ms r = None → active = Some (rt_epoch r);
}.

(** A journal record: stamped, and numbered within its route's counter. *)
Record lifecycle_ok (routes : gmap RouteKey MemoryRouteRecord) (key : IdKey)
    (l : MemoryLifecycleRecord) : Prop := {
  lo_stamp : le_gateway_epoch (lr_event l) = lr_epoch l;
  lo_route : ∃ r, routes !! ((key.1, lr_key l) : RouteKey) = Some r ∧ rt_epoch r = lr_epoch l ∧
    (0 < le_sequence (lr_event l) ≤ rt_next_lifecycle_sequence r)%N;
}.

Record store_ok (max : N) (s : MemoryState) : Prop := {
  sk_commands : map_Forall (λ key c, es_active_epochs s !! key.1 = Some (mr_epoch c)) (es_commands s);
  sk_routes : map_Forall (λ key, route_ok (es_active_epochs s !! key.1)) (es_routes s);
  sk_lifecycle : map_Forall (lifecycle_ok (es_routes s)) (es_lifecycle s);
  sk_sequences : ∀ g i i' l l', es_lifecycle s !! ((g, i) : IdKey) = Some l →
    es_lifecycle s !! ((g, i') : IdKey) = Some l' → lr_key l = lr_key l' →
    le_sequence (lr_event l) = le_sequence (lr_event l') → i = i';
  sk_command_bound : (N.of_nat (size (es_commands s)) ≤ max)%N;
  sk_route_bound : (N.of_nat (size (es_routes s)) ≤ max)%N;
  sk_lifecycle_bound : (N.of_nat (size (es_lifecycle s)) ≤ max)%N;
}.

Definition egress_ok (self : MemoryPrivateEgressStateStore) : Prop :=
  store_ok (ss_max_entries self) (ss_state self).

(** ** Lemmas on the maps *)

Lemma size_filter_le {K} `{Countable K} {V} (P : K * V → Prop) `{∀ x, Decision (P x)} (m : gmap K V) :
  (size (filter P m) ≤ size m)%nat.
Proof. apply map_subseteq_size, map_filter_subseteq. Qed.

Lemma size_imap {K} `{Countable K} {V} (f : K → V → V) (m : gmap K V) :
  size (map_imap (λ k v, Some (f k v)) m) = size m.
Proof.
  rewrite <- !size_dom. f_equal. apply set_eq. intros k. rewrite !elem_of_dom.
  rewrite map_lookup_imap. unfold is_Some. destruct (m !! k); cbn; naive_solver.
Qed.

Lemma imap_lookup {K} `{Countable K} {V} (f : K → V → V) (m : gmap K V) k v :
  map_imap (λ k v, Some (f k v)) m !! k = Some v ↔ ∃ v0, m !! k = Some v0 ∧ v = f k v0.
Proof. rewrite map_lookup_imap. destruct (m !! k); cbn; naive_solver. Qed.

Lemma size_insert_existing {K} `{Countable K} {V} (m : gmap K V) k v v' :
  m !! k = Some v → size (<[k := v']> m) = size m.
Proof. intros Hk. rewrite map_size_insert, Hk. done. Qed.

Lemma size_insert_new {K} `{Countable K} {V} (m : gmap K V) k v :
  m !! k = None → size (<[k := v]> m) = S (size m).
Proof. intros Hk. rewrite map_size_insert, Hk. done. Qed.

(** A route that is not open has settled. *)
Lemma not_open_tombstoned active r :
  route_ok active r → route_is_open r = false → is_some (rt_tombstoned_at_ms r) = true.
Proof.
  intros [T C S _ _] Ho. unfold route_is_open in Ho. bool_hyps.
  destruct (rt_state r) as [st|] eqn:E; [|destruct (S eq_refl) as [Hp _]; congruence].
  rewrite T. cbn in *. by apply negb_false_iff.
Qed.

Lemma open_not_tombstoned active r :
  route_ok active r → route_is_open r = true → rt_tombstoned_at_ms r = None.
Proof.
  intros [T C S _ _] Ho. destruct (rt_tombstoned_at_ms r) as [t|] eqn:E; [|done].
  unfold route_is_open in Ho. cbn in T, C. rewrite (C eq_refl) in Ho. cbn in Ho.
  destruct (rt_state r) as [st|]; [|done]. cbn in *. by rewrite <- T in Ho.
Qed.

(** A route closed as failed at [t], with or without pending recovery. *)
Lemma failed_route_ok active r t rec :
  route_ok active
    (r <| rt_pending := None |> <| rt_state := Some LifecycleState.Failed |>
       <| rt_tombstoned_at_ms := Some t |> <| rt_recovery_required := rec |>).
Proof. by split. Qed.

(** ** Sweeping *)

Lemma sweep_route self s at_ms key :
  es_routes (sweep_locked self s at_ms) !! key =
  match es_routes s !! key with
  | Some r => if route_expired at_ms (ttl_ms self) r then None else Some r
  | None => None
  end.
Proof.
  cbn. rewrite map_lookup_filter. destruct (es_routes s !! key) as [r|]; cbn; [|done].
  by destruct (route_expired _ _ r).
Qed.

Lemma sweep_lifecycle self s at_ms key l :
  es_lifecycle (sweep_locked self s at_ms) !! key = Some l ↔
  es_lifecycle s !! key = Some l ∧ lifecycle_live (es_routes s) at_ms (ttl_ms self) key l = true.
Proof. cbn. by rewrite map_lookup_filter_Some. Qed.

Lemma sweep_command self s at_ms key c :
  es_commands (sweep_locked self s at_ms) !! key = Some c ↔
  es_commands s !! key = Some c ∧ command_live at_ms (ttl_ms self) c = true.
Proof. cbn. by rewrite map_lookup_filter_Some. Qed.

Lemma sweep_ok max self s at_ms : store_ok max s → store_ok max (sweep_locked self s at_ms).
Proof.
  intros [C R L U Bc Br Bl]. split.
  - intros key c [Hc _]%sweep_command. by apply C.
  - intros key r Hr. rewrite sweep_route in Hr. repeat case_match; simplify_eq. by apply (R key).
  - intros key l [Hl Hlive]%sweep_lifecycle. destruct (L _ _ Hl) as [S (r & Hr & He & Hs)].
    split; [done|]. exists r. split; [|done]. rewrite sweep_route, Hr.
    unfold lifecycle_live in Hlive. rewrite Hr in Hlive. cbn in Hlive.
    by destruct (route_expired _ _ r).
  - intros g i i' l l' [Hl _]%sweep_lifecycle [Hl' _]%sweep_lifecycle. by apply (U g).
  - etrans; [|exact Bc]. apply N2Z.inj_le. rewrite !nat_N_Z. apply Nat2Z.inj_le, size_filter_le.
  - etrans; [|exact Br]. apply N2Z.inj_le. rewrite !nat_N_Z. apply Nat2Z.inj_le, size_filter_le.
  - etrans; [|exact Bl]. apply N2Z.inj_le. rewrite !nat_N_Z. apply Nat2Z.inj_le, size_filter_le.
Qed.

(** ** Rewriting one route *)

(** Replacing a route by one of the same epoch whose counter has not gone back. *)
Lemma store_ok_put_route max s key r r' :
  store_ok max s → es_routes s !! key = Some r → route_ok (es_active_epochs s !! key.1) r' →
  rt_epoch r' = rt_epoch r → (rt_next_lifecycle_sequence r ≤ rt_next_lifecycle_sequence r')%N →
  store_ok max (s <| es_routes := <[key := r']> (es_routes s) |>).
Proof.
  intros [C R L U Bc Br Bl] Hr Hr' He Hn. split; try done.
  - by apply map_Forall_insert_2.
  - intros k l Hl. destruct (L _ _ Hl) as [S (r0 & H0 & E0 & Hs)]. split; [done|]. cbn.
    destruct (decide (key = (k.1, lr_key l))) as [->|Hne].
    + assert (r0 = r) as -> by (apply (inj Some); rewrite <- H0; exact Hr).
      exists r'. rewrite lookup_insert_eq. split_and!; [done|congruence|lia|lia].
    + exists r0. by rewrite lookup_insert_ne.
  - cbn. by erewrite size_insert_existing.
Qed.

(** ** Epochs *)

Lemma ensure_epoch_Ok s e u :
  ensure_epoch s e = Ok u ↔ es_active_epochs s !! ge_gateway_id e = Some (ge_instance_id e).
Proof. unfold ensure_epoch. destruct u. case_bool_decide; split; done. Qed.

(** The route map after the fencing of [begin_epoch_locked]. *)
Definition fenced_routes (s : MemoryState) (epoch : PrivateEgressGatewayEpoch) (at_ms : Z)
    : gmap RouteKey MemoryRouteRecord :=
  match es_active_epochs s !! ge_gateway_id epoch with
  | Some dead => if dead !=? ge_instance_id epoch
                 then map_imap (λ key r, Some (fence_route epoch dead at_ms key r)) (es_routes s)
                 else es_routes s
  | None => es_routes s
  end.

Definition fenced_commands (s : MemoryState) (epoch : PrivateEgressGatewayEpoch) (at_ms : Z)
    : gmap IdKey MemoryCommandRecord :=
  match es_active_epochs s !! ge_gateway_id epoch with
  | Some dead => if dead !=? ge_instance_id epoch
                 then map_imap (λ key c, Some (fence_command epoch at_ms key c)) (es_commands s)
                 else es_commands s
  | None => es_commands s
  end.

Lemma begin_epoch_state iter s epoch at_ms :
  (begin_epoch_locked iter s epoch at_ms).1 =
  {| es_active_epochs := <[ge_gateway_id epoch := ge_instance_id epoch]> (es_active_epochs s);
     es_commands := fenced_commands s epoch at_ms; es_routes := fenced_routes s epoch at_ms;
     es_lifecycle := es_lifecycle s |}.
Proof.
  unfold begin_epoch_locked, fenced_commands, fenced_routes. cbn [fst].
  destruct (es_active_epochs s !! ge_gateway_id epoch); [destruct (_ !=? _)|]; done.
Qed.

Lemma fence_route_fields epoch dead at_ms key r :
  rt_epoch (fence_route epoch dead at_ms key r) = rt_epoch r ∧
  rt_next_lifecycle_sequence (fence_route epoch dead at_ms key r) = rt_next_lifecycle_sequence r.
Proof. unfold fence_route. by destruct (_ && _). Qed.

(** A route of the fenced gateway under the new epoch. *)
Lemma fenced_route_ok s epoch at_ms key r :
  map_Forall (λ key, route_ok (es_active_epochs s !! key.1)) (es_routes s) →
  fenced_routes s epoch at_ms !! key = Some r →
  route_ok (<[ge_gateway_id epoch := ge_instance_id epoch]> (es_active_epochs s) !! key.1) r.
Proof.
  intros R. unfold fenced_routes. destruct (decide (key.1 = ge_gateway_id epoch)) as [Eg|Eg].
  - rewrite Eg, lookup_insert_eq.
    destruct (es_active_epochs s !! ge_gateway_id epoch) as [dead|] eqn:Ea.
    + case_bool_decide as Ed; cbn [negb].
      { intros Hr. specialize (R _ _ Hr). cbv beta in R. rewrite Eg, Ea in R. congruence. }
      intros (r0 & Hr & ->)%imap_lookup. specialize (R _ _ Hr). cbv beta in R. rewrite Eg, Ea in R.
      unfold fence_route. rewrite (bool_decide_true (key.1 = _)) by done. cbn [andb].
      destruct ((rt_epoch r0 ==? dead) && route_is_open r0) eqn:Ef; [apply failed_route_ok|].
      assert (Ho : route_is_open r0 = false).
      { destruct (route_is_open r0) eqn:Eo; [|done]. rewrite andb_true_r in Ef. bool_hyps.
        destruct Ef. pose proof (ro_live _ _ R (open_not_tombstoned _ _ R Eo)). congruence. }
      pose proof (not_open_tombstoned _ _ R Ho) as Ht. destruct R as [T C S Q V]. split; auto.
      intros E. by rewrite E in Ht.
    + intros Hr. specialize (R _ _ Hr). cbv beta in R. rewrite Eg, Ea in R. destruct R as [T C S Q V].
      split; auto. intros E. by specialize (V E).
  - rewrite lookup_insert_ne by done. intros Hr.
    assert (es_routes s !! key = Some r) as Hr'; [|by apply (R key)].
    destruct (es_active_epochs s !! ge_gateway_id epoch) as [dead|]; [|done].
    destruct (_ !=? _); [|done]. apply imap_lookup in Hr as (r0 & Hr & ->). etrans; [exact Hr|]. f_equal.
    unfold fence_route. by rewrite bool_decide_false.
Qed.

Lemma begin_epoch_ok iter max s epoch at_ms :
  store_ok max s → store_ok max (begin_epoch_locked iter s epoch at_ms).1.
Proof.
  intros [C R L U Bc Br Bl]. rewrite begin_epoch_state. split; cbn.
  - intros key c Hc. unfold fenced_commands in Hc.
    destruct (decide (key.1 = ge_gateway_id epoch)) as [Eg|Eg].
    + rewrite Eg, lookup_insert_eq.
      destruct (es_active_epochs s !! ge_gateway_id epoch) as [dead|] eqn:Ea.
      * case_bool_decide as Ed; cbn [negb] in Hc.
        { specialize (C _ _ Hc). cbv beta in C. rewrite Eg, Ea in C. congruence. }
        apply imap_lookup in Hc as (c0 & Hc & ->). unfold fence_command.
        rewrite (bool_decide_true (key.1 = _)) by done. cbn [andb].
        case_bool_decide as Ei; cbn; congruence.
      * specialize (C _ _ Hc). cbv beta in C. rewrite Eg, Ea in C. done.
    + rewrite lookup_insert_ne by done.
      destruct (es_active_epochs s !! ge_gateway_id epoch) as [dead|]; [|by apply (C key)].
      destruct (_ !=? _) in Hc; [|by apply (C key)]. apply imap_lookup in Hc as (c0 & Hc & ->).
      unfold fence_command. rewrite (bool_decide_false (key.1 = _)) by done. by apply (C key).
  - intros key r. by apply fenced_route_ok.
  - intros key l Hl. destruct (L _ _ Hl) as [St (r & Hr & He & Hs)]. split; [done|].
    unfold fenced_routes. destruct (es_active_epochs s !! ge_gateway_id epoch) as [dead|]; [|eauto].
    destruct (_ !=? _); [|eauto].
    destruct (fence_route_fields epoch dead at_ms (key.1, lr_key l) r) as [F1 F2].
    exists (fence_route epoch dead at_ms (key.1, lr_key l) r).
    split; [apply imap_lookup; eauto|]. rewrite F1, F2. done.
  - done.
  - unfold fenced_commands. repeat case_match; by rewrite ?size_imap.
  - unfold fenced_routes. repeat case_match; by rewrite ?size_imap.
  - done.
Qed.

(** ** Methods *)

Lemma claim_command_ok self epoch id digest at_ms :
  egress_ok self → egress_ok (claim_command self epoch id digest at_ms).1.
Proof.
  intros Hs. unfold claim_command. destruct (ensure_epoch _ _) as [u|] eqn:Ee; [|done].
  apply ensure_epoch_Ok in Ee. apply (sweep_ok _ self _ at_ms) in Hs as Hw.
  set (s := sweep_locked self (ss_state self) at_ms) in *.
  destruct (es_commands s !! _) as [record|] eqn:Ec; [exact Hw|].
  destruct (N.leb_spec (ss_max_entries self) (N.of_nat (size (es_commands s)))); [exact Hw|].
  change (es_active_epochs (ss_state self)) with (es_active_epochs s) in Ee. clearbody s.
  destruct Hw as [C R L U Bc Br Bl]. split; try done.
  - apply map_Forall_insert_2; [exact Ee|exact C].
  - unfold set_state. cbn. rewrite size_insert_new by done. lia.
Qed.

Lemma complete_command_ok self epoch id digest response at_ms :
  egress_ok self → egress_ok (complete_command self epoch id digest response at_ms).1.
Proof.
  intros Hs. unfold complete_command. destruct (ensure_epoch _ _) as [u|] eqn:Ee; [|done].
  destruct (es_commands _ !! _) as [record|] eqn:Ec; [|done].
  destruct (_ || _); [done|]. destruct (mr_response record); [done|].
  destruct Hs as [C R L U Bc Br Bl]. split; try done.
  - apply map_Forall_insert_2; [exact (C _ _ Ec)|exact C].
  - cbn. by erewrite size_insert_existing.
Qed.

(** The lemma behind every method that rewrites the route it found. *)
Lemma put_route_ok self key r r' :
  egress_ok self → es_routes (ss_state self) !! key = Some r →
  (route_ok (es_active_epochs (ss_state self) !! key.1) r →
   route_ok (es_active_epochs (ss_state self) !! key.1) r') →
  rt_epoch r' = rt_epoch r → rt_next_lifecycle_sequence r' = rt_next_lifecycle_sequence r →
  egress_ok (put_route self key r').
Proof.
  intros Hs Hr Hok He Hn. eapply store_ok_put_route; [done|done| |done|by rewrite Hn].
  apply Hok, (sk_routes _ _ Hs _ _ Hr).
Qed.

Lemma complete_route_recovery_ok self epoch key :
  egress_ok self → egress_ok (complete_route_recovery self epoch key).1.
Proof.
  intros Hs. unfold complete_route_recovery. destruct (ensure_epoch _ _); [|done].
  destruct (es_routes _ !! _) as [r|] eqn:Er; [|done]. destruct (_ || _); [done|].
  eapply put_route_ok; [done|exact Er| |done|done]. intros [T C S Q V]. by split.
Qed.

Lemma claim_route_transition_ok self epoch key id expected next :
  egress_ok self → egress_ok (claim_route_transition self epoch key id expected next).1.
Proof.
  intros Hs. unfold claim_route_transition.
  destruct (ensure_epoch _ _) as [u|] eqn:Ee; [|done]. apply ensure_epoch_Ok in Ee.
  destruct (es_routes _ !! _) as [r|] eqn:Er.
  - destruct (_ && _) eqn:Eg; [|done]. cbn [fst].
    eapply put_route_ok; [done|exact Er| |done|done]. intros [T C S Q V]. bool_hyps.
    destruct (rt_tombstoned_at_ms r) eqn:Et; [done|].
    split; cbn; rewrite ?Et; auto; try done. intros Hn. by destruct (S Hn).
  - destruct (is_none expected); [|done].
    destruct (N.leb_spec (ss_max_entries self) (N.of_nat (size (es_routes (ss_state self)))));
      [done|]. destruct Hs as [C R L U Bc Br Bl]. split; try done.
    + apply map_Forall_insert_2; [by split|exact R].
    + intros k l Hl. destruct (L _ _ Hl) as [St (r & Hr & Hx)]. split; [done|]. exists r.
      split; [|done]. cbn. rewrite lookup_insert_ne; [done|]. intros E. rewrite <- E in Hr.
      by rewrite Er in Hr.
    + cbn. rewrite size_insert_new by done. lia.
Qed.

Lemma complete_route_transition_ok self epoch key id next at_ms :
  egress_ok self → egress_ok (complete_route_transition self epoch key id next at_ms).1.
Proof.
  intros Hs. unfold complete_route_transition. destruct (ensure_epoch _ _); [|done].
  destruct (es_routes _ !! _) as [r|] eqn:Er; [|done]. destruct (_ || _) eqn:Eg; [done|]. cbn [fst].
  eapply put_route_ok; [done|exact Er| |by destruct (is_terminal next)|by destruct (is_terminal next)].
  intros [T C S Q V]. bool_hyps.
  destruct (rt_tombstoned_at_ms r) as [t|] eqn:Et; [by rewrite (C eq_refl) in *|].
  assert (rt_recovery_required r = false) as Hrec.
  { destruct (rt_recovery_required r); [|done]. by rewrite (Q eq_refl) in T. }
  destruct (is_terminal next) eqn:En; (split; cbn; rewrite ?Et, ?Hrec; auto); done.
Qed.

Lemma abort_route_transition_ok self epoch key id :
  egress_ok self → egress_ok (abort_route_transition self epoch key id).1.
Proof.
  intros Hs. unfold abort_route_transition. destruct (ensure_epoch _ _); [|done].
  destruct (es_routes _ !! _) as [r|] eqn:Er; [|done]. destruct (_ || _) eqn:Eg; [done|].
  destruct (rt_state r) as [st|] eqn:Est; cbn [is_none fst].
  - eapply put_route_ok; [done|exact Er| |done|done]. intros [T C S Q V].
    split; cbn; auto. by rewrite Est.
  - destruct Hs as [C R L U Bc Br Bl].
    destruct (ro_started _ _ (R _ _ Er) Est) as [_ Hz]. split; try done.
    + intros k r0 Hr0. cbn in Hr0. apply lookup_delete_Some in Hr0 as [_ Hr0]. exact (R _ _ Hr0).
    + intros k l Hl. destruct (L _ _ Hl) as [St (r0 & Hr0 & He & Hq)]. split; [done|]. exists r0.
      split; [|done]. cbn. rewrite lookup_delete_ne; [done|]. intros E. rewrite <- E in Hr0.
      rewrite Er in Hr0. injection Hr0 as <-. lia.
    + cbn. rewrite map_size_delete, Er. cbn. lia.
Qed.

(** A failed route keeps its epoch and counter. *)
Lemma fail_all_ok max s g at_ms keys :
  store_ok max s →
  store_ok max (s <| es_routes := fold_left (λ routes key,
    match routes !! ((g, key) : RouteKey) with
    | Some route =>
        <[((g, key) : RouteKey) := route <| rt_pending := None |>
            <| rt_state := Some LifecycleState.Failed |> <| rt_tombstoned_at_ms := Some at_ms |>]> routes
    | None => routes
    end) keys (es_routes s) |>).
Proof.
  revert s. induction keys as [|key keys IH]; intros s Hs; cbn [fold_left].
  { destruct Hs. by split. }
  destruct (es_routes s !! ((g, key) : RouteKey)) as [r|] eqn:Er; [|by apply IH].
  set (r' := r <| rt_pending := None |> <| rt_state := Some LifecycleState.Failed |>
               <| rt_tombstoned_at_ms := Some at_ms |>).
  assert (H1 : store_ok max (s <| es_routes := <[((g, key) : RouteKey) := r']> (es_routes s) |>)).
  { eapply store_ok_put_route; [done|exact Er| |done|done]. by split. }
  exact (IH _ H1).
Qed.

Lemma fail_source_ok iter self epoch auth at_ms :
  egress_ok self → egress_ok (fail_source iter self epoch auth at_ms).1.
Proof.
  intros Hs. unfold fail_source. destruct (ensure_epoch _ _); [|done]. by apply fail_all_ok.
Qed.

(** The route after the state part of an append. *)
Lemma lifecycle_route_ok active r current kind at_ms r' :
  route_ok active r → rt_tombstoned_at_ms r = None → rt_recovery_required r = false →
  rt_state r = Some current → lifecycle_route r current kind at_ms = Ok r' →
  route_ok active r' ∧ rt_epoch r' = rt_epoch r ∧ is_some (rt_state r') = true ∧
  rt_next_lifecycle_sequence r' = rt_next_lifecycle_sequence r.
Proof.
  intros [T C S Q V] Ht Hrec Hst. unfold lifecycle_route. destruct kind as [next reason|code early].
  - destruct (_ || _) eqn:E; [done|]. intros [= <-]. bool_hyps.
    destruct (rt_pending r) eqn:Ep; [done|].
    destruct (is_terminal next) eqn:En;
      (split_and!; [split; cbn; rewrite ?Ht, ?Hrec, ?Ep, ?En; auto; done|done..]).
  - destruct (_ || _); [done|]. intros [= <-]. split_and!; [by split|done| |done]. by rewrite Hst.
Qed.

Lemma append_lifecycle_ok self epoch key event at_ms :
  egress_ok self → egress_ok (append_lifecycle self epoch key event at_ms).1.
Proof.
  intros Hs. unfold append_lifecycle. cbv zeta. destruct (_ ≫= _) as [r'|] eqn:E; [|done].
  rewrite !bind_unit_ok, !reject_if_ok in E. destruct E as (Ee & Hown & Hnew & Hcap & E).
  apply ensure_epoch_Ok in Ee. apply result_bind_ok in E as (r & Er & E).
  destruct (es_routes _ !! _) as [r0|] eqn:Hr; [|done]. injection Er as ->.
  rewrite bind_unit_ok, reject_if_ok in E. destruct E as (Hroute & E).
  apply result_bind_ok in E as (current & Ecur & E). bool_hyps.
  destruct (rt_state r) as [st|] eqn:Est; [|done]. injection Ecur as ->.
  destruct (rt_tombstoned_at_ms r) eqn:Etomb; [done|].
  set (rk := (ge_gateway_id epoch, key) : RouteKey) in *.
  pose proof (sk_routes _ _ Hs _ _ Hr) as Hrok.
  destruct (lifecycle_route_ok _ _ _ _ _ _ Hrok Etomb ltac:(done) Est E) as (Hrok' & He' & Hst' & Hsq').
  destruct (N.ltb_spec (Z.to_N U64_MAX) (rt_next_lifecycle_sequence r' + 1)).
  { eapply put_route_ok; [exact Hs|exact Hr|done|done|done]. }
  set (r2 := r' <| rt_next_lifecycle_sequence := (rt_next_lifecycle_sequence r' + 1)%N |>).
  assert (Hs2 : store_ok (ss_max_entries self)
    ((ss_state self) <| es_routes := <[rk := r2]> (es_routes (ss_state self)) |>)).
  { eapply store_ok_put_route; [exact Hs|exact Hr| |done|cbn; lia].
    destruct Hrok' as [T C S Q V]. split; auto. cbn. intros Hn. by rewrite Hn in Hst'. }
  destruct (es_lifecycle _ !! _) eqn:Hj in Hnew; [done|].
  destruct Hs2 as [C R L U Bc Br Bl]. cbn [fst]. split; try done.
  - apply map_Forall_insert_2; [|exact L]. split; [done|]. cbn.
    exists r2. rewrite lookup_insert_eq. split_and!; cbn; [done|congruence|lia|lia].
  - cbn. intros g i i' l l' Hl1 Hl2 Hk Hq.
    assert (Hnew' : ∀ j x, (ge_gateway_id epoch, le_event_id event) ≠ (g, j) →
      es_lifecycle (ss_state self) !! ((g, j) : IdKey) = Some x → g = ge_gateway_id epoch →
      lr_key x = key → (le_sequence (lr_event x) < rt_next_lifecycle_sequence r' + 1)%N).
    { intros j x _ Hx -> <-. destruct (sk_lifecycle _ _ Hs _ _ Hx) as [_ (r1 & Hr1 & _ & Hle)].
      assert (r1 = r) as -> by (apply (inj Some); rewrite <- Hr1; exact Hr). lia. }
    apply lookup_insert_Some in Hl1 as [[E1 <-]|[N1 Hl1]];
      apply lookup_insert_Some in Hl2 as [[E2 <-]|[N2 Hl2]].
    + congruence.
    + injection E1 as <- <-. cbn in Hk, Hq. specialize (Hnew' _ _ N2 Hl2 eq_refl (eq_sym Hk)). lia.
    + injection E2 as <- <-. cbn in Hk, Hq. specialize (Hnew' _ _ N1 Hl1 eq_refl Hk). lia.
    + by eapply (sk_sequences _ _ Hs g).
  - cbn. rewrite size_insert_new by done. lia.
Qed.

Lemma ack_lifecycle_ok self epoch key id sequence :
  egress_ok self → egress_ok (ack_lifecycle self epoch key id sequence).1.
Proof.
  intros Hs. unfold ack_lifecycle. destruct (ensure_epoch _ _); [|done].
  destruct (es_lifecycle _ !! _) as [l|] eqn:El; [|done]. destruct (_ || _); [done|].
  destruct Hs as [C R L U Bc Br Bl]. split; try done.
  - apply map_Forall_insert_2; [|exact L]. destruct (L _ _ El). by split.
  - cbn. intros g i i' x x' H1 H2 Hk Hq.
    assert (Hold : ∀ j y, <[((ge_gateway_id epoch, id) : IdKey) := l <| lr_acked := true |>]>
        (es_lifecycle (ss_state self)) !! ((g, j) : IdKey) = Some y →
      ∃ y0, es_lifecycle (ss_state self) !! ((g, j) : IdKey) = Some y0 ∧ lr_key y0 = lr_key y ∧
        lr_event y0 = lr_event y).
    { intros j y [[E <-]|[_ Hy]]%lookup_insert_Some; [|by eauto]. exists l. by rewrite <- E. }
    destruct (Hold _ _ H1) as (y & Hy & Ky & Ey). destruct (Hold _ _ H2) as (y' & Hy' & Ky' & Ey').
    eapply (U g); [exact Hy|exact Hy'|congruence|congruence].
  - cbn. by erewrite size_insert_existing.
Qed.

(** ** Runs *)

Inductive egress_call :=
| BeginEpoch (iter : gmap RouteKey MemoryRouteRecord → list (RouteKey * MemoryRouteRecord))
    (epoch : PrivateEgressGatewayEpoch) (at_ms : Z)
| CompleteRecovery (epoch : PrivateEgressGatewayEpoch) (key : PrivateEgressRouteKey)
| ClaimCommand (epoch : PrivateEgressGatewayEpoch) (id : Uuid) (digest : Digest) (at_ms : Z)
| CompleteCommand (epoch : PrivateEgressGatewayEpoch) (id : Uuid) (digest : Digest)
    (response : PrivateEgressResponse) (at_ms : Z)
| ClaimTransition (epoch : PrivateEgressGatewayEpoch) (key : PrivateEgressRouteKey) (id : Uuid)
    (expected : option PrivateEgressLifecycleState) (next : PrivateEgressLifecycleState)
| CompleteTransition (epoch : PrivateEgressGatewayEpoch) (key : PrivateEgressRouteKey) (id : Uuid)
    (next : PrivateEgressLifecycleState) (at_ms : Z)
| AbortTransition (epoch : PrivateEgressGatewayEpoch) (key : PrivateEgressRouteKey) (id : Uuid)
| FailSource (iter : gmap RouteKey MemoryRouteRecord → list (RouteKey * MemoryRouteRecord))
    (epoch : PrivateEgressGatewayEpoch) (auth : PrivateEgressRouteAuthority) (at_ms : Z)
| AppendLifecycle (epoch : PrivateEgressGatewayEpoch) (key : PrivateEgressRouteKey)
    (event : PrivateEgressLifecycleEvent) (at_ms : Z)
| AckLifecycle (epoch : PrivateEgressGatewayEpoch) (key : PrivateEgressRouteKey) (id : Uuid)
    (sequence : N).

(** The store after a call. *)
Definition run_call (self : MemoryPrivateEgressStateStore) (call : egress_call)
    : MemoryPrivateEgressStateStore :=
  match call with
  | BeginEpoch iter epoch at_ms => (begin_epoch iter self epoch at_ms).1
  | CompleteRecovery epoch key => (complete_route_recovery self epoch key).1
  | ClaimCommand epoch id digest at_ms => (claim_command self epoch id digest at_ms).1
  | CompleteCommand epoch id digest response at_ms =>
      (complete_command self epoch id digest response at_ms).1
  | ClaimTransition epoch key id expected next =>
      (claim_route_transition self epoch key id expected next).1
  | CompleteTransition epoch key id next at_ms =>
      (complete_route_transition self epoch key id next at_ms).1
  | AbortTransition epoch key id => (abort_route_transition self epoch key id).1
  | FailSource iter epoch auth at_ms => (fail_source iter self epoch auth at_ms).1
  | AppendLifecycle epoch key event at_ms => (append_lifecycle self epoch key event at_ms).1
  | AckLifecycle epoch key id sequence => (ack_lifecycle self epoch key id sequence).1
  end.

#[export] Hint Resolve claim_command_ok complete_command_ok complete_route_recovery_ok
  claim_route_transition_ok complete_route_transition_ok abort_route_transition_ok fail_source_ok
  append_lifecycle_ok ack_lifecycle_ok : rust.

Lemma run_call_ok self call : egress_ok self → egress_ok (run_call self call).
Proof.
  intros Hs. destruct call; cbn [run_call]; auto with rust.
  unfold begin_epoch, activate. pose proof (begin_epoch_ok iter _ _ epoch at_ms Hs) as Hb.
  destruct (begin_epoch_locked _ _ _ _) as [s rec]. exact Hb.
Qed.

Definition run_calls (self : MemoryPrivateEgressStateStore) (calls : list egress_call)
    : MemoryPrivateEgressStateStore := fold_left run_call calls self.

Lemma run_calls_ok self calls : egress_ok self → egress_ok (run_calls self calls).
Proof.
  unfold run_calls. revert self. induction calls as [|call calls IH]; intros self Hs; [done|].
  by apply IH, run_call_ok.
Qed.

Lemma new_store_ok max ttl self : MemoryPrivateEgressStateStore_new max ttl = Ok self → egress_ok self.
Proof.
  unfold MemoryPrivateEgressStateStore_new. destruct (_ || _); [done|]. intros [= <-].
  split; [apply map_Forall_empty..| | | |].
  - intros g i i' l l' Hl. cbn in Hl. by rewrite lookup_empty in Hl.
  - change (N.of_nat 0 ≤ max)%N. lia.
  - change (N.of_nat 0 ≤ max)%N. lia.
  - change (N.of_nat 0 ≤ max)%N. lia.
Qed.
