(* ===== verification/EgressThms.v ===== *)
(** What the private-egress state store guarantees when a gateway process is replaced: the dead one is
    fenced, and the routes it left behind are recovered. *)

From S2P Require Import Prelude RustText DomainTypes CoordModel EgressState EgressInv.
From stdpp Require Import options.

(** ** Fixtures *)

Definition sample_gateway : rstr := str "gateway".
Definition first_epoch : PrivateEgressGatewayEpoch :=
  {| ge_gateway_id := sample_gateway; ge_instance_id := 1 |}.
Definition second_epoch : PrivateEgressGatewayEpoch :=
  {| ge_gateway_id := sample_gateway; ge_instance_id := 2 |}.

Definition sample_source : PrivateEgressSource :=
  {| src_tenant_id := str "tenant"; src_call_id := 5; src_leg_id := 6; src_binding_generation := 1%N |}.
Definition sample_target : PrivateEgressTarget :=
  {| tgt_leg_id := 7; tgt_binding_generation := 1%N |}.
Definition sample_lease : WorkerLease := {| wl_worker_id := 8; wl_fence := 9%N |}.
Definition sample_key : PrivateEgressRouteKey :=
  PrivateEgressRouteKey_new sample_lease sample_source sample_target.

Definition sample_progress (id : Uuid) : PrivateEgressLifecycleEvent :=
  {| le_version := 1%N; le_event_id := id; le_worker := sample_lease; le_source := sample_source;
     le_target := sample_target; le_gateway_epoch := 0; le_sequence := 0%N;
     le_kind := Progress 180 false |}.

Definition sample_new : MemoryPrivateEgressStateStore :=
  {| ss_max_entries := 8%N; ss_ttl := from_secs 60; ss_state := MemoryState_default |}.

Definition no_order {K} `{Countable K} {V} (m : gmap K V) : list (K * V) := map_to_list m.

(** One command accepted and one route prepared under the first epoch. *)
Definition sample_store : MemoryPrivateEgressStateStore :=
  run_calls sample_new
    [BeginEpoch no_order first_epoch 10;
     ClaimCommand first_epoch 11 99 10;
     ClaimTransition first_epoch sample_key 11 None LifecycleState.Prepared;
     CompleteTransition first_epoch sample_key 11 LifecycleState.Prepared 12;
     AppendLifecycle first_epoch sample_key (sample_progress 21) 13;
     AppendLifecycle first_epoch sample_key (sample_progress 22) 14].

Lemma sample_new_ok : egress_ok sample_new.
Proof. by apply (new_store_ok 8%N (from_secs 60)). Qed.

Lemma sample_store_ok : egress_ok sample_store.
Proof. apply run_calls_ok, sample_new_ok. Qed.

(** ** Reachable stores *)

(** Every store reachable from an empty one is consistent: it stays within its capacity; a route
    is tombstoned exactly when its state is terminal, and then nothing is pending on it; a route that
    is not tombstoned, and every command, belongs to the active epoch of its gateway; a route awaiting
    recovery has failed; and the journal records of a route carry distinct sequence numbers within
    its counter, stamped with its epoch. *)
Theorem reachable_store_is_ok (max : N) (ttl : Duration) (self : MemoryPrivateEgressStateStore)
    (calls : list egress_call) :
  MemoryPrivateEgressStateStore_new max ttl = Ok self → egress_ok (run_calls self calls).
Proof. intros Hn. by eapply run_calls_ok, new_store_ok. Qed.

Lemma reachable_store_is_ok_witness : egress_ok sample_store.
Proof. apply (reachable_store_is_ok 8%N (from_secs 60) sample_new). reflexivity. Defined.

(** ** Fencing *)

(** The epoch a call acts under. *)
Definition call_epoch (call : egress_call) : option PrivateEgressGatewayEpoch :=
  match call with
  | BeginEpoch _ _ _ => None
  | CompleteRecovery epoch _ | ClaimCommand epoch _ _ _ | CompleteCommand epoch _ _ _ _
  | ClaimTransition epoch _ _ _ _ | CompleteTransition epoch _ _ _ _ | AbortTransition epoch _ _
  | FailSource _ epoch _ _ | AppendLifecycle epoch _ _ _ | AckLifecycle epoch _ _ _ => Some epoch
  end.

Definition outcome {A} (r : MemoryPrivateEgressStateStore * result PrivateEgressError A)
    : result PrivateEgressError () := r.2;; Ok ().

(** The result of a call, its value dropped. *)
Definition call_result (self : MemoryPrivateEgressStateStore) (call : egress_call)
    : result PrivateEgressError () :=
  match call with
  | BeginEpoch iter epoch at_ms => outcome (begin_epoch iter self epoch at_ms)
  | CompleteRecovery epoch key => outcome (complete_route_recovery self epoch key)
  | ClaimCommand epoch id digest at_ms => outcome (claim_command self epoch id digest at_ms)
  | CompleteCommand epoch id digest response at_ms =>
      outcome (complete_command self epoch id digest response at_ms)
  | ClaimTransition epoch key id expected next =>
      outcome (claim_route_transition self epoch key id expected next)
  | CompleteTransition epoch key id next at_ms =>
      outcome (complete_route_transition self epoch key id next at_ms)
  | AbortTransition epoch key id => outcome (abort_route_transition self epoch key id)
  | FailSource iter epoch auth at_ms => outcome (fail_source iter self epoch auth at_ms)
  | AppendLifecycle epoch key event at_ms => outcome (append_lifecycle self epoch key event at_ms)
  | AckLifecycle epoch key id sequence => outcome (ack_lifecycle self epoch key id sequence)
  end.

Lemma dead_epoch_error self epoch :
  es_active_epochs (ss_state self) !! ge_gateway_id epoch ≠ Some (ge_instance_id epoch) →
  ensure_epoch (ss_state self) epoch = Err PrivateEgressError.DeadEpoch.
Proof. intros Hn. unfold ensure_epoch. by rewrite bool_decide_false. Qed.

Lemma dead_epoch_refused self call epoch :
  call_epoch call = Some epoch →
  es_active_epochs (ss_state self) !! ge_gateway_id epoch ≠ Some (ge_instance_id epoch) →
  run_call self call = self ∧ call_result self call = Err PrivateEgressError.DeadEpoch.
Proof.
  intros Hc Hd. apply dead_epoch_error in Hd. destruct call; cbn in Hc; simplify_eq;
    cbn [run_call call_result];
    unfold complete_route_recovery, claim_command, complete_command, claim_route_transition,
      complete_route_transition, abort_route_transition, fail_source, append_lifecycle, ack_lifecycle;
    cbv zeta; rewrite Hd; done.
Qed.

Lemma begin_epoch_run iter self epoch at_ms :
  ss_state (run_call self (BeginEpoch iter epoch at_ms)) =
  (begin_epoch_locked iter (ss_state self) epoch at_ms).1.
Proof. reflexivity. Qed.

Lemma begin_epoch_active iter self epoch at_ms :
  es_active_epochs (ss_state (run_call self (BeginEpoch iter epoch at_ms))) =
  <[ge_gateway_id epoch := ge_instance_id epoch]> (es_active_epochs (ss_state self)).
Proof. by rewrite begin_epoch_run, begin_epoch_state. Qed.

(** A call that is not a [BeginEpoch] of the gateway leaves its epoch active. *)
Lemma run_call_active self call g :
  (∀ iter epoch at_ms, call = BeginEpoch iter epoch at_ms → ge_gateway_id epoch ≠ g) →
  es_active_epochs (ss_state (run_call self call)) !! g = es_active_epochs (ss_state self) !! g.
Proof.
  intros Hb. destruct call as [iter epoch at_ms| | | | | | | | |].
  { rewrite begin_epoch_active. rewrite lookup_insert_ne; [done|]. by eapply Hb. }
  all: clear Hb; cbn [run_call];
    unfold complete_route_recovery, claim_command, complete_command, claim_route_transition,
      complete_route_transition, abort_route_transition, fail_source, append_lifecycle, ack_lifecycle;
    cbv zeta; repeat (case_match; try done).
Qed.

(** A process that lost its gateway is powerless: once a newer instance has begun an epoch, every
    call made under the old one, however many there are and whatever other gateways do in between,
    fails with a dead-epoch error and changes nothing. *)
Theorem superseded_instance_is_fenced (self : MemoryPrivateEgressStateStore)
    (iter : gmap RouteKey MemoryRouteRecord → list (RouteKey * MemoryRouteRecord))
    (old new : PrivateEgressGatewayEpoch) (at_ms : Z) (calls : list egress_call) (call : egress_call) :
  ge_gateway_id old = ge_gateway_id new → ge_instance_id old ≠ ge_instance_id new →
  Forall (λ c, ∀ iter epoch at_ms, c = BeginEpoch iter epoch at_ms →
     ge_gateway_id epoch ≠ ge_gateway_id new) calls →
  call_epoch call = Some old →
  let now := run_calls (run_call self (BeginEpoch iter new at_ms)) calls in
  run_call now call = now ∧ call_result now call = Err PrivateEgressError.DeadEpoch.
Proof.
  intros Hg Hi Hf Hc now. apply (dead_epoch_refused now call old Hc).
  assert (Ha : es_active_epochs (ss_state now) !! ge_gateway_id new = Some (ge_instance_id new)).
  { subst now. assert (Ha0 := begin_epoch_active iter self new at_ms).
    apply (f_equal (.!! ge_gateway_id new)) in Ha0. rewrite lookup_insert_eq in Ha0.
    revert Ha0. generalize (run_call self (BeginEpoch iter new at_ms)). unfold run_calls.
    induction Hf as [|c calls Hb Hf IH]; intros s Ha0; [done|]. cbn. apply IH.
    by rewrite (run_call_active s c (ge_gateway_id new) Hb). }
  rewrite Hg, Ha. congruence.
Qed.

Lemma superseded_instance_is_fenced_witness :
  call_result (run_call sample_store (BeginEpoch no_order second_epoch 20))
    (ClaimCommand first_epoch 31 99 21) = Err PrivateEgressError.DeadEpoch.
Proof.
  apply (superseded_instance_is_fenced sample_store no_order first_epoch second_epoch 20 []
    (ClaimCommand first_epoch 31 99 21)); [reflexivity|discriminate|apply Forall_nil; exact I|reflexivity].
Defined.

(** ** Recovery *)

Lemma fenced_route_same s epoch at_ms g k :
  ge_gateway_id epoch ≠ g →
  fenced_routes s epoch at_ms !! ((g, k) : RouteKey) = es_routes s !! ((g, k) : RouteKey).
Proof.
  intros Hg. unfold fenced_routes. repeat case_match; try done.
  rewrite map_lookup_imap. destruct (es_routes s !! _) as [r|]; [|done]. cbn. f_equal.
  unfold fence_route. by rewrite bool_decide_false.
Qed.

(** The route map of the gateway whose epoch moved on. *)
Lemma fenced_route_lookup s epoch dead at_ms k r' :
  map_Forall (λ key, route_ok (es_active_epochs s !! key.1)) (es_routes s) →
  es_active_epochs s !! ge_gateway_id epoch = Some dead → dead ≠ ge_instance_id epoch →
  fenced_routes s epoch at_ms !! ((ge_gateway_id epoch, k) : RouteKey) = Some r' ↔
  ∃ r, es_routes s !! ((ge_gateway_id epoch, k) : RouteKey) = Some r ∧
    r' = if route_is_open r
         then r <| rt_pending := None |> <| rt_state := Some LifecycleState.Failed |>
                <| rt_tombstoned_at_ms := Some at_ms |> <| rt_recovery_required := true |>
         else r.
Proof.
  intros R Ha Hne. unfold fenced_routes. rewrite Ha, bool_decide_false by done. cbn [negb].
  rewrite imap_lookup.
  assert (Hf : ∀ r, es_routes s !! ((ge_gateway_id epoch, k) : RouteKey) = Some r →
    fence_route epoch dead at_ms (ge_gateway_id epoch, k) r =
    if route_is_open r
    then r <| rt_pending := None |> <| rt_state := Some LifecycleState.Failed |>
           <| rt_tombstoned_at_ms := Some at_ms |> <| rt_recovery_required := true |>
    else r).
  { intros r Hr. unfold fence_route. cbn [fst]. rewrite bool_decide_true by done. cbn [andb].
    destruct (route_is_open r) eqn:Eo; [|by rewrite andb_false_r].
    specialize (R _ _ Hr). cbn in R. rewrite Ha in R.
    pose proof (ro_live _ _ R (open_not_tombstoned _ _ R Eo)) as E. injection E as <-.
    by rewrite bool_decide_true. }
  split; intros (r & Hr & ->); exists r; rewrite Hf; auto.
Qed.

(** The answer of a [begin_epoch]. *)
Definition recovered_keys (rec : list PrivateEgressRecoveredRoute) : list PrivateEgressRouteKey :=
  map rr_key rec.

Lemma recovered_iff
    (iter : gmap RouteKey MemoryRouteRecord → list (RouteKey * MemoryRouteRecord)) s epoch at_ms k :
  (∀ m, iter m ≡ₚ map_to_list m) →
  k ∈ recovered_keys (begin_epoch_locked iter s epoch at_ms).2 ↔
  ∃ r, fenced_routes s epoch at_ms !! ((ge_gateway_id epoch, k) : RouteKey) = Some r ∧
    rt_recovery_required r = true.
Proof.
  intros Hiter. pose proof (f_equal es_routes (begin_epoch_state iter s epoch at_ms)) as Hr.
  cbn [es_routes] in Hr. rewrite <- Hr. unfold begin_epoch_locked, recovered_keys. cbn [fst snd].
  rewrite map_map. rewrite list_elem_of_fmap. split.
  - intros ([[g k'] r] & -> & Hin). apply list_elem_of_filter in Hin as [[Hg Hq] Hin].
    rewrite Hiter in Hin. apply elem_of_map_to_list in Hin. cbn in *. subst g. eauto.
  - intros (r & Hin & Hq). exists ((ge_gateway_id epoch, k), r). split; [done|].
    apply list_elem_of_filter. split; [done|]. rewrite Hiter. by apply elem_of_map_to_list.
Qed.

(** A new epoch inherits exactly the unfinished business of the previous one: every route of the
    gateway that was open, together with those still awaiting cleanup from before, and no other, is
    returned for recovery and marked failed; no route of the gateway is open any more; every command
    the gateway had on record now answers with a dead-epoch rejection; other gateways are not
    touched. *)
Theorem begin_epoch_takes_over
    (iter : gmap RouteKey MemoryRouteRecord → list (RouteKey * MemoryRouteRecord))
    (self self' : MemoryPrivateEgressStateStore) (epoch : PrivateEgressGatewayEpoch) (dead : Uuid)
    (at_ms : Z) (rec : list PrivateEgressRecoveredRoute) :
  egress_ok self → (∀ m, iter m ≡ₚ map_to_list m) →
  es_active_epochs (ss_state self) !! ge_gateway_id epoch = Some dead → dead ≠ ge_instance_id epoch →
  begin_epoch iter self epoch at_ms = (self', Ok rec) →
  let g := ge_gateway_id epoch in
  let routes := es_routes (ss_state self) in
  (∀ k, k ∈ recovered_keys rec ↔
     ∃ r, routes !! ((g, k) : RouteKey) = Some r ∧
       (route_is_open r = true ∨ rt_recovery_required r = true)) ∧
  (∀ k r', es_routes (ss_state self') !! ((g, k) : RouteKey) = Some r' →
     route_is_open r' = false ∧ (k ∈ recovered_keys rec → rt_recovery_required r' = true)) ∧
  (∀ id c, es_commands (ss_state self) !! ((g, id) : IdKey) = Some c →
     ∃ c', es_commands (ss_state self') !! ((g, id) : IdKey) = Some c' ∧
       mr_response c' = Some (rejected id PrivateEgressError.DeadEpoch)) ∧
  (∀ g' k, g' ≠ g →
     es_routes (ss_state self') !! ((g', k) : RouteKey) = routes !! ((g', k) : RouteKey)).
Proof.
  intros Hok Hiter Ha Hne Hb g routes.
  assert (Hs : ss_state self' = (begin_epoch_locked iter (ss_state self) epoch at_ms).1)
    by (unfold begin_epoch, activate in Hb; destruct (begin_epoch_locked _ _ _ _); by simplify_eq).
  assert (Hrec : rec = (begin_epoch_locked iter (ss_state self) epoch at_ms).2)
    by (unfold begin_epoch, activate in Hb; destruct (begin_epoch_locked _ _ _ _); by simplify_eq).
  rewrite begin_epoch_state in Hs. rewrite Hs. cbn [es_routes es_commands].
  pose proof (sk_routes _ _ Hok) as R.
  assert (Hkeys : ∀ k, k ∈ recovered_keys rec ↔ ∃ r', fenced_routes (ss_state self) epoch at_ms !!
    ((g, k) : RouteKey) = Some r' ∧ rt_recovery_required r' = true).
  { intros k. rewrite Hrec. by apply recovered_iff. }
  split_and!.
  - intros k. rewrite Hkeys. split.
    + intros (r' & Hr' & Hq). apply (fenced_route_lookup _ _ dead) in Hr' as (r & Hr & ->); auto.
      exists r. split; [done|]. destruct (route_is_open r); auto.
    + intros (r & Hr & Hq).
      exists (if route_is_open r
              then r <| rt_pending := None |> <| rt_state := Some LifecycleState.Failed |>
                     <| rt_tombstoned_at_ms := Some at_ms |> <| rt_recovery_required := true |>
              else r).
      split; [apply (fenced_route_lookup _ _ dead); eauto|]. destruct (route_is_open r); [done|].
      by destruct Hq.
  - intros k r' Hr'. split; [|by intros (r2 & Hr2 & ?)%Hkeys; simplify_eq].
    apply (fenced_route_lookup _ _ dead) in Hr' as (r & Hr & ->); auto.
    by destruct (route_is_open r) eqn:Eo.
  - intros id c Hc. pose proof (sk_commands _ _ Hok _ _ Hc) as Hce. cbn in Hce.
    unfold fenced_commands. rewrite Ha, bool_decide_false by done. cbn [negb].
    eexists. split; [apply imap_lookup; eauto|]. unfold fence_command. cbn [fst snd].
    assert (Ed : mr_epoch c = dead) by (subst g; congruence).
    rewrite (bool_decide_true (g = ge_gateway_id epoch)) by done.
    rewrite (bool_decide_false (mr_epoch c = ge_instance_id epoch)) by (by rewrite Ed). done.
  - intros g' k Hg. by apply fenced_route_same.
Qed.

Lemma begin_epoch_takes_over_witness :
  ∃ self' rec, begin_epoch no_order sample_store second_epoch 20 = (self', Ok rec) ∧
    sample_key ∈ recovered_keys rec.
Proof.
  exists (begin_epoch no_order sample_store second_epoch 20).1,
    (begin_epoch_locked no_order (ss_state sample_store) second_epoch 20).2.
  split; [reflexivity|].
  destruct (begin_epoch_takes_over no_order sample_store
    (begin_epoch no_order sample_store second_epoch 20).1 second_epoch 1 20
    (begin_epoch_locked no_order (ss_state sample_store) second_epoch 20).2) as [H _];
    [apply sample_store_ok|done|vm_compute; reflexivity|discriminate|reflexivity|].
  apply H. eexists. split; [vm_compute; reflexivity|]. left. vm_compute. reflexivity.
Defined.

(** The cleanup of a route is still owed. *)
Definition recovery_owed (s : MemoryState) (key : RouteKey) : Prop :=
  ∃ r, es_routes s !! key = Some r ∧ rt_recovery_required r = true.

(** A call that reports the cleanup of the route as done. *)
Definition completes_recovery (key : RouteKey) (call : egress_call) : Prop :=
  ∃ epoch k, call = CompleteRecovery epoch k ∧ key = (ge_gateway_id epoch, k).

Lemma owed_put_route self key key' r r' :
  recovery_owed (ss_state self) key → es_routes (ss_state self) !! key' = Some r →
  (key = key' → rt_recovery_required r = true → rt_recovery_required r' = true) →
  recovery_owed (ss_state (put_route self key' r')) key.
Proof.
  intros (r0 & Hr0 & Hq) Hr Hk. destruct (decide (key' = key)) as [->|Hne].
  - exists r'. cbn. rewrite lookup_insert_eq. split; [done|].
    rewrite Hr in Hr0. injection Hr0 as ->. auto.
  - exists r0. cbn. by rewrite lookup_insert_ne.
Qed.

Lemma owed_settled self key r :
  egress_ok self → recovery_owed (ss_state self) key → es_routes (ss_state self) !! key = Some r →
  rt_state r = Some LifecycleState.Failed ∧ is_some (rt_tombstoned_at_ms r) = true.
Proof.
  intros Hok (r0 & Hr0 & Hq) Hr. rewrite Hr in Hr0. injection Hr0 as ->.
  destruct (sk_routes _ _ Hok _ _ Hr) as [T _ _ Q _]. rewrite T, (Q Hq). done.
Qed.

Lemma owed_fail_all (routes : gmap RouteKey MemoryRouteRecord) g at_ms keys (key : RouteKey) :
  (∃ r, routes !! key = Some r ∧ rt_recovery_required r = true) →
  ∃ r, fold_left (λ routes k,
    match routes !! ((g, k) : RouteKey) with
    | Some route =>
        <[((g, k) : RouteKey) := route <| rt_pending := None |>
            <| rt_state := Some LifecycleState.Failed |> <| rt_tombstoned_at_ms := Some at_ms |>]> routes
    | None => routes
    end) keys routes !! key = Some r ∧ rt_recovery_required r = true.
Proof.
  revert routes. induction keys as [|k keys IH]; intros routes (r & Hr & Hq); cbn; [by eauto|].
  apply IH. destruct (routes !! ((g, k) : RouteKey)) as [r0|] eqn:E; [|by eauto].
  destruct (decide ((g, k) = key)) as [<-|Hne].
  - eexists. rewrite lookup_insert_eq. split; [done|]. cbn. congruence.
  - exists r. by rewrite lookup_insert_ne.
Qed.

Lemma owed_fenced s epoch at_ms key :
  recovery_owed s key →
  ∃ r, fenced_routes s epoch at_ms !! key = Some r ∧ rt_recovery_required r = true.
Proof.
  intros (r & Hr & Hq). unfold fenced_routes. repeat case_match; [|by eauto..].
  eexists. split; [apply imap_lookup; eauto|]. unfold fence_route. by case_match.
Qed.

Lemma lifecycle_route_recovery r current kind at_ms r' :
  lifecycle_route r current kind at_ms = Ok r' → rt_recovery_required r' = rt_recovery_required r.
Proof. unfold lifecycle_route. intros E. repeat case_match; by simplify_eq. Qed.

Lemma owed_append self epoch k event at_ms key :
  recovery_owed (ss_state self) key →
  recovery_owed (ss_state (append_lifecycle self epoch k event at_ms).1) key.
Proof.
  intros Ho. unfold append_lifecycle. cbv zeta. destruct (_ ≫= _) as [r'|] eqn:E; [|done].
  rewrite !bind_unit_ok, !reject_if_ok in E. destruct E as (_ & _ & _ & _ & E).
  apply result_bind_ok in E as (r & Er & E).
  destruct (es_routes _ !! _) as [r0|] eqn:Hr; [|done]. injection Er as ->.
  rewrite bind_unit_ok in E. destruct E as (_ & E). apply result_bind_ok in E as (cur & _ & E).
  apply lifecycle_route_recovery in E.
  destruct (_ <? _)%N; cbn [fst]; [by eapply owed_put_route; [|exact Hr|congruence]|].
  set (r2 := r' <| rt_next_lifecycle_sequence := (rt_next_lifecycle_sequence r' + 1)%N |>).
  refine (owed_put_route self key _ r r2 Ho Hr _). intros _. cbn. congruence.
Qed.

Lemma run_call_owed self call key :
  egress_ok self → recovery_owed (ss_state self) key → ~ completes_recovery key call →
  recovery_owed (ss_state (run_call self call)) key.
Proof.
  intros Hok Ho Hn. destruct call; cbn [run_call].
  - change (recovery_owed (begin_epoch_locked iter (ss_state self) epoch at_ms).1 key).
    rewrite begin_epoch_state. by apply owed_fenced.
  - unfold complete_route_recovery. destruct (ensure_epoch _ _); [|done].
    destruct (es_routes _ !! _) as [r|] eqn:Er; [|done]. destruct (_ || _); [done|].
    eapply owed_put_route; [done|exact Er|]. intros ->. destruct Hn. by eexists _, _.
  - unfold claim_command. destruct (ensure_epoch _ _); [|done]. destruct Ho as (r & Hr & Hq).
    assert (Hs : recovery_owed (sweep_locked self (ss_state self) at_ms) key).
    { exists r. rewrite sweep_route, Hr. unfold route_expired. by rewrite Hq. }
    cbv zeta. repeat case_match; exact Hs.
  - unfold complete_command. repeat case_match; done.
  - unfold claim_route_transition. destruct (ensure_epoch _ _); [|done].
    destruct (es_routes _ !! _) as [r|] eqn:Er.
    + destruct (_ && _) eqn:Eg; [|done]. by eapply owed_put_route; [|exact Er|].
    + repeat case_match; try done. destruct Ho as (r0 & Hr0 & Hq). exists r0. cbn.
      rewrite lookup_insert_ne; [done|]. intros E. rewrite <- E in Hr0. by rewrite Er in Hr0.
  - unfold complete_route_transition. destruct (ensure_epoch _ _); [|done].
    destruct (es_routes _ !! _) as [r|] eqn:Er; [|done]. destruct (_ || _); [done|].
    eapply owed_put_route; [done|exact Er|]. by destruct (is_terminal next).
  - unfold abort_route_transition. destruct (ensure_epoch _ _); [|done].
    destruct (es_routes _ !! _) as [r|] eqn:Er; [|done]. destruct (_ || _); [done|].
    destruct (rt_state r) eqn:Es; cbn [is_none].
    + by eapply owed_put_route; [|exact Er|].
    + destruct (decide (key = (ge_gateway_id epoch, key0))) as [->|Hne].
      { by destruct (owed_settled _ _ _ Hok Ho Er) as [? _]; simplify_eq. }
      destruct Ho as (r0 & Hr0 & Hq). exists r0. cbn. by rewrite lookup_delete_ne.
  - unfold fail_source. destruct (ensure_epoch _ _); [|done]. by apply owed_fail_all.
  - by apply owed_append.
  - unfold ack_lifecycle. repeat case_match; done.
Qed.

(** C19. The cleanup of a dead route is never forgotten: from the moment a route awaits recovery until
    [complete_route_recovery] is called for it, whatever other calls are made (new epochs,
    expiry sweeps, transitions, lifecycle reports), it stays on record as failed, and every epoch that
    begins for its gateway is handed it again. *)
Theorem recovery_is_owed_until_done
    (iter : gmap RouteKey MemoryRouteRecord → list (RouteKey * MemoryRouteRecord))
    (self : MemoryPrivateEgressStateStore) (epoch : PrivateEgressGatewayEpoch)
    (key : PrivateEgressRouteKey) (at_ms : Z) (calls : list egress_call) :
  egress_ok self → (∀ m, iter m ≡ₚ map_to_list m) →
  recovery_owed (ss_state self) (ge_gateway_id epoch, key) →
  Forall (λ call, ~ completes_recovery (ge_gateway_id epoch, key) call) calls →
  let now := run_calls self calls in
  (∃ r, es_routes (ss_state now) !! ((ge_gateway_id epoch, key) : RouteKey) = Some r ∧
     rt_state r = Some LifecycleState.Failed) ∧
  ∃ self' rec, begin_epoch iter now epoch at_ms = (self', Ok rec) ∧ key ∈ recovered_keys rec.
Proof.
  intros Hok Hiter Ho Hf now.
  assert (Hnow : egress_ok now ∧ recovery_owed (ss_state now) (ge_gateway_id epoch, key)).
  { subst now. unfold run_calls. revert self Hok Ho.
    induction Hf as [|c calls Hc Hf IH]; intros self Hok Ho; [done|].
    apply IH; [by apply run_call_ok|by apply run_call_owed]. }
  destruct Hnow as [Hok' Ho']. split.
  - destruct Ho' as (r & Hr & Hq). exists r. split; [done|].
    by apply (ro_recovery _ _ (sk_routes _ _ Hok' _ _ Hr)).
  - unfold begin_epoch, activate. rewrite (surjective_pairing (begin_epoch_locked _ _ _ _)).
    eexists _, _. split; [done|]. apply recovered_iff; [done|]. by apply owed_fenced.
Qed.

Definition crashed_store : MemoryPrivateEgressStateStore :=
  run_call sample_store (BeginEpoch no_order second_epoch 20).

Lemma recovery_is_owed_until_done_witness :
  ∃ self' rec, begin_epoch no_order
     (run_calls crashed_store [ClaimCommand second_epoch 31 99 1000000]) first_epoch 30
       = (self', Ok rec) ∧ sample_key ∈ recovered_keys rec.
Proof.
  apply (recovery_is_owed_until_done no_order crashed_store first_epoch sample_key 30
    [ClaimCommand second_epoch 31 99 1000000]).
  - apply run_call_ok, sample_store_ok.
  - done.
  - eexists. split; [vm_compute; reflexivity|reflexivity].
  - apply Forall_cons. split; [|by apply Forall_nil].
    intros (e & k & E & _). discriminate.
Defined.
