(* ===== verification/EgressReplay.v ===== *)
(** The promises of the private-egress store to a worker that retries: idempotent commands, and a
    lifecycle journal that is a queue. *)

From stdpp Require Import sorting.
From S2P Require Import Prelude RustText DomainTypes CoordModel EgressState EgressInv EgressThms.
From stdpp Require Import options.

(** ** Calls that keep a command on record *)

(** The call does not start another process of the gateway. *)
Definition keeps_epoch (epoch : PrivateEgressGatewayEpoch) (call : egress_call) : Prop :=
  ∀ iter e at_ms, call = BeginEpoch iter e at_ms → ge_gateway_id e = ge_gateway_id epoch →
    ge_instance_id e = ge_instance_id epoch.

(** The call does not complete the command. *)
Definition leaves_incomplete (key : IdKey) (call : egress_call) : Prop :=
  ∀ e id digest response at_ms, call = CompleteCommand e id digest response at_ms →
    key ≠ (ge_gateway_id e, id).

(** The sweep of the call, if it sweeps, falls within the retention of an outcome of time [t]. *)
Definition sweeps_within (t ttl : Z) (call : egress_call) : Prop :=
  match call with ClaimCommand _ _ _ at_ms => saturating_sub_i64 at_ms t < ttl | _ => True end.

Lemma run_call_config self call :
  ss_ttl (run_call self call) = ss_ttl self ∧ ss_max_entries (run_call self call) = ss_max_entries self.
Proof.
  destruct call; cbn [run_call];
    unfold begin_epoch, activate, complete_route_recovery, claim_command, complete_command,
      claim_route_transition, complete_route_transition, abort_route_transition, fail_source,
      append_lifecycle, ack_lifecycle; cbv zeta; repeat (case_match; simplify_eq; try done).
Qed.

Lemma run_call_keeps_epoch self call epoch :
  keeps_epoch epoch call →
  es_active_epochs (ss_state self) !! ge_gateway_id epoch = Some (ge_instance_id epoch) →
  es_active_epochs (ss_state (run_call self call)) !! ge_gateway_id epoch = Some (ge_instance_id epoch).
Proof.
  intros Hk Ha. destruct call as [iter e at_ms| | | | | | | | |];
    [|rewrite run_call_active; [done|by intros]..].
  rewrite begin_epoch_active. destruct (decide (ge_gateway_id e = ge_gateway_id epoch)) as [Eg|Eg].
  - rewrite Eg, lookup_insert_eq. f_equal. by eapply Hk.
  - by rewrite lookup_insert_ne.
Qed.

(** A command record survives every call that neither completes it, nor expires it, nor starts
    another process of its gateway. *)
Lemma run_call_command self call epoch id c :
  keeps_epoch epoch call →
  es_active_epochs (ss_state self) !! ge_gateway_id epoch = Some (ge_instance_id epoch) →
  es_commands (ss_state self) !! ((ge_gateway_id epoch, id) : IdKey) = Some c →
  (is_some (mr_response c) = true ∨ leaves_incomplete (ge_gateway_id epoch, id) call) →
  (∀ e i d at_ms, call = ClaimCommand e i d at_ms → command_live at_ms (ttl_ms self) c = true) →
  es_commands (ss_state (run_call self call)) !! ((ge_gateway_id epoch, id) : IdKey) = Some c.
Proof.
  intros Hk Ha Hc Hi Hl. destruct call as [iter e at_ms| |e i d at_ms|e i d r at_ms| | | | | |];
    cbn [run_call].
  - change (es_commands (begin_epoch_locked iter (ss_state self) e at_ms).1
      !! ((ge_gateway_id epoch, id) : IdKey) = Some c).
    rewrite begin_epoch_state. cbn [es_commands]. unfold fenced_commands.
    destruct (decide (ge_gateway_id e = ge_gateway_id epoch)) as [Eg|Eg].
    + rewrite Eg, Ha. rewrite bool_decide_true; [done|]. symmetry. by eapply Hk.
    + repeat case_match; try done. apply imap_lookup. exists c. split; [done|].
      unfold fence_command. by rewrite (bool_decide_false (_ = ge_gateway_id e)).
  - unfold complete_route_recovery. repeat case_match; done.
  - unfold claim_command. destruct (ensure_epoch _ _); [|done].
    assert (Hs : es_commands (sweep_locked self (ss_state self) at_ms)
      !! ((ge_gateway_id epoch, id) : IdKey) = Some c) by (apply sweep_command; eauto).
    cbv zeta. destruct (es_commands _ !! ((ge_gateway_id e, i) : IdKey)) as [c'|] eqn:Ec; [exact Hs|].
    destruct (_ <=? _)%N; [exact Hs|]. cbn. rewrite lookup_insert_ne; [exact Hs|].
    intros E. rewrite E in Ec. by rewrite Ec in Hs.
  - unfold complete_command. destruct (ensure_epoch _ _); [|done].
    destruct (es_commands _ !! ((ge_gateway_id e, i) : IdKey)) as [c'|] eqn:Ec; [|done].
    destruct (_ || _); [done|]. destruct (mr_response c') eqn:Er; [done|]. cbn. rewrite lookup_insert_ne; [done|].
    intros E. destruct Hi as [Hi|Hi]; [|by eapply Hi].
    rewrite E in Ec. rewrite Hc in Ec. injection Ec as ->. by rewrite Er in Hi.
  - unfold claim_route_transition. repeat case_match; done.
  - unfold complete_route_transition. repeat case_match; done.
  - unfold abort_route_transition. repeat case_match; done.
  - unfold fail_source. repeat case_match; done.
  - unfold append_lifecycle. cbv zeta. repeat case_match; done.
  - unfold ack_lifecycle. repeat case_match; done.
Qed.

(** The answer to a claim of a command on record. *)
Definition recorded_answer (c : MemoryCommandRecord) (digest : Digest)
    : result PrivateEgressError PrivateEgressCommandClaim :=
  if mr_digest c !=? digest then Err PrivateEgressError.ReplayConflict
  else Ok (match mr_response c with Some response => Completed response | None => InFlight end).

Lemma claim_recorded self epoch id digest at_ms c :
  es_active_epochs (ss_state self) !! ge_gateway_id epoch = Some (ge_instance_id epoch) →
  es_commands (ss_state self) !! ((ge_gateway_id epoch, id) : IdKey) = Some c →
  command_live at_ms (ttl_ms self) c = true →
  (claim_command self epoch id digest at_ms).2 = recorded_answer c digest.
Proof.
  intros Ha Hc Hl. unfold claim_command.
  rewrite (proj2 (ensure_epoch_Ok (ss_state self) epoch ()) Ha). cbv zeta.
  rewrite (proj2 (sweep_command self (ss_state self) at_ms _ c) (conj Hc Hl)). done.
Qed.

(** A run of calls that keeps the command, and the epoch, in place. *)
Lemma run_calls_command self calls epoch id c :
  Forall (keeps_epoch epoch) calls →
  es_active_epochs (ss_state self) !! ge_gateway_id epoch = Some (ge_instance_id epoch) →
  es_commands (ss_state self) !! ((ge_gateway_id epoch, id) : IdKey) = Some c →
  Forall (λ call, is_some (mr_response c) = true ∨
    leaves_incomplete (ge_gateway_id epoch, id) call) calls →
  Forall (λ call, ∀ e i d at_ms, call = ClaimCommand e i d at_ms →
    command_live at_ms (ttl_ms self) c = true) calls →
  let now := run_calls self calls in
  es_active_epochs (ss_state now) !! ge_gateway_id epoch = Some (ge_instance_id epoch) ∧
  es_commands (ss_state now) !! ((ge_gateway_id epoch, id) : IdKey) = Some c ∧
  ss_ttl now = ss_ttl self.
Proof.
  intros Hk Ha Hc Hi Hl. cbv zeta. unfold run_calls. revert self Ha Hc Hi Hl.
  induction Hk as [|call calls Hk _ IH]; intros self Ha Hc Hi Hl; [done|].
  apply Forall_cons in Hi as [Hi1 Hi], Hl as [Hl1 Hl]. cbn [fold_left].
  pose proof (proj1 (run_call_config self call)) as Ht.
  destruct (IH (run_call self call)) as (A & B & C).
  - by apply run_call_keeps_epoch.
  - by apply run_call_command.
  - done.
  - unfold ttl_ms in *. by rewrite Ht.
  - split_and!; [done|done|congruence].
Qed.

Lemma incomplete_live at_ms ttl c : mr_response c = None → command_live at_ms ttl c = true.
Proof. intros Hr. unfold command_live. rewrite Hr. by rewrite orb_true_r. Qed.

(** The record an [Acquired] claim leaves. *)
Lemma acquired_record self self' epoch id digest at_ms :
  claim_command self epoch id digest at_ms = (self', Ok Acquired) →
  es_active_epochs (ss_state self') !! ge_gateway_id epoch = Some (ge_instance_id epoch) ∧
  es_commands (ss_state self') !! ((ge_gateway_id epoch, id) : IdKey) =
    Some {| mr_epoch := ge_instance_id epoch; mr_digest := digest; mr_created_at_ms := at_ms;
            mr_completed_at_ms := None; mr_response := None |} ∧
  ss_ttl self' = ss_ttl self.
Proof.
  unfold claim_command. destruct (ensure_epoch _ _) as [u|] eqn:Ee; [|done]. cbv zeta.
  destruct (es_commands _ !! _) as [c|]; [repeat case_match; done|].
  destruct (_ <=? _)%N; [done|]. intros [= <-]. apply ensure_epoch_Ok in Ee. cbn.
  by rewrite lookup_insert_eq.
Qed.

(** ** Properties *)

(** A command is executed by one claimant: after a claim was [Acquired], as long as it has not been
    completed and no other process took the gateway over, every further claim of the command, at any
    time and after any calls, expiry sweeps included, is told that it is in flight, or that it
    conflicts when its content differs; it is never acquired twice. *)
Theorem in_flight_command_is_exclusive (self self' : MemoryPrivateEgressStateStore)
    (epoch : PrivateEgressGatewayEpoch) (id : Uuid) (digest digest' : Digest) (at_ms at_ms' : Z)
    (calls : list egress_call) :
  claim_command self epoch id digest at_ms = (self', Ok Acquired) →
  Forall (keeps_epoch epoch) calls →
  Forall (leaves_incomplete (ge_gateway_id epoch, id)) calls →
  (claim_command (run_calls self' calls) epoch id digest' at_ms').2 =
  if digest ==? digest' then Ok InFlight else Err PrivateEgressError.ReplayConflict.
Proof.
  intros Hc Hk Hi. destruct (acquired_record _ _ _ _ _ _ Hc) as (Ha & Hr & _).
  edestruct (run_calls_command self' calls epoch id) as (Ha' & Hr' & _); [done|done|exact Hr| | |].
  - eapply Forall_impl; [exact Hi|]. auto.
  - apply Forall_true. intros call e i d at' _. by apply incomplete_live.
  - erewrite claim_recorded; [|done|exact Hr'|by apply incomplete_live].
    unfold recorded_answer. cbn. by case_bool_decide.
Qed.

(** The outcome of a command is stable: once the claimant of a command has completed it, every
    claim of the command within the retention time is answered with exactly that response, or with a
    conflict when its content differs, whatever calls came in between under the same process and
    whatever completions they attempted. *)
Theorem completed_command_replays (self self1 self2 : MemoryPrivateEgressStateStore)
    (epoch : PrivateEgressGatewayEpoch) (id : Uuid) (digest digest' : Digest)
    (response : PrivateEgressResponse) (claimed_at completed_at at_ms : Z)
    (before after : list egress_call) :
  claim_command self epoch id digest claimed_at = (self1, Ok Acquired) →
  Forall (keeps_epoch epoch) before → Forall (leaves_incomplete (ge_gateway_id epoch, id)) before →
  complete_command (run_calls self1 before) epoch id digest response completed_at = (self2, Ok ()) →
  Forall (keeps_epoch epoch) after → Forall (sweeps_within completed_at (ttl_ms self)) after →
  saturating_sub_i64 at_ms completed_at < ttl_ms self →
  (claim_command (run_calls self2 after) epoch id digest' at_ms).2 =
  if digest ==? digest' then Ok (Completed response) else Err PrivateEgressError.ReplayConflict.
Proof.
  intros Hc Hk Hi Hcomp Hk' Hw Ht. destruct (acquired_record _ _ _ _ _ _ Hc) as (Ha & Hr & Hcfg).
  edestruct (run_calls_command self1 before epoch id) as (Ha' & Hr' & Hcfg');
    [done|done|exact Hr| | |].
  { eapply Forall_impl; [exact Hi|]. auto. }
  { apply Forall_true. intros call e i d at' _. by apply incomplete_live. }
  unfold complete_command in Hcomp.
  rewrite (proj2 (ensure_epoch_Ok _ epoch ()) Ha') in Hcomp. cbv zeta in Hcomp.
  rewrite Hr' in Hcomp. cbn [mr_epoch mr_digest mr_response] in Hcomp.
  rewrite !bool_decide_true in Hcomp by done. cbn [negb orb] in Hcomp.
  injection Hcomp as Hs2. set (c := {| mr_epoch := ge_instance_id epoch; mr_digest := digest;
    mr_created_at_ms := claimed_at; mr_completed_at_ms := Some completed_at;
    mr_response := Some response |}).
  assert (Hr2 : es_commands (ss_state self2) !! ((ge_gateway_id epoch, id) : IdKey) = Some c)
    by (rewrite <- Hs2; apply lookup_insert_eq).
  assert (Ha2 : es_active_epochs (ss_state self2) !! ge_gateway_id epoch = Some (ge_instance_id epoch))
    by (by rewrite <- Hs2).
  assert (Httl : ttl_ms self2 = ttl_ms self).
  { unfold ttl_ms. rewrite <- Hs2. cbn. unfold ttl_ms. by rewrite Hcfg', Hcfg. }
  edestruct (run_calls_command self2 after epoch id) as (Ha3 & Hr3 & Hcfg3);
    [done|done|exact Hr2|by apply Forall_true; left| |].
  { eapply Forall_impl; [exact Hw|]. intros call Hs e i d at' ->. cbn in Hs. rewrite Httl.
    unfold command_live. cbn. by rewrite (proj2 (Z.ltb_lt _ _) Hs). }
  erewrite claim_recorded; [|done|exact Hr3|].
  - unfold recorded_answer. cbn. by case_bool_decide.
  - unfold command_live, ttl_ms. rewrite Hcfg3. fold (ttl_ms self2). rewrite Httl. cbn.
    by rewrite (proj2 (Z.ltb_lt _ _) Ht).
Qed.

(** ** Witnesses *)

Definition empty_store : MemoryPrivateEgressStateStore :=
  run_call sample_new (BeginEpoch no_order first_epoch 10).
Definition claimed_store : MemoryPrivateEgressStateStore :=
  run_call empty_store (ClaimCommand first_epoch 11 99 10).
Definition sample_response : PrivateEgressResponse :=
  rejected 11 PrivateEgressError.HandlerRejected.

(** Another command, claimed and completed meanwhile. *)
Definition other_calls : list egress_call :=
  [ClaimCommand first_epoch 12 98 20;
   CompleteCommand first_epoch 12 98 (rejected 12 PrivateEgressError.Timeout) 30].

Definition answered_store : MemoryPrivateEgressStateStore :=
  run_call (run_calls claimed_store other_calls)
    (CompleteCommand first_epoch 11 99 sample_response 40).

Lemma other_calls_keep_epoch : Forall (keeps_epoch first_epoch) other_calls.
Proof. repeat constructor; intros ? ? ? [=]. Defined.

Lemma other_calls_leave_incomplete :
  Forall (leaves_incomplete (ge_gateway_id first_epoch, 11)) other_calls.
Proof. repeat constructor; intros ? ? ? ? ? [=]; subst; discriminate. Defined.

Lemma in_flight_command_is_exclusive_witness :
  (claim_command (run_calls claimed_store other_calls) first_epoch 11 99 1000000).2 = Ok InFlight.
Proof.
  exact (in_flight_command_is_exclusive empty_store claimed_store first_epoch 11 99 99 10 1000000
    other_calls ltac:(vm_compute; reflexivity) other_calls_keep_epoch other_calls_leave_incomplete).
Defined.

Lemma completed_command_replays_witness :
  (claim_command (run_calls answered_store other_calls) first_epoch 11 99 50000).2
    = Ok (Completed sample_response).
Proof.
  refine (completed_command_replays empty_store claimed_store answered_store first_epoch 11 99 99
    sample_response 10 40 50000 other_calls other_calls ltac:(vm_compute; reflexivity)
    other_calls_keep_epoch other_calls_leave_incomplete ltac:(vm_compute; reflexivity)
    other_calls_keep_epoch _ _).
  - repeat constructor.
  - vm_compute. reflexivity.
Defined.

(** The lifecycle journal of a route as a queue: events leave in the order in which they were
    appended, until they are acknowledged. *)

(** ** Sorting by sequence *)

Definition before (e e' : PrivateEgressLifecycleEvent) : Prop := (le_sequence e < le_sequence e')%N.

#[local] Instance before_trans : Transitive before.
Proof. intros x y z. unfold before. lia. Qed.

Lemma insert_by_sequence_perm e l : insert_by_sequence e l ≡ₚ e :: l.
Proof.
  induction l as [|x l IH]; [done|]. cbn. destruct (_ <=? _)%N; [done|]. rewrite IH. apply perm_swap.
Qed.

Lemma sort_by_sequence_perm l : sort_by_sequence l ≡ₚ l.
Proof. induction l as [|x l IH]; [done|]. cbn. rewrite insert_by_sequence_perm. by f_equiv. Qed.

Lemma insert_by_sequence_sorted e l :
  StronglySorted before l → le_sequence e ∉ map le_sequence l →
  StronglySorted before (insert_by_sequence e l).
Proof.
  induction 1 as [|x l Hs IH Hx]; intros Hn; cbn; [by repeat constructor|].
  cbn in Hn. rewrite not_elem_of_cons in Hn. destruct Hn as [Hne Hn].
  destruct (N.leb_spec (le_sequence e) (le_sequence x)) as [Hle|Hlt].
  - assert (Hex : before e x) by (unfold before; lia). constructor; [by constructor|].
    constructor; [done|]. eapply Forall_impl; [exact Hx|]. intros y. by apply transitivity.
  - constructor; [by apply IH|]. rewrite insert_by_sequence_perm. by constructor.
Qed.

Lemma sort_by_sequence_sorted l :
  NoDup (map le_sequence l) → StronglySorted before (sort_by_sequence l).
Proof.
  induction l as [|x l IH]; cbn; intros Hn; [constructor|]. apply NoDup_cons in Hn as [Hx Hn].
  apply insert_by_sequence_sorted; [by apply IH|].
  intros Hin. apply Hx. by rewrite (fmap_Permutation le_sequence _ _ (sort_by_sequence_perm l)) in Hin.
Qed.

(** Two strictly sorted lists with the same elements are equal. *)
Lemma sorted_unique l l' :
  StronglySorted before l → StronglySorted before l' → l ≡ₚ l' → l = l'.
Proof. apply StronglySorted_unique_strong. unfold before. intros. lia. Qed.

(** ** The pending events of a route *)

Definition pending_records (s : MemoryState) (epoch : PrivateEgressGatewayEpoch)
    (key : PrivateEgressRouteKey) : list (IdKey * MemoryLifecycleRecord) :=
  filter (λ kv, is_unacked epoch key kv.1 kv.2 = true) (map_to_list (es_lifecycle s)).

Definition pending_events (s : MemoryState) (epoch : PrivateEgressGatewayEpoch)
    (key : PrivateEgressRouteKey) : list PrivateEgressLifecycleEvent :=
  map (λ kv, lr_event kv.2) (pending_records s epoch key).

Lemma pending_sequences_nodup self epoch key :
  egress_ok self → NoDup (map le_sequence (pending_events (ss_state self) epoch key)).
Proof.
  intros Hok. unfold pending_events. rewrite map_map.
  apply NoDup_fmap_2_strong; [|apply NoDup_filter, NoDup_map_to_list].
  intros [[g i] l] [[g' i'] l'] H1 H2 Hq. unfold pending_records in H1, H2.
  apply list_elem_of_filter in H1 as [U1 H1], H2 as [U2 H2].
  apply elem_of_map_to_list in H1, H2. unfold is_unacked in U1, U2. cbn in *. bool_hyps.
  repeat match goal with H : _ ∧ _ |- _ => destruct H end; subst.
  assert (i = i') as -> by (eapply (sk_sequences _ _ Hok); eauto). congruence.
Qed.

(** What [unacked_lifecycle] returns, by its order and its contents. *)
Lemma unacked_lifecycle_is iter self epoch key l :
  egress_ok self → (∀ m, iter m ≡ₚ map_to_list m) →
  es_active_epochs (ss_state self) !! ge_gateway_id epoch = Some (ge_instance_id epoch) →
  StronglySorted before l → l ≡ₚ pending_events (ss_state self) epoch key →
  unacked_lifecycle iter self epoch key = Ok l.
Proof.
  intros Hok Hiter Ha Hs Hp. unfold unacked_lifecycle.
  rewrite (proj2 (ensure_epoch_Ok _ epoch ()) Ha). cbn. f_equal.
  assert (Hl : map (λ kv, lr_event kv.2) (filter (λ kv, is_unacked epoch key kv.1 kv.2 = true)
    (iter (es_lifecycle (ss_state self)))) ≡ₚ pending_events (ss_state self) epoch key)
    by (apply fmap_Permutation; by rewrite Hiter).
  apply sorted_unique; [|done|by rewrite sort_by_sequence_perm, Hl].
  apply sort_by_sequence_sorted. rewrite (fmap_Permutation le_sequence _ _ Hl).
  by apply pending_sequences_nodup.
Qed.

Lemma unacked_lifecycle_inv iter self epoch key l :
  egress_ok self → (∀ m, iter m ≡ₚ map_to_list m) →
  unacked_lifecycle iter self epoch key = Ok l →
  es_active_epochs (ss_state self) !! ge_gateway_id epoch = Some (ge_instance_id epoch) ∧
  StronglySorted before l ∧ l ≡ₚ pending_events (ss_state self) epoch key.
Proof.
  intros Hok Hiter Hu. unfold unacked_lifecycle in Hu.
  destruct (ensure_epoch _ _) as [[]|] eqn:Ee; [|done]. cbn in Hu. apply ensure_epoch_Ok in Ee.
  set (l0 := sort_by_sequence (pending_events (ss_state self) epoch key)).
  assert (Hs : StronglySorted before l0) by (apply sort_by_sequence_sorted, pending_sequences_nodup, Hok).
  assert (Hp : l0 ≡ₚ pending_events (ss_state self) epoch key) by apply sort_by_sequence_perm.
  pose proof (unacked_lifecycle_is iter self epoch key l0 Hok Hiter Ee Hs Hp) as Hl.
  unfold unacked_lifecycle in Hl. rewrite (proj2 (ensure_epoch_Ok _ epoch ()) Ee) in Hl. cbn in Hl.
  rewrite Hu in Hl. injection Hl as ->. done.
Qed.

Lemma elem_of_pending s epoch key e :
  e ∈ pending_events s epoch key ↔
  ∃ i l, es_lifecycle s !! ((ge_gateway_id epoch, i) : IdKey) = Some l ∧ lr_event l = e ∧
    lr_epoch l = ge_instance_id epoch ∧ lr_key l = key ∧ lr_acked l = false.
Proof.
  unfold pending_events, pending_records. rewrite list_elem_of_fmap. split.
  - intros ([[g i] l] & -> & [U H]%list_elem_of_filter). apply elem_of_map_to_list in H.
    unfold is_unacked in U. cbn in *. bool_hyps.
    repeat match goal with H : _ ∧ _ |- _ => destruct H end; subst.
    exists i, l. naive_solver.
  - intros (i & l & Hl & <- & He & Hk & Ha). exists ((ge_gateway_id epoch, i), l). split; [done|].
    apply list_elem_of_filter. split; [|by apply elem_of_map_to_list]. unfold is_unacked. cbn.
    by rewrite Ha, !bool_decide_true.
Qed.

(** ** Properties *)

(** Pending lifecycle events come back complete and in order: [unacked_lifecycle] returns exactly
    the events of the route that are not acknowledged, with strictly increasing sequence numbers, and
    the same list in whatever order the journal map happens to be visited. *)
Theorem unacked_lifecycle_in_order
    (iter iter' : gmap IdKey MemoryLifecycleRecord → list (IdKey * MemoryLifecycleRecord))
    (self : MemoryPrivateEgressStateStore) (epoch : PrivateEgressGatewayEpoch)
    (key : PrivateEgressRouteKey) (events : list PrivateEgressLifecycleEvent) :
  egress_ok self → (∀ m, iter m ≡ₚ map_to_list m) → (∀ m, iter' m ≡ₚ map_to_list m) →
  unacked_lifecycle iter self epoch key = Ok events →
  StronglySorted N.lt (map le_sequence events) ∧
  (∀ e, e ∈ events ↔
     ∃ i l, es_lifecycle (ss_state self) !! ((ge_gateway_id epoch, i) : IdKey) = Some l ∧
       lr_event l = e ∧ lr_epoch l = ge_instance_id epoch ∧ lr_key l = key ∧ lr_acked l = false) ∧
  unacked_lifecycle iter' self epoch key = Ok events.
Proof.
  intros Hok Hi Hi' Hu. destruct (unacked_lifecycle_inv _ _ _ _ _ Hok Hi Hu) as (Ha & Hs & Hp).
  split_and!.
  - clear -Hs. induction Hs as [|e l Hs IH He]; cbn; [constructor|]. constructor; [done|].
    apply Forall_fmap. eapply Forall_impl; [exact He|]. done.
  - intros e. rewrite Hp. apply elem_of_pending.
  - by apply unacked_lifecycle_is.
Qed.

(** What a successful append did. *)
Lemma append_inv self self' epoch key event at_ms stamped :
  append_lifecycle self epoch key event at_ms = (self', Ok stamped) →
  es_active_epochs (ss_state self) !! ge_gateway_id epoch = Some (ge_instance_id epoch) ∧
  es_active_epochs (ss_state self') = es_active_epochs (ss_state self) ∧
  ∃ r, es_routes (ss_state self) !! ((ge_gateway_id epoch, key) : RouteKey) = Some r ∧
    le_sequence stamped = (rt_next_lifecycle_sequence r + 1)%N ∧
    es_lifecycle (ss_state self) !! ((ge_gateway_id epoch, le_event_id event) : IdKey) = None ∧
    es_lifecycle (ss_state self') =
      <[((ge_gateway_id epoch, le_event_id event) : IdKey) :=
          {| lr_epoch := ge_instance_id epoch; lr_key := key; lr_event := stamped;
             lr_acked := false; lr_created_at_ms := at_ms |}]> (es_lifecycle (ss_state self)).
Proof.
  unfold append_lifecycle. cbv zeta. destruct (_ ≫= _) as [r'|] eqn:E; [|done].
  rewrite !bind_unit_ok, !reject_if_ok in E. destruct E as (Ee & _ & Hnew & _ & E).
  apply ensure_epoch_Ok in Ee. apply result_bind_ok in E as (r & Er & E).
  destruct (es_routes _ !! _) as [r0|] eqn:Hr; [|done]. injection Er as ->.
  rewrite bind_unit_ok in E. destruct E as (_ & E). apply result_bind_ok in E as (cur & _ & E).
  assert (Hq : rt_next_lifecycle_sequence r' = rt_next_lifecycle_sequence r)
    by (unfold lifecycle_route in E; repeat case_match; by simplify_eq).
  destruct (_ <? _)%N; [done|]. intros [= <- <-]. split; [done|]. split; [done|].
  exists r. cbn. rewrite Hq. destruct (es_lifecycle _ !! _) eqn:El in Hnew; done.
Qed.

(** The pending events after a record of the route has been added to the journal. *)
Lemma pending_insert s s' epoch key key' id at_ms e :
  es_lifecycle s !! ((ge_gateway_id epoch, id) : IdKey) = None →
  es_lifecycle s' =
    <[((ge_gateway_id epoch, id) : IdKey) :=
        {| lr_epoch := ge_instance_id epoch; lr_key := key; lr_event := e; lr_acked := false;
           lr_created_at_ms := at_ms |}]> (es_lifecycle s) →
  pending_events s' epoch key' ≡ₚ
  if key ==? key' then e :: pending_events s epoch key' else pending_events s epoch key'.
Proof.
  intros Hn Hs. unfold pending_events, pending_records. rewrite Hs.
  rewrite map_to_list_insert by done. rewrite filter_cons. cbn [fst snd].
  assert (Hu : is_unacked epoch key' (ge_gateway_id epoch, id)
    {| lr_epoch := ge_instance_id epoch; lr_key := key; lr_event := e; lr_acked := false;
       lr_created_at_ms := at_ms |} = (key ==? key')).
  { unfold is_unacked. cbn. rewrite !(bool_decide_true (_ = _ :> rstr)), (bool_decide_true (_ = _ :> Uuid))
      by done. apply andb_true_r. }
  case_bool_decide; case_decide as Hd; rewrite Hu in Hd; done.
Qed.

(** Appending a lifecycle event puts it at the end of the queue of its route, and of no other
    route: what the gateway reads back afterwards is what it read before, followed by the stamped
    event. *)
Theorem append_lifecycle_enqueues
    (iter : gmap IdKey MemoryLifecycleRecord → list (IdKey * MemoryLifecycleRecord))
    (self self' : MemoryPrivateEgressStateStore) (epoch : PrivateEgressGatewayEpoch)
    (key key' : PrivateEgressRouteKey) (event stamped : PrivateEgressLifecycleEvent) (at_ms : Z)
    (events : list PrivateEgressLifecycleEvent) :
  egress_ok self → (∀ m, iter m ≡ₚ map_to_list m) →
  unacked_lifecycle iter self epoch key' = Ok events →
  append_lifecycle self epoch key event at_ms = (self', Ok stamped) →
  unacked_lifecycle iter self' epoch key' =
  Ok (if key ==? key' then events ++ [stamped] else events).
Proof.
  intros Hok Hi Hu Happ. destruct (unacked_lifecycle_inv _ _ _ _ _ Hok Hi Hu) as (Ha & Hs & Hp).
  assert (Hok' : egress_ok self').
  { pose proof (append_lifecycle_ok self epoch key event at_ms Hok) as Hok'. by rewrite Happ in Hok'. }
  destruct (append_inv _ _ _ _ _ _ _ Happ) as (_ & Ha' & r & Hr & Hq & Hn & Hj).
  pose proof (pending_insert _ _ _ _ key' _ _ _ Hn Hj) as Hp'.
  apply unacked_lifecycle_is; [done|done|by rewrite Ha'| |].
  - case_bool_decide as Ek; [subst key'|done]. apply StronglySorted_app_2; [|done|by repeat constructor].
    intros e e' He [->|[]%not_elem_of_nil]%elem_of_cons. rewrite Hp in He.
    apply elem_of_pending in He as (i & l & Hl & <- & _ & Hk & _).
    destruct (sk_lifecycle _ _ Hok _ _ Hl) as [_ (r0 & Hr0 & _ & Hle)]. cbn in Hr0. rewrite Hk, Hr in Hr0.
    injection Hr0 as <-. unfold before. lia.
  - rewrite Hp'. case_bool_decide; [|done]. by rewrite Permutation_app_comm, <- Hp.
Qed.

(** What a successful acknowledgement did. *)
Lemma ack_inv self self' epoch key id sequence :
  ack_lifecycle self epoch key id sequence = (self', Ok ()) →
  es_active_epochs (ss_state self') = es_active_epochs (ss_state self) ∧
  ∃ l, es_lifecycle (ss_state self) !! ((ge_gateway_id epoch, id) : IdKey) = Some l ∧
    lr_epoch l = ge_instance_id epoch ∧ lr_key l = key ∧ le_sequence (lr_event l) = sequence ∧
    es_lifecycle (ss_state self') =
      <[((ge_gateway_id epoch, id) : IdKey) := l <| lr_acked := true |>]>
        (es_lifecycle (ss_state self)) ∧
    ack_lifecycle self' epoch key id sequence = (self', Ok ()).
Proof.
  unfold ack_lifecycle at 1. destruct (ensure_epoch _ _) as [u|] eqn:Ee; [|done].
  destruct (es_lifecycle _ !! _) as [l|] eqn:El; [|done]. destruct (_ || _) eqn:Eg; [done|].
  intros [= <-]. split; [done|]. exists l. split_and!; [done|by bool_hyps..|done|].
  unfold ack_lifecycle. cbn [ss_state set_state].
  change (ensure_epoch _ epoch) with (ensure_epoch (ss_state self) epoch). rewrite Ee. cbn.
  rewrite lookup_insert_eq. cbn in *. rewrite Eg. by rewrite insert_insert_eq.
Qed.

Lemma pending_ack self self' epoch key' id (l : MemoryLifecycleRecord) key sequence e :
  egress_ok self →
  es_lifecycle (ss_state self) !! ((ge_gateway_id epoch, id) : IdKey) = Some l →
  lr_epoch l = ge_instance_id epoch → lr_key l = key → le_sequence (lr_event l) = sequence →
  es_lifecycle (ss_state self') =
    <[((ge_gateway_id epoch, id) : IdKey) := l <| lr_acked := true |>]>
      (es_lifecycle (ss_state self)) →
  e ∈ pending_events (ss_state self') epoch key' ↔
  e ∈ pending_events (ss_state self) epoch key' ∧ (key = key' → le_sequence e ≠ sequence).
Proof.
  intros Hok Hl He <- <- Hj. rewrite !elem_of_pending, Hj. split.
  - intros (i & x & Hx & <- & Hxe & Hxk & Hxa).
    apply lookup_insert_Some in Hx as [[_ <-]|[Hne Hx]]; [done|]. split; [by eauto 10|].
    intros Hk Hq. apply Hne. f_equal. eapply (sk_sequences _ _ Hok); [exact Hl|exact Hx| |]; congruence.
  - intros [(i & x & Hx & <- & Hxe & Hxk & Hxa) Hq]. exists i, x. split; [|done].
    rewrite lookup_insert_ne; [done|]. intros [= <-]. rewrite Hl in Hx. injection Hx as ->. by apply Hq.
Qed.

Lemma pending_nodup self epoch key : egress_ok self → NoDup (pending_events (ss_state self) epoch key).
Proof. intros Hok. eapply NoDup_fmap_1, (pending_sequences_nodup _ epoch key Hok). Qed.

Lemma before_nodup l : StronglySorted before l → NoDup l.
Proof.
  induction 1 as [|e l _ IH He]; constructor; [|done].
  intros Hin. rewrite Forall_forall in He. specialize (He _ Hin). unfold before in He. lia.
Qed.

Lemma sorted_filter f l : StronglySorted before l → StronglySorted before (List.filter f l).
Proof.
  induction 1 as [|e l Hs IH He]; cbn; [constructor|]. destruct (f e); [|done].
  constructor; [done|]. rewrite Forall_forall in *. intros x. rewrite list_elem_of_In, List.filter_In.
  intros [Hx _]. by apply He, list_elem_of_In.
Qed.

(** Acknowledging a lifecycle event takes exactly that event off the queue of its route, and
    repeating the acknowledgement changes nothing more; other routes are not affected. *)
Theorem ack_lifecycle_dequeues
    (iter : gmap IdKey MemoryLifecycleRecord → list (IdKey * MemoryLifecycleRecord))
    (self self' : MemoryPrivateEgressStateStore) (epoch : PrivateEgressGatewayEpoch)
    (key key' : PrivateEgressRouteKey) (id : Uuid) (sequence : N)
    (events : list PrivateEgressLifecycleEvent) :
  egress_ok self → (∀ m, iter m ≡ₚ map_to_list m) →
  unacked_lifecycle iter self epoch key' = Ok events →
  ack_lifecycle self epoch key id sequence = (self', Ok ()) →
  unacked_lifecycle iter self' epoch key' =
    Ok (if key ==? key' then List.filter (λ e, negb (le_sequence e =? sequence)%N) events else events) ∧
  ack_lifecycle self' epoch key id sequence = (self', Ok ()).
Proof.
  intros Hok Hi Hu Hack. destruct (unacked_lifecycle_inv _ _ _ _ _ Hok Hi Hu) as (Ha & Hs & Hp).
  assert (Hok' : egress_ok self').
  { pose proof (ack_lifecycle_ok self epoch key id sequence Hok) as Hok'. by rewrite Hack in Hok'. }
  destruct (ack_inv _ _ _ _ _ _ Hack) as (Ha' & l & Hl & He & Hk & Hq & Hj & Htwice).
  split; [|exact Htwice]. apply unacked_lifecycle_is; [done|done|by rewrite Ha'| |].
  - case_bool_decide; [|done]. by apply sorted_filter.
  - apply NoDup_Permutation.
    + case_bool_decide; [apply NoDup_ListNoDup, List.NoDup_filter, NoDup_ListNoDup|];
        by eapply before_nodup.
    + by apply pending_nodup.
    + intros e. rewrite (pending_ack self self' epoch key' id l key sequence e Hok Hl He Hk Hq Hj), <- Hp.
      case_bool_decide as Ek; [|naive_solver].
      rewrite !list_elem_of_In, List.filter_In, negb_true_iff, N.eqb_neq. naive_solver.
Qed.

(** ** Witnesses *)

Definition sample_stamped (id : Uuid) (sequence : N) : PrivateEgressLifecycleEvent :=
  (sample_progress id) <| le_gateway_epoch := 1 |> <| le_sequence := sequence |>.

(** The journal visited backwards. *)
Definition reverse_order {K} `{Countable K} {V} (m : gmap K V) : list (K * V) := rev (map_to_list m).

Lemma reverse_order_perm {K} `{Countable K} {V} (m : gmap K V) : reverse_order m ≡ₚ map_to_list m.
Proof. symmetry. apply Permutation_rev. Defined.

Lemma unacked_lifecycle_in_order_witness :
  unacked_lifecycle no_order sample_store first_epoch sample_key
    = Ok [sample_stamped 21 1; sample_stamped 22 2] ∧
  unacked_lifecycle reverse_order sample_store first_epoch sample_key
    = Ok [sample_stamped 21 1; sample_stamped 22 2].
Proof.
  split; [vm_compute; reflexivity|].
  apply (unacked_lifecycle_in_order no_order reverse_order sample_store first_epoch sample_key
    [sample_stamped 21 1; sample_stamped 22 2] sample_store_ok);
    [done|intros; apply reverse_order_perm|vm_compute; reflexivity].
Defined.

Definition appended_store : MemoryPrivateEgressStateStore :=
  (append_lifecycle sample_store first_epoch sample_key (sample_progress 23) 15).1.
Definition acked_store : MemoryPrivateEgressStateStore :=
  (ack_lifecycle sample_store first_epoch sample_key 21 1).1.

Lemma appended_store_eq :
  append_lifecycle sample_store first_epoch sample_key (sample_progress 23) 15
    = (appended_store, Ok (sample_stamped 23 3)).
Proof.
  assert (E : (append_lifecycle sample_store first_epoch sample_key (sample_progress 23) 15).2
    = Ok (sample_stamped 23 3)) by (vm_compute; reflexivity).
  rewrite <- E. apply surjective_pairing.
Qed.

Lemma acked_store_eq :
  ack_lifecycle sample_store first_epoch sample_key 21 1 = (acked_store, Ok ()).
Proof.
  assert (E : (ack_lifecycle sample_store first_epoch sample_key 21 1).2 = Ok ())
    by (vm_compute; reflexivity).
  rewrite <- E. apply surjective_pairing.
Qed.

Lemma sample_unacked :
  unacked_lifecycle no_order sample_store first_epoch sample_key
    = Ok [sample_stamped 21 1; sample_stamped 22 2].
Proof. vm_compute. reflexivity. Qed.

Lemma append_lifecycle_enqueues_witness :
  unacked_lifecycle no_order appended_store first_epoch sample_key
  = Ok [sample_stamped 21 1; sample_stamped 22 2; sample_stamped 23 3].
Proof.
  rewrite (append_lifecycle_enqueues no_order sample_store appended_store first_epoch sample_key
    sample_key (sample_progress 23) (sample_stamped 23 3) 15
    [sample_stamped 21 1; sample_stamped 22 2] sample_store_ok (λ m, reflexivity _) sample_unacked
    appended_store_eq).
  rewrite bool_decide_true by reflexivity. reflexivity.
Defined.

Lemma ack_lifecycle_dequeues_witness :
  unacked_lifecycle no_order acked_store first_epoch sample_key = Ok [sample_stamped 22 2].
Proof.
  rewrite (proj1 (ack_lifecycle_dequeues no_order sample_store acked_store first_epoch sample_key
    sample_key 21 1 [sample_stamped 21 1; sample_stamped 22 2] sample_store_ok (λ m, reflexivity _)
    sample_unacked acked_store_eq)).
  rewrite bool_decide_true by reflexivity. reflexivity.
Defined.
