(* ===== verification/RepoTypes.v ===== *)
(** The backend-neutral contract of the call repository ([src/call_engine/repository.rs],
    [src/call_engine/ids.rs]): counters, worker leases and snapshots, stored calls, attachment,
    provider, outbox and deadline rows, and the checks a request passes before it reaches a
    backend. *)

From S2P Require Import Prelude RustText DomainTypes CoordModel Domain.
From stdpp Require Import options.

(** ** Equality of the domain values

    The derived [PartialEq] of the types of [src/call_engine/domain.rs]. *)

#[export] Instance Leg_eq : EqDecision Leg.
Proof. solve_decision. Defined.
#[export] Instance DeadlineSlot_eq : EqDecision DeadlineSlot.
Proof. solve_decision. Defined.
#[export] Instance CallDeadlines_eq : EqDecision CallDeadlines.
Proof. solve_decision. Defined.
#[export] Instance LegReplacement_eq : EqDecision LegReplacement.
Proof. solve_decision. Defined.
#[export] Instance CallAggregate_eq : EqDecision CallAggregate.
Proof. solve_decision. Defined.
#[export] Instance TransferResult_eq : EqDecision TransferResult.
Proof. solve_decision. Defined.
#[export] Instance LegReplacementResult_eq : EqDecision LegReplacementResult.
Proof. solve_decision. Defined.
#[export] Instance CallCommand_eq : EqDecision CallCommand.
Proof. solve_decision. Defined.
#[export] Instance EffectIntent_eq : EqDecision EffectIntent.
Proof. solve_decision. Defined.

(** The codes of the enumerations that are part of a map key. *)
Definition DeadlineKind_code (kind : DeadlineKind) : nat :=
  match kind with
  | DeadlineKind.Setup => 0 | DeadlineKind.Media => 1
  | DeadlineKind.Transfer => 2 | DeadlineKind.Ending => 3
  end.
Definition DeadlineKind_decode (n : nat) : option DeadlineKind :=
  match n with
  | 0%nat => Some DeadlineKind.Setup | 1%nat => Some DeadlineKind.Media
  | 2%nat => Some DeadlineKind.Transfer | 3%nat => Some DeadlineKind.Ending
  | _ => None
  end.
#[export] Instance DeadlineKind_countable : Countable DeadlineKind.
Proof.
  by apply (inj_countable DeadlineKind_code DeadlineKind_decode); intros [].
Defined.

(** ** Limits *)

Definition IDEMPOTENCY_RETENTION : Duration := from_secs (24 * 60 * 60).
Definition MAX_PROVIDER_EVENT_BYTES : Z := 64 * 1024.
Definition MAX_PROVIDER_IDENTIFIER_BYTES : Z := 512.
Definition MAX_PROVIDER_KIND_BYTES : Z := 128.
Definition MAX_CAPABILITY_BYTES : Z := 128.
Definition ROUTE_CATALOG_CAPABILITY_PREFIX : rstr := str "bridgefu.route_catalog.sha256:".
Definition MIN_WORKER_LEASE_TTL : Duration := from_secs 5.
Definition MAX_WORKER_LEASE_TTL : Duration := from_secs (5 * 60).
Definition MAX_WORKER_CANDIDATE_LIMIT : N := 1024.

(** ** Errors *)

Module RepositoryError.
Inductive RepositoryError :=
| NotFound
| CapacityExceeded
| StaleWorkerFence
| WorkerCapabilityUnavailable
| VersionConflict
| CommandConflict
| IdempotencyConflict
| AttachmentRejected
| AttachmentConflict
| ProviderEventConflict
| ProviderReferenceConflict
| StaleClaim
| CounterExhausted
| InvalidInput (message : string)
| DomainRejected
| Unavailable.
End RepositoryError.
Abbreviation RepositoryError := RepositoryError.RepositoryError.
#[export] Instance RepositoryError_eq : EqDecision RepositoryError.
Proof. solve_decision. Defined.

(** ** Identifiers and counters *)

Definition CommandId : Type := Uuid.
Definition EffectId : Type := Uuid.
Definition AttachmentId : Type := Uuid.
Definition IdempotencyKeyDigest : Type := Digest.
Definition RequestDigest : Type := Digest.
Definition ProviderEventDigest : Type := Digest.
Definition ProviderPayloadDigest : Type := Digest.
(** [rvoip_core::ids::ConnectionId], a string newtype. *)
Definition ConnectionId : Type := rstr.
(** A value the repository stores and compares but never inspects, by its JSON text. *)
Definition Json : Type := rstr.

(** [uuid_id!]: the identifiers refuse the nil UUID. *)
Definition repository_id_from_uuid (label : string) (value : Uuid) : result string Uuid :=
  if is_nil value then Err label else Ok value.

Definition ClaimGeneration : Type := N.
Definition ProviderReceiptSequence : Type := N.

Definition WorkerFence_INITIAL : WorkerFence := 1%N.
Definition ClaimGeneration_default : ClaimGeneration := 0%N.
Definition ProviderReceiptSequence_INITIAL : ProviderReceiptSequence := 1%N.

(** The [next] functions of the three counters: none goes past [i64::MAX], so the addition does
    not wrap. *)
Definition WorkerFence_next (self : WorkerFence) : result RepositoryError WorkerFence :=
  if (MAX_PERSISTED_GENERATION <=? self)%N then Err RepositoryError.CounterExhausted
  else Ok (self + 1)%N.

Definition claim_next (self : ClaimGeneration) : result RepositoryError ClaimGeneration :=
  if (MAX_PERSISTED_GENERATION <=? self)%N then Err RepositoryError.CounterExhausted
  else Ok (self + 1)%N.

Definition ProviderReceiptSequence_next (self : ProviderReceiptSequence)
    : result RepositoryError ProviderReceiptSequence :=
  if (MAX_PERSISTED_GENERATION <=? self)%N then Err RepositoryError.CounterExhausted
  else Ok (self + 1)%N.

(** Their [Deserialize] range checks. *)
Definition WorkerFence_deserialize (value : N) : option WorkerFence :=
  if ((value =? 0) || (MAX_PERSISTED_GENERATION <? value))%N then None else Some value.

Definition claim_deserialize (value : N) : option ClaimGeneration :=
  if (MAX_PERSISTED_GENERATION <? value)%N then None else Some value.

Definition ProviderReceiptSequence_deserialize (value : N) : option ProviderReceiptSequence :=
  if ((value =? 0) || (MAX_PERSISTED_GENERATION <? value))%N then None else Some value.

(** ** Route catalog fingerprints *)

(** The [[u8; 32]] behind a fingerprint, most significant byte first, and back. *)
Fixpoint be_bytes (n : nat) (value : Z) : list Z :=
  match n with
  | O => []
  | S n => be_bytes n (Z.shiftr value 8) ++ [Z.land value 255]
  end.

Definition of_be_bytes (l : list Z) : Z := foldl (λ value byte, Z.lor (Z.shiftl value 8) byte) 0 l.

(** One digit of the [{byte:02x}] format. *)
Definition hex_digit (nibble : Z) : rchar := if nibble <? 10 then 48 + nibble else 87 + nibble.

Definition format_02x (byte : Z) : rstr :=
  [hex_digit (Z.shiftr byte 4); hex_digit (Z.land byte 15)].

(** [RouteCatalogFingerprint::to_hex]. *)
Definition to_hex (self : RouteCatalogFingerprint) : rstr := be_bytes 32 self ≫= format_02x.

Definition advertisement_capability (self : RouteCatalogFingerprint) : rstr :=
  ROUTE_CATALOG_CAPABILITY_PREFIX ++ to_hex self.

Definition hex_nibble (byte : Z) : option Z :=
  if between 48 57 byte then Some (byte - 48)
  else if between 97 102 byte then Some (byte - 97 + 10)
  else None.

(** The loop over [chunks_exact(2)]; [high << 4] stays within a byte. *)
Fixpoint hex_pairs (l : list Z) : option (list Z) :=
  match l with
  | high :: low :: l =>
      high ← hex_nibble high;
      low ← hex_nibble low;
      rest ← hex_pairs l;
      Some (Z.lor (Z.shiftl high 4) low :: rest)
  | _ => Some []
  end.

(** [<RouteCatalogFingerprint as FromStr>::from_str]. *)
Definition RouteCatalogFingerprint_from_str (value : rstr) : option RouteCatalogFingerprint :=
  if (len value !=? 64)
     || negb (forallb (λ byte, is_ascii_digit byte || between 97 102 byte) (bytes value))
  then None
  else of_be_bytes <$> hex_pairs (bytes value).


(** [RouteCatalogFingerprint::from_capabilities]. *)
Definition from_capabilities (capabilities : gset rstr)
    : result RepositoryError (option RouteCatalogFingerprint) :=
  let matches :=
    List.filter (starts_with ROUTE_CATALOG_CAPABILITY_PREFIX) (btree_iter capabilities) in
  match matches with
  | [] => Ok None
  | capability :: rest =>
      fingerprint ←
        ok_or (RouteCatalogFingerprint_from_str
                 (drop (length ROUTE_CATALOG_CAPABILITY_PREFIX) capability))
          (RepositoryError.InvalidInput "invalid route catalog fingerprint");
      if negb (is_empty rest)
      then Err (RepositoryError.InvalidInput "multiple route catalog fingerprints")
      else Ok (Some fingerprint)
  end.

(** ** Workers *)

Record WorkerSnapshot := {
  wk_lease : WorkerLease;
  wk_max_calls : N;
  wk_reserved_calls : N;
  wk_draining : bool;
  wk_capabilities : gset rstr;
  wk_updated_at : DateTime;
  wk_lease_expires_at : DateTime;
}.
#[export] Instance WorkerSnapshot_eta : Eta WorkerSnapshot := λ r,
  {| wk_lease := wk_lease r; wk_max_calls := wk_max_calls r;
     wk_reserved_calls := wk_reserved_calls r; wk_draining := wk_draining r;
     wk_capabilities := wk_capabilities r; wk_updated_at := wk_updated_at r;
     wk_lease_expires_at := wk_lease_expires_at r |}.

Record RegisterWorker := {
  rw_worker_id : WorkerId;
  rw_max_calls : N;
  rw_capabilities : gset rstr;
  rw_at : DateTime;
  rw_lease_ttl : Duration;
}.

Record ActivateWorkerCapabilities := {
  aw_worker : WorkerLease;
  aw_capabilities : gset rstr;
  aw_at : DateTime;
}.

Record RenewWorkerLease := {
  nw_worker : WorkerLease;
  nw_lease_ttl : Duration;
  nw_at : DateTime;
}.

Record WorkerAssignment := {
  wa_lease : WorkerLease;
  wa_route_catalog_fingerprint : option RouteCatalogFingerprint;
  wa_assigned_at : DateTime;
  wa_released_at : option DateTime;
}.
#[export] Instance WorkerAssignment_eta : Eta WorkerAssignment := λ r,
  {| wa_lease := wa_lease r; wa_route_catalog_fingerprint := wa_route_catalog_fingerprint r;
     wa_assigned_at := wa_assigned_at r; wa_released_at := wa_released_at r |}.
#[export] Instance WorkerAssignment_eq : EqDecision WorkerAssignment.
Proof. solve_decision. Defined.

(** ** Calls *)

Record ConnectionBinding := {
  cb_connection_id : ConnectionId;
  cb_leg_id : LegId;
  cb_binding_generation : BindingGeneration;
  cb_transport : AttachmentTransport;
  cb_principal_fingerprint : PrincipalFingerprint;
  cb_bound_at : DateTime;
}.
#[export] Instance ConnectionBinding_eq : EqDecision ConnectionBinding.
Proof. solve_decision. Defined.

Record StoredCall := {
  sc_aggregate : CallAggregate;
  sc_assignment : WorkerAssignment;
  sc_bindings : gmap LegId ConnectionBinding;
}.
#[export] Instance StoredCall_eta : Eta StoredCall := λ r,
  {| sc_aggregate := sc_aggregate r; sc_assignment := sc_assignment r;
     sc_bindings := sc_bindings r |}.
#[export] Instance StoredCall_eq : EqDecision StoredCall.
Proof. solve_decision. Defined.

Module AttachmentPurpose.
Inductive AttachmentPurpose := PublicInbound | ProviderMedia.
End AttachmentPurpose.
Abbreviation AttachmentPurpose := AttachmentPurpose.AttachmentPurpose.
#[export] Instance AttachmentPurpose_eq : EqDecision AttachmentPurpose.
Proof. solve_decision. Defined.

Record AttachmentIssue := {
  ai_attachment_id : AttachmentId;
  ai_token_digest : AttachmentTokenDigest;
  ai_purpose : AttachmentPurpose;
  ai_leg_id : LegId;
  ai_binding_generation : BindingGeneration;
  ai_transport : AttachmentTransport;
  ai_expected_principal : PrincipalFingerprint;
  ai_expires_at : DateTime;
}.
#[export] Instance AttachmentIssue_eq : EqDecision AttachmentIssue.
Proof. solve_decision. Defined.

Record CreateCall := {
  cc_initial : CallAggregate;
  cc_command_id : CommandId;
  cc_command : CallCommand;
  cc_worker : WorkerLease;
  cc_idempotency_key : IdempotencyKeyDigest;
  cc_request_digest : RequestDigest;
  cc_attachments : list AttachmentIssue;
  cc_at : DateTime;
}.
#[export] Instance CreateCall_eta : Eta CreateCall := λ r,
  {| cc_initial := cc_initial r; cc_command_id := cc_command_id r; cc_command := cc_command r;
     cc_worker := cc_worker r; cc_idempotency_key := cc_idempotency_key r;
     cc_request_digest := cc_request_digest r; cc_attachments := cc_attachments r;
     cc_at := cc_at r |}.

Inductive CreateCallOutcome :=
| Created (call : StoredCall)
| CreateReplayed (call : StoredCall).

(** ** Commands *)

Record DeadlineClaimGuard := {
  dg_call_id : CallId;
  dg_kind : DeadlineKind;
  dg_generation : DeadlineGeneration;
  dg_worker : WorkerLease;
  dg_claim_generation : ClaimGeneration;
}.
#[export] Instance DeadlineClaimGuard_eq : EqDecision DeadlineClaimGuard.
Proof. solve_decision. Defined.

Record StoredCommand := {
  sm_command_id : CommandId;
  sm_tenant_id : TenantId;
  sm_call_id : CallId;
  sm_observed_version : AggregateVersion;
  sm_result_version : AggregateVersion;
  sm_command : CallCommand;
  sm_worker : WorkerLease;
  sm_attachments : list AttachmentIssue;
  sm_deadline_claim : option DeadlineClaimGuard;
  sm_disposition : CommandDisposition;
  sm_recorded_at : DateTime;
}.
#[export] Instance StoredCommand_eq : EqDecision StoredCommand.
Proof. solve_decision. Defined.

Record CommandCommit := {
  ct_tenant_id : TenantId;
  ct_call_id : CallId;
  ct_expected_version : AggregateVersion;
  ct_command_id : CommandId;
  ct_command : CallCommand;
  ct_worker : WorkerLease;
  ct_attachments : list AttachmentIssue;
  ct_deadline_claim : option DeadlineClaimGuard;
  ct_at : DateTime;
}.
#[export] Instance CommandCommit_eq : EqDecision CommandCommit.
Proof. solve_decision. Defined.

(** ** Outbox and deadlines *)

Module OutboxState.
Inductive OutboxState :=
| Ready
| Claimed (worker : WorkerLease) (generation : ClaimGeneration) (claimed_at expires_at : DateTime)
| Succeeded (at_ : DateTime)
| Failed (at_ : DateTime) (failure : FailureDetails).
End OutboxState.
Abbreviation OutboxState := OutboxState.OutboxState.
#[export] Instance OutboxState_eq : EqDecision OutboxState.
Proof. solve_decision. Defined.

Record OutboxRecord := {
  ob_effect_id : EffectId;
  ob_command_id : CommandId;
  ob_ordinal : N;
  ob_tenant_id : TenantId;
  ob_call_id : CallId;
  ob_aggregate_version : AggregateVersion;
  ob_worker : WorkerLease;
  ob_intent : EffectIntent;
  ob_available_at : DateTime;
  ob_state : OutboxState;
}.
#[export] Instance OutboxRecord_eta : Eta OutboxRecord := λ r,
  {| ob_effect_id := ob_effect_id r; ob_command_id := ob_command_id r;
     ob_ordinal := ob_ordinal r; ob_tenant_id := ob_tenant_id r; ob_call_id := ob_call_id r;
     ob_aggregate_version := ob_aggregate_version r; ob_worker := ob_worker r;
     ob_intent := ob_intent r; ob_available_at := ob_available_at r; ob_state := ob_state r |}.
#[export] Instance OutboxRecord_eq : EqDecision OutboxRecord.
Proof. solve_decision. Defined.

Record ClaimedOutbox := {
  co_record : OutboxRecord;
  co_claim_generation : ClaimGeneration;
}.

Module OutboxCompletion.
Inductive OutboxCompletion := Succeeded | Failed (failure : FailureDetails).
End OutboxCompletion.
Abbreviation OutboxCompletion := OutboxCompletion.OutboxCompletion.

Module DeadlineState.
Inductive DeadlineState :=
| Pending
| Claimed (worker : WorkerLease) (generation : ClaimGeneration) (expires_at : DateTime)
| Cancelled (at_ : DateTime)
| Completed (at_ : DateTime).
End DeadlineState.
Abbreviation DeadlineState := DeadlineState.DeadlineState.
#[export] Instance DeadlineState_eq : EqDecision DeadlineState.
Proof. solve_decision. Defined.

Record DeadlineRecord := {
  dr_tenant_id : TenantId;
  dr_call_id : CallId;
  dr_kind : DeadlineKind;
  dr_generation : DeadlineGeneration;
  dr_due_at : DateTime;
  dr_state : DeadlineState;
}.
#[export] Instance DeadlineRecord_eta : Eta DeadlineRecord := λ r,
  {| dr_tenant_id := dr_tenant_id r; dr_call_id := dr_call_id r; dr_kind := dr_kind r;
     dr_generation := dr_generation r; dr_due_at := dr_due_at r; dr_state := dr_state r |}.
#[export] Instance DeadlineRecord_eq : EqDecision DeadlineRecord.
Proof. solve_decision. Defined.

Record ClaimedDeadline := {
  cl_record : DeadlineRecord;
  cl_claim_generation : ClaimGeneration;
}.

(** [ClaimedDeadline::guard]. *)
Definition guard (self : ClaimedDeadline) (worker : WorkerLease) : DeadlineClaimGuard :=
  {| dg_call_id := dr_call_id (cl_record self);
     dg_kind := dr_kind (cl_record self);
     dg_generation := dr_generation (cl_record self);
     dg_worker := worker;
     dg_claim_generation := cl_claim_generation self |}.

Record RestartClaim := {
  rc_call : StoredCall;
  rc_previous_fence : WorkerFence;
}.

Record CommandCommitView := {
  cv_command : StoredCommand;
  cv_call : StoredCall;
  cv_outbox : list OutboxRecord;
}.
#[export] Instance CommandCommitView_eta : Eta CommandCommitView := λ r,
  {| cv_command := cv_command r; cv_call := cv_call r; cv_outbox := cv_outbox r |}.
#[export] Instance CommandCommitView_eq : EqDecision CommandCommitView.
Proof. solve_decision. Defined.

Inductive CommandCommitOutcome :=
| Committed (view : CommandCommitView)
| CommitReplayed (view : CommandCommitView).

(** ** Attachments *)

Record AttachmentCandidate := {
  an_attachment_id : AttachmentId;
  an_token_digest : AttachmentTokenDigest;
  an_purpose : AttachmentPurpose;
  an_tenant_id : TenantId;
  an_call_id : CallId;
  an_leg_id : LegId;
  an_binding_generation : BindingGeneration;
  an_transport : AttachmentTransport;
  an_worker : WorkerLease;
  an_assignment : WorkerAssignment;
  an_expires_at : DateTime;
  an_expected_principal : PrincipalFingerprint;
  an_expected_version : AggregateVersion;
  an_required_sip_correlation : option (rstr * rstr);
}.

Record AttachmentLookup := {
  lk_token_digest : AttachmentTokenDigest;
  lk_tenant_id : TenantId;
  lk_transport : AttachmentTransport;
  lk_principal_fingerprint : PrincipalFingerprint;
  lk_worker : WorkerLease;
  lk_at : DateTime;
}.

Record AttachmentConsume := {
  am_candidate : AttachmentCandidate;
  am_command_id : CommandId;
  am_command : CallCommand;
  am_connection_id : ConnectionId;
  am_principal_fingerprint : PrincipalFingerprint;
  am_principal_expires_at : option DateTime;
  am_at : DateTime;
}.

Record ConsumedAttachment := {
  ca_binding : ConnectionBinding;
  ca_commit : CommandCommitView;
}.

(** ** Provider events *)

Definition ProviderAccountKey : Type := rstr.
Definition ProviderCallId : Type := rstr.

Definition valid_identifier (value : rstr) (max_bytes : Z) : bool :=
  negb (is_empty value) && (len value <=? max_bytes) && negb (existsb is_control value).

(** [ProviderAccountKey::parse] and [ProviderCallId::parse], also their [Deserialize]. *)
Definition ProviderAccountKey_parse (value : rstr) : result RepositoryError ProviderAccountKey :=
  if valid_identifier value MAX_PROVIDER_IDENTIFIER_BYTES then Ok value
  else Err (RepositoryError.InvalidInput "invalid provider account key").

Definition ProviderCallId_parse (value : rstr) : result RepositoryError ProviderCallId :=
  if valid_identifier value MAX_PROVIDER_IDENTIFIER_BYTES then Ok value
  else Err (RepositoryError.InvalidInput "invalid provider call ID").

Module ProviderEventState.
Inductive ProviderEventState :=
| PendingReference
| Ready
| Claimed (worker : WorkerLease) (generation : ClaimGeneration) (claimed_at expires_at : DateTime)
| Applied.
End ProviderEventState.
Abbreviation ProviderEventState := ProviderEventState.ProviderEventState.
#[export] Instance ProviderEventState_eq : EqDecision ProviderEventState.
Proof. solve_decision. Defined.

Module ProviderReferenceRole.
Inductive ProviderReferenceRole := Media | Destination.
End ProviderReferenceRole.
Abbreviation ProviderReferenceRole := ProviderReferenceRole.ProviderReferenceRole.
#[export] Instance ProviderReferenceRole_eq : EqDecision ProviderReferenceRole.
Proof. solve_decision. Defined.

Record ProviderEventTarget := {
  pt_tenant_id : TenantId;
  pt_call_id : CallId;
  pt_leg_id : LegId;
  pt_role : ProviderReferenceRole;
}.
#[export] Instance ProviderEventTarget_eq : EqDecision ProviderEventTarget.
Proof. solve_decision. Defined.

Record ProviderEventEnvelope := {
  pe_account : ProviderAccountKey;
  pe_event_digest : ProviderEventDigest;
  pe_payload_digest : ProviderPayloadDigest;
  pe_provider_call_id : ProviderCallId;
  pe_kind : rstr;
  pe_payload : Json;
  pe_occurred_at : option DateTime;
  pe_received_at : DateTime;
  pe_receipt_sequence : ProviderReceiptSequence;
  pe_target : option ProviderEventTarget;
  pe_state : ProviderEventState;
  pe_applied_at : option DateTime;
}.
#[export] Instance ProviderEventEnvelope_eta : Eta ProviderEventEnvelope := λ r,
  {| pe_account := pe_account r; pe_event_digest := pe_event_digest r;
     pe_payload_digest := pe_payload_digest r; pe_provider_call_id := pe_provider_call_id r;
     pe_kind := pe_kind r; pe_payload := pe_payload r; pe_occurred_at := pe_occurred_at r;
     pe_received_at := pe_received_at r; pe_receipt_sequence := pe_receipt_sequence r;
     pe_target := pe_target r; pe_state := pe_state r; pe_applied_at := pe_applied_at r |}.

Record ProviderEventInput := {
  pi_account : ProviderAccountKey;
  pi_event_digest : ProviderEventDigest;
  pi_payload_digest : ProviderPayloadDigest;
  pi_provider_call_id : ProviderCallId;
  pi_kind : rstr;
  pi_payload : Json;
  pi_occurred_at : option DateTime;
  pi_received_at : DateTime;
}.

Inductive ProviderEventOutcome :=
| Accepted (event : ProviderEventEnvelope)
| Duplicate (event : ProviderEventEnvelope).

Record BindProviderReference := {
  bp_tenant_id : TenantId;
  bp_call_id : CallId;
  bp_leg_id : LegId;
  bp_role : ProviderReferenceRole;
  bp_account : ProviderAccountKey;
  bp_provider_call_id : ProviderCallId;
  bp_worker : WorkerLease;
  bp_at : DateTime;
}.

Record ClaimedProviderEvent := {
  cp_event : ProviderEventEnvelope;
  cp_claim_generation : ClaimGeneration;
}.

Record ProviderEventCommit := {
  pc_account : ProviderAccountKey;
  pc_event_digest : ProviderEventDigest;
  pc_claim_generation : ClaimGeneration;
  pc_worker : WorkerLease;
  pc_command : CommandCommit;
  pc_at : DateTime;
}.
#[export] Instance ProviderEventCommit_eq : EqDecision ProviderEventCommit.
Proof. solve_decision. Defined.

Record ProviderEventCommitOutcome := {
  po_event : ProviderEventEnvelope;
  po_command : CommandCommitOutcome;
}.

Record TerminalProviderEventAcknowledge := {
  ta_account : ProviderAccountKey;
  ta_event_digest : ProviderEventDigest;
  ta_claim_generation : ClaimGeneration;
  ta_worker : WorkerLease;
  ta_target : ProviderEventTarget;
  ta_at : DateTime;
}.
#[export] Instance TerminalProviderEventAcknowledge_eq :
  EqDecision TerminalProviderEventAcknowledge.
Proof. solve_decision. Defined.

Inductive TerminalProviderEventAcknowledgeOutcome :=
| Acknowledged (event : ProviderEventEnvelope)
| AcknowledgeReplayed (event : ProviderEventEnvelope).

(** ** Request validation *)

Section Validation.
Context `{Chrono}.

Definition chrono_ttl (at_ : DateTime) (ttl : Duration) : result RepositoryError DateTime :=
  if is_zero ttl then Err (RepositoryError.InvalidInput "claim TTL must be greater than zero")
  else
    ttl ← ok_or (from_std ttl) (RepositoryError.InvalidInput "claim TTL is too large");
    ok_or (checked_add_signed at_ ttl) (RepositoryError.InvalidInput "claim expiry overflow").

Definition idempotency_expiry (at_ : DateTime) : result RepositoryError DateTime :=
  chrono_ttl at_ IDEMPOTENCY_RETENTION.

Definition validate_worker_lease_ttl (ttl : Duration) : result RepositoryError () :=
  if (ttl <? MIN_WORKER_LEASE_TTL) || (MAX_WORKER_LEASE_TTL <? ttl)
  then Err (RepositoryError.InvalidInput "invalid worker lease TTL")
  else Ok ().

Definition worker_lease_expiry (at_ : DateTime) (ttl : Duration)
    : result RepositoryError DateTime :=
  validate_worker_lease_ttl ttl;;
  chrono_ttl at_ ttl.
End Validation.

Definition bad_worker_capability (capability : rstr) : bool :=
  is_empty capability || (MAX_CAPABILITY_BYTES <? len capability) || existsb is_control capability.

Definition validate_worker_capabilities (capabilities : gset rstr) : result RepositoryError () :=
  if existsb bad_worker_capability (elements capabilities)
  then Err (RepositoryError.InvalidInput "invalid worker capability")
  else
    _ ← from_capabilities capabilities;
    Ok ().

Definition validate_register_worker (request : RegisterWorker) : result RepositoryError () :=
  if (rw_max_calls request =? 0)%N
  then Err (RepositoryError.InvalidInput "worker max_calls must be greater than zero")
  else
    validate_worker_capabilities (rw_capabilities request);;
    validate_worker_lease_ttl (rw_lease_ttl request).

Definition validate_worker_candidate_limit (limit : N) : result RepositoryError () :=
  if (MAX_WORKER_CANDIDATE_LIMIT <? limit)%N
  then Err (RepositoryError.InvalidInput "worker candidate limit exceeds the repository bound")
  else Ok ().

(** [serde_json::to_vec] is an argument. *)
Definition validate_provider_event (to_vec : Json → option (list Z)) (request : ProviderEventInput)
    : result RepositoryError () :=
  if negb (valid_identifier (pi_kind request) MAX_PROVIDER_KIND_BYTES)
  then Err (RepositoryError.InvalidInput "invalid provider event kind")
  else
    payload ← ok_or (to_vec (pi_payload request))
                (RepositoryError.InvalidInput "provider payload is not serializable");
    if MAX_PROVIDER_EVENT_BYTES <? Z.of_nat (length payload)
    then Err (RepositoryError.InvalidInput "provider payload is too large")
    else Ok ().

(** The replacement test shared by the attachment checks: the pending Telnyx generation of a
    leg being replaced. *)
Definition pending_telnyx_replacement (call : CallAggregate) (id : LegId)
    (generation : BindingGeneration) : bool :=
  is_some_and (λ replacement,
    (rp_leg_id replacement ==? id)
    && (rp_pending_kind replacement ==? LegKind.Telnyx)
    && (rp_pending_binding_generation replacement ==? generation)) (ca_replacement call).

Definition validate_attachment_issue (call : CallAggregate) (issue : AttachmentIssue)
    (at_ : DateTime) : result RepositoryError () :=
  if ai_expires_at issue <=? at_
  then Err (RepositoryError.InvalidInput "attachment expiry must be in the future")
  else
    leg ← ok_or (find_leg call (ai_leg_id issue))
            (RepositoryError.InvalidInput "attachment leg is outside call");
    let valid_state :=
      match ai_purpose issue with
      | AttachmentPurpose.PublicInbound =>
          (leg_direction leg ==? LegDirection.Inbound)
          && (leg_state leg ==? LegState.AwaitingAttach)
      | AttachmentPurpose.ProviderMedia =>
          let ordinary :=
            (leg_direction leg ==? LegDirection.Outbound)
            && (leg_kind leg ==? LegKind.Telnyx)
            && (leg_binding_generation leg ==? ai_binding_generation issue)
            && pending_or_signaling (leg_state leg) in
          let replacement :=
            pending_telnyx_replacement call (ai_leg_id issue) (ai_binding_generation issue) in
          (ordinary || replacement) && (ai_transport issue ==? AttachmentTransport.Sip)
      end in
    if negb valid_state
    then Err (RepositoryError.InvalidInput
                "attachment does not match its leg purpose or generation")
    else Ok ().
