(* ===== verification/ServiceTypes.v ===== *)
(** The values of the call service: endpoints, execution plans, effect payloads and external
    references ([src/call_service/model.rs]), and the requests, rows and outcomes of its repository
    contract ([src/call_service/repository.rs]).

    A [BTreeMap<String, String>] is a [gmap], visited in key order where the order shows; [[T; 2]] is
    a pair. *)

From S2P Require Import Prelude RustText DomainTypes CoordModel Domain RepoTypes.
From stdpp Require Import options.

(** ** Endpoints *)

Module ProviderKind.
Inductive ProviderKind := Twilio | Telnyx | Vonage.
End ProviderKind.
Abbreviation ProviderKind := ProviderKind.ProviderKind.
#[export] Instance ProviderKind_eq : EqDecision ProviderKind.
Proof. solve_decision. Defined.

Module SipInitialContextMode.
Inductive SipInitialContextMode := None_ | Required.
End SipInitialContextMode.
Abbreviation SipInitialContextMode := SipInitialContextMode.SipInitialContextMode.
#[export] Instance SipInitialContextMode_eq : EqDecision SipInitialContextMode.
Proof. solve_decision. Defined.

Record SipEndpointConfig := {
  se_uri : option rstr;
  se_initial_context : SipInitialContextMode;
}.
#[export] Instance SipEndpointConfig_eq : EqDecision SipEndpointConfig.
Proof. solve_decision. Defined.

Record WebRtcEndpointConfig := { we_signaling_uri : option rstr }.
#[export] Instance WebRtcEndpointConfig_eq : EqDecision WebRtcEndpointConfig.
Proof. solve_decision. Defined.

Record WhipEndpointConfig := { wi_endpoint_uri : option rstr }.
#[export] Instance WhipEndpointConfig_eq : EqDecision WhipEndpointConfig.
Proof. solve_decision. Defined.

Record WhepEndpointConfig := { wp_endpoint_uri : option rstr }.
#[export] Instance WhepEndpointConfig_eq : EqDecision WhepEndpointConfig.
Proof. solve_decision. Defined.

Record AmazonConnectEndpointConfig := {
  ae_instance_id : rstr;
  ae_contact_flow_id : rstr;
}.
#[export] Instance AmazonConnectEndpointConfig_eq : EqDecision AmazonConnectEndpointConfig.
Proof. solve_decision. Defined.

Record AmazonConnectStartSpec := {
  as_profile : rstr;
  as_instance_id : rstr;
  as_contact_flow_id : rstr;
  as_attributes : gmap rstr rstr;
  as_display_name : rstr;
  as_description : option rstr;
}.
#[export] Instance AmazonConnectStartSpec_eq : EqDecision AmazonConnectStartSpec.
Proof. solve_decision. Defined.

Record ProviderEndpointConfig := {
  pc_provider : ProviderKind;
  pc_account_profile : rstr;
  pc_destination : option rstr;
}.
#[export] Instance ProviderEndpointConfig_eq : EqDecision ProviderEndpointConfig.
Proof. solve_decision. Defined.

Module LegEndpointConfig.
Inductive LegEndpointConfig :=
| Sip (config : SipEndpointConfig)
| WebRtc (config : WebRtcEndpointConfig)
| Whip (config : WhipEndpointConfig)
| Whep (config : WhepEndpointConfig)
| AmazonConnect (config : AmazonConnectEndpointConfig)
| Provider (config : ProviderEndpointConfig).
End LegEndpointConfig.
Abbreviation LegEndpointConfig := LegEndpointConfig.LegEndpointConfig.
#[export] Instance LegEndpointConfig_eq : EqDecision LegEndpointConfig.
Proof. solve_decision. Defined.

(** ** Named routes *)

Record NamedRouteCallContext := {
  nc_correlation_id : rstr;
  nc_metadata : gmap rstr rstr;
}.
#[export] Instance NamedRouteCallContext_eq : EqDecision NamedRouteCallContext.
Proof. solve_decision. Defined.

Module NamedProfileKind.
Inductive NamedProfileKind := VapiIngress | SipIngress | Sip | WebRtc | AmazonConnect | Telnyx.
End NamedProfileKind.
Abbreviation NamedProfileKind := NamedProfileKind.NamedProfileKind.
#[export] Instance NamedProfileKind_eq : EqDecision NamedProfileKind.
Proof. solve_decision. Defined.

Module NamedProfileRole.
Inductive NamedProfileRole := Ingress | Destination.
End NamedProfileRole.
Abbreviation NamedProfileRole := NamedProfileRole.NamedProfileRole.
#[export] Instance NamedProfileRole_eq : EqDecision NamedProfileRole.
Proof. solve_decision. Defined.

Record NamedProfileBinding := {
  np_role : NamedProfileRole;
  np_kind : NamedProfileKind;
  np_profile_id : rstr;
  np_revision : rstr;
}.
#[export] Instance NamedProfileBinding_eq : EqDecision NamedProfileBinding.
Proof. solve_decision. Defined.

Record NamedRouteBinding := {
  nb_route_id : rstr;
  nb_context : option NamedRouteCallContext;
  nb_profiles : list NamedProfileBinding;
  nb_required_sip_correlation_header : option rstr;
}.
#[export] Instance NamedRouteBinding_eta : Eta NamedRouteBinding := λ r,
  {| nb_route_id := nb_route_id r; nb_context := nb_context r; nb_profiles := nb_profiles r;
     nb_required_sip_correlation_header := nb_required_sip_correlation_header r |}.
#[export] Instance NamedRouteBinding_eq : EqDecision NamedRouteBinding.
Proof. solve_decision. Defined.

(** ** Execution plans *)

Record LegExecutionSpec := {
  ls_leg_id : LegId;
  ls_endpoint : LegEndpointConfig;
}.
#[export] Instance LegExecutionSpec_eq : EqDecision LegExecutionSpec.
Proof. solve_decision. Defined.

Record AmazonConnectStartBinding := {
  ab_leg_id : LegId;
  ab_spec : AmazonConnectStartSpec;
}.
#[export] Instance AmazonConnectStartBinding_eq : EqDecision AmazonConnectStartBinding.
Proof. solve_decision. Defined.

Record LegSemanticsBinding := {
  lb_leg_id : LegId;
  lb_signaling_initiator : SignalingInitiator;
  lb_media_flow : MediaFlow;
}.
#[export] Instance LegSemanticsBinding_eq : EqDecision LegSemanticsBinding.
Proof. solve_decision. Defined.

Module SetupPolicy.
Inductive SetupPolicy := Parallel | AttachThenDial.
End SetupPolicy.
Abbreviation SetupPolicy := SetupPolicy.SetupPolicy.
#[export] Instance SetupPolicy_eq : EqDecision SetupPolicy.
Proof. solve_decision. Defined.

Record CallExecutionPlan := {
  ep_version : N;
  ep_authorization_principal_fingerprint : option PrincipalFingerprint;
  ep_legs : LegExecutionSpec * LegExecutionSpec;
  ep_amazon_connect_starts : list AmazonConnectStartBinding;
  ep_leg_semantics : list LegSemanticsBinding;
  ep_named_route : option NamedRouteBinding;
  ep_setup_policy : SetupPolicy;
}.
#[export] Instance CallExecutionPlan_eta : Eta CallExecutionPlan := λ r,
  {| ep_version := ep_version r;
     ep_authorization_principal_fingerprint := ep_authorization_principal_fingerprint r;
     ep_legs := ep_legs r; ep_amazon_connect_starts := ep_amazon_connect_starts r;
     ep_leg_semantics := ep_leg_semantics r; ep_named_route := ep_named_route r;
     ep_setup_policy := ep_setup_policy r |}.
#[export] Instance CallExecutionPlan_eq : EqDecision CallExecutionPlan.
Proof. solve_decision. Defined.

(** ** Payloads, controls and references *)

Module TransferTarget.
Inductive TransferTarget :=
| Sip (uri : rstr)
| WebRtc (uri : rstr)
| AmazonConnect (instance_id contact_flow_id : rstr)
| Provider (provider : ProviderKind) (account_profile destination : rstr).
End TransferTarget.
Abbreviation TransferTarget := TransferTarget.TransferTarget.
#[export] Instance TransferTarget_eq : EqDecision TransferTarget.
Proof. solve_decision. Defined.

(** The fields of [ServiceEffectPayload::LegReplacement]. *)
Record LegReplacementPayload := {
  lp_leg_id : LegId;
  lp_previous_binding_generation : BindingGeneration;
  lp_pending_binding_generation : BindingGeneration;
  lp_endpoint : LegEndpointConfig;
  lp_amazon_connect_start : option AmazonConnectStartSpec;
  lp_route_id : rstr;
  lp_replacement_route : option NamedRouteBinding;
  lp_authorization_principal_fingerprint : PrincipalFingerprint;
}.
#[export] Instance LegReplacementPayload_eq : EqDecision LegReplacementPayload.
Proof. solve_decision. Defined.

Module ServiceEffectPayload.
Inductive ServiceEffectPayload :=
| Transfer (target_leg_id : LegId) (target_binding_generation : BindingGeneration)
    (target : TransferTarget)
| LegReplacement (replacement : LegReplacementPayload).
End ServiceEffectPayload.
Abbreviation ServiceEffectPayload := ServiceEffectPayload.ServiceEffectPayload.
#[export] Instance ServiceEffectPayload_eq : EqDecision ServiceEffectPayload.
Proof. solve_decision. Defined.

Record DtmfSequence := {
  dt_digits : rstr;
  dt_duration_ms : N;
  dt_gap_ms : N;
}.
#[export] Instance DtmfSequence_eq : EqDecision DtmfSequence.
Proof. solve_decision. Defined.

Inductive ControlIntent := Dtmf (sequence : DtmfSequence).
#[export] Instance ControlIntent_eq : EqDecision ControlIntent.
Proof. solve_decision. Defined.

Module ExternalReferenceValue.
Inductive ExternalReferenceValue :=
| ProviderCall (account : ProviderAccountKey) (provider_call_id : ProviderCallId)
| Signaling (namespace value : rstr).
End ExternalReferenceValue.
Abbreviation ExternalReferenceValue := ExternalReferenceValue.ExternalReferenceValue.
#[export] Instance ExternalReferenceValue_eq : EqDecision ExternalReferenceValue.
Proof. solve_decision. Defined.

(** ** Service commands *)

Module ServiceOperationKind.
Inductive ServiceOperationKind := CreateCall | HangupCall | TransferCall | DtmfCall.
End ServiceOperationKind.
Abbreviation ServiceOperationKind := ServiceOperationKind.ServiceOperationKind.
#[export] Instance ServiceOperationKind_eq : EqDecision ServiceOperationKind.
Proof. solve_decision. Defined.

Record OperationIdempotency := {
  oi_key_digest : IdempotencyKeyDigest;
  oi_request_digest : RequestDigest;
  oi_operation : ServiceOperationKind;
}.
#[export] Instance OperationIdempotency_eq : EqDecision OperationIdempotency.
Proof. solve_decision. Defined.

Record ServiceEffectPayloadInput := {
  si_ordinal : N;
  si_payload : ServiceEffectPayload;
}.
#[export] Instance ServiceEffectPayloadInput_eq : EqDecision ServiceEffectPayloadInput.
Proof. solve_decision. Defined.

Record StoredServiceEffectPayload := {
  sp_effect_id : EffectId;
  sp_command_id : CommandId;
  sp_ordinal : N;
  sp_payload : ServiceEffectPayload;
}.
#[export] Instance StoredServiceEffectPayload_eq : EqDecision StoredServiceEffectPayload.
Proof. solve_decision. Defined.

Record ServiceCommandView := {
  sv_command : CommandCommitView;
  sv_effect_payloads : list StoredServiceEffectPayload;
}.
#[export] Instance ServiceCommandView_eq : EqDecision ServiceCommandView.
Proof. solve_decision. Defined.

Record BoundConnectionGuard := {
  bg_connection_id : ConnectionId;
  bg_leg_id : LegId;
  bg_binding_generation : BindingGeneration;
}.
#[export] Instance BoundConnectionGuard_eq : EqDecision BoundConnectionGuard.
Proof. solve_decision. Defined.

Record ReplacementConnectionPromotion := {
  rx_previous_connection_id : ConnectionId;
  rx_connection_id : ConnectionId;
  rx_leg_id : LegId;
  rx_previous_binding_generation : BindingGeneration;
  rx_pending_binding_generation : BindingGeneration;
  rx_transport : AttachmentTransport;
  rx_principal_fingerprint : PrincipalFingerprint;
}.
#[export] Instance ReplacementConnectionPromotion_eq : EqDecision ReplacementConnectionPromotion.
Proof. solve_decision. Defined.

Definition MediaActivityGeneration : Type := N.
Definition MediaActivityGeneration_INITIAL : MediaActivityGeneration := 1%N.
Definition MediaActivityGeneration_next (self : MediaActivityGeneration)
    : result RepositoryError MediaActivityGeneration :=
  if (Z.to_N I64_MAX <=? self)%N then Err RepositoryError.CounterExhausted else Ok (self + 1)%N.
Definition MediaActivityGeneration_from_i64 (value : Z)
    : result RepositoryError MediaActivityGeneration :=
  if value <=? 0
  then Err (RepositoryError.InvalidInput "media activity generation must be positive")
  else Ok (Z.to_N value).

Record MediaActivityGuard := {
  mg_connection_id : ConnectionId;
  mg_leg_id : LegId;
  mg_binding_generation : BindingGeneration;
  mg_activity_generation : MediaActivityGeneration;
}.
#[export] Instance MediaActivityGuard_eq : EqDecision MediaActivityGuard.
Proof. solve_decision. Defined.

Record ServiceCommandTransaction := {
  st_command : CommandCommit;
  st_effect_payloads : list ServiceEffectPayloadInput;
  st_operation_idempotency : option OperationIdempotency;
  st_bound_connection : option BoundConnectionGuard;
  st_media_activity : option MediaActivityGuard;
  st_replacement_connection : option ReplacementConnectionPromotion;
}.
#[export] Instance ServiceCommandTransaction_eta : Eta ServiceCommandTransaction := λ r,
  {| st_command := st_command r; st_effect_payloads := st_effect_payloads r;
     st_operation_idempotency := st_operation_idempotency r;
     st_bound_connection := st_bound_connection r; st_media_activity := st_media_activity r;
     st_replacement_connection := st_replacement_connection r |}.
#[export] Instance ServiceCommandTransaction_eq : EqDecision ServiceCommandTransaction.
Proof. solve_decision. Defined.

Record BoundConnectionStateCommit := {
  bs_tenant_id : TenantId;
  bs_call_id : CallId;
  bs_expected_version : AggregateVersion;
  bs_command_id : CommandId;
  bs_leg_id : LegId;
  bs_binding_generation : BindingGeneration;
  bs_connection_id : ConnectionId;
  bs_worker : WorkerLease;
  bs_state : LegState;
  bs_failure : option FailureDetails;
  bs_at : DateTime;
}.

Record BoundSourceTerminationCommit := {
  bt_tenant_id : TenantId;
  bt_call_id : CallId;
  bt_expected_version : AggregateVersion;
  bt_command_id : CommandId;
  bt_source_leg_id : LegId;
  bt_binding_generation : BindingGeneration;
  bt_connection_id : ConnectionId;
  bt_worker : WorkerLease;
  bt_reason : SourceBeforeAnswerTermination;
  bt_at : DateTime;
}.

Record MediaActivityCommit := {
  ma_tenant_id : TenantId;
  ma_call_id : CallId;
  ma_expected_version : AggregateVersion;
  ma_command_id : CommandId;
  ma_leg_id : LegId;
  ma_binding_generation : BindingGeneration;
  ma_connection_id : ConnectionId;
  ma_activity_generation : MediaActivityGeneration;
  ma_worker : WorkerLease;
  ma_at : DateTime;
  ma_due_at : DateTime;
}.

Module ServiceCommandOutcome.
Inductive ServiceCommandOutcome :=
| Committed (view : ServiceCommandView)
| Replayed (view : ServiceCommandView).
End ServiceCommandOutcome.
Abbreviation ServiceCommandOutcome := ServiceCommandOutcome.ServiceCommandOutcome.

Record StoredServiceCommandResult := {
  sr_request : ServiceCommandTransaction;
  sr_view : ServiceCommandView;
}.

(** ** Controls *)

Definition ControlSequence : Type := N.
Definition ControlSequence_INITIAL : ControlSequence := 1%N.
Definition ControlSequence_next (self : ControlSequence) : result RepositoryError ControlSequence :=
  if (Z.to_N I64_MAX <=? self)%N then Err RepositoryError.CounterExhausted else Ok (self + 1)%N.
Definition ControlSequence_from_i64 (value : Z) : result RepositoryError ControlSequence :=
  if value <=? 0
  then Err (RepositoryError.InvalidInput "control sequence must be a positive database integer")
  else Ok (Z.to_N value).

Record StoredControlCommand := {
  sn_command_id : CommandId;
  sn_tenant_id : TenantId;
  sn_call_id : CallId;
  sn_leg_id : LegId;
  sn_binding_generation : BindingGeneration;
  sn_worker : WorkerLease;
  sn_intent : ControlIntent;
  sn_recorded_at : DateTime;
}.
#[export] Instance StoredControlCommand_eq : EqDecision StoredControlCommand.
Proof. solve_decision. Defined.

Record ControlOutboxRecord := {
  cx_effect_id : EffectId;
  cx_command_id : CommandId;
  cx_tenant_id : TenantId;
  cx_call_id : CallId;
  cx_leg_id : LegId;
  cx_binding_generation : BindingGeneration;
  cx_worker : WorkerLease;
  cx_sequence : ControlSequence;
  cx_intent : ControlIntent;
  cx_available_at : DateTime;
  cx_state : OutboxState;
}.
#[export] Instance ControlOutboxRecord_eta : Eta ControlOutboxRecord := λ r,
  {| cx_effect_id := cx_effect_id r; cx_command_id := cx_command_id r;
     cx_tenant_id := cx_tenant_id r; cx_call_id := cx_call_id r; cx_leg_id := cx_leg_id r;
     cx_binding_generation := cx_binding_generation r; cx_worker := cx_worker r;
     cx_sequence := cx_sequence r; cx_intent := cx_intent r;
     cx_available_at := cx_available_at r; cx_state := cx_state r |}.
#[export] Instance ControlOutboxRecord_eq : EqDecision ControlOutboxRecord.
Proof. solve_decision. Defined.

Record ControlCommandView := {
  nv_command : StoredControlCommand;
  nv_effect : ControlOutboxRecord;
}.
#[export] Instance ControlCommandView_eq : EqDecision ControlCommandView.
Proof. solve_decision. Defined.

Record ControlCommandTransaction := {
  nt_command_id : CommandId;
  nt_tenant_id : TenantId;
  nt_call_id : CallId;
  nt_leg_id : LegId;
  nt_binding_generation : BindingGeneration;
  nt_worker : WorkerLease;
  nt_intent : ControlIntent;
  nt_at : DateTime;
  nt_operation_idempotency : option OperationIdempotency;
}.
#[export] Instance ControlCommandTransaction_eq : EqDecision ControlCommandTransaction.
Proof. solve_decision. Defined.

Module ControlCommandOutcome.
Inductive ControlCommandOutcome :=
| Enqueued (view : ControlCommandView)
| Replayed (view : ControlCommandView).
End ControlCommandOutcome.
Abbreviation ControlCommandOutcome := ControlCommandOutcome.ControlCommandOutcome.

Record ClaimedControlEffect := {
  ce_record : ControlOutboxRecord;
  ce_claim_generation : ClaimGeneration;
}.

Record StoredControlCommandResult := {
  nr_request : ControlCommandTransaction;
  nr_view : ControlCommandView;
}.

Module OperationIdempotencyReceipt.
Inductive OperationIdempotencyReceipt :=
| CreateCall
| ServiceCommand (operation : ServiceOperationKind) (view : ServiceCommandView)
| ControlCommand (operation : ServiceOperationKind) (view : ControlCommandView).
End OperationIdempotencyReceipt.
Abbreviation OperationIdempotencyReceipt :=
  OperationIdempotencyReceipt.OperationIdempotencyReceipt.

(** ** Creation *)

Record StoredServiceCall := {
  sl_call : StoredCall;
  sl_plan : CallExecutionPlan;
  sl_attachments : list AttachmentIssue;
}.

Record ServiceCreateCandidate := {
  sd_worker : WorkerLease;
  sd_attachments : list AttachmentIssue;
}.

Record ServiceCreateTransaction := {
  sx_create : CreateCall;
  sx_plan : CallExecutionPlan;
  sx_alternatives : list ServiceCreateCandidate;
}.

Module ServiceCreateOutcome.
Inductive ServiceCreateOutcome :=
| Created (call : StoredServiceCall)
| Replayed (call : StoredServiceCall).
End ServiceCreateOutcome.
Abbreviation ServiceCreateOutcome := ServiceCreateOutcome.ServiceCreateOutcome.

(** ** Outbound bindings *)

Record OutboundConnectionBind := {
  on_operation_id : CommandId;
  on_effect_id : EffectId;
  on_claim_generation : ClaimGeneration;
  on_tenant_id : TenantId;
  on_call_id : CallId;
  on_leg_id : LegId;
  on_binding_generation : BindingGeneration;
  on_worker : WorkerLease;
  on_connection_id : ConnectionId;
  on_transport : AttachmentTransport;
  on_principal_fingerprint : PrincipalFingerprint;
  on_at : DateTime;
}.
#[export] Instance OutboundConnectionBind_eq : EqDecision OutboundConnectionBind.
Proof. solve_decision. Defined.

Module OutboundConnectionBindOutcome.
Inductive OutboundConnectionBindOutcome :=
| Bound (binding : ConnectionBinding)
| Replayed (binding : ConnectionBinding).
End OutboundConnectionBindOutcome.
Abbreviation OutboundConnectionBindOutcome :=
  OutboundConnectionBindOutcome.OutboundConnectionBindOutcome.

Record StoredOutboundBindingResult := {
  bo_request : OutboundConnectionBind;
  bo_binding : ConnectionBinding;
}.

(** ** Initial context *)

(** [rvoip_core::ids::MessageId], a string newtype. *)
Definition MessageId : Type := rstr.

(** [InitialContextRecordRequest] and [StoredInitialContext] have the same fields; the conversion
    between them is the identity. *)
Record StoredInitialContext := {
  ic_tenant_id : TenantId;
  ic_call_id : CallId;
  ic_source_connection_id : ConnectionId;
  ic_source_leg_id : LegId;
  ic_source_binding_generation : BindingGeneration;
  ic_target_leg_id : LegId;
  ic_target_binding_generation : BindingGeneration;
  ic_message_id : MessageId;
  ic_envelope : list Z;
  ic_initial_sip_headers : list (rstr * rstr);
  ic_recorded_at : DateTime;
}.
#[export] Instance StoredInitialContext_eq : EqDecision StoredInitialContext.
Proof. solve_decision. Defined.

Module InitialContextRecordOutcome.
Inductive InitialContextRecordOutcome :=
| Recorded (record : StoredInitialContext)
| Replayed (record : StoredInitialContext).
End InitialContextRecordOutcome.
Abbreviation InitialContextRecordOutcome :=
  InitialContextRecordOutcome.InitialContextRecordOutcome.

Record ReplacementInitialContextLookup := {
  il_tenant_id : TenantId;
  il_call_id : CallId;
  il_target_leg_id : LegId;
  il_previous_binding_generation : BindingGeneration;
  il_pending_binding_generation : BindingGeneration;
}.

(** ** External references and reconciliation *)

Record ExternalReferenceBinding := {
  xb_leg_id : LegId;
  xb_binding_generation : BindingGeneration;
  xb_role : ProviderReferenceRole;
  xb_value : ExternalReferenceValue;
}.
#[export] Instance ExternalReferenceBinding_eq : EqDecision ExternalReferenceBinding.
Proof. solve_decision. Defined.

Record StoredExternalReference := {
  xr_tenant_id : TenantId;
  xr_call_id : CallId;
  xr_leg_id : LegId;
  xr_binding_generation : BindingGeneration;
  xr_role : ProviderReferenceRole;
  xr_effect_id : EffectId;
  xr_value : ExternalReferenceValue;
  xr_bound_at : DateTime;
}.
#[export] Instance StoredExternalReference_eq : EqDecision StoredExternalReference.
Proof. solve_decision. Defined.

Module ServiceEffectResult.
Inductive ServiceEffectResult := Succeeded | Failed (failure : FailureDetails).
End ServiceEffectResult.
Abbreviation ServiceEffectResult := ServiceEffectResult.ServiceEffectResult.
#[export] Instance ServiceEffectResult_eq : EqDecision ServiceEffectResult.
Proof. solve_decision. Defined.

Record EffectResultReconciliation := {
  er_tenant_id : TenantId;
  er_call_id : CallId;
  er_effect_id : EffectId;
  er_worker : WorkerLease;
  er_claim_generation : ClaimGeneration;
  er_result : ServiceEffectResult;
  er_external_reference : option ExternalReferenceBinding;
  er_additional_external_references : list ExternalReferenceBinding;
  er_follow_up : option ServiceCommandTransaction;
  er_at : DateTime;
}.
#[export] Instance EffectResultReconciliation_eta : Eta EffectResultReconciliation := λ r,
  {| er_tenant_id := er_tenant_id r; er_call_id := er_call_id r; er_effect_id := er_effect_id r;
     er_worker := er_worker r; er_claim_generation := er_claim_generation r;
     er_result := er_result r; er_external_reference := er_external_reference r;
     er_additional_external_references := er_additional_external_references r;
     er_follow_up := er_follow_up r; er_at := er_at r |}.
#[export] Instance EffectResultReconciliation_eq : EqDecision EffectResultReconciliation.
Proof. solve_decision. Defined.

Module CompletedServiceEffect.
Inductive CompletedServiceEffect :=
| Call (record : OutboxRecord)
| Control (record : ControlOutboxRecord).
End CompletedServiceEffect.
Abbreviation CompletedServiceEffect := CompletedServiceEffect.CompletedServiceEffect.

Record EffectResultView := {
  ev_effect : CompletedServiceEffect;
  ev_external_reference : option StoredExternalReference;
  ev_additional_external_references : list StoredExternalReference;
  ev_released_provider_events : list ProviderEventEnvelope;
  ev_follow_up : option ServiceCommandView;
}.

Module EffectResultOutcome.
Inductive EffectResultOutcome :=
| Reconciled (view : EffectResultView)
| Replayed (view : EffectResultView).
End EffectResultOutcome.
Abbreviation EffectResultOutcome := EffectResultOutcome.EffectResultOutcome.

Record StoredReconciliationResult := {
  ro_request : EffectResultReconciliation;
  ro_view : EffectResultView;
}.

Record ProviderEventReconciliationTransaction := {
  pv_account : ProviderAccountKey;
  pv_event_digest : ProviderEventDigest;
  pv_claim_generation : ClaimGeneration;
  pv_worker : WorkerLease;
  pv_target : ProviderEventTarget;
  pv_follow_up : option ServiceCommandTransaction;
  pv_at : DateTime;
}.
#[export] Instance ProviderEventReconciliationTransaction_eta
    : Eta ProviderEventReconciliationTransaction := λ r,
  {| pv_account := pv_account r; pv_event_digest := pv_event_digest r;
     pv_claim_generation := pv_claim_generation r; pv_worker := pv_worker r;
     pv_target := pv_target r; pv_follow_up := pv_follow_up r; pv_at := pv_at r |}.

Record ProviderEventReconciliationView := {
  pw_event : ProviderEventEnvelope;
  pw_target : ProviderEventTarget;
  pw_worker : WorkerLease;
  pw_claim_generation : ClaimGeneration;
  pw_follow_up : option ServiceCommandView;
}.

Module ProviderEventReconciliationOutcome.
Inductive ProviderEventReconciliationOutcome :=
| Reconciled (view : ProviderEventReconciliationView)
| Replayed (view : ProviderEventReconciliationView).
End ProviderEventReconciliationOutcome.
Abbreviation ProviderEventReconciliationOutcome :=
  ProviderEventReconciliationOutcome.ProviderEventReconciliationOutcome.
