(* ===== verification/Context.v ===== *)
(** The context contract between SIP headers and data channels ([src/context.rs]): the envelope
    that carries application context, the allowlist that maps SIP headers to its metadata, and the
    bridge policy that lets an envelope through only on the bridge of the call it names.

    A [BTreeMap] is a [gmap], visited in key order ([btree_entries]).  JSON and the data message of
    the media core are parameters; metrics have no effect on values. *)

From S2P Require Import Prelude RustText DomainTypes CoordModel Domain RepoTypes ServiceTypes.
From stdpp Require Import options.

Definition CONTEXT_LABEL : rstr := str "bridgefu.context.v1".
Definition CONTEXT_CONTENT_TYPE : rstr := str "application/vnd.bridgefu.context.v1+json".
Definition MAX_CONTEXT_BYTES : Z := 16 * 1024.
Definition MAX_CONTEXT_METADATA_ENTRIES : Z := 64.
Definition RESERVED_KEYS : list rstr :=
  [str "tenant_id"; str "call_id"; str "source_leg_id"; str "version"].
Definition HOP_BY_HOP_HEADERS : list rstr :=
  [str "via"; str "route"; str "record-route"; str "contact"; str "content-length";
   str "authorization"; str "proxy-authorization"; str "www-authenticate";
   str "proxy-authenticate"].

(** [src/handoff_status.rs] and [src/private_egress.rs]. *)
Definition HANDOFF_STATUS_LABEL : rstr := str "bridgefu.handoff.v1".
Definition PRIVATE_EGRESS_COMMAND_LABEL : rstr := str "bridgefu.private-egress.command.v1".
Definition PRIVATE_EGRESS_RESPONSE_LABEL : rstr := str "bridgefu.private-egress.response.v1".
Definition PRIVATE_EGRESS_LIFECYCLE_LABEL : rstr := str "bridgefu.private-egress.lifecycle.v1".
Definition PRIVATE_EGRESS_LIFECYCLE_ACK_LABEL : rstr :=
  str "bridgefu.private-egress.lifecycle-ack.v1".

Definition is_private_egress_label (label : rstr) : bool :=
  (label ==? PRIVATE_EGRESS_COMMAND_LABEL) || (label ==? PRIVATE_EGRESS_RESPONSE_LABEL)
  || (label ==? PRIVATE_EGRESS_LIFECYCLE_LABEL)
  || (label ==? PRIVATE_EGRESS_LIFECYCLE_ACK_LABEL).

(** The [anyhow!] messages, without the interpolated values. *)
Module ContextError.
Inductive ContextError :=
| AllowlistTooLarge
| InvalidHeader
| InvalidMetadataKey
| InvalidValue
| UnsupportedMessage
| EnvelopeTooLarge
| Serialization
| OwnershipMismatch
| UnsupportedVersion
| InvalidIdentifier
| TooManyEntries.
End ContextError.
Abbreviation ContextError := ContextError.ContextError.

Record ContextEnvelope := {
  ce_version : N;
  ce_correlation_id : rstr;
  ce_tenant_id : rstr;
  ce_call_id : rstr;
  ce_source_leg_id : rstr;
  ce_metadata : gmap rstr rstr;
}.
#[export] Instance ContextEnvelope_eta : Eta ContextEnvelope := λ r,
  {| ce_version := ce_version r; ce_correlation_id := ce_correlation_id r;
     ce_tenant_id := ce_tenant_id r; ce_call_id := ce_call_id r;
     ce_source_leg_id := ce_source_leg_id r; ce_metadata := ce_metadata r |}.
#[export] Instance ContextEnvelope_eq : EqDecision ContextEnvelope.
Proof. solve_decision. Defined.

Record ContextPolicy := {
  cp_allow_headers : gmap rstr rstr;
  cp_allow_metadata_keys : gset rstr;
}.

(** ** Checks *)

(** [contains(['\r', '\n', '\0'])]. *)
Definition breaks_line (value : rstr) : bool :=
  existsb (λ c, (c =? 13) || (c =? 10) || (c =? 0)) value.

Definition to_lower (s : rstr) : rstr := to_ascii_lowercase <$> s.

Definition validate_header_name (header : rstr) : result ContextError () :=
  let normalized := to_lower header in
  if negb (starts_with (str "X-") header) && negb (starts_with (str "x-") header)
  then Err ContextError.InvalidHeader
  else if bool_decide (normalized ∈ HOP_BY_HOP_HEADERS)
          || (128 <? len header)
          || negb (forallb (λ byte, is_ascii_alphanumeric byte || contains "-_" byte) (bytes header))
  then Err ContextError.InvalidHeader
  else Ok ().

Definition validate_metadata_key (key : rstr) : result ContextError () :=
  if is_empty key || (128 <? len key) || bool_decide (key ∈ RESERVED_KEYS)
     || negb (forallb (λ byte, is_ascii_alphanumeric byte || contains "_-." byte) (bytes key))
  then Err ContextError.InvalidMetadataKey
  else Ok ().

Definition CORRELATION_ID : rstr := str "correlation_id".
#[global] Arguments CORRELATION_ID : simpl never.

Definition validate_metadata_key_or_correlation (key : rstr) : result ContextError () :=
  if key ==? CORRELATION_ID then Ok () else validate_metadata_key key.

Definition validate_value (value : rstr) : result ContextError () :=
  if (2048 <? len value) || breaks_line value then Err ContextError.InvalidValue else Ok ().

(** ** The allowlist *)

(** One iteration of [normalized_policy]. *)
Definition normalize_entry (result : gmap rstr rstr) (entry : rstr * rstr)
    : Prelude.result ContextError (gmap rstr rstr) :=
  validate_header_name entry.1;;
  validate_metadata_key_or_correlation entry.2;;
  Ok (<[to_lower entry.1 := entry.2]> result).

Fixpoint normalize_entries (entries : list (rstr * rstr)) (result : gmap rstr rstr)
    : Prelude.result ContextError (gmap rstr rstr) :=
  match entries with
  | [] => Ok result
  | entry :: entries =>
      result ← normalize_entry result entry;
      normalize_entries entries result
  end.

Definition normalized_policy (policy : ContextPolicy) : result ContextError (gmap rstr rstr) :=
  normalize_entries (btree_entries (cp_allow_headers policy)) ∅.

Definition ContextPolicy_validate (self : ContextPolicy) : result ContextError () :=
  reject_if
    (MAX_CONTEXT_METADATA_ENTRIES <?
       Z.of_nat (size (cp_allow_headers self)) + Z.of_nat (size (cp_allow_metadata_keys self)))
    ContextError.AllowlistTooLarge;;
  normalized_policy self;;
  try_each validate_metadata_key_or_correlation (btree_iter (cp_allow_metadata_keys self)).

Definition allows_metadata_key (self : ContextPolicy) (key : rstr) : result ContextError bool :=
  ContextPolicy_validate self;;
  validate_metadata_key_or_correlation key;;
  allow ← normalized_policy self;
  Ok (bool_decide (key ∈ cp_allow_metadata_keys self)
      || existsb (λ value, value ==? key) (values allow)).

(** ** The envelope *)

Definition ContextEnvelope_new (correlation_id tenant_id call_id source_leg_id : rstr)
    : ContextEnvelope :=
  {| ce_version := 1%N; ce_correlation_id := correlation_id; ce_tenant_id := tenant_id;
     ce_call_id := call_id; ce_source_leg_id := source_leg_id; ce_metadata := ∅ |}.

Definition validate_context_identifier (required : rstr) : result ContextError () :=
  if is_empty required || (512 <? len required) || breaks_line required
  then Err ContextError.InvalidIdentifier
  else Ok ().

Definition ContextEnvelope_validate (self : ContextEnvelope) : result ContextError () :=
  reject_if (negb (ce_version self =? 1)%N) ContextError.UnsupportedVersion;;
  try_each validate_context_identifier
    [ce_correlation_id self; ce_tenant_id self; ce_call_id self; ce_source_leg_id self];;
  reject_if (MAX_CONTEXT_METADATA_ENTRIES <? Z.of_nat (size (ce_metadata self)))
    ContextError.TooManyEntries;;
  try_each (λ entry, validate_metadata_key entry.1;; validate_value entry.2)
    (btree_entries (ce_metadata self)).

Definition validate_binding (self : ContextEnvelope) (tenant_id call_id source_leg_id : rstr)
    : result ContextError () :=
  if (ce_tenant_id self !=? tenant_id) || (ce_call_id self !=? call_id)
     || (ce_source_leg_id self !=? source_leg_id)
  then Err ContextError.OwnershipMismatch
  else Ok ().

(** One iteration of [from_sip_headers]. *)
Definition read_header (allow : gmap rstr rstr) (envelope : ContextEnvelope) (header : rstr * rstr)
    : result ContextError ContextEnvelope :=
  match allow !! to_lower header.1 with
  | None => Ok envelope
  | Some key =>
      validate_value header.2;;
      if key ==? CORRELATION_ID then Ok (envelope <| ce_correlation_id := header.2 |>)
      else
        validate_metadata_key key;;
        Ok (envelope <| ce_metadata := <[key := header.2]> (ce_metadata envelope) |>)
  end.

Fixpoint read_headers (allow : gmap rstr rstr) (headers : list (rstr * rstr))
    (envelope : ContextEnvelope) : result ContextError ContextEnvelope :=
  match headers with
  | [] => Ok envelope
  | header :: headers =>
      envelope ← read_header allow envelope header;
      read_headers allow headers envelope
  end.

Definition from_sip_headers (envelope : ContextEnvelope) (headers : list (rstr * rstr))
    (policy : ContextPolicy) : result ContextError ContextEnvelope :=
  allow ← normalized_policy policy;
  envelope ← read_headers allow headers envelope;
  ContextEnvelope_validate envelope;;
  Ok envelope.

(** One iteration of [to_sip_headers]. *)
Definition context_value (self : ContextEnvelope) (key : rstr) : option rstr :=
  if key ==? CORRELATION_ID then Some (ce_correlation_id self) else ce_metadata self !! key.

Fixpoint write_headers (self : ContextEnvelope) (entries : list (rstr * rstr))
    (result : gmap rstr rstr) : Prelude.result ContextError (gmap rstr rstr) :=
  match entries with
  | [] => Ok result
  | (header, key) :: entries =>
      validate_header_name header;;
      match context_value self key with
      | Some value =>
          validate_value value;;
          write_headers self entries (<[header := value]> result)
      | None => write_headers self entries result
      end
  end.

Definition to_sip_headers (self : ContextEnvelope) (policy : ContextPolicy)
    : result ContextError (gmap rstr rstr) :=
  ContextEnvelope_validate self;;
  write_headers self (btree_entries (cp_allow_headers policy)) ∅.

(** ** Data messages *)

(** [rvoip_core::DataReliability] and the JSON of [ContextEnvelope]. *)
Class ContextWire := {
  DataReliability : Type;
  ReliableOrdered : DataReliability;
  envelope_to_vec : ContextEnvelope → option (list Z);
  envelope_from_slice : list Z → option ContextEnvelope;
}.

(** [serde_json::from_slice] reads back what [serde_json::to_vec] wrote. *)
Class ContextWireLaws `{ContextWire} : Prop := {
  envelope_json_round_trip e b : envelope_to_vec e = Some b → envelope_from_slice b = Some e;
}.

Record DataMessage `{ContextWire} := {
  dm_label : rstr;
  dm_content_type : rstr;
  dm_bytes : list Z;
  dm_reliability : DataReliability;
  dm_message_id : MessageId;
}.

Section Messages.
Context `{ContextWire}.

(** [MessageId::new()] is the argument [message_id]. *)
Definition to_data_message (self : ContextEnvelope) (message_id : MessageId)
    : result ContextError DataMessage :=
  ContextEnvelope_validate self;;
  bytes ← ok_or (envelope_to_vec self) ContextError.Serialization;
  reject_if (MAX_CONTEXT_BYTES <? Z.of_nat (length bytes)) ContextError.EnvelopeTooLarge;;
  Ok {| dm_label := CONTEXT_LABEL; dm_content_type := CONTEXT_CONTENT_TYPE; dm_bytes := bytes;
        dm_reliability := ReliableOrdered; dm_message_id := message_id |}.

Definition from_data_message (message : DataMessage) : result ContextError ContextEnvelope :=
  reject_if ((dm_label message !=? CONTEXT_LABEL)
             || (dm_content_type message !=? CONTEXT_CONTENT_TYPE)) ContextError.UnsupportedMessage;;
  reject_if (MAX_CONTEXT_BYTES <? Z.of_nat (length (dm_bytes message))) ContextError.EnvelopeTooLarge;;
  envelope ← ok_or (envelope_from_slice (dm_bytes message)) ContextError.Serialization;
  ContextEnvelope_validate envelope;;
  Ok envelope.

Definition from_data_message_for (message : DataMessage) (tenant_id call_id source_leg_id : rstr)
    : result ContextError ContextEnvelope :=
  envelope ← from_data_message message;
  validate_binding envelope tenant_id call_id source_leg_id;;
  Ok envelope.

End Messages.

(** ** The bridge policy *)

Record ContextSourceBinding := {
  cb_source_connection : ConnectionId;
  cb_source_tenant : rstr;
  cb_source_call : rstr;
  cb_source_leg : rstr;
}.

Record BoundContextSource := {
  bx_expected_target : ConnectionId;
  bx_tenant_id : rstr;
  bx_call_id : rstr;
  bx_source_leg_id : rstr;
}.

Record BridgefuContextBridgePolicy := { bp_sources : gmap ConnectionId BoundContextSource }.

Definition bound_source (source : ContextSourceBinding) (target : ConnectionId) : BoundContextSource :=
  {| bx_expected_target := target; bx_tenant_id := cb_source_tenant source;
     bx_call_id := cb_source_call source; bx_source_leg_id := cb_source_leg source |}.

Definition BridgefuContextBridgePolicy_new (left right : ContextSourceBinding)
    : BridgefuContextBridgePolicy :=
  let sources :=
    <[cb_source_connection left := bound_source left (cb_source_connection right)]> ∅ in
  {| bp_sources :=
       <[cb_source_connection right := bound_source right (cb_source_connection left)]> sources |}.

(** [rvoip_core::stream::BridgedDataMessageDecision]. *)
Module BridgedDataMessageDecision.
Inductive BridgedDataMessageDecision `{ContextWire} := Forward (message : DataMessage) | Drop.
End BridgedDataMessageDecision.
Abbreviation BridgedDataMessageDecision := BridgedDataMessageDecision.BridgedDataMessageDecision.

Definition decide_bridge `{ContextWire} (self : BridgefuContextBridgePolicy)
    (source target : ConnectionId) (message : DataMessage) : BridgedDataMessageDecision :=
  if (dm_label message ==? HANDOFF_STATUS_LABEL) || is_private_egress_label (dm_label message)
  then BridgedDataMessageDecision.Drop
  else if dm_label message !=? CONTEXT_LABEL then BridgedDataMessageDecision.Forward message
  else
    match bp_sources self !! source with
    | None => BridgedDataMessageDecision.Drop
    | Some binding =>
        if bx_expected_target binding !=? target then BridgedDataMessageDecision.Drop
        else
          match from_data_message message with
          | Err _ => BridgedDataMessageDecision.Drop
          | Ok envelope =>
              match validate_binding envelope (bx_tenant_id binding) (bx_call_id binding)
                      (bx_source_leg_id binding) with
              | Err _ => BridgedDataMessageDecision.Drop
              | Ok _ => BridgedDataMessageDecision.Forward message
              end
          end
    end.
