(* ===== verification/ContextThms.v ===== *)
(** Properties of the context contract: the bridge policy lets an envelope through on the bridge of
    its own call only, and a context written to SIP headers is read back from them. *)

From S2P Require Import Prelude RustText DomainTypes CoordModel Domain RepoTypes ServiceTypes.
From S2P Require Import Context.
From stdpp Require Import options.

(** ** Checks *)

Lemma btree_entries_lookup {V} (m : gmap rstr V) k v : (k, v) ∈ btree_entries m ↔ m !! k = Some v.
Proof. unfold btree_entries. by rewrite sort_by_perm, elem_of_map_to_list. Qed.

(** What an accepted envelope satisfies. *)
Record envelope_ok (e : ContextEnvelope) : Prop := {
  eo_version : ce_version e = 1%N;
  eo_correlation : validate_context_identifier (ce_correlation_id e) = Ok ();
  eo_tenant : validate_context_identifier (ce_tenant_id e) = Ok ();
  eo_call : validate_context_identifier (ce_call_id e) = Ok ();
  eo_leg : validate_context_identifier (ce_source_leg_id e) = Ok ();
  eo_size : Z.of_nat (size (ce_metadata e)) ≤ MAX_CONTEXT_METADATA_ENTRIES;
  eo_metadata k v : ce_metadata e !! k = Some v →
    validate_metadata_key k = Ok () ∧ validate_value v = Ok ();
}.

Lemma envelope_validate_ok e : ContextEnvelope_validate e = Ok () ↔ envelope_ok e.
Proof.
  unfold ContextEnvelope_validate. rewrite !bind_unit_ok, !reject_if_ok, !try_each_ok.
  rewrite negb_false_iff, N.eqb_eq, Z.ltb_ge. split.
  - intros (Hv & Hid & Hs & Hm). split; try done; try (apply Hid; set_solver).
    intros k v Hk. by apply bind_unit_ok, (Hm (k, v)), btree_entries_lookup.
  - intros []. split_and!; try done.
    + intros x Hx. set_unfold. destruct Hx as [->|[->|[->|[->|[]]]]]; done.
    + intros [k v] Hk%btree_entries_lookup. apply bind_unit_ok. auto.
Qed.

(** ** The bridge *)

Definition reserved_label (label : rstr) : bool :=
  (label ==? HANDOFF_STATUS_LABEL) || is_private_egress_label label.

(** [side] sends to its [peer] on the bridge of [left] and [right]. *)
Definition bridged (left right side peer : ContextSourceBinding) : Prop :=
  side = left ∧ peer = right ∨ side = right ∧ peer = left.

Lemma bridge_source left right source binding :
  cb_source_connection left ≠ cb_source_connection right →
  bp_sources (BridgefuContextBridgePolicy_new left right) !! source = Some binding ↔
  ∃ side peer, bridged left right side peer ∧ source = cb_source_connection side ∧
    binding = bound_source side (cb_source_connection peer).
Proof.
  intros Hne. cbn. rewrite !lookup_insert_Some, lookup_empty. unfold bridged. split.
  - intros [[<- <-]|[_ [[<- <-]|[_ [=]]]]]; eauto 7.
  - intros (side & peer & [[-> ->]|[-> ->]] & -> & ->); auto.
Qed.

Lemma validate_binding_ok e t c l u :
  validate_binding e t c l = Ok u ↔ ce_tenant_id e = t ∧ ce_call_id e = c ∧ ce_source_leg_id e = l.
Proof.
  destruct u. unfold validate_binding. repeat case_bool_decide; naive_solver.
Qed.

Section Bridge.
Context `{ContextWireLaws}.
#[local] Set Default Proof Using "Type*".

Lemma from_data_message_ok m e :
  from_data_message m = Ok e ↔
  dm_label m = CONTEXT_LABEL ∧ dm_content_type m = CONTEXT_CONTENT_TYPE ∧
  Z.of_nat (length (dm_bytes m)) ≤ MAX_CONTEXT_BYTES ∧
  envelope_from_slice (dm_bytes m) = Some e ∧ envelope_ok e.
Proof.
  unfold from_data_message.
  rewrite !bind_unit_ok, !reject_if_ok, result_bind_ok, orb_false_iff, !negb_false_iff.
  rewrite !bool_decide_eq_true, Z.ltb_ge. setoid_rewrite ok_or_ok. setoid_rewrite bind_unit_ok.
  setoid_rewrite envelope_validate_ok. naive_solver.
Qed.

(** C27. Context stays on its bridge.  On the bridge of two connections a message is forwarded
    unchanged or dropped.  The labels of the private control channels are always dropped and other
    application labels always forwarded; a context envelope is forwarded exactly when it comes from
    one of the two connections, goes to the other one, is well formed, and names the tenant, call
    and leg bound to the connection it comes from.  What [to_data_message] writes is read back as
    the same envelope, so the envelope of a call passes its own bridge. *)
Theorem context_stays_on_its_bridge (left right : ContextSourceBinding) (source target : ConnectionId)
    (m m' : DataMessage) :
  cb_source_connection left ≠ cb_source_connection right →
  (decide_bridge (BridgefuContextBridgePolicy_new left right) source target m =
     BridgedDataMessageDecision.Forward m' ↔
   m' = m ∧ reserved_label (dm_label m) = false ∧
   (dm_label m = CONTEXT_LABEL → ∃ side peer e, bridged left right side peer ∧
      source = cb_source_connection side ∧ target = cb_source_connection peer ∧
      from_data_message m = Ok e ∧ envelope_ok e ∧ ce_tenant_id e = cb_source_tenant side ∧
      ce_call_id e = cb_source_call side ∧ ce_source_leg_id e = cb_source_leg side)) ∧
  (∀ e id, to_data_message e id = Ok m → from_data_message m = Ok e ∧ dm_label m = CONTEXT_LABEL).
Proof.
  intros Hne. split.
  - unfold decide_bridge. fold (reserved_label (dm_label m)).
    destruct (reserved_label (dm_label m)); [by split; [|intros (_ & ? & _)]|].
    case_bool_decide as Hl; cbv [negb]; [|by split; [intros [= <-]|intros [-> _]]].
    split.
    + destruct (bp_sources (BridgefuContextBridgePolicy_new left right) !! source) as [b|] eqn:Hb; [|done].
      apply bridge_source in Hb as (side & peer & Hs & -> & ->); [|done]. cbn.
      case_bool_decide as Ht; [|done]. cbn. destruct (from_data_message m) as [e|] eqn:He; [|done].
      destruct (validate_binding _ _ _ _) as [u|] eqn:Hv; [|done]. intros [= <-].
      apply validate_binding_ok in Hv as (? & ? & ?). split_and!; try done. intros _.
      exists side, peer, e. split_and!; try done. by apply from_data_message_ok in He as (_ & _ & _ & _ & ?).
    + intros (-> & _ & Hc). destruct (Hc Hl) as (side & peer & e & Hs & -> & -> & He & _ & Ht & Hi & Hg).
      destruct (bp_sources (BridgefuContextBridgePolicy_new left right) !! cb_source_connection side)
        as [b|] eqn:Hb.
      2:{ assert (Hex : ∃ s p, bridged left right s p ∧ cb_source_connection side = cb_source_connection s ∧
            bound_source side (cb_source_connection peer) = bound_source s (cb_source_connection p))
            by eauto.
          apply bridge_source in Hex; [congruence|done]. }
      apply bridge_source in Hb as (s & p & Hsp & E & ->); [|done].
      assert (s = side ∧ p = peer) as [-> ->] by (unfold bridged in *; naive_solver).
      cbn. rewrite bool_decide_true by done. cbn. rewrite He.
      destruct (validate_binding _ _ _ _) eqn:Hv; [done|].
      assert (Hok : validate_binding e (cb_source_tenant side) (cb_source_call side) (cb_source_leg side) = Ok ())
        by by apply validate_binding_ok. congruence.
  - intros e id Hm. unfold to_data_message in Hm. apply bind_unit_ok in Hm as [Hv Hm].
    apply result_bind_ok in Hm as (b & Hb%ok_or_ok & Hm). apply bind_unit_ok in Hm as [Hs [= <-]].
    split; [|done]. apply from_data_message_ok. cbn. apply reject_if_ok, Z.ltb_ge in Hs.
    split_and!; try done; [by apply envelope_json_round_trip|by apply envelope_validate_ok].
Qed.

End Bridge.

(** ** SIP headers *)

(** Header names differ by more than their case. *)
Definition case_distinct (policy : ContextPolicy) : Prop :=
  ∀ h1 h2 k1 k2, cp_allow_headers policy !! h1 = Some k1 → cp_allow_headers policy !! h2 = Some k2 →
    to_lower h1 = to_lower h2 → h1 = h2.

(** Some allowed header carries the key. *)
Definition exposes (policy : ContextPolicy) (key : rstr) : Prop :=
  ∃ h, cp_allow_headers policy !! h = Some key.

Lemma normalize_entries_ok entries r r' :
  (∀ x y, x ∈ entries → y ∈ entries → to_lower x.1 = to_lower y.1 → x = y) →
  normalize_entries entries r = Ok r' →
  (∀ x, x ∈ entries → validate_metadata_key_or_correlation x.2 = Ok () ∧ r' !! to_lower x.1 = Some x.2) ∧
  (∀ n, (∀ x, x ∈ entries → to_lower x.1 ≠ n) → r' !! n = r !! n).
Proof.
  revert r. induction entries as [|x l IH]; intros r Hd Hr; cbn in Hr.
  { injection Hr as <-. split; [|done]. intros x Hx. by apply elem_of_nil in Hx. }
  apply result_bind_ok in Hr as (r1 & H1 & Hr). unfold normalize_entry in H1.
  apply bind_unit_ok in H1 as [_ H1]. apply bind_unit_ok in H1 as [Hk [= <-]].
  apply IH in Hr as [Hin Hout]; [|set_solver]. split.
  - intros y [->|Hy]%elem_of_cons; [|auto]. split; [done|].
    destruct (base.decide (x ∈ l)) as [Hx|Hx]; [by apply Hin|].
    rewrite Hout, lookup_insert_eq; [done|]. intros y Hy E.
    assert (y = x) by (apply Hd; [set_solver..|done]). congruence.
  - intros n Hn. rewrite Hout by set_solver. apply lookup_insert_ne. apply Hn. set_solver.
Qed.

Lemma normalized_policy_ok policy allow h key :
  case_distinct policy → normalized_policy policy = Ok allow →
  cp_allow_headers policy !! h = Some key →
  validate_metadata_key_or_correlation key = Ok () ∧ allow !! to_lower h = Some key.
Proof.
  intros Hd Ha Hh. apply normalize_entries_ok in Ha as [Ha _].
  - by apply (Ha (h, key)), btree_entries_lookup.
  - intros [h1 k1] [h2 k2] H1%btree_entries_lookup H2%btree_entries_lookup E. cbn in E.
    assert (h1 = h2) by eauto. congruence.
Qed.

Lemma write_headers_ok e entries r r' :
  NoDup entries.*1 → write_headers e entries r = Ok r' →
  (∀ h v, r !! h = Some v → h ∉ entries.*1) →
  ∀ h v, r' !! h = Some v ↔
    r !! h = Some v ∨
    ∃ key, (h, key) ∈ entries ∧ context_value e key = Some v ∧ validate_value v = Ok ().
Proof.
  revert r. induction entries as [|[h0 k0] l IH]; intros r Hnd Hr Hdis h v.
  { cbn in Hr. injection Hr as <-. set_solver. }
  cbn in Hnd. apply NoDup_cons in Hnd as [Hn Hnd]. cbn in Hr. apply bind_unit_ok in Hr as [_ Hr].
  destruct (context_value e k0) as [v0|] eqn:E0.
  - apply bind_unit_ok in Hr as [Hv Hr]. rewrite (IH _ Hnd Hr).
    + rewrite lookup_insert_Some. setoid_rewrite elem_of_cons. split.
      * intros [[[<- <-]|[_ ?]]|(k & ? & ?)]; eauto 8.
      * intros [Hold|(k & [[= -> ->]|Hin] & Hc & ?)]; [|simplify_eq; auto|eauto].
        left. right. split; [|done]. intros ->. specialize (Hdis _ _ Hold). set_solver.
    + intros h1 v1 [[<- <-]|[_ Hold]]%lookup_insert_Some; [done|].
      specialize (Hdis _ _ Hold). set_solver.
  - rewrite (IH _ Hnd Hr).
    + setoid_rewrite elem_of_cons. split; [naive_solver|].
      intros [?|(k & [[= -> ->]|Hin] & Hc & ?)]; [by left|congruence|eauto].
    + intros h1 v1 Hold. specialize (Hdis _ _ Hold). set_solver.
Qed.

Lemma context_value_valid e key v :
  envelope_ok e → context_value e key = Some v → validate_value v = Ok ().
Proof.
  intros He. unfold context_value. case_bool_decide; intros Hv.
  - injection Hv as <-. pose proof (eo_correlation e He) as Hc.
    unfold validate_context_identifier, validate_value in *.
    destruct (is_empty _), (512 <? len _) eqn:H5, (breaks_line _); try done. cbn.
    by rewrite (proj2 (Z.ltb_ge _ _)) by (apply Z.ltb_ge in H5; lia).
  - by apply (eo_metadata e He) in Hv as [_ ?].
Qed.

Lemma to_sip_headers_ok e policy headers :
  to_sip_headers e policy = Ok headers →
  envelope_ok e ∧ ∀ h v, headers !! h = Some v ↔
    ∃ key, cp_allow_headers policy !! h = Some key ∧ context_value e key = Some v.
Proof.
  intros [He%envelope_validate_ok Hw]%bind_unit_ok. split; [done|]. intros h v.
  assert (Hnd : NoDup (btree_entries (cp_allow_headers policy)).*1).
  { unfold btree_entries. rewrite sort_by_perm. apply NoDup_fst_map_to_list. }
  rewrite (write_headers_ok _ _ _ _ Hnd Hw) by (intros ? ? E; by rewrite lookup_empty in E).
  rewrite lookup_empty. setoid_rewrite btree_entries_lookup. split.
  - intros [[=]|(key & ? & ? & _)]. eauto.
  - intros (key & ? & ?). right. eauto using context_value_valid.
Qed.

(** The envelope [e'] has the ids of [b], the value of [e] under the keys in [K] and the value of
    [b] under the others. *)
Record overlaid (K : rstr → Prop) (e b e' : ContextEnvelope) : Prop := {
  ov_version : ce_version e' = ce_version b;
  ov_tenant : ce_tenant_id e' = ce_tenant_id b;
  ov_call : ce_call_id e' = ce_call_id b;
  ov_leg : ce_source_leg_id e' = ce_source_leg_id b;
  ov_shadow : ce_metadata e' !! CORRELATION_ID = ce_metadata b !! CORRELATION_ID;
  ov_in key : K key → context_value e' key = context_value e key;
  ov_out key : ¬ K key → context_value e' key = context_value b key;
}.

Lemma context_value_put (b : ContextEnvelope) key v key' :
  context_value (if key ==? CORRELATION_ID then b <| ce_correlation_id := v |>
                 else b <| ce_metadata := <[key := v]> (ce_metadata b) |>) key' =
  if key' ==? key then Some v else context_value b key'.
Proof.
  unfold context_value. repeat case_bool_decide; subst; try done; cbn.
  - by rewrite lookup_insert_eq.
  - by rewrite lookup_insert_ne.
Qed.

Lemma read_headers_ok policy allow e hs b :
  case_distinct policy → normalized_policy policy = Ok allow → envelope_ok e →
  (∀ h v, (h, v) ∈ hs → ∃ key, cp_allow_headers policy !! h = Some key ∧ context_value e key = Some v) →
  ∃ e', read_headers allow hs b = Ok e' ∧
    overlaid (λ key, Exists (λ x, cp_allow_headers policy !! x.1 = Some key) hs) e b e'.
Proof.
  intros Hd Ha He. revert b. induction hs as [|[h v] hs IH]; intros b Hhs.
  { exists b. split; [done|]. split; try done. intros key []%Exists_nil. }
  destruct (Hhs h v) as (key & Hh & Hv); [set_solver|].
  destruct (normalized_policy_ok _ _ _ _ Hd Ha Hh) as [Hk Hl].
  set (b1 := if key ==? CORRELATION_ID then b <| ce_correlation_id := v |>
             else b <| ce_metadata := <[key := v]> (ce_metadata b) |>).
  destruct (IH b1) as (e' & Hr & [O1 O2 O3 O4 Os Oi Oo]); [set_solver|]. exists e'. split.
  - cbn [read_headers]. unfold read_header. cbn [fst snd]. rewrite Hl. rewrite (context_value_valid e key v) by done. cbn.
    unfold b1 in Hr. unfold validate_metadata_key_or_correlation in Hk.
    case_bool_decide; [done|]. by rewrite Hk.
  - assert (Hb1 : ce_version b1 = ce_version b ∧ ce_tenant_id b1 = ce_tenant_id b ∧
      ce_call_id b1 = ce_call_id b ∧ ce_source_leg_id b1 = ce_source_leg_id b ∧
      ce_metadata b1 !! CORRELATION_ID = ce_metadata b !! CORRELATION_ID).
    { unfold b1. case_bool_decide; [done|]. split_and!; try done. by apply lookup_insert_ne. }
    destruct Hb1 as (E1 & E2 & E3 & E4 & E5). split; try congruence.
    + intros key' [Hh'|Hin]%Exists_cons; [|auto]. cbn in Hh'.
      assert (key' = key) as -> by congruence.
      destruct (base.decide (Exists (λ x, cp_allow_headers policy !! x.1 = Some key) hs)); [auto|].
      rewrite Oo by done. unfold b1. rewrite context_value_put. by rewrite bool_decide_true.
    + intros key' Hn. rewrite Exists_cons in Hn. rewrite Oo by tauto. unfold b1.
      rewrite context_value_put, bool_decide_false; [done|]. intros ->. apply Hn. by left.
Qed.

(** Reading over an envelope without metadata gives an accepted envelope. *)
Lemma overlaid_ok K e b e' :
  (∀ key, Decision (K key)) → envelope_ok e → envelope_ok b → ce_metadata b = ∅ →
  overlaid K e b e' → envelope_ok e'.
Proof.
  intros HK He Hb Hm [Ov Ot Oc Ol Os Oi Oo].
  assert (Hsub : ce_metadata e' ⊆ ce_metadata e).
  { apply map_subseteq_spec. intros k v Hk. destruct (base.decide (k = CORRELATION_ID)) as [->|Hne].
    { by rewrite Os, Hm, lookup_empty in Hk. }
    assert (Hc : ∀ x, context_value x k = ce_metadata x !! k)
      by (intros x; unfold context_value; by rewrite bool_decide_false).
    destruct (HK k) as [Hin|Hout].
    - specialize (Oi k Hin). rewrite !Hc in Oi. congruence.
    - specialize (Oo k Hout). rewrite !Hc, Hm, lookup_empty in Oo. congruence. }
  assert (Hcor : ce_correlation_id e' = ce_correlation_id e ∨ ce_correlation_id e' = ce_correlation_id b).
  { destruct (HK CORRELATION_ID) as [Hin|Hout].
    - specialize (Oi _ Hin). left. unfold context_value in Oi.
      rewrite bool_decide_true in Oi by done. congruence.
    - specialize (Oo _ Hout). right. unfold context_value in Oo.
      rewrite bool_decide_true in Oo by done. congruence. }
  destruct He, Hb. split; try congruence.
  - by destruct Hcor as [->| ->].
  - apply map_subseteq_size in Hsub. lia.
  - intros k v Hk. apply eo_metadata0. by eapply lookup_weaken.
Qed.

(** Context survives SIP.  When the allowlist is valid and no two of its header names differ
    only in case, the headers written for an accepted envelope, read in any order over an accepted
    envelope without metadata, give an accepted envelope with the identifiers of the latter: every
    key an allowed header carries has the value it had in the envelope that was written, and no
    other key has crossed. *)
Theorem sip_headers_round_trip (policy : ContextPolicy) (e base : ContextEnvelope)
    (headers : gmap rstr rstr) (hs : list (rstr * rstr)) :
  ContextPolicy_validate policy = Ok () → case_distinct policy →
  to_sip_headers e policy = Ok headers → hs ≡ₚ map_to_list headers →
  ContextEnvelope_validate base = Ok () → ce_metadata base = ∅ →
  ∃ e', from_sip_headers base hs policy = Ok e' ∧ ContextEnvelope_validate e' = Ok () ∧
    ce_tenant_id e' = ce_tenant_id base ∧ ce_call_id e' = ce_call_id base ∧
    ce_source_leg_id e' = ce_source_leg_id base ∧
    (∀ key, exposes policy key → context_value e' key = context_value e key) ∧
    (∀ key, ¬ exposes policy key → context_value e' key = context_value base key).
Proof.
  intros Hp Hd (He & Hh)%to_sip_headers_ok Hperm Hb%envelope_validate_ok Hm.
  apply bind_unit_ok in Hp as [_ Hp]. apply result_bind_ok in Hp as (allow & Ha & _).
  assert (Hin : ∀ h v, (h, v) ∈ hs ↔
    ∃ key, cp_allow_headers policy !! h = Some key ∧ context_value e key = Some v).
  { intros h v. by rewrite Hperm, elem_of_map_to_list, Hh. }
  destruct (read_headers_ok policy allow e hs base Hd Ha He) as (e' & Hr & Ho).
  { intros h v. apply Hin. }
  assert (Hok : envelope_ok e') by (eapply overlaid_ok, Ho; eauto; intros; apply _).
  exists e'. unfold from_sip_headers. rewrite Ha. cbn. rewrite Hr. cbn.
  rewrite (proj2 (envelope_validate_ok e') Hok). destruct Ho as [_ Ot Oc Ol _ Oi Oo].
  split_and!; try done.
  - intros key [h Hk]. destruct (context_value e key) as [v|] eqn:Hv.
    + rewrite <- Hv. apply Oi, Exists_exists. exists (h, v). split; [|done]. apply Hin. eauto.
    + rewrite Oo; [|intros ([h' v] & (k & Hk' & Hv')%Hin & Hk'')%Exists_exists; cbn in *; congruence].
      unfold context_value in *. case_bool_decide; [done|]. by rewrite Hm, lookup_empty.
  - intros key Hn. apply Oo. intros ([h v] & _ & Hk)%Exists_exists. apply Hn. by exists h.
Qed.

(** ** A concrete call *)

(** The JSON of an envelope is one number that determines it. *)
Definition envelope_code (e : ContextEnvelope) :=
  (ce_version e, ce_correlation_id e, ce_tenant_id e, ce_call_id e, ce_source_leg_id e,
   map_to_list (ce_metadata e)).

#[local] Instance context_wire_sample : ContextWire := {|
  DataReliability := ();
  ReliableOrdered := ();
  envelope_to_vec e := Some [Z.pos (encode (envelope_code e))];
  envelope_from_slice b :=
    match b with
    | [Z.pos p] =>
        '(v, c, t, i, l, m) ← decode (A := N * rstr * rstr * rstr * rstr * list (rstr * rstr)) p;
        Some {| ce_version := v; ce_correlation_id := c; ce_tenant_id := t; ce_call_id := i;
                ce_source_leg_id := l; ce_metadata := list_to_map m |}
    | _ => None
    end |}.

#[local] Instance context_wire_sample_laws : ContextWireLaws.
Proof.
  split. intros e b [= <-]. unfold envelope_from_slice, context_wire_sample. rewrite decode_encode.
  unfold envelope_code. cbn. destruct e. cbn. by rewrite list_to_map_to_list.
Qed.

Definition caller_binding : ContextSourceBinding :=
  {| cb_source_connection := str "conn-a"; cb_source_tenant := str "tenant";
     cb_source_call := str "call"; cb_source_leg := str "leg-a" |}.
Definition agent_binding : ContextSourceBinding :=
  {| cb_source_connection := str "conn-b"; cb_source_tenant := str "tenant";
     cb_source_call := str "call"; cb_source_leg := str "leg-b" |}.

Definition sample_envelope : ContextEnvelope :=
  (ContextEnvelope_new (str "corr-1") (str "tenant") (str "call") (str "leg-a"))
    <| ce_metadata := {[str "intent" := str "billing"; str "note" := str "vip"]} |>.

Definition sample_policy : ContextPolicy :=
  {| cp_allow_headers := {[str "X-Intent" := str "intent"; str "X-Corr" := CORRELATION_ID]};
     cp_allow_metadata_keys := ∅ |}.

Lemma context_stays_on_its_bridge_witness :
  ∃ m, to_data_message sample_envelope (str "m1") = Ok m ∧
    decide_bridge (BridgefuContextBridgePolicy_new caller_binding agent_binding)
      (str "conn-a") (str "conn-b") m = BridgedDataMessageDecision.Forward m.
Proof.
  set (m := {| dm_label := CONTEXT_LABEL; dm_content_type := CONTEXT_CONTENT_TYPE;
    dm_bytes := [Z.pos (encode (envelope_code sample_envelope))]; dm_reliability := ReliableOrdered;
    dm_message_id := str "m1" |}).
  assert (E : to_data_message sample_envelope (str "m1") = Ok m).
  { unfold to_data_message. replace (ContextEnvelope_validate sample_envelope) with
      (Ok () : result ContextError ()) by (vm_compute; reflexivity). reflexivity. }
  exists m. split; [exact E|].
  destruct (context_stays_on_its_bridge caller_binding agent_binding (str "conn-a") (str "conn-b") m m
    ltac:(by vm_compute)) as [Hf Hrt].
  destruct (Hrt _ _ E) as [Hm Hl]. apply Hf. split; [reflexivity|]. split; [rewrite Hl; reflexivity|].
  intros _. exists caller_binding, agent_binding, sample_envelope.
  split; [left; split; reflexivity|]. split; [reflexivity|]. split; [reflexivity|].
  split; [exact Hm|]. split; [apply (from_data_message_ok m sample_envelope), Hm|].
  split; [reflexivity|]. split; reflexivity.
Defined.

Definition sample_headers : gmap rstr rstr :=
  {[str "X-Intent" := str "billing"; str "X-Corr" := str "corr-1"]}.
Definition sample_base : ContextEnvelope :=
  ContextEnvelope_new (str "new") (str "tenant") (str "call") (str "leg-b").

Lemma sample_case_distinct : case_distinct sample_policy.
Proof.
  intros h1 h2 k1 k2 H1 H2. unfold sample_policy, cp_allow_headers in H1, H2.
  apply lookup_insert_Some in H1 as [[<- _]|[_ [<- _]%lookup_singleton_Some]],
    H2 as [[<- _]|[_ [<- _]%lookup_singleton_Some]]; vm_compute; congruence.
Qed.

Lemma sip_headers_round_trip_witness :
  ∃ e', to_sip_headers sample_envelope sample_policy = Ok sample_headers ∧
    from_sip_headers sample_base (map_to_list sample_headers) sample_policy = Ok e' ∧
    context_value e' (str "intent") = Some (str "billing") ∧
    context_value e' CORRELATION_ID = Some (str "corr-1").
Proof.
  assert (E : to_sip_headers sample_envelope sample_policy = Ok sample_headers)
    by (vm_compute; reflexivity).
  destruct (sip_headers_round_trip sample_policy sample_envelope sample_base sample_headers
    (map_to_list sample_headers) ltac:(vm_compute; reflexivity) sample_case_distinct E
    (Permutation_refl _) ltac:(vm_compute; reflexivity) eq_refl)
    as (e' & He & _ & _ & _ & _ & Hin & _).
  exists e'. split; [exact E|]. split; [exact He|]. split.
  - rewrite Hin; [vm_compute; reflexivity|]. exists (str "X-Intent"). vm_compute; reflexivity.
  - rewrite Hin; [vm_compute; reflexivity|]. exists (str "X-Corr"). vm_compute; reflexivity.
Defined.
