(* ===== verification/PlanModel.v ===== *)
(** Execution plans of the call service ([src/call_service/model.rs]): the checks of endpoints,
    routes, plans, effect payloads and control intents, and the questions the repository and the
    executor ask a plan.

    The URL parser, the JSON of a route context, the header set of the SIP stack and the limits of
    the Amazon Connect adapter are parameters.  Building the originate contexts of the media
    adapters is left to those adapters. *)

From S2P Require Import Prelude RustText DomainTypes CoordModel Domain RepoTypes ServiceTypes.
From S2P Require Import Context.
From stdpp Require Import options.

(** ** Libraries *)

(** [url::Url], [rvoip_amazon_connect], [rvoip_sip::SipInitialHeaders], [rvoip_core] and the JSON of
    [NamedRouteCallContext] and [ContextEnvelope]. *)
Class ServiceLibs := {
  Url : Type;
  Url_parse : rstr → option Url;
  url_scheme : Url → rstr;
  url_password : Url → option rstr;
  url_query : Url → option rstr;
  url_fragment : Url → option rstr;
  url_path : Url → rstr;
  MAX_CONNECT_ATTRIBUTE_BYTES : Z;
  MAX_CONNECT_ATTRIBUTE_COUNT : Z;
  MAX_CONNECT_ATTRIBUTE_KEY_BYTES : Z;
  MAX_CONNECT_DESCRIPTION_BYTES : Z;
  MAX_CONNECT_DISPLAY_NAME_BYTES : Z;
  MAX_CONNECT_PROFILE_ID_BYTES : Z;
  MAX_CONNECT_RESOURCE_ID_BYTES : Z;
  AMAZON_CONNECT_CONTACT_REFERENCE_KIND : rstr;
  MAX_DATA_MESSAGE_ID_BYTES : Z;
  route_context_to_vec : NamedRouteCallContext → option (list Z);
  context_from_slice : list Z → option ContextEnvelope;
  sip_initial_headers_valid : list (rstr * rstr) → bool;
  id_to_string : Uuid → rstr;
}.

Definition CALL_EXECUTION_PLAN_VERSION : N := 3.
Definition LEGACY_CALL_EXECUTION_PLAN_VERSION : N := 1.
Definition AUTHORIZED_CALL_EXECUTION_PLAN_VERSION : N := 2.
Definition MAX_ENDPOINT_BYTES : Z := 2048.
Definition MAX_IDENTIFIER_BYTES : Z := 256.
Definition MAX_DTMF_DIGITS : Z := 64.

Definition invalid {A} (message : string) : result RepositoryError A :=
  Err (RepositoryError.InvalidInput message).

(** ** Text *)

(** [str::rsplit_once] at a character. *)
Definition rsplit_once (c : rchar) (s : rstr) : option (rstr * rstr) :=
  '(after, before) ← split_once c (rev s);
  Some (rev before, rev after).

(** [s.split(stop).next()]: up to the first character of the set. *)
Fixpoint take_until (stop : rchar → bool) (s : rstr) : rstr :=
  match s with
  | [] => []
  | x :: s' => if stop x then [] else x :: take_until stop s'
  end.

Definition validate_identifier (value : rstr) (message : string) : result RepositoryError () :=
  if is_empty value || (MAX_IDENTIFIER_BYTES <? len value)
     || existsb (λ byte, is_ascii_control byte || is_ascii_whitespace byte) (bytes value)
  then invalid message else Ok ().

Definition validate_bounded_value (value : rstr) (max : Z) (message : string)
    : result RepositoryError () :=
  if is_empty value || (max <? len value)
     || existsb (λ byte, (byte =? 13) || (byte =? 10) || (byte =? 0)) (bytes value)
  then invalid message else Ok ().

(** The alphabet of route and profile identifiers. *)
Definition valid_route_id (value : rstr) : bool :=
  negb (is_empty value) && (len value <=? MAX_IDENTIFIER_BYTES)
  && forallb (λ byte, is_ascii_lowercase byte || is_ascii_digit byte || contains "-_" byte)
       (bytes value)
  && is_some_and is_ascii_alphanumeric (head (bytes value)).

Definition validate_named_profile_id (value : rstr) : result RepositoryError () :=
  if valid_route_id value then Ok () else invalid "invalid named profile ID".

Definition has_authority_userinfo (value : rstr) : bool :=
  is_some_and (λ authority, bool_decide (64 ∈ authority))
    ('(_, remainder) ← split_once 58 value;
     remainder ← strip_prefix (str "//") remainder;
     Some (take_until (λ c, contains "/?#" c) remainder)).

Section Plans.
Context `{ServiceLibs}.

Definition sip_path_has_password (parsed : Url) : bool :=
  is_some_and (λ p, bool_decide (58 ∈ p.1)) (rsplit_once 64 (url_path parsed)).

Definition validate_uri (value : rstr) (schemes : list rstr) : result RepositoryError () :=
  validate_bounded_value value MAX_ENDPOINT_BYTES "invalid endpoint URI";;
  parsed ← ok_or (Url_parse value) (RepositoryError.InvalidInput "invalid endpoint URI");
  let sip_destination := (url_scheme parsed ==? str "sip") || (url_scheme parsed ==? str "sips") in
  if negb (bool_decide (url_scheme parsed ∈ schemes))
     || is_some (url_password parsed)
     || is_some (url_query parsed)
     || is_some (url_fragment parsed)
     || (negb sip_destination && has_authority_userinfo value)
     || (sip_destination && sip_path_has_password parsed)
  then invalid "invalid endpoint URI"
  else Ok ().

Definition SIP_SCHEMES : list rstr := [str "sip"; str "sips"].

Definition validate_optional_uri (value : option rstr) (initiator : SignalingInitiator)
    (schemes : list rstr) (missing : string) : result RepositoryError () :=
  match value with
  | Some value => validate_uri value schemes
  | None => if initiator ==? SignalingInitiator.Remote then Ok () else invalid missing
  end.

(** ** Amazon Connect *)

Definition validate_connect_profile (value : rstr) : result RepositoryError () :=
  if is_empty value || (MAX_CONNECT_PROFILE_ID_BYTES <? len value)
     || negb (forallb (λ byte, byte <? 128) (bytes value))
     || negb (forallb (λ byte, is_ascii_alphanumeric byte || contains "._-" byte) (bytes value))
  then invalid "invalid Amazon Connect profile" else Ok ().

Definition validate_connect_resource (value : rstr) (message : string) : result RepositoryError () :=
  if is_empty value || (MAX_CONNECT_RESOURCE_ID_BYTES <? len value)
     || negb (forallb (λ byte, byte <? 128) (bytes value))
     || existsb (λ byte, is_ascii_control byte || is_ascii_whitespace byte) (bytes value)
  then invalid message else Ok ().

Definition validate_connect_text (value : rstr) (max : Z) (message : string)
    : result RepositoryError () :=
  if is_empty value || (max <? len value) || existsb is_control value
  then invalid message else Ok ().

(** The loop of [validate_connect_attributes]; the sums of at most [usize::MAX] are exact here, as
    the total is checked after every entry. *)
Fixpoint validate_attribute_entries (entries : list (rstr * rstr)) (total : Z)
    : result RepositoryError () :=
  match entries with
  | [] => Ok ()
  | (key, value) :: entries =>
      if is_empty key || (MAX_CONNECT_ATTRIBUTE_KEY_BYTES <? len key)
         || negb (forallb (λ byte, is_ascii_alphanumeric byte || contains "_-" byte) (bytes key))
      then invalid "invalid Amazon Connect attribute key"
      else if existsb is_control value then invalid "invalid Amazon Connect attribute value"
      else
        let total := total + len key + len value in
        if U64_MAX <? total then invalid "Amazon Connect attributes are too large"
        else if MAX_CONNECT_ATTRIBUTE_BYTES <? total
        then invalid "Amazon Connect attributes are too large"
        else validate_attribute_entries entries total
  end.

Definition validate_connect_attributes (attributes : gmap rstr rstr) : result RepositoryError () :=
  reject_if (MAX_CONNECT_ATTRIBUTE_COUNT <? Z.of_nat (size attributes))
    (RepositoryError.InvalidInput "too many Amazon Connect attributes");;
  validate_attribute_entries (btree_entries attributes) 0.

Definition AmazonConnectStartSpec_validate (self : AmazonConnectStartSpec)
    : result RepositoryError () :=
  validate_connect_profile (as_profile self);;
  validate_connect_resource (as_instance_id self) "invalid Amazon Connect instance ID";;
  validate_connect_resource (as_contact_flow_id self) "invalid Amazon Connect contact-flow ID";;
  validate_connect_text (as_display_name self) MAX_CONNECT_DISPLAY_NAME_BYTES
    "invalid Amazon Connect display name";;
  match as_description self with
  | Some description =>
      validate_connect_text description MAX_CONNECT_DESCRIPTION_BYTES
        "invalid Amazon Connect description"
  | None => Ok ()
  end;;
  validate_connect_attributes (as_attributes self).

Definition AmazonConnectStartSpec_new (profile instance_id contact_flow_id : rstr)
    (attributes : gmap rstr rstr) (display_name : rstr) (description : option rstr)
    : result RepositoryError AmazonConnectStartSpec :=
  let value :=
    {| as_profile := profile; as_instance_id := instance_id;
       as_contact_flow_id := contact_flow_id; as_attributes := attributes;
       as_display_name := display_name; as_description := description |} in
  AmazonConnectStartSpec_validate value;;
  Ok value.

(** The attributes of [originate_context_with_attributes]: persisted attributes win. *)
Definition merge_attributes (self : AmazonConnectStartSpec) (context_attributes : gmap rstr rstr)
    : result RepositoryError (gmap rstr rstr) :=
  let attributes := as_attributes self ∪ context_attributes in
  validate_connect_attributes attributes;;
  Ok attributes.

(** ** Endpoints *)

Definition endpoint_kind (self : LegEndpointConfig) : LegKind :=
  match self with
  | LegEndpointConfig.Sip _ => LegKind.Sip
  | LegEndpointConfig.WebRtc _ => LegKind.InteractiveWebRtc
  | LegEndpointConfig.Whip _ => LegKind.Whip
  | LegEndpointConfig.Whep _ => LegKind.Whep
  | LegEndpointConfig.AmazonConnect _ => LegKind.AmazonConnect
  | LegEndpointConfig.Provider config =>
      match pc_provider config with
      | ProviderKind.Twilio => LegKind.Twilio
      | ProviderKind.Telnyx => LegKind.Telnyx
      | ProviderKind.Vonage => LegKind.Vonage
      end
  end.

Definition required_worker_capability (self : LegEndpointConfig) (initiator : SignalingInitiator)
    : result RepositoryError rstr :=
  match initiator, self with
  | SignalingInitiator.Remote, LegEndpointConfig.Sip _ => Ok (str "sip")
  | SignalingInitiator.Remote,
    (LegEndpointConfig.WebRtc _ | LegEndpointConfig.Whip _ | LegEndpointConfig.Whep _) =>
      Ok (str "webrtc")
  | SignalingInitiator.Bridgefu, LegEndpointConfig.Sip _ => Ok (str "sip_egress")
  | SignalingInitiator.Bridgefu,
    (LegEndpointConfig.WebRtc _ | LegEndpointConfig.Whip _ | LegEndpointConfig.Whep _) =>
      Ok (str "webrtc_egress")
  | SignalingInitiator.Bridgefu, LegEndpointConfig.AmazonConnect _ => Ok (str "amazon_connect")
  | SignalingInitiator.Bridgefu, LegEndpointConfig.Provider config =>
      match pc_provider config with
      | ProviderKind.Telnyx => Ok (str "telnyx")
      | ProviderKind.Twilio | ProviderKind.Vonage => invalid "provider worker capability is deferred"
      end
  | SignalingInitiator.Remote, (LegEndpointConfig.AmazonConnect _ | LegEndpointConfig.Provider _) =>
      invalid "remote endpoint has no ingress worker capability"
  end.

Definition LegEndpointConfig_validate (self : LegEndpointConfig) (direction : LegDirection)
    (initiator : SignalingInitiator) : result RepositoryError () :=
  match self with
  | LegEndpointConfig.Sip config =>
      validate_optional_uri (se_uri config) initiator SIP_SCHEMES
        "Bridgefu-initiated SIP leg requires a SIP URI";;
      if (se_initial_context config ==? SipInitialContextMode.Required)
         && ((direction !=? LegDirection.Outbound) || (initiator !=? SignalingInitiator.Bridgefu))
      then invalid
        "initial SIP context may be required only for an outbound Bridgefu-initiated leg"
      else Ok ()
  | LegEndpointConfig.WebRtc config =>
      validate_optional_uri (we_signaling_uri config) initiator [str "wss"]
        "Bridgefu-initiated WebRTC leg requires a signaling URI"
  | LegEndpointConfig.Whip config =>
      validate_optional_uri (wi_endpoint_uri config) initiator [str "https"]
        "Bridgefu-initiated WHIP leg requires an endpoint URI"
  | LegEndpointConfig.Whep config =>
      validate_optional_uri (wp_endpoint_uri config) initiator [str "https"]
        "Bridgefu-initiated WHEP leg requires an endpoint URI"
  | LegEndpointConfig.AmazonConnect config =>
      if (direction !=? LegDirection.Outbound) || (initiator !=? SignalingInitiator.Bridgefu)
      then invalid "Amazon Connect requires an outbound Bridgefu-initiated leg"
      else
        validate_connect_resource (ae_instance_id config) "invalid Amazon Connect instance ID";;
        validate_connect_resource (ae_contact_flow_id config)
          "invalid Amazon Connect contact-flow ID"
  | LegEndpointConfig.Provider config =>
      if initiator !=? SignalingInitiator.Bridgefu
      then invalid "provider-controlled legs require Bridgefu signaling initiation"
      else
        validate_identifier (pc_account_profile config) "invalid provider account profile";;
        match pc_destination config with
        | Some destination =>
            validate_bounded_value destination MAX_ENDPOINT_BYTES "invalid provider destination"
        | None => invalid "provider-controlled leg requires a destination"
        end
  end.

(** ** Named routes *)

Definition NamedProfileBinding_validate (self : NamedProfileBinding) : result RepositoryError () :=
  validate_named_profile_id (np_profile_id self);;
  if negb (len (np_revision self) =? 64)
     || negb (forallb (λ byte, is_ascii_digit byte || between 97 102 byte) (bytes (np_revision self)))
  then invalid "invalid named profile revision" else Ok ().

Definition NamedProfileBinding_new (role : NamedProfileRole) (kind : NamedProfileKind)
    (profile_id revision : rstr) : result RepositoryError NamedProfileBinding :=
  let binding :=
    {| np_role := role; np_kind := kind; np_profile_id := profile_id; np_revision := revision |} in
  NamedProfileBinding_validate binding;;
  Ok binding.

(** [map_err(|_| InvalidInput(message))]. *)
Definition or_invalid {E A} (r : result E A) (message : string) : result RepositoryError A :=
  match r with Ok x => Ok x | Err _ => invalid message end.

Definition NamedRouteCallContext_validate (self : NamedRouteCallContext)
    : result RepositoryError () :=
  let envelope :=
    ContextEnvelope_new (nc_correlation_id self) (str "route-tenant") (str "route-call")
      (str "route-source-leg") in
  let envelope := envelope <| ce_metadata := nc_metadata self |> in
  or_invalid (ContextEnvelope_validate envelope) "invalid named-route context";;
  encoded ← ok_or (route_context_to_vec self)
    (RepositoryError.InvalidInput "invalid named-route context");
  if MAX_CONTEXT_BYTES <? Z.of_nat (length encoded)
  then invalid "named-route context exceeds the context envelope limit" else Ok ().

(** The duplicate check of [NamedRouteBinding::validate]. *)
Fixpoint validate_profiles (profiles : list NamedProfileBinding)
    (identities : list (NamedProfileRole * NamedProfileKind)) : result RepositoryError () :=
  match profiles with
  | [] => Ok ()
  | profile :: profiles =>
      NamedProfileBinding_validate profile;;
      if bool_decide ((np_role profile, np_kind profile) ∈ identities)
      then invalid "named route contains duplicate profile roles"
      else validate_profiles profiles ((np_role profile, np_kind profile) :: identities)
  end.

Definition NamedRouteBinding_validate (self : NamedRouteBinding) : result RepositoryError () :=
  if negb (valid_route_id (nb_route_id self)) then invalid "invalid named route ID"
  else
    match nb_context self with
    | Some context => NamedRouteCallContext_validate context
    | None => Ok ()
    end;;
    match nb_required_sip_correlation_header self with
    | Some header =>
        let valid_header :=
          is_some (nb_context self)
          && (starts_with (str "X-") header || starts_with (str "x-") header)
          && (len header <=? 128)
          && forallb (λ byte, is_ascii_alphanumeric byte || contains "-_" byte) (bytes header) in
        if valid_header then Ok () else invalid "invalid required SIP correlation header"
    | None => Ok ()
    end;;
    validate_profiles (nb_profiles self) [].

Definition NamedRouteBinding_new_with_profiles (route_id : rstr)
    (context : option NamedRouteCallContext) (profiles : list NamedProfileBinding)
    : result RepositoryError NamedRouteBinding :=
  let binding :=
    {| nb_route_id := route_id; nb_context := context; nb_profiles := profiles;
       nb_required_sip_correlation_header := None |} in
  NamedRouteBinding_validate binding;;
  Ok binding.

Definition NamedRouteBinding_new (route_id : rstr) (context : option NamedRouteCallContext)
    : result RepositoryError NamedRouteBinding :=
  NamedRouteBinding_new_with_profiles route_id context [].

Definition with_required_sip_correlation_header (self : NamedRouteBinding) (header : rstr)
    : result RepositoryError NamedRouteBinding :=
  let self := self <| nb_required_sip_correlation_header := Some header |> in
  NamedRouteBinding_validate self;;
  Ok self.

Definition is_destination (profile : NamedProfileBinding) : bool :=
  np_role profile ==? NamedProfileRole.Destination.

Definition destination_profile_kind (endpoint : LegEndpointConfig)
    : result RepositoryError NamedProfileKind :=
  match endpoint with
  | LegEndpointConfig.Sip _ => Ok NamedProfileKind.Sip
  | LegEndpointConfig.WebRtc _ | LegEndpointConfig.Whip _ | LegEndpointConfig.Whep _ =>
      Ok NamedProfileKind.WebRtc
  | LegEndpointConfig.AmazonConnect _ => Ok NamedProfileKind.AmazonConnect
  | LegEndpointConfig.Provider provider =>
      if pc_provider provider ==? ProviderKind.Telnyx then Ok NamedProfileKind.Telnyx
      else invalid "replacement route provider is deferred"
  end.

Definition validate_replacement_destination (self : NamedRouteBinding) (route_id : rstr)
    (endpoint : LegEndpointConfig) : result RepositoryError () :=
  NamedRouteBinding_validate self;;
  if nb_route_id self !=? route_id
  then invalid "replacement route snapshot does not match the selected route ID"
  else if is_some (nb_context self) || is_some (nb_required_sip_correlation_header self)
  then invalid "replacement route snapshot must not carry new call context"
  else
    expected ← destination_profile_kind endpoint;
    match List.filter is_destination (nb_profiles self) with
    | [] => invalid "replacement route has no durable destination profile"
    | destination :: others =>
        if negb (is_empty others) || (np_kind destination !=? expected)
        then invalid "replacement route destination profile does not match its endpoint"
        else
          match endpoint with
          | LegEndpointConfig.Provider provider =>
              if np_profile_id destination !=? pc_account_profile provider
              then invalid "replacement provider route does not match its account profile"
              else Ok ()
          | _ => Ok ()
          end
    end.

(** ** Execution plans *)

#[local] Instance LegSemantics_eq : EqDecision LegSemantics.
Proof. solve_decision. Defined.

Definition plan_legs (self : CallExecutionPlan) : list LegExecutionSpec :=
  [(ep_legs self).1; (ep_legs self).2].

Definition LegSemanticsBinding_from_aggregate (aggregate : CallAggregate) : list LegSemanticsBinding :=
  (λ leg, {| lb_leg_id := leg_id leg; lb_signaling_initiator := signaling_initiator leg;
             lb_media_flow := leg_media_flow leg |}) <$> legs aggregate.

(** [self.legs.iter().find(|spec| spec.leg_id == leg_id)]. *)
Definition find_spec (self : CallExecutionPlan) (leg_id : LegId) : option LegExecutionSpec :=
  List.find (λ spec, ls_leg_id spec ==? leg_id) (plan_legs self).

Definition plan_leg_signaling_initiator (self : CallExecutionPlan) (leg_id : LegId)
    : result RepositoryError SignalingInitiator :=
  binding ← ok_or (List.find (λ binding, lb_leg_id binding ==? leg_id) (ep_leg_semantics self))
    (RepositoryError.InvalidInput "execution plan has no explicit signaling initiator for leg");
  Ok (lb_signaling_initiator binding).

Definition leg_capability (self : CallExecutionPlan) (leg : LegExecutionSpec)
    : result RepositoryError rstr :=
  initiator ← plan_leg_signaling_initiator self (ls_leg_id leg);
  required_worker_capability (ls_endpoint leg) initiator.

Definition required_worker_capabilities (self : CallExecutionPlan)
    : result RepositoryError (gset rstr) :=
  first ← leg_capability self (ep_legs self).1;
  second ← leg_capability self (ep_legs self).2;
  Ok {[first; second]}.

Definition amazon_connect_start_spec (self : CallExecutionPlan) (leg_id : LegId)
    : result RepositoryError AmazonConnectStartSpec :=
  if negb (ep_version self =? CALL_EXECUTION_PLAN_VERSION)%N
  then invalid "Amazon Connect start spec is unavailable in a legacy execution plan"
  else
    binding ← ok_or (List.find (λ binding, ab_leg_id binding ==? leg_id)
                       (ep_amazon_connect_starts self))
      (RepositoryError.InvalidInput "execution plan has no Amazon Connect start spec for leg");
    Ok (ab_spec binding).

Definition authorization_principal_fingerprint (self : CallExecutionPlan)
    : result RepositoryError PrincipalFingerprint :=
  ok_or (ep_authorization_principal_fingerprint self)
    (RepositoryError.InvalidInput "execution plan has no durable outbound authorization").

Definition sip_initial_context_mode (self : CallExecutionPlan) (leg_id : LegId)
    : result RepositoryError SipInitialContextMode :=
  if negb (ep_version self =? CALL_EXECUTION_PLAN_VERSION)%N
  then invalid "SIP initial-context policy is unavailable in a legacy execution plan"
  else
    ok_or
      (spec ← find_spec self leg_id;
       match ls_endpoint spec with
       | LegEndpointConfig.Sip config => Some (se_initial_context config)
       | _ => None
       end)
      (RepositoryError.InvalidInput "execution plan has no SIP initial-context policy for leg").

(** The accessor [Leg::semantics]. *)
Definition leg_semantics (leg : Leg) : LegSemantics :=
  {| sem_signaling_initiator := signaling_initiator leg; sem_media_flow := leg_media_flow leg |}.

Definition binding_semantics (self : LegSemanticsBinding) : LegSemantics :=
  {| sem_signaling_initiator := lb_signaling_initiator self;
     sem_media_flow := lb_media_flow self |}.

(** The loop over [leg_semantics]; [bound_legs] is the set of legs seen, returned at the end. *)
Fixpoint bind_semantics (aggregate : CallAggregate) (bindings : list LegSemanticsBinding)
    (bound_legs : list LegId) : result RepositoryError (list LegId) :=
  match bindings with
  | [] => Ok bound_legs
  | binding :: bindings =>
      if bool_decide (lb_leg_id binding ∈ bound_legs)
      then invalid "execution plan contains duplicate leg semantics"
      else
        leg ← ok_or (find_leg aggregate (lb_leg_id binding))
          (RepositoryError.InvalidInput "execution plan semantics leg does not belong to call");
        if binding_semantics binding !=? leg_semantics leg
        then invalid "execution plan semantics do not match aggregate leg"
        else bind_semantics aggregate bindings (lb_leg_id binding :: bound_legs)
  end.

Definition validate_leg_semantics (self : CallExecutionPlan) (aggregate : CallAggregate)
    : result RepositoryError () :=
  if is_empty (ep_leg_semantics self) then
    if existsb (λ leg,
         (signaling_initiator leg !=? initiator_legacy_default (leg_direction leg))
         || (leg_media_flow leg !=? MediaFlow.SendReceive)) (legs aggregate)
    then invalid "execution plan without semantics requires exact legacy defaults"
    else Ok ()
  else if negb (ep_version self =? CALL_EXECUTION_PLAN_VERSION)%N
          || negb (length (ep_leg_semantics self) =? 2)%nat
  then invalid "execution plan semantics do not match its version"
  else
    bound_legs ← bind_semantics aggregate (ep_leg_semantics self) [];
    if existsb (λ leg, negb (bool_decide (leg_id leg ∈ bound_legs))) (legs aggregate)
    then invalid "execution plan semantics do not cover both aggregate legs"
    else Ok ().

(** The loop over [amazon_connect_starts]. *)
Fixpoint bind_connect_starts (self : CallExecutionPlan) (aggregate : CallAggregate)
    (bindings : list AmazonConnectStartBinding) (bound_legs : list LegId)
    : result RepositoryError (list LegId) :=
  match bindings with
  | [] => Ok bound_legs
  | binding :: bindings =>
      if bool_decide (ab_leg_id binding ∈ bound_legs)
      then invalid "execution plan contains duplicate Amazon Connect start specs"
      else
        AmazonConnectStartSpec_validate (ab_spec binding);;
        leg ← ok_or (find_leg aggregate (ab_leg_id binding))
          (RepositoryError.InvalidInput "Amazon Connect start spec leg does not belong to call");
        if ((leg_binding_generation leg ==? BindingGeneration_INITIAL) && (leg_kind leg !=? LegKind.AmazonConnect))
           || (leg_direction leg !=? LegDirection.Outbound)
        then invalid "Amazon Connect start spec requires an outbound Amazon leg"
        else
          endpoint ← ok_or
            (spec ← find_spec self (ab_leg_id binding);
             match ls_endpoint spec with
             | LegEndpointConfig.AmazonConnect config => Some config
             | _ => None
             end)
            (RepositoryError.InvalidInput "Amazon Connect start spec has no matching endpoint");
          if (ae_instance_id endpoint !=? as_instance_id (ab_spec binding))
             || (ae_contact_flow_id endpoint !=? as_contact_flow_id (ab_spec binding))
          then invalid "Amazon Connect start target does not match endpoint"
          else bind_connect_starts self aggregate bindings (ab_leg_id binding :: bound_legs)
  end.

Definition is_amazon_endpoint (endpoint : LegEndpointConfig) : bool :=
  match endpoint with LegEndpointConfig.AmazonConnect _ => true | _ => false end.

Definition validate_amazon_connect_starts (self : CallExecutionPlan) (aggregate : CallAggregate)
    : result RepositoryError () :=
  if negb (ep_version self =? CALL_EXECUTION_PLAN_VERSION)%N then
    if is_empty (ep_amazon_connect_starts self) then Ok ()
    else invalid "legacy execution plan contains an Amazon Connect start spec"
  else
    bound_legs ← bind_connect_starts self aggregate (ep_amazon_connect_starts self) [];
    if existsb (λ spec, is_amazon_endpoint (ls_endpoint spec)
                        && negb (bool_decide (ls_leg_id spec ∈ bound_legs))) (plan_legs self)
    then invalid "current Amazon Connect leg requires a durable start spec"
    else Ok ().

(** The match on the version of [validate_against]. *)
Definition validate_plan_version (self : CallExecutionPlan) : result RepositoryError () :=
  let version := ep_version self in
  let authorized := is_some (ep_authorization_principal_fingerprint self) in
  let bare := is_empty (ep_amazon_connect_starts self) && is_empty (ep_leg_semantics self)
              && is_none (ep_named_route self) in
  if (version =? CALL_EXECUTION_PLAN_VERSION)%N && authorized then Ok ()
  else if (version =? AUTHORIZED_CALL_EXECUTION_PLAN_VERSION)%N && authorized && bare then Ok ()
  else if (version =? LEGACY_CALL_EXECUTION_PLAN_VERSION)%N && negb authorized && bare then Ok ()
  else if (version =? CALL_EXECUTION_PLAN_VERSION)%N
          || (version =? AUTHORIZED_CALL_EXECUTION_PLAN_VERSION)%N
          || (version =? LEGACY_CALL_EXECUTION_PLAN_VERSION)%N
  then invalid "execution plan authorization does not match its version"
  else invalid "unsupported call execution plan version".

(** One iteration of the loop over the legs of the plan. *)
Definition validate_leg_spec (aggregate : CallAggregate) (spec : LegExecutionSpec)
    : result RepositoryError () :=
  leg ← ok_or (find_leg aggregate (ls_leg_id spec))
    (RepositoryError.InvalidInput "execution plan leg does not belong to call");
  if (leg_binding_generation leg ==? BindingGeneration_INITIAL) && (leg_kind leg !=? endpoint_kind (ls_endpoint spec))
  then invalid "execution endpoint kind does not match aggregate leg"
  else LegEndpointConfig_validate (ls_endpoint spec) (leg_direction leg) (signaling_initiator leg).

Definition count_initiators (self : CallExecutionPlan) (initiator : SignalingInitiator) : nat :=
  length (List.filter (λ binding, lb_signaling_initiator binding ==? initiator)
            (ep_leg_semantics self)).

(** The checks of the named route and of the setup policy at the end of [validate_against]. *)
Definition validate_setup (self : CallExecutionPlan) : result RepositoryError () :=
  let current := (ep_version self =? CALL_EXECUTION_PLAN_VERSION)%N in
  match ep_named_route self with
  | Some named_route =>
      if negb current then invalid "legacy execution plan contains a named route"
      else NamedRouteBinding_validate named_route
  | None => Ok ()
  end;;
  if negb current && (ep_setup_policy self !=? SetupPolicy.Parallel)
  then invalid "legacy execution plan contains a non-legacy setup policy"
  else if (ep_setup_policy self ==? SetupPolicy.AttachThenDial) && is_none (ep_named_route self)
  then invalid "attach-then-dial requires a durable named route"
  else if (ep_setup_policy self ==? SetupPolicy.AttachThenDial)
          && (negb (count_initiators self SignalingInitiator.Remote =? 1)%nat
              || negb (count_initiators self SignalingInitiator.Bridgefu =? 1)%nat)
  then invalid "attach-then-dial requires one remote ingress and one Bridgefu destination"
  else Ok ().

Definition validate_against (self : CallExecutionPlan) (aggregate : CallAggregate)
    : result RepositoryError () :=
  validate_plan_version self;;
  if ls_leg_id (ep_legs self).1 ==? ls_leg_id (ep_legs self).2
  then invalid "execution plan contains a duplicate leg"
  else
    validate_leg_semantics self aggregate;;
    try_each (validate_leg_spec aggregate) (plan_legs self);;
    if existsb (λ leg, negb (existsb (λ spec, ls_leg_id spec ==? leg_id leg) (plan_legs self)))
         (legs aggregate)
    then invalid "execution plan does not cover both aggregate legs"
    else
      validate_amazon_connect_starts self aggregate;;
      validate_setup self.

Definition validate_for_create (self : CallExecutionPlan) (aggregate : CallAggregate)
    : result RepositoryError () :=
  validate_against self aggregate;;
  if negb (ep_version self =? CALL_EXECUTION_PLAN_VERSION)%N
  then invalid "new calls require the current execution plan version"
  else if negb (length (ep_leg_semantics self) =? 2)%nat
  then invalid "new calls require explicit signaling and media semantics"
  else Ok ().

(** [CallExecutionPlan::new], [::new_with_amazon_connect_starts] and [::new_with_named_route]; the
    map of starts is its list of entries in key order. *)
Definition plan_with (aggregate : CallAggregate) (legs : LegExecutionSpec * LegExecutionSpec)
    (fingerprint : PrincipalFingerprint) (starts : list (LegId * AmazonConnectStartSpec))
    (named_route : option NamedRouteBinding) (policy : SetupPolicy)
    : result RepositoryError CallExecutionPlan :=
  let plan :=
    {| ep_version := CALL_EXECUTION_PLAN_VERSION;
       ep_authorization_principal_fingerprint := Some fingerprint;
       ep_legs := legs;
       ep_amazon_connect_starts := (λ s, {| ab_leg_id := s.1; ab_spec := s.2 |}) <$> starts;
       ep_leg_semantics := LegSemanticsBinding_from_aggregate aggregate;
       ep_named_route := named_route;
       ep_setup_policy := policy |} in
  validate_for_create plan aggregate;;
  Ok plan.

Definition CallExecutionPlan_new (aggregate : CallAggregate)
    (legs : LegExecutionSpec * LegExecutionSpec) (fingerprint : PrincipalFingerprint)
    : result RepositoryError CallExecutionPlan :=
  plan_with aggregate legs fingerprint [] None SetupPolicy.Parallel.

Definition new_with_amazon_connect_starts (aggregate : CallAggregate)
    (legs : LegExecutionSpec * LegExecutionSpec) (fingerprint : PrincipalFingerprint)
    (starts : list (LegId * AmazonConnectStartSpec)) : result RepositoryError CallExecutionPlan :=
  plan_with aggregate legs fingerprint starts None SetupPolicy.Parallel.

Definition new_with_named_route (aggregate : CallAggregate)
    (legs : LegExecutionSpec * LegExecutionSpec) (fingerprint : PrincipalFingerprint)
    (starts : list (LegId * AmazonConnectStartSpec)) (named_route : NamedRouteBinding)
    : result RepositoryError CallExecutionPlan :=
  plan_with aggregate legs fingerprint starts (Some named_route) SetupPolicy.AttachThenDial.

Record CallMediaBridgePlan := { mb_left_to_right : bool; mb_right_to_left : bool }.

Definition media_bridge_plan (self : CallExecutionPlan) (aggregate : CallAggregate)
    (left_leg_id right_leg_id : LegId) : result RepositoryError CallMediaBridgePlan :=
  validate_against self aggregate;;
  if left_leg_id ==? right_leg_id then invalid "media bridge requires two distinct legs"
  else
    left ← ok_or (find_leg aggregate left_leg_id)
      (RepositoryError.InvalidInput "media bridge left leg does not belong to call");
    right ← ok_or (find_leg aggregate right_leg_id)
      (RepositoryError.InvalidInput "media bridge right leg does not belong to call");
    let left_flow := leg_media_flow left in
    let right_flow := leg_media_flow right in
    let left_to_right := source_enabled left_flow && sink_enabled right_flow in
    let right_to_left := source_enabled right_flow && sink_enabled left_flow in
    if (source_enabled left_flow !=? sink_enabled right_flow)
       || (source_enabled right_flow !=? sink_enabled left_flow)
    then invalid "media bridge has an unmatched source or sink"
    else if negb left_to_right && negb right_to_left
    then invalid "media bridge has no enabled direction"
    else Ok {| mb_left_to_right := left_to_right; mb_right_to_left := right_to_left |}.

(** The target of [CallExecutionPlan::sip_originate_context]. *)
Definition sip_originate_target (self : CallExecutionPlan) (leg_id : LegId)
    : result RepositoryError rstr :=
  if negb (ep_version self =? CALL_EXECUTION_PLAN_VERSION)%N
  then invalid "SIP originate context is unavailable in a legacy execution plan"
  else
    authorization_principal_fingerprint self;;
    target ← ok_or
      (spec ← find_spec self leg_id;
       match ls_endpoint spec with
       | LegEndpointConfig.Sip config => se_uri config
       | _ => None
       end)
      (RepositoryError.InvalidInput "execution plan has no outbound SIP endpoint for leg");
    validate_uri target SIP_SCHEMES;;
    Ok target.

(** ** Payloads, controls and references *)

Definition TransferTarget_validate (self : TransferTarget) : result RepositoryError () :=
  match self with
  | TransferTarget.Sip uri => validate_uri uri SIP_SCHEMES
  | TransferTarget.WebRtc uri => validate_uri uri [str "http"; str "https"; str "ws"; str "wss"]
  | TransferTarget.AmazonConnect instance_id contact_flow_id =>
      validate_connect_resource instance_id "invalid Amazon Connect instance ID";;
      validate_connect_resource contact_flow_id "invalid Amazon Connect contact-flow ID"
  | TransferTarget.Provider _ account_profile destination =>
      validate_identifier account_profile "invalid provider account profile";;
      validate_bounded_value destination MAX_ENDPOINT_BYTES "invalid provider destination"
  end.

(** The start authority of an Amazon Connect replacement. *)
Definition validate_replacement_start (endpoint : LegEndpointConfig)
    (start : option AmazonConnectStartSpec) : result RepositoryError () :=
  match endpoint, start with
  | LegEndpointConfig.AmazonConnect endpoint, Some start =>
      if (ae_instance_id endpoint ==? as_instance_id start)
         && (ae_contact_flow_id endpoint ==? as_contact_flow_id start)
      then Ok ()
      else invalid "replacement Amazon endpoint requires matching start authority"
  | LegEndpointConfig.AmazonConnect _, None =>
      invalid "replacement Amazon endpoint requires matching start authority"
  | _, None => Ok ()
  | _, Some _ => invalid "replacement Amazon start authority requires an Amazon endpoint"
  end.

Definition ServiceEffectPayload_validate (self : ServiceEffectPayload) : result RepositoryError () :=
  match self with
  | ServiceEffectPayload.Transfer _ _ target => TransferTarget_validate target
  | ServiceEffectPayload.LegReplacement r =>
      validate_identifier (lp_route_id r) "invalid replacement route ID";;
      LegEndpointConfig_validate (lp_endpoint r) LegDirection.Outbound SignalingInitiator.Bridgefu;;
      replacement_route ← ok_or (lp_replacement_route r)
        (RepositoryError.InvalidInput "replacement route snapshot is unavailable");
      validate_replacement_destination replacement_route (lp_route_id r) (lp_endpoint r);;
      match lp_endpoint r, lp_amazon_connect_start r with
      | LegEndpointConfig.AmazonConnect _, Some start =>
          profile ← ok_or (List.find is_destination (nb_profiles replacement_route))
            (RepositoryError.InvalidInput "replacement Amazon route has no destination profile");
          if np_profile_id profile !=? as_profile start
          then invalid "replacement Amazon route does not match its start profile"
          else Ok ()
      | _, _ => Ok ()
      end;;
      validate_replacement_start (lp_endpoint r) (lp_amazon_connect_start r)
  end.

Definition is_dtmf_digit (value : Z) : bool :=
  between 48 57 value || (value =? 42) || (value =? 35) || between 65 68 value.

Definition DtmfSequence_validate (self : DtmfSequence) : result RepositoryError () :=
  if is_empty (dt_digits self) || (MAX_DTMF_DIGITS <? len (dt_digits self))
     || negb (forallb is_dtmf_digit (bytes (dt_digits self)))
  then invalid "invalid DTMF digits"
  else if negb ((40 <=? dt_duration_ms self)%N && (dt_duration_ms self <=? 6000)%N)
          || (6000 <? dt_gap_ms self)%N
  then invalid "invalid DTMF timing"
  else Ok ().

Definition ControlIntent_validate (self : ControlIntent) : result RepositoryError () :=
  match self with Dtmf sequence => DtmfSequence_validate sequence end.

Definition ExternalReferenceValue_validate (self : ExternalReferenceValue)
    : result RepositoryError () :=
  match self with
  | ExternalReferenceValue.ProviderCall _ _ => Ok ()
  | ExternalReferenceValue.Signaling namespace value =>
      validate_identifier namespace "invalid external reference namespace";;
      validate_bounded_value value MAX_ENDPOINT_BYTES "invalid external reference value"
  end.

End Plans.
