(* ===== verification/RepoMemory.v ===== *)
(** The standalone call repository ([src/persistence/memory.rs]): the rows of [MemoryState], the
    helpers the methods of the [CallRepository] implementation share, and the methods themselves.

    A transaction runs on a draft of the state that is committed only when it succeeds, so a
    transaction body is a function of the state that returns the next state or an error.  A hash
    map is a [gmap].  The methods sort what they collect from one by keys that identify a row, or
    change the collected rows independently of each other, so the order in which a map is visited
    is immaterial.  The random identifiers a method draws ([EffectId::new]) are an argument: the
    [i]-th drawn one is [new_id i]. *)

From S2P Require Import Prelude RustText DomainTypes CoordModel Domain RepoTypes ServiceTypes.
From stdpp Require Import options.

(** ** State *)

Definition BindingKey : Type := CallId * LegId * BindingGeneration.
Definition PrincipalBindingKey : Type := PrincipalFingerprint * BindingKey.
Definition DeadlineKey : Type := CallId * DeadlineKind * DeadlineGeneration.
Definition ProviderEventKey : Type := ProviderAccountKey * ProviderEventDigest.
Definition ProviderReferenceKey : Type := ProviderAccountKey * ProviderCallId.
Definition IdempotencyKey : Type := TenantId * IdempotencyKeyDigest.

Record IdempotencyRow := {
  ir_request_digest : RequestDigest;
  ir_call_id : CallId;
  ir_expires_at : DateTime;
  ir_receipt : OperationIdempotencyReceipt;
}.

Record AttachmentRow := {
  ax_attachment_id : AttachmentId;
  ax_token_digest : AttachmentTokenDigest;
  ax_purpose : AttachmentPurpose;
  ax_tenant_id : TenantId;
  ax_call_id : CallId;
  ax_leg_id : LegId;
  ax_binding_generation : BindingGeneration;
  ax_transport : AttachmentTransport;
  ax_expected_principal : PrincipalFingerprint;
  ax_worker : WorkerLease;
  ax_expires_at : DateTime;
  ax_consumed_at : option DateTime;
  ax_revoked_at : option DateTime;
  ax_binding : option ConnectionBinding;
}.
#[export] Instance AttachmentRow_eta : Eta AttachmentRow := λ r,
  {| ax_attachment_id := ax_attachment_id r; ax_token_digest := ax_token_digest r;
     ax_purpose := ax_purpose r; ax_tenant_id := ax_tenant_id r; ax_call_id := ax_call_id r;
     ax_leg_id := ax_leg_id r; ax_binding_generation := ax_binding_generation r;
     ax_transport := ax_transport r; ax_expected_principal := ax_expected_principal r;
     ax_worker := ax_worker r; ax_expires_at := ax_expires_at r;
     ax_consumed_at := ax_consumed_at r; ax_revoked_at := ax_revoked_at r;
     ax_binding := ax_binding r |}.

Record ProviderReferenceRow := {
  pr_target : ProviderEventTarget;
  pr_bound_at : DateTime;
}.

Module ProviderCompletionRow.
Inductive ProviderCompletionRow :=
| Command (request : ProviderEventCommit) (view : CommandCommitView)
| TerminalAcknowledgement (request : TerminalProviderEventAcknowledge)
| ServiceReconciliation (request : ProviderEventReconciliationTransaction)
    (view : ProviderEventReconciliationView).
End ProviderCompletionRow.
Abbreviation ProviderCompletionRow := ProviderCompletionRow.ProviderCompletionRow.

Module RetiredOperationReceiptKind.
Inductive RetiredOperationReceiptKind := ServiceCommand | ControlCommand.
End RetiredOperationReceiptKind.
Abbreviation RetiredOperationReceiptKind :=
  RetiredOperationReceiptKind.RetiredOperationReceiptKind.

Record RetiredOperationClaim := {
  ro_tenant_id : TenantId;
  ro_key_digest : IdempotencyKeyDigest;
  ro_request_digest : RequestDigest;
  ro_call_id : CallId;
  ro_command_id : CommandId;
  ro_operation : ServiceOperationKind;
  ro_receipt_kind : RetiredOperationReceiptKind;
  ro_expires_at : DateTime;
  ro_retired_at : DateTime;
}.

Record ControlRetirementReceipt := {
  cq_effect_id : EffectId;
  cq_command_id : CommandId;
  cq_tenant_id : TenantId;
  cq_call_id : CallId;
  cq_leg_id : LegId;
  cq_binding_generation : BindingGeneration;
  cq_retired_at : DateTime;
  cq_failure : FailureDetails;
}.

Module ExternalReferenceKey.
Inductive ExternalReferenceKey :=
| Provider (account : ProviderAccountKey) (provider_call_id : ProviderCallId)
| Signaling (namespace value : rstr).
End ExternalReferenceKey.
Abbreviation ExternalReferenceKey := ExternalReferenceKey.ExternalReferenceKey.
#[export] Instance ExternalReferenceKey_eq : EqDecision ExternalReferenceKey.
Proof. solve_decision. Defined.
#[export] Instance ExternalReferenceKey_countable : Countable ExternalReferenceKey.
Proof.
  refine (inj_countable'
    (λ k, match k with
          | ExternalReferenceKey.Provider a c => inl (a, c)
          | ExternalReferenceKey.Signaling n v => inr (n, v)
          end)
    (λ c, match c with
          | inl p => ExternalReferenceKey.Provider p.1 p.2
          | inr p => ExternalReferenceKey.Signaling p.1 p.2
          end) _).
  by intros [].
Defined.

#[export] Instance ProviderReferenceRole_countable : Countable ProviderReferenceRole.
Proof.
  refine (inj_countable' (λ r, bool_decide (r = ProviderReferenceRole.Media))
    (λ b, if b : bool then ProviderReferenceRole.Media else ProviderReferenceRole.Destination) _).
  by intros [].
Defined.

Definition ExternalReferenceBindingKey : Type := CallId * LegId * BindingGeneration * ProviderReferenceRole.
Definition InitialContextKey : Type := CallId * LegId * BindingGeneration.

Record MemoryState := {
  rm_authority_time : option DateTime;
  rm_workers : gmap WorkerId WorkerSnapshot;
  rm_calls : gmap CallId StoredCall;
  rm_leg_owners : gmap LegId CallId;
  rm_commands : gmap CommandId StoredCommand;
  rm_command_results : gmap CommandId CommandCommitView;
  rm_idempotency : gmap IdempotencyKey IdempotencyRow;
  rm_attachments : gmap AttachmentTokenDigest AttachmentRow;
  rm_attachment_ids : gmap AttachmentId AttachmentTokenDigest;
  rm_active_attachments : gmap BindingKey AttachmentTokenDigest;
  rm_connection_owners : gmap ConnectionId BindingKey;
  rm_used_connection_ids : gset ConnectionId;
  rm_principal_bindings : gmap PrincipalBindingKey ConnectionId;
  rm_provider_events : gmap ProviderEventKey ProviderEventEnvelope;
  rm_provider_references : gmap ProviderReferenceKey ProviderReferenceRow;
  rm_provider_completions : gmap ProviderEventKey ProviderCompletionRow;
  rm_provider_receipt_sequence : option ProviderReceiptSequence;
  rm_outbox : gmap EffectId OutboxRecord;
  rm_deadlines : gmap DeadlineKey DeadlineRecord;
  rm_service_managed_calls : gset CallId;
  rm_execution_plans : gmap CallId CallExecutionPlan;
  rm_service_command_results : gmap CommandId StoredServiceCommandResult;
  rm_control_commands : gmap CommandId StoredControlCommand;
  rm_control_command_results : gmap CommandId StoredControlCommandResult;
  rm_control_outbox : gmap EffectId ControlOutboxRecord;
  rm_outbound_binding_results : gmap CommandId StoredOutboundBindingResult;
  rm_retired_operation_claims : gmap CommandId RetiredOperationClaim;
  rm_control_retirements : gmap EffectId ControlRetirementReceipt;
  rm_service_effect_payloads : gmap EffectId StoredServiceEffectPayload;
  rm_media_activity_generations : gmap BindingKey MediaActivityGeneration;
  rm_control_sequences : gmap BindingKey ControlSequence;
  rm_initial_contexts : gmap InitialContextKey StoredInitialContext;
  rm_initial_context_message_ids : gmap (CallId * MessageId) InitialContextKey;
  rm_external_references : gmap ExternalReferenceKey StoredExternalReference;
  rm_external_reference_bindings : gmap ExternalReferenceBindingKey ExternalReferenceKey;
  rm_reconciliation_results : gmap EffectId StoredReconciliationResult;
}.
#[export] Instance MemoryState_eta : Eta MemoryState := λ r,
  {| rm_authority_time := rm_authority_time r; rm_workers := rm_workers r;
     rm_calls := rm_calls r; rm_leg_owners := rm_leg_owners r; rm_commands := rm_commands r;
     rm_command_results := rm_command_results r; rm_idempotency := rm_idempotency r;
     rm_attachments := rm_attachments r; rm_attachment_ids := rm_attachment_ids r;
     rm_active_attachments := rm_active_attachments r;
     rm_connection_owners := rm_connection_owners r;
     rm_used_connection_ids := rm_used_connection_ids r;
     rm_principal_bindings := rm_principal_bindings r;
     rm_provider_events := rm_provider_events r;
     rm_provider_references := rm_provider_references r;
     rm_provider_completions := rm_provider_completions r;
     rm_provider_receipt_sequence := rm_provider_receipt_sequence r;
     rm_outbox := rm_outbox r; rm_deadlines := rm_deadlines r;
     rm_service_managed_calls := rm_service_managed_calls r;
     rm_execution_plans := rm_execution_plans r;
     rm_service_command_results := rm_service_command_results r;
     rm_control_commands := rm_control_commands r;
     rm_control_command_results := rm_control_command_results r;
     rm_control_outbox := rm_control_outbox r;
     rm_outbound_binding_results := rm_outbound_binding_results r;
     rm_retired_operation_claims := rm_retired_operation_claims r;
     rm_control_retirements := rm_control_retirements r;
     rm_service_effect_payloads := rm_service_effect_payloads r;
     rm_media_activity_generations := rm_media_activity_generations r;
     rm_control_sequences := rm_control_sequences r;
     rm_initial_contexts := rm_initial_contexts r;
     rm_initial_context_message_ids := rm_initial_context_message_ids r;
     rm_external_references := rm_external_references r;
     rm_external_reference_bindings := rm_external_reference_bindings r;
     rm_reconciliation_results := rm_reconciliation_results r |}.

Definition MemoryState_default : MemoryState :=
  {| rm_authority_time := None; rm_workers := ∅; rm_calls := ∅; rm_leg_owners := ∅;
     rm_commands := ∅; rm_command_results := ∅; rm_idempotency := ∅; rm_attachments := ∅;
     rm_attachment_ids := ∅; rm_active_attachments := ∅; rm_connection_owners := ∅;
     rm_used_connection_ids := ∅; rm_principal_bindings := ∅; rm_provider_events := ∅;
     rm_provider_references := ∅; rm_provider_completions := ∅;
     rm_provider_receipt_sequence := None; rm_outbox := ∅; rm_deadlines := ∅;
     rm_service_managed_calls := ∅; rm_execution_plans := ∅; rm_service_command_results := ∅;
     rm_control_commands := ∅; rm_control_command_results := ∅; rm_control_outbox := ∅;
     rm_outbound_binding_results := ∅; rm_retired_operation_claims := ∅;
     rm_control_retirements := ∅; rm_service_effect_payloads := ∅;
     rm_media_activity_generations := ∅; rm_control_sequences := ∅; rm_initial_contexts := ∅;
     rm_initial_context_message_ids := ∅; rm_external_references := ∅;
     rm_external_reference_bindings := ∅; rm_reconciliation_results := ∅ |}.

(** [mr_poisoned]: a thread panicked while it held the mutex. *)
Record MemoryRepository := { mr_state : MemoryState; mr_poisoned : bool }.
#[export] Instance MemoryRepository_eta : Eta MemoryRepository := λ r,
  {| mr_state := mr_state r; mr_poisoned := mr_poisoned r |}.

Definition MemoryRepository_default : MemoryRepository :=
  {| mr_state := MemoryState_default; mr_poisoned := false |}.

(** The body of a transaction. *)
Abbreviation Tx A := (MemoryState → result RepositoryError (A * MemoryState)).

(** [MemoryRepository::lock], [::read] and [::transaction]. *)
Definition lock (self : MemoryRepository) : result RepositoryError MemoryState :=
  if mr_poisoned self then Err RepositoryError.Unavailable else Ok (mr_state self).

Definition read {T} (self : MemoryRepository) (operation : MemoryState → result RepositoryError T)
    : result RepositoryError T :=
  state ← lock self;
  operation state.

Definition transaction {T} (self : MemoryRepository) (operation : Tx T)
    : MemoryRepository * result RepositoryError T :=
  match lock self with
  | Err e => (self, Err e)
  | Ok state =>
      match operation state with
      | Err e => (self, Err e)
      | Ok (value, draft) => (self <| mr_state := draft |>, Ok value)
      end
  end.

(** ** Worker and call guards *)

Definition authoritative_time (state : MemoryState) (requested : DateTime) : DateTime :=
  default requested (rm_authority_time state).

(** [state.workers.get(&lease.worker_id).filter(|worker| worker.lease == lease)]. *)
Definition leased_worker (state : MemoryState) (lease : WorkerLease) : option WorkerSnapshot :=
  worker ← rm_workers state !! wl_worker_id lease;
  if wk_lease worker ==? lease then Some worker else None.

Definition ensure_worker (state : MemoryState) (lease : WorkerLease) (allow_draining : bool)
    (at_ : DateTime) : result RepositoryError () :=
  worker ← ok_or (leased_worker state lease) RepositoryError.StaleWorkerFence;
  let at_ := authoritative_time state at_ in
  if (wk_lease_expires_at worker <=? at_) || (wk_draining worker && negb allow_draining)
  then Err RepositoryError.StaleWorkerFence
  else Ok ().

Definition ensure_worker_capabilities (state : MemoryState) (lease : WorkerLease)
    (required_capabilities : gset rstr) (at_ : DateTime) : result RepositoryError () :=
  ensure_worker state lease false at_;;
  worker ← ok_or (leased_worker state lease) RepositoryError.StaleWorkerFence;
  if bool_decide (required_capabilities ⊆ wk_capabilities worker) then Ok ()
  else Err RepositoryError.WorkerCapabilityUnavailable.

Definition tenant_call (state : MemoryState) (tenant_id : TenantId) (call_id : CallId)
    : result RepositoryError StoredCall :=
  ok_or
    (call ← rm_calls state !! call_id;
     if ca_tenant_id (sc_aggregate call) ==? tenant_id then Some call else None)
    RepositoryError.NotFound.

Definition ensure_call_worker (state : MemoryState) (tenant_id : TenantId) (call_id : CallId)
    (worker : WorkerLease) (at_ : DateTime) : result RepositoryError () :=
  ensure_worker state worker true at_;;
  call ← tenant_call state tenant_id call_id;
  if is_some (wa_released_at (sc_assignment call)) || (wa_lease (sc_assignment call) !=? worker)
  then Err RepositoryError.StaleWorkerFence
  else Ok ().

Definition reject_service_managed_call (state : MemoryState) (tenant_id : TenantId)
    (call_id : CallId) (worker : WorkerLease) (at_ : DateTime) : result RepositoryError () :=
  if bool_decide (call_id ∈ rm_service_managed_calls state) then
    ensure_call_worker state tenant_id call_id worker at_;;
    Err (RepositoryError.InvalidInput
           "service-managed call requires service repository transaction")
  else Ok ().

Definition ensure_terminal_call_worker (state : MemoryState) (target : ProviderEventTarget)
    (worker : WorkerLease) (at_ : DateTime) : result RepositoryError () :=
  ensure_worker state worker true at_;;
  call ← tenant_call state (pt_tenant_id target) (pt_call_id target);
  if wa_lease (sc_assignment call) !=? worker then Err RepositoryError.StaleWorkerFence
  else if is_none (wa_released_at (sc_assignment call))
          || negb (call_is_terminal (ca_state (sc_aggregate call)))
  then Err (RepositoryError.InvalidInput
              "terminal provider acknowledgement requires a released terminal call")
  else if is_none (find_leg (sc_aggregate call) (pt_leg_id target))
  then Err RepositoryError.ProviderReferenceConflict
  else Ok ().

(** ** Unfinished work *)

Definition state_is_unfinished (state : OutboxState) : bool :=
  match state with OutboxState.Ready | OutboxState.Claimed _ _ _ _ => true | _ => false end.

Definition outbox_is_unfinished (record : OutboxRecord) : bool :=
  state_is_unfinished (ob_state record).

Definition control_outbox_is_unfinished (record : ControlOutboxRecord) : bool :=
  state_is_unfinished (cx_state record).

Definition has_unfinished_outbox (state : MemoryState) (call_id : CallId) : bool :=
  existsb (λ record, (ob_call_id record ==? call_id) && outbox_is_unfinished record)
    (values (rm_outbox state)).

Definition has_unfinished_control_outbox (state : MemoryState) (call_id : CallId) : bool :=
  existsb (λ record, (cx_call_id record ==? call_id) && control_outbox_is_unfinished record)
    (values (rm_control_outbox state)).

Definition ready_or_claimed (state : ProviderEventState) : bool :=
  match state with
  | ProviderEventState.Ready | ProviderEventState.Claimed _ _ _ _ => true
  | _ => false
  end.

Definition has_unfinished_provider_events (state : MemoryState) (call_id : CallId) : bool :=
  existsb (λ event,
    is_some_and (λ target, pt_call_id target ==? call_id) (pe_target event)
    && ready_or_claimed (pe_state event)) (values (rm_provider_events state)).

Definition assignment_requires_catalog_continuity (state : MemoryState) (call : StoredCall)
    : bool :=
  is_none (wa_released_at (sc_assignment call))
  || (call_is_terminal (ca_state (sc_aggregate call))
      && (has_unfinished_outbox state (ca_id (sc_aggregate call))
          || has_unfinished_control_outbox state (ca_id (sc_aggregate call))
          || has_unfinished_provider_events state (ca_id (sc_aggregate call)))).

(** ** Worker registration *)

Section Workers.
Context `{Chrono}.

(** [self.transaction(|state| …)] of [register_worker]. *)
Definition register_worker_in_state (request : RegisterWorker)
    (requested_route_catalog : option RouteCatalogFingerprint) : Tx WorkerSnapshot := λ state,
  let at_ := authoritative_time state (rw_at request) in
  lease_expires_at ← worker_lease_expiry at_ (rw_lease_ttl request);
  snapshot ←
    match rm_workers state !! rw_worker_id request with
    | Some existing =>
        if (rw_max_calls request <? wk_reserved_calls existing)%N
        then Err (RepositoryError.InvalidInput "worker capacity is below existing reservations")
        else if existsb (λ call,
                  (wl_worker_id (wa_lease (sc_assignment call)) ==? rw_worker_id request)
                  && (wa_route_catalog_fingerprint (sc_assignment call)
                      !=? requested_route_catalog)
                  && assignment_requires_catalog_continuity state call)
                (values (rm_calls state))
        then Err (RepositoryError.InvalidInput
                    "worker route catalog change requires draining existing assignments")
        else
          fence ← WorkerFence_next (wl_fence (wk_lease existing));
          Ok {| wk_lease := {| wl_worker_id := rw_worker_id request; wl_fence := fence |};
                wk_max_calls := rw_max_calls request;
                wk_reserved_calls := wk_reserved_calls existing;
                wk_draining := false;
                wk_capabilities := rw_capabilities request;
                wk_updated_at := at_;
                wk_lease_expires_at := lease_expires_at |}
    | None =>
        Ok {| wk_lease := {| wl_worker_id := rw_worker_id request;
                             wl_fence := WorkerFence_INITIAL |};
              wk_max_calls := rw_max_calls request;
              wk_reserved_calls := 0%N;
              wk_draining := false;
              wk_capabilities := rw_capabilities request;
              wk_updated_at := at_;
              wk_lease_expires_at := lease_expires_at |}
    end;
  Ok (snapshot, state <| rm_workers := <[rw_worker_id request := snapshot]> (rm_workers state) |>).

Definition register_worker (self : MemoryRepository) (request : RegisterWorker)
    : MemoryRepository * result RepositoryError WorkerSnapshot :=
  match validate_register_worker request;; from_capabilities (rw_capabilities request) with
  | Err e => (self, Err e)
  | Ok requested_route_catalog =>
      transaction self (register_worker_in_state request requested_route_catalog)
  end.

(** A write through [state.workers.get_mut(..)]. *)
Definition put_worker (state : MemoryState) (id : WorkerId) (snapshot : WorkerSnapshot)
    : MemoryState := state <| rm_workers := <[id := snapshot]> (rm_workers state) |>.

Definition activate_worker_capabilities_in_state (request : ActivateWorkerCapabilities)
    : Tx WorkerSnapshot := λ state,
  let at_ := authoritative_time state (aw_at request) in
  snapshot ← ok_or (leased_worker state (aw_worker request)) RepositoryError.StaleWorkerFence;
  if (wk_lease_expires_at snapshot <=? at_) || wk_draining snapshot
  then Err RepositoryError.StaleWorkerFence
  else if wk_capabilities snapshot ==? aw_capabilities request then Ok (snapshot, state)
  else if negb (bool_decide (wk_capabilities snapshot = ∅))
  then Err (RepositoryError.InvalidInput "worker capabilities are already activated")
  else
    let snapshot :=
      snapshot <| wk_capabilities := aw_capabilities request |> <| wk_updated_at := at_ |> in
    Ok (snapshot, put_worker state (wl_worker_id (aw_worker request)) snapshot).

Definition activate_worker_capabilities (self : MemoryRepository)
    (request : ActivateWorkerCapabilities)
    : MemoryRepository * result RepositoryError WorkerSnapshot :=
  match
    validate_worker_capabilities (aw_capabilities request);;
    reject_if (bool_decide (aw_capabilities request = ∅))
      (RepositoryError.InvalidInput "activated worker capabilities must not be empty")
  with
  | Err e => (self, Err e)
  | Ok _ => transaction self (activate_worker_capabilities_in_state request)
  end.

Definition renew_worker_lease_in_state (request : RenewWorkerLease) : Tx WorkerSnapshot := λ state,
  let at_ := authoritative_time state (nw_at request) in
  snapshot ← ok_or (leased_worker state (nw_worker request)) RepositoryError.StaleWorkerFence;
  if wk_lease_expires_at snapshot <=? at_ then Err RepositoryError.StaleWorkerFence
  else
    lease_expires_at ← worker_lease_expiry at_ (nw_lease_ttl request);
    if lease_expires_at <=? wk_lease_expires_at snapshot then Ok (snapshot, state)
    else
      let snapshot :=
        snapshot <| wk_updated_at := at_ |> <| wk_lease_expires_at := lease_expires_at |> in
      Ok (snapshot, put_worker state (wl_worker_id (nw_worker request)) snapshot).

Definition renew_worker_lease (self : MemoryRepository) (request : RenewWorkerLease)
    : MemoryRepository * result RepositoryError WorkerSnapshot :=
  match validate_worker_lease_ttl (nw_lease_ttl request) with
  | Err e => (self, Err e)
  | Ok _ => transaction self (renew_worker_lease_in_state request)
  end.

Definition set_worker_draining_in_state (worker : WorkerLease) (draining : bool) (at_ : DateTime)
    : Tx WorkerSnapshot := λ state,
  let at_ := authoritative_time state at_ in
  snapshot ← ok_or (leased_worker state worker) RepositoryError.StaleWorkerFence;
  if wk_lease_expires_at snapshot <=? at_ then Err RepositoryError.StaleWorkerFence
  else if wk_draining snapshot && negb draining then Err RepositoryError.StaleWorkerFence
  else
    let snapshot :=
      snapshot <| wk_draining := wk_draining snapshot || draining |> <| wk_updated_at := at_ |> in
    Ok (snapshot, put_worker state (wl_worker_id worker) snapshot).

Definition set_worker_draining (self : MemoryRepository) (worker : WorkerLease) (draining : bool)
    (at_ : DateTime) : MemoryRepository * result RepositoryError WorkerSnapshot :=
  transaction self (set_worker_draining_in_state worker draining at_).

Definition worker_snapshot (self : MemoryRepository) (worker_id : WorkerId)
    : result RepositoryError WorkerSnapshot :=
  read self (λ state, ok_or (rm_workers state !! worker_id) RepositoryError.NotFound).

Definition active_worker_snapshot (self : MemoryRepository) (worker : WorkerLease)
    (at_ : DateTime) : result RepositoryError WorkerSnapshot :=
  read self (λ state,
    let at_ := authoritative_time state at_ in
    ok_or
      (snapshot ← rm_workers state !! wl_worker_id worker;
       if (wk_lease snapshot ==? worker) && negb (wk_draining snapshot)
          && (at_ <? wk_lease_expires_at snapshot)
       then Some snapshot else None)
      RepositoryError.StaleWorkerFence).

(** The comparator of [worker_candidates].  The text of a UUID is its 32 hexadecimal digits in
    groups of fixed length, so it orders like its value. *)
Definition compare_candidates (l r : WorkerSnapshot) : comparison :=
  then_ (then_ (u128_mul (wk_reserved_calls l) (wk_max_calls r)
                ?= u128_mul (wk_reserved_calls r) (wk_max_calls l))%N
    (wk_reserved_calls l ?= wk_reserved_calls r)%N)
    (wl_worker_id (wk_lease l) ?= wl_worker_id (wk_lease r)).

Definition is_candidate (required_capabilities : gset rstr) (at_ : DateTime)
    (worker : WorkerSnapshot) : bool :=
  negb (wk_draining worker) && (at_ <? wk_lease_expires_at worker)
  && (wk_reserved_calls worker <? wk_max_calls worker)%N
  && bool_decide (required_capabilities ⊆ wk_capabilities worker).

Definition worker_candidates (self : MemoryRepository) (required_capabilities : gset rstr)
    (at_ : DateTime) (limit : N) : result RepositoryError (list WorkerSnapshot) :=
  validate_worker_candidate_limit limit;;
  if (limit =? 0)%N then Ok []
  else
    read self (λ state,
      let at_ := authoritative_time state at_ in
      let candidates :=
        List.filter (is_candidate required_capabilities at_) (values (rm_workers state)) in
      Ok (take (N.to_nat limit) (sort_by compare_candidates candidates))).
End Workers.

(** ** Idempotency receipts *)

(** [MemoryRepository::control_effect_identity_matches]. *)
Definition control_effect_identity_matches (current original : ControlOutboxRecord) : bool :=
  (cx_effect_id current ==? cx_effect_id original)
  && (cx_command_id current ==? cx_command_id original)
  && (cx_tenant_id current ==? cx_tenant_id original)
  && (cx_call_id current ==? cx_call_id original)
  && (cx_leg_id current ==? cx_leg_id original)
  && (cx_binding_generation current ==? cx_binding_generation original)
  && (cx_sequence current ==? cx_sequence original)
  && (cx_intent current ==? cx_intent original)
  && (cx_available_at current ==? cx_available_at original).

(** The test shared by the two operation receipts: the retained claim is the one of the row. *)
Definition claim_crosslinks (key_digest : IdempotencyKeyDigest) (row : IdempotencyRow)
    (operation : ServiceOperationKind) (claim : OperationIdempotency) : bool :=
  (oi_key_digest claim ==? key_digest) && (oi_request_digest claim ==? ir_request_digest row)
  && (oi_operation claim ==? operation).

(** [MemoryRepository::idempotency_receipt_crosslinks]. *)
Definition idempotency_receipt_crosslinks (state : MemoryState) (tenant_id : TenantId)
    (key_digest : IdempotencyKeyDigest) (row : IdempotencyRow) : bool :=
  match ir_receipt row with
  | OperationIdempotencyReceipt.CreateCall => true
  | OperationIdempotencyReceipt.ServiceCommand operation view =>
      is_some_and (λ stored,
        (sr_view stored ==? view)
        && is_some_and (λ claim,
             claim_crosslinks key_digest row operation claim
             && (ct_tenant_id (st_command (sr_request stored)) ==? tenant_id)
             && (ct_call_id (st_command (sr_request stored)) ==? ir_call_id row))
             (st_operation_idempotency (sr_request stored)))
        (rm_service_command_results state !! sm_command_id (cv_command (sv_command view)))
  | OperationIdempotencyReceipt.ControlCommand operation view =>
      is_some_and (λ stored,
        (nr_view stored ==? view)
        && is_some_and (λ claim,
             claim_crosslinks key_digest row operation claim
             && (nt_tenant_id (nr_request stored) ==? tenant_id)
             && (nt_call_id (nr_request stored) ==? ir_call_id row))
             (nt_operation_idempotency (nr_request stored))
        && is_some_and (λ current, control_effect_identity_matches current (nv_effect view))
             (rm_control_outbox state !! cx_effect_id (nv_effect view)))
        (rm_control_command_results state !! sn_command_id (nv_command view))
  end.

Definition retired_claim (tenant_id : TenantId) (key_digest : IdempotencyKeyDigest)
    (row : IdempotencyRow) (at_ : DateTime) (command_id : CommandId)
    (operation : ServiceOperationKind) (receipt_kind : RetiredOperationReceiptKind)
    : RetiredOperationClaim :=
  {| ro_tenant_id := tenant_id; ro_key_digest := key_digest;
     ro_request_digest := ir_request_digest row; ro_call_id := ir_call_id row;
     ro_command_id := command_id; ro_operation := operation; ro_receipt_kind := receipt_kind;
     ro_expires_at := ir_expires_at row; ro_retired_at := at_ |}.

(** One iteration of [retire_expired_idempotency]. *)
Definition retire_idempotency_row (at_ : DateTime) (key : IdempotencyKey) (state : MemoryState)
    : result RepositoryError MemoryState :=
  let '(tenant_id, key_digest) := key in
  row ← ok_or (rm_idempotency state !! key) RepositoryError.Unavailable;
  reject_if (negb (idempotency_receipt_crosslinks state tenant_id key_digest row))
    RepositoryError.Unavailable;;
  let retired :=
    match ir_receipt row with
    | OperationIdempotencyReceipt.CreateCall => None
    | OperationIdempotencyReceipt.ServiceCommand operation view =>
        Some (retired_claim tenant_id key_digest row at_
                (sm_command_id (cv_command (sv_command view))) operation
                RetiredOperationReceiptKind.ServiceCommand)
    | OperationIdempotencyReceipt.ControlCommand operation view =>
        Some (retired_claim tenant_id key_digest row at_
                (sn_command_id (nv_command view)) operation
                RetiredOperationReceiptKind.ControlCommand)
    end in
  let state := state <| rm_idempotency := delete key (rm_idempotency state) |> in
  match retired with
  | None => Ok state
  | Some retired =>
      reject_if (contains_key (rm_retired_operation_claims state) (ro_command_id retired))
        RepositoryError.Unavailable;;
      Ok (state <| rm_retired_operation_claims :=
            <[ro_command_id retired := retired]> (rm_retired_operation_claims state) |>)
  end.

Fixpoint retire_idempotency_rows (at_ : DateTime) (expired : list IdempotencyKey)
    (state : MemoryState) : result RepositoryError MemoryState :=
  match expired with
  | [] => Ok state
  | key :: expired =>
      state ← retire_idempotency_row at_ key state;
      retire_idempotency_rows at_ expired state
  end.

Definition retire_expired_idempotency (state : MemoryState) (at_ : DateTime)
    : result RepositoryError MemoryState :=
  let expired :=
    (List.filter (λ entry : IdempotencyKey * IdempotencyRow, ir_expires_at entry.2 <=? at_)
       (map_to_list (rm_idempotency state))).*1 in
  retire_idempotency_rows at_ expired state.

(** ** Attachments *)

Definition validate_new_attachment (state : MemoryState) (call_id : CallId)
    (issue : AttachmentIssue) : result RepositoryError () :=
  reject_if
    (contains_key (rm_attachments state) (ai_token_digest issue)
     || contains_key (rm_attachment_ids state) (ai_attachment_id issue)
     || contains_key (rm_active_attachments state)
          (call_id, ai_leg_id issue, ai_binding_generation issue))
    RepositoryError.AttachmentConflict.


Definition attachment_row (tenant_id : TenantId) (call_id : CallId) (worker : WorkerLease)
    (issue : AttachmentIssue) : AttachmentRow :=
  {| ax_attachment_id := ai_attachment_id issue;
     ax_token_digest := ai_token_digest issue;
     ax_purpose := ai_purpose issue;
     ax_tenant_id := tenant_id;
     ax_call_id := call_id;
     ax_leg_id := ai_leg_id issue;
     ax_binding_generation := ai_binding_generation issue;
     ax_transport := ai_transport issue;
     ax_expected_principal := ai_expected_principal issue;
     ax_worker := worker;
     ax_expires_at := ai_expires_at issue;
     ax_consumed_at := None;
     ax_revoked_at := None;
     ax_binding := None |}.

(** One iteration of the insertion loop of [insert_attachments]. *)
Definition insert_attachment (tenant_id : TenantId) (call_id : CallId) (worker : WorkerLease)
    (issue : AttachmentIssue) (state : MemoryState) : result RepositoryError MemoryState :=
  validate_new_attachment state call_id issue;;
  Ok (state
      <| rm_attachment_ids :=
           <[ai_attachment_id issue := ai_token_digest issue]> (rm_attachment_ids state) |>
      <| rm_active_attachments :=
           <[(call_id, ai_leg_id issue, ai_binding_generation issue) := ai_token_digest issue]>
             (rm_active_attachments state) |>
      <| rm_attachments :=
           <[ai_token_digest issue := attachment_row tenant_id call_id worker issue]>
             (rm_attachments state) |>).

Fixpoint insert_attachment_rows (tenant_id : TenantId) (call_id : CallId) (worker : WorkerLease)
    (issues : list AttachmentIssue) (state : MemoryState) : result RepositoryError MemoryState :=
  match issues with
  | [] => Ok state
  | issue :: issues =>
      state ← insert_attachment tenant_id call_id worker issue state;
      insert_attachment_rows tenant_id call_id worker issues state
  end.

Definition insert_attachments (state : MemoryState) (tenant_id : TenantId) (call_id : CallId)
    (worker : WorkerLease) (at_ : DateTime) (issues : list AttachmentIssue)
    : result RepositoryError MemoryState :=
  call ← ok_or (rm_calls state !! call_id) RepositoryError.NotFound;
  try_each (λ issue, validate_attachment_issue (sc_aggregate call) issue at_) issues;;
  insert_attachment_rows tenant_id call_id worker issues state.

(** The [match] of [validate_attachment_effect]. *)
Definition backs_attachment (issue : AttachmentIssue) (effect : EffectIntent) : bool :=
  match ai_purpose issue, effect with
  | AttachmentPurpose.PublicInbound, AwaitLegAttachment leg_id binding_generation =>
      (leg_id ==? ai_leg_id issue) && (binding_generation ==? ai_binding_generation issue)
  | AttachmentPurpose.ProviderMedia, StartLeg leg_id binding_generation LegKind.Telnyx _ =>
      (leg_id ==? ai_leg_id issue) && (binding_generation ==? ai_binding_generation issue)
  | AttachmentPurpose.ProviderMedia,
    StartLegReplacement leg_id _ pending_binding_generation LegKind.Telnyx _ =>
      (leg_id ==? ai_leg_id issue)
      && (pending_binding_generation ==? ai_binding_generation issue)
  | _, _ => false
  end.

Definition validate_attachment_effect (effects : list EffectIntent) (issue : AttachmentIssue)
    : result RepositoryError () :=
  reject_if (negb (existsb (backs_attachment issue) effects))
    (RepositoryError.InvalidInput "attachment purpose is not backed by its signaling effect").

(** The loop over the requested attachments of [create_call_in_state] and
    [commit_command_in_state]. *)
Definition validate_requested_attachments (state : MemoryState) (call_id : CallId)
    (aggregate : CallAggregate) (effects : list EffectIntent) (at_ : DateTime)
    (issues : list AttachmentIssue) : result RepositoryError () :=
  try_each (λ issue,
    validate_attachment_issue aggregate issue at_;;
    validate_attachment_effect effects issue;;
    validate_new_attachment state call_id issue) issues.

(** ** Effects and deadlines *)

Record EffectBatch := {
  eb_tenant_id : TenantId;
  eb_call_id : CallId;
  eb_worker : WorkerLease;
  eb_command_id : CommandId;
  eb_aggregate_version : AggregateVersion;
  eb_at : DateTime;
}.

(** [DeadlineState::Completed]. *)
Definition deadline_completed (state : DeadlineState) : bool :=
  match state with DeadlineState.Completed _ => true | _ => false end.

(** The [match &intent] of [persist_effects]. *)
Definition persist_deadline (batch : EffectBatch) (intent : EffectIntent)
    (deadlines : gmap DeadlineKey DeadlineRecord)
    : result RepositoryError (gmap DeadlineKey DeadlineRecord) :=
  match intent with
  | ScheduleDeadline kind generation due_at =>
      let key := (eb_call_id batch, kind, generation) in
      reject_if (contains_key deadlines key)
        (RepositoryError.InvalidInput "deadline generation already exists");;
      Ok (<[key := {| dr_tenant_id := eb_tenant_id batch; dr_call_id := eb_call_id batch;
                      dr_kind := kind; dr_generation := generation; dr_due_at := due_at;
                      dr_state := DeadlineState.Pending |}]> deadlines)
  | CancelDeadline kind generation =>
      let key := (eb_call_id batch, kind, generation) in
      record ← ok_or (deadlines !! key)
                 (RepositoryError.InvalidInput "cancelled deadline does not exist");
      Ok (if deadline_completed (dr_state record) then deadlines
          else <[key := record <| dr_state := DeadlineState.Cancelled (eb_at batch) |>]> deadlines)
  | _ => Ok deadlines
  end.

Definition U32_MAX : N := 4294967295.

(** The outbox row of the [index]-th effect of a batch. *)
Definition effect_record (batch : EffectBatch) (effect_id : EffectId) (index : nat)
    (intent : EffectIntent) : OutboxRecord :=
  {| ob_effect_id := effect_id;
     ob_command_id := eb_command_id batch;
     ob_ordinal := N.of_nat index;
     ob_tenant_id := eb_tenant_id batch;
     ob_call_id := eb_call_id batch;
     ob_aggregate_version := eb_aggregate_version batch;
     ob_worker := eb_worker batch;
     ob_intent := intent;
     ob_available_at := eb_at batch;
     ob_state := OutboxState.Ready |}.

(** The loop of [persist_effects], from the [index]-th effect. *)
Fixpoint persist_effects_from (new_id : nat → EffectId) (batch : EffectBatch) (index : nat)
    (effects : list EffectIntent) (state : MemoryState)
    : result RepositoryError (list OutboxRecord * MemoryState) :=
  match effects with
  | [] => Ok ([], state)
  | intent :: effects =>
      reject_if (U32_MAX <? N.of_nat index)%N
        (RepositoryError.InvalidInput "too many command effects");;
      deadlines ← persist_deadline batch intent (rm_deadlines state);
      let record := effect_record batch (new_id index) index intent in
      let state :=
        state <| rm_deadlines := deadlines |>
              <| rm_outbox := <[ob_effect_id record := record]> (rm_outbox state) |> in
      '(outbox, state) ← persist_effects_from new_id batch (S index) effects state;
      Ok (record :: outbox, state)
  end.

Definition persist_effects (new_id : nat → EffectId) (batch : EffectBatch)
    (effects : list EffectIntent) (state : MemoryState)
    : result RepositoryError (list OutboxRecord * MemoryState) :=
  persist_effects_from new_id batch 0 effects state.

(** ** Capacity release *)

Definition release_assignment_in_state (tenant_id : TenantId) (call_id : CallId)
    (worker : WorkerLease) (at_ : DateTime) : Tx bool := λ state,
  ensure_worker state worker true at_;;
  let worker_updated_at := authoritative_time state at_ in
  call ← tenant_call state tenant_id call_id;
  if wa_lease (sc_assignment call) !=? worker then Err RepositoryError.StaleWorkerFence
  else if negb (call_is_terminal (ca_state (sc_aggregate call)))
  then Err (RepositoryError.InvalidInput "capacity release requires a terminal call")
  else if is_some (wa_released_at (sc_assignment call)) then Ok (false, state)
  else
    let call :=
      call <| sc_assignment := (sc_assignment call) <| wa_released_at := Some at_ |> |> in
    let state := state <| rm_calls := <[call_id := call]> (rm_calls state) |> in
    snapshot ← ok_or (rm_workers state !! wl_worker_id worker) RepositoryError.StaleWorkerFence;
    if (wk_reserved_calls snapshot =? 0)%N then Err RepositoryError.Unavailable
    else
      let snapshot :=
        snapshot <| wk_reserved_calls := (wk_reserved_calls snapshot - 1)%N |>
                 <| wk_updated_at := worker_updated_at |> in
      Ok (true, put_worker state (wl_worker_id worker) snapshot).

Definition release_assignment (self : MemoryRepository) (tenant_id : TenantId) (call_id : CallId)
    (worker : WorkerLease) (at_ : DateTime) : MemoryRepository * result RepositoryError bool :=
  transaction self (release_assignment_in_state tenant_id call_id worker at_).

(** ** Retirement of inactive bindings *)

Definition connected_or_held (state : LegState) : bool :=
  match state with LegState.Connected | LegState.Held => true | _ => false end.

Definition binding_live_state (state : LegState) : bool :=
  match state with
  | LegState.Signaling | LegState.Connected | LegState.Held | LegState.Ending => true
  | _ => false
  end.

(** The leg still carries [generation] in a state accepted by [p]. *)
Definition leg_carries (next : CallAggregate) (id : LegId) (generation : BindingGeneration)
    (p : LegState → bool) : bool :=
  is_some_and (λ leg, (leg_binding_generation leg ==? generation) && p (leg_state leg))
    (find_leg next id).

(** Drops the ownership rows of a connection that still names the binding. *)
Definition drop_connection (key : BindingKey) (binding : ConnectionBinding) (state : MemoryState)
    : MemoryState :=
  let state :=
    if rm_connection_owners state !! cb_connection_id binding ==? Some key
    then state <| rm_connection_owners :=
           delete (cb_connection_id binding) (rm_connection_owners state) |>
    else state in
  let principal_key : PrincipalBindingKey := (cb_principal_fingerprint binding, key) in
  if rm_principal_bindings state !! principal_key ==? Some (cb_connection_id binding)
  then state <| rm_principal_bindings := delete principal_key (rm_principal_bindings state) |>
  else state.

(** One iteration of the loop over the retired bindings of the call. *)
Definition retire_binding (call_id : CallId) (state : MemoryState)
    (entry : LegId * ConnectionBinding) : MemoryState :=
  let '(leg_id, binding) := entry in
  let state :=
    state <| rm_calls :=
      alter (λ call, call <| sc_bindings := delete leg_id (sc_bindings call) |>) call_id
        (rm_calls state) |> in
  drop_connection (call_id, leg_id, cb_binding_generation binding) binding state.

(** The provider-media rows of the call whose generation is neither current nor pending. *)
Definition provider_row_retired (call_id : CallId) (next : CallAggregate) (row : AttachmentRow)
    : bool :=
  (ax_call_id row ==? call_id) && (ax_purpose row ==? AttachmentPurpose.ProviderMedia)
  && negb (is_some_and (λ leg, leg_binding_generation leg ==? ax_binding_generation row)
             (find_leg next (ax_leg_id row)))
  && negb (is_some_and (λ replacement,
             (rp_leg_id replacement ==? ax_leg_id row)
             && (rp_pending_binding_generation replacement ==? ax_binding_generation row))
             (ca_replacement next)).

(** [row.revoked_at.get_or_insert(at)]. *)
Definition revoke_row (at_ : DateTime) (row : AttachmentRow) : AttachmentRow :=
  row <| ax_revoked_at := Some (default at_ (ax_revoked_at row)) |>.

(** One iteration of the loop over the retired provider attachments. *)
Definition retire_provider_binding (call_id : CallId) (state : MemoryState)
    (binding : ConnectionBinding) : MemoryState :=
  let is_current :=
    is_some_and (λ current, cb_connection_id current ==? cb_connection_id binding)
      (call ← rm_calls state !! call_id; sc_bindings call !! cb_leg_id binding) in
  if is_current then state
  else drop_connection (call_id, cb_leg_id binding, cb_binding_generation binding) binding state.

Definition binding_retired_failure : FailureDetails :=
  sanitized (str "binding_retired") (str "control target binding retired") false.

(** One iteration of the loop over the retired control effects. *)
Definition retire_control_effect (next : CallAggregate) (retirement_command_id : CommandId)
    (effect_id : EffectId) (state : MemoryState) : result RepositoryError MemoryState :=
  record ← ok_or (rm_control_outbox state !! effect_id) RepositoryError.Unavailable;
  let receipt :=
    {| cq_effect_id := effect_id; cq_command_id := retirement_command_id;
       cq_tenant_id := cx_tenant_id record; cq_call_id := cx_call_id record;
       cq_leg_id := cx_leg_id record; cq_binding_generation := cx_binding_generation record;
       cq_retired_at := ca_updated_at next; cq_failure := binding_retired_failure |} in
  reject_if (contains_key (rm_control_retirements state) effect_id) RepositoryError.Unavailable;;
  Ok (state
      <| rm_control_outbox :=
           <[effect_id := record <| cx_state :=
               OutboxState.Failed (ca_updated_at next) binding_retired_failure |>]>
             (rm_control_outbox state) |>
      <| rm_control_retirements := <[effect_id := receipt]> (rm_control_retirements state) |>).

Fixpoint retire_control_effects (next : CallAggregate) (retirement_command_id : CommandId)
    (effects : list EffectId) (state : MemoryState) : result RepositoryError MemoryState :=
  match effects with
  | [] => Ok state
  | effect_id :: effects =>
      state ← retire_control_effect next retirement_command_id effect_id state;
      retire_control_effects next retirement_command_id effects state
  end.

Definition retire_inactive_bindings (state : MemoryState) (call_id : CallId)
    (next : CallAggregate) (retirement_command_id : CommandId)
    : result RepositoryError MemoryState :=
  let retired_control_effects :=
    map cx_effect_id
      (List.filter (λ record,
         (cx_call_id record ==? call_id) && control_outbox_is_unfinished record
         && negb (leg_carries next (cx_leg_id record) (cx_binding_generation record)
                    connected_or_held)) (values (rm_control_outbox state))) in
  call ← ok_or (rm_calls state !! call_id) RepositoryError.NotFound;
  let retired :=
    List.filter (λ entry : LegId * ConnectionBinding,
      negb (leg_carries next entry.1 (cb_binding_generation entry.2) binding_live_state))
      (map_to_list (sc_bindings call)) in
  let state := foldl (retire_binding call_id) state retired in
  let retired_provider_attachments :=
    omap ax_binding
      (List.filter (provider_row_retired call_id next) (values (rm_attachments state))) in
  let state :=
    state <| rm_attachments :=
      update_where (provider_row_retired call_id next) (revoke_row (ca_updated_at next))
        (rm_attachments state) |> in
  let state := foldl (retire_provider_binding call_id) state retired_provider_attachments in
  retire_control_effects next retirement_command_id retired_control_effects state.

(** ** Call creation *)

Definition validate_command_timestamp (command : CallCommand) (at_ : DateTime)
    : result RepositoryError () :=
  if command_at command ==? at_ then Ok ()
  else Err (RepositoryError.InvalidInput "command time must equal repository transaction time").

(** [.map_err(|_| RepositoryError::DomainRejected)]. *)
Definition domain_rejected {A} (r : result DomainError A) : result RepositoryError A :=
  match r with Ok a => Ok a | Err _ => Err RepositoryError.DomainRejected end.

Definition command_id_conflicts_with_service_namespace (state : MemoryState)
    (command_id : CommandId) : bool :=
  contains_key (rm_control_commands state) command_id
  || contains_key (rm_outbound_binding_results state) command_id.

Definition stored_command (command_id : CommandId) (tenant_id : TenantId) (call_id : CallId)
    (observed_version : AggregateVersion) (aggregate : CallAggregate) (command : CallCommand)
    (worker : WorkerLease) (attachments : list AttachmentIssue)
    (deadline_claim : option DeadlineClaimGuard) (disposition : CommandDisposition)
    (at_ : DateTime) : StoredCommand :=
  {| sm_command_id := command_id; sm_tenant_id := tenant_id; sm_call_id := call_id;
     sm_observed_version := observed_version; sm_result_version := ca_version aggregate;
     sm_command := command; sm_worker := worker; sm_attachments := attachments;
     sm_deadline_claim := deadline_claim; sm_disposition := disposition;
     sm_recorded_at := at_ |}.

Section Create.
Context `{Chrono}.

(** The idempotency lookup of [create_call_in_state]: the call to replay, if any. *)
Definition create_replay (state : MemoryState) (request : CreateCall)
    : result RepositoryError (option StoredCall) :=
  let tenant_id := ca_tenant_id (cc_initial request) in
  match rm_idempotency state !! ((tenant_id, cc_idempotency_key request) : IdempotencyKey) with
  | Some existing =>
      if cc_at request <? ir_expires_at existing then
        if (ir_request_digest existing !=? cc_request_digest request)
           || negb (match ir_receipt existing with
                    | OperationIdempotencyReceipt.CreateCall => true | _ => false end)
        then Err RepositoryError.IdempotencyConflict
        else
          call ← tenant_call state tenant_id (ir_call_id existing);
          Ok (Some call)
      else Ok None
  | None => Ok None
  end.

(** The writes of [create_call_in_state], once the decision and the worker are accepted. *)
Definition create_call_rows (new_id : nat → EffectId) (request : CreateCall)
    (decision : CallDecision) (expires_at : DateTime) (worker : WorkerSnapshot)
    : Tx CreateCallOutcome := λ state,
  let tenant_id := ca_tenant_id (cc_initial request) in
  let call_id := ca_id (cc_initial request) in
  let aggregate := cd_aggregate decision in
  fingerprint ← from_capabilities (wk_capabilities worker);
  let assignment :=
    {| wa_lease := cc_worker request; wa_route_catalog_fingerprint := fingerprint;
       wa_assigned_at := cc_at request; wa_released_at := None |} in
  let stored :=
    {| sc_aggregate := aggregate; sc_assignment := assignment; sc_bindings := ∅ |} in
  let state := state <| rm_calls := <[call_id := stored]> (rm_calls state) |> in
  let state :=
    state <| rm_leg_owners :=
      foldl (λ owners leg, <[leg_id leg := call_id]> owners) (rm_leg_owners state)
        (legs aggregate) |> in
  let worker_updated_at := authoritative_time state (cc_at request) in
  worker ← ok_or (rm_workers state !! wl_worker_id (cc_worker request))
             RepositoryError.StaleWorkerFence;
  let state :=
    put_worker state (wl_worker_id (cc_worker request))
      (worker <| wk_reserved_calls := (wk_reserved_calls worker + 1)%N |>
              <| wk_updated_at := worker_updated_at |>) in
  let command :=
    stored_command (cc_command_id request) tenant_id call_id (ca_version (cc_initial request))
      aggregate (cc_command request) (cc_worker request) (cc_attachments request) None
      (cd_disposition decision) (cc_at request) in
  let state :=
    state <| rm_commands := <[cc_command_id request := command]> (rm_commands state) |> in
  state ← insert_attachments state tenant_id call_id (cc_worker request) (cc_at request)
            (cc_attachments request);
  '(outbox, state) ←
    persist_effects new_id
      {| eb_tenant_id := tenant_id; eb_call_id := call_id; eb_worker := cc_worker request;
         eb_command_id := cc_command_id request; eb_aggregate_version := ca_version aggregate;
         eb_at := cc_at request |} (cd_effects decision) state;
  let state :=
    state <| rm_idempotency :=
      <[(tenant_id, cc_idempotency_key request) :=
          {| ir_request_digest := cc_request_digest request; ir_call_id := call_id;
             ir_expires_at := expires_at;
             ir_receipt := OperationIdempotencyReceipt.CreateCall |}]> (rm_idempotency state) |> in
  let state :=
    state <| rm_command_results :=
      <[cc_command_id request :=
          {| cv_command := command; cv_call := stored; cv_outbox := outbox |}]>
        (rm_command_results state) |> in
  Ok (Created stored, state).

Definition create_call_in_state (new_id : nat → EffectId) (request : CreateCall)
    : Tx CreateCallOutcome := λ state,
  validate_command_timestamp (cc_command request) (cc_at request);;
  domain_rejected (validate (cc_initial request));;
  if (ca_version (cc_initial request) !=? 0%N)
     || (ca_state (cc_initial request) !=? CallState.Pending)
  then Err (RepositoryError.InvalidInput "initial call must be pending at version zero")
  else
  decision ← domain_rejected (decide (cc_initial request) (cc_command request));
  if cd_disposition decision !=? CommandDisposition.Applied
  then Err (RepositoryError.InvalidInput "initial call command must change durable state")
  else
  expires_at ← idempotency_expiry (cc_at request);
  state ← retire_expired_idempotency state (cc_at request);
  let tenant_id := ca_tenant_id (cc_initial request) in
  replay ← create_replay state request;
  match replay with
  | Some call => Ok (CreateReplayed call, state)
  | None =>
  let state :=
    state <| rm_idempotency :=
      delete ((tenant_id, cc_idempotency_key request) : IdempotencyKey)
        (rm_idempotency state) |> in
  reject_if
    (contains_key (rm_commands state) (cc_command_id request)
     || contains_key (rm_control_commands state) (cc_command_id request)
     || contains_key (rm_outbound_binding_results state) (cc_command_id request))
    RepositoryError.CommandConflict;;
  let call_id := ca_id (cc_initial request) in
  reject_if
    (contains_key (rm_calls state) call_id
     || existsb (λ leg, contains_key (rm_leg_owners state) (leg_id leg))
          (legs (cc_initial request)))
    (RepositoryError.InvalidInput "call or leg identifier already exists");;
  ensure_worker state (cc_worker request) false (cc_at request);;
  worker ← ok_or (rm_workers state !! wl_worker_id (cc_worker request))
             RepositoryError.StaleWorkerFence;
  reject_if (wk_max_calls worker <=? wk_reserved_calls worker)%N
    RepositoryError.CapacityExceeded;;
  validate_requested_attachments state call_id (cd_aggregate decision) (cd_effects decision)
    (cc_at request) (cc_attachments request);;
  create_call_rows new_id request decision expires_at worker state
  end.

Definition create_call (new_id : nat → EffectId) (self : MemoryRepository) (request : CreateCall)
    : MemoryRepository * result RepositoryError CreateCallOutcome :=
  transaction self (create_call_in_state new_id request).
End Create.

Definition load_call (self : MemoryRepository) (tenant_id : TenantId) (call_id : CallId)
    : result RepositoryError StoredCall :=
  read self (λ state, tenant_call state tenant_id call_id).

(** ** Command commits *)

Definition command_view (state : MemoryState) (command : StoredCommand)
    : result RepositoryError CommandCommitView :=
  ok_or
    (view ← rm_command_results state !! sm_command_id command;
     if cv_command view ==? command then Some view else None)
    RepositoryError.Unavailable.

Definition validate_deadline_claim (state : MemoryState) (claim : option DeadlineClaimGuard)
    (at_ : DateTime) : result RepositoryError () :=
  match claim with
  | None => Ok ()
  | Some claim =>
      record ← ok_or (rm_deadlines state
                        !! ((dg_call_id claim, dg_kind claim, dg_generation claim) : DeadlineKey))
                 RepositoryError.StaleClaim;
      match dr_state record with
      | DeadlineState.Claimed worker generation expires_at =>
          if (worker ==? dg_worker claim) && (generation ==? dg_claim_generation claim)
             && (at_ <? expires_at)
          then Ok () else Err RepositoryError.StaleClaim
      | _ => Err RepositoryError.StaleClaim
      end
  end.

Definition validate_command_deadline_claim (request : CommandCommit)
    : result RepositoryError () :=
  match ct_command request, ct_deadline_claim request with
  | DeadlineElapsed _ kind generation _, Some claim =>
      if (dg_call_id claim ==? ct_call_id request) && (dg_kind claim ==? kind)
         && (dg_generation claim ==? generation) && (dg_worker claim ==? ct_worker request)
      then Ok () else Err RepositoryError.StaleClaim
  | DeadlineElapsed _ _ _ _, None =>
      Err (RepositoryError.InvalidInput "deadline command requires an exact claim")
  | _, Some _ => Err RepositoryError.StaleClaim
  | _, None => Ok ()
  end.

(** The branch of [commit_command_in_state] for a command id that is already recorded. *)
Definition replay_command (state : MemoryState) (request : CommandCommit)
    (existing : StoredCommand) : result RepositoryError CommandCommitOutcome :=
  ensure_worker state (ct_worker request) true (ct_at request);;
  call ← tenant_call state (ct_tenant_id request) (ct_call_id request);
  if wa_lease (sc_assignment call) !=? ct_worker request
  then Err RepositoryError.StaleWorkerFence
  else if (sm_tenant_id existing !=? ct_tenant_id request)
          || (sm_call_id existing !=? ct_call_id request)
          || (sm_observed_version existing !=? ct_expected_version request)
          || (sm_command existing !=? ct_command request)
          || (sm_worker existing !=? ct_worker request)
          || (sm_attachments existing !=? ct_attachments request)
          || (sm_deadline_claim existing !=? ct_deadline_claim request)
          || (sm_recorded_at existing !=? ct_at request)
  then Err RepositoryError.CommandConflict
  else
    view ← command_view state existing;
    Ok (CommitReplayed view).

(** [record.state = DeadlineState::Completed { at }] for a supplied claim. *)
Definition complete_deadline (state : MemoryState) (claim : option DeadlineClaimGuard)
    (at_ : DateTime) : result RepositoryError MemoryState :=
  match claim with
  | None => Ok state
  | Some claim =>
      let key : DeadlineKey := (dg_call_id claim, dg_kind claim, dg_generation claim) in
      record ← ok_or (rm_deadlines state !! key) RepositoryError.StaleClaim;
      Ok (state <| rm_deadlines :=
            <[key := record <| dr_state := DeadlineState.Completed at_ |>]>
              (rm_deadlines state) |>)
  end.

(** [call.aggregate = aggregate] for the call being committed. *)
Definition put_aggregate (state : MemoryState) (call_id : CallId) (aggregate : CallAggregate)
    : result RepositoryError MemoryState :=
  call ← ok_or (rm_calls state !! call_id) RepositoryError.NotFound;
  Ok (state <| rm_calls := <[call_id := call <| sc_aggregate := aggregate |>]> (rm_calls state) |>).

(** The writes of [commit_command_in_state], once the decision is accepted. *)
Definition commit_command_rows (new_id : nat → EffectId) (request : CommandCommit)
    (observed_version : AggregateVersion) (decision : CallDecision)
    : Tx CommandCommitOutcome := λ state,
  let aggregate := cd_aggregate decision in
  let disposition := cd_disposition decision in
  state ←
    (if disposition ==? CommandDisposition.Applied
     then retire_inactive_bindings state (ct_call_id request) aggregate (ct_command_id request)
     else Ok state);
  state ← put_aggregate state (ct_call_id request) aggregate;
  let command :=
    stored_command (ct_command_id request) (ct_tenant_id request) (ct_call_id request)
      observed_version aggregate (ct_command request) (ct_worker request)
      (ct_attachments request) (ct_deadline_claim request) disposition (ct_at request) in
  let state :=
    state <| rm_commands := <[ct_command_id request := command]> (rm_commands state) |> in
  state ← insert_attachments state (ct_tenant_id request) (ct_call_id request)
            (ct_worker request) (ct_at request) (ct_attachments request);
  '(outbox, state) ←
    persist_effects new_id
      {| eb_tenant_id := ct_tenant_id request; eb_call_id := ct_call_id request;
         eb_worker := ct_worker request; eb_command_id := ct_command_id request;
         eb_aggregate_version := ca_version aggregate; eb_at := ct_at request |}
      (cd_effects decision) state;
  state ← complete_deadline state (ct_deadline_claim request) (ct_at request);
  state ←
    (if call_is_terminal (ca_state aggregate)
     then '(_, state) ← release_assignment_in_state (ct_tenant_id request) (ct_call_id request)
                          (ct_worker request) (ct_at request) state;
          Ok state
     else Ok state);
  call ← tenant_call state (ct_tenant_id request) (ct_call_id request);
  let view := {| cv_command := command; cv_call := call; cv_outbox := outbox |} in
  Ok (Committed view,
      state <| rm_command_results :=
        <[ct_command_id request := view]> (rm_command_results state) |>).

Definition commit_command_in_state (new_id : nat → EffectId) (request : CommandCommit)
    : Tx CommandCommitOutcome := λ state,
  validate_command_timestamp (ct_command request) (ct_at request);;
  if command_id_conflicts_with_service_namespace state (ct_command_id request)
  then Err RepositoryError.CommandConflict
  else
  match rm_commands state !! ct_command_id request with
  | Some existing =>
      outcome ← replay_command state request existing;
      Ok (outcome, state)
  | None =>
  ensure_call_worker state (ct_tenant_id request) (ct_call_id request) (ct_worker request)
    (ct_at request);;
  current ← tenant_call state (ct_tenant_id request) (ct_call_id request);
  if ca_version (sc_aggregate current) !=? ct_expected_version request
  then Err RepositoryError.VersionConflict
  else
  validate_command_deadline_claim request;;
  validate_deadline_claim state (ct_deadline_claim request) (ct_at request);;
  decision ← domain_rejected (decide (sc_aggregate current) (ct_command request));
  validate_requested_attachments state (ct_call_id request) (cd_aggregate decision)
    (cd_effects decision) (ct_at request) (ct_attachments request);;
  commit_command_rows new_id request (ca_version (sc_aggregate current)) decision state
  end.

Definition commit_command (new_id : nat → EffectId) (self : MemoryRepository)
    (request : CommandCommit) : MemoryRepository * result RepositoryError CommandCommitOutcome :=
  transaction self (λ state,
    reject_service_managed_call state (ct_tenant_id request) (ct_call_id request)
      (ct_worker request) (ct_at request);;
    commit_command_in_state new_id request state).

(** ** Attachment inspection and consumption *)

(** [.map_err(|_| RepositoryError::AttachmentRejected)]. *)
Definition attachment_rejected {A} (r : result RepositoryError A) : result RepositoryError A :=
  match r with Ok a => Ok a | Err _ => Err RepositoryError.AttachmentRejected end.

(** The leg test of [inspect_attachment]. *)
Definition attachable (call : CallAggregate) (row : AttachmentRow) (leg : Leg) : bool :=
  match ax_purpose row with
  | AttachmentPurpose.PublicInbound =>
      (leg_binding_generation leg ==? ax_binding_generation row)
      && (signaling_initiator leg ==? SignalingInitiator.Remote)
      && (leg_state leg ==? LegState.AwaitingAttach)
  | AttachmentPurpose.ProviderMedia =>
      let ordinary :=
        (leg_binding_generation leg ==? ax_binding_generation row)
        && (signaling_initiator leg ==? SignalingInitiator.Bridgefu)
        && (leg_kind leg ==? LegKind.Telnyx)
        && pending_or_signaling (leg_state leg) in
      ordinary || pending_telnyx_replacement call (ax_leg_id row) (ax_binding_generation row)
  end.

(** The correlation requirement captured from the execution plan. *)
Definition required_sip_correlation (state : MemoryState) (call_id : CallId)
    : option (rstr * rstr) :=
  plan ← rm_execution_plans state !! call_id;
  route ← ep_named_route plan;
  header ← nb_required_sip_correlation_header route;
  context ← nb_context route;
  Some (header, nc_correlation_id context).

Definition inspect_attachment (self : MemoryRepository) (request : AttachmentLookup)
    : result RepositoryError AttachmentCandidate :=
  read self (λ state,
    let authorization_at := authoritative_time state (lk_at request) in
    attachment_rejected (ensure_worker state (lk_worker request) true authorization_at);;
    row ← ok_or (rm_attachments state !! lk_token_digest request)
            RepositoryError.AttachmentRejected;
    if (ax_token_digest row !=? lk_token_digest request)
       || (ax_tenant_id row !=? lk_tenant_id request)
       || (ax_transport row !=? lk_transport request)
       || (ax_expected_principal row !=? lk_principal_fingerprint request)
       || (ax_worker row !=? lk_worker request)
       || (ax_expires_at row <=? authorization_at)
       || is_some (ax_consumed_at row)
       || is_some (ax_revoked_at row)
    then Err RepositoryError.AttachmentRejected
    else
      call ← attachment_rejected (tenant_call state (lk_tenant_id request) (ax_call_id row));
      if is_some (wa_released_at (sc_assignment call))
         || (wa_lease (sc_assignment call) !=? lk_worker request)
         || is_none_or (λ leg, negb (attachable (sc_aggregate call) row leg))
              (find_leg (sc_aggregate call) (ax_leg_id row))
      then Err RepositoryError.AttachmentRejected
      else
        Ok {| an_attachment_id := ax_attachment_id row;
              an_token_digest := ax_token_digest row;
              an_purpose := ax_purpose row;
              an_tenant_id := ax_tenant_id row;
              an_call_id := ax_call_id row;
              an_leg_id := ax_leg_id row;
              an_binding_generation := ax_binding_generation row;
              an_transport := ax_transport row;
              an_worker := ax_worker row;
              an_assignment := sc_assignment call;
              an_expires_at := ax_expires_at row;
              an_expected_principal := ax_expected_principal row;
              an_expected_version := ca_version (sc_aggregate call);
              an_required_sip_correlation :=
                required_sip_correlation state (ax_call_id row) |}).

Definition validate_attachment_consume_command (request : AttachmentConsume)
    : result RepositoryError () :=
  validate_command_timestamp (am_command request) (am_at request);;
  let candidate := am_candidate request in
  let accepted :=
    match am_command request with
    | ProviderMediaAttached _ leg_id binding_generation =>
        (an_purpose candidate ==? AttachmentPurpose.ProviderMedia)
        && (leg_id ==? an_leg_id candidate)
        && (binding_generation ==? an_binding_generation candidate)
    | SetLegState _ leg_id binding_generation LegState.Signaling None =>
        (an_purpose candidate ==? AttachmentPurpose.PublicInbound)
        && (leg_id ==? an_leg_id candidate)
        && (binding_generation ==? an_binding_generation candidate)
    | _ => false
    end in
  if accepted then Ok ()
  else Err (RepositoryError.InvalidInput
              "attachment command must signal its exact leg generation").

(** The row test of [consume_attachment]: the stored row is the inspected candidate, unexpired,
    unconsumed and unrevoked. *)
Definition consumable (row : AttachmentRow) (request : AttachmentConsume)
    (authorization_at : DateTime) : bool :=
  let candidate := am_candidate request in
  negb ((ax_attachment_id row !=? an_attachment_id candidate)
        || (ax_purpose row !=? an_purpose candidate)
        || (ax_tenant_id row !=? an_tenant_id candidate)
        || (ax_call_id row !=? an_call_id candidate)
        || (ax_leg_id row !=? an_leg_id candidate)
        || (ax_binding_generation row !=? an_binding_generation candidate)
        || (ax_transport row !=? an_transport candidate)
        || (ax_expected_principal row !=? an_expected_principal candidate)
        || (ax_expected_principal row !=? am_principal_fingerprint request)
        || (ax_worker row !=? an_worker candidate)
        || (ax_expires_at row <=? authorization_at)
        || is_some (ax_consumed_at row)
        || is_some (ax_revoked_at row)).

(** The binding a consumption creates. *)
Definition consumed_binding (request : AttachmentConsume) : ConnectionBinding :=
  {| cb_connection_id := am_connection_id request;
     cb_leg_id := an_leg_id (am_candidate request);
     cb_binding_generation := an_binding_generation (am_candidate request);
     cb_transport := an_transport (am_candidate request);
     cb_principal_fingerprint := am_principal_fingerprint request;
     cb_bound_at := am_at request |}.

(** The writes of [consume_attachment] before its command is committed. *)
Definition consume_rows (request : AttachmentConsume) (row : AttachmentRow) (call : StoredCall)
    (pending_replacement : bool) (state : MemoryState) : MemoryState :=
  let candidate := am_candidate request in
  let binding := consumed_binding request in
  let binding_key : BindingKey :=
    (an_call_id candidate, an_leg_id candidate, an_binding_generation candidate) in
  let call :=
    if pending_replacement then call
    else call <| sc_bindings := <[an_leg_id candidate := binding]> (sc_bindings call) |> in
  state
  <| rm_calls := <[an_call_id candidate := call]> (rm_calls state) |>
  <| rm_connection_owners :=
       <[am_connection_id request := binding_key]> (rm_connection_owners state) |>
  <| rm_used_connection_ids := {[am_connection_id request]} ∪ rm_used_connection_ids state |>
  <| rm_principal_bindings :=
       <[(am_principal_fingerprint request, binding_key) := am_connection_id request]>
         (rm_principal_bindings state) |>
  <| rm_attachments :=
       <[an_token_digest candidate :=
           row <| ax_consumed_at := Some (am_at request) |> <| ax_binding := Some binding |>]>
         (rm_attachments state) |>.

(** The command a consumption commits. *)
Definition consume_commit (request : AttachmentConsume) : CommandCommit :=
  {| ct_tenant_id := an_tenant_id (am_candidate request);
     ct_call_id := an_call_id (am_candidate request);
     ct_expected_version := an_expected_version (am_candidate request);
     ct_command_id := am_command_id request;
     ct_command := am_command request;
     ct_worker := an_worker (am_candidate request);
     ct_attachments := [];
     ct_deadline_claim := None;
     ct_at := am_at request |}.

Definition consume_attachment_in_state (new_id : nat → EffectId) (request : AttachmentConsume)
    : Tx ConsumedAttachment := λ state,
  let candidate := am_candidate request in
  let authorization_at := authoritative_time state (am_at request) in
  attachment_rejected (ensure_worker state (an_worker candidate) true authorization_at);;
  reject_if (is_some_and (λ expires_at, expires_at <=? authorization_at)
               (am_principal_expires_at request)) RepositoryError.AttachmentRejected;;
  validate_attachment_consume_command request;;
  reject_if (contains_key (rm_commands state) (am_command_id request)
             || command_id_conflicts_with_service_namespace state (am_command_id request))
    RepositoryError.AttachmentRejected;;
  row ← ok_or (rm_attachments state !! an_token_digest candidate)
          RepositoryError.AttachmentRejected;
  reject_if (negb (consumable row request authorization_at))
    RepositoryError.AttachmentRejected;;
  let binding_key : BindingKey :=
    (an_call_id candidate, an_leg_id candidate, an_binding_generation candidate) in
  let principal_binding_key : PrincipalBindingKey :=
    (am_principal_fingerprint request, binding_key) in
  reject_if (bool_decide (am_connection_id request ∈ rm_used_connection_ids state)
             || contains_key (rm_principal_bindings state) principal_binding_key)
    RepositoryError.AttachmentConflict;;
  let pending_replacement :=
    is_some_and (λ call : StoredCall,
      (an_purpose candidate ==? AttachmentPurpose.ProviderMedia)
      && pending_telnyx_replacement (sc_aggregate call) (an_leg_id candidate)
           (an_binding_generation candidate))
      (rm_calls state !! an_call_id candidate) in
  call ← attachment_rejected (tenant_call state (an_tenant_id candidate) (an_call_id candidate));
  reject_if ((sc_assignment call !=? an_assignment candidate)
             || is_some (wa_released_at (sc_assignment call)))
    RepositoryError.AttachmentRejected;;
  reject_if (contains_key (sc_bindings call) (an_leg_id candidate) && negb pending_replacement)
    RepositoryError.AttachmentConflict;;
  let state := consume_rows request row call pending_replacement state in
  '(outcome, state) ← commit_command_in_state new_id (consume_commit request) state;
  match outcome with
  | Committed commit =>
      Ok ({| ca_binding := consumed_binding request; ca_commit := commit |}, state)
  | CommitReplayed _ => Err RepositoryError.AttachmentRejected
  end.

Definition consume_attachment (new_id : nat → EffectId) (self : MemoryRepository)
    (request : AttachmentConsume)
    : MemoryRepository * result RepositoryError ConsumedAttachment :=
  transaction self (consume_attachment_in_state new_id request).
