(* ===== verification/RepoClaims.v ===== *)
(** The work queues of the standalone call repository ([src/persistence/memory.rs]): provider
    events, the ordered effect outbox, due deadlines and the calls a restarted worker reclaims.
    The model conventions are those of [RepoMemory]. *)

From S2P Require Import Prelude RustText DomainTypes CoordModel Domain RepoTypes ServiceTypes RepoMemory.
From stdpp Require Import options.

(** ** Provider events *)

(** The transaction of [ingest_provider_event]. *)
Definition ingest_provider_event_in_state (request : ProviderEventInput)
    : Tx ProviderEventOutcome := λ state,
  let key : ProviderEventKey := (pi_account request, pi_event_digest request) in
  match rm_provider_events state !! key with
  | Some existing =>
      if (pe_payload_digest existing ==? pi_payload_digest request)
         && (pe_provider_call_id existing ==? pi_provider_call_id request)
         && (pe_kind existing ==? pi_kind request)
         && (pe_payload existing ==? pi_payload request)
      then Ok (Duplicate existing, state)
      else Err RepositoryError.ProviderEventConflict
  | None =>
      let reference_key : ProviderReferenceKey :=
        (pi_account request, pi_provider_call_id request) in
      let target := pr_target <$> rm_provider_references state !! reference_key in
      let state_kind :=
        if is_some target then ProviderEventState.Ready
        else ProviderEventState.PendingReference in
      receipt_sequence ←
        match rm_provider_receipt_sequence state with
        | Some last => ProviderReceiptSequence_next last
        | None => Ok ProviderReceiptSequence_INITIAL
        end;
      let event :=
        {| pe_account := pi_account request; pe_event_digest := pi_event_digest request;
           pe_payload_digest := pi_payload_digest request;
           pe_provider_call_id := pi_provider_call_id request; pe_kind := pi_kind request;
           pe_payload := pi_payload request; pe_occurred_at := pi_occurred_at request;
           pe_received_at := pi_received_at request; pe_receipt_sequence := receipt_sequence;
           pe_target := target; pe_state := state_kind; pe_applied_at := None |} in
      Ok (Accepted event,
          state <| rm_provider_receipt_sequence := Some receipt_sequence |>
                <| rm_provider_events := <[key := event]> (rm_provider_events state) |>)
  end.

Definition ingest_provider_event (to_vec : Json → option (list Z)) (self : MemoryRepository)
    (request : ProviderEventInput)
    : MemoryRepository * result RepositoryError ProviderEventOutcome :=
  match validate_provider_event to_vec request with
  | Err e => (self, Err e)
  | Ok _ => transaction self (ingest_provider_event_in_state request)
  end.

Definition compare_receipts (l r : ProviderEventEnvelope) : comparison :=
  (pe_receipt_sequence l ?= pe_receipt_sequence r)%N.

(** The unapplied events of a provider call. *)
Definition awaits_reference (request : BindProviderReference) (event : ProviderEventEnvelope)
    : bool :=
  (pe_account event ==? bp_account request)
  && (pe_provider_call_id event ==? bp_provider_call_id request)
  && (pe_state event !=? ProviderEventState.Applied).

(** The body of the loop of [bind_provider_reference_in_state]. *)
Definition release_event (target : ProviderEventTarget) (event : ProviderEventEnvelope)
    : ProviderEventEnvelope :=
  if pe_state event ==? ProviderEventState.PendingReference
  then event <| pe_target := Some target |> <| pe_state := ProviderEventState.Ready |>
  else event.

Definition bind_provider_reference_in_state (request : BindProviderReference)
    : Tx (list ProviderEventEnvelope) := λ state,
  ensure_call_worker state (bp_tenant_id request) (bp_call_id request) (bp_worker request)
    (bp_at request);;
  call ← tenant_call state (bp_tenant_id request) (bp_call_id request);
  reject_if (is_none (find_leg (sc_aggregate call) (bp_leg_id request)))
    RepositoryError.NotFound;;
  let target :=
    {| pt_tenant_id := bp_tenant_id request; pt_call_id := bp_call_id request;
       pt_leg_id := bp_leg_id request; pt_role := bp_role request |} in
  let key : ProviderReferenceKey := (bp_account request, bp_provider_call_id request) in
  state ←
    match rm_provider_references state !! key with
    | Some existing =>
        if pr_target existing !=? target then Err RepositoryError.ProviderReferenceConflict
        else Ok state
    | None =>
        Ok (state <| rm_provider_references :=
              <[key := {| pr_target := target; pr_bound_at := bp_at request |}]>
                (rm_provider_references state) |>)
    end;
  let events :=
    update_where (awaits_reference request) (release_event target) (rm_provider_events state) in
  let ready := List.filter (awaits_reference request) (values events) in
  Ok (sort_by compare_receipts ready, state <| rm_provider_events := events |>).

Definition bind_provider_reference (self : MemoryRepository) (request : BindProviderReference)
    : MemoryRepository * result RepositoryError (list ProviderEventEnvelope) :=
  transaction self (λ state,
    reject_service_managed_call state (bp_tenant_id request) (bp_call_id request)
      (bp_worker request) (bp_at request);;
    bind_provider_reference_in_state request state).

(** [str::eq_ignore_ascii_case]. *)
Definition eq_ignore_ascii_case (l r : rstr) : bool :=
  map to_ascii_lowercase l ==? map to_ascii_lowercase r.

Definition lifecycle_is_claimable (event : ProviderEventEnvelope) (at_ : DateTime) : bool :=
  match pe_state event with
  | ProviderEventState.Ready => true
  | ProviderEventState.Claimed _ _ _ expires_at => expires_at <=? at_
  | ProviderEventState.PendingReference | ProviderEventState.Applied => false
  end.

Definition provider_predecessor (event predecessor : ProviderEventEnvelope) : bool :=
  (pe_account predecessor ==? pe_account event)
  && (pe_provider_call_id predecessor ==? pe_provider_call_id event)
  && (pe_receipt_sequence predecessor <? pe_receipt_sequence event)%N
  && (pe_state predecessor !=? ProviderEventState.Applied).

Definition provider_event_claimable (state : MemoryState) (event : ProviderEventEnvelope)
    (worker : WorkerLease) (at_ : DateTime) : bool :=
  if negb (lifecycle_is_claimable event at_) || (at_ <? pe_received_at event) then false
  else
  match pe_target event with
  | None => false
  | Some target =>
  match rm_calls state !! pt_call_id target with
  | None => false
  | Some call =>
  if negb ((ca_tenant_id (sc_aggregate call) ==? pt_tenant_id target)
           && (wa_lease (sc_assignment call) ==? worker)) then false
  else
    (if eq_ignore_ascii_case (pe_kind event) (str "call.bridged")
     then
       is_some_and (λ leg,
         is_some_and (λ binding, cb_binding_generation binding ==? leg_binding_generation leg)
           (sc_bindings call !! pt_leg_id target))
         (find_leg (sc_aggregate call) (pt_leg_id target))
     else true)
    && negb (existsb (provider_predecessor event) (values (rm_provider_events state)))
  end
  end.

(** The loop of [claim_provider_events]; [limit] is what is left of the limit. *)
Fixpoint claim_provider_loop (worker : WorkerLease) (at_ expires_at : DateTime) (limit : nat)
    (eligible : list ProviderEventKey) (state : MemoryState)
    : result RepositoryError (list ClaimedProviderEvent * MemoryState) :=
  match eligible with
  | [] => Ok ([], state)
  | key :: eligible =>
      match limit with
      | O => Ok ([], state)
      | S limit' =>
          event ← ok_or (rm_provider_events state !! key) RepositoryError.NotFound;
          if negb (provider_event_claimable state event worker at_)
          then claim_provider_loop worker at_ expires_at limit eligible state
          else
          match
            match pe_state event with
            | ProviderEventState.Ready => Some ClaimGeneration_default
            | ProviderEventState.Claimed _ generation _ _ => Some generation
            | ProviderEventState.PendingReference | ProviderEventState.Applied => None
            end
          with
          | None => claim_provider_loop worker at_ expires_at limit eligible state
          | Some previous =>
              generation ← claim_next previous;
              let event :=
                event <| pe_state :=
                  ProviderEventState.Claimed worker generation at_ expires_at |> in
              let state :=
                state <| rm_provider_events := <[key := event]> (rm_provider_events state) |> in
              '(claimed, state) ←
                claim_provider_loop worker at_ expires_at limit' eligible state;
              Ok ({| cp_event := event; cp_claim_generation := generation |} :: claimed, state)
          end
      end
  end.

Definition compare_keyed_receipts (l r : ProviderReceiptSequence * ProviderEventKey)
    : comparison := (l.1 ?= r.1)%N.

Definition claim_provider_events_in_state (worker : WorkerLease) (at_ expires_at : DateTime)
    (limit : N) : Tx (list ClaimedProviderEvent) := λ state,
  ensure_worker state worker true at_;;
  let eligible :=
    map (λ entry : ProviderEventKey * ProviderEventEnvelope,
           (pe_receipt_sequence entry.2, entry.1))
      (List.filter (λ entry : ProviderEventKey * ProviderEventEnvelope,
         provider_event_claimable state entry.2 worker at_)
         (map_to_list (rm_provider_events state))) in
  claim_provider_loop worker at_ expires_at (N.to_nat limit)
    (sort_by compare_keyed_receipts eligible).*2 state.

(** The claim a completion names is the current, unexpired one. *)
Definition provider_claim_held (event : ProviderEventEnvelope) (worker : WorkerLease)
    (claim_generation : ClaimGeneration) (at_ : DateTime) : bool :=
  match pe_state event with
  | ProviderEventState.Claimed owner generation claimed_at expires_at =>
      (owner ==? worker) && (generation ==? claim_generation)
      && (pe_received_at event <=? at_) && (claimed_at <=? at_) && (at_ <? expires_at)
  | _ => false
  end.

(** [event.state = Applied; event.applied_at = Some(at)] and the completion row. *)
Definition apply_event (state : MemoryState) (key : ProviderEventKey) (at_ : DateTime)
    (row : ProviderCompletionRow) : result RepositoryError (ProviderEventEnvelope * MemoryState) :=
  event ← ok_or (rm_provider_events state !! key) RepositoryError.NotFound;
  let event :=
    event <| pe_state := ProviderEventState.Applied |> <| pe_applied_at := Some at_ |> in
  Ok (event,
      state <| rm_provider_events := <[key := event]> (rm_provider_events state) |>
            <| rm_provider_completions := <[key := row]> (rm_provider_completions state) |>).

Definition validate_provider_command_target (target : ProviderEventTarget) (command : CallCommand)
    : result RepositoryError () :=
  let id :=
    match command with
    | SetLegState _ leg_id _ _ _
    | ProviderMediaStarted _ leg_id _
    | RotateLegBinding _ leg_id _ => Some leg_id
    | _ => None
    end in
  reject_if (is_some_and (λ leg_id, leg_id !=? pt_leg_id target) id)
    RepositoryError.ProviderReferenceConflict.

Definition target_owns_command (target : ProviderEventTarget) (command : CommandCommit) : bool :=
  (pt_tenant_id target ==? ct_tenant_id command) && (pt_call_id target ==? ct_call_id command).

Definition complete_provider_event_in_state (new_id : nat → EffectId)
    (request : ProviderEventCommit) : Tx ProviderEventCommitOutcome := λ state,
  let command := pc_command request in
  reject_if ((pc_at request !=? ct_at command) || (pc_worker request !=? ct_worker command)
             || (command_at (ct_command command) !=? pc_at request))
    (RepositoryError.InvalidInput "provider completion and command times or workers differ");;
  ensure_worker state (pc_worker request) true (pc_at request);;
  let key : ProviderEventKey := (pc_account request, pc_event_digest request) in
  event ← ok_or (rm_provider_events state !! key) RepositoryError.NotFound;
  match pe_target event with
  | Some target =>
      reject_if (negb (target_owns_command target command))
        RepositoryError.ProviderReferenceConflict;;
      reject_if (bool_decide (pt_call_id target ∈ rm_service_managed_calls state))
        (RepositoryError.InvalidInput
           "service-managed provider event requires service reconciliation")
  | None => Ok ()
  end;;
  if pe_state event ==? ProviderEventState.Applied then
    match rm_provider_completions state !! key with
    | Some (ProviderCompletionRow.Command recorded view) =>
        if recorded ==? request
        then Ok ({| po_event := event; po_command := CommitReplayed view |}, state)
        else Err RepositoryError.StaleClaim
    | _ => Err RepositoryError.StaleClaim
    end
  else
  target ← ok_or (pe_target event) RepositoryError.ProviderReferenceConflict;
  reject_if (negb (provider_claim_held event (pc_worker request) (pc_claim_generation request)
                     (pc_at request))) RepositoryError.StaleClaim;;
  reject_if (negb (target_owns_command target command))
    RepositoryError.ProviderReferenceConflict;;
  validate_provider_command_target target (ct_command command);;
  '(outcome, state) ← commit_command_in_state new_id command state;
  let view := match outcome with Committed view | CommitReplayed view => view end in
  '(event, state) ←
    apply_event state key (pc_at request) (ProviderCompletionRow.Command request view);
  Ok ({| po_event := event; po_command := outcome |}, state).

Definition complete_provider_event (new_id : nat → EffectId) (self : MemoryRepository)
    (request : ProviderEventCommit)
    : MemoryRepository * result RepositoryError ProviderEventCommitOutcome :=
  transaction self (complete_provider_event_in_state new_id request).

Definition acknowledge_terminal_provider_event_in_state
    (request : TerminalProviderEventAcknowledge)
    : Tx TerminalProviderEventAcknowledgeOutcome := λ state,
  ensure_worker state (ta_worker request) true (ta_at request);;
  let key : ProviderEventKey := (ta_account request, ta_event_digest request) in
  event ← ok_or (rm_provider_events state !! key) RepositoryError.NotFound;
  if pe_state event ==? ProviderEventState.Applied then
    match rm_provider_completions state !! key with
    | Some (ProviderCompletionRow.TerminalAcknowledgement recorded) =>
        if recorded ==? request then Ok (AcknowledgeReplayed event, state)
        else Err RepositoryError.StaleClaim
    | _ => Err RepositoryError.StaleClaim
    end
  else
  reject_if (pe_target event !=? Some (ta_target request))
    RepositoryError.ProviderReferenceConflict;;
  ensure_terminal_call_worker state (ta_target request) (ta_worker request) (ta_at request);;
  reject_if (negb (provider_claim_held event (ta_worker request) (ta_claim_generation request)
                     (ta_at request))) RepositoryError.StaleClaim;;
  '(event, state) ←
    apply_event state key (ta_at request) (ProviderCompletionRow.TerminalAcknowledgement request);
  Ok (Acknowledged event, state).

Definition acknowledge_terminal_provider_event (self : MemoryRepository)
    (request : TerminalProviderEventAcknowledge)
    : MemoryRepository * result RepositoryError TerminalProviderEventAcknowledgeOutcome :=
  transaction self (acknowledge_terminal_provider_event_in_state request).

(** ** Outbox *)

Definition OutboxOrderKey : Type := CallId * AggregateVersion * CommandId * N * EffectId.

Definition outbox_order_key (record : OutboxRecord) : OutboxOrderKey :=
  (ob_call_id record, ob_aggregate_version record, ob_command_id record, ob_ordinal record,
   ob_effect_id record).

(** The derived [Ord] of the key tuple. *)
Definition compare_order_keys (l r : OutboxOrderKey) : comparison :=
  let '(call_l, version_l, command_l, ordinal_l, effect_l) := l in
  let '(call_r, version_r, command_r, ordinal_r, effect_r) := r in
  then_ (then_ (then_ (then_ (call_l ?= call_r) (version_l ?= version_r)%N)
    (command_l ?= command_r)) (ordinal_l ?= ordinal_r)%N) (effect_l ?= effect_r).

Definition order_key_lt (l r : OutboxOrderKey) : bool :=
  match compare_order_keys l r with Lt => true | _ => false end.

(** The lifecycle test shared by [outbox_claimable] and [control_outbox_claimable]. *)
Definition state_is_claimable (state : OutboxState) (at_ : DateTime) : bool :=
  match state with
  | OutboxState.Ready => true
  | OutboxState.Claimed _ _ claimed_at expires_at => (claimed_at <=? at_) && (expires_at <=? at_)
  | OutboxState.Succeeded _ | OutboxState.Failed _ _ => false
  end.

Definition outbox_claimable (state : MemoryState) (record : OutboxRecord) (worker : WorkerLease)
    (at_ : DateTime) : bool :=
  if (ob_worker record !=? worker) || (at_ <? ob_available_at record)
     || negb (state_is_claimable (ob_state record) at_)
     || negb (is_some_and (λ call : StoredCall, wa_lease (sc_assignment call) ==? worker)
                (rm_calls state !! ob_call_id record))
  then false
  else
    let key := outbox_order_key record in
    negb (existsb (λ predecessor,
            (ob_call_id predecessor ==? ob_call_id record)
            && order_key_lt (outbox_order_key predecessor) key
            && outbox_is_unfinished predecessor) (values (rm_outbox state))).

Definition control_outbox_claimable (state : MemoryState) (record : ControlOutboxRecord)
    (worker : WorkerLease) (at_ : DateTime) : bool :=
  let individually_claimable :=
    (cx_worker record ==? worker) && (cx_available_at record <=? at_)
    && state_is_claimable (cx_state record) at_
    && is_some_and (λ call : StoredCall,
         (wa_lease (sc_assignment call) ==? worker)
         && is_none (wa_released_at (sc_assignment call))
         && leg_carries (sc_aggregate call) (cx_leg_id record) (cx_binding_generation record)
              connected_or_held) (rm_calls state !! cx_call_id record) in
  individually_claimable
  && negb (existsb (λ predecessor,
       (cx_call_id predecessor ==? cx_call_id record)
       && (cx_leg_id predecessor ==? cx_leg_id record)
       && (cx_binding_generation predecessor ==? cx_binding_generation record)
       && (cx_sequence predecessor <? cx_sequence record)%N
       && control_outbox_is_unfinished predecessor) (values (rm_control_outbox state))).

(** The loop of [claim_outbox]; [limit] is what is left of the limit. *)
Fixpoint claim_outbox_loop (worker : WorkerLease) (at_ expires_at : DateTime) (limit : nat)
    (eligible : list EffectId) (state : MemoryState)
    : result RepositoryError (list ClaimedOutbox * MemoryState) :=
  match eligible with
  | [] => Ok ([], state)
  | effect_id :: eligible =>
      match limit with
      | O => Ok ([], state)
      | S limit' =>
          record ← ok_or (rm_outbox state !! effect_id) RepositoryError.NotFound;
          if negb (outbox_claimable state record worker at_)
          then claim_outbox_loop worker at_ expires_at limit eligible state
          else
          match
            match ob_state record with
            | OutboxState.Claimed _ generation _ _ => Some generation
            | OutboxState.Ready => Some ClaimGeneration_default
            | OutboxState.Succeeded _ | OutboxState.Failed _ _ => None
            end
          with
          | None => claim_outbox_loop worker at_ expires_at limit eligible state
          | Some previous =>
              generation ← claim_next previous;
              let record :=
                record <| ob_state := OutboxState.Claimed worker generation at_ expires_at |> in
              let state :=
                state <| rm_outbox := <[effect_id := record]> (rm_outbox state) |> in
              '(claimed, state) ← claim_outbox_loop worker at_ expires_at limit' eligible state;
              Ok ({| co_record := record; co_claim_generation := generation |} :: claimed, state)
          end
      end
  end.

Definition compare_records (l r : OutboxRecord) : comparison :=
  compare_order_keys (outbox_order_key l) (outbox_order_key r).

Definition claim_outbox_in_state (worker : WorkerLease) (at_ expires_at : DateTime) (limit : N)
    : Tx (list ClaimedOutbox) := λ state,
  ensure_worker state worker true at_;;
  let eligible :=
    List.filter (λ record, outbox_claimable state record worker at_)
      (values (rm_outbox state)) in
  claim_outbox_loop worker at_ expires_at (N.to_nat limit)
    (map ob_effect_id (sort_by compare_records eligible)) state.

(** The claim a completion names is the current, unexpired one. *)
Definition outbox_claim_held (state : OutboxState) (worker : WorkerLease)
    (claim_generation : ClaimGeneration) (at_ : DateTime) : bool :=
  match state with
  | OutboxState.Claimed owner generation claimed_at expires_at =>
      (owner ==? worker) && (generation ==? claim_generation) && (claimed_at <=? at_)
      && (at_ <? expires_at)
  | _ => false
  end.

Definition complete_outbox_in_state (effect_id : EffectId) (worker : WorkerLease)
    (claim_generation : ClaimGeneration) (completion : OutboxCompletion) (at_ : DateTime)
    : Tx OutboxRecord := λ state,
  ensure_worker state worker true at_;;
  reject_if (is_some_and (λ record, bool_decide (ob_call_id record ∈ rm_service_managed_calls state))
               (rm_outbox state !! effect_id))
    (RepositoryError.InvalidInput "service-managed effect requires service reconciliation");;
  record ← ok_or (rm_outbox state !! effect_id) RepositoryError.NotFound;
  reject_if (negb (outbox_claim_held (ob_state record) worker claim_generation at_))
    RepositoryError.StaleClaim;;
  let record :=
    record <| ob_state :=
      match completion with
      | OutboxCompletion.Succeeded => OutboxState.Succeeded at_
      | OutboxCompletion.Failed failure => OutboxState.Failed at_ failure
      end |> in
  Ok (record, state <| rm_outbox := <[effect_id := record]> (rm_outbox state) |>).

Definition complete_outbox (self : MemoryRepository) (effect_id : EffectId) (worker : WorkerLease)
    (claim_generation : ClaimGeneration) (completion : OutboxCompletion) (at_ : DateTime)
    : MemoryRepository * result RepositoryError OutboxRecord :=
  transaction self (complete_outbox_in_state effect_id worker claim_generation completion at_).

(** ** Deadlines *)

Definition deadline_rank (kind : DeadlineKind) : N :=
  match kind with
  | DeadlineKind.Setup => 0
  | DeadlineKind.Media => 1
  | DeadlineKind.Transfer => 2
  | DeadlineKind.Ending => 3
  end.

Definition deadline_due (state : MemoryState) (worker : WorkerLease) (at_ : DateTime)
    (record : DeadlineRecord) : bool :=
  (dr_due_at record <=? at_)
  && match dr_state record with
     | DeadlineState.Pending => true
     | DeadlineState.Claimed _ _ expires_at => expires_at <=? at_
     | DeadlineState.Cancelled _ | DeadlineState.Completed _ => false
     end
  && is_some_and (λ call : StoredCall,
       is_none (wa_released_at (sc_assignment call))
       && (wa_lease (sc_assignment call) ==? worker)) (rm_calls state !! dr_call_id record).

(** The comparator of [claim_due_deadlines]. *)
Definition compare_deadlines (l r : DeadlineRecord) : comparison :=
  then_ (then_ (then_ (dr_due_at l ?= dr_due_at r) (dr_call_id l ?= dr_call_id r))
    (deadline_rank (dr_kind l) ?= deadline_rank (dr_kind r))%N)
    (dr_generation l ?= dr_generation r)%N.

Fixpoint claim_deadline_loop (worker : WorkerLease) (expires_at : DateTime)
    (eligible : list DeadlineKey) (state : MemoryState)
    : result RepositoryError (list ClaimedDeadline * MemoryState) :=
  match eligible with
  | [] => Ok ([], state)
  | key :: eligible =>
      record ← ok_or (rm_deadlines state !! key) RepositoryError.NotFound;
      match
        match dr_state record with
        | DeadlineState.Claimed _ generation _ => Some generation
        | DeadlineState.Pending => Some ClaimGeneration_default
        | DeadlineState.Cancelled _ | DeadlineState.Completed _ => None
        end
      with
      | None => claim_deadline_loop worker expires_at eligible state
      | Some previous =>
          claim_generation ← claim_next previous;
          let record :=
            record <| dr_state := DeadlineState.Claimed worker claim_generation expires_at |> in
          let state :=
            state <| rm_deadlines := <[key := record]> (rm_deadlines state) |> in
          '(claimed, state) ← claim_deadline_loop worker expires_at eligible state;
          Ok ({| cl_record := record; cl_claim_generation := claim_generation |} :: claimed, state)
      end
  end.

Definition deadline_key (record : DeadlineRecord) : DeadlineKey :=
  (dr_call_id record, dr_kind record, dr_generation record).

Definition claim_due_deadlines_in_state (worker : WorkerLease) (at_ expires_at : DateTime)
    (limit : N) : Tx (list ClaimedDeadline) := λ state,
  ensure_worker state worker true at_;;
  let eligible := List.filter (deadline_due state worker at_) (values (rm_deadlines state)) in
  claim_deadline_loop worker expires_at
    (map deadline_key (take (N.to_nat limit) (sort_by compare_deadlines eligible))) state.

(** ** Claim methods *)

Section Claims.
Context `{Chrono}.

(** The prologue the three claim methods share: the claim expiry, then the empty limit. *)
Definition claim_method {A} (self : MemoryRepository) (at_ : DateTime) (claim_ttl : Duration)
    (limit : N) (operation : DateTime → Tx (list A))
    : MemoryRepository * result RepositoryError (list A) :=
  match chrono_ttl at_ claim_ttl with
  | Err e => (self, Err e)
  | Ok expires_at =>
      if (limit =? 0)%N then (self, Ok [])
      else transaction self (operation expires_at)
  end.

Definition claim_provider_events (self : MemoryRepository) (worker : WorkerLease)
    (at_ : DateTime) (claim_ttl : Duration) (limit : N)
    : MemoryRepository * result RepositoryError (list ClaimedProviderEvent) :=
  claim_method self at_ claim_ttl limit
    (λ expires_at, claim_provider_events_in_state worker at_ expires_at limit).

Definition claim_outbox (self : MemoryRepository) (worker : WorkerLease) (at_ : DateTime)
    (claim_ttl : Duration) (limit : N)
    : MemoryRepository * result RepositoryError (list ClaimedOutbox) :=
  claim_method self at_ claim_ttl limit
    (λ expires_at, claim_outbox_in_state worker at_ expires_at limit).

Definition claim_due_deadlines (self : MemoryRepository) (worker : WorkerLease) (at_ : DateTime)
    (claim_ttl : Duration) (limit : N)
    : MemoryRepository * result RepositoryError (list ClaimedDeadline) :=
  claim_method self at_ claim_ttl limit
    (λ expires_at, claim_due_deadlines_in_state worker at_ expires_at limit).
End Claims.

(** ** Restart *)

(** A claim of a superseded incarnation expires at the restart. *)
Definition expire_claim (at_ : DateTime) (state : OutboxState) : OutboxState :=
  match state with
  | OutboxState.Claimed worker generation claimed_at _ =>
      OutboxState.Claimed worker generation (Z.min claimed_at at_) at_
  | _ => state
  end.

Definition expire_deadline_claim (at_ : DateTime) (record : DeadlineRecord) : DeadlineRecord :=
  match dr_state record with
  | DeadlineState.Claimed worker generation _ =>
      record <| dr_state := DeadlineState.Claimed worker generation at_ |>
  | _ => record
  end.

Definition expire_event_claim (at_ : DateTime) (event : ProviderEventEnvelope)
    : ProviderEventEnvelope :=
  match pe_state event with
  | ProviderEventState.Claimed worker generation claimed_at _ =>
      event <| pe_state :=
        ProviderEventState.Claimed worker generation (Z.min claimed_at at_) at_ |>
  | _ => event
  end.

(** The body of the loop of [claim_restart_calls]. *)
Definition restart_call (worker : WorkerLease) (at_ : DateTime) (call_id : CallId)
    : Tx RestartClaim := λ state,
  call ← ok_or (rm_calls state !! call_id) RepositoryError.NotFound;
  let previous_fence := wl_fence (wa_lease (sc_assignment call)) in
  let call := call <| sc_assignment := (sc_assignment call) <| wa_lease := worker |> |> in
  Ok ({| rc_call := call; rc_previous_fence := previous_fence |},
      state
      <| rm_calls := <[call_id := call]> (rm_calls state) |>
      <| rm_outbox :=
           update_where (λ row, (ob_call_id row ==? call_id) && outbox_is_unfinished row)
             (λ row, row <| ob_worker := worker |> <| ob_state := expire_claim at_ (ob_state row) |>)
             (rm_outbox state) |>
      <| rm_control_outbox :=
           update_where (λ row, (cx_call_id row ==? call_id) && control_outbox_is_unfinished row)
             (λ row, row <| cx_worker := worker |> <| cx_state := expire_claim at_ (cx_state row) |>)
             (rm_control_outbox state) |>
      <| rm_deadlines :=
           update_where (λ row, dr_call_id row ==? call_id) (expire_deadline_claim at_)
             (rm_deadlines state) |>
      <| rm_provider_events :=
           update_where
             (λ event, is_some_and (λ target, pt_call_id target ==? call_id) (pe_target event))
             (expire_event_claim at_) (rm_provider_events state) |>
      <| rm_attachments :=
           update_where (λ row, (ax_call_id row ==? call_id) && is_none (ax_consumed_at row))
             (λ row, row <| ax_revoked_at := Some at_ |>) (rm_attachments state) |>).

Fixpoint restart_calls (worker : WorkerLease) (at_ : DateTime) (call_ids : list CallId)
    (state : MemoryState) : result RepositoryError (list RestartClaim * MemoryState) :=
  match call_ids with
  | [] => Ok ([], state)
  | call_id :: call_ids =>
      '(claim, state) ← restart_call worker at_ call_id state;
      '(claims, state) ← restart_calls worker at_ call_ids state;
      Ok (claim :: claims, state)
  end.

Definition restartable (state : MemoryState) (worker : WorkerLease)
    (route_catalog_fingerprint : option RouteCatalogFingerprint) (call : StoredCall) : bool :=
  (wl_worker_id (wa_lease (sc_assignment call)) ==? wl_worker_id worker)
  && (wl_fence (wa_lease (sc_assignment call)) <? wl_fence worker)%N
  && (wa_route_catalog_fingerprint (sc_assignment call) ==? route_catalog_fingerprint)
  && assignment_requires_catalog_continuity state call.

Definition claim_restart_calls_in_state (worker : WorkerLease) (at_ : DateTime) (limit : N)
    : Tx (list RestartClaim) := λ state,
  ensure_worker state worker true at_;;
  snapshot ← ok_or (rm_workers state !! wl_worker_id worker) RepositoryError.StaleWorkerFence;
  route_catalog_fingerprint ← from_capabilities (wk_capabilities snapshot);
  let call_ids :=
    (List.filter (λ entry : CallId * StoredCall,
       restartable state worker route_catalog_fingerprint entry.2)
       (map_to_list (rm_calls state))).*1 in
  restart_calls worker at_ (take (N.to_nat limit) (sort_by Z.compare call_ids)) state.

Definition claim_restart_calls (self : MemoryRepository) (worker : WorkerLease) (at_ : DateTime)
    (limit : N) : MemoryRepository * result RepositoryError (list RestartClaim) :=
  if (limit =? 0)%N then (self, Ok [])
  else transaction self (claim_restart_calls_in_state worker at_ limit).
