(* ===== verification/ServiceCommands.v ===== *)
(** Service commands of the standalone call service repository ([CallServiceRepository for
    MemoryRepository] of [src/persistence/memory.rs]): normalization, replay of operations, the
    guards of a command, and its transaction.  It runs on the state of the call repository
    ([RepoMemory]) and commits its core command with [commit_command_in_state].

    A closure passed to [transaction] or [read] is the definition with the suffix [_in_state].
    Nothing a failing transaction wrote is kept.  The identifiers a transaction draws are
    [new_id 0, new_id 1, ...]. *)

From S2P Require Import Prelude RustText DomainTypes CoordModel Domain.
From S2P Require Import RepoTypes ServiceTypes RepoMemory RepoClaims Context PlanModel.
From stdpp Require Import options.

(** ** Normalization *)

Definition validate_service_command (self : OperationIdempotency) (command : CallCommand)
    : result RepositoryError () :=
  match oi_operation self, command with
  | ServiceOperationKind.HangupCall, BeginEnding _ _ _
  | ServiceOperationKind.TransferCall, BeginTransfer _ _
  | ServiceOperationKind.TransferCall, BeginLegReplacement _ _ _ _ => Ok ()
  | _, _ => invalid "operation idempotency kind does not match service command"
  end.

Definition validate_control (self : OperationIdempotency) (intent : ControlIntent)
    : result RepositoryError () :=
  match oi_operation self, intent with
  | ServiceOperationKind.DtmfCall, Dtmf _ => Ok ()
  | _, _ => invalid "operation idempotency kind does not match control command"
  end.

(** The guard of a bound connection names the leg and binding of the lifecycle command. *)
Definition bound_guard_matches (command : CallCommand) (guard : BoundConnectionGuard) : bool :=
  match command with
  | SetLegState _ leg_id binding_generation _ _
  | SourceTerminatedBeforeAnswer _ leg_id binding_generation _ =>
      (leg_id ==? bg_leg_id guard) && (binding_generation ==? bg_binding_generation guard)
  | _ => false
  end.

Definition arms_media_deadline (command : CallCommand) : bool :=
  match command with ArmDeadline _ DeadlineKind.Media _ => true | _ => false end.

Definition finishes_connected (command : CallCommand) (pending : BindingGeneration) : bool :=
  match command with
  | FinishLegReplacement _ _ generation ReplacementConnected => generation ==? pending
  | _ => false
  end.

Definition compare_ordinals (l r : ServiceEffectPayloadInput) : comparison :=
  (si_ordinal l ?= si_ordinal r)%N.

(** [windows(2).any(|pair| pair[0].ordinal == pair[1].ordinal)]. *)
Fixpoint repeats_ordinal (l : list ServiceEffectPayloadInput) : bool :=
  match l with
  | x :: (y :: _) as rest => (si_ordinal x =? si_ordinal y)%N || repeats_ordinal rest
  | _ => false
  end.

Section Service.
Context `{Chrono, ServiceLibs}.

Definition normalize_service_command (request : ServiceCommandTransaction)
    : result RepositoryError ServiceCommandTransaction :=
  let command := ct_command (st_command request) in
  reject_if
    (1 <? Nat.b2n (is_some (st_bound_connection request))
          + Nat.b2n (is_some (st_media_activity request))
          + Nat.b2n (is_some (st_replacement_connection request)))%nat
    (RepositoryError.InvalidInput "service command cannot carry multiple connection guards");;
  match st_operation_idempotency request with
  | Some idempotency => validate_service_command idempotency command
  | None => Ok ()
  end;;
  match st_bound_connection request with
  | Some guard =>
      reject_if (is_some (st_operation_idempotency request) || negb (bound_guard_matches command guard))
        (RepositoryError.InvalidInput "bound connection guard does not match lifecycle command")
  | None => Ok ()
  end;;
  reject_if
    (is_some (st_media_activity request)
     && (is_some (st_operation_idempotency request) || negb (is_empty (st_effect_payloads request))
         || negb (arms_media_deadline command)))
    (RepositoryError.InvalidInput "media activity guard does not match media deadline command");;
  match st_replacement_connection request with
  | Some promotion =>
      reject_if
        (is_some (st_operation_idempotency request) || negb (is_empty (st_effect_payloads request))
         || (rx_previous_connection_id promotion ==? rx_connection_id promotion)
         || negb (finishes_connected command (rx_pending_binding_generation promotion)))
        (RepositoryError.InvalidInput
           "replacement connection does not match a connected replacement result")
  | None => Ok ()
  end;;
  let payloads := sort_by compare_ordinals (st_effect_payloads request) in
  let request := request <| st_effect_payloads := payloads |> in
  reject_if (repeats_ordinal payloads)
    (RepositoryError.InvalidInput "duplicate service effect payload ordinal");;
  try_each (λ input, ServiceEffectPayload_validate (si_payload input)) payloads;;
  Ok request.

(** ** Idempotency of operations *)

(** The receipt of a live claim: what an exact retry is answered with. *)
Definition service_receipt (row : IdempotencyRow) (tenant_id : TenantId) (call_id : CallId)
    (idempotency : OperationIdempotency) : result RepositoryError ServiceCommandView :=
  if (ir_request_digest row !=? oi_request_digest idempotency) || (ir_call_id row !=? call_id)
  then Err RepositoryError.IdempotencyConflict
  else
    match ir_receipt row with
    | OperationIdempotencyReceipt.ServiceCommand operation view =>
        if (operation ==? oi_operation idempotency)
           && (sm_tenant_id (cv_command (sv_command view)) ==? tenant_id)
           && (sm_call_id (cv_command (sv_command view)) ==? call_id)
        then Ok view else Err RepositoryError.IdempotencyConflict
    | _ => Err RepositoryError.IdempotencyConflict
    end.

Definition control_receipt (row : IdempotencyRow) (tenant_id : TenantId) (call_id : CallId)
    (idempotency : OperationIdempotency) : result RepositoryError ControlCommandView :=
  if (ir_request_digest row !=? oi_request_digest idempotency) || (ir_call_id row !=? call_id)
  then Err RepositoryError.IdempotencyConflict
  else
    match ir_receipt row with
    | OperationIdempotencyReceipt.ControlCommand operation view =>
        if (operation ==? oi_operation idempotency)
           && (sn_tenant_id (nv_command view) ==? tenant_id)
           && (sn_call_id (nv_command view) ==? call_id)
        then Ok view else Err RepositoryError.IdempotencyConflict
    | _ => Err RepositoryError.IdempotencyConflict
    end.

(** [replay_service_operation] and [replay_control_operation] return the receipt of the request, if
    there is one, and the state without the expired claims. *)
Definition replay_service_operation (request : ServiceCommandTransaction)
    : Tx (option ServiceCommandOutcome) := λ state,
  match st_operation_idempotency request with
  | None => Ok (None, state)
  | Some idempotency =>
      let command := st_command request in
      state ← retire_expired_idempotency state (ct_at command);
      let key : IdempotencyKey := (ct_tenant_id command, oi_key_digest idempotency) in
      match rm_idempotency state !! key with
      | None => Ok (None, state)
      | Some existing =>
          view ← service_receipt existing (ct_tenant_id command) (ct_call_id command) idempotency;
          Ok (Some (ServiceCommandOutcome.Replayed view), state)
      end
  end.

Definition replay_control_operation (request : ControlCommandTransaction)
    : Tx (option ControlCommandOutcome) := λ state,
  match nt_operation_idempotency request with
  | None => Ok (None, state)
  | Some idempotency =>
      state ← retire_expired_idempotency state (nt_at request);
      let key : IdempotencyKey := (nt_tenant_id request, oi_key_digest idempotency) in
      match rm_idempotency state !! key with
      | None => Ok (None, state)
      | Some existing =>
          view ← control_receipt existing (nt_tenant_id request) (nt_call_id request) idempotency;
          Ok (Some (ControlCommandOutcome.Replayed view), state)
      end
  end.

Definition retain_operation_receipt (state : MemoryState) (tenant_id : TenantId) (call_id : CallId)
    (idempotency : OperationIdempotency) (receipt : OperationIdempotencyReceipt) (at_ : DateTime)
    : result RepositoryError MemoryState :=
  expires_at ← idempotency_expiry at_;
  let key : IdempotencyKey := (tenant_id, oi_key_digest idempotency) in
  reject_if (contains_key (rm_idempotency state) key) RepositoryError.Unavailable;;
  Ok (state <| rm_idempotency :=
        <[key := {| ir_request_digest := oi_request_digest idempotency; ir_call_id := call_id;
                    ir_expires_at := expires_at; ir_receipt := receipt |}]>
          (rm_idempotency state) |>).

(** The claim of an optional operation is retained with its receipt. *)
Definition retain_optional (state : MemoryState) (tenant_id : TenantId) (call_id : CallId)
    (idempotency : option OperationIdempotency)
    (receipt : ServiceOperationKind → OperationIdempotencyReceipt) (at_ : DateTime)
    : result RepositoryError MemoryState :=
  match idempotency with
  | Some idempotency =>
      retain_operation_receipt state tenant_id call_id idempotency
        (receipt (oi_operation idempotency)) at_
  | None => Ok state
  end.

Definition load_service_command_replay (self : MemoryRepository) (tenant_id : TenantId)
    (call_id : CallId) (idempotency : OperationIdempotency) (at_ : DateTime)
    : result RepositoryError (option ServiceCommandView) :=
  read self (λ state,
    match rm_idempotency state !! ((tenant_id, oi_key_digest idempotency) : IdempotencyKey) with
    | None => Ok None
    | Some existing =>
        if ir_expires_at existing <=? at_ then Ok None
        else
          view ← service_receipt existing tenant_id call_id idempotency;
          Ok (Some view)
    end).

Definition load_control_command_replay (self : MemoryRepository) (tenant_id : TenantId)
    (call_id : CallId) (idempotency : OperationIdempotency) (at_ : DateTime)
    : result RepositoryError (option ControlCommandView) :=
  read self (λ state,
    match rm_idempotency state !! ((tenant_id, oi_key_digest idempotency) : IdempotencyKey) with
    | None => Ok None
    | Some existing =>
        if ir_expires_at existing <=? at_ then Ok None
        else
          view ← control_receipt existing tenant_id call_id idempotency;
          Ok (Some view)
    end).

(** ** Guards of a service command *)

Definition validate_endpoint_transport (endpoint : LegEndpointConfig)
    (transport : AttachmentTransport) : result RepositoryError () :=
  let expected :=
    match endpoint with
    | LegEndpointConfig.Sip _ | LegEndpointConfig.Provider _ => AttachmentTransport.Sip
    | LegEndpointConfig.WebRtc _ | LegEndpointConfig.Whip _ | LegEndpointConfig.Whep _
    | LegEndpointConfig.AmazonConnect _ => AttachmentTransport.WebRtc
    end in
  if expected ==? transport then Ok ()
  else invalid "outbound binding transport does not match execution endpoint".

(** One iteration of [validate_transfer_payload_targets]. *)
Definition validate_payload_target (call : StoredCall) (command : CallCommand)
    (payload : ServiceEffectPayload) : result RepositoryError () :=
  match payload with
  | ServiceEffectPayload.Transfer target_leg_id target_binding_generation _ =>
      leg ← ok_or (find_leg (sc_aggregate call) target_leg_id)
        (RepositoryError.InvalidInput "transfer target leg does not belong to call");
      reject_if (leg_binding_generation leg !=? target_binding_generation) RepositoryError.StaleClaim;;
      reject_if (negb (connected_or_held (leg_state leg))) RepositoryError.DomainRejected
  | ServiceEffectPayload.LegReplacement r =>
      leg ← ok_or (find_leg (sc_aggregate call) (lp_leg_id r))
        (RepositoryError.InvalidInput "replacement target leg does not belong to call");
      expected ←
        match next_replacement_binding_generation leg with
        | Ok generation => Ok generation
        | Err _ => Err RepositoryError.StaleClaim
        end;
      if (leg_binding_generation leg !=? lp_previous_binding_generation r)
         || (lp_pending_binding_generation r !=? expected)
         || (leg_state leg !=? LegState.Connected)
      then Err RepositoryError.StaleClaim
      else
        match command with
        | BeginLegReplacement _ _ pending_kind _ =>
            reject_if (endpoint_kind (lp_endpoint r) !=? pending_kind) RepositoryError.StaleClaim
        | _ => invalid "replacement payload requires begin replacement command"
        end
  end.

Definition validate_transfer_payload_targets (state : MemoryState)
    (request : ServiceCommandTransaction) : result RepositoryError () :=
  call ← ok_or (rm_calls state !! ct_call_id (st_command request)) RepositoryError.NotFound;
  try_each (λ input, validate_payload_target call (ct_command (st_command request)) (si_payload input))
    (st_effect_payloads request).

Definition validate_media_activity_guard (state : MemoryState) (request : ServiceCommandTransaction)
    : result RepositoryError () :=
  match st_media_activity request with
  | None => Ok ()
  | Some activity =>
      let command := st_command request in
      call ← ok_or (rm_calls state !! ct_call_id command) RepositoryError.NotFound;
      leg ← ok_or (find_leg (sc_aggregate call) (mg_leg_id activity)) RepositoryError.StaleClaim;
      binding ← ok_or (sc_bindings call !! mg_leg_id activity) RepositoryError.StaleClaim;
      reject_if
        ((cb_connection_id binding !=? mg_connection_id activity)
         || (cb_binding_generation binding !=? mg_binding_generation activity))
        RepositoryError.StaleClaim;;
      let key : BindingKey :=
        (ct_call_id command, mg_leg_id activity, mg_binding_generation activity) in
      reject_if
        ((leg_binding_generation leg !=? mg_binding_generation activity)
         || negb (connected_or_held (leg_state leg))
         || (rm_connection_owners state !! mg_connection_id activity !=? Some key)
         || (ct_at command <? ca_updated_at (sc_aggregate call))
         || (ct_at command <? cb_bound_at binding)) RepositoryError.StaleClaim;;
      expected ←
        match rm_media_activity_generations state !! key with
        | Some previous => MediaActivityGeneration_next previous
        | None => Ok MediaActivityGeneration_INITIAL
        end;
      reject_if (mg_activity_generation activity !=? expected) RepositoryError.StaleClaim
  end.

(** The consumed attachment that owns the pending connection of a promotion. *)
Definition pending_attachment (state : MemoryState) (call_id : CallId)
    (promotion : ReplacementConnectionPromotion) (row : AttachmentRow) : bool :=
  (ax_call_id row ==? call_id) && (ax_leg_id row ==? rx_leg_id promotion)
  && (ax_binding_generation row ==? rx_pending_binding_generation promotion)
  && (ax_purpose row ==? AttachmentPurpose.ProviderMedia)
  && (ax_transport row ==? rx_transport promotion)
  && (ax_expected_principal row ==? rx_principal_fingerprint promotion)
  && is_none (ax_revoked_at row)
  && is_some_and (λ pending,
       (cb_connection_id pending ==? rx_connection_id promotion)
       && (cb_binding_generation pending ==? rx_pending_binding_generation promotion)
       && (cb_principal_fingerprint pending ==? rx_principal_fingerprint promotion))
       (ax_binding row)
  && (rm_connection_owners state !! rx_connection_id promotion
      ==? Some ((call_id, rx_leg_id promotion, rx_pending_binding_generation promotion) : BindingKey)).

(** The payload that started the pending generation of a promotion. *)
Definition promotion_payload (state : MemoryState) (call_id : CallId)
    (promotion : ReplacementConnectionPromotion) (stored : StoredServiceEffectPayload) : bool :=
  match sp_payload stored with
  | ServiceEffectPayload.LegReplacement r =>
      (lp_leg_id r ==? rx_leg_id promotion)
      && (lp_previous_binding_generation r ==? rx_previous_binding_generation promotion)
      && (lp_pending_binding_generation r ==? rx_pending_binding_generation promotion)
      && is_some_and (λ effect, ob_call_id effect ==? call_id)
           (rm_outbox state !! sp_effect_id stored)
  | ServiceEffectPayload.Transfer _ _ _ => false
  end.

(** A pending generation is reserved by one command (generations are never reused), so at most
    one payload is found, in whatever order the map is visited. *)
Definition find_promotion_payload (state : MemoryState) (call_id : CallId)
    (promotion : ReplacementConnectionPromotion) : option LegReplacementPayload :=
  stored ← List.find (promotion_payload state call_id promotion)
             (values (rm_service_effect_payloads state));
  match sp_payload stored with
  | ServiceEffectPayload.LegReplacement r => Some r
  | ServiceEffectPayload.Transfer _ _ _ => None
  end.

Definition validate_replacement_connection (state : MemoryState)
    (request : ServiceCommandTransaction) : result RepositoryError () :=
  match st_replacement_connection request with
  | None => Ok ()
  | Some promotion =>
      let call_id := ct_call_id (st_command request) in
      call ← ok_or (rm_calls state !! call_id) RepositoryError.NotFound;
      replacement ← ok_or (ca_replacement (sc_aggregate call)) RepositoryError.StaleClaim;
      binding ← ok_or (sc_bindings call !! rx_leg_id promotion) RepositoryError.StaleClaim;
      let authenticated_pending_attachment :=
        existsb (pending_attachment state call_id promotion) (values (rm_attachments state)) in
      let unused_process_owned_connection :=
        negb (bool_decide (rx_connection_id promotion ∈ rm_used_connection_ids state))
        && negb (contains_key (rm_connection_owners state) (rx_connection_id promotion)) in
      reject_if
        ((rp_leg_id replacement !=? rx_leg_id promotion)
         || (rp_previous_binding_generation replacement !=? rx_previous_binding_generation promotion)
         || (rp_pending_binding_generation replacement !=? rx_pending_binding_generation promotion)
         || (cb_connection_id binding !=? rx_previous_connection_id promotion)
         || (cb_binding_generation binding !=? rx_previous_binding_generation promotion)
         || (negb unused_process_owned_connection && negb authenticated_pending_attachment))
        RepositoryError.StaleClaim;;
      payload ← ok_or (find_promotion_payload state call_id promotion) RepositoryError.StaleClaim;
      reject_if (lp_authorization_principal_fingerprint payload !=? rx_principal_fingerprint promotion)
        RepositoryError.StaleClaim;;
      validate_endpoint_transport (lp_endpoint payload) (rx_transport promotion)
  end.

(** ** Service commands *)

(** A binding of a leg and the indexes over it: a write to [call.bindings], [connection_owners],
    [principal_bindings] and [used_connection_ids]. *)
Definition put_binding (state : MemoryState) (call_id : CallId) (call : StoredCall)
    (binding : ConnectionBinding) : MemoryState :=
  let key : BindingKey := (call_id, cb_leg_id binding, cb_binding_generation binding) in
  let connection := cb_connection_id binding in
  state
    <| rm_calls :=
         <[call_id := call <| sc_bindings := <[cb_leg_id binding := binding]> (sc_bindings call) |>]>
           (rm_calls state) |>
    <| rm_connection_owners := <[connection := key]> (rm_connection_owners state) |>
    <| rm_principal_bindings :=
         <[(cb_principal_fingerprint binding, key) := connection]> (rm_principal_bindings state) |>
    <| rm_used_connection_ids := {[connection]} ∪ rm_used_connection_ids state |>.

Definition apply_replacement_connection (state : MemoryState) (request : ServiceCommandTransaction)
    : result RepositoryError MemoryState :=
  match st_replacement_connection request with
  | None => Ok state
  | Some promotion =>
      let command := st_command request in
      call ← ok_or (rm_calls state !! ct_call_id command) RepositoryError.NotFound;
      Ok (put_binding state (ct_call_id command) call
            {| cb_connection_id := rx_connection_id promotion; cb_leg_id := rx_leg_id promotion;
               cb_binding_generation := rx_pending_binding_generation promotion;
               cb_transport := rx_transport promotion;
               cb_principal_fingerprint := rx_principal_fingerprint promotion;
               cb_bound_at := ct_at command |})
  end.

(** The promoted call replaces the one in the view and in the stored command result. *)
Definition refresh_promoted (state : MemoryState) (request : ServiceCommandTransaction)
    (core : CommandCommitView) : result RepositoryError (CommandCommitView * MemoryState) :=
  match st_replacement_connection request with
  | None => Ok (core, state)
  | Some _ =>
      let command := st_command request in
      promoted ← tenant_call state (ct_tenant_id command) (ct_call_id command);
      row ← ok_or (rm_command_results state !! ct_command_id command) RepositoryError.Unavailable;
      Ok (core <| cv_call := promoted |>,
          state <| rm_command_results :=
            <[ct_command_id command := row <| cv_call := promoted |>]> (rm_command_results state) |>)
  end.

(** The supplied payload of one effect: the payload to store, nothing, or a mismatch. *)
Definition match_payload (inputs : list ServiceEffectPayloadInput) (effect : OutboxRecord)
    : result RepositoryError (option StoredServiceEffectPayload) :=
  let supplied := List.find (λ input, (si_ordinal input =? ob_ordinal effect)%N) inputs in
  let store (input : ServiceEffectPayloadInput) :=
    Ok (Some {| sp_effect_id := ob_effect_id effect; sp_command_id := ob_command_id effect;
                sp_ordinal := ob_ordinal effect; sp_payload := si_payload input |}) in
  match ob_intent effect, supplied with
  | ExecuteTransfer _, Some input =>
      match si_payload input with
      | ServiceEffectPayload.Transfer _ _ _ => store input
      | _ => invalid "service payload ordinal does not target a compatible effect"
      end
  | StartLegReplacement _ _ _ _ _, Some input =>
      match si_payload input with
      | ServiceEffectPayload.LegReplacement _ => store input
      | _ => invalid "service payload ordinal does not target a compatible effect"
      end
  | ExecuteTransfer _, None => invalid "transfer effect requires a service payload"
  | StartLegReplacement _ _ _ _ _, None => invalid "leg replacement effect requires a service payload"
  | _, Some _ => invalid "service payload ordinal does not target a compatible effect"
  | _, None => Ok None
  end.

Fixpoint match_payloads (inputs : list ServiceEffectPayloadInput) (effects : list OutboxRecord)
    : result RepositoryError (list StoredServiceEffectPayload) :=
  match effects with
  | [] => Ok []
  | effect :: effects =>
      payload ← match_payload inputs effect;
      rest ← match_payloads inputs effects;
      Ok (match payload with Some p => p :: rest | None => rest end)
  end.

Fixpoint insert_payloads (payloads : list StoredServiceEffectPayload) (state : MemoryState)
    : result RepositoryError MemoryState :=
  match payloads with
  | [] => Ok state
  | payload :: payloads =>
      reject_if (contains_key (rm_service_effect_payloads state) (sp_effect_id payload))
        RepositoryError.Unavailable;;
      insert_payloads payloads
        (state <| rm_service_effect_payloads :=
           <[sp_effect_id payload := payload]> (rm_service_effect_payloads state) |>)
  end.

(** The writes of [commit_service_command_in_state] after the core command is committed. *)
Definition service_command_rows (request : ServiceCommandTransaction) (core : CommandCommitView)
    : Tx ServiceCommandOutcome := λ state,
  let command := st_command request in
  state ← apply_replacement_connection state request;
  '(core, state) ← refresh_promoted state request core;
  stored_payloads ← match_payloads (st_effect_payloads request) (cv_outbox core);
  reject_if (negb (length stored_payloads =? length (st_effect_payloads request))%nat)
    (RepositoryError.InvalidInput "service payload ordinal does not exist");;
  state ← insert_payloads stored_payloads state;
  let view := {| sv_command := core; sv_effect_payloads := stored_payloads |} in
  let state :=
    state <| rm_service_command_results :=
      <[ct_command_id command := {| sr_request := request; sr_view := view |}]>
        (rm_service_command_results state) |> in
  let state :=
    match st_media_activity request with
    | Some activity =>
        state <| rm_media_activity_generations :=
          <[(ct_call_id command, mg_leg_id activity, mg_binding_generation activity) :=
              mg_activity_generation activity]> (rm_media_activity_generations state) |>
    | None => state
    end in
  state ← retain_optional state (ct_tenant_id command) (ct_call_id command)
            (st_operation_idempotency request)
            (λ operation, OperationIdempotencyReceipt.ServiceCommand operation view)
            (ct_at command);
  Ok (ServiceCommandOutcome.Committed view, state).

Definition commit_service_command_in_state (new_id : nat → EffectId)
    (request : ServiceCommandTransaction) (allow_media_activity : bool)
    : Tx ServiceCommandOutcome := λ state,
  let command := st_command request in
  reject_if (is_some (st_media_activity request) && negb allow_media_activity)
    (RepositoryError.InvalidInput "media activity requires the guarded repository operation");;
  '(replayed, state) ← replay_service_operation request state;
  match replayed with
  | Some outcome => Ok (outcome, state)
  | None =>
  match rm_service_command_results state !! ct_command_id command with
  | Some existing =>
      if sr_request existing ==? request
      then Ok (ServiceCommandOutcome.Replayed (sr_view existing), state)
      else Err RepositoryError.CommandConflict
  | None =>
  reject_if
    (contains_key (rm_commands state) (ct_command_id command)
     || contains_key (rm_control_commands state) (ct_command_id command)
     || contains_key (rm_outbound_binding_results state) (ct_command_id command))
    RepositoryError.CommandConflict;;
  reject_if
    (negb (bool_decide (ct_call_id command ∈ rm_service_managed_calls state))
     || negb (contains_key (rm_execution_plans state) (ct_call_id command)))
    RepositoryError.NotFound;;
  validate_transfer_payload_targets state request;;
  validate_media_activity_guard state request;;
  validate_replacement_connection state request;;
  '(outcome, state) ← commit_command_in_state new_id command state;
  match outcome with
  | CommitReplayed _ => Err RepositoryError.CommandConflict
  | Committed core => service_command_rows request core state
  end
  end
  end.

Definition commit_with_effect_payloads (new_id : nat → EffectId) (self : MemoryRepository)
    (request : ServiceCommandTransaction)
    : MemoryRepository * result RepositoryError ServiceCommandOutcome :=
  match normalize_service_command request with
  | Err e => (self, Err e)
  | Ok request => transaction self (commit_service_command_in_state new_id request false)
  end.

(** The replacement payloads of the request: their legs and endpoints. *)
Definition replacement_payloads (request : ServiceCommandTransaction)
    : list (LegId * LegEndpointConfig) :=
  omap (λ input,
    match si_payload input with
    | ServiceEffectPayload.LegReplacement r => Some (lp_leg_id r, lp_endpoint r)
    | ServiceEffectPayload.Transfer _ _ _ => None
    end) (st_effect_payloads request).

Definition validate_leg_replacement_worker_guard (state : MemoryState)
    (request : ServiceCommandTransaction) : result RepositoryError () :=
  let command := st_command request in
  '(command_leg_id, pending_kind) ←
    match ct_command command with
    | BeginLegReplacement _ leg_id pending_kind _ => Ok (leg_id, pending_kind)
    | _ => invalid "worker guard requires begin leg replacement"
    end;
  match replacement_payloads request with
  | [] => invalid "guarded replacement requires one replacement payload"
  | (payload_leg_id, endpoint) :: others =>
      reject_if (negb (is_empty others) || (payload_leg_id !=? command_leg_id)
                 || (endpoint_kind endpoint !=? pending_kind))
        (RepositoryError.InvalidInput "guarded replacement payload does not match command");;
      required_capability ← required_worker_capability endpoint SignalingInitiator.Bridgefu;
      ensure_worker state (ct_worker command) false (ct_at command);;
      call ← tenant_call state (ct_tenant_id command) (ct_call_id command);
      reject_if (is_some (wa_released_at (sc_assignment call))
                 || (wa_lease (sc_assignment call) !=? ct_worker command))
        RepositoryError.StaleWorkerFence;;
      worker ← ok_or (leased_worker state (ct_worker command)) RepositoryError.StaleWorkerFence;
      reject_if (negb (bool_decide (required_capability ∈ wk_capabilities worker)))
        RepositoryError.StaleWorkerFence
  end.

Definition commit_leg_replacement_with_worker_guard_in_state (new_id : nat → EffectId)
    (request : ServiceCommandTransaction) : Tx ServiceCommandOutcome := λ state,
  '(replayed, state) ← replay_service_operation request state;
  match replayed with
  | Some outcome => Ok (outcome, state)
  | None =>
      validate_leg_replacement_worker_guard state request;;
      commit_service_command_in_state new_id request false state
  end.

Definition commit_leg_replacement_with_worker_guard (new_id : nat → EffectId)
    (self : MemoryRepository) (request : ServiceCommandTransaction)
    : MemoryRepository * result RepositoryError ServiceCommandOutcome :=
  match normalize_service_command request with
  | Err e => (self, Err e)
  | Ok request => transaction self (commit_leg_replacement_with_worker_guard_in_state new_id request)
  end.

(** ** Lifecycle observations of bound connections *)

(** [commit_bound_connection_state_in_state] and [commit_bound_source_termination_in_state] after
    they built their transaction: an exact retry is answered first, otherwise the connection must
    be the current one of the leg. *)
Definition commit_bound_in_state (new_id : nat → EffectId) (transaction : ServiceCommandTransaction)
    (guard : BoundConnectionGuard) : Tx ServiceCommandOutcome := λ state,
  let command := st_command transaction in
  if contains_key (rm_service_command_results state) (ct_command_id command)
  then commit_service_command_in_state new_id transaction false state
  else
    ensure_call_worker state (ct_tenant_id command) (ct_call_id command) (ct_worker command)
      (ct_at command);;
    call ← ok_or (rm_calls state !! ct_call_id command) RepositoryError.NotFound;
    binding ← ok_or (sc_bindings call !! bg_leg_id guard) RepositoryError.StaleClaim;
    reject_if ((cb_connection_id binding !=? bg_connection_id guard)
               || (cb_binding_generation binding !=? bg_binding_generation guard))
      RepositoryError.StaleClaim;;
    let key : BindingKey := (ct_call_id command, bg_leg_id guard, bg_binding_generation guard) in
    reject_if ((rm_connection_owners state !! bg_connection_id guard !=? Some key)
               || (cb_leg_id binding !=? bg_leg_id guard)) RepositoryError.StaleClaim;;
    commit_service_command_in_state new_id transaction false state.

(** A transaction that carries nothing but its command and one guard. *)
Definition guarded_transaction (tenant_id : TenantId) (call_id : CallId)
    (expected_version : AggregateVersion) (command_id : CommandId) (command : CallCommand)
    (worker : WorkerLease) (at_ : DateTime) (bound : option BoundConnectionGuard)
    (media : option MediaActivityGuard) : ServiceCommandTransaction :=
  {| st_command :=
       {| ct_tenant_id := tenant_id; ct_call_id := call_id; ct_expected_version := expected_version;
          ct_command_id := command_id; ct_command := command; ct_worker := worker;
          ct_attachments := []; ct_deadline_claim := None; ct_at := at_ |};
     st_effect_payloads := []; st_operation_idempotency := None; st_bound_connection := bound;
     st_media_activity := media; st_replacement_connection := None |}.

Definition bound_state_allowed (state : LegState) : bool :=
  match state with
  | LegState.Signaling | LegState.Connected | LegState.Held | LegState.Ending | LegState.Ended
  | LegState.Failed => true
  | _ => false
  end.

Definition commit_bound_connection_state_in_state (new_id : nat → EffectId)
    (request : BoundConnectionStateCommit) : Tx ServiceCommandOutcome := λ state,
  reject_if (negb (bound_state_allowed (bs_state request)))
    (RepositoryError.InvalidInput "invalid bound connection lifecycle state");;
  let guard :=
    {| bg_connection_id := bs_connection_id request; bg_leg_id := bs_leg_id request;
       bg_binding_generation := bs_binding_generation request |} in
  transaction ← normalize_service_command
    (guarded_transaction (bs_tenant_id request) (bs_call_id request) (bs_expected_version request)
       (bs_command_id request)
       (SetLegState (bs_at request) (bs_leg_id request) (bs_binding_generation request)
          (bs_state request) (bs_failure request))
       (bs_worker request) (bs_at request) (Some guard) None);
  commit_bound_in_state new_id transaction guard state.

Definition commit_bound_source_termination_in_state (new_id : nat → EffectId)
    (request : BoundSourceTerminationCommit) : Tx ServiceCommandOutcome := λ state,
  let guard :=
    {| bg_connection_id := bt_connection_id request; bg_leg_id := bt_source_leg_id request;
       bg_binding_generation := bt_binding_generation request |} in
  transaction ← normalize_service_command
    (guarded_transaction (bt_tenant_id request) (bt_call_id request) (bt_expected_version request)
       (bt_command_id request)
       (SourceTerminatedBeforeAnswer (bt_at request) (bt_source_leg_id request)
          (bt_binding_generation request) (bt_reason request))
       (bt_worker request) (bt_at request) (Some guard) None);
  commit_bound_in_state new_id transaction guard state.

Definition commit_media_activity_in_state (new_id : nat → EffectId) (request : MediaActivityCommit)
    : Tx ServiceCommandOutcome := λ state,
  transaction ← normalize_service_command
    (guarded_transaction (ma_tenant_id request) (ma_call_id request) (ma_expected_version request)
       (ma_command_id request)
       (ArmDeadline (ma_at request) DeadlineKind.Media (ma_due_at request))
       (ma_worker request) (ma_at request) None
       (Some {| mg_connection_id := ma_connection_id request; mg_leg_id := ma_leg_id request;
                mg_binding_generation := ma_binding_generation request;
                mg_activity_generation := ma_activity_generation request |}));
  commit_service_command_in_state new_id transaction true state.

Definition commit_bound_connection_state (new_id : nat → EffectId) (self : MemoryRepository)
    (request : BoundConnectionStateCommit)
    : MemoryRepository * result RepositoryError ServiceCommandOutcome :=
  transaction self (commit_bound_connection_state_in_state new_id request).

Definition commit_bound_source_termination (new_id : nat → EffectId) (self : MemoryRepository)
    (request : BoundSourceTerminationCommit)
    : MemoryRepository * result RepositoryError ServiceCommandOutcome :=
  transaction self (commit_bound_source_termination_in_state new_id request).

Definition commit_media_activity (new_id : nat → EffectId) (self : MemoryRepository)
    (request : MediaActivityCommit)
    : MemoryRepository * result RepositoryError ServiceCommandOutcome :=
  transaction self (commit_media_activity_in_state new_id request).

End Service.
