(* ===== verification/ServiceMemory.v ===== *)
(** The other transactions of the standalone call service repository ([CallServiceRepository for
    MemoryRepository] of [src/persistence/memory.rs]): creation with an execution plan, controls,
    outbound bindings and initial context, and the readers of what they store. *)

From S2P Require Import Prelude RustText DomainTypes CoordModel Domain.
From S2P Require Import RepoTypes ServiceTypes RepoMemory RepoClaims Context PlanModel ServiceCommands.
From stdpp Require Import options.

Section Service.
Context `{Chrono, ServiceLibs}.

(** ** Creation *)

(** The result of the command that created the call: the only one at version zero. *)
Definition original_create_result (state : MemoryState) (call_id : CallId)
    : result RepositoryError CommandCommitView :=
  match List.filter (λ view,
          (sm_call_id (cv_command view) ==? call_id)
          && (sm_observed_version (cv_command view) ==? 0%N)) (values (rm_command_results state)) with
  | [view] => Ok view
  | _ => Err RepositoryError.Unavailable
  end.

Definition original_create_snapshot (state : MemoryState) (call_id : CallId)
    : result RepositoryError StoredCall :=
  view ← original_create_result state call_id;
  Ok (cv_call view).

Definition original_create_attachments (state : MemoryState) (call_id : CallId)
    : result RepositoryError (list AttachmentIssue) :=
  view ← original_create_result state call_id;
  Ok (sm_attachments (cv_command view)).

Definition compare_versioned_issues (l r : AggregateVersion * AttachmentIssue) : comparison :=
  then_ (l.1 ?= r.1)%N (ai_attachment_id l.2 ?= ai_attachment_id r.2).

Definition service_call_attachments (state : MemoryState) (call_id : CallId)
    : result RepositoryError (list AttachmentIssue) :=
  let commands :=
    List.filter (λ command, sm_call_id command ==? call_id) (values (rm_commands state)) in
  let attachments :=
    sort_by compare_versioned_issues
      (flat_map (λ command, map (pair (sm_observed_version command)) (sm_attachments command))
         commands) in
  try_each (λ attachment : AggregateVersion * AttachmentIssue,
    row ← ok_or (rm_attachments state !! ai_token_digest attachment.2) RepositoryError.Unavailable;
    reject_if ((ax_call_id row !=? call_id)
               || (ax_attachment_id row !=? ai_attachment_id attachment.2))
      RepositoryError.Unavailable) attachments;;
  Ok attachments.*2.

Definition load_create_replay_in_state (state : MemoryState) (tenant_id : TenantId)
    (key_digest : IdempotencyKeyDigest) (request_digest : RequestDigest) (at_ : DateTime)
    : result RepositoryError (option StoredServiceCall) :=
  match rm_idempotency state !! ((tenant_id, key_digest) : IdempotencyKey) with
  | None => Ok None
  | Some existing =>
      if ir_expires_at existing <=? at_ then Ok None
      else if (ir_request_digest existing !=? request_digest)
              || negb (match ir_receipt existing with
                       | OperationIdempotencyReceipt.CreateCall => true | _ => false end)
      then Err RepositoryError.IdempotencyConflict
      else
        call ← original_create_snapshot state (ir_call_id existing);
        reject_if (ca_tenant_id (sc_aggregate call) !=? tenant_id) RepositoryError.Unavailable;;
        plan ← ok_or (rm_execution_plans state !! ir_call_id existing) RepositoryError.Unavailable;
        match validate_against plan (sc_aggregate call) with
        | Ok _ => Ok ()
        | Err _ => Err RepositoryError.Unavailable
        end;;
        attachments ← original_create_attachments state (ir_call_id existing);
        Ok (Some {| sl_call := call; sl_plan := plan; sl_attachments := attachments |})
  end.

Definition load_create_replay (self : MemoryRepository) (tenant_id : TenantId)
    (key_digest : IdempotencyKeyDigest) (request_digest : RequestDigest) (at_ : DateTime)
    : result RepositoryError (option StoredServiceCall) :=
  read self (λ state, load_create_replay_in_state state tenant_id key_digest request_digest at_).

Definition lost_worker (error : RepositoryError) : bool :=
  match error with
  | RepositoryError.StaleWorkerFence | RepositoryError.WorkerCapabilityUnavailable => true
  | _ => false
  end.

Definition lost_placement (error : RepositoryError) : bool :=
  match error with RepositoryError.CapacityExceeded => true | _ => lost_worker error end.

(** The loop over the candidates.  What a refused candidate wrote to the draft is the retirement of
    the expired idempotency claims, which the next candidate does again with the same effect; it is
    therefore tried on the same state. *)
Fixpoint try_candidates (new_id : nat → EffectId) (required_capabilities : gset rstr)
    (candidates : list CreateCall) (last_admission_error : RepositoryError)
    : Tx CreateCallOutcome := λ state,
  match candidates with
  | [] => Err last_admission_error
  | candidate :: candidates =>
      match
        ensure_worker_capabilities state (cc_worker candidate) required_capabilities
          (cc_at candidate)
      with
      | Err error =>
          if lost_worker error
          then try_candidates new_id required_capabilities candidates error state
          else Err error
      | Ok _ =>
          match create_call_in_state new_id candidate state with
          | Ok outcome => Ok outcome
          | Err error =>
              if lost_placement error
              then try_candidates new_id required_capabilities candidates error state
              else Err error
          end
      end
  end.

Definition create_candidates (request : ServiceCreateTransaction) : list CreateCall :=
  sx_create request ::
    map (λ alternative, (sx_create request) <| cc_worker := sd_worker alternative |>
                                            <| cc_attachments := sd_attachments alternative |>)
      (sx_alternatives request).

Definition create_with_plan_in_state (new_id : nat → EffectId) (request : ServiceCreateTransaction)
    : Tx ServiceCreateOutcome := λ state,
  let create := sx_create request in
  let plan := sx_plan request in
  replay ← load_create_replay_in_state state (ca_tenant_id (cc_initial create))
    (cc_idempotency_key create) (cc_request_digest create) (cc_at create);
  match replay with
  | Some stored => Ok (ServiceCreateOutcome.Replayed stored, state)
  | None =>
      validate_for_create plan (cc_initial create);;
      authorization_principal_fingerprint plan;;
      capabilities ← required_worker_capabilities plan;
      '(outcome, state) ←
        try_candidates new_id capabilities (create_candidates request)
          RepositoryError.CapacityExceeded state;
      match outcome with
      | Created call =>
          let call_id := ca_id (sc_aggregate call) in
          reject_if (bool_decide (call_id ∈ rm_service_managed_calls state)
                     || contains_key (rm_execution_plans state) call_id)
            RepositoryError.Unavailable;;
          let state :=
            state <| rm_service_managed_calls := {[call_id]} ∪ rm_service_managed_calls state |>
                  <| rm_execution_plans := <[call_id := plan]> (rm_execution_plans state) |> in
          attachments ← original_create_attachments state call_id;
          Ok (ServiceCreateOutcome.Created
                {| sl_call := call; sl_plan := plan; sl_attachments := attachments |}, state)
      | CreateReplayed call =>
          let call_id := ca_id (sc_aggregate call) in
          reject_if (negb (bool_decide (call_id ∈ rm_service_managed_calls state)))
            RepositoryError.Unavailable;;
          original ← ok_or (rm_execution_plans state !! call_id) RepositoryError.Unavailable;
          snapshot ← original_create_snapshot state call_id;
          attachments ← original_create_attachments state call_id;
          Ok (ServiceCreateOutcome.Replayed
                {| sl_call := snapshot; sl_plan := original; sl_attachments := attachments |}, state)
      end
  end.

Definition create_with_plan (new_id : nat → EffectId) (self : MemoryRepository)
    (request : ServiceCreateTransaction)
    : MemoryRepository * result RepositoryError ServiceCreateOutcome :=
  transaction self (create_with_plan_in_state new_id request).

Definition load_service_call (self : MemoryRepository) (tenant_id : TenantId) (call_id : CallId)
    : result RepositoryError StoredServiceCall :=
  read self (λ state,
    call ← tenant_call state tenant_id call_id;
    reject_if (negb (bool_decide (call_id ∈ rm_service_managed_calls state))) RepositoryError.NotFound;;
    plan ← ok_or (rm_execution_plans state !! call_id) RepositoryError.NotFound;
    attachments ← service_call_attachments state call_id;
    Ok {| sl_call := call; sl_plan := plan; sl_attachments := attachments |}).

Definition load_effect_payload (self : MemoryRepository) (tenant_id : TenantId)
    (effect_id : EffectId) : result RepositoryError (option StoredServiceEffectPayload) :=
  read self (λ state,
    record ← ok_or (rm_outbox state !! effect_id) RepositoryError.NotFound;
    reject_if (ob_tenant_id record !=? tenant_id) RepositoryError.NotFound;;
    let payload := rm_service_effect_payloads state !! effect_id in
    reject_if (is_some_and (λ payload, sp_command_id payload !=? ob_command_id record) payload)
      RepositoryError.Unavailable;;
    Ok payload).

Definition load_attachment_binding (self : MemoryRepository) (tenant_id : TenantId)
    (call_id : CallId) (leg_id : LegId) (binding_generation : BindingGeneration)
    (purpose : AttachmentPurpose) : result RepositoryError (option ConnectionBinding) :=
  read self (λ state,
    call ← tenant_call state tenant_id call_id;
    reject_if (is_none (find_leg (sc_aggregate call) leg_id)) RepositoryError.NotFound;;
    match List.filter (λ row,
            (ax_tenant_id row ==? tenant_id) && (ax_call_id row ==? call_id)
            && (ax_leg_id row ==? leg_id) && (ax_binding_generation row ==? binding_generation)
            && (ax_purpose row ==? purpose)) (values (rm_attachments state)) with
    | [] => Ok None
    | [row] => Ok (ax_binding row)
    | _ => Err RepositoryError.Unavailable
    end).

(** ** Controls *)

Definition enqueue_control_in_state (new_id : nat → EffectId) (request : ControlCommandTransaction)
    : Tx ControlCommandOutcome := λ state,
  '(replayed, state) ← replay_control_operation request state;
  match replayed with
  | Some outcome => Ok (outcome, state)
  | None =>
  match rm_control_command_results state !! nt_command_id request with
  | Some existing =>
      if nr_request existing ==? request
      then Ok (ControlCommandOutcome.Replayed (nr_view existing), state)
      else Err RepositoryError.CommandConflict
  | None =>
  reject_if
    (contains_key (rm_commands state) (nt_command_id request)
     || contains_key (rm_service_command_results state) (nt_command_id request)
     || contains_key (rm_outbound_binding_results state) (nt_command_id request))
    RepositoryError.CommandConflict;;
  ensure_call_worker state (nt_tenant_id request) (nt_call_id request) (nt_worker request)
    (nt_at request);;
  reject_if
    (negb (bool_decide (nt_call_id request ∈ rm_service_managed_calls state))
     || negb (contains_key (rm_execution_plans state) (nt_call_id request)))
    RepositoryError.NotFound;;
  call ← ok_or (rm_calls state !! nt_call_id request) RepositoryError.NotFound;
  leg ← ok_or (find_leg (sc_aggregate call) (nt_leg_id request)) RepositoryError.NotFound;
  reject_if (leg_binding_generation leg !=? nt_binding_generation request) RepositoryError.StaleClaim;;
  reject_if (negb (connected_or_held (leg_state leg))) RepositoryError.DomainRejected;;
  binding ← ok_or (sc_bindings call !! nt_leg_id request) RepositoryError.StaleClaim;
  reject_if (cb_binding_generation binding !=? nt_binding_generation request)
    RepositoryError.StaleClaim;;
  reject_if (cb_leg_id binding !=? nt_leg_id request) RepositoryError.Unavailable;;
  reject_if ((nt_at request <? ca_updated_at (sc_aggregate call)) || (nt_at request <? cb_bound_at binding))
    (RepositoryError.InvalidInput "control time predates its current binding");;
  let binding_key : BindingKey :=
    (nt_call_id request, nt_leg_id request, nt_binding_generation request) in
  sequence ←
    match rm_control_sequences state !! binding_key with
    | Some previous => ControlSequence_next previous
    | None => Ok ControlSequence_INITIAL
    end;
  let effect_id := new_id 0%nat in
  reject_if (contains_key (rm_outbox state) effect_id || contains_key (rm_control_outbox state) effect_id)
    RepositoryError.Unavailable;;
  let command :=
    {| sn_command_id := nt_command_id request; sn_tenant_id := nt_tenant_id request;
       sn_call_id := nt_call_id request; sn_leg_id := nt_leg_id request;
       sn_binding_generation := nt_binding_generation request; sn_worker := nt_worker request;
       sn_intent := nt_intent request; sn_recorded_at := nt_at request |} in
  let effect :=
    {| cx_effect_id := effect_id; cx_command_id := nt_command_id request;
       cx_tenant_id := nt_tenant_id request; cx_call_id := nt_call_id request;
       cx_leg_id := nt_leg_id request; cx_binding_generation := nt_binding_generation request;
       cx_worker := nt_worker request; cx_sequence := sequence; cx_intent := nt_intent request;
       cx_available_at := nt_at request; cx_state := OutboxState.Ready |} in
  let view := {| nv_command := command; nv_effect := effect |} in
  let state :=
    state
      <| rm_control_commands := <[nt_command_id request := command]> (rm_control_commands state) |>
      <| rm_control_outbox := <[effect_id := effect]> (rm_control_outbox state) |>
      <| rm_control_sequences := <[binding_key := sequence]> (rm_control_sequences state) |>
      <| rm_control_command_results :=
           <[nt_command_id request := {| nr_request := request; nr_view := view |}]>
             (rm_control_command_results state) |> in
  state ← retain_optional state (nt_tenant_id request) (nt_call_id request)
            (nt_operation_idempotency request)
            (λ operation, OperationIdempotencyReceipt.ControlCommand operation view) (nt_at request);
  Ok (ControlCommandOutcome.Enqueued view, state)
  end
  end.

Definition enqueue_control (new_id : nat → EffectId) (self : MemoryRepository)
    (request : ControlCommandTransaction)
    : MemoryRepository * result RepositoryError ControlCommandOutcome :=
  match
    ControlIntent_validate (nt_intent request);;
    match nt_operation_idempotency request with
    | Some idempotency => validate_control idempotency (nt_intent request)
    | None => Ok ()
    end
  with
  | Err e => (self, Err e)
  | Ok _ => transaction self (enqueue_control_in_state new_id request)
  end.

(** The derived [Ord] of the key tuple of [claim_control_effects]. *)
Definition compare_controls (l r : ControlOutboxRecord) : comparison :=
  then_ (then_ (then_ (then_ (cx_call_id l ?= cx_call_id r) (cx_leg_id l ?= cx_leg_id r))
    (cx_binding_generation l ?= cx_binding_generation r)%N) (cx_sequence l ?= cx_sequence r)%N)
    (cx_effect_id l ?= cx_effect_id r).

Fixpoint claim_control_loop (worker : WorkerLease) (at_ expires_at : DateTime)
    (eligible : list EffectId) (state : MemoryState)
    : result RepositoryError (list ClaimedControlEffect * MemoryState) :=
  match eligible with
  | [] => Ok ([], state)
  | effect_id :: eligible =>
      record ← ok_or (rm_control_outbox state !! effect_id) RepositoryError.NotFound;
      if negb (control_outbox_claimable state record worker at_)
      then claim_control_loop worker at_ expires_at eligible state
      else
      match
        match cx_state record with
        | OutboxState.Ready => Some ClaimGeneration_default
        | OutboxState.Claimed _ generation _ _ => Some generation
        | OutboxState.Succeeded _ | OutboxState.Failed _ _ => None
        end
      with
      | None => claim_control_loop worker at_ expires_at eligible state
      | Some previous =>
          generation ← claim_next previous;
          let record :=
            record <| cx_state := OutboxState.Claimed worker generation at_ expires_at |> in
          let state :=
            state <| rm_control_outbox := <[effect_id := record]> (rm_control_outbox state) |> in
          '(claimed, state) ← claim_control_loop worker at_ expires_at eligible state;
          Ok ({| ce_record := record; ce_claim_generation := generation |} :: claimed, state)
      end
  end.

Definition claim_control_effects_in_state (worker : WorkerLease) (at_ expires_at : DateTime)
    (limit : N) : Tx (list ClaimedControlEffect) := λ state,
  ensure_worker state worker true at_;;
  let eligible :=
    sort_by compare_controls
      (List.filter (λ record, control_outbox_claimable state record worker at_)
         (values (rm_control_outbox state))) in
  claim_control_loop worker at_ expires_at (map cx_effect_id (take (N.to_nat limit) eligible)) state.

Definition claim_control_effects (self : MemoryRepository) (worker : WorkerLease) (at_ : DateTime)
    (claim_ttl : Duration) (limit : N)
    : MemoryRepository * result RepositoryError (list ClaimedControlEffect) :=
  claim_method self at_ claim_ttl limit (λ expires_at,
    claim_control_effects_in_state worker at_ expires_at limit).

(** ** Outbound bindings *)

Definition validate_effect_claim (state : OutboxState) (worker : WorkerLease)
    (claim_generation : ClaimGeneration) (at_ : DateTime) : result RepositoryError () :=
  if outbox_claim_held state worker claim_generation at_ then Ok () else Err RepositoryError.StaleClaim.

Definition bind_outbound_connection_in_state (request : OutboundConnectionBind)
    : Tx OutboundConnectionBindOutcome := λ state,
  match rm_outbound_binding_results state !! on_operation_id request with
  | Some existing =>
      if bo_request existing ==? request
      then Ok (OutboundConnectionBindOutcome.Replayed (bo_binding existing), state)
      else Err RepositoryError.CommandConflict
  | None =>
  reject_if
    (contains_key (rm_commands state) (on_operation_id request)
     || contains_key (rm_control_commands state) (on_operation_id request)
     || contains_key (rm_service_command_results state) (on_operation_id request))
    RepositoryError.CommandConflict;;
  ensure_call_worker state (on_tenant_id request) (on_call_id request) (on_worker request)
    (on_at request);;
  reject_if (on_operation_id request !=? on_effect_id request)
    (RepositoryError.InvalidInput "outbound binding operation must be derived from its effect");;
  effect ← ok_or (rm_outbox state !! on_effect_id request) RepositoryError.StaleClaim;
  reject_if ((ob_tenant_id effect !=? on_tenant_id request)
             || (ob_call_id effect !=? on_call_id request)
             || (ob_worker effect !=? on_worker request)) RepositoryError.StaleClaim;;
  match ob_intent effect with
  | StartLeg leg_id binding_generation kind _ =>
      reject_if ((leg_id !=? on_leg_id request)
                 || (binding_generation !=? on_binding_generation request)) RepositoryError.StaleClaim;;
      call ← ok_or (rm_calls state !! on_call_id request) RepositoryError.NotFound;
      leg ← ok_or (find_leg (sc_aggregate call) (on_leg_id request)) RepositoryError.NotFound;
      reject_if (leg_kind leg !=? kind) RepositoryError.StaleClaim
  | _ => Err RepositoryError.StaleClaim
  end;;
  validate_effect_claim (ob_state effect) (on_worker request) (on_claim_generation request)
    (on_at request);;
  plan ← ok_or (rm_execution_plans state !! on_call_id request) RepositoryError.NotFound;
  principal ← authorization_principal_fingerprint plan;
  reject_if (principal !=? on_principal_fingerprint request) RepositoryError.StaleClaim;;
  spec ← ok_or (find_spec plan (on_leg_id request)) RepositoryError.NotFound;
  validate_endpoint_transport (ls_endpoint spec) (on_transport request);;
  call ← ok_or (rm_calls state !! on_call_id request) RepositoryError.NotFound;
  leg ← ok_or (find_leg (sc_aggregate call) (on_leg_id request)) RepositoryError.NotFound;
  reject_if (signaling_initiator leg !=? SignalingInitiator.Bridgefu)
    (RepositoryError.InvalidInput "outbound binding requires Bridgefu signaling initiation");;
  reject_if (leg_binding_generation leg !=? on_binding_generation request) RepositoryError.StaleClaim;;
  reject_if ((ca_state (sc_aggregate call) !=? CallState.Connecting)
             || (leg_state leg !=? LegState.Pending)) RepositoryError.StaleClaim;;
  reject_if (on_at request <? ca_updated_at (sc_aggregate call))
    (RepositoryError.InvalidInput "outbound binding time predates call state");;
  reject_if (contains_key (sc_bindings call) (on_leg_id request)) RepositoryError.AttachmentConflict;;
  let binding_key : BindingKey :=
    (on_call_id request, on_leg_id request, on_binding_generation request) in
  reject_if
    (bool_decide (on_connection_id request ∈ rm_used_connection_ids state)
     || contains_key (rm_connection_owners state) (on_connection_id request)
     || contains_key (rm_principal_bindings state)
          ((on_principal_fingerprint request, binding_key) : PrincipalBindingKey))
    RepositoryError.AttachmentConflict;;
  let binding :=
    {| cb_connection_id := on_connection_id request; cb_leg_id := on_leg_id request;
       cb_binding_generation := on_binding_generation request; cb_transport := on_transport request;
       cb_principal_fingerprint := on_principal_fingerprint request; cb_bound_at := on_at request |} in
  let state := put_binding state (on_call_id request) call binding in
  Ok (OutboundConnectionBindOutcome.Bound binding,
      state <| rm_outbound_binding_results :=
        <[on_operation_id request := {| bo_request := request; bo_binding := binding |}]>
          (rm_outbound_binding_results state) |>)
  end.

Definition bind_outbound_connection (self : MemoryRepository) (request : OutboundConnectionBind)
    : MemoryRepository * result RepositoryError OutboundConnectionBindOutcome :=
  transaction self (bind_outbound_connection_in_state request).

(** ** Initial context *)

Definition validate_initial_context_payload (record : StoredInitialContext)
    : result RepositoryError () :=
  reject_if
    ((ic_source_leg_id record ==? ic_target_leg_id record)
     || is_empty (ic_envelope record)
     || (MAX_CONTEXT_BYTES <? Z.of_nat (length (ic_envelope record)))
     || is_empty (ic_message_id record)
     || (MAX_DATA_MESSAGE_ID_BYTES <? len (ic_message_id record))
     || existsb is_control (ic_message_id record))
    (RepositoryError.InvalidInput "invalid initial context record");;
  envelope ← ok_or (context_from_slice (ic_envelope record))
    (RepositoryError.InvalidInput "invalid initial context envelope");
  or_invalid
    (ContextEnvelope_validate envelope;;
     validate_binding envelope (ic_tenant_id record) (id_to_string (ic_call_id record))
       (id_to_string (ic_source_leg_id record))) "invalid initial context envelope";;
  reject_if (negb (sip_initial_headers_valid (ic_initial_sip_headers record)))
    (RepositoryError.InvalidInput "invalid initial SIP headers").

(** The plan lets the source introduce context for a server-owned destination. *)
Definition web_rtc_source_dials (plan : CallExecutionPlan) (source target : LegExecutionSpec)
    (record : StoredInitialContext) : bool :=
  is_empty (ic_initial_sip_headers record)
  && is_some (ep_named_route plan)
  && match ls_endpoint source with LegEndpointConfig.WebRtc _ => true | _ => false end
  && match plan_leg_signaling_initiator plan (ls_leg_id source) with
     | Ok SignalingInitiator.Remote => true | _ => false end
  && match plan_leg_signaling_initiator plan (ls_leg_id target) with
     | Ok SignalingInitiator.Bridgefu => true | _ => false end.

Definition validate_initial_context_target (state : MemoryState) (record : StoredInitialContext)
    : result RepositoryError () :=
  plan ← ok_or (rm_execution_plans state !! ic_call_id record) RepositoryError.NotFound;
  source ← ok_or (find_spec plan (ic_source_leg_id record)) RepositoryError.NotFound;
  target ← ok_or (find_spec plan (ic_target_leg_id record)) RepositoryError.NotFound;
  let unauthorized :=
    invalid "initial context target is not authorized by its execution plan" in
  match ls_endpoint target with
  | LegEndpointConfig.Sip _ =>
      mode ← sip_initial_context_mode plan (ls_leg_id target);
      if mode ==? SipInitialContextMode.Required then Ok () else unauthorized
  | LegEndpointConfig.AmazonConnect _ =>
      if web_rtc_source_dials plan source target record
         && is_ok (amazon_connect_start_spec plan (ls_leg_id target))
      then Ok () else unauthorized
  | LegEndpointConfig.Provider config =>
      if (pc_provider config ==? ProviderKind.Telnyx)
         && web_rtc_source_dials plan source target record
      then Ok () else unauthorized
  | _ => unauthorized
  end.

(** The binding that delivered the context is still the one of the source leg. *)
Definition source_binding (call : StoredCall) (record : StoredInitialContext)
    : option ConnectionBinding :=
  binding ← sc_bindings call !! ic_source_leg_id record;
  if (cb_connection_id binding ==? ic_source_connection_id record)
     && (cb_leg_id binding ==? ic_source_leg_id record)
     && (cb_binding_generation binding ==? ic_source_binding_generation record)
  then Some binding else None.

Definition record_initial_context_in_state (record : StoredInitialContext)
    : Tx InitialContextRecordOutcome := λ state,
  call ← tenant_call state (ic_tenant_id record) (ic_call_id record);
  reject_if (negb (bool_decide (ic_call_id record ∈ rm_service_managed_calls state)))
    RepositoryError.NotFound;;
  let key : InitialContextKey :=
    (ic_call_id record, ic_target_leg_id record, ic_target_binding_generation record) in
  match rm_initial_contexts state !! key with
  | Some existing =>
      if existing ==? record then Ok (InitialContextRecordOutcome.Replayed existing, state)
      else Err RepositoryError.CommandConflict
  | None =>
  reject_if (contains_key (rm_initial_context_message_ids state)
               (ic_call_id record, ic_message_id record)) RepositoryError.CommandConflict;;
  source ← ok_or (find_leg (sc_aggregate call) (ic_source_leg_id record)) RepositoryError.NotFound;
  target ← ok_or (find_leg (sc_aggregate call) (ic_target_leg_id record)) RepositoryError.NotFound;
  reject_if ((leg_binding_generation source !=? ic_source_binding_generation record)
             || (leg_binding_generation target !=? ic_target_binding_generation record))
    RepositoryError.StaleClaim;;
  validate_initial_context_target state record;;
  binding ← ok_or (source_binding call record) RepositoryError.StaleClaim;
  reject_if (ic_recorded_at record <? cb_bound_at binding)
    (RepositoryError.InvalidInput "initial context time predates its source binding");;
  Ok (InitialContextRecordOutcome.Recorded record,
      state
        <| rm_initial_context_message_ids :=
             <[(ic_call_id record, ic_message_id record) := key]>
               (rm_initial_context_message_ids state) |>
        <| rm_initial_contexts := <[key := record]> (rm_initial_contexts state) |>)
  end.

Definition record_initial_context (self : MemoryRepository) (record : StoredInitialContext)
    : MemoryRepository * result RepositoryError InitialContextRecordOutcome :=
  match validate_initial_context_payload record with
  | Err e => (self, Err e)
  | Ok _ => transaction self (record_initial_context_in_state record)
  end.

Definition load_initial_context (self : MemoryRepository) (tenant_id : TenantId) (call_id : CallId)
    (target_leg_id : LegId) (target_binding_generation : BindingGeneration)
    : result RepositoryError (option StoredInitialContext) :=
  read self (λ state,
    call ← tenant_call state tenant_id call_id;
    target ← ok_or (find_leg (sc_aggregate call) target_leg_id) RepositoryError.NotFound;
    reject_if (leg_binding_generation target !=? target_binding_generation) RepositoryError.StaleClaim;;
    let record :=
      rm_initial_contexts state !!
        ((call_id, target_leg_id, target_binding_generation) : InitialContextKey) in
    reject_if (is_some_and (λ record, ic_tenant_id record !=? tenant_id) record)
      RepositoryError.Unavailable;;
    Ok record).

(** The contexts admitted for the leg at or before a generation. *)
Definition context_candidates (state : MemoryState) (lookup : ReplacementInitialContextLookup)
    : list StoredInitialContext :=
  (List.filter (λ entry : InitialContextKey * StoredInitialContext,
     let '(call_id, target_leg_id, target_generation) := entry.1 in
     (call_id ==? il_call_id lookup) && (target_leg_id ==? il_target_leg_id lookup)
     && (target_generation <=? il_previous_binding_generation lookup)%N)
     (map_to_list (rm_initial_contexts state))).*2.

Definition load_replacement_initial_context_in_state (state : MemoryState)
    (lookup : ReplacementInitialContextLookup)
    : result RepositoryError (option StoredInitialContext) :=
  call ← tenant_call state (il_tenant_id lookup) (il_call_id lookup);
  reject_if (negb (bool_decide (il_call_id lookup ∈ rm_service_managed_calls state))
             || (ca_state (sc_aggregate call) !=? CallState.Transferring)) RepositoryError.StaleClaim;;
  replacement ← ok_or (ca_replacement (sc_aggregate call)) RepositoryError.StaleClaim;
  reject_if
    ((rp_leg_id replacement !=? il_target_leg_id lookup)
     || (rp_previous_binding_generation replacement !=? il_previous_binding_generation lookup)
     || (rp_pending_binding_generation replacement !=? il_pending_binding_generation lookup))
    RepositoryError.StaleClaim;;
  target ← ok_or (find_leg (sc_aggregate call) (il_target_leg_id lookup)) RepositoryError.NotFound;
  reject_if (leg_binding_generation target !=? il_previous_binding_generation lookup)
    RepositoryError.StaleClaim;;
  match context_candidates state lookup with
  | [] => Ok None
  | record :: others =>
      reject_if (negb (is_empty others) || (ic_tenant_id record !=? il_tenant_id lookup)
                 || (ic_call_id record !=? il_call_id lookup)
                 || (ic_target_leg_id record !=? il_target_leg_id lookup))
        RepositoryError.Unavailable;;
      match validate_initial_context_payload record with
      | Ok _ => Ok ()
      | Err _ => Err RepositoryError.Unavailable
      end;;
      source ← ok_or (find_leg (sc_aggregate call) (ic_source_leg_id record))
        RepositoryError.Unavailable;
      reject_if (leg_binding_generation source !=? ic_source_binding_generation record)
        RepositoryError.StaleClaim;;
      binding ← ok_or (source_binding call record) RepositoryError.StaleClaim;
      reject_if (ic_recorded_at record <? cb_bound_at binding) RepositoryError.Unavailable;;
      Ok (Some record)
  end.

Definition load_replacement_initial_context (self : MemoryRepository)
    (lookup : ReplacementInitialContextLookup)
    : result RepositoryError (option StoredInitialContext) :=
  read self (λ state, load_replacement_initial_context_in_state state lookup).

End Service.
