(* ===== verification/ServiceReconcile.v ===== *)
(** Reconciliation in the standalone call service repository ([src/persistence/memory.rs]): the
    result of an executed effect and the application of a provider callback, each with the external
    references it binds and the service command it commits, in one transaction. *)

From S2P Require Import Prelude RustText DomainTypes CoordModel Domain.
From S2P Require Import RepoTypes ServiceTypes RepoMemory RepoClaims Context PlanModel ServiceCommands ServiceMemory.
From stdpp Require Import options.

#[export] Instance ProviderEventEnvelope_eq : EqDecision ProviderEventEnvelope.
Proof. solve_decision. Defined.
#[export] Instance ProviderEventReconciliationTransaction_eq
    : EqDecision ProviderEventReconciliationTransaction.
Proof. solve_decision. Defined.

(** ** External references *)

Definition external_reference_key (value : ExternalReferenceValue) : ExternalReferenceKey :=
  match value with
  | ExternalReferenceValue.ProviderCall account provider_call_id =>
      ExternalReferenceKey.Provider account provider_call_id
  | ExternalReferenceValue.Signaling namespace value =>
      ExternalReferenceKey.Signaling namespace value
  end.

Definition validate_external_reference_effect (record : OutboxRecord)
    (binding : ExternalReferenceBinding) : result RepositoryError () :=
  let valid :=
    match ob_intent record with
    | StartLeg leg_id binding_generation _ _ =>
        (leg_id ==? xb_leg_id binding) && (binding_generation ==? xb_binding_generation binding)
        && (xb_role binding ==? ProviderReferenceRole.Media)
    | ConnectProviderDestination leg_id binding_generation =>
        (leg_id ==? xb_leg_id binding) && (binding_generation ==? xb_binding_generation binding)
        && (xb_role binding ==? ProviderReferenceRole.Destination)
    | StartLegReplacement leg_id _ pending_binding_generation _ _ =>
        (leg_id ==? xb_leg_id binding)
        && (pending_binding_generation ==? xb_binding_generation binding)
    | _ => false
    end in
  reject_if (negb valid)
    (RepositoryError.InvalidInput "external reference role does not match its provider effect").

(** [ServiceEffectSnapshot]: the claimed row, of the outbox or of the control outbox. *)
Module ServiceEffectSnapshot.
Inductive ServiceEffectSnapshot :=
| Call (record : OutboxRecord)
| Control (record : ControlOutboxRecord).
End ServiceEffectSnapshot.
Abbreviation ServiceEffectSnapshot := ServiceEffectSnapshot.ServiceEffectSnapshot.

Section Reconcile.
Context `{Chrono, ServiceLibs}.

Definition is_contact_kind (namespace : rstr) : bool :=
  namespace ==? AMAZON_CONNECT_CONTACT_REFERENCE_KIND.

Definition validate_external_reference_endpoint (endpoint : LegEndpointConfig)
    (value : ExternalReferenceValue) : result RepositoryError () :=
  let valid :=
    match endpoint, value with
    | LegEndpointConfig.AmazonConnect _, ExternalReferenceValue.Signaling namespace _ =>
        is_contact_kind namespace
    | LegEndpointConfig.Provider config, ExternalReferenceValue.ProviderCall account _ =>
        account ==? pc_account_profile config
    | LegEndpointConfig.Provider _, ExternalReferenceValue.Signaling _ _ => false
    | _, ExternalReferenceValue.ProviderCall _ _ => false
    | _, ExternalReferenceValue.Signaling namespace _ => negb (is_contact_kind namespace)
    end in
  reject_if (negb valid) RepositoryError.ProviderReferenceConflict.

Definition validate_external_reference_authority (state : MemoryState) (call_id : CallId)
    (leg_id : LegId) (binding_generation : BindingGeneration) (effect_id : EffectId)
    (value : ExternalReferenceValue) : result RepositoryError () :=
  match rm_service_effect_payloads state !! effect_id with
  | Some payload =>
      record ← ok_or (rm_outbox state !! effect_id) RepositoryError.ProviderReferenceConflict;
      match sp_payload payload with
      | ServiceEffectPayload.LegReplacement r =>
          reject_if ((ob_call_id record !=? call_id) || (lp_leg_id r !=? leg_id)
                     || (lp_pending_binding_generation r !=? binding_generation))
            RepositoryError.ProviderReferenceConflict;;
          validate_external_reference_endpoint (lp_endpoint r) value
      | ServiceEffectPayload.Transfer _ _ _ => Err RepositoryError.ProviderReferenceConflict
      end
  | None =>
      plan ← ok_or (rm_execution_plans state !! call_id) RepositoryError.NotFound;
      spec ← ok_or (find_spec plan leg_id) RepositoryError.ProviderReferenceConflict;
      validate_external_reference_endpoint (ls_endpoint spec) value
  end.

(** The effect is the one that started the pending generation of the leg. *)
Definition replacement_generation_authorized (state : MemoryState) (effect_id : EffectId)
    (leg_id : LegId) (binding_generation : BindingGeneration) : bool :=
  is_some_and (λ payload,
    match sp_payload payload with
    | ServiceEffectPayload.LegReplacement r =>
        (lp_leg_id r ==? leg_id) && (lp_pending_binding_generation r ==? binding_generation)
    | ServiceEffectPayload.Transfer _ _ _ => false
    end) (rm_service_effect_payloads state !! effect_id).

Definition store_external_reference_in_state (request : EffectResultReconciliation)
    (binding : ExternalReferenceBinding)
    : Tx (StoredExternalReference * list ProviderEventEnvelope) := λ state,
  validate_external_reference_authority state (er_call_id request) (xb_leg_id binding)
    (xb_binding_generation binding) (er_effect_id request) (xb_value binding);;
  call ← tenant_call state (er_tenant_id request) (er_call_id request);
  leg ← ok_or (find_leg (sc_aggregate call) (xb_leg_id binding)) RepositoryError.NotFound;
  reject_if ((leg_binding_generation leg !=? xb_binding_generation binding)
             && negb (replacement_generation_authorized state (er_effect_id request)
                        (xb_leg_id binding) (xb_binding_generation binding)))
    RepositoryError.StaleClaim;;
  let binding_key : ExternalReferenceBindingKey :=
    (er_call_id request, xb_leg_id binding, xb_binding_generation binding, xb_role binding) in
  let reference_key := external_reference_key (xb_value binding) in
  reject_if (contains_key (rm_external_references state) reference_key
             || contains_key (rm_external_reference_bindings state) binding_key)
    RepositoryError.ProviderReferenceConflict;;
  let stored :=
    {| xr_tenant_id := er_tenant_id request; xr_call_id := er_call_id request;
       xr_leg_id := xb_leg_id binding; xr_binding_generation := xb_binding_generation binding;
       xr_role := xb_role binding; xr_effect_id := er_effect_id request;
       xr_value := xb_value binding; xr_bound_at := er_at request |} in
  let state :=
    state
      <| rm_external_reference_bindings :=
           <[binding_key := reference_key]> (rm_external_reference_bindings state) |>
      <| rm_external_references :=
           <[reference_key := stored]> (rm_external_references state) |> in
  '(released, state) ←
    match xb_value binding with
    | ExternalReferenceValue.ProviderCall account provider_call_id =>
        bind_provider_reference_in_state
          {| bp_tenant_id := er_tenant_id request; bp_call_id := er_call_id request;
             bp_leg_id := xb_leg_id binding; bp_role := xb_role binding; bp_account := account;
             bp_provider_call_id := provider_call_id; bp_worker := er_worker request;
             bp_at := er_at request |} state
    | ExternalReferenceValue.Signaling _ _ => Ok ([], state)
    end;
  Ok ((stored, released), state).

Fixpoint store_external_references (request : EffectResultReconciliation)
    (bindings : list ExternalReferenceBinding)
    : Tx (list StoredExternalReference * list ProviderEventEnvelope) := λ state,
  match bindings with
  | [] => Ok (([], []), state)
  | binding :: bindings =>
      '((stored, released), state) ← store_external_reference_in_state request binding state;
      '((rest, more), state) ← store_external_references request bindings state;
      Ok ((stored :: rest, released ++ more), state)
  end.

(** The lookup shared by the readers of a reference, by the key of its binding. *)
Definition referenced (state : MemoryState) (tenant_id : TenantId) (key : ExternalReferenceBindingKey)
    (matches_ : StoredExternalReference → bool)
    : result RepositoryError (option StoredExternalReference) :=
  match rm_external_reference_bindings state !! key with
  | None => Ok None
  | Some reference_key =>
      reference ← ok_or (rm_external_references state !! reference_key) RepositoryError.Unavailable;
      reject_if ((xr_tenant_id reference !=? tenant_id) || negb (matches_ reference))
        RepositoryError.Unavailable;;
      Ok (Some reference)
  end.

Definition load_external_reference (self : MemoryRepository) (tenant_id : TenantId)
    (call_id : CallId) (leg_id : LegId) : result RepositoryError (option StoredExternalReference) :=
  read self (λ state,
    call ← tenant_call state tenant_id call_id;
    leg ← ok_or (find_leg (sc_aggregate call) leg_id) RepositoryError.NotFound;
    referenced state tenant_id
      (call_id, leg_id, leg_binding_generation leg, ProviderReferenceRole.Media) (λ _, true)).

Definition load_external_reference_by_role (self : MemoryRepository) (tenant_id : TenantId)
    (call_id : CallId) (leg_id : LegId) (role : ProviderReferenceRole)
    : result RepositoryError (option StoredExternalReference) :=
  read self (λ state,
    call ← tenant_call state tenant_id call_id;
    leg ← ok_or (find_leg (sc_aggregate call) leg_id) RepositoryError.NotFound;
    referenced state tenant_id (call_id, leg_id, leg_binding_generation leg, role)
      (λ reference, xr_role reference ==? role)).

Definition load_external_reference_for_binding (self : MemoryRepository) (tenant_id : TenantId)
    (call_id : CallId) (leg_id : LegId) (binding_generation : BindingGeneration)
    (role : ProviderReferenceRole) : result RepositoryError (option StoredExternalReference) :=
  read self (λ state,
    call ← tenant_call state tenant_id call_id;
    reject_if (is_none (find_leg (sc_aggregate call) leg_id)) RepositoryError.NotFound;;
    referenced state tenant_id (call_id, leg_id, binding_generation, role)
      (λ reference, (xr_binding_generation reference ==? binding_generation)
                    && (xr_role reference ==? role))).

(** ** Effect results *)

(** [request.external_reference.iter().chain(&request.additional_external_references)]. *)
Definition all_references (request : EffectResultReconciliation) : list ExternalReferenceBinding :=
  match er_external_reference request with Some reference => [reference] | None => [] end
  ++ er_additional_external_references request.

(** The two duplicate checks of [normalize_reconciliation]. *)
Fixpoint distinct_references (references : list ExternalReferenceBinding)
    (binding_keys : list (LegId * BindingGeneration * ProviderReferenceRole))
    (reference_keys : list ExternalReferenceKey) : bool :=
  match references with
  | [] => true
  | reference :: references =>
      let binding_key :=
        (xb_leg_id reference, xb_binding_generation reference, xb_role reference) in
      let reference_key := external_reference_key (xb_value reference) in
      negb (bool_decide (binding_key ∈ binding_keys))
      && negb (bool_decide (reference_key ∈ reference_keys))
      && distinct_references references (binding_key :: binding_keys)
           (reference_key :: reference_keys)
  end.

Definition normalize_optional (follow_up : option ServiceCommandTransaction)
    : result RepositoryError (option ServiceCommandTransaction) :=
  match follow_up with
  | Some follow_up =>
      follow_up ← normalize_service_command follow_up;
      Ok (Some follow_up)
  | None => Ok None
  end.

Definition normalize_reconciliation (request : EffectResultReconciliation)
    : result RepositoryError EffectResultReconciliation :=
  follow_up ← normalize_optional (er_follow_up request);
  let request := request <| er_follow_up := follow_up |> in
  try_each (λ reference, ExternalReferenceValue_validate (xb_value reference))
    (all_references request);;
  reject_if (negb (distinct_references (all_references request) [] []))
    RepositoryError.ProviderReferenceConflict;;
  Ok request.

Definition effect_snapshot (state : MemoryState) (effect_id : EffectId)
    : result RepositoryError ServiceEffectSnapshot :=
  match rm_outbox state !! effect_id, rm_control_outbox state !! effect_id with
  | Some record, None => Ok (ServiceEffectSnapshot.Call record)
  | None, Some record => Ok (ServiceEffectSnapshot.Control record)
  | None, None => Err RepositoryError.NotFound
  | Some _, Some _ => Err RepositoryError.Unavailable
  end.

Definition snapshot_owner (effect : ServiceEffectSnapshot) : TenantId * CallId * WorkerLease :=
  match effect with
  | ServiceEffectSnapshot.Call r => (ob_tenant_id r, ob_call_id r, ob_worker r)
  | ServiceEffectSnapshot.Control r => (cx_tenant_id r, cx_call_id r, cx_worker r)
  end.

Definition snapshot_state (effect : ServiceEffectSnapshot) : OutboxState :=
  match effect with
  | ServiceEffectSnapshot.Call r => ob_state r
  | ServiceEffectSnapshot.Control r => cx_state r
  end.

Definition snapshot_available_at (effect : ServiceEffectSnapshot) : DateTime :=
  match effect with
  | ServiceEffectSnapshot.Call r => ob_available_at r
  | ServiceEffectSnapshot.Control r => cx_available_at r
  end.

Definition validate_control_effect_target (call : StoredCall) (record : ControlOutboxRecord)
    : result RepositoryError () :=
  leg ← ok_or (find_leg (sc_aggregate call) (cx_leg_id record)) RepositoryError.StaleClaim;
  reject_if ((leg_binding_generation leg !=? cx_binding_generation record)
             || negb (connected_or_held (leg_state leg))) RepositoryError.StaleClaim;;
  binding ← ok_or (sc_bindings call !! cx_leg_id record) RepositoryError.StaleClaim;
  reject_if ((cb_leg_id binding !=? leg_id leg)
             || (cb_binding_generation binding !=? cx_binding_generation record))
    RepositoryError.StaleClaim;;
  reject_if ((cx_available_at record <? cb_bound_at binding)
             || is_some (wa_released_at (sc_assignment call))) RepositoryError.StaleClaim.

(** A failed effect may bind only the media reference of its replacement, for cleanup. *)
Definition failed_replacement_media (effect : ServiceEffectSnapshot)
    (references : list ExternalReferenceBinding) : bool :=
  match effect, references with
  | ServiceEffectSnapshot.Call record, [reference] =>
      match ob_intent record with
      | StartLegReplacement _ _ _ _ _ => xb_role reference ==? ProviderReferenceRole.Media
      | _ => false
      end
  | _, _ => false
  end.

Definition validate_effect_references (effect : ServiceEffectSnapshot)
    (request : EffectResultReconciliation) : result RepositoryError () :=
  let references := all_references request in
  reject_if
    (negb (is_empty references)
     && match er_result request with
        | ServiceEffectResult.Failed _ => negb (failed_replacement_media effect references)
        | ServiceEffectResult.Succeeded => false
        end)
    (RepositoryError.InvalidInput
       "failed effect can bind only its replacement media reference for cleanup");;
  match effect with
  | ServiceEffectSnapshot.Control _ =>
      reject_if (negb (is_empty references))
        (RepositoryError.InvalidInput "control effect cannot bind an external reference")
  | ServiceEffectSnapshot.Call record =>
      try_each (validate_external_reference_effect record) references
  end.

(** The three-way match of [validate_effect_follow_up]. *)
Definition follow_up_matches (intent : EffectIntent) (result : ServiceEffectResult)
    (command : CallCommand) : bool :=
  match intent, result, command with
  | StartLeg leg generation _ _, ServiceEffectResult.Succeeded,
    ProviderMediaStarted _ command_leg command_generation =>
      (leg ==? command_leg) && (generation ==? command_generation)
  | StartLeg leg generation kind direction, ServiceEffectResult.Succeeded,
    SetLegState _ command_leg command_generation state failure =>
      match state, failure with
      | LegState.Failed, Some _ =>
          (kind ==? LegKind.AmazonConnect) && (direction ==? LegDirection.Outbound)
          && (leg ==? command_leg) && (generation ==? command_generation)
      | (LegState.Signaling | LegState.Connected), None =>
          (leg ==? command_leg) && (generation ==? command_generation)
      | _, _ => false
      end
  | (StartLeg leg generation _ _ | ConnectProviderDestination leg generation
     | StopLeg leg generation _), ServiceEffectResult.Failed expected,
    SetLegState _ command_leg command_generation LegState.Failed (Some actual) =>
      (leg ==? command_leg) && (generation ==? command_generation) && (expected ==? actual)
  | StopLeg leg generation _, ServiceEffectResult.Succeeded,
    SetLegState _ command_leg command_generation LegState.Ended None =>
      (leg ==? command_leg) && (generation ==? command_generation)
  | BridgeMedia left_leg right_leg, ServiceEffectResult.Failed expected,
    SetLegState _ leg _ LegState.Failed (Some actual) =>
      ((leg ==? left_leg) || (leg ==? right_leg)) && (expected ==? actual)
  | ExecuteTransfer generation, ServiceEffectResult.Succeeded,
    FinishTransfer _ command_generation TransferCompleted => generation ==? command_generation
  | ExecuteTransfer generation, ServiceEffectResult.Failed expected,
    FinishTransfer _ command_generation (TransferRejected actual) =>
      (generation ==? command_generation) && (expected ==? actual)
  | StartLegReplacement _ _ pending _ generation, ServiceEffectResult.Succeeded,
    FinishLegReplacement _ command_deadline command_binding ReplacementConnected =>
      (generation ==? command_deadline) && (pending ==? command_binding)
  | StartLegReplacement _ _ pending _ generation, ServiceEffectResult.Failed expected,
    FinishLegReplacement _ command_deadline command_binding (ReplacementRejected actual) =>
      (generation ==? command_deadline) && (pending ==? command_binding) && (expected ==? actual)
  | _, _, _ => false
  end.

Definition validate_effect_follow_up (intent : EffectIntent) (result : ServiceEffectResult)
    (command : CallCommand) : Prelude.result RepositoryError () :=
  reject_if (negb (follow_up_matches intent result command))
    (RepositoryError.InvalidInput "effect follow-up does not match claimed intent or result").

(** A follow-up that must commit now: a replay of it is a conflict. *)
Definition commit_follow_up (new_id : nat → EffectId) (follow_up : ServiceCommandTransaction)
    : Tx ServiceCommandView := λ state,
  '(outcome, state) ← commit_service_command_in_state new_id follow_up false state;
  match outcome with
  | ServiceCommandOutcome.Committed view => Ok (view, state)
  | ServiceCommandOutcome.Replayed _ => Err RepositoryError.CommandConflict
  end.

Definition follow_up_differs (follow_up : ServiceCommandTransaction) (tenant_id : TenantId)
    (call_id : CallId) (worker : WorkerLease) (at_ : DateTime) : bool :=
  let command := st_command follow_up in
  (ct_tenant_id command !=? tenant_id) || (ct_call_id command !=? call_id)
  || (ct_worker command !=? worker) || (ct_at command !=? at_)
  || (command_at (ct_command command) !=? at_).

Definition effect_follow_up (new_id : nat → EffectId) (effect : ServiceEffectSnapshot)
    (request : EffectResultReconciliation) : Tx (option ServiceCommandView) := λ state,
  match effect, er_follow_up request with
  | ServiceEffectSnapshot.Control _, Some _ => invalid "control effect cannot commit a call follow-up"
  | _, None => Ok (None, state)
  | ServiceEffectSnapshot.Call record, Some follow_up =>
      reject_if (follow_up_differs follow_up (er_tenant_id request) (er_call_id request)
                   (er_worker request) (er_at request))
        (RepositoryError.InvalidInput "effect follow-up ownership or timestamp differs");;
      validate_effect_follow_up (ob_intent record) (er_result request)
        (ct_command (st_command follow_up));;
      '(view, state) ← commit_follow_up new_id follow_up state;
      Ok (Some view, state)
  end.

Definition completed_state (request : EffectResultReconciliation) : OutboxState :=
  match er_result request with
  | ServiceEffectResult.Succeeded => OutboxState.Succeeded (er_at request)
  | ServiceEffectResult.Failed failure => OutboxState.Failed (er_at request) failure
  end.

Definition complete_effect (effect : ServiceEffectSnapshot) (request : EffectResultReconciliation)
    : Tx CompletedServiceEffect := λ state,
  match effect with
  | ServiceEffectSnapshot.Call _ =>
      record ← ok_or (rm_outbox state !! er_effect_id request) RepositoryError.NotFound;
      let record := record <| ob_state := completed_state request |> in
      Ok (CompletedServiceEffect.Call record,
          state <| rm_outbox := <[er_effect_id request := record]> (rm_outbox state) |>)
  | ServiceEffectSnapshot.Control _ =>
      record ← ok_or (rm_control_outbox state !! er_effect_id request) RepositoryError.NotFound;
      let record := record <| cx_state := completed_state request |> in
      Ok (CompletedServiceEffect.Control record,
          state <| rm_control_outbox := <[er_effect_id request := record]> (rm_control_outbox state) |>)
  end.

(** The guards of [reconcile_effect_result_in_state]: the claimed row they accept. *)
Definition reconcilable_effect (state : MemoryState) (request : EffectResultReconciliation)
    : result RepositoryError ServiceEffectSnapshot :=
  ensure_worker state (er_worker request) true (er_at request);;
  effect ← effect_snapshot state (er_effect_id request);
  reject_if (snapshot_owner effect !=? (er_tenant_id request, er_call_id request, er_worker request))
    RepositoryError.StaleClaim;;
  validate_effect_claim (snapshot_state effect) (er_worker request) (er_claim_generation request)
    (er_at request);;
  reject_if (er_at request <? snapshot_available_at effect)
    (RepositoryError.InvalidInput "effect completion predates effect availability");;
  call ← tenant_call state (er_tenant_id request) (er_call_id request);
  reject_if (wa_lease (sc_assignment call) !=? er_worker request) RepositoryError.StaleWorkerFence;;
  match effect with
  | ServiceEffectSnapshot.Control record => validate_control_effect_target call record
  | ServiceEffectSnapshot.Call _ => Ok ()
  end;;
  reject_if
    (negb (bool_decide (er_call_id request ∈ rm_service_managed_calls state))
     || negb (contains_key (rm_execution_plans state) (er_call_id request)))
    RepositoryError.NotFound;;
  validate_effect_references effect request;;
  Ok effect.

(** The stored references, split as the request has them. *)
Definition split_references (request : EffectResultReconciliation)
    (stored : list StoredExternalReference)
    : option StoredExternalReference * list StoredExternalReference :=
  match er_external_reference request with
  | Some _ => (head stored, tail stored)
  | None => (None, stored)
  end.

Definition reconcile_effect_result_in_state (new_id : nat → EffectId)
    (request : EffectResultReconciliation) : Tx EffectResultOutcome := λ state,
  match rm_reconciliation_results state !! er_effect_id request with
  | Some existing =>
      if ro_request existing ==? request
      then Ok (EffectResultOutcome.Replayed (ro_view existing), state)
      else Err RepositoryError.StaleClaim
  | None =>
      effect ← reconcilable_effect state request;
      '((stored, released), state) ←
        store_external_references request (all_references request) state;
      '(follow_up, state) ← effect_follow_up new_id effect request state;
      '(completed, state) ← complete_effect effect request state;
      let '(external_reference, additional) := split_references request stored in
      let view :=
        {| ev_effect := completed; ev_external_reference := external_reference;
           ev_additional_external_references := additional;
           ev_released_provider_events := sort_by compare_receipts released;
           ev_follow_up := follow_up |} in
      Ok (EffectResultOutcome.Reconciled view,
          state <| rm_reconciliation_results :=
            <[er_effect_id request := {| ro_request := request; ro_view := view |}]>
              (rm_reconciliation_results state) |>)
  end.

Definition reconcile_effect_result (new_id : nat → EffectId) (self : MemoryRepository)
    (request : EffectResultReconciliation)
    : MemoryRepository * result RepositoryError EffectResultOutcome :=
  match normalize_reconciliation request with
  | Err e => (self, Err e)
  | Ok request => transaction self (reconcile_effect_result_in_state new_id request)
  end.

(** ** Provider callbacks *)

Definition normalize_provider_event_reconciliation
    (request : ProviderEventReconciliationTransaction)
    : result RepositoryError ProviderEventReconciliationTransaction :=
  follow_up ← normalize_optional (pv_follow_up request);
  reject_if
    (is_some_and (λ follow_up, is_some (st_operation_idempotency follow_up)
                               || is_some (st_bound_connection follow_up)) follow_up)
    (RepositoryError.InvalidInput
       "provider follow-up cannot carry public or transport idempotency");;
  Ok (request <| pv_follow_up := follow_up |>).

Definition provider_external_reference (state : MemoryState) (event : ProviderEventEnvelope)
    (target : ProviderEventTarget) : result RepositoryError StoredExternalReference :=
  let key := ExternalReferenceKey.Provider (pe_account event) (pe_provider_call_id event) in
  reference ← ok_or (rm_external_references state !! key) RepositoryError.ProviderReferenceConflict;
  let binding_key : ExternalReferenceBindingKey :=
    (pt_call_id target, pt_leg_id target, xr_binding_generation reference, pt_role target) in
  reject_if
    ((xr_tenant_id reference !=? pt_tenant_id target)
     || (xr_call_id reference !=? pt_call_id target)
     || (xr_leg_id reference !=? pt_leg_id target)
     || (xr_role reference !=? pt_role target)
     || (xr_value reference !=?
           ExternalReferenceValue.ProviderCall (pe_account event) (pe_provider_call_id event))
     || (rm_external_reference_bindings state !! binding_key !=? Some key))
    RepositoryError.ProviderReferenceConflict;;
  Ok reference.

Definition provider_endpoint_of (endpoint : LegEndpointConfig) (account : ProviderAccountKey) : bool :=
  match endpoint with
  | LegEndpointConfig.Provider config => pc_account_profile config ==? account
  | _ => false
  end.

(** The follow-up finishes the replacement whose pending generation the reference belongs to. *)
Definition pending_replacement_follow_up (call : CallAggregate) (target : ProviderEventTarget)
    (reference : StoredExternalReference) (follow_up : option ServiceCommandTransaction) : bool :=
  match follow_up, ca_replacement call with
  | Some follow_up, Some replacement =>
      match ct_command (st_command follow_up) with
      | FinishLegReplacement _ _ pending_binding_generation _ =>
          (rp_leg_id replacement ==? pt_leg_id target)
          && (rp_pending_binding_generation replacement ==? xr_binding_generation reference)
          && (pending_binding_generation ==? xr_binding_generation reference)
      | _ => false
      end
  | _, _ => false
  end.

Definition ensure_provider_event_service_reference (state : MemoryState)
    (event : ProviderEventEnvelope) (request : ProviderEventReconciliationTransaction)
    (require_current_generation : bool) : result RepositoryError () :=
  let target := pv_target request in
  call ← tenant_call state (pt_tenant_id target) (pt_call_id target);
  reject_if (negb (bool_decide (pt_call_id target ∈ rm_service_managed_calls state)))
    RepositoryError.NotFound;;
  reference ← provider_external_reference state event target;
  let plan_authorized :=
    is_some_and (λ spec, provider_endpoint_of (ls_endpoint spec) (pv_account request))
      (plan ← rm_execution_plans state !! pt_call_id target; find_spec plan (pt_leg_id target)) in
  let replacement_authorized :=
    is_some_and (λ payload,
      match sp_payload payload with
      | ServiceEffectPayload.LegReplacement r =>
          (lp_leg_id r ==? pt_leg_id target)
          && provider_endpoint_of (lp_endpoint r) (pv_account request)
      | ServiceEffectPayload.Transfer _ _ _ => false
      end) (rm_service_effect_payloads state !! xr_effect_id reference) in
  reject_if (negb plan_authorized && negb replacement_authorized)
    RepositoryError.ProviderReferenceConflict;;
  leg ← ok_or (find_leg (sc_aggregate call) (pt_leg_id target))
    RepositoryError.ProviderReferenceConflict;
  reject_if
    (require_current_generation
     && (leg_binding_generation leg !=? xr_binding_generation reference)
     && negb (pending_replacement_follow_up (sc_aggregate call) target reference
                (pv_follow_up request))) RepositoryError.StaleClaim;;
  provider_reference ←
    ok_or (rm_provider_references state !!
             ((pv_account request, pe_provider_call_id event) : ProviderReferenceKey))
      RepositoryError.ProviderReferenceConflict;
  reject_if ((pr_target provider_reference !=? target)
             || (pr_bound_at provider_reference !=? xr_bound_at reference))
    RepositoryError.ProviderReferenceConflict.

Definition ensure_stale_or_terminal_provider_ack (state : MemoryState)
    (event : ProviderEventEnvelope) (target : ProviderEventTarget) (worker : WorkerLease)
    (at_ : DateTime) : result RepositoryError () :=
  call ← tenant_call state (pt_tenant_id target) (pt_call_id target);
  if call_is_terminal (ca_state (sc_aggregate call))
  then ensure_terminal_call_worker state target worker at_
  else
    ensure_call_worker state (pt_tenant_id target) (pt_call_id target) worker at_;;
    reference ← provider_external_reference state event target;
    leg ← ok_or (find_leg (sc_aggregate call) (pt_leg_id target))
      RepositoryError.ProviderReferenceConflict;
    reject_if (xr_binding_generation reference ==? leg_binding_generation leg)
      RepositoryError.ProviderReferenceConflict.

(** The transfer deadline is armed at the generation the command names. *)
Definition transfer_deadline_matches (call : CallAggregate) (generation : DeadlineGeneration) : bool :=
  let slot := deadline_get (ca_deadlines call) DeadlineKind.Transfer in
  is_some (slot_due_at slot) && (slot_generation slot ==? generation).

Definition provider_follow_up_valid (target : ProviderEventTarget)
    (reference_generation : BindingGeneration) (call : CallAggregate) (command : CallCommand) : bool :=
  match command with
  | SetLegState _ leg_id generation state _ =>
      (leg_id ==? pt_leg_id target) && (generation ==? reference_generation)
      && match state with LegState.Pending | LegState.AwaitingAttach => false | _ => true end
  | RotateLegBinding _ leg_id generation =>
      (leg_id ==? pt_leg_id target) && (generation ==? reference_generation)
  | FinishTransfer _ deadline_generation _ =>
      (pt_role target ==? ProviderReferenceRole.Media)
      && (ca_state call ==? CallState.Transferring)
      && is_some_and (λ leg, leg_binding_generation leg ==? reference_generation)
           (find_leg call (pt_leg_id target))
      && transfer_deadline_matches call deadline_generation
  | FinishLegReplacement _ deadline_generation pending_binding_generation result =>
      match result with
      | ReplacementConnected => pt_role target ==? ProviderReferenceRole.Destination
      | ReplacementRejected _ => true
      end
      && (ca_state call ==? CallState.Transferring)
      && is_some_and (λ replacement,
           (rp_leg_id replacement ==? pt_leg_id target)
           && (rp_pending_binding_generation replacement ==? reference_generation)
           && (pending_binding_generation ==? reference_generation)) (ca_replacement call)
      && transfer_deadline_matches call deadline_generation
  | BeginEnding _ _ _ => true
  | _ => false
  end.

Definition validate_provider_service_follow_up (target : ProviderEventTarget)
    (reference_generation : BindingGeneration) (call : CallAggregate) (command : CallCommand)
    : result RepositoryError () :=
  reject_if (negb (provider_follow_up_valid target reference_generation call command))
    (RepositoryError.InvalidInput "provider follow-up does not match the referenced provider leg").

(** The claim is current for the worker's clock and for the authority's. *)
Definition service_claim_held (state : MemoryState) (event : ProviderEventEnvelope)
    (request : ProviderEventReconciliationTransaction) : bool :=
  match pe_state event with
  | ProviderEventState.Claimed worker generation claimed_at expires_at =>
      (worker ==? pv_worker request) && (generation ==? pv_claim_generation request)
      && (pe_received_at event <=? pv_at request) && (claimed_at <=? pv_at request)
      && (pv_at request <? expires_at)
      && (authoritative_time state (pv_at request) <? expires_at)
  | _ => false
  end.

Definition provider_follow_up (new_id : nat → EffectId) (event : ProviderEventEnvelope)
    (request : ProviderEventReconciliationTransaction) : Tx (option ServiceCommandView) := λ state,
  let target := pv_target request in
  match pv_follow_up request with
  | Some follow_up =>
      ensure_call_worker state (pt_tenant_id target) (pt_call_id target) (pv_worker request)
        (pv_at request);;
      reject_if (follow_up_differs follow_up (pt_tenant_id target) (pt_call_id target)
                   (pv_worker request) (pv_at request))
        (RepositoryError.InvalidInput "provider follow-up ownership or timestamp differs");;
      reference ← provider_external_reference state event target;
      call ← ok_or (rm_calls state !! pt_call_id target) RepositoryError.NotFound;
      validate_provider_service_follow_up target (xr_binding_generation reference)
        (sc_aggregate call) (ct_command (st_command follow_up));;
      '(view, state) ← commit_follow_up new_id follow_up state;
      Ok (Some view, state)
  | None =>
      ensure_stale_or_terminal_provider_ack state event target (pv_worker request) (pv_at request);;
      Ok (None, state)
  end.

Definition reconcile_provider_event_in_state (new_id : nat → EffectId)
    (request : ProviderEventReconciliationTransaction)
    : Tx ProviderEventReconciliationOutcome := λ state,
  let key : ProviderEventKey := (pv_account request, pv_event_digest request) in
  event ← ok_or (rm_provider_events state !! key) RepositoryError.NotFound;
  if pe_state event ==? ProviderEventState.Applied then
    match rm_provider_completions state !! key with
    | Some (ProviderCompletionRow.ServiceReconciliation recorded view) =>
        if (recorded ==? request) && (pw_event view ==? event)
        then Ok (ProviderEventReconciliationOutcome.Replayed view, state)
        else Err RepositoryError.StaleClaim
    | _ => Err RepositoryError.StaleClaim
    end
  else
  reject_if (pe_target event !=? Some (pv_target request)) RepositoryError.ProviderReferenceConflict;;
  ensure_provider_event_service_reference state event request (is_some (pv_follow_up request));;
  reject_if (negb (service_claim_held state event request)) RepositoryError.StaleClaim;;
  '(follow_up, state) ← provider_follow_up new_id event request state;
  event ← ok_or (rm_provider_events state !! key) RepositoryError.NotFound;
  let event :=
    event <| pe_state := ProviderEventState.Applied |> <| pe_applied_at := Some (pv_at request) |> in
  let view :=
    {| pw_event := event; pw_target := pv_target request; pw_worker := pv_worker request;
       pw_claim_generation := pv_claim_generation request; pw_follow_up := follow_up |} in
  reject_if (contains_key (rm_provider_completions state) key) RepositoryError.Unavailable;;
  Ok (ProviderEventReconciliationOutcome.Reconciled view,
      state <| rm_provider_events := <[key := event]> (rm_provider_events state) |>
            <| rm_provider_completions :=
                 <[key := ProviderCompletionRow.ServiceReconciliation request view]>
                   (rm_provider_completions state) |>).

Definition reconcile_provider_event (new_id : nat → EffectId) (self : MemoryRepository)
    (request : ProviderEventReconciliationTransaction)
    : MemoryRepository * result RepositoryError ProviderEventReconciliationOutcome :=
  match normalize_provider_event_reconciliation request with
  | Err e => (self, Err e)
  | Ok request => transaction self (reconcile_provider_event_in_state new_id request)
  end.

End Reconcile.
