(* ===== verification/RepoFrame.v ===== *)
(** What each transaction body of the standalone call repository writes: its result state as an
    update of the state it started from, with the guards it passed. *)

From S2P Require Import Prelude RustText DomainTypes CoordModel Domain DomainInv DomainSafety.
From S2P Require Import RepoTypes ServiceTypes RepoMemory RepoClaims.
From stdpp Require Import options.

(** ** Options and guards *)

(** Case analysis on the option a computation matches on. *)
Ltac open_option H :=
  match type of H with
  | match ?x with Some _ => _ | None => _ end = _ =>
      let E := fresh "E" in destruct x eqn:E
  end.

Lemma domain_rejected_ok {A} (r : result DomainError A) x : domain_rejected r = Ok x ↔ r = Ok x.
Proof. destruct r; cbn; split; congruence. Qed.

Lemma attachment_rejected_ok {A} (r : result RepositoryError A) x :
  attachment_rejected r = Ok x ↔ r = Ok x.
Proof. destruct r; cbn; split; congruence. Qed.

Lemma leased_worker_Some s lease k :
  leased_worker s lease = Some k ↔ rm_workers s !! wl_worker_id lease = Some k ∧ wk_lease k = lease.
Proof.
  unfold leased_worker. destruct (_ !! _) as [k'|]; cbn; [|naive_solver].
  case_bool_decide; naive_solver.
Qed.

Lemma tenant_call_ok s t id c :
  tenant_call s t id = Ok c ↔ rm_calls s !! id = Some c ∧ ca_tenant_id (sc_aggregate c) = t.
Proof.
  unfold tenant_call. rewrite ok_or_ok. destruct (rm_calls s !! id) as [c'|]; cbn; [|naive_solver].
  case_bool_decide; naive_solver.
Qed.

(** The lease is the current one of a registered worker whose lease has not expired. *)
Definition current_lease (s : MemoryState) (lease : WorkerLease) (at_ : DateTime) : Prop :=
  ∃ k, rm_workers s !! wl_worker_id lease = Some k ∧ wk_lease k = lease ∧
       authoritative_time s at_ < wk_lease_expires_at k.

Lemma ensure_worker_ok s lease allow at_ u :
  ensure_worker s lease allow at_ = Ok u ↔
  ∃ k, rm_workers s !! wl_worker_id lease = Some k ∧ wk_lease k = lease ∧
       authoritative_time s at_ < wk_lease_expires_at k ∧ (wk_draining k = true → allow = true).
Proof.
  unfold ensure_worker. rewrite result_bind_ok. destruct u. split.
  - intros (k & Hk & H). apply ok_or_ok, leased_worker_Some in Hk as [Hk Hl].
    cbv zeta in H. destruct (_ || _) eqn:E; [done|]. apply orb_false_iff in E as [E1 E2].
    pose proof (proj1 (bool_impl_false _ _) E2). exists k. split_and!; auto; lia.
  - intros (k & Hk & Hl & Ht & Hd). exists k. split.
    + by apply ok_or_ok, leased_worker_Some.
    + cbv zeta. replace (_ || _) with false; [done|]. symmetry. apply orb_false_iff. split; [lia|].
      by apply bool_impl_false.
Qed.

Lemma ensure_worker_current s lease allow at_ u :
  ensure_worker s lease allow at_ = Ok u → current_lease s lease at_.
Proof. intros (k & Hk & Hl & Ht & _)%ensure_worker_ok. by exists k. Qed.

Lemma ensure_call_worker_ok s t id w at_ u :
  ensure_call_worker s t id w at_ = Ok u ↔
  current_lease s w at_ ∧
  ∃ c, rm_calls s !! id = Some c ∧ ca_tenant_id (sc_aggregate c) = t ∧
       wa_released_at (sc_assignment c) = None ∧ wa_lease (sc_assignment c) = w.
Proof.
  unfold ensure_call_worker. rewrite result_bind_ok. destruct u. split.
  - intros ([] & Hw & H). apply ensure_worker_current in Hw. split; [done|].
    apply result_bind_ok in H as (c & [Hc Ht]%tenant_call_ok & H).
    destruct (_ || _) eqn:E; [done|]. apply orb_false_iff in E as [E1 E2].
    apply is_some_false in E1. bool_hyps. by exists c.
  - intros [(k & Hk & Hl & Ht) (c & Hc & Hten & Hr & Hlc)]. exists (). split.
    + apply ensure_worker_ok. by exists k.
    + apply result_bind_ok. exists c. split; [by apply tenant_call_ok|].
      rewrite Hr, Hlc. cbn. by rewrite bool_decide_eq_true_2.
Qed.

(** ** Idempotency retirement *)

Definition live_claims (at_ : DateTime) (i i' : gmap IdempotencyKey IdempotencyRow) : Prop :=
  ∀ k row, i' !! k = Some row ↔ i !! k = Some row ∧ at_ < ir_expires_at row.

Lemma retire_idempotency_row_ok at_ k s s' :
  retire_idempotency_row at_ k s = Ok s' →
  ∃ r, s' = s <| rm_idempotency := delete k (rm_idempotency s) |>
              <| rm_retired_operation_claims := r |>.
Proof.
  unfold retire_idempotency_row. destruct k as [t d]. intros H. inv_ok H.
  - injection H as <-. eexists. reflexivity.
  - injection H as <-. exists (rm_retired_operation_claims s). reflexivity.
Qed.

Lemma retire_idempotency_rows_ok at_ ks s s' :
  retire_idempotency_rows at_ ks s = Ok s' →
  ∃ i r, s' = s <| rm_idempotency := i |> <| rm_retired_operation_claims := r |> ∧
    ∀ k, i !! k = if bool_decide (k ∈ ks) then None else rm_idempotency s !! k.
Proof.
  revert s. induction ks as [|k ks IH]; intros s H; cbn in H.
  - injection H as <-. exists (rm_idempotency s), (rm_retired_operation_claims s).
    split; [by destruct s|]. intros k. by rewrite bool_decide_eq_false_2 by apply not_elem_of_nil.
  - inv_ok H. apply retire_idempotency_row_ok in Hx as [r ->].
    apply IH in H as (i & r' & -> & Hi). exists i, r'. split; [done|].
    intros k'. rewrite Hi. change (rm_idempotency (s <| rm_idempotency := delete k (rm_idempotency s) |>
      <| rm_retired_operation_claims := r |>)) with (delete k (rm_idempotency s)).
    destruct (base.decide (k' = k)) as [->|Hne].
    + rewrite lookup_delete_eq, (bool_decide_eq_true_2 (k ∈ k :: ks)) by set_solver.
      by case_bool_decide.
    + rewrite lookup_delete_ne by done.
      by rewrite (bool_decide_ext (k' ∈ k :: ks) (k' ∈ ks)) by set_solver.
Qed.

Lemma retire_expired_idempotency_ok s at_ s' :
  retire_expired_idempotency s at_ = Ok s' →
  ∃ i r, s' = s <| rm_idempotency := i |> <| rm_retired_operation_claims := r |> ∧
         live_claims at_ (rm_idempotency s) i.
Proof.
  intros (i & r & -> & Hi)%retire_idempotency_rows_ok. exists i, r. split; [done|].
  intros k row. rewrite Hi. case_bool_decide as Hin.
  - split; [done|]. intros [Hk Ht]. exfalso.
    apply list_elem_of_fmap in Hin as ([k' row'] & -> & Hin).
    apply list_elem_of_In, filter_In in Hin as [Hin He].
    apply list_elem_of_In, elem_of_map_to_list in Hin. cbn in *. simplify_eq. lia.
  - split; [|naive_solver]. intros Hk. split; [done|].
    destruct (Z.lt_ge_cases at_ (ir_expires_at row)); [done|]. exfalso. apply Hin.
    apply list_elem_of_fmap. exists (k, row). split; [done|].
    apply list_elem_of_In, filter_In. split; [|cbn; lia].
    by apply list_elem_of_In, elem_of_map_to_list.
Qed.

(** ** Attachment rows *)

(** The three attachment tables after an insertion: earlier rows stay, new rows are the
    requested ones. *)
Record attachments_inserted (tenant_id : TenantId) (call_id : CallId) (worker : WorkerLease)
    (issues : list AttachmentIssue) (s : MemoryState)
    (att : gmap AttachmentTokenDigest AttachmentRow) (ids : gmap AttachmentId AttachmentTokenDigest)
    (act : gmap BindingKey AttachmentTokenDigest) : Prop := {
  ins_kept d row : rm_attachments s !! d = Some row → att !! d = Some row;
  ins_new d row : att !! d = Some row → rm_attachments s !! d = Some row ∨
    ∃ issue, issue ∈ issues ∧ d = ai_token_digest issue ∧
             row = attachment_row tenant_id call_id worker issue;
  ins_ids id d : ids !! id = Some d → rm_attachment_ids s !! id = Some d ∨
    ∃ issue, issue ∈ issues ∧ id = ai_attachment_id issue ∧ d = ai_token_digest issue;
  ins_act key d : act !! key = Some d → rm_active_attachments s !! key = Some d ∨
    ∃ issue, issue ∈ issues ∧ d = ai_token_digest issue ∧
             key = (call_id, ai_leg_id issue, ai_binding_generation issue);
  ins_all issue : issue ∈ issues →
    att !! ai_token_digest issue = Some (attachment_row tenant_id call_id worker issue);
}.

Definition set_attachments (s : MemoryState) (att : gmap AttachmentTokenDigest AttachmentRow)
    (ids : gmap AttachmentId AttachmentTokenDigest) (act : gmap BindingKey AttachmentTokenDigest)
    : MemoryState :=
  s <| rm_attachment_ids := ids |> <| rm_active_attachments := act |> <| rm_attachments := att |>.

Lemma insert_attachment_rows_ok t id w issues s s' :
  insert_attachment_rows t id w issues s = Ok s' →
  ∃ att ids act, s' = set_attachments s att ids act ∧
                 attachments_inserted t id w issues s att ids act.
Proof.
  revert s. induction issues as [|issue issues IH]; intros s H; cbn in H.
  - injection H as <-. exists (rm_attachments s), (rm_attachment_ids s), (rm_active_attachments s).
    split; [by destruct s|]. split; auto; intros ? Hin; by apply not_elem_of_nil in Hin.
  - apply result_bind_ok in H as (s1 & H1 & H). unfold insert_attachment in H1.
    apply bind_unit_ok in H1 as [Hnew [= <-]].
    unfold validate_new_attachment in Hnew. apply reject_if_ok in Hnew.
    apply orb_false_iff in Hnew as [[Hd Hi]%orb_false_iff Ha].
    apply contains_key_false in Hd, Hi, Ha.
    apply IH in H as (att & ids & act & -> & [K N I A All]). clear IH.
    exists att, ids, act. split; [done|]. split.
    + intros d row Hr. apply K. cbn. rewrite lookup_insert_ne; [done|congruence].
    + intros d row [Hr|(i & ? & ? & ?)]%N; [|set_solver]. cbn in Hr.
      apply lookup_insert_Some in Hr as [[<- <-]|[_ Hr]]; [right|by left].
      exists issue. set_solver.
    + intros d row [Hr|(i & ? & ? & ?)]%I; [|set_solver]. cbn in Hr.
      apply lookup_insert_Some in Hr as [[<- <-]|[_ Hr]]; [right|by left].
      exists issue. set_solver.
    + intros d row [Hr|(i & ? & ? & ?)]%A; [|set_solver]. cbn in Hr.
      apply lookup_insert_Some in Hr as [[<- <-]|[_ Hr]]; [right|by left].
      exists issue. set_solver.
    + intros i [->|Hin]%elem_of_cons; [|by apply All]. apply K. cbn. apply lookup_insert_eq.
Qed.

Lemma insert_attachments_ok s t id w at_ issues s' :
  insert_attachments s t id w at_ issues = Ok s' →
  ∃ att ids act, s' = set_attachments s att ids act ∧
                 attachments_inserted t id w issues s att ids act.
Proof.
  unfold insert_attachments. intros H. inv_ok H. by eapply insert_attachment_rows_ok.
Qed.

(** ** Effects *)

(** The rows of a batch, in order. *)
Definition batch_records (new_id : nat → EffectId) (batch : EffectBatch) (index : nat)
    (effects : list EffectIntent) : list OutboxRecord :=
  imap (λ i intent, effect_record batch (new_id (index + i)%nat) (index + i) intent) effects.

(** Inserts rows under their effect ids. *)
Definition insert_records (records : list OutboxRecord) (outbox : gmap EffectId OutboxRecord)
    : gmap EffectId OutboxRecord :=
  foldl (λ m record, <[ob_effect_id record := record]> m) outbox records.

(** The deadline writes of a batch, in order. *)
Fixpoint persist_deadlines (batch : EffectBatch) (effects : list EffectIntent)
    (deadlines : gmap DeadlineKey DeadlineRecord)
    : result RepositoryError (gmap DeadlineKey DeadlineRecord) :=
  match effects with
  | [] => Ok deadlines
  | intent :: effects =>
      deadlines ← persist_deadline batch intent deadlines;
      persist_deadlines batch effects deadlines
  end.

Lemma persist_effects_from_ok new_id batch index effects s out s' :
  persist_effects_from new_id batch index effects s = Ok (out, s') →
  out = batch_records new_id batch index effects ∧
  ∃ dl, persist_deadlines batch effects (rm_deadlines s) = Ok dl ∧
        s' = s <| rm_deadlines := dl |> <| rm_outbox := insert_records out (rm_outbox s) |>.
Proof.
  revert index s out. induction effects as [|e effects IH]; intros index s out H; cbn in H.
  - injection H as <- <-. split; [done|]. exists (rm_deadlines s). split; [done|]. by destruct s.
  - apply bind_unit_ok in H as [_ H]. apply result_bind_ok in H as (dl & Hdl & H).
    apply result_bind_ok in H as ([out' s1] & H1 & H). cbn in H. injection H as <- <-.
    apply IH in H1 as (-> & dl' & Hd & ->). cbn in Hd. split.
    + unfold batch_records. cbn. rewrite Nat.add_0_r. f_equal. apply imap_ext. intros i x _. cbn.
      by rewrite Nat.add_succ_r.
    + exists dl'. split; [|done]. cbn. by rewrite Hdl.
Qed.

Lemma persist_effects_ok new_id batch effects s out s' :
  persist_effects new_id batch effects s = Ok (out, s') →
  out = batch_records new_id batch 0 effects ∧
  ∃ dl, persist_deadlines batch effects (rm_deadlines s) = Ok dl ∧
        s' = s <| rm_deadlines := dl |> <| rm_outbox := insert_records out (rm_outbox s) |>.
Proof. apply persist_effects_from_ok. Qed.

(** ** Release *)

Definition released_call (c : StoredCall) (at_ : DateTime) : StoredCall :=
  c <| sc_assignment := (sc_assignment c) <| wa_released_at := Some at_ |> |>.

Definition released_worker (k : WorkerSnapshot) (at_ : DateTime) : WorkerSnapshot :=
  k <| wk_reserved_calls := (wk_reserved_calls k - 1)%N |> <| wk_updated_at := at_ |>.

Lemma release_assignment_ok t id w at_ s b s' :
  release_assignment_in_state t id w at_ s = Ok (b, s') →
  current_lease s w at_ ∧
  ∃ c, rm_calls s !! id = Some c ∧ ca_tenant_id (sc_aggregate c) = t ∧
       wa_lease (sc_assignment c) = w ∧ call_is_terminal (ca_state (sc_aggregate c)) = true ∧
  if b then
    wa_released_at (sc_assignment c) = None ∧
    ∃ k, rm_workers s !! wl_worker_id w = Some k ∧ wk_reserved_calls k ≠ 0%N ∧
      s' = s <| rm_calls := <[id := released_call c at_]> (rm_calls s) |>
             <| rm_workers := <[wl_worker_id w := released_worker k (authoritative_time s at_)]>
                  (rm_workers s) |>
  else is_Some (wa_released_at (sc_assignment c)) ∧ s' = s.
Proof.
  unfold release_assignment_in_state. intros H. apply bind_unit_ok in H as [Hw H].
  apply ensure_worker_current in Hw. split; [done|]. cbv zeta in H.
  apply result_bind_ok in H as (c & [Hc Ht]%tenant_call_ok & H).
  destruct (wa_lease (sc_assignment c) !=? w) eqn:El; [done|].
  destruct (negb (call_is_terminal _)) eqn:Et; [done|].
  destruct (is_some _) eqn:Er; bool_hyps.
  - injection H as <- <-. apply is_some_true in Er. by exists c.
  - apply is_some_false in Er. cbn in H.
    apply result_bind_ok in H as (k & Hk%ok_or_ok & H). cbn in Hk.
    destruct (_ =? _)%N eqn:Ez; [done|]. bool_hyps. injection H as <- <-.
    exists c. split_and!; eauto.
Qed.

(** ** Retired bindings *)

(** [b ? delete k m : m]. *)
Definition delete_if {K} `{Countable K} {V} (b : bool) (k : K) (m : gmap K V) : gmap K V :=
  if b then delete k m else m.

Lemma delete_if_subseteq {K} `{Countable K} {V} b (k : K) (m : gmap K V) : delete_if b k m ⊆ m.
Proof. destruct b; [apply delete_subseteq|done]. Qed.

Definition set_owners (s : MemoryState) (own : gmap ConnectionId BindingKey)
    (prin : gmap PrincipalBindingKey ConnectionId) : MemoryState :=
  s <| rm_connection_owners := own |> <| rm_principal_bindings := prin |>.

Definition principal_key (key : BindingKey) (binding : ConnectionBinding) : PrincipalBindingKey :=
  (cb_principal_fingerprint binding, key).

Lemma drop_connection_ok key binding s :
  drop_connection key binding s =
  set_owners s
    (delete_if (rm_connection_owners s !! cb_connection_id binding ==? Some key)
       (cb_connection_id binding) (rm_connection_owners s))
    (delete_if (rm_principal_bindings s !! principal_key key binding
                ==? Some (cb_connection_id binding))
       (principal_key key binding) (rm_principal_bindings s)).
Proof.
  unfold drop_connection, set_owners, delete_if. fold (principal_key key binding). cbv zeta.
  destruct s. cbn. destruct (_ !! cb_connection_id binding ==? _); cbn;
    by destruct (_ !! principal_key key binding ==? _).
Qed.

(** The bindings a decision leaves in place. *)
Definition live_bindings (next : CallAggregate) (b : gmap LegId ConnectionBinding)
    : gmap LegId ConnectionBinding :=
  filter (λ entry, leg_carries next entry.1 (cb_binding_generation entry.2) binding_live_state = true)
    b.

Definition set_call_bindings (s : MemoryState) (id : CallId) (c : StoredCall)
    (b : gmap LegId ConnectionBinding) (own : gmap ConnectionId BindingKey)
    (prin : gmap PrincipalBindingKey ConnectionId) : MemoryState :=
  set_owners (s <| rm_calls := <[id := c <| sc_bindings := b |>]> (rm_calls s) |>) own prin.

Lemma retire_bindings_ok id c entries s :
  rm_calls s !! id = Some c →
  ∃ own prin b,
    foldl (retire_binding id) s entries = set_call_bindings s id c b own prin ∧
    own ⊆ rm_connection_owners s ∧ prin ⊆ rm_principal_bindings s ∧
    ∀ l, b !! l = if bool_decide (l ∈ entries.*1) then None else sc_bindings c !! l.
Proof.
  revert c s. induction entries as [|[l bd] entries IH]; intros c s Hc; cbn [foldl].
  - exists (rm_connection_owners s), (rm_principal_bindings s), (sc_bindings c). split_and!; try done.
    destruct s, c. cbn in *. unfold set_call_bindings, set_owners. cbn. by rewrite insert_id.
  - pose proof (drop_connection_ok (id, l, cb_binding_generation bd) bd
      (s <| rm_calls := alter (λ call, call <| sc_bindings := delete l (sc_bindings call) |>) id
              (rm_calls s) |>)) as Hd.
    change (retire_binding id s (l, bd)) with
      (drop_connection (id, l, cb_binding_generation bd) bd
        (s <| rm_calls := alter (λ call, call <| sc_bindings := delete l (sc_bindings call) |>) id
                (rm_calls s) |>)).
    rewrite Hd. clear Hd.
    match goal with |- context [foldl _ ?s1 _] =>
      destruct (IH (c <| sc_bindings := delete l (sc_bindings c) |>) s1)
        as (own & prin & b & -> & Ho & Hp & Hb) end.
    { cbn. by rewrite lookup_alter_eq, Hc. }
    exists own, prin, b. split_and!.
    + unfold set_call_bindings, set_owners. destruct s, c. cbn.
      by rewrite insert_alter_eq.
    + cbn in Ho. etrans; [exact Ho|]. apply delete_if_subseteq.
    + cbn in Hp. etrans; [exact Hp|]. apply delete_if_subseteq.
    + intros l'. rewrite Hb. cbn [fmap list_fmap fst]. destruct (base.decide (l' = l)) as [->|Hne].
      * cbn. rewrite lookup_delete_eq, (bool_decide_eq_true_2 (l ∈ l :: _)) by set_solver.
        by destruct (bool_decide (l ∈ _)).
      * cbn. rewrite lookup_delete_ne by done.
        by rewrite (bool_decide_ext (l' ∈ l :: _) (l' ∈ entries.*1)) by set_solver.
Qed.

Lemma live_bindings_lookup next (b b' : gmap LegId ConnectionBinding) :
  (∀ l, b' !! l =
     if bool_decide (l ∈ (List.filter (λ entry : LegId * ConnectionBinding,
           negb (leg_carries next entry.1 (cb_binding_generation entry.2) binding_live_state))
         (map_to_list b)).*1) then None else b !! l) →
  b' = live_bindings next b.
Proof.
  intros H. apply map_eq. intros l. rewrite H. unfold live_bindings.
  case_bool_decide as Hin; symmetry.
  - apply map_lookup_filter_None. right. intros bd Hb. cbn.
    apply list_elem_of_fmap in Hin as ([l' bd'] & -> & Hin).
    apply list_elem_of_In, filter_In in Hin as [Hin He].
    apply list_elem_of_In, elem_of_map_to_list in Hin. cbn in *. simplify_eq.
    by apply negb_true_iff in He as ->.
  - destruct (b !! l) as [bd|] eqn:Hb.
    + apply map_lookup_filter_Some. split; [done|]. cbn. apply not_false_iff_true. intros Hf.
      apply Hin, list_elem_of_fmap. exists (l, bd). split; [done|].
      apply list_elem_of_In, filter_In. split; [by apply list_elem_of_In, elem_of_map_to_list|].
      cbn. by rewrite Hf.
    + apply map_lookup_filter_None. by left.
Qed.

Lemma retire_provider_bindings_ok id bindings s :
  ∃ own prin, foldl (retire_provider_binding id) s bindings = set_owners s own prin ∧
    own ⊆ rm_connection_owners s ∧ prin ⊆ rm_principal_bindings s.
Proof.
  revert s. induction bindings as [|bd bindings IH]; intros s; cbn [foldl].
  - exists (rm_connection_owners s), (rm_principal_bindings s). split; [by destruct s|done].
  - set (s1 := retire_provider_binding id s bd).
    assert (∃ own prin, s1 = set_owners s own prin ∧
      own ⊆ rm_connection_owners s ∧ prin ⊆ rm_principal_bindings s) as (own1 & prin1 & -> & Ho & Hp).
    { subst s1. unfold retire_provider_binding. cbv zeta. destruct (is_some_and _ _).
      - exists (rm_connection_owners s), (rm_principal_bindings s). split; [by destruct s|done].
      - rewrite drop_connection_ok. eexists _, _. split; [reflexivity|].
        split; apply delete_if_subseteq. }
    destruct (IH (set_owners s own1 prin1)) as (own & prin & -> & Ho' & Hp').
    exists own, prin. cbn in *. split; [done|]. split; by etrans.
Qed.

(** A control effect whose binding is retired. *)
Definition failed_control (next : CallAggregate) (record : ControlOutboxRecord)
    : ControlOutboxRecord :=
  record <| cx_state := OutboxState.Failed (ca_updated_at next) binding_retired_failure |>.

Definition control_keyed (cob : gmap EffectId ControlOutboxRecord) : Prop :=
  ∀ e r, cob !! e = Some r → cx_effect_id r = e.

Lemma retire_control_effects_ok next cid es s s' :
  retire_control_effects next cid es s = Ok s' →
  ∃ cob crt, s' = s <| rm_control_outbox := cob |> <| rm_control_retirements := crt |> ∧
    (∀ e, cob !! e = if bool_decide (e ∈ es) then failed_control next <$> rm_control_outbox s !! e
                     else rm_control_outbox s !! e) ∧
    (∀ e, is_Some (crt !! e) → is_Some (rm_control_retirements s !! e) ∨ e ∈ es).
Proof.
  revert s. induction es as [|e es IH]; intros s H; cbn in H.
  - injection H as <-. exists (rm_control_outbox s), (rm_control_retirements s).
    split; [by destruct s|]. split; [|by left].
    intros e. by rewrite bool_decide_eq_false_2 by apply not_elem_of_nil.
  - apply result_bind_ok in H as (s1 & H1 & H). unfold retire_control_effect in H1. inv_ok H1.
    injection H1 as <-. apply IH in H as (cob & crt & -> & Hd & Hr). eexists _, _. split; [done|].
    split; cycle 1.
    { intros e' [Hs|Hs]%Hr; [|right; by apply list_elem_of_further]. cbn in Hs.
      apply lookup_insert_is_Some in Hs as [->|[_ Hs]]; [right; constructor|by left]. }
    apply ok_or_ok in Hx. intros e'. rewrite Hd. cbn.
    destruct (base.decide (e = e')) as [<-|Hne].
    + rewrite lookup_insert_eq, Hx, (bool_decide_eq_true_2 (e ∈ e :: es)) by set_solver.
      by case_bool_decide.
    + rewrite lookup_insert_ne by done.
      by rewrite (bool_decide_ext (e' ∈ e :: es) (e' ∈ es)) by set_solver.
Qed.

(** The unfinished control effects of a call whose binding a decision ends. *)
Definition control_retired (id : CallId) (next : CallAggregate) (record : ControlOutboxRecord) : bool :=
  (cx_call_id record ==? id) && control_outbox_is_unfinished record
  && negb (leg_carries next (cx_leg_id record) (cx_binding_generation record) connected_or_held).

Definition retired_controls (id : CallId) (next : CallAggregate)
    (cob : gmap EffectId ControlOutboxRecord) : gmap EffectId ControlOutboxRecord :=
  update_where (control_retired id next) (failed_control next) cob.

(** Whatever the table held, no row appears or disappears; a table filed by effect id has exactly
    the retired rows failed, and only they got a receipt. *)
Definition controls_after (id : CallId) (next : CallAggregate)
    (cob : gmap EffectId ControlOutboxRecord) (crt : gmap EffectId ControlRetirementReceipt)
    (cob' : gmap EffectId ControlOutboxRecord) (crt' : gmap EffectId ControlRetirementReceipt)
    : Prop :=
  dom cob' = dom cob ∧ (control_keyed cob → cob' = retired_controls id next cob) ∧
  (control_keyed cob → ∀ e, is_Some (crt' !! e) → is_Some (crt !! e) ∨
     ∃ r, cob !! e = Some r ∧ control_retired id next r = true).

Lemma retired_controls_ok id next cob crt cob' crt' :
  (∀ e, cob' !! e =
     if bool_decide (e ∈ map cx_effect_id (List.filter (control_retired id next) (values cob)))
     then failed_control next <$> cob !! e else cob !! e) →
  (∀ e, is_Some (crt' !! e) → is_Some (crt !! e) ∨
     e ∈ map cx_effect_id (List.filter (control_retired id next) (values cob))) →
  controls_after id next cob crt cob' crt'.
Proof.
  intros Hd Hrec. split; [|split; cycle 1].
  2: { intros Hk e [?|Hin]%Hrec; [by left|right].
    change (map cx_effect_id) with (fmap cx_effect_id : list ControlOutboxRecord → list EffectId) in Hin.
    apply list_elem_of_fmap in Hin as (r & -> & [Hv Hret]%list_elem_of_In%filter_In).
    apply list_elem_of_In, values_elem in Hv as [e He]. rewrite (Hk _ _ He). by exists r. }
  - apply set_eq. intros e. rewrite !elem_of_dom, Hd. case_bool_decide; [|done].
    by rewrite fmap_is_Some.
  - intros Hk. apply map_eq. intros e. rewrite Hd. unfold retired_controls, update_where.
    rewrite lookup_fmap. destruct (cob !! e) as [r|] eqn:E; cbn; [|by destruct (bool_decide _)].
    rewrite (bool_decide_ext _ (control_retired id next r = true)).
    { case_bool_decide as Hr; [by rewrite Hr|]. apply not_true_is_false in Hr. by rewrite Hr. }
    change (map cx_effect_id) with (fmap cx_effect_id : list ControlOutboxRecord → list EffectId).
    rewrite list_elem_of_fmap. split.
    + intros (r' & -> & [Hv Hr]%list_elem_of_In%filter_In).
      apply list_elem_of_In, values_elem in Hv as [e' He']. pose proof (Hk _ _ He') as Ee. subst.
      by simplify_eq.
    + intros Hr. exists r. split; [symmetry; by apply Hk|]. apply list_elem_of_In, filter_In.
      split; [|done]. apply list_elem_of_In, values_elem. by exists e.
Qed.

Definition retired_rows (id : CallId) (next : CallAggregate)
    (att : gmap AttachmentTokenDigest AttachmentRow) : gmap AttachmentTokenDigest AttachmentRow :=
  update_where (provider_row_retired id next) (revoke_row (ca_updated_at next)) att.

(** The state after [retire_inactive_bindings]. *)
Definition retired_state (s : MemoryState) (id : CallId) (next : CallAggregate) (c : StoredCall)
    (own : gmap ConnectionId BindingKey) (prin : gmap PrincipalBindingKey ConnectionId)
    (cob : gmap EffectId ControlOutboxRecord) (crt : gmap EffectId ControlRetirementReceipt)
    : MemoryState :=
  (set_call_bindings s id c (live_bindings next (sc_bindings c)) own prin)
  <| rm_attachments := retired_rows id next (rm_attachments s) |>
  <| rm_control_outbox := cob |> <| rm_control_retirements := crt |>.

Lemma retire_inactive_bindings_ok s id next cid s' :
  retire_inactive_bindings s id next cid = Ok s' →
  ∃ c own prin cob crt,
    rm_calls s !! id = Some c ∧ s' = retired_state s id next c own prin cob crt ∧
    own ⊆ rm_connection_owners s ∧ prin ⊆ rm_principal_bindings s ∧
    controls_after id next (rm_control_outbox s) (rm_control_retirements s) cob crt.
Proof.
  unfold retire_inactive_bindings. intros H.
  apply result_bind_ok in H as (c & Hc%ok_or_ok & H). cbv zeta in H.
  match type of H with context [foldl (retire_binding id) s ?l] =>
    destruct (retire_bindings_ok id c l s Hc) as (own1 & prin1 & b & Es & Ho & Hp & Hb) end.
  apply live_bindings_lookup in Hb as ->. rewrite Es in H. clear Es.
  match type of H with context [foldl (retire_provider_binding id) ?s1 ?l] =>
    destruct (retire_provider_bindings_ok id l s1) as (own & prin & Es & Ho' & Hp') end.
  rewrite Es in H. clear Es. apply retire_control_effects_ok in H as (cob & crt & -> & Hd & Hr).
  exists c, own, prin, cob, crt. split; [done|]. split; [by destruct s|].
  cbn in *. split_and!; [by etrans..|]. apply retired_controls_ok; [|exact Hr].
  intros e. rewrite Hd. reflexivity.
Qed.

(** ** The tables of the service *)

(** The tables that only the methods of the service repository write. *)
Definition service_part (s : MemoryState) : MemoryState :=
  MemoryState_default
  <| rm_service_managed_calls := rm_service_managed_calls s |>
  <| rm_execution_plans := rm_execution_plans s |>
  <| rm_service_command_results := rm_service_command_results s |>
  <| rm_control_commands := rm_control_commands s |>
  <| rm_control_command_results := rm_control_command_results s |>
  <| rm_outbound_binding_results := rm_outbound_binding_results s |>
  <| rm_service_effect_payloads := rm_service_effect_payloads s |>
  <| rm_media_activity_generations := rm_media_activity_generations s |>
  <| rm_control_sequences := rm_control_sequences s |>
  <| rm_initial_contexts := rm_initial_contexts s |>
  <| rm_initial_context_message_ids := rm_initial_context_message_ids s |>
  <| rm_external_references := rm_external_references s |>
  <| rm_external_reference_bindings := rm_external_reference_bindings s |>
  <| rm_reconciliation_results := rm_reconciliation_results s |>.

(** ** Claim loops

    Each loop writes one table. *)

Lemma claim_provider_loop_frame w at_ exp limit keys s out s' :
  claim_provider_loop w at_ exp limit keys s = Ok (out, s') →
  ∃ events, s' = s <| rm_provider_events := events |>.
Proof.
  revert limit s out. induction keys as [|key keys IH]; intros limit s out H; cbn in H.
  - injection H as _ <-. exists (rm_provider_events s). by destruct s.
  - destruct limit as [|limit]; [injection H as _ <-; exists (rm_provider_events s); by destruct s|].
    apply result_bind_ok in H as (ev & _ & H). destruct (negb _); [by eapply IH|].
    open_option H; [|by eapply IH].
    apply result_bind_ok in H as (g & _ & H).
    apply result_bind_ok in H as ([claimed s1] & H1 & [= _ <-]).
    apply IH in H1 as [events ->]. by exists events.
Qed.

Lemma claim_outbox_loop_frame w at_ exp limit ids s out s' :
  claim_outbox_loop w at_ exp limit ids s = Ok (out, s') →
  ∃ outbox, s' = s <| rm_outbox := outbox |>.
Proof.
  revert limit s out. induction ids as [|id ids IH]; intros limit s out H; cbn in H.
  - injection H as _ <-. exists (rm_outbox s). by destruct s.
  - destruct limit as [|limit]; [injection H as _ <-; exists (rm_outbox s); by destruct s|].
    apply result_bind_ok in H as (r & _ & H). destruct (negb _); [by eapply IH|].
    open_option H; [|by eapply IH].
    apply result_bind_ok in H as (g & _ & H).
    apply result_bind_ok in H as ([claimed s1] & H1 & [= _ <-]).
    apply IH in H1 as [outbox ->]. by exists outbox.
Qed.

Lemma claim_deadline_loop_frame w exp keys s out s' :
  claim_deadline_loop w exp keys s = Ok (out, s') →
  ∃ dl, s' = s <| rm_deadlines := dl |>.
Proof.
  revert s out. induction keys as [|key keys IH]; intros s out H; cbn in H.
  - injection H as _ <-. exists (rm_deadlines s). by destruct s.
  - apply result_bind_ok in H as (r & _ & H).
    open_option H; [|by eapply IH].
    apply result_bind_ok in H as (g & _ & H).
    apply result_bind_ok in H as ([claimed s1] & H1 & [= _ <-]).
    apply IH in H1 as [dl ->]. by exists dl.
Qed.

(** ** Provider events *)

Lemma ingest_frame request s out s' :
  ingest_provider_event_in_state request s = Ok (out, s') →
  ∃ seq events, s' = s <| rm_provider_receipt_sequence := seq |> <| rm_provider_events := events |>.
Proof.
  unfold ingest_provider_event_in_state. cbv zeta. intros H. destruct (_ !! _) as [ev|].
  - destruct (_ && _); [|done]. injection H as _ <-.
    exists (rm_provider_receipt_sequence s), (rm_provider_events s). by destruct s.
  - apply result_bind_ok in H as (seq & _ & [= _ <-]). by eexists _, _.
Qed.

Lemma bind_frame request s out s' :
  bind_provider_reference_in_state request s = Ok (out, s') →
  ∃ refs events, s' = s <| rm_provider_references := refs |> <| rm_provider_events := events |>.
Proof.
  unfold bind_provider_reference_in_state. intros H. apply bind_unit_ok in H as [_ H].
  apply result_bind_ok in H as (c & _ & H). apply bind_reject_ok in H as [_ H]. cbv zeta in H.
  apply result_bind_ok in H as (s1 & H1 & [= _ <-]). destruct (_ !! _) as [r|].
  - destruct (_ !=? _); [done|]. injection H1 as <-. exists (rm_provider_references s).
    eexists. destruct s. reflexivity.
  - injection H1 as <-. by eexists _, _.
Qed.

Lemma apply_event_ok s key at_ row ev s' :
  apply_event s key at_ row = Ok (ev, s') →
  ∃ ev0, rm_provider_events s !! key = Some ev0 ∧
    ev = ev0 <| pe_state := ProviderEventState.Applied |> <| pe_applied_at := Some at_ |> ∧
    s' = s <| rm_provider_events := <[key := ev]> (rm_provider_events s) |>
           <| rm_provider_completions := <[key := row]> (rm_provider_completions s) |>.
Proof.
  unfold apply_event. intros H. apply result_bind_ok in H as (ev0 & Hev%ok_or_ok & [= <- <-]).
  by exists ev0.
Qed.

(** A completion replays, or commits its command and marks the event applied. *)
Lemma complete_provider_event_ok new_id request s out s' :
  complete_provider_event_in_state new_id request s = Ok (out, s') →
  s' = s ∨
  ∃ event outcome s1 row ev,
    rm_provider_events s !! ((pc_account request, pc_event_digest request) : ProviderEventKey)
      = Some event ∧
    pe_state event ≠ ProviderEventState.Applied ∧
    provider_claim_held event (pc_worker request) (pc_claim_generation request) (pc_at request)
      = true ∧
    commit_command_in_state new_id (pc_command request) s = Ok (outcome, s1) ∧
    apply_event s1 (pc_account request, pc_event_digest request) (pc_at request) row = Ok (ev, s').
Proof.
  unfold complete_provider_event_in_state. cbv zeta. intros H.
  apply bind_reject_ok in H as [_ H]. apply bind_unit_ok in H as [_ H].
  apply result_bind_ok in H as (event & Hev%ok_or_ok & H). apply bind_unit_ok in H as [_ H].
  destruct (pe_state event ==? _) eqn:Ea; bool_hyps.
  - left. inv_ok H; by simplify_eq.
  - right. apply result_bind_ok in H as (target & _ & H).
    apply bind_reject_ok in H as [Hheld%negb_false_iff H]. apply bind_reject_ok in H as [_ H].
    apply bind_unit_ok in H as [_ H]. apply result_bind_ok in H as ([outcome s1] & Hc & H).
    apply result_bind_ok in H as ([ev s2] & Hap & [= _ <-]).
    exists event, outcome, s1. eexists _, ev. split_and!; eauto.
Qed.

Lemma acknowledge_ok request s out s' :
  acknowledge_terminal_provider_event_in_state request s = Ok (out, s') →
  s' = s ∨
  ∃ event ev,
    rm_provider_events s !! ((ta_account request, ta_event_digest request) : ProviderEventKey)
      = Some event ∧
    provider_claim_held event (ta_worker request) (ta_claim_generation request) (ta_at request)
      = true ∧
    apply_event s (ta_account request, ta_event_digest request) (ta_at request)
      (ProviderCompletionRow.TerminalAcknowledgement request) = Ok (ev, s').
Proof.
  unfold acknowledge_terminal_provider_event_in_state. cbv zeta. intros H.
  apply bind_unit_ok in H as [_ H]. apply result_bind_ok in H as (event & Hev%ok_or_ok & H).
  destruct (pe_state event ==? _).
  - left. inv_ok H; by simplify_eq.
  - right. apply bind_reject_ok in H as [_ H]. apply bind_unit_ok in H as [_ H].
    apply bind_reject_ok in H as [Hheld%negb_false_iff H].
    apply result_bind_ok in H as ([ev s2] & Hap & [= _ <-]). by exists event, ev.
Qed.

Lemma complete_outbox_ok e w g completion at_ s out s' :
  complete_outbox_in_state e w g completion at_ s = Ok (out, s') →
  ∃ record st, rm_outbox s !! e = Some record ∧ outbox_claim_held (ob_state record) w g at_ = true ∧
    state_is_unfinished st = false ∧ out = record <| ob_state := st |> ∧
    s' = s <| rm_outbox := <[e := out]> (rm_outbox s) |>.
Proof.
  unfold complete_outbox_in_state. intros H. apply bind_unit_ok in H as [_ H].
  apply bind_reject_ok in H as [_ H]. apply result_bind_ok in H as (record & Hr%ok_or_ok & H).
  apply bind_reject_ok in H as [Hh%negb_false_iff H]. cbv zeta in H. injection H as <- <-.
  exists record. eexists. split_and!; eauto. by destruct completion.
Qed.

(** ** Restart *)

(** A restart moves the assignment of a call to the new incarnation. *)
Definition restarted_call (w : WorkerLease) (c : StoredCall) : StoredCall :=
  c <| sc_assignment := (sc_assignment c) <| wa_lease := w |> |>.
