(* ===== verification/RepoCommit.v ===== *)
(** The commit path of the standalone call repository: what a committed command, a created call
    and a consumed attachment leave in the store. *)

From S2P Require Import Prelude RustText DomainTypes CoordModel Domain DomainInv DomainSafety.
From S2P Require Import DomainWorld DomainTrace DomainTheorems.
From S2P Require Import RepoTypes ServiceTypes RepoMemory RepoClaims RepoFrame.
From stdpp Require Import options.

(** ** Decisions *)

Definition applies (d : CallDecision) : bool := cd_disposition d ==? CommandDisposition.Applied.
Definition terminates (d : CallDecision) : bool := call_is_terminal (ca_state (cd_aggregate d)).

(** What a decision keeps, and the version it leaves. *)
Lemma decide_keeps a c d :
  valid_call a → decide a c = Ok d →
  ca_id (cd_aggregate d) = ca_id a ∧ ca_tenant_id (cd_aggregate d) = ca_tenant_id a ∧
  leg_id (ca_leg0 (cd_aggregate d)) = leg_id (ca_leg0 a) ∧
  leg_id (ca_leg1 (cd_aggregate d)) = leg_id (ca_leg1 a) ∧
  if applies d then ca_version (cd_aggregate d) = (ca_version a + 1)%N
  else cd_aggregate d = a ∧ cd_effects d = [].
Proof.
  intros Hv H. unfold applies.
  destruct (decide_inv _ _ _ Hv H) as [(a' & r & Ha & _ & _ & _ & Hc & _ & ->)|(-> & -> & Hd)].
  - apply apply_command_identity, (identity_committed _ _ c) in Ha as (Hi & Ht & H0 & H1 & _ & Hver).
    rewrite Hc. unfold leg_identity in *. split_and!; try congruence.
  - by rewrite bool_decide_eq_false_2.
Qed.


(** ** Committed commands *)

Definition commit_batch (request : CommandCommit) (aggregate : CallAggregate) : EffectBatch :=
  {| eb_tenant_id := ct_tenant_id request; eb_call_id := ct_call_id request;
     eb_worker := ct_worker request; eb_command_id := ct_command_id request;
     eb_aggregate_version := ca_version aggregate; eb_at := ct_at request |}.

Definition commit_receipt (request : CommandCommit) (c : StoredCall) (d : CallDecision)
    : StoredCommand :=
  stored_command (ct_command_id request) (ct_tenant_id request) (ct_call_id request)
    (ca_version (sc_aggregate c)) (cd_aggregate d) (ct_command request) (ct_worker request)
    (ct_attachments request) (ct_deadline_claim request) (cd_disposition d) (ct_at request).

(** The call row after a commit: the decided aggregate, the bindings it leaves live, and the
    assignment, released when the call is over. *)
Definition committed_call (request : CommandCommit) (c : StoredCall) (d : CallDecision)
    : StoredCall :=
  {| sc_aggregate := cd_aggregate d;
     sc_assignment :=
       if terminates d then (sc_assignment c) <| wa_released_at := Some (ct_at request) |>
       else sc_assignment c;
     sc_bindings :=
       if applies d then live_bindings (cd_aggregate d) (sc_bindings c) else sc_bindings c |}.

(** [guarded]: the guards a fresh command passes. *)
Record commit_guarded (request : CommandCommit) (s : MemoryState) (c : StoredCall)
    (d : CallDecision) : Prop := {
  cg_time : command_at (ct_command request) = ct_at request;
  cg_worker : current_lease s (ct_worker request) (ct_at request);
  cg_call : rm_calls s !! ct_call_id request = Some c;
  cg_tenant : ca_tenant_id (sc_aggregate c) = ct_tenant_id request;
  cg_lease : wa_lease (sc_assignment c) = ct_worker request;
  cg_unreleased : wa_released_at (sc_assignment c) = None;
  cg_version : ca_version (sc_aggregate c) = ct_expected_version request;
  cg_fresh : rm_commands s !! ct_command_id request = None;
  cg_claim : validate_command_deadline_claim request = Ok () ∧
             validate_deadline_claim s (ct_deadline_claim request) (ct_at request) = Ok ();
  cg_decide : decide (sc_aggregate c) (ct_command request) = Ok d;
}.

(** The rows a commit writes; every other table is unchanged. *)
Record commit_written (new_id : nat → EffectId) (request : CommandCommit) (s : MemoryState)
    (c : StoredCall) (d : CallDecision) (view : CommandCommitView) (s' : MemoryState) : Prop := {
  cw_view : view = {| cv_command := commit_receipt request c d;
                      cv_call := committed_call request c d;
                      cv_outbox := batch_records new_id (commit_batch request (cd_aggregate d)) 0
                                     (cd_effects d) |};
  cw_calls : rm_calls s' = <[ct_call_id request := committed_call request c d]> (rm_calls s);
  cw_workers : if terminates d
    then ∃ k, rm_workers s !! wl_worker_id (ct_worker request) = Some k ∧
              wk_reserved_calls k ≠ 0%N ∧
              rm_workers s' =
                <[wl_worker_id (ct_worker request) :=
                    released_worker k (authoritative_time s (ct_at request))]> (rm_workers s)
    else rm_workers s' = rm_workers s;
  cw_commands : rm_commands s' =
    <[ct_command_id request := commit_receipt request c d]> (rm_commands s);
  cw_results : rm_command_results s' =
    <[ct_command_id request := view]> (rm_command_results s);
  cw_outbox : rm_outbox s' = insert_records (cv_outbox view) (rm_outbox s);
  cw_deadlines : ∃ dl,
    persist_deadlines (commit_batch request (cd_aggregate d)) (cd_effects d) (rm_deadlines s)
      = Ok dl ∧
    complete_deadline (s <| rm_deadlines := dl |>) (ct_deadline_claim request) (ct_at request)
      = Ok (s <| rm_deadlines := rm_deadlines s' |>);
  cw_attachments : attachments_inserted (ct_tenant_id request) (ct_call_id request)
    (ct_worker request) (ct_attachments request)
    (s <| rm_attachments :=
       if applies d then retired_rows (ct_call_id request) (cd_aggregate d) (rm_attachments s)
       else rm_attachments s |>)
    (rm_attachments s') (rm_attachment_ids s') (rm_active_attachments s');
  cw_owners : rm_connection_owners s' ⊆ rm_connection_owners s ∧
              rm_principal_bindings s' ⊆ rm_principal_bindings s;
  cw_control : if applies d
    then controls_after (ct_call_id request) (cd_aggregate d) (rm_control_outbox s)
           (rm_control_retirements s) (rm_control_outbox s') (rm_control_retirements s')
    else rm_control_outbox s' = rm_control_outbox s ∧
         rm_control_retirements s' = rm_control_retirements s;
  cw_service : service_part s' = service_part s;
  cw_frame :
    rm_authority_time s' = rm_authority_time s ∧ rm_leg_owners s' = rm_leg_owners s ∧
    rm_idempotency s' = rm_idempotency s ∧
    rm_used_connection_ids s' = rm_used_connection_ids s ∧
    rm_provider_events s' = rm_provider_events s ∧
    rm_provider_references s' = rm_provider_references s ∧
    rm_provider_completions s' = rm_provider_completions s ∧
    rm_provider_receipt_sequence s' = rm_provider_receipt_sequence s ∧
    rm_service_managed_calls s' = rm_service_managed_calls s ∧
    rm_execution_plans s' = rm_execution_plans s ∧
    rm_control_commands s' = rm_control_commands s ∧
    rm_outbound_binding_results s' = rm_outbound_binding_results s;
}.

(** The state after the first two writes of [commit_command_rows]. *)
Lemma put_aggregate_ok (d : CallDecision) request s c s' :
  rm_calls s !! ct_call_id request = Some c →
  (state ← (if cd_disposition d ==? CommandDisposition.Applied
            then retire_inactive_bindings s (ct_call_id request) (cd_aggregate d)
                   (ct_command_id request)
            else Ok s);
   put_aggregate state (ct_call_id request) (cd_aggregate d)) = Ok s' →
  ∃ own prin cob crt,
    s' = s
      <| rm_calls := <[ct_call_id request :=
           c <| sc_aggregate := cd_aggregate d |>
             <| sc_bindings := if applies d then live_bindings (cd_aggregate d) (sc_bindings c)
                               else sc_bindings c |>]> (rm_calls s) |>
      <| rm_connection_owners := own |> <| rm_principal_bindings := prin |>
      <| rm_attachments :=
           if applies d then retired_rows (ct_call_id request) (cd_aggregate d) (rm_attachments s)
           else rm_attachments s |>
      <| rm_control_outbox := cob |> <| rm_control_retirements := crt |> ∧
    own ⊆ rm_connection_owners s ∧ prin ⊆ rm_principal_bindings s ∧
    (if applies d
     then controls_after (ct_call_id request) (cd_aggregate d) (rm_control_outbox s)
            (rm_control_retirements s) cob crt
     else cob = rm_control_outbox s ∧ crt = rm_control_retirements s).
Proof.
  intros Hc H. apply result_bind_ok in H as (s1 & H1 & H). unfold put_aggregate in H.
  apply result_bind_ok in H as (c1 & Hc1%ok_or_ok & [= <-]).
  unfold applies. destruct (cd_disposition d ==? _).
  - apply retire_inactive_bindings_ok in H1 as (c0 & own & prin & cob & crt & Hc0 & -> & Ho & Hp & Hdom).
    cbn in Hc1. rewrite lookup_insert_eq in Hc1. simplify_eq.
    exists own, prin, cob, crt. split; [|done]. destruct s, c. cbn in *.
    unfold retired_state, set_call_bindings, set_owners. cbn. by rewrite insert_insert_eq.
  - injection H1 as <-. simplify_eq.
    exists (rm_connection_owners s), (rm_principal_bindings s), (rm_control_outbox s),
      (rm_control_retirements s). split; [|done]. by destruct s, c.
Qed.

(** [complete_deadline] reads and writes the deadline table only. *)
Lemma complete_deadline_rows s s0 claim at_ s' :
  rm_deadlines s0 = rm_deadlines s → complete_deadline s claim at_ = Ok s' →
  ∃ dl, s' = s <| rm_deadlines := dl |> ∧
        complete_deadline s0 claim at_ = Ok (s0 <| rm_deadlines := dl |>).
Proof.
  unfold complete_deadline. intros He H. destruct claim as [claim|]; cbv zeta in *.
  - rewrite He. apply result_bind_ok in H as (r & Hr & [= <-]). rewrite Hr. by eexists.
  - injection H as <-. exists (rm_deadlines s). by destruct s, s0; cbn in *; subst.
Qed.

Lemma commit_command_rows_ok new_id request s c d out s' :
  rm_calls s !! ct_call_id request = Some c →
  ca_tenant_id (sc_aggregate c) = ct_tenant_id request →
  ca_tenant_id (cd_aggregate d) = ca_tenant_id (sc_aggregate c) →
  wa_released_at (sc_assignment c) = None →
  commit_command_rows new_id request (ca_version (sc_aggregate c)) d s = Ok (out, s') →
  ∃ view, out = Committed view ∧ commit_written new_id request s c d view s'.
Proof.
  intros Hc Ht Htd Hrel H. unfold commit_command_rows in H. cbv zeta in H.
  apply result_bind_ok in H as (s0 & H0 & H). apply result_bind_ok in H as (s1 & H1 & H).
  destruct (put_aggregate_ok d request s c s1 Hc) as (own & prin & cob & crt & -> & Ho & Hp & Hdom).
  { by rewrite H0. }
  clear H0 H1 s0. apply result_bind_ok in H as (s2 & H2 & H).
  apply insert_attachments_ok in H2 as (att & ids & act & -> & Hatt).
  apply result_bind_ok in H as ([outbox s3] & H3 & H).
  apply persist_effects_ok in H3 as (-> & dl & Hdl & ->).
  apply result_bind_ok in H as (s4 & H4 & H).
  eapply (complete_deadline_rows _ (s <| rm_deadlines := dl |>)) in H4 as (dl4 & -> & H4); [|done].
  apply result_bind_ok in H as (s5 & H5 & H).
  apply result_bind_ok in H as (c' & [Hc' Htc']%tenant_call_ok & [= <- <-]).
  assert (Hs5 : ∃ w5, s5 = (set_attachments s att ids act)
      <| rm_calls := <[ct_call_id request := committed_call request c d]> (rm_calls s) |>
      <| rm_connection_owners := own |> <| rm_principal_bindings := prin |>
      <| rm_control_outbox := cob |> <| rm_control_retirements := crt |>
      <| rm_commands := <[ct_command_id request := commit_receipt request c d]> (rm_commands s) |>
      <| rm_deadlines := dl4 |>
      <| rm_outbox := insert_records (batch_records new_id (commit_batch request (cd_aggregate d)) 0
           (cd_effects d)) (rm_outbox s) |>
      <| rm_workers := w5 |> ∧
    if terminates d
    then ∃ k, rm_workers s !! wl_worker_id (ct_worker request) = Some k ∧
              wk_reserved_calls k ≠ 0%N ∧
              w5 = <[wl_worker_id (ct_worker request) :=
                      released_worker k (authoritative_time s (ct_at request))]> (rm_workers s)
    else w5 = rm_workers s).
  { fold (terminates d) in H5. unfold committed_call. destruct (terminates d).
    - apply result_bind_ok in H5 as ([b s6] & H5 & [= <-]).
      apply release_assignment_ok in H5 as (_ & c2 & Hc2 & _ & _ & _ & Hb).
      cbn in Hc2. rewrite lookup_insert_eq in Hc2. injection Hc2 as <-. cbn in Hb.
      destruct b; [|rewrite Hrel in Hb; by destruct Hb as [[? ?] _]].
      destruct Hb as (_ & k & Hk & Hz & ->). eexists. split; [|by exists k].
      destruct s, c. cbn. unfold released_call. cbn. by rewrite insert_insert_eq.
    - injection H5 as <-. exists (rm_workers s). split; [|done]. by destruct s, c. }
  destruct Hs5 as (w5 & -> & Hw5). clear H5. cbn in Hc'. rewrite lookup_insert_eq in Hc'.
  injection Hc' as <-. eexists. split; [done|]. split; try done.
  - by exists dl.
  - destruct Hatt as [K N I A All]. by split.
Qed.

(** ** The commit transaction *)

Lemma validate_command_timestamp_ok command at_ u :
  validate_command_timestamp command at_ = Ok u ↔ command_at command = at_.
Proof. unfold validate_command_timestamp. destruct u. case_bool_decide; naive_solver. Qed.

Lemma reject_service_managed_ok s t id w at_ u :
  reject_service_managed_call s t id w at_ = Ok u → id ∉ rm_service_managed_calls s.
Proof.
  unfold reject_service_managed_call. case_bool_decide as Hin; [|done]. intros H.
  by apply bind_unit_ok in H as [_ ?].
Qed.

(** A successful commit is an exact replay, which changes nothing, or a fresh command. *)
Lemma commit_command_ok new_id request s out s' :
  (∀ c, rm_calls s !! ct_call_id request = Some c → valid_call (sc_aggregate c)) →
  commit_command_in_state new_id request s = Ok (out, s') →
  (s' = s ∧ ∃ existing view, out = CommitReplayed view ∧
     rm_commands s !! ct_command_id request = Some existing ∧
     replay_command s request existing = Ok out) ∨
  (∃ c d view, out = Committed view ∧ commit_guarded request s c d ∧
     commit_written new_id request s c d view s').
Proof.
  intros Hv H. unfold commit_command_in_state in H. apply bind_unit_ok in H as [Ht H].
  destruct (command_id_conflicts_with_service_namespace _ _); [done|].
  destruct (rm_commands s !! _) as [existing|] eqn:Hf.
  - apply result_bind_ok in H as (o & Ho & [= -> ->]). left. split; [done|].
    pose proof Ho as Ho'. unfold replay_command in Ho'. inv_ok Ho'. injection Ho' as <-. eauto.
  - right. apply bind_unit_ok in H as [Hw H]. apply ensure_call_worker_ok in Hw as [Hcur (c & Hc & Hten & Hrel & Hl)].
    apply result_bind_ok in H as (c' & [Hc' _]%tenant_call_ok & H). simplify_eq.
    destruct (_ !=? _) eqn:Ev; [done|]. bool_hyps.
    apply bind_unit_ok in H as [Hd1 H]. apply bind_unit_ok in H as [Hd2 H].
    apply result_bind_ok in H as (d & Hd%domain_rejected_ok & H). apply bind_unit_ok in H as [_ H].
    destruct (decide_keeps _ _ _ (Hv c Hc) Hd) as (_ & Htd & _).
    apply (commit_command_rows_ok new_id request s c d) in H as (view & -> & Hw); auto.
    exists c, d, view. split; [done|]. split; [|done]. split; auto.
    by apply validate_command_timestamp_ok in Ht.
Qed.

(** ** Created calls *)

Section Create.
Context {chrono : Chrono}.

Definition create_batch (request : CreateCall) (d : CallDecision) : EffectBatch :=
  {| eb_tenant_id := ca_tenant_id (cc_initial request); eb_call_id := ca_id (cc_initial request);
     eb_worker := cc_worker request; eb_command_id := cc_command_id request;
     eb_aggregate_version := ca_version (cd_aggregate d); eb_at := cc_at request |}.

Definition create_receipt (request : CreateCall) (d : CallDecision) : StoredCommand :=
  stored_command (cc_command_id request) (ca_tenant_id (cc_initial request))
    (ca_id (cc_initial request)) (ca_version (cc_initial request)) (cd_aggregate d)
    (cc_command request) (cc_worker request) (cc_attachments request) None (cd_disposition d)
    (cc_at request).

Definition created_call (request : CreateCall) (d : CallDecision)
    (fingerprint : option RouteCatalogFingerprint) : StoredCall :=
  {| sc_aggregate := cd_aggregate d;
     sc_assignment := {| wa_lease := cc_worker request;
                         wa_route_catalog_fingerprint := fingerprint;
                         wa_assigned_at := cc_at request; wa_released_at := None |};
     sc_bindings := ∅ |}.

Definition create_claim (request : CreateCall) (expires_at : DateTime) : IdempotencyRow :=
  {| ir_request_digest := cc_request_digest request; ir_call_id := ca_id (cc_initial request);
     ir_expires_at := expires_at; ir_receipt := OperationIdempotencyReceipt.CreateCall |}.

Definition create_key (request : CreateCall) : IdempotencyKey :=
  (ca_tenant_id (cc_initial request), cc_idempotency_key request).

(** The guards a fresh creation passes; [k] is the reserved worker. *)
Record create_guarded (request : CreateCall) (s : MemoryState) (d : CallDecision)
    (k : WorkerSnapshot) (fingerprint : option RouteCatalogFingerprint) : Prop := {
  kg_time : command_at (cc_command request) = cc_at request;
  kg_valid : valid_call (cc_initial request);
  kg_version : ca_version (cc_initial request) = 0%N;
  kg_pending : ca_state (cc_initial request) = CallState.Pending;
  kg_decide : decide (cc_initial request) (cc_command request) = Ok d;
  kg_applied : cd_disposition d = CommandDisposition.Applied;
  kg_command : rm_commands s !! cc_command_id request = None;
  kg_call : rm_calls s !! ca_id (cc_initial request) = None;
  kg_legs : ∀ leg, leg ∈ legs (cc_initial request) → rm_leg_owners s !! leg_id leg = None;
  kg_worker : rm_workers s !! wl_worker_id (cc_worker request) = Some k;
  kg_lease : wk_lease k = cc_worker request;
  kg_alive : authoritative_time s (cc_at request) < wk_lease_expires_at k;
  kg_admits : wk_draining k = false;
  kg_capacity : (wk_reserved_calls k < wk_max_calls k)%N;
  kg_fingerprint : from_capabilities (wk_capabilities k) = Ok fingerprint;
  kg_unclaimed : ∀ row, rm_idempotency s !! create_key request = Some row →
                        ir_expires_at row ≤ cc_at request;
}.

Definition reserved_worker (k : WorkerSnapshot) (at_ : DateTime) : WorkerSnapshot :=
  k <| wk_reserved_calls := (wk_reserved_calls k + 1)%N |> <| wk_updated_at := at_ |>.

(** The rows a creation writes. *)
Record create_written (new_id : nat → EffectId) (request : CreateCall) (s : MemoryState)
    (d : CallDecision) (k : WorkerSnapshot) (fingerprint : option RouteCatalogFingerprint)
    (s' : MemoryState) : Prop := {
  kw_calls : rm_calls s' =
    <[ca_id (cc_initial request) := created_call request d fingerprint]> (rm_calls s);
  kw_leg_owners : rm_leg_owners s' =
    <[leg_id (ca_leg1 (cd_aggregate d)) := ca_id (cc_initial request)]>
      (<[leg_id (ca_leg0 (cd_aggregate d)) := ca_id (cc_initial request)]> (rm_leg_owners s));
  kw_workers : rm_workers s' =
    <[wl_worker_id (cc_worker request) :=
        reserved_worker k (authoritative_time s (cc_at request))]> (rm_workers s);
  kw_commands : rm_commands s' =
    <[cc_command_id request := create_receipt request d]> (rm_commands s);
  kw_results : rm_command_results s' =
    <[cc_command_id request :=
        {| cv_command := create_receipt request d;
           cv_call := created_call request d fingerprint;
           cv_outbox := batch_records new_id (create_batch request d) 0 (cd_effects d) |}]>
      (rm_command_results s);
  kw_outbox : rm_outbox s' =
    insert_records (batch_records new_id (create_batch request d) 0 (cd_effects d)) (rm_outbox s);
  kw_deadlines :
    persist_deadlines (create_batch request d) (cd_effects d) (rm_deadlines s)
      = Ok (rm_deadlines s');
  kw_idempotency : ∃ i expires_at,
    live_claims (cc_at request) (rm_idempotency s) i ∧
    idempotency_expiry (cc_at request) = Ok expires_at ∧
    rm_idempotency s' = <[create_key request := create_claim request expires_at]> i;
  kw_attachments : attachments_inserted (ca_tenant_id (cc_initial request))
    (ca_id (cc_initial request)) (cc_worker request) (cc_attachments request) s
    (rm_attachments s') (rm_attachment_ids s') (rm_active_attachments s');
  kw_frame :
    rm_authority_time s' = rm_authority_time s ∧
    rm_connection_owners s' = rm_connection_owners s ∧
    rm_principal_bindings s' = rm_principal_bindings s ∧
    rm_used_connection_ids s' = rm_used_connection_ids s ∧
    rm_provider_events s' = rm_provider_events s ∧
    rm_provider_references s' = rm_provider_references s ∧
    rm_provider_completions s' = rm_provider_completions s ∧
    rm_provider_receipt_sequence s' = rm_provider_receipt_sequence s ∧
    rm_service_managed_calls s' = rm_service_managed_calls s ∧
    rm_execution_plans s' = rm_execution_plans s ∧
    rm_control_commands s' = rm_control_commands s ∧
    rm_control_outbox s' = rm_control_outbox s ∧
    rm_outbound_binding_results s' = rm_outbound_binding_results s;
  kw_retirements : rm_control_retirements s' = rm_control_retirements s;
  kw_service : service_part s' = service_part s;
}.

Lemma create_call_rows_ok new_id request d expires_at k s out s' :
  rm_workers s !! wl_worker_id (cc_worker request) = Some k →
  create_call_rows new_id request d expires_at k s = Ok (out, s') →
  ∃ fingerprint dl att ids act,
    from_capabilities (wk_capabilities k) = Ok fingerprint ∧
    out = Created (created_call request d fingerprint) ∧
    persist_deadlines (create_batch request d) (cd_effects d) (rm_deadlines s) = Ok dl ∧
    attachments_inserted (ca_tenant_id (cc_initial request)) (ca_id (cc_initial request))
      (cc_worker request) (cc_attachments request) s att ids act ∧
    s' = (set_attachments s att ids act)
      <| rm_calls :=
           <[ca_id (cc_initial request) := created_call request d fingerprint]> (rm_calls s) |>
      <| rm_leg_owners :=
           <[leg_id (ca_leg1 (cd_aggregate d)) := ca_id (cc_initial request)]>
             (<[leg_id (ca_leg0 (cd_aggregate d)) := ca_id (cc_initial request)]>
               (rm_leg_owners s)) |>
      <| rm_workers :=
           <[wl_worker_id (cc_worker request) :=
               reserved_worker k (authoritative_time s (cc_at request))]> (rm_workers s) |>
      <| rm_commands := <[cc_command_id request := create_receipt request d]> (rm_commands s) |>
      <| rm_deadlines := dl |>
      <| rm_outbox := insert_records
           (batch_records new_id (create_batch request d) 0 (cd_effects d)) (rm_outbox s) |>
      <| rm_idempotency := <[create_key request := create_claim request expires_at]>
           (rm_idempotency s) |>
      <| rm_command_results := <[cc_command_id request :=
           {| cv_command := create_receipt request d;
              cv_call := created_call request d fingerprint;
              cv_outbox := batch_records new_id (create_batch request d) 0 (cd_effects d) |}]>
           (rm_command_results s) |>.
Proof.
  intros Hk H. unfold create_call_rows in H. cbv zeta in H.
  apply result_bind_ok in H as (fp & Hfp & H).
  apply result_bind_ok in H as (k' & Hk'%ok_or_ok & H). cbn in Hk'. simplify_eq.
  apply result_bind_ok in H as (s2 & H2 & H).
  apply insert_attachments_ok in H2 as (att & ids & act & -> & Hatt).
  apply result_bind_ok in H as ([outbox s3] & H3 & [= <- <-]).
  apply persist_effects_ok in H3 as (-> & dl & Hdl & ->).
  exists fp, dl, att, ids, act. split_and!; try done.
  destruct Hatt as [K N I A All]. by split.
Qed.

(** A creation goes ahead only when its key has no live claim. *)
Lemma create_replay_none request (s : MemoryState) i r row :
  live_claims (cc_at request) (rm_idempotency s) i →
  create_replay (s <| rm_idempotency := i |> <| rm_retired_operation_claims := r |>) request
    = Ok None →
  rm_idempotency s !! create_key request = Some row → ir_expires_at row ≤ cc_at request.
Proof.
  intros Hi H Hrow. destruct (Z.le_gt_cases (ir_expires_at row) (cc_at request)) as [|Hgt]; [done|].
  exfalso. assert (Hl : i !! create_key request = Some row) by (apply Hi; split; [done|lia]).
  unfold create_replay in H. cbv zeta in H. cbn in H. fold (create_key request) in H.
  rewrite Hl in H. replace (_ <? _) with true in H by lia.
  destruct (_ || _); [done|]. by apply result_bind_ok in H as (? & _ & [=]).
Qed.

(** A successful creation is a replay of the call the claim names, or a fresh call. *)
Lemma create_call_ok new_id request s out s' :
  create_call_in_state new_id request s = Ok (out, s') →
  (∃ c i r, out = CreateReplayed c ∧
     s' = s <| rm_idempotency := i |> <| rm_retired_operation_claims := r |> ∧
     live_claims (cc_at request) (rm_idempotency s) i ∧
     create_replay s' request = Ok (Some c)) ∨
  (∃ d k fingerprint,
     out = Created (created_call request d fingerprint) ∧
     create_guarded request s d k fingerprint ∧
     create_written new_id request s d k fingerprint s').
Proof.
  intros H. unfold create_call_in_state in H. apply bind_unit_ok in H as [Ht H].
  apply bind_unit_ok in H as [Hv%domain_rejected_ok%validate_ok H].
  destruct (_ || _) eqn:Ep; [done|]. apply orb_false_iff in Ep as [Ev Ep]. bool_hyps.
  apply result_bind_ok in H as (d & Hd%domain_rejected_ok & H).
  destruct (cd_disposition d !=? _) eqn:Ed; [done|].
  apply negb_false_iff, bool_decide_eq_true in Ed.
  apply result_bind_ok in H as (exp & Hexp & H).
  apply result_bind_ok in H as (s1 & H1 & H).
  apply retire_expired_idempotency_ok in H1 as (i & r & -> & Hi). cbv zeta in H.
  apply result_bind_ok in H as (replay & Hr & H). destruct replay as [c|].
  - injection H as <- <-. left. by exists c, i, r.
  - right. apply bind_reject_ok in H as [Hc H]. apply bind_reject_ok in H as [Hid H].
    apply bind_unit_ok in H as [Hw H]. apply ensure_worker_ok in Hw as (k & Hk & Hl & Hal & Hdr).
    apply result_bind_ok in H as (k' & Hk'%ok_or_ok & H). rewrite Hk in Hk'. injection Hk' as <-.
    apply bind_reject_ok in H as [Hcap H]. apply bind_unit_ok in H as [_ H].
    apply create_call_rows_ok in H as (fp & dl & att & ids & act & Hfp & -> & Hdl & Hatt & ->);
      [|done].
    exists d, k, fp. split; [done|].
    apply orb_false_iff in Hc as [[Hc _]%orb_false_iff _]. apply contains_key_false in Hc.
    apply orb_false_iff in Hid as [Hid Hlegs]. apply contains_key_false in Hid.
    split; split; try done.
    + by apply validate_command_timestamp_ok in Ht.
    + intros leg Hleg. apply contains_key_false. cbn in Hlegs.
      apply orb_false_iff in Hlegs as [H0 [H1 _]%orb_false_iff].
      unfold legs in Hleg. rewrite elem_of_cons, list_elem_of_singleton in Hleg.
      by destruct Hleg as [-> | ->].
    + destruct (wk_draining k) eqn:E; [|done]. by specialize (Hdr eq_refl).
    + by apply N.leb_gt in Hcap.
    + intros row. by eapply create_replay_none.
    + exists i, exp. split; [done|]. split; [done|]. cbn. apply insert_delete_eq.
    + destruct Hatt as [K N I A All]. by split.
Qed.
End Create.

(** ** Consumed attachments *)

Definition replaces_pending (request : AttachmentConsume) (c : StoredCall) : bool :=
  (an_purpose (am_candidate request) ==? AttachmentPurpose.ProviderMedia)
  && pending_telnyx_replacement (sc_aggregate c) (an_leg_id (am_candidate request))
       (an_binding_generation (am_candidate request)).

(** The guards a consumption passes before its command is committed. *)
Record consume_guarded (request : AttachmentConsume) (s : MemoryState) (row : AttachmentRow)
    (c : StoredCall) : Prop := {
  ng_worker : current_lease s (an_worker (am_candidate request)) (am_at request);
  ng_principal : is_some_and (λ t, t <=? authoritative_time s (am_at request))
                   (am_principal_expires_at request) = false;
  ng_command : validate_attachment_consume_command request = Ok ();
  ng_row : rm_attachments s !! an_token_digest (am_candidate request) = Some row;
  ng_consumable : consumable row request (authoritative_time s (am_at request)) = true;
  ng_connection : am_connection_id request ∉ rm_used_connection_ids s;
  ng_call : rm_calls s !! an_call_id (am_candidate request) = Some c;
  ng_tenant : ca_tenant_id (sc_aggregate c) = an_tenant_id (am_candidate request);
  ng_assignment : sc_assignment c = an_assignment (am_candidate request);
  ng_unbound : replaces_pending request c = false →
               sc_bindings c !! an_leg_id (am_candidate request) = None;
}.

(** The call row while the command is committed. *)
Definition consumed_call (request : AttachmentConsume) (c : StoredCall) : StoredCall :=
  if replaces_pending request c then c
  else c <| sc_bindings :=
         <[an_leg_id (am_candidate request) := consumed_binding request]> (sc_bindings c) |>.

Definition consumed_state (request : AttachmentConsume) (row : AttachmentRow) (c : StoredCall)
    (s : MemoryState) : MemoryState :=
  consume_rows request row c (replaces_pending request c) s.

Lemma authoritative_time_idem s t : authoritative_time s (authoritative_time s t) = authoritative_time s t.
Proof. unfold authoritative_time. by destruct (rm_authority_time s). Qed.

Lemma consume_attachment_ok new_id request s out s' :
  (∀ id c, rm_calls s !! id = Some c → valid_call (sc_aggregate c)) →
  consume_attachment_in_state new_id request s = Ok (out, s') →
  ∃ row c d view,
    out = {| ca_binding := consumed_binding request; ca_commit := view |} ∧
    consume_guarded request s row c ∧
    commit_guarded (consume_commit request) (consumed_state request row c s)
      (consumed_call request c) d ∧
    commit_written new_id (consume_commit request) (consumed_state request row c s)
      (consumed_call request c) d view s'.
Proof.
  intros Hv H. unfold consume_attachment_in_state in H. cbv zeta in H.
  apply bind_unit_ok in H as [Hw%attachment_rejected_ok%ensure_worker_current H].
  apply bind_reject_ok in H as [Hp H]. apply bind_unit_ok in H as [Hcmd H].
  apply bind_reject_ok in H as [Hids H].
  apply result_bind_ok in H as (row & Hrow%ok_or_ok & H).
  apply bind_reject_ok in H as [Hcons%negb_false_iff H].
  apply bind_reject_ok in H as [Hconn H]. apply orb_false_iff in Hconn as [Hconn%bool_decide_eq_false _].
  apply result_bind_ok in H as (c & [Hc Ht]%attachment_rejected_ok%tenant_call_ok & H).
  rewrite Hc in H. cbn [is_some_and] in H. fold (replaces_pending request c) in H.
  apply bind_reject_ok in H as [Has H]. apply orb_false_iff in Has as [Has _].
  apply negb_false_iff, bool_decide_eq_true in Has.
  apply bind_reject_ok in H as [Hb H].
  apply result_bind_ok in H as ([o s1] & H1 & H). cbn in H.
  destruct o as [view|]; [|done]. injection H as <- <-.
  fold (consumed_state request row c s) in H1.
  assert (Hs1 : rm_calls (consumed_state request row c s) !! ct_call_id (consume_commit request)
    = Some (consumed_call request c)) by apply lookup_insert_eq.
  apply commit_command_ok in H1 as [(_ & ? & ? & [=] & _)|(c' & d & v & [= ->] & Hg & Hw')].
  2: { intros c' Hc'. rewrite Hs1 in Hc'. injection Hc' as <-. unfold consumed_call.
       destruct (replaces_pending _ _); by apply (Hv _ c Hc). }
  assert (c' = consumed_call request c) as ->.
  { pose proof (cg_call _ _ _ _ Hg) as Hc'. rewrite Hs1 in Hc'. by injection Hc' as <-. }
  exists row, c, d, v. split; [done|]. split; [|done]. split; try done.
  - destruct Hw as (k & Hk & Hl & Hal). exists k. by rewrite authoritative_time_idem in Hal.
  - intros E. rewrite E, andb_true_r in Hb. by apply contains_key_false in Hb.
Qed.
