(* ===== verification/RepoInv.v ===== *)
(** Executions of the standalone call repository and the invariant that ties workers to calls:
    the capacity a worker has reserved is the number of calls assigned to it and not released,
    every stored call is valid, and a call is released exactly when it is over. *)

From S2P Require Import Prelude RustText DomainTypes CoordModel Domain DomainInv DomainSafety.
From S2P Require Import DomainWorld DomainTrace DomainTheorems.
From S2P Require Import RepoTypes ServiceTypes RepoMemory RepoClaims RepoFrame RepoCommit.
From stdpp Require Import options.

(** ** Executions *)

(** What [Uuid::new_v4] promises: the identifiers drawn by one call are new and distinct. *)
Record fresh_ids (new_id : nat → EffectId) (s : MemoryState) : Prop := {
  fresh_unused i : rm_outbox s !! new_id i = None;
  fresh_distinct i j : new_id i = new_id j → i = j;
}.

(** The transaction bodies, each with the state it commits. *)
Inductive tx_step `{Chrono} : MemoryState → MemoryState → Prop :=
| tx_register request catalog s out s' :
    validate_register_worker request = Ok () →
    register_worker_in_state request catalog s = Ok (out, s') → tx_step s s'
| tx_activate request s out s' :
    activate_worker_capabilities_in_state request s = Ok (out, s') → tx_step s s'
| tx_renew request s out s' :
    renew_worker_lease_in_state request s = Ok (out, s') → tx_step s s'
| tx_drain worker draining at_ s out s' :
    set_worker_draining_in_state worker draining at_ s = Ok (out, s') → tx_step s s'
| tx_create new_id request s out s' :
    fresh_ids new_id s → create_call_in_state new_id request s = Ok (out, s') → tx_step s s'
| tx_commit new_id request s out s' :
    fresh_ids new_id s → commit_command_in_state new_id request s = Ok (out, s') → tx_step s s'
| tx_release tenant_id call_id worker at_ s out s' :
    release_assignment_in_state tenant_id call_id worker at_ s = Ok (out, s') → tx_step s s'
| tx_consume new_id request s out s' :
    fresh_ids new_id s → consume_attachment_in_state new_id request s = Ok (out, s') →
    tx_step s s'
| tx_ingest request s out s' :
    ingest_provider_event_in_state request s = Ok (out, s') → tx_step s s'
| tx_bind request s out s' :
    bind_provider_reference_in_state request s = Ok (out, s') → tx_step s s'
| tx_claim_events worker at_ expires_at limit s out s' :
    claim_provider_events_in_state worker at_ expires_at limit s = Ok (out, s') → tx_step s s'
| tx_complete_event new_id request s out s' :
    fresh_ids new_id s → complete_provider_event_in_state new_id request s = Ok (out, s') →
    tx_step s s'
| tx_acknowledge request s out s' :
    acknowledge_terminal_provider_event_in_state request s = Ok (out, s') → tx_step s s'
| tx_claim_outbox worker at_ expires_at limit s out s' :
    claim_outbox_in_state worker at_ expires_at limit s = Ok (out, s') → tx_step s s'
| tx_complete_outbox effect_id worker generation completion at_ s out s' :
    complete_outbox_in_state effect_id worker generation completion at_ s = Ok (out, s') →
    tx_step s s'
| tx_claim_deadlines worker at_ expires_at limit s out s' :
    claim_due_deadlines_in_state worker at_ expires_at limit s = Ok (out, s') → tx_step s s'
| tx_restart worker at_ limit s out s' :
    claim_restart_calls_in_state worker at_ limit s = Ok (out, s') → tx_step s s'.

(** One call of a method of the [CallRepository] implementation that may write. *)
Inductive repo_step `{Chrono} (r : MemoryRepository) : MemoryRepository → Prop :=
| step_register request : repo_step r (register_worker r request).1
| step_activate request : repo_step r (activate_worker_capabilities r request).1
| step_renew request : repo_step r (renew_worker_lease r request).1
| step_drain worker draining at_ : repo_step r (set_worker_draining r worker draining at_).1
| step_create new_id request :
    fresh_ids new_id (mr_state r) → repo_step r (create_call new_id r request).1
| step_commit new_id request :
    fresh_ids new_id (mr_state r) → repo_step r (commit_command new_id r request).1
| step_release tenant_id call_id worker at_ :
    repo_step r (release_assignment r tenant_id call_id worker at_).1
| step_consume new_id request :
    fresh_ids new_id (mr_state r) → repo_step r (consume_attachment new_id r request).1
| step_ingest to_vec request : repo_step r (ingest_provider_event to_vec r request).1
| step_bind request : repo_step r (bind_provider_reference r request).1
| step_claim_events worker at_ ttl limit :
    repo_step r (claim_provider_events r worker at_ ttl limit).1
| step_complete_event new_id request :
    fresh_ids new_id (mr_state r) → repo_step r (complete_provider_event new_id r request).1
| step_acknowledge request : repo_step r (acknowledge_terminal_provider_event r request).1
| step_claim_outbox worker at_ ttl limit : repo_step r (claim_outbox r worker at_ ttl limit).1
| step_complete_outbox effect_id worker generation completion at_ :
    repo_step r (complete_outbox r effect_id worker generation completion at_).1
| step_claim_deadlines worker at_ ttl limit :
    repo_step r (claim_due_deadlines r worker at_ ttl limit).1
| step_restart worker at_ limit : repo_step r (claim_restart_calls r worker at_ limit).1.

Lemma transaction_step {A} r (tx : Tx A) (P : MemoryRepository → Prop) :
  P r → (∀ a s', tx (mr_state r) = Ok (a, s') → P (r <| mr_state := s' |>)) →
  P (transaction r tx).1.
Proof.
  intros Hr Hs. unfold transaction, lock. destruct (mr_poisoned r); [done|].
  destruct (tx (mr_state r)) as [[a s']|] eqn:E; [|done]. by eapply Hs.
Qed.

(** A method commits one transaction or changes nothing. *)
Lemma repo_step_tx `{Chrono} r r' :
  repo_step r r' → r' = r ∨ ∃ s', r' = r <| mr_state := s' |> ∧ tx_step (mr_state r) s'.
Proof.
  intros Hs. destruct Hs;
    unfold register_worker, activate_worker_capabilities, renew_worker_lease, set_worker_draining,
      create_call, commit_command, release_assignment, consume_attachment, ingest_provider_event,
      bind_provider_reference, claim_provider_events, complete_provider_event,
      acknowledge_terminal_provider_event, claim_outbox, complete_outbox, claim_due_deadlines,
      claim_restart_calls, claim_method;
    repeat match goal with
    | |- context [match ?r with Ok _ => _ | Err _ => _ end] =>
        let E := fresh "E" in (destruct r eqn:E; [|by left])
    | |- context [if ?b then _ else _] => (destruct b; [by left|])
    end;
    (apply (transaction_step r _ (λ x, x = r ∨ ∃ s', x = r <| mr_state := s' |> ∧
      tx_step (mr_state r) s')); [by left|]); intros a s' Hs; right; exists s'; (split; [done|]);
    try (by econstructor; eauto);
    try (apply bind_unit_ok in Hs as [_ Hs]; by econstructor; eauto).
  apply bind_unit_ok in E as [E _]. by eapply tx_register.
Qed.

(** ** Load *)

(** The call counts against the capacity of worker [w]. *)
Definition assigned (w : WorkerId) (c : StoredCall) : bool :=
  (wl_worker_id (wa_lease (sc_assignment c)) ==? w) && is_none (wa_released_at (sc_assignment c)).

Definition load (w : WorkerId) (calls : gmap CallId StoredCall) : nat :=
  size (filter (λ kv, assigned w kv.2 = true) calls).

Lemma load_insert_new w id c calls :
  calls !! id = None → load w (<[id := c]> calls) = (Nat.b2n (assigned w c) + load w calls)%nat.
Proof.
  intros Hid. unfold load. rewrite map_filter_insert. cbn. destruct (assigned w c) eqn:E.
  - case_decide; [|done]. rewrite map_size_insert_None; [done|].
    apply map_lookup_filter_None. by left.
  - case_decide; [done|]. by rewrite delete_id.
Qed.

Lemma load_insert w id c0 c calls :
  calls !! id = Some c0 →
  (load w (<[id := c]> calls) + Nat.b2n (assigned w c0) = load w calls + Nat.b2n (assigned w c))%nat.
Proof.
  intros Hid. rewrite <- (insert_delete_id calls id c0 Hid) at 2.
  rewrite <- (insert_delete_eq calls id c). rewrite !load_insert_new by apply lookup_delete_eq. lia.
Qed.

Lemma load_insert_same w id c0 c calls :
  calls !! id = Some c0 → assigned w c = assigned w c0 → load w (<[id := c]> calls) = load w calls.
Proof. intros Hid E. pose proof (load_insert w id c0 c calls Hid). rewrite E in *. lia. Qed.

(** ** The invariant *)

Record worker_ok (s : MemoryState) (w : WorkerId) (k : WorkerSnapshot) : Prop := {
  wo_id : wl_worker_id (wk_lease k) = w;
  wo_load : wk_reserved_calls k = N.of_nat (load w (rm_calls s));
  wo_bound : (wk_reserved_calls k ≤ wk_max_calls k)%N;
}.

Record call_ok (s : MemoryState) (id : CallId) (c : StoredCall) : Prop := {
  ko_id : ca_id (sc_aggregate c) = id;
  ko_valid : valid_call (sc_aggregate c);
  ko_released : is_some (wa_released_at (sc_assignment c)) = call_is_terminal (ca_state (sc_aggregate c));
  ko_worker : ∃ k, rm_workers s !! wl_worker_id (wa_lease (sc_assignment c)) = Some k ∧
                   (wl_fence (wa_lease (sc_assignment c)) ≤ wl_fence (wk_lease k))%N;
}.

Record capacity_ok (s : MemoryState) : Prop := {
  cy_workers w k : rm_workers s !! w = Some k → worker_ok s w k;
  cy_calls id c : rm_calls s !! id = Some c → call_ok s id c;
}.

(** The invariant reads the workers and the calls only. *)
Lemma capacity_ok_ext s s' :
  rm_workers s' = rm_workers s → rm_calls s' = rm_calls s → capacity_ok s → capacity_ok s'.
Proof.
  intros Ew Ec [Hw Hc]. split.
  - rewrite Ew. intros w k Hk. destruct (Hw w k Hk). split; auto. by rewrite Ec.
  - rewrite Ec. intros id c Hcall. destruct (Hc id c Hcall). split; auto. by rewrite Ew.
Qed.

(** A worker row may change as long as its fence does not move back and its load is kept. *)
Lemma capacity_put_worker s s' w k :
  capacity_ok s → rm_calls s' = rm_calls s → rm_workers s' = <[w := k]> (rm_workers s) →
  wl_worker_id (wk_lease k) = w → wk_reserved_calls k = N.of_nat (load w (rm_calls s)) →
  (wk_reserved_calls k ≤ wk_max_calls k)%N →
  (∀ k0, rm_workers s !! w = Some k0 → (wl_fence (wk_lease k0) ≤ wl_fence (wk_lease k))%N) →
  capacity_ok s'.
Proof.
  intros [Hw Hc] Ec Ew Hid Hl Hb Hf. split.
  - intros w' k'. rewrite Ew, lookup_insert_Some. intros [[<- <-]|[_ Hk]].
    + split; auto. by rewrite Ec.
    + destruct (Hw w' k' Hk). split; auto. by rewrite Ec.
  - rewrite Ec. intros id c Hcall. destruct (Hc id c Hcall) as [? ? ? (k1 & Hk1 & Hle)].
    split; auto. rewrite Ew.
    destruct (base.decide (wl_worker_id (wa_lease (sc_assignment c)) = w)) as [E|Hne].
    + rewrite E in *. rewrite lookup_insert_eq. exists k. split; [done|]. specialize (Hf k1 Hk1). lia.
    + rewrite lookup_insert_ne by done. by exists k1.
Qed.

(** A call row may change as long as the capacity it holds does not. *)
Lemma capacity_put_call s s' id c0 c :
  capacity_ok s → rm_workers s' = rm_workers s → rm_calls s' = <[id := c]> (rm_calls s) →
  rm_calls s !! id = Some c0 → (∀ w, assigned w c = assigned w c0) → call_ok s id c →
  capacity_ok s'.
Proof.
  intros [Hw Hc] Ew Ec H0 Ha Hok. split.
  - rewrite Ew. intros w k Hk. destruct (Hw w k Hk). split; auto.
    rewrite Ec. by rewrite (load_insert_same w id c0).
  - intros id' c'. rewrite Ec, lookup_insert_Some. intros [[<- <-]|[_ Hcall]].
    + destruct Hok. split; auto. by rewrite Ew.
    + destruct (Hc id' c' Hcall). split; auto. by rewrite Ew.
Qed.

(** A call and the worker it is assigned to change together. *)
Lemma capacity_put_both s s' w k0 k id c :
  capacity_ok s → rm_workers s !! w = Some k0 →
  rm_workers s' = <[w := k]> (rm_workers s) → rm_calls s' = <[id := c]> (rm_calls s) →
  wk_lease k = wk_lease k0 → call_ok s id c →
  (∀ w', w' ≠ w → load w' (<[id := c]> (rm_calls s)) = load w' (rm_calls s)) →
  wk_reserved_calls k = N.of_nat (load w (<[id := c]> (rm_calls s))) →
  (wk_reserved_calls k ≤ wk_max_calls k)%N →
  capacity_ok s'.
Proof.
  intros [Hw Hc] Hk0 Ew Ec Hl Hok Hload Hres Hb.
  assert (Hworker : ∀ w1 f, (∃ k1, rm_workers s !! w1 = Some k1 ∧ (f ≤ wl_fence (wk_lease k1))%N) →
    ∃ k1, rm_workers s' !! w1 = Some k1 ∧ (f ≤ wl_fence (wk_lease k1))%N).
  { intros w1 f (k1 & Hk1 & Hf). rewrite Ew. destruct (base.decide (w1 = w)) as [->|].
    - rewrite lookup_insert_eq. exists k. simplify_eq. by rewrite Hl.
    - rewrite lookup_insert_ne by done. by exists k1. }
  split.
  - intros w' k'. rewrite Ew, lookup_insert_Some. intros [[<- <-]|[Hne Hk]].
    + split; auto; [|by rewrite Ec]. rewrite Hl. apply (Hw _ _ Hk0).
    + destruct (Hw w' k' Hk). split; auto. rewrite Ec. by rewrite Hload.
  - intros id' c'. rewrite Ec, lookup_insert_Some. intros [[<- <-]|[_ Hcall]].
    + destruct Hok. split; auto.
    + destruct (Hc id' c' Hcall). split; auto.
Qed.

(** ** Preservation *)

(** No call is assigned to a worker that was never registered. *)
Lemma load_unregistered s w : capacity_ok s → rm_workers s !! w = None → load w (rm_calls s) = 0%nat.
Proof.
  intros [_ Hc] Hw. unfold load. apply map_size_empty_iff, map_empty. intros id.
  apply map_lookup_filter_None. right. intros c Hcall. cbn. unfold assigned.
  destruct (ko_worker _ _ _ (Hc id c Hcall)) as (k & Hk & _).
  rewrite bool_decide_eq_false_2; [done|]. intros E. rewrite E in Hk. congruence.
Qed.

Lemma WorkerFence_next_ok f f' : WorkerFence_next f = Ok f' → f' = (f + 1)%N.
Proof. unfold WorkerFence_next. destruct (_ <=? _)%N; congruence. Qed.

Lemma capacity_register `{Chrono} request catalog s out s' :
  capacity_ok s → register_worker_in_state request catalog s = Ok (out, s') → capacity_ok s'.
Proof.
  intros Hok Hr. unfold register_worker_in_state in Hr. cbv zeta in Hr.
  apply result_bind_ok in Hr as (exp & _ & Hr). apply result_bind_ok in Hr as (k & Hk & [= _ <-]).
  destruct (rm_workers s !! rw_worker_id request) as [k0|] eqn:H0.
  - destruct (_ <? _)%N eqn:Hb; [done|]. apply N.ltb_ge in Hb.
    destruct (existsb _ _); [done|].
    apply result_bind_ok in Hk as (f & Hf%WorkerFence_next_ok & [= <-]).
    destruct (cy_workers s Hok _ _ H0) as [Hid Hl Hle].
    eapply (capacity_put_worker s); eauto.
    intros k1 Hk1. simplify_eq. cbn. lia.
  - injection Hk as <-. eapply (capacity_put_worker s); eauto; cbn.
    + by rewrite load_unregistered.
    + lia.
    + intros k1 Hk1. congruence.
Qed.

(** The same-fence worker updates. *)
Lemma capacity_refresh s lease k k' :
  capacity_ok s → leased_worker s lease = Some k → wk_lease k' = wk_lease k →
  wk_reserved_calls k' = wk_reserved_calls k → wk_max_calls k' = wk_max_calls k →
  capacity_ok (put_worker s (wl_worker_id lease) k').
Proof.
  intros Hok [Hk <-]%leased_worker_Some Hl Hr Hm.
  destruct (cy_workers s Hok _ _ Hk) as [Hid Hload Hle].
  eapply (capacity_put_worker s); eauto; rewrite ?Hl, ?Hr, ?Hm; auto.
  intros k1 Hk1. by simplify_eq.
Qed.

Lemma decide_live_step a c d :
  valid_call a → decide a c = Ok d → applies d = true → call_step (ca_state a) (ca_state (cd_aggregate d)) = true.
Proof.
  intros Hv Hd Ha.
  destruct (decide_inv _ _ _ Hv Hd) as [(a' & r & Hap & Hr & _ & _ & -> & _ & _)|(_ & _ & Hn)].
  - by destruct (apply_command_follows _ _ _ _ Hv Hap Hr).
  - unfold applies in Ha. by bool_hyps.
Qed.

Lemma assigned_eq w c c' :
  wl_worker_id (wa_lease (sc_assignment c')) = wl_worker_id (wa_lease (sc_assignment c)) →
  is_none (wa_released_at (sc_assignment c')) = is_none (wa_released_at (sc_assignment c)) →
  assigned w c' = assigned w c.
Proof. unfold assigned. by intros -> ->. Qed.

Lemma capacity_create_written `{Chrono} new_id request s d k fp s' :
  capacity_ok s → create_guarded request s d k fp → create_written new_id request s d k fp s' →
  capacity_ok s'.
Proof.
  intros Hok G W. destruct G, W. pose proof (decide_keeps _ _ _ kg_valid kg_decide) as (Hid & _).
  assert (Ha : applies d = true) by (unfold applies; by rewrite kg_applied).
  pose proof (decide_live_step _ _ _ kg_valid kg_decide Ha) as Hst. rewrite kg_pending in Hst.
  destruct (cy_workers s Hok _ _ kg_worker) as [_ Hload Hle].
  eapply (capacity_put_both s); eauto; cbn.
  - split; cbn; auto.
    + eauto using decide_valid.
    + by destruct (ca_state (cd_aggregate d)).
    + exists k. split; [done|]. by rewrite kg_lease.
  - intros w' Hw. rewrite load_insert_new by done. unfold assigned. cbn.
    by rewrite bool_decide_eq_false_2.
  - rewrite load_insert_new by done. unfold assigned. cbn. rewrite bool_decide_eq_true_2 by done.
    cbn. rewrite Hload. lia.
  - lia.
Qed.

Lemma capacity_create `{Chrono} new_id request s out s' :
  capacity_ok s → create_call_in_state new_id request s = Ok (out, s') → capacity_ok s'.
Proof.
  intros Hok [(c & i & r & -> & -> & _)|(d & k & fp & -> & G & W)]%create_call_ok.
  - by apply (capacity_ok_ext s).
  - by eapply capacity_create_written.
Qed.

Lemma capacity_commit_written new_id request s c d view s' :
  capacity_ok s → commit_guarded request s c d → commit_written new_id request s c d view s' →
  capacity_ok s'.
Proof.
  intros Hok G W. destruct G, W. destruct (cy_calls s Hok _ _ cg_call) as [Hid Hv Hrel Hwk].
  pose proof (decide_keeps _ _ _ Hv cg_decide) as (Hid' & _).
  assert (Hv' : valid_call (cd_aggregate d)) by eauto using decide_valid.
  destruct (terminates d) eqn:Ht.
  - destruct cw_workers as (k & Hk & Hz & Ew). rewrite <- cg_lease in Hk, Ew.
    destruct (cy_workers s Hok _ _ Hk) as [Hwid Hload Hle].
    assert (Hasg : assigned (wl_worker_id (wa_lease (sc_assignment c))) c = true).
    { unfold assigned. by rewrite bool_decide_eq_true_2, cg_unreleased. }
    assert (Hnot : ∀ w, assigned w (committed_call request c d) = false).
    { intros w. unfold assigned, committed_call. rewrite Ht. cbn. apply andb_false_r. }
    eapply (capacity_put_both s); eauto; cbn.
    + split; cbn; try congruence; rewrite Ht; cbn; auto.
    + intros w' Hw. apply (load_insert_same _ _ c); [done|]. rewrite Hnot. unfold assigned.
      by rewrite bool_decide_eq_false_2.
    + pose proof (load_insert (wl_worker_id (wa_lease (sc_assignment c))) _ c
        (committed_call request c d) _ cg_call) as Hl. rewrite Hnot, Hasg in Hl. cbn in Hl. lia.
    + lia.
  - eapply (capacity_put_call s); eauto.
    + intros w. unfold committed_call. rewrite Ht. by apply assigned_eq.
    + split; cbn; try congruence; rewrite Ht; auto. rewrite cg_unreleased. cbn. by rewrite <- Ht.
Qed.

Lemma capacity_commit new_id request s out s' :
  capacity_ok s → commit_command_in_state new_id request s = Ok (out, s') → capacity_ok s'.
Proof.
  intros Hok [(-> & _)|(c & d & view & -> & G & W)]%commit_command_ok; [done|..].
  - by eapply capacity_commit_written.
  - intros c Hc. apply (cy_calls s Hok _ _ Hc).
Qed.

Lemma capacity_release t id w at_ s out s' :
  capacity_ok s → release_assignment_in_state t id w at_ s = Ok (out, s') → capacity_ok s'.
Proof.
  intros Hok (_ & c & Hc & _ & _ & Ht & Hb)%release_assignment_ok.
  destruct out; [|by destruct Hb as [_ ->]]. destruct Hb as [Hr _].
  pose proof (ko_released _ _ _ (cy_calls s Hok _ _ Hc)) as E. rewrite Hr, Ht in E. done.
Qed.

(** The bindings a call holds do not count. *)
Lemma capacity_consumed request row c s :
  capacity_ok s → rm_calls s !! an_call_id (am_candidate request) = Some c →
  capacity_ok (consumed_state request row c s).
Proof.
  intros Hok Hc. destruct (cy_calls s Hok _ _ Hc) as [Hid Hv Hr Hw].
  eapply (capacity_put_call s _ _ c (consumed_call request c)); eauto.
  - intros w. unfold consumed_call. by destruct (replaces_pending _ _).
  - unfold consumed_call. by destruct (replaces_pending _ _).
Qed.

Lemma capacity_consume new_id request s out s' :
  capacity_ok s → consume_attachment_in_state new_id request s = Ok (out, s') → capacity_ok s'.
Proof.
  intros Hok (row & c & d & view & _ & [] & G & W)%consume_attachment_ok.
  - eapply capacity_commit_written; [|exact G|exact W]. by apply capacity_consumed.
  - intros id c Hc. apply (cy_calls s Hok _ _ Hc).
Qed.

(** A restart by the worker the call is already assigned to moves no capacity. *)
Lemma capacity_restarted s s' w k id c :
  capacity_ok s → rm_calls s !! id = Some c →
  rm_workers s !! wl_worker_id w = Some k → wk_lease k = w →
  wl_worker_id (wa_lease (sc_assignment c)) = wl_worker_id w →
  rm_workers s' = rm_workers s → rm_calls s' = <[id := restarted_call w c]> (rm_calls s) →
  capacity_ok s'.
Proof.
  intros Hok Hc Hk Hl Hid Ew Ec. destruct (cy_calls s Hok _ _ Hc) as [Hi Hv Hr Hw].
  eapply (capacity_put_call s _ id c (restarted_call w c)); eauto.
  - intros w'. apply assigned_eq; cbn; auto.
  - split; cbn; auto. exists k. by rewrite Hl.
Qed.

Lemma capacity_restart_calls w at_ ids s out s' :
  capacity_ok s → (∃ k, rm_workers s !! wl_worker_id w = Some k ∧ wk_lease k = w) →
  (∀ id c, id ∈ ids → rm_calls s !! id = Some c → wl_worker_id (wa_lease (sc_assignment c)) = wl_worker_id w) →
  restart_calls w at_ ids s = Ok (out, s') → capacity_ok s'.
Proof.
  revert s out. induction ids as [|id ids IH]; intros s out Hok Hk Hids H; cbn in H.
  { by injection H as _ <-. }
  apply result_bind_ok in H as ([claim s1] & H1 & H). cbn in H.
  apply result_bind_ok in H as ([claims s2] & H2 & [= _ <-]).
  unfold restart_call in H1. cbv zeta in H1. apply result_bind_ok in H1 as (c & Hc%ok_or_ok & [= _ <-]).
  assert (Hid : wl_worker_id (wa_lease (sc_assignment c)) = wl_worker_id w).
  { apply (Hids id); [by constructor|done]. }
  eapply IH; [..|exact H2].
  - destruct Hk as (k & Hk & Hl). by eapply (capacity_restarted s _ w k id c).
  - done.
  - intros id' c' Hin Hc'. cbn in Hc'. apply lookup_insert_Some in Hc' as [[<- <-]|[_ Hc']]; [done|].
    apply (Hids id'); [|done]. by constructor.
Qed.

Lemma restartable_worker s w fp c :
  restartable s w fp c = true → wl_worker_id (wa_lease (sc_assignment c)) = wl_worker_id w ∧
    (wl_fence (wa_lease (sc_assignment c)) < wl_fence w)%N.
Proof.
  unfold restartable. rewrite !andb_true_iff. intros [[[Hw Hf] _] _].
  split; [by apply bool_decide_eq_true in Hw|by apply N.ltb_lt].
Qed.

Lemma restartable_ids s w fp limit (id : CallId) :
  id ∈ take limit (sort_by Z.compare (List.filter (λ entry : CallId * StoredCall,
       restartable s w fp entry.2) (map_to_list (rm_calls s))).*1) →
  ∃ c, rm_calls s !! id = Some c ∧ restartable s w fp c = true.
Proof.
  intros Hin%elem_of_take. destruct Hin as (i & Hi & _). apply list_elem_of_lookup_2 in Hi.
  rewrite sort_by_perm in Hi. apply list_elem_of_fmap in Hi as ([id' c] & -> & Hin).
  apply list_elem_of_In, filter_In in Hin as [Hin Hr]. apply list_elem_of_In, elem_of_map_to_list in Hin.
  by exists c.
Qed.

Lemma capacity_restart w at_ limit s out s' :
  capacity_ok s → claim_restart_calls_in_state w at_ limit s = Ok (out, s') → capacity_ok s'.
Proof.
  intros Hok H. unfold claim_restart_calls_in_state in H. apply bind_unit_ok in H as [Hw H].
  apply ensure_worker_ok in Hw as (k & Hk & Hl & _).
  apply result_bind_ok in H as (k' & _ & H). apply result_bind_ok in H as (fp & _ & H). cbv zeta in H.
  eapply capacity_restart_calls; [exact Hok|by exists k| |exact H].
  intros id c (c' & Hc' & Hr)%restartable_ids Hc. simplify_eq.
  by apply restartable_worker in Hr as [Hr _].
Qed.

(** Every transaction keeps the invariant. *)
Lemma capacity_tx `{Chrono} s s' : capacity_ok s → tx_step s s' → capacity_ok s'.
Proof.
  intros Hok Hs. destruct Hs.
  - by eapply capacity_register.
  - unfold activate_worker_capabilities_in_state in H0. cbv zeta in H0. inv_ok H0; simplify_eq; [done|].
    apply ok_or_ok in Hx. by eapply capacity_refresh.
  - unfold renew_worker_lease_in_state in H0. cbv zeta in H0. inv_ok H0; simplify_eq; [done|].
    apply ok_or_ok in Hx. by eapply capacity_refresh.
  - unfold set_worker_draining_in_state in H0. cbv zeta in H0. inv_ok H0; simplify_eq.
    apply ok_or_ok in Hx. by eapply capacity_refresh.
  - by eapply capacity_create.
  - by eapply capacity_commit.
  - by eapply capacity_release.
  - by eapply capacity_consume.
  - apply ingest_frame in H0 as (? & ? & ->). by apply (capacity_ok_ext s).
  - apply bind_frame in H0 as (? & ? & ->). by apply (capacity_ok_ext s).
  - unfold claim_provider_events_in_state in H0. apply bind_unit_ok in H0 as [_ H0].
    apply claim_provider_loop_frame in H0 as [? ->]. by apply (capacity_ok_ext s).
  - apply complete_provider_event_ok in H1 as [->|(ev & o & s1 & row & ev' & _ & _ & _ & Hc & Ha)]; [done|].
    apply apply_event_ok in Ha as (? & _ & _ & ->). apply (capacity_ok_ext s1); [done..|].
    by eapply capacity_commit.
  - apply acknowledge_ok in H0 as [->|(ev & ev' & _ & _ & Ha)]; [done|].
    apply apply_event_ok in Ha as (? & _ & _ & ->). by apply (capacity_ok_ext s).
  - unfold claim_outbox_in_state in H0. apply bind_unit_ok in H0 as [_ H0].
    apply claim_outbox_loop_frame in H0 as [? ->]. by apply (capacity_ok_ext s).
  - apply complete_outbox_ok in H0 as (? & ? & _ & _ & _ & _ & ->). by apply (capacity_ok_ext s).
  - unfold claim_due_deadlines_in_state in H0. apply bind_unit_ok in H0 as [_ H0].
    apply claim_deadline_loop_frame in H0 as [? ->]. by apply (capacity_ok_ext s).
  - by eapply capacity_restart.
Qed.

(** An invariant of the transactions holds in every repository reachable from one where it
    holds. *)
Lemma repo_invariant `{Chrono} (P : MemoryState → Prop) :
  (∀ s s', P s → tx_step s s' → P s') →
  ∀ r r', rtc repo_step r r' → P (mr_state r) → P (mr_state r').
Proof.
  intros Htx r r' Hr. induction Hr as [|r r1 r' Hs Hr IH]; [done|]. intros Hp. apply IH.
  apply repo_step_tx in Hs as [->|(s' & -> & Hs)]; [done|]. by eapply Htx.
Qed.

Lemma capacity_ok_default : capacity_ok MemoryState_default.
Proof. by split. Qed.

Definition reachable `{Chrono} (r : MemoryRepository) : Prop :=
  rtc repo_step MemoryRepository_default r.

Lemma reachable_capacity `{Chrono} r : reachable r → capacity_ok (mr_state r).
Proof.
  intros Hr. eapply (repo_invariant capacity_ok); [|exact Hr|apply capacity_ok_default].
  intros s s'. apply capacity_tx.
Qed.
