(* ===== verification/RepoEffects.v ===== *)
(** The writes of the standalone call repository, one row group at a time.

    Every transaction of the repository is a sequence of the steps of [effect]: a worker row, a
    created call, a committed command, one claimed or finished row, one restarted call.  The
    invariants of the following files are proved on these steps. *)

From S2P Require Import Prelude RustText DomainTypes CoordModel Domain DomainInv DomainSafety.
From S2P Require Import DomainWorld DomainTrace DomainTheorems.
From S2P Require Import RepoTypes ServiceTypes RepoMemory RepoClaims RepoFrame RepoCommit RepoInv.
From stdpp Require Import options.

(** The state after [restart_call]. *)
Definition restarted_state (w : WorkerLease) (at_ : DateTime) (id : CallId) (c : StoredCall)
    (s : MemoryState) : MemoryState :=
  s
  <| rm_calls := <[id := restarted_call w c]> (rm_calls s) |>
  <| rm_outbox :=
       update_where (λ row, (ob_call_id row ==? id) && outbox_is_unfinished row)
         (λ row, row <| ob_worker := w |> <| ob_state := expire_claim at_ (ob_state row) |>)
         (rm_outbox s) |>
  <| rm_control_outbox :=
       update_where (λ row, (cx_call_id row ==? id) && control_outbox_is_unfinished row)
         (λ row, row <| cx_worker := w |> <| cx_state := expire_claim at_ (cx_state row) |>)
         (rm_control_outbox s) |>
  <| rm_deadlines :=
       update_where (λ row, dr_call_id row ==? id) (expire_deadline_claim at_) (rm_deadlines s) |>
  <| rm_provider_events :=
       update_where
         (λ event, is_some_and (λ target, pt_call_id target ==? id) (pe_target event))
         (expire_event_claim at_) (rm_provider_events s) |>
  <| rm_attachments :=
       update_where (λ row, (ax_call_id row ==? id) && is_none (ax_consumed_at row))
         (λ row, row <| ax_revoked_at := Some at_ |>) (rm_attachments s) |>.

(** The generation a new claim follows. *)
Definition outbox_generation (state : OutboxState) : option ClaimGeneration :=
  match state with
  | OutboxState.Claimed _ generation _ _ => Some generation
  | OutboxState.Ready => Some ClaimGeneration_default
  | OutboxState.Succeeded _ | OutboxState.Failed _ _ => None
  end.

Definition deadline_claim_generation (state : DeadlineState) : option ClaimGeneration :=
  match state with
  | DeadlineState.Claimed _ generation _ => Some generation
  | DeadlineState.Pending => Some ClaimGeneration_default
  | DeadlineState.Cancelled _ | DeadlineState.Completed _ => None
  end.

Definition event_generation (state : ProviderEventState) : option ClaimGeneration :=
  match state with
  | ProviderEventState.Ready => Some ClaimGeneration_default
  | ProviderEventState.Claimed _ generation _ _ => Some generation
  | ProviderEventState.PendingReference | ProviderEventState.Applied => None
  end.

(** No worker disappears and no fence moves back. *)
Definition fences_kept (ws ws' : gmap WorkerId WorkerSnapshot) : Prop :=
  ∀ w k, ws !! w = Some k → ∃ k', ws' !! w = Some k' ∧
    (wl_fence (wk_lease k) ≤ wl_fence (wk_lease k'))%N.

Lemma fences_put (ws : gmap WorkerId WorkerSnapshot) w k :
  (∀ k0, ws !! w = Some k0 → (wl_fence (wk_lease k0) ≤ wl_fence (wk_lease k))%N) →
  fences_kept ws (<[w := k]> ws).
Proof.
  intros Hk w' k' Hw. destruct (base.decide (w = w')) as [<-|].
  - rewrite lookup_insert_eq. eauto.
  - rewrite lookup_insert_ne by done. by exists k'.
Qed.

Lemma fences_refresh s lease k k' :
  leased_worker s lease = Some k → wk_lease k' = wk_lease k →
  fences_kept (rm_workers s) (<[wl_worker_id lease := k']> (rm_workers s)).
Proof.
  intros [Hk Hl]%leased_worker_Some El. apply fences_put. intros k0 Hk0. simplify_eq. by rewrite El.
Qed.

(** ** Batches *)

Lemma batch_records_elem new_id batch index effects r :
  r ∈ batch_records new_id batch index effects ↔
  ∃ i intent, effects !! i = Some intent ∧
              r = effect_record batch (new_id (index + i)%nat) (index + i) intent.
Proof.
  unfold batch_records. rewrite list_elem_of_lookup. split.
  - intros [i Hi]. rewrite list_lookup_imap in Hi.
    destruct (effects !! i) as [intent|] eqn:E; [|done]. injection Hi as <-. eauto.
  - intros (i & intent & E & ->). exists i. by rewrite list_lookup_imap, E.
Qed.

Lemma batch_records_nodup new_id batch index effects :
  (∀ i j, new_id i = new_id j → i = j) →
  NoDup (map ob_effect_id (batch_records new_id batch index effects)).
Proof.
  intros Hinj. apply NoDup_alt. intros i j id Hi Hj. unfold batch_records in *.
  change (map ob_effect_id) with (fmap ob_effect_id : list OutboxRecord → list EffectId) in *.
  rewrite list_lookup_fmap, list_lookup_imap in Hi, Hj.
  destruct (effects !! i), (effects !! j); try done. injection Hi as <-. injection Hj as Hj.
  apply Hinj in Hj. lia.
Qed.

Lemma insert_records_lookup records (o : gmap EffectId OutboxRecord) (e : EffectId) r :
  NoDup (map ob_effect_id records) → (∀ r, r ∈ records → o !! ob_effect_id r = None) →
  insert_records records o !! e = Some r ↔
  o !! e = Some r ∨ (r ∈ records ∧ ob_effect_id r = e).
Proof.
  revert o. induction records as [|r0 records IH]; intros o Hnd Hnew.
  { cbn. split; [by left|]. intros [?|[?%not_elem_of_nil _]]; done. }
  change (insert_records (r0 :: records) o)
    with (insert_records records (<[ob_effect_id r0 := r0]> o)).
  apply NoDup_cons in Hnd as [Hn Hnd]. rewrite IH; [|done|].
  - rewrite lookup_insert_Some, elem_of_cons. specialize (Hnew r0 ltac:(by constructor)). split.
    + intros [[[<- <-]|[Hne Hr]]|[Hr <-]]; auto.
    + intros [Hr|[[->|Hr] <-]]; auto. left. right. split; [|done]. intros <-. congruence.
  - intros r1 Hr1. rewrite lookup_insert_ne.
    + apply Hnew. by constructor.
    + intros E. apply Hn. rewrite E. by apply (list_elem_of_fmap_2 ob_effect_id).
Qed.

(** The outbox after a batch: earlier rows and the rows of the batch. *)
Lemma batch_lookup new_id batch effects s (e : EffectId) r :
  fresh_ids new_id s →
  insert_records (batch_records new_id batch 0 effects) (rm_outbox s) !! e = Some r ↔
  rm_outbox s !! e = Some r ∨
  ∃ i intent, effects !! i = Some intent ∧ r = effect_record batch (new_id i) i intent ∧
              e = new_id i.
Proof.
  intros [Hu Hd]. rewrite insert_records_lookup.
  - rewrite batch_records_elem. split; (intros [?|H]; [by left|right]).
    + destruct H as ((i & intent & E & ->) & <-). by exists i, intent.
    + destruct H as (i & intent & E & -> & ->). split; [by exists i, intent|done].
  - by apply batch_records_nodup.
  - intros r1 (i & intent & _ & ->)%batch_records_elem. apply Hu.
Qed.

(** ** Effects *)

Section Effects.
Context {chrono : Chrono}.

Inductive effect (s : MemoryState) : MemoryState → Prop :=
| eff_workers ws :
    capacity_ok (s <| rm_workers := ws |>) → fences_kept (rm_workers s) ws →
    effect s (s <| rm_workers := ws |>)
| eff_claims at_ i r :
    live_claims at_ (rm_idempotency s) i →
    effect s (s <| rm_idempotency := i |> <| rm_retired_operation_claims := r |>)
| eff_create new_id request d k fingerprint s' :
    fresh_ids new_id s → create_guarded request s d k fingerprint →
    create_written new_id request s d k fingerprint s' → effect s s'
| eff_commit new_id request c d view s' :
    fresh_ids new_id s → commit_guarded request s c d →
    commit_written new_id request s c d view s' → effect s s'
| eff_consume new_id request row c d view s' :
    fresh_ids new_id s → consume_guarded request s row c →
    commit_guarded (consume_commit request) (consumed_state request row c s)
      (consumed_call request c) d →
    commit_written new_id (consume_commit request) (consumed_state request row c s)
      (consumed_call request c) d view s' → effect s s'
| eff_ingest request out s' : ingest_provider_event_in_state request s = Ok (out, s') → effect s s'
| eff_bind request out s' : bind_provider_reference_in_state request s = Ok (out, s') → effect s s'
| eff_apply key event at_ row ev s' w g :
    rm_provider_events s !! key = Some event →
    provider_claim_held event w g at_ = true →
    apply_event s key at_ row = Ok (ev, s') → effect s s'
| eff_claim_event key event w at_ expires_at previous generation :
    rm_provider_events s !! key = Some event →
    provider_event_claimable s event w at_ = true →
    event_generation (pe_state event) = Some previous → claim_next previous = Ok generation →
    effect s (s <| rm_provider_events :=
      <[key := event <| pe_state := ProviderEventState.Claimed w generation at_ expires_at |>]>
        (rm_provider_events s) |>)
| eff_claim_effect e record w at_ expires_at previous generation :
    rm_outbox s !! e = Some record → outbox_claimable s record w at_ = true →
    outbox_generation (ob_state record) = Some previous → claim_next previous = Ok generation →
    effect s (s <| rm_outbox :=
      <[e := record <| ob_state := OutboxState.Claimed w generation at_ expires_at |>]>
        (rm_outbox s) |>)
| eff_finish_effect e record w g at_ st :
    rm_outbox s !! e = Some record → outbox_claim_held (ob_state record) w g at_ = true →
    state_is_unfinished st = false →
    effect s (s <| rm_outbox := <[e := record <| ob_state := st |>]> (rm_outbox s) |>)
| eff_claim_deadline key record w expires_at previous generation :
    rm_deadlines s !! key = Some record →
    deadline_claim_generation (dr_state record) = Some previous →
    claim_next previous = Ok generation →
    effect s (s <| rm_deadlines :=
      <[key := record <| dr_state := DeadlineState.Claimed w generation expires_at |>]>
        (rm_deadlines s) |>)
| eff_restart id c k w at_ :
    rm_calls s !! id = Some c → rm_workers s !! wl_worker_id w = Some k → wk_lease k = w →
    wl_worker_id (wa_lease (sc_assignment c)) = wl_worker_id w →
    effect s (restarted_state w at_ id c s).

Lemma claim_provider_loop_effects w at_ exp limit keys s out s' :
  claim_provider_loop w at_ exp limit keys s = Ok (out, s') → rtc effect s s'.
Proof.
  revert limit s out. induction keys as [|key keys IH]; intros limit s out H; cbn in H.
  { injection H as _ <-. done. }
  destruct limit as [|limit]; [by injection H as _ <-|].
  apply result_bind_ok in H as (ev & Hev%ok_or_ok & H). destruct (negb _) eqn:Ec; [by eapply IH|].
  apply negb_false_iff in Ec. open_option H; [|by eapply IH].
  apply result_bind_ok in H as (g & Hg & H).
  apply result_bind_ok in H as ([claimed s1] & H1 & [= _ <-]).
  eapply rtc_l; [|by eapply IH]. by eapply eff_claim_event.
Qed.

Lemma claim_outbox_loop_effects w at_ exp limit ids s out s' :
  claim_outbox_loop w at_ exp limit ids s = Ok (out, s') → rtc effect s s'.
Proof.
  revert limit s out. induction ids as [|id ids IH]; intros limit s out H; cbn in H.
  { injection H as _ <-. done. }
  destruct limit as [|limit]; [by injection H as _ <-|].
  apply result_bind_ok in H as (r & Hr%ok_or_ok & H). destruct (negb _) eqn:Ec; [by eapply IH|].
  apply negb_false_iff in Ec. open_option H; [|by eapply IH].
  apply result_bind_ok in H as (g & Hg & H).
  apply result_bind_ok in H as ([claimed s1] & H1 & [= _ <-]).
  eapply rtc_l; [|by eapply IH]. by eapply eff_claim_effect.
Qed.

Lemma claim_deadline_loop_effects w exp keys s out s' :
  claim_deadline_loop w exp keys s = Ok (out, s') → rtc effect s s'.
Proof.
  revert s out. induction keys as [|key keys IH]; intros s out H; cbn in H.
  { injection H as _ <-. done. }
  apply result_bind_ok in H as (r & Hr%ok_or_ok & H). open_option H; [|by eapply IH].
  apply result_bind_ok in H as (g & Hg & H).
  apply result_bind_ok in H as ([claimed s1] & H1 & [= _ <-]).
  eapply rtc_l; [|by eapply IH]. by eapply eff_claim_deadline.
Qed.

Lemma restart_calls_effects w at_ ids k s out s' :
  rm_workers s !! wl_worker_id w = Some k → wk_lease k = w →
  (∀ id c, id ∈ ids → rm_calls s !! id = Some c →
     wl_worker_id (wa_lease (sc_assignment c)) = wl_worker_id w) →
  restart_calls w at_ ids s = Ok (out, s') → rtc effect s s'.
Proof.
  revert s out. induction ids as [|id ids IH]; intros s out Hk Hl Hids H; cbn in H.
  { by injection H as _ <-. }
  apply result_bind_ok in H as ([claim s1] & H1 & H). cbn in H.
  apply result_bind_ok in H as ([claims s2] & H2 & [= _ <-]).
  unfold restart_call in H1. cbv zeta in H1.
  apply result_bind_ok in H1 as (c & Hc%ok_or_ok & [= _ <-]).
  apply (rtc_l _ _ (restarted_state w at_ id c s)); [|eapply IH; [done..| |exact H2]].
  - eapply eff_restart; eauto. apply (Hids id); [by constructor|done].
  - intros id' c' Hin Hc'. cbn in Hc'. apply lookup_insert_Some in Hc' as [[<- <-]|[_ Hc']]; [done|].
    apply (Hids id'); [|done]. by constructor.
Qed.

Lemma commit_effects new_id request s out s' :
  capacity_ok s → fresh_ids new_id s →
  commit_command_in_state new_id request s = Ok (out, s') →
  s' = s ∨ (∃ c d view, commit_guarded request s c d ∧
                        commit_written new_id request s c d view s').
Proof.
  intros Hok Hf [(-> & _)|(c & d & view & -> & G & W)]%commit_command_ok; [by left|right; eauto|].
  intros c Hc. apply (cy_calls s Hok _ _ Hc).
Qed.

(** Every transaction is a sequence of effects. *)
Lemma tx_effects s s' : capacity_ok s → tx_step s s' → rtc effect s s'.
Proof.
  intros Hok Hs. pose proof (capacity_tx _ _ Hok Hs) as Hok'. destruct Hs.
  - unfold register_worker_in_state in H0. cbv zeta in H0. apply result_bind_ok in H0 as (e & _ & H0).
    apply result_bind_ok in H0 as (k & Hk & [= _ <-]). apply rtc_once, eff_workers; [done|].
    apply fences_put. intros k0 Hk0. rewrite Hk0 in Hk. destruct (_ <? _)%N; [done|].
    destruct (existsb _ _); [done|]. apply result_bind_ok in Hk as (f & Hf%WorkerFence_next_ok & [= <-]).
    cbn. lia.
  - unfold activate_worker_capabilities_in_state in H. cbv zeta in H. inv_ok H; simplify_eq; [done|].
    apply ok_or_ok in Hx. apply rtc_once, eff_workers; [done|]. by eapply fences_refresh.
  - unfold renew_worker_lease_in_state in H. cbv zeta in H. inv_ok H; simplify_eq; [done|].
    apply ok_or_ok in Hx. apply rtc_once, eff_workers; [done|]. by eapply fences_refresh.
  - unfold set_worker_draining_in_state in H. cbv zeta in H. inv_ok H; simplify_eq.
    apply ok_or_ok in Hx. apply rtc_once, eff_workers; [done|]. by eapply fences_refresh.
  - apply create_call_ok in H0 as [(c & i & r & -> & -> & Hi & _)|(d & k & fp & -> & G & W)].
    + by eapply rtc_once, eff_claims.
    + by eapply rtc_once, eff_create.
  - destruct (commit_effects _ _ _ _ _ Hok H H0) as [->|(c & d & view & G & W)]; [done|].
    by eapply rtc_once, eff_commit.
  - pose proof H as Hr. apply release_assignment_ok in H as (_ & c & Hc & _ & _ & Ht & Hb).
    destruct out; [|by destruct Hb as [_ ->]]. destruct Hb as [Hrel _].
    pose proof (ko_released _ _ _ (cy_calls s Hok _ _ Hc)) as E. by rewrite Hrel, Ht in E.
  - apply consume_attachment_ok in H0 as (row & c & d & view & _ & N & G & W).
    + by eapply rtc_once, eff_consume.
    + intros id c Hc. apply (cy_calls s Hok _ _ Hc).
  - by eapply rtc_once, eff_ingest.
  - by eapply rtc_once, eff_bind.
  - unfold claim_provider_events_in_state in H. apply bind_unit_ok in H as [_ H].
    by eapply claim_provider_loop_effects.
  - apply complete_provider_event_ok in H0
      as [->|(ev & o & s1 & row & ev' & He & _ & Hh & Hc & Ha)]; [done|].
    assert (rtc effect s s1 ∧ rm_provider_events s1 = rm_provider_events s) as [Hs1 Ev].
    { destruct (commit_effects _ _ _ _ _ Hok H Hc) as [->|(c & d & view & G & W)]; [done|].
      split; [by eapply rtc_once, eff_commit|]. apply (cw_frame _ _ _ _ _ _ _ W). }
    eapply rtc_r; [exact Hs1|]. eapply eff_apply; eauto. by rewrite Ev.
  - apply acknowledge_ok in H as [->|(ev & ev' & He & Hh & Ha)]; [done|].
    eapply rtc_once, eff_apply; eauto.
  - unfold claim_outbox_in_state in H. apply bind_unit_ok in H as [_ H].
    by eapply claim_outbox_loop_effects.
  - apply complete_outbox_ok in H as (record & st & Hr & Hh & Hst & -> & ->).
    eapply rtc_once, eff_finish_effect; eauto.
  - unfold claim_due_deadlines_in_state in H. apply bind_unit_ok in H as [_ H].
    by eapply claim_deadline_loop_effects.
  - unfold claim_restart_calls_in_state in H. apply bind_unit_ok in H as [Hw H].
    apply ensure_worker_ok in Hw as (k & Hk & Hl & _).
    apply result_bind_ok in H as (k' & _ & H). apply result_bind_ok in H as (fp & _ & H).
    cbv zeta in H. eapply restart_calls_effects; [exact Hk|exact Hl| |exact H].
    intros id c (c' & Hc' & Hr)%restartable_ids Hc. simplify_eq.
    by apply restartable_worker in Hr as [Hr _].
Qed.

(** ** Invariants of effects *)

Lemma capacity_effect s s' : capacity_ok s → effect s s' → capacity_ok s'.
Proof.
  intros Hok [].
  - done.
  - by apply (capacity_ok_ext s).
  - by eapply capacity_create_written.
  - by eapply capacity_commit_written.
  - destruct H0. eapply capacity_commit_written; [|done..]. by apply capacity_consumed.
  - apply ingest_frame in H as (? & ? & ->). by apply (capacity_ok_ext s).
  - apply bind_frame in H as (? & ? & ->). by apply (capacity_ok_ext s).
  - apply apply_event_ok in H1 as (? & _ & _ & ->). by apply (capacity_ok_ext s).
  - by apply (capacity_ok_ext s).
  - by apply (capacity_ok_ext s).
  - by apply (capacity_ok_ext s).
  - by apply (capacity_ok_ext s).
  - by eapply (capacity_restarted s _ w k id c).
Qed.

(** What every effect preserves holds along every run of the repository. *)
Lemma effect_invariant (P : MemoryState → Prop) r r' :
  (∀ s s', capacity_ok s → P s → effect s s' → P s') →
  rtc repo_step r r' → capacity_ok (mr_state r) → P (mr_state r) → P (mr_state r').
Proof.
  intros Heff Hr Hcap Hp.
  cut (capacity_ok (mr_state r') ∧ P (mr_state r')); [by intros []|].
  apply (repo_invariant (λ s, capacity_ok s ∧ P s) ) with (2 := Hr); [|done].
  intros s s' [Hok Hs] Htx%tx_effects; [|done].
  clear - Heff Hok Hs Htx. induction Htx as [|s s1 s' He Htx IH]; [done|].
  apply IH; [by eapply capacity_effect|by eapply Heff].
Qed.

Lemma reachable_invariant (P : MemoryState → Prop) r :
  (∀ s s', capacity_ok s → P s → effect s s' → P s') → P MemoryState_default →
  reachable r → P (mr_state r).
Proof.
  intros Heff H0 Hr. eapply (effect_invariant P); [done|exact Hr|apply capacity_ok_default|done].
Qed.
End Effects.
