(* ===== verification/ServiceEffects.v ===== *)
(** The writes of the service repository, one row group at a time.

    Every transaction of the [CallServiceRepository] implementation is a sequence of the effects of
    the call repository ([RepoEffects]) and of the steps of [service_effect]: a call created with
    its plan, a command that promotes a replacement connection, an outbound binding, an operation
    receipt, or rows of the tables that belong to the service alone.  A run of the store calls
    methods of both repositories in any order. *)

From S2P Require Import Prelude RustText DomainTypes CoordModel Domain DomainInv DomainSafety.
From S2P Require Import DomainWorld DomainTrace DomainTheorems.
From S2P Require Import RepoTypes ServiceTypes RepoMemory RepoClaims Context PlanModel.
From S2P Require Import ServiceCommands ServiceMemory ServiceReconcile.
From S2P Require Import RepoFrame RepoCommit RepoInv RepoEffects.
From stdpp Require Import options.

(** The tables of the call repository. *)
Definition core_part (s : MemoryState) : MemoryState :=
  s <| rm_service_managed_calls := ∅ |> <| rm_execution_plans := ∅ |>
    <| rm_service_command_results := ∅ |> <| rm_control_commands := ∅ |>
    <| rm_control_command_results := ∅ |> <| rm_outbound_binding_results := ∅ |>
    <| rm_service_effect_payloads := ∅ |> <| rm_media_activity_generations := ∅ |>
    <| rm_control_sequences := ∅ |> <| rm_initial_contexts := ∅ |>
    <| rm_initial_context_message_ids := ∅ |> <| rm_external_references := ∅ |>
    <| rm_external_reference_bindings := ∅ |> <| rm_reconciliation_results := ∅ |>
    <| rm_control_outbox := ∅ |>.

(** ** Keys *)

Definition control_key (record : ControlOutboxRecord) : BindingKey :=
  (cx_call_id record, cx_leg_id record, cx_binding_generation record).

Definition context_key (record : StoredInitialContext) : InitialContextKey :=
  (ic_call_id record, ic_target_leg_id record, ic_target_binding_generation record).

Definition reference_binding (reference : StoredExternalReference) : ExternalReferenceBindingKey :=
  (xr_call_id reference, xr_leg_id reference, xr_binding_generation reference, xr_role reference).

(** ** Rows of the service *)

Definition queued_command (request : ControlCommandTransaction) : StoredControlCommand :=
  {| sn_command_id := nt_command_id request; sn_tenant_id := nt_tenant_id request;
     sn_call_id := nt_call_id request; sn_leg_id := nt_leg_id request;
     sn_binding_generation := nt_binding_generation request; sn_worker := nt_worker request;
     sn_intent := nt_intent request; sn_recorded_at := nt_at request |}.

Definition queued_effect (request : ControlCommandTransaction) (e : EffectId)
    (sequence : ControlSequence) : ControlOutboxRecord :=
  {| cx_effect_id := e; cx_command_id := nt_command_id request;
     cx_tenant_id := nt_tenant_id request; cx_call_id := nt_call_id request;
     cx_leg_id := nt_leg_id request; cx_binding_generation := nt_binding_generation request;
     cx_worker := nt_worker request; cx_sequence := sequence; cx_intent := nt_intent request;
     cx_available_at := nt_at request; cx_state := OutboxState.Ready |}.

Definition queued_view (request : ControlCommandTransaction) (e : EffectId)
    (sequence : ControlSequence) : ControlCommandView :=
  {| nv_command := queued_command request; nv_effect := queued_effect request e sequence |}.

(** The state after a control has been enqueued, its receipt apart. *)
Definition queued_state (request : ControlCommandTransaction) (e : EffectId)
    (sequence : ControlSequence) (s : MemoryState) : MemoryState :=
  s <| rm_control_commands :=
         <[nt_command_id request := queued_command request]> (rm_control_commands s) |>
    <| rm_control_outbox :=
         <[e := queued_effect request e sequence]> (rm_control_outbox s) |>
    <| rm_control_sequences :=
         <[control_key (queued_effect request e sequence) := sequence]> (rm_control_sequences s) |>
    <| rm_control_command_results :=
         <[nt_command_id request :=
             {| nr_request := request; nr_view := queued_view request e sequence |}]>
           (rm_control_command_results s) |>.

(** The guards a fresh control passes. *)
Record control_guarded (request : ControlCommandTransaction) (e : EffectId)
    (sequence : ControlSequence) (s : MemoryState) : Prop := {
  qg_new : rm_control_command_results s !! nt_command_id request = None;
  qg_command : rm_commands s !! nt_command_id request = None;
  qg_service : rm_service_command_results s !! nt_command_id request = None;
  qg_outbound : rm_outbound_binding_results s !! nt_command_id request = None;
  qg_worker : current_lease s (nt_worker request) (nt_at request);
  qg_managed : nt_call_id request ∈ rm_service_managed_calls s;
  qg_call : ∃ c leg binding,
    rm_calls s !! nt_call_id request = Some c ∧
    ca_tenant_id (sc_aggregate c) = nt_tenant_id request ∧
    wa_lease (sc_assignment c) = nt_worker request ∧ wa_released_at (sc_assignment c) = None ∧
    find_leg (sc_aggregate c) (nt_leg_id request) = Some leg ∧
    leg_binding_generation leg = nt_binding_generation request ∧
    connected_or_held (leg_state leg) = true ∧
    sc_bindings c !! nt_leg_id request = Some binding ∧
    cb_binding_generation binding = nt_binding_generation request;
  qg_sequence :
    match rm_control_sequences s !! control_key (queued_effect request e sequence) with
    | Some previous => ControlSequence_next previous = Ok sequence
    | None => sequence = ControlSequence_INITIAL
    end;
  qg_fresh : rm_outbox s !! e = None ∧ rm_control_outbox s !! e = None;
}.

(** The guards a fresh initial context passes. *)
Record context_guarded (record : StoredInitialContext) (s : MemoryState) : Prop := {
  xg_new : rm_initial_contexts s !! context_key record = None;
  xg_message : rm_initial_context_message_ids s !! (ic_call_id record, ic_message_id record) = None;
  xg_managed : ic_call_id record ∈ rm_service_managed_calls s;
  xg_call : ∃ c, rm_calls s !! ic_call_id record = Some c ∧
                 ca_tenant_id (sc_aggregate c) = ic_tenant_id record;
}.

Inductive side_rows (s : MemoryState) : MemoryState → Prop :=
| row_command request view payloads media :
    let id := ct_command_id (st_command request) in
    rm_service_command_results s !! id = None →
    sm_command_id (cv_command (sv_command view)) = id →
    rm_service_effect_payloads s ⊆ payloads →
    (∃ m, rm_commands s !! id = Some m ∧ sm_command m = ct_command (st_command request) ∧
          sm_call_id m = ct_call_id (st_command request)) →
    side_rows s (s <| rm_service_effect_payloads := payloads |>
                   <| rm_service_command_results :=
                        <[id := {| sr_request := request; sr_view := view |}]>
                          (rm_service_command_results s) |>
                   <| rm_media_activity_generations := media |>)
| row_control request e sequence :
    control_guarded request e sequence s → side_rows s (queued_state request e sequence s)
| row_claim_control e record w at_ expires_at previous generation :
    rm_control_outbox s !! e = Some record → control_outbox_claimable s record w at_ = true →
    outbox_generation (cx_state record) = Some previous → claim_next previous = Ok generation →
    side_rows s (s <| rm_control_outbox :=
      <[e := record <| cx_state := OutboxState.Claimed w generation at_ expires_at |>]>
        (rm_control_outbox s) |>)
| row_finish_control e record w g at_ st :
    rm_control_outbox s !! e = Some record → outbox_claim_held (cx_state record) w g at_ = true →
    state_is_unfinished st = false →
    side_rows s (s <| rm_control_outbox := <[e := record <| cx_state := st |>]> (rm_control_outbox s) |>)
| row_context record :
    context_guarded record s →
    side_rows s (s <| rm_initial_context_message_ids :=
                        <[(ic_call_id record, ic_message_id record) := context_key record]>
                          (rm_initial_context_message_ids s) |>
                   <| rm_initial_contexts :=
                        <[context_key record := record]> (rm_initial_contexts s) |>)
| row_reference reference :
    let key := external_reference_key (xr_value reference) in
    rm_external_references s !! key = None →
    rm_external_reference_bindings s !! reference_binding reference = None →
    side_rows s (s <| rm_external_reference_bindings :=
                        <[reference_binding reference := key]> (rm_external_reference_bindings s) |>
                   <| rm_external_references :=
                        <[key := reference]> (rm_external_references s) |>)
| row_reconciled request view :
    rm_reconciliation_results s !! er_effect_id request = None →
    side_rows s (s <| rm_reconciliation_results :=
      <[er_effect_id request := {| ro_request := request; ro_view := view |}]>
        (rm_reconciliation_results s) |>).

(** No row of the call repository changes. *)
Lemma side_core s s' : side_rows s s' → core_part s' = core_part s.
Proof. by intros []. Qed.

(** ** Bindings *)

Definition binding_key (id : CallId) (binding : ConnectionBinding) : BindingKey :=
  (id, cb_leg_id binding, cb_binding_generation binding).

(** The call row with a binding of a leg. *)
Definition bound_call (c : StoredCall) (binding : ConnectionBinding) : StoredCall :=
  c <| sc_bindings := <[cb_leg_id binding := binding]> (sc_bindings c) |>.

Definition outbound_binding (request : OutboundConnectionBind) : ConnectionBinding :=
  {| cb_connection_id := on_connection_id request; cb_leg_id := on_leg_id request;
     cb_binding_generation := on_binding_generation request; cb_transport := on_transport request;
     cb_principal_fingerprint := on_principal_fingerprint request; cb_bound_at := on_at request |}.

(** The guards a fresh outbound binding passes. *)
Record outbound_guarded (request : OutboundConnectionBind) (s : MemoryState) (c : StoredCall)
    : Prop := {
  bg_new : rm_outbound_binding_results s !! on_operation_id request = None;
  bg_command : rm_commands s !! on_operation_id request = None;
  bg_control : rm_control_commands s !! on_operation_id request = None;
  bg_service : rm_service_command_results s !! on_operation_id request = None;
  bg_worker : current_lease s (on_worker request) (on_at request);
  bg_call : rm_calls s !! on_call_id request = Some c;
  bg_unbound : sc_bindings c !! on_leg_id request = None;
  bg_unused : on_connection_id request ∉ rm_used_connection_ids s;
  bg_unowned : rm_connection_owners s !! on_connection_id request = None;
}.

Definition promoted_binding (promotion : ReplacementConnectionPromotion) (at_ : DateTime)
    : ConnectionBinding :=
  {| cb_connection_id := rx_connection_id promotion; cb_leg_id := rx_leg_id promotion;
     cb_binding_generation := rx_pending_binding_generation promotion;
     cb_transport := rx_transport promotion;
     cb_principal_fingerprint := rx_principal_fingerprint promotion; cb_bound_at := at_ |}.

(** A promoted connection was never used, or belongs to the pending binding already. *)
Definition promotable (s : MemoryState) (id : CallId) (binding : ConnectionBinding) : Prop :=
  ((cb_connection_id binding ∉ rm_used_connection_ids s) ∧
   rm_connection_owners s !! cb_connection_id binding = None) ∨
  rm_connection_owners s !! cb_connection_id binding = Some (binding_key id binding).

(** The state after the command of a promotion, its binding and the refreshed result. *)
Definition promoted_state (command : CommandCommit) (c : StoredCall) (view : CommandCommitView)
    (binding : ConnectionBinding) (s : MemoryState) : MemoryState :=
  (put_binding s (ct_call_id command) c binding)
  <| rm_command_results :=
       <[ct_command_id command := view <| cv_call := bound_call c binding |>]>
         (rm_command_results s) |>.

Section Service.
Context {chrono : Chrono} {libs : ServiceLibs}.

(** What the row of an operation claim refers to. *)
Definition receipt_guarded (key : IdempotencyKey) (row : IdempotencyRow) (s : MemoryState) : Prop :=
  rm_idempotency s !! key = None ∧
  (∃ c, rm_calls s !! ir_call_id row = Some c ∧ ca_tenant_id (sc_aggregate c) = key.1) ∧
  idempotency_receipt_crosslinks s key.1 key.2 row = true.

Inductive service_effect (s : MemoryState) : MemoryState → Prop :=
| svc_rows s' : side_rows s s' → service_effect s s'
| svc_receipt key row :
    receipt_guarded key row s →
    service_effect s (s <| rm_idempotency := <[key := row]> (rm_idempotency s) |>)
| svc_create new_id request d k fingerprint plan s1 :
    let id := ca_id (cc_initial request) in
    fresh_ids new_id s → create_guarded request s d k fingerprint →
    create_written new_id request s d k fingerprint s1 →
    id ∉ rm_service_managed_calls s → rm_execution_plans s !! id = None →
    validate_for_create plan (cc_initial request) = Ok () →
    service_effect s (s1 <| rm_service_managed_calls := {[id]} ∪ rm_service_managed_calls s |>
                         <| rm_execution_plans := <[id := plan]> (rm_execution_plans s) |>)
| svc_bind request c :
    outbound_guarded request s c →
    service_effect s
      ((put_binding s (on_call_id request) c (outbound_binding request))
       <| rm_outbound_binding_results :=
            <[on_operation_id request :=
                {| bo_request := request; bo_binding := outbound_binding request |}]>
              (rm_outbound_binding_results s) |>)
| svc_promote new_id command promotion c d view s1 :
    let binding := promoted_binding promotion (ct_at command) in
    fresh_ids new_id s → commit_guarded command s c d →
    commit_written new_id command s c d view s1 →
    promotable s (ct_call_id command) binding →
    service_effect s (promoted_state command (committed_call command c d) view binding s1).

(** One write of either repository. *)
Definition store_effect (s s' : MemoryState) : Prop := effect s s' ∨ service_effect s s'.

Lemma core_effects s s' : rtc effect s s' → rtc store_effect s s'.
Proof using. apply rtc_subrel. by left. Qed.

Lemma side_once s s' : side_rows s s' → rtc store_effect s s'.
Proof using. intros H. by apply rtc_once; right; apply svc_rows. Qed.

(** ** Operation claims *)

Lemma replay_service_ok request s o s' :
  replay_service_operation request s = Ok (o, s') →
  ∃ i ret, s' = s <| rm_idempotency := i |> <| rm_retired_operation_claims := ret |> ∧
    match st_operation_idempotency request with
    | None => s' = s ∧ o = None
    | Some claim => live_claims (ct_at (st_command request)) (rm_idempotency s) i ∧
        (o = None ∨ ∃ view, o = Some (ServiceCommandOutcome.Replayed view))
    end.
Proof using.
  unfold replay_service_operation. intros H. destruct (st_operation_idempotency request) as [claim|].
  - cbv zeta in H. apply result_bind_ok in H as (s1 & H1 & H).
    apply retire_expired_idempotency_ok in H1 as (i & ret & -> & Hi). cbn in H.
    destruct (i !! _) as [row|] eqn:E.
    + apply result_bind_ok in H as (view & _ & [= <- <-]). exists i, ret. by eauto.
    + injection H as <- <-. exists i, ret. by eauto.
  - injection H as <- <-. exists (rm_idempotency s), (rm_retired_operation_claims s).
    by destruct s.
Qed.

Lemma replay_service_effects request s o s' :
  replay_service_operation request s = Ok (o, s') → rtc store_effect s s'.
Proof using.
  intros (i & ret & -> & H)%replay_service_ok. destruct (st_operation_idempotency request).
  - destruct H as [Hi _]. apply rtc_once. left. by apply eff_claims with (ct_at (st_command request)).
  - by destruct H as [-> _].
Qed.

Lemma replay_control_ok request s o s' :
  replay_control_operation request s = Ok (o, s') →
  ∃ i ret, s' = s <| rm_idempotency := i |> <| rm_retired_operation_claims := ret |> ∧
    match nt_operation_idempotency request with
    | None => s' = s
    | Some claim => live_claims (nt_at request) (rm_idempotency s) i
    end.
Proof using.
  unfold replay_control_operation. intros H. destruct (nt_operation_idempotency request) as [claim|].
  - cbv zeta in H. apply result_bind_ok in H as (s1 & H1 & H).
    apply retire_expired_idempotency_ok in H1 as (i & ret & -> & Hi).
    exists i, ret. split; [|done]. destruct (_ !! _).
    + by apply result_bind_ok in H as (view & _ & [= _ <-]).
    + by injection H as _ <-.
  - injection H as _ <-. exists (rm_idempotency s), (rm_retired_operation_claims s).
    by destruct s.
Qed.

Lemma replay_control_effects request s o s' :
  replay_control_operation request s = Ok (o, s') → rtc store_effect s s'.
Proof using.
  intros (i & ret & -> & H)%replay_control_ok. destruct (nt_operation_idempotency request).
  - apply rtc_once. left. by apply eff_claims with (nt_at request).
  - by rewrite H.
Qed.

(** A retained receipt is one effect. *)
Lemma retain_optional_ok s t id claim receipt at_ s' :
  retain_optional s t id claim receipt at_ = Ok s' →
  (∃ c, rm_calls s !! id = Some c ∧ ca_tenant_id (sc_aggregate c) = t) →
  (∀ o row, claim = Some o → ir_receipt row = receipt (oi_operation o) →
     ir_request_digest row = oi_request_digest o → ir_call_id row = id →
     idempotency_receipt_crosslinks s t (oi_key_digest o) row = true) →
  rtc store_effect s s' ∧ ∃ i, s' = s <| rm_idempotency := i |>.
Proof using.
  intros H Hc Hx. destruct claim as [o|]; cbn in H.
  - unfold retain_operation_receipt in H. apply result_bind_ok in H as (exp & _ & H).
    cbv zeta in H. apply bind_reject_ok in H as [Hn%contains_key_false [= <-]].
    split; [|by eexists]. apply rtc_once. right. apply svc_receipt. split_and!; [done..|].
    by apply Hx.
  - injection H as <-. split; [done|]. exists (rm_idempotency s). by destruct s.
Qed.

(** ** Service commands *)

Lemma insert_payloads_ok payloads s s' :
  insert_payloads payloads s = Ok s' →
  ∃ p, s' = s <| rm_service_effect_payloads := p |> ∧ rm_service_effect_payloads s ⊆ p.
Proof using.
  revert s. induction payloads as [|x payloads IH]; intros s H; cbn in H.
  - injection H as <-. exists (rm_service_effect_payloads s). by destruct s.
  - apply bind_reject_ok in H as [Hn%contains_key_false H]. apply IH in H as (p & -> & Hp).
    exists p. split; [done|]. cbn in Hp. etrans; [|exact Hp]. by apply insert_subseteq.
Qed.

Lemma promotable_ok request s promotion :
  st_replacement_connection request = Some promotion →
  validate_replacement_connection s request = Ok () →
  promotable s (ct_call_id (st_command request))
    (promoted_binding promotion (ct_at (st_command request))).
Proof using.
  unfold validate_replacement_connection. intros -> H. cbv zeta in H.
  apply result_bind_ok in H as (c & _ & H). apply result_bind_ok in H as (rep & _ & H).
  apply result_bind_ok in H as (b & _ & H). apply bind_reject_ok in H as [H _].
  apply orb_false_iff in H as [_ H]. apply andb_false_iff in H as [H|H]; apply negb_false_iff in H.
  - apply andb_true_iff in H as [H1%negb_true_iff%bool_decide_eq_false H2%negb_true_iff%contains_key_false].
    by left.
  - right. apply existsb_exists in H as (row & _ & H). unfold pending_attachment in H.
    apply andb_true_iff in H as [_ H]. by bool_hyps.
Qed.

(** The command of a service command, with the promotion it carries. *)
Lemma promote_ok new_id request s c d view s1 core s2 :
  let command := st_command request in
  fresh_ids new_id s → commit_guarded command s c d →
  ca_tenant_id (cd_aggregate d) = ca_tenant_id (sc_aggregate c) →
  commit_written new_id command s c d view s1 →
  validate_replacement_connection s request = Ok () →
  (state ← apply_replacement_connection s1 request; refresh_promoted state request view)
    = Ok (core, s2) →
  store_effect s s2 ∧ sm_command_id (cv_command core) = ct_command_id command ∧
  rm_outbox s2 = rm_outbox s1 ∧ rm_provider_events s2 = rm_provider_events s ∧
  service_part s2 = service_part s ∧ rm_commands s2 = rm_commands s1 ∧
  ∃ c2, rm_calls s2 !! ct_call_id command = Some c2 ∧
        ca_tenant_id (sc_aggregate c2) = ct_tenant_id command.
Proof using.
  intros command Hf G Ht W Hv H. pose proof (cw_calls _ _ _ _ _ _ _ W) as Hcalls.
  assert (Hc1 : rm_calls s1 !! ct_call_id command = Some (committed_call command c d))
    by (rewrite Hcalls; apply lookup_insert_eq).
  assert (Hten : ca_tenant_id (sc_aggregate (committed_call command c d)) = ct_tenant_id command)
    by (cbn; rewrite Ht; apply G).
  pose proof (cw_service _ _ _ _ _ _ _ W) as Es.
  assert (Hid : sm_command_id (cv_command view) = ct_command_id command)
    by by rewrite (cw_view _ _ _ _ _ _ _ W).
  assert (Epe : rm_provider_events s1 = rm_provider_events s) by apply (cw_frame _ _ _ _ _ _ _ W).
  apply result_bind_ok in H as (s1' & H1 & H).
  unfold apply_replacement_connection in H1. unfold refresh_promoted in H.
  destruct (st_replacement_connection request) as [promotion|] eqn:Ep.
  - pose proof (promotable_ok _ _ _ Ep Hv) as Hpr. fold command in Hpr, H1, H. cbv zeta in H1, H.
    apply result_bind_ok in H1 as (c1 & Hc1'%ok_or_ok & [= <-]). simplify_eq.
    fold (promoted_binding promotion (ct_at command)) in H.
    set (b := promoted_binding promotion (ct_at command)) in *.
    set (s2' := put_binding s1 _ _ _) in H.
    assert (Hc2 : rm_calls s2' !! ct_call_id command = Some (bound_call (committed_call command c d) b))
      by apply lookup_insert_eq.
    apply result_bind_ok in H as (c2 & [Hc2' _]%tenant_call_ok & H). simplify_eq.
    apply result_bind_ok in H as (row & Hrow%ok_or_ok & [= <- <-]).
    assert (row = view) as ->.
    { change (rm_command_results s2') with (rm_command_results s1) in Hrow.
      rewrite (cw_results _ _ _ _ _ _ _ W), lookup_insert_eq in Hrow. by injection Hrow. }
    split; [|split_and!; [done|done|exact Epe|exact (cw_service _ _ _ _ _ _ _ W)|done|by eexists]].
    right. exact (svc_promote _ new_id command promotion c d view s1 Hf G W Hpr).
  - injection H1 as <-. injection H as <- <-. split; [|split_and!; [done..|by eexists]].
    left. by eapply eff_commit.
Qed.

Lemma service_rows_ok new_id request s c d view s1 out s' :
  let command := st_command request in
  fresh_ids new_id s → commit_guarded command s c d →
  ca_tenant_id (cd_aggregate d) = ca_tenant_id (sc_aggregate c) →
  commit_written new_id command s c d view s1 →
  validate_replacement_connection s request = Ok () →
  rm_service_command_results s !! ct_command_id command = None →
  service_command_rows request view s1 = Ok (out, s') →
  rtc store_effect s s' ∧ rm_outbox s' = rm_outbox s1 ∧
  rm_provider_events s' = rm_provider_events s ∧
  rm_reconciliation_results s' = rm_reconciliation_results s ∧
  ∃ v, out = ServiceCommandOutcome.Committed v ∧
       rm_service_command_results s' !! ct_command_id command
         = Some {| sr_request := request; sr_view := v |}.
Proof using.
  intros command Hf G Ht W Hv Hnew H. unfold service_command_rows in H. cbv zeta in H. fold command in H.
  apply result_bind_ok in H as (s1' & H1 & H). apply result_bind_ok in H as ([core s2] & H2 & H).
  assert (H2' : (state ← apply_replacement_connection s1 request; refresh_promoted state request view)
    = Ok (core, s2)) by by rewrite H1. clear H1 H2 s1'. rename H2' into H2.
  destruct (promote_ok _ _ _ _ _ _ _ _ _ Hf G Ht W Hv H2) as (E2 & Hid & Eo & Epe & Es & Ek & Hcall).
  fold command in Hid, Hcall. cbn [fst snd] in H.
  apply result_bind_ok in H as (payloads & _ & H). apply bind_reject_ok in H as [_ H].
  apply result_bind_ok in H as (s3 & (p & -> & Hp)%insert_payloads_ok & H).
  set (v := {| sv_command := core; sv_effect_payloads := payloads |}) in *.
  apply result_bind_ok in H as (s5 & H5 & [= <- <-]).
  match type of H5 with retain_optional ?st _ _ _ _ _ = _ => set (s4 := st) in * end.
  assert (E4 : side_rows s2 s4 ∧ rm_service_command_results s4 !! ct_command_id command
                 = Some {| sr_request := request; sr_view := v |} ∧
               rm_calls s4 = rm_calls s2 ∧ rm_outbox s4 = rm_outbox s2 ∧
               rm_provider_events s4 = rm_provider_events s2 ∧
               rm_reconciliation_results s4 = rm_reconciliation_results s2).
  { pose proof (f_equal rm_service_command_results Es) as Er. cbn in Er.
    assert (Hn2 : rm_service_command_results s2 !! ct_command_id command = None) by by rewrite Er.
    assert (Hm2 : ∃ m, rm_commands s2 !! ct_command_id command = Some m ∧
      sm_command m = ct_command command ∧ sm_call_id m = ct_call_id command).
    { exists (commit_receipt command c d). by rewrite Ek, (cw_commands _ _ _ _ _ _ _ W), lookup_insert_eq. }
    destruct (st_media_activity request) as [activity|]; subst s4.
    - split; [by eapply (row_command s2 request v)|]. split_and!; [|done..]. apply lookup_insert_eq.
    - split; [|split_and!; [|done..]; apply lookup_insert_eq].
      pose proof (row_command s2 request v p (rm_media_activity_generations s2) Hn2 Hid Hp Hm2) as R.
      cbv zeta in R. fold command in R. destruct s2. exact R. }
  destruct E4 as (R & Hres & Ec & Eo4 & Ee4 & Er4).
  pose proof (f_equal rm_reconciliation_results Es) as Er. cbn in Er.
  apply retain_optional_ok in H5 as [H5 (i & ->)].
  - split; [|split_and!; [cbn; by rewrite Eo4|cbn; by rewrite Ee4|cbn; by rewrite Er4|by exists v]].
    eapply rtc_l; [exact E2|]. eapply rtc_l; [right; by apply svc_rows|done].
  - by rewrite Ec.
  - intros o row Ho Hr Hd Hk. unfold idempotency_receipt_crosslinks. rewrite Hr. cbn beta iota.
    change (sv_command v) with core. rewrite Hid, Hres. cbn [is_some_and]. cbn [sr_view sr_request]. rewrite Ho. cbn [is_some_and].
    unfold claim_crosslinks. fold command. rewrite Hd, Hk. by rewrite !bool_decide_eq_true_2.
Qed.

Lemma fresh_ext new_id s s' : rm_outbox s' = rm_outbox s → fresh_ids new_id s → fresh_ids new_id s'.
Proof using. intros E [Hu Hd]. split; [by rewrite E|done]. Qed.

(** Effects are only added to the outbox, and no provider event or effect result is touched. *)
Definition outbox_grows (s s' : MemoryState) : Prop :=
  (∀ e r, rm_outbox s !! e = Some r → rm_outbox s' !! e = Some r) ∧
  rm_provider_events s' = rm_provider_events s ∧
  rm_reconciliation_results s' = rm_reconciliation_results s.

(** A service command replays, or commits its core command with the rows of the service. *)
Lemma commit_service_ok new_id request allow s out s' :
  let command := st_command request in
  capacity_ok s → fresh_ids new_id s →
  commit_service_command_in_state new_id request allow s = Ok (out, s') →
  rtc store_effect s s' ∧ outbox_grows s s' ∧
  ((∃ view, out = ServiceCommandOutcome.Replayed view) ∨
   ∃ view, out = ServiceCommandOutcome.Committed view ∧
     rm_service_command_results s !! ct_command_id command = None ∧
     rm_service_command_results s' !! ct_command_id command
       = Some {| sr_request := request; sr_view := view |}).
Proof using.
  intros command Hok Hf H. unfold commit_service_command_in_state in H. cbv zeta in H. fold command in H.
  apply bind_reject_ok in H as [_ H]. apply result_bind_ok in H as ([o s1] & H1 & H). cbn [fst snd] in H.
  pose proof (replay_service_effects _ _ _ _ H1) as R1.
  apply replay_service_ok in H1 as (i & ret & E1 & Ho).
  assert (outbox_grows s s1) as G1 by by rewrite E1.
  assert (capacity_ok s1) as Hok1 by (rewrite E1; by apply (capacity_ok_ext s)).
  assert (fresh_ids new_id s1) as Hf1 by (rewrite E1; by apply (fresh_ext new_id s)).
  assert (Er : rm_service_command_results s1 = rm_service_command_results s) by by rewrite E1.
  clear E1.
  destruct o as [outcome|]; [injection H as <- <-|].
  { split; [done|]. split; [done|]. left. destruct (st_operation_idempotency request); [|naive_solver].
    destruct Ho as [_ [[=]|(view & [= ->])]]. by eexists. }
  open_option H.
  { destruct (_ ==? _); [|done]. injection H as <- <-. split; [done|]. split; [done|]. left. by eexists. }
  apply bind_reject_ok in H as [Hcmd H]. apply bind_reject_ok in H as [_ H].
  apply bind_unit_ok in H as [_ H]. apply bind_unit_ok in H as [_ H].
  apply bind_unit_ok in H as [Hv H]. apply result_bind_ok in H as ([o s2] & H2 & H). cbn [fst snd] in H.
  apply commit_command_ok in H2 as [(_ & ? & ? & -> & _)|(c & d & view & -> & G & W)]; [done| |].
  2: { intros c Hc. apply (cy_calls s1 Hok1 _ _ Hc). }
  destruct (decide_keeps _ _ _ (ko_valid _ _ _ (cy_calls s1 Hok1 _ _ (cg_call _ _ _ _ G))) (cg_decide _ _ _ _ G))
    as (_ & Ht & _).
  destruct (service_rows_ok _ _ _ _ _ _ _ _ _ Hf1 G Ht W Hv E H) as (R & Eo & Ee & Erc & v & -> & Hres).
  split; [by etrans|]. split.
  - split; [|split; [etrans; [exact Ee|apply G1]|etrans; [exact Erc|apply G1]]]. intros e r Hr%G1. rewrite Eo, (cw_outbox _ _ _ _ _ _ _ W).
    rewrite (cw_view _ _ _ _ _ _ _ W). cbn. apply batch_lookup; [done|]. by left.
  - right. exists v. rewrite <- Er. by fold command in E, Hres.
Qed.

Lemma commit_service_effects new_id request allow s out s' :
  capacity_ok s → fresh_ids new_id s →
  commit_service_command_in_state new_id request allow s = Ok (out, s') → rtc store_effect s s'.
Proof using. intros Hok Hf H. by apply commit_service_ok in H as [H _]. Qed.

Lemma guarded_replacement_effects new_id request s out s' :
  capacity_ok s → fresh_ids new_id s →
  commit_leg_replacement_with_worker_guard_in_state new_id request s = Ok (out, s') →
  rtc store_effect s s'.
Proof using.
  intros Hok Hf H. unfold commit_leg_replacement_with_worker_guard_in_state in H.
  apply result_bind_ok in H as ([o s1] & H1 & H). cbn [fst snd] in H.
  pose proof (replay_service_effects _ _ _ _ H1) as R1.
  apply replay_service_ok in H1 as (i & ret & E1 & _).
  destruct o; [by injection H as _ <-|]. apply bind_unit_ok in H as [_ H].
  etrans; [exact R1|]. eapply commit_service_effects; [..|exact H]; rewrite E1.
  - by apply (capacity_ok_ext s).
  - by apply (fresh_ext new_id s).
Qed.

Lemma commit_bound_effects new_id request guard s out s' :
  capacity_ok s → fresh_ids new_id s →
  commit_bound_in_state new_id request guard s = Ok (out, s') → rtc store_effect s s'.
Proof using.
  intros Hok Hf H. unfold commit_bound_in_state in H. cbv zeta in H.
  destruct (contains_key _ _); [by eapply commit_service_effects|].
  apply bind_unit_ok in H as [_ H]. apply result_bind_ok in H as (c & _ & H).
  apply result_bind_ok in H as (b & _ & H). apply bind_reject_ok in H as [_ H].
  apply bind_reject_ok in H as [_ H]. by eapply commit_service_effects.
Qed.

Lemma bound_state_effects new_id request s out s' :
  capacity_ok s → fresh_ids new_id s →
  commit_bound_connection_state_in_state new_id request s = Ok (out, s') → rtc store_effect s s'.
Proof using.
  intros Hok Hf H. apply bind_reject_ok in H as [_ H]. cbv zeta in H.
  apply result_bind_ok in H as (q & _ & H). by eapply commit_bound_effects.
Qed.

Lemma bound_termination_effects new_id request s out s' :
  capacity_ok s → fresh_ids new_id s →
  commit_bound_source_termination_in_state new_id request s = Ok (out, s') → rtc store_effect s s'.
Proof using.
  intros Hok Hf H. unfold commit_bound_source_termination_in_state in H. cbv zeta in H.
  apply result_bind_ok in H as (q & _ & H). by eapply commit_bound_effects.
Qed.

Lemma media_activity_effects new_id request s out s' :
  capacity_ok s → fresh_ids new_id s →
  commit_media_activity_in_state new_id request s = Ok (out, s') → rtc store_effect s s'.
Proof using.
  intros Hok Hf H. apply result_bind_ok in H as (q & _ & H). by eapply commit_service_effects.
Qed.

(** ** Creation *)

(** A placement is the creation at one of the candidates. *)
Lemma try_candidates_ok new_id capabilities candidates last s out s' :
  try_candidates new_id capabilities candidates last s = Ok (out, s') →
  ∃ candidate, candidate ∈ candidates ∧ create_call_in_state new_id candidate s = Ok (out, s').
Proof using.
  revert last. induction candidates as [|q candidates IH]; intros last H; cbn in H; [done|].
  assert (Hrec : ∀ e, try_candidates new_id capabilities candidates e s = Ok (out, s') →
    ∃ x, x ∈ q :: candidates ∧ create_call_in_state new_id x s = Ok (out, s')).
  { intros e (x & Hin & Hx)%IH. exists x. split; [by constructor|done]. }
  destruct (ensure_worker_capabilities _ _ _ _) as [[]|e].
  - destruct (create_call_in_state new_id q s) as [y|e] eqn:E.
    + injection H as ->. exists q. split; [by constructor|done].
    + destruct (lost_placement e); [by eapply Hrec|done].
  - destruct (lost_worker e); [by eapply Hrec|done].
Qed.

(** The candidates differ in the worker and the attachments only. *)
Lemma create_candidates_initial request candidate :
  candidate ∈ create_candidates request → cc_initial candidate = cc_initial (sx_create request).
Proof using.
  unfold create_candidates. intros [->|H]%elem_of_cons; [done|].
  by apply list_elem_of_In, in_map_iff in H as (a & <- & _).
Qed.

Lemma create_with_plan_effects new_id request s out s' :
  capacity_ok s → fresh_ids new_id s →
  create_with_plan_in_state new_id request s = Ok (out, s') → rtc store_effect s s'.
Proof using.
  intros Hok Hf H. unfold create_with_plan_in_state in H. cbv zeta in H.
  apply result_bind_ok in H as ([stored|] & _ & H); [by injection H as _ <-|].
  apply bind_unit_ok in H as [Hplan H]. apply result_bind_ok in H as (fp & _ & H).
  apply result_bind_ok in H as (caps & _ & H). apply result_bind_ok in H as ([o s1] & H1 & H).
  apply try_candidates_ok in H1 as (q & Hq%create_candidates_initial & Hcr).
  cbn [fst snd] in H.
  apply create_call_ok in Hcr as [(c & i & ret & -> & -> & Hi & _)|(d & k & fp' & -> & G & W)].
  - apply bind_reject_ok in H as [_ H]. apply result_bind_ok in H as (plan & _ & H).
    apply result_bind_ok in H as (snap & _ & H). apply result_bind_ok in H as (att & _ & [= _ <-]).
    apply rtc_once. left. by eapply eff_claims.
  - cbn [created_call sc_aggregate] in H.
    destruct (decide_keeps _ _ _ (kg_valid _ _ _ _ _ G) (kg_decide _ _ _ _ _ G)) as (Eid & _).
    rewrite Eid in H. pose proof (kw_service _ _ _ _ _ _ _ W) as Es.
    pose proof (f_equal rm_service_managed_calls Es) as Em.
    pose proof (f_equal rm_execution_plans Es) as Ep. cbn in Em, Ep.
    apply bind_reject_ok in H as [Hn H]. rewrite Em, Ep in Hn, H.
    apply orb_false_iff in Hn as [Hn%bool_decide_eq_false Hp%contains_key_false].
    apply result_bind_ok in H as (att & _ & [= _ <-]). apply rtc_once. right.
    eapply (svc_create s new_id q d k fp' (sx_plan request) s1); eauto. by rewrite Hq.
Qed.

(** ** Controls *)

Lemma enqueue_control_effects new_id request s out s' :
  enqueue_control_in_state new_id request s = Ok (out, s') →
  rtc store_effect s s' ∧
  ((∃ view, out = ControlCommandOutcome.Replayed view) ∨
   ∃ sequence s1, out = ControlCommandOutcome.Enqueued (queued_view request (new_id 0%nat) sequence) ∧
     rtc store_effect s s1 ∧ control_guarded request (new_id 0%nat) sequence s1 ∧
     rm_control_outbox s1 = rm_control_outbox s ∧ rm_control_sequences s1 = rm_control_sequences s ∧
     ∃ i, s' = (queued_state request (new_id 0%nat) sequence s1) <| rm_idempotency := i |>).
Proof using.
  intros H. unfold enqueue_control_in_state in H. cbv zeta in H.
  apply result_bind_ok in H as ([o s1] & H1 & H). cbn [fst snd] in H.
  pose proof (replay_control_effects _ _ _ _ H1) as R1.
  assert (Eo : rm_control_outbox s1 = rm_control_outbox s ∧ rm_control_sequences s1 = rm_control_sequences s)
    by by apply replay_control_ok in H1 as (i & ret & -> & _).
  assert (Hrep : ∀ x, o = Some x → ∃ view, x = ControlCommandOutcome.Replayed view).
  { intros x ->. unfold replay_control_operation in H1. cbv zeta in H1. inv_ok H1; try done.
    injection H1 as <- _. by eexists. }
  clear H1. destruct o as [x|]; [injection H as <- <-|].
  { split; [done|]. left. by apply Hrep. }
  open_option H.
  { destruct (_ ==? _); [|done]. injection H as <- <-. split; [done|]. left. by eexists. }
  apply bind_reject_ok in H as [Hids H].
  apply orb_false_iff in Hids as [[Hc1%contains_key_false Hc2%contains_key_false]%orb_false_iff
    Hc3%contains_key_false].
  apply bind_unit_ok in H as [Hw H]. apply ensure_call_worker_ok in Hw as [Hcur (c & Hc & Ht & Hrel & Hl)].
  apply bind_reject_ok in H as [Hm H]. apply orb_false_iff in Hm as [Hm%negb_false_iff%bool_decide_eq_true _].
  apply result_bind_ok in H as (c' & Hc'%ok_or_ok & H).
  assert (c' = c) as -> by congruence.
  apply result_bind_ok in H as (leg & Hleg%ok_or_ok & H). apply bind_reject_ok in H as [Hg H].
  apply bind_reject_ok in H as [Hst%negb_false_iff H].
  apply result_bind_ok in H as (b & Hb%ok_or_ok & H). apply bind_reject_ok in H as [Hbg H].
  apply bind_reject_ok in H as [_ H]. apply bind_reject_ok in H as [_ H].
  apply result_bind_ok in H as (sequence & Hseq & H). apply bind_reject_ok in H as [Hfr H].
  apply orb_false_iff in Hfr as [Hf1%contains_key_false Hf2%contains_key_false].
  apply result_bind_ok in H as (s2 & H2 & [= <- <-]). bool_hyps.
  assert (G : control_guarded request (new_id 0%nat) sequence s1).
  { split; [done..| |by destruct (rm_control_sequences s1 !! _); [|injection Hseq as <-]|done].
    by exists c, leg, b. }
  change (retain_optional (queued_state request (new_id 0%nat) sequence s1) (nt_tenant_id request)
    (nt_call_id request) (nt_operation_idempotency request)
    (λ operation, OperationIdempotencyReceipt.ControlCommand operation
       (queued_view request (new_id 0%nat) sequence)) (nt_at request) = Ok s2) in H2.
  apply retain_optional_ok in H2 as [R2 (i & ->)].
  - split.
    + etrans; [exact R1|]. eapply rtc_l; [right; by apply svc_rows, row_control|done].
    + right. exists sequence, s1. destruct Eo. split_and!; [done..|by exists i].
  - by exists c.
  - intros o row Ho Hr Hd Hk. unfold idempotency_receipt_crosslinks. rewrite Hr. cbn beta iota.
    change (sn_command_id (nv_command (queued_view request (new_id 0%nat) sequence)))
      with (nt_command_id request).
    change (cx_effect_id (nv_effect (queued_view request (new_id 0%nat) sequence)))
      with (new_id 0%nat).
    rewrite (lookup_insert_eq _ (nt_command_id request) _
      : rm_control_command_results (queued_state request (new_id 0%nat) sequence s1) !! _ = _).
    rewrite (lookup_insert_eq _ (new_id 0%nat) _
      : rm_control_outbox (queued_state request (new_id 0%nat) sequence s1) !! _ = _).
    cbn [is_some_and nr_view nr_request]. rewrite Ho. cbn [is_some_and].
    unfold claim_crosslinks, control_effect_identity_matches. cbn. rewrite Hd, Hk.
    by rewrite !bool_decide_eq_true_2.
Qed.

Lemma claim_control_loop_effects w at_ exp ids s out s' :
  claim_control_loop w at_ exp ids s = Ok (out, s') → rtc store_effect s s'.
Proof using.
  revert s out. induction ids as [|id ids IH]; intros s out H; cbn in H; [by injection H as _ <-|].
  apply result_bind_ok in H as (r & Hr%ok_or_ok & H).
  destruct (negb _) eqn:Ec; [by eapply IH|]. apply negb_false_iff in Ec.
  fold (outbox_generation (cx_state r)) in H. open_option H; [|by eapply IH].
  apply result_bind_ok in H as (g & Hg & H).
  apply result_bind_ok in H as ([claimed s1] & H1 & [= _ <-]).
  eapply rtc_l; [right; by eapply svc_rows, row_claim_control|by eapply IH].
Qed.

(** ** Bindings, contexts and references *)

Lemma bind_outbound_effects request s out s' :
  bind_outbound_connection_in_state request s = Ok (out, s') →
  (s' = s ∧ ∃ existing, rm_outbound_binding_results s !! on_operation_id request = Some existing ∧
     bo_request existing = request ∧ out = OutboundConnectionBindOutcome.Replayed (bo_binding existing)) ∨
  (∃ c, outbound_guarded request s c ∧
     out = OutboundConnectionBindOutcome.Bound (outbound_binding request) ∧
     s' = (put_binding s (on_call_id request) c (outbound_binding request))
       <| rm_outbound_binding_results :=
            <[on_operation_id request :=
                {| bo_request := request; bo_binding := outbound_binding request |}]>
              (rm_outbound_binding_results s) |>).
Proof using.
  intros H. unfold bind_outbound_connection_in_state in H. open_option H.
  { destruct (_ ==? _) eqn:Er; [|done]. bool_hyps. injection H as <- <-. left. split; [done|]. eauto. }
  apply bind_reject_ok in H as [Hids H].
  apply orb_false_iff in Hids as [[Hc1%contains_key_false Hc2%contains_key_false]%orb_false_iff
    Hc3%contains_key_false].
  apply bind_unit_ok in H as [Hw H]. apply ensure_call_worker_ok in Hw as [Hcur _].
  apply bind_reject_ok in H as [_ H]. apply result_bind_ok in H as (e & _ & H).
  apply bind_reject_ok in H as [_ H]. apply bind_unit_ok in H as [_ H]. apply bind_unit_ok in H as [_ H].
  apply result_bind_ok in H as (plan & _ & H). apply result_bind_ok in H as (p & _ & H).
  apply bind_reject_ok in H as [_ H]. apply result_bind_ok in H as (spec & _ & H).
  apply bind_unit_ok in H as [_ H]. apply result_bind_ok in H as (c & Hc%ok_or_ok & H).
  apply result_bind_ok in H as (leg & _ & H).
  apply bind_reject_ok in H as [_ H]. apply bind_reject_ok in H as [_ H].
  apply bind_reject_ok in H as [_ H]. apply bind_reject_ok in H as [_ H].
  apply bind_reject_ok in H as [Hb%contains_key_false H]. cbv zeta in H.
  apply bind_reject_ok in H as [Hu H].
  apply orb_false_iff in Hu as [[Hu%bool_decide_eq_false Hown%contains_key_false]%orb_false_iff _].
  injection H as <- <-. right. exists c. by split_and!; [split| |].
Qed.

Lemma record_context_effects record s out s' :
  record_initial_context_in_state record s = Ok (out, s') →
  (s' = s ∧ rm_initial_contexts s !! context_key record = Some record ∧
     out = InitialContextRecordOutcome.Replayed record) ∨
  (context_guarded record s ∧ out = InitialContextRecordOutcome.Recorded record ∧
     s' = s <| rm_initial_context_message_ids :=
                 <[(ic_call_id record, ic_message_id record) := context_key record]>
                   (rm_initial_context_message_ids s) |>
            <| rm_initial_contexts := <[context_key record := record]> (rm_initial_contexts s) |>).
Proof using.
  intros H. unfold record_initial_context_in_state in H.
  apply result_bind_ok in H as (c & [Hc Ht]%tenant_call_ok & H).
  apply bind_reject_ok in H as [Hm%negb_false_iff%bool_decide_eq_true H]. cbv zeta in H.
  fold (context_key record) in H. open_option H.
  { destruct (_ ==? _) eqn:Er; [|done]. bool_hyps. injection H as <- <-. left. by subst. }
  apply bind_reject_ok in H as [Hmsg%contains_key_false H].
  apply result_bind_ok in H as (src & _ & H). apply result_bind_ok in H as (tgt & _ & H).
  apply bind_reject_ok in H as [_ H]. apply bind_unit_ok in H as [_ H].
  apply result_bind_ok in H as (b & _ & H). apply bind_reject_ok in H as [_ H].
  injection H as <- <-. right. split; [|done]. split; [done..|by eexists].
Qed.

(** ** Capacity *)

Lemma capacity_bound s id c binding :
  capacity_ok s → rm_calls s !! id = Some c → capacity_ok (put_binding s id c binding).
Proof using.
  intros Hok Hc. eapply (capacity_put_call s _ id c (bound_call c binding)); try done.
  by destruct (cy_calls s Hok id c Hc).
Qed.

Lemma capacity_service s s' : capacity_ok s → service_effect s s' → capacity_ok s'.
Proof using.
  intros Hok [].
  - pose proof (side_core _ _ H) as E.
    by apply (capacity_ok_ext s); [apply (f_equal rm_workers E)|apply (f_equal rm_calls E)|].
  - by apply (capacity_ok_ext s).
  - apply (capacity_ok_ext s1); [done..|]. by eapply capacity_create_written.
  - apply (capacity_ok_ext (put_binding s (on_call_id request) c (outbound_binding request))); [done..|].
    apply capacity_bound; [done|apply H].
  - apply (capacity_ok_ext (put_binding s1 (ct_call_id command) (committed_call command c d) binding));
      [done..|].
    apply capacity_bound; [by eapply capacity_commit_written|].
    rewrite (cw_calls _ _ _ _ _ _ _ H1). apply lookup_insert_eq.
Qed.

Lemma capacity_store s s' : capacity_ok s → rtc store_effect s s' → capacity_ok s'.
Proof using.
  intros Hok Hs. induction Hs as [|s s1 s' [He|He] _ IH]; [done|..]; apply IH.
  - by eapply capacity_effect.
  - by eapply capacity_service.
Qed.

(** ** Reconciliation *)

(** What storing external references leaves alone. *)
Record references_frame (s s' : MemoryState) : Prop := {
  rf_outbox : rm_outbox s' = rm_outbox s;
  rf_control : rm_control_outbox s' = rm_control_outbox s;
  rf_results : rm_reconciliation_results s' = rm_reconciliation_results s;
  rf_calls : rm_calls s' = rm_calls s;
  rf_workers : rm_workers s' = rm_workers s;
}.

Lemma store_reference_effects request binding s out s' :
  store_external_reference_in_state request binding s = Ok (out, s') →
  rtc store_effect s s' ∧ references_frame s s'.
Proof using.
  intros H. unfold store_external_reference_in_state in H. apply bind_unit_ok in H as [_ H].
  apply result_bind_ok in H as (c & _ & H). apply result_bind_ok in H as (leg & _ & H).
  apply bind_reject_ok in H as [_ H]. cbv zeta in H. apply bind_reject_ok in H as [Hn H].
  apply orb_false_iff in Hn as [Hn1%contains_key_false Hn2%contains_key_false].
  set (stored := {| xr_tenant_id := er_tenant_id request; xr_call_id := er_call_id request;
       xr_leg_id := xb_leg_id binding; xr_binding_generation := xb_binding_generation binding;
       xr_role := xb_role binding; xr_effect_id := er_effect_id request;
       xr_value := xb_value binding; xr_bound_at := er_at request |}) in *.
  pose proof (row_reference s stored Hn1 Hn2) as R. cbv zeta in R.
  apply result_bind_ok in H as ([released s1] & H1 & [= _ <-]).
  destruct (xb_value binding).
  - split; [|by apply bind_frame in H1 as (refs & events & ->)].
    eapply rtc_l; [right; by apply svc_rows|]. apply rtc_once. left. by eapply eff_bind.
  - injection H1 as _ <-. split; [|done]. by apply side_once.
Qed.

Lemma store_references_effects request bindings s out s' :
  store_external_references request bindings s = Ok (out, s') →
  rtc store_effect s s' ∧ references_frame s s'.
Proof using.
  revert s out. induction bindings as [|b bindings IH]; intros s out H; cbn in H.
  { by injection H as _ <-. }
  apply result_bind_ok in H as ([[stored released] s1] & H1 & H).
  apply result_bind_ok in H as ([[rest more] s2] & H2 & [= _ <-]).
  apply store_reference_effects in H1 as [R1 [F1 F2 F3 F4 F5]].
  apply IH in H2 as [R2 [G1 G2 G3 G4 G5]]. split; [by etrans|]. by split; etrans.
Qed.

Lemma follow_up_effects new_id request s view s' :
  capacity_ok s → fresh_ids new_id s →
  commit_follow_up new_id request s = Ok (view, s') → rtc store_effect s s' ∧ outbox_grows s s'.
Proof using.
  intros Hok Hf H. apply result_bind_ok in H as ([o s1] & H1 & H). cbn [fst snd] in H.
  destruct o; [|done]. injection H as _ <-. by apply commit_service_ok in H1 as (R & G & _).
Qed.

Lemma effect_follow_up_effects new_id effect request s out s' :
  capacity_ok s → fresh_ids new_id s →
  effect_follow_up new_id effect request s = Ok (out, s') →
  rtc store_effect s s' ∧ outbox_grows s s' ∧
  (∀ r, effect = ServiceEffectSnapshot.Control r → s' = s).
Proof using.
  intros Hok Hf H. destruct effect as [record|record], (er_follow_up request) as [q|] eqn:E;
    cbn in H; rewrite E in H; try done; try (by injection H as _ <-).
  apply bind_reject_ok in H as [_ H]. apply bind_unit_ok in H as [_ H].
  apply result_bind_ok in H as ([view s1] & H1 & [= _ <-]).
  by apply follow_up_effects in H1 as [R G].
Qed.

Lemma completed_is_finished request : state_is_unfinished (completed_state request) = false.
Proof using. unfold completed_state. by destruct (er_result request). Qed.

Lemma reconcilable_ok s request effect :
  reconcilable_effect s request = Ok effect →
  effect_snapshot s (er_effect_id request) = Ok effect ∧
  outbox_claim_held (snapshot_state effect) (er_worker request) (er_claim_generation request)
    (er_at request) = true ∧
  current_lease s (er_worker request) (er_at request).
Proof using.
  unfold reconcilable_effect. intros H. apply bind_unit_ok in H as [Hw%ensure_worker_current H].
  apply result_bind_ok in H as (x & Hx & H). apply bind_reject_ok in H as [_ H].
  apply bind_unit_ok in H as [Hh H]. apply bind_reject_ok in H as [_ H].
  apply result_bind_ok in H as (c & _ & H). apply bind_reject_ok in H as [_ H].
  apply bind_unit_ok in H as [_ H]. apply bind_reject_ok in H as [_ H].
  apply bind_unit_ok in H as [_ [= <-]]. split; [done|]. split; [|done].
  unfold validate_effect_claim in Hh. by destruct (outbox_claim_held _ _ _ _).
Qed.

Lemma reconcile_effect_effects new_id request s out s' :
  capacity_ok s → fresh_ids new_id s →
  reconcile_effect_result_in_state new_id request s = Ok (out, s') →
  (s' = s ∧ ∃ existing, rm_reconciliation_results s !! er_effect_id request = Some existing ∧
     ro_request existing = request ∧ out = EffectResultOutcome.Replayed (ro_view existing)) ∨
  (rtc store_effect s s' ∧ rm_reconciliation_results s !! er_effect_id request = None ∧
   ∃ view, out = EffectResultOutcome.Reconciled view ∧
     rm_reconciliation_results s' !! er_effect_id request
       = Some {| ro_request := request; ro_view := view |}).
Proof using.
  intros Hok Hf H. unfold reconcile_effect_result_in_state in H. open_option H.
  { destruct (_ ==? _) eqn:Er; [|done]. bool_hyps. injection H as <- <-. left. eauto. }
  right. apply result_bind_ok in H as (x & (Hx & Hheld & _)%reconcilable_ok & H).
  apply result_bind_ok in H as ([[stored released] s1] & H1 & H).
  apply store_references_effects in H1 as [R1 [F1 F2 F3 F4 F5]].
  apply result_bind_ok in H as ([fu s2] & H2 & H). cbn [fst snd] in H.
  assert (Hok1 : capacity_ok s1) by by apply (capacity_ok_ext s).
  apply effect_follow_up_effects in H2 as (R2 & (G1 & _ & G3) & Hctl); [|done|by apply (fresh_ext new_id s)].
  apply result_bind_ok in H as ([completed s3] & H3 & H). cbn [fst snd] in H.
  destruct (split_references request stored) as [xref additional]. injection H as <- <-.
  assert (R3 : rtc store_effect s2 s3 ∧ rm_reconciliation_results s3 = rm_reconciliation_results s2).
  { unfold effect_snapshot in Hx.
    destruct (rm_outbox s !! _) as [r|] eqn:Eo, (rm_control_outbox s !! _) as [r'|] eqn:Ec; try done;
      injection Hx as <-; cbn in H3, Hheld; apply result_bind_ok in H3 as (rec & Hrec%ok_or_ok & [= _ <-]);
      (split; [|done]); apply rtc_once.
    - assert (rec = r) as ->.
      { rewrite <- F1 in Eo. apply G1 in Eo. congruence. }
      left. eapply eff_finish_effect; [exact Hrec|exact Hheld|]. apply completed_is_finished.
    - assert (rec = r') as ->.
      { rewrite (Hctl _ eq_refl), F2 in Hrec. congruence. }
      right. apply svc_rows. eapply row_finish_control; [exact Hrec|exact Hheld|].
      apply completed_is_finished. }
  destruct R3 as [R3 E3]. split; [|split; [done|]].
  - etrans; [exact R1|]. etrans; [exact R2|]. etrans; [exact R3|]. apply side_once, row_reconciled.
    by rewrite E3, G3, F3.
  - eexists. split; [done|]. apply lookup_insert_eq.
Qed.

Lemma service_claim_is_held s event request :
  service_claim_held s event request = true →
  provider_claim_held event (pv_worker request) (pv_claim_generation request) (pv_at request) = true.
Proof using.
  unfold service_claim_held, provider_claim_held. destruct (pe_state event); try done.
  intros H. apply andb_true_iff in H as [H _]. exact H.
Qed.

Lemma reconcile_event_effects new_id request s out s' :
  capacity_ok s → fresh_ids new_id s →
  reconcile_provider_event_in_state new_id request s = Ok (out, s') → rtc store_effect s s'.
Proof using.
  intros Hok Hf H. unfold reconcile_provider_event_in_state in H. cbv zeta in H.
  apply result_bind_ok in H as (event & Hev%ok_or_ok & H).
  destruct (_ ==? _); [inv_ok H; by simplify_eq|].
  apply bind_reject_ok in H as [_ H]. apply bind_unit_ok in H as [_ H].
  apply bind_reject_ok in H as [Hh%negb_false_iff H].
  apply result_bind_ok in H as ([fu s1] & H1 & H). cbn [fst snd] in H.
  assert (R1 : rtc store_effect s s1 ∧ rm_provider_events s1 = rm_provider_events s).
  { unfold provider_follow_up in H1. cbv zeta in H1. destruct (pv_follow_up request) as [q|].
    - apply bind_unit_ok in H1 as [_ H1]. apply bind_reject_ok in H1 as [_ H1].
      apply result_bind_ok in H1 as (x & _ & H1). apply result_bind_ok in H1 as (c & _ & H1).
      apply bind_unit_ok in H1 as [_ H1]. apply result_bind_ok in H1 as ([v s2] & H2 & [= _ <-]).
      apply follow_up_effects in H2 as [R (_ & E & _)]; done.
    - apply bind_unit_ok in H1 as [_ [= _ <-]]. done. }
  destruct R1 as [R1 E1]. apply result_bind_ok in H as (event' & Hev'%ok_or_ok & H).
  rewrite E1, Hev in Hev'. injection Hev' as <-. apply bind_reject_ok in H as [_ H].
  eapply rtc_r; [exact R1|]. left.
  eapply (eff_apply s1 (pv_account request, pv_event_digest request) event (pv_at request)).
  - by rewrite E1.
  - by eapply service_claim_is_held.
  - unfold apply_event. rewrite E1, Hev. cbn [ok_or mbind result_bind].
    injection H as <- <-. rewrite E1. reflexivity.
Qed.

(** ** Runs *)

(** One call of a method of the [CallServiceRepository] implementation that may write.
    [consume_inbound_attachment] is [consume_attachment]. *)
Inductive service_step (r : MemoryRepository) : MemoryRepository → Prop :=
| step_create_with_plan new_id request :
    fresh_ids new_id (mr_state r) → service_step r (create_with_plan new_id r request).1
| step_service_command new_id request :
    fresh_ids new_id (mr_state r) → service_step r (commit_with_effect_payloads new_id r request).1
| step_guarded_replacement new_id request :
    fresh_ids new_id (mr_state r) →
    service_step r (commit_leg_replacement_with_worker_guard new_id r request).1
| step_bound_state new_id request :
    fresh_ids new_id (mr_state r) → service_step r (commit_bound_connection_state new_id r request).1
| step_bound_termination new_id request :
    fresh_ids new_id (mr_state r) →
    service_step r (commit_bound_source_termination new_id r request).1
| step_media_activity new_id request :
    fresh_ids new_id (mr_state r) → service_step r (commit_media_activity new_id r request).1
| step_enqueue_control new_id request : service_step r (enqueue_control new_id r request).1
| step_claim_control worker at_ ttl limit :
    service_step r (claim_control_effects r worker at_ ttl limit).1
| step_bind_outbound request : service_step r (bind_outbound_connection r request).1
| step_record_context record : service_step r (record_initial_context r record).1
| step_reconcile_effect new_id request :
    fresh_ids new_id (mr_state r) → service_step r (reconcile_effect_result new_id r request).1
| step_reconcile_event new_id request :
    fresh_ids new_id (mr_state r) → service_step r (reconcile_provider_event new_id r request).1.

(** One call of a method of either repository, and what a sequence of them can lead to. *)
Definition store_step (r r' : MemoryRepository) : Prop := repo_step r r' ∨ service_step r r'.

Definition store_reachable (r : MemoryRepository) : Prop := rtc store_step MemoryRepository_default r.

(** A service method commits a sequence of effects or changes nothing. *)
Lemma service_step_effects r r' :
  capacity_ok (mr_state r) → service_step r r' →
  ∃ s', r' = r <| mr_state := s' |> ∧ rtc store_effect (mr_state r) s'.
Proof using.
  intros Hok Hs.
  assert (Hsame : ∃ s', r = r <| mr_state := s' |> ∧ rtc store_effect (mr_state r) s')
    by (exists (mr_state r); by destruct r).
  assert (Htx : ∀ A (tx : Tx A), (∀ a s', tx (mr_state r) = Ok (a, s') → rtc store_effect (mr_state r) s') →
    ∃ s', (transaction r tx).1 = r <| mr_state := s' |> ∧ rtc store_effect (mr_state r) s').
  { intros A tx H. apply (transaction_step r tx (λ x, ∃ s', x = r <| mr_state := s' |> ∧
      rtc store_effect (mr_state r) s')); [done|]. intros a s' Ha. exists s'. eauto. }
  destruct Hs;
    unfold create_with_plan, commit_with_effect_payloads, commit_leg_replacement_with_worker_guard,
      commit_bound_connection_state, commit_bound_source_termination, commit_media_activity,
      enqueue_control, claim_control_effects, bind_outbound_connection, record_initial_context,
      reconcile_effect_result, reconcile_provider_event, claim_method;
    repeat match goal with
    | |- context [match ?x with Ok _ => _ | Err _ => _ end] => destruct x; [|exact Hsame]
    | |- context [if ?b then _ else _] => destruct b; [exact Hsame|]
    end; apply Htx; intros a s' H'.
  - by eapply create_with_plan_effects.
  - by eapply commit_service_effects.
  - by eapply guarded_replacement_effects.
  - by eapply bound_state_effects.
  - by eapply bound_termination_effects.
  - by eapply media_activity_effects.
  - by eapply enqueue_control_effects.
  - unfold claim_control_effects_in_state in H'. apply bind_unit_ok in H' as [_ H']. cbv zeta in H'.
    by eapply claim_control_loop_effects.
  - apply bind_outbound_effects in H' as [[-> _]|(c & G & _ & ->)]; [done|].
    apply rtc_once. right. by apply svc_bind.
  - apply record_context_effects in H' as [[-> _]|(G & _ & ->)]; [done|]. by apply side_once, row_context.
  - by apply reconcile_effect_effects in H' as [[-> _]|[R _]].
  - by eapply reconcile_event_effects.
Qed.

Lemma store_step_effects r r' :
  capacity_ok (mr_state r) → store_step r r' →
  ∃ s', r' = r <| mr_state := s' |> ∧ rtc store_effect (mr_state r) s'.
Proof using.
  intros Hok [Hs|Hs]; [|by apply service_step_effects].
  apply repo_step_tx in Hs as [->|(s' & -> & Hs)]; [exists (mr_state r); by destruct r|].
  exists s'. split; [done|]. by apply core_effects, tx_effects.
Qed.

(** What the writes of both repositories preserve holds along every run of the store. *)
Lemma store_invariant (P : MemoryState → Prop) r r' :
  (∀ s s', capacity_ok s → P s → effect s s' → P s') →
  (∀ s s', capacity_ok s → P s → service_effect s s' → P s') →
  rtc store_step r r' → capacity_ok (mr_state r) → P (mr_state r) →
  capacity_ok (mr_state r') ∧ P (mr_state r').
Proof using.
  intros Hc Hv Hr. induction Hr as [|r r1 r' Hs _ IH]; [done|]. intros Hcap Hp.
  apply store_step_effects in Hs as (s' & -> & Hs); [|done]. apply IH; clear IH; cbn.
  - by eapply capacity_store.
  - clear - Hc Hv Hs Hcap Hp. induction Hs as [|s s1 s' He _ IH]; [done|]. apply IH.
    + by eapply capacity_store; [|apply rtc_once].
    + destruct He as [He|He]; [by eapply Hc|by eapply Hv].
Qed.

Lemma store_run_capacity r r' :
  rtc store_step r r' → capacity_ok (mr_state r) → capacity_ok (mr_state r').
Proof using. intros Hr Hcap. by apply (store_invariant (λ _, True) r r'). Qed.

Lemma store_capacity r : store_reachable r → capacity_ok (mr_state r).
Proof using. intros Hr. by apply (store_run_capacity _ _ Hr), capacity_ok_default. Qed.

Lemma store_reachable_invariant (P : MemoryState → Prop) r :
  (∀ s s', capacity_ok s → P s → effect s s' → P s') →
  (∀ s s', capacity_ok s → P s → service_effect s s' → P s') →
  P MemoryState_default → store_reachable r → P (mr_state r).
Proof using.
  intros Hc Hv H0 Hr. by apply (store_invariant P _ _ Hc Hv Hr), H0; apply capacity_ok_default.
Qed.

(** No method poisons the mutex. *)
Lemma store_run_lock r r' :
  rtc store_step r r' → capacity_ok (mr_state r) → mr_poisoned r' = mr_poisoned r.
Proof using.
  induction 1 as [|r r1 r' Hs _ IH]; [done|]. intros Hcap.
  apply store_step_effects in Hs as (s' & -> & Hs); [|done]. rewrite IH; [done|].
  cbn. by eapply capacity_store.
Qed.

Lemma store_lock r : store_reachable r → mr_poisoned r = false.
Proof using. intros Hr. by apply store_run_lock in Hr; [|apply capacity_ok_default]. Qed.

Lemma reachable_in_store r : reachable r → store_reachable r.
Proof using. apply rtc_subrel. by left. Qed.
End Service.
