(* ===== verification/ServiceSample.v ===== *)
(** Concrete runs of the store, on which the theorems are instantiated: one of the call repository
    alone, and one that uses the service repository as well. *)

From S2P Require Import Prelude RustText DomainTypes Domain DomainInv DomainSafety DomainWorld.
From S2P Require Import DomainTrace DomainTheorems CoordModel RepoTypes ServiceTypes Context.
From S2P Require Import PlanModel RepoMemory RepoClaims ServiceCommands ServiceMemory.
From S2P Require Import ServiceReconcile RepoFrame RepoCommit RepoInv RepoEffects ServiceEffects.
From stdpp Require Import options.

#[local] Existing Instance chrono_sample.

Definition worker_request (at_ : DateTime) : RegisterWorker :=
  {| rw_worker_id := 7; rw_max_calls := 2%N; rw_capabilities := ∅; rw_at := at_;
     rw_lease_ttl := from_secs 30 |}.

Definition worker_one : WorkerLease := {| wl_worker_id := 7; wl_fence := 1%N |}.

Definition inbound_issue : AttachmentIssue :=
  {| ai_attachment_id := 40; ai_token_digest := 50; ai_purpose := AttachmentPurpose.PublicInbound;
     ai_leg_id := 2; ai_binding_generation := 1%N; ai_transport := AttachmentTransport.Sip;
     ai_expected_principal := 60; ai_expires_at := 1000 |}.

Definition create_request : CreateCall :=
  {| cc_initial := sample_call; cc_command_id := 20; cc_command := StartConnecting 1 10;
     cc_worker := worker_one; cc_idempotency_key := 30; cc_request_digest := 31;
     cc_attachments := [inbound_issue]; cc_at := 1 |}.

Definition ids_from (base : Z) : nat → EffectId := λ i, base + Z.of_nat i.

Definition registered : MemoryRepository :=
  (register_worker MemoryRepository_default (worker_request 0)).1.

Definition created : MemoryRepository := (create_call (ids_from 100) registered create_request).1.

(** A command of the worker on the sample call. *)
Definition command_request (version : AggregateVersion) (id : CommandId) (command : CallCommand)
    : CommandCommit :=
  {| ct_tenant_id := str "tenant"; ct_call_id := 1; ct_expected_version := version;
     ct_command_id := id; ct_command := command; ct_worker := worker_one; ct_attachments := [];
     ct_deadline_claim := None; ct_at := command_at command |}.

(** [fresh_ids] by inspection of the outbox. *)
Lemma ids_from_fresh base s :
  map_Forall (λ e (_ : OutboxRecord), e < base) (rm_outbox s) → fresh_ids (ids_from base) s.
Proof.
  intros H. split.
  - intros i. destruct (rm_outbox s !! ids_from base i) as [r|] eqn:E; [|done].
    specialize (H _ _ E). unfold ids_from in H. cbn in H. lia.
  - unfold ids_from. lia.
Qed.

Ltac unused_ids := apply ids_from_fresh, (bool_decide_eq_true_1 (map_Forall _ _)); vm_compute; reflexivity.

Lemma reachable_registered : reachable registered.
Proof. apply rtc_once, step_register. Qed.

Lemma reachable_created : reachable created.
Proof. eapply rtc_r; [apply reachable_registered|]. apply step_create. unused_ids. Qed.

Lemma created_outcome : ∃ c, (create_call (ids_from 100) registered create_request).2 = Ok (Created c).
Proof. eexists. vm_compute. reflexivity. Qed.

(** The outbound leg starts signalling. *)
Definition signal_request : CommandCommit :=
  command_request 1%N 21 (SetLegState 2 3 1%N LegState.Signaling None).

Definition signaled : MemoryRepository := (commit_command (ids_from 200) created signal_request).1.

Lemma signaled_outcome :
  ∃ view, commit_command (ids_from 200) created signal_request = (signaled, Ok (Committed view)).
Proof.
  unfold signaled. destruct (commit_command (ids_from 200) created signal_request) as [r o] eqn:E.
  assert (Ho : ∃ view, (commit_command (ids_from 200) created signal_request).2 = Ok (Committed view))
    by (eexists; vm_compute; reflexivity).
  rewrite E in Ho. destruct Ho as [view Ho]. cbn in *. exists view. by subst.
Qed.

Lemma reachable_signaled : reachable signaled.
Proof. eapply rtc_r; [apply reachable_created|]. apply step_commit. unused_ids. Qed.

(** A concrete run of the store that uses the service repository: a call is created with an
    execution plan, its outbound leg is dialled, bound and connected, and a digit is sent to it. *)

#[local] Existing Instance chrono_sample.

(** A URL is its scheme and the rest; an envelope is read from its correlation identifier. *)
Definition libs_sample : ServiceLibs := {|
  Url := rstr * rstr;
  Url_parse v := split_once 58 v;
  url_scheme := fst;
  url_password _ := None;
  url_query _ := None;
  url_fragment _ := None;
  url_path := snd;
  MAX_CONNECT_ATTRIBUTE_BYTES := 32768;
  MAX_CONNECT_ATTRIBUTE_COUNT := 64;
  MAX_CONNECT_ATTRIBUTE_KEY_BYTES := 64;
  MAX_CONNECT_DESCRIPTION_BYTES := 256;
  MAX_CONNECT_DISPLAY_NAME_BYTES := 256;
  MAX_CONNECT_PROFILE_ID_BYTES := 64;
  MAX_CONNECT_RESOURCE_ID_BYTES := 128;
  AMAZON_CONNECT_CONTACT_REFERENCE_KIND := str "amazon_connect_contact";
  MAX_DATA_MESSAGE_ID_BYTES := 128;
  route_context_to_vec c := Some (bytes (nc_correlation_id c));
  context_from_slice b :=
    Some (ContextEnvelope_new b (str "tenant") (str "1") (str "2"));
  sip_initial_headers_valid _ := true;
  id_to_string id := display_u64 (Z.to_N id);
|}.
#[local] Existing Instance libs_sample.

Definition service_worker : RegisterWorker :=
  {| rw_worker_id := 7; rw_max_calls := 2%N; rw_capabilities := {[str "sip"; str "sip_egress"]};
     rw_at := 0; rw_lease_ttl := from_secs 30 |}.

Definition sip_spec (leg : LegId) (uri : option rstr) : LegExecutionSpec :=
  {| ls_leg_id := leg;
     ls_endpoint := LegEndpointConfig.Sip
       {| se_uri := uri; se_initial_context := SipInitialContextMode.None_ |} |}.

Definition sample_plan : CallExecutionPlan :=
  {| ep_version := CALL_EXECUTION_PLAN_VERSION;
     ep_authorization_principal_fingerprint := Some 60;
     ep_legs := (sip_spec 2 None, sip_spec 3 (Some (str "sip:agent@example.com")));
     ep_amazon_connect_starts := [];
     ep_leg_semantics := LegSemanticsBinding_from_aggregate sample_call;
     ep_named_route := None;
     ep_setup_policy := SetupPolicy.Parallel |}.

Definition plan_request : ServiceCreateTransaction :=
  {| sx_create := create_request; sx_plan := sample_plan; sx_alternatives := [] |}.

Definition enrolled : MemoryRepository := (register_worker MemoryRepository_default service_worker).1.
Definition planned : MemoryRepository := (create_with_plan (ids_from 100) enrolled plan_request).1.
Definition dialled : MemoryRepository := (claim_outbox planned worker_one 2 (from_secs 5) 10%N).1.

(** The claimed effect [e] succeeded; [reference] is what it bound. *)
Definition succeeded (e : EffectId) (at_ : DateTime) (reference : option ExternalReferenceBinding)
    : EffectResultReconciliation :=
  {| er_tenant_id := str "tenant"; er_call_id := 1; er_effect_id := e; er_worker := worker_one;
     er_claim_generation := 1%N; er_result := ServiceEffectResult.Succeeded;
     er_external_reference := reference; er_additional_external_references := [];
     er_follow_up := None; er_at := at_ |}.

Definition awaited : MemoryRepository :=
  (reconcile_effect_result (ids_from 200) dialled (succeeded 100 3 None)).1.
Definition leg_started : MemoryRepository := (claim_outbox awaited worker_one 4 (from_secs 5) 10%N).1.

Definition bind_request : OutboundConnectionBind :=
  {| on_operation_id := 101; on_effect_id := 101; on_claim_generation := 1%N;
     on_tenant_id := str "tenant"; on_call_id := 1; on_leg_id := 3; on_binding_generation := 1%N;
     on_worker := worker_one; on_connection_id := str "conn-out";
     on_transport := AttachmentTransport.Sip; on_principal_fingerprint := 60; on_at := 5 |}.

Definition leg_bound : MemoryRepository := (bind_outbound_connection leg_started bind_request).1.

Definition dialog_reference : ExternalReferenceBinding :=
  {| xb_leg_id := 3; xb_binding_generation := 1%N; xb_role := ProviderReferenceRole.Media;
     xb_value := ExternalReferenceValue.Signaling (str "sip_dialog") (str "dialog-1") |}.

Definition referenced_store : MemoryRepository :=
  (reconcile_effect_result (ids_from 300) leg_bound (succeeded 101 6 (Some dialog_reference))).1.

(** The connection of the outbound leg reports a state. *)
Definition observed (id : CommandId) (version : AggregateVersion) (state : LegState) (at_ : DateTime)
    : BoundConnectionStateCommit :=
  {| bs_tenant_id := str "tenant"; bs_call_id := 1; bs_expected_version := version;
     bs_command_id := id; bs_leg_id := 3; bs_binding_generation := 1%N;
     bs_connection_id := str "conn-out"; bs_worker := worker_one; bs_state := state;
     bs_failure := None; bs_at := at_ |}.

Definition ringing : MemoryRepository :=
  (commit_bound_connection_state (ids_from 400) referenced_store (observed 21 1%N LegState.Signaling 7)).1.
Definition answered : MemoryRepository :=
  (commit_bound_connection_state (ids_from 500) ringing (observed 22 2%N LegState.Connected 8)).1.

Definition digit_request (id : CommandId) (digits : rstr) (at_ : DateTime) : ControlCommandTransaction :=
  {| nt_command_id := id; nt_tenant_id := str "tenant"; nt_call_id := 1; nt_leg_id := 3;
     nt_binding_generation := 1%N; nt_worker := worker_one;
     nt_intent := Dtmf {| dt_digits := digits; dt_duration_ms := 100%N; dt_gap_ms := 50%N |};
     nt_at := at_; nt_operation_idempotency := None |}.

Definition one_digit : MemoryRepository :=
  (enqueue_control (ids_from 600) answered (digit_request 31 (str "5") 9)).1.
Definition two_digits : MemoryRepository :=
  (enqueue_control (ids_from 601) one_digit (digit_request 32 (str "6") 9)).1.

(** ** Reachability *)

Lemma store_enrolled : store_reachable enrolled.
Proof. apply rtc_once. left. apply step_register. Qed.

Lemma store_planned : store_reachable planned.
Proof. eapply rtc_r; [apply store_enrolled|]. right. apply step_create_with_plan. unused_ids. Qed.

Lemma store_dialled : store_reachable dialled.
Proof. eapply rtc_r; [apply store_planned|]. left. apply step_claim_outbox. Qed.

Lemma store_awaited : store_reachable awaited.
Proof. eapply rtc_r; [apply store_dialled|]. right. apply step_reconcile_effect. unused_ids. Qed.

Lemma store_started : store_reachable leg_started.
Proof. eapply rtc_r; [apply store_awaited|]. left. apply step_claim_outbox. Qed.

Lemma store_bound : store_reachable leg_bound.
Proof. eapply rtc_r; [apply store_started|]. right. apply step_bind_outbound. Qed.

Lemma store_referenced : store_reachable referenced_store.
Proof. eapply rtc_r; [apply store_bound|]. right. apply step_reconcile_effect. unused_ids. Qed.

Lemma store_ringing : store_reachable ringing.
Proof. eapply rtc_r; [apply store_referenced|]. right. apply step_bound_state. unused_ids. Qed.

Lemma store_answered : store_reachable answered.
Proof. eapply rtc_r; [apply store_ringing|]. right. apply step_bound_state. unused_ids. Qed.

Lemma store_one_digit : store_reachable one_digit.
Proof. eapply rtc_r; [apply store_answered|]. right. apply step_enqueue_control. Qed.

Lemma store_two_digits : store_reachable two_digits.
Proof. eapply rtc_r; [apply store_one_digit|]. right. apply step_enqueue_control. Qed.

(** The runs of the call repository are runs of the store. *)
Lemma store_created : store_reachable created.
Proof. apply reachable_in_store, reachable_created. Qed.

Lemma store_signaled : store_reachable signaled.
Proof. apply reachable_in_store, reachable_signaled. Qed.
