(* ===== verification/RepoOutbox.v ===== *)
(** The effect outbox of the standalone call repository: an effect is stored under its identity
    with the call and the worker it belongs to, and the effects of a call are executed in the
    order of the decisions that produced them. *)

From S2P Require Import Prelude RustText DomainTypes CoordModel Domain DomainInv DomainSafety.
From S2P Require Import DomainWorld DomainTrace DomainTheorems.
From S2P Require Import RepoTypes ServiceTypes RepoMemory RepoClaims RepoFrame RepoCommit RepoInv ServiceSample.
From S2P Require Import RepoEffects PlanModel ServiceEffects ServiceSample.
From stdpp Require Import options.

(** ** Order *)

(** [precedes r r']: [r] comes before [r'] in the outbox order. *)
Definition precedes (r r' : OutboxRecord) : Prop :=
  order_key_lt (outbox_order_key r) (outbox_order_key r') = true.

Lemma precedes_version r r' :
  ob_call_id r = ob_call_id r' → precedes r r' →
  (ob_aggregate_version r ≤ ob_aggregate_version r')%N.
Proof.
  unfold precedes, order_key_lt, compare_order_keys, outbox_order_key. intros ->.
  rewrite Z.compare_refl. cbn.
  destruct (N.compare_spec (ob_aggregate_version r) (ob_aggregate_version r')); cbn; try lia; done.
Qed.

Lemma precedes_irrefl r : ¬ precedes r r.
Proof.
  unfold precedes, order_key_lt, compare_order_keys, outbox_order_key.
  by rewrite !Z.compare_refl, !N.compare_refl.
Qed.

Record outbox_ok (s : MemoryState) : Prop := {
  oo_key e r : rm_outbox s !! e = Some r → ob_effect_id r = e;
  oo_call e r : rm_outbox s !! e = Some r →
    ∃ c, rm_calls s !! ob_call_id r = Some c ∧
         ca_tenant_id (sc_aggregate c) = ob_tenant_id r ∧
         (ob_aggregate_version r ≤ ca_version (sc_aggregate c))%N ∧
         (outbox_is_unfinished r = true → ob_worker r = wa_lease (sc_assignment c));
  oo_order e r e' r' :
    rm_outbox s !! e = Some r → rm_outbox s !! e' = Some r' →
    ob_call_id r' = ob_call_id r → precedes r' r → outbox_is_unfinished r' = true →
    ob_state r = OutboxState.Ready;
}.

Lemma outbox_ok_ext s s' :
  rm_outbox s' = rm_outbox s → rm_calls s' = rm_calls s → outbox_ok s → outbox_ok s'.
Proof. intros Eo Ec [K C O]. split; rewrite ?Eo, ?Ec; auto. Qed.

(** A batch of a decision that has advanced the version of its call. *)
Lemma outbox_batch s s' new_id batch effects c :
  outbox_ok s → fresh_ids new_id s →
  rm_outbox s' = insert_records (batch_records new_id batch 0 effects) (rm_outbox s) →
  rm_calls s' = <[eb_call_id batch := c]> (rm_calls s) →
  (effects = [] ∨ ∀ e r, rm_outbox s !! e = Some r → ob_call_id r = eb_call_id batch →
     (ob_aggregate_version r < eb_aggregate_version batch)%N) →
  (∀ e r, rm_outbox s !! e = Some r → ob_call_id r = eb_call_id batch →
     ca_tenant_id (sc_aggregate c) = ob_tenant_id r ∧
     (ob_aggregate_version r ≤ ca_version (sc_aggregate c))%N ∧
     (outbox_is_unfinished r = true → ob_worker r = wa_lease (sc_assignment c))) →
  ca_tenant_id (sc_aggregate c) = eb_tenant_id batch →
  (eb_aggregate_version batch ≤ ca_version (sc_aggregate c))%N →
  wa_lease (sc_assignment c) = eb_worker batch →
  outbox_ok s'.
Proof.
  intros [K C O] Hf Eo Ec Hnew Hold Ht Hv Hw. split.
  - intros e r. rewrite Eo, batch_lookup by done. intros [Hr|(i & x & _ & -> & ->)]; [by apply K|done].
  - intros e r. rewrite Eo, Ec, batch_lookup by done. intros [Hr|(i & x & _ & -> & ->)].
    + destruct (base.decide (ob_call_id r = eb_call_id batch)) as [E|Hne].
      * exists c. rewrite E, lookup_insert_eq. split; [done|]. by apply (Hold e).
      * rewrite lookup_insert_ne by done. by apply (C e).
    + exists c. cbn. by rewrite lookup_insert_eq.
  - intros e r e' r'. rewrite Eo, !batch_lookup by done.
    intros [Hr|(i & x & _ & -> & ->)] [Hr'|(i' & x' & Hx' & -> & ->)] Hcall Hp Hu; try done.
    + by apply (O e r e' r').
    + exfalso. apply precedes_version in Hp; [|done]. cbn in *.
      destruct Hnew as [->|Hnew]; [done|]. specialize (Hnew e r Hr (eq_sym Hcall)). lia.
Qed.

(** A row changes state without losing its place: it stays unfinished only if it was, and leaves
    [Ready] only when nothing before it is unfinished. *)
Lemma outbox_put s s' e r st :
  outbox_ok s → rm_outbox s !! e = Some r → rm_calls s' = rm_calls s →
  rm_outbox s' = <[e := r <| ob_state := st |>]> (rm_outbox s) →
  (state_is_unfinished st = true → outbox_is_unfinished r = true) →
  (∀ e' r', rm_outbox s !! e' = Some r' → ob_call_id r' = ob_call_id r → precedes r' r →
     outbox_is_unfinished r' = false) →
  outbox_ok s'.
Proof.
  intros [K C O] Hr Ec Eo Hu Hfirst. split.
  - intros e' r'. rewrite Eo, lookup_insert_Some. intros [[<- <-]|[_ Hr']]; [by apply (K e r)|by apply K].
  - intros e' r'. rewrite Eo, Ec, lookup_insert_Some. intros [[<- <-]|[_ Hr']]; [|by apply (C e')].
    destruct (C e r Hr) as (c & Hc & Ht & Hv & Hw). exists c. split_and!; auto.
  - intros e1 r1 e2 r2. rewrite Eo, !lookup_insert_Some.
    intros [[<- <-]|[Hne1 Hr1]] [[<- <-]|[Hne2 Hr2]] Hcall Hp Hun.
    + by apply precedes_irrefl in Hp.
    + rewrite (Hfirst e2 r2) in Hun; auto. done.
    + apply (O e1 r1 e r); auto.
    + by apply (O e1 r1 e2 r2).
Qed.

(** ** Preservation *)

Lemma outbox_put_call s s' id c0 c :
  outbox_ok s → rm_outbox s' = rm_outbox s → rm_calls s !! id = Some c0 →
  rm_calls s' = <[id := c]> (rm_calls s) → sc_aggregate c = sc_aggregate c0 →
  wa_lease (sc_assignment c) = wa_lease (sc_assignment c0) → outbox_ok s'.
Proof.
  intros [K C O] Eo H0 Ec Ea El. split; rewrite ?Eo; auto.
  intros e r Hr. rewrite Ec. destruct (C e r Hr) as (c1 & Hc1 & Ht & Hv & Hw).
  destruct (base.decide (ob_call_id r = id)) as [E|Hne].
  - rewrite E in *. rewrite lookup_insert_eq. exists c. rewrite Ea, El. simplify_eq. auto.
  - rewrite lookup_insert_ne by done. by exists c1.
Qed.

Lemma outbox_commit_written new_id request s c d view s' :
  capacity_ok s → outbox_ok s → fresh_ids new_id s → commit_guarded request s c d →
  commit_written new_id request s c d view s' → outbox_ok s'.
Proof.
  intros Hcap Hok Hf G W. destruct G, W. destruct (cy_calls s Hcap _ _ cg_call) as [_ Hv _ _].
  pose proof (decide_keeps _ _ _ Hv cg_decide) as (_ & Ht & _ & _ & Hver).
  assert (Hle : (ca_version (sc_aggregate c) ≤ ca_version (cd_aggregate d))%N).
  { destruct (applies d); [lia|]. by destruct Hver as [-> _]. }
  assert (Hl : wa_lease (sc_assignment (committed_call request c d)) = ct_worker request).
  { unfold committed_call. by destruct (terminates d). }
  subst view. eapply (outbox_batch s _ new_id (commit_batch request (cd_aggregate d)) (cd_effects d)
    (committed_call request c d)); eauto; cbn; try congruence; try lia.
  - destruct (applies d); [right|left; by destruct Hver].
    intros e r Hr E. destruct (oo_call s Hok e r Hr) as (c1 & Hc1 & _ & Hle1 & _).
    rewrite E in Hc1. simplify_eq. lia.
  - intros e r Hr E. destruct (oo_call s Hok e r Hr) as (c1 & Hc1 & Ht1 & Hle1 & Hw1).
    rewrite E in Hc1. simplify_eq. split_and!; [congruence|lia|]. intros Hu.
    rewrite Hw1, cg_lease by done. symmetry. exact Hl.
Qed.

Lemma expire_claim_unfinished at_ st : state_is_unfinished (expire_claim at_ st) = state_is_unfinished st.
Proof. by destruct st. Qed.

(** A restarted row keeps its identity and whether it is finished or was claimed. *)
Definition restart_row (w : WorkerLease) (at_ : DateTime) (id : CallId) (r : OutboxRecord)
    : OutboxRecord :=
  if (ob_call_id r ==? id) && outbox_is_unfinished r
  then r <| ob_worker := w |> <| ob_state := expire_claim at_ (ob_state r) |> else r.

Lemma restart_row_spec w at_ id r :
  outbox_order_key (restart_row w at_ id r) = outbox_order_key r ∧
  ob_tenant_id (restart_row w at_ id r) = ob_tenant_id r ∧
  outbox_is_unfinished (restart_row w at_ id r) = outbox_is_unfinished r ∧
  (ob_state r = OutboxState.Ready → ob_state (restart_row w at_ id r) = OutboxState.Ready) ∧
  ob_worker (restart_row w at_ id r) =
    if (ob_call_id r ==? id) && outbox_is_unfinished r then w else ob_worker r.
Proof.
  unfold restart_row. destruct ((ob_call_id r ==? id) && outbox_is_unfinished r); [|done].
  split_and!; auto; cbn.
  - unfold outbox_is_unfinished. cbn. apply expire_claim_unfinished.
  - by intros ->.
Qed.

Lemma order_key_call r r' :
  outbox_order_key r = outbox_order_key r' →
  ob_call_id r = ob_call_id r' ∧ ob_aggregate_version r = ob_aggregate_version r' ∧
  ob_effect_id r = ob_effect_id r'.
Proof. unfold outbox_order_key. intros [=]. done. Qed.

Lemma outbox_restarted s w at_ id c :
  outbox_ok s → rm_calls s !! id = Some c → outbox_ok (restarted_state w at_ id c s).
Proof.
  intros [K C O] Hc.
  assert (Hrow : ∀ e r, rm_outbox (restarted_state w at_ id c s) !! e = Some r →
    ∃ r0, rm_outbox s !! e = Some r0 ∧ r = restart_row w at_ id r0)
    by (intros e r Hr; by apply update_where_lookup in Hr).
  split.
  - intros e r (r0 & Hr0 & ->)%Hrow. destruct (restart_row_spec w at_ id r0) as [Hk _].
    apply order_key_call in Hk as (_ & _ & ->). by apply (K e).
  - intros e r (r0 & Hr0 & ->)%Hrow.
    destruct (restart_row_spec w at_ id r0) as (Hk & Ht & Hu & _ & Hw).
    apply order_key_call in Hk as (Hid & Hv & _). rewrite Hid, Hv, Ht, Hu, Hw. cbn.
    destruct (C e r0 Hr0) as (c1 & Hc1 & Ht1 & Hv1 & Hw1).
    destruct (base.decide (ob_call_id r0 = id)) as [E|Hne].
    + exists (restarted_call w c). rewrite E, lookup_insert_eq, (bool_decide_eq_true_2 (id = id)) by done.
      rewrite E in Hc1. simplify_eq. cbn. split_and!; auto. by intros ->.
    + exists c1. rewrite lookup_insert_ne, bool_decide_eq_false_2 by done. cbn. auto.
  - intros e1 r1 e2 r2 (r1' & H1 & ->)%Hrow (r2' & H2 & ->)%Hrow.
    destruct (restart_row_spec w at_ id r1') as (Hk1 & _ & _ & Hready & _).
    destruct (restart_row_spec w at_ id r2') as (Hk2 & _ & Hu2 & _).
    unfold precedes. rewrite Hk1, Hk2, Hu2. apply order_key_call in Hk1 as (-> & _), Hk2 as (-> & _).
    intros Hcall Hp Hu. apply Hready. by apply (O e1 r1' e2 r2').
Qed.

(** What [outbox_claimable] promises about the rows before it. *)
Lemma claimable_first s r w at_ e' r' :
  outbox_claimable s r w at_ = true → rm_outbox s !! e' = Some r' →
  ob_call_id r' = ob_call_id r → precedes r' r → outbox_is_unfinished r' = false.
Proof.
  unfold outbox_claimable. destruct (_ || _); [done|]. cbv zeta. intros H%negb_true_iff Hr' Hc Hp.
  apply not_true_is_false. intros Hu. apply not_true_iff_false in H. apply H. clear H.
  apply existsb_exists. exists r'. split.
  - apply list_elem_of_In. unfold values. apply list_elem_of_fmap. exists (e', r').
    split; [done|]. by apply elem_of_map_to_list.
  - rewrite bool_decide_eq_true_2 by done. unfold precedes in Hp. by rewrite Hp, Hu.
Qed.

Section Outbox.
Context {chrono : Chrono}.

Lemma outbox_effect s s' : capacity_ok s → outbox_ok s → effect s s' → outbox_ok s'.
Proof.
  intros Hcap Hok [].
  - by apply (outbox_ok_ext s).
  - by apply (outbox_ok_ext s).
  - (* create *)
    destruct H0, H1. pose proof (decide_keeps _ _ _ kg_valid kg_decide) as (_ & Ht & _).
    eapply (outbox_batch s _ new_id (create_batch request d) (cd_effects d)); eauto; cbn; try done.
    + right. intros e r Hr E. destruct (oo_call s Hok e r Hr) as (c1 & Hc1 & _). congruence.
    + intros e r Hr E. destruct (oo_call s Hok e r Hr) as (c1 & Hc1 & _). congruence.
  - by eapply outbox_commit_written.
  - (* consume *)
    destruct H0. eapply outbox_commit_written; [| |split|done..].
    + by apply capacity_consumed.
    + eapply (outbox_put_call s _ _ c (consumed_call request c)); eauto;
        unfold consumed_call; by destruct (replaces_pending _ _).
    + apply H.
    + apply H.
  - apply ingest_frame in H as (? & ? & ->). by apply (outbox_ok_ext s).
  - apply bind_frame in H as (? & ? & ->). by apply (outbox_ok_ext s).
  - apply apply_event_ok in H1 as (? & _ & _ & ->). by apply (outbox_ok_ext s).
  - by apply (outbox_ok_ext s).
  - eapply (outbox_put s _ e record); eauto.
    + intros _. unfold outbox_is_unfinished. by destruct (ob_state record).
    + intros e' r' Hr' Hc Hp. by eapply claimable_first.
  - eapply (outbox_put s _ e record); eauto.
    + congruence.
    + intros e' r' Hr' Hc Hp. apply not_true_is_false. intros Hu.
      rewrite (oo_order s Hok e record e' r') in H0; auto. done.
  - by apply (outbox_ok_ext s).
  - by apply outbox_restarted.
Qed.

Context {libs : ServiceLibs}.

Lemma outbox_bound s s' id c binding :
  outbox_ok s → rm_calls s !! id = Some c → rm_outbox s' = rm_outbox s →
  rm_calls s' = <[id := bound_call c binding]> (rm_calls s) → outbox_ok s'.
Proof using. intros Hok Hc Eo Ec. by eapply (outbox_put_call s s' id c (bound_call c binding)). Qed.

Lemma outbox_service s s' : capacity_ok s → outbox_ok s → service_effect s s' → outbox_ok s'.
Proof using.
  intros Hcap Hok [].
  - pose proof (side_core _ _ H) as E.
    by apply (outbox_ok_ext s); [apply (f_equal rm_outbox E)|apply (f_equal rm_calls E)|].
  - by apply (outbox_ok_ext s).
  - apply (outbox_ok_ext s1); [done..|]. apply (outbox_effect s); [done..|]. by eapply eff_create.
  - destruct H. by eapply (outbox_bound s).
  - eapply (outbox_bound s1 _ (ct_call_id command) (committed_call command c d)); [|..|done|done].
    + apply (outbox_effect s); [done..|]. by eapply eff_commit.
    + rewrite (cw_calls _ _ _ _ _ _ _ H1). apply lookup_insert_eq.
Qed.

Lemma store_outbox r : store_reachable r → outbox_ok (mr_state r).
Proof using.
  apply (store_reachable_invariant outbox_ok); [apply outbox_effect|apply outbox_service|by split].
Qed.
End Outbox.

(** ** Claims *)

Lemma compare_order_keys_eq l r : compare_order_keys l r = Eq → l = r.
Proof.
  destruct l as [[[[c1 v1] m1] o1] e1], r as [[[[c2 v2] m2] o2] e2]. cbn. unfold then_. intros H.
  destruct (Z.compare_spec c1 c2); try done. destruct (N.compare_spec v1 v2); try done.
  destruct (Z.compare_spec m1 m2); try done. destruct (N.compare_spec o1 o2); try done.
  destruct (Z.compare_spec e1 e2); try done. congruence.
Qed.

Lemma compare_order_keys_antisym l r : compare_order_keys r l = CompOpp (compare_order_keys l r).
Proof.
  destruct l as [[[[c1 v1] m1] o1] e1], r as [[[[c2 v2] m2] o2] e2]. cbn.
  rewrite (Z.compare_antisym c1 c2), (N.compare_antisym v1 v2), (Z.compare_antisym m1 m2),
    (N.compare_antisym o1 o2), (Z.compare_antisym e1 e2).
  by destruct (c1 ?= c2), (v1 ?= v2)%N, (m1 ?= m2), (o1 ?= o2)%N, (e1 ?= e2).
Qed.

Lemma precedes_total r r' : ob_effect_id r ≠ ob_effect_id r' → precedes r r' ∨ precedes r' r.
Proof.
  intros Hne. unfold precedes, order_key_lt.
  rewrite (compare_order_keys_antisym (outbox_order_key r) (outbox_order_key r')).
  destruct (compare_order_keys (outbox_order_key r) (outbox_order_key r')) eqn:E; cbn; auto.
  apply compare_order_keys_eq, order_key_call in E as (_ & _ & ?). done.
Qed.

Lemma claim_outbox_loop_untouched w at_ exp limit ids s claims s' (e : EffectId) :
  e ∉ ids → claim_outbox_loop w at_ exp limit ids s = Ok (claims, s') →
  rm_outbox s' !! e = rm_outbox s !! e.
Proof.
  revert limit s claims. induction ids as [|id ids IH]; intros limit s claims Hn H; cbn in H.
  { by injection H as _ <-. }
  apply not_elem_of_cons in Hn as [Hne Hn].
  destruct limit as [|limit]; [by injection H as _ <-|].
  apply result_bind_ok in H as (r & Hr%ok_or_ok & H). destruct (negb _); [by eapply IH|].
  open_option H; [|by eapply IH]. apply result_bind_ok in H as (g & Hg & H).
  apply result_bind_ok in H as ([claimed s1] & H1 & [= _ <-]).
  rewrite (IH _ _ _ Hn H1). cbn. by rewrite lookup_insert_ne.
Qed.

(** A claimed row: what it was, what it became and the generation the claim carries. *)
Record effect_claimed (w : WorkerLease) (at_ exp : DateTime) (s s' : MemoryState)
    (claim : ClaimedOutbox) (e : EffectId) (r : OutboxRecord) : Prop := {
  ec_before : rm_outbox s !! e = Some r;
  ec_worker : ob_worker r = w;
  ec_claimable : state_is_claimable (ob_state r) at_ = true;
  ec_generation : ∃ previous, outbox_generation (ob_state r) = Some previous ∧
                              co_claim_generation claim = (previous + 1)%N;
  ec_record : co_record claim = r <| ob_state :=
                OutboxState.Claimed w (co_claim_generation claim) at_ exp |>;
  ec_after : rm_outbox s' !! e = Some (co_record claim);
}.

Lemma claim_next_ok g g' : claim_next g = Ok g' → g' = (g + 1)%N.
Proof. unfold claim_next. destruct (_ <=? _)%N; congruence. Qed.

Lemma outbox_claimable_spec s r w at_ :
  outbox_claimable s r w at_ = true →
  ob_worker r = w ∧ ob_available_at r ≤ at_ ∧ state_is_claimable (ob_state r) at_ = true ∧
  ∃ c, rm_calls s !! ob_call_id r = Some c ∧ wa_lease (sc_assignment c) = w.
Proof.
  unfold outbox_claimable. destruct (_ || _) eqn:E; [done|]. intros _.
  rewrite !orb_false_iff, !negb_false_iff in E. destruct E as [[[Hw Ha] Hs] Hc].
  bool_hyps. split_and!; auto. destruct (rm_calls s !! ob_call_id r) as [c|]; [|done].
  cbn in Hc. bool_hyps. by exists c.
Qed.

Lemma claim_outbox_loop_spec w at_ exp limit ids s claims s' :
  NoDup ids → claim_outbox_loop w at_ exp limit ids s = Ok (claims, s') →
  (length claims ≤ limit)%nat ∧
  ∀ claim, claim ∈ claims → ∃ e r, e ∈ ids ∧ effect_claimed w at_ exp s s' claim e r.
Proof.
  revert limit s claims. induction ids as [|id ids IH]; intros limit s claims Hnd H; cbn in H.
  { injection H as <- <-. split; [cbn; lia|]. by intros c ?%not_elem_of_nil. }
  apply NoDup_cons in Hnd as [Hn Hnd].
  assert (Hskip : ∀ l s0, claim_outbox_loop w at_ exp l ids s0 = Ok (claims, s') → s0 = s → l = limit →
    (length claims ≤ limit)%nat ∧
    ∀ claim, claim ∈ claims → ∃ e r, e ∈ id :: ids ∧ effect_claimed w at_ exp s s' claim e r).
  { intros l s0 H0 -> ->. apply IH in H0 as [Hlen Hc]; [|done]. split; [done|].
    intros claim (e & r & He & Hcl)%Hc. exists e, r. split; [by constructor|done]. }
  destruct limit as [|limit]; [injection H as <- <-; split; [cbn; lia|by intros c ?%not_elem_of_nil]|].
  apply result_bind_ok in H as (r & Hr%ok_or_ok & H).
  destruct (negb _) eqn:Ec; [by eapply Hskip|]. apply negb_false_iff, outbox_claimable_spec in Ec as (Hw & _ & Hst & _).
  destruct (outbox_generation (ob_state r)) as [previous|] eqn:Eg; unfold outbox_generation in Eg;
    rewrite Eg in H; [|by eapply Hskip].
  apply result_bind_ok in H as (g & Hg%claim_next_ok & H).
  apply result_bind_ok in H as ([claimed s1] & H1 & [= <- <-]).
  pose proof (claim_outbox_loop_untouched _ _ _ _ _ _ _ _ id Hn H1) as Hkeep.
  apply IH in H1 as [Hlen Hc]; [|done]. split; [cbn; lia|].
  intros claim [->|Hin]%elem_of_cons.
  - exists id, r. split; [by constructor|]. split; auto; cbn; [by exists previous|].
    rewrite Hkeep. cbn. by rewrite lookup_insert_eq.
  - apply Hc in Hin as (e & r1 & He & [B W S G R A]). exists e, r1. split; [by constructor|].
    split; auto. cbn in B. rewrite lookup_insert_ne in B; [done|]. by intros ->.
Qed.

(** ** Ordered execution *)

Lemma claim_method_ok {A} `{Chrono} r at_ ttl limit (tx : DateTime → Tx (list A)) r' out :
  claim_method r at_ ttl limit tx = (r', Ok out) →
  (r' = r ∧ out = []) ∨
  ∃ exp s', chrono_ttl at_ ttl = Ok exp ∧ tx exp (mr_state r) = Ok (out, s') ∧
            r' = r <| mr_state := s' |>.
Proof.
  unfold claim_method. destruct (chrono_ttl at_ ttl) as [exp|]; [|done].
  destruct (_ =? _)%N; [intros [= <- <-]; by left|]. unfold transaction, lock.
  destruct (mr_poisoned r); [done|]. destruct (tx exp (mr_state r)) as [[o s']|] eqn:E; [|done].
  intros [= <- <-]. right. by exists exp, s'.
Qed.

Lemma claim_outbox_spec `{Chrono, ServiceLibs} r w at_ ttl limit r' claims :
  store_reachable r → claim_outbox r w at_ ttl limit = (r', Ok claims) →
  store_reachable r' ∧ (length claims ≤ N.to_nat limit)%nat ∧
  ∃ exp, ∀ claim, claim ∈ claims →
    ∃ e record, effect_claimed w at_ exp (mr_state r) (mr_state r') claim e record.
Proof.
  intros Hr Hc. split.
  { eapply rtc_r; [exact Hr|]. replace r' with (claim_outbox r w at_ ttl limit).1 by by rewrite Hc.
    left. apply step_claim_outbox. }
  apply claim_method_ok in Hc as [[-> ->]|(exp & s' & _ & Htx & ->)].
  { split; [cbn; lia|]. exists 0. by intros c ?%not_elem_of_nil. }
  unfold claim_outbox_in_state in Htx. apply bind_unit_ok in Htx as [_ Htx]. cbv zeta in Htx.
  apply claim_outbox_loop_spec in Htx as [Hlen Hcl].
  - split; [done|]. exists exp. intros claim (e & record & _ & Hec)%Hcl. by exists e, record.
  - change (map ob_effect_id) with (fmap ob_effect_id : list OutboxRecord → list EffectId).
    rewrite (fmap_Permutation ob_effect_id _ _ (sort_by_perm _ _)).
    apply values_nodup. apply (oo_key _ (store_outbox r Hr)).
Qed.

(** C4. The effects of a call are executed one at a time and in the order of the decisions that
    produced them.  Whatever [claim_outbox] hands to a worker was ready, or held by a claim that
    has expired, and belongs to that worker; it is stored as claimed under the next claim
    generation; every earlier effect of the same call has already been finished; and no two of the
    claims of one call to [claim_outbox] belong to the same call, nor are there more than asked. *)
Theorem effects_run_in_order `{Chrono, ServiceLibs} (r r' : MemoryRepository) (w : WorkerLease) (at_ : DateTime)
    (ttl : Duration) (limit : N) (claims : list ClaimedOutbox) :
  store_reachable r → claim_outbox r w at_ ttl limit = (r', Ok claims) →
  (length claims ≤ N.to_nat limit)%nat ∧
  (∀ claim, claim ∈ claims →
     ∃ before generation exp,
       let record := co_record claim in
       rm_outbox (mr_state r) !! ob_effect_id record = Some before ∧
       outbox_order_key before = outbox_order_key record ∧
       ob_intent before = ob_intent record ∧ ob_worker record = w ∧
       state_is_claimable (ob_state before) at_ = true ∧
       outbox_generation (ob_state before) = Some generation ∧
       ob_state record = OutboxState.Claimed w (generation + 1)%N at_ exp ∧
       rm_outbox (mr_state r') !! ob_effect_id record = Some record ∧
       ∀ e earlier, rm_outbox (mr_state r') !! e = Some earlier →
         ob_call_id earlier = ob_call_id record → precedes earlier record →
         outbox_is_unfinished earlier = false) ∧
  (∀ claim claim', claim ∈ claims → claim' ∈ claims →
     ob_call_id (co_record claim) = ob_call_id (co_record claim') →
     co_record claim = co_record claim').
Proof.
  intros Hr Hc. destruct (claim_outbox_spec _ _ _ _ _ _ _ Hr Hc) as (Hr' & Hlen & exp & Hcl).
  pose proof (store_outbox r Hr) as Hok. pose proof (store_outbox r' Hr') as Hok'.
  assert (Hid : ∀ claim e record,
    effect_claimed w at_ exp (mr_state r) (mr_state r') claim e record →
    ob_effect_id (co_record claim) = e) by (intros ? ? ? []; by eapply (oo_key _ Hok')).
  assert (Hst : ∀ claim e record,
    effect_claimed w at_ exp (mr_state r) (mr_state r') claim e record →
    ob_state (co_record claim) = OutboxState.Claimed w (co_claim_generation claim) at_ exp)
    by (intros ? ? ? [? ? ? ? -> ?]; done).
  split; [done|]. split.
  - intros claim (e & before & Hec)%Hcl. pose proof (Hid _ _ _ Hec) as E. pose proof (Hst _ _ _ Hec) as Est.
    destruct Hec as [Hb Hw Hclm (g & Hg & Hgen) Hrec Ha].
    exists before, g, exp. cbv zeta. rewrite E. rewrite Hrec at 1 2 3. cbn.
    rewrite Est, Hgen. split_and!; auto.
    intros e' earlier He' Hcall Hp. apply not_true_is_false. intros Hu.
    pose proof (oo_order _ Hok' _ _ _ _ Ha He' Hcall Hp Hu). congruence.
  - intros c1 c2 (e1 & b1 & H1)%Hcl (e2 & b2 & H2)%Hcl Hcall.
    pose proof (Hid _ _ _ H1) as E1. pose proof (Hid _ _ _ H2) as E2.
    pose proof (Hst _ _ _ H1) as S1. pose proof (Hst _ _ _ H2) as S2.
    destruct H1 as [_ _ _ _ _ A1], H2 as [_ _ _ _ _ A2].
    destruct (base.decide (e1 = e2)) as [->|Hne]; [congruence|]. exfalso.
    destruct (precedes_total (co_record c1) (co_record c2)) as [Hp|Hp]; [congruence|..].
    + rewrite (oo_order _ Hok' _ _ _ _ A2 A1 Hcall Hp) in S2; [done|].
      unfold outbox_is_unfinished. by rewrite S1.
    + rewrite (oo_order _ Hok' _ _ _ _ A1 A2 (eq_sym Hcall) Hp) in S1; [done|].
      unfold outbox_is_unfinished. by rewrite S2.
Qed.

Lemma effects_run_in_order_witness :
  let claims := (@claim_outbox chrono_sample created worker_one 2 (from_secs 5) 10%N).2 in
  ∃ claim, claims = Ok [claim] ∧ ob_effect_id (co_record claim) = 100 ∧
  ∀ e earlier,
    rm_outbox (mr_state (@claim_outbox chrono_sample created worker_one 2 (from_secs 5) 10%N).1) !! e
      = Some earlier →
    ob_call_id earlier = ob_call_id (co_record claim) → precedes earlier (co_record claim) →
    outbox_is_unfinished earlier = false.
Proof.
  cbv zeta. destruct (@claim_outbox chrono_sample created worker_one 2 (from_secs 5) 10%N)
    as [r' [claims|]] eqn:E; cbn [fst snd].
  - assert (Ec : Ok claims = (@claim_outbox chrono_sample created worker_one 2 (from_secs 5) 10%N).2)
      by by rewrite E.
    vm_compute in Ec. injection Ec as ->.
    destruct (@effects_run_in_order chrono_sample libs_sample created r' worker_one 2 (from_secs 5) 10%N _
      store_created E) as (_ & Hin & _).
    eexists. split; [reflexivity|]. split; [reflexivity|].
    edestruct Hin as (? & ? & ? & Hspec); [by constructor|]. cbv zeta in Hspec.
    intros e earlier. apply Hspec.
  - assert (Ec : is_ok (@claim_outbox chrono_sample created worker_one 2 (from_secs 5) 10%N).2 = false)
      by by rewrite E.
    vm_compute in Ec. discriminate.
Defined.
