(* ===== verification/ServiceControls.v ===== *)
(** The control outbox: the controls of one binding run one at a time, in the order in which they
    were accepted. *)

From S2P Require Import Prelude RustText DomainTypes CoordModel Domain DomainInv DomainSafety.
From S2P Require Import DomainWorld DomainTrace DomainTheorems.
From S2P Require Import RepoTypes ServiceTypes RepoMemory RepoClaims PlanModel.
From S2P Require Import ServiceCommands ServiceMemory ServiceReconcile.
From S2P Require Import RepoFrame RepoCommit RepoInv ServiceSample RepoEffects ServiceEffects RepoOutbox.
From stdpp Require Import options.

Abbreviation ControlTable := (gmap EffectId ControlOutboxRecord).

(** What a row is filed under. *)
Definition control_filed (record : ControlOutboxRecord) : EffectId * BindingKey * ControlSequence :=
  (cx_effect_id record, control_key record, cx_sequence record).

(** Every control of the binding with a smaller sequence is finished. *)
Definition queue_done (cob : ControlTable) (record : ControlOutboxRecord) : Prop :=
  ∀ e earlier, cob !! e = Some earlier → control_key earlier = control_key record →
    (cx_sequence earlier < cx_sequence record)%N → control_outbox_is_unfinished earlier = false.

(** ** The invariant *)

Record controls_ok (s : MemoryState) : Prop := {
  kk_key : control_keyed (rm_control_outbox s);
  kk_managed e r : rm_control_outbox s !! e = Some r → cx_call_id r ∈ rm_service_managed_calls s;
  kk_sequence e r : rm_control_outbox s !! e = Some r →
    ∃ last, rm_control_sequences s !! control_key r = Some last ∧ (cx_sequence r ≤ last)%N;
  kk_unique e e' r r' : rm_control_outbox s !! e = Some r → rm_control_outbox s !! e' = Some r' →
    control_key r = control_key r' → cx_sequence r = cx_sequence r' → e = e';
  kk_order e r : rm_control_outbox s !! e = Some r →
    cx_state r = OutboxState.Ready ∨ queue_done (rm_control_outbox s) r;
  kk_retired e : is_Some (rm_control_retirements s !! e) →
    ∃ r, rm_control_outbox s !! e = Some r ∧ control_outbox_is_unfinished r = false;
}.

(** Rows keep what they are filed under, finished rows stay finished, and a row leaves [Ready]
    only when the queue before it is done. *)
Lemma controls_update s s' :
  controls_ok s → rm_control_sequences s' = rm_control_sequences s →
  rm_service_managed_calls s ⊆ rm_service_managed_calls s' →
  (∀ e r', rm_control_outbox s' !! e = Some r' →
     ∃ r, rm_control_outbox s !! e = Some r ∧ control_filed r' = control_filed r ∧
          (control_outbox_is_unfinished r' = true → control_outbox_is_unfinished r = true) ∧
          (cx_state r = OutboxState.Ready →
             cx_state r' = OutboxState.Ready ∨ queue_done (rm_control_outbox s') r')) →
  dom (rm_control_outbox s') = dom (rm_control_outbox s) →
  (∀ e, is_Some (rm_control_retirements s' !! e) → is_Some (rm_control_retirements s !! e) ∨
     ∃ r', rm_control_outbox s' !! e = Some r' ∧ control_outbox_is_unfinished r' = false) →
  controls_ok s'.
Proof.
  intros [K M S U O T] Es Em Hrow Hdom Hret. split.
  - intros e r' (r & Hr & [= E _ _ _ _] & _)%Hrow. rewrite E. by apply K.
  - intros e r' (r & Hr & [= _ E _ _ _] & _)%Hrow. rewrite E. apply Em. by eapply M.
  - intros e r' (r & Hr & [= _ E1 E2 E3 E4] & _)%Hrow. rewrite Es. unfold control_key.
    rewrite E1, E2, E3, E4. by eapply S.
  - intros e e' r1' r2' (r1 & H1 & [= _ A1 A2 A3 A4] & _)%Hrow (r2 & H2 & [= _ B1 B2 B3 B4] & _)%Hrow Ek Eq.
    apply (U e e' r1 r2 H1 H2); [|congruence]. unfold control_key in *. congruence.
  - intros e r' Hr'. destruct (Hrow _ _ Hr') as (r & Hr & [= _ A1 A2 A3 A4] & _ & Hst).
    destruct (O _ _ Hr) as [Hready|Hdone]; [by apply Hst|]. right.
    intros e0 r0' Hr0 Ek Hlt. apply not_true_is_false. intros Hu.
    destruct (Hrow _ _ Hr0) as (r0 & H0 & [= _ B1 B2 B3 B4] & Hun & _).
    specialize (Hun Hu). rewrite (Hdone e0 r0 H0) in Hun; [done|..].
    + unfold control_key in *. congruence.
    + by rewrite <- B4, <- A4.
  - intros e [(r & Hr & Hu)%T|?]%Hret; [|done].
    assert (is_Some (rm_control_outbox s' !! e)) as [r' Hr']
      by (apply elem_of_dom; rewrite Hdom; apply elem_of_dom; by eexists).
    exists r'. split; [done|]. destruct (Hrow _ _ Hr') as (r0 & Hr0 & _ & Hun & _). simplify_eq.
    apply not_true_is_false. intros Hc. apply Hun in Hc. congruence.
Qed.

(** Writes to the other tables. *)
Lemma controls_same s s' :
  controls_ok s → rm_control_sequences s' = rm_control_sequences s →
  rm_service_managed_calls s ⊆ rm_service_managed_calls s' →
  rm_control_outbox s' = rm_control_outbox s →
  rm_control_retirements s' = rm_control_retirements s → controls_ok s'.
Proof.
  intros Hok Es Em Ec Et. apply (controls_update s); [done..| |by rewrite Ec|rewrite Et; by left].
  intros e r Hr. rewrite Ec in Hr |- *. exists r. split_and!; [done..|by left].
Qed.

(** One row moves on. *)
Lemma controls_put s e record st :
  controls_ok s → rm_control_outbox s !! e = Some record →
  (state_is_unfinished st = true → control_outbox_is_unfinished record = true) →
  (cx_state record = OutboxState.Ready → queue_done (rm_control_outbox s) record) →
  controls_ok (s <| rm_control_outbox := <[e := record <| cx_state := st |>]> (rm_control_outbox s) |>).
Proof.
  intros Hok He Hun Hst. apply (controls_update s); [done|done|done| |cbn|by left]; cycle 1.
  { rewrite dom_insert_lookup_L; [done|by eexists]. }
  cbn.
  intros e' r' [[<- <-]|[Hne Hr']]%lookup_insert_Some; [|exists r'; split_and!; [done..|by left]].
  exists record. split_and!; [done|done|done|]. intros Hready. right.
  intros e0 r0 [[<- <-]|[_ H0]]%lookup_insert_Some Hk Hlt; [cbn in Hlt; lia|].
  by apply (Hst Hready e0).
Qed.

(** A decision that retires bindings fails every unfinished control of each of them at once. *)
Lemma controls_retired s s' id next :
  controls_ok s → rm_control_sequences s' = rm_control_sequences s →
  rm_service_managed_calls s' = rm_service_managed_calls s →
  controls_after id next (rm_control_outbox s) (rm_control_retirements s) (rm_control_outbox s')
    (rm_control_retirements s') → controls_ok s'.
Proof.
  intros Hok Es Em (Hdom & Hret & Hrec). pose proof (Hret (kk_key _ Hok)) as Ec.
  specialize (Hrec (kk_key _ Hok)).
  apply (controls_update s); [done|done|by rewrite Em| |done|]; cycle 1.
  { intros e [?|(r & Hr & Hx)]%Hrec; [by left|right]. exists (failed_control next r). split; [|done].
    rewrite Ec. unfold retired_controls. apply update_where_lookup. exists r. by rewrite Hx. }
  rewrite Ec. unfold retired_controls.
  intros e r'. rewrite update_where_lookup. intros (r & Hr & ->). exists r. split; [done|].
  destruct (control_retired id next r) eqn:Er; cbn; [|split_and!; [done..|by left]].
  split_and!; [done|done|]. intros _. right. intros e0 r0' Hr0 Hk _.
  rewrite update_where_lookup in Hr0. destruct Hr0 as (r0 & Hr0 & ->).
  apply not_true_is_false. intros Hu. destruct (control_retired id next r0) eqn:E0; [done|].
  unfold control_retired in Er, E0. injection Hk as K1 K2 K3. rewrite K1, K2, K3, Hu in E0.
  apply andb_true_iff in Er as [[E1 E2]%andb_true_iff E3]. by rewrite E1, E3 in E0.
Qed.

#[local] Arguments control_key : simpl never.
#[local] Arguments queued_effect : simpl never.

Section Controls.
Context {chrono : Chrono} {libs : ServiceLibs}.

Lemma controls_committed new_id request s c d view s' :
  controls_ok s → commit_written new_id request s c d view s' → controls_ok s'.
Proof using.
  intros Hok []. pose proof (f_equal rm_control_sequences cw_service : rm_control_sequences s' = rm_control_sequences s).
  destruct cw_frame as (_ & _ & _ & _ & _ & _ & _ & _ & Em & _).
  destruct (applies d); [by eapply controls_retired|]. destruct cw_control.
  by apply (controls_same s); [..|rewrite Em| |].
Qed.

Lemma controls_created new_id request s d k fp s' :
  controls_ok s → create_written new_id request s d k fp s' → controls_ok s'.
Proof using.
  intros Hok []. pose proof (f_equal rm_control_sequences kw_service : rm_control_sequences s' = rm_control_sequences s).
  destruct kw_frame as (_ & _ & _ & _ & _ & _ & _ & _ & Em & _ & _ & Ec & _).
  by apply (controls_same s); [..|rewrite Em| |].
Qed.

Lemma expired_claim_state at_ st :
  state_is_unfinished (expire_claim at_ st) = state_is_unfinished st ∧
  (st = OutboxState.Ready → expire_claim at_ st = OutboxState.Ready).
Proof using. unfold expire_claim. destruct st; cbn; by split. Qed.

Lemma controls_effect s s' : controls_ok s → effect s s' → controls_ok s'.
Proof using.
  intros Hok He. destruct He; try (by apply (controls_same s)).
  - by eapply controls_created.
  - by eapply controls_committed.
  - eapply (controls_committed _ _ (consumed_state request row c s)); [|done].
    by apply (controls_same s).
  - apply ingest_frame in H as (? & ? & ->). by apply (controls_same s).
  - apply bind_frame in H as (? & ? & ->). by apply (controls_same s).
  - apply apply_event_ok in H1 as (? & _ & _ & ->). by apply (controls_same s).
  - apply (controls_update s); [done..| |by apply dom_fmap_L|by left]. intros e r'. cbn. rewrite update_where_lookup.
    intros (r & Hr & ->). exists r. split; [done|]. destruct (expired_claim_state at_ (cx_state r)) as [E1 E2].
    destruct (_ && _); [|split_and!; [done..|by left]]. split_and!; [done| |].
    + unfold control_outbox_is_unfinished. cbn. by rewrite E1.
    + intros Hready. left. by apply E2.
Qed.

(** A claim is handed out only at the head of its queue. *)
Lemma control_claimable_spec s r w at_ :
  control_outbox_claimable s r w at_ = true →
  cx_worker r = w ∧ cx_available_at r ≤ at_ ∧ state_is_claimable (cx_state r) at_ = true ∧
  (∃ c, rm_calls s !! cx_call_id r = Some c ∧ wa_lease (sc_assignment c) = w ∧
        wa_released_at (sc_assignment c) = None ∧
        leg_carries (sc_aggregate c) (cx_leg_id r) (cx_binding_generation r) connected_or_held = true) ∧
  queue_done (rm_control_outbox s) r.
Proof using.
  unfold control_outbox_claimable. cbv zeta. intros [H Hq]%andb_true_iff.
  apply andb_true_iff in H as [[[Hw Ha]%andb_true_iff Hs]%andb_true_iff Hc]. bool_hyps.
  split_and!; auto.
  - destruct (rm_calls s !! cx_call_id r) as [c|]; [|done]. cbn in Hc.
    apply andb_true_iff in Hc as [[Hl Hr%is_none_true]%andb_true_iff Hg]. bool_hyps. by exists c.
  - intros e earlier He [= E1 E2 E3] Hlt. apply not_true_is_false. intros Hu.
    apply not_true_iff_false in Hq. apply Hq, existsb_exists. exists earlier. split.
    + apply list_elem_of_In, values_elem. by exists e.
    + rewrite E1, E2, E3, !bool_decide_eq_true_2, Hu by done. by apply N.ltb_lt in Hlt as ->.
Qed.

Lemma claimable_unfinished st at_ : state_is_claimable st at_ = true → state_is_unfinished st = true.
Proof using. by destruct st. Qed.

(** A fresh control comes after the controls of its binding. *)
Lemma queued_above s request e sequence e' r' :
  (∀ e r, rm_control_outbox s !! e = Some r →
     ∃ last, rm_control_sequences s !! control_key r = Some last ∧ (cx_sequence r ≤ last)%N) →
  control_guarded request e sequence s → rm_control_outbox s !! e' = Some r' →
  control_key r' = control_key (queued_effect request e sequence) → (cx_sequence r' < sequence)%N.
Proof using.
  intros S [] Hr' Ek. destruct (S _ _ Hr') as (last & Hl & Hle). rewrite Ek in Hl.
  destruct (rm_control_sequences s !! _) as [previous|] in qg_sequence, Hl; [|done]. injection Hl as ->.
  unfold ControlSequence_next in qg_sequence. destruct (_ <=? _)%N; [done|]. injection qg_sequence as <-. lia.
Qed.

Lemma controls_queued s request e sequence :
  controls_ok s → control_guarded request e sequence s → controls_ok (queued_state request e sequence s).
Proof using.
  intros [K M S U O T] G. pose proof (λ e' r', queued_above s request e sequence e' r' S G) as Hnew.
  destruct G, qg_fresh as [_ Hn]. split; cbn.
  - intros e' r' [[<- <-]|[_ Hr']]%lookup_insert_Some; [done|by apply K].
  - intros e' r' [[<- <-]|[_ Hr']]%lookup_insert_Some; [done|by eapply M].
  - intros e' r' [[<- <-]|[_ Hr']]%lookup_insert_Some.
    + exists sequence. split; [apply lookup_insert_eq|done].
    + destruct (base.decide (control_key (queued_effect request e sequence) = control_key r')) as [E|Hne].
      * exists sequence. rewrite E, lookup_insert_eq. split; [done|]. symmetry in E.
        pose proof (Hnew _ _ Hr' E). lia.
      * rewrite lookup_insert_ne by done. by eapply S.
  - intros e1 e2 r1 r2 [[<- <-]|[_ H1]]%lookup_insert_Some [[<- <-]|[_ H2]]%lookup_insert_Some Ek Eq; [done|..].
    + pose proof (Hnew _ _ H2 (eq_sym Ek)). cbn in Eq; unfold queued_effect in *; cbn in *; lia.
    + pose proof (Hnew _ _ H1 Ek). cbn in Eq; unfold queued_effect in *; cbn in *; lia.
    + by eapply U.
  - intros e' r' [[<- <-]|[_ Hr']]%lookup_insert_Some; [by left|].
    destruct (O _ _ Hr') as [?|Hdone]; [by left|]. right.
    intros e0 r0 [[<- <-]|[_ H0]]%lookup_insert_Some Ek Hlt; [|by eapply Hdone].
    pose proof (Hnew _ _ Hr' (eq_sym Ek)). unfold queued_effect in Hlt; cbn in Hlt; lia.
  - intros e' (r & Hr & Hu)%T. exists r. split; [|done]. rewrite lookup_insert_ne; [done|congruence].
Qed.

Lemma controls_side s s' : controls_ok s → side_rows s s' → controls_ok s'.
Proof using.
  intros Hok [].
  - by apply (controls_same s).
  - by apply controls_queued.
  - apply control_claimable_spec in H0 as (_ & _ & Hst & _ & Hq).
    apply controls_put; [done|done| |done]. intros _. by eapply claimable_unfinished.
  - apply controls_put; [done|done|congruence|]. intros Hr. rewrite Hr in H0. done.
  - by apply (controls_same s).
  - by apply (controls_same s).
  - by apply (controls_same s).
Qed.

Lemma controls_service s s' : controls_ok s → service_effect s s' → controls_ok s'.
Proof using.
  intros Hok [].
  - by eapply controls_side.
  - by apply (controls_same s).
  - pose proof (controls_created _ _ _ _ _ _ _ Hok H1) as Hok1.
    destruct H1, kw_frame as (_ & _ & _ & _ & _ & _ & _ & _ & Em & _).
    apply (controls_same s1); [done|done| |done|done]. rewrite Em. cbn. set_solver.
  - by apply (controls_same s).
  - apply (controls_same s1); [by eapply controls_committed|done..].
Qed.

Lemma store_controls r : store_reachable r → controls_ok (mr_state r).
Proof using.
  apply (store_reachable_invariant controls_ok); [..|split; try done; by intros e [? ?]]; intros s s' _ Hok;
    [by apply controls_effect|by apply controls_service].
Qed.
End Controls.

(** ** Claims *)

(** A claimed control: what it was, what it became and the generation the claim carries. *)
Record control_claimed (w : WorkerLease) (at_ exp : DateTime) (s s' : MemoryState)
    (claim : ClaimedControlEffect) (e : EffectId) (r : ControlOutboxRecord) : Prop := {
  nc_before : rm_control_outbox s !! e = Some r;
  nc_claimable : control_outbox_claimable s r w at_ = true;
  nc_generation : ∃ previous, outbox_generation (cx_state r) = Some previous ∧
                              ce_claim_generation claim = (previous + 1)%N;
  nc_record : ce_record claim = r <| cx_state :=
                OutboxState.Claimed w (ce_claim_generation claim) at_ exp |>;
  nc_after : rm_control_outbox s' !! e = Some (ce_record claim);
}.

Lemma claim_control_untouched w at_ exp ids s claims s' (e : EffectId) :
  e ∉ ids → claim_control_loop w at_ exp ids s = Ok (claims, s') →
  rm_control_outbox s' !! e = rm_control_outbox s !! e.
Proof.
  revert s claims. induction ids as [|id ids IH]; intros s claims Hn H; cbn in H.
  { by injection H as _ <-. }
  apply not_elem_of_cons in Hn as [Hne Hn].
  apply result_bind_ok in H as (r & Hr%ok_or_ok & H). destruct (negb _); [by eapply IH|].
  open_option H; [|by eapply IH]. apply result_bind_ok in H as (g & Hg & H).
  apply result_bind_ok in H as ([claimed s1] & H1 & [= _ <-]).
  rewrite (IH _ _ Hn H1). cbn. by rewrite lookup_insert_ne.
Qed.

(** A claim elsewhere does not make a control claimable. *)
Lemma control_claimable_put s e record st r w at_ :
  rm_control_outbox s !! e = Some record →
  state_is_unfinished st = true →
  control_outbox_claimable
    (s <| rm_control_outbox := <[e := record <| cx_state := st |>]> (rm_control_outbox s) |>) r w at_
    = true →
  control_outbox_claimable s r w at_ = true.
Proof.
  intros He Hst H. pose proof (control_claimable_spec _ _ _ _ H) as (_ & _ & _ & _ & Hq).
  unfold control_outbox_claimable in *. cbv zeta in *. apply andb_true_iff in H as [H _].
  apply andb_true_iff. split; [exact H|]. apply negb_true_iff, not_true_iff_false. intros Hex.
  apply existsb_exists in Hex as (p & Hp%list_elem_of_In%values_elem & Hpred). destruct Hp as [e' Hp].
  apply andb_true_iff in Hpred as [[[[E1 E2]%andb_true_iff E3]%andb_true_iff E4]%andb_true_iff Hu].
  bool_hyps.
  destruct (base.decide (e = e')) as [<-|Hne].
  - assert (p = record) as -> by congruence.
    assert (Hf : control_outbox_is_unfinished (record <| cx_state := st |>) = false).
    { apply (Hq e); [apply lookup_insert_eq| |exact E4]. unfold control_key. cbn. congruence. }
    unfold control_outbox_is_unfinished in Hf. cbn in Hf. congruence.
  - rewrite (Hq e' p) in Hu; [done| | |exact E4].
    + cbn. by rewrite lookup_insert_ne.
    + unfold control_key. congruence.
Qed.

Lemma claim_control_loop_spec w at_ exp ids s claims s' :
  NoDup ids → claim_control_loop w at_ exp ids s = Ok (claims, s') →
  (length claims ≤ length ids)%nat ∧
  ∀ claim, claim ∈ claims → ∃ e r, e ∈ ids ∧ control_claimed w at_ exp s s' claim e r.
Proof.
  revert s claims. induction ids as [|id ids IH]; intros s claims Hnd H; cbn in H.
  { injection H as <- <-. split; [cbn; lia|]. by intros c ?%not_elem_of_nil. }
  apply NoDup_cons in Hnd as [Hn Hnd].
  assert (Hskip : claim_control_loop w at_ exp ids s = Ok (claims, s') →
    (length claims ≤ length (id :: ids))%nat ∧
    ∀ claim, claim ∈ claims → ∃ e r, e ∈ id :: ids ∧ control_claimed w at_ exp s s' claim e r).
  { intros H0. apply IH in H0 as [Hlen Hc]; [|done]. split; [cbn; lia|].
    intros claim (e & r & He & Hcl)%Hc. exists e, r. split; [by constructor|done]. }
  apply result_bind_ok in H as (r & Hr%ok_or_ok & H).
  destruct (negb _) eqn:Ec; [by apply Hskip|]. apply negb_false_iff in Ec.
  destruct (outbox_generation (cx_state r)) as [previous|] eqn:Eg; unfold outbox_generation in Eg;
    rewrite Eg in H; [|by apply Hskip].
  apply result_bind_ok in H as (g & Hg%claim_next_ok & H).
  apply result_bind_ok in H as ([claimed s1] & H1 & [= <- <-]).
  pose proof (claim_control_untouched _ _ _ _ _ _ _ id Hn H1) as Hkeep.
  pose proof (control_claimable_spec _ _ _ _ Ec) as (_ & _ & Hst & _).
  apply IH in H1 as [Hlen Hc]; [|done]. split; [cbn; lia|].
  intros claim [->|Hin]%elem_of_cons.
  - exists id, r. split; [by constructor|]. split; auto; cbn; [by exists previous|].
    rewrite Hkeep. cbn. by rewrite lookup_insert_eq.
  - apply Hc in Hin as (e & r1 & He & [B W G R A]). exists e, r1. split; [by constructor|].
    split; auto.
    + cbn in B. rewrite lookup_insert_ne in B; [done|]. by intros ->.
    + by apply (control_claimable_put _ _ _ _ _ _ _ Hr) in W.
Qed.

Lemma claim_control_spec `{Chrono, ServiceLibs} r w at_ ttl limit r' claims :
  store_reachable r → claim_control_effects r w at_ ttl limit = (r', Ok claims) →
  store_reachable r' ∧ (length claims ≤ N.to_nat limit)%nat ∧
  ∃ exp, ∀ claim, claim ∈ claims →
    ∃ e record, control_claimed w at_ exp (mr_state r) (mr_state r') claim e record.
Proof.
  intros Hr Hc. split.
  { eapply rtc_r; [exact Hr|]. replace r' with (claim_control_effects r w at_ ttl limit).1 by by rewrite Hc.
    right. apply step_claim_control. }
  apply claim_method_ok in Hc as [[-> ->]|(exp & s' & _ & Htx & ->)].
  { split; [cbn; lia|]. exists 0. by intros c ?%not_elem_of_nil. }
  unfold claim_control_effects_in_state in Htx. apply bind_unit_ok in Htx as [_ Htx]. cbv zeta in Htx.
  apply claim_control_loop_spec in Htx as [Hlen Hcl].
  - split; [rewrite length_map, length_take in Hlen; lia|].
    exists exp. intros claim (e & record & _ & Hec)%Hcl. by exists e, record.
  - change (map cx_effect_id) with (fmap cx_effect_id : list ControlOutboxRecord → list EffectId).
    rewrite fmap_take. apply (sublist_NoDup _ (cx_effect_id <$> sort_by compare_controls
      (List.filter (λ record, control_outbox_claimable (mr_state r) record w at_)
         (values (rm_control_outbox (mr_state r)))))); [|apply sublist_take].
    rewrite (fmap_Permutation cx_effect_id _ _ (sort_by_perm _ _)).
    apply values_nodup. apply (kk_key _ (store_controls r Hr)).
Qed.

(** C22. The controls of one binding run one at a time, in the order in which they were accepted,
    and only on the connection they were accepted for.  An accepted control gets a sequence above
    every control of its binding.  Whatever [claim_control_effects] hands to a worker belongs to
    it, was ready or held by an expired claim, targets a leg that is still connected or held in
    the same binding generation of a call assigned to that worker, is stored as claimed under the
    next claim generation, and every control of its binding with a smaller sequence is finished;
    no two of the claims belong to one binding, nor are there more than asked. *)
Theorem controls_run_in_order `{Chrono, ServiceLibs} (r : MemoryRepository) :
  store_reachable r →
  (∀ new_id request r' view,
     enqueue_control new_id r request = (r', Ok (ControlCommandOutcome.Enqueued view)) →
     rm_control_outbox (mr_state r') !! cx_effect_id (nv_effect view) = Some (nv_effect view) ∧
     ∀ e earlier, rm_control_outbox (mr_state r) !! e = Some earlier →
       control_key earlier = control_key (nv_effect view) →
       (cx_sequence earlier < cx_sequence (nv_effect view))%N) ∧
  (∀ w at_ ttl limit r' claims,
     claim_control_effects r w at_ ttl limit = (r', Ok claims) →
     (length claims ≤ N.to_nat limit)%nat ∧
     (∀ claim, claim ∈ claims →
        ∃ before c generation exp,
          let record := ce_record claim in
          rm_control_outbox (mr_state r) !! cx_effect_id record = Some before ∧
          control_filed before = control_filed record ∧ cx_intent before = cx_intent record ∧
          cx_worker record = w ∧ state_is_claimable (cx_state before) at_ = true ∧
          outbox_generation (cx_state before) = Some generation ∧
          cx_state record = OutboxState.Claimed w (generation + 1)%N at_ exp ∧
          rm_control_outbox (mr_state r') !! cx_effect_id record = Some record ∧
          rm_calls (mr_state r) !! cx_call_id record = Some c ∧
          wa_lease (sc_assignment c) = w ∧ wa_released_at (sc_assignment c) = None ∧
          leg_carries (sc_aggregate c) (cx_leg_id record) (cx_binding_generation record)
            connected_or_held = true ∧
          queue_done (rm_control_outbox (mr_state r')) record) ∧
     (∀ claim claim', claim ∈ claims → claim' ∈ claims →
        control_key (ce_record claim) = control_key (ce_record claim') →
        ce_record claim = ce_record claim')).
Proof.
  intros Hr. pose proof (store_controls r Hr) as Hok. split.
  - intros new_id request r' view Hq. unfold enqueue_control in Hq. destruct (_;; _); [|done].
    unfold transaction, lock in Hq. destruct (mr_poisoned r); [done|].
    destruct (enqueue_control_in_state _ _ _) as [[o s']|] eqn:E; [|done]. injection Hq as <- ->.
    apply enqueue_control_effects in E
      as [_ [(? & ?)|(q & s1 & [= ->] & _ & G & Ec & Es & i & ->)]]; [done|].
    split; [apply lookup_insert_eq|]. intros e earlier He Hk.
    apply (queued_above s1 request (new_id 0%nat) q e); [|done|by rewrite Ec|done].
    intros e' r0 Hr0. rewrite Ec in Hr0. rewrite Es. by eapply (kk_sequence _ Hok).
  - intros w at_ ttl limit r' claims Hc.
    destruct (claim_control_spec _ _ _ _ _ _ _ Hr Hc) as (Hr' & Hlen & exp & Hcl).
    pose proof (store_controls r' Hr') as Hok'.
    assert (Hid : ∀ claim e record,
      control_claimed w at_ exp (mr_state r) (mr_state r') claim e record →
      cx_effect_id (ce_record claim) = e) by (intros ? ? ? []; by eapply (kk_key _ Hok')).
    assert (Hdone : ∀ claim e record,
      control_claimed w at_ exp (mr_state r) (mr_state r') claim e record →
      queue_done (rm_control_outbox (mr_state r')) (ce_record claim)).
    { intros claim e record [_ _ _ Hrec Ha]. destruct (kk_order _ Hok' _ _ Ha) as [Hready|]; [|done].
      by rewrite Hrec in Hready. }
    split; [done|]. split.
    + intros claim (e & before & Hec)%Hcl. pose proof (Hid _ _ _ Hec) as E. pose proof (Hdone _ _ _ Hec) as Hd.
      destruct Hec as [Hb Hclm (g & Hg & Hgen) Hrec Ha].
      apply control_claimable_spec in Hclm as (Hw & _ & Hst & (c & Hcall & Hl & Hrel & Hleg) & _).
      exists before, c, g, exp. cbv zeta. rewrite E. rewrite Hgen in Hrec.
      split_and!; try done; by rewrite Hrec.
    + intros c1 c2 (e1 & b1 & H1)%Hcl (e2 & b2 & H2)%Hcl Hk.
      pose proof (Hdone _ _ _ H1) as D1. pose proof (Hdone _ _ _ H2) as D2.
      destruct H1 as [_ _ _ R1 A1], H2 as [_ _ _ R2 A2].
      destruct (N.lt_trichotomy (cx_sequence (ce_record c1)) (cx_sequence (ce_record c2))) as [Hlt|[Heq|Hgt]].
      * pose proof (D2 _ _ A1 Hk Hlt) as Hf. by rewrite R1 in Hf.
      * assert (e1 = e2) as -> by by eapply (kk_unique _ Hok'). congruence.
      * pose proof (D1 _ _ A2 (eq_sym Hk) Hgt) as Hf. by rewrite R2 in Hf.
Qed.

(** Two digits are queued on one binding of the sample run; the first is handed out. *)
Lemma controls_run_in_order_witness :
  ∃ claim, (@claim_control_effects chrono_sample two_digits worker_one 10 (from_secs 5) 10%N).2 = Ok [claim] ∧
    cx_effect_id (ce_record claim) = 600 ∧ cx_sequence (ce_record claim) = 1%N ∧
    queue_done (rm_control_outbox (mr_state
      (@claim_control_effects chrono_sample two_digits worker_one 10 (from_secs 5) 10%N).1)) (ce_record claim).
Proof.
  pose proof (@controls_run_in_order chrono_sample libs_sample two_digits store_two_digits) as [_ Hclaim].
  destruct (@claim_control_effects chrono_sample two_digits worker_one 10 (from_secs 5) 10%N)
    as [r' [claims|]] eqn:E; cbn [fst snd].
  - destruct (Hclaim _ _ _ _ _ _ E) as (_ & Hin & _).
    assert (Ec : Ok claims = (@claim_control_effects chrono_sample two_digits worker_one 10 (from_secs 5) 10%N).2)
      by by rewrite E.
    vm_compute in Ec. injection Ec as ->.
    eexists. split; [reflexivity|]. split; [reflexivity|]. split; [reflexivity|].
    edestruct Hin as (? & ? & ? & ? & Hspec); [by constructor|]. cbv zeta in Hspec. apply Hspec.
  - assert (Ec : is_ok (@claim_control_effects chrono_sample two_digits worker_one 10 (from_secs 5) 10%N).2 = false)
      by by rewrite E.
    vm_compute in Ec. discriminate.
Defined.
