(* ===== verification/RepoTheorems.v ===== *)
(** What the standalone call repository promises its callers about capacity and replays. *)

From S2P Require Import Prelude RustText DomainTypes Domain DomainInv DomainSafety DomainWorld.
From S2P Require Import DomainTrace DomainTheorems CoordModel RepoTypes ServiceTypes PlanModel.
From S2P Require Import RepoMemory RepoClaims ServiceCommands RepoFrame RepoCommit RepoInv.
From S2P Require Import RepoEffects ServiceEffects ServiceSample.
From stdpp Require Import options.

(** ** Capacity *)

Lemma load_pos w id c calls :
  calls !! id = Some c → assigned w c = true → (0 < load w calls)%nat.
Proof.
  intros Hc Ha. unfold load.
  assert (size (filter (λ kv, assigned w kv.2 = true) calls) ≠ 0%nat); [|lia].
  intros E%map_size_empty_iff. 
  assert (filter (λ kv, assigned w kv.2 = true) calls !! id = Some c) as Hf
    by by apply map_lookup_filter_Some.
  by rewrite E in Hf.
Qed.

(** C18. Capacity is never oversold and never leaks.  In every repository that any sequence of calls
    to the methods of both repositories leads to, the number of calls a worker has reserved is exactly the number of stored calls that are assigned to it and
    not released, and is at most the worker's maximum; a call holds capacity of a registered
    worker exactly until it is over, and as long as it does the worker's reservation is positive,
    so that releasing it cannot underflow. *)
Theorem capacity_is_never_exceeded `{Chrono, ServiceLibs} (r : MemoryRepository) :
  store_reachable r →
  (∀ w k, rm_workers (mr_state r) !! w = Some k →
     wk_reserved_calls k = N.of_nat (load w (rm_calls (mr_state r))) ∧
     (wk_reserved_calls k ≤ wk_max_calls k)%N) ∧
  (∀ id c, rm_calls (mr_state r) !! id = Some c →
     is_some (wa_released_at (sc_assignment c)) = call_is_terminal (ca_state (sc_aggregate c)) ∧
     ∃ k, rm_workers (mr_state r) !! wl_worker_id (wa_lease (sc_assignment c)) = Some k ∧
          (wl_fence (wa_lease (sc_assignment c)) ≤ wl_fence (wk_lease k))%N ∧
          (call_is_terminal (ca_state (sc_aggregate c)) = false → wk_reserved_calls k ≠ 0%N)).
Proof.
  intros [Hw Hc]%store_capacity. split.
  - intros w k Hk. destruct (Hw w k Hk). by split.
  - intros id c Hcall. destruct (Hc id c Hcall) as [_ _ Hrel (k & Hk & Hf)]. split; [done|].
    exists k. split_and!; [done..|]. intros Ht. destruct (Hw _ k Hk) as [_ Hl _]. rewrite Hl.
    pose proof (load_pos (wl_worker_id (wa_lease (sc_assignment c))) id c _ Hcall) as Hp.
    rewrite Ht in Hrel. unfold assigned in Hp. rewrite bool_decide_eq_true_2 in Hp by done.
    destruct (wa_released_at _); [done|]. specialize (Hp eq_refl). lia.
Qed.

Lemma capacity_is_never_exceeded_witness :
  ∃ k, rm_workers (mr_state answered) !! (7 : WorkerId) = Some k ∧ wk_reserved_calls k = 1%N ∧
       load 7 (rm_calls (mr_state answered)) = 1%nat.
Proof.
  pose proof (@capacity_is_never_exceeded chrono_sample libs_sample answered store_answered) as [Hw _].
  destruct (rm_workers (mr_state answered) !! (7 : WorkerId)) as [k|] eqn:E.
  - exists k. destruct (Hw _ _ E) as [Hl _]. split; [done|].
    assert (Hk : option_map wk_reserved_calls (rm_workers (mr_state answered) !! (7 : WorkerId))
      = Some 1%N) by (vm_compute; reflexivity).
    rewrite E in Hk. injection Hk as Hk. rewrite Hk in Hl |- *. split; [done|]. lia.
  - vm_compute in E. discriminate.
Defined.

(** Replays of the store: a command or a creation that is sent again returns what it returned and
    writes nothing. *)

(** ** What every run retains *)

(** The same call, possibly moved on: the same tenant, and the same worker under a fence that has
    not moved back. *)
Record same_call (c c' : StoredCall) : Prop := {
  sk_tenant : ca_tenant_id (sc_aggregate c') = ca_tenant_id (sc_aggregate c);
  sk_worker : wl_worker_id (wa_lease (sc_assignment c')) = wl_worker_id (wa_lease (sc_assignment c));
  sk_fence : (wl_fence (wa_lease (sc_assignment c)) ≤ wl_fence (wa_lease (sc_assignment c')))%N;
}.

#[export] Instance same_call_preorder : PreOrder same_call.
Proof.
  split; [done|]. intros c c' c'' [] []. split; [congruence..|lia].
Qed.

Record retains (s s' : MemoryState) : Prop := {
  rt_commands id m : rm_commands s !! id = Some m →
    rm_commands s' !! id = Some m ∧ rm_command_results s' !! id = rm_command_results s !! id;
  rt_calls id c : rm_calls s !! id = Some c → ∃ c', rm_calls s' !! id = Some c' ∧ same_call c c';
  rt_conflicts id m : rm_commands s !! id = Some m →
    command_id_conflicts_with_service_namespace s' id
      = command_id_conflicts_with_service_namespace s id;
  rt_managed id c : rm_calls s !! id = Some c →
    id ∈ rm_service_managed_calls s' ↔ id ∈ rm_service_managed_calls s;
}.

#[export] Instance retains_preorder : PreOrder retains.
Proof.
  split; [intros s; split; eauto; intros; by eexists|].
  intros s s' s'' [C1 K1 N1 M1] [C2 K2 N2 M2]. split.
  - intros id m (H1 & E1)%C1. destruct (C2 _ _ H1) as [H2 E2]. split; [done|congruence].
  - intros id c (c1 & H1 & E1)%K1. destruct (K2 _ _ H1) as (c2 & H2 & E2). exists c2.
    split; [done|by etrans].
  - intros id m Hm. destruct (C1 _ _ Hm) as [H1 _]. rewrite (N2 _ _ H1). by eapply N1.
  - intros id c Hc. destruct (K1 _ _ Hc) as (c1 & H1 & _). rewrite (M2 _ _ H1). by eapply M1.
Qed.

(** The tables of the service that decide what the call repository may answer. *)
Definition same_service (s s' : MemoryState) : Prop :=
  rm_control_commands s' = rm_control_commands s ∧
  rm_outbound_binding_results s' = rm_outbound_binding_results s ∧
  rm_service_managed_calls s' = rm_service_managed_calls s.

(** The calls keep being the same calls. *)
Definition calls_kept (s s' : MemoryState) : Prop :=
  ∀ id c, rm_calls s !! id = Some c → ∃ c', rm_calls s' !! id = Some c' ∧ same_call c c'.

Lemma calls_kept_eq s s' : rm_calls s' = rm_calls s → calls_kept s s'.
Proof. intros E id c Hc. rewrite E. by exists c. Qed.

Lemma calls_kept_insert s s' (call_id : CallId) c' :
  rm_calls s' = <[call_id := c']> (rm_calls s) →
  (∀ c, rm_calls s !! call_id = Some c → same_call c c') → calls_kept s s'.
Proof.
  intros E Hk id c Hc. rewrite E. destruct (base.decide (id = call_id)) as [->|].
  - rewrite lookup_insert_eq. eauto.
  - rewrite lookup_insert_ne by done. by exists c.
Qed.

(** Writes to the other tables. *)
Lemma retains_ext s s' :
  rm_commands s' = rm_commands s → rm_command_results s' = rm_command_results s →
  calls_kept s s' → same_service s s' → retains s s'.
Proof.
  intros Ec Er Hk (E1 & E2 & E3). split; [by rewrite Ec, Er|exact Hk| |].
  - intros. unfold command_id_conflicts_with_service_namespace. by rewrite E1, E2.
  - intros. by rewrite E3.
Qed.

(** One more command, recorded with its result. *)
Lemma retains_recorded s s' id m view :
  rm_commands s !! id = None → rm_commands s' = <[id := m]> (rm_commands s) →
  rm_command_results s' = <[id := view]> (rm_command_results s) →
  calls_kept s s' → same_service s s' → retains s s'.
Proof.
  intros Hn Ec Er Hk Hs. assert (R : retains s (s' <| rm_commands := rm_commands s |>
    <| rm_command_results := rm_command_results s |>)) by by apply retains_ext.
  destruct R as [_ _ N M]. split; [|exact Hk|exact N|exact M].
  intros id' m' Hm. rewrite Ec, Er. by rewrite !lookup_insert_ne by congruence.
Qed.

Lemma committed_same_call request c d :
  ca_tenant_id (cd_aggregate d) = ca_tenant_id (sc_aggregate c) →
  same_call c (committed_call request c d).
Proof. intros Ht. unfold committed_call. destruct (terminates d); by split. Qed.

Lemma retains_commit_written new_id request s c d view s' :
  valid_call (sc_aggregate c) → commit_guarded request s c d →
  commit_written new_id request s c d view s' → retains s s'.
Proof.
  intros Hv [] []. destruct (decide_keeps _ _ _ Hv cg_decide) as (_ & Ht & _).
  destruct cw_frame as (_ & _ & _ & _ & _ & _ & _ & _ & ? & _ & ? & ?).
  eapply retains_recorded; [done..| |by split].
  eapply calls_kept_insert; [done|]. intros c0 Hc0. simplify_eq. by apply committed_same_call.
Qed.

Section Retention.
Context {chrono : Chrono} {libs : ServiceLibs}.

Lemma retains_created new_id request s d k fingerprint s' :
  create_guarded request s d k fingerprint → create_written new_id request s d k fingerprint s' →
  retains s s'.
Proof using.
  intros [] []. destruct kw_frame as (_ & _ & _ & _ & _ & _ & _ & _ & ? & _ & ? & _ & ?).
  eapply retains_recorded; [done..| |by split]. eapply calls_kept_insert; [done|].
  intros c Hc. congruence.
Qed.

Lemma retains_effect s s' : capacity_ok s → effect s s' → retains s s'.
Proof using.
  intros Hok []; try (by apply retains_ext; [..|apply calls_kept_eq|]).
  - by eapply retains_created.
  - eapply retains_commit_written; eauto. apply (ko_valid _ _ _ (cy_calls s Hok _ _ (cg_call _ _ _ _ H0))).
  - trans (consumed_state request row c s).
    + assert (Hsame : same_call c (consumed_call request c))
        by (unfold consumed_call; by destruct (replaces_pending _ _)).
      destruct H0. apply retains_ext; [done..| |done]. eapply calls_kept_insert; [done|].
      intros c' Hc'. by simplify_eq.
    + eapply retains_commit_written; eauto.
      assert (valid_call (sc_aggregate c)) by apply (ko_valid _ _ _ (cy_calls s Hok _ _ (ng_call _ _ _ _ H0))).
      unfold consumed_call. by destruct (replaces_pending _ _).
  - apply ingest_frame in H as (? & ? & ->). by apply retains_ext; [..|apply calls_kept_eq|].
  - apply bind_frame in H as (? & ? & ->). by apply retains_ext; [..|apply calls_kept_eq|].
  - apply apply_event_ok in H1 as (? & _ & _ & ->). by apply retains_ext; [..|apply calls_kept_eq|].
  - destruct (cy_calls s Hok _ _ H) as [_ _ _ (k' & Hk' & Hf)]. apply retains_ext; [done..| |done].
    eapply calls_kept_insert; [done|]. intros c' Hc'. simplify_eq. split; [done|done|].
    cbn. rewrite H2 in Hk'. by simplify_eq.
Qed.

(** A service identifier that is not a command id is taken. *)
Lemma conflicts_other s s' (id : CommandId) :
  rm_commands s !! id = None →
  (∀ id', id' ≠ id → command_id_conflicts_with_service_namespace s' id'
                     = command_id_conflicts_with_service_namespace s id') →
  ∀ id' m, rm_commands s !! id' = Some m →
    command_id_conflicts_with_service_namespace s' id' = command_id_conflicts_with_service_namespace s id'.
Proof using. intros Hn He id' m Hm. apply He. intros ->. congruence. Qed.

Lemma contains_key_insert_ne {V} (m : gmap CommandId V) i j v :
  j ≠ i → contains_key (<[i := v]> m) j = contains_key m j.
Proof using. intros Hne. unfold contains_key. by rewrite lookup_insert_ne. Qed.

Lemma retains_side s s' : side_rows s s' → retains s s'.
Proof using.
  intros []; try (by apply retains_ext; [..|apply calls_kept_eq|]).
  split; [done|by apply calls_kept_eq| |done]. apply (conflicts_other _ _ (nt_command_id request)); [apply H|].
  intros id' Hne. unfold command_id_conflicts_with_service_namespace. cbn. by rewrite contains_key_insert_ne.
Qed.

Lemma retains_service s s' : capacity_ok s → service_effect s s' → retains s s'.
Proof using.
  intros Hok [].
  - by apply retains_side.
  - by apply retains_ext; [..|apply calls_kept_eq|].
  - destruct (retains_created _ _ _ _ _ _ _ H0 H1) as [C K N M]. split; [exact C|exact K|exact N|].
    intros id' c Hc. rewrite <- (M _ _ Hc). cbn.
    destruct H1. destruct kw_frame as (_ & _ & _ & _ & _ & _ & _ & _ & -> & _).
    assert (id' ≠ id) by (intros ->; pose proof (kg_call _ _ _ _ _ H0); unfold id in *; congruence). set_solver.
  - destruct H. split; [done| | |done].
    + eapply calls_kept_insert; [done|]. intros c' Hc'. by simplify_eq.
    + apply (conflicts_other _ _ (on_operation_id request)); [done|].
      intros id' Hne. unfold command_id_conflicts_with_service_namespace. cbn. by rewrite contains_key_insert_ne.
  - pose proof (ko_valid _ _ _ (cy_calls s Hok _ _ (cg_call _ _ _ _ H0))) as Hv.
    destruct (decide_keeps _ _ _ Hv (cg_decide _ _ _ _ H0)) as (_ & Ht & _).
    pose proof (cg_call _ _ _ _ H0) as Hc. pose proof (cg_fresh _ _ _ _ H0) as Hn.
    destruct H1, cw_frame as (_ & _ & _ & _ & _ & _ & _ & _ & ? & _ & ? & ?).
    eapply (retains_recorded _ _ (ct_command_id command) (commit_receipt command c d)); [done|done|cbn; by rewrite cw_results, insert_insert_eq| |by split].
    eapply (calls_kept_insert _ _ (ct_call_id command)); [cbn; by rewrite cw_calls, insert_insert_eq|].
    intros c' Hc'. simplify_eq. pose proof (committed_same_call command c d Ht) as []. by split.
Qed.

Lemma retains_run r r' :
  rtc store_step r r' → capacity_ok (mr_state r) → retains (mr_state r) (mr_state r').
Proof using.
  intros Hr Hok. apply (store_invariant (retains (mr_state r)) r r'); [..|done|done|done].
  - intros s s' Hs H0 He. etrans; [exact H0|]. by apply retains_effect.
  - intros s s' Hs H0 He. etrans; [exact H0|]. by apply retains_service.
Qed.

(** A lease that is still current is the one the call is assigned under. *)
Lemma current_lease_is_assigned s c c' id w at_ :
  capacity_ok s → rm_calls s !! id = Some c' → same_call c c' → wa_lease (sc_assignment c) = w →
  current_lease s w at_ → wa_lease (sc_assignment c') = w.
Proof using.
  intros Hok Hc' [_ Hwk Hf] <- (k & Hk & Hl & _).
  destruct (ko_worker _ _ _ (cy_calls s Hok _ _ Hc')) as (k' & Hk' & Hf').
  rewrite Hwk in Hk'. simplify_eq.
  destruct (wa_lease (sc_assignment c)) as [w1 f1], (wa_lease (sc_assignment c')) as [w2 f2].
  rewrite Hl in Hf'. cbn in *. subst. f_equal. lia.
Qed.
End Retention.

(** ** Command replay *)

Lemma transaction_ok {A} r (tx : Tx A) r' a :
  transaction r tx = (r', Ok a) ↔
  mr_poisoned r = false ∧ ∃ s', tx (mr_state r) = Ok (a, s') ∧ r' = r <| mr_state := s' |>.
Proof.
  unfold transaction, lock. destruct (mr_poisoned r); [naive_solver|].
  destruct (tx (mr_state r)) as [[a' s']|]; naive_solver.
Qed.

Lemma same_repository r : r <| mr_state := mr_state r |> = r.
Proof. by destruct r. Qed.

(** A transaction that does not succeed changes nothing. *)
Lemma transaction_err {A} r (tx : Tx A) e :
  mr_poisoned r = false → tx (mr_state r) = Err e → transaction r tx = (r, Err e).
Proof. unfold transaction, lock. by intros -> ->. Qed.

(** A recorded command answers a request with the same id with its recorded view, or not at all. *)
Lemma replay_command_request s request existing o :
  replay_command s request existing = Ok o →
  current_lease s (ct_worker request) (ct_at request) ∧
  ct_tenant_id request = sm_tenant_id existing ∧ ct_call_id request = sm_call_id existing ∧
  ct_expected_version request = sm_observed_version existing ∧
  ct_command request = sm_command existing ∧ ct_worker request = sm_worker existing ∧
  ct_attachments request = sm_attachments existing ∧
  ct_deadline_claim request = sm_deadline_claim existing ∧ ct_at request = sm_recorded_at existing.
Proof.
  unfold replay_command. intros H. apply bind_unit_ok in H as [Hw%ensure_worker_current H].
  apply result_bind_ok in H as (c & _ & H). destruct (wa_lease _ !=? _); [done|].
  match type of H with (if ?b then _ else _) = _ => destruct b eqn:E; [done|] end.
  repeat (apply orb_false_iff in E; destruct E as [E ?]). bool_hyps. split_and!; congruence.
Qed.

Lemma commit_command_Committed new_id r request r' view :
  capacity_ok (mr_state r) → commit_command new_id r request = (r', Ok (Committed view)) →
  mr_poisoned r = false ∧ (ct_call_id request ∉ rm_service_managed_calls (mr_state r)) ∧
  command_id_conflicts_with_service_namespace (mr_state r) (ct_command_id request) = false ∧
  ∃ c d s', commit_guarded request (mr_state r) c d ∧
    commit_written new_id request (mr_state r) c d view s' ∧ r' = r <| mr_state := s' |>.
Proof.
  intros Hok (Hp & s' & H & ->)%transaction_ok. split; [done|].
  apply bind_unit_ok in H as [Hm%reject_service_managed_ok H]. split; [done|].
  pose proof H as Hc. unfold commit_command_in_state in Hc. apply bind_unit_ok in Hc as [_ Hc].
  destruct (command_id_conflicts_with_service_namespace _ _); [done|]. split; [done|]. clear Hc.
  apply commit_command_ok in H as [(_ & ? & ? & [=] & _)|(c & d & v & [= <-] & G & W)].
  - by exists c, d, s'.
  - intros c Hc. apply (cy_calls _ Hok _ _ Hc).
Qed.

(** What a recorded command answers when it is sent again under a lease that is still current. *)
Lemma replay_command_exact s request existing view c :
  current_lease s (ct_worker request) (ct_at request) →
  rm_calls s !! ct_call_id request = Some c → ca_tenant_id (sc_aggregate c) = ct_tenant_id request →
  wa_lease (sc_assignment c) = ct_worker request →
  rm_command_results s !! sm_command_id existing = Some view → cv_command view = existing →
  sm_tenant_id existing = ct_tenant_id request → sm_call_id existing = ct_call_id request →
  sm_observed_version existing = ct_expected_version request →
  sm_command existing = ct_command request → sm_worker existing = ct_worker request →
  sm_attachments existing = ct_attachments request →
  sm_deadline_claim existing = ct_deadline_claim request → sm_recorded_at existing = ct_at request →
  replay_command s request existing = Ok (CommitReplayed view).
Proof.
  intros (k & Hk & Hl & Ht) Hc Hten Hlease Hv Hcv E1 E2 E3 E4 E5 E6 E7 E8. unfold replay_command.
  rewrite (proj2 (ensure_worker_ok s _ _ _ ())) by by exists k. cbn [mbind result_bind].
  rewrite (proj2 (tenant_call_ok s _ _ c)) by done. cbn [mbind result_bind].
  rewrite Hlease, E1, E2, E3, E4, E5, E6, E7, E8, !bool_decide_eq_true_2 by done. cbn [negb orb].
  unfold command_view. rewrite Hv. cbn [mbind option_bind]. by rewrite Hcv, bool_decide_eq_true_2.
Qed.

(** A request under a recorded command id is answered from the record and writes nothing. *)
Lemma commit_command_recorded new_id r q existing :
  mr_poisoned r = false →
  command_id_conflicts_with_service_namespace (mr_state r) (ct_command_id q) = false →
  rm_commands (mr_state r) !! ct_command_id q = Some existing →
  commit_command new_id r q =
    (r, reject_service_managed_call (mr_state r) (ct_tenant_id q) (ct_call_id q) (ct_worker q)
          (ct_at q);;
        validate_command_timestamp (ct_command q) (ct_at q);;
        replay_command (mr_state r) q existing).
Proof.
  intros Hp Hn Hc. unfold commit_command, transaction, lock. rewrite Hp.
  destruct (reject_service_managed_call _ _ _ _ _) as [[]|]; cbn [mbind result_bind]; [|done].
  unfold commit_command_in_state.
  destruct (validate_command_timestamp _ _) as [[]|]; cbn [mbind result_bind]; [|done].
  rewrite Hn, Hc. destruct (replay_command _ _ _) as [o|]; cbn [mbind result_bind]; [|done].
  by rewrite same_repository.
Qed.

(** The record of a committed command, after any further run. *)
Record recorded (r : MemoryRepository) (request : CommandCommit) (view : CommandCommitView)
    (existing : StoredCommand) : Prop := {
  rc_lock : mr_poisoned r = false;
  rc_service : ct_call_id request ∉ rm_service_managed_calls (mr_state r);
  rc_conflict :
    command_id_conflicts_with_service_namespace (mr_state r) (ct_command_id request) = false;
  rc_command : rm_commands (mr_state r) !! ct_command_id request = Some existing;
  rc_result : rm_command_results (mr_state r) !! ct_command_id request = Some view;
  rc_view : cv_command view = existing;
  rc_time : command_at (ct_command request) = ct_at request;
  rc_call : current_lease (mr_state r) (ct_worker request) (ct_at request) →
    ∃ c, rm_calls (mr_state r) !! ct_call_id request = Some c ∧
         ca_tenant_id (sc_aggregate c) = ct_tenant_id request ∧
         wa_lease (sc_assignment c) = ct_worker request;
}.

Lemma committed_recorded `{Chrono, ServiceLibs} new_id r r1 r2 request view :
  capacity_ok (mr_state r) → commit_command new_id r request = (r1, Ok (Committed view)) →
  rtc store_step r1 r2 →
  ∃ c d, decide (sc_aggregate c) (ct_command request) = Ok d ∧
         ca_version (sc_aggregate c) = ct_expected_version request ∧
         recorded r2 request view (commit_receipt request c d).
Proof.
  intros Hok Hc Hrun.
  destruct (commit_command_Committed _ _ _ _ _ Hok Hc) as (Hp & Hm & Hns & c & d & s' & G & W & ->).
  assert (Hok1 : capacity_ok s') by by eapply (capacity_commit_written new_id).
  pose proof (store_run_capacity _ _ Hrun Hok1) as Hok2. pose proof (retains_run _ _ Hrun Hok1) as R.
  apply store_run_lock in Hrun; [|done]. change (mr_state (r <| mr_state := s' |>)) with s' in R.
  destruct (decide_keeps _ _ _ (ko_valid _ _ _ (cy_calls _ Hok _ _ (cg_call _ _ _ _ G)))
    (cg_decide _ _ _ _ G)) as (_ & Ht & _).
  destruct G, W. destruct cw_frame as (_ & _ & _ & _ & _ & _ & _ & _ & Fm & _ & Fc & Fo).
  exists c, d. split; [done|]. split; [done|].
  destruct (rt_commands _ _ R (ct_command_id request) (commit_receipt request c d)) as [Hcmd Hres].
  { rewrite cw_commands. apply lookup_insert_eq. }
  rewrite cw_results, lookup_insert_eq in Hres.
  split; try done.
  - by rewrite Hrun.
  - rewrite (rt_managed _ _ R _ (committed_call request c d)); [by rewrite Fm|].
    rewrite cw_calls. apply lookup_insert_eq.
  - rewrite (rt_conflicts _ _ R _ (commit_receipt request c d)).
    + unfold command_id_conflicts_with_service_namespace in *. by rewrite Fc, Fo.
    + rewrite cw_commands. apply lookup_insert_eq.
  - by rewrite cw_view.
  - intros Hcur. destruct (rt_calls _ _ R (ct_call_id request) (committed_call request c d))
      as (c2 & Hc2 & Hsame). { rewrite cw_calls. apply lookup_insert_eq. }
    exists c2. split; [done|]. pose proof (sk_tenant _ _ Hsame) as Et. cbn in Et.
    split; [congruence|]. eapply (current_lease_is_assigned _ (committed_call request c d)); eauto.
    unfold committed_call. by destruct (terminates d).
Qed.

(** A command is applied exactly once.  When a command has been committed, then after any
    further calls of the methods of both repositories, and as long as the lease it was sent under is current: sending
    it again answers with the very view of the first time, changes nothing and emits no effect; and
    a different request under the same command id is refused and changes nothing. *)
Theorem committed_command_replays `{Chrono, ServiceLibs} (new_id new_id' : nat → EffectId)
    (r r1 r2 : MemoryRepository) (request : CommandCommit) (view : CommandCommitView) :
  store_reachable r → commit_command new_id r request = (r1, Ok (Committed view)) →
  rtc store_step r1 r2 → current_lease (mr_state r2) (ct_worker request) (ct_at request) →
  commit_command new_id' r2 request = (r2, Ok (CommitReplayed view)) ∧
  (∀ request', ct_command_id request' = ct_command_id request → request' ≠ request →
     ∃ e, commit_command new_id' r2 request' = (r2, Err e)).
Proof.
  intros Hr%store_capacity Hc Hrun Hcur.
  destruct (committed_recorded _ _ _ _ _ _ Hr Hc Hrun) as (c & d & _ & Hver & []).
  destruct (rc_call0 Hcur) as (c2 & Hc2 & Ht & Hl). split.
  - rewrite (commit_command_recorded _ _ _ _ rc_lock0 rc_conflict0 rc_command0).
    unfold reject_service_managed_call. rewrite bool_decide_eq_false_2 by done.
    unfold validate_command_timestamp. rewrite bool_decide_eq_true_2 by done.
    cbn [mbind result_bind]. f_equal. by eapply replay_command_exact.
  - intros q Hq Hne. rewrite (commit_command_recorded new_id' r2 q (commit_receipt request c d)) by congruence.
    destruct (_;; _) as [o|e] eqn:E; [|by exists e]. exfalso. apply Hne.
    apply bind_unit_ok in E as [_ E]. apply bind_unit_ok in E as [_ E].
    apply replay_command_request in E as (_ & E). destruct q, request. cbn in *.
    destruct_and! E. congruence.
Qed.

Lemma committed_command_replays_witness :
  ∃ view, @commit_command (ids_from 300) signaled signal_request = (signaled, Ok (CommitReplayed view)).
Proof.
  destruct signaled_outcome as [view Hv]. exists view.
  eapply (@committed_command_replays chrono_sample libs_sample (ids_from 200) _ created signaled signaled);
    [apply store_created|exact Hv|done|].
  eexists. split; [vm_compute; reflexivity|]. split; [reflexivity|vm_compute; reflexivity].
Defined.

(** ** Creation claims *)

(** Without the service repository, every claim is the claim of a creation whose call is stored. *)
Definition claims_ok (s : MemoryState) : Prop :=
  ∀ key row, rm_idempotency s !! key = Some row →
    ir_receipt row = OperationIdempotencyReceipt.CreateCall ∧
    ∃ c, rm_calls s !! ir_call_id row = Some c ∧ ca_tenant_id (sc_aggregate c) = key.1.

Lemma claims_retained s s' :
  claims_ok s → retains s s' →
  (∀ key row, rm_idempotency s' !! key = Some row → rm_idempotency s !! key = Some row) →
  claims_ok s'.
Proof.
  intros Hok R Hi key row Hr%Hi. destruct (Hok _ _ Hr) as (E & c & Hc & Ht). split; [done|].
  destruct (rt_calls _ _ R _ _ Hc) as (c' & Hc' & Hs). exists c'. split; [done|].
  by rewrite (sk_tenant _ _ Hs).
Qed.

Section Claims.
Context {chrono : Chrono}.

Lemma reachable_lock r : reachable r → mr_poisoned r = false.
Proof using.
  intros Hr. assert (E : ∀ r0 r1, rtc repo_step r0 r1 → mr_poisoned r1 = mr_poisoned r0); [|by apply E in Hr].
  clear. induction 1 as [|r r1 r' Hs _ IH]; [done|]. rewrite IH.
  by apply repo_step_tx in Hs as [->|(s' & -> & _)].
Qed.

Lemma claims_effect s s' : capacity_ok s → claims_ok s → effect s s' → claims_ok s'.
Proof using.
  intros Hcap Hok He. pose proof (retains_effect _ _ Hcap He) as R.
  destruct He; try (by apply (claims_retained s)).
  - apply (claims_retained s); [done..|]. intros key row Hr. cbn in Hr. by apply H in Hr as [? _].
  - destruct (decide_keeps _ _ _ (kg_valid _ _ _ _ _ H0) (kg_decide _ _ _ _ _ H0)) as (_ & Ht & _).
    destruct H0, H1. destruct kw_idempotency as (i & exp & Hi & _ & Ei).
    intros key row. rewrite Ei, lookup_insert_Some. intros [[<- <-]|[_ Hr]].
    + split; [done|]. cbn. rewrite kw_calls, lookup_insert_eq. by eexists.
    + apply Hi in Hr as [Hr _]. destruct (Hok _ _ Hr) as (E & c & Hc & Htc). split; [done|].
      exists c. split; [|done]. rewrite kw_calls, lookup_insert_ne; [done|]. congruence.
  - apply (claims_retained s); [done..|]. destruct H1, cw_frame as (_ & _ & E & _). by rewrite E.
  - apply (claims_retained s); [done..|]. destruct H2, cw_frame as (_ & _ & E & _). by rewrite E.
  - apply (claims_retained s); [done..|]. by apply ingest_frame in H as (? & ? & ->).
  - apply (claims_retained s); [done..|]. by apply bind_frame in H as (? & ? & ->).
  - apply (claims_retained s); [done..|]. by apply apply_event_ok in H1 as (? & _ & _ & ->).
Qed.

Lemma reachable_claims r : reachable r → claims_ok (mr_state r).
Proof using. apply (reachable_invariant claims_ok); [apply claims_effect|done]. Qed.
End Claims.

(** The retirement loop succeeds on claims of creations. *)
Lemma retire_creation_rows at_ ks s :
  NoDup ks →
  (∀ k, k ∈ ks → ∃ row, rm_idempotency s !! k = Some row ∧
                        ir_receipt row = OperationIdempotencyReceipt.CreateCall) →
  ∃ s', retire_idempotency_rows at_ ks s = Ok s'.
Proof.
  revert s. induction ks as [|[t d] ks IH]; intros s Hnd Hall; [by eexists|].
  apply NoDup_cons in Hnd as [Hnotin Hnd]. cbn [retire_idempotency_rows].
  destruct (Hall (t, d)) as (row & Hrow & Hrec); [by constructor|].
  assert (retire_idempotency_row at_ (t, d) s
    = Ok (s <| rm_idempotency := delete (t, d) (rm_idempotency s) |>)) as ->.
  { unfold retire_idempotency_row. rewrite Hrow. cbn [ok_or mbind result_bind].
    unfold idempotency_receipt_crosslinks. by rewrite Hrec. }
  apply IH; [done|]. intros k Hk. destruct (Hall k) as (row' & Hrow' & Hrec'); [by constructor|].
  exists row'. split; [|done]. cbn. rewrite lookup_delete_ne; [done|]. by intros <-.
Qed.

Lemma filter_fst_NoDup {K V} (p : K * V → bool) (l : list (K * V)) :
  NoDup l.*1 → NoDup (List.filter p l).*1.
Proof.
  induction l as [|x l IH]; intros H; [done|]. cbn in *. apply NoDup_cons in H as [Hx H].
  destruct (p x); cbn; [|by apply IH]. apply NoDup_cons. split; [|by apply IH].
  intros Hin. apply Hx. apply list_elem_of_fmap in Hin as (y & -> & Hy). apply list_elem_of_fmap.
  exists y. split; [done|]. apply list_elem_of_In, filter_In in Hy as [Hy _].
  by apply list_elem_of_In.
Qed.

Lemma retire_expired_succeeds s at_ :
  claims_ok s → ∃ s', retire_expired_idempotency s at_ = Ok s'.
Proof.
  intros Hok. apply retire_creation_rows.
  - apply filter_fst_NoDup, NoDup_fst_map_to_list.
  - intros k Hk. apply list_elem_of_fmap in Hk as ([k' row] & -> & Hin).
    apply list_elem_of_In, filter_In in Hin as [Hin _].
    apply list_elem_of_In, elem_of_map_to_list in Hin. exists row. split; [done|].
    by destruct (Hok _ _ Hin).
Qed.

Section Creation.
Context {chrono : Chrono}.

(** The request passes the checks that precede the lookup of its idempotency key. *)
Record creation_admissible (request : CreateCall) (d : CallDecision) (expires_at : DateTime)
    : Prop := {
  ad_time : command_at (cc_command request) = cc_at request;
  ad_valid : validate (cc_initial request) = Ok ();
  ad_version : ca_version (cc_initial request) = 0%N;
  ad_pending : ca_state (cc_initial request) = CallState.Pending;
  ad_decide : decide (cc_initial request) (cc_command request) = Ok d;
  ad_applied : cd_disposition d = CommandDisposition.Applied;
  ad_expiry : idempotency_expiry (cc_at request) = Ok expires_at;
}.

(** An admissible request whose key is claimed is answered from the claim. *)
Lemma create_call_claimed new_id request d exp s s' row :
  creation_admissible request d exp → retire_expired_idempotency s (cc_at request) = Ok s' →
  rm_idempotency s' !! create_key request = Some row → cc_at request < ir_expires_at row →
  ir_receipt row = OperationIdempotencyReceipt.CreateCall →
  create_call_in_state new_id request s =
    if ir_request_digest row ==? cc_request_digest request
    then call ← tenant_call s' (ca_tenant_id (cc_initial request)) (ir_call_id row);
         Ok (CreateReplayed call, s')
    else Err RepositoryError.IdempotencyConflict.
Proof using.
  intros [] Hs Hrow Ht Hrec. unfold create_call_in_state.
  rewrite (proj2 (validate_command_timestamp_ok _ _ ()) ad_time0), ad_valid0. cbn [mbind result_bind domain_rejected].
  rewrite ad_version0, ad_pending0, !bool_decide_eq_true_2 by done. cbn [negb orb].
  rewrite ad_decide0. cbn [mbind result_bind domain_rejected].
  rewrite ad_applied0, bool_decide_eq_true_2 by done. cbn [negb].
  rewrite ad_expiry0. cbn [mbind result_bind]. rewrite Hs. cbn [mbind result_bind]. cbv zeta.
  unfold create_replay. cbv zeta. fold (create_key request). rewrite Hrow.
  apply Z.ltb_lt in Ht as ->. rewrite Hrec. cbn [negb]. rewrite orb_false_r.
  destruct (ir_request_digest row ==? _); cbn [negb mbind result_bind]; [|done].
  by destruct (tenant_call _ _ _).
Qed.

(** A creation before its expiry keeps a claim. *)
Lemma claim_kept new_id request s out s' key row :
  create_call_in_state new_id request s = Ok (out, s') → rm_idempotency s !! key = Some row →
  cc_at request < ir_expires_at row → rm_idempotency s' !! key = Some row.
Proof using.
  intros H Hrow Ht.
  apply create_call_ok in H as [(c & i & r & -> & -> & Hi & _)|(d & k & fp & -> & G & W)].
  { cbn. by apply Hi. }
  destruct (kw_idempotency _ _ _ _ _ _ _ W) as (i & exp & Hi & _ & ->).
  rewrite lookup_insert_ne; [by apply Hi|]. intros <-.
  pose proof (kg_unclaimed _ _ _ _ _ G row Hrow). lia.
Qed.

Lemma restart_claims w at_ ids s out s' :
  restart_calls w at_ ids s = Ok (out, s') → rm_idempotency s' = rm_idempotency s.
Proof using.
  revert s out. induction ids as [|id ids IH]; intros s out H; cbn in H; [by injection H as _ <-|].
  apply result_bind_ok in H as ([claim s1] & H1 & H). cbn in H.
  apply result_bind_ok in H as ([claims s2] & H2 & [= _ <-]). unfold restart_call in H1. cbv zeta in H1.
  apply result_bind_ok in H1 as (c & _ & [= _ <-]). by apply IH in H2 as ->.
Qed.

(** Every other transaction leaves the claims alone. *)
Lemma claims_written s s' :
  capacity_ok s → tx_step s s' →
  rm_idempotency s' = rm_idempotency s ∨
  ∃ new_id request out, create_call_in_state new_id request s = Ok (out, s').
Proof using.
  intros Hok Hs.
  assert (Hcm : ∀ new_id request out s1, commit_command_in_state new_id request s = Ok (out, s1) →
    rm_idempotency s1 = rm_idempotency s).
  { intros ? ? ? ? [(-> & _)|(? & ? & ? & _ & _ & W)]%commit_command_ok; [done|apply W|].
    intros c Hc. apply (cy_calls s Hok _ _ Hc). }
  destruct Hs; try (by right; eauto); left; try (by eapply Hcm).
  - unfold register_worker_in_state in H0. cbv zeta in H0. by inv_ok H0; simplify_eq.
  - unfold activate_worker_capabilities_in_state in H. cbv zeta in H. by inv_ok H; simplify_eq.
  - unfold renew_worker_lease_in_state in H. cbv zeta in H. by inv_ok H; simplify_eq.
  - unfold set_worker_draining_in_state in H. cbv zeta in H. by inv_ok H; simplify_eq.
  - apply release_assignment_ok in H as (_ & c & _ & _ & _ & _ & Hb).
    destruct out; [by destruct Hb as (_ & k & _ & _ & ->)|by destruct Hb as [_ ->]].
  - apply consume_attachment_ok in H0 as (row & c & d & view & _ & _ & _ & W).
    + destruct W. by destruct cw_frame as (_ & _ & -> & _).
    + intros id c Hc. apply (cy_calls s Hok _ _ Hc).
  - by apply ingest_frame in H as (? & ? & ->).
  - by apply bind_frame in H as (? & ? & ->).
  - unfold claim_provider_events_in_state in H. apply bind_unit_ok in H as [_ H].
    by apply claim_provider_loop_frame in H as [? ->].
  - apply complete_provider_event_ok in H0 as [->|(ev & o & s1 & row & ev' & _ & _ & _ & Hc & Ha)]; [done|].
    apply apply_event_ok in Ha as (? & _ & _ & ->). cbn. by eapply Hcm.
  - apply acknowledge_ok in H as [->|(ev & ev' & _ & _ & Ha)]; [done|].
    by apply apply_event_ok in Ha as (? & _ & _ & ->).
  - unfold claim_outbox_in_state in H. apply bind_unit_ok in H as [_ H].
    by apply claim_outbox_loop_frame in H as [? ->].
  - by apply complete_outbox_ok in H as (? & ? & _ & _ & _ & _ & ->).
  - unfold claim_due_deadlines_in_state in H. apply bind_unit_ok in H as [_ H].
    by apply claim_deadline_loop_frame in H as [? ->].
  - unfold claim_restart_calls_in_state in H. apply bind_unit_ok in H as [_ H].
    apply result_bind_ok in H as (k' & _ & H). apply result_bind_ok in H as (fp & _ & H). cbv zeta in H.
    by eapply restart_claims.
Qed.

(** Creating a call is idempotent while its claim lives.  Every claim names a stored call of
    its tenant; an admissible creation under the same key before the expiry returns that call as
    it is now and touches nothing but expired claims (no second call, reservation, command or
    effect) when its request digest matches, and is refused with a conflict and no change when it
    does not; and the only step that can drop the claim is a creation at or after its expiry. *)
Theorem creation_is_idempotent (r : MemoryRepository) (key : IdempotencyKey)
    (row : IdempotencyRow) :
  reachable r → rm_idempotency (mr_state r) !! key = Some row →
  ∃ c, rm_calls (mr_state r) !! ir_call_id row = Some c ∧
       ca_tenant_id (sc_aggregate c) = key.1 ∧
  (∀ new_id request d exp,
     create_key request = key → creation_admissible request d exp →
     cc_at request < ir_expires_at row →
     if ir_request_digest row ==? cc_request_digest request
     then ∃ i retired,
       create_call new_id r request =
         (r <| mr_state := (mr_state r) <| rm_idempotency := i |>
                             <| rm_retired_operation_claims := retired |> |>,
          Ok (CreateReplayed c)) ∧
       live_claims (cc_at request) (rm_idempotency (mr_state r)) i
     else create_call new_id r request = (r, Err RepositoryError.IdempotencyConflict)) ∧
  (∀ r', repo_step r r' →
     rm_idempotency (mr_state r') !! key = Some row ∨
     ∃ new_id request, r' = (create_call new_id r request).1 ∧ ir_expires_at row ≤ cc_at request).
Proof using.
  intros Hr Hrow. pose proof (reachable_capacity _ Hr) as Hcap.
  pose proof (reachable_claims _ Hr) as Hok.
  assert (Hp : mr_poisoned r = false) by by apply reachable_lock.
  destruct (Hok _ _ Hrow) as (Hrec & c & Hc & Ht). exists c. split; [done|]. split; [done|]. split.
  - intros new_id request d exp <- Had Hlt.
    destruct (retire_expired_succeeds (mr_state r) (cc_at request) Hok) as [s1 Hs1].
    pose proof (retire_expired_idempotency_ok _ _ _ Hs1) as (i & ret & E1 & Hi). subst s1.
    unfold create_call.
    pose proof (create_call_claimed new_id request d exp _ _ row Had Hs1) as Hcr.
    specialize (Hcr (proj2 (Hi _ _) (conj Hrow Hlt)) Hlt Hrec).
    destruct (ir_request_digest row ==? cc_request_digest request).
    + exists i, ret. split; [|done]. apply transaction_ok. split; [done|]. eexists. split; [|done].
      rewrite Hcr, (proj2 (tenant_call_ok _ _ _ c)) by done. done.
    + by apply transaction_err.
  - intros r' [->|(s' & -> & Hs)]%repo_step_tx; [by left|].
    apply claims_written in Hs as [E|(new_id & request & out & Hcr)]; [left; cbn; by rewrite E| |done].
    destruct (Z.lt_ge_cases (cc_at request) (ir_expires_at row)) as [Hlt|Hge].
    + left. cbn. by eapply claim_kept.
    + right. exists new_id, request. split; [|done]. unfold create_call.
      rewrite (proj2 (transaction_ok r (create_call_in_state new_id request) (r <| mr_state := s' |>) out));
        [done|]. split; [done|]. by exists s'.
Qed.
End Creation.

Lemma creation_is_idempotent_witness :
  ∃ i retired c,
    @create_call chrono_sample (ids_from 300) signaled create_request =
      (signaled <| mr_state := (mr_state signaled) <| rm_idempotency := i |>
                     <| rm_retired_operation_claims := retired |> |>, Ok (CreateReplayed c)).
Proof.
  destruct (rm_idempotency (mr_state signaled) !! create_key create_request) as [row|] eqn:E.
  2: { vm_compute in E. discriminate. }
  destruct (@creation_is_idempotent chrono_sample signaled (create_key create_request) row
    reachable_signaled E) as (c & _ & _ & Hcreate & _).
  assert (Ad : ∃ d exp, @creation_admissible chrono_sample create_request d exp).
  { eexists _, _. split; vm_compute; reflexivity. }
  destruct Ad as (d & exp & Ad). specialize (Hcreate (ids_from 300) create_request d exp eq_refl Ad).
  assert (Hrow : option_map (λ x, (ir_request_digest x, 1 <? ir_expires_at x))
      (rm_idempotency (mr_state signaled) !! create_key create_request) = Some (31, true))
    by (vm_compute; reflexivity).
  rewrite E in Hrow. injection Hrow as Hd He. rewrite Hd in Hcreate. cbn in Hcreate.
  destruct Hcreate as (i & ret & H & _); [lia|]. by exists i, ret, c.
Defined.
