(* ===== verification/RepoAttach.v ===== *)
(** Attachment tokens of the store: a token admits one connection, once. *)

From S2P Require Import Prelude RustText DomainTypes CoordModel Domain DomainInv DomainSafety.
From S2P Require Import DomainWorld DomainTrace DomainTheorems.
From S2P Require Import RepoTypes ServiceTypes RepoMemory RepoClaims RepoFrame RepoCommit RepoInv ServiceSample RepoEffects.
From S2P Require Import PlanModel ServiceCommands ServiceEffects ServiceSample RepoTheorems.
From stdpp Require Import options.

(** ** The life of an attachment row *)

(** What a row is issued for. *)
Definition row_issue (row : AttachmentRow) : AttachmentRow :=
  row <| ax_consumed_at := None |> <| ax_revoked_at := None |> <| ax_binding := None |>.

(** A row is never reissued; its consumption and its revocation are final. *)
Record row_moves (row row' : AttachmentRow) : Prop := {
  mv_issue : row_issue row' = row_issue row;
  mv_consumed t : ax_consumed_at row = Some t →
    ax_consumed_at row' = Some t ∧ ax_binding row' = ax_binding row;
  mv_revoked : is_Some (ax_revoked_at row) → is_Some (ax_revoked_at row');
}.

#[export] Instance row_moves_preorder : PreOrder row_moves.
Proof.
  split; [done|]. intros a b c [I1 C1 R1] [I2 C2 R2]. split; [congruence| |auto].
  intros t (H1 & E1)%C1. destruct (C2 _ H1) as [H2 E2]. split; [done|congruence].
Qed.

Record attachments_move (s s' : MemoryState) : Prop := {
  am_rows d row : rm_attachments s !! d = Some row →
    ∃ row', rm_attachments s' !! d = Some row' ∧ row_moves row row';
  am_used : rm_used_connection_ids s ⊆ rm_used_connection_ids s';
}.

#[export] Instance attachments_move_preorder : PreOrder attachments_move.
Proof.
  split; [intros s; split; [intros; by eexists|done]|].
  intros s s' s'' [A1 U1] [A2 U2]. split; [|set_solver].
  intros d row (r1 & H1 & M1)%A1. destruct (A2 _ _ H1) as (r2 & H2 & M2). exists r2.
  split; [done|by etrans].
Qed.

Lemma attachments_same s s' :
  rm_attachments s' = rm_attachments s → rm_used_connection_ids s' = rm_used_connection_ids s →
  attachments_move s s'.
Proof. intros Ea Eu. split; [rewrite Ea; intros; by eexists|by rewrite Eu]. Qed.

Lemma update_where_moves p f (att : gmap AttachmentTokenDigest AttachmentRow) d row :
  (∀ row, p row = true → row_moves row (f row)) → att !! d = Some row →
  ∃ row', update_where p f att !! d = Some row' ∧ row_moves row row'.
Proof.
  intros Hf Hd. unfold update_where. rewrite lookup_fmap, Hd. cbn. eexists. split; [done|].
  destruct (p row) eqn:E; [by apply Hf|done].
Qed.

Lemma revoke_row_moves at_ row : row_moves row (revoke_row at_ row).
Proof. by split. Qed.

Lemma attachments_commit_written new_id request s c d view s' :
  commit_written new_id request s c d view s' → attachments_move s s'.
Proof.
  intros []. destruct cw_frame as (_ & _ & _ & Fu & _). split; [|by rewrite Fu].
  intros dg row Hrow.
  assert (Hr : ∃ row', (if applies d
      then retired_rows (ct_call_id request) (cd_aggregate d) (rm_attachments s)
      else rm_attachments s) !! dg = Some row' ∧ row_moves row row').
  { destruct (applies d); [|by exists row]. apply update_where_moves; [|done].
    intros r _. apply revoke_row_moves. }
  destruct Hr as (row' & Hr' & Hm). exists row'. split; [|done]. by apply cw_attachments.
Qed.

(** A consumption finds its row free and marks it. *)
Lemma consumable_spec row request t :
  consumable row request t = true →
  ax_consumed_at row = None ∧ ax_revoked_at row = None ∧ t < ax_expires_at row ∧
  ax_expected_principal row = am_principal_fingerprint request ∧
  ax_call_id row = an_call_id (am_candidate request) ∧
  ax_leg_id row = an_leg_id (am_candidate request) ∧
  ax_binding_generation row = an_binding_generation (am_candidate request) ∧
  ax_worker row = an_worker (am_candidate request).
Proof.
  unfold consumable. cbv zeta. intros H%negb_true_iff.
  repeat (apply orb_false_iff in H; destruct H as [H ?]).
  repeat match goal with
  | E : is_some _ = false |- _ => apply is_some_false in E
  | E : negb (bool_decide _) = false |- _ => apply negb_false_iff, bool_decide_eq_true in E
  end.
  split_and!; try congruence. lia.
Qed.

Lemma attachments_consumed request s row c :
  consume_guarded request s row c → attachments_move s (consumed_state request row c s).
Proof.
  intros []. apply consumable_spec in ng_consumable as (Hn & Hr & _). split; [|set_solver].
  intros d row0 H0. unfold consumed_state, consume_rows. cbn.
  destruct (base.decide (d = an_token_digest (am_candidate request))) as [->|].
  - rewrite lookup_insert_eq. simplify_eq. eexists. split; [done|]. split; cbn; try done. congruence.
  - rewrite lookup_insert_ne by done. by exists row0.
Qed.

(** A binding uses its connection up. *)
Lemma attachments_bound s id c binding : attachments_move s (put_binding s id c binding).
Proof. split; [intros; by eexists|]. cbn. set_solver. Qed.

Section Attachments.
Context {chrono : Chrono} {libs : ServiceLibs}.

Lemma attachments_created new_id request s d k fingerprint s' :
  create_written new_id request s d k fingerprint s' → attachments_move s s'.
Proof using.
  intros []. destruct kw_frame as (_ & _ & _ & Fu & _). split; [|by rewrite Fu].
  intros dg row Hrow. exists row. split; [|done]. by apply kw_attachments.
Qed.

Lemma attachments_effect s s' : effect s s' → attachments_move s s'.
Proof using.
  intros []; try (by apply attachments_same).
  - by eapply attachments_created.
  - by eapply attachments_commit_written.
  - trans (consumed_state request row c s); [by apply attachments_consumed|].
    by eapply attachments_commit_written.
  - apply ingest_frame in H as (? & ? & ->). by apply attachments_same.
  - apply bind_frame in H as (? & ? & ->). by apply attachments_same.
  - apply apply_event_ok in H1 as (? & _ & _ & ->). by apply attachments_same.
  - split; [|done]. intros d row. apply update_where_moves. by intros row0 _.
Qed.

Lemma attachments_service s s' : service_effect s s' → attachments_move s s'.
Proof using.
  intros [].
  - pose proof (side_core _ _ H) as E.
    by apply attachments_same; [apply (f_equal rm_attachments E)|apply (f_equal rm_used_connection_ids E)].
  - by apply attachments_same.
  - trans s1; [by eapply attachments_created|by apply attachments_same].
  - etrans; [apply attachments_bound|by apply attachments_same].
  - trans s1; [by eapply attachments_commit_written|]. etrans; [apply attachments_bound|].
    by apply attachments_same.
Qed.

Lemma attachments_run r r' :
  rtc store_step r r' → capacity_ok (mr_state r) → attachments_move (mr_state r) (mr_state r').
Proof using.
  intros Hr Hok. apply (store_invariant (attachments_move (mr_state r)) r r'); [..|done|done|done];
    intros s s' _ H0 He; (etrans; [exact H0|]); [by apply attachments_effect|by apply attachments_service].
Qed.
End Attachments.

(** ** The leg a consumption binds *)

Lemma find_leg_set a id i leg :
  leg_index a id = Ok i → leg_id leg = id → find_leg (set_leg a i leg) id = Some leg.
Proof.
  unfold leg_index, find_leg. intros Hi E. destruct i; cbn.
  - by rewrite E, bool_decide_eq_true_2.
  - destruct (leg_id (ca_leg0 a) ==? id); [done|]. by rewrite E, bool_decide_eq_true_2.
Qed.

Lemma signaling_carries a id i gen leg :
  leg_index a id = Ok i → leg_id leg = id → leg_binding_generation leg = gen →
  leg_state leg = LegState.Signaling → leg_carries (set_leg a i leg) id gen binding_live_state = true.
Proof.
  intros Hi E Hg Hs. unfold leg_carries. rewrite (find_leg_set _ _ _ _ Hi E). cbn.
  by rewrite Hg, Hs, bool_decide_eq_true_2.
Qed.

(** A leg that signals is left alone by the rest of its call. *)
Lemma signaling_reconciled a i leg at_ st :
  leg_state leg = LegState.Signaling → leg_failure leg = None →
  reconcile_leg_state i at_ (set_leg a i leg, []) = Ok st → st = (set_leg a i leg, []).
Proof.
  intros Hs Hf. unfold reconcile_leg_state.
  assert (Hl : leg_at (set_leg a i leg) i = leg) by (by destruct i).
  assert (Ha : ∀ p, p leg = false → all_legs p (set_leg a i leg) = false).
  { intros p Hp. destruct i; cbn; rewrite Hp; by rewrite ?andb_false_r. }
  rewrite Hl, Hs, Hf, Ha by (by rewrite Hs). rewrite andb_false_r.
  destruct (_ ==? CallState.Ending); [|by intros [= <-]].
  rewrite Ha by (by rewrite Hs). by intros [= <-].
Qed.

Lemma set_leg_signaling a at_ id gen a' res :
  set_leg_state a at_ id gen LegState.Signaling None = Ok (a', res) →
  cr_disposition res = CommandDisposition.Applied →
  leg_carries a' id gen binding_live_state = true.
Proof.
  unfold set_leg_state. intros H Hd. apply result_bind_ok in H as (i & Hi & H).
  apply result_bind_ok in H as (early & Hg & H). unfold compare_binding_generation in Hg.
  destruct (N.ltb_spec gen (leg_binding_generation (leg_at a i))).
  { injection Hg as <-. injection H as <- <-. done. }
  destruct (N.ltb_spec (leg_binding_generation (leg_at a i)) gen); [done|]. injection Hg as <-.
  apply bind_unit_ok in H as [_ H]. destruct (_ || _); [done|].
  destruct (_ && is_none _); [done|]. destruct (_ && is_some _); [done|]. cbv zeta in H.
  destruct (leg_state (leg_at a i) ==? LegState.Signaling); [by injection H as <- <-|].
  destruct (negb (valid_leg_transition _ _)); [done|]. destruct (_ && _); [done|].
  apply result_bind_ok in H as ([a1 eff] & Hr & [= <- <-]).
  apply signaling_reconciled in Hr as [= -> ->]; [|done|done].
  apply signaling_carries; [done|by apply leg_index_ok|change (leg_binding_generation (leg_at a i) = gen); lia|done].
Qed.

Lemma media_attached_signaling a at_ id gen a' res :
  provider_media_attached a at_ id gen = Ok (a', res) → pending_telnyx_replacement a id gen = false →
  leg_carries a' id gen binding_live_state = true.
Proof.
  unfold provider_media_attached, pending_telnyx_replacement. intros H Hn.
  apply bind_unit_ok in H as [_ H]. apply result_bind_ok in H as (i & Hi & H).
  rewrite Hn, andb_false_r in H. cbn in H. rewrite andb_true_r in H.
  destruct (_ && pending_or_signaling _) eqn:E; [|done]. cbn in H. injection H as <- <-. bool_hyps.
  apply signaling_carries; [done|..]; unfold advance_to_signaling;
    destruct (leg_state (leg_at a i) ==? LegState.Pending) eqn:Ep; cbn; auto using leg_index_ok.
  apply bool_decide_eq_false in Ep. by destruct (leg_state (leg_at a i)).
Qed.

Lemma consumed_leg_lives request c d :
  validate_attachment_consume_command request = Ok () → replaces_pending request c = false →
  decide (sc_aggregate c) (am_command request) = Ok d → applies d = true →
  leg_carries (cd_aggregate d) (an_leg_id (am_candidate request))
    (an_binding_generation (am_candidate request)) binding_live_state = true.
Proof.
  unfold validate_attachment_consume_command, replaces_pending, decide, applies. intros Hv Hn Hd Ha.
  apply bind_unit_ok in Hv as [_ Hv]. apply result_bind_ok in Hd as ([a' res] & Hcmd & Hd).
  apply result_bind_ok in Hd as (a2 & Ha2 & Hd). apply bind_unit_ok in Hd as [_ [= <-]]. cbn in Ha |- *.
  rewrite Ha in Ha2. apply result_bind_ok in Ha2 as (v & _ & [= <-]). apply bool_decide_eq_true in Ha.
  assert (leg_carries a' (an_leg_id (am_candidate request)) (an_binding_generation (am_candidate request))
    binding_live_state = true) as Hc; [|done].
  destruct (am_command request); try done.
  - destruct state; try done. destruct failure; [done|]. destruct (_ && _) eqn:E; [|done]. bool_hyps. subst.
    by eapply set_leg_signaling.
  - destruct (_ && _) eqn:E; [|done]. bool_hyps. subst. eapply media_attached_signaling; [exact Hcmd|].
    rewrite bool_decide_eq_true_2 in Hn by done. by destruct Hn.
Qed.

(** The token is for the media of a replacement of its leg. *)
Lemma replaces_pending_spec request c :
  replaces_pending request c = true ↔
  an_purpose (am_candidate request) = AttachmentPurpose.ProviderMedia ∧
  ∃ pending, ca_replacement (sc_aggregate c) = Some pending ∧
    rp_leg_id pending = an_leg_id (am_candidate request) ∧
    rp_pending_kind pending = LegKind.Telnyx ∧
    rp_pending_binding_generation pending = an_binding_generation (am_candidate request).
Proof.
  unfold replaces_pending, pending_telnyx_replacement.
  destruct (ca_replacement _) as [x|]; cbn; rewrite ?andb_true_iff, ?bool_decide_eq_true; naive_solver.
Qed.

(** What becomes of the leg: it carries the new connection, except during a replacement, when the call
    keeps the connections it had. *)
Lemma consumed_leg_bound request s s1 row c d :
  consume_guarded request s row c →
  commit_guarded (consume_commit request) s1 (consumed_call request c) d →
  let c1 := committed_call (consume_commit request) (consumed_call request c) d in
  replaces_pending request c = true ∧ sc_bindings c1 ⊆ sc_bindings c ∨
  ~ replaces_pending request c = true ∧ sc_bindings c !! an_leg_id (am_candidate request) = None ∧
  sc_bindings c1 !! an_leg_id (am_candidate request) = Some (consumed_binding request).
Proof.
  intros [] [] c1. unfold c1, consumed_call in *. cbn in cg_decide |- *.
  destruct (replaces_pending request c) eqn:E; [left; split; [done|]|right; split_and!; [done|auto|]];
    destruct (applies d) eqn:Ea; try done.
  - apply map_filter_subseteq.
  - apply map_lookup_filter_Some. split; [apply lookup_insert_eq|]. cbn. by apply (consumed_leg_lives request c).
  - apply lookup_insert_eq.
Qed.

(** ** Single use *)

Lemma consume_attachment_refused new_id r request :
  (∀ out s', consume_attachment_in_state new_id request (mr_state r) ≠ Ok (out, s')) →
  ∃ e, consume_attachment new_id r request = (r, Err e).
Proof.
  intros H. unfold consume_attachment, transaction, lock. destruct (mr_poisoned r); [by eexists|].
  destruct (consume_attachment_in_state _ _ _) as [[out s']|e] eqn:E; [by destruct (H out s')|by eexists].
Qed.

(** A token whose row is consumed is not shown to anyone. *)
Lemma inspect_consumed r lookup row :
  mr_poisoned r = false → rm_attachments (mr_state r) !! lk_token_digest lookup = Some row →
  is_Some (ax_consumed_at row) →
  inspect_attachment r lookup = Err RepositoryError.AttachmentRejected.
Proof.
  intros Hp Hrow [t Ht]. unfold inspect_attachment, read, lock. rewrite Hp. cbn [mbind result_bind].
  cbv zeta. destruct (attachment_rejected _) as [[]|e] eqn:E; cbn [mbind result_bind].
  - rewrite Hrow. cbn [ok_or mbind result_bind]. rewrite Ht. cbn [is_some].
    by rewrite orb_true_r, orb_true_l.
  - unfold attachment_rejected in E. destruct (ensure_worker _ _ _ _); congruence.
Qed.


(** ** Sample *)

Definition inbound_lookup : AttachmentLookup :=
  {| lk_tenant_id := str "tenant"; lk_token_digest := 50; lk_transport := AttachmentTransport.Sip;
     lk_principal_fingerprint := 60; lk_worker := worker_one; lk_at := 2 |}.

Definition inbound_candidate : AttachmentCandidate :=
  {| an_attachment_id := 40; an_token_digest := 50; an_purpose := AttachmentPurpose.PublicInbound;
     an_tenant_id := str "tenant"; an_call_id := 1; an_leg_id := 2; an_binding_generation := 1%N;
     an_transport := AttachmentTransport.Sip; an_worker := worker_one;
     an_assignment := {| wa_lease := worker_one; wa_route_catalog_fingerprint := None;
                         wa_assigned_at := 1; wa_released_at := None |};
     an_expires_at := 1000; an_expected_principal := 60; an_expected_version := 1%N;
     an_required_sip_correlation := None |}.

Definition inbound_consume : AttachmentConsume :=
  {| am_candidate := inbound_candidate; am_principal_fingerprint := 60;
     am_principal_expires_at := None; am_connection_id := str "connection"; am_command_id := 22;
     am_command := SetLegState 3 2 1%N LegState.Signaling None; am_at := 3 |}.

Definition attached : MemoryRepository :=
  (consume_attachment (ids_from 200) created inbound_consume).1.

