(* ===== verification/RepoDeadlines.v ===== *)
(** The deadline table of the store: its live rows are exactly the armed
    deadlines of the stored calls. *)

From S2P Require Import Prelude RustText DomainTypes CoordModel Domain DomainInv DomainSafety.
From S2P Require Import DomainWorld DomainTrace DomainTheorems.
From S2P Require Import RepoTypes ServiceTypes RepoMemory RepoClaims RepoFrame RepoCommit RepoInv ServiceSample RepoEffects RepoOutbox.
From S2P Require Import PlanModel ServiceCommands ServiceEffects ServiceSample.
From stdpp Require Import options.

Abbreviation DeadlineTable := (gmap DeadlineKey DeadlineRecord).

(** A row that can still fire. *)
Definition live_deadline (state : DeadlineState) : bool :=
  match state with DeadlineState.Pending | DeadlineState.Claimed _ _ _ => true | _ => false end.

Lemma deadline_get_put b k slot k' :
  deadline_get (deadline_put b k slot) k' = if base.decide (k = k') then slot else deadline_get b k'.
Proof. by destruct k, k'. Qed.

(** The rows of call [id] agree with the ledger [b]; the row [x], if any, counts as fired. *)
Record books (x : option DeadlineKey) (b : CallDeadlines) (id : CallId) (m : DeadlineTable)
    : Prop := {
  bk_row k g rec : m !! ((id, k, g) : DeadlineKey) = Some rec →
    dr_call_id rec = id ∧ dr_kind rec = k ∧ dr_generation rec = g ∧
    (g ≤ slot_generation (deadline_get b k))%N;
  bk_live k g due :
    (∃ rec, m !! ((id, k, g) : DeadlineKey) = Some rec ∧ Some ((id, k, g) : DeadlineKey) ≠ x ∧
            live_deadline (dr_state rec) = true ∧ dr_due_at rec = due) ↔
    deadline_get b k = {| slot_generation := g; slot_due_at := Some due |};
}.

(** One write: the rows of other calls stay, and no row disappears. *)
Record table_step (id : CallId) (m m' : DeadlineTable) : Prop := {
  ts_other key : key.1.1 ≠ id → m' !! key = m !! key;
  ts_grow key : is_Some (m !! key) → is_Some (m' !! key);
  ts_mine key : is_Some (m' !! key) → is_Some (m !! key) ∨ key.1.1 = id;
}.

#[export] Instance table_step_preorder id : PreOrder (table_step id).
Proof.
  split; [by split; auto|]. intros m m' m'' [] []. split; auto.
  - intros key Hk. rewrite ts_other1 by done. auto.
  - intros key [?|?]%ts_mine1; auto.
Qed.

Lemma table_insert id (key : DeadlineKey) rec m :
  key.1.1 = id → table_step id m (<[key := rec]> m).
Proof.
  intros Hk. split.
  - intros key' Hne. apply lookup_insert_ne. by intros ->.
  - intros key' Hs. destruct (base.decide (key = key')) as [->|].
    + by rewrite lookup_insert_eq.
    + by rewrite lookup_insert_ne.
  - intros key' Hs. destruct (base.decide (key = key')) as [->|]; [by right|].
    rewrite lookup_insert_ne in Hs by done. by left.
Qed.

(** ** Persisting the effects of a decision *)

Definition marked (x : option DeadlineKey) (m : DeadlineTable) : Prop :=
  ∀ key, x = Some key → is_Some (m !! key).

Lemma books_schedule x b id m k0 g0 d rec0 :
  books x b id m → marked x m → m !! ((id, k0, g0) : DeadlineKey) = None →
  slot_due_at (deadline_get b k0) = None → g0 = (slot_generation (deadline_get b k0) + 1)%N →
  dr_call_id rec0 = id → dr_kind rec0 = k0 → dr_generation rec0 = g0 → dr_due_at rec0 = d →
  dr_state rec0 = DeadlineState.Pending →
  books x (deadline_put b k0 {| slot_generation := g0; slot_due_at := Some d |}) id
    (<[((id, k0, g0) : DeadlineKey) := rec0]> m).
Proof.
  intros [R L] Hx Hnew Hnone Hg0 E1 E2 E3 E4 E5. split.
  - intros k g rec. rewrite lookup_insert_Some. intros [[[= <- <-] <-]|[Hne Hrow]].
    + rewrite deadline_get_put. case_decide; [|done]. by split_and!.
    + destruct (R _ _ _ Hrow) as (? & ? & ? & Hle). split_and!; try done.
      rewrite deadline_get_put. case_decide as Hk; [|done]. rewrite <- Hk in Hle. cbn [slot_generation].
      rewrite Hg0. etrans; [exact Hle|]. apply N.le_add_r.
  - intros k g due. rewrite deadline_get_put. case_decide as Hk.
    + subst k. split.
      * intros (rec & Hrow & Hnx & Hlive & Hdue). apply lookup_insert_Some in Hrow.
        destruct Hrow as [[[= <-] <-]|[Hne Hrow]]; [congruence|].
        assert (deadline_get b k0 = {| slot_generation := g; slot_due_at := Some due |}) as E
          by (apply L; by exists rec). rewrite E in Hnone. done.
      * intros [= <- <-]. exists rec0. rewrite lookup_insert_eq. split_and!; try done.
        -- intros <-. destruct (Hx _ eq_refl) as [? ?]. congruence.
        -- by rewrite E5.
    + rewrite <- L. by rewrite lookup_insert_ne by congruence.
Qed.

Lemma books_cancel x b id m k0 g0 rec0 at_ :
  books x b id m → m !! ((id, k0, g0) : DeadlineKey) = Some rec0 →
  slot_generation (deadline_get b k0) = g0 →
  books x (deadline_put b k0 {| slot_generation := g0; slot_due_at := None |}) id
    (<[((id, k0, g0) : DeadlineKey) := rec0 <| dr_state := DeadlineState.Cancelled at_ |>]> m).
Proof.
  intros [R L] Hrow Hg. split.
  - intros k g rec Hrec. rewrite deadline_get_put.
    assert (∃ rec', m !! ((id, k, g) : DeadlineKey) = Some rec' ∧ dr_call_id rec = dr_call_id rec' ∧
      dr_kind rec = dr_kind rec' ∧ dr_generation rec = dr_generation rec')
      as (rec' & Hr' & -> & -> & ->).
    { apply lookup_insert_Some in Hrec as [[[= <- <-] <-]|[_ Hrec]]; eauto. }
    destruct (R _ _ _ Hr') as (? & ? & ? & Hle). case_decide; [|done]. subst. split_and!; try done.
  - intros k g due. rewrite deadline_get_put. case_decide as Hk.
    + subst k. split; [|done]. intros (rec & Hr & Hnx & Hlive & Hdue). exfalso.
      apply lookup_insert_Some in Hr as [[_ <-]|[Hne Hr]]; [done|].
      assert (deadline_get b k0 = {| slot_generation := g; slot_due_at := Some due |}) as E
        by (apply L; by exists rec). rewrite E in Hg. cbn in Hg. congruence.
    + rewrite <- L. by rewrite lookup_insert_ne by congruence.
Qed.

(** One effect, accepted by the ledger. *)
Lemma persist_deadline_books x b b' batch e m m' :
  books x b (eb_call_id batch) m → marked x m → ledger_effect b e = Some b' →
  persist_deadline batch e m = Ok m' →
  books x b' (eb_call_id batch) m' ∧ table_step (eb_call_id batch) m m' ∧
  (∀ key, x = Some key → m' !! key = m !! key).
Proof.
  intros Hb Hx Hl Hp. destruct e; cbn in Hl, Hp; try (by simplify_eq).
  - apply bind_reject_ok in Hp as [Hnew%contains_key_false [= <-]].
    destruct (_ && _) eqn:E; [|done]. apply andb_true_iff in E as [E1%is_none_true E2%N.eqb_eq].
    injection Hl as <-. split_and!.
    + by eapply books_schedule.
    + by apply table_insert.
    + intros key ->. destruct (Hx _ eq_refl) as [? Hs]. rewrite lookup_insert_ne; [done|]. congruence.
  - apply result_bind_ok in Hp as (rec & Hrec%ok_or_ok & [= <-]).
    destruct (_ && _) eqn:E; [|done]. apply andb_true_iff in E as [E1 E2%N.eqb_eq].
    injection Hl as <-. destruct (slot_due_at _) as [due|] eqn:Ed; [|done].
    destruct (proj2 (bk_live _ _ _ _ Hb kind generation due)) as (rec' & Hrec' & Hnx & Hlive & _).
    { destruct (deadline_get b kind). cbn in *. congruence. }
    pose proof (eq_trans (eq_sym Hrec) Hrec') as [= <-].
    destruct (deadline_completed _) eqn:Ec; [by destruct (dr_state rec)|].
    split_and!.
    + by eapply books_cancel.
    + by apply table_insert.
    + intros key ->. apply lookup_insert_ne. intros <-. by apply Hnx.
Qed.

Lemma persist_deadlines_books x b b' batch es m m' :
  books x b (eb_call_id batch) m → marked x m → run_ledger es b = Some b' →
  persist_deadlines batch es m = Ok m' →
  books x b' (eb_call_id batch) m' ∧ table_step (eb_call_id batch) m m' ∧
  (∀ key, x = Some key → m' !! key = m !! key).
Proof.
  revert b m. induction es as [|e es IH]; intros b m Hb Hx Hl Hp; cbn in Hl, Hp; [by simplify_eq|].
  destruct (ledger_effect b e) as [b1|] eqn:E1; [|done]. cbn in Hl.
  apply result_bind_ok in Hp as (m1 & Hm1 & Hp).
  destruct (persist_deadline_books _ _ _ _ _ _ _ Hb Hx E1 Hm1) as (Hb1 & T1 & X1).
  destruct (IH _ _ Hb1) with (2 := Hl) (3 := Hp) as (Hb2 & T2 & X2).
  { intros key ->. apply (ts_grow _ _ _ T1), Hx. done. }
  split; [done|]. split; [by etrans|]. intros key Hkey. by rewrite X2, X1.
Qed.

(** ** The deadline that fires *)

Lemma books_fire b id m k g rec :
  books None b id m → m !! ((id, k, g) : DeadlineKey) = Some rec →
  live_deadline (dr_state rec) = true →
  deadline_get b k = {| slot_generation := g; slot_due_at := Some (dr_due_at rec) |} ∧
  books (Some (id, k, g)) (deadline_put b k ((deadline_get b k) <| slot_due_at := None |>)) id m.
Proof.
  intros [R L] Hrow Hlive.
  assert (Hslot : deadline_get b k = {| slot_generation := g; slot_due_at := Some (dr_due_at rec) |})
    by (apply L; by exists rec).
  split; [done|]. split.
  - intros k' g' rec' H'. destruct (R _ _ _ H') as (? & ? & ? & Hle). split_and!; try done.
    rewrite deadline_get_put. case_decide as Hk; [|done]. cbn. by rewrite Hk.
  - intros k' g' due. rewrite deadline_get_put. case_decide as Hk.
    + subst k'. rewrite Hslot. split; [|done]. intros (rec' & H' & Hnx & Hl' & Hd'). exfalso.
      assert (deadline_get b k = {| slot_generation := g'; slot_due_at := Some due |}) as E
        by (apply L; by exists rec'). rewrite Hslot in E. injection E as <- _. by apply Hnx.
    + rewrite <- L. split; intros (rec' & H' & _ & Hl' & Hd'); exists rec'; split_and!; try done.
      intros [= <- _]. done.
Qed.

Lemma books_completed b id m k g rec at_ :
  books (Some (id, k, g)) b id m → m !! ((id, k, g) : DeadlineKey) = Some rec →
  books None b id
    (<[((id, k, g) : DeadlineKey) := rec <| dr_state := DeadlineState.Completed at_ |>]> m).
Proof.
  intros [R L] Hrow. split.
  - intros k' g' rec' Hrec. apply lookup_insert_Some in Hrec as [[[= <- <-] <-]|[_ Hrec]].
    + apply (R _ _ _ Hrow).
    + apply (R _ _ _ Hrec).
  - intros k' g' due. rewrite <- L. split.
    + intros (rec' & Hrec & _ & Hlive & Hd). apply lookup_insert_Some in Hrec as [[_ <-]|[Hne Hrec]]; [done|].
      exists rec'. split_and!; try done. intros [= -> ->]. by apply Hne.
    + intros (rec' & Hrec & Hne & Hlive & Hd). exists rec'. rewrite lookup_insert_ne.
      * by split_and!.
      * intros [= -> ->]. by apply Hne.
Qed.

(** A timer of the armed generation is never ignored. *)
Lemma armed_deadline_applies a at_ k g ed d due :
  deadline_get (ca_deadlines a) k = {| slot_generation := g; slot_due_at := Some due |} →
  decide a (DeadlineElapsed at_ k g ed) = Ok d → applies d = true.
Proof.
  intros Hslot H. unfold decide in H. apply result_bind_ok in H as ([a' r] & Ha & H).
  assert (Hr : cr_disposition r = CommandDisposition.Applied).
  { cbn [apply_command] in Ha. unfold deadline_elapsed in Ha.
    rewrite (proj2 (compare_deadline_None _ _ _ _)) in Ha
      by (unfold generation_of; by rewrite Hslot).
    cbn [mbind result_bind] in Ha. cbv zeta in Ha. rewrite Hslot in Ha. cbn [slot_due_at] in Ha.
    inv_ok Ha; simplify_eq; try done. }
  cbn in H. rewrite Hr in H. cbn in H. inv_ok H.
  unfold applies. simplify_eq/=. by rewrite ?Hr.
Qed.

Lemma decision_booked a c d :
  valid_call a → decide a c = Ok d → applies d = true →
  run_ledger (cd_effects d) (ca_deadlines (disarmed a c)) = Some (ca_deadlines (cd_aggregate d)).
Proof.
  intros Hv Hd Ha.
  destruct (decide_inv _ _ _ Hv Hd) as [(a' & r & Hap & Hr & _ & _ & -> & -> & _)|(_ & _ & Hn)].
  - by apply apply_command_booked in Hap as ->.
  - unfold applies in Ha. by bool_hyps.
Qed.

(** ** The invariant *)

Record deadlines_ok (s : MemoryState) : Prop := {
  do_books id c : rm_calls s !! id = Some c →
    books None (ca_deadlines (sc_aggregate c)) id (rm_deadlines s);
  do_owner key : is_Some (rm_deadlines s !! key) → is_Some (rm_calls s !! key.1.1);
}.

(** The rows of a call are the only ones its books mention. *)
Lemma books_ext x b id m m' :
  (∀ k g, m' !! ((id, k, g) : DeadlineKey) = m !! ((id, k, g) : DeadlineKey)) →
  books x b id m → books x b id m'.
Proof.
  intros E [R L]. split.
  - intros k g rec. rewrite E. apply R.
  - intros k g due. rewrite E. apply L.
Qed.

(** The table and the calls change together for one call. *)
Lemma deadlines_put s s' id c :
  deadlines_ok s → rm_calls s' = <[id := c]> (rm_calls s) →
  table_step id (rm_deadlines s) (rm_deadlines s') →
  books None (ca_deadlines (sc_aggregate c)) id (rm_deadlines s') → deadlines_ok s'.
Proof.
  intros [B O] Ec T Hb. split.
  - intros id' c'. rewrite Ec, lookup_insert_Some. intros [[<- <-]|[Hne Hc]]; [done|].
    eapply books_ext; [|by apply B]. intros k g. by apply (ts_other _ _ _ T).
  - intros key Hk. rewrite Ec. destruct (base.decide (id = key.1.1)) as [<-|Hne].
    + by rewrite lookup_insert_eq.
    + rewrite lookup_insert_ne by done. apply O.
      destruct (ts_mine _ _ _ T _ Hk) as [|E]; [done|]. by rewrite E in Hne.
Qed.

(** A call whose deadlines did not move. *)
Lemma deadlines_same s s' :
  deadlines_ok s → rm_deadlines s' = rm_deadlines s →
  (∀ id c', rm_calls s' !! id = Some c' → ∃ c, rm_calls s !! id = Some c ∧
     ca_deadlines (sc_aggregate c') = ca_deadlines (sc_aggregate c)) →
  (∀ id, is_Some (rm_calls s !! id) → is_Some (rm_calls s' !! id)) → deadlines_ok s'.
Proof.
  intros [B O] Ed Hc Hk. split.
  - intros id c' (c & H0 & ->)%Hc. rewrite Ed. by apply B.
  - intros key. rewrite Ed. intros H%O. by apply Hk.
Qed.

(** A call row is replaced by one with the same deadlines. *)
Lemma deadlines_replaced s s' id c c' :
  deadlines_ok s → rm_deadlines s' = rm_deadlines s → rm_calls s !! id = Some c →
  rm_calls s' = <[id := c']> (rm_calls s) →
  ca_deadlines (sc_aggregate c') = ca_deadlines (sc_aggregate c) → deadlines_ok s'.
Proof.
  intros Hok Ed Hc Ec E. apply (deadlines_same s); [done..| |].
  - intros id' c0. rewrite Ec, lookup_insert_Some. intros [[<- <-]|[_ Hc0]]; by eexists.
  - intros id' Hs. rewrite Ec, lookup_insert_is_Some'. by right.
Qed.

(** The table a commit leaves, read off its two deadline writes. *)
Lemma completed_table s dl dl' claim at_ :
  complete_deadline (s <| rm_deadlines := dl |>) claim at_ = Ok (s <| rm_deadlines := dl' |>) →
  match claim with
  | None => dl' = dl
  | Some g => ∃ rec, dl !! ((dg_call_id g, dg_kind g, dg_generation g) : DeadlineKey) = Some rec ∧
      dl' = <[((dg_call_id g, dg_kind g, dg_generation g) : DeadlineKey) :=
                rec <| dr_state := DeadlineState.Completed at_ |>]> dl
  end.
Proof.
  unfold complete_deadline. intros H. destruct claim as [g|].
  - cbv zeta in H. apply result_bind_ok in H as (rec & Hrec%ok_or_ok & H). exists rec.
    split; [done|]. by injection H as <-.
  - by injection H as <-.
Qed.

(** A claim that is accepted is the claim of the deadline the command reports. *)
Lemma accepted_claim request s claim :
  ct_deadline_claim request = Some claim → validate_command_deadline_claim request = Ok () →
  validate_deadline_claim s (Some claim) (ct_at request) = Ok () →
  dg_call_id claim = ct_call_id request ∧
  (∃ at_ ed, ct_command request = DeadlineElapsed at_ (dg_kind claim) (dg_generation claim) ed) ∧
  ∃ rec, rm_deadlines s !! ((dg_call_id claim, dg_kind claim, dg_generation claim) : DeadlineKey)
           = Some rec ∧ live_deadline (dr_state rec) = true.
Proof.
  intros Eclaim Hc1 Hc2. unfold validate_command_deadline_claim in Hc1. rewrite Eclaim in Hc1.
  destruct (ct_command request) eqn:Ecmd; try done.
  match type of Hc1 with (if ?x then _ else _) = _ => destruct x eqn:E; [|done] end.
  repeat (apply andb_true_iff in E; destruct E as [E ?]). bool_hyps. subst.
  unfold validate_deadline_claim in Hc2. apply result_bind_ok in Hc2 as (rec & Hrec%ok_or_ok & Hst).
  split; [done|]. split; [eauto|]. exists rec. split; [done|]. by destruct (dr_state rec).
Qed.

(** The row a claim names. *)
Definition claimed_row (request : CommandCommit) : option DeadlineKey :=
  match ct_deadline_claim request with
  | Some g => Some (dg_call_id g, dg_kind g, dg_generation g)
  | None => None
  end.

(** The ledger a committed command starts from, and the one it ends with. *)
Lemma commit_ledger request s c d :
  valid_call (sc_aggregate c) → commit_guarded request s c d →
  books None (ca_deadlines (sc_aggregate c)) (ct_call_id request) (rm_deadlines s) →
  ∃ b, books (claimed_row request) b (ct_call_id request) (rm_deadlines s) ∧
       marked (claimed_row request) (rm_deadlines s) ∧
       run_ledger (cd_effects d) b = Some (ca_deadlines (cd_aggregate d)) ∧
       (∀ claim, ct_deadline_claim request = Some claim → dg_call_id claim = ct_call_id request).
Proof.
  intros Hv [] Hb. destruct cg_claim as [Hc1 Hc2]. unfold claimed_row.
  destruct (ct_deadline_claim request) as [claim|] eqn:Eclaim.
  - (* a deadline fires *)
    destruct (accepted_claim _ _ _ Eclaim Hc1 Hc2) as (E & (t & ed & Ecmd) & rec & Hrec & Hlive).
    rewrite E in *. rewrite Ecmd in *.
    destruct (books_fire _ _ _ _ _ rec Hb Hrec Hlive) as [Hslot Hb1].
    assert (Ha : applies d = true) by by eapply armed_deadline_applies.
    pose proof (decision_booked _ _ _ Hv cg_decide Ha) as Hl.
    eexists. split; [exact Hb1|]. split; [intros key [= <-]; by eexists|]. split; [done|].
    by intros ? [= <-].
  - (* no claim *)
    exists (ca_deadlines (sc_aggregate c)). split; [done|]. split; [done|]. split; [|done].
    assert (Hno : disarmed (sc_aggregate c) (ct_command request) = sc_aggregate c).
    { unfold validate_command_deadline_claim in Hc1. rewrite Eclaim in Hc1.
      by destruct (ct_command request). }
    destruct (applies d) eqn:Ha.
    + pose proof (decision_booked _ _ _ Hv cg_decide Ha) as Hl. by rewrite Hno in Hl.
    + destruct (decide_keeps _ _ _ Hv cg_decide) as (_ & _ & _ & _ & Hk). rewrite Ha in Hk.
      by destruct Hk as [-> ->].
Qed.

(** What a commit does to the table. *)
Lemma commit_books new_id request s c d view s' :
  valid_call (sc_aggregate c) → commit_guarded request s c d →
  commit_written new_id request s c d view s' →
  books None (ca_deadlines (sc_aggregate c)) (ct_call_id request) (rm_deadlines s) →
  books None (ca_deadlines (cd_aggregate d)) (ct_call_id request) (rm_deadlines s') ∧
  table_step (ct_call_id request) (rm_deadlines s) (rm_deadlines s').
Proof.
  intros Hv G W Hb. destruct (commit_ledger _ _ _ _ Hv G Hb) as (b & Hb1 & Hm & Hl & Hid).
  destruct W. destruct cw_deadlines as (dl & Hdl & Hdone%completed_table).
  destruct (persist_deadlines_books _ _ _ (commit_batch request (cd_aggregate d)) _ _ _ Hb1 Hm Hl Hdl)
    as (Hb2 & T & _). cbn [eb_call_id commit_batch] in *.
  unfold claimed_row in *. destruct (ct_deadline_claim request) as [claim|]; [|by subst].
  destruct Hdone as (rec & Hrec & ->). rewrite (Hid _ eq_refl) in *.
  split; [by eapply books_completed|]. etrans; [exact T|]. by apply table_insert.
Qed.

(** A pending call has no armed deadline. *)
Lemma pending_books a c m :
  valid_call a → ca_state a = CallState.Pending →
  (∀ key : DeadlineKey, key.1.1 = ca_id a → m !! key = None) →
  books None (ca_deadlines (disarmed a c)) (ca_id a) m.
Proof.
  intros [_ Hv] Hp Hno. split; [intros k g rec; by rewrite Hno|]. intros k g due.
  rewrite Hno by done. split; [by intros (? & ? & _)|]. intros Hslot. exfalso.
  assert (Hu : ∀ k, slot_due_at (deadline_get (ca_deadlines a) k) = None).
  { intros k'. destruct (slot_due_at _) eqn:E; [|done].
    apply (armed_allowed _ _ _ Hv) in E. rewrite Hp in E. by destruct k'. }
  assert (slot_due_at (deadline_get (ca_deadlines (disarmed a c)) k) = None) as E.
  { destruct c; cbn [disarmed]; try apply Hu. cbn. rewrite deadline_get_put. by case_decide. }
  by rewrite Hslot in E.
Qed.

Section Deadlines.
Context {chrono : Chrono} {libs : ServiceLibs}.

Lemma deadlines_create_written new_id request s d k fp s' :
  deadlines_ok s → create_guarded request s d k fp → create_written new_id request s d k fp s' →
  deadlines_ok s'.
Proof using.
  intros Hok [] [].
  assert (Ha : applies d = true) by (unfold applies; by rewrite kg_applied).
  pose proof (decision_booked _ _ _ kg_valid kg_decide Ha) as Hl.
  assert (Hb : books None (ca_deadlines (disarmed (cc_initial request) (cc_command request)))
    (ca_id (cc_initial request)) (rm_deadlines s)).
  { apply pending_books; [done..|]. intros key Hk.
    destruct (rm_deadlines s !! key) eqn:E; [|done].
    destruct (do_owner _ Hok key) as [? Hc]; [by eexists|]. rewrite Hk in Hc. congruence. }
  assert (Hm : marked None (rm_deadlines s)) by done.
  destruct (persist_deadlines_books _ _ _ (create_batch request d) _ _ _ Hb Hm Hl kw_deadlines)
    as (Hb2 & T & _).
  by eapply deadlines_put; [done|exact kw_calls|..].
Qed.

Lemma deadlines_commit_written new_id request s c d view s' :
  deadlines_ok s → valid_call (sc_aggregate c) → commit_guarded request s c d →
  commit_written new_id request s c d view s' → deadlines_ok s'.
Proof using.
  intros Hok Hv G W. destruct (commit_books _ _ _ _ _ _ _ Hv G W) as [Hb T].
  - apply (do_books _ Hok). apply G.
  - eapply deadlines_put; [done|apply W|done|done].
Qed.

(** Claiming a live row keeps it live. *)
Lemma deadlines_update_rows s m' :
  deadlines_ok s →
  (∀ key, m' !! key = rm_deadlines s !! key ∨
     ∃ rec rec', rm_deadlines s !! key = Some rec ∧ m' !! key = Some rec' ∧
       dr_call_id rec' = dr_call_id rec ∧ dr_kind rec' = dr_kind rec ∧
       dr_generation rec' = dr_generation rec ∧ dr_due_at rec' = dr_due_at rec ∧
       live_deadline (dr_state rec') = live_deadline (dr_state rec)) →
  deadlines_ok (s <| rm_deadlines := m' |>).
Proof using.
  intros [B O] Hm. split.
  - intros id c Hc. destruct (B id c Hc) as [R L]. split.
    + intros k g rec Hrec. cbn in Hrec.
      destruct (Hm (id, k, g)) as [E|(r0 & r1 & H0 & H1 & E1 & E2 & E3 & _)].
      * rewrite E in Hrec. by apply R.
      * pose proof (eq_trans (eq_sym Hrec) H1) as [= ->]. rewrite E1, E2, E3. by apply R.
    + intros k g due. rewrite <- L. cbn.
      destruct (Hm (id, k, g)) as [->|(r0 & r1 & -> & -> & _ & _ & _ & Ed & El)]; [done|].
      split; intros (r & [= <-] & Hx & Hl & Hd); eexists; (split; [done|]); split_and!; congruence.
  - intros key Hk. apply (O key). cbn in Hk.
    destruct (Hm key) as [E|(r0 & r1 & E & _)]; [|by eexists]. destruct Hk as [x Hx]. exists x. etrans; [symmetry; exact E|exact Hx].
Qed.

Lemma deadlines_effect s s' : capacity_ok s → deadlines_ok s → effect s s' → deadlines_ok s'.
Proof using.
  intros Hcap Hok He. assert (Hsame : ∀ s', rm_deadlines s' = rm_deadlines s →
    rm_calls s' = rm_calls s → deadlines_ok s').
  { intros s1 E1 E2. apply (deadlines_same s); [done..| |by rewrite E2].
    rewrite E2. intros; by eexists. }
  destruct He; try (by apply Hsame).
  - by eapply deadlines_create_written.
  - eapply deadlines_commit_written; eauto. apply (cy_calls s Hcap _ _ (cg_call _ _ _ _ H0)).
  - pose proof (ng_call _ _ _ _ H0) as Hc.
    assert (Hv : valid_call (sc_aggregate (consumed_call request c)))
      by (unfold consumed_call; destruct (replaces_pending _ _); apply (cy_calls s Hcap _ _ Hc)).
    eapply deadlines_commit_written; [|exact Hv|done..].
    eapply (deadlines_replaced s); [done|done|exact Hc|done|].
    unfold consumed_call. by destruct (replaces_pending request c).
  - apply ingest_frame in H as (? & ? & ->). by apply Hsame.
  - apply bind_frame in H as (? & ? & ->). by apply Hsame.
  - apply apply_event_ok in H1 as (? & _ & _ & ->). by apply Hsame.
  - apply deadlines_update_rows; [done|]. intros key'.
    destruct (base.decide (key = key')) as [<-|]; [|by left; rewrite lookup_insert_ne].
    right. exists record. rewrite lookup_insert_eq. eexists. split_and!; try done. cbn.
    by destruct (dr_state record).
  - eapply (deadlines_replaced (s <| rm_deadlines := rm_deadlines (restarted_state w at_ id c s) |>));
      [|done|exact H|done|done].
    apply deadlines_update_rows; [done|]. intros key. cbn. unfold update_where.
    rewrite lookup_fmap. destruct (rm_deadlines s !! key) as [rec|] eqn:E; [|by left].
    right. cbn. eexists _, _. split; [done|]. split; [done|].
    destruct (_ ==? _); [|done]. unfold expire_deadline_claim. by destruct (dr_state rec) eqn:Es; rewrite ?Es.
Qed.

Lemma deadlines_service s s' : capacity_ok s → deadlines_ok s → service_effect s s' → deadlines_ok s'.
Proof using.
  intros Hcap Hok [].
  - pose proof (side_core _ _ H) as E. apply (deadlines_same s); [done|apply (f_equal rm_deadlines E)|..];
      rewrite (f_equal rm_calls E : rm_calls s'0 = rm_calls s); [intros; by eexists|done].
  - apply (deadlines_same s); [done..|intros; by eexists|done].
  - apply (deadlines_same s1); [by eapply deadlines_create_written|done|intros; by eexists|done].
  - eapply (deadlines_replaced s); [done|done|apply H|done|done].
  - pose proof (ko_valid _ _ _ (cy_calls s Hcap _ _ (cg_call _ _ _ _ H0))) as Hv.
    eapply (deadlines_replaced s1 _ (ct_call_id command)); [by eapply deadlines_commit_written|done| |done|].
    + rewrite (cw_calls _ _ _ _ _ _ _ H1). apply lookup_insert_eq.
    + done.
Qed.

Lemma store_deadlines r : store_reachable r → deadlines_ok (mr_state r).
Proof using.
  apply (store_reachable_invariant deadlines_ok); [apply deadlines_effect|apply deadlines_service|]. split; [done|]. by intros key [? ?].
Qed.
End Deadlines.

(** ** Claims *)

(** A claimed deadline is a live row under one of the selected keys. *)
Lemma claim_deadline_loop_spec w exp keys s out s' claim :
  claim_deadline_loop w exp keys s = Ok (out, s') → claim ∈ out →
  ∃ key rec generation,
    key ∈ keys ∧ rm_deadlines s !! key = Some rec ∧ live_deadline (dr_state rec) = true ∧
    cl_record claim = rec <| dr_state := DeadlineState.Claimed w generation exp |>.
Proof.
  revert s out. induction keys as [|key keys IH]; intros s out H Hin; cbn in H.
  { injection H as <- _. by apply not_elem_of_nil in Hin. }
  apply result_bind_ok in H as (rec & Hrec%ok_or_ok & H). open_option H.
  - apply result_bind_ok in H as (g & _ & H).
    apply result_bind_ok in H as ([claimed s1] & H1 & [= <- <-]).
    assert (Hlive : live_deadline (dr_state rec) = true) by by destruct (dr_state rec).
    apply elem_of_cons in Hin as [->|Hin].
    + exists key, rec, g. split_and!; try done. by constructor.
    + destruct (IH _ _ H1 Hin) as (key' & rec' & g' & Hk & Hr & Hl & Hc). cbn in Hr.
      apply lookup_insert_Some in Hr as [[<- <-]|[_ Hr]].
      * exists key, rec, g'. split_and!; try done. by constructor.
      * exists key', rec', g'. split_and!; try done. by constructor.
  - destruct (IH _ _ H Hin) as (key' & rec' & g' & Hk & Hr). exists key', rec', g'.
    split; [by constructor|done].
Qed.

Lemma due_key s w at_ limit key :
  deadlines_ok s →
  key ∈ map deadline_key (take limit (sort_by compare_deadlines
          (List.filter (deadline_due s w at_) (values (rm_deadlines s))))) →
  ∃ rec, rm_deadlines s !! key = Some rec ∧ deadline_key rec = key ∧ deadline_due s w at_ rec = true.
Proof.
  intros Hok Hin. change (map deadline_key) with (fmap deadline_key : list _ → list DeadlineKey) in Hin.
  apply list_elem_of_fmap in Hin as (rec & -> & Hin). apply elem_of_take in Hin as (i & Hi & _).
  apply list_elem_of_lookup_2 in Hi. rewrite sort_by_perm in Hi.
  apply list_elem_of_In, filter_In in Hi as [Hi Hdue]. apply list_elem_of_In, values_elem in Hi as [key Hkey].
  exists rec. split; [|done]. destruct (do_owner _ Hok key) as [c Hc]; [by eexists|].
  destruct key as [[id k] g]. destruct (bk_row _ _ _ _ (do_books _ Hok _ _ Hc) _ _ _ Hkey) as (E1 & E2 & E3 & _).
  unfold deadline_key. rewrite E1, E2, E3. exact Hkey.
Qed.

(** C21. The deadline table is a faithful image of the stored calls.  In every store that
    calls of the methods of both repositories lead to, a row can still fire exactly when the call's aggregate has that deadline armed,
    with the same kind, generation and due time, and every row belongs to a stored call; so a
    deadline that a worker claims is due, is armed in the aggregate of a live call of that very
    worker, and reporting that it elapsed is never ignored as stale. *)
Theorem deadline_rows_mirror_calls `{Chrono, ServiceLibs} (r : MemoryRepository) :
  store_reachable r →
  (∀ id c k g due, rm_calls (mr_state r) !! id = Some c →
     (∃ row, rm_deadlines (mr_state r) !! ((id, k, g) : DeadlineKey) = Some row ∧
             live_deadline (dr_state row) = true ∧ dr_due_at row = due) ↔
     deadline_get (ca_deadlines (sc_aggregate c)) k
       = {| slot_generation := g; slot_due_at := Some due |}) ∧
  (∀ key row, rm_deadlines (mr_state r) !! key = Some row →
     deadline_key row = key ∧ is_Some (rm_calls (mr_state r) !! dr_call_id row)) ∧
  (∀ w at_ ttl limit r' claims claim,
     claim_due_deadlines r w at_ ttl limit = (r', Ok claims) → claim ∈ claims →
     ∃ c, let row := cl_record claim in
       rm_calls (mr_state r) !! dr_call_id row = Some c ∧
       wa_lease (sc_assignment c) = w ∧ wa_released_at (sc_assignment c) = None ∧
       dr_due_at row ≤ at_ ∧
       deadline_get (ca_deadlines (sc_aggregate c)) (dr_kind row)
         = {| slot_generation := dr_generation row; slot_due_at := Some (dr_due_at row) |} ∧
       ∀ t ending d,
         decide (sc_aggregate c) (DeadlineElapsed t (dr_kind row) (dr_generation row) ending) = Ok d →
         cd_disposition d = CommandDisposition.Applied).
Proof.
  intros Hr. pose proof (store_deadlines r Hr) as Hok. split; [|split].
  - intros id c k g due Hc. rewrite <- (bk_live _ _ _ _ (do_books _ Hok _ _ Hc) k g due).
    split; [intros (row & ? & ? & ?)|intros (row & ? & _ & ? & ?)]; by exists row.
  - intros [[id k] g] row Hrow. destruct (do_owner _ Hok (id, k, g)) as [c Hc]; [by eexists|].
    cbn in Hc. destruct (bk_row _ _ _ _ (do_books _ Hok _ _ Hc) _ _ _ Hrow) as (E1 & E2 & E3 & _).
    unfold deadline_key. rewrite E1, E2, E3. split; [done|by eexists].
  - intros w at_ ttl limit r' claims claim Hc Hin.
    apply claim_method_ok in Hc as [[_ ->]|(exp & s' & _ & Htx & _)]; [by apply not_elem_of_nil in Hin|].
    unfold claim_due_deadlines_in_state in Htx. apply bind_unit_ok in Htx as [_ Htx]. cbv zeta in Htx.
    destruct (claim_deadline_loop_spec _ _ _ _ _ _ _ Htx Hin) as (key & rec & g & Hk & Hrec & Hlive & ->).
    apply due_key in Hk as (rec' & Hrec' & <- & Hdue); [|done].
    pose proof (eq_trans (eq_sym Hrec) Hrec') as [= ->]. unfold deadline_due in Hdue.
    apply andb_true_iff in Hdue as [[Hd%Z.leb_le _]%andb_true_iff Hcall].
    destruct (rm_calls (mr_state r) !! dr_call_id rec') as [c|] eqn:Hc; [|done]. cbn in Hcall.
    apply andb_true_iff in Hcall as [Hrel%is_none_true Hl]. bool_hyps.
    assert (Hslot : deadline_get (ca_deadlines (sc_aggregate c)) (dr_kind rec')
      = {| slot_generation := dr_generation rec'; slot_due_at := Some (dr_due_at rec') |}).
    { apply (bk_live _ _ _ _ (do_books _ Hok _ _ Hc)). by exists rec'. }
    exists c. cbn. split_and!; try done. intros t ending d Hdec.
    eapply armed_deadline_applies in Hdec; [|exact Hslot]. unfold applies in Hdec. by bool_hyps.
Qed.

Lemma deadline_rows_mirror_calls_witness :
  ∃ row, rm_deadlines (mr_state created) !! ((1, DeadlineKind.Setup, 1%N) : DeadlineKey) = Some row ∧
         live_deadline (dr_state row) = true ∧ dr_due_at row = 10.
Proof.
  destruct (rm_calls (mr_state created) !! (1 : CallId)) as [c|] eqn:E.
  - apply (proj1 (@deadline_rows_mirror_calls chrono_sample libs_sample created store_created) 1 c _ _ _ E).
    assert (Hs : option_map (λ c, deadline_get (ca_deadlines (sc_aggregate c)) DeadlineKind.Setup)
        (rm_calls (mr_state created) !! (1 : CallId))
      = Some {| slot_generation := 1%N; slot_due_at := Some 10 |}) by (vm_compute; reflexivity).
    rewrite E in Hs. cbn [option_map] in Hs. injection Hs as Hs. exact Hs.
  - assert (Hs : is_some (rm_calls (mr_state created) !! (1 : CallId)) = true) by (vm_compute; reflexivity).
    rewrite E in Hs. discriminate.
Defined.
