(* ===== verification/RepoFence.v ===== *)
(** Worker fencing in the store: the lease of a superseded incarnation of a
    worker opens nothing. *)

From S2P Require Import Prelude RustText DomainTypes CoordModel Domain DomainInv DomainSafety.
From S2P Require Import DomainWorld DomainTrace DomainTheorems.
From S2P Require Import RepoTypes ServiceTypes RepoMemory RepoClaims RepoFrame RepoCommit RepoInv ServiceSample RepoEffects.
From S2P Require Import PlanModel ServiceCommands ServiceMemory ServiceReconcile ServiceEffects ServiceSample RepoTheorems.
From stdpp Require Import options.

(** The worker has been registered again since the lease was given out. *)
Definition superseded (s : MemoryState) (w : WorkerLease) : Prop :=
  ∃ k, rm_workers s !! wl_worker_id w = Some k ∧ (wl_fence w < wl_fence (wk_lease k))%N.

#[export] Instance fences_kept_preorder : PreOrder fences_kept.
Proof.
  split; [intros ws w k H; by exists k|]. intros a b c H1 H2 w k (k1 & Hk1 & L1)%H1.
  destruct (H2 _ _ Hk1) as (k2 & Hk2 & L2). exists k2. split; [done|lia].
Qed.

Lemma fences_commit_written new_id request s c d view s' :
  commit_written new_id request s c d view s' → fences_kept (rm_workers s) (rm_workers s').
Proof.
  intros []. destruct (terminates d); [|by rewrite cw_workers].
  destruct cw_workers as (k & Hk & _ & ->). apply fences_put. intros k0 Hk0.
  pose proof (eq_trans (eq_sym Hk) Hk0) as [= ->]. cbn. lia.
Qed.

Section Fences.
Context {chrono : Chrono} {libs : ServiceLibs}.

Lemma fences_create_written new_id request s d k fp s' :
  create_guarded request s d k fp → create_written new_id request s d k fp s' →
  fences_kept (rm_workers s) (rm_workers s').
Proof using. intros [] []. rewrite kw_workers. apply fences_put. intros k0 Hk0. by simplify_eq. Qed.

Lemma fences_effect s s' : effect s s' → fences_kept (rm_workers s) (rm_workers s').
Proof using.
  intros []; try done.
  - by eapply fences_create_written.
  - by eapply fences_commit_written.
  - change (rm_workers s) with (rm_workers (consumed_state request row c s)).
    by eapply fences_commit_written.
  - by apply ingest_frame in H as (? & ? & ->).
  - by apply bind_frame in H as (? & ? & ->).
  - by apply apply_event_ok in H1 as (? & _ & _ & ->).
Qed.

Lemma fences_service s s' : service_effect s s' → fences_kept (rm_workers s) (rm_workers s').
Proof using.
  intros []; try done.
  - by rewrite (f_equal rm_workers (side_core _ _ H) : rm_workers s'0 = rm_workers s).
  - exact (fences_create_written _ _ _ _ _ _ _ H0 H1).
  - exact (fences_commit_written _ _ _ _ _ _ _ H1).
Qed.

Lemma fences_run r r' :
  rtc store_step r r' → capacity_ok (mr_state r) →
  fences_kept (rm_workers (mr_state r)) (rm_workers (mr_state r')).
Proof using.
  intros Hr Hok.
  apply (store_invariant (λ s, fences_kept (rm_workers (mr_state r)) (rm_workers s)) r r'); [..|done|done|done];
    intros s s' _ H0 He; (etrans; [exact H0|]); [by apply fences_effect|by apply fences_service].
Qed.

Lemma superseded_run r r' w :
  rtc store_step r r' → capacity_ok (mr_state r) → superseded (mr_state r) w →
  superseded (mr_state r') w.
Proof using.
  intros Hr Hok (k & Hk & Hlt). destruct (fences_run _ _ Hr Hok _ _ Hk) as (k' & Hk' & Hle).
  exists k'. split; [done|lia].
Qed.
End Fences.

Lemma superseded_lease s w : superseded s w → leased_worker s w = None.
Proof.
  intros (k & Hk & Hlt). destruct (leased_worker s w) as [k'|] eqn:E; [|done].
  apply leased_worker_Some in E as [Hk' Hl]. simplify_eq. lia.
Qed.

Lemma superseded_refused s w allow at_ :
  superseded s w → ensure_worker s w allow at_ = Err RepositoryError.StaleWorkerFence.
Proof. intros Hs%superseded_lease. unfold ensure_worker. by rewrite Hs. Qed.

(** ** What a lease is presented to *)

(** Work was handed out. *)
Definition granted {A} (r : result RepositoryError (list A)) : bool :=
  match r with Ok (_ :: _) => true | _ => false end.

(** [presents w r r' ok]: a method of the repository [r] is called under the lease [w]; it leaves
    [r'], and [ok] says whether it did what was asked. *)
Inductive presents `{Chrono} (w : WorkerLease) (r : MemoryRepository) : MemoryRepository → bool → Prop :=
| presents_activate request : aw_worker request = w →
    presents w r (activate_worker_capabilities r request).1
      (is_ok (activate_worker_capabilities r request).2)
| presents_renew request : nw_worker request = w →
    presents w r (renew_worker_lease r request).1 (is_ok (renew_worker_lease r request).2)
| presents_drain draining at_ :
    presents w r (set_worker_draining r w draining at_).1
      (is_ok (set_worker_draining r w draining at_).2)
| presents_active at_ : presents w r r (is_ok (active_worker_snapshot r w at_))
| presents_commit new_id request : ct_worker request = w →
    presents w r (commit_command new_id r request).1 (is_ok (commit_command new_id r request).2)
| presents_release tenant_id call_id at_ :
    presents w r (release_assignment r tenant_id call_id w at_).1
      (is_ok (release_assignment r tenant_id call_id w at_).2)
| presents_inspect request : lk_worker request = w →
    presents w r r (is_ok (inspect_attachment r request))
| presents_consume new_id request : an_worker (am_candidate request) = w →
    presents w r (consume_attachment new_id r request).1
      (is_ok (consume_attachment new_id r request).2)
| presents_bind request : bp_worker request = w →
    presents w r (bind_provider_reference r request).1 (is_ok (bind_provider_reference r request).2)
| presents_claim_events at_ ttl limit :
    presents w r (claim_provider_events r w at_ ttl limit).1
      (granted (claim_provider_events r w at_ ttl limit).2)
| presents_complete_event new_id request : pc_worker request = w →
    presents w r (complete_provider_event new_id r request).1
      (is_ok (complete_provider_event new_id r request).2)
| presents_acknowledge request : ta_worker request = w →
    presents w r (acknowledge_terminal_provider_event r request).1
      (is_ok (acknowledge_terminal_provider_event r request).2)
| presents_claim_outbox at_ ttl limit :
    presents w r (claim_outbox r w at_ ttl limit).1 (granted (claim_outbox r w at_ ttl limit).2)
| presents_complete_outbox effect_id generation completion at_ :
    presents w r (complete_outbox r effect_id w generation completion at_).1
      (is_ok (complete_outbox r effect_id w generation completion at_).2)
| presents_claim_deadlines at_ ttl limit :
    presents w r (claim_due_deadlines r w at_ ttl limit).1
      (granted (claim_due_deadlines r w at_ ttl limit).2)
| presents_restart at_ limit :
    presents w r (claim_restart_calls r w at_ limit).1 (granted (claim_restart_calls r w at_ limit).2).

(** A transaction whose body fails. *)
Lemma transaction_refused {A} r (tx : Tx A) (f : result RepositoryError A → bool) :
  (∀ e, f (Err e) = false) → (∃ e, tx (mr_state r) = Err e) →
  (transaction r tx).1 = r ∧ f (transaction r tx).2 = false.
Proof.
  intros Hf [e He]. unfold transaction, lock. destruct (mr_poisoned r); cbn; [by split|].
  rewrite He. cbn. by split.
Qed.

Lemma claim_refused {A} `{Chrono} r at_ ttl limit (tx : DateTime → Tx (list A)) :
  (∀ exp, ∃ e, tx exp (mr_state r) = Err e) →
  (claim_method r at_ ttl limit tx).1 = r ∧ granted (claim_method r at_ ttl limit tx).2 = false.
Proof.
  intros Htx. unfold claim_method. destruct (chrono_ttl at_ ttl) as [exp|]; [|done].
  destruct (limit =? 0)%N; [done|]. by apply transaction_refused.
Qed.

(** Commands under a superseded lease fail, recorded or not. *)
Lemma commit_superseded new_id request s :
  superseded s (ct_worker request) → ∃ e, commit_command_in_state new_id request s = Err e.
Proof.
  intros Hs. unfold commit_command_in_state.
  destruct (validate_command_timestamp _ _) as [[]|]; cbn [mbind result_bind]; [|by eexists].
  destruct (command_id_conflicts_with_service_namespace _ _); [by eexists|].
  destruct (_ !! _); [unfold replay_command|unfold ensure_call_worker];
    rewrite superseded_refused by done; by eexists.
Qed.

(** Closes a goal [∃ e, body = Err e] for a body that first looks at the lease. *)
Ltac stale :=
  cbv zeta; first [rewrite superseded_lease by done|rewrite superseded_refused by done]; by eexists.

Lemma managed_superseded {A} s t id w at_ (body : result RepositoryError A) :
  superseded s w → (∃ e, body = Err e) →
  ∃ e, (reject_service_managed_call s t id w at_;; body) = Err e.
Proof.
  intros Hs [e ->]. destruct (reject_service_managed_call _ _ _ _ _) as [[]|]; by eexists.
Qed.

Lemma bind_superseded request s :
  superseded s (bp_worker request) → ∃ e, bind_provider_reference_in_state request s = Err e.
Proof.
  intros Hs. unfold bind_provider_reference_in_state, ensure_call_worker.
  rewrite superseded_refused by done. by eexists.
Qed.

Lemma complete_event_superseded new_id request s :
  superseded s (pc_worker request) → ∃ e, complete_provider_event_in_state new_id request s = Err e.
Proof.
  intros Hs. unfold complete_provider_event_in_state. cbv zeta. destruct (_ || _); [by eexists|].
  cbn [reject_if mbind result_bind]. rewrite superseded_refused by done. by eexists.
Qed.

(** The methods that do not run a transaction of their own shape. *)
Lemma read_superseded r w :
  superseded (mr_state r) w →
  (∀ at_, is_ok (active_worker_snapshot r w at_) = false) ∧
  (∀ request, lk_worker request = w → is_ok (inspect_attachment r request) = false).
Proof.
  intros Hs. split.
  - intros at_. unfold active_worker_snapshot, read, lock. destruct (mr_poisoned r); [done|].
    cbn [mbind result_bind]. cbv zeta. destruct Hs as (k & Hk & Hlt). rewrite Hk. cbn.
    case_bool_decide as E; [|done]. rewrite E in Hlt. lia.
  - intros request <-. unfold inspect_attachment, read, lock. destruct (mr_poisoned r); [done|].
    cbn [mbind result_bind]. cbv zeta. by rewrite superseded_refused.
Qed.

(** ** The service under a superseded lease *)

(** A method of the service does something new under the lease [w]: answering an exact retry from
    its record is not new. *)
Inductive serves `{Chrono, ServiceLibs} (w : WorkerLease) (r : MemoryRepository) : Prop :=
| serves_command new_id request view : ct_worker (st_command request) = w →
    (commit_with_effect_payloads new_id r request).2 = Ok (ServiceCommandOutcome.Committed view) →
    serves w r
| serves_replacement new_id request view : ct_worker (st_command request) = w →
    (commit_leg_replacement_with_worker_guard new_id r request).2
      = Ok (ServiceCommandOutcome.Committed view) → serves w r
| serves_state new_id request view : bs_worker request = w →
    (commit_bound_connection_state new_id r request).2 = Ok (ServiceCommandOutcome.Committed view) →
    serves w r
| serves_termination new_id request view : bt_worker request = w →
    (commit_bound_source_termination new_id r request).2 = Ok (ServiceCommandOutcome.Committed view) →
    serves w r
| serves_media new_id request view : ma_worker request = w →
    (commit_media_activity new_id r request).2 = Ok (ServiceCommandOutcome.Committed view) →
    serves w r
| serves_control new_id request view : nt_worker request = w →
    (enqueue_control new_id r request).2 = Ok (ControlCommandOutcome.Enqueued view) → serves w r
| serves_claim at_ ttl limit :
    granted (claim_control_effects r w at_ ttl limit).2 = true → serves w r
| serves_bind request binding : on_worker request = w →
    (bind_outbound_connection r request).2 = Ok (OutboundConnectionBindOutcome.Bound binding) →
    serves w r
| serves_reconcile new_id request view : er_worker request = w →
    (reconcile_effect_result new_id r request).2 = Ok (EffectResultOutcome.Reconciled view) →
    serves w r.

Lemma transaction_answer {A} r (tx : Tx A) a :
  (transaction r tx).2 = Ok a → ∃ s', tx (mr_state r) = Ok (a, s').
Proof.
  unfold transaction, lock. destruct (mr_poisoned r); [done|].
  destruct (tx (mr_state r)) as [[a' s']|]; cbn; [|done]. intros [= ->]. by exists s'.
Qed.

(** A normalized request has the command it was built from. *)
Lemma normalized_command `{Chrono, ServiceLibs} request request' :
  normalize_service_command request = Ok request' → st_command request' = st_command request.
Proof.
  unfold normalize_service_command. cbv zeta. intros E. do 5 apply bind_unit_ok in E as [_ E].
  apply bind_reject_ok in E as [_ E]. apply bind_unit_ok in E as [_ E]. by injection E as <-.
Qed.

Section ServiceFence.
Context {chrono : Chrono} {libs : ServiceLibs}.

Lemma service_command_superseded new_id request allow s view s' :
  superseded s (ct_worker (st_command request)) →
  commit_service_command_in_state new_id request allow s ≠ Ok (ServiceCommandOutcome.Committed view, s').
Proof using.
  intros Hs H. unfold commit_service_command_in_state in H. cbv zeta in H.
  apply bind_reject_ok in H as [_ H]. apply result_bind_ok in H as ([o s1] & H1 & H).
  apply replay_service_ok in H1 as (i & ret & E1 & Ho).
  assert (Hs1 : superseded s1 (ct_worker (st_command request))) by by rewrite E1.
  destruct o as [o|].
  { injection H as -> _. destruct (st_operation_idempotency request); [|by destruct Ho].
    destruct Ho as [_ [?|(? & ?)]]; congruence. }
  destruct (rm_service_command_results s1 !! _); [by destruct (_ ==? _)|].
  do 2 apply bind_reject_ok in H as [_ H]. do 3 apply bind_unit_ok in H as [_ H].
  apply result_bind_ok in H as ([out s2] & H2 & _).
  destruct (commit_superseded new_id (st_command request) s1 Hs1) as [e He]. congruence.
Qed.

Lemma bound_superseded new_id request guard s view s' :
  superseded s (ct_worker (st_command request)) →
  commit_bound_in_state new_id request guard s ≠ Ok (ServiceCommandOutcome.Committed view, s').
Proof using.
  intros Hs H. unfold commit_bound_in_state in H. cbv zeta in H.
  destruct (contains_key _ _); [by eapply service_command_superseded|].
  unfold ensure_call_worker in H. by rewrite superseded_refused in H.
Qed.

Lemma guarded_superseded new_id request s view s' :
  superseded s (ct_worker (st_command request)) →
  commit_leg_replacement_with_worker_guard_in_state new_id request s
    ≠ Ok (ServiceCommandOutcome.Committed view, s').
Proof using.
  intros Hs H. unfold commit_leg_replacement_with_worker_guard_in_state in H.
  apply result_bind_ok in H as ([o s1] & H1 & H). apply replay_service_ok in H1 as (i & ret & E1 & Ho).
  destruct o as [o|].
  { injection H as -> _. destruct (st_operation_idempotency request); [|by destruct Ho].
    destruct Ho as [_ [?|(? & ?)]]; congruence. }
  apply bind_unit_ok in H as [_ H]. apply service_command_superseded in H; [done|]. by rewrite E1.
Qed.

Lemma control_superseded new_id request s view s' :
  superseded s (nt_worker request) →
  enqueue_control_in_state new_id request s ≠ Ok (ControlCommandOutcome.Enqueued view, s').
Proof using.
  intros Hs H. unfold enqueue_control_in_state in H. apply result_bind_ok in H as ([o s1] & H1 & H).
  pose proof (replay_control_ok _ _ _ _ H1) as (i & ret & E1 & _). destruct o as [o|].
  { injection H as -> _. unfold replay_control_operation in H1. cbv zeta in H1. by inv_ok H1. }
  destruct (rm_control_command_results s1 !! _); [by destruct (_ ==? _)|].
  apply bind_reject_ok in H as [_ H]. unfold ensure_call_worker in H.
  rewrite superseded_refused in H; [done|by rewrite E1].
Qed.

Lemma outbound_superseded request s binding s' :
  superseded s (on_worker request) →
  bind_outbound_connection_in_state request s ≠ Ok (OutboundConnectionBindOutcome.Bound binding, s').
Proof using.
  intros (k & Hk & Hlt) H.
  apply bind_outbound_effects in H as [(_ & ? & _ & _ & ?)|(c & [] & _)]; [done|].
  destruct bg_worker as (k' & Hk' & Hl & _). simplify_eq. rewrite Hl in Hlt. lia.
Qed.

Lemma reconcile_superseded new_id request s view s' :
  superseded s (er_worker request) →
  reconcile_effect_result_in_state new_id request s ≠ Ok (EffectResultOutcome.Reconciled view, s').
Proof using.
  intros Hs H. unfold reconcile_effect_result_in_state in H.
  destruct (rm_reconciliation_results s !! _); [by destruct (_ ==? _)|].
  unfold reconcilable_effect in H. by rewrite superseded_refused in H.
Qed.

Lemma superseded_serves_nothing r w : superseded (mr_state r) w → serves w r → False.
Proof using.
  intros Hs Hv. destruct Hv as [new_id request view Hw H|new_id request view Hw H|new_id request view Hw H
    |new_id request view Hw H|new_id request view Hw H|new_id request view Hw H|at_ ttl limit H
    |request binding Hw H|new_id request view Hw H].
  - unfold commit_with_effect_payloads in H. destruct (normalize_service_command request) as [q|] eqn:E; [|done].
    apply normalized_command in E. apply transaction_answer in H as [s' H].
    apply service_command_superseded in H; [done|]. by rewrite E, Hw.
  - unfold commit_leg_replacement_with_worker_guard in H.
    destruct (normalize_service_command request) as [q|] eqn:E; [|done].
    apply normalized_command in E. apply transaction_answer in H as [s' H].
    apply guarded_superseded in H; [done|]. by rewrite E, Hw.
  - apply transaction_answer in H as [s' H]. unfold commit_bound_connection_state_in_state in H.
    apply bind_reject_ok in H as [_ H]. cbv zeta in H. apply result_bind_ok in H as (q & E%normalized_command & H).
    apply bound_superseded in H; [done|]. by rewrite E, <- Hw in *.
  - apply transaction_answer in H as [s' H]. unfold commit_bound_source_termination_in_state in H.
    cbv zeta in H. apply result_bind_ok in H as (q & E%normalized_command & H).
    apply bound_superseded in H; [done|]. by rewrite E, <- Hw in *.
  - apply transaction_answer in H as [s' H]. unfold commit_media_activity_in_state in H.
    apply result_bind_ok in H as (q & E%normalized_command & H).
    apply service_command_superseded in H; [done|]. by rewrite E, <- Hw in *.
  - unfold enqueue_control in H. destruct (_;; _); [|done]. apply transaction_answer in H as [s' H].
    apply control_superseded in H; [done|]. by rewrite Hw.
  - unfold claim_control_effects in H.
    destruct (claim_refused r at_ ttl limit (λ exp, claim_control_effects_in_state w at_ exp limit)) as [_ E];
      [|congruence].
    intros exp. unfold claim_control_effects_in_state. rewrite superseded_refused by done. by eexists.
  - apply transaction_answer in H as [s' H]. apply outbound_superseded in H; [done|]. by rewrite Hw.
  - unfold reconcile_effect_result in H. destruct (normalize_reconciliation request) as [q|] eqn:E; [|done].
    apply transaction_answer in H as [s' H]. apply reconcile_superseded in H; [done|].
    unfold normalize_reconciliation in E. cbv zeta in E. inv_ok E; by simplify_eq.
Qed.
End ServiceFence.

(** C23. A superseded worker is fenced off.  Once a worker has been registered again, an old lease
    of it stays superseded along every run of both repositories, and whatever method of the call
    repository it is presented to changes nothing and does not do what was asked: no command,
    replayed or new, no attachment, no provider binding or completion, no claimed event, effect or
    deadline, no restart, no renewal; no call is created under it; and the service does nothing new
    under it either: no command, connection state, media report, control, control claim, outbound
    binding or effect result. *)
Theorem superseded_worker_is_fenced `{Chrono, ServiceLibs} (r r' r'' : MemoryRepository)
    (w : WorkerLease) :
  store_reachable r → superseded (mr_state r) w → rtc store_step r r' →
  (∀ ok, presents w r' r'' ok → r'' = r' ∧ ok = false) ∧
  (∀ new_id request c, cc_worker request = w → (create_call new_id r' request).2 ≠ Ok (Created c)) ∧
  ¬ serves w r'.
Proof.
  intros Hr Hs Hrun. apply store_capacity in Hr.
  apply (superseded_run _ _ _ Hrun Hr) in Hs. clear Hr Hrun r. split; [|split].
  - intros ok Hp. destruct (read_superseded r' w Hs) as [Hact Hins].
    destruct Hp; subst; try (by auto); try (apply claim_refused; intros exp);
      try (unfold activate_worker_capabilities, renew_worker_lease, claim_restart_calls;
           try match goal with
           | |- context [match ?x with Ok _ => _ | Err _ => _ end] => destruct x; [|done]
           | |- context [if ?b then _ else _] => destruct b; [done|]
           end; apply transaction_refused; [done|]);
      eauto using managed_superseded, commit_superseded, bind_superseded, complete_event_superseded.
    + unfold activate_worker_capabilities_in_state. stale.
    + unfold renew_worker_lease_in_state. stale.
    + unfold set_worker_draining_in_state. stale.
    + unfold release_assignment_in_state. stale.
    + unfold consume_attachment_in_state. stale.
    + unfold claim_provider_events_in_state. stale.
    + unfold acknowledge_terminal_provider_event_in_state. stale.
    + unfold claim_outbox_in_state. stale.
    + unfold complete_outbox_in_state. stale.
    + unfold claim_due_deadlines_in_state. stale.
    + unfold claim_restart_calls_in_state. stale.
  - intros new_id request c <-. destruct (create_call new_id r' request) as [r2 o] eqn:E. cbn.
    intros ->. apply transaction_ok in E as (_ & s' & E & _).
    apply create_call_ok in E as [(? & ? & ? & [=] & _)|(d & k & fp & _ & G & _)].
    destruct G, Hs as (k' & Hk' & Hlt). simplify_eq. rewrite kg_lease in Hlt. lia.
  - intros Hv. by eapply superseded_serves_nothing.
Qed.

(** The worker of the sample run registers again. *)
Definition reregistered : MemoryRepository := (@register_worker chrono_sample created (worker_request 5)).1.

Lemma superseded_worker_is_fenced_witness :
  (@claim_outbox chrono_sample reregistered worker_one 6 (from_secs 5) 10%N).1 = reregistered ∧
  granted (@claim_outbox chrono_sample reregistered worker_one 6 (from_secs 5) 10%N).2 = false.
Proof.
  refine (proj1 (@superseded_worker_is_fenced chrono_sample libs_sample reregistered reregistered _ worker_one
    _ _ _) _ (@presents_claim_outbox chrono_sample _ _ _ _ _)).
  - eapply rtc_r; [apply store_created|]. left. apply step_register.
  - eexists. split; [vm_compute; reflexivity|]. vm_compute. reflexivity.
  - done.
Defined.
