(* ===== verification/RepoProgress.v ===== *)
(** Progress of the call repository: a command that passes its guards is committed; the
    internal error paths of the commit are unreachable. *)

From S2P Require Import Prelude RustText DomainTypes CoordModel Domain DomainInv DomainSafety.
From S2P Require Import DomainWorld DomainTrace DomainTheorems.
From S2P Require Import RepoTypes ServiceTypes RepoMemory RepoClaims RepoFrame RepoCommit RepoInv ServiceSample RepoEffects.
From S2P Require Import PlanModel ServiceEffects ServiceSample RepoOutbox ServiceControls.
From S2P Require Import RepoTheorems RepoDeadlines.
From stdpp Require Import options.

(** ** The number of effects of a decision *)

Lemma cancel_effects_length k a : (length (cancel_effects k a) ≤ 1)%nat.
Proof. unfold cancel_effects. destruct (armed a k); cbn; lia. Qed.

Lemma three_cancels_length a : (length (three_cancels a) ≤ 3)%nat.
Proof.
  unfold three_cancels. rewrite !length_app.
  pose proof (cancel_effects_length DeadlineKind.Setup a).
  pose proof (cancel_effects_length DeadlineKind.Media a).
  pose proof (cancel_effects_length DeadlineKind.Transfer a). lia.
Qed.

Lemma all_cancels_length a : (length (all_cancels a) ≤ 4)%nat.
Proof.
  unfold all_cancels. rewrite length_app. pose proof (three_cancels_length a).
  pose proof (cancel_effects_length DeadlineKind.Ending a). lia.
Qed.

Lemma stop_leg_length t reason leg : (length (stop_leg t reason leg).2 ≤ 1)%nat.
Proof. unfold stop_leg. destruct (_ && _); cbn; lia. Qed.

Lemma ending_effects_length t reason a : (length (ending_effects t reason a) ≤ 7)%nat.
Proof.
  unfold ending_effects. rewrite !length_app. pose proof (three_cancels_length a).
  pose proof (stop_leg_length t reason (ca_leg0 a)). pose proof (stop_leg_length t reason (ca_leg1 a)).
  assert (length (unbridge_if_active a) ≤ 1)%nat by (unfold unbridge_if_active; destruct (ca_state a); cbn; lia).
  assert (length (abort_replacement a) ≤ 1)%nat by (unfold abort_replacement; destruct (ca_replacement a); cbn; lia).
  lia.
Qed.

Lemma finalize_terminal_length t a e : (length (finalize_terminal t (a, e)).2 ≤ length e + 4)%nat.
Proof. rewrite finalize_terminal_eq. cbn. rewrite length_app. pose proof (all_cancels_length a). lia. Qed.

Lemma arm_deadline_length k d a e g st :
  arm_deadline_internal k d (a, e) = Ok (g, st) → (length st.2 ≤ length e + 2)%nat.
Proof.
  intros (_ & _ & ->)%arm_deadline_ok. cbn. rewrite !length_app. cbn.
  pose proof (cancel_effects_length k a). lia.
Qed.

Lemma begin_ending_length t o reason d a e st :
  begin_ending_internal t o reason d (a, e) = Ok st → (length st.2 ≤ length e + 11)%nat.
Proof.
  rewrite begin_ending_eq. cbv zeta. pose proof (ending_effects_length t reason a) as He. intros H.
  destruct (both_terminal _).
  - injection H as <-. etrans; [apply finalize_terminal_length|]. rewrite length_app. lia.
  - destruct d as [d|].
    + apply result_bind_ok in H as ([g st'] & Ha & [= <-]). apply arm_deadline_length in Ha.
      rewrite length_app in Ha. cbn in *. lia.
    + injection H as <-. cbn. rewrite length_app. lia.
Qed.

Lemma reconcile_length i t a e st :
  reconcile_leg_state i t (a, e) = Ok st → (length st.2 ≤ length e + 11)%nat.
Proof.
  unfold reconcile_leg_state. intros H. destruct (_ && _).
  { rewrite cancel_deadline_eq in H. injection H as <-. cbn. rewrite !length_app. cbn.
    pose proof (cancel_effects_length DeadlineKind.Setup a). lia. }
  destruct (_ ==? _).
  { destruct (all_legs _ _); injection H as <-.
    - etrans; [apply finalize_terminal_length|]. lia.
    - cbn. lia. }
  destruct (leg_state _); try (injection H as <-; cbn; lia); by eapply begin_ending_length.
Qed.

Lemma apply_command_length a c a' r :
  apply_command a c = Ok (a', r) → cr_disposition r = CommandDisposition.Applied →
  (length (cr_effects r) ≤ 12)%nat.
Proof.
  intros H Hd.
  destruct c; cbn [apply_command] in *; open_applied H;
    repeat match goal with
    | Hx : reconcile_leg_state _ _ _ = Ok _ |- _ => apply reconcile_length in Hx
    | Hx : begin_ending_internal _ _ _ _ _ = Ok _ |- _ => apply begin_ending_length in Hx
    | Hx : arm_deadline_internal _ _ _ = Ok _ |- _ => apply arm_deadline_length in Hx
    end; cbn -[cancel_deadline_internal finalize_terminal] in *; rewrite ?length_app in *;
    cbn -[cancel_deadline_internal finalize_terminal] in *; try lia.
  - rewrite cancel_deadline_eq in E3. injection E3 as _ <-.
    pose proof (cancel_effects_length DeadlineKind.Transfer a).
    destruct result; rewrite ?length_app; cbn; lia.
  - rewrite cancel_deadline_eq in E4. injection E4 as _ <-.
    pose proof (cancel_effects_length DeadlineKind.Transfer a). cbn. lia.
  - match type of E4 with finalize_terminal ?t (?b, ?e) = _ =>
      pose proof (finalize_terminal_length t b e) as Hl end.
    rewrite E4 in Hl. cbn in Hl. lia.
  - destruct (kind ==? DeadlineKind.Transfer); cbn in *; lia.
Qed.

Lemma decision_length a c d : valid_call a → decide a c = Ok d → (length (cd_effects d) ≤ 12)%nat.
Proof.
  intros Hv Hd.
  destruct (decide_inv _ _ _ Hv Hd) as [(a' & r & Ha & Hr & _ & _ & _ & -> & _)|(_ & -> & _)].
  - by eapply apply_command_length.
  - cbn. lia.
Qed.

(** ** The writes of a commit succeed *)

Lemma persist_deadline_succeeds x b b' batch e m :
  books x b (eb_call_id batch) m → marked x m → ledger_effect b e = Some b' →
  ∃ m', persist_deadline batch e m = Ok m'.
Proof.
  intros Hb Hx Hl. destruct e; cbn in Hl |- *; try (by eexists).
  - destruct (_ && _) eqn:E; [|done]. apply andb_true_iff in E as [_ E%N.eqb_eq].
    destruct (contains_key m (eb_call_id batch, kind, generation)) eqn:Ec; [|by eexists].
    apply is_some_true in Ec as [rec Hrec].
    destruct (bk_row _ _ _ _ Hb _ _ _ Hrec) as (_ & _ & _ & Hle). lia.
  - destruct (_ && _) eqn:E; [|done]. apply andb_true_iff in E as [E1 E2%N.eqb_eq].
    destruct (slot_due_at _) as [due|] eqn:Ed; [|done].
    destruct (proj2 (bk_live _ _ _ _ Hb kind generation due)) as (rec & Hrec & _).
    { destruct (deadline_get b kind). cbn in *. congruence. }
    exists (if deadline_completed (dr_state rec) then m
            else <[((eb_call_id batch, kind, generation) : DeadlineKey) :=
                     rec <| dr_state := DeadlineState.Cancelled (eb_at batch) |>]> m).
    apply result_bind_ok. exists rec. split; [by apply ok_or_ok|done].
Qed.

Lemma persist_deadlines_succeeds x b b' batch es m :
  books x b (eb_call_id batch) m → marked x m → run_ledger es b = Some b' →
  ∃ m', persist_deadlines batch es m = Ok m'.
Proof.
  revert b m. induction es as [|e es IH]; intros b m Hb Hx Hl; cbn in Hl |- *; [by eexists|].
  destruct (ledger_effect b e) as [b1|] eqn:E1; [|done]. cbn in Hl.
  destruct (persist_deadline_succeeds _ _ _ _ _ _ Hb Hx E1) as [m1 Hm1]. rewrite Hm1.
  cbn [mbind result_bind].
  destruct (persist_deadline_books _ _ _ _ _ _ _ Hb Hx E1 Hm1) as (Hb1 & T1 & _).
  apply (IH b1); [done| |done]. intros key ->. apply (ts_grow _ _ _ T1), Hx. done.
Qed.

Lemma persist_effects_from_succeeds new_id batch index es s m' :
  persist_deadlines batch es (rm_deadlines s) = Ok m' →
  (N.of_nat (index + length es) ≤ U32_MAX)%N →
  ∃ out s', persist_effects_from new_id batch index es s = Ok (out, s').
Proof.
  revert index s. induction es as [|e es IH]; intros index s H Hi; cbn in H |- *; [by eexists _, _|].
  cbn [length] in Hi. assert ((U32_MAX <? N.of_nat index)%N = false) as -> by (apply N.ltb_ge; lia).
  cbn [reject_if mbind result_bind].
  apply result_bind_ok in H as (m1 & Hm1 & H). rewrite Hm1. cbn [mbind result_bind].
  match goal with |- context [persist_effects_from new_id batch (S index) es ?s1] =>
    destruct (IH (S index) s1) as (out & s' & Hs'); [done|lia|] end.
  rewrite Hs'. by eexists _, _.
Qed.

(** An unfinished control has no receipt of its retirement yet. *)
Lemma retire_controls_succeed next cid es s :
  NoDup es →
  (∀ e, e ∈ es → is_Some (rm_control_outbox s !! e) ∧ rm_control_retirements s !! e = None) →
  ∃ s', retire_control_effects next cid es s = Ok s'.
Proof.
  revert s. induction es as [|e es IH]; intros s Hnd Hes; [by eexists|]. cbn.
  destruct (Hes e) as [[r Hr] Hn]; [constructor|]. unfold retire_control_effect. rewrite Hr. cbn.
  unfold contains_key. rewrite Hn. cbn. apply NoDup_cons in Hnd as [Hnin Hnd]. apply IH; [done|].
  intros e' He'. destruct (Hes e') as [Ho Hr']; [by constructor|]. cbn.
  rewrite !lookup_insert_ne by (intros ->; done). done.
Qed.

Lemma retire_inactive_succeeds s id next cid c :
  rm_calls s !! id = Some c → controls_ok s →
  ∃ s', retire_inactive_bindings s id next cid = Ok s'.
Proof.
  intros Hc Hok. unfold retire_inactive_bindings. rewrite Hc. cbn [ok_or mbind result_bind]. cbv zeta.
  match goal with |- context [foldl (retire_binding id) s ?l] =>
    destruct (retire_bindings_ok id c l s Hc) as (own1 & prin1 & b & -> & _) end.
  match goal with |- context [foldl (retire_provider_binding id) ?s1 ?l] =>
    destruct (retire_provider_bindings_ok id l s1) as (own & prin & -> & _) end.
  apply retire_controls_succeed; cbn.
  - apply values_nodup, (kk_key _ Hok).
  - change (map cx_effect_id) with (fmap cx_effect_id : list ControlOutboxRecord → list EffectId).
    intros e (r & -> & [Hv Hret]%list_elem_of_In%filter_In)%list_elem_of_fmap.
    apply list_elem_of_In, values_elem in Hv as [e He]. rewrite (kk_key _ Hok _ _ He).
    split; [by eexists|]. apply eq_None_not_Some. intros (r' & Hr' & Hu)%(kk_retired _ Hok). simplify_eq.
    by rewrite Hu, andb_false_r in Hret.
Qed.

(** The attachments of one request do not collide with each other. *)
Definition distinct_issues (issues : list AttachmentIssue) : Prop :=
  NoDup (map ai_token_digest issues) ∧ NoDup (map ai_attachment_id issues) ∧
  NoDup (map (λ i, (ai_leg_id i, ai_binding_generation i)) issues).

Lemma validate_new_ok s id issue :
  validate_new_attachment s id issue = Ok () ↔
  rm_attachments s !! ai_token_digest issue = None ∧
  rm_attachment_ids s !! ai_attachment_id issue = None ∧
  rm_active_attachments s !! ((id, ai_leg_id issue, ai_binding_generation issue) : BindingKey) = None.
Proof.
  unfold validate_new_attachment. rewrite reject_if_ok, !orb_false_iff, !contains_key_false.
  naive_solver.
Qed.

Lemma insert_rows_succeeds t id w issues s :
  (∀ issue, issue ∈ issues → validate_new_attachment s id issue = Ok ()) → distinct_issues issues →
  ∃ s', insert_attachment_rows t id w issues s = Ok s'.
Proof.
  revert s. induction issues as [|issue issues IH]; intros s Hnew (D1 & D2 & D3); cbn; [by eexists|].
  cbn in D1, D2, D3. apply NoDup_cons in D1 as [N1 D1], D2 as [N2 D2], D3 as [N3 D3].
  unfold insert_attachment. rewrite Hnew by by constructor. cbn [mbind result_bind].
  apply IH; [|done]. intros issue' Hin. assert (H' := Hnew issue' (list_elem_of_further _ _ _ Hin)).
  apply validate_new_ok in H' as (A & B & C). apply validate_new_ok. cbn.
  rewrite !lookup_insert_ne; [done|..].
  - intros [= E1 E2]. apply N3. apply list_elem_of_In, in_map_iff. exists issue'. rewrite E1, E2.
    split; [done|]. by apply list_elem_of_In.
  - intros E. apply N2. rewrite E. apply list_elem_of_In, in_map, list_elem_of_In. done.
  - intros E. apply N1. rewrite E. apply list_elem_of_In, in_map, list_elem_of_In. done.
Qed.

(** Revoking rows neither adds nor removes a token. *)
Lemma retired_rows_None id next att d : att !! d = None → retired_rows id next att !! d = None.
Proof. intros H. unfold retired_rows, update_where. by rewrite lookup_fmap, H. Qed.

(** The attachments of a request that was validated against [s] can be inserted later, as long as
    no token, attachment or binding has been taken in between. *)
Lemma insert_attachments_succeeds s s1 t id w at_ a es issues c1 :
  validate_requested_attachments s id a es at_ issues = Ok () → distinct_issues issues →
  rm_calls s1 !! id = Some c1 → sc_aggregate c1 = a →
  (∀ d, rm_attachments s !! d = None → rm_attachments s1 !! d = None) →
  rm_attachment_ids s1 = rm_attachment_ids s → rm_active_attachments s1 = rm_active_attachments s →
  ∃ s2, insert_attachments s1 t id w at_ issues = Ok s2.
Proof.
  intros Hval Hd Hc Ea Hatt Ei Eact. unfold validate_requested_attachments in Hval.
  pose proof (proj1 (try_each_ok _ _) Hval) as Hissue.
  unfold insert_attachments. rewrite Hc. cbn [ok_or mbind result_bind]. rewrite Ea.
  rewrite (proj2 (try_each_ok _ _)).
  - cbn [mbind result_bind]. apply insert_rows_succeeds; [|done]. intros issue Hin.
    destruct (proj1 (bind_unit_ok _ _ _) (Hissue issue Hin)) as [_ H].
    apply bind_unit_ok in H as [_ H]. apply validate_new_ok in H as (A & B & C).
    apply validate_new_ok. rewrite Ei, Eact. auto.
  - intros issue Hin. by destruct (proj1 (bind_unit_ok _ _ _) (Hissue issue Hin)) as [H _].
Qed.

(** The state after the first two writes of a commit. *)
Lemma put_aggregate_succeeds (d : CallDecision) request s c :
  rm_calls s !! ct_call_id request = Some c → controls_ok s →
  ∃ s0 s1,
    (if cd_disposition d ==? CommandDisposition.Applied
     then retire_inactive_bindings s (ct_call_id request) (cd_aggregate d) (ct_command_id request)
     else Ok s) = Ok s0 ∧
    put_aggregate s0 (ct_call_id request) (cd_aggregate d) = Ok s1.
Proof.
  intros Hc He.
  assert (∃ s0, (if cd_disposition d ==? CommandDisposition.Applied
     then retire_inactive_bindings s (ct_call_id request) (cd_aggregate d) (ct_command_id request)
     else Ok s) = Ok s0) as [s0 H0].
  { destruct (_ ==? _); [by eapply retire_inactive_succeeds|by eexists]. }
  exists s0. rewrite H0. unfold put_aggregate.
  assert (∃ c0, rm_calls s0 !! ct_call_id request = Some c0) as [c0 ->].
  { destruct (_ ==? _); [|injection H0 as <-; by eexists].
    apply retire_inactive_bindings_ok in H0 as (c0 & own & prin & cob & crt & _ & -> & _).
    cbn. rewrite lookup_insert_eq. by eexists. }
  by eexists.
Qed.

Lemma complete_deadline_succeeds s claim at_ :
  (∀ g, claim = Some g →
     is_Some (rm_deadlines s !! ((dg_call_id g, dg_kind g, dg_generation g) : DeadlineKey))) →
  ∃ s', complete_deadline s claim at_ = Ok s'.
Proof.
  intros H. unfold complete_deadline. destruct claim as [g|]; [|by eexists].
  destruct (H g eq_refl) as [rec Hrec]. cbv zeta. rewrite Hrec. by eexists.
Qed.

(** Releasing the capacity of a call that just ended. *)
Lemma release_succeeds s t id w at_ c k :
  rm_workers s !! wl_worker_id w = Some k → wk_lease k = w →
  authoritative_time s at_ < wk_lease_expires_at k → wk_reserved_calls k ≠ 0%N →
  rm_calls s !! id = Some c → ca_tenant_id (sc_aggregate c) = t → wa_lease (sc_assignment c) = w →
  call_is_terminal (ca_state (sc_aggregate c)) = true → wa_released_at (sc_assignment c) = None →
  ∃ s', release_assignment_in_state t id w at_ s = Ok (true, s').
Proof.
  intros Hk Hl Ht Hz Hc Hten Hlc Hterm Hrel. unfold release_assignment_in_state.
  rewrite (proj2 (ensure_worker_ok s w true at_ ())) by by exists k. cbn [mbind result_bind].
  cbv zeta. rewrite (proj2 (tenant_call_ok s t id c)) by done. cbn [mbind result_bind].
  rewrite Hlc, bool_decide_eq_true_2, Hterm, Hrel by done. cbn [negb is_some]. cbn. rewrite Hk. cbn.
  destruct (N.eqb_spec (wk_reserved_calls k) 0); [done|]. by eexists.
Qed.

(** A bind succeeds when its first part does and the rest follows from what it returned. *)
Lemma bind_succeeds {A B} (m : result RepositoryError A) (f : A → result RepositoryError B) :
  (∃ x, m = Ok x) → (∀ x, m = Ok x → ∃ y, f x = Ok y) → ∃ y, (x ← m; f x) = Ok y.
Proof. intros [x ->] H. by apply H. Qed.

(** The end of a commit: the call that is over gives its capacity back. *)
Lemma finish_succeeds (request : CommandCommit) s k c a (f : StoredCall → CommandCommitView) :
  sc_aggregate c = a →
  rm_workers s !! wl_worker_id (ct_worker request) = Some k → wk_lease k = ct_worker request →
  authoritative_time s (ct_at request) < wk_lease_expires_at k → wk_reserved_calls k ≠ 0%N →
  rm_calls s !! ct_call_id request = Some c → ca_tenant_id (sc_aggregate c) = ct_tenant_id request →
  wa_lease (sc_assignment c) = ct_worker request → wa_released_at (sc_assignment c) = None →
  ∃ y, (state ←
          (if call_is_terminal (ca_state a)
           then '(_, state) ← release_assignment_in_state (ct_tenant_id request) (ct_call_id request)
                                (ct_worker request) (ct_at request) s; Ok state
           else Ok s);
        call ← tenant_call state (ct_tenant_id request) (ct_call_id request);
        Ok (Committed (f call),
            state <| rm_command_results :=
              <[ct_command_id request := f call]> (rm_command_results state) |>)) = Ok y.
Proof.
  intros <- Hk Hl Ht Hz Hc Hten Hlc Hrel. destruct (call_is_terminal _) eqn:Eterm.
  - destruct (release_succeeds s (ct_tenant_id request) (ct_call_id request) (ct_worker request)
      (ct_at request) c k) as [s' Hs']; [done..|]. rewrite Hs'. cbn [mbind result_bind].
    apply release_assignment_ok in Hs' as (_ & c' & Hc' & _ & _ & _ & _ & k' & _ & _ & ->).
    simplify_eq. rewrite (proj2 (tenant_call_ok _ _ _ (released_call c (ct_at request)))); [by eexists|].
    cbn. by rewrite lookup_insert_eq.
  - cbn [mbind result_bind]. rewrite (proj2 (tenant_call_ok _ _ _ c)) by done. by eexists.
Qed.

(** What the rest of a commit needs to know about the state it has reached. *)
Record underway (request : CommandCommit) (s : MemoryState) (c : StoredCall) (d : CallDecision)
    (s' : MemoryState) : Prop := {
  uw_call : ∃ c', rm_calls s' !! ct_call_id request = Some c' ∧
                  sc_aggregate c' = cd_aggregate d ∧ sc_assignment c' = sc_assignment c;
  uw_workers : rm_workers s' = rm_workers s;
  uw_time : rm_authority_time s' = rm_authority_time s;
}.

Lemma underway_put_aggregate (d : CallDecision) request s c s0 s1 :
  rm_calls s !! ct_call_id request = Some c →
  (if cd_disposition d ==? CommandDisposition.Applied
   then retire_inactive_bindings s (ct_call_id request) (cd_aggregate d) (ct_command_id request)
   else Ok s) = Ok s0 →
  put_aggregate s0 (ct_call_id request) (cd_aggregate d) = Ok s1 →
  underway request s c d s1 ∧ rm_deadlines s1 = rm_deadlines s ∧
  rm_attachment_ids s1 = rm_attachment_ids s ∧ rm_active_attachments s1 = rm_active_attachments s ∧
  (∀ dg, rm_attachments s !! dg = None → rm_attachments s1 !! dg = None).
Proof.
  intros Hc H0 H1.
  destruct (put_aggregate_ok d request s c s1 Hc) as (own & prin & cob & crt & -> & _); [by rewrite H0|].
  split_and!; try done.
  - split; try done. cbn. rewrite lookup_insert_eq. by eexists.
  - intros dg Hdg. cbn. destruct (applies d); [by apply retired_rows_None|done].
Qed.

(** A write that leaves the calls, the workers and the authority time alone. *)
Lemma underway_frame request s c d s1 s2 :
  underway request s c d s1 → rm_calls s2 = rm_calls s1 → rm_workers s2 = rm_workers s1 →
  rm_authority_time s2 = rm_authority_time s1 → underway request s c d s2.
Proof. intros [C W A] E1 E2 E3. split; [by rewrite E1|congruence..]. Qed.

Lemma underway_attachments request s c d s1 t id w at_ issues s2 :
  underway request s c d s1 → insert_attachments s1 t id w at_ issues = Ok s2 →
  underway request s c d s2 ∧ rm_deadlines s2 = rm_deadlines s1.
Proof.
  intros U (att & ids & act & -> & _)%insert_attachments_ok. split; [|done].
  by eapply underway_frame.
Qed.

Lemma underway_effects request s c d s1 new_id batch es out s2 :
  underway request s c d s1 → persist_effects new_id batch es s1 = Ok (out, s2) →
  underway request s c d s2 ∧ persist_deadlines batch es (rm_deadlines s1) = Ok (rm_deadlines s2).
Proof.
  intros U (-> & dl & Hdl & ->)%persist_effects_ok. split; [|done]. by eapply underway_frame.
Qed.

Lemma underway_deadline request s c d s1 claim at_ s2 :
  underway request s c d s1 → complete_deadline s1 claim at_ = Ok s2 → underway request s c d s2.
Proof.
  intros U H. eapply (complete_deadline_rows _ s1) in H as (dl & -> & _); [|done].
  by eapply underway_frame.
Qed.

(** The end of a commit: the call that is over gives its capacity back. *)
Lemma underway_finish request s c d s1 (f : StoredCall → CommandCommitView) :
  capacity_ok s → commit_guarded request s c d → underway request s c d s1 →
  ca_tenant_id (cd_aggregate d) = ct_tenant_id request →
  ∃ y, (state ←
          (if call_is_terminal (ca_state (cd_aggregate d))
           then '(_, state) ← release_assignment_in_state (ct_tenant_id request) (ct_call_id request)
                                (ct_worker request) (ct_at request) s1; Ok state
           else Ok s1);
        call ← tenant_call state (ct_tenant_id request) (ct_call_id request);
        Ok (Committed (f call),
            state <| rm_command_results :=
              <[ct_command_id request := f call]> (rm_command_results state) |>)) = Ok y.
Proof.
  intros Hcap [] [(c' & Hc' & Ea & Eas) Ew Et] Hten. destruct cg_worker as (k & Hk & Hlk & Halive).
  assert (Hz : wk_reserved_calls k ≠ 0%N).
  { destruct (cy_workers s Hcap _ _ Hk) as [_ Hload _]. rewrite Hload.
    pose proof (load_pos (wl_worker_id (ct_worker request)) _ _ _ cg_call) as Hp.
    unfold assigned in Hp. rewrite cg_lease, bool_decide_eq_true_2, cg_unreleased in Hp by done.
    specialize (Hp eq_refl). lia. }
  apply (finish_succeeds request s1 k c'); try congruence.
  unfold authoritative_time in *. congruence.
Qed.

Lemma commit_command_rows_succeeds new_id request s c d :
  capacity_ok s → deadlines_ok s → controls_ok s → commit_guarded request s c d →
  validate_requested_attachments s (ct_call_id request) (cd_aggregate d) (cd_effects d)
    (ct_at request) (ct_attachments request) = Ok () →
  distinct_issues (ct_attachments request) →
  ∃ y, commit_command_rows new_id request (ca_version (sc_aggregate c)) d s = Ok y.
Proof.
  intros Hcap Hdl He G Hval Hdis. pose proof (cg_call _ _ _ _ G) as Hc.
  destruct (cy_calls s Hcap _ _ Hc) as [_ Hv _ _].
  destruct (commit_ledger _ _ _ _ Hv G (do_books _ Hdl _ _ Hc)) as (b & Hb & Hm & Hl & _).
  destruct (persist_deadlines_succeeds _ _ _ (commit_batch request (cd_aggregate d)) _ _ Hb Hm Hl)
    as [dl Hpd].
  destruct (persist_deadlines_books _ _ _ (commit_batch request (cd_aggregate d)) _ _ _ Hb Hm Hl Hpd)
    as (_ & T & _).
  pose proof (decision_length _ _ _ Hv (cg_decide _ _ _ _ G)) as Hlen.
  destruct (decide_keeps _ _ _ Hv (cg_decide _ _ _ _ G)) as (_ & Ht & _).
  destruct (put_aggregate_succeeds d request s c Hc He) as (s0 & s1 & H0 & H1).
  unfold commit_command_rows. cbv zeta. rewrite H0. cbn [mbind result_bind]. rewrite H1.
  cbn [mbind result_bind].
  destruct (underway_put_aggregate d request s c s0 s1 Hc H0 H1) as (U & Ed & Ei & Eact & Hatt).
  destruct (uw_call _ _ _ _ _ U) as (c1 & Hc1 & Ea1 & _). clear H0 H1 s0. apply bind_succeeds.
  { by eapply (insert_attachments_succeeds s). }
  intros s3 H3. eapply underway_attachments in H3 as [U3 E3]; [|by eapply underway_frame]. clear U.
  cbn in E3. rewrite Ed in E3. apply bind_succeeds.
  { match goal with |- ∃ x, persist_effects ?n ?bt ?es ?s4 = _ =>
      destruct (persist_effects_from_succeeds n bt 0 es s4 dl) as (out & s5 & H5) end;
      [rewrite E3; exact Hpd|unfold U32_MAX; lia|by exists (out, s5)]. }
  intros [out s5] H5. eapply underway_effects in H5 as [U5 E5]; [|exact U3]. rewrite E3 in E5.
  pose proof (eq_trans (eq_sym Hpd) E5) as [= ->]. apply bind_succeeds.
  { apply complete_deadline_succeeds. intros g Hg. apply (ts_grow _ _ _ T), Hm.
    unfold claimed_row. by rewrite Hg. }
  intros s7 H7. eapply underway_deadline in H7 as U7; [|exact U5].
  apply (underway_finish request s c d s7 (λ call, {| cv_command := _; cv_call := call; cv_outbox := out |})
    Hcap G U7). by rewrite Ht, (cg_tenant _ _ _ _ G).
Qed.

(** ** Exactly the guarded commands commit *)

(** Everything a fresh command needs. *)
Record commit_admitted (request : CommandCommit) (s : MemoryState) (c : StoredCall)
    (d : CallDecision) : Prop := {
  ca_guarded : commit_guarded request s c d;
  ca_attachments : validate_requested_attachments s (ct_call_id request) (cd_aggregate d)
    (cd_effects d) (ct_at request) (ct_attachments request) = Ok ();
  ca_distinct : distinct_issues (ct_attachments request);
  ca_unmanaged : ct_call_id request ∉ rm_service_managed_calls s;
  ca_namespace : command_id_conflicts_with_service_namespace s (ct_command_id request) = false;
}.

Lemma insert_rows_distinct t id w issues s s' :
  insert_attachment_rows t id w issues s = Ok s' →
  (∀ issue, issue ∈ issues → validate_new_attachment s id issue = Ok ()) ∧ distinct_issues issues.
Proof.
  revert s. induction issues as [|issue issues IH]; intros s H; cbn in H.
  { split; [intros ? Hin; by apply not_elem_of_nil in Hin|]. split_and!; constructor. }
  apply result_bind_ok in H as (s1 & H1 & H). unfold insert_attachment in H1.
  apply bind_unit_ok in H1 as [Hnew [= <-]]. apply IH in H as [Hall (D1 & D2 & D3)].
  assert (Hfree : ∀ issue', issue' ∈ issues → validate_new_attachment s id issue' = Ok () ∧
    ai_token_digest issue ≠ ai_token_digest issue' ∧ ai_attachment_id issue ≠ ai_attachment_id issue' ∧
    (ai_leg_id issue, ai_binding_generation issue) ≠ (ai_leg_id issue', ai_binding_generation issue')).
  { intros issue' (A & B & C)%Hall%validate_new_ok. cbn in A, B, C.
    apply lookup_insert_None in A as [A NA], B as [B NB], C as [C NC]. split_and!; auto.
    - by apply validate_new_ok.
    - congruence. }
  split; [intros i [->|Hi]%elem_of_cons; [done|by apply Hfree]|].
  split_and!; cbn; (apply NoDup_cons; split; [|done]); intros Hin;
    apply list_elem_of_In, in_map_iff in Hin as (i & Ei & Hi%list_elem_of_In);
    apply Hfree in Hi as (_ & ? & ? & ?); congruence.
Qed.

(** The checks a committed command went through. *)
Lemma committed_was_admitted new_id request s c d out s' :
  commit_guarded request s c d → ct_call_id request ∉ rm_service_managed_calls s →
  commit_command_in_state new_id request s = Ok (out, s') → commit_admitted request s c d.
Proof.
  intros G Hm H. pose proof G as []. unfold commit_command_in_state in H. apply bind_unit_ok in H as [_ H].
  destruct (command_id_conflicts_with_service_namespace _ _) eqn:Hns; [done|]. rewrite cg_fresh in H.
  apply bind_unit_ok in H as [_ H]. apply result_bind_ok in H as (c' & [Hc' _]%tenant_call_ok & H).
  simplify_eq. destruct (_ !=? _) in H; [done|]. apply bind_unit_ok in H as [_ H].
  apply bind_unit_ok in H as [_ H]. rewrite cg_decide in H. cbn [domain_rejected mbind result_bind] in H.
  apply bind_unit_ok in H as [Hval H]. split; [done|done| |done|done].
  unfold commit_command_rows in H. cbv zeta in H. apply result_bind_ok in H as (s0 & _ & H).
  apply result_bind_ok in H as (s1 & _ & H). apply result_bind_ok in H as (s2 & H2 & _).
  unfold insert_attachments in H2. apply result_bind_ok in H2 as (c2 & _ & H2).
  apply bind_unit_ok in H2 as [_ H2]. by apply insert_rows_distinct in H2 as [_ ?].
Qed.

Lemma admitted_commits new_id request s c d :
  capacity_ok s → deadlines_ok s → controls_ok s → commit_admitted request s c d →
  ∃ y, commit_command_in_state new_id request s = Ok y.
Proof.
  intros Hcap Hdl Hctl [G Hval Hdis Hm Hns]. pose proof G as []. unfold commit_command_in_state.
  rewrite (proj2 (validate_command_timestamp_ok _ _ ()) cg_time). cbn [mbind result_bind].
  rewrite Hns, cg_fresh.
  rewrite (proj2 (ensure_call_worker_ok _ _ _ _ _ ())) by eauto 10. cbn [mbind result_bind].
  rewrite (proj2 (tenant_call_ok s _ _ c)) by done. cbn [mbind result_bind].
  rewrite cg_version, bool_decide_eq_true_2 by done. cbn [negb]. destruct cg_claim as [-> ->].
  rewrite cg_decide. cbn [domain_rejected mbind result_bind]. rewrite Hval. cbn [mbind result_bind].
  rewrite <- cg_version. by apply commit_command_rows_succeeds.
Qed.

(** C3. The commit executes the domain decision, and nothing but its guards stands in the way.  In
    every store that calls of the methods of both repositories lead to, a command for a call that
    the service does not manage, sent at its own time under the current lease of
    the call's worker, for the version the call is at, with an id
    that neither repository has seen, with the claim it needs if
    it reports a deadline, that the aggregate accepts and whose attachments are new, distinct and
    backed by its effects, is committed: no internal error is possible.  The stored call becomes
    the decided aggregate, the effects are appended to the outbox in order, the deadlines follow
    and a call that is over gives back its capacity.  Conversely only such commands commit. *)
Theorem commit_command_exact `{Chrono, ServiceLibs} (new_id : nat → EffectId) (r : MemoryRepository)
    (request : CommandCommit) :
  store_reachable r →
  (∀ c d, commit_admitted request (mr_state r) c d →
     ∃ view s', commit_command new_id r request = (r <| mr_state := s' |>, Ok (Committed view)) ∧
                commit_written new_id request (mr_state r) c d view s') ∧
  (∀ r' view, commit_command new_id r request = (r', Ok (Committed view)) →
     ∃ c d, commit_admitted request (mr_state r) c d).
Proof.
  intros Hr. pose proof (store_capacity r Hr) as Hcap. pose proof (store_lock r Hr) as Hp.
  assert (Hvalid : ∀ c, rm_calls (mr_state r) !! ct_call_id request = Some c → valid_call (sc_aggregate c))
    by (intros c Hc; apply (cy_calls _ Hcap _ _ Hc)).
  split.
  - intros c d Hadm.
    destruct (admitted_commits new_id request _ c d Hcap (store_deadlines r Hr) (store_controls r Hr) Hadm)
      as [[out s'] Hy].
    destruct (commit_command_ok _ _ _ _ _ Hvalid Hy) as [(_ & e & v & _ & Hc & _)|(c' & d' & view & -> & G & W)].
    { rewrite (cg_fresh _ _ _ _ (ca_guarded _ _ _ _ Hadm)) in Hc. done. }
    pose proof (ca_guarded _ _ _ _ Hadm) as G0.
    pose proof (eq_trans (eq_sym (cg_call _ _ _ _ G0)) (cg_call _ _ _ _ G)) as [= <-].
    pose proof (eq_trans (eq_sym (cg_decide _ _ _ _ G0)) (cg_decide _ _ _ _ G)) as [= <-].
    exists view, s'. split; [|done]. apply transaction_ok. split; [done|]. exists s'. split; [|done].
    unfold reject_service_managed_call. rewrite bool_decide_eq_false_2 by apply Hadm.
    exact Hy.
  - intros r' view (Hpp & s' & Hy & ->)%transaction_ok. apply bind_unit_ok in Hy as [Hm%reject_service_managed_ok Hy].
    destruct (commit_command_ok _ _ _ _ _ Hvalid Hy) as [(_ & e & v & [=] & _)|(c & d & v & _ & G & _)].
    exists c, d. by eapply committed_was_admitted.
Qed.

Lemma commit_command_exact_witness :
  ∃ c d, commit_admitted signal_request (mr_state created) c d ∧
         ca_state (cd_aggregate d) = CallState.Connecting.
Proof.
  destruct signaled_outcome as [view Hv].
  destruct (proj2 (@commit_command_exact chrono_sample libs_sample (ids_from 200) created signal_request
    store_created) _ _ Hv) as (c & d & Hadm).
  exists c, d. split; [exact Hadm|].
  pose proof (cg_call _ _ _ _ (ca_guarded _ _ _ _ Hadm)) as Hc.
  pose proof (cg_decide _ _ _ _ (ca_guarded _ _ _ _ Hadm)) as Hd.
  assert (Hs : option_map (λ c, match decide (sc_aggregate c) (ct_command signal_request) with
      | Ok d => Some (ca_state (cd_aggregate d)) | Err _ => None end)
      (rm_calls (mr_state created) !! ct_call_id signal_request) = Some (Some CallState.Connecting))
    by (vm_compute; reflexivity).
  rewrite Hc in Hs. cbn [option_map] in Hs. rewrite Hd in Hs. by injection Hs.
Defined.
