(* ===== verification/RepoCatalog.v ===== *)
(** Route-catalog fingerprints: the text a worker advertises determines the fingerprint and the
    fingerprint its text. *)

From S2P Require Import Prelude RustText DomainTypes CoordModel Domain RepoTypes.
From stdpp Require Import options.

(** ** Bytes *)

Definition is_byte (b : Z) : Prop := 0 ≤ b < 256.

Lemma land_255 v : Z.land v 255 = v mod 256.
Proof. change 255 with (Z.ones 8). by rewrite Z.land_ones by lia. Qed.

Lemma shiftr_8 v : Z.shiftr v 8 = v / 256.
Proof. by rewrite Z.shiftr_div_pow2 by lia. Qed.

(** [Z.lor (Z.shiftl a n) b] joins two fields. *)
Lemma lor_join a b n : 0 ≤ n → 0 ≤ b < 2 ^ n → Z.lor (Z.shiftl a n) b = a * 2 ^ n + b.
Proof.
  intros Hn Hb. rewrite <- Z.shiftl_mul_pow2 by done.
  assert (Hdis : Z.land (Z.shiftl a n) b = 0).
  { apply Z.bits_inj'. intros i Hi. rewrite Z.land_spec, Z.bits_0, Z.shiftl_spec by done.
    destruct (Z.lt_ge_cases i n); [by rewrite Z.testbit_neg_r by lia|].
    apply andb_false_intro2. destruct (Z.eq_dec b 0) as [->|]; [apply Z.bits_0|].
    apply Z.bits_above_log2; [lia|].
    pose proof (proj1 (Z.log2_lt_pow2 b n ltac:(lia)) (proj2 Hb)). lia. }
  rewrite <- Z.lxor_lor by done. by rewrite Z.add_nocarry_lxor.
Qed.

Lemma length_be_bytes n v : length (be_bytes n v) = n.
Proof. revert v. induction n as [|n IH]; intros v; [done|]. cbn. rewrite length_app, IH. cbn. lia. Qed.

Lemma be_bytes_bytes n v : Forall is_byte (be_bytes n v).
Proof.
  revert v. induction n as [|n IH]; intros v; cbn; [constructor|]. apply Forall_app. split; [done|].
  constructor; [|constructor]. rewrite land_255. unfold is_byte. pose proof (Z.mod_pos_bound v 256). lia.
Qed.

Lemma of_be_bytes_snoc l b : is_byte b → of_be_bytes (l ++ [b]) = of_be_bytes l * 256 + b.
Proof.
  intros Hb. unfold of_be_bytes. rewrite foldl_app. cbn. rewrite (lor_join _ _ 8); [done|lia|].
  unfold is_byte in Hb. lia.
Qed.

Lemma of_be_bytes_to n v : 0 ≤ v < 256 ^ Z.of_nat n → of_be_bytes (be_bytes n v) = v.
Proof.
  revert v. induction n as [|n IH]; intros v Hv; [cbn in *; lia|].
  rewrite Nat2Z.inj_succ, Z.pow_succ_r in Hv by lia. cbn [be_bytes].
  rewrite of_be_bytes_snoc.
  - rewrite land_255, shiftr_8, IH.
    + pose proof (Z.div_mod v 256). lia.
    + split; [apply Z.div_pos; lia|]. apply Z.div_lt_upper_bound; [lia|apply Hv].
  - rewrite land_255. unfold is_byte. pose proof (Z.mod_pos_bound v 256). lia.
Qed.

Lemma be_bytes_of l :
  Forall is_byte l →
  be_bytes (length l) (of_be_bytes l) = l ∧ 0 ≤ of_be_bytes l < 256 ^ Z.of_nat (length l).
Proof.
  induction l as [|b l IH] using rev_ind; intros Hl; [split; [done|cbn; lia]|].
  apply Forall_app in Hl as [Hl Hb]. apply (proj1 (Forall_singleton _ _)) in Hb. destruct (IH Hl) as [E R].
  rewrite (of_be_bytes_snoc l b Hb). unfold is_byte in Hb.
  rewrite length_app. cbn [length]. rewrite Nat.add_1_r. cbn [be_bytes].
  rewrite land_255, shiftr_8. rewrite Z.div_add_l, (Z.div_small b), Z.add_0_r by lia.
  rewrite (Z.add_comm _ b), Z.mod_add, Z.mod_small, E by lia. split; [done|].
  rewrite Nat2Z.inj_succ, Z.pow_succ_r by lia. lia.
Qed.

(** ** Hexadecimal digits *)

Definition is_hex (c : Z) : bool := is_ascii_digit c || between 97 102 c.

(** The integers below [n]. *)
Definition below (n : nat) : list Z := Z.of_nat <$> seq 0 n.

Lemma below_elem n b : 0 ≤ b < Z.of_nat n → b ∈ below n.
Proof.
  intros Hb. apply list_elem_of_fmap. exists (Z.to_nat b). split; [lia|]. apply elem_of_seq. lia.
Qed.

(** A property of all bytes, by evaluation. *)
Lemma byte_forall (P : Z → bool) b :
  forallb P (below 256) = true → is_byte b → P b = true.
Proof.
  intros Hall Hb.
  assert (Hin : b ∈ below 256) by (apply below_elem; exact Hb).
  apply list_elem_of_In in Hin. by apply (proj1 (forallb_forall P _) Hall).
Qed.

Definition format_ok (b : Z) : bool :=
  match format_02x b with
  | [hi; lo] =>
      is_hex hi && is_hex lo
      && match hex_nibble hi, hex_nibble lo with
         | Some h, Some l => Z.lor (Z.shiftl h 4) l =? b
         | _, _ => false
         end
  | _ => false
  end.

Definition read_ok (hi lo : Z) : bool :=
  implb (is_hex hi && is_hex lo)
    match hex_nibble hi, hex_nibble lo with
    | Some h, Some l =>
        let b := Z.lor (Z.shiftl h 4) l in
        (0 <=? b) && (b <? 256) && (format_02x b ==? [hi; lo])
    | _, _ => false
    end.

(** Formatting a byte and reading it back. *)
Lemma format_byte b :
  is_byte b →
  ∃ hi lo, format_02x b = [hi; lo] ∧ is_hex hi = true ∧ is_hex lo = true ∧
    ∃ h l, hex_nibble hi = Some h ∧ hex_nibble lo = Some l ∧ Z.lor (Z.shiftl h 4) l = b.
Proof.
  intros Hb.
  assert (H : format_ok b = true) by (apply (byte_forall format_ok); [vm_compute; reflexivity|done]).
  unfold format_ok, format_02x in H. apply andb_true_iff in H as [[H1 H2]%andb_true_iff H3].
  destruct (hex_nibble _) as [h|] eqn:Eh; [|done]. destruct (hex_nibble (hex_digit (Z.land b 15))) as [l|] eqn:El; [|done].
  eexists _, _. split; [done|]. split_and!; [done..|]. exists h, l. split_and!; [done..|]. by apply Z.eqb_eq.
Qed.

Lemma hex_below c : is_hex c = true → is_byte c.
Proof. unfold is_hex, is_ascii_digit, between, is_byte. lia. Qed.

(** Reading two digits and formatting the byte. *)
Lemma read_byte hi lo :
  is_hex hi = true → is_hex lo = true →
  ∃ h l, hex_nibble hi = Some h ∧ hex_nibble lo = Some l ∧
         is_byte (Z.lor (Z.shiftl h 4) l) ∧ format_02x (Z.lor (Z.shiftl h 4) l) = [hi; lo].
Proof.
  intros Hhi Hlo.
  assert (H : read_ok hi lo = true).
  { apply (byte_forall (read_ok hi)); [|by apply hex_below].
    apply (byte_forall (λ hi, forallb (read_ok hi) (below 256)));
      [vm_compute; reflexivity|by apply hex_below]. }
  unfold read_ok in H. rewrite Hhi, Hlo in H. cbn [andb implb] in H.
  destruct (hex_nibble hi) as [h|]; [|done]. destruct (hex_nibble lo) as [l|]; [|done].
  exists h, l. cbv zeta in H. apply andb_true_iff in H as [[H1 H2]%andb_true_iff H3].
  apply bool_decide_eq_true in H3. split_and!; [done..| |done]. unfold is_byte. lia.
Qed.

(** ** Digits of a list of bytes *)

Lemma hex_format l :
  Forall is_byte l →
  hex_pairs (l ≫= format_02x) = Some l ∧ forallb is_hex (l ≫= format_02x) = true ∧
  length (l ≫= format_02x) = (2 * length l)%nat.
Proof.
  induction 1 as [|b l Hb _ (IH1 & IH2 & IH3)]; [done|]. cbn [mbind list_bind].
  destruct (format_byte b Hb) as (hi & lo & -> & H1 & H2 & h & n & E1 & E2 & E3).
  cbn [app hex_pairs forallb length]. rewrite E1, E2. cbn [mbind option_bind].
  change (l ≫= format_02x) with (list_bind _ _ format_02x l) in *. rewrite IH1. cbn.
  rewrite H1, H2, E3. split_and!; [done|done|]. cbn in IH3. lia.
Qed.

Lemma hex_parse n s :
  length s = (2 * n)%nat → forallb is_hex s = true →
  ∃ l, hex_pairs s = Some l ∧ length l = n ∧ Forall is_byte l ∧ l ≫= format_02x = s.
Proof.
  revert s. induction n as [|n IH]; intros s Hlen Hs.
  { destruct s; [|done]. exists []. by split_and!. }
  destruct s as [|hi [|lo s]]; [done|cbn in Hlen; lia|]. cbn in Hlen.
  cbn [forallb] in Hs. apply andb_true_iff in Hs as [Hhi [Hlo Hs]%andb_true_iff].
  destruct (IH s) as (l & E & Hl & Hb & Ef); [lia|done|].
  destruct (read_byte hi lo Hhi Hlo) as (h & m & E1 & E2 & Hby & Efm).
  exists (Z.lor (Z.shiftl h 4) m :: l). cbn [hex_pairs]. rewrite E1, E2. cbn [mbind option_bind].
  rewrite E. split_and!; [done|cbn; lia|by constructor|].
  cbn [mbind list_bind]. rewrite Efm. cbn [app]. do 2 f_equal. exact Ef.
Qed.

Lemma hex_ascii s : forallb is_hex s = true → Forall (λ c, c < 128) s.
Proof.
  intros H. apply Forall_forall. intros c Hc%list_elem_of_In.
  assert (Hx : is_hex c = true) by by apply (proj1 (forallb_forall is_hex s) H).
  unfold is_hex, is_ascii_digit, between in Hx. lia.
Qed.

(** ** The theorem *)

Definition prefixed (capability : rstr) : bool := starts_with ROUTE_CATALOG_CAPABILITY_PREFIX capability.

Lemma digest_range : 256 ^ Z.of_nat 32 = 2 ^ 256.
Proof. vm_compute. reflexivity. Qed.

Lemma from_str_hex d :
  0 ≤ d < 2 ^ 256 → RouteCatalogFingerprint_from_str (to_hex d) = Some d.
Proof.
  intros Hd. destruct (hex_format (be_bytes 32 d) (be_bytes_bytes 32 d)) as (E1 & E2 & E3).
  fold (to_hex d) in *. pose proof (hex_ascii _ E2) as Ha. unfold RouteCatalogFingerprint_from_str.
  unfold len. rewrite (bytes_ascii _ Ha), E3, length_be_bytes. cbn [negb].
  rewrite bool_decide_eq_true_2 by done. change (λ byte, is_ascii_digit byte || between 97 102 byte) with is_hex.
  rewrite E2. cbn [negb orb]. rewrite E1. cbn [fmap option_fmap option_map]. f_equal.
  apply (of_be_bytes_to 32). by rewrite digest_range.
Qed.

Lemma from_str_canonical s d :
  RouteCatalogFingerprint_from_str s = Some d → to_hex d = s ∧ 0 ≤ d < 2 ^ 256.
Proof.
  unfold RouteCatalogFingerprint_from_str. intros H. destruct (_ || _) eqn:E; [done|].
  apply orb_false_iff in E as [E1 E2]. apply negb_false_iff in E1, E2.
  apply bool_decide_eq_true in E1. change (λ byte, is_ascii_digit byte || between 97 102 byte) with is_hex in E2.
  rewrite bytes_all_ascii in E2 by (intros c; unfold is_hex, is_ascii_digit, between; lia).
  pose proof (hex_ascii _ E2) as Ha. unfold len in E1. rewrite (bytes_ascii _ Ha) in *.
  destruct (hex_parse 32 s) as (l & El & Hl & Hb & Ef); [lia|done|]. rewrite El in H. injection H as <-.
  destruct (be_bytes_of l Hb) as [Hr Hrange]. rewrite Hl in *. rewrite digest_range in Hrange.
  split; [|done].
  unfold to_hex. by rewrite Hr.
Qed.

Lemma advertised_prefixed d : prefixed (advertisement_capability d) = true.
Proof.
  unfold prefixed, starts_with, advertisement_capability. apply bool_decide_eq_true. by rewrite take_app_length.
Qed.

Lemma drop_advertised d :
  drop (length ROUTE_CATALOG_CAPABILITY_PREFIX) (advertisement_capability d) = to_hex d.
Proof. unfold advertisement_capability. by rewrite drop_app_length. Qed.

Lemma prefixed_split c :
  prefixed c = true →
  c = ROUTE_CATALOG_CAPABILITY_PREFIX ++ drop (length ROUTE_CATALOG_CAPABILITY_PREFIX) c.
Proof.
  unfold prefixed, starts_with. intros E%bool_decide_eq_true. rewrite <- E at 1. symmetry. apply take_drop.
Qed.

(** The selected capabilities. *)
Lemma matches_elem caps c :
  c ∈ List.filter prefixed (btree_iter caps) ↔ c ∈ caps ∧ prefixed c = true.
Proof.
  rewrite !list_elem_of_In, filter_In, <- list_elem_of_In. unfold btree_iter. rewrite sort_by_perm.
  by rewrite elem_of_elements.
Qed.

Lemma matches_nodup caps : NoDup (List.filter prefixed (btree_iter caps)).
Proof.
  apply NoDup_ListNoDup, List.NoDup_filter, NoDup_ListNoDup. unfold btree_iter. rewrite sort_by_perm.
  apply NoDup_elements.
Qed.

(** A route-catalog fingerprint survives its advertisement.  Every 256-bit digest is read back
    from its hexadecimal text, only that canonical text reads as it, and from a worker's
    capabilities the repository recovers exactly the one fingerprint they advertise: none when no
    capability carries the reserved prefix, the digest when its advertisement is the only one that
    does, and an error in every other case. *)
Theorem fingerprint_roundtrip (d : RouteCatalogFingerprint) (caps : gset rstr) :
  0 ≤ d < 2 ^ 256 →
  RouteCatalogFingerprint_from_str (to_hex d) = Some d ∧
  (∀ s, RouteCatalogFingerprint_from_str s = Some d → s = to_hex d) ∧
  (from_capabilities caps = Ok (Some d) ↔
     ∀ c, (c ∈ caps ∧ prefixed c = true) ↔ c = advertisement_capability d) ∧
  (from_capabilities caps = Ok None ↔ ∀ c, c ∈ caps → prefixed c = false).
Proof.
  intros Hd. pose proof (from_str_hex d Hd) as Hrt. split; [done|]. split.
  { intros s Hs. symmetry. by apply from_str_canonical. }
  unfold from_capabilities. cbv zeta. change (starts_with ROUTE_CATALOG_CAPABILITY_PREFIX) with prefixed.
  pose proof (matches_elem caps) as Hin. pose proof (matches_nodup caps) as Hnd.
  destruct (List.filter prefixed (btree_iter caps)) as [|c rest].
  - split.
    + split; [done|]. intros H. exfalso. destruct (proj2 (H _) eq_refl) as [H1 H2].
      by apply (not_elem_of_nil (advertisement_capability d)), Hin.
    + split; [|done]. intros _ c Hc. apply not_true_is_false. intros Hp.
      by apply (not_elem_of_nil c), Hin.
  - assert (Hc : c ∈ caps ∧ prefixed c = true) by (apply Hin; constructor). split.
    + split.
      * intros H. apply result_bind_ok in H as (f & Hf%ok_or_ok & H).
        destruct rest as [|c' rest]; [|done]. injection H as ->.
        apply from_str_canonical in Hf as [Hf _]. intros c'. rewrite <- Hin, list_elem_of_singleton.
        destruct Hc as [_ Hp%prefixed_split]. unfold advertisement_capability. rewrite Hf, <- Hp. done.
      * intros H. pose proof (proj1 (H c) Hc) as ->. destruct rest as [|c' rest].
        -- by rewrite drop_advertised, Hrt.
        -- assert (c' = advertisement_capability d) as -> by (apply H, Hin; by repeat constructor).
           apply NoDup_cons in Hnd as [Hn _]. exfalso. apply Hn. constructor.
    + split.
      * intros H. apply result_bind_ok in H as (f & _ & H). by destruct rest.
      * intros H. destruct Hc as [Hc1 Hc2]. rewrite H in Hc2; done.
Qed.

Lemma fingerprint_roundtrip_witness :
  from_capabilities ({[str "sip"]} ∪ {[advertisement_capability (2 ^ 255 + 171)]})
    = Ok (Some (2 ^ 255 + 171)).
Proof.
  apply (fingerprint_roundtrip (2 ^ 255 + 171)); [lia|]. intros c.
  rewrite elem_of_union, !elem_of_singleton. split.
  - intros [[->| ->] Hp]; [vm_compute in Hp; discriminate|done].
  - intros ->. split; [by right|apply advertised_prefixed].
Defined.
