(* ===== verification/RepoRows.v ===== *)
(** Referential integrity of the store: every row is filed under its own key
    and refers to rows that exist. *)

From S2P Require Import Prelude RustText DomainTypes CoordModel Domain DomainInv DomainSafety.
From S2P Require Import DomainWorld DomainTrace DomainTheorems.
From S2P Require Import RepoTypes ServiceTypes RepoMemory RepoClaims RepoFrame RepoCommit RepoInv ServiceSample RepoEffects.
From S2P Require Import PlanModel ServiceCommands ServiceEffects ServiceSample.
From S2P Require Import RepoOutbox RepoTheorems RepoAttach.
From stdpp Require Import options.

Definition has_leg (l : LegId) (c : StoredCall) : Prop :=
  l = leg_id (ca_leg0 (sc_aggregate c)) ∨ l = leg_id (ca_leg1 (sc_aggregate c)).

(** ** Commands and results *)

Record commands_ok (s : MemoryState) : Prop := {
  co_command id m : rm_commands s !! id = Some m →
    sm_command_id m = id ∧ is_Some (rm_calls s !! sm_call_id m) ∧
    ∃ view, rm_command_results s !! id = Some view ∧ cv_command view = m;
  co_result id view : rm_command_results s !! id = Some view → is_Some (rm_commands s !! id);
}.

Lemma commands_same s s' :
  commands_ok s → retains s s' → rm_commands s' = rm_commands s →
  rm_command_results s' = rm_command_results s → commands_ok s'.
Proof.
  intros [C R] Hr Ec Er. split; rewrite ?Ec, ?Er; [|done].
  intros id m Hm. destruct (C _ _ Hm) as (Hid & [c Hc] & Hv). split_and!; [done| |done].
  destruct (rt_calls _ _ Hr _ _ Hc) as (c' & Hc' & _). by eexists.
Qed.

Lemma commands_recorded s s' id m view :
  commands_ok s → retains s s' → rm_commands s !! id = None →
  rm_commands s' = <[id := m]> (rm_commands s) →
  rm_command_results s' = <[id := view]> (rm_command_results s) →
  sm_command_id m = id → is_Some (rm_calls s' !! sm_call_id m) → cv_command view = m →
  commands_ok s'.
Proof.
  intros [C R] Hr Hn Ec Er Hid Hcall Hv. split.
  - intros id' m'. rewrite Ec, Er. intros [[<- <-]|[Hne Hm]]%lookup_insert_Some.
    + rewrite lookup_insert_eq. eauto.
    + rewrite lookup_insert_ne by done. destruct (C _ _ Hm) as (Hid' & [c Hc] & Hview).
      split_and!; [done| |done]. destruct (rt_calls _ _ Hr _ _ Hc) as (c' & Hc' & _). by eexists.
  - intros id' view'. rewrite Ec, Er. intros [[<- <-]|[Hne Hv']]%lookup_insert_Some.
    + rewrite lookup_insert_eq. by eexists.
    + rewrite lookup_insert_ne by done. by eapply R.
Qed.

(** ** Legs *)

(** A leg identifier is owned by the call that has the leg, and by no other. *)
Definition legs_ok (s : MemoryState) : Prop :=
  ∀ l id, rm_leg_owners s !! l = Some id ↔ ∃ c, rm_calls s !! id = Some c ∧ has_leg l c.

Lemma legs_same s s' :
  legs_ok s → rm_leg_owners s' = rm_leg_owners s →
  (∀ id c', rm_calls s' !! id = Some c' →
     ∃ c, rm_calls s !! id = Some c ∧ ∀ l, has_leg l c ↔ has_leg l c') →
  (∀ id c, rm_calls s !! id = Some c →
     ∃ c', rm_calls s' !! id = Some c' ∧ ∀ l, has_leg l c ↔ has_leg l c') → legs_ok s'.
Proof.
  intros Hok Eo H1 H2 l id. rewrite Eo, (Hok l id). split.
  - intros (c & Hc & Hl). destruct (H2 _ _ Hc) as (c' & Hc' & E). exists c'. split; [done|by apply E].
  - intros (c' & Hc' & Hl). destruct (H1 _ _ Hc') as (c & Hc & E). exists c. split; [done|by apply E].
Qed.

Lemma legs_put s s' (id : CallId) c c' :
  legs_ok s → rm_leg_owners s' = rm_leg_owners s → rm_calls s !! id = Some c →
  rm_calls s' = <[id := c']> (rm_calls s) → (∀ l, has_leg l c ↔ has_leg l c') → legs_ok s'.
Proof.
  intros Hok Eo Hc Ec Hl. apply (legs_same s); [done|done|..]; rewrite Ec.
  - intros id' x [[<- <-]|[_ Hx]]%lookup_insert_Some; [by exists c|by exists x].
  - intros id' x Hx. destruct (base.decide (id = id')) as [<-|].
    + rewrite lookup_insert_eq. exists c'. simplify_eq. done.
    + rewrite lookup_insert_ne by done. by exists x.
Qed.

Lemma has_leg_committed request c d l :
  valid_call (sc_aggregate c) → decide (sc_aggregate c) (ct_command request) = Ok d →
  has_leg l c ↔ has_leg l (committed_call request c d).
Proof.
  intros Hv Hd. destruct (decide_keeps _ _ _ Hv Hd) as (_ & _ & E0 & E1 & _).
  unfold has_leg. cbn. by rewrite E0, E1.
Qed.

(** ** Attachment indexes *)

Record indexes_ok (s : MemoryState) : Prop := {
  ix_row d row : rm_attachments s !! d = Some row →
    ax_token_digest row = d ∧ is_Some (rm_calls s !! ax_call_id row);
  ix_id a d : rm_attachment_ids s !! a = Some d →
    ∃ row, rm_attachments s !! d = Some row ∧ ax_attachment_id row = a;
  ix_active (key : BindingKey) d : rm_active_attachments s !! key = Some d →
    ∃ row, rm_attachments s !! d = Some row ∧
           (ax_call_id row, ax_leg_id row, ax_binding_generation row) = key;
  ix_used conn key : rm_connection_owners s !! conn = Some key → conn ∈ rm_used_connection_ids s;
}.

(** The key of a row is part of what it is issued for. *)
Lemma row_issue_keys row row' :
  row_issue row' = row_issue row →
  ax_token_digest row' = ax_token_digest row ∧ ax_attachment_id row' = ax_attachment_id row ∧
  ax_call_id row' = ax_call_id row ∧ ax_leg_id row' = ax_leg_id row ∧
  ax_binding_generation row' = ax_binding_generation row.
Proof. destruct row, row'. unfold row_issue. cbn. by intros [=]. Qed.

Lemma indexes_moved s s' :
  indexes_ok s → calls_kept s s' → attachments_move s s' →
  dom (rm_attachments s') = dom (rm_attachments s) → rm_attachment_ids s' = rm_attachment_ids s →
  rm_active_attachments s' = rm_active_attachments s →
  (∀ conn key, rm_connection_owners s' !! conn = Some key → conn ∈ rm_used_connection_ids s') →
  indexes_ok s'.
Proof.
  intros [Rw Id Ac _] Hr Hm Hd Ei Ea Hu. split; [| | |done].
  - intros d row' Hrow'.
    destruct (proj1 (elem_of_dom (rm_attachments s) d)) as [row Hrow]; [rewrite <- Hd; by apply elem_of_dom_2 in Hrow'|].
    destruct (am_rows _ _ Hm _ _ Hrow) as (r1 & Hr1 & M). simplify_eq.
    destruct (row_issue_keys _ _ (mv_issue _ _ M)) as (-> & _ & -> & _).
    destruct (Rw _ _ Hrow) as (-> & c & Hc). split; [done|].
    destruct (Hr _ _ Hc) as (c' & Hc' & _). by eexists.
  - intros a d. rewrite Ei. intros (row & Hrow & <-)%Id.
    destruct (am_rows _ _ Hm _ _ Hrow) as (r1 & Hr1 & M). exists r1. split; [done|].
    by destruct (row_issue_keys _ _ (mv_issue _ _ M)) as (_ & -> & _).
  - intros key d. rewrite Ea. intros (row & Hrow & <-)%Ac.
    destruct (am_rows _ _ Hm _ _ Hrow) as (r1 & Hr1 & M). exists r1. split; [done|].
    by destruct (row_issue_keys _ _ (mv_issue _ _ M)) as (_ & _ & -> & -> & ->).
Qed.

(** New attachments are filed under their keys. *)
Lemma indexes_inserted s s1 s' t id w issues :
  indexes_ok s1 → is_Some (rm_calls s' !! id) →
  attachments_inserted t id w issues s (rm_attachments s') (rm_attachment_ids s')
    (rm_active_attachments s') →
  rm_attachments s1 = rm_attachments s → rm_attachment_ids s1 = rm_attachment_ids s →
  rm_active_attachments s1 = rm_active_attachments s →
  (∀ i, is_Some (rm_calls s1 !! i) → is_Some (rm_calls s' !! i)) →
  (∀ conn key, rm_connection_owners s' !! conn = Some key → conn ∈ rm_used_connection_ids s') →
  indexes_ok s'.
Proof.
  intros [Rw Id Ac _] Hcall [K N I A All] E1 E2 E3 Hk Hu. rewrite E1 in *. split; [| | |done].
  - intros d row [Hrow|(i & Hi & -> & ->)]%N; [|done]. destruct (Rw _ _ Hrow). auto.
  - intros a d [H|(i & Hi & -> & ->)]%I.
    + rewrite <- E2 in H. apply Id in H as (row & Hrow & Ha). exists row. auto.
    + exists (attachment_row t id w i). by split; [apply All|].
  - intros key d [H|(i & Hi & -> & ->)]%A.
    + rewrite <- E3 in H. apply Ac in H as (row & Hrow & Ha). exists row. auto.
    + exists (attachment_row t id w i). by split; [apply All|].
Qed.

(** ** The invariant *)

Record rows_ok (s : MemoryState) : Prop := {
  rw_commands : commands_ok s;
  rw_legs : legs_ok s;
  rw_indexes : indexes_ok s;
}.

Lemma retained_calls s s' i : retains s s' → is_Some (rm_calls s !! i) → is_Some (rm_calls s' !! i).
Proof. intros R [c Hc]. destruct (rt_calls _ _ R _ _ Hc) as (c' & Hc' & _). by eexists. Qed.

(** Writes to other tables. *)
Lemma rows_same s s' :
  rows_ok s → retains s s' → rm_calls s' = rm_calls s → rm_commands s' = rm_commands s →
  rm_command_results s' = rm_command_results s → rm_leg_owners s' = rm_leg_owners s →
  rm_attachments s' = rm_attachments s → rm_attachment_ids s' = rm_attachment_ids s →
  rm_active_attachments s' = rm_active_attachments s →
  rm_connection_owners s' = rm_connection_owners s →
  rm_used_connection_ids s' = rm_used_connection_ids s → rows_ok s'.
Proof.
  intros [C L I] R Ek Ec Er El Ea Ei Eact Eo Eu. split.
  - by apply (commands_same s).
  - intros l id. rewrite El, Ek. apply L.
  - apply (indexes_moved s); auto; [exact (rt_calls _ _ R)|by apply attachments_same|by rewrite Ea|].
    rewrite Eo, Eu. apply I.
Qed.

Lemma rows_commit_written new_id request s c d view s' :
  rows_ok s → valid_call (sc_aggregate c) → commit_guarded request s c d →
  commit_written new_id request s c d view s' → rows_ok s'.
Proof.
  intros [C L I] Hv G W. pose proof (retains_commit_written _ _ _ _ _ _ _ Hv G W) as R.
  assert (Hcall : is_Some (rm_calls s' !! ct_call_id request)).
  { eapply retained_calls; [exact R|]. rewrite (cg_call _ _ _ _ G). by eexists. }
  destruct G, W. destruct cw_frame as (_ & Fl & _ & Fu & _). destruct cw_owners as [Fo _]. split.
  - eapply (commands_recorded s); eauto. by rewrite cw_view.
  - eapply (legs_put s); eauto. intros l. by apply has_leg_committed.
  - eapply (indexes_inserted _ (s <| rm_attachments :=
       if applies d then retired_rows (ct_call_id request) (cd_aggregate d) (rm_attachments s)
       else rm_attachments s |>)); [|exact Hcall|exact cw_attachments|done..| |].
    + apply (indexes_moved s); [done|by apply calls_kept_eq| | |done|done|apply I].
      * split; [|done]. intros dg row Hrow. cbn. destruct (applies d); [|by exists row].
        apply update_where_moves; [|done]. intros r _. apply revoke_row_moves.
      * cbn. destruct (applies d); [|done]. apply dom_fmap_L.
    + intros i Hi. by apply (retained_calls s).
    + intros conn key Hk. rewrite Fu. apply (ix_used _ I conn key). by apply (lookup_weaken _ _ _ _ Hk).
Qed.

Lemma rows_consumed request s row c :
  rows_ok s → consume_guarded request s row c → rows_ok (consumed_state request row c s).
Proof.
  intros [C L I] N. pose proof (attachments_consumed _ _ _ _ N) as M. destruct N.
  assert (Hsame : same_call c (consumed_call request c)) by (unfold consumed_call; by destruct (replaces_pending _ _)).
  assert (R : retains s (consumed_state request row c s)).
  { apply retains_ext; [done..| |done]. eapply calls_kept_insert; [done|]. intros c' Hc'. by simplify_eq. }
  split.
  - by apply (commands_same s).
  - eapply (legs_put s _ _ c (consumed_call request c)); eauto.
    intros l. unfold consumed_call. by destruct (replaces_pending _ _).
  - apply (indexes_moved s); [done|exact (rt_calls _ _ R)|exact M| |done|done|].
    + cbn. rewrite dom_insert_lookup_L; [done|by eexists].
    + intros conn key. cbn. intros [[<- _]|[_ Hk]]%lookup_insert_Some; [set_solver|].
      apply I in Hk. set_solver.
Qed.

(** A binding of a stored call, under a connection that is recorded as used. *)
Lemma rows_bound s s' id c binding :
  rows_ok s → rm_calls s !! id = Some c →
  rm_calls s' = <[id := bound_call c binding]> (rm_calls s) → rm_commands s' = rm_commands s →
  (∀ k, option_map cv_command (rm_command_results s' !! k)
        = option_map cv_command (rm_command_results s !! k)) →
  rm_leg_owners s' = rm_leg_owners s → rm_attachments s' = rm_attachments s →
  rm_attachment_ids s' = rm_attachment_ids s →
  rm_active_attachments s' = rm_active_attachments s →
  rm_connection_owners s' = rm_connection_owners (put_binding s id c binding) →
  rm_used_connection_ids s' = rm_used_connection_ids (put_binding s id c binding) → rows_ok s'.
Proof.
  intros [[C R] L I] Hc Ek Ec Er El Ea Ei Eact Eo Eu.
  assert (K : calls_kept s s') by (eapply calls_kept_insert; [done|]; intros; by simplify_eq). split.
  - split; rewrite ?Ec.
    + intros k m Hm. destruct (C _ _ Hm) as (Hid & Hcall & view & Hv & E). split_and!; [done| |].
      * destruct Hcall as [c0 Hc0]. destruct (K _ _ Hc0) as (c1 & Hc1 & _). by eexists.
      * specialize (Er k). rewrite Hv in Er. destruct (rm_command_results s' !! k) as [v'|]; [|done].
        injection Er as Er. exists v'. split; [done|congruence].
    + intros k view Hv. specialize (Er k). rewrite Hv in Er.
      destruct (rm_command_results s !! k) eqn:E; [|done]. by eapply R.
  - by eapply (legs_put s).
  - apply (indexes_moved s); [done|done| |by rewrite Ea|done|done|].
    + split; [rewrite Ea; intros; by eexists|]. rewrite Eu. cbn. set_solver.
    + rewrite Eo, Eu. cbn. intros conn key [[<- _]|[_ Hk]]%lookup_insert_Some; [set_solver|].
      apply I in Hk. set_solver.
Qed.

Section Rows.
Context {chrono : Chrono} {libs : ServiceLibs}.

Lemma rows_create_written new_id request s d k fp s' :
  rows_ok s → retains s s' → create_guarded request s d k fp →
  create_written new_id request s d k fp s' → rows_ok s'.
Proof using.
  intros [C L I] R G W. destruct (decide_keeps _ _ _ (kg_valid _ _ _ _ _ G) (kg_decide _ _ _ _ _ G))
    as (_ & _ & E0 & E1 & _).
  assert (Hcall : is_Some (rm_calls s' !! ca_id (cc_initial request))).
  { rewrite (kw_calls _ _ _ _ _ _ _ W), lookup_insert_eq. by eexists. }
  destruct G, W. destruct kw_frame as (_ & Fo & _ & Fu & _). split.
  - by eapply (commands_recorded s).
  - intros l id. rewrite kw_leg_owners, kw_calls, E0, E1.
    assert (H0 : ∀ l', l' = leg_id (ca_leg0 (cc_initial request)) ∨ l' = leg_id (ca_leg1 (cc_initial request)) →
      rm_leg_owners s !! l' = None).
    { unfold legs in kg_legs. intros l' [-> | ->]; apply kg_legs; by repeat constructor. }
    assert (Hnew : has_leg l (created_call request d fp) ↔
      l = leg_id (ca_leg0 (cc_initial request)) ∨ l = leg_id (ca_leg1 (cc_initial request))).
    { unfold has_leg. cbn. by rewrite E0, E1. }
    split.
    + intros [[<- <-]|[Hne1 [[<- <-]|[Hne0 Ho]]%lookup_insert_Some]]%lookup_insert_Some.
      * rewrite lookup_insert_eq. eexists. split; [done|]. apply Hnew. by right.
      * rewrite lookup_insert_eq. eexists. split; [done|]. apply Hnew. by left.
      * apply L in Ho as (c & Hc & Hl). exists c. rewrite lookup_insert_ne; [done|]. congruence.
    + intros (c & [[<- <-]|[Hne Hc]]%lookup_insert_Some & Hl).
      * apply Hnew in Hl as [-> | ->]; [|by rewrite lookup_insert_eq].
        destruct (base.decide (leg_id (ca_leg1 (cc_initial request)) = leg_id (ca_leg0 (cc_initial request)))) as [->|].
        -- by rewrite lookup_insert_eq.
        -- by rewrite lookup_insert_ne, lookup_insert_eq.
      * assert (Ho : rm_leg_owners s !! l = Some id) by (apply L; by exists c).
        rewrite !lookup_insert_ne; [done|..]; intros <-; rewrite H0 in Ho by auto; done.
  - eapply (indexes_inserted s s); [done|exact Hcall|exact kw_attachments|done..| |].
    + intros i Hi. by apply (retained_calls s).
    + rewrite Fo, Fu. apply I.
Qed.

Lemma rows_effect s s' : capacity_ok s → rows_ok s → effect s s' → rows_ok s'.
Proof using.
  intros Hcap Hok He. pose proof (retains_effect _ _ Hcap He) as R.
  destruct He; try (by apply (rows_same s)).
  - by eapply rows_create_written.
  - eapply rows_commit_written; eauto. apply (cy_calls s Hcap _ _ (cg_call _ _ _ _ H0)).
  - assert (Hv : valid_call (sc_aggregate (consumed_call request c))).
    { unfold consumed_call. destruct (replaces_pending _ _); apply (cy_calls s Hcap _ _ (ng_call _ _ _ _ H0)). }
    eapply rows_commit_written; [by apply rows_consumed|done..].
  - apply ingest_frame in H as (? & ? & ->). by apply (rows_same s).
  - apply bind_frame in H as (? & ? & ->). by apply (rows_same s).
  - apply apply_event_ok in H1 as (? & _ & _ & ->). by apply (rows_same s).
  - destruct Hok as [C L I]. split.
    + by apply (commands_same s).
    + by eapply (legs_put s _ id c (restarted_call w c)).
    + pose proof (attachments_effect s (restarted_state w at_ id c s)) as M.
      apply (indexes_moved s); [done|exact (rt_calls _ _ R)| |apply dom_fmap_L|done|done|apply I].
      apply M. by eapply eff_restart.
Qed.

Lemma rows_service s s' : capacity_ok s → rows_ok s → service_effect s s' → rows_ok s'.
Proof using.
  intros Hcap Hok He. pose proof (retains_service _ _ Hcap He) as R. destruct He.
  - pose proof (side_core _ _ H) as E.
    apply (rows_same s); [done|done|exact (f_equal rm_calls E)|exact (f_equal rm_commands E)
      |exact (f_equal rm_command_results E)|exact (f_equal rm_leg_owners E)|exact (f_equal rm_attachments E)
      |exact (f_equal rm_attachment_ids E)|exact (f_equal rm_active_attachments E)
      |exact (f_equal rm_connection_owners E)|exact (f_equal rm_used_connection_ids E)].
  - by apply (rows_same s).
  - pose proof (retains_created _ _ _ _ _ _ _ H0 H1) as R1.
    pose proof (rows_create_written _ _ _ _ _ _ _ Hok R1 H0 H1) as Hok1. destruct Hok1 as [[C K] L [A B D U]].
    split; [by split|exact L|by split].
  - pose proof (bg_call _ _ _ H) as Hc.
    eapply (rows_bound s _ _ c (outbound_binding request)); done.
  - pose proof (ko_valid _ _ _ (cy_calls s Hcap _ _ (cg_call _ _ _ _ H0))) as Hv.
    pose proof (rows_commit_written _ _ _ _ _ _ _ Hok Hv H0 H1) as Hok1.
    assert (Hc : rm_calls s1 !! ct_call_id command = Some (committed_call command c d)).
    { rewrite (cw_calls _ _ _ _ _ _ _ H1). apply lookup_insert_eq. }
    eapply (rows_bound s1 _ _ (committed_call command c d) binding); try done.
    intros k. cbn. destruct (base.decide (k = ct_command_id command)) as [->|].
    + by rewrite lookup_insert_eq, (cw_results _ _ _ _ _ _ _ H1), lookup_insert_eq.
    + by rewrite lookup_insert_ne.
Qed.

Lemma store_rows r : store_reachable r → rows_ok (mr_state r).
Proof using.
  apply (store_reachable_invariant rows_ok); [apply rows_effect|apply rows_service|]. split; split; try done.
  by intros (? & ? & _).
Qed.
End Rows.

(** C36. The store is well formed.  In every store that calls of the methods of both
    repositories lead to, each worker, call, command, effect and attachment is filed under its own identifier; every command names a stored call and
    has exactly its own result; a leg identifier is owned by a call exactly when the call has that
    leg, so two calls never share a leg; every attachment belongs to a stored call and both of its
    indexes lead to a row that carries the index key; and a connection that owns a binding is
    recorded as used. *)
Theorem store_is_well_formed `{Chrono, ServiceLibs} (r : MemoryRepository) :
  store_reachable r →
  let s := mr_state r in
  (∀ w k, rm_workers s !! w = Some k → wl_worker_id (wk_lease k) = w) ∧
  (∀ id c, rm_calls s !! id = Some c → ca_id (sc_aggregate c) = id ∧ valid_call (sc_aggregate c)) ∧
  (∀ e row, rm_outbox s !! e = Some row → ob_effect_id row = e) ∧
  (∀ id m, rm_commands s !! id = Some m →
     sm_command_id m = id ∧ is_Some (rm_calls s !! sm_call_id m) ∧
     ∃ view, rm_command_results s !! id = Some view ∧ cv_command view = m) ∧
  (∀ id view, rm_command_results s !! id = Some view → is_Some (rm_commands s !! id)) ∧
  (∀ l id, rm_leg_owners s !! l = Some id ↔ ∃ c, rm_calls s !! id = Some c ∧ has_leg l c) ∧
  (∀ id id' c c' l, rm_calls s !! id = Some c → rm_calls s !! id' = Some c' →
     has_leg l c → has_leg l c' → id = id') ∧
  (∀ d row, rm_attachments s !! d = Some row →
     ax_token_digest row = d ∧ is_Some (rm_calls s !! ax_call_id row)) ∧
  (∀ a d, rm_attachment_ids s !! a = Some d →
     ∃ row, rm_attachments s !! d = Some row ∧ ax_attachment_id row = a) ∧
  (∀ key d, rm_active_attachments s !! key = Some d →
     ∃ row, rm_attachments s !! d = Some row ∧
            (ax_call_id row, ax_leg_id row, ax_binding_generation row) = key) ∧
  (∀ conn key, rm_connection_owners s !! conn = Some key → conn ∈ rm_used_connection_ids s).
Proof.
  intros Hr s. destruct (store_capacity r Hr) as [Hw Hk]. destruct (store_rows r Hr) as [[C R] L [Rw Id Ac U]].
  split_and!; try done.
  - intros w k Hwk. apply (Hw w k Hwk).
  - intros id c Hc. by destruct (Hk id c Hc).
  - apply (oo_key _ (store_outbox r Hr)).
  - intros id id' c c' l Hc Hc' Hl Hl'.
    assert (E1 : rm_leg_owners s !! l = Some id) by (apply L; by exists c).
    assert (E2 : rm_leg_owners s !! l = Some id') by (apply L; by exists c'). congruence.
Qed.

Lemma store_is_well_formed_witness :
  ∃ c, rm_calls (mr_state signaled) !! (1 : CallId) = Some c ∧ has_leg 3 c.
Proof.
  apply (@store_is_well_formed chrono_sample libs_sample signaled store_signaled). vm_compute. reflexivity.
Defined.
