(* ===== verification/RepoEvents.v ===== *)
(** Provider events in the store: received once, applied once, and applied in
    the order in which they were received. *)

From S2P Require Import Prelude RustText DomainTypes CoordModel Domain DomainInv DomainSafety.
From S2P Require Import DomainWorld DomainTrace DomainTheorems.
From S2P Require Import RepoTypes ServiceTypes RepoMemory RepoClaims RepoFrame RepoCommit RepoInv ServiceSample RepoEffects.
From S2P Require Import PlanModel ServiceCommands ServiceReconcile ServiceEffects ServiceSample.
From S2P Require Import RepoOutbox RepoTheorems.
From stdpp Require Import options.

Definition event_key (event : ProviderEventEnvelope) : ProviderEventKey :=
  (pe_account event, pe_event_digest event).

(** The events of one provider call are ordered by their receipts. *)
Definition earlier (event event' : ProviderEventEnvelope) : Prop :=
  pe_account event = pe_account event' ∧ pe_provider_call_id event = pe_provider_call_id event' ∧
  (pe_receipt_sequence event < pe_receipt_sequence event')%N.

(** The event has been taken up. *)
Definition started (state : ProviderEventState) : bool :=
  match state with
  | ProviderEventState.Claimed _ _ _ _ | ProviderEventState.Applied => true
  | _ => false
  end.

(** ** The invariant *)

Record events_ok (s : MemoryState) : Prop := {
  eo_key key event : rm_provider_events s !! key = Some event → event_key event = key;
  eo_receipt key event : rm_provider_events s !! key = Some event →
    ∃ last, rm_provider_receipt_sequence s = Some last ∧ (pe_receipt_sequence event ≤ last)%N;
  eo_unique key key' event event' :
    rm_provider_events s !! key = Some event → rm_provider_events s !! key' = Some event' →
    pe_receipt_sequence event = pe_receipt_sequence event' → key = key';
  eo_order key key' event event' :
    rm_provider_events s !! key = Some event → rm_provider_events s !! key' = Some event' →
    earlier event event' → started (pe_state event') = true →
    pe_state event = ProviderEventState.Applied;
  eo_target key event : rm_provider_events s !! key = Some event →
    pe_state event ≠ ProviderEventState.PendingReference ↔ is_Some (pe_target event);
}.

(** What is received never changes; an applied event stays applied. *)
Definition event_received (event : ProviderEventEnvelope) : ProviderEventEnvelope :=
  event <| pe_target := None |> <| pe_state := ProviderEventState.Ready |> <| pe_applied_at := None |>.

Record event_moves (event event' : ProviderEventEnvelope) : Prop := {
  em_received : event_received event' = event_received event;
  em_applied : pe_state event = ProviderEventState.Applied → event' = event;
}.

#[export] Instance event_moves_preorder : PreOrder event_moves.
Proof.
  split; [done|]. intros a b c [R1 A1] [R2 A2]. split; [congruence|].
  intros H. pose proof (A1 H) as ->. auto.
Qed.

Lemma event_received_fields event event' :
  event_received event' = event_received event →
  pe_account event' = pe_account event ∧ pe_event_digest event' = pe_event_digest event ∧
  pe_provider_call_id event' = pe_provider_call_id event ∧
  pe_receipt_sequence event' = pe_receipt_sequence event.
Proof. destruct event, event'. unfold event_received. cbn. by intros [=]. Qed.

Lemma events_of_update (s : MemoryState) (events : gmap ProviderEventKey ProviderEventEnvelope) :
  rm_provider_events (s <| rm_provider_events := events |>) = events.
Proof. reflexivity. Qed.

(** Rows that move without being taken up keep the invariant. *)
Lemma events_update s s' :
  events_ok s → rm_provider_receipt_sequence s' = rm_provider_receipt_sequence s →
  (∀ key event', rm_provider_events s' !! key = Some event' →
     ∃ event, rm_provider_events s !! key = Some event ∧ event_moves event event' ∧
       (started (pe_state event') = true → started (pe_state event) = true ∨
          ∀ k e, rm_provider_events s !! k = Some e → earlier e event →
            pe_state e = ProviderEventState.Applied) ∧
       (pe_state event' ≠ ProviderEventState.PendingReference ↔ is_Some (pe_target event'))) →
  events_ok s'.
Proof.
  intros [K Q U O T] Es Hrow. split.
  - intros key event' (e & He & [Hr _] & _)%Hrow. rewrite <- (K _ _ He). unfold event_key.
    by destruct (event_received_fields _ _ Hr) as (-> & -> & _).
  - intros key event' (e & He & [Hr _] & _)%Hrow. rewrite Es.
    destruct (event_received_fields _ _ Hr) as (_ & _ & _ & ->). by eapply Q.
  - intros k1 k2 e1 e2 (f1 & H1 & [R1 _] & _)%Hrow (f2 & H2 & [R2 _] & _)%Hrow.
    destruct (event_received_fields _ _ R1) as (_ & _ & _ & ->).
    destruct (event_received_fields _ _ R2) as (_ & _ & _ & ->). by apply U.
  - intros k1 k2 e1 e2 (f1 & H1 & [R1 A1] & _)%Hrow (f2 & H2 & [R2 _] & S2 & _)%Hrow Hear Hst.
    assert (Hear' : earlier f1 f2).
    { unfold earlier in *. destruct (event_received_fields _ _ R1) as (E1 & _ & E2 & E3).
      destruct (event_received_fields _ _ R2) as (E4 & _ & E5 & E6). by rewrite E1, E2, E3, E4, E5, E6 in Hear. }
    assert (Ha : pe_state f1 = ProviderEventState.Applied).
    { destruct (S2 Hst) as [Hs|Hall]; [by eapply O|by eapply Hall]. }
    by rewrite (A1 Ha).
  - intros key event' (e & He & _ & _ & Ht)%Hrow. done.
Qed.

(** ** Preservation *)

(** Nothing unapplied precedes an event that can be claimed. *)
Lemma claimable_event_first s event w at_ k e :
  provider_event_claimable s event w at_ = true → rm_provider_events s !! k = Some e →
  earlier e event → pe_state e = ProviderEventState.Applied.
Proof.
  intros H He (Ea & Ec & Er). unfold provider_event_claimable in H. destruct (_ || _); [done|].
  destruct (pe_target event) as [target|]; [|done]. destruct (_ !! _); [|done].
  destruct (negb _); [done|]. apply andb_true_iff in H as [_ H]. apply negb_true_iff in H.
  destruct (base.decide (pe_state e = ProviderEventState.Applied)) as [|Hn]; [done|]. exfalso.
  apply not_true_iff_false in H. apply H, existsb_exists. exists e. split.
  - apply list_elem_of_In, values_elem. by exists k.
  - unfold provider_predecessor. rewrite Ea, Ec, !bool_decide_eq_true_2, bool_decide_eq_false_2 by done.
    cbn. rewrite andb_true_r. by apply N.ltb_lt.
Qed.

(** One row replaced. *)
Lemma events_put s key event event' :
  events_ok s → rm_provider_events s !! key = Some event → event_moves event event' →
  (started (pe_state event') = true → started (pe_state event) = true ∨
     ∀ k e, rm_provider_events s !! k = Some e → earlier e event →
       pe_state e = ProviderEventState.Applied) →
  (pe_state event' ≠ ProviderEventState.PendingReference ↔ is_Some (pe_target event')) →
  events_ok (s <| rm_provider_events := <[key := event']> (rm_provider_events s) |>).
Proof.
  intros Hok He Hm Hs Ht. apply (events_update s); [done|done|]. cbn.
  intros k e' [[<- <-]|[Hne Hk]]%lookup_insert_Some.
  - exists event. by split_and!.
  - exists e'. split_and!; [done|done|by left|]. by eapply (eo_target _ Hok).
Qed.

(** Every row updated in place. *)
Lemma events_update_where s p f :
  events_ok s →
  (∀ event, p event = true → event_moves event (f event) ∧
     started (pe_state (f event)) = started (pe_state event) ∧
     (pe_state event ≠ ProviderEventState.PendingReference ↔ is_Some (pe_target event) →
      pe_state (f event) ≠ ProviderEventState.PendingReference ↔ is_Some (pe_target (f event)))) →
  events_ok (s <| rm_provider_events := update_where p f (rm_provider_events s) |>).
Proof.
  intros Hok Hf. apply (events_update s); [done|done|]. cbn. unfold update_where.
  intros k e'. rewrite lookup_fmap. destruct (rm_provider_events s !! k) as [e|] eqn:He; [|done].
  cbn. intros [= <-]. exists e. split; [done|]. pose proof (eo_target _ Hok _ _ He) as Ht.
  destruct (p e) eqn:Hp; [|by split_and!; auto].
  destruct (Hf e Hp) as (Hm & Es & Ht'). split_and!; [done| |by apply Ht'..]. rewrite Es. by left.
Qed.

Lemma release_event_moves target event :
  event_moves event (release_event target event) ∧
  started (pe_state (release_event target event)) = started (pe_state event) ∧
  (pe_state event ≠ ProviderEventState.PendingReference ↔ is_Some (pe_target event) →
   pe_state (release_event target event) ≠ ProviderEventState.PendingReference ↔
   is_Some (pe_target (release_event target event))).
Proof.
  unfold release_event. case_bool_decide as E; [|by split_and!]. split_and!.
  - split; [done|]. rewrite E. done.
  - by rewrite E.
  - intros _. cbn. split; [by eexists|done].
Qed.

Lemma expire_event_moves at_ event :
  event_moves event (expire_event_claim at_ event) ∧
  started (pe_state (expire_event_claim at_ event)) = started (pe_state event) ∧
  (pe_state event ≠ ProviderEventState.PendingReference ↔ is_Some (pe_target event) →
   pe_state (expire_event_claim at_ event) ≠ ProviderEventState.PendingReference ↔
   is_Some (pe_target (expire_event_claim at_ event))).
Proof.
  unfold expire_event_claim. destruct (pe_state event) eqn:E; rewrite ?E; try by split_and!.
  split_and!; [|done|].
  - split; [done|]. by rewrite E.
  - cbn. intros [H _]. split; [|done]. intros _. by apply H.
Qed.

Lemma receipt_next_ok last next : ProviderReceiptSequence_next last = Ok next → next = (last + 1)%N.
Proof. unfold ProviderReceiptSequence_next. destruct (_ <=? _)%N; congruence. Qed.

(** The row and the receipt a fresh event gets. *)
Lemma ingest_ok request s out s' :
  ingest_provider_event_in_state request s = Ok (out, s') →
  s' = s ∨
  ∃ event,
    rm_provider_events s !! event_key event = None ∧
    (∀ last, rm_provider_receipt_sequence s = Some last → (last < pe_receipt_sequence event)%N) ∧
    started (pe_state event) = false ∧
    (pe_state event ≠ ProviderEventState.PendingReference ↔ is_Some (pe_target event)) ∧
    s' = s <| rm_provider_receipt_sequence := Some (pe_receipt_sequence event) |>
           <| rm_provider_events := <[event_key event := event]> (rm_provider_events s) |>.
Proof.
  unfold ingest_provider_event_in_state. cbv zeta. intros H. destruct (_ !! _) as [e|] eqn:E.
  { destruct (_ && _); [|done]. injection H as _ <-. by left. }
  apply result_bind_ok in H as (seq & Hseq & [= _ <-]). right.
  match goal with |- context [<[_ := ?event]> (rm_provider_events s)] => exists event end.
  split_and!; [..|reflexivity]; cbn.
  - exact E.
  - intros last Hl. rewrite Hl in Hseq. apply receipt_next_ok in Hseq. lia.
  - by destruct (is_some _).
  - destruct (rm_provider_references s !! _) as [row|]; cbn; [split; [by eexists|done]|].
    split; [done|by intros []].
Qed.

Lemma events_ingested s event :
  events_ok s → rm_provider_events s !! event_key event = None →
  (∀ last, rm_provider_receipt_sequence s = Some last → (last < pe_receipt_sequence event)%N) →
  started (pe_state event) = false →
  (pe_state event ≠ ProviderEventState.PendingReference ↔ is_Some (pe_target event)) →
  events_ok (s <| rm_provider_receipt_sequence := Some (pe_receipt_sequence event) |>
               <| rm_provider_events := <[event_key event := event]> (rm_provider_events s) |>).
Proof.
  intros [K Q U O T] Hn Hl Hs Ht.
  assert (Hlt : ∀ k e, rm_provider_events s !! k = Some e → (pe_receipt_sequence e < pe_receipt_sequence event)%N).
  { intros k e (last & El & Hle)%Q. specialize (Hl _ El). lia. }
  split; cbn.
  - intros k e [[<- <-]|[_ He]]%lookup_insert_Some; [done|by apply K].
  - intros k e [[<- <-]|[_ He]]%lookup_insert_Some; eexists; (split; [done|]); [done|].
    apply N.lt_le_incl. by eapply Hlt.
  - intros k1 k2 e1 e2 [[<- <-]|[_ H1]]%lookup_insert_Some [[<- <-]|[_ H2]]%lookup_insert_Some E.
    + done.
    + apply Hlt in H2. lia.
    + apply Hlt in H1. lia.
    + by eapply U.
  - intros k1 k2 e1 e2 [[<- <-]|[_ H1]]%lookup_insert_Some [[<- <-]|[_ H2]]%lookup_insert_Some Hear Hst.
    + congruence.
    + apply Hlt in H2. destruct Hear as (_ & _ & ?). lia.
    + congruence.
    + by eapply O.
  - intros k e [[<- <-]|[_ He]]%lookup_insert_Some; [done|by eapply T].
Qed.

Lemma claim_held_state event w g at_ :
  provider_claim_held event w g at_ = true →
  started (pe_state event) = true ∧ pe_state event ≠ ProviderEventState.Applied ∧
  pe_state event ≠ ProviderEventState.PendingReference.
Proof. unfold provider_claim_held. by destruct (pe_state event). Qed.

Lemma bind_ok request s out s' :
  bind_provider_reference_in_state request s = Ok (out, s') →
  ∃ refs target, s' = s <| rm_provider_references := refs |>
    <| rm_provider_events :=
         update_where (awaits_reference request) (release_event target) (rm_provider_events s) |>.
Proof.
  unfold bind_provider_reference_in_state. intros H. apply bind_unit_ok in H as [_ H].
  apply result_bind_ok in H as (c & _ & H). apply bind_reject_ok in H as [_ H]. cbv zeta in H.
  apply result_bind_ok in H as (s1 & H1 & [= _ <-]). destruct (_ !! _) as [row|].
  - destruct (_ !=? _); [done|]. injection H1 as <-. eexists (rm_provider_references s), _.
    destruct s. reflexivity.
  - injection H1 as <-. by eexists _, _.
Qed.

(** Writes to the other tables. *)
Lemma events_same s s' :
  events_ok s → rm_provider_events s' = rm_provider_events s →
  rm_provider_receipt_sequence s' = rm_provider_receipt_sequence s → events_ok s'.
Proof.
  intros Hok E1 E2. apply (events_update s); [done|done|]. rewrite E1. intros k e Hk.
  exists e. split_and!; [done|done|by left|]. by eapply (eo_target _ Hok).
Qed.

Section Events.
Context {chrono : Chrono} {libs : ServiceLibs}.

Lemma events_effect s s' : events_ok s → effect s s' → events_ok s'.
Proof using.
  intros Hok He. pose proof (λ s1, events_same s s1 Hok) as Hsame.
  destruct He; try (by apply Hsame).
  - destruct H1, kw_frame as (_ & _ & _ & _ & E1 & _ & _ & E2 & _). by apply Hsame.
  - destruct H1, cw_frame as (_ & _ & _ & _ & E1 & _ & _ & E2 & _). by apply Hsame.
  - destruct H2, cw_frame as (_ & _ & _ & _ & E1 & _ & _ & E2 & _). by apply Hsame.
  - apply ingest_ok in H as [->|(event & Hn & Hl & Hs & Ht & ->)]; [done|]. by apply events_ingested.
  - apply bind_ok in H as (refs & target & ->).
    assert (Hok1 : events_ok (s <| rm_provider_references := refs |>)) by by apply Hsame.
    pose proof (events_update_where _ (awaits_reference request) (release_event target) Hok1
      (λ event _, release_event_moves target event)) as Hok2. exact Hok2.
  - apply apply_event_ok in H1 as (ev0 & Hev & -> & ->). simplify_eq.
    apply claim_held_state in H0 as (Hst & Hna & Hnp).
    apply (events_update (s <| rm_provider_events := <[key := event <| pe_state := ProviderEventState.Applied |>
      <| pe_applied_at := Some at_ |>]> (rm_provider_events s) |>)); [|done|].
    + apply (events_put s key event); [done|done| |by left|].
      * by split.
      * cbn. split; [|done]. intros _. by apply (eo_target _ Hok _ _ H).
    + intros k e Hk. exists e. split_and!; [done|done|by left|]. cbn in Hk.
      apply lookup_insert_Some in Hk as [[<- <-]|[_ Hk]]; [|by eapply (eo_target _ Hok)].
      cbn. split; [|done]. intros _. by apply (eo_target _ Hok _ _ H).
  - apply (events_put s key event); [done|done| | |].
    + split; [done|]. intros Ha. by rewrite Ha in H1.
    + intros _. right. intros k e Hk. by eapply claimable_event_first.
    + cbn. split; [|done]. intros _. apply (eo_target _ Hok _ _ H). intros Ha. by rewrite Ha in H1.
  - apply (events_update (s <| rm_provider_events := rm_provider_events (restarted_state w at_ id c s) |>)).
    + apply events_update_where; [done|]. intros event _. apply expire_event_moves.
    + done.
    + intros key e Hk. exists e. rewrite events_of_update. split; [exact Hk|].
      split; [by split|]. split; [by left|].
      cbn in Hk. unfold update_where in Hk.
      rewrite lookup_fmap in Hk. destruct (rm_provider_events s !! key) as [e0|] eqn:E0; [|done].
      cbn in Hk. injection Hk as <-. pose proof (eo_target _ Hok _ _ E0) as Ht.
      destruct (is_some_and _ _); [|done]. by apply expire_event_moves.
Qed.

(** The rows of the service do not touch the inbox. *)
Lemma service_inbox s s' :
  service_effect s s' →
  rm_provider_events s' = rm_provider_events s ∧
  rm_provider_receipt_sequence s' = rm_provider_receipt_sequence s ∧
  rm_provider_completions s' = rm_provider_completions s.
Proof using.
  intros [].
  - pose proof (side_core _ _ H) as E.
    split_and!; [exact (f_equal rm_provider_events E)|exact (f_equal rm_provider_receipt_sequence E)
                |exact (f_equal rm_provider_completions E)].
  - done.
  - destruct H1, kw_frame as (_ & _ & _ & _ & E1 & _ & E2 & E3 & _). by split_and!.
  - done.
  - destruct H1, cw_frame as (_ & _ & _ & _ & E1 & _ & E2 & E3 & _). by split_and!.
Qed.

Lemma store_events r : store_reachable r → events_ok (mr_state r).
Proof using.
  apply (store_reachable_invariant events_ok); [..|by split]; intros s s' _ Hok.
  - by apply events_effect.
  - intros (E1 & E2 & _)%service_inbox. by apply (events_same s).
Qed.
End Events.

(** ** Finality *)

Record events_move (s s' : MemoryState) : Prop := {
  ev_rows key event : rm_provider_events s !! key = Some event →
    ∃ event', rm_provider_events s' !! key = Some event' ∧ event_moves event event';
  ev_done key event : rm_provider_events s !! key = Some event →
    pe_state event = ProviderEventState.Applied →
    rm_provider_completions s' !! key = rm_provider_completions s !! key;
}.

#[export] Instance events_move_preorder : PreOrder events_move.
Proof.
  split; [intros s; split; [intros; by eexists|done]|].
  intros s s' s'' [R1 D1] [R2 D2]. split.
  - intros key event (e1 & H1 & M1)%R1. destruct (R2 _ _ H1) as (e2 & H2 & M2). exists e2.
    split; [done|by etrans].
  - intros key event He Ha. destruct (R1 _ _ He) as (e1 & H1 & M1).
    rewrite <- (D1 _ _ He Ha). apply (D2 _ _ H1). by rewrite (em_applied _ _ M1 Ha).
Qed.

Lemma events_move_same s s' :
  rm_provider_events s' = rm_provider_events s →
  rm_provider_completions s' = rm_provider_completions s → events_move s s'.
Proof. intros E1 E2. split; [rewrite E1; intros; by eexists|by rewrite E2]. Qed.

Lemma events_move_where s s' p f :
  (∀ event, p event = true → event_moves event (f event)) →
  rm_provider_events s' = update_where p f (rm_provider_events s) →
  rm_provider_completions s' = rm_provider_completions s → events_move s s'.
Proof.
  intros Hf E1 E2. split; [|by rewrite E2]. intros key event He. rewrite E1. unfold update_where.
  rewrite lookup_fmap, He. cbn. eexists. split; [done|]. destruct (p event) eqn:Hp; [by apply Hf|done].
Qed.

(** One row that is not applied yet moves, with or without its completion. *)
Lemma events_move_put s s' key event event' :
  rm_provider_events s !! key = Some event → event_moves event event' →
  pe_state event ≠ ProviderEventState.Applied →
  rm_provider_events s' = <[key := event']> (rm_provider_events s) →
  (∀ k, k ≠ key → rm_provider_completions s' !! k = rm_provider_completions s !! k) →
  events_move s s'.
Proof.
  intros He Hm Hn E1 E2. split.
  - intros k e Hk. rewrite E1. destruct (base.decide (key = k)) as [<-|].
    + rewrite lookup_insert_eq. simplify_eq. by eexists.
    + rewrite lookup_insert_ne by done. by exists e.
  - intros k e Hk Ha. apply E2. intros ->. simplify_eq.
Qed.

Section Finality.
Context {chrono : Chrono} {libs : ServiceLibs}.

Lemma events_move_effect s s' : effect s s' → events_move s s'.
Proof using.
  intros []; try (by apply events_move_same).
  - destruct H1, kw_frame as (_ & _ & _ & _ & E1 & _ & E2 & _). by apply events_move_same.
  - destruct H1, cw_frame as (_ & _ & _ & _ & E1 & _ & E2 & _). by apply events_move_same.
  - destruct H2, cw_frame as (_ & _ & _ & _ & E1 & _ & E2 & _). by apply events_move_same.
  - apply ingest_ok in H as [->|(event & Hn & _ & _ & _ & ->)]; [done|]. split; [|done].
    intros key e He. cbn. exists e. split; [|done]. rewrite lookup_insert_ne; [done|]. congruence.
  - apply bind_ok in H as (refs & target & ->).
    apply (events_move_where _ _ (awaits_reference request) (release_event target)); [|done|done].
    intros event _. apply release_event_moves.
  - apply apply_event_ok in H1 as (ev0 & Hev & -> & ->).
    pose proof (eq_trans (eq_sym Hev) H) as [= ->].
    apply claim_held_state in H0 as (_ & Hna & _).
    eapply (events_move_put s _ key event _ H); [..|reflexivity|]; [by split|done|].
    intros k Hk. cbn. by rewrite lookup_insert_ne.
  - assert (Hna : pe_state event ≠ ProviderEventState.Applied) by (intros E; by rewrite E in H1).
    eapply (events_move_put s _ key event _ H); [..|reflexivity|done]; [by split|done].
  - eapply (events_move_where _ _ _ (expire_event_claim at_)); [|done|done].
    intros event _. apply expire_event_moves.
Qed.

Lemma events_move_run r r' :
  rtc store_step r r' → capacity_ok (mr_state r) → events_move (mr_state r) (mr_state r').
Proof using.
  intros Hr Hok. apply (store_invariant (events_move (mr_state r)) r r'); [..|done|done|done];
    intros s s' _ H0 He; (etrans; [exact H0|]).
  - by apply events_move_effect.
  - apply service_inbox in He as (E1 & _ & E2). by apply events_move_same.
Qed.
End Finality.

(** An applied event answers completions from its record. *)
Lemma complete_applied new_id r request event :
  rm_provider_events (mr_state r) !! ((pc_account request, pc_event_digest request) : ProviderEventKey)
    = Some event → pe_state event = ProviderEventState.Applied →
  (complete_provider_event new_id r request).1 = r.
Proof.
  intros He Ha. unfold complete_provider_event, transaction, lock. destruct (mr_poisoned r); [done|].
  destruct (complete_provider_event_in_state _ _ _) as [[out s']|] eqn:E; [|done]. cbn.
  apply complete_provider_event_ok in E as [->|(ev & o & s1 & row & ev' & Hev & Hn & _)].
  - apply same_repository.
  - exfalso. apply Hn. by pose proof (eq_trans (eq_sym Hev) He) as [= ->].
Qed.

Lemma acknowledge_applied r request event :
  rm_provider_events (mr_state r) !! ((ta_account request, ta_event_digest request) : ProviderEventKey)
    = Some event → pe_state event = ProviderEventState.Applied →
  (acknowledge_terminal_provider_event r request).1 = r.
Proof.
  intros He Ha. unfold acknowledge_terminal_provider_event, transaction, lock. destruct (mr_poisoned r); [done|].
  destruct (acknowledge_terminal_provider_event_in_state _ _) as [[out s']|] eqn:E; [|done]. cbn.
  apply acknowledge_ok in E as [->|(ev & ev' & Hev & Hh & _)]; [apply same_repository|].
  pose proof (eq_trans (eq_sym Hev) He) as [= ->]. by apply claim_held_state in Hh as (_ & Hh & _).
Qed.

Lemma reconcile_applied `{Chrono, ServiceLibs} new_id r request event :
  rm_provider_events (mr_state r) !! ((pv_account request, pv_event_digest request) : ProviderEventKey)
    = Some event → pe_state event = ProviderEventState.Applied →
  (reconcile_provider_event new_id r request).1 = r.
Proof.
  intros He Ha. unfold reconcile_provider_event.
  destruct (normalize_provider_event_reconciliation request) as [q|] eqn:E; [|done].
  assert (Hk : (pv_account q, pv_event_digest q) = (pv_account request, pv_event_digest request)).
  { unfold normalize_provider_event_reconciliation in E. cbv zeta in E. by inv_ok E; simplify_eq. }
  unfold transaction, lock. destruct (mr_poisoned r); [done|].
  unfold reconcile_provider_event_in_state. cbv zeta. rewrite Hk, He. cbn [ok_or mbind result_bind].
  rewrite Ha, bool_decide_eq_true_2 by done.
  destruct (rm_provider_completions _ !! _) as [[]|]; try done.
  destruct (_ && _); cbn; [apply same_repository|done].
Qed.

(** C32. Provider events take effect once and in the order they were received.  In every store
    that calls of the methods of both repositories lead to, an event of a provider call is being handled or has been applied only if every
    event of that provider call with an earlier receipt has been applied, and no two events share
    a receipt.  Along every run an event is never lost, nor is what was received altered; once
    applied it keeps its row and its completion, and completing, acknowledging or reconciling it
    again changes nothing. *)
Theorem provider_events_apply_in_order `{Chrono, ServiceLibs} (r r' : MemoryRepository) :
  store_reachable r → rtc store_step r r' →
  (∀ key key' event event',
     rm_provider_events (mr_state r) !! key = Some event →
     rm_provider_events (mr_state r) !! key' = Some event' →
     (earlier event event' → started (pe_state event') = true →
      pe_state event = ProviderEventState.Applied) ∧
     (pe_receipt_sequence event = pe_receipt_sequence event' → key = key')) ∧
  (∀ key event, rm_provider_events (mr_state r) !! key = Some event →
     ∃ event', rm_provider_events (mr_state r') !! key = Some event' ∧
       event_received event' = event_received event ∧
       (pe_state event = ProviderEventState.Applied →
          event' = event ∧
          rm_provider_completions (mr_state r') !! key = rm_provider_completions (mr_state r) !! key ∧
          (∀ new_id request, (pc_account request, pc_event_digest request) = key →
             (complete_provider_event new_id r' request).1 = r') ∧
          (∀ request, (ta_account request, ta_event_digest request) = key →
             (acknowledge_terminal_provider_event r' request).1 = r') ∧
          (∀ new_id request, (pv_account request, pv_event_digest request) = key →
             (reconcile_provider_event new_id r' request).1 = r'))).
Proof.
  intros Hr Hrun. pose proof (store_events r Hr) as Hok.
  pose proof (events_move_run _ _ Hrun (store_capacity r Hr)) as [Hrows Hdone]. split.
  - intros key key' event event' H1 H2. split; [by eapply (eo_order _ Hok)|by eapply (eo_unique _ Hok)].
  - intros key event He. destruct (Hrows _ _ He) as (event' & He' & M). exists event'. split; [done|].
    split; [apply M|]. intros Ha. pose proof (em_applied _ _ M Ha) as ->.
    split; [done|]. split; [by eapply Hdone|]. split_and!.
    + intros new_id request <-. by eapply complete_applied.
    + intros request <-. by eapply acknowledge_applied.
    + intros new_id request <-. by eapply reconcile_applied.
Qed.

(** ** Sample *)

(** A provider reports the outbound leg; the worker binds the provider call to the leg and takes
    the event up. *)
Definition sample_event (digest : Z) : ProviderEventInput :=
  {| pi_account := str "account"; pi_event_digest := digest; pi_payload_digest := digest + 1;
     pi_provider_call_id := str "provider-call"; pi_kind := str "call.answered";
     pi_payload := str "{}"; pi_occurred_at := None; pi_received_at := 2 |}.

Definition sample_to_vec (j : Json) : option (list Z) := Some (bytes j).

Definition sample_reference : BindProviderReference :=
  {| bp_tenant_id := str "tenant"; bp_call_id := 1; bp_leg_id := 3;
     bp_role := ProviderReferenceRole.Destination; bp_account := str "account";
     bp_provider_call_id := str "provider-call"; bp_worker := worker_one; bp_at := 3 |}.

Definition received : MemoryRepository :=
  (ingest_provider_event sample_to_vec (ingest_provider_event sample_to_vec signaled (sample_event 80)).1
     (sample_event 90)).1.

Definition taken_up : MemoryRepository :=
  (@claim_provider_events chrono_sample (bind_provider_reference received sample_reference).1
     worker_one 4 (from_secs 5) 10%N).1.

Lemma provider_events_apply_in_order_witness :
  ∃ first second,
    rm_provider_events (mr_state taken_up) !! ((str "account", 80) : ProviderEventKey) = Some first ∧
    rm_provider_events (mr_state taken_up) !! ((str "account", 90) : ProviderEventKey) = Some second ∧
    started (pe_state first) = true ∧ started (pe_state second) = false ∧ earlier first second.
Proof.
  assert (Hr : @store_reachable chrono_sample libs_sample taken_up).
  { apply reachable_in_store. unfold taken_up, received. eapply rtc_r; [|apply step_claim_events].
    eapply rtc_r; [|apply step_bind]. eapply rtc_r; [|apply step_ingest].
    eapply rtc_r; [apply reachable_signaled|apply step_ingest]. }
  destruct (@provider_events_apply_in_order chrono_sample libs_sample taken_up taken_up Hr) as [Hord _]; [done|].
  assert (H1 : ∃ e, rm_provider_events (mr_state taken_up) !! ((str "account", 80) : ProviderEventKey)
      = Some e ∧ pe_receipt_sequence e = 1%N ∧ pe_account e = str "account" ∧
      pe_provider_call_id e = str "provider-call" ∧ started (pe_state e) = true ∧
      pe_state e ≠ ProviderEventState.Applied)
    by (eexists; split; [vm_compute; reflexivity|by split_and!]).
  assert (H2 : ∃ e, rm_provider_events (mr_state taken_up) !! ((str "account", 90) : ProviderEventKey)
      = Some e ∧ pe_receipt_sequence e = 2%N ∧ pe_account e = str "account" ∧
      pe_provider_call_id e = str "provider-call")
    by (eexists; split; [vm_compute; reflexivity|by split_and!]).
  destruct H1 as (first & H1 & R1 & A1 & C1 & S1 & N1), H2 as (second & H2 & R2 & A2 & C2).
  exists first, second.
  assert (Hear : earlier first second) by (unfold earlier; rewrite A1, A2, C1, C2, R1, R2; by split_and!).
  split_and!; [exact H1|exact H2|exact S1| |exact Hear].
  apply not_true_is_false. intros S2. apply N1. by apply (proj1 (Hord _ _ _ _ H1 H2)).
Defined.
