(* ===== verification/ServiceRecords.v ===== *)
(** The records of the service: what an operation was answered is kept for good, and an exact retry
    is answered from it. *)

From S2P Require Import Prelude RustText DomainTypes CoordModel Domain DomainInv DomainSafety.
From S2P Require Import DomainWorld DomainTrace DomainTheorems.
From S2P Require Import RepoTypes ServiceTypes RepoMemory RepoClaims PlanModel.
From S2P Require Import ServiceCommands ServiceMemory ServiceReconcile.
From S2P Require Import RepoFrame RepoCommit RepoInv ServiceSample RepoEffects ServiceEffects.
From S2P Require Import RepoTheorems RepoFence.
From stdpp Require Import options.

(** ** Growth *)

(** No row of these tables is changed or dropped. *)
Record records_kept (s s' : MemoryState) : Prop := {
  rk_commands : rm_service_command_results s ⊆ rm_service_command_results s';
  rk_controls : rm_control_command_results s ⊆ rm_control_command_results s';
  rk_bindings : rm_outbound_binding_results s ⊆ rm_outbound_binding_results s';
  rk_results : rm_reconciliation_results s ⊆ rm_reconciliation_results s';
  rk_contexts : rm_initial_contexts s ⊆ rm_initial_contexts s';
  rk_plans : rm_execution_plans s ⊆ rm_execution_plans s';
  rk_payloads : rm_service_effect_payloads s ⊆ rm_service_effect_payloads s';
  rk_references : rm_external_references s ⊆ rm_external_references s' ∧
                  rm_external_reference_bindings s ⊆ rm_external_reference_bindings s';
}.

#[export] Instance records_kept_preorder : PreOrder records_kept.
Proof.
  split; [by split|]. intros s1 s2 s3 [? ? ? ? ? ? ? [? ?]] [? ? ? ? ? ? ? [? ?]].
  split; [by etrans..|]. split; by etrans.
Qed.

Lemma records_same s s' : service_part s' = service_part s → records_kept s s'.
Proof.
  intros E. split; [apply reflexive_eq..|split; apply reflexive_eq].
  - by apply (f_equal rm_service_command_results) in E.
  - by apply (f_equal rm_control_command_results) in E.
  - by apply (f_equal rm_outbound_binding_results) in E.
  - by apply (f_equal rm_reconciliation_results) in E.
  - by apply (f_equal rm_initial_contexts) in E.
  - by apply (f_equal rm_execution_plans) in E.
  - by apply (f_equal rm_service_effect_payloads) in E.
  - by apply (f_equal rm_external_references) in E.
  - by apply (f_equal rm_external_reference_bindings) in E.
Qed.

Section Records.
Context {chrono : Chrono} {libs : ServiceLibs}.

(** The call repository leaves the tables of the service alone. *)
Lemma effect_service_part s s' : effect s s' → service_part s' = service_part s.
Proof using.
  intros []; try done.
  - apply H1.
  - apply H1.
  - exact (cw_service _ _ _ _ _ _ _ H2).
  - by apply ingest_frame in H as (? & ? & ->).
  - by apply bind_frame in H as (? & ? & ->).
  - by apply apply_event_ok in H1 as (? & _ & _ & ->).
Qed.

Lemma records_side s s' : side_rows s s' → records_kept s s'.
Proof using.
  intros []; split; try done; cbn; try (by apply insert_subseteq).
  - by apply insert_subseteq, H.
  - by apply insert_subseteq, H.
  - split; by apply insert_subseteq.
Qed.

Lemma records_service s s' : service_effect s s' → records_kept s s'.
Proof using.
  intros [].
  - by apply records_side.
  - done.
  - trans s1; [by apply records_same, H1|]. split; try done. cbn.
    rewrite (f_equal rm_execution_plans (kw_service _ _ _ _ _ _ _ H1) : rm_execution_plans s1 = rm_execution_plans s).
    by apply insert_subseteq.
  - split; try done. cbn. by apply insert_subseteq, H.
  - trans s1; [by apply records_same, H1|done].
Qed.

Lemma records_store s s' : rtc store_effect s s' → records_kept s s'.
Proof using.
  induction 1 as [|s s1 s' [He|He] _ IH]; [done|..]; (etrans; [|exact IH]).
  - by apply records_same, effect_service_part.
  - by apply records_service.
Qed.

Lemma records_run r r' :
  rtc store_step r r' → capacity_ok (mr_state r) → records_kept (mr_state r) (mr_state r').
Proof using.
  intros Hr Hok. apply (store_invariant (records_kept (mr_state r)) r r'); [..|done|done|done];
    intros s s' _ H0 He; (etrans; [exact H0|]).
  - by apply records_same, effect_service_part.
  - by apply records_service.
Qed.

(** ** Answers from the records *)

Lemma bind_outbound_recorded r request row :
  mr_poisoned r = false → rm_outbound_binding_results (mr_state r) !! on_operation_id request = Some row →
  bind_outbound_connection r request =
    (r, if bo_request row ==? request then Ok (OutboundConnectionBindOutcome.Replayed (bo_binding row))
        else Err RepositoryError.CommandConflict).
Proof using.
  intros Hp Hrow. unfold bind_outbound_connection, transaction, lock, bind_outbound_connection_in_state.
  rewrite Hp, Hrow. destruct (_ ==? _); [|done]. by rewrite same_repository.
Qed.

Lemma reconcile_recorded new_id r request q row :
  mr_poisoned r = false → normalize_reconciliation request = Ok q →
  rm_reconciliation_results (mr_state r) !! er_effect_id q = Some row →
  reconcile_effect_result new_id r request =
    (r, if ro_request row ==? q then Ok (EffectResultOutcome.Replayed (ro_view row))
        else Err RepositoryError.StaleClaim).
Proof using.
  intros Hp Hq Hrow. unfold reconcile_effect_result. rewrite Hq.
  unfold transaction, lock, reconcile_effect_result_in_state.
  rewrite Hp, Hrow. destruct (_ ==? _); [|done]. by rewrite same_repository.
Qed.

Lemma command_recorded new_id r request q row :
  mr_poisoned r = false → normalize_service_command request = Ok q →
  st_operation_idempotency request = None →
  rm_service_command_results (mr_state r) !! ct_command_id (st_command request) = Some row →
  commit_with_effect_payloads new_id r request =
    (r, if is_some (st_media_activity q)
        then Err (RepositoryError.InvalidInput "media activity requires the guarded repository operation")
        else if sr_request row ==? q then Ok (ServiceCommandOutcome.Replayed (sr_view row))
        else Err RepositoryError.CommandConflict).
Proof using.
  intros Hp Hq Hk Hrow. unfold commit_with_effect_payloads. rewrite Hq.
  pose proof (normalized_command _ _ Hq) as Ec.
  assert (Ek : st_operation_idempotency q = None).
  { unfold normalize_service_command in Hq. cbv zeta in Hq. do 5 apply bind_unit_ok in Hq as [_ Hq].
    apply bind_reject_ok in Hq as [_ Hq]. apply bind_unit_ok in Hq as [_ Hq]. by injection Hq as <-. }
  unfold transaction, lock, commit_service_command_in_state. rewrite Hp. cbv zeta. rewrite andb_true_r.
  destruct (is_some (st_media_activity q)); cbn [reject_if mbind result_bind]; [done|].
  unfold replay_service_operation. rewrite Ek. cbn [mbind result_bind]. rewrite Ec, Hrow.
  destruct (_ ==? _); [|done]. by rewrite same_repository.
Qed.

Lemma control_recorded new_id r request row :
  mr_poisoned r = false → nt_operation_idempotency request = None →
  rm_control_command_results (mr_state r) !! nt_command_id request = Some row →
  enqueue_control new_id r request =
    (r, ControlIntent_validate (nt_intent request);;
        if nr_request row ==? request then Ok (ControlCommandOutcome.Replayed (nr_view row))
        else Err RepositoryError.CommandConflict).
Proof using.
  intros Hp Hk Hrow. unfold enqueue_control. rewrite Hk.
  destruct (ControlIntent_validate (nt_intent request)) as [[]|]; cbn [mbind result_bind]; [|done].
  unfold transaction, lock, enqueue_control_in_state, replay_control_operation. rewrite Hp, Hk.
  cbn [mbind result_bind]. rewrite Hrow. destruct (_ ==? _); [|done]. by rewrite same_repository.
Qed.
End Records.

(** ** Exactly once *)

(** A run that a method of the store started goes on. *)
Section Once.
Context {chrono : Chrono} {libs : ServiceLibs}.

Lemma method_run r r1 r2 :
  store_reachable r → store_step r r1 → rtc store_step r1 r2 →
  mr_poisoned r2 = false ∧ records_kept (mr_state r1) (mr_state r2).
Proof using.
  intros Hr Hs Hrun. assert (Hr1 : store_reachable r1) by by eapply rtc_r.
  split; [apply store_lock; unfold store_reachable; by etrans|]. by apply records_run; [|apply store_capacity].
Qed.

Lemma command_runs_once r r1 r2 new_id new_id' request view :
  store_reachable r → fresh_ids new_id (mr_state r) → rtc store_step r1 r2 →
  st_operation_idempotency request = None →
  commit_with_effect_payloads new_id r request = (r1, Ok (ServiceCommandOutcome.Committed view)) →
  commit_with_effect_payloads new_id' r2 request = (r2, Ok (ServiceCommandOutcome.Replayed view)) ∧
  ∀ request', ct_command_id (st_command request') = ct_command_id (st_command request) →
    st_operation_idempotency request' = None →
    normalize_service_command request' ≠ normalize_service_command request →
    ∃ e, commit_with_effect_payloads new_id' r2 request' = (r2, Err e).
Proof using.
  intros Hr Hf Hrun Hk Hc. destruct (method_run r r1 r2 Hr) as [Hp [Hkept _ _ _ _ _ _ _]]; [|done|].
  { right. replace r1 with (commit_with_effect_payloads new_id r request).1 by by rewrite Hc.
    by apply step_service_command. }
  unfold commit_with_effect_payloads in Hc at 1.
  destruct (normalize_service_command request) as [q|] eqn:Eq; [|done].
  apply transaction_ok in Hc as (_ & s1 & Hc & ->).
  assert (Hmedia : is_some (st_media_activity q) = false).
  { unfold commit_service_command_in_state in Hc. cbv zeta in Hc. apply bind_reject_ok in Hc as [Hm _].
    by rewrite andb_true_r in Hm. }
  apply commit_service_ok in Hc as (_ & _ & [(? & ?)|(v & [= ->] & _ & Hrow)]);
    [done| |by apply store_capacity|done].
  rewrite (normalized_command _ _ Eq) in Hrow. pose proof (lookup_weaken _ _ _ _ Hrow Hkept) as Hrow2.
  split.
  - rewrite (command_recorded new_id' r2 request q _ Hp Eq Hk Hrow2), Hmedia. cbn.
    by rewrite bool_decide_eq_true_2.
  - intros request' Hid Hk' Hne. destruct (normalize_service_command request') as [q'|e] eqn:Eq'.
    + rewrite <- Hid in Hrow2. rewrite (command_recorded new_id' r2 request' q' _ Hp Eq' Hk' Hrow2).
      destruct (is_some (st_media_activity q')); [by eexists|]. cbn [sr_request]. rewrite bool_decide_eq_false_2 by congruence. by eexists.
    + unfold commit_with_effect_payloads. rewrite Eq'. by eexists.
Qed.

Lemma control_runs_once r r1 r2 new_id new_id' request view :
  store_reachable r → rtc store_step r1 r2 → nt_operation_idempotency request = None →
  enqueue_control new_id r request = (r1, Ok (ControlCommandOutcome.Enqueued view)) →
  enqueue_control new_id' r2 request = (r2, Ok (ControlCommandOutcome.Replayed view)) ∧
  ∀ request', nt_command_id request' = nt_command_id request →
    nt_operation_idempotency request' = None → request' ≠ request →
    ∃ e, enqueue_control new_id' r2 request' = (r2, Err e).
Proof using.
  intros Hr Hrun Hk Hc. destruct (method_run r r1 r2 Hr) as [Hp [_ Hkept _ _ _ _ _ _]]; [|done|].
  { right. replace r1 with (enqueue_control new_id r request).1 by by rewrite Hc. apply step_enqueue_control. }
  unfold enqueue_control in Hc at 1. rewrite Hk in Hc.
  destruct (ControlIntent_validate (nt_intent request)) as [[]|] eqn:Ei; cbn [mbind result_bind] in Hc; [|done].
  apply transaction_ok in Hc as (_ & s1 & Hc & ->).
  apply enqueue_control_effects in Hc
    as [_ [(? & ?)|(q & s2 & [= ->] & _ & _ & _ & _ & i & ->)]]; [done|].
  assert (Hrow2 : rm_control_command_results (mr_state r2) !! nt_command_id request
    = Some {| nr_request := request; nr_view := queued_view request (new_id 0%nat) q |}).
  { eapply lookup_weaken; [|exact Hkept]. apply lookup_insert_eq. }
  split.
  - rewrite (control_recorded new_id' r2 request _ Hp Hk Hrow2), Ei. cbn. by rewrite bool_decide_eq_true_2.
  - intros request' Hid Hk' Hne. rewrite <- Hid in Hrow2.
    rewrite (control_recorded new_id' r2 request' _ Hp Hk' Hrow2).
    destruct (ControlIntent_validate (nt_intent request')); [|by eexists]. cbn [mbind result_bind nr_request].
    rewrite bool_decide_eq_false_2 by congruence. by eexists.
Qed.

Lemma binding_runs_once r r1 r2 request binding :
  store_reachable r → rtc store_step r1 r2 →
  bind_outbound_connection r request = (r1, Ok (OutboundConnectionBindOutcome.Bound binding)) →
  bind_outbound_connection r2 request = (r2, Ok (OutboundConnectionBindOutcome.Replayed binding)) ∧
  ∀ request', on_operation_id request' = on_operation_id request → request' ≠ request →
    bind_outbound_connection r2 request' = (r2, Err RepositoryError.CommandConflict).
Proof using.
  intros Hr Hrun Hc. destruct (method_run r r1 r2 Hr) as [Hp [_ _ Hkept _ _ _ _ _]]; [|done|].
  { right. replace r1 with (bind_outbound_connection r request).1 by by rewrite Hc. apply step_bind_outbound. }
  apply transaction_ok in Hc as (_ & s1 & Hc & ->).
  apply bind_outbound_effects in Hc as [(_ & ? & _ & _ & ?)|(c & _ & [= ->] & ->)]; [done|].
  assert (Hrow2 : rm_outbound_binding_results (mr_state r2) !! on_operation_id request
    = Some {| bo_request := request; bo_binding := outbound_binding request |}).
  { eapply lookup_weaken; [|exact Hkept]. apply lookup_insert_eq. }
  split.
  - rewrite (bind_outbound_recorded r2 request _ Hp Hrow2). cbn. by rewrite bool_decide_eq_true_2.
  - intros request' Hid Hne. rewrite <- Hid in Hrow2. rewrite (bind_outbound_recorded r2 request' _ Hp Hrow2).
    cbn. by rewrite bool_decide_eq_false_2 by congruence.
Qed.

Lemma normalized_effect request q : normalize_reconciliation request = Ok q → er_effect_id q = er_effect_id request.
Proof using. unfold normalize_reconciliation. cbv zeta. intros E. inv_ok E; by simplify_eq. Qed.

Lemma result_runs_once r r1 r2 new_id new_id' request view :
  store_reachable r → fresh_ids new_id (mr_state r) → rtc store_step r1 r2 →
  reconcile_effect_result new_id r request = (r1, Ok (EffectResultOutcome.Reconciled view)) →
  reconcile_effect_result new_id' r2 request = (r2, Ok (EffectResultOutcome.Replayed view)) ∧
  ∀ request', er_effect_id request' = er_effect_id request →
    normalize_reconciliation request' ≠ normalize_reconciliation request →
    ∃ e, reconcile_effect_result new_id' r2 request' = (r2, Err e).
Proof using.
  intros Hr Hf Hrun Hc. destruct (method_run r r1 r2 Hr) as [Hp [_ _ _ Hkept _ _ _ _]]; [|done|].
  { right. replace r1 with (reconcile_effect_result new_id r request).1 by by rewrite Hc.
    by apply step_reconcile_effect. }
  unfold reconcile_effect_result in Hc at 1.
  destruct (normalize_reconciliation request) as [q|] eqn:Eq; [|done].
  apply transaction_ok in Hc as (_ & s1 & Hc & ->).
  apply reconcile_effect_effects in Hc as [(_ & ? & _ & _ & ?)|(_ & _ & v & [= ->] & Hrow)];
    [done| |by apply store_capacity|done].
  pose proof (lookup_weaken _ _ _ _ Hrow Hkept) as Hrow2.
  split.
  - rewrite (reconcile_recorded new_id' r2 request q _ Hp Eq Hrow2). cbn. by rewrite bool_decide_eq_true_2.
  - intros request' Hid Hne. destruct (normalize_reconciliation request') as [q'|e] eqn:Eq'.
    + rewrite (normalized_effect _ _ Eq), <- Hid, <- (normalized_effect _ _ Eq') in Hrow2.
      rewrite (reconcile_recorded new_id' r2 request' q' _ Hp Eq' Hrow2). cbn.
      rewrite bool_decide_eq_false_2 by congruence. by eexists.
    + unfold reconcile_effect_result. rewrite Eq'. by eexists.
Qed.
End Once.

(** C5. The operations of the service take effect exactly once.  When a command, a control, an
    outbound binding or the result of an effect has been accepted, then after any further calls of
    the methods of both repositories, whatever leases and claims have expired since: sending it
    again returns the recorded answer and changes nothing, and a different request under its
    identifier is refused and changes nothing.  (Commands and controls here are those without an
    operation key; requests are compared after normalization, which orders their payloads.) *)
Theorem service_operations_run_once `{Chrono, ServiceLibs} (r r1 r2 : MemoryRepository)
    (new_id new_id' : nat → EffectId) :
  store_reachable r → fresh_ids new_id (mr_state r) → rtc store_step r1 r2 →
  (∀ request view, st_operation_idempotency request = None →
     commit_with_effect_payloads new_id r request = (r1, Ok (ServiceCommandOutcome.Committed view)) →
     commit_with_effect_payloads new_id' r2 request = (r2, Ok (ServiceCommandOutcome.Replayed view)) ∧
     ∀ request', ct_command_id (st_command request') = ct_command_id (st_command request) →
       st_operation_idempotency request' = None →
       normalize_service_command request' ≠ normalize_service_command request →
       ∃ e, commit_with_effect_payloads new_id' r2 request' = (r2, Err e)) ∧
  (∀ request view, nt_operation_idempotency request = None →
     enqueue_control new_id r request = (r1, Ok (ControlCommandOutcome.Enqueued view)) →
     enqueue_control new_id' r2 request = (r2, Ok (ControlCommandOutcome.Replayed view)) ∧
     ∀ request', nt_command_id request' = nt_command_id request →
       nt_operation_idempotency request' = None → request' ≠ request →
       ∃ e, enqueue_control new_id' r2 request' = (r2, Err e)) ∧
  (∀ request binding,
     bind_outbound_connection r request = (r1, Ok (OutboundConnectionBindOutcome.Bound binding)) →
     bind_outbound_connection r2 request = (r2, Ok (OutboundConnectionBindOutcome.Replayed binding)) ∧
     ∀ request', on_operation_id request' = on_operation_id request → request' ≠ request →
       bind_outbound_connection r2 request' = (r2, Err RepositoryError.CommandConflict)) ∧
  (∀ request view,
     reconcile_effect_result new_id r request = (r1, Ok (EffectResultOutcome.Reconciled view)) →
     reconcile_effect_result new_id' r2 request = (r2, Ok (EffectResultOutcome.Replayed view)) ∧
     ∀ request', er_effect_id request' = er_effect_id request →
       normalize_reconciliation request' ≠ normalize_reconciliation request →
       ∃ e, reconcile_effect_result new_id' r2 request' = (r2, Err e)).
Proof.
  intros Hr Hf Hrun. split_and!; intros.
  - by eapply command_runs_once.
  - by eapply control_runs_once.
  - by eapply binding_runs_once.
  - by eapply result_runs_once.
Qed.

Lemma service_operations_run_once_witness :
  @enqueue_control chrono_sample (ids_from 900) two_digits (digit_request 31 (str "5") 9)
    = (two_digits, Ok (ControlCommandOutcome.Replayed (queued_view (digit_request 31 (str "5") 9) 600 1%N))) ∧
  ∃ e, @enqueue_control chrono_sample (ids_from 900) two_digits (digit_request 31 (str "7") 9) = (two_digits, Err e).
Proof.
  assert (Hstep : rtc (@store_step chrono_sample libs_sample) one_digit two_digits).
  { apply rtc_once. right. apply step_enqueue_control. }
  destruct (@service_operations_run_once chrono_sample libs_sample answered one_digit two_digits
    (ids_from 600) (ids_from 900) store_answered ltac:(unused_ids) Hstep) as (_ & Hcontrol & _).
  destruct (Hcontrol (digit_request 31 (str "5") 9) (queued_view (digit_request 31 (str "5") 9) 600 1%N))
    as [Hsame Hother]; [done| |split; [exact Hsame|by apply Hother]].
  assert (Eo : (@enqueue_control chrono_sample (ids_from 600) answered (digit_request 31 (str "5") 9)).2
    = Ok (ControlCommandOutcome.Enqueued (queued_view (digit_request 31 (str "5") 9) 600 1%N)))
    by (vm_compute; reflexivity).
  unfold one_digit. destruct (enqueue_control _ _ _) as [r' o]. cbn in Eo |- *. by rewrite Eo.
Defined.
