(* ===== verification/ServicePlans.v ===== *)
(** What the store keeps of a managed call for good: its execution plan, which stays valid for it,
    and the rows from which the call is read. *)

From S2P Require Import Prelude RustText DomainTypes Domain DomainInv DomainSafety DomainWorld.
From S2P Require Import DomainTrace DomainTheorems CoordModel RepoTypes ServiceTypes PlanModel.
From S2P Require Import RepoMemory RepoClaims ServiceCommands ServiceMemory ServiceReconcile.
From S2P Require Import RepoFrame RepoCommit RepoInv RepoEffects ServiceEffects ServiceSample.
From S2P Require Import RepoOutbox RepoTheorems RepoAttach RepoRows ServiceRecords.
From stdpp Require Import options.

(** ** Calls a plan keeps fitting *)

(** What a plan reads of a leg: its identity, and its kind while it has its first binding. *)
Definition leg_fits (l l' : Leg) : Prop :=
  leg_identity l' = leg_identity l ∧
  (leg_binding_generation l' = BindingGeneration_INITIAL →
   leg_binding_generation l = BindingGeneration_INITIAL ∧ leg_kind l' = leg_kind l).

Definition call_fits (a a' : CallAggregate) : Prop :=
  leg_fits (ca_leg0 a) (ca_leg0 a') ∧ leg_fits (ca_leg1 a) (ca_leg1 a').

#[export] Instance leg_fits_preorder : PreOrder leg_fits.
Proof.
  split; [by split|]. intros l1 l2 l3 [I1 K1] [I2 K2]. split; [congruence|].
  intros H. destruct (K2 H) as [H2 E2]. destruct (K1 H2) as [H1 E1]. split; [done|congruence].
Qed.

#[export] Instance call_fits_preorder : PreOrder call_fits.
Proof.
  split; [by split|]. intros a b c [A0 A1] [B0 B1]. split; by etrans.
Qed.

(** No decision moves a leg back to its first binding, nor changes the kind of a binding. *)
Lemma decide_fits a c d : valid_call a → decide a c = Ok d → call_fits a (cd_aggregate d).
Proof.
  intros Hv H. destruct (decide_inv _ _ _ Hv H) as [(b & r & Ha & Hr & _ & _ & -> & _)|(-> & _)]; [|done].
  destruct (apply_command_progress _ _ _ _ Hv Ha Hr) as [G _].
  apply apply_command_identity, (identity_committed _ _ c) in Ha as (_ & _ & I0 & I1 & _).
  assert (Hfit : ∀ i, leg_identity (leg_at (committed b c) i) = leg_identity (leg_at a i) →
    leg_binding_generation (leg_at a i) ≠ 0%N → leg_fits (leg_at a i) (leg_at (committed b c) i)).
  { intros i Hi Hn. split; [done|]. intros Hg. destruct (G i) as [[Hle _] Hk].
    assert (leg_binding_generation (leg_at (committed b c) i) = leg_binding_generation (leg_at b i)) as Eb
      by by destruct i.
    rewrite Eb in Hg. unfold BindingGeneration_INITIAL in *.
    assert (leg_binding_generation (leg_at a i) = 1%N) as Ea by lia. split; [done|].
    rewrite <- Hk by congruence. by destruct i. }
  destruct Hv as [[_ _ _ _ V0 V1] _].
  split; [apply (Hfit Leg0)|apply (Hfit Leg1)]; try done; [apply V0|apply V1].
Qed.

Lemma fits_ids a a' i : call_fits a a' → leg_id (leg_at a' i) = leg_id (leg_at a i).
Proof. intros [[I0 _] [I1 _]]. unfold leg_identity in *. destruct i; cbn; congruence. Qed.

Lemma find_leg_fits a a' id leg :
  call_fits a a' → find_leg a id = Some leg → ∃ leg', find_leg a' id = Some leg' ∧ leg_fits leg leg'.
Proof.
  intros Hf. pose proof (fits_ids _ _ Leg0 Hf) as E0. pose proof (fits_ids _ _ Leg1 Hf) as E1.
  destruct Hf as [F0 F1]. cbn in E0, E1. unfold find_leg. rewrite E0, E1.
  destruct (_ ==? _); [intros [= <-]; by eexists|]. destruct (_ ==? _); [|done].
  intros [= <-]. by eexists.
Qed.

(** ** Validation *)

Lemma fits_semantics l l' :
  leg_fits l l' →
  leg_semantics l' = leg_semantics l ∧ leg_direction l' = leg_direction l ∧
  signaling_initiator l' = signaling_initiator l ∧ leg_media_flow l' = leg_media_flow l ∧
  leg_id l' = leg_id l.
Proof.
  intros [I _]. unfold leg_identity in I. injection I as E0 E1 E2 E3 E4.
  unfold leg_semantics, signaling_initiator. by rewrite E0, E1, E2, E3.
Qed.

(** A test of the kind that passed for the first binding passes from then on. *)
Lemma fits_kind l l' kind :
  leg_fits l l' →
  (leg_binding_generation l ==? BindingGeneration_INITIAL) && (leg_kind l !=? kind) = false →
  (leg_binding_generation l' ==? BindingGeneration_INITIAL) && (leg_kind l' !=? kind) = false.
Proof.
  intros [_ K] H. destruct (leg_binding_generation l' ==? _) eqn:Hg; [|done]. apply bool_decide_eq_true in Hg. destruct (K Hg) as [E1 E2].
  rewrite E1, bool_decide_eq_true_2 in H by done. by rewrite E2.
Qed.

Section Plans.
Context {libs : ServiceLibs}.

Lemma bind_semantics_fits a a' bindings bound out :
  call_fits a a' → bind_semantics a bindings bound = Ok out → bind_semantics a' bindings bound = Ok out.
Proof using.
  intros Hf. revert bound. induction bindings as [|b bindings IH]; intros bound H; cbn in *; [done|].
  destruct (bool_decide _); [done|]. apply result_bind_ok in H as (leg & Hleg%ok_or_ok & H).
  destruct (find_leg_fits _ _ _ _ Hf Hleg) as (leg' & -> & Hl). cbn [ok_or mbind result_bind].
  destruct (fits_semantics _ _ Hl) as (-> & _). destruct (_ !=? _); [done|]. by apply IH.
Qed.

Lemma validate_leg_semantics_fits plan a a' :
  call_fits a a' → validate_leg_semantics plan a = Ok () → validate_leg_semantics plan a' = Ok ().
Proof using.
  intros Hf H. pose proof Hf as [F0 F1]. unfold validate_leg_semantics in *.
  destruct (fits_semantics _ _ F0) as (_ & D0 & S0 & M0 & I0), (fits_semantics _ _ F1) as (_ & D1 & S1 & M1 & I1).
  unfold legs in *. cbn [existsb] in *. rewrite D0, S0, M0, I0, D1, S1, M1, I1.
  destruct (is_empty (ep_leg_semantics plan)); [done|]. destruct (_ || _); [done|].
  apply result_bind_ok in H as (bound & Hb & H). by rewrite (bind_semantics_fits _ _ _ _ _ Hf Hb).
Qed.

Lemma validate_leg_spec_fits a a' spec :
  call_fits a a' → validate_leg_spec a spec = Ok () → validate_leg_spec a' spec = Ok ().
Proof using.
  intros Hf H. unfold validate_leg_spec in *. apply result_bind_ok in H as (leg & Hleg%ok_or_ok & H).
  destruct (find_leg_fits _ _ _ _ Hf Hleg) as (leg' & -> & Hl). cbn [ok_or mbind result_bind].
  destruct (fits_semantics _ _ Hl) as (_ & -> & -> & _).
  destruct ((leg_binding_generation leg ==? _) && _) eqn:E; [done|]. by rewrite (fits_kind _ _ _ Hl E).
Qed.

Lemma bind_connect_starts_fits plan a a' bindings bound out :
  call_fits a a' → bind_connect_starts plan a bindings bound = Ok out →
  bind_connect_starts plan a' bindings bound = Ok out.
Proof using.
  intros Hf. revert bound. induction bindings as [|b bindings IH]; intros bound H; cbn in *; [done|].
  destruct (bool_decide _); [done|]. apply bind_unit_ok in H as [-> H]. cbn [mbind result_bind].
  apply result_bind_ok in H as (leg & Hleg%ok_or_ok & H).
  destruct (find_leg_fits _ _ _ _ Hf Hleg) as (leg' & -> & Hl). cbn [ok_or mbind result_bind].
  destruct (fits_semantics _ _ Hl) as (_ & -> & _).
  destruct (_ || _) eqn:E; [done|]. apply orb_false_iff in E as [E ->].
  rewrite (fits_kind _ _ _ Hl E). cbn [orb].
  apply result_bind_ok in H as (endpoint & -> & H). cbn [mbind result_bind].
  destruct (_ || _); [done|]. by apply IH.
Qed.

Lemma validate_against_fits plan a a' :
  call_fits a a' → validate_against plan a = Ok () → validate_against plan a' = Ok ().
Proof using.
  intros Hf H. unfold validate_against in *. apply bind_unit_ok in H as [-> H]. cbn [mbind result_bind].
  destruct (_ ==? _); [done|]. apply bind_unit_ok in H as [Hs H].
  rewrite (validate_leg_semantics_fits _ _ _ Hf Hs). cbn [mbind result_bind].
  apply bind_unit_ok in H as [Hl H]. rewrite try_each_ok in Hl.
  rewrite (proj2 (try_each_ok _ _)); [|intros spec Hin; by apply (validate_leg_spec_fits a), Hl].
  cbn [mbind result_bind]. pose proof (fits_ids _ _ Leg0 Hf) as I0. pose proof (fits_ids _ _ Leg1 Hf) as I1.
  cbn in I0, I1. unfold legs in *. cbn [existsb] in *. rewrite I0, I1. destruct (_ || _); [done|].
  apply bind_unit_ok in H as [Ha ->]. unfold validate_amazon_connect_starts in *.
  destruct (negb _); [by rewrite Ha|]. apply result_bind_ok in Ha as (bound & Hb & Ha).
  rewrite (bind_connect_starts_fits _ _ _ _ _ _ Hf Hb). cbn [mbind result_bind]. by rewrite Ha.
Qed.
End Plans.

(** ** The store *)

(** A preorder that every decision on a call follows. *)
Class Decided (R : relation CallAggregate) : Prop := {
  decided_preorder :: PreOrder R;
  decided_step a c d : valid_call a → decide a c = Ok d → R a (cd_aggregate d);
}.

#[export] Instance call_fits_decided : Decided call_fits.
Proof. split; [apply _|exact decide_fits]. Qed.

(** The stored calls move on by decisions, and no call is dropped. *)
Definition calls_move (R : relation CallAggregate) (s s' : MemoryState) : Prop :=
  ∀ id c, rm_calls s !! id = Some c →
    ∃ c', rm_calls s' !! id = Some c' ∧ R (sc_aggregate c) (sc_aggregate c').

Section Moves.
Context {chrono : Chrono} {libs : ServiceLibs} (R : relation CallAggregate) {decided : Decided R}.

Lemma calls_move_eq s s' : rm_calls s' = rm_calls s → calls_move R s s'.
Proof using decided. intros E id c Hc. rewrite E. by exists c. Qed.

Lemma calls_move_insert s s' (id : CallId) c' :
  rm_calls s' = <[id := c']> (rm_calls s) →
  (∀ c, rm_calls s !! id = Some c → R (sc_aggregate c) (sc_aggregate c')) → calls_move R s s'.
Proof using decided.
  intros E Hf id' c Hc. rewrite E. destruct (base.decide (id = id')) as [<-|].
  - rewrite lookup_insert_eq. eauto.
  - rewrite lookup_insert_ne by done. by exists c.
Qed.

#[export] Instance calls_move_preorder : PreOrder (calls_move R).
Proof using decided.
  split; [intros s id c Hc; by exists c|]. intros s1 s2 s3 H1 H2 id c Hc.
  destruct (H1 _ _ Hc) as (c2 & Hc2 & F2). destruct (H2 _ _ Hc2) as (c3 & Hc3 & F3).
  exists c3. split; [done|by etrans].
Qed.

Lemma calls_move_committed new_id request s c d view s' :
  valid_call (sc_aggregate c) → commit_guarded request s c d →
  commit_written new_id request s c d view s' → calls_move R s s'.
Proof using decided.
  intros Hv [] []. eapply calls_move_insert; [done|]. intros c0 Hc0.
  rewrite cg_call in Hc0. injection Hc0 as <-. by eapply decided_step.
Qed.

Lemma calls_move_created new_id request s d k fp s' :
  create_guarded request s d k fp → create_written new_id request s d k fp s' → calls_move R s s'.
Proof using decided. intros [] []. eapply calls_move_insert; [done|]. intros c Hc. congruence. Qed.

Lemma calls_move_effect s s' : capacity_ok s → effect s s' → calls_move R s s'.
Proof using decided.
  intros Hok []; try (by apply calls_move_eq).
  - by eapply calls_move_created.
  - eapply calls_move_committed; eauto. apply (ko_valid _ _ _ (cy_calls s Hok _ _ (cg_call _ _ _ _ H0))).
  - assert (Ha : sc_aggregate (consumed_call request c) = sc_aggregate c)
      by (unfold consumed_call; by destruct (replaces_pending _ _)).
    trans (consumed_state request row c s).
    + eapply calls_move_insert; [done|]. intros c' Hc'. destruct H0. simplify_eq.
      fold (consumed_call request c). by rewrite Ha.
    + eapply calls_move_committed; eauto. rewrite Ha.
      apply (ko_valid _ _ _ (cy_calls s Hok _ _ (ng_call _ _ _ _ H0))).
  - apply ingest_frame in H as (? & ? & ->). by apply calls_move_eq.
  - apply bind_frame in H as (? & ? & ->). by apply calls_move_eq.
  - apply apply_event_ok in H1 as (? & _ & _ & ->). by apply calls_move_eq.
  - eapply calls_move_insert; [done|]. intros c' Hc'. by simplify_eq.
Qed.

Lemma calls_move_service s s' : capacity_ok s → service_effect s s' → calls_move R s s'.
Proof using decided.
  intros Hok [].
  - apply calls_move_eq. exact (f_equal rm_calls (side_core _ _ H)).
  - by apply calls_move_eq.
  - exact (calls_move_created _ _ _ _ _ _ _ H0 H1).
  - destruct H. eapply calls_move_insert; [done|]. intros c' Hc'. by simplify_eq.
  - trans s1.
    + eapply calls_move_committed; eauto. apply (ko_valid _ _ _ (cy_calls s Hok _ _ (cg_call _ _ _ _ H0))).
    + eapply calls_move_insert; [done|]. rewrite (cw_calls _ _ _ _ _ _ _ H1), lookup_insert_eq.
      by intros c' [= <-].
Qed.

Lemma calls_move_run r r' :
  rtc store_step r r' → capacity_ok (mr_state r) → calls_move R (mr_state r) (mr_state r').
Proof using decided.
  intros Hr Hok. apply (store_invariant (calls_move R (mr_state r)) r r'); [..|done|done|done];
    intros s s' Hs Hm He; (etrans; [exact Hm|]); [by apply calls_move_effect|by apply calls_move_service].
Qed.
End Moves.

Section Store.
Context {chrono : Chrono} {libs : ServiceLibs}.

(** A call of the service has a plan, and the plan is valid for it. *)
Record plans_ok (s : MemoryState) : Prop := {
  pn_managed id : id ∈ rm_service_managed_calls s ↔ is_Some (rm_execution_plans s !! id);
  pn_valid id plan : rm_execution_plans s !! id = Some plan →
    ∃ c, rm_calls s !! id = Some c ∧ validate_against plan (sc_aggregate c) = Ok ();
}.

Lemma plans_moved s s' :
  plans_ok s → calls_move call_fits s s' → rm_service_managed_calls s' = rm_service_managed_calls s →
  rm_execution_plans s' = rm_execution_plans s → plans_ok s'.
Proof using.
  intros [M V] Hf Em Ep. split; rewrite ?Em, Ep; [done|].
  intros id plan (c & Hc & Hv)%V. destruct (Hf _ _ Hc) as (c' & Hc' & Hfit). exists c'.
  split; [done|]. by eapply validate_against_fits.
Qed.

Lemma plans_effect s s' : capacity_ok s → plans_ok s → effect s s' → plans_ok s'.
Proof using.
  intros Hcap Hok He. pose proof (effect_service_part _ _ He) as E.
  apply (plans_moved s); [done|by apply (calls_move_effect call_fits)|exact (f_equal rm_service_managed_calls E)
                         |exact (f_equal rm_execution_plans E)].
Qed.

Lemma plans_service s s' : capacity_ok s → plans_ok s → service_effect s s' → plans_ok s'.
Proof using.
  intros Hcap Hok He. pose proof (calls_move_service call_fits _ _ Hcap He) as Hf. destruct He.
  - by apply (plans_moved s); [done|done|destruct H|destruct H].
  - by apply (plans_moved s).
  - pose proof (kw_service _ _ _ _ _ _ _ H1) as E.
    assert (Hok1 : plans_ok s1).
    { apply (plans_moved s); [done|exact (calls_move_created call_fits _ _ _ _ _ _ _ H0 H1)
        |exact (f_equal rm_service_managed_calls E)|exact (f_equal rm_execution_plans E)]. }
    destruct Hok1 as [M V]. pose proof (f_equal rm_service_managed_calls E : rm_service_managed_calls s1 = rm_service_managed_calls s) as Em.
    pose proof (f_equal rm_execution_plans E : rm_execution_plans s1 = rm_execution_plans s) as Ep.
    rewrite Em, Ep in *. split; cbn.
    + intros id'. rewrite elem_of_union, elem_of_singleton, M, lookup_insert_is_Some'. naive_solver.
    + intros id' plan' [[<- <-]|[_ Hp]]%lookup_insert_Some; [|by apply V].
      rewrite (kw_calls _ _ _ _ _ _ _ H1), lookup_insert_eq. eexists. split; [done|].
      apply bind_unit_ok in H4 as [Hva _]. eapply validate_against_fits; [|exact Hva].
      eapply decide_fits; apply H0.
  - by apply (plans_moved s).
  - pose proof (cw_service _ _ _ _ _ _ _ H1) as E.
    apply (plans_moved s); [done|done|exact (f_equal rm_service_managed_calls E)
                           |exact (f_equal rm_execution_plans E)].
Qed.

Lemma store_plans r : store_reachable r → plans_ok (mr_state r).
Proof using.
  apply (store_reachable_invariant plans_ok); [apply plans_effect|apply plans_service|].
  split; [|done]. intros id. split; [set_solver|by intros [? ?]].
Qed.
End Store.

(** C17. A call of the service is governed by the plan it was created with.  In every store that
    calls of the methods of both repositories lead to, exactly the managed calls have a plan; the
    call is stored and, however often its legs were rebound or replaced, the plan passes its
    validation against the call's current aggregate; and no later method changes or drops it. *)
Theorem plan_governs_its_call `{Chrono, ServiceLibs} (r r' : MemoryRepository) :
  store_reachable r → rtc store_step r r' →
  ∀ id, (id ∈ rm_service_managed_calls (mr_state r) ↔ is_Some (rm_execution_plans (mr_state r) !! id)) ∧
  ∀ plan, rm_execution_plans (mr_state r) !! id = Some plan →
    rm_execution_plans (mr_state r') !! id = Some plan ∧
    id ∈ rm_service_managed_calls (mr_state r') ∧
    ∃ c, rm_calls (mr_state r') !! id = Some c ∧ validate_against plan (sc_aggregate c) = Ok ().
Proof.
  intros Hr Hrun id. split; [apply (pn_managed _ (store_plans r Hr))|]. intros plan Hplan.
  assert (Hr' : store_reachable r') by (unfold store_reachable in *; by etrans).
  pose proof (records_run _ _ Hrun (store_capacity _ Hr)) as [_ _ _ _ _ Hkept _ _].
  pose proof (lookup_weaken _ _ _ _ Hplan Hkept) as Hplan'. pose proof (store_plans r' Hr') as [M V].
  split; [done|]. split; [apply M; by eexists|by apply V].
Qed.

Lemma plan_governs_its_call_witness :
  ∃ c, rm_calls (mr_state two_digits) !! (1 : CallId) = Some c ∧
       @validate_against libs_sample sample_plan (sc_aggregate c) = Ok ().
Proof.
  assert (Hstep : rtc (@store_step chrono_sample libs_sample) answered two_digits).
  { eapply rtc_l; [right; apply step_enqueue_control|]. apply rtc_once. right. apply step_enqueue_control. }
  destruct (@plan_governs_its_call chrono_sample libs_sample answered two_digits store_answered Hstep 1) as [_ Hp].
  destruct (Hp sample_plan) as (_ & _ & Hc); [vm_compute; reflexivity|]. exact Hc.
Defined.

(** Reading a call of the service ([load_service_call]): the rows it needs are never lost, so a call
    that was created can be read from then on. *)

(** The row of an attachment issued for a call. *)
Definition issued (s : MemoryState) (id : CallId) (issue : AttachmentIssue) : Prop :=
  ∃ row, rm_attachments s !! ai_token_digest issue = Some row ∧ ax_call_id row = id ∧
         ax_attachment_id row = ai_attachment_id issue.

Lemma issued_moves s s' id issue : attachments_move s s' → issued s id issue → issued s' id issue.
Proof.
  intros M (row & Hrow & Hc & Ha). destruct (am_rows _ _ M _ _ Hrow) as (row' & Hrow' & Hmv).
  exists row'. split; [done|]. destruct (row_issue_keys _ _ (mv_issue _ _ Hmv)) as (_ & -> & -> & _). done.
Qed.

(** Every attachment a command has issued has its row. *)
Definition issues_ok (s : MemoryState) : Prop :=
  ∀ k m issue, rm_commands s !! k = Some m → issue ∈ sm_attachments m → issued s (sm_call_id m) issue.

Lemma issues_moved s s' :
  issues_ok s → attachments_move s s' → rm_commands s' = rm_commands s → issues_ok s'.
Proof.
  intros Hok M E k m issue Hm Hi. rewrite E in Hm. eapply issued_moves; [exact M|]. by eapply Hok.
Qed.

(** One more command, whose attachments were inserted. *)
Lemma issues_recorded s s' s0 t id w issues k m :
  issues_ok s → attachments_move s s' → rm_commands s' = <[k := m]> (rm_commands s) →
  sm_call_id m = id → sm_attachments m = issues →
  attachments_inserted t id w issues s0 (rm_attachments s') (rm_attachment_ids s') (rm_active_attachments s') →
  issues_ok s'.
Proof.
  intros Hok M E Hid Hat Hins k' m' issue. rewrite E. intros [[<- <-]|[_ Hm]]%lookup_insert_Some Hi.
  - exists (attachment_row t id w issue). rewrite Hid. split; [|done]. rewrite Hat in Hi. by apply (ins_all _ _ _ _ _ _ _ _ Hins).
  - eapply issued_moves; [exact M|]. by eapply Hok.
Qed.

Section Reads.
Context {chrono : Chrono} {libs : ServiceLibs}.

Lemma issues_commit_written new_id request s c d view s' :
  issues_ok s → commit_written new_id request s c d view s' → issues_ok s'.
Proof using.
  intros Hok W. pose proof (attachments_commit_written _ _ _ _ _ _ _ W) as M. destruct W.
  by eapply (issues_recorded s s'); [done|done|exact cw_commands| | |exact cw_attachments].
Qed.

Lemma issues_create_written new_id request s d k fp s' :
  issues_ok s → create_written new_id request s d k fp s' → issues_ok s'.
Proof using.
  intros Hok W. pose proof (attachments_created _ _ _ _ _ _ _ W) as M. destruct W.
  by eapply (issues_recorded s s'); [done|done|exact kw_commands| | |exact kw_attachments].
Qed.

Lemma issues_effect s s' : capacity_ok s → issues_ok s → effect s s' → issues_ok s'.
Proof using.
  intros _ Hok He. pose proof (attachments_effect _ _ He) as M. destruct He; try (by apply (issues_moved s)).
  - by eapply issues_create_written.
  - by eapply issues_commit_written.
  - eapply issues_commit_written; [|done]. eapply (issues_moved s); [done|by apply attachments_consumed|done].
  - apply (issues_moved s); [done..|]. by apply ingest_frame in H as (? & ? & ->).
  - apply (issues_moved s); [done..|]. by apply bind_frame in H as (? & ? & ->).
  - apply (issues_moved s); [done..|]. by apply apply_event_ok in H1 as (? & _ & _ & ->).
Qed.

Lemma issues_service s s' : capacity_ok s → issues_ok s → service_effect s s' → issues_ok s'.
Proof using.
  intros _ Hok He. pose proof (attachments_service _ _ He) as M. destruct He; try (by apply (issues_moved s)).
  - apply (issues_moved s); [done..|]. by apply (f_equal rm_commands (side_core _ _ H)).
  - by eapply issues_create_written in H1.
  - eapply (issues_moved s1); [by eapply issues_commit_written| |done].
    destruct (attachments_bound s1 (ct_call_id command) (committed_call command c d) binding). by split.
Qed.

Lemma store_issues r : store_reachable r → issues_ok (mr_state r).
Proof using.
  apply (store_reachable_invariant issues_ok); [apply issues_effect|apply issues_service|].
  intros k m issue Hm. done.
Qed.

Lemma try_each_total {E A} (f : A → result E ()) l : (∀ x, x ∈ l → f x = Ok ()) → try_each f l = Ok ().
Proof using.
  induction l as [|x l IH]; intros Hf; [done|]. cbn. rewrite Hf by set_solver. cbn. apply IH. set_solver.
Qed.

Lemma service_attachments_total s id : issues_ok s → ∃ att, service_call_attachments s id = Ok att.
Proof using.
  intros Hok. unfold service_call_attachments. cbv zeta. rewrite try_each_total; [by eexists|].
  intros [v issue]. rewrite sort_by_perm, list_elem_of_In, in_flat_map. intros (m & Hm & Hi).
  apply filter_In in Hm as [Hm Hid]. apply list_elem_of_In, values_elem in Hm as [k Hk].
  apply in_map_iff in Hi as (i & E & Hi). injection E as <- <-. apply list_elem_of_In in Hi.
  destruct (Hok _ _ _ Hk Hi) as (row & Hrow & Hc & Ha). bool_hyps. cbn. rewrite Hrow. cbn.
  rewrite Hc, Ha, !bool_decide_eq_true_2 by done. done.
Qed.

(** A call of the service is always readable. *)
Lemma load_service_call_total r id c plan :
  store_reachable r → rm_calls (mr_state r) !! id = Some c →
  rm_execution_plans (mr_state r) !! id = Some plan →
  ∃ att, load_service_call r (ca_tenant_id (sc_aggregate c)) id
    = Ok {| sl_call := c; sl_plan := plan; sl_attachments := att |}.
Proof using.
  intros Hr Hc Hp. destruct (service_attachments_total (mr_state r) id (store_issues _ Hr)) as [att Hatt].
  exists att. unfold load_service_call, read, lock. rewrite (store_lock _ Hr). cbn [mbind result_bind].
  rewrite (proj2 (tenant_call_ok _ _ _ _) (conj Hc eq_refl)). cbn [mbind result_bind].
  rewrite bool_decide_eq_true_2 by (apply (pn_managed _ (store_plans _ Hr)); by eexists).
  cbn [negb reject_if mbind result_bind]. by rewrite Hp, Hatt.
Qed.

(** ... from its creation on, under the tenant and the plan it had then. *)
Lemma readable_run r r' id c plan :
  store_reachable r → rtc store_step r r' → rm_calls (mr_state r) !! id = Some c →
  rm_execution_plans (mr_state r) !! id = Some plan →
  ∃ c' att, same_call c c' ∧ rm_calls (mr_state r') !! id = Some c' ∧
    load_service_call r' (ca_tenant_id (sc_aggregate c)) id
      = Ok {| sl_call := c'; sl_plan := plan; sl_attachments := att |}.
Proof using.
  intros Hr Hrun Hc Hp. assert (Hr' : store_reachable r') by (unfold store_reachable in *; by etrans).
  pose proof (records_run _ _ Hrun (store_capacity _ Hr)) as [_ _ _ _ _ Hplans _ _].
  destruct (rt_calls _ _ (retains_run _ _ Hrun (store_capacity _ Hr)) _ _ Hc) as (c' & Hc' & Hs).
  destruct (load_service_call_total r' id c' plan Hr' Hc' (lookup_weaken _ _ _ _ Hp Hplans)) as [att Hl].
  exists c', att. split_and!; [done..|]. by rewrite <- (sk_tenant _ _ Hs).
Qed.
End Reads.
