(* ===== verification/ServiceLinks.v ===== *)
(** Connections and external references in the store: a connection identifier stands for one leg
    binding for good, and so does a reference to an external call. *)

From S2P Require Import Prelude RustText DomainTypes CoordModel Domain DomainInv DomainSafety.
From S2P Require Import DomainWorld DomainTrace DomainTheorems.
From S2P Require Import RepoTypes ServiceTypes RepoMemory RepoClaims PlanModel.
From S2P Require Import ServiceCommands ServiceMemory ServiceReconcile.
From S2P Require Import RepoFrame RepoCommit RepoInv ServiceSample RepoEffects ServiceEffects.
From S2P Require Import RepoTheorems RepoAttach RepoRows ServiceRecords.
From stdpp Require Import options.

(** ** Connections *)

(** The connection is bound to a generation of a leg of a call: the call carries the binding, a token
    was consumed by it, or the connection is recorded as its owner. *)
Definition bound_to (s : MemoryState) (conn : ConnectionId) (key : BindingKey) : Prop :=
  (∃ id c leg b, rm_calls s !! id = Some c ∧ sc_bindings c !! leg = Some b ∧
     cb_connection_id b = conn ∧ key = (id, leg, cb_binding_generation b)) ∨
  (∃ d row b, rm_attachments s !! d = Some row ∧ ax_binding row = Some b ∧
     cb_connection_id b = conn ∧ key = (ax_call_id row, ax_leg_id row, ax_binding_generation row)) ∨
  rm_connection_owners s !! conn = Some key.

(** Every bound connection is recorded as used, and bound once. *)
Record connections_ok (s : MemoryState) : Prop := {
  cn_used conn key : bound_to s conn key → conn ∈ rm_used_connection_ids s;
  cn_one conn key key' : bound_to s conn key → bound_to s conn key' → key = key';
}.

(** Nothing is bound. *)
Definition unbinds (s s' : MemoryState) : Prop :=
  rm_used_connection_ids s' = rm_used_connection_ids s ∧
  ∀ conn key, bound_to s' conn key → bound_to s conn key.

(** At most [conn] is bound, to [key]; it was free, or bound to [key] before. *)
Record binds (conn : ConnectionId) (key : BindingKey) (s s' : MemoryState) : Prop := {
  bi_used : rm_used_connection_ids s ⊆ rm_used_connection_ids s';
  bi_recorded : conn ∈ rm_used_connection_ids s';
  bi_old conn' key' : bound_to s' conn' key' → bound_to s conn' key' ∨ conn' = conn ∧ key' = key;
  bi_free : conn ∉ rm_used_connection_ids s ∨ bound_to s conn key;
}.

(** A connection that has been used gets no other binding. *)
Record settled (s s' : MemoryState) : Prop := {
  sd_ok : connections_ok s';
  sd_used : rm_used_connection_ids s ⊆ rm_used_connection_ids s';
  sd_bound conn key : conn ∈ rm_used_connection_ids s → bound_to s' conn key → bound_to s conn key;
}.

Lemma settled_refl s : connections_ok s → settled s s.
Proof. intros Hok. by split. Qed.

Lemma settled_trans s1 s2 s3 : settled s1 s2 → settled s2 s3 → settled s1 s3.
Proof. intros [O1 U1 B1] [O2 U2 B2]. split; [done|set_solver|]. intros. apply B1; [done|]. apply B2; [set_solver|done]. Qed.

Lemma unbinds_settled s s' : connections_ok s → unbinds s s' → settled s s'.
Proof.
  intros [U O] [Eu Hb]. split; [|by rewrite Eu|auto]. split; rewrite ?Eu; [eauto|].
  intros conn key key' ?%Hb ?%Hb. eauto.
Qed.

Lemma binds_settled conn key s s' : connections_ok s → binds conn key s s' → settled s s'.
Proof.
  intros [U O] [Eu Hr Hold Hfree]. split; [split|done|].
  - intros conn' key' [Hb|[-> _]]%Hold; [apply Eu; eauto|done].
  - intros conn' k1 k2 [H1|[-> ->]]%Hold [H2|[E2 ->]]%Hold; subst; eauto;
      destruct Hfree as [Hf|Hf]; eauto; destruct Hf; eauto.
  - intros conn' key' Hu [Hb|[-> ->]]%Hold; [done|]. by destruct Hfree.
Qed.

Lemma binds_unbinds conn key s s1 s2 : binds conn key s s1 → unbinds s1 s2 → binds conn key s s2.
Proof. intros [Eu Hr Hold Hf] [E Hb]. split; rewrite ?E; auto. Qed.

(** Calls keep or lose bindings, and no token gets one. *)
Lemma unbinds_rows s s' :
  rm_used_connection_ids s' = rm_used_connection_ids s →
  rm_connection_owners s' ⊆ rm_connection_owners s →
  (∀ id c' leg b, rm_calls s' !! id = Some c' → sc_bindings c' !! leg = Some b →
     ∃ c, rm_calls s !! id = Some c ∧ sc_bindings c !! leg = Some b) →
  (∀ d row' b, rm_attachments s' !! d = Some row' → ax_binding row' = Some b →
     ∃ row, rm_attachments s !! d = Some row ∧ ax_binding row = Some b ∧ row_issue row' = row_issue row) →
  unbinds s s'.
Proof.
  intros Eu Eo Hc Ha. split; [done|]. intros conn key [(id & c & leg & b & H1 & H2 & H3 & H4)|[H|H]].
  - left. destruct (Hc _ _ _ _ H1 H2) as (c0 & ? & ?). by exists id, c0, leg, b.
  - destruct H as (d & row & b & H1 & H2 & H3 & H4). right. left.
    destruct (Ha _ _ _ H1 H2) as (row0 & ? & ? & E). exists d, row0, b.
    destruct (row_issue_keys _ _ E) as (_ & _ & <- & <- & <-). done.
  - right. right. by eapply lookup_weaken.
Qed.

Lemma unbinds_same s s' :
  rm_used_connection_ids s' = rm_used_connection_ids s → rm_connection_owners s' = rm_connection_owners s →
  rm_calls s' = rm_calls s → rm_attachments s' = rm_attachments s → unbinds s s'.
Proof. intros Eu Eo Ec Ea. split; [done|]. intros conn key. unfold bound_to. by rewrite Eo, Ec, Ea. Qed.

Lemma update_where_back p f (att : gmap AttachmentTokenDigest AttachmentRow) d row' :
  update_where p f att !! d = Some row' → ∃ row, att !! d = Some row ∧ (row' = row ∨ row' = f row).
Proof.
  unfold update_where. rewrite lookup_fmap. intros (row & Hr & ->)%fmap_Some. exists row.
  split; [done|]. destruct (p row); auto.
Qed.

(** A binding is written. *)
Lemma put_binding_bound s id c b conn key :
  rm_calls s !! id = Some c → bound_to (put_binding s id c b) conn key →
  bound_to s conn key ∨ conn = cb_connection_id b ∧ key = binding_key id b.
Proof.
  intros Hc [(id' & c' & leg & b' & H1 & H2 & <- & ->)|[H|H]].
  - cbn in H1. apply lookup_insert_Some in H1 as [[<- <-]|[_ H1]]; [|left; left; by exists id', c', leg, b'].
    cbn in H2. apply lookup_insert_Some in H2 as [[<- <-]|[_ H2]]; [by right|].
    left. left. by exists id, c, leg, b'.
  - left. right. by left.
  - cbn in H. apply lookup_insert_Some in H as [[<- <-]|[_ H]]; [by right|]. left. right. by right.
Qed.

Lemma unbinds_committed new_id request s c d view s' :
  commit_guarded request s c d → commit_written new_id request s c d view s' → unbinds s s'.
Proof.
  intros [] []. destruct cw_frame as (_ & _ & _ & Fu & _), cw_owners as [Fo _].
  apply unbinds_rows; [done|done|..].
  - rewrite cw_calls. intros id c' leg b [[<- <-]|[_ H]]%lookup_insert_Some Hb; [|by exists c'].
    exists c. split; [done|]. cbn in Hb. destruct (applies d); [|done].
    by apply map_lookup_filter_Some in Hb as [? _].
  - intros dg row b [H|(i & _ & _ & ->)]%(ins_new _ _ _ _ _ _ _ _ cw_attachments) Hb; [|done].
    cbn in H. destruct (applies d); [|by exists row].
    apply update_where_back in H as (row0 & Hr & [-> | ->]); by exists row0.
Qed.

Lemma binds_consumed request s row c :
  consume_guarded request s row c →
  binds (am_connection_id request) (an_call_id (am_candidate request), an_leg_id (am_candidate request),
    an_binding_generation (am_candidate request)) s (consumed_state request row c s).
Proof.
  intros [].
  pose proof (consumable_spec _ _ _ ng_consumable) as (_ & _ & _ & _ & E1 & E2 & E3 & _).
  split; [cbn; set_solver|cbn; set_solver| |by left].
  intros conn key [(id & c' & leg & b & H1 & H2 & <- & ->)|[H|H]].
  - cbn in H1. fold (consumed_call request c) in H1.
    apply lookup_insert_Some in H1 as [[<- <-]|[_ H1]]; [|left; left; by exists id, c', leg, b].
    unfold consumed_call in H2. destruct (replaces_pending request c); [left; left; by exists (an_call_id (am_candidate request)), c, leg, b|].
    cbn in H2. apply lookup_insert_Some in H2 as [[<- <-]|[_ H2]]; [by right|].
    left. left. by exists (an_call_id (am_candidate request)), c, leg, b.
  - destruct H as (d & row' & b & H1 & H2 & <- & ->). cbn in H1.
    apply lookup_insert_Some in H1 as [[<- <-]|[_ H1]]; [|left; right; left; by exists d, row', b].
    cbn in H2. injection H2 as <-. right. split; [done|]. cbn. by rewrite E1, E2, E3.
  - cbn in H. apply lookup_insert_Some in H as [[<- <-]|[_ H]]; [by right|]. left. right. by right.
Qed.

Section Connections.
Context {chrono : Chrono} {libs : ServiceLibs}.

Lemma unbinds_created new_id request s d k fp s' :
  create_written new_id request s d k fp s' → unbinds s s'.
Proof using.
  intros []. destruct kw_frame as (_ & Fo & _ & Fu & _). apply unbinds_rows; [done|by rewrite Fo|..].
  - rewrite kw_calls. intros id c' leg b [[<- <-]|[_ H]]%lookup_insert_Some Hb; [done|by exists c'].
  - intros dg row b [H|(i & _ & _ & ->)]%(ins_new _ _ _ _ _ _ _ _ kw_attachments) Hb; [by exists row|done].
Qed.

Lemma settled_effect s s' : connections_ok s → effect s s' → settled s s'.
Proof using.
  intros Hok []; try (by apply unbinds_settled, unbinds_same).
  - by eapply unbinds_settled, unbinds_created.
  - by eapply unbinds_settled, unbinds_committed.
  - eapply binds_settled; [done|]. eapply binds_unbinds; [by apply binds_consumed|by eapply unbinds_committed].
  - apply ingest_frame in H as (? & ? & ->). by apply unbinds_settled, unbinds_same.
  - apply bind_frame in H as (? & ? & ->). by apply unbinds_settled, unbinds_same.
  - apply apply_event_ok in H1 as (? & _ & _ & ->). by apply unbinds_settled, unbinds_same.
  - apply unbinds_settled; [done|]. apply unbinds_rows; [done|done|..].
    + intros id' c' leg b. cbn. intros [[<- <-]|[_ Hc]]%lookup_insert_Some Hb; [by exists c|by exists c'].
    + intros d row' b. cbn. intros (row0 & Hr & [-> | ->])%update_where_back Hb; by exists row0.
Qed.

Lemma settled_service s s' : connections_ok s → service_effect s s' → settled s s'.
Proof using.
  intros Hok [].
  - pose proof (side_core _ _ H) as E. apply unbinds_settled; [done|].
    apply unbinds_same; [exact (f_equal rm_used_connection_ids E)|exact (f_equal rm_connection_owners E)
      |exact (f_equal rm_calls E)|exact (f_equal rm_attachments E)].
  - by apply unbinds_settled, unbinds_same.
  - apply unbinds_settled; [done|]. destruct (unbinds_created _ _ _ _ _ _ _ H1) as [Eu Hb]. by split.
  - destruct H. apply (binds_settled (on_connection_id request)
      (binding_key (on_call_id request) (outbound_binding request))); [done|].
    split; [cbn; set_solver|cbn; set_solver| |by left].
    intros conn key Hb. exact (put_binding_bound s (on_call_id request) c (outbound_binding request) conn key bg_call Hb).
  - destruct (unbinds_committed _ _ _ _ _ _ _ H0 H1) as [Eu Hb].
    apply (binds_settled (cb_connection_id binding) (binding_key (ct_call_id command) binding)); [done|].
    split; [cbn; rewrite Eu; set_solver|cbn; set_solver| |].
    + intros conn key [Hs1|?]%(put_binding_bound s1 _ (committed_call command c d)); [left; auto|by right|].
      rewrite (cw_calls _ _ _ _ _ _ _ H1). apply lookup_insert_eq.
    + destruct H2 as [[? _]|?]; [by left|right; right; by right].
Qed.

Lemma settled_run r r' :
  rtc store_step r r' → capacity_ok (mr_state r) → connections_ok (mr_state r) →
  settled (mr_state r) (mr_state r').
Proof using.
  intros Hr Hcap Hok. apply (store_invariant (settled (mr_state r)) r r'); [..|done|done|by apply settled_refl];
    intros s s' _ H0 He; (eapply settled_trans; [exact H0|]); pose proof (sd_ok _ _ H0);
    [by apply settled_effect|by apply settled_service].
Qed.

Lemma store_connections r : store_reachable r → connections_ok (mr_state r).
Proof using.
  apply (store_reachable_invariant connections_ok).
  - intros s s' _ Hok He. exact (sd_ok _ _ (settled_effect s s' Hok He)).
  - intros s s' _ Hok He. exact (sd_ok _ _ (settled_service s s' Hok He)).
  - assert (∀ conn key, ~ bound_to MemoryState_default conn key) as Hn; [|by split; intros ? ? *; intros ?%Hn].
    by intros conn key [(id & c & leg & b & [=] & _)|[(d & row & b & [=] & _)|[=]]].
Qed.
End Connections.

(** C25. A connection identifier is never reused.  Once a connection has been bound in a reachable
    store (a leg of a call carries it, a token was consumed by it, or it is recorded as an owner),
    then after any further calls of the methods of both repositories, whatever it is still bound to
    is the same generation of the same leg of the same call; no outbound leg can be bound to it any
    more, and no token be consumed by it. *)
Theorem connection_is_never_rebound `{Chrono, ServiceLibs} (r r' : MemoryRepository) (conn : ConnectionId)
    (key : BindingKey) :
  store_reachable r → rtc store_step r r' → bound_to (mr_state r) conn key →
  (∀ key', bound_to (mr_state r') conn key' → key' = key) ∧
  (∀ request binding, on_connection_id request = conn →
     (bind_outbound_connection r' request).2 ≠ Ok (OutboundConnectionBindOutcome.Bound binding)) ∧
  (∀ new_id request, am_connection_id request = conn →
     ∃ e, consume_attachment new_id r' request = (r', Err e)).
Proof.
  intros Hr Hrun Hb. pose proof (store_connections _ Hr) as [Hused Hone].
  pose proof (store_capacity _ Hr) as Hcap. pose proof (store_run_capacity _ _ Hrun Hcap) as Hcap'.
  destruct (settled_run _ _ Hrun Hcap (store_connections _ Hr)) as [_ U B].
  pose proof (Hused _ _ Hb) as Hu. split; [|split].
  - intros key' Hb'%B; [by eapply Hone|done].
  - intros request binding <- Hb'. unfold bind_outbound_connection, transaction, lock in Hb'.
    destruct (mr_poisoned r'); [done|].
    destruct (bind_outbound_connection_in_state request _) as [[o s']|] eqn:E; [|done]. cbn in Hb'.
    injection Hb' as ->. apply bind_outbound_effects in E as [(_ & ? & _ & _ & ?)|(c & [] & _)]; [done|].
    by apply bg_unused, U.
  - intros new_id request <-. apply consume_attachment_refused. intros o s' Hok.
    apply consume_attachment_ok in Hok as (row & c & d & view & _ & N & _).
    + by apply (ng_connection _ _ _ _ N), U.
    + intros id c0 Hc0. apply (cy_calls _ Hcap' _ _ Hc0).
Qed.

(** The connection of the answered leg, two digits later. *)
Lemma connection_is_never_rebound_witness :
  bound_to (mr_state answered) (str "conn-out") (1, 3, 1%N) ∧
  ∀ key', bound_to (mr_state two_digits) (str "conn-out") key' → key' = (1, 3, 1%N).
Proof.
  assert (Hstep : rtc (@store_step chrono_sample libs_sample) answered two_digits).
  { eapply rtc_l; [right; apply step_enqueue_control|]. apply rtc_once. right. apply step_enqueue_control. }
  assert (Hb : bound_to (mr_state answered) (str "conn-out") (1, 3, 1%N)).
  { right. right. vm_compute. reflexivity. }
  split; [exact Hb|].
  exact (proj1 (@connection_is_never_rebound chrono_sample libs_sample answered two_digits (str "conn-out")
    (1, 3, 1%N) store_answered Hstep Hb)).
Defined.

(** ** External references *)

(** The two tables are inverse to each other. *)
Record references_ok (s : MemoryState) : Prop := {
  fo_reference key ref : rm_external_references s !! key = Some ref →
    external_reference_key (xr_value ref) = key ∧
    rm_external_reference_bindings s !! reference_binding ref = Some key;
  fo_binding bkey key : rm_external_reference_bindings s !! bkey = Some key →
    ∃ ref, rm_external_references s !! key = Some ref ∧ reference_binding ref = bkey;
}.

Lemma references_same s s' :
  references_ok s → rm_external_references s' = rm_external_references s →
  rm_external_reference_bindings s' = rm_external_reference_bindings s → references_ok s'.
Proof. intros [R B] E1 E2. by split; rewrite E1, E2. Qed.

Lemma references_added s ref :
  references_ok s → rm_external_references s !! external_reference_key (xr_value ref) = None →
  rm_external_reference_bindings s !! reference_binding ref = None →
  references_ok (s <| rm_external_reference_bindings :=
      <[reference_binding ref := external_reference_key (xr_value ref)]> (rm_external_reference_bindings s) |>
    <| rm_external_references :=
      <[external_reference_key (xr_value ref) := ref]> (rm_external_references s) |>).
Proof.
  intros [R B] Hn1 Hn2. split; cbn.
  - intros key ref' [[<- <-]|[Hne Hr]]%lookup_insert_Some; [by rewrite lookup_insert_eq|].
    destruct (R _ _ Hr) as [E Hb]. split; [done|]. rewrite lookup_insert_ne; [done|]. congruence.
  - intros bkey key [[<- <-]|[Hne Hb]]%lookup_insert_Some; [rewrite lookup_insert_eq; by eexists|].
    destruct (B _ _ Hb) as (ref' & Hr & E). exists ref'. split; [|done].
    rewrite lookup_insert_ne; [done|]. congruence.
Qed.

Section References.
Context {chrono : Chrono} {libs : ServiceLibs}.

Lemma references_part s s' : references_ok s → service_part s' = service_part s → references_ok s'.
Proof using.
  intros Hok E. apply (references_same s); [done|exact (f_equal rm_external_references E)
    |exact (f_equal rm_external_reference_bindings E)].
Qed.

Lemma references_service s s' : references_ok s → service_effect s s' → references_ok s'.
Proof using.
  intros Hok [].
  - destruct H; try (by apply (references_same s)). by apply references_added.
  - by apply (references_same s).
  - apply (references_same s1); [|done|done]. apply (references_part s); [done|apply H1].
  - by apply (references_same s).
  - apply (references_same s1); [|done|done]. apply (references_part s); [done|apply H1].
Qed.

Lemma store_references r : store_reachable r → references_ok (mr_state r).
Proof using.
  apply (store_reachable_invariant references_ok); [..|by split]; intros s s' _ Hok He.
  - apply (references_part s); [done|]. by apply effect_service_part.
  - by apply (references_service s).
Qed.
End References.

(** C26. An external call is correlated with one leg binding, and a leg binding with one external
    call per role.  In every store that calls of the methods of both repositories lead to, each
    reference is filed under its own key and found by the index under its binding, and each entry of
    the index leads to a reference of exactly that binding and key, so two references never share a
    binding and role, nor two bindings a reference; both tables keep what they have along every
    further run; and looking a reference up by its call, leg, generation and role finds it. *)
Theorem external_references_are_exclusive `{Chrono, ServiceLibs} (r r' : MemoryRepository) :
  store_reachable r → rtc store_step r r' →
  (∀ key ref, rm_external_references (mr_state r) !! key = Some ref →
     external_reference_key (xr_value ref) = key ∧
     rm_external_references (mr_state r') !! key = Some ref ∧
     rm_external_reference_bindings (mr_state r') !! reference_binding ref = Some key ∧
     ∀ key' ref', rm_external_references (mr_state r') !! key' = Some ref' →
       reference_binding ref' = reference_binding ref → ref' = ref) ∧
  (∀ binding key, rm_external_reference_bindings (mr_state r') !! binding = Some key →
     ∃ ref, rm_external_references (mr_state r') !! key = Some ref ∧
       reference_binding ref = binding ∧ external_reference_key (xr_value ref) = key) ∧
  (∀ binding key, rm_external_reference_bindings (mr_state r) !! binding = Some key →
     rm_external_reference_bindings (mr_state r') !! binding = Some key) ∧
  (∀ tenant call leg generation role c l,
     rm_calls (mr_state r) !! call = Some c → ca_tenant_id (sc_aggregate c) = tenant →
     find_leg (sc_aggregate c) leg = Some l →
     ∀ key ref, rm_external_references (mr_state r) !! key = Some ref →
       reference_binding ref = (call, leg, generation, role) → xr_tenant_id ref = tenant →
       load_external_reference_for_binding r tenant call leg generation role = Ok (Some ref)).
Proof.
  intros Hr Hrun. pose proof (store_references r Hr) as [R B].
  assert (Hr' : store_reachable r') by (unfold store_reachable in *; by etrans).
  pose proof (store_references r' Hr') as [R' B'].
  pose proof (records_run _ _ Hrun (store_capacity _ Hr)) as [_ _ _ _ _ _ _ [Hk _]]. split_and!.
  - intros key ref Href. destruct (R _ _ Href) as [Ekey _]. pose proof (lookup_weaken _ _ _ _ Href Hk) as Href'.
    destruct (R' _ _ Href') as [_ Hb']. split_and!; [done..|].
    intros key' ref' H1 E. destruct (R' _ _ H1) as [_ Hb1]. rewrite E, Hb' in Hb1. congruence.
  - intros binding key (ref & Href & Eb)%B'. exists ref. by destruct (R' _ _ Href).
  - intros binding key (ref & Href & <-)%B. apply (lookup_weaken _ _ _ _ Href) in Hk.
    by destruct (R' _ _ Hk).
  - intros tenant call leg generation role c l Hc Ht Hl key ref Href Eb Eten.
    destruct (R _ _ Href) as [_ Hb]. unfold load_external_reference_for_binding, read, lock.
    rewrite (store_lock _ Hr). cbn [mbind result_bind].
    rewrite (proj2 (tenant_call_ok _ _ _ c)) by done. cbn [mbind result_bind]. rewrite Hl. cbn.
    unfold referenced. rewrite Eb in Hb. rewrite Hb, Href. cbn [ok_or mbind result_bind].
    unfold reference_binding in Eb. injection Eb as <- <- <- <-.
    by rewrite Eten, !bool_decide_eq_true_2.
Qed.

Lemma external_references_are_exclusive_witness :
  ∃ ref, @load_external_reference_for_binding two_digits (str "tenant") 1 3 1%N ProviderReferenceRole.Media
           = Ok (Some ref) ∧ xr_value ref = xb_value dialog_reference.
Proof.
  destruct (@external_references_are_exclusive chrono_sample libs_sample two_digits two_digits
    store_two_digits) as (_ & _ & _ & Hload); [done|].
  assert (Hc : ∃ c l, rm_calls (mr_state two_digits) !! (1 : CallId) = Some c ∧
    ca_tenant_id (sc_aggregate c) = str "tenant" ∧ find_leg (sc_aggregate c) 3 = Some l)
    by (do 2 eexists; split; [vm_compute; reflexivity|split; vm_compute; reflexivity]).
  assert (Hr : ∃ ref, rm_external_references (mr_state two_digits)
      !! external_reference_key (xb_value dialog_reference) = Some ref ∧
      reference_binding ref = (1, 3, 1%N, ProviderReferenceRole.Media) ∧ xr_tenant_id ref = str "tenant" ∧
      xr_value ref = xb_value dialog_reference)
    by (eexists; split; [vm_compute; reflexivity|split_and!; vm_compute; reflexivity]).
  destruct Hc as (c & l & Hc & Ht & El), Hr as (ref & Hr & Eb & Et & Ev). exists ref. split; [|exact Ev].
  specialize (Hload (str "tenant") 1 3 1%N ProviderReferenceRole.Media c l Hc Ht El).
  exact (Hload (external_reference_key (xb_value dialog_reference)) ref Hr Eb Et).
Defined.
