(* ===== verification/BroadcastCommands.v ===== *)
(** The standalone broadcast command repository ([src/broadcast/commands.rs]): broadcasts, their
    receipts, and the queue of start and stop commands of each worker.

    Every method takes the store under its lock and returns it with the answer; what a method wrote
    before it failed stays written, as in the code.  [Utc::now()] and [Uuid::new_v4()] are readings
    passed as arguments; a loop that reads the clock for every row takes a reading per row.
    [Uuid::parse_str] is the argument [parse_str]. *)

From S2P Require Import Prelude RustText DomainTypes CoordModel Domain RepoTypes.
From stdpp Require Import options.

Definition MAX_CLAIM_TTL : Duration := from_secs (5 * 60).
Definition MAX_BATCH : N := 64.

(** ** Rows *)

Inductive DurableBroadcastTransport := Moqt | UctpQuic.
#[export] Instance DurableBroadcastTransport_eq : EqDecision DurableBroadcastTransport.
Proof. solve_decision. Defined.

Record DurableBroadcastSpec := {
  ds_broadcast_id : rstr;
  ds_tenant_id : TenantId;
  ds_call_id : CallId;
  ds_source_leg_id : LegId;
  ds_source_binding_generation : BindingGeneration;
  ds_worker : WorkerLease;
  ds_transport : DurableBroadcastTransport;
  ds_language : option rstr;
  ds_sanitized_events : bool;
  ds_expires_at : DateTime;
}.

Record DurableBroadcastRuntime := {
  br_endpoint : Json;
  br_protocol : Json;
  br_lifecycle : Json;
  br_health : Json;
  br_sanitized_events : bool;
  br_grant_generation : option Uuid;
}.

Module BroadcastState.
Inductive DurableBroadcastState := Pending | Active | Deleting | Deleted | Failed.
End BroadcastState.
Abbreviation DurableBroadcastState := BroadcastState.DurableBroadcastState.
#[export] Instance DurableBroadcastState_eq : EqDecision DurableBroadcastState.
Proof. solve_decision. Defined.

Record DurableBroadcastRecord := {
  dr_specification : DurableBroadcastSpec;
  db_state : DurableBroadcastState;
  db_runtime : option DurableBroadcastRuntime;
  db_failure_code : option rstr;
  db_created_at : DateTime;
  db_updated_at : DateTime;
}.
#[export] Instance DurableBroadcastRecord_eta : Eta DurableBroadcastRecord := λ r,
  {| dr_specification := dr_specification r; db_state := db_state r; db_runtime := db_runtime r;
     db_failure_code := db_failure_code r; db_created_at := db_created_at r;
     db_updated_at := db_updated_at r |}.

Record BroadcastOperationIdentity := {
  bi_idempotency_digest : Digest;
  bi_request_digest : Digest;
}.

Record BroadcastEnqueueOutcome := {
  bo_record : DurableBroadcastRecord;
  bo_replayed : bool;
}.

Inductive DurableBroadcastCommandKind := Start | Stop.
#[export] Instance DurableBroadcastCommandKind_eq : EqDecision DurableBroadcastCommandKind.
Proof. solve_decision. Defined.

Record ClaimedBroadcastCommand := {
  bc_command_id : Uuid;
  bc_kind : DurableBroadcastCommandKind;
  bc_claim_generation : Z;
  bc_record : DurableBroadcastRecord;
}.

Module CommandResult.
Inductive BroadcastCommandResult :=
| Started (runtime : DurableBroadcastRuntime)
| Stopped
| Failed (code : rstr).
End CommandResult.
Abbreviation BroadcastCommandResult := CommandResult.BroadcastCommandResult.

Module BroadcastError.
Inductive BroadcastCommandError :=
| Unavailable
| InvalidData
| NotFound
| IdempotencyConflict
| CapacityExceeded
| InvalidTransition
| StaleClaim.
End BroadcastError.
Abbreviation BroadcastCommandError := BroadcastError.BroadcastCommandError.

Module MemoryCommandState.
Inductive MemoryCommandState := Pending | Claimed | Succeeded | Failed.
End MemoryCommandState.
Abbreviation MemoryCommandState := MemoryCommandState.MemoryCommandState.
#[export] Instance MemoryCommandState_eq : EqDecision MemoryCommandState.
Proof. solve_decision. Defined.

Record MemoryBroadcastCommand := {
  mc_command_id : Uuid;
  mc_broadcast_id : rstr;
  mc_worker : WorkerLease;
  mc_kind : DurableBroadcastCommandKind;
  mc_available_at : DateTime;
  mc_claim_generation : Z;
  mc_claim_expires_at : option DateTime;
  mc_state : MemoryCommandState;
}.
#[export] Instance MemoryBroadcastCommand_eta : Eta MemoryBroadcastCommand := λ r,
  {| mc_command_id := mc_command_id r; mc_broadcast_id := mc_broadcast_id r;
     mc_worker := mc_worker r; mc_kind := mc_kind r; mc_available_at := mc_available_at r;
     mc_claim_generation := mc_claim_generation r; mc_claim_expires_at := mc_claim_expires_at r;
     mc_state := mc_state r |}.

(** The key of a receipt: tenant and idempotency digest. *)
Definition ReceiptKey : Type := TenantId * Digest.

Record MemoryBroadcastState := {
  mb_records : gmap rstr DurableBroadcastRecord;
  mb_create_receipts : gmap ReceiptKey (Digest * rstr);
  mb_delete_receipts : gmap ReceiptKey (Digest * rstr);
  mb_commands : gmap Uuid MemoryBroadcastCommand;
}.
#[export] Instance MemoryBroadcastState_eta : Eta MemoryBroadcastState := λ r,
  {| mb_records := mb_records r; mb_create_receipts := mb_create_receipts r;
     mb_delete_receipts := mb_delete_receipts r; mb_commands := mb_commands r |}.

(** [MemoryBroadcastCommandRepository::new]. *)
Definition MemoryBroadcastState_default : MemoryBroadcastState :=
  {| mb_records := ∅; mb_create_receipts := ∅; mb_delete_receipts := ∅; mb_commands := ∅ |}.

(** A method of the repository on its locked state. *)
Abbreviation Locked A := (MemoryBroadcastState * result BroadcastCommandError A)%type.

(** ** Validation *)

Definition validate_broadcast_id (parse_str : rstr → option Uuid) (value : rstr)
    : result BroadcastCommandError () :=
  match parse_str value with
  | Some id => if negb (is_nil id) then Ok () else Err BroadcastError.InvalidData
  | None => Err BroadcastError.InvalidData
  end.

Definition validate_specification (parse_str : rstr → option Uuid) (now : DateTime)
    (specification : DurableBroadcastSpec) : result BroadcastCommandError () :=
  validate_broadcast_id parse_str (ds_broadcast_id specification);;
  reject_if ((ds_expires_at specification <=? now)
             || is_some_and (λ language, (64 <? len language) || existsb is_control language)
                  (ds_language specification))
    BroadcastError.InvalidData.

(** [matches!(state, Pending | Active | Deleting)]. *)
Definition occupies (state : DurableBroadcastState) : bool :=
  match state with
  | BroadcastState.Pending | BroadcastState.Active | BroadcastState.Deleting => true
  | BroadcastState.Deleted | BroadcastState.Failed => false
  end.

(** [matches!(state, Pending | Claimed)]. *)
Definition is_open (state : MemoryCommandState) : bool :=
  match state with
  | MemoryCommandState.Pending | MemoryCommandState.Claimed => true
  | MemoryCommandState.Succeeded | MemoryCommandState.Failed => false
  end.

(** A new command of either kind. *)
Definition pending_command (command_id : Uuid) (broadcast_id : rstr) (worker : WorkerLease)
    (kind : DurableBroadcastCommandKind) (available_at : DateTime) : MemoryBroadcastCommand :=
  {| mc_command_id := command_id; mc_broadcast_id := broadcast_id; mc_worker := worker;
     mc_kind := kind; mc_available_at := available_at; mc_claim_generation := 0;
     mc_claim_expires_at := None; mc_state := MemoryCommandState.Pending |}.

(** ** Starting and stopping a broadcast *)

(** The number of broadcasts that hold capacity of a worker. *)
Definition active_count (state : MemoryBroadcastState) (worker : WorkerLease) : nat :=
  length (List.filter (λ record, (ds_worker (dr_specification record) ==? worker)
                                 && occupies (db_state record)) (values (mb_records state))).

(** [enqueue_start]; [checked_at] and [now] are its two clock readings. *)
Definition enqueue_start (parse_str : rstr → option Uuid) (checked_at now : DateTime)
    (command_id : Uuid) (specification : DurableBroadcastSpec)
    (identity : BroadcastOperationIdentity) (max_active : N) (state : MemoryBroadcastState)
    : Locked BroadcastEnqueueOutcome :=
  match validate_specification parse_str checked_at specification with
  | Err e => (state, Err e)
  | Ok _ =>
  let receipt_key : ReceiptKey :=
    (ds_tenant_id specification, bi_idempotency_digest identity) in
  match mb_create_receipts state !! receipt_key with
  | Some (request_digest, broadcast_id) =>
      if request_digest !=? bi_request_digest identity
      then (state, Err BroadcastError.IdempotencyConflict)
      else (state, record ← ok_or (mb_records state !! broadcast_id) BroadcastError.InvalidData;
                   Ok {| bo_record := record; bo_replayed := true |})
  | None =>
      if (max_active =? 0)%N
         || (max_active <=? N.of_nat (active_count state (ds_worker specification)))%N
      then (state, Err BroadcastError.CapacityExceeded)
      else
        let record :=
          {| dr_specification := specification; db_state := BroadcastState.Pending;
             db_runtime := None; db_failure_code := None; db_created_at := now;
             db_updated_at := now |} in
        (state
         <| mb_create_receipts :=
              <[receipt_key := (bi_request_digest identity, ds_broadcast_id specification)]>
                (mb_create_receipts state) |>
         <| mb_records := <[ds_broadcast_id specification := record]> (mb_records state) |>
         <| mb_commands :=
              <[command_id := pending_command command_id (ds_broadcast_id specification)
                                (ds_worker specification) Start now]> (mb_commands state) |>,
         Ok {| bo_record := record; bo_replayed := false |})
  end
  end.

(** A failed broadcast is deleted once nothing of it runs. *)
Definition delete_failed (record : DurableBroadcastRecord) (now : DateTime)
    : result BroadcastCommandError DurableBroadcastRecord :=
  if is_some (db_runtime record) then Err BroadcastError.InvalidTransition
  else Ok (record <| db_state := BroadcastState.Deleted |> <| db_updated_at := now |>).

(** The stop command of a broadcast that does not have one yet. *)
Definition push_stop (command_id : Uuid) (broadcast_id : rstr) (worker : WorkerLease)
    (now : DateTime) (state : MemoryBroadcastState) : MemoryBroadcastState :=
  if existsb (λ command, (mc_broadcast_id command ==? broadcast_id) && (mc_kind command ==? Stop))
       (values (mb_commands state))
  then state
  else state <| mb_commands :=
         <[command_id := pending_command command_id broadcast_id worker Stop now]>
           (mb_commands state) |>.

(** [enqueue_stop] after its receipt lookup: the state change of a first request. *)
Definition stop_record (now available_at : DateTime) (command_id : Uuid) (broadcast_id : rstr)
    (record : DurableBroadcastRecord) (state : MemoryBroadcastState)
    : result BroadcastCommandError MemoryBroadcastState :=
  if db_state record ==? BroadcastState.Failed then
    record ← delete_failed record now;
    Ok (state <| mb_records := <[broadcast_id := record]> (mb_records state) |>)
  else if db_state record !=? BroadcastState.Deleted then
    Ok (push_stop command_id broadcast_id (ds_worker (dr_specification record)) available_at
          (state <| mb_records :=
             <[broadcast_id := record <| db_state := BroadcastState.Deleting |>
                                      <| db_updated_at := now |>]> (mb_records state) |>))
  else Ok state.

(** [enqueue_stop]; [now] and [available_at] are its clock readings. *)
Definition enqueue_stop (parse_str : rstr → option Uuid) (now available_at : DateTime)
    (command_id : Uuid) (tenant_id : TenantId) (broadcast_id : rstr)
    (identity : BroadcastOperationIdentity) (state : MemoryBroadcastState)
    : Locked BroadcastEnqueueOutcome :=
  match validate_broadcast_id parse_str broadcast_id with
  | Err e => (state, Err e)
  | Ok _ =>
  let receipt_key : ReceiptKey := (tenant_id, bi_idempotency_digest identity) in
  match mb_delete_receipts state !! receipt_key with
  | Some (request_digest, retained_id) =>
      if request_digest !=? bi_request_digest identity
      then (state, Err BroadcastError.IdempotencyConflict)
      else
      match mb_records state !! retained_id with
      | None => (state, Err BroadcastError.InvalidData)
      | Some record =>
          if db_state record ==? BroadcastState.Failed then
            match delete_failed record now with
            | Err e => (state, Err e)
            | Ok record =>
                (state <| mb_records := <[retained_id := record]> (mb_records state) |>,
                 Ok {| bo_record := record; bo_replayed := true |})
            end
          else (state, Ok {| bo_record := record; bo_replayed := true |})
      end
  | None =>
  match mb_records state !! broadcast_id with
  | None => (state, Err BroadcastError.NotFound)
  | Some record =>
  if ds_tenant_id (dr_specification record) !=? tenant_id
  then (state, Err BroadcastError.NotFound)
  else
  match stop_record now available_at command_id broadcast_id record state with
  | Err e => (state, Err e)
  | Ok state =>
      let state :=
        state <| mb_delete_receipts :=
          <[receipt_key := (bi_request_digest identity, broadcast_id)]>
            (mb_delete_receipts state) |> in
      (state, record ← ok_or (mb_records state !! broadcast_id) BroadcastError.InvalidData;
              Ok {| bo_record := record; bo_replayed := false |})
  end
  end
  end
  end.

Definition get (parse_str : rstr → option Uuid) (tenant_id : TenantId) (broadcast_id : rstr)
    (state : MemoryBroadcastState)
    : result BroadcastCommandError (option DurableBroadcastRecord) :=
  validate_broadcast_id parse_str broadcast_id;;
  Ok (record ← mb_records state !! broadcast_id;
      if ds_tenant_id (dr_specification record) ==? tenant_id then Some record else None).

(** ** The command queue *)

Definition command_claimable (worker : WorkerLease) (now : DateTime)
    (command : MemoryBroadcastCommand) : bool :=
  (mc_worker command ==? worker)
  && (mc_available_at command <=? now)
  && ((mc_state command ==? MemoryCommandState.Pending)
      || ((mc_state command ==? MemoryCommandState.Claimed)
          && is_some_and (λ expiry, expiry <=? now) (mc_claim_expires_at command))).

(** The order of [(available_at, command_id)]. *)
Definition compare_available (l r : MemoryBroadcastCommand) : comparison :=
  then_ (mc_available_at l ?= mc_available_at r) (mc_command_id l ?= mc_command_id r).

(** The loop of [claim]. *)
Fixpoint claim_commands (expires_at : DateTime) (ids : list Uuid) (state : MemoryBroadcastState)
    : Locked (list ClaimedBroadcastCommand) :=
  match ids with
  | [] => (state, Ok [])
  | command_id :: ids =>
  match mb_commands state !! command_id with
  | None => (state, Err BroadcastError.InvalidData)
  | Some command =>
  match checked_add_u64 (mc_claim_generation command) 1 with
  | None => (state, Err BroadcastError.InvalidData)
  | Some generation =>
      let state :=
        state <| mb_commands :=
          <[command_id := command <| mc_claim_generation := generation |>
                                  <| mc_claim_expires_at := Some expires_at |>
                                  <| mc_state := MemoryCommandState.Claimed |>]>
            (mb_commands state) |> in
      match mb_records state !! mc_broadcast_id command with
      | None => (state, Err BroadcastError.InvalidData)
      | Some record =>
          let '(state, claims) := claim_commands expires_at ids state in
          (state, claims ← claims;
                  Ok ({| bc_command_id := command_id; bc_kind := mc_kind command;
                         bc_claim_generation := generation; bc_record := record |} :: claims))
      end
  end
  end
  end.

Section Claim.
Context `{Chrono}.

Definition claim (now : DateTime) (worker : WorkerLease) (claim_ttl : Duration) (limit : N)
    (state : MemoryBroadcastState) : Locked (list ClaimedBroadcastCommand) :=
  if is_zero claim_ttl || (MAX_CLAIM_TTL <? claim_ttl) || (limit =? 0)%N || (MAX_BATCH <? limit)%N
  then (state, Err BroadcastError.InvalidData)
  else
  match (ttl ← ok_or (from_std claim_ttl) BroadcastError.InvalidData;
         ok_or (checked_add_signed now ttl) BroadcastError.InvalidData) with
  | Err e => (state, Err e)
  | Ok expires_at =>
      claim_commands expires_at
        (map mc_command_id
           (take (N.to_nat limit)
              (sort_by compare_available
                 (List.filter (command_claimable worker now) (values (mb_commands state))))))
        state
  end.
End Claim.

(** What a result makes of its command and its broadcast. *)
Definition settle (kind : DurableBroadcastCommandKind) (outcome : BroadcastCommandResult)
    : option (MemoryCommandState * DurableBroadcastState * option DurableBroadcastRuntime
              * option rstr) :=
  match outcome, kind with
  | CommandResult.Started runtime, Start =>
      Some (MemoryCommandState.Succeeded, BroadcastState.Active, Some runtime, None)
  | CommandResult.Stopped, Stop =>
      Some (MemoryCommandState.Succeeded, BroadcastState.Deleted, None, None)
  | CommandResult.Failed code, _ =>
      Some (MemoryCommandState.Failed, BroadcastState.Failed, None, Some code)
  | _, _ => None
  end.

Definition complete (now : DateTime) (claim : ClaimedBroadcastCommand)
    (outcome : BroadcastCommandResult) (state : MemoryBroadcastState)
    : Locked DurableBroadcastRecord :=
  match mb_commands state !! bc_command_id claim with
  | None => (state, Err BroadcastError.StaleClaim)
  | Some command =>
  if (mc_state command !=? MemoryCommandState.Claimed)
     || (mc_claim_generation command !=? bc_claim_generation claim)
     || (mc_kind command !=? bc_kind claim)
  then (state, Err BroadcastError.StaleClaim)
  else
  match settle (bc_kind claim) outcome with
  | None => (state, Err BroadcastError.InvalidTransition)
  | Some (command_state, record_state, runtime, failure_code) =>
      let state :=
        state <| mb_commands :=
          <[bc_command_id claim := command <| mc_state := command_state |>
                                           <| mc_claim_expires_at := None |>]>
            (mb_commands state) |> in
      match mb_records state !! mc_broadcast_id command with
      | None => (state, Err BroadcastError.InvalidData)
      | Some record =>
          let record :=
            record <| db_state := record_state |> <| db_runtime := runtime |>
                   <| db_failure_code := failure_code |> <| db_updated_at := now |> in
          (state <| mb_records := <[mc_broadcast_id command := record]> (mb_records state) |>,
           Ok record)
      end
  end
  end.

(** ** Failing the broadcasts of a worker *)

Definition fail_command (command : MemoryBroadcastCommand) : MemoryBroadcastCommand :=
  command <| mc_state := MemoryCommandState.Failed |> <| mc_claim_expires_at := None |>.

(** A record failed in place: its runtime stays until the grant is cleaned up. *)
Definition fail_record (failure_code : rstr) (readings : rstr → DateTime)
    (record : DurableBroadcastRecord) : DurableBroadcastRecord :=
  record <| db_state := BroadcastState.Failed |> <| db_failure_code := Some failure_code |>
         <| db_updated_at := readings (ds_broadcast_id (dr_specification record)) |>.

(** [fail_worker_broadcasts]; [readings] is the clock reading made for each record. *)
Definition fail_worker_broadcasts (readings : rstr → DateTime) (worker : WorkerLease)
    (failure_code : rstr) (state : MemoryBroadcastState) : Locked () :=
  (state
   <| mb_commands :=
        update_where (λ command, (mc_worker command ==? worker) && is_open (mc_state command))
          fail_command (mb_commands state) |>
   <| mb_records :=
        update_where (λ record, (ds_worker (dr_specification record) ==? worker)
                                && occupies (db_state record))
          (fail_record failure_code readings) (mb_records state) |>,
   Ok ()).

Definition stale_worker (current worker : WorkerLease) : bool :=
  (wl_worker_id worker ==? wl_worker_id current) && (wl_fence worker !=? wl_fence current).

Definition stale_worker_fence : rstr := str "stale_worker_fence".

(** A row of an older incarnation that is live, or failed and not cleaned up. *)
Definition stale_record (current : WorkerLease) (record : DurableBroadcastRecord) : bool :=
  stale_worker current (ds_worker (dr_specification record))
  && (occupies (db_state record)
      || ((db_failure_code record ==? Some stale_worker_fence) && is_some (db_runtime record))).

(** The loop over [stale_ids]. *)
Fixpoint fail_records (readings : rstr → DateTime) (ids : list rstr)
    (state : MemoryBroadcastState) : Locked () :=
  match ids with
  | [] => (state, Ok ())
  | broadcast_id :: ids =>
      match mb_records state !! broadcast_id with
      | None => (state, Err BroadcastError.InvalidData)
      | Some record =>
          fail_records readings ids
            (state <| mb_records :=
               <[broadcast_id :=
                   record <| db_state := BroadcastState.Failed |>
                          <| db_failure_code := Some stale_worker_fence |>
                          <| db_updated_at := readings broadcast_id |>]> (mb_records state) |>)
      end
  end.

(** [stale_ids.iter().map(..).collect()]. *)
Fixpoint collect_records (ids : list rstr) (state : MemoryBroadcastState)
    : result BroadcastCommandError (list DurableBroadcastRecord) :=
  match ids with
  | [] => Ok []
  | broadcast_id :: ids =>
      record ← ok_or (mb_records state !! broadcast_id) BroadcastError.InvalidData;
      records ← collect_records ids state;
      Ok (record :: records)
  end.

(** [fail_stale_worker_broadcasts]; [iter] is the order in which the records are visited. *)
Definition fail_stale_worker_broadcasts
    (iter : gmap rstr DurableBroadcastRecord → list DurableBroadcastRecord)
    (readings : rstr → DateTime) (current : WorkerLease) (state : MemoryBroadcastState)
    : Locked (list DurableBroadcastRecord) :=
  let stale_ids :=
    map (λ record, ds_broadcast_id (dr_specification record))
      (List.filter (stale_record current) (iter (mb_records state))) in
  let state :=
    state <| mb_commands :=
      update_where (λ command, stale_worker current (mc_worker command)
                               && is_open (mc_state command))
        fail_command (mb_commands state) |> in
  match fail_records readings stale_ids state with
  | (state, Err e) => (state, Err e)
  | (state, Ok _) => (state, collect_records stale_ids state)
  end.

(** The grant generation the runtime of a record carries, if any. *)
Definition record_grant (record : DurableBroadcastRecord) : option Uuid :=
  db_runtime record ≫= br_grant_generation.

Definition reconcile_terminal (parse_str : rstr → option Uuid) (now : DateTime)
    (broadcast_id : rstr) (worker : WorkerLease) (source_binding_generation : BindingGeneration)
    (grant_generation : option Uuid) (failure_code : rstr) (state : MemoryBroadcastState)
    : Locked bool :=
  match validate_broadcast_id parse_str broadcast_id with
  | Err e => (state, Err e)
  | Ok _ =>
  match mb_records state !! broadcast_id with
  | None => (state, Ok false)
  | Some record =>
      if (db_state record !=? BroadcastState.Active)
         || (ds_worker (dr_specification record) !=? worker)
         || (ds_source_binding_generation (dr_specification record) !=? source_binding_generation)
         || (record_grant record !=? grant_generation)
      then (state, Ok false)
      else
        (state <| mb_records :=
           <[broadcast_id := record <| db_state := BroadcastState.Failed |>
                                    <| db_runtime := None |>
                                    <| db_failure_code := Some failure_code |>
                                    <| db_updated_at := now |>]> (mb_records state) |>,
         Ok true)
  end
  end.

Definition finalize_failed_cleanup (parse_str : rstr → option Uuid) (now : DateTime)
    (broadcast_id : rstr) (worker : WorkerLease) (grant_generation : option Uuid)
    (state : MemoryBroadcastState) : Locked bool :=
  match validate_broadcast_id parse_str broadcast_id with
  | Err e => (state, Err e)
  | Ok _ =>
  match mb_records state !! broadcast_id with
  | None => (state, Ok false)
  | Some record =>
      if (db_state record !=? BroadcastState.Failed)
         || (ds_worker (dr_specification record) !=? worker)
         || (record_grant record !=? grant_generation)
      then (state, Ok false)
      else
        (state <| mb_records :=
           <[broadcast_id := record <| db_runtime := None |> <| db_updated_at := now |>]>
             (mb_records state) |>,
         Ok true)
  end
  end.
