(* ===== verification/BroadcastInv.v ===== *)
(** Runs of the broadcast command repository, and the invariant of its rows: every command belongs
    to a stored broadcast of its worker, a broadcast has at most one command of each kind, receipts
    name stored broadcasts, and a failed broadcast whose grant is not cleaned up has no open
    command. *)

From S2P Require Import Prelude RustText DomainTypes CoordModel Domain RepoTypes.
From S2P Require Import BroadcastCommands.
From stdpp Require Import options.

(** ** Steps *)

(** What a step finalized: the broadcast, its worker and the grant generation. *)
Definition cleanup : Type := rstr * WorkerLease * option Uuid.

(** One call of a repository method.  The identifiers it draws are new, as random ones are; the
    label is the cleanup it finalized, if it did. *)
Inductive bcast_step `{Chrono} : option cleanup → relation MemoryBroadcastState :=
| step_start parse checked_at now command_id spec identity max s s' out :
    mb_commands s !! command_id = None → mb_records s !! ds_broadcast_id spec = None →
    enqueue_start parse checked_at now command_id spec identity max s = (s', out) →
    bcast_step None s s'
| step_stop parse now available_at command_id tenant id identity s s' out :
    mb_commands s !! command_id = None →
    enqueue_stop parse now available_at command_id tenant id identity s = (s', out) →
    bcast_step None s s'
| step_claim now worker ttl limit s s' out :
    claim now worker ttl limit s = (s', out) → bcast_step None s s'
| step_complete now c outcome s s' out :
    complete now c outcome s = (s', out) → bcast_step None s s'
| step_fail_worker readings worker code s s' out :
    fail_worker_broadcasts readings worker code s = (s', out) → bcast_step None s s'
| step_fail_stale iter readings current s s' out :
    iter (mb_records s) ≡ₚ values (mb_records s) →
    fail_stale_worker_broadcasts iter readings current s = (s', out) → bcast_step None s s'
| step_reconcile parse now id worker generation grant code s s' out :
    reconcile_terminal parse now id worker generation grant code s = (s', out) →
    bcast_step None s s'
| step_finalize parse now id worker grant s s' out :
    finalize_failed_cleanup parse now id worker grant s = (s', out) →
    bcast_step (match out with Ok true => Some (id, worker, grant) | _ => None end) s s'.

Definition any_step `{Chrono} : relation MemoryBroadcastState := λ s s', ∃ l, bcast_step l s s'.

Definition bcast_reachable `{Chrono} (s : MemoryBroadcastState) : Prop :=
  rtc any_step MemoryBroadcastState_default s.

(** ** Rows over time *)

(** What time does to a command: its identity is fixed, its claim generation grows, and once it is
    settled nothing changes. *)
Record command_moves (k k' : MemoryBroadcastCommand) : Prop := {
  cm_identity : mc_command_id k' = mc_command_id k ∧ mc_broadcast_id k' = mc_broadcast_id k ∧
    mc_worker k' = mc_worker k ∧ mc_kind k' = mc_kind k;
  cm_generation : mc_claim_generation k ≤ mc_claim_generation k';
  cm_settled : is_open (mc_state k) = false → k' = k;
  cm_claimed : mc_state k' = MemoryCommandState.Claimed →
    mc_claim_generation k' = mc_claim_generation k → mc_state k = MemoryCommandState.Claimed;
}.

Definition commands_move (s s' : MemoryBroadcastState) : Prop :=
  ∀ c k, mb_commands s !! c = Some k →
    ∃ k', mb_commands s' !! c = Some k' ∧ command_moves k k'.

(** Rows change in place. *)
Record rows_move (s s' : MemoryBroadcastState) : Prop := {
  rv_records : ∀ id, option_Forall2 (λ r r', dr_specification r' = dr_specification r)
    (mb_records s !! id) (mb_records s' !! id);
  rv_commands : ∀ c, option_Forall2 command_moves (mb_commands s !! c) (mb_commands s' !! c);
  rv_receipts : mb_create_receipts s' = mb_create_receipts s ∧
    mb_delete_receipts s' = mb_delete_receipts s;
}.

#[export] Instance command_moves_refl : Reflexive command_moves.
Proof. done. Qed.

#[export] Instance command_moves_trans : Transitive command_moves.
Proof.
  intros x y z [I G S C] [I' G' S' C']. split; [intuition congruence|lia| |].
  - intros Hx. rewrite (S Hx) in *. auto.
  - intros Hz E. apply C; [|lia]. apply C'; [done|lia].
Qed.

#[export] Instance rows_move_refl : Reflexive rows_move.
Proof. intros s. split; [intros id; by destruct (_ !! id); constructor..|done]. Qed.

#[export] Instance rows_move_trans : Transitive rows_move.
Proof.
  intros x y z [R C [E1 E2]] [R' C' [E1' E2']]. split; [intros id..|by rewrite E1', E2'].
  - specialize (R id). specialize (R' id).
    destruct (mb_records y !! id); inversion R; inversion R'; subst; constructor; congruence.
  - specialize (C id). specialize (C' id).
    destruct (mb_commands y !! id); inversion C; inversion C'; subst; constructor; by etrans.
Qed.

Lemma rows_commands_move s s' : rows_move s s' → commands_move s s'.
Proof.
  intros M c k Hk. pose proof (rv_commands _ _ M c) as R. rewrite Hk in R. inversion R; eauto.
Qed.

(** ** The invariant *)

(** A failed broadcast that still carries a runtime owes its cleanup. *)
Definition owes (r : DurableBroadcastRecord) : Prop :=
  db_state r = BroadcastState.Failed ∧ is_Some (db_runtime r).

(** No command of the broadcast is open. *)
Definition quiet (s : MemoryBroadcastState) (id : rstr) : Prop :=
  ∀ c k, mb_commands s !! c = Some k → mc_broadcast_id k = id → is_open (mc_state k) = false.

Definition receipts_ok (records : gmap rstr DurableBroadcastRecord)
    (receipts : gmap ReceiptKey (Digest * rstr)) : Prop :=
  ∀ key digest id, receipts !! key = Some (digest, id) →
    ∃ r, records !! id = Some r ∧ ds_tenant_id (dr_specification r) = key.1.

Record bcast_ok (s : MemoryBroadcastState) : Prop := {
  bk_record : ∀ id r, mb_records s !! id = Some r → ds_broadcast_id (dr_specification r) = id;
  bk_command : ∀ c k, mb_commands s !! c = Some k → mc_command_id k = c ∧
    ∃ r, mb_records s !! mc_broadcast_id k = Some r ∧
      ds_worker (dr_specification r) = mc_worker k;
  bk_unique : ∀ c k c' k', mb_commands s !! c = Some k → mb_commands s !! c' = Some k' →
    mc_broadcast_id k = mc_broadcast_id k' → mc_kind k = mc_kind k' → c = c';
  bk_quiet : ∀ id r, mb_records s !! id = Some r → owes r → quiet s id;
  bk_create : receipts_ok (mb_records s) (mb_create_receipts s);
  bk_delete : receipts_ok (mb_records s) (mb_delete_receipts s);
}.

Lemma bcast_ok_default : bcast_ok MemoryBroadcastState_default.
Proof. split; try done. Qed.

Section Moved.
Context (s s' : MemoryBroadcastState) (M : rows_move s s').

Lemma moved_record id r' :
  mb_records s' !! id = Some r' →
  ∃ r, mb_records s !! id = Some r ∧ dr_specification r' = dr_specification r.
Proof using M.
  intros Hr. pose proof (rv_records _ _ M id) as R. rewrite Hr in R. inversion R; eauto.
Qed.

Lemma kept_record id r :
  mb_records s !! id = Some r →
  ∃ r', mb_records s' !! id = Some r' ∧ dr_specification r' = dr_specification r.
Proof using M.
  intros Hr. pose proof (rv_records _ _ M id) as R. rewrite Hr in R. inversion R; eauto.
Qed.

Lemma moved_command c k' :
  mb_commands s' !! c = Some k' → ∃ k, mb_commands s !! c = Some k ∧ command_moves k k'.
Proof using M.
  intros Hk. pose proof (rv_commands _ _ M c) as R. rewrite Hk in R. inversion R; eauto.
Qed.

Lemma moved_quiet id : quiet s id → quiet s' id.
Proof using M.
  intros Hq c k' (k & Hk & [[_ [E _]] _ S _])%moved_command Hid.
  rewrite E in Hid. pose proof (Hq _ _ Hk Hid) as Ho. by rewrite (S Ho).
Qed.

Lemma kept_receipts receipts :
  receipts_ok (mb_records s) receipts → receipts_ok (mb_records s') receipts.
Proof using M.
  intros H key digest id Hr. destruct (H _ _ _ Hr) as (r & Hid & Ht).
  destruct (kept_record _ _ Hid) as (r' & Hid' & E). exists r'. split; [done|]. by rewrite E.
Qed.

(** In-place changes keep the invariant when they fail only quiet broadcasts. *)
Lemma rows_move_ok :
  bcast_ok s → (∀ id r, mb_records s' !! id = Some r → owes r → quiet s' id) → bcast_ok s'.
Proof using M.
  intros [R C U Q B D] Hq. destruct (rv_receipts _ _ M) as [E1 E2].
  split; [| | |done|rewrite E1; by apply kept_receipts|rewrite E2; by apply kept_receipts].
  - intros id r' (r & Hr & E)%moved_record. rewrite E. auto.
  - intros c k' (k & Hk & [(Ei & Eb & Ew & _) _ _ _])%moved_command.
    destruct (C _ _ Hk) as [Ec (r & Hr & Hw)]. split; [congruence|].
    destruct (kept_record _ _ Hr) as (r' & Hr' & E). exists r'. rewrite Eb, Ew, E. done.
  - intros c k1 c' k2 (k & Hk & [(_ & Eb & _ & Ek) _ _ _])%moved_command
      (k0 & Hk0 & [(_ & Eb0 & _ & Ek0) _ _ _])%moved_command Hb Hkd.
    eapply (U c k c' k0); congruence.
Qed.
End Moved.

(** ** The methods as row moves *)

Lemma put_record_moves s id r r' :
  mb_records s !! id = Some r → dr_specification r' = dr_specification r →
  rows_move s (s <| mb_records := <[id := r']> (mb_records s) |>).
Proof.
  intros Hr E. split; [intros id'|intros c; cbn|done].
  - cbn. destruct (base.decide (id' = id)) as [->|Hne].
    + rewrite lookup_insert_eq, Hr. by constructor.
    + rewrite lookup_insert_ne by done. by destruct (_ !! id'); constructor.
  - by destruct (_ !! c); constructor.
Qed.

Lemma put_command_moves s c k k' :
  mb_commands s !! c = Some k → command_moves k k' →
  rows_move s (s <| mb_commands := <[c := k']> (mb_commands s) |>).
Proof.
  intros Hk E. split; [intros id; cbn|intros c'|done].
  - by destruct (_ !! id); constructor.
  - cbn. destruct (base.decide (c' = c)) as [->|Hne].
    + rewrite lookup_insert_eq, Hk. by constructor.
    + rewrite lookup_insert_ne by done. by destruct (_ !! c'); constructor.
Qed.

Lemma update_where_relates {K} `{Countable K} {V} (R : relation V) p f (m : gmap K V) k :
  Reflexive R → (∀ v, p v = true → R v (f v)) → option_Forall2 R (m !! k) (update_where p f m !! k).
Proof.
  intros HR Hf. unfold update_where. rewrite lookup_fmap. destruct (m !! k) as [v|]; cbn; constructor.
  destruct (p v) eqn:Hp; auto.
Qed.

(** A changed record keeps the invariant when it owes cleanup only where nothing is open. *)
Lemma put_record_ok s id r r' :
  bcast_ok s → mb_records s !! id = Some r → dr_specification r' = dr_specification r →
  (owes r' → owes r ∨ quiet s id) → bcast_ok (s <| mb_records := <[id := r']> (mb_records s) |>).
Proof.
  intros Hok Hr E Hq. apply (rows_move_ok s); [by eapply put_record_moves|done|].
  intros id' r0 Hr0 Ho. change (quiet s id'). cbn in Hr0.
  apply lookup_insert_Some in Hr0 as [[<- <-]|[_ Hr0]]; [|by eapply bk_quiet].
  destruct (Hq Ho); [by eapply bk_quiet|done].
Qed.

(** Commands that move keep the invariant. *)
Lemma move_commands_ok s s' :
  bcast_ok s → rows_move s s' → mb_records s' = mb_records s → bcast_ok s'.
Proof.
  intros Hok M E. apply (rows_move_ok s); [done..|]. intros id r Hr Ho. rewrite E in Hr.
  apply (moved_quiet s s' M). by eapply bk_quiet.
Qed.

(** What the claim loop returns and writes. *)
Record claimed_from (s s' : MemoryBroadcastState) (cl : ClaimedBroadcastCommand) : Prop := {
  cf_command : ∃ k k', mb_commands s !! bc_command_id cl = Some k ∧
    mb_commands s' !! bc_command_id cl = Some k' ∧
    mc_state k' = MemoryCommandState.Claimed ∧ mc_claim_generation k' = bc_claim_generation cl ∧
    mc_claim_generation k < mc_claim_generation k' ∧ mc_kind k' = bc_kind cl ∧
    mb_records s !! mc_broadcast_id k = Some (bc_record cl);
}.

Lemma claim_moves k g e :
  is_open (mc_state k) = true → checked_add_u64 (mc_claim_generation k) 1 = Some g →
  command_moves k (k <| mc_claim_generation := g |> <| mc_claim_expires_at := Some e |>
                     <| mc_state := MemoryCommandState.Claimed |>).
Proof.
  unfold checked_add_u64. intros Ho Hg. destruct (_ <=? _) eqn:E; [|done]. injection Hg as <-.
  split; cbn; [done|lia|congruence|lia].
Qed.

Lemma claim_commands_spec expires ids s s' out :
  NoDup ids → (∀ c k, c ∈ ids → mb_commands s !! c = Some k → is_open (mc_state k) = true) →
  claim_commands expires ids s = (s', out) →
  rows_move s s' ∧ mb_records s' = mb_records s ∧
  (∀ c, c ∉ ids → mb_commands s' !! c = mb_commands s !! c) ∧
  (∀ claims, out = Ok claims → map bc_command_id claims = ids ∧
     ∀ cl, cl ∈ claims → claimed_from s s' cl).
Proof.
  revert s s' out. induction ids as [|c ids IH]; intros s s' out Hnd Hopen H; cbn in H.
  { simplify_eq. split_and!; [done..|]. intros ? [= <-]. split; [done|]. intros ? []%not_elem_of_nil. }
  apply NoDup_cons in Hnd as [Hc Hnd].
  destruct (mb_commands s !! c) as [k|] eqn:Hk;
    [|simplify_eq; split_and!; [done|done|done|intros ? [=]]].
  destruct (checked_add_u64 _ _) as [g|] eqn:Hg;
    [|simplify_eq; split_and!; [done|done|done|intros ? [=]]].
  pose proof (claim_moves k g expires (Hopen c k (list_elem_of_here _ _) Hk) Hg) as Hmv.
  pose proof (put_command_moves s c k _ Hk Hmv) as Hput. set (s1 := set_field mb_commands _ s) in *.
  assert (Hs1 : ∀ c', c' ≠ c → mb_commands s1 !! c' = mb_commands s !! c')
    by (intros; subst s1; cbn; by rewrite lookup_insert_ne).
  assert (Hk1 : ∃ k1, mb_commands s1 !! c = Some k1 ∧ mc_state k1 = MemoryCommandState.Claimed ∧
    mc_claim_generation k1 = g ∧ mc_kind k1 = mc_kind k).
  { eexists. split; [subst s1; cbn; apply lookup_insert_eq|done]. }
  assert (Hr1 : mb_records s1 = mb_records s) by done. clearbody s1.
  destruct (mb_records s !! mc_broadcast_id k) as [r|] eqn:Hr;
    [|simplify_eq; split_and!; [done|done| |intros ? [=]]; intros c' Hc'; apply Hs1; set_solver].
  destruct (claim_commands expires ids s1) as [s2 claims] eqn:E. injection H as <- <-.
  destruct (IH s1 s2 claims Hnd) as (M & Er & Eo & Hcl); [|done|].
  { intros c' k' Hc' Hk'. rewrite Hs1 in Hk' by (intros ->; done). apply (Hopen c' k'); [by right|done]. }
  split_and!; [by etrans|congruence| |].
  { intros c' Hc'. rewrite Eo by set_solver. apply Hs1. set_solver. }
  intros claims' H. destruct claims as [claims|]; [|done]. injection H as <-.
  destruct (Hcl claims eq_refl) as [Em Hall]. split; [by cbn; rewrite Em|].
  destruct Hk1 as (k1 & Hk1 & Es & Eg & Ek).
  assert (Hlt : mc_claim_generation k < g).
  { unfold checked_add_u64 in Hg. destruct (_ <=? _); [injection Hg; lia|done]. }
  intros cl [->|Hin]%elem_of_cons; constructor; cbn.
  - exists k, k1. rewrite (Eo c Hc), Hk1. split_and!; try done. lia.
  - destruct (Hall _ Hin) as [(k2 & k2' & H1 & H2 & H3 & H4 & H5 & H6 & H7)].
    assert (bc_command_id cl ≠ c).
    { intros <-. apply Hc. rewrite <- Em. apply list_elem_of_In, in_map, list_elem_of_In, Hin. }
    rewrite Hs1 in H1 by done. rewrite Hr1 in H7. eauto 12.
Qed.

Lemma claim_spec `{Chrono} now worker ttl limit s s' out :
  bcast_ok s → claim now worker ttl limit s = (s', out) →
  rows_move s s' ∧ mb_records s' = mb_records s ∧
  (∀ claims, out = Ok claims →
     NoDup (map bc_command_id claims) ∧
     ∀ cl, cl ∈ claims → claimed_from s s' cl ∧
       ∃ k, mb_commands s !! bc_command_id cl = Some k ∧ command_claimable worker now k = true).
Proof.
  intros Hok Hc. unfold claim in Hc.
  destruct (_ || _ || _ || _); [simplify_eq; split_and!; [done|done|intros ? [=]]|].
  destruct (_ ≫= _) as [expires|e]; [|simplify_eq; split_and!; [done|done|intros ? [=]]].
  set (chosen := take _ _) in Hc.
  assert (Hin : ∀ c, c ∈ map mc_command_id chosen →
    ∃ k, mb_commands s !! c = Some k ∧ command_claimable worker now k = true).
  { intros c Hm. apply list_elem_of_In, in_map_iff in Hm as (k & <- & Hk).
    apply list_elem_of_In in Hk. subst chosen. apply elem_of_take in Hk as (i & Hi & _).
    apply list_elem_of_lookup_2 in Hi. rewrite sort_by_perm in Hi.
    apply list_elem_of_In, filter_In in Hi as [Hi Hcl]. apply list_elem_of_In, values_elem in Hi as [c' Hc'].
    exists k. by destruct (bk_command _ Hok _ _ Hc') as [-> _]. }
  assert (Hnd : NoDup (map mc_command_id chosen)).
  { subst chosen. rewrite <- firstn_map. eapply sublist_NoDup; [|apply sublist_take].
    change (map mc_command_id) with (fmap mc_command_id : list MemoryBroadcastCommand → list Uuid).
    rewrite (fmap_Permutation mc_command_id _ _ (sort_by_perm _ _)).
    apply values_nodup. intros c k Hk. by destruct (bk_command _ Hok _ _ Hk). }
  apply claim_commands_spec in Hc as (M & Er & _ & Hcl); [|done|].
  - split_and!; [done|done|]. intros claims E. destruct (Hcl _ E) as [Em Hall].
    rewrite Em. split; [done|]. intros cl Hin'. split; [by apply Hall|]. apply Hin. rewrite <- Em.
    by apply list_elem_of_In, in_map, list_elem_of_In.
  - intros c k (k' & Hk' & Hcl)%Hin Hk. assert (k' = k) as -> by congruence.
    unfold command_claimable in Hcl.
    destruct (mc_state k); [done|done|..]; eval_tests_in Hcl; by rewrite andb_false_r in Hcl.
Qed.

Lemma settle_settled kind outcome st rst rt code :
  settle kind outcome = Some (st, rst, rt, code) →
  is_open st = false ∧ (rst = BroadcastState.Failed → rt = None).
Proof. destruct kind, outcome; cbn; intros; by simplify_eq. Qed.

(** The claim a completion needs. *)
Definition live_claim (s : MemoryBroadcastState) (cl : ClaimedBroadcastCommand) : Prop :=
  ∃ k, mb_commands s !! bc_command_id cl = Some k ∧ mc_state k = MemoryCommandState.Claimed ∧
    mc_claim_generation k = bc_claim_generation cl ∧ mc_kind k = bc_kind cl.

Lemma complete_stale now cl outcome s :
  ¬ live_claim s cl → complete now cl outcome s = (s, Err BroadcastError.StaleClaim).
Proof.
  intros Hn. unfold complete. destruct (mb_commands s !! bc_command_id cl) as [k|] eqn:Hk; [|done].
  destruct (_ || _) eqn:E; [done|]. bool_hyps. destruct Hn. exists k. by split_and!.
Qed.

Lemma complete_live now cl outcome s :
  live_claim s cl →
  ∃ k, mb_commands s !! bc_command_id cl = Some k ∧
  complete now cl outcome s =
  match settle (bc_kind cl) outcome with
  | None => (s, Err BroadcastError.InvalidTransition)
  | Some (st, rst, rt, code) =>
      let s := s <| mb_commands := <[bc_command_id cl := k <| mc_state := st |>
                      <| mc_claim_expires_at := None |>]> (mb_commands s) |> in
      match mb_records s !! mc_broadcast_id k with
      | None => (s, Err BroadcastError.InvalidData)
      | Some r =>
          let r := r <| db_state := rst |> <| db_runtime := rt |> <| db_failure_code := code |>
                     <| db_updated_at := now |> in
          (s <| mb_records := <[mc_broadcast_id k := r]> (mb_records s) |>, Ok r)
      end
  end.
Proof.
  intros (k & Hk & Hs & Hg & Hkd). exists k. split; [done|]. unfold complete. rewrite Hk.
  rewrite Hs, Hg, Hkd. by rewrite !bool_decide_eq_true_2.
Qed.

(** Whether a claim is live is decided. *)
Lemma live_claim_dec s cl : Decision (live_claim s cl).
Proof.
  unfold live_claim. destruct (mb_commands s !! bc_command_id cl) as [k|];
    [|right; by intros (? & ? & _)].
  destruct (base.decide (mc_state k = MemoryCommandState.Claimed ∧
    mc_claim_generation k = bc_claim_generation cl ∧ mc_kind k = bc_kind cl)).
  - left. by exists k.
  - right. intros (? & [= <-] & ?). done.
Qed.

Lemma settled_moves k st :
  mc_state k = MemoryCommandState.Claimed → is_open st = false →
  command_moves k (k <| mc_state := st |> <| mc_claim_expires_at := None |>).
Proof. intros Hk Hst. split; cbn; try done. by rewrite Hk. Qed.

Lemma complete_ok now cl outcome s s' out :
  bcast_ok s → complete now cl outcome s = (s', out) → bcast_ok s' ∧ rows_move s s'.
Proof.
  intros Hok H. destruct (live_claim_dec s cl) as [Hl|Hl];
    [|rewrite complete_stale in H by done; by simplify_eq].
  destruct (complete_live now cl outcome s Hl) as (k & Hk & E). rewrite E in H. clear E.
  destruct Hl as (k0 & Hk0 & Hs & _). assert (k0 = k) as -> by congruence.
  destruct (settle _ _) as [[[[st rst] rt] code]|] eqn:Hset; [|by simplify_eq].
  destruct (settle_settled _ _ _ _ _ _ Hset) as [Hst Hrt]. cbv zeta in H.
  pose proof (put_command_moves s _ k _ Hk (settled_moves k st Hs Hst)) as M.
  set (s1 := set_field mb_commands _ s) in *.
  assert (Hok1 : bcast_ok s1) by (by eapply (move_commands_ok s)). clearbody s1.
  destruct (mb_records s1 !! mc_broadcast_id k) as [r|] eqn:Hr; [|by simplify_eq].
  injection H as <- _. split.
  - eapply put_record_ok; [done|done|done|]. intros [Hf [x Hx]]. cbn in *. by rewrite Hrt in Hx.
  - etrans; [done|]. by eapply put_record_moves.
Qed.

Lemma fail_command_moves k : is_open (mc_state k) = true → command_moves k (fail_command k).
Proof. intros Ho. split; cbn; try done. congruence. Qed.

Lemma fail_worker_ok readings worker code s s' out :
  bcast_ok s → fail_worker_broadcasts readings worker code s = (s', out) →
  bcast_ok s' ∧ rows_move s s'.
Proof.
  intros Hok H. unfold fail_worker_broadcasts in H. injection H as <- _.
  set (s' := set_field mb_records _ _).
  assert (M : rows_move s s').
  { split; [intros id|intros c|done]; subst s'; cbn.
    - apply update_where_relates; by intros ?.
    - apply update_where_relates; [apply _|]. intros k [_ Ho]%andb_true_iff. by apply fail_command_moves. }
  split; [|done]. apply (rows_move_ok s); [done..|]. intros id r' Hr' [Hf Hrt].
  subst s'. cbn in Hr'. apply update_where_lookup in Hr' as (r & Hr & ->).
  destruct (_ && _) eqn:E; [|apply (moved_quiet _ _ M); by apply (bk_quiet _ Hok id r)].
  apply andb_true_iff in E as [Hw _]. apply bool_decide_eq_true in Hw.
  intros c k' Hk' Hid. cbn in Hk'. apply update_where_lookup in Hk' as (k & Hk & ->).
  assert (mc_broadcast_id k = id) as Hb by (by destruct (_ && _) in Hid).
  destruct (bk_command _ Hok _ _ Hk) as [_ (r0 & Hr0 & Hw0)].
  rewrite Hb, Hr in Hr0. injection Hr0 as <-. rewrite <- Hw0, Hw, bool_decide_eq_true_2 by done.
  cbn. by destruct (is_open (mc_state k)) eqn:Ho.
Qed.

(** What the loop over the stale rows writes. *)
Definition stale_failed (readings : rstr → DateTime) (id : rstr) (r : DurableBroadcastRecord)
    : DurableBroadcastRecord :=
  r <| db_state := BroadcastState.Failed |> <| db_failure_code := Some stale_worker_fence |>
    <| db_updated_at := readings id |>.

Lemma fail_records_spec readings ids s :
  (∀ id, id ∈ ids → is_Some (mb_records s !! id)) →
  ∃ s', fail_records readings ids s = (s', Ok ()) ∧ rows_move s s' ∧
    mb_commands s' = mb_commands s ∧
    ∀ id, mb_records s' !! id =
      (if bool_decide (id ∈ ids) then stale_failed readings id <$> mb_records s !! id
       else mb_records s !! id).
Proof.
  revert s. induction ids as [|i ids IH]; intros s Hin; cbn.
  { exists s. split_and!; [done..|]. intros id. by rewrite bool_decide_eq_false_2 by set_solver. }
  destruct (Hin i (list_elem_of_here _ _)) as [r Hr]. rewrite Hr.
  change (r <| db_state := _ |> <| db_failure_code := _ |> <| db_updated_at := _ |>)
    with (stale_failed readings i r).
  pose proof (put_record_moves s i r (stale_failed readings i r) Hr eq_refl) as M.
  set (s1 := set_field mb_records _ s) in *.
  assert (E1 : mb_records s1 = <[i := stale_failed readings i r]> (mb_records s)) by done.
  assert (E2 : mb_commands s1 = mb_commands s) by done. clearbody s1.
  destruct (IH s1) as (s' & -> & M' & Ec & Er).
  { intros id Hid. rewrite E1. apply lookup_insert_is_Some'. right. apply Hin. by right. }
  exists s'. split_and!; [done|by etrans|congruence|]. intros id. rewrite Er, E1.
  destruct (base.decide (id = i)) as [->|Hne].
  - rewrite lookup_insert_eq, Hr, (bool_decide_eq_true_2 (i ∈ i :: ids)) by set_solver. cbn.
    by case_bool_decide.
  - rewrite lookup_insert_ne by done. repeat case_bool_decide; try done; set_solver.
Qed.

Lemma collect_records_spec ids s :
  (∀ id, id ∈ ids → is_Some (mb_records s !! id)) →
  ∃ rs, collect_records ids s = Ok rs ∧ Forall2 (λ id r, mb_records s !! id = Some r) ids rs.
Proof.
  induction ids as [|i ids IH]; intros Hin; cbn; [by exists []|].
  destruct (Hin i (list_elem_of_here _ _)) as [r Hr]. rewrite Hr. cbn.
  destruct IH as (rs & -> & Hrs); [set_solver|]. exists (r :: rs). by split; [|constructor].
Qed.

(** The incarnation takeover as a whole: it never fails, fails exactly the stale rows, closes
    their commands, and returns them. *)
Record taken_over (readings : rstr → DateTime) (current : WorkerLease)
    (s s' : MemoryBroadcastState) (rs : list DurableBroadcastRecord) : Prop := {
  to_records : ∀ id, mb_records s' !! id =
    (λ r, if stale_record current r then stale_failed readings id r else r) <$> mb_records s !! id;
  to_commands : mb_commands s' =
    update_where (λ k, stale_worker current (mc_worker k) && is_open (mc_state k)) fail_command
      (mb_commands s);
  to_receipts : mb_create_receipts s' = mb_create_receipts s ∧
    mb_delete_receipts s' = mb_delete_receipts s;
  to_rows : ∀ r', r' ∈ rs ↔ ∃ id r, mb_records s !! id = Some r ∧ stale_record current r = true ∧
    mb_records s' !! id = Some r';
}.

Lemma fail_stale_spec iter readings current s :
  bcast_ok s → iter (mb_records s) ≡ₚ values (mb_records s) →
  ∃ s' rs, fail_stale_worker_broadcasts iter readings current s = (s', Ok rs) ∧
    taken_over readings current s s' rs.
Proof.
  intros Hok Hiter. unfold fail_stale_worker_broadcasts. set (ids := map _ (List.filter _ _)).
  assert (Hids : ∀ id, id ∈ ids ↔ ∃ r, mb_records s !! id = Some r ∧ stale_record current r = true).
  { intros id. subst ids. rewrite list_elem_of_In, in_map_iff. split.
    - intros (r & <- & [Hr Hst]%filter_In). rewrite <- list_elem_of_In, Hiter in Hr.
      apply values_elem in Hr as [id' Hr]. exists r. by rewrite (bk_record _ Hok _ _ Hr).
    - intros (r & Hr & Hst). exists r. split; [by apply (bk_record _ Hok)|]. apply filter_In.
      split; [|done]. rewrite <- list_elem_of_In, Hiter. apply values_elem. eauto. }
  set (s1 := set_field mb_commands _ s).
  assert (Hrec : mb_records s1 = mb_records s) by done.
  destruct (fail_records_spec readings ids s1) as (s' & -> & M & Ec & Er).
  { intros id (r & Hr & _)%Hids. rewrite Hrec. eauto. }
  assert (Hget : ∀ id, mb_records s' !! id =
    (λ r, if stale_record current r then stale_failed readings id r else r) <$> mb_records s !! id).
  { intros id. rewrite Er, Hrec. case_bool_decide as Hid.
    - apply Hids in Hid as (r & -> & Hst). cbn. by rewrite Hst.
    - destruct (mb_records s !! id) as [r|] eqn:Hr; [|done]. cbn.
      destruct (stale_record current r) eqn:Hst; [|done]. destruct Hid. apply Hids. eauto. }
  destruct (collect_records_spec ids s') as (rs & -> & Hrs).
  { intros id (r & Hr & Hst)%Hids. rewrite Hget, Hr. by eexists. }
  exists s', rs. split; [done|]. split; [done|by rewrite Ec|apply (rv_receipts _ _ M)|].
  intros r'. split.
  - intros (i & Hi)%list_elem_of_lookup. destruct (Forall2_lookup_r _ _ _ _ _ Hrs Hi) as (id & Hid & Hr').
    apply list_elem_of_lookup_2, Hids in Hid as (r & Hr & Hst). eauto.
  - intros (id & r & Hr & Hst & Hr'). assert (Hid : id ∈ ids) by (apply Hids; eauto).
    apply list_elem_of_lookup in Hid as [i Hi]. destruct (Forall2_lookup_l _ _ _ _ _ Hrs Hi) as (r0 & Hi' & Hr0).
    rewrite Hr' in Hr0. injection Hr0 as <-. by eapply list_elem_of_lookup_2.
Qed.

Lemma fail_stale_ok readings current s s' rs :
  bcast_ok s → taken_over readings current s s' rs → bcast_ok s' ∧ rows_move s s'.
Proof.
  intros Hok [Er Ec Ere _].
  assert (M : rows_move s s').
  { split; [intros id; rewrite Er|intros c; rewrite Ec|done].
    - destruct (mb_records s !! id) as [r|]; cbn; constructor. by destruct (stale_record _ _).
    - apply update_where_relates; [apply _|]. intros k [_ Ho]%andb_true_iff. by apply fail_command_moves. }
  split; [|done]. apply (rows_move_ok s); [done..|]. intros id r' Hr' [Hf Hrt].
  rewrite Er in Hr'. destruct (mb_records s !! id) as [r|] eqn:Hr; [|done]. injection Hr' as <-.
  destruct (stale_record current r) eqn:E; [|apply (moved_quiet _ _ M); by apply (bk_quiet _ Hok id r)].
  apply andb_true_iff in E as [Hw _].
  intros c k' Hk' Hid. rewrite Ec in Hk'. apply update_where_lookup in Hk' as (k & Hk & ->).
  assert (mc_broadcast_id k = id) as Hb by (by destruct (_ && _) in Hid).
  destruct (bk_command _ Hok _ _ Hk) as [_ (r0 & Hr0 & Hw0)].
  rewrite Hb, Hr in Hr0. injection Hr0 as <-. rewrite <- Hw0, Hw. cbn.
  by destruct (is_open (mc_state k)) eqn:Ho.
Qed.

Lemma reconcile_ok parse now id worker generation grant code s s' out :
  bcast_ok s → reconcile_terminal parse now id worker generation grant code s = (s', out) →
  bcast_ok s' ∧ rows_move s s'.
Proof.
  intros Hok H. unfold reconcile_terminal in H.
  destruct (validate_broadcast_id _ _); [|by simplify_eq].
  destruct (mb_records s !! id) as [r|] eqn:Hr; [|by simplify_eq].
  destruct (_ || _); [by simplify_eq|]. injection H as <- _.
  split; [|by eapply put_record_moves]. eapply put_record_ok; [done..|]. by intros [_ [? ?]].
Qed.

(** A cleanup is finalized exactly for a failed broadcast of the worker, under its grant. *)
Definition cleans (s : MemoryBroadcastState) (c : cleanup) (r : DurableBroadcastRecord) : Prop :=
  mb_records s !! c.1.1 = Some r ∧ db_state r = BroadcastState.Failed ∧
  ds_worker (dr_specification r) = c.1.2 ∧ record_grant r = c.2.

Lemma finalize_cases parse now id worker grant s s' out :
  finalize_failed_cleanup parse now id worker grant s = (s', out) →
  (s' = s ∧ out ≠ Ok true) ∨
  ∃ r, cleans s (id, worker, grant) r ∧ out = Ok true ∧
    s' = s <| mb_records := <[id := r <| db_runtime := None |> <| db_updated_at := now |>]>
                              (mb_records s) |>.
Proof.
  intros H. unfold finalize_failed_cleanup in H.
  destruct (validate_broadcast_id _ _); [|left; by simplify_eq].
  destruct (mb_records s !! id) as [r|] eqn:Hr; [|left; by simplify_eq].
  destruct (_ || _) eqn:E; [left; by simplify_eq|]. injection H as <- <-. right. exists r.
  bool_hyps. done.
Qed.

Lemma finalize_ok parse now id worker grant s s' out :
  bcast_ok s → finalize_failed_cleanup parse now id worker grant s = (s', out) →
  bcast_ok s' ∧ rows_move s s'.
Proof.
  intros Hok H. apply finalize_cases in H as [[-> _]|(r & (Hr & _) & _ & ->)]; [done|].
  split; [|by eapply put_record_moves]. eapply put_record_ok; [done..|]. by intros [_ [? ?]].
Qed.

(** ** New rows *)

(** A new command of a stored broadcast, unless one of its kind exists. *)
Lemma push_command_ok s c id worker kind at_ r :
  bcast_ok s → mb_commands s !! c = None → mb_records s !! id = Some r →
  ds_worker (dr_specification r) = worker → ¬ owes r →
  (∀ c' k, mb_commands s !! c' = Some k → mc_broadcast_id k = id → mc_kind k ≠ kind) →
  bcast_ok (s <| mb_commands := <[c := pending_command c id worker kind at_]> (mb_commands s) |>).
Proof.
  intros [R C U Q B D] Hc Hr Hw Ho Hnew. split; try done; cbn.
  - intros c' k [[<- <-]|[_ Hk]]%lookup_insert_Some; [|by apply C]. cbn. eauto.
  - intros c1 k1 c2 k2 [[<- <-]|[_ H1]]%lookup_insert_Some [[<- <-]|[_ H2]]%lookup_insert_Some Hb Hk;
      cbn in *; [done|by destruct (Hnew c2 k2)|by destruct (Hnew c1 k1)|by eapply U].
  - intros id' r' Hr' Ho' c' k Hk. cbn in Hk.
    apply lookup_insert_Some in Hk as [[<- <-]|[_ Hk]]; [|by eapply Q].
    cbn. intros ->. rewrite Hr in Hr'. by injection Hr' as <-.
Qed.

Lemma commands_move_insert s c k :
  mb_commands s !! c = None → commands_move s (s <| mb_commands := <[c := k]> (mb_commands s) |>).
Proof.
  intros Hc c' k' Hk'. exists k'. split; [|done]. cbn. by rewrite lookup_insert_ne by congruence.
Qed.

#[export] Instance commands_move_refl : Reflexive commands_move.
Proof. intros s c k Hk. by exists k. Qed.

#[export] Instance commands_move_trans : Transitive commands_move.
Proof.
  intros x y z H1 H2 c k Hk. destruct (H1 _ _ Hk) as (k1 & Hk1 & M1).
  destruct (H2 _ _ Hk1) as (k2 & Hk2 & M2). exists k2. split; [done|]. by etrans.
Qed.

Lemma start_ok parse checked_at now c spec identity max s s' out :
  bcast_ok s → mb_commands s !! c = None → mb_records s !! ds_broadcast_id spec = None →
  enqueue_start parse checked_at now c spec identity max s = (s', out) →
  bcast_ok s' ∧ commands_move s s'.
Proof.
  intros Hok Hc Hid H. unfold enqueue_start in H.
  destruct (validate_specification _ _ _); [|by simplify_eq].
  destruct (mb_create_receipts s !! _) as [[digest id]|] eqn:Hrec;
    [by destruct (_ !=? _) in H; simplify_eq|].
  destruct (_ || _); [by simplify_eq|]. injection H as <- _. pose proof Hok as [R C U Q B D].
  set (r := {| dr_specification := spec |}). set (id := ds_broadcast_id spec) in *.
  set (s1 := s <| mb_create_receipts := <[(ds_tenant_id spec, bi_idempotency_digest identity) :=
                    (bi_request_digest identity, id)]> (mb_create_receipts s) |>
               <| mb_records := <[id := r]> (mb_records s) |>).
  assert (Hkeep : ∀ id' r', mb_records s !! id' = Some r' → mb_records s1 !! id' = Some r').
  { intros id' r' Hr'. subst s1. cbn. by rewrite lookup_insert_ne by congruence. }
  assert (Hnone : ∀ c' k, mb_commands s !! c' = Some k → mc_broadcast_id k ≠ id).
  { intros c' k Hk Hb. destruct (C _ _ Hk) as [_ (r0 & Hr0 & _)]. congruence. }
  assert (Hok1 : bcast_ok s1).
  { split.
    - subst s1. cbn. intros id' r' [[<- <-]|[_ Hr']]%lookup_insert_Some; [done|by apply R].
    - intros c' k Hk. destruct (C _ _ Hk) as [Ec (r0 & Hr0 & Hw)]. eauto.
    - apply U.
    - subst s1. cbn. intros id' r' [[<- <-]|[_ Hr']]%lookup_insert_Some Ho; [by destruct Ho as [? _]|].
      by apply (Q _ _ Hr').
    - intros key d id' Hr'. cbn in Hr'. apply lookup_insert_Some in Hr' as [[<- [= <- <-]]|[_ Hr']].
      + exists r. split; [apply lookup_insert_eq|done].
      + destruct (B _ _ _ Hr') as (r0 & Hr0 & Ht). eauto.
    - intros key d id' Hr'. destruct (D _ _ _ Hr') as (r0 & Hr0 & Ht). eauto. }
  split; [|exact (commands_move_insert s c _ Hc)].
  apply (push_command_ok s1 c id _ Start now r); [done|done|apply lookup_insert_eq|done|by intros [? _]|].
  intros c' k Hk Hb. by destruct (Hnone c' k).
Qed.

Lemma push_stop_ok s c id worker at_ r :
  bcast_ok s → mb_commands s !! c = None → mb_records s !! id = Some r →
  ds_worker (dr_specification r) = worker → ¬ owes r →
  bcast_ok (push_stop c id worker at_ s) ∧ commands_move s (push_stop c id worker at_ s) ∧
  mb_records (push_stop c id worker at_ s) = mb_records s.
Proof.
  intros Hok Hc Hr Hw Ho. unfold push_stop. destruct (existsb _ _) eqn:E; [done|].
  split_and!; [|by apply commands_move_insert|done]. eapply push_command_ok; [done..|].
  intros c' k Hk Hb Hkd. apply not_true_iff_false in E. apply E, existsb_exists. exists k.
  split; [apply list_elem_of_In, values_elem; eauto|]. by rewrite Hb, Hkd, !bool_decide_eq_true_2.
Qed.

Lemma delete_receipt_ok s key digest id r :
  bcast_ok s → mb_records s !! id = Some r → ds_tenant_id (dr_specification r) = key.1 →
  bcast_ok (s <| mb_delete_receipts := <[key := (digest, id)]> (mb_delete_receipts s) |>).
Proof.
  intros [R C U Q B D] Hr Ht. split; try done. cbn.
  intros key' d id' [[<- [= <- <-]]|[_ Hr']]%lookup_insert_Some; [eauto|by eapply D].
Qed.

Lemma delete_failed_ok s id r r' now :
  bcast_ok s → mb_records s !! id = Some r → delete_failed r now = Ok r' →
  bcast_ok (s <| mb_records := <[id := r']> (mb_records s) |>) ∧
  dr_specification r' = dr_specification r.
Proof.
  unfold delete_failed. intros Hok Hr H. destruct (is_some _); [done|]. injection H as <-.
  split; [|done]. eapply put_record_ok; [done..|]. by intros [? _].
Qed.

Lemma stop_record_ok now at_ c id r s s' :
  bcast_ok s → mb_commands s !! c = None → mb_records s !! id = Some r →
  stop_record now at_ c id r s = Ok s' →
  bcast_ok s' ∧ commands_move s s' ∧
  ∃ r', mb_records s' !! id = Some r' ∧ dr_specification r' = dr_specification r.
Proof.
  intros Hok Hc Hr H. unfold stop_record in H.
  destruct (db_state r ==? BroadcastState.Failed) eqn:Ef.
  { apply result_bind_ok in H as (r' & Hd & [= <-]).
    destruct (delete_failed_ok s id r r' now Hok Hr Hd) as [Hok' E].
    split_and!; [done|exact (commands_move_refl s)|]. exists r'. split; [apply lookup_insert_eq|done]. }
  destruct (_ !=? _); [|injection H as <-; by eauto using commands_move_refl]. injection H as <-.
  set (r' := r <| db_state := BroadcastState.Deleting |> <| db_updated_at := now |>).
  assert (Hok' : bcast_ok (s <| mb_records := <[id := r']> (mb_records s) |>))
    by (eapply put_record_ok; [done..|]; by intros [? _]).
  destruct (push_stop_ok _ c id (ds_worker (dr_specification r)) at_ r' Hok' Hc) as (H1 & H2 & H3);
    [apply lookup_insert_eq|done|by intros [? _]|].
  split_and!; [done|exact H2|]. exists r'. rewrite H3. split; [apply lookup_insert_eq|done].
Qed.

Lemma stop_ok parse now at_ c tenant id identity s s' out :
  bcast_ok s → mb_commands s !! c = None →
  enqueue_stop parse now at_ c tenant id identity s = (s', out) →
  bcast_ok s' ∧ commands_move s s'.
Proof.
  intros Hok Hc H. unfold enqueue_stop in H.
  destruct (validate_broadcast_id _ _); [|by simplify_eq].
  destruct (mb_delete_receipts s !! _) as [[digest rid]|].
  - destruct (_ !=? _); [by simplify_eq|].
    destruct (mb_records s !! rid) as [r|] eqn:Hr; [|by simplify_eq].
    destruct (_ ==? _); [|by simplify_eq].
    destruct (delete_failed r now) as [r'|] eqn:Hd; [|by simplify_eq].
    injection H as <- _. split; [by destruct (delete_failed_ok s rid r r' now Hok Hr Hd)|].
    exact (commands_move_refl s).
  - destruct (mb_records s !! id) as [r|] eqn:Hr; [|by simplify_eq].
    destruct (_ !=? _) eqn:Et; [by simplify_eq|].
    destruct (stop_record _ _ _ _ _ _) as [s1|] eqn:Hs; [|by simplify_eq].
    destruct (stop_record_ok _ _ _ _ _ _ _ Hok Hc Hr Hs) as (Hok1 & Hm & r' & Hr' & E).
    injection H as <- _. split; [|exact Hm]. eapply delete_receipt_ok; [done..|].
    rewrite E. cbn. by bool_hyps.
Qed.

(** ** Every run *)

Lemma bcast_step_ok `{Chrono} l s s' :
  bcast_ok s → bcast_step l s s' → bcast_ok s' ∧ commands_move s s'.
Proof.
  intros Hok Hst. assert (Hrows : bcast_ok s' ∧ rows_move s s' → bcast_ok s' ∧ commands_move s s')
    by (intros [? ?]; eauto using rows_commands_move).
  destruct Hst.
  - by eapply start_ok.
  - by eapply stop_ok.
  - apply Hrows. edestruct claim_spec as (M & Er & _); [done..|]. eauto using move_commands_ok.
  - apply Hrows. by eapply complete_ok.
  - apply Hrows. by eapply fail_worker_ok.
  - apply Hrows. destruct (fail_stale_spec iter readings current s Hok H0) as (s1 & rs & E & Ht).
    assert (s' = s1) as -> by congruence. by eapply fail_stale_ok.
  - apply Hrows. by eapply reconcile_ok.
  - apply Hrows. by eapply finalize_ok.
Qed.

Lemma bcast_run_ok `{Chrono} s s' :
  rtc any_step s s' → bcast_ok s → bcast_ok s' ∧ commands_move s s'.
Proof.
  induction 1 as [|s s1 s2 [l Hst] _ IH]; [done|]. intros Hok.
  destruct (bcast_step_ok l s s1 Hok Hst) as [Hok1 M1]. destruct (IH Hok1) as [Hok2 M2].
  split; [done|]. by etrans.
Qed.

Lemma reachable_bcast_ok `{Chrono} s : bcast_reachable s → bcast_ok s.
Proof. intros Hr. by apply (bcast_run_ok _ _ Hr), bcast_ok_default. Qed.
