(* ===== verification/BroadcastThms.v ===== *)
(** What the broadcast command repository promises: a claim is completed at most once, a failed
    broadcast cannot be deleted before its grant is cleaned up, and a restarted worker fences off
    everything of its previous incarnation. *)

From S2P Require Import Prelude RustText DomainTypes CoordModel Domain RepoTypes.
From S2P Require Import BroadcastCommands BroadcastInv.
From stdpp Require Import options.

(** ** A sample run *)

Definition sample_parse (s : rstr) : option Uuid := Some (len s).
Definition sample_lease : WorkerLease := {| wl_worker_id := 7; wl_fence := 1%N |}.
Definition next_lease : WorkerLease := {| wl_worker_id := 7; wl_fence := 2%N |}.
Definition sample_spec : DurableBroadcastSpec :=
  {| ds_broadcast_id := str "b1"; ds_tenant_id := str "t"; ds_call_id := 1; ds_source_leg_id := 2;
     ds_source_binding_generation := 1%N; ds_worker := sample_lease; ds_transport := UctpQuic;
     ds_language := None; ds_sanitized_events := false; ds_expires_at := 1000 |}.
Definition sample_identity (n : Z) : BroadcastOperationIdentity :=
  {| bi_idempotency_digest := n; bi_request_digest := n + 100 |}.
Definition sample_runtime : DurableBroadcastRuntime :=
  {| br_endpoint := []; br_protocol := []; br_lifecycle := []; br_health := [];
     br_sanitized_events := false; br_grant_generation := Some 55 |}.
Definition clock (t : DateTime) (_ : rstr) : DateTime := t.

Definition bcast_started : MemoryBroadcastState :=
  (enqueue_start sample_parse 1 1 11 sample_spec (sample_identity 1) 4 MemoryBroadcastState_default).1.
Definition bcast_claimed : MemoryBroadcastState :=
  (@claim chrono_sample 2 sample_lease (from_secs 30) 16 bcast_started).1.
Definition start_claim : ClaimedBroadcastCommand :=
  {| bc_command_id := 11; bc_kind := Start; bc_claim_generation := 1;
     bc_record := {| dr_specification := sample_spec; db_state := BroadcastState.Pending;
                     db_runtime := None; db_failure_code := None; db_created_at := 1;
                     db_updated_at := 1 |} |}.
Definition bcast_active : MemoryBroadcastState :=
  (complete 3 start_claim (CommandResult.Started sample_runtime) bcast_claimed).1.
Definition bcast_failed : MemoryBroadcastState :=
  (fail_worker_broadcasts (clock 4) sample_lease (str "worker_drained") bcast_active).1.

Lemma reachable_claimed : @bcast_reachable chrono_sample bcast_claimed.
Proof.
  eapply rtc_l; [eexists; eapply (@step_start chrono_sample sample_parse 1 1 11 sample_spec
    (sample_identity 1) 4); [done|done|apply surjective_pairing]|].
  apply rtc_once. eexists. eapply step_claim, surjective_pairing.
Qed.

Lemma reachable_started : @bcast_reachable chrono_sample bcast_started.
Proof.
  apply rtc_once. eexists. eapply (@step_start chrono_sample sample_parse 1 1 11 sample_spec
    (sample_identity 1) 4); [done|done|apply surjective_pairing].
Qed.

Lemma reachable_active : @bcast_reachable chrono_sample bcast_active.
Proof.
  eapply rtc_r; [apply reachable_claimed|]. eexists. eapply step_complete, surjective_pairing.
Qed.

Lemma reachable_failed : @bcast_reachable chrono_sample bcast_failed.
Proof.
  eapply rtc_r; [apply reachable_active|]. eexists. eapply step_fail_worker, surjective_pairing.
Qed.

(** ** Claims *)

(** A claim that cannot be completed any more. *)
Definition dead_claim (s : MemoryBroadcastState) (cl : ClaimedBroadcastCommand) : Prop :=
  ∃ k, mb_commands s !! bc_command_id cl = Some k ∧
    (is_open (mc_state k) = false ∨ bc_claim_generation cl < mc_claim_generation k).

Lemma dead_claim_stays s s' cl : commands_move s s' → dead_claim s cl → dead_claim s' cl.
Proof.
  intros M (k & Hk & Hd). destruct (M _ _ Hk) as (k' & Hk' & [_ G S _]). exists k'. split; [done|].
  destruct Hd as [Ho|Hlt]; [left; by rewrite (S Ho)|right; lia].
Qed.

Lemma dead_claim_stale now s cl outcome :
  dead_claim s cl → complete now cl outcome s = (s, Err BroadcastError.StaleClaim).
Proof.
  intros (k & Hk & Hd). apply complete_stale. intros (k' & Hk' & Hs & Hg & _).
  rewrite Hk in Hk'. injection Hk' as <-. destruct Hd as [Ho|Hlt]; [by rewrite Hs in Ho|lia].
Qed.

Lemma completed_is_dead now cl outcome s s' r :
  complete now cl outcome s = (s', Ok r) → dead_claim s' cl.
Proof.
  intros H. destruct (live_claim_dec s cl) as [Hl|Hl]; [|by rewrite complete_stale in H].
  destruct (complete_live now cl outcome s Hl) as (k & Hk & E). rewrite E in H.
  destruct (settle _ _) as [[[[st rst] rt] code]|] eqn:Hset; [|done]. cbv zeta in H.
  destruct (settle_settled _ _ _ _ _ _ Hset) as [Hst _]. cbn in H.
  destruct (mb_records s !! _); [|done]. injection H as <- _.
  eexists. split; [apply lookup_insert_eq|]. by left.
Qed.

Lemma claimed_is_live s s' cl : claimed_from s s' cl → live_claim s' cl.
Proof. intros [(k & k' & _ & Hk' & Hs & Hg & _ & Hkd & _)]. by exists k'. Qed.

(** C33. A command is settled by the worker that holds it, once.  A claim that was just granted can be
    completed by any result that fits its command.  Once it has been completed, or once the command
    has been granted again after the claim expired, completing it, whatever the result and however
    much later, is refused as stale and changes nothing. *)
Theorem broadcast_claim_completes_once `{Chrono} (s s1 : MemoryBroadcastState) (now : DateTime)
    (worker : WorkerLease) (ttl : Duration) (limit : N) (claims : list ClaimedBroadcastCommand)
    (cl : ClaimedBroadcastCommand) :
  bcast_reachable s → claim now worker ttl limit s = (s1, Ok claims) → cl ∈ claims →
  (∀ now' outcome, settle (bc_kind cl) outcome ≠ None →
     ∃ s' r, complete now' cl outcome s1 = (s', Ok r)) ∧
  (∀ s2 s3 s4, rtc any_step s1 s2 →
     (∃ now' outcome r, complete now' cl outcome s2 = (s3, Ok r)) ∨
     (∃ now' worker' ttl' limit' claims' cl',
        claim now' worker' ttl' limit' s2 = (s3, Ok claims') ∧ cl' ∈ claims' ∧
        bc_command_id cl' = bc_command_id cl) →
     rtc any_step s3 s4 →
     ∀ now' outcome, complete now' cl outcome s4 = (s4, Err BroadcastError.StaleClaim)).
Proof.
  intros Hok%reachable_bcast_ok Hc Hin.
  destruct (claim_spec _ _ _ _ _ _ _ Hok Hc) as (M & Er & Hall).
  pose proof (move_commands_ok _ _ Hok M Er) as Hok1.
  destruct (Hall _ eq_refl) as [_ Hcls]. destruct (Hcls cl Hin) as [Hcl _]. clear Hcls. split.
  - intros now' outcome Hset. pose proof (claimed_is_live _ _ _ Hcl) as Hl.
    destruct (complete_live now' cl outcome s1 Hl) as (k & Hk & ->).
    destruct (settle _ _) as [[[[st rst] rt] code]|]; [|done]. cbn.
    destruct (bk_command _ Hok1 _ _ Hk) as [_ (r & -> & _)]. eauto.
  - intros s2 s3 s4 Hrun Hover Hrun' now' outcome. apply dead_claim_stale.
    destruct (bcast_run_ok _ _ Hrun Hok1) as [Hok2 M2].
    assert (dead_claim s3 cl ∧ bcast_ok s3) as [Hd Hok3].
    { destruct Hover as [(n & o & r & E)|(n & w & t & l & cls & cl' & E & Hin' & Eid)].
      - split; [by eapply completed_is_dead|by eapply (complete_ok n cl o s2)].
      - destruct (claim_spec _ _ _ _ _ _ _ Hok2 E) as (M3 & Er3 & Hall3).
        split; [|by eapply (move_commands_ok s2)].
        destruct (Hall3 _ eq_refl) as [_ Hcls].
        destruct (Hcls cl' Hin') as [[(k & k' & Hk & Hk' & _ & _ & Hlt & _)] _].
        rewrite Eid in *. destruct Hcl as [(k0 & k1 & _ & Hk1 & _ & Hg1 & _)].
        destruct (M2 _ _ Hk1) as (k2 & Hk2 & [_ G2 _ _]). assert (k2 = k) as -> by congruence.
        exists k'. split; [done|right; lia]. }
    destruct (bcast_run_ok _ _ Hrun' Hok3) as [_ M4]. by eapply dead_claim_stays.
Qed.

Lemma broadcast_claim_completes_once_witness :
  complete 9 start_claim CommandResult.Stopped bcast_active =
    (bcast_active, Err BroadcastError.StaleClaim).
Proof.
  eapply (proj2 (@broadcast_claim_completes_once chrono_sample bcast_started bcast_claimed 2
    sample_lease (from_secs 30) 16 [start_claim] start_claim reachable_started
    ltac:(vm_compute; reflexivity) ltac:(apply list_elem_of_here)) bcast_claimed bcast_active).
  - done.
  - left. exists 3, (CommandResult.Started sample_runtime). eexists. vm_compute. reflexivity.
  - done.
Defined.

(** ** Cleanup before deletion *)

(** The record still owes the cleanup of the same grant. *)
Definition still_owes (r : DurableBroadcastRecord) (s : MemoryBroadcastState) (id : rstr) : Prop :=
  ∃ r', mb_records s !! id = Some r' ∧ dr_specification r' = dr_specification r ∧
    db_state r' = BroadcastState.Failed ∧ db_runtime r' = db_runtime r.

(** A step that does not finalize the given cleanup. *)
Definition step_without `{Chrono} (c : cleanup) : relation MemoryBroadcastState :=
  λ s s', ∃ l, bcast_step l s s' ∧ l ≠ Some c.

Lemma delete_owing r now :
  owes r → delete_failed r now = Err BroadcastError.InvalidTransition.
Proof. intros [_ [rt Hrt]]. unfold delete_failed. by rewrite Hrt. Qed.

Lemma stop_spares_owing parse now at_ c tenant i identity s s' out id r :
  mb_records s !! id = Some r → owes r →
  enqueue_stop parse now at_ c tenant i identity s = (s', out) → mb_records s' !! id = Some r.
Proof.
  intros Hr Ho H. unfold enqueue_stop in H.
  destruct (validate_broadcast_id _ _); [|by simplify_eq].
  destruct (mb_delete_receipts s !! _) as [[digest rid]|].
  - destruct (_ !=? _); [by simplify_eq|].
    destruct (mb_records s !! rid) as [r0|] eqn:Hr0; [|by simplify_eq].
    destruct (_ ==? _); [|by simplify_eq].
    destruct (delete_failed r0 now) as [r1|] eqn:Hd; [|by simplify_eq]. injection H as <- _. cbn.
    rewrite lookup_insert_ne; [done|]. intros ->. rewrite Hr in Hr0. injection Hr0 as <-.
    by rewrite delete_owing in Hd.
  - destruct (mb_records s !! i) as [r0|] eqn:Hr0; [|by simplify_eq].
    destruct (_ !=? _); [by simplify_eq|].
    destruct (stop_record _ _ _ _ _ _) as [s1|] eqn:Hs; [|by simplify_eq]. injection H as <- _. cbn.
    unfold stop_record in Hs. destruct (base.decide (i = id)) as [->|Hne].
    + rewrite Hr in Hr0. injection Hr0 as <-. destruct (Ho) as [Hf _]. rewrite Hf in Hs.
      rewrite bool_decide_eq_true_2 in Hs by done. by rewrite delete_owing in Hs.
    + destruct (_ ==? _); [apply result_bind_ok in Hs as (r1 & _ & [= <-])|].
      { cbn. by rewrite lookup_insert_ne. }
      destruct (_ !=? _); [|by simplify_eq]. injection Hs as <-. unfold push_stop.
      destruct (existsb _ _); cbn; by rewrite lookup_insert_ne.
Qed.

Lemma complete_spares_owing now cl outcome s s' out id r :
  bcast_ok s → mb_records s !! id = Some r → owes r →
  complete now cl outcome s = (s', out) → mb_records s' !! id = Some r.
Proof.
  intros Hok Hr Ho H. destruct (live_claim_dec s cl) as [Hl|Hl];
    [|rewrite complete_stale in H by done; by simplify_eq].
  destruct (complete_live now cl outcome s Hl) as (k & Hk & E). rewrite E in H.
  destruct Hl as (k0 & Hk0 & Hs & _). assert (k0 = k) as -> by congruence.
  assert (Hb : mc_broadcast_id k ≠ id).
  { intros Hb. pose proof (bk_quiet _ Hok _ _ Hr Ho _ _ Hk Hb) as Hq. by rewrite Hs in Hq. }
  destruct (settle _ _) as [[[[st rst] rt] code]|]; [|by simplify_eq]. cbn in H.
  destruct (mb_records s !! mc_broadcast_id k); simplify_eq; cbn; [|done].
  by rewrite lookup_insert_ne.
Qed.

Lemma owing_step `{Chrono} l s s' id r :
  bcast_ok s → mb_records s !! id = Some r → owes r → bcast_step l s s' →
  l ≠ Some (id, ds_worker (dr_specification r), record_grant r) → still_owes r s' id.
Proof.
  intros Hok Hr Ho Hst Hl. pose proof Ho as [Hf [rt Hrt]].
  assert (Hsame : mb_records s' !! id = Some r → still_owes r s' id) by (intros; by exists r).
  destruct Hst.
  - apply Hsame. unfold enqueue_start in *.
    destruct (validate_specification _ _ _); [|by simplify_eq].
    destruct (mb_create_receipts s !! _) as [[digest i]|];
      [by destruct (_ !=? _) in *; simplify_eq|].
    destruct (_ || _); simplify_eq; [done|]. cbn. by rewrite lookup_insert_ne by congruence.
  - apply Hsame. by eapply stop_spares_owing.
  - apply Hsame. edestruct claim_spec as (_ & -> & _); eauto.
  - apply Hsame. by eapply complete_spares_owing.
  - unfold fail_worker_broadcasts in *. simplify_eq. apply Hsame. cbn.
    apply update_where_lookup. exists r. split; [done|]. by rewrite Hf, andb_false_r.
  - destruct (fail_stale_spec iter readings current s Hok) as (s1 & rs & E & [Er _ _ _]); [done|].
    assert (s' = s1) as -> by congruence. unfold still_owes. rewrite Er, Hr. cbn.
    eexists. split; [done|]. by destruct (stale_record current r).
  - apply Hsame. unfold reconcile_terminal in *.
    destruct (validate_broadcast_id _ _); [|by simplify_eq].
    destruct (mb_records s !! id0) as [r0|] eqn:Hr0; [|by simplify_eq].
    destruct (_ || _) eqn:E; simplify_eq; [done|]. cbn. rewrite lookup_insert_ne; [done|].
    intros ->. assert (r0 = r) as -> by congruence. bool_hyps. congruence.
  - apply Hsame. apply finalize_cases in H0 as [[-> _]|(r0 & (Hr0 & _ & Hw & Hg) & -> & ->)]; [done|].
    cbn in *. rewrite lookup_insert_ne; [done|]. intros ->. assert (r0 = r) as -> by congruence.
    destruct Hl. by rewrite Hw, Hg.
Qed.

Lemma owing_run `{Chrono} s s' id r :
  bcast_ok s → mb_records s !! id = Some r → owes r →
  rtc (step_without (id, ds_worker (dr_specification r), record_grant r)) s s' →
  still_owes r s' id.
Proof.
  intros Hok Hr Ho Hrun. revert Hok.
  assert (Hs : still_owes r s id) by (exists r; split_and!; [done..|apply Ho|done]). clear Hr.
  induction Hrun as [|s s1 s2 (l & Hst & Hl) _ IH]; [done|]. intros Hok.
  destruct (bcast_step_ok _ _ _ Hok Hst) as [Hok1 _]. apply IH; [|done].
  destruct Hs as (r' & Hr' & Es & Ef & Er).
  assert (Ho' : owes r') by (split; [done|rewrite Er; apply Ho]).
  destruct (owing_step l s s1 id r' Hok Hr' Ho' Hst) as (r2 & H1 & H2 & H3 & H4).
  - unfold record_grant. rewrite Es, Er. exact Hl.
  - exists r2. split_and!; congruence.
Qed.

(** A failed broadcast cannot be deleted before its grant is revoked.  As long as the exact
    cleanup (broadcast, worker, grant generation) is not finalized, whatever else happens, the row
    stays failed and keeps its runtime, a delete request, first or repeated, is refused as an
    invalid transition and changes nothing, and the cleanup can be finalized, after which the
    delete succeeds. *)
Theorem failed_broadcast_keeps_its_grant `{Chrono} (s s' : MemoryBroadcastState) (id : rstr)
    (r : DurableBroadcastRecord) :
  bcast_reachable s → mb_records s !! id = Some r → owes r →
  rtc (step_without (id, ds_worker (dr_specification r), record_grant r)) s s' →
  still_owes r s' id ∧
  ∀ parse, validate_broadcast_id parse id = Ok () →
  ∀ now at_ command_id identity,
    let tenant := ds_tenant_id (dr_specification r) in
    let receipt := mb_delete_receipts s' !! ((tenant, bi_idempotency_digest identity) : ReceiptKey) in
    (receipt = None ∨ receipt = Some (bi_request_digest identity, id)) →
    enqueue_stop parse now at_ command_id tenant id identity s' =
      (s', Err BroadcastError.InvalidTransition) ∧
    ∃ s1 s2 o, finalize_failed_cleanup parse now id (ds_worker (dr_specification r)) (record_grant r) s'
        = (s1, Ok true) ∧
      enqueue_stop parse now at_ command_id tenant id identity s1 = (s2, Ok o) ∧
      db_state (bo_record o) = BroadcastState.Deleted.
Proof.
  intros Hok%reachable_bcast_ok Hr Ho Hrun. pose proof (owing_run _ _ _ _ Hok Hr Ho Hrun) as Hs.
  split; [done|]. destruct Hs as (r' & Hr' & Es & Ef & Er). intros parse Hv now at_ c identity tenant receipt Hrc.
  assert (Ho' : owes r') by (split; [done|rewrite Er; apply Ho]). split.
  - unfold enqueue_stop. rewrite Hv. unfold receipt, tenant in *. destruct Hrc as [Hrc|Hrc]; rewrite Hrc.
    + rewrite Hr', Es. rewrite bool_decide_eq_true_2 by done. cbn [negb].
      unfold stop_record. rewrite Ef. rewrite bool_decide_eq_true_2 by done. by rewrite delete_owing.
    + rewrite bool_decide_eq_true_2 by done. cbn [negb]. rewrite Hr', Ef.
      rewrite bool_decide_eq_true_2 by done. by rewrite delete_owing.
  - set (r1 := r' <| db_runtime := None |> <| db_updated_at := now |>).
    exists (s' <| mb_records := <[id := r1]> (mb_records s') |>).
    assert (Hfin : finalize_failed_cleanup parse now id (ds_worker (dr_specification r))
        (record_grant r) s' = (s' <| mb_records := <[id := r1]> (mb_records s') |>, Ok true)).
    { unfold finalize_failed_cleanup. rewrite Hv, Hr', Ef, Es. unfold record_grant. rewrite Er.
      by rewrite !bool_decide_eq_true_2. }
    assert (Hd : delete_failed r1 now = Ok (r1 <| db_state := BroadcastState.Deleted |>
        <| db_updated_at := now |>)) by done.
    assert (H1 : db_state r1 = BroadcastState.Failed ∧ dr_specification r1 = dr_specification r) by done.
    destruct H1 as [Ef1 Es1]. clearbody r1. rewrite Hfin. unfold enqueue_stop. rewrite Hv.
    change (mb_delete_receipts (s' <| mb_records := <[id := r1]> (mb_records s') |>))
      with (mb_delete_receipts s').
    change (mb_records (s' <| mb_records := <[id := r1]> (mb_records s') |>))
      with (<[id := r1]> (mb_records s')).
    rewrite lookup_insert_eq. unfold receipt, tenant in *. destruct Hrc as [Hrc|Hrc]; rewrite Hrc.
    + rewrite Es1. rewrite bool_decide_eq_true_2 by done. cbn [negb].
      unfold stop_record. rewrite Ef1, bool_decide_eq_true_2 by done. rewrite Hd. cbn.
      rewrite lookup_insert_eq. cbn. eauto.
    + rewrite lookup_insert_eq, Ef1, !bool_decide_eq_true_2 by done. cbn [negb]. rewrite Hd. eauto.
Qed.

Lemma failed_broadcast_keeps_its_grant_witness :
  enqueue_stop sample_parse 9 9 12 (str "t") (str "b1") (sample_identity 2) bcast_failed =
    (bcast_failed, Err BroadcastError.InvalidTransition).
Proof.
  destruct (mb_records bcast_failed !! str "b1") as [r|] eqn:Hr; [|by vm_compute in Hr].
  assert (Ho : owes r ∧ ds_tenant_id (dr_specification r) = str "t").
  { vm_compute in Hr. injection Hr as <-. repeat split. by eexists. }
  destruct Ho as [Ho Ht].
  destruct (@failed_broadcast_keeps_its_grant chrono_sample bcast_failed bcast_failed (str "b1") r
    reachable_failed Hr Ho ltac:(done)) as [_ Hd].
  rewrite <- Ht. apply (Hd sample_parse ltac:(vm_compute; reflexivity)).
  left. rewrite Ht. vm_compute. reflexivity.
Defined.

(** ** Takeover by a new incarnation *)

(** A restarted worker takes over cleanly.  The takeover cannot fail.  It returns exactly the
    broadcasts of the earlier incarnations of the worker that were live or still owed a cleanup, all
    of them failed with their runtime kept; afterwards no broadcast of an earlier incarnation holds
    capacity, broadcasts and commands of every other lease are untouched, and no claim an earlier
    incarnation ever held can be completed again. *)
Theorem takeover_fences_old_incarnations `{Chrono} (s s' : MemoryBroadcastState)
    (iter : gmap rstr DurableBroadcastRecord → list DurableBroadcastRecord)
    (readings : rstr → DateTime) (current : WorkerLease)
    (out : result BroadcastCommandError (list DurableBroadcastRecord)) :
  bcast_reachable s → iter (mb_records s) ≡ₚ values (mb_records s) →
  fail_stale_worker_broadcasts iter readings current s = (s', out) →
  (∃ rs, out = Ok rs ∧ ∀ r', r' ∈ rs ↔
     ∃ id r, mb_records s !! id = Some r ∧ stale_worker current (ds_worker (dr_specification r)) = true ∧
       (occupies (db_state r) = true ∨
        db_failure_code r = Some stale_worker_fence ∧ is_Some (db_runtime r)) ∧
       mb_records s' !! id = Some r' ∧ db_state r' = BroadcastState.Failed ∧
       db_runtime r' = db_runtime r ∧ dr_specification r' = dr_specification r) ∧
  (∀ id r', mb_records s' !! id = Some r' →
     if stale_worker current (ds_worker (dr_specification r')) then occupies (db_state r') = false
     else mb_records s !! id = Some r') ∧
  (∀ c k, mb_commands s !! c = Some k →
     if stale_worker current (mc_worker k)
     then ∀ cl s2 now outcome, bc_command_id cl = c → rtc any_step s' s2 →
       complete now cl outcome s2 = (s2, Err BroadcastError.StaleClaim)
     else mb_commands s' !! c = Some k).
Proof.
  intros Hok%reachable_bcast_ok Hi E.
  destruct (fail_stale_spec iter readings current s Hok Hi) as (s1 & rs & E1 & T).
  assert (s1 = s' ∧ out = Ok rs) as [-> ->] by (split; congruence).
  destruct (fail_stale_ok _ _ _ _ _ Hok T) as [Hok' M]. destruct T as [Er Ec _ Hrows]. split_and!.
  - exists rs. split; [done|]. intros r'. rewrite Hrows. split; intros (id & r & Hr & Hst).
    + destruct Hst as [Hst Hr']. exists id, r. rewrite Hr'. rewrite Er, Hr in Hr'. cbn in Hr'.
      rewrite Hst in Hr'. injection Hr' as <-. unfold stale_record in Hst. bool_hyps.
      split_and!; try done. destruct H1; bool_hyps; [by left|right]. by rewrite <- is_some_true.
    + destruct Hst as (Hst & Hlive & Hr' & _). exists id, r. split_and!; try done.
      unfold stale_record. rewrite Hst. apply orb_true_iff.
      destruct Hlive as [->|[-> Hrt%is_some_true]]; [by left|right]. by rewrite Hrt, bool_decide_eq_true_2.
  - intros id r' Hr'. rewrite Er in Hr'. destruct (mb_records s !! id) as [r|] eqn:Hr; [|done].
    cbn in Hr'. injection Hr' as <-. destruct (stale_record current r) eqn:Hst.
    + unfold stale_record in Hst. bool_hyps. cbn. by rewrite H0.
    + destruct (stale_worker _ _) eqn:Hw; [|done]. unfold stale_record in Hst. rewrite Hw in Hst.
      by apply orb_false_iff in Hst as [? _].
  - intros c k Hk. destruct (stale_worker current (mc_worker k)) eqn:Hw.
    + intros cl s2 now outcome <- Hrun. apply dead_claim_stale.
      eapply dead_claim_stays; [by apply (bcast_run_ok _ _ Hrun)|].
      unfold dead_claim. rewrite Ec. unfold update_where. rewrite lookup_fmap, Hk. cbn. rewrite Hw. cbn.
      eexists. split; [done|]. left. by destruct (is_open (mc_state k)) eqn:Ho.
    + rewrite Ec. apply update_where_lookup. exists k. by rewrite Hw.
Qed.

Definition bcast_taken_over : MemoryBroadcastState :=
  (fail_stale_worker_broadcasts values (clock 6) next_lease bcast_claimed).1.

Lemma takeover_fences_old_incarnations_witness :
  complete 9 start_claim (CommandResult.Started sample_runtime) bcast_taken_over =
    (bcast_taken_over, Err BroadcastError.StaleClaim).
Proof.
  destruct (@takeover_fences_old_incarnations chrono_sample bcast_claimed bcast_taken_over values
    (clock 6) next_lease _ reachable_claimed ltac:(done) ltac:(apply surjective_pairing)) as (_ & _ & Hc).
  destruct (mb_commands bcast_claimed !! 11) as [k|] eqn:Hk; [|by vm_compute in Hk].
  pose proof (Hc 11 k Hk) as Hs. vm_compute in Hk. injection Hk as <-. cbn in Hs. eapply Hs; done.
Defined.

(** ** A start reported after the stop

    The repository accepts results in any order: a start that is reported after its broadcast was
    stopped and deleted makes the broadcast active again, and since its only stop command is
    already settled, the next delete leaves it in the deleting state with nothing to claim. *)
Definition bcast_deleted : MemoryBroadcastState :=
  let s := (enqueue_stop sample_parse 4 4 12 (str "t") (str "b1") (sample_identity 2) bcast_claimed).1 in
  let '(s, claims) := @claim chrono_sample 5 sample_lease (from_secs 30) 16 s in
  match claims with
  | Ok [stop] => (complete 6 stop CommandResult.Stopped s).1
  | _ => s
  end.
Definition bcast_revived : MemoryBroadcastState :=
  (complete 7 start_claim (CommandResult.Started sample_runtime) bcast_deleted).1.
Definition bcast_stuck : MemoryBroadcastState :=
  (enqueue_stop sample_parse 8 8 13 (str "t") (str "b1") (sample_identity 3) bcast_revived).1.

Lemma late_start_revives_a_deleted_broadcast :
  db_state <$> mb_records bcast_deleted !! str "b1" = Some BroadcastState.Deleted ∧
  db_state <$> mb_records bcast_revived !! str "b1" = Some BroadcastState.Active ∧
  db_state <$> mb_records bcast_stuck !! str "b1" = Some BroadcastState.Deleting ∧
  forallb (λ k, negb (is_open (mc_state k))) (values (mb_commands bcast_stuck)) = true.
Proof. vm_compute. done. Qed.
