(* ===== verification/BroadcastExecutor.v ===== *)
(** The worker's side of durable broadcasts: reporting results, and admitting listeners. *)

From S2P Require Import Prelude RustText DomainTypes Domain CoordModel RepoTypes BroadcastCommands.
From S2P Require Import BroadcastInv BroadcastThms.
From stdpp Require Import options.

(** ** Reporting a result *)

#[export] Instance DurableBroadcastSpec_eq : EqDecision DurableBroadcastSpec.
Proof. solve_decision. Defined.

Definition completion_is_visible (claim : ClaimedBroadcastCommand)
    (outcome : BroadcastCommandResult) (record : DurableBroadcastRecord) : bool :=
  if dr_specification record !=? dr_specification (bc_record claim) then false
  else
  match outcome with
  | CommandResult.Started expected =>
      (db_state record ==? BroadcastState.Active)
      && is_some_and (λ runtime,
           (br_grant_generation runtime ==? br_grant_generation expected)
           && (br_endpoint runtime ==? br_endpoint expected)
           && (br_protocol runtime ==? br_protocol expected)) (db_runtime record)
  | CommandResult.Stopped =>
      (db_state record ==? BroadcastState.Deleted) && is_none (db_runtime record)
  | CommandResult.Failed code =>
      (db_state record ==? BroadcastState.Failed) && (db_failure_code record ==? Some code)
  end.

(** [matches!(record.state, Pending | Deleting)]. *)
Definition unsettled (state : DurableBroadcastState) : bool :=
  match state with BroadcastState.Pending | BroadcastState.Deleting => true | _ => false end.

(** The record shows the reported result of the command. *)
Inductive shows (claim : ClaimedBroadcastCommand) (record : DurableBroadcastRecord)
    : BroadcastCommandResult → Prop :=
| shows_started expected runtime :
    dr_specification record = dr_specification (bc_record claim) →
    db_state record = BroadcastState.Active → db_runtime record = Some runtime →
    br_grant_generation runtime = br_grant_generation expected →
    br_endpoint runtime = br_endpoint expected → br_protocol runtime = br_protocol expected →
    shows claim record (CommandResult.Started expected)
| shows_stopped :
    dr_specification record = dr_specification (bc_record claim) →
    db_state record = BroadcastState.Deleted → db_runtime record = None →
    shows claim record CommandResult.Stopped
| shows_failed code :
    dr_specification record = dr_specification (bc_record claim) →
    db_state record = BroadcastState.Failed → db_failure_code record = Some code →
    shows claim record (CommandResult.Failed code).

Lemma visible_shows claim outcome record :
  completion_is_visible claim outcome record = true ↔ shows claim record outcome.
Proof.
  unfold completion_is_visible. case_bool_decide as Es; cbn.
  2: { split; [done|]. by intros []. }
  destruct outcome as [expected| |code]; rewrite ?andb_true_iff, ?bool_decide_eq_true.
  - destruct (db_runtime record) as [rt|] eqn:Er; cbn; rewrite ?andb_true_iff, ?bool_decide_eq_true;
      (split; [|inversion 1; naive_solver]); [|naive_solver].
    intros (? & (? & ?) & ?). by eapply shows_started.
  - split; [|by inversion 1; rewrite H2]. intros [? ?]. constructor; [done|done|].
    by destruct (db_runtime record).
  - split; [|by inversion 1]. intros [? ?]. by constructor.
Qed.

(** The command of the broadcast is decided. *)
Definition decided (state : DurableBroadcastState) : Prop :=
  state ≠ BroadcastState.Pending ∧ state ≠ BroadcastState.Deleting.

Lemma unsettled_decided state : unsettled state = false ↔ decided state.
Proof. unfold decided. destruct state; naive_solver. Qed.

(** One round of the loop: what other tasks do to the repository before the completion and before
    the lookup, the clock reading of the completion, and whether the sleep at the end of the round
    is cut short by the cancellation. *)
Record round := {
  rd_before_complete : MemoryBroadcastState → MemoryBroadcastState;
  rd_now : DateTime;
  rd_before_get : MemoryBroadcastState → MemoryBroadcastState;
  rd_cancelled : bool;
}.

(** [complete_broadcast_command] on the given rounds: the outer [None] means that the rounds are
    used up while the loop is still going. *)
Fixpoint complete_broadcast_command (parse_str : rstr → option Uuid) (rounds : list round)
    (claim : ClaimedBroadcastCommand) (outcome : BroadcastCommandResult)
    (state : MemoryBroadcastState)
    : MemoryBroadcastState * option (option DurableBroadcastRecord) :=
  match rounds with
  | [] => (state, None)
  | rd :: rounds =>
      let specification := dr_specification (bc_record claim) in
      match complete (rd_now rd) claim outcome (rd_before_complete rd state) with
      | (state, Ok record) => (state, Some (Some record))
      | (state, Err _) =>
          let state := rd_before_get rd state in
          let again :=
            if rd_cancelled rd then (state, Some None)
            else complete_broadcast_command parse_str rounds claim outcome state in
          match get parse_str (ds_tenant_id specification) (ds_broadcast_id specification) state with
          | Ok (Some record) =>
              if completion_is_visible claim outcome record then (state, Some (Some record))
              else if negb (unsettled (db_state record)) then (state, Some (Some record))
              else again
          | Ok None => (state, Some None)
          | Err _ => again
          end
      end
  end.

(** Other tasks only call the repository. *)
Definition benign `{Chrono} (rd : round) : Prop :=
  ∀ s, rtc any_step s (rd_before_complete rd s) ∧ rtc any_step s (rd_before_get rd s).

Lemma get_record parse tenant id s r :
  get parse tenant id s = Ok (Some r) ↔
  validate_broadcast_id parse id = Ok () ∧ mb_records s !! id = Some r ∧
  ds_tenant_id (dr_specification r) = tenant.
Proof.
  unfold get. rewrite bind_unit_ok. split.
  - intros [Hv H]. split; [done|]. destruct (mb_records s !! id) as [r0|]; [|done]. cbn in H.
    case_bool_decide; [|done]. by injection H as <-.
  - intros (Hv & -> & Ht). split; [done|]. cbn. by rewrite bool_decide_eq_true_2.
Qed.

(** The record a completion writes is the visible result of its claim. *)
Lemma completed_is_visible now cl outcome s s' r :
  complete now cl outcome s = (s', Ok r) →
  (∀ k, mb_commands s !! bc_command_id cl = Some k →
     ∃ r0, mb_records s !! mc_broadcast_id k = Some r0 ∧
       dr_specification r0 = dr_specification (bc_record cl)) →
  completion_is_visible cl outcome r = true.
Proof.
  intros Hc Hspec. destruct (live_claim_dec s cl) as [Hl|Hl]; [|by rewrite complete_stale in Hc].
  destruct (complete_live now cl outcome s Hl) as (k & Hk & E). rewrite E in Hc. clear E.
  destruct (Hspec k Hk) as (r0 & Hr0 & Es).
  destruct (settle _ _) as [[[[st rst] rt] code]|] eqn:Hset; [|done]. cbn in Hc. rewrite Hr0 in Hc.
  injection Hc as _ <-. unfold completion_is_visible. cbn [dr_specification].
  destruct outcome, (bc_kind cl); cbn in Hset; simplify_eq; cbn; rewrite Es, bool_decide_eq_true_2 by done;
    cbn; by rewrite ?bool_decide_eq_true_2.
Qed.

(** The command of a granted claim keeps naming the broadcast the claim was granted for. *)
Definition names_record (s : MemoryBroadcastState) (cl : ClaimedBroadcastCommand) : Prop :=
  ∃ k r, mb_commands s !! bc_command_id cl = Some k ∧ mb_records s !! mc_broadcast_id k = Some r ∧
    dr_specification r = dr_specification (bc_record cl).

Lemma start_keeps_records parse a now c spec identity max s s' out id r :
  mb_records s !! ds_broadcast_id spec = None →
  enqueue_start parse a now c spec identity max s = (s', out) →
  mb_records s !! id = Some r → mb_records s' !! id = Some r.
Proof.
  intros Hid H Hr. unfold enqueue_start in H.
  destruct (validate_specification _ _ _); [|by simplify_eq].
  destruct (mb_create_receipts s !! _) as [[digest i]|]; [by destruct (_ !=? _) in H; simplify_eq|].
  destruct (_ || _); simplify_eq; [done|]. cbn. by rewrite lookup_insert_ne by congruence.
Qed.

Lemma stop_keeps_spec parse now at_ c tenant i identity s s' out id r :
  bcast_ok s → mb_commands s !! c = None →
  enqueue_stop parse now at_ c tenant i identity s = (s', out) → mb_records s !! id = Some r →
  ∃ r', mb_records s' !! id = Some r' ∧ dr_specification r' = dr_specification r.
Proof.
  intros Hok Hc H Hr. unfold enqueue_stop in H.
  destruct (validate_broadcast_id _ _); [|simplify_eq; eauto].
  destruct (mb_delete_receipts s !! _) as [[digest rid]|].
  - destruct (_ !=? _); [simplify_eq; eauto|].
    destruct (mb_records s !! rid) as [r0|] eqn:Hr0; [|simplify_eq; eauto].
    destruct (_ ==? _); [|simplify_eq; eauto].
    destruct (delete_failed r0 now) as [r1|] eqn:Hd; [|simplify_eq; eauto]. injection H as <- _.
    destruct (delete_failed_ok s rid r0 r1 now Hok Hr0 Hd) as [_ E].
    apply (kept_record s); [by eapply put_record_moves|done].
  - destruct (mb_records s !! i) as [r0|] eqn:Hr0; [|simplify_eq; eauto].
    destruct (_ !=? _); [simplify_eq; eauto|].
    destruct (stop_record _ _ _ _ _ _) as [s1|] eqn:Hs; [|simplify_eq; eauto]. injection H as <- _. cbn.
    destruct (base.decide (i = id)) as [->|Hne].
    + rewrite Hr in Hr0. injection Hr0 as <-.
      destruct (stop_record_ok _ _ _ _ _ _ _ Hok Hc Hr Hs) as (_ & _ & r' & ? & ?). eauto.
    + exists r. split; [|done]. unfold stop_record in Hs.
      destruct (_ ==? _); [apply result_bind_ok in Hs as (r1 & _ & [= <-]); cbn; by rewrite lookup_insert_ne|].
      destruct (_ !=? _); [|by injection Hs as <-]. injection Hs as <-. unfold push_stop.
      destruct (existsb _ _); cbn; by rewrite lookup_insert_ne.
Qed.

Lemma step_keeps_spec `{Chrono} l s s' id r :
  bcast_ok s → bcast_step l s s' → mb_records s !! id = Some r →
  ∃ r', mb_records s' !! id = Some r' ∧ dr_specification r' = dr_specification r.
Proof.
  intros Hok Hst Hr. destruct Hst.
  - exists r. split; [|done]. by eapply start_keeps_records.
  - by eapply stop_keeps_spec.
  - edestruct claim_spec as (_ & -> & _); eauto.
  - edestruct complete_ok as [_ M]; [done..|]. by apply (kept_record _ _ M).
  - edestruct fail_worker_ok as [_ M]; [done..|]. by apply (kept_record _ _ M).
  - destruct (fail_stale_spec iter readings current s Hok H0) as (s1 & rs & E & Ht).
    assert (s' = s1) as -> by congruence. destruct (fail_stale_ok _ _ _ _ _ Hok Ht) as [_ M].
    by apply (kept_record _ _ M).
  - edestruct reconcile_ok as [_ M]; [done..|]. by apply (kept_record _ _ M).
  - edestruct finalize_ok as [_ M]; [done..|]. by apply (kept_record _ _ M).
Qed.

Lemma names_record_run `{Chrono} s s' cl :
  bcast_ok s → names_record s cl → rtc any_step s s' → bcast_ok s' ∧ names_record s' cl.
Proof.
  intros Hok Hn Hrun. induction Hrun as [|s s1 s2 [l Hst] _ IH]; [done|].
  destruct (bcast_step_ok _ _ _ Hok Hst) as [Hok1 M]. apply IH; [done|].
  destruct Hn as (k & r & Hk & Hr & Es). destruct (M _ _ Hk) as (k' & Hk' & [(_ & Eb & _) _ _ _]).
  destruct (step_keeps_spec _ _ _ _ _ Hok Hst Hr) as (r' & Hr' & Es').
  exists k', r'. rewrite Eb. split_and!; congruence.
Qed.

Lemma complete_run `{Chrono} now cl outcome s s' out :
  complete now cl outcome s = (s', out) → rtc any_step s s'.
Proof. intros E. apply rtc_once. eexists. by eapply step_complete. Qed.

(** The loop answers with the recorded result, or with a result that superseded it. *)
Lemma completion_loop_sound `{Chrono} parse rounds cl outcome s s' r :
  bcast_ok s → names_record s cl → Forall benign rounds →
  complete_broadcast_command parse rounds cl outcome s = (s', Some (Some r)) →
  rtc any_step s s' ∧ mb_records s' !! ds_broadcast_id (dr_specification (bc_record cl)) = Some r ∧
  (completion_is_visible cl outcome r = true ∨ unsettled (db_state r) = false).
Proof.
  revert s. induction rounds as [|rd rounds IH]; [done|]. intros s Hok Hn Hb Hc.
  apply Forall_cons in Hb as [Hrd Hb]. cbn in Hc. destruct (Hrd s) as [Hb1 _].
  destruct (names_record_run _ _ cl Hok Hn Hb1) as [Hok1 Hn1].
  set (s1 := rd_before_complete rd s) in *. clearbody s1.
  destruct (complete _ _ _ s1) as [s2 out] eqn:E. pose proof (complete_run _ _ _ _ _ _ E) as Hrun2.
  destruct (names_record_run _ _ cl Hok1 Hn1 Hrun2) as [Hok2 Hn2]. destruct out as [r0|e].
  - injection Hc as <- <-. split; [by etrans|]. destruct Hn1 as (k & r1 & Hk & Hr1 & Es).
    assert (Hspec : ∀ k0, mb_commands s1 !! bc_command_id cl = Some k0 → ∃ r0,
      mb_records s1 !! mc_broadcast_id k0 = Some r0 ∧ dr_specification r0 = dr_specification (bc_record cl)).
    { intros k0 Hk0. assert (k0 = k) as -> by congruence. eauto. }
    split; [|left; by eapply completed_is_visible].
    destruct (live_claim_dec s1 cl) as [Hl|Hl]; [|by rewrite complete_stale in E].
    destruct (complete_live (rd_now rd) cl outcome s1 Hl) as (k0 & Hk0 & E'). rewrite E' in E.
    assert (k0 = k) as -> by congruence. destruct (settle _ _) as [[[[st rst] rt] code]|]; [|done].
    cbn in E. rewrite Hr1 in E. injection E as <- <-. cbn.
    rewrite <- (bk_record _ Hok1 _ _ Hr1), Es. apply lookup_insert_eq.
  - destruct (Hrd s2) as [_ Hb2]. destruct (names_record_run _ _ cl Hok2 Hn2 Hb2) as [Hok3 Hn3].
    set (s3 := rd_before_get rd s2) in *. clearbody s3.
    assert (Hrun3 : rtc any_step s s3) by (etrans; [done|]; by etrans).
    destruct (get _ _ _ s3) as [[r0|]|] eqn:Eg; [|done|].
    + apply get_record in Eg as (_ & Hr0 & _).
      destruct (completion_is_visible cl outcome r0) eqn:Hvis; [injection Hc as <- <-; eauto|].
      destruct (unsettled (db_state r0)) eqn:Hu; cbn in Hc; [|injection Hc as <- <-; eauto].
      destruct (rd_cancelled rd); [done|]. destruct (IH _ Hok3 Hn3 Hb Hc) as (? & ? & ?).
      split_and!; [by etrans|done|done].
    + destruct (rd_cancelled rd); [done|]. destruct (IH _ Hok3 Hn3 Hb Hc) as (? & ? & ?).
      split_and!; [by etrans|done|done].
Qed.

Lemma completion_loop_cancelled parse rounds cl outcome s :
  (∃ rd, rd ∈ rounds ∧ rd_cancelled rd = true) →
  ∃ s' r, complete_broadcast_command parse rounds cl outcome s = (s', Some r).
Proof.
  revert s. induction rounds as [|rd rounds IH]; intros s (rd' & Hin & Hc);
    [by apply not_elem_of_nil in Hin|]. cbn.
  destruct (complete _ _ _ _) as [s1 [r|e]]; [eauto|].
  set (again := if rd_cancelled rd then _ else _).
  assert (Ha : ∃ s' r, again = (s', Some r)).
  { subst again. destruct (rd_cancelled rd) eqn:Hcr; [eauto|]. apply IH.
    apply elem_of_cons in Hin as [->|Hin]; [congruence|eauto]. }
  clearbody again. destruct (get _ _ _ _) as [[r|]|]; [|eauto|done].
  destruct (completion_is_visible _ _ _); [eauto|]. destruct (negb _); [eauto|done].
Qed.

Lemma claim_names_record `{Chrono} now worker ttl limit s s1 claims cl :
  bcast_ok s → claim now worker ttl limit s = (s1, Ok claims) → cl ∈ claims →
  bcast_ok s1 ∧ names_record s1 cl.
Proof.
  intros Hok Hc Hin. destruct (claim_spec _ _ _ _ _ _ _ Hok Hc) as (M & Er & Hall).
  split; [exact (move_commands_ok _ _ Hok M Er)|].
  destruct (Hall _ eq_refl) as [_ Hcls]. destruct (Hcls cl Hin) as [[(k & k' & Hk & Hk' & Hrest)] _].
  destruct Hrest as (_ & _ & _ & _ & Hr).
  exists k', (bc_record cl). rewrite Er. destruct (rows_commands_move _ _ M _ _ Hk) as (k2 & Hk2 & Mk).
  assert (k2 = k') as -> by congruence. destruct Mk as [(_ & -> & _) _ _ _]. done.
Qed.

Lemma first_round_answers `{Chrono} parse rd rest cl outcome s :
  bcast_ok s → names_record s cl → rtc any_step s (rd_before_complete rd s) →
  live_claim (rd_before_complete rd s) cl → settle (bc_kind cl) outcome ≠ None →
  ∃ s' r, complete_broadcast_command parse (rd :: rest) cl outcome s = (s', Some (Some r)) ∧
    completion_is_visible cl outcome r = true.
Proof.
  intros Hok Hn Hrun Hl Hset.
  destruct (names_record_run _ _ cl Hok Hn Hrun) as [Hok2 (k2 & r2 & Hk2 & Hr2 & Es)]. cbn.
  destruct (complete_live (rd_now rd) cl outcome _ Hl) as (k3 & Hk3 & E).
  assert (k3 = k2) as -> by congruence.
  destruct (settle _ _) as [[[[st rst] rt] code]|] eqn:Hset'; [|done]. cbn in E. rewrite Hr2 in E.
  rewrite E. eexists _, _. split; [done|]. eapply completed_is_visible; [exact E|].
  intros k0 Hk0. assert (k0 = k2) as -> by congruence. eauto.
Qed.

(** The worker's subscription authority ([WorkerBroadcastSubscriptionAuthority] of
    [src/broadcast/command_executor.rs]): which listeners a worker serves for its committed
    broadcasts.  The two concurrent maps are modelled by their contents; a method holds the entry
    of the broadcast it decides about, so methods on one broadcast are ordered. *)

Record WorkerBroadcastGrant := {
  wg_tenant_id : TenantId;
  wg_worker : WorkerLease;
  wg_grant_generation : Uuid;
}.

(** [WorkerListenerBinding]: broadcast and listener. *)
Definition WorkerListenerBinding : Type := rstr * Uuid.

Record WorkerBroadcastSubscriptionAuthority := {
  sa_worker : WorkerLease;
  sa_active : gmap rstr WorkerBroadcastGrant;
  sa_listeners : gmap WorkerListenerBinding Uuid;
}.
#[export] Instance WorkerBroadcastSubscriptionAuthority_eta : Eta WorkerBroadcastSubscriptionAuthority :=
  λ r, {| sa_worker := sa_worker r; sa_active := sa_active r; sa_listeners := sa_listeners r |}.

Definition WorkerBroadcastSubscriptionAuthority_new (worker : WorkerLease)
    : WorkerBroadcastSubscriptionAuthority :=
  {| sa_worker := worker; sa_active := ∅; sa_listeners := ∅ |}.

Definition authorize_and_bind (tenant_id broadcast_id : rstr) (listener_id : Uuid)
    (worker_fence : Z) (grant_generation : Uuid) (self : WorkerBroadcastSubscriptionAuthority)
    : WorkerBroadcastSubscriptionAuthority * bool :=
  if (worker_fence !=? Z.of_N (wl_fence (sa_worker self))) || is_nil listener_id
     || is_nil grant_generation
  then (self, false)
  else
  match sa_active self !! broadcast_id with
  | None => (self, false)
  | Some grant =>
      if (wg_tenant_id grant !=? tenant_id) || (wg_worker grant !=? sa_worker self)
         || (wg_grant_generation grant !=? grant_generation)
      then (self, false)
      else
      let binding : WorkerListenerBinding := (broadcast_id, listener_id) in
      match sa_listeners self !! binding with
      | Some bound => (self, bound ==? grant_generation)
      | None => (self <| sa_listeners := <[binding := grant_generation]> (sa_listeners self) |>, true)
      end
  end.

Definition revalidate_listener (broadcast_id : rstr) (listener_id : Uuid)
    (self : WorkerBroadcastSubscriptionAuthority) : bool :=
  match sa_listeners self !! ((broadcast_id, listener_id) : WorkerListenerBinding) with
  | None => false
  | Some generation =>
      is_some_and (λ grant, (wg_worker grant ==? sa_worker self)
                            && (wg_grant_generation grant ==? generation))
        (sa_active self !! broadcast_id)
  end.

Definition active_for_tenant (tenant_id broadcast_id : rstr)
    (self : WorkerBroadcastSubscriptionAuthority) : bool :=
  is_some_and (λ grant, (wg_tenant_id grant ==? tenant_id) && (wg_worker grant ==? sa_worker self))
    (sa_active self !! broadcast_id).

Definition unbind_listener (broadcast_id : rstr) (listener_id : Uuid)
    (self : WorkerBroadcastSubscriptionAuthority) : WorkerBroadcastSubscriptionAuthority :=
  self <| sa_listeners :=
    delete ((broadcast_id, listener_id) : WorkerListenerBinding) (sa_listeners self) |>.

Definition activate (record : DurableBroadcastRecord) (self : WorkerBroadcastSubscriptionAuthority)
    : WorkerBroadcastSubscriptionAuthority * bool :=
  match db_runtime record with
  | None => (self, false)
  | Some runtime =>
  match br_grant_generation runtime with
  | None => (self, false)
  | Some grant_generation =>
      let specification := dr_specification record in
      if (db_state record !=? BroadcastState.Active) || (ds_worker specification !=? sa_worker self)
         || (ds_transport specification !=? UctpQuic)
      then (self, false)
      else
        (self <| sa_active :=
           <[ds_broadcast_id specification :=
               {| wg_tenant_id := ds_tenant_id specification; wg_worker := ds_worker specification;
                  wg_grant_generation := grant_generation |}]> (sa_active self) |>, true)
  end
  end.

Definition revoke (broadcast_id : rstr) (self : WorkerBroadcastSubscriptionAuthority)
    : WorkerBroadcastSubscriptionAuthority :=
  self <| sa_active := delete broadcast_id (sa_active self) |>
       <| sa_listeners := filter (λ kv, kv.1.1 ≠ broadcast_id) (sa_listeners self) |>.

(** ** After the report *)

(** [ActiveDurableBroadcast], without the handle of its publication. *)
Record ActiveDurableBroadcast := {
  ad_specification : DurableBroadcastSpec;
  ad_grant_generation : option Uuid;
}.

(** What [execute] changes of the executor. *)
Record BroadcastCommandExecutor := {
  be_subscription_authority : WorkerBroadcastSubscriptionAuthority;
  be_active : gmap rstr ActiveDurableBroadcast;
}.
#[export] Instance BroadcastCommandExecutor_eta : Eta BroadcastCommandExecutor :=
  λ r, {| be_subscription_authority := be_subscription_authority r; be_active := be_active r |}.

(** [self.active.remove(..)], with the publication that is closed, if there is one; the shared grant
    of a closed publication is given back to the grant store, which is not part of the model. *)
Definition remove_active (broadcast_id : rstr) (self : BroadcastCommandExecutor)
    : BroadcastCommandExecutor * option ActiveDurableBroadcast :=
  (self <| be_active := delete broadcast_id (be_active self) |>, be_active self !! broadcast_id).

Definition cleanup_uncommitted_start (broadcast_id : rstr) (self : BroadcastCommandExecutor)
    : BroadcastCommandExecutor * option ActiveDurableBroadcast :=
  let self :=
    self <| be_subscription_authority := revoke broadcast_id (be_subscription_authority self) |> in
  remove_active broadcast_id self.

(** The end of [BroadcastCommandExecutor::execute], at the answer of [complete_durably]. *)
Definition conclude (claim : ClaimedBroadcastCommand) (expected_result : BroadcastCommandResult)
    (answer : option DurableBroadcastRecord) (self : BroadcastCommandExecutor)
    : BroadcastCommandExecutor * option ActiveDurableBroadcast :=
  let claimed_id := ds_broadcast_id (dr_specification (bc_record claim)) in
  match answer with
  | Some record =>
      if negb (completion_is_visible claim expected_result record)
      then
        if bc_kind claim ==? Start then cleanup_uncommitted_start claimed_id self
        else (self, None)
      else
      let broadcast_id := ds_broadcast_id (dr_specification record) in
      match bc_kind claim with
      | Start =>
          let committed_uctp :=
            (db_state record ==? BroadcastState.Active)
            && (ds_transport (dr_specification record) ==? UctpQuic) in
          if committed_uctp
          then
            let '(authority, activated) := activate record (be_subscription_authority self) in
            let self := self <| be_subscription_authority := authority |> in
            if negb activated then remove_active broadcast_id self else (self, None)
          else if db_state record !=? BroadcastState.Active
          then cleanup_uncommitted_start broadcast_id self
          else (self, None)
      | Stop =>
          (self <| be_subscription_authority :=
                     revoke broadcast_id (be_subscription_authority self) |>, None)
      end
  | None =>
      if bc_kind claim ==? Start then cleanup_uncommitted_start claimed_id self
      else (self, None)
  end.

(** The grant of a started broadcast. *)
Definition grant_of (specification : DurableBroadcastSpec) (generation : Uuid) : WorkerBroadcastGrant :=
  {| wg_tenant_id := ds_tenant_id specification; wg_worker := ds_worker specification;
     wg_grant_generation := generation |}.

(** The only grant that may come into force. *)
Lemma conclude_grants cl outcome answer ex ex' closed id grant :
  conclude cl outcome answer ex = (ex', closed) →
  sa_active (be_subscription_authority ex') !! id = Some grant →
  sa_active (be_subscription_authority ex) !! id = Some grant ∨
  bc_kind cl = Start ∧ id = ds_broadcast_id (dr_specification (bc_record cl)) ∧
  ∃ record expected generation, answer = Some record ∧ shows cl record outcome ∧
    outcome = CommandResult.Started expected ∧ br_grant_generation expected = Some generation ∧
    grant = grant_of (dr_specification (bc_record cl)) generation.
Proof.
  unfold conclude, cleanup_uncommitted_start, remove_active. intros Hc Hg.
  assert (Hrev : ∀ b, sa_active (revoke b (be_subscription_authority ex)) !! id = Some grant →
    sa_active (be_subscription_authority ex) !! id = Some grant).
  { intros b. cbn. by intros [_ ?]%lookup_delete_Some. }
  destruct answer as [record|]; [|destruct (_ ==? _); injection Hc as <- _; left; first [exact Hg|exact (Hrev _ Hg)]].
  destruct (completion_is_visible cl outcome record) eqn:Ev; cbn in Hc;
    [|destruct (_ ==? _); injection Hc as <- _; left; first [exact Hg|exact (Hrev _ Hg)]].
  apply visible_shows in Ev. destruct (bc_kind cl); [|injection Hc as <- _; left; first [exact Hg|exact (Hrev _ Hg)]].
  destruct (_ && _) eqn:Eu; [|destruct (_ !=? _); injection Hc as <- _; left; first [exact Hg|exact (Hrev _ Hg)]].
  assert (Hact : sa_active (activate record (be_subscription_authority ex)).1 !! id = Some grant).
  { destruct (activate _ _) as [auth [|]]; cbn in Hc; injection Hc as <- _; done. }
  clear Hc Hg. unfold activate in Hact. bool_hyps.
  destruct (db_runtime record) as [rt|] eqn:Er; [|by left].
  destruct (br_grant_generation rt) as [g|] eqn:Egen; [|by left].
  destruct (_ || _ || _); [by left|]. cbn in Hact.
  apply lookup_insert_Some in Hact as [[<- <-]|[_ ?]]; [right|by left].
  inversion Ev as [expected rt' Es Ea Ert Eg|Es Ea|code Es Ea]; [|congruence|congruence]. subst outcome.
  rewrite Es. split_and!; [done|done|]. exists record, expected, g. split_and!; try done; congruence.
Qed.

(** A start that is not shown is undone; a stop that is not shown does nothing. *)
Lemma conclude_unshown cl outcome answer ex ex' closed :
  conclude cl outcome answer ex = (ex', closed) →
  let id := ds_broadcast_id (dr_specification (bc_record cl)) in
  (∃ r, answer = Some r ∧ shows cl r outcome) ∨
  match bc_kind cl with
  | Start =>
      ex' = {| be_subscription_authority := revoke id (be_subscription_authority ex);
               be_active := delete id (be_active ex) |} ∧ closed = be_active ex !! id
  | Stop => ex' = ex ∧ closed = None
  end.
Proof.
  intros Hc id. unfold conclude in Hc. destruct answer as [r|].
  - destruct (completion_is_visible cl outcome r) eqn:Ev; [left; exists r; by rewrite <- visible_shows|right].
    cbn in Hc. destruct (bc_kind cl); cbn in Hc; by injection Hc as <- <-.
  - right. destruct (bc_kind cl); cbn in Hc; by injection Hc as <- <-.
Qed.

(** C34. Reporting a result terminates, and the worker acts only on what is stored.  The loop ends
    in its first round when the claim is still live then, and at the latest in the first round that
    is cancelled, whatever other tasks do to the repository in between.  A record it answers with is
    stored; it shows the reported result, or the broadcast was decided otherwise: it is neither
    pending nor being deleted.  At the end of the command a worker puts a grant in force only for a
    start whose stored record shows the reported generation, endpoint and protocol, and then under
    that generation; a start whose answer does not show its result is undone, grant, listeners and
    publication, and a stop whose answer does not show it changes nothing; a stop that is shown
    ends the grant and the listeners. *)
Theorem completion_loop_terminates `{Chrono} (parse : rstr → option Uuid) (rounds : list round)
    (s s1 : MemoryBroadcastState) (now : DateTime) (worker : WorkerLease) (ttl : Duration) (limit : N)
    (claims : list ClaimedBroadcastCommand) (cl : ClaimedBroadcastCommand)
    (outcome : BroadcastCommandResult) (ex : BroadcastCommandExecutor) :
  bcast_reachable s → claim now worker ttl limit s = (s1, Ok claims) → cl ∈ claims →
  settle (bc_kind cl) outcome ≠ None → Forall benign rounds →
  let id := ds_broadcast_id (dr_specification (bc_record cl)) in
  (∀ rd rest, rounds = rd :: rest → live_claim (rd_before_complete rd s1) cl →
     ∃ s' r, complete_broadcast_command parse rounds cl outcome s1 = (s', Some (Some r)) ∧
       shows cl r outcome) ∧
  ((∃ rd, rd ∈ rounds ∧ rd_cancelled rd = true) →
     ∃ s' r, complete_broadcast_command parse rounds cl outcome s1 = (s', Some r)) ∧
  (∀ s' answer, complete_broadcast_command parse rounds cl outcome s1 = (s', Some answer) →
     (∀ r, answer = Some r →
        rtc any_step s1 s' ∧ mb_records s' !! id = Some r ∧ (shows cl r outcome ∨ decided (db_state r))) ∧
     ∀ ex' closed, conclude cl outcome answer ex = (ex', closed) →
       (∀ b grant, sa_active (be_subscription_authority ex') !! b = Some grant →
          sa_active (be_subscription_authority ex) !! b = Some grant ∨
          bc_kind cl = Start ∧ b = id ∧
          ∃ r expected generation, mb_records s' !! id = Some r ∧ shows cl r outcome ∧
            outcome = CommandResult.Started expected ∧ br_grant_generation expected = Some generation ∧
            grant = grant_of (dr_specification (bc_record cl)) generation) ∧
       ((∃ r, answer = Some r ∧ shows cl r outcome) ∨
        match bc_kind cl with
        | Start =>
            ex' = {| be_subscription_authority := revoke id (be_subscription_authority ex);
                     be_active := delete id (be_active ex) |} ∧ closed = be_active ex !! id
        | Stop => ex' = ex ∧ closed = None
        end) ∧
       (∀ r, answer = Some r → shows cl r CommandResult.Stopped → outcome = CommandResult.Stopped →
          bc_kind cl = Stop →
          be_subscription_authority ex' = revoke id (be_subscription_authority ex))).
Proof.
  intros Hok%reachable_bcast_ok Hc Hin Hset Hb id.
  destruct (claim_names_record _ _ _ _ _ _ _ _ Hok Hc Hin) as [Hok1 Hn]. split_and!.
  - intros rd rest -> Hl. apply Forall_cons in Hb as [Hrd _].
    destruct (first_round_answers parse rd rest _ _ _ Hok1 Hn (proj1 (Hrd s1)) Hl Hset) as (s' & r & ? & ?).
    exists s', r. by rewrite <- visible_shows.
  - apply completion_loop_cancelled.
  - intros s' answer Ha.
    assert (Hrec : ∀ r, answer = Some r → rtc any_step s1 s' ∧ mb_records s' !! id = Some r ∧
      (shows cl r outcome ∨ decided (db_state r))).
    { intros r ->. rewrite <- visible_shows, <- unsettled_decided. by eapply completion_loop_sound. }
    split; [done|]. intros ex' closed Hcon. split_and!.
    + intros b grant Hg. destruct (conclude_grants _ _ _ _ _ _ _ _ Hcon Hg) as [?|(Hk & -> & Hx)]; [by left|].
      right. split_and!; [done|done|]. destruct Hx as (r & expected & generation & E & Hx).
      exists r, expected, generation. split; [by apply Hrec|done].
    + by apply conclude_unshown.
    + intros r -> Hsh -> Hk. unfold conclude in Hcon. apply visible_shows in Hsh as Hv. rewrite Hv, Hk in Hcon.
      injection Hcon as <- _. cbn. inversion Hsh as [|Es|]. by rewrite Es.
Qed.

Definition quiet_round : round :=
  {| rd_before_complete := λ s, s; rd_now := 3; rd_before_get := λ s, s; rd_cancelled := true |}.

Definition idle_executor : BroadcastCommandExecutor :=
  {| be_subscription_authority := WorkerBroadcastSubscriptionAuthority_new sample_lease; be_active := ∅ |}.

(** The start is reported and its grant put in force. *)
Lemma completion_loop_terminates_witness :
  ∃ s' r ex' grant, complete_broadcast_command sample_parse [quiet_round] start_claim
      (CommandResult.Started sample_runtime) bcast_claimed = (s', Some (Some r)) ∧
    (conclude start_claim (CommandResult.Started sample_runtime) (Some r) idle_executor).1 = ex' ∧
    sa_active (be_subscription_authority ex') !! str "b1" = Some grant ∧
    shows start_claim r (CommandResult.Started sample_runtime).
Proof.
  destruct (@completion_loop_terminates chrono_sample sample_parse [quiet_round] bcast_started
    bcast_claimed 2 sample_lease (from_secs 30) 16 [start_claim] start_claim
    (CommandResult.Started sample_runtime) idle_executor) as (Hlive & _ & Hans).
  - apply reachable_started.
  - vm_compute. reflexivity.
  - apply list_elem_of_here.
  - done.
  - repeat constructor.
  - destruct (complete_broadcast_command sample_parse [quiet_round] start_claim
      (CommandResult.Started sample_runtime) bcast_claimed) as [s' ans] eqn:E.
    assert (Hs : ans = Some (mb_records s' !! str "b1") ∧ is_some (mb_records s' !! str "b1") = true ∧
      is_some (sa_active (be_subscription_authority (conclude start_claim (CommandResult.Started sample_runtime)
        (mb_records s' !! str "b1") idle_executor).1) !! str "b1") = true).
    { assert (Es : s' = (complete_broadcast_command sample_parse [quiet_round] start_claim
        (CommandResult.Started sample_runtime) bcast_claimed).1) by (by rewrite E).
      assert (Ea : ans = (complete_broadcast_command sample_parse [quiet_round] start_claim
        (CommandResult.Started sample_runtime) bcast_claimed).2) by (by rewrite E).
      rewrite Ea, Es. vm_compute. auto. }
    destruct Hs as (-> & Hr & Hg). destruct (mb_records s' !! str "b1") as [r|] eqn:Er; [|discriminate].
    destruct (sa_active _ !! str "b1") as [grant|] eqn:Egr in Hg; [|discriminate].
    exists s', r, (conclude start_claim (CommandResult.Started sample_runtime) (Some r) idle_executor).1, grant.
    split; [done|]. split; [done|]. split; [exact Egr|].
    destruct (Hans _ _ eq_refl) as [_ Hcon].
    destruct (Hcon _ _ (surjective_pairing _)) as [Hgr _].
    destruct (Hgr _ _ Egr) as [H|(_ & _ & r' & _ & _ & Hr' & Hsh & _)]; [vm_compute in H; discriminate|].
    change (mb_records s' !! str "b1" = Some r') in Hr'. rewrite Er in Hr'. injection Hr' as <-. exact Hsh.
Defined.

(** ** Runs *)

Inductive authority_call :=
| CallAuthorize (tenant_id broadcast_id : rstr) (listener_id : Uuid) (worker_fence : Z)
    (grant_generation : Uuid)
| CallUnbind (broadcast_id : rstr) (listener_id : Uuid)
| CallActivate (record : DurableBroadcastRecord)
| CallRevoke (broadcast_id : rstr).

Definition run_authority_call (c : authority_call) (self : WorkerBroadcastSubscriptionAuthority)
    : WorkerBroadcastSubscriptionAuthority :=
  match c with
  | CallAuthorize t b l f g => (authorize_and_bind t b l f g self).1
  | CallUnbind b l => unbind_listener b l self
  | CallActivate r => (activate r self).1
  | CallRevoke b => revoke b self
  end.

Definition run_authority (cs : list authority_call) (self : WorkerBroadcastSubscriptionAuthority)
    : WorkerBroadcastSubscriptionAuthority :=
  foldl (λ self c, run_authority_call c self) self cs.

Lemma run_authority_cons c cs self :
  run_authority (c :: cs) self = run_authority cs (run_authority_call c self).
Proof. reflexivity. Qed.

(** The call may put a grant of the broadcast in force. *)
Definition activates (id : rstr) (c : authority_call) : bool :=
  match c with CallActivate r => ds_broadcast_id (dr_specification r) ==? id | _ => false end.

(** The call may end the admission of the listener. *)
Definition releases (id : rstr) (listener : Uuid) (c : authority_call) : bool :=
  match c with
  | CallRevoke b => b ==? id
  | CallUnbind b l => (b ==? id) && (l ==? listener)
  | CallActivate _ | CallAuthorize _ _ _ _ _ => activates id c
  end.

Lemma activate_active record self :
  (activate record self).1 = self ∨
  ∃ g, (activate record self).1 =
    self <| sa_active := <[ds_broadcast_id (dr_specification record) := g]> (sa_active self) |>.
Proof.
  unfold activate. destruct (db_runtime record) as [rt|]; [|by left].
  destruct (br_grant_generation rt); [|by left]. destruct (_ || _ || _); [by left|right; eauto].
Qed.

Lemma authorize_cases t b l f g self :
  (authorize_and_bind t b l f g self).1 = self ∨
  (authorize_and_bind t b l f g self).1 =
    self <| sa_listeners := <[((b, l) : WorkerListenerBinding) := g]> (sa_listeners self) |> ∧
  sa_listeners self !! ((b, l) : WorkerListenerBinding) = None ∧ is_Some (sa_active self !! b).
Proof.
  unfold authorize_and_bind. destruct (_ || _ || _); [by left|].
  destruct (sa_active self !! b) as [grant|]; [|by left]. destruct (_ || _ || _); [by left|].
  destruct (sa_listeners self !! _) eqn:E; [by left|right; eauto].
Qed.

Lemma run_authority_worker cs self : sa_worker (run_authority cs self) = sa_worker self.
Proof.
  revert self. induction cs as [|c cs IH]; intros self; [done|].
  rewrite run_authority_cons, IH.
  destruct c; cbn; [|done| |done].
  - by destruct (authorize_cases tenant_id broadcast_id listener_id worker_fence grant_generation self)
      as [->|(-> & _)].
  - by destruct (activate_active record self) as [->|[g ->]].
Qed.

(** ** Revocation *)

Lemma not_activated_call c self id :
  activates id c = false → sa_active self !! id = None →
  sa_active (run_authority_call c self) !! id = None.
Proof.
  intros Ha Hn. destruct c; cbn in *.
  - by destruct (authorize_cases tenant_id broadcast_id listener_id worker_fence grant_generation self)
      as [->|(-> & _)].
  - done.
  - apply bool_decide_eq_false in Ha. destruct (activate_active record self) as [->|[g ->]]; [done|].
    cbn. by rewrite lookup_insert_ne.
  - by apply lookup_delete_None; right.
Qed.

Lemma not_activated_run cs self id :
  forallb (λ c, negb (activates id c)) cs = true → sa_active self !! id = None →
  sa_active (run_authority cs self) !! id = None.
Proof.
  revert self. induction cs as [|c cs IH]; intros self Hc Hn; [done|].
  rewrite run_authority_cons. cbn in Hc. apply andb_true_iff in Hc as [Hc%negb_true_iff Hcs]. apply IH; [done|]. by apply not_activated_call.
Qed.

(** ** Admission *)

(** The listener is served under the grant in force. *)
Definition served (id : rstr) (listener g : Uuid) (self : WorkerBroadcastSubscriptionAuthority) : Prop :=
  sa_listeners self !! ((id, listener) : WorkerListenerBinding) = Some g ∧
  ∃ grant, sa_active self !! id = Some grant ∧ wg_worker grant = sa_worker self ∧
    wg_grant_generation grant = g.

Lemma served_revalidates id listener g self :
  served id listener g self → revalidate_listener id listener self = true.
Proof.
  intros (Hl & grant & Hg & Hw & <-). unfold revalidate_listener. rewrite Hl, Hg. cbn.
  by rewrite !bool_decide_eq_true_2.
Qed.

Lemma served_call c self id listener g :
  releases id listener c = false → served id listener g self →
  served id listener g (run_authority_call c self).
Proof.
  intros Hr (Hl & grant & Hg & Hw & Hgen). destruct c; cbn in *.
  - destruct (authorize_cases tenant_id broadcast_id listener_id worker_fence grant_generation self)
      as [->|(-> & Hn & _)]; [by split; eauto|]. split; [|eauto]. cbn.
    rewrite lookup_insert_ne; [done|]. intros [= -> ->]. congruence.
  - split; [|eauto]. cbn. rewrite lookup_delete_ne; [done|]. intros [= -> ->].
    by rewrite !bool_decide_eq_true_2 in Hr.
  - apply bool_decide_eq_false in Hr.
    destruct (activate_active record self) as [->|[g' ->]]; [by split; eauto|]. split; [done|]. cbn.
    rewrite lookup_insert_ne by done. eauto.
  - apply bool_decide_eq_false in Hr. split; cbn.
    + apply map_lookup_filter_Some. split; [done|]. cbn. congruence.
    + rewrite lookup_delete_ne by done. eauto.
Qed.

Lemma served_run cs self id listener g :
  forallb (λ c, negb (releases id listener c)) cs = true → served id listener g self →
  served id listener g (run_authority cs self).
Proof.
  revert self. induction cs as [|c cs IH]; intros self Hc Hs; [done|].
  rewrite run_authority_cons. cbn in Hc. apply andb_true_iff in Hc as [Hc%negb_true_iff Hcs]. apply IH; [done|]. by apply served_call.
Qed.

Lemma authorized_is_served t id listener f g self self' :
  authorize_and_bind t id listener f g self = (self', true) → served id listener g self'.
Proof.
  unfold authorize_and_bind. intros H. destruct (_ || _ || _); [done|].
  destruct (sa_active self !! id) as [grant|] eqn:Hg; [|done].
  destruct (_ || _ || _) eqn:E; [done|]. bool_hyps.
  destruct (sa_listeners self !! _) as [b|] eqn:Hl; injection H as <-; bool_hyps.
  - split; [congruence|eauto].
  - split; [apply lookup_insert_eq|eauto].
Qed.

(** A listener is served exactly as long as its grant is in force.  An admitted listener is
    confirmed at every revalidation until it is unbound, its broadcast is revoked or another start
    of the broadcast is committed; from the moment a broadcast is revoked until its next committed
    start, whatever calls are made, nobody is admitted to it, no earlier listener is confirmed and
    it is reported inactive; and a listener admitted under a superseded generation is not
    confirmed under the new one. *)
Theorem listener_follows_its_grant (self : WorkerBroadcastSubscriptionAuthority) (id : rstr)
    (listener : Uuid) :
  (∀ tenant fence g self' cs, authorize_and_bind tenant id listener fence g self = (self', true) →
     forallb (λ c, negb (releases id listener c)) cs = true →
     revalidate_listener id listener (run_authority cs self') = true) ∧
  (∀ cs, forallb (λ c, negb (activates id c)) cs = true →
     let self' := run_authority cs (revoke id self) in
     revalidate_listener id listener self' = false ∧
     (∀ tenant, active_for_tenant tenant id self' = false) ∧
     ∀ tenant fence g, authorize_and_bind tenant id listener fence g self' = (self', false)) ∧
  (∀ tenant fence g self' record rt g' self'',
     authorize_and_bind tenant id listener fence g self = (self', true) →
     ds_broadcast_id (dr_specification record) = id → db_runtime record = Some rt →
     br_grant_generation rt = Some g' → g' ≠ g → activate record self' = (self'', true) →
     revalidate_listener id listener self'' = false).
Proof.
  split_and!.
  - intros tenant fence g self' cs Ha Hcs. eapply served_revalidates, served_run; [done|].
    by eapply authorized_is_served.
  - intros cs Hcs self'.
    assert (Hn : sa_active self' !! id = None)
      by (apply not_activated_run; [done|apply lookup_delete_eq]).
    clearbody self'. split_and!.
    + unfold revalidate_listener. rewrite Hn. by destruct (sa_listeners self' !! _).
    + intros tenant. unfold active_for_tenant. by rewrite Hn.
    + intros tenant fence g. unfold authorize_and_bind. rewrite Hn. by destruct (_ || _ || _).
  - intros tenant fence g self' record rt g' self'' Ha Hid Hrt Hg Hne Hact.
    apply authorized_is_served in Ha as (Hl & _). unfold activate in Hact. rewrite Hrt, Hg in Hact.
    destruct (_ || _ || _); [done|]. injection Hact as <-. unfold revalidate_listener. cbn.
    rewrite Hl, Hid, lookup_insert_eq. cbn. rewrite (bool_decide_eq_false_2 (g' = g)) by done.
    apply andb_false_r.
Qed.

Definition sample_authority : WorkerBroadcastSubscriptionAuthority :=
  match mb_records bcast_active !! str "b1" with
  | Some record => (activate record (WorkerBroadcastSubscriptionAuthority_new sample_lease)).1
  | None => WorkerBroadcastSubscriptionAuthority_new sample_lease
  end.

Lemma listener_follows_its_grant_witness :
  revalidate_listener (str "b1") 9
    (run_authority [CallUnbind (str "b1") 8]
       (authorize_and_bind (str "t") (str "b1") 9 1 55 sample_authority).1) = true.
Proof.
  eapply (proj1 (listener_follows_its_grant sample_authority (str "b1") 9) (str "t") 1 55);
    vm_compute; reflexivity.
Defined.
