(* ===== verification/Principal.v ===== *)
(** Authenticated principals of the control interface ([src/api_principal.rs]): which tenant and
    scopes a credential gives, the parsing of the bearer header, the fingerprint that stands for
    the owner of an attachment, and the configured API key.

    The principal record is the one of the authentication library; its methods, its bounds, HMAC and
    SHA-256 are parameters.  Zeroization of secrets has no effect on values and is left out. *)

From S2P Require Import Prelude RustText DomainTypes CoordModel Domain RepoTypes.
From stdpp Require Import options.

(** ** The authentication library *)

(** The types whose values are only stored here, with the values the source constructs. *)
Class AuthTypes := {
  AuthenticationMethod : Type;
  method_Jwt : AuthenticationMethod;
  method_ApiKey : AuthenticationMethod;
  method_MutualTls : AuthenticationMethod;
  IdentityAssurance : Type;
  assurance_Anonymous : IdentityAssurance;
  (** [Pseudonymous], with the configured key identifier. *)
  assurance_Pseudonymous : rstr → IdentityAssurance;
  (** [TaskScoped]: identity, task, scopes and expiry. *)
  assurance_TaskScoped : rstr → rstr → list rstr → DateTime → IdentityAssurance;
}.

Record AuthenticatedPrincipal `{AuthTypes} := {
  ap_subject : rstr;
  ap_tenant : option rstr;
  ap_scopes : list rstr;
  ap_issuer : option rstr;
  ap_expires_at : option DateTime;
  ap_method : AuthenticationMethod;
  ap_assurance : IdentityAssurance;
}.

Class AuthCore `{AuthTypes} := {
  is_expired_at : AuthenticatedPrincipal → DateTime → bool;
  has_scope : AuthenticatedPrincipal → rstr → bool;
  MAX_BEARER_SUBJECT_BYTES : Z;
  MAX_BEARER_ISSUER_BYTES : Z;
}.

(** Whether a principal is expired depends on its expiry alone; its identity fields are short
    enough for the 32-bit lengths of the fingerprint. *)
Class AuthLaws `{AuthCore} : Prop := {
  is_expired_at_expiry p q now : ap_expires_at p = ap_expires_at q →
    is_expired_at p now = is_expired_at q now;
  bearer_bounds : MAX_BEARER_SUBJECT_BYTES ≤ Z.of_N 4294967295 ∧
    MAX_BEARER_ISSUER_BYTES ≤ Z.of_N 4294967295;
}.

Inductive BearerAuthError := BearerUnavailable | BearerEmpty | BearerInvalid (message : rstr).

(** [Hmac<Sha256>] over the concatenated updates, and [Sha256::digest]. *)
Class Hashing := {
  hmac_sha256 : list Z → list Z → Digest;
  sha256 : list Z → Digest;
}.

(** ** Constants, scopes and errors *)

Definition MAX_API_BEARER_BYTES : Z := 16 * 1024.
Definition MIN_FINGERPRINT_KEY_BYTES : Z := 32.
Definition MAX_FINGERPRINT_KEY_BYTES : Z := 4096.
(** A byte string literal ending in [\0]. *)
Definition FINGERPRINT_DOMAIN : list Z := str "bridgefu.principal-fingerprint.v1" ++ [0].

Module Scope.
Inductive CallScope :=
| Create | ArbitraryDestination | Read | Hangup | Transfer | Dtmf | TenantOverride.
End Scope.
Abbreviation CallScope := Scope.CallScope.

Definition scope_as_str (self : CallScope) : rstr :=
  match self with
  | Scope.Create => str "calls:create"
  | Scope.ArbitraryDestination => str "calls:destinations:arbitrary"
  | Scope.Read => str "calls:read"
  | Scope.Hangup => str "calls:hangup"
  | Scope.Transfer => str "calls:transfer"
  | Scope.Dtmf => str "calls:dtmf"
  | Scope.TenantOverride => str "calls:tenant-override"
  end.

Module PrincipalError.
Inductive ApiPrincipalError :=
| MissingCredential
| MalformedCredential
| InvalidCredential
| AuthenticationUnavailable
| ExpiredCredential
| TenantRequired
| MissingScope (scope : rstr)
| TenantOverrideForbidden
| InvalidTenant
| AmbiguousStaticTenant
| InvalidStaticApiKey
| InvalidFingerprintKey.
End PrincipalError.
Abbreviation ApiPrincipalError := PrincipalError.ApiPrincipalError.

(** ** Principals *)

Section Principal.
Context `{AuthCore}.

Record ApiPrincipal := { pr_inner : AuthenticatedPrincipal; pr_tenant : TenantId }.

(** A subject or issuer that cannot be used: blank, too long, or with control characters. *)
Definition bad_identity (max : Z) (value : rstr) : bool :=
  is_empty (trim value) || (max <? len value) || existsb is_control value.

Definition ApiPrincipal_new (inner : AuthenticatedPrincipal) (now : DateTime)
    : result ApiPrincipalError ApiPrincipal :=
  let invalid_subject :=
    bad_identity MAX_BEARER_SUBJECT_BYTES (ap_subject inner)
    || is_some_and (bad_identity MAX_BEARER_ISSUER_BYTES) (ap_issuer inner) in
  if invalid_subject then Err PrincipalError.InvalidCredential
  else if is_expired_at inner now then Err PrincipalError.ExpiredCredential
  else
    tenant ← ok_or (ap_tenant inner) PrincipalError.TenantRequired;
    tenant ← match TenantId_parse tenant with
             | Ok tenant => Ok tenant
             | Err _ => Err PrincipalError.InvalidTenant
             end;
    Ok {| pr_inner := inner; pr_tenant := tenant |}.

Definition has_literal_scope (self : ApiPrincipal) (scope : CallScope) : bool :=
  existsb (λ candidate, candidate ==? scope_as_str scope) (ap_scopes (pr_inner self)).

Definition authorize (self : ApiPrincipal) (scope : CallScope) (now : DateTime)
    : result ApiPrincipalError () :=
  if is_expired_at (pr_inner self) now then Err PrincipalError.ExpiredCredential
  else
    let authorized :=
      match scope with
      | Scope.TenantOverride | Scope.ArbitraryDestination => has_literal_scope self scope
      | _ => has_scope (pr_inner self) (scope_as_str scope)
      end in
    if negb authorized then Err (PrincipalError.MissingScope (scope_as_str scope)) else Ok ().

Definition resolve_tenant (self : ApiPrincipal) (requested : option rstr) (operation : CallScope)
    (now : DateTime) : result ApiPrincipalError TenantId :=
  authorize self operation now;;
  match requested with
  | None => Ok (pr_tenant self)
  | Some requested =>
      match TenantId_parse requested with
      | Err _ => Err PrincipalError.InvalidTenant
      | Ok requested =>
          if requested ==? pr_tenant self then Ok requested
          else if negb (has_literal_scope self Scope.TenantOverride)
          then Err PrincipalError.TenantOverrideForbidden
          else Ok requested
      end
  end.

(** ** Bearer credentials *)

(** [(0x21..=0x7e).contains(&byte)]. *)
Definition visible_byte (byte : Z) : bool := between 33 126 byte.

Definition ignore_case_eq (l r : rstr) : bool :=
  map to_ascii_lowercase l ==? map to_ascii_lowercase r.

(** [parse_bearer]: [values] are the authorization header lines, each as [to_str] reads it. *)
Definition parse_bearer (values : list (option rstr)) : result ApiPrincipalError rstr :=
  match values with
  | [] => Err PrincipalError.MissingCredential
  | _ :: _ :: _ => Err PrincipalError.MalformedCredential
  | [value] =>
      value ← ok_or value PrincipalError.MalformedCredential;
      if bool_decide (44 ∈ value) then Err PrincipalError.MalformedCredential
      else
        '(scheme, credential) ← ok_or (split_once 32 value) PrincipalError.MalformedCredential;
        if negb (ignore_case_eq scheme (str "Bearer")) || is_empty credential
           || (MAX_API_BEARER_BYTES <? len credential)
           || existsb (λ byte, negb (visible_byte byte)) (bytes credential)
        then Err PrincipalError.MalformedCredential
        else Ok credential
  end.

(** [ApiBearerAuthenticator::authenticate] with the given validator. *)
Definition authenticate (validate_principal : rstr → result BearerAuthError AuthenticatedPrincipal)
    (values : list (option rstr)) (now : DateTime) : result ApiPrincipalError ApiPrincipal :=
  credential ← parse_bearer values;
  match validate_principal credential with
  | Ok principal => ApiPrincipal_new principal now
  | Err BearerUnavailable => Err PrincipalError.AuthenticationUnavailable
  | Err (BearerEmpty | BearerInvalid _) => Err PrincipalError.InvalidCredential
  end.

(** ** Fingerprints *)

Definition PrincipalFingerprintKey : Type := list Z.

Definition PrincipalFingerprintKey_new (key : list Z)
    : result ApiPrincipalError PrincipalFingerprintKey :=
  if negb (between MIN_FINGERPRINT_KEY_BYTES MAX_FINGERPRINT_KEY_BYTES (Z.of_nat (length key)))
  then Err PrincipalError.InvalidFingerprintKey
  else Ok key.

(** [update_field]: a 32-bit length and the bytes; a longer field panics, which is [None]. *)
Definition update_field32 (value : rstr) : option (list Z) :=
  if len value <=? 4294967295 then Some (be_bytes 4 (len value) ++ bytes value) else None.

Definition update_optional_field (value : option rstr) : option (list Z) :=
  match value with
  | Some value => field ← update_field32 value; Some (1 :: field)
  | None => Some [0]
  end.

(** The bytes [derive] feeds to the MAC. *)
Definition fingerprint_input (principal : ApiPrincipal) : option (list Z) :=
  issuer ← update_optional_field (ap_issuer (pr_inner principal));
  tenant ← update_field32 (pr_tenant principal);
  subject ← update_field32 (ap_subject (pr_inner principal));
  Some (FINGERPRINT_DOMAIN ++ issuer ++ tenant ++ subject).

Definition derive `{Hashing} (self : PrincipalFingerprintKey) (principal : ApiPrincipal)
    : option PrincipalFingerprint :=
  hmac_sha256 self <$> fingerprint_input principal.

(** ** The configured API key *)

Record ConfiguredApiKeyValidator := {
  cv_key_digest : Digest;
  cv_principal : AuthenticatedPrincipal;
}.

(** The scopes of the configured key. *)
Definition configured_scopes : list rstr :=
  [scope_as_str Scope.Create; scope_as_str Scope.ArbitraryDestination; scope_as_str Scope.Read;
   scope_as_str Scope.Hangup; scope_as_str Scope.Transfer; scope_as_str Scope.Dtmf;
   str "sip:connect"; str "webrtc:connect"; str "whip:publish"; str "whep:subscribe"].

Definition ConfiguredApiKeyValidator_new `{Hashing} (key : rstr) (tenants : list rstr)
    : result ApiPrincipalError ConfiguredApiKeyValidator :=
  if is_empty key || (MAX_API_BEARER_BYTES <? len key) || bool_decide (44 ∈ key)
     || existsb (λ byte, negb (visible_byte byte)) (bytes key)
  then Err PrincipalError.InvalidStaticApiKey
  else
  match elements (list_to_set tenants : gset rstr) with
  | [tenant] =>
      match TenantId_parse tenant with
      | Err _ => Err PrincipalError.InvalidTenant
      | Ok _ =>
          Ok {| cv_key_digest := sha256 (bytes key);
                cv_principal :=
                  {| ap_subject := str "bridgefu-static-api-key"; ap_tenant := Some tenant;
                     ap_scopes := configured_scopes;
                     ap_issuer := Some (str "bridgefu:configured-api-key");
                     ap_expires_at := None; ap_method := method_ApiKey;
                     ap_assurance := assurance_Pseudonymous (str "bridgefu-static-api-key") |} |}
      end
  | _ => Err PrincipalError.AmbiguousStaticTenant
  end.

Definition key_matches `{Hashing} (self : ConfiguredApiKeyValidator) (candidate : rstr) : bool :=
  if is_empty candidate || (MAX_API_BEARER_BYTES <? len candidate) then false
  else sha256 (bytes candidate) ==? cv_key_digest self.

Definition validate_principal `{Hashing} (self : ConfiguredApiKeyValidator) (token : rstr)
    : result BearerAuthError AuthenticatedPrincipal :=
  if key_matches self token then Ok (cv_principal self)
  else Err (BearerInvalid (str "invalid API key")).
End Principal.
