(* ===== verification/PrincipalThms.v ===== *)
(** Tenant isolation of the control interface: what a bearer credential can reach, for any validator
    and for the configured API key, and that fingerprints never fail on accepted principals. *)

From S2P Require Import Prelude RustText DomainTypes CoordModel Domain RepoTypes Principal.
From stdpp Require Import options.

Section Isolation.
Context `{AuthCore, Hashing}.

Lemma literal_scope_elem (p : ApiPrincipal) s :
  has_literal_scope p s = true ↔ scope_as_str s ∈ ap_scopes (pr_inner p).
Proof.
  unfold has_literal_scope. rewrite existsb_exists. split.
  - intros (c & Hc & E%bool_decide_eq_true). subst. by apply list_elem_of_In.
  - intros Hs. exists (scope_as_str s). split; [by apply list_elem_of_In|]. by apply bool_decide_eq_true_2.
Qed.

(** What [authorize] grants. *)
Definition may (p : ApiPrincipal) (s : CallScope) : Prop :=
  match s with
  | Scope.TenantOverride | Scope.ArbitraryDestination => scope_as_str s ∈ ap_scopes (pr_inner p)
  | _ => has_scope (pr_inner p) (scope_as_str s) = true
  end.

Lemma authorize_iff p s now :
  authorize p s now = Ok () ↔ is_expired_at (pr_inner p) now = false ∧ may p s.
Proof.
  unfold authorize, may. destruct (is_expired_at _ _); [naive_solver|].
  destruct s; rewrite <- ?literal_scope_elem; match goal with |- context [negb ?b] => destruct b end;
    cbn; naive_solver.
Qed.

Lemma TenantId_parse_id s t : TenantId_parse s = Ok t → s = t.
Proof. unfold TenantId_parse. repeat case_match; naive_solver. Qed.

Lemma ApiPrincipal_new_spec inner now p :
  ApiPrincipal_new inner now = Ok p →
  pr_inner p = inner ∧ ap_tenant inner = Some (pr_tenant p) ∧
  TenantId_parse (pr_tenant p) = Ok (pr_tenant p) ∧ is_expired_at inner now = false ∧
  bad_identity MAX_BEARER_SUBJECT_BYTES (ap_subject inner) = false ∧
  (∀ i, ap_issuer inner = Some i → bad_identity MAX_BEARER_ISSUER_BYTES i = false).
Proof.
  unfold ApiPrincipal_new. intros E. destruct (_ || _) eqn:Eb; [done|].
  destruct (is_expired_at inner now) eqn:Ee; [done|]. apply orb_false_iff in Eb as [Es Ei].
  destruct (ap_tenant inner) as [t|] eqn:Et; [|done]. cbn [ok_or mbind result_bind] in E.
  destruct (TenantId_parse t) as [t'|] eqn:Ep; [|done]. pose proof (TenantId_parse_id _ _ Ep). subst t'.
  cbn in E. injection E as <-. split_and!; try done.
  intros i Hi. rewrite Hi in Ei. done.
Qed.

Lemma resolve_tenant_spec p requested op now t :
  resolve_tenant p requested op now = Ok t →
  is_expired_at (pr_inner p) now = false ∧ may p op ∧
  (t = pr_tenant p ∨ requested = Some t ∧ str "calls:tenant-override" ∈ ap_scopes (pr_inner p)).
Proof.
  unfold resolve_tenant. intros E. destruct (authorize p op now) as [[]|] eqn:Ea; [|done].
  apply authorize_iff in Ea as [Ee Em]. split; [done|]. split; [done|]. cbn in E.
  destruct requested as [r|]; [|left; congruence].
  destruct (TenantId_parse r) as [r'|] eqn:Er; [|done]. apply TenantId_parse_id in Er as <-.
  case_bool_decide as Eq; [injection E as <-; by left|].
  destruct (has_literal_scope p Scope.TenantOverride) eqn:Eo; [|done].
  apply literal_scope_elem in Eo. right. split; [|done]. cbn in E. by injection E as <-.
Qed.

(** The credential a header carries. *)
Lemma authenticate_spec validate values now p :
  authenticate validate values now = Ok p →
  ∃ credential inner, parse_bearer values = Ok credential ∧ validate credential = Ok inner ∧
    ApiPrincipal_new inner now = Ok p.
Proof.
  unfold authenticate. intros E. destruct (parse_bearer values) as [c|] eqn:Ep; [|done].
  cbn in E. destruct (validate c) as [inner|[| |m]] eqn:Ev; [|done..]. by exists c, inner.
Qed.

(** C30. Tenant isolation: whatever the validator behind the control interface, an operation that is
    let through is made by a credential that was valid when it was presented and has not expired
    since, that holds the scope of the operation, and it acts on the tenant of that credential; on
    another tenant only when the request named it and the credential lists the override scope
    literally, so that a wildcard scope never crosses tenants. *)
Theorem tenant_isolation validate values at_ now p requested op t :
  authenticate validate values at_ = Ok p → resolve_tenant p requested op now = Ok t →
  ∃ credential inner,
    parse_bearer values = Ok credential ∧ validate credential = Ok inner ∧ pr_inner p = inner ∧
    is_expired_at inner at_ = false ∧ is_expired_at inner now = false ∧ may p op ∧
    (ap_tenant inner = Some t ∨
     requested = Some t ∧ str "calls:tenant-override" ∈ ap_scopes inner).
Proof.
  intros (c & inner & Hc & Hv & Hn)%authenticate_spec (He & Hm & Ht)%resolve_tenant_spec.
  apply ApiPrincipal_new_spec in Hn as (<- & Hten & _ & Hexp & _).
  exists c, (pr_inner p). split_and!; [done..|].
  destruct Ht as [->|[? ?]]; [by left|by right].
Qed.

Lemma elements_singleton_all (l : list rstr) x :
  elements (list_to_set l : gset rstr) = [x] → ∀ y, y ∈ l → y = x.
Proof.
  intros E y Hy. assert (y ∈ elements (list_to_set l : gset rstr)) as Hm
    by (apply elem_of_elements, elem_of_list_to_set; done).
  rewrite E in Hm. by apply list_elem_of_singleton in Hm.
Qed.

(** The configured API key serves one tenant: it can be set up only when every recorded tenant
    is the same, and then every operation it authenticates, whatever tenant the request names,
    acts on that tenant; the presented text has the digest of the configured key. *)
Theorem configured_key_serves_one_tenant key tenants v values at_ now p requested op t :
  ConfiguredApiKeyValidator_new key tenants = Ok v →
  authenticate (validate_principal v) values at_ = Ok p →
  resolve_tenant p requested op now = Ok t →
  tenants ≠ [] ∧ (∀ tenant, tenant ∈ tenants → tenant = t) ∧
  ∃ credential, parse_bearer values = Ok credential ∧ sha256 (bytes credential) = sha256 (bytes key).
Proof.
  unfold ConfiguredApiKeyValidator_new. intros Hv (c & inner & Hc & Hi & Hn)%authenticate_spec Hr.
  destruct (_ || _); [done|]. destruct (elements _) as [|tenant [|]] eqn:Ee; [done| |done].
  destruct (TenantId_parse tenant) eqn:Et; [|done]. injection Hv as <-.
  unfold validate_principal, key_matches in Hi. cbn [cv_key_digest cv_principal] in Hi.
  destruct (is_empty c || _); [done|]. destruct (_ ==? _) eqn:Ed; [|done].
  apply bool_decide_eq_true in Ed. injection Hi as <-.
  apply ApiPrincipal_new_spec in Hn as (Hin & Hten & _). cbn in Hten. injection Hten as ->.
  apply resolve_tenant_spec in Hr as (_ & _ & Ht).
  assert (t = pr_tenant p) as ->.
  { destruct Ht as [?|[_ Hs]]; [done|]. rewrite Hin in Hs. cbn [ap_scopes] in Hs.
    exfalso. revert Hs. apply (bool_decide_unpack _). by vm_compute. }
  split_and!; [by intros ->|by apply elements_singleton_all|by exists c].
Qed.

(** A principal that was accepted always has a fingerprint: the 32-bit lengths never overflow. *)
Lemma accepted_principal_has_fingerprint `{!AuthLaws} inner now p key :
  ApiPrincipal_new inner now = Ok p → is_Some (derive key p).
Proof.
  intros (<- & _ & Ht & _ & Hs & Hi)%ApiPrincipal_new_spec. destruct bearer_bounds as [Bs Bi].
  assert (Hf : ∀ v, len v ≤ 4294967295 → is_Some (update_field32 v)).
  { intros v Hv. unfold update_field32. rewrite (proj2 (Z.leb_le _ _)) by done. by eexists. }
  assert (Hlen : ∀ m v, m ≤ 4294967295 → bad_identity m v = false → len v ≤ 4294967295).
  { intros m v Hm Hb. unfold bad_identity in Hb. apply orb_false_iff in Hb as [Hb _].
    apply orb_false_iff in Hb as [_ Hb]. lia. }
  assert (Htl : len (pr_tenant p) ≤ 4294967295).
  { unfold TenantId_parse in Ht. destruct (negb _) eqn:E; [done|]. bool_hyps.
    unfold MAX_TENANT_ID_BYTES in *. lia. }
  unfold derive, fingerprint_input.
  destruct (Hf _ Htl) as [ft Eft]. destruct (Hf _ (Hlen _ _ Bs Hs)) as [fs Efs].
  unfold update_optional_field. destruct (ap_issuer (pr_inner p)) as [i|] eqn:Ei.
  - destruct (Hf _ (Hlen _ _ Bi (Hi i eq_refl))) as [fi Efi]. rewrite Efi, Eft, Efs. cbn. by eexists.
  - rewrite Eft, Efs. cbn. by eexists.
Qed.
End Isolation.

(** ** A concrete library *)

Definition auth_types_sample : AuthTypes := {|
  AuthenticationMethod := nat;
  method_Jwt := 0%nat; method_ApiKey := 1%nat; method_MutualTls := 2%nat;
  IdentityAssurance := option (rstr * list rstr);
  assurance_Anonymous := None;
  assurance_Pseudonymous id := Some (id, []);
  assurance_TaskScoped id task scopes _ := Some (id ++ task, scopes);
|}.

Definition auth_core_sample : @AuthCore auth_types_sample := {|
  is_expired_at p now := is_some_and (λ e, e <=? now) (ap_expires_at p);
  has_scope p s := existsb (λ c, (c ==? s) || (c ==? str "*")) (ap_scopes p);
  MAX_BEARER_SUBJECT_BYTES := 1024;
  MAX_BEARER_ISSUER_BYTES := 2048;
|}.

Lemma auth_core_sample_laws : @AuthLaws auth_types_sample auth_core_sample.
Proof. split; cbn; [by intros p q now ->|lia]. Qed.

(** A checksum with the type of a digest. *)
Definition checksum (l : list Z) : Z := foldl (λ h b, (h * 257 + b + 1) mod 2 ^ 256) 7 l.
Definition hashing_sample : Hashing := {|
  hmac_sha256 key text := checksum (key ++ text);
  sha256 text := checksum text;
|}.

Definition sample_header : list (option rstr) := [Some (str "bearer key-1")].
Definition sample_validator : result ApiPrincipalError (@ConfiguredApiKeyValidator auth_types_sample) :=
  @ConfiguredApiKeyValidator_new auth_types_sample hashing_sample (str "key-1")
    [str "acme"; str "acme"].
Definition sample_token_principal : @AuthenticatedPrincipal auth_types_sample :=
  @Build_AuthenticatedPrincipal auth_types_sample (str "alice") (Some (str "acme"))
    [str "*"; str "calls:tenant-override"] None (Some 100) 0%nat None.
Definition sample_api_principal : @ApiPrincipal auth_types_sample :=
  @Build_ApiPrincipal auth_types_sample sample_token_principal (str "acme").

(** An override listed literally reaches the other tenant the request names. *)
Lemma tenant_isolation_witness :
  ∃ credential inner,
    parse_bearer sample_header = Ok credential ∧ inner = sample_token_principal ∧
    credential = str "key-1".
Proof.
  destruct (@tenant_isolation auth_types_sample auth_core_sample
    (λ _, Ok sample_token_principal) sample_header 10 20 sample_api_principal (Some (str "umbrella"))
    Scope.Read (str "umbrella")) as (c & inner & Hc & _ & Hi & _); [by vm_compute..|].
  exists c, inner. split_and!; [done..|]. vm_compute in Hc. injection Hc as <-. reflexivity.
Defined.

Lemma configured_key_serves_one_tenant_witness :
  ∃ v, sample_validator = Ok v ∧
  ∃ credential, parse_bearer sample_header = Ok credential ∧
    @sha256 hashing_sample (bytes credential) = @sha256 hashing_sample (bytes (str "key-1")).
Proof.
  destruct sample_validator as [v|e] eqn:Ev; [|by vm_compute in Ev].
  exists v. split; [done|].
  destruct (@authenticate auth_types_sample auth_core_sample
    (@validate_principal auth_types_sample hashing_sample v) sample_header 5) as [p|] eqn:Ep;
    [|vm_compute in Ev; injection Ev as <-; by vm_compute in Ep].
  destruct (@configured_key_serves_one_tenant auth_types_sample auth_core_sample hashing_sample
    (str "key-1") [str "acme"; str "acme"] v sample_header 5 6 p None Scope.Create (str "acme")
    Ev Ep) as (_ & _ & Hc); [|exact Hc].
  vm_compute in Ev. injection Ev as <-. vm_compute in Ep. injection Ep as <-. by vm_compute.
Defined.
