(* ===== verification/ControlCrypto.v ===== *)
(** Request digests, idempotency keys and attachment tokens of the call service
    ([src/call_service/idempotency.rs]).  HMAC, SHA-256 and the URL-safe base64 of the libraries are
    parameters; what is modelled is the text that is authenticated and the checks around it. *)

From S2P Require Import Prelude RustText DomainTypes CoordModel Domain RepoTypes ServiceTypes Principal.
From stdpp Require Import options.

(** [URL_SAFE_NO_PAD]: [encode] and [decode_slice] into a buffer of 32 bytes, which fails when the
    decoded bytes do not fill it. *)
Class Base64 := {
  b64_encode : list Z → rstr;
  b64_decode32 : rstr → option (list Z);
}.

Definition is_octet (b : Z) : Prop := 0 ≤ b < 256.

(** What the code relies on: 32 bytes encode to 43 ASCII characters and decode again, and decoding
    yields 32 bytes. *)
Class Base64Laws `{Base64} : Prop := {
  b64_ascii raw : Forall (λ c, 0 ≤ c < 128) (b64_encode raw);
  b64_length raw : length raw = 32%nat → length (b64_encode raw) = 43%nat;
  b64_decode_encode raw : length raw = 32%nat → Forall is_octet raw →
    b64_decode32 (b64_encode raw) = Some raw;
  b64_decode_octets s raw : b64_decode32 s = Some raw → length raw = 32%nat ∧ Forall is_octet raw;
}.

(** [DateTime::timestamp] and [timestamp_subsec_nanos]. *)
Class ChronoUnix := {
  timestamp : DateTime → Z;
  timestamp_subsec_nanos : DateTime → Z;
}.

(** On the instants the library represents they are the [i64] of whole seconds and the fraction, in
    nanoseconds. *)
Class ChronoUnixLaws `{ChronoUnix} : Prop := {
  timestamp_parts t : Z.abs t ≤ chrono_limit →
    t = timestamp t * 1000000000 + timestamp_subsec_nanos t;
  subsec_range t : Z.abs t ≤ chrono_limit → 0 ≤ timestamp_subsec_nanos t < 1000000000;
}.

Definition MIN_CONTROL_KEY_BYTES : Z := 32.
Definition MAX_CONTROL_KEY_BYTES : Z := 4096.
Definition MAX_IDEMPOTENCY_KEY_BYTES : Z := 255.
Definition ATTACHMENT_TOKEN_TTL_SECONDS : Z := 120.

(** The byte string literals, which end in [\0]. *)
Definition IDEMPOTENCY_KEY_DOMAIN : list Z := str "bridgefu.idempotency-key.v1" ++ [0].
Definition REQUEST_DOMAIN : list Z := str "bridgefu.canonical-request.v1" ++ [0].
Definition ATTACHMENT_DOMAIN : list Z := str "bridgefu.attachment-token.v1" ++ [0].

Inductive ControlCryptoError :=
| InvalidControlKey
| MissingIdempotencyKey
| DuplicateIdempotencyKey
| MalformedIdempotencyKey
| TimestampOverflow.

Inductive AttachmentProofRejected := attachment_proof_rejected.

(** ** Presented attachment tokens *)

Record PresentedAttachmentToken := {
  pa_token : rstr;
  pa_digest : AttachmentTokenDigest;
}.

Definition parse_presented_attachment_token `{Hashing, Base64} (token : rstr)
    : result AttachmentProofRejected PresentedAttachmentToken :=
  let decoded := if len token =? 43 then b64_decode32 token else None in
  let digest :=
    raw ← decoded;
    let canonical := b64_encode raw in
    if (len canonical =? len token) && (bytes canonical ==? bytes token)
    then Some (sha256 raw) else None in
  match digest with
  | Some digest => Ok {| pa_token := token; pa_digest := digest |}
  | None => Err attachment_proof_rejected
  end.

Definition digest_presented_attachment_token `{Hashing, Base64} (token : rstr)
    : result AttachmentProofRejected AttachmentTokenDigest :=
  presented ← parse_presented_attachment_token token;
  Ok (pa_digest presented).

(** ** Idempotency keys *)

Definition IdempotencyKey : Type := rstr.

Definition IdempotencyKey_parse (value : rstr) : result ControlCryptoError IdempotencyKey :=
  if is_empty value || (MAX_IDEMPOTENCY_KEY_BYTES <? len value) || bool_decide (44 ∈ value)
     || existsb (λ byte, negb (visible_byte byte)) (bytes value)
  then Err MalformedIdempotencyKey
  else Ok value.

(** [from_headers]: [values] are the header lines, each as [to_str] reads it. *)
Definition IdempotencyKey_from_headers (values : list (option rstr))
    : result ControlCryptoError IdempotencyKey :=
  match values with
  | [] => Err MissingIdempotencyKey
  | _ :: _ :: _ => Err DuplicateIdempotencyKey
  | [value] =>
      value ← ok_or value MalformedIdempotencyKey;
      IdempotencyKey_parse value
  end.

(** ** Canonical transcripts *)

(** [update_field] and [push_bytes]: a 64-bit length and the bytes. *)
Definition field (value : list Z) : list Z := be_bytes 8 (Z.of_nat (length value)) ++ value.

Definition CanonicalRequestTranscript : Type := list Z.

Definition CanonicalRequestTranscript_new : CanonicalRequestTranscript := [].

Definition push_str (self : CanonicalRequestTranscript) (value : rstr) : CanonicalRequestTranscript :=
  self ++ field (bytes value).

Definition push_optional_str (self : CanonicalRequestTranscript) (value : option rstr)
    : CanonicalRequestTranscript :=
  match value with
  | Some value => push_str (self ++ [1]) value
  | None => self ++ [0]
  end.

Definition push_bytes (self : CanonicalRequestTranscript) (value : list Z)
    : CanonicalRequestTranscript := self ++ field value.

Definition push_u64 (self : CanonicalRequestTranscript) (value : Z) : CanonicalRequestTranscript :=
  self ++ be_bytes 8 value.

(** ** The call service's MACs *)

(** The 16 bytes of a UUID and the 32 bytes of a digest. *)
Definition uuid_bytes (value : Uuid) : list Z := be_bytes 16 value.
Definition digest_bytes (value : Digest) : list Z := be_bytes 32 value.

Definition operation_label (operation : ServiceOperationKind) : list Z :=
  match operation with
  | ServiceOperationKind.CreateCall => str "create_call"
  | ServiceOperationKind.HangupCall => str "hangup_call"
  | ServiceOperationKind.TransferCall => str "transfer_call"
  | ServiceOperationKind.DtmfCall => str "dtmf_call"
  end.

(** The bytes authenticated for the key of an operation. *)
Definition key_input (tenant : TenantId) (key : IdempotencyKey) : list Z :=
  IDEMPOTENCY_KEY_DOMAIN ++ field (bytes tenant) ++ field (bytes key).

(** The bytes authenticated for its request. *)
Definition request_input (tenant : TenantId) (principal : PrincipalFingerprint)
    (operation : ServiceOperationKind) (call_id : option CallId)
    (transcript : CanonicalRequestTranscript) : list Z :=
  REQUEST_DOMAIN ++ field (bytes tenant) ++ field (digest_bytes principal)
  ++ field (operation_label operation)
  ++ match call_id with Some call_id => 1 :: field (uuid_bytes call_id) | None => [0] end
  ++ field transcript.

Record CallServiceCrypto := { cx_key : list Z; cx_fingerprint_key : PrincipalFingerprintKey }.

Definition CallServiceCrypto_new (key : list Z) : result ControlCryptoError CallServiceCrypto :=
  if negb (between MIN_CONTROL_KEY_BYTES MAX_CONTROL_KEY_BYTES (Z.of_nat (length key)))
  then Err InvalidControlKey
  else
  match PrincipalFingerprintKey_new key with
  | Err _ => Err InvalidControlKey
  | Ok fingerprint_key => Ok {| cx_key := key; cx_fingerprint_key := fingerprint_key |}
  end.

Definition principal_fingerprint `{Hashing, AuthCore} (self : CallServiceCrypto)
    (principal : ApiPrincipal) : option PrincipalFingerprint :=
  derive (cx_fingerprint_key self) principal.

Definition operation_idempotency `{Hashing} (self : CallServiceCrypto) (tenant : TenantId)
    (principal : PrincipalFingerprint) (key : IdempotencyKey) (operation : ServiceOperationKind)
    (call_id : option CallId) (transcript : CanonicalRequestTranscript) : OperationIdempotency :=
  {| oi_key_digest := hmac_sha256 (cx_key self) (key_input tenant key);
     oi_request_digest :=
       hmac_sha256 (cx_key self) (request_input tenant principal operation call_id transcript);
     oi_operation := operation |}.

(** ** Attachment tokens *)

Record AttachmentTokenContext := {
  tc_tenant : TenantId;
  tc_call_id : CallId;
  tc_leg_id : LegId;
  tc_generation : BindingGeneration;
  tc_transport : AttachmentTransport;
  tc_purpose : AttachmentPurpose;
  tc_worker : WorkerLease;
  tc_principal : PrincipalFingerprint;
  tc_created_at : DateTime;
}.

Record DerivedAttachmentToken := {
  dt_token : rstr;
  dt_digest : AttachmentTokenDigest;
  dt_expires_at : DateTime;
}.

(** The bytes authenticated for a token that expires at the given instant. *)
Definition attachment_input `{ChronoUnix} (context : AttachmentTokenContext) (expires_at : DateTime)
    : list Z :=
  ATTACHMENT_DOMAIN ++ field (bytes (tc_tenant context)) ++ field (uuid_bytes (tc_call_id context))
  ++ field (uuid_bytes (tc_leg_id context))
  ++ be_bytes 8 (Z.of_N (tc_generation context))
  ++ [match tc_transport context with
      | AttachmentTransport.Sip => 1 | AttachmentTransport.WebRtc => 2 end]
  ++ [match tc_purpose context with
      | AttachmentPurpose.PublicInbound => 1 | AttachmentPurpose.ProviderMedia => 2 end]
  ++ field (uuid_bytes (wl_worker_id (tc_worker context)))
  ++ be_bytes 8 (Z.of_N (wl_fence (tc_worker context)))
  ++ field (digest_bytes (tc_principal context))
  ++ be_bytes 8 (timestamp expires_at)
  ++ be_bytes 4 (timestamp_subsec_nanos expires_at).

Definition attachment_token `{Hashing, Base64, Chrono, ChronoUnix} (self : CallServiceCrypto)
    (context : AttachmentTokenContext) : result ControlCryptoError DerivedAttachmentToken :=
  expires_at ← ok_or (checked_add_signed (tc_created_at context)
                        (from_secs ATTACHMENT_TOKEN_TTL_SECONDS)) TimestampOverflow;
  let raw := digest_bytes (hmac_sha256 (cx_key self) (attachment_input context expires_at)) in
  Ok {| dt_token := b64_encode raw; dt_digest := sha256 raw; dt_expires_at := expires_at |}.
