(* ===== verification/CryptoThms.v ===== *)
(** What is authenticated determines what was meant: the texts the call service feeds to its MACs
    are injective and separated by domain, and an issued attachment token is recognised exactly. *)

From S2P Require Import Prelude RustText DomainTypes CoordModel Domain RepoTypes ServiceTypes RepoCatalog.
From S2P Require Import Principal PrincipalThms ControlCrypto.
From stdpp Require Import options.

(** ** UTF-8 is prefix-free *)

Definition scalars (s : rstr) : Prop := Forall (λ c, 0 ≤ c < 1114112) s.

Lemma encode_utf8_inj c c' r r' :
  0 ≤ c < 1114112 → 0 ≤ c' < 1114112 → encode_utf8 c ++ r = encode_utf8 c' ++ r' → c = c' ∧ r = r'.
Proof.
  unfold encode_utf8. intros Hc Hc' E.
  destruct (Z.ltb_spec c 128), (Z.ltb_spec c' 128), (Z.ltb_spec c 2048), (Z.ltb_spec c' 2048),
    (Z.ltb_spec c 65536), (Z.ltb_spec c' 65536); try lia; cbn [app] in E;
    injection E as E; subst;
    try (exfalso; Z.to_euclidean_division_equations; lia);
    (split; [Z.to_euclidean_division_equations; lia|done]).
Qed.

Lemma bytes_inj s s' : scalars s → scalars s' → bytes s = bytes s' → s = s'.
Proof.
  unfold bytes. intros Hs. revert s'. induction Hs as [|c s Hc Hs IH]; intros s' Hs' E.
  - destruct s' as [|c' s']; [done|]. cbn in E. unfold encode_utf8 in E.
    by repeat case_match; cbn in E.
  - destruct s' as [|c' s'].
    + cbn in E. unfold encode_utf8 in E. by repeat case_match; cbn in E.
    + apply Forall_cons in Hs' as [Hc' Hs']. cbn in E.
      apply encode_utf8_inj in E as [-> E]; [|done..]. f_equal. by apply IH.
Qed.

Lemma bytes_length_nonneg s : 0 ≤ len s.
Proof. unfold len. lia. Qed.

(** ** Fixed-width and length-prefixed fields *)

Lemma be_bytes_inj n v v' :
  0 ≤ v < 256 ^ Z.of_nat n → 0 ≤ v' < 256 ^ Z.of_nat n → be_bytes n v = be_bytes n v' → v = v'.
Proof. intros Hv Hv' E. rewrite <- (of_be_bytes_to n v), E by done. by apply of_be_bytes_to. Qed.

Lemma be_bytes_mod n v : be_bytes n v = be_bytes n (v mod 256 ^ Z.of_nat n).
Proof.
  revert v. induction n as [|n IH]; intros v; [done|]. cbn [be_bytes].
  assert (H : 0 < 256 ^ Z.of_nat n) by (apply Z.pow_pos_nonneg; lia).
  rewrite !land_255, !shiftr_8, (IH (v / 256)), (IH (v mod 256 ^ Z.of_nat (S n) / 256)).
  rewrite Nat2Z.inj_succ, Z.pow_succ_r by lia. f_equal.
  - f_equal. rewrite Z.rem_mul_r by lia. rewrite (Z.mul_comm 256), Z.div_add by lia.
    rewrite (Z.div_small (v mod 256)) by (apply Z.mod_pos_bound; lia).
    by rewrite Z.add_0_l, Z.mod_mod by lia.
  - f_equal. rewrite Z.rem_mul_r by lia. rewrite (Z.mul_comm 256), Z.mod_add by lia.
    by rewrite Z.mod_mod by lia.
Qed.

(** An [i64] in two's complement. *)
Lemma be_bytes_i64_inj v v' :
  - 2 ^ 63 ≤ v < 2 ^ 63 → - 2 ^ 63 ≤ v' < 2 ^ 63 → be_bytes 8 v = be_bytes 8 v' → v = v'.
Proof.
  intros Hv Hv' E. rewrite (be_bytes_mod 8 v), (be_bytes_mod 8 v') in E.
  change (256 ^ Z.of_nat 8) with (2 ^ 64) in E.
  apply be_bytes_inj in E; [|apply Z.mod_pos_bound; lia..].
  Z.to_euclidean_division_equations. lia.
Qed.

Lemma app_fixed_inj {A} (l l' r r' : list A) :
  length l = length l' → l ++ r = l' ++ r' → l = l' ∧ r = r'.
Proof. intros. by apply app_inj_1. Qed.

Lemma be_bytes_app_inj n v v' r r' :
  be_bytes n v ++ r = be_bytes n v' ++ r' → be_bytes n v = be_bytes n v' ∧ r = r'.
Proof. apply app_fixed_inj. by rewrite !length_be_bytes. Qed.

(** A field fits its 64-bit length. *)
Definition fits (v : list Z) : Prop := Z.of_nat (length v) < 256 ^ 8.

Lemma field_app_inj v v' r r' :
  fits v → fits v' → field v ++ r = field v' ++ r' → v = v' ∧ r = r'.
Proof.
  intros Hv Hv' E. unfold field, fits in *. rewrite <- !app_assoc in E.
  apply be_bytes_app_inj in E as [El E]. apply be_bytes_inj in El; [|change (Z.of_nat 8) with 8; lia..].
  apply app_fixed_inj in E; [done|lia].
Qed.

Lemma field_inj v v' : fits v → fits v' → field v = field v' → v = v'.
Proof.
  intros Hv Hv' E. apply (field_app_inj v v' [] []); [done..|]. by rewrite !app_nil_r.
Qed.

Lemma field32_app_inj v v' f f' r r' :
  update_field32 v = Some f → update_field32 v' = Some f' → scalars v → scalars v' →
  f ++ r = f' ++ r' → v = v' ∧ r = r'.
Proof.
  unfold update_field32. intros Hf Hf' Hs Hs' E.
  destruct (Z.leb_spec (len v) 4294967295), (Z.leb_spec (len v') 4294967295); try done.
  apply (inj Some) in Hf as <-. apply (inj Some) in Hf' as <-. rewrite <- !app_assoc in E.
  pose proof (bytes_length_nonneg v). pose proof (bytes_length_nonneg v').
  apply be_bytes_app_inj in E as [El E]. apply be_bytes_inj in El; [|change (Z.of_nat 4) with 4; lia..].
  apply app_fixed_inj in E as [E ->]; [|unfold len in El; lia]. split; [|done]. by apply bytes_inj.
Qed.

(** ** Well-formed values *)

Definition tenant_ok (t : TenantId) : Prop := TenantId_parse t = Ok t.
Definition uuid_ok (u : Uuid) : Prop := 0 ≤ u < 2 ^ 128.
Definition digest_ok (d : Digest) : Prop := 0 ≤ d < 2 ^ 256.

Lemma tenant_byte_ascii c : tenant_byte c = true → 0 ≤ c < 128.
Proof.
  unfold tenant_byte, contains. intros [H|H]%orb_true_iff.
  - unfold is_ascii_alphanumeric, is_ascii_digit, is_ascii_lowercase, is_ascii_uppercase, between in H.
    lia.
  - apply bool_decide_eq_true in H. cbn in H. set_unfold in H. naive_solver lia.
Qed.

Lemma tenant_ok_spec t : tenant_ok t → scalars t ∧ fits (bytes t) ∧ len t ≤ 4294967295.
Proof.
  unfold tenant_ok, TenantId_parse. intros Ht. destruct (negb _) eqn:E; [done|]. bool_hyps.
  assert (Hf : len t ≤ 128) by (unfold MAX_TENANT_ID_BYTES in *; lia).
  rewrite bytes_all_ascii in H0 by (intros c Hc; apply tenant_byte_ascii in Hc; lia).
  split_and!.
  - apply Forall_forall. intros c Hc. rewrite forallb_forall in H0.
    specialize (H0 c (proj1 (list_elem_of_In _ _) Hc)). apply tenant_byte_ascii in H0. lia.
  - unfold fits, len in *. lia.
  - lia.
Qed.

Lemma uuid_fits u : fits (uuid_bytes u).
Proof. unfold fits, uuid_bytes. rewrite length_be_bytes. lia. Qed.
Lemma digest_fits d : fits (digest_bytes d).
Proof. unfold fits, digest_bytes. rewrite length_be_bytes. lia. Qed.
Lemma label_fits o : fits (operation_label o).
Proof. by destruct o. Qed.

Lemma uuid_bytes_inj u u' : uuid_ok u → uuid_ok u' → uuid_bytes u = uuid_bytes u' → u = u'.
Proof. intros ??. apply be_bytes_inj; done. Qed.
Lemma digest_bytes_inj d d' : digest_ok d → digest_ok d' → digest_bytes d = digest_bytes d' → d = d'.
Proof. intros ??. apply be_bytes_inj; done. Qed.
Lemma label_inj o o' : operation_label o = operation_label o' → o = o'.
Proof. by destruct o, o'. Qed.

#[export] Hint Resolve uuid_fits digest_fits label_fits : rust.

(** ** What each text says *)

(** The four kinds of text authenticated with the control key, which also serves the fingerprints. *)
Section Texts.
Context `{AuthCore, ChronoUnix}.

Inductive authenticated :=
| AKey (tenant : TenantId) (key : IdempotencyKey)
| ARequest (tenant : TenantId) (principal : PrincipalFingerprint) (operation : ServiceOperationKind)
    (call_id : option CallId) (transcript : CanonicalRequestTranscript)
| AToken (context : AttachmentTokenContext) (expires_at : DateTime)
| AFingerprint (principal : ApiPrincipal).

Definition authenticated_input (a : authenticated) : option (list Z) :=
  match a with
  | AKey t k => Some (key_input t k)
  | ARequest t p o c tr => Some (request_input t p o c tr)
  | AToken cx e => Some (attachment_input cx e)
  | AFingerprint p => fingerprint_input p
  end.

Definition context_ok (cx : AttachmentTokenContext) : Prop :=
  tenant_ok (tc_tenant cx) ∧ uuid_ok (tc_call_id cx) ∧ uuid_ok (tc_leg_id cx) ∧
  uuid_ok (wl_worker_id (tc_worker cx)) ∧ digest_ok (tc_principal cx) ∧
  (tc_generation cx < 2 ^ 64)%N ∧ (wl_fence (tc_worker cx) < 2 ^ 64)%N.

(** The values the code can build: validated identifiers, machine-width numbers, text. *)
Definition authenticated_ok (a : authenticated) : Prop :=
  match a with
  | AKey t k => tenant_ok t ∧ IdempotencyKey_parse k = Ok k
  | ARequest t p o c tr => tenant_ok t ∧ digest_ok p ∧ from_option uuid_ok True c ∧ fits tr
  | AToken cx e => context_ok cx ∧ Z.abs e ≤ chrono_limit
  | AFingerprint p =>
      tenant_ok (pr_tenant p) ∧ scalars (ap_subject (pr_inner p)) ∧
      from_option scalars True (ap_issuer (pr_inner p))
  end.

Definition token_subject (cx : AttachmentTokenContext) :=
  (tc_tenant cx, tc_call_id cx, tc_leg_id cx, tc_generation cx, tc_transport cx, tc_purpose cx,
   tc_worker cx, tc_principal cx).

(** Two texts mean the same: for fingerprints the same owner, elsewhere the same values, except the
    creation time of a token, of which only the expiry is authenticated. *)
Definition same_meaning (a b : authenticated) : Prop :=
  match a, b with
  | AFingerprint p, AFingerprint q =>
      pr_tenant p = pr_tenant q ∧ ap_subject (pr_inner p) = ap_subject (pr_inner q) ∧
      ap_issuer (pr_inner p) = ap_issuer (pr_inner q)
  | AToken cx e, AToken cx' e' =>
      e = e' ∧ token_subject cx = token_subject cx'
  | AFingerprint _, _ | _, AFingerprint _ | AToken _ _, _ | _, AToken _ _ => False
  | _, _ => a = b
  end.

Lemma key_ok_spec k : IdempotencyKey_parse k = Ok k → scalars k ∧ fits (bytes k).
Proof.
  unfold IdempotencyKey_parse. intros Hk. destruct (_ || _) eqn:E; [done|].
  apply orb_false_iff in E as [E1 E2]. repeat apply orb_false_iff in E1 as [E1 ?].
  unfold MAX_IDEMPOTENCY_KEY_BYTES in *.
  assert (Hv : forallb visible_byte (bytes k) = true).
  { apply forallb_forall. intros b Hb. destruct (visible_byte b) eqn:Eb; [done|].
    rewrite <- E2. apply existsb_exists. exists b. by rewrite Eb. }
  rewrite bytes_all_ascii in Hv by (unfold visible_byte, between; intros; lia). split.
  - apply Forall_forall. intros c Hc. rewrite forallb_forall in Hv.
    specialize (Hv c (proj1 (list_elem_of_In _ _) Hc)). unfold visible_byte, between in Hv. lia.
  - unfold fits, len in *. lia.
Qed.

Lemma key_input_inj t k t' k' :
  authenticated_ok (AKey t k) → authenticated_ok (AKey t' k') →
  key_input t k = key_input t' k' → t = t' ∧ k = k'.
Proof.
  intros [[? [? _]]%tenant_ok_spec [? ?]%key_ok_spec] [[? [? _]]%tenant_ok_spec [? ?]%key_ok_spec] E.
  unfold key_input in E. apply app_fixed_inj in E as [_ E]; [|done].
  apply field_app_inj in E as [Et E]; [|done..]. apply field_inj in E; [|done..].
  split; by apply bytes_inj.
Qed.

Lemma request_input_inj t p o c tr t' p' o' c' tr' :
  authenticated_ok (ARequest t p o c tr) → authenticated_ok (ARequest t' p' o' c' tr') →
  request_input t p o c tr = request_input t' p' o' c' tr' →
  ARequest t p o c tr = ARequest t' p' o' c' tr'.
Proof.
  intros ([? [? _]]%tenant_ok_spec & ? & Hc & ?) ([? [? _]]%tenant_ok_spec & ? & Hc' & ?) E.
  unfold request_input in E. apply app_fixed_inj in E as [_ E]; [|done].
  apply field_app_inj in E as [Et E]; [|done..]. apply bytes_inj in Et as ->; [|done..].
  apply field_app_inj in E as [Ep E]; [|auto with rust..].
  apply digest_bytes_inj in Ep as ->; [|done..].
  apply field_app_inj in E as [Eo E]; [|auto with rust..]. apply label_inj in Eo as ->.
  destruct c as [c|], c' as [c'|]; cbn [app] in E; try done; apply (inj2 cons) in E as [_ E].
  - apply field_app_inj in E as [Ec E]; [|auto with rust..]. apply uuid_bytes_inj in Ec as ->; [|done..].
    apply field_inj in E as ->; done.
  - apply field_inj in E as ->; done.
Qed.

Lemma timestamp_floor `{!ChronoUnixLaws} t : Z.abs t ≤ chrono_limit → timestamp t = t / 1000000000.
Proof.
  intros Ht. pose proof (timestamp_parts t Ht). pose proof (subsec_range t Ht).
  apply (Z.div_unique_pos _ _ _ (timestamp_subsec_nanos t)); lia.
Qed.

Lemma timestamp_range `{!ChronoUnixLaws} t :
  Z.abs t ≤ chrono_limit → - 2 ^ 63 ≤ timestamp t < 2 ^ 63.
Proof.
  intros Ht. rewrite (timestamp_floor t Ht). unfold chrono_limit in Ht.
  Z.to_euclidean_division_equations. lia.
Qed.

Lemma attachment_input_inj `{!ChronoUnixLaws} cx e cx' e' :
  authenticated_ok (AToken cx e) → authenticated_ok (AToken cx' e') →
  attachment_input cx e = attachment_input cx' e' → e = e' ∧ token_subject cx = token_subject cx'.
Proof.
  intros [(Ht & ? & ? & ? & ? & ? & ?) He] [(Ht' & ? & ? & ? & ? & ? & ?) He'] E.
  apply tenant_ok_spec in Ht as (? & ? & _). apply tenant_ok_spec in Ht' as (? & ? & _).
  unfold attachment_input in E. apply app_fixed_inj in E as [_ E]; [|done].
  apply field_app_inj in E as [Et E]; [|done..]. apply bytes_inj in Et; [|done..].
  apply field_app_inj in E as [Ec%uuid_bytes_inj E]; [|auto with rust..].
  apply field_app_inj in E as [El%uuid_bytes_inj E]; [|auto with rust..].
  apply be_bytes_app_inj in E as [Eg%be_bytes_inj E]; [|change (256 ^ Z.of_nat 8) with (2 ^ 64); lia..].
  apply app_fixed_inj in E as [Er E]; [|done]. apply app_fixed_inj in E as [Ep E]; [|done].
  apply field_app_inj in E as [Ew%uuid_bytes_inj E]; [|auto with rust..].
  apply be_bytes_app_inj in E as [Ef%be_bytes_inj E]; [|change (256 ^ Z.of_nat 8) with (2 ^ 64); lia..].
  apply field_app_inj in E as [Ed%digest_bytes_inj E]; [|auto with rust..].
  apply be_bytes_app_inj in E as [Es%be_bytes_i64_inj En]; [|by apply timestamp_range..].
  apply be_bytes_inj in En; [|change (256 ^ Z.of_nat 4) with (2 ^ 32); pose proof (subsec_range e He); pose proof (subsec_range e' He'); lia..].
  split; [by rewrite (timestamp_parts e), (timestamp_parts e'), Es, En|].
  assert (tc_transport cx = tc_transport cx') by (by destruct (tc_transport cx), (tc_transport cx')).
  assert (tc_purpose cx = tc_purpose cx') by (by destruct (tc_purpose cx), (tc_purpose cx')).
  unfold token_subject. destruct (tc_worker cx) as [w f], (tc_worker cx') as [w' f']. cbn in *.
  apply N2Z.inj in Eg, Ef. congruence.
Qed.

Lemma fingerprint_input_inj p q x :
  authenticated_ok (AFingerprint p) → authenticated_ok (AFingerprint q) →
  fingerprint_input p = Some x → fingerprint_input q = Some x →
  same_meaning (AFingerprint p) (AFingerprint q).
Proof.
  intros (Ht & Hs & Hi) (Ht' & Hs' & Hi') E E'. unfold fingerprint_input in *.
  apply tenant_ok_spec in Ht as (? & _). apply tenant_ok_spec in Ht' as (? & _).
  apply bind_Some in E as (i & Ei & E). apply bind_Some in E as (t & Et & E).
  apply bind_Some in E as (s & Es & E). apply bind_Some in E' as (i' & Ei' & E').
  apply bind_Some in E' as (t' & Et' & E'). apply bind_Some in E' as (s' & Es' & E').
  apply (inj Some) in E as <-. apply (inj Some) in E'.
  apply app_fixed_inj in E' as [_ E]; [|done]. symmetry in E.
  assert (Hrest : t ++ s = t' ++ s' → pr_tenant p = pr_tenant q ∧
    ap_subject (pr_inner p) = ap_subject (pr_inner q)).
  { intros Er. eapply field32_app_inj in Er as [Ett Er]; [|done..]. split; [done|].
    rewrite <- (app_nil_r s), <- (app_nil_r s') in Er.
    by eapply field32_app_inj in Er as [? _]. }
  cbn. unfold update_optional_field in *.
  destruct (ap_issuer (pr_inner p)) as [ip|], (ap_issuer (pr_inner q)) as [iq|].
  - apply bind_Some in Ei as (a & Ea & Ei). apply bind_Some in Ei' as (b & Eb & Ei').
    apply (inj Some) in Ei as <-. apply (inj Some) in Ei' as <-.
    cbn [app] in E. apply (inj2 cons) in E as [_ E]. eapply field32_app_inj in E as [Eip E]; [|done..].
    apply Hrest in E as [? ?]. by subst.
  - apply bind_Some in Ei as (a & Ea & Ei). by simplify_eq.
  - apply bind_Some in Ei' as (b & Eb & Ei'). by simplify_eq.
  - simplify_eq. by apply Hrest in E as [? ?].
Qed.

Lemma domains_differ a b x :
  authenticated_input a = Some x → authenticated_input b = Some x →
  match a, b with
  | AKey _ _, AKey _ _ | ARequest _ _ _ _ _, ARequest _ _ _ _ _ | AToken _ _, AToken _ _
  | AFingerprint _, AFingerprint _ => True
  | _, _ => False
  end.
Proof.
  intros Ha Hb. assert (Hd : ∀ a, authenticated_input a = Some x →
    x !! 9%nat = Some (match a with AKey _ _ => 105 | ARequest _ _ _ _ _ => 99 | AToken _ _ => 97
                                | AFingerprint _ => 112 end)).
  { intros [| | |p] E; cbn in E; [by simplify_eq..|]. unfold fingerprint_input in E.
    apply bind_Some in E as (i & _ & E). apply bind_Some in E as (t & _ & E).
    apply bind_Some in E as (s & _ & E). by simplify_eq. }
  apply Hd in Ha, Hb. rewrite Ha in Hb. by destruct a, b.
Qed.

(** C29. Everything the call service authenticates with its control key is unambiguous: when two
    well-formed idempotency keys, requests, attachment tokens or principals give the MAC the same
    bytes, they are of the same kind (the key is shared with the principal fingerprints, and only
    the domain prefix keeps the four apart) and agree on every value that was written: the tenant
    and key; the tenant, principal, operation, call and transcript; the whole subject of a token
    and its expiry; the issuer, tenant and subject of a principal.  No value can be moved across a
    field boundary. *)
Theorem authenticated_text_is_unambiguous `{!ChronoUnixLaws} a b x :
  authenticated_ok a → authenticated_ok b →
  authenticated_input a = Some x → authenticated_input b = Some x → same_meaning a b.
Proof.
  intros Ha Hb Ea Eb. pose proof (domains_differ a b x Ea Eb) as Hk. destruct a, b; try done.
  - cbn [authenticated_input] in Ea, Eb. rewrite <- Ea in Eb. apply (inj Some) in Eb.
    by eapply key_input_inj in Eb as [-> ->].
  - cbn [authenticated_input] in Ea, Eb. rewrite <- Ea in Eb. apply (inj Some) in Eb. by eapply request_input_inj in Eb as ->.
  - cbn [authenticated_input] in Ea, Eb. rewrite <- Ea in Eb. apply (inj Some) in Eb.
    eapply attachment_input_inj in Eb as [-> Es]; [|done..]. by split.
  - by eapply fingerprint_input_inj.
Qed.
End Texts.

(** ** Attachment tokens *)

Section Tokens.
#[local] Set Default Proof Using "Type*".
Context `{Hashing, Base64, ChronoLaws, ChronoUnix, !Base64Laws}.

Lemma ascii_len (s : rstr) : Forall (λ c, 0 ≤ c < 128) s → len s = Z.of_nat (length s) ∧ bytes s = s.
Proof. intros Hs. unfold len. rewrite bytes_ascii; [done|]. eapply Forall_impl; [done|]. cbn. lia. Qed.

Lemma b64_len raw : length raw = 32%nat → len (b64_encode raw) = 43.
Proof. intros Hr. destruct (ascii_len _ (b64_ascii raw)) as [-> _]. by rewrite b64_length. Qed.

(** Exactly the canonical encodings of 32 bytes are accepted. *)
Lemma parse_presented_iff token p : scalars token →
  parse_presented_attachment_token token = Ok p ↔
  ∃ raw, length raw = 32%nat ∧ Forall is_octet raw ∧ token = b64_encode raw ∧
    p = {| pa_token := token; pa_digest := sha256 raw |}.
Proof.
  intros Hs. unfold parse_presented_attachment_token. split.
  - destruct (len token =? 43) eqn:El; [|done].
    destruct (b64_decode32 token) as [raw|] eqn:Ed; [|done]. cbn.
    destruct (_ && _) eqn:Ec; [|done]. intros [= <-]. bool_hyps. apply b64_decode_octets in Ed as [? ?].
    exists raw. split_and!; [done..| |done]. apply bytes_inj; [done| |by symmetry].
    eapply Forall_impl; [apply b64_ascii|]. cbn. lia.
  - intros (raw & Hl & Ho & -> & ->). rewrite b64_len, b64_decode_encode by done.
    change (43 =? 43) with true. cbn [mbind option_bind].
    by rewrite b64_len, Z.eqb_refl, bool_decide_eq_true_2 by done.
Qed.

Lemma digest_octets d : Forall is_octet (digest_bytes d).
Proof. eapply Forall_impl; [apply be_bytes_bytes|]. done. Qed.

(** A token that is issued is the token that is recognised: it parses back to itself with the
    digest that was stored for it, it expires exactly two minutes after the instant it was derived
    from, and no other text is recognised with the same raw bytes: any text the parser accepts is
    the canonical encoding of the 32 bytes whose digest it reports, so padding, the other alphabet
    or spare trailing bits never give a second spelling of a live token. *)
Theorem issued_token_is_recognised cx ctx t :
  attachment_token cx ctx = Ok t →
  dt_expires_at t = tc_created_at ctx + from_secs 120 ∧
  parse_presented_attachment_token (dt_token t) =
    Ok {| pa_token := dt_token t; pa_digest := dt_digest t |} ∧
  (∀ text p, scalars text → parse_presented_attachment_token text = Ok p →
     ∃ raw, text = b64_encode raw ∧ pa_digest p = sha256 raw ∧ length raw = 32%nat ∧
       b64_decode32 text = Some raw) ∧
  (∀ text p raw, scalars text → parse_presented_attachment_token text = Ok p →
     b64_decode32 text = Some raw → b64_decode32 (dt_token t) = Some raw → text = dt_token t).
Proof.
  unfold attachment_token. intros Ht. destruct (checked_add_signed _ _) as [e|] eqn:Ee; [|done].
  cbn [ok_or mbind result_bind] in Ht. injection Ht as <-. cbn [dt_expires_at dt_token dt_digest].
  set (raw := digest_bytes _). assert (Hl : length raw = 32%nat) by apply length_be_bytes.
  assert (Ho : Forall is_octet raw) by apply digest_octets.
  apply checked_add_signed_exact in Ee. split_and!; [done| | |].
  - apply parse_presented_iff; [|by exists raw].
    eapply Forall_impl; [apply b64_ascii|]. cbn. lia.
  - intros text p Hs (r & Hr & Hro & -> & ->)%parse_presented_iff; [|done].
    exists r. split_and!; [done..|]. by apply b64_decode_encode.
  - intros text p r Hs (r' & Hr & Hro & -> & _)%parse_presented_iff; [|done].
    rewrite !b64_decode_encode by done. congruence.
Qed.
End Tokens.

(** ** A concrete encoding and calendar *)

Definition b64_alphabet : rstr :=
  str "ABCDEFGHIJKLMNOPQRSTUVWXYZabcdefghijklmnopqrstuvwxyz0123456789-_".
Definition b64_char (d : Z) : rchar := nth (Z.to_nat d) b64_alphabet 65.
Definition b64_digit (c : rchar) : option Z :=
  Z.of_nat ∘ fst <$> list_find (λ x, x = c) b64_alphabet.

Fixpoint sextets (n : nat) (v : Z) : list Z :=
  match n with O => [] | S n => sextets n (v / 64) ++ [v mod 64] end.
Definition of_sextets (l : list Z) : Z := foldl (λ acc d, acc * 64 + d) 0 l.

(** 32 bytes are 43 sextets whose last two bits are zero. *)
Definition base64_sample : Base64 := {|
  b64_encode raw := map b64_char (sextets 43 (of_be_bytes raw * 4));
  b64_decode32 s :=
    digits ← mapM b64_digit s;
    if (length s =? 43)%nat && (of_sextets digits mod 4 =? 0)
    then Some (be_bytes 32 (of_sextets digits / 4)) else None;
|}.

Lemma sextets_length n v : length (sextets n v) = n.
Proof. revert v. induction n as [|n IH]; intros v; cbn; [done|]. rewrite length_app, IH. cbn. lia. Qed.

Lemma sextets_range n v : Forall (λ d, 0 ≤ d < 64) (sextets n v).
Proof.
  revert v. induction n as [|n IH]; intros v; cbn; [done|]. apply Forall_app. split; [apply IH|].
  constructor; [|done]. apply Z.mod_pos_bound. lia.
Qed.

Lemma of_sextets_to n v : 0 ≤ v < 64 ^ Z.of_nat n → of_sextets (sextets n v) = v.
Proof.
  revert v. induction n as [|n IH]; intros v Hv; [cbn in *; lia|].
  rewrite Nat2Z.inj_succ, Z.pow_succ_r in Hv by lia.
  cbn [sextets]. unfold of_sextets in *. rewrite foldl_app, IH; cbn [foldl].
  - pose proof (Z.div_mod v 64). lia.
  - split; [apply Z.div_pos; lia|apply Z.div_lt_upper_bound; lia].
Qed.

Lemma b64_chars_ok :
  forallb (λ d, bool_decide (b64_digit (b64_char d) = Some d) && (0 <=? b64_char d)
                && (b64_char d <? 128)) (seqZ 0 64) = true.
Proof. by vm_compute. Qed.

Lemma b64_char_spec d : 0 ≤ d < 64 → b64_digit (b64_char d) = Some d ∧ 0 ≤ b64_char d < 128.
Proof.
  intros Hd. pose proof b64_chars_ok as H. rewrite forallb_forall in H.
  specialize (H d). rewrite <- list_elem_of_In in H.
  assert (d ∈ seqZ 0 64) as Hm by (apply elem_of_seqZ; lia). apply H in Hm. bool_hyps. split; [done|lia].
Qed.

Lemma b64_digits_of n v : mapM b64_digit (map b64_char (sextets n v)) = Some (sextets n v).
Proof.
  apply mapM_Some, Forall2_fmap_l, Forall_Forall2_diag. eapply Forall_impl; [apply sextets_range|].
  intros d Hd. by apply b64_char_spec.
Qed.

Lemma base64_sample_laws : @Base64Laws base64_sample.
Proof.
  split; cbn [b64_encode b64_decode32 base64_sample].
  - intros raw. apply Forall_map. eapply Forall_impl; [apply sextets_range|].
    intros d Hd. by apply b64_char_spec.
  - intros raw _. by rewrite length_map, sextets_length.
  - intros raw Hl Ho. assert (Forall is_byte raw) as Hb by done.
    destruct (be_bytes_of raw Hb) as [Hr Hrange]. rewrite Hl in Hr, Hrange.
    change (256 ^ Z.of_nat 32) with (2 ^ 256) in Hrange.
    rewrite b64_digits_of. cbn [mbind option_bind]. rewrite length_map, sextets_length.
    rewrite of_sextets_to by (change (64 ^ Z.of_nat 43) with (4 * 2 ^ 256); lia).
    rewrite Z.mod_mul, Z.div_mul by lia. by rewrite Hr.
  - intros s raw Hd. apply bind_Some in Hd as (ds & _ & Hd). destruct (_ && _); [|done].
    apply (inj Some) in Hd as <-. split; [apply length_be_bytes|]. apply be_bytes_bytes.
Qed.

Definition chrono_unix_sample : ChronoUnix := {|
  timestamp t := t / 1000000000;
  timestamp_subsec_nanos t := t mod 1000000000;
|}.

Lemma chrono_unix_sample_laws : @ChronoUnixLaws chrono_unix_sample.
Proof.
  split; cbn; intros t Ht; unfold chrono_limit in Ht; Z.to_euclidean_division_equations; lia.
Qed.

Definition sample_token_context : AttachmentTokenContext :=
  {| tc_tenant := str "acme"; tc_call_id := 11; tc_leg_id := 12; tc_generation := 1%N;
     tc_transport := AttachmentTransport.WebRtc; tc_purpose := AttachmentPurpose.PublicInbound;
     tc_worker := {| wl_worker_id := 7; wl_fence := 3%N |}; tc_principal := 99;
     tc_created_at := 1000 |}.
Definition sample_crypto : CallServiceCrypto :=
  {| cx_key := be_bytes 32 77; cx_fingerprint_key := be_bytes 32 77 |}.

(** The same owner with other scopes has the same fingerprint text. *)
Lemma authenticated_text_is_unambiguous_witness :
  @same_meaning auth_types_sample (AFingerprint sample_api_principal)
    (@AFingerprint auth_types_sample
       (@Build_ApiPrincipal auth_types_sample
          (@Build_AuthenticatedPrincipal auth_types_sample (str "alice") (Some (str "acme"))
             [str "calls:read"] None None 1%nat None) (str "acme"))).
Proof.
  destruct (@fingerprint_input auth_types_sample sample_api_principal) as [x|] eqn:Ex;
    [|by vm_compute in Ex].
  apply (@authenticated_text_is_unambiguous auth_types_sample chrono_unix_sample
    chrono_unix_sample_laws _ _ x); [..|done|rewrite <- Ex; reflexivity].
  all: split_and!; [reflexivity| |exact I].
  all: apply (bool_decide_unpack _); by vm_compute.
Defined.

Lemma issued_token_is_recognised_witness :
  ∃ t, @attachment_token hashing_sample base64_sample chrono_sample chrono_unix_sample sample_crypto
    sample_token_context = Ok t ∧
  @parse_presented_attachment_token hashing_sample base64_sample (dt_token t) =
    Ok {| pa_token := dt_token t; pa_digest := dt_digest t |}.
Proof.
  destruct (@attachment_token hashing_sample base64_sample chrono_sample chrono_unix_sample
    sample_crypto sample_token_context) as [t|e] eqn:Et; [|by vm_compute in Et].
  exists t. split; [reflexivity|].
  apply (@issued_token_is_recognised hashing_sample base64_sample chrono_sample chrono_sample_laws
    chrono_unix_sample base64_sample_laws sample_crypto sample_token_context t Et).
Defined.
