(* ===== verification/GatewayAttachment.v ===== *)
(** Routing of a presented attachment token to its exact worker and the private admission exchange
    ([src/gateway_attachment.rs]).  The JSON of [serde_json] and the data message of the media core
    are parameters; zeroization and redacted [Debug] output have no effect on values. *)

From S2P Require Import Prelude RustText DomainTypes CoordModel Domain RepoTypes CoordMemory.
From S2P Require Import Principal ControlCrypto.
From stdpp Require Import options.

Definition PRIVATE_ATTACHMENT_ADMISSION_REQUEST_LABEL : rstr :=
  str "bridgefu.private.attachment.admit.v1".
Definition PRIVATE_ATTACHMENT_ADMISSION_RESPONSE_LABEL : rstr :=
  str "bridgefu.private.attachment.result.v1".
Definition PRIVATE_ATTACHMENT_CONTENT_TYPE : rstr := str "application/json".
Definition PRIVATE_ATTACHMENT_PROTOCOL_VERSION : Z := 1.
Definition MAX_PRIVATE_ATTACHMENT_MESSAGE_BYTES : Z := 16 * 1024.

Module Gateway.
Inductive GatewayAttachmentError :=
| ProofRejected | RoutingUnavailable | InvalidProtocol | AdmissionRejected.
End Gateway.
Abbreviation GatewayAttachmentError := Gateway.GatewayAttachmentError.

(** [map_err] to a fixed error. *)
Definition map_err_to {E E' A} (e : E') (r : result E A) : result E' A :=
  match r with Ok a => Ok a | Err _ => Err e end.

(** ** Principal claims *)

Record AttachmentPrincipalClaim := {
  pc_subject : rstr;
  pc_tenant : rstr;
  pc_issuer : option rstr;
  pc_expires_at : option DateTime;
}.

Definition from_authenticated `{AuthCore} (principal : AuthenticatedPrincipal) (now : DateTime)
    : result GatewayAttachmentError AttachmentPrincipalClaim :=
  validated ← map_err_to Gateway.ProofRejected (ApiPrincipal_new principal now);
  Ok {| pc_subject := ap_subject principal; pc_tenant := pr_tenant validated;
        pc_issuer := ap_issuer principal; pc_expires_at := ap_expires_at principal |}.

Definition into_authenticated `{AuthCore} (self : AttachmentPrincipalClaim) (now : DateTime)
    : result GatewayAttachmentError AuthenticatedPrincipal :=
  let principal :=
    {| ap_subject := pc_subject self; ap_tenant := Some (pc_tenant self); ap_scopes := [];
       ap_issuer := pc_issuer self; ap_expires_at := pc_expires_at self;
       ap_method := method_MutualTls; ap_assurance := assurance_Anonymous |} in
  map_err_to Gateway.ProofRejected (_ ← ApiPrincipal_new principal now; Ok principal).

(** ** Admission requests and responses *)

Record WorkerAttachmentAdmissionRequest := {
  rq_version : Z;
  rq_request_id : Uuid;
  rq_expected_worker : WorkerLease;
  rq_transport : AttachmentTransport;
  rq_principal : AttachmentPrincipalClaim;
  rq_routing_token : rstr;
}.

Record WorkerAttachmentAdmissionParts `{AuthTypes} := {
  wp_request_id : Uuid;
  wp_transport : AttachmentTransport;
  wp_principal : AuthenticatedPrincipal;
  wp_routing_token : rstr;
}.

Definition into_worker_parts `{AuthCore, Hashing, Base64} (self : WorkerAttachmentAdmissionRequest)
    (actual_worker : WorkerLease) (now : DateTime)
    : result GatewayAttachmentError WorkerAttachmentAdmissionParts :=
  if negb (rq_version self =? PRIVATE_ATTACHMENT_PROTOCOL_VERSION) || is_nil (rq_request_id self)
     || (rq_expected_worker self !=? actual_worker)
  then Err Gateway.AdmissionRejected
  else
    token ← map_err_to Gateway.AdmissionRejected
              (parse_presented_attachment_token (rq_routing_token self));
    principal ← map_err_to Gateway.AdmissionRejected (into_authenticated (rq_principal self) now);
    Ok {| wp_request_id := rq_request_id self; wp_transport := rq_transport self;
          wp_principal := principal; wp_routing_token := pa_token token |}.

Record WorkerAttachmentAdmissionReceipt := {
  ad_tenant_id : TenantId;
  ad_call_id : CallId;
  ad_leg_id : LegId;
  ad_binding_generation : BindingGeneration;
  ad_worker : WorkerLease;
}.

Inductive WorkerAttachmentAdmissionOutcome := Outcome_Admitted | Outcome_Rejected | Outcome_Unavailable.

Record WorkerAttachmentAdmissionResponse := {
  rs_version : Z;
  rs_request_id : Uuid;
  rs_outcome : WorkerAttachmentAdmissionOutcome;
  rs_receipt : option WorkerAttachmentAdmissionReceipt;
}.

Definition admitted (request_id : Uuid) (receipt : WorkerAttachmentAdmissionReceipt)
    : WorkerAttachmentAdmissionResponse :=
  {| rs_version := PRIVATE_ATTACHMENT_PROTOCOL_VERSION; rs_request_id := request_id;
     rs_outcome := Outcome_Admitted; rs_receipt := Some receipt |}.

Definition rejected (request_id : Uuid) : WorkerAttachmentAdmissionResponse :=
  {| rs_version := PRIVATE_ATTACHMENT_PROTOCOL_VERSION; rs_request_id := request_id;
     rs_outcome := Outcome_Rejected; rs_receipt := None |}.

Definition unavailable (request_id : Uuid) : WorkerAttachmentAdmissionResponse :=
  {| rs_version := PRIVATE_ATTACHMENT_PROTOCOL_VERSION; rs_request_id := request_id;
     rs_outcome := Outcome_Unavailable; rs_receipt := None |}.

Definition into_receipt (self : WorkerAttachmentAdmissionResponse) (expected_request_id : Uuid)
    (expected_worker : WorkerLease)
    : result GatewayAttachmentError WorkerAttachmentAdmissionReceipt :=
  if negb (rs_version self =? PRIVATE_ATTACHMENT_PROTOCOL_VERSION)
     || negb (rs_request_id self =? expected_request_id) || is_nil expected_request_id
  then Err Gateway.InvalidProtocol
  else
  match rs_outcome self, rs_receipt self with
  | Outcome_Admitted, Some receipt =>
      if ad_worker receipt ==? expected_worker then Ok receipt else Err Gateway.InvalidProtocol
  | Outcome_Rejected, None => Err Gateway.AdmissionRejected
  | Outcome_Unavailable, None => Err Gateway.RoutingUnavailable
  | _, _ => Err Gateway.InvalidProtocol
  end.

(** ** The private messages *)

(** [DataReliability], of which the source names one, and [DataMessage]. *)
Inductive DataReliability := ReliableOrdered | OtherReliability.

Record DataMessage := {
  dm_label : rstr;
  dm_content_type : rstr;
  dm_reliability : DataReliability;
  dm_bytes : list Z;
}.

(** [serde_json] on the two records, as bytes and as text, and the checks of the media core. *)
Class PrivateWire := {
  request_to_vec : WorkerAttachmentAdmissionRequest → option (list Z);
  request_from_slice : list Z → option WorkerAttachmentAdmissionRequest;
  request_to_string : WorkerAttachmentAdmissionRequest → option rstr;
  request_from_str : rstr → option WorkerAttachmentAdmissionRequest;
  response_to_vec : WorkerAttachmentAdmissionResponse → option (list Z);
  response_from_slice : list Z → option WorkerAttachmentAdmissionResponse;
  message_validate : DataMessage → bool;
  MAX_INBOUND_ROUTING_HINT_BYTES : Z;
}.

(** What is written reads back, is never empty, and a reliable message with a label, a content type
    and bounded bytes is valid. *)
Class PrivateWireLaws `{PrivateWire} : Prop := {
  request_bytes_roundtrip r b : request_to_vec r = Some b → request_from_slice b = Some r ∧ b ≠ [];
  request_text_roundtrip r t : request_to_string r = Some t → request_from_str t = Some r;
  response_bytes_roundtrip r b :
    response_to_vec r = Some b → response_from_slice b = Some r ∧ b ≠ [];
  message_validate_json label b :
    label ∈ [PRIVATE_ATTACHMENT_ADMISSION_REQUEST_LABEL; PRIVATE_ATTACHMENT_ADMISSION_RESPONSE_LABEL] →
    Z.of_nat (length b) ≤ 16 * 1024 →
    message_validate {| dm_label := label; dm_content_type := str "application/json";
                        dm_reliability := ReliableOrdered; dm_bytes := b |} = true;
}.

Section Wire.
Context `{PrivateWire}.

(** [DataMessage::reliable]. *)
Definition reliable (label content_type : rstr) (b : list Z) : DataMessage :=
  {| dm_label := label; dm_content_type := content_type; dm_reliability := ReliableOrdered;
     dm_bytes := b |}.

Definition validate_private_message (message : DataMessage) (expected_label : rstr)
    : result GatewayAttachmentError () :=
  if negb (message_validate message) then Err Gateway.InvalidProtocol
  else if (dm_label message !=? expected_label)
     || (dm_content_type message !=? PRIVATE_ATTACHMENT_CONTENT_TYPE)
     || match dm_reliability message with ReliableOrdered => false | _ => true end
     || is_empty (dm_bytes message)
     || (MAX_PRIVATE_ATTACHMENT_MESSAGE_BYTES <? Z.of_nat (length (dm_bytes message)))
  then Err Gateway.InvalidProtocol
  else Ok ().

Definition request_to_data_message (self : WorkerAttachmentAdmissionRequest)
    : result GatewayAttachmentError DataMessage :=
  b ← ok_or (request_to_vec self) Gateway.InvalidProtocol;
  if MAX_PRIVATE_ATTACHMENT_MESSAGE_BYTES <? Z.of_nat (length b) then Err Gateway.InvalidProtocol
  else Ok (reliable PRIVATE_ATTACHMENT_ADMISSION_REQUEST_LABEL PRIVATE_ATTACHMENT_CONTENT_TYPE b).

Definition request_from_data_message (message : DataMessage)
    : result GatewayAttachmentError WorkerAttachmentAdmissionRequest :=
  validate_private_message message PRIVATE_ATTACHMENT_ADMISSION_REQUEST_LABEL;;
  ok_or (request_from_slice (dm_bytes message)) Gateway.InvalidProtocol.

Definition to_routing_hint (self : WorkerAttachmentAdmissionRequest)
    : result GatewayAttachmentError rstr :=
  encoded ← ok_or (request_to_string self) Gateway.InvalidProtocol;
  if is_empty encoded || (MAX_INBOUND_ROUTING_HINT_BYTES <? len encoded) || existsb is_control encoded
  then Err Gateway.InvalidProtocol
  else Ok encoded.

Definition from_routing_hint (routing_hint : rstr)
    : result GatewayAttachmentError WorkerAttachmentAdmissionRequest :=
  if is_empty routing_hint || (MAX_INBOUND_ROUTING_HINT_BYTES <? len routing_hint)
  then Err Gateway.InvalidProtocol
  else ok_or (request_from_str routing_hint) Gateway.InvalidProtocol.

Definition response_to_data_message (self : WorkerAttachmentAdmissionResponse)
    : result GatewayAttachmentError DataMessage :=
  b ← ok_or (response_to_vec self) Gateway.InvalidProtocol;
  if MAX_PRIVATE_ATTACHMENT_MESSAGE_BYTES <? Z.of_nat (length b) then Err Gateway.InvalidProtocol
  else Ok (reliable PRIVATE_ATTACHMENT_ADMISSION_RESPONSE_LABEL PRIVATE_ATTACHMENT_CONTENT_TYPE b).

Definition response_from_data_message (message : DataMessage)
    : result GatewayAttachmentError WorkerAttachmentAdmissionResponse :=
  validate_private_message message PRIVATE_ATTACHMENT_ADMISSION_RESPONSE_LABEL;;
  ok_or (response_from_slice (dm_bytes message)) Gateway.InvalidProtocol.
End Wire.

(** ** The gateway *)

Record GatewayAttachmentAuthorization := {
  ga_route : AttachmentRouteHint;
  ga_principal : AttachmentPrincipalClaim;
  ga_token : PresentedAttachmentToken;
}.

Definition ga_tenant_id (self : GatewayAttachmentAuthorization)
    : result GatewayAttachmentError TenantId :=
  map_err_to Gateway.ProofRejected (TenantId_parse (pc_tenant (ga_principal self))).

Definition into_request (self : GatewayAttachmentAuthorization) (request_id : Uuid)
    : WorkerAttachmentAdmissionRequest :=
  {| rq_version := PRIVATE_ATTACHMENT_PROTOCOL_VERSION; rq_request_id := request_id;
     rq_expected_worker := ar_worker (ga_route self); rq_transport := ar_transport (ga_route self);
     rq_principal := ga_principal self; rq_routing_token := pa_token (ga_token self) |}.

(** The resolver; the projection it shares is the argument of [resolve]. *)
Record GatewayAttachmentResolver := {
  gr_fingerprint_key : PrincipalFingerprintKey;
  gr_route_catalog_fingerprint : option RouteCatalogFingerprint;
}.
#[export] Instance GatewayAttachmentResolver_eta : Eta GatewayAttachmentResolver :=
  λ r, Build_GatewayAttachmentResolver (gr_fingerprint_key r) (gr_route_catalog_fingerprint r).

Definition GatewayAttachmentResolver_new (fingerprint_key : list Z)
    : result GatewayAttachmentError GatewayAttachmentResolver :=
  fingerprint_key ← map_err_to Gateway.RoutingUnavailable (PrincipalFingerprintKey_new fingerprint_key);
  Ok {| gr_fingerprint_key := fingerprint_key; gr_route_catalog_fingerprint := None |}.

Definition with_route_catalog_fingerprint (self : GatewayAttachmentResolver)
    (fingerprint : RouteCatalogFingerprint) : GatewayAttachmentResolver :=
  self <| gr_route_catalog_fingerprint := Some fingerprint |>.

Definition map_projection_error (_ : CoordinationError) : GatewayAttachmentError :=
  Gateway.RoutingUnavailable.

(** [resolve].  [hint] is [CoordinationProjection::attachment_route_hint] at the projection's own
    clock and state; [None] is the panic of an identity too long for its fingerprint. *)
Definition resolve `{AuthCore, Hashing, Base64} {P : Type}
    (hint : AttachmentRouteLookup → P * result CoordinationError (option AttachmentRouteHint))
    (unread : P) (self : GatewayAttachmentResolver) (principal : AuthenticatedPrincipal)
    (routing_token : rstr) (transport : AttachmentTransport) (now : DateTime)
    : option (P * result GatewayAttachmentError GatewayAttachmentAuthorization) :=
  match map_err_to Gateway.ProofRejected (ApiPrincipal_new principal now) with
  | Err e => Some (unread, Err e)
  | Ok principal =>
  match map_err_to Gateway.ProofRejected (parse_presented_attachment_token routing_token) with
  | Err e => Some (unread, Err e)
  | Ok token =>
  tenant_binding ← derive (gr_fingerprint_key self) principal;
  let lookup := {| al_token_digest := pa_digest token; al_transport := transport;
                   al_tenant_binding := tenant_binding |} in
  let '(projection, found) := hint lookup in
  Some (projection,
    route ← match found with
            | Err e => Err (map_projection_error e)
            | Ok None => Err Gateway.ProofRejected
            | Ok (Some route) => Ok route
            end;
    if (ar_token_digest route !=? al_token_digest lookup)
       || (ar_transport route !=? transport)
       || (ar_tenant_binding route !=? al_tenant_binding lookup)
       || (ar_expires_at route <=? now)
       || is_some_and (λ expected, ar_route_catalog_fingerprint route !=? Some expected)
            (gr_route_catalog_fingerprint self)
    then Err Gateway.ProofRejected
    else
      principal ← from_authenticated (pr_inner principal) now;
      Ok {| ga_route := route; ga_principal := principal; ga_token := token |})
  end
  end.
