(* ===== verification/GatewayThms.v ===== *)
(** An attachment reaches the worker it was issued for, on behalf of its owner: the gateway's lookup,
    the private exchange and the worker's own checks composed. *)

From S2P Require Import Prelude RustText DomainTypes CoordModel Domain RepoTypes CoordMemory.
From S2P Require Import CoordInv CoordTheorems RepoCatalog.
From S2P Require Import Principal PrincipalThms ControlCrypto CryptoThms GatewayAttachment.
From stdpp Require Import options.

Lemma map_err_to_Ok {E E' A} (e : E') (r : result E A) a : map_err_to e r = Ok a ↔ r = Ok a.
Proof. destruct r; cbn; naive_solver. Qed.

(** ** Claims keep the owner *)

Section Claims.
Context `{AuthLaws}.
#[local] Set Default Proof Using "Type*".

(** What [ApiPrincipal_new] looks at. *)
Lemma ApiPrincipal_new_iff inner now t :
  ApiPrincipal_new inner now = Ok {| pr_inner := inner; pr_tenant := t |} ↔
  bad_identity MAX_BEARER_SUBJECT_BYTES (ap_subject inner) = false ∧
  is_some_and (bad_identity MAX_BEARER_ISSUER_BYTES) (ap_issuer inner) = false ∧
  is_expired_at inner now = false ∧ ap_tenant inner = Some t ∧ TenantId_parse t = Ok t.
Proof.
  unfold ApiPrincipal_new. destruct (bad_identity _ _), (is_some_and _ _); cbn [orb]; try naive_solver.
  destruct (is_expired_at inner now); [naive_solver|].
  destruct (ap_tenant inner) as [t'|]; cbn [ok_or mbind result_bind]; [|naive_solver].
  destruct (TenantId_parse t') as [t''|] eqn:Et.
  - pose proof (TenantId_parse_id _ _ Et) as <-. cbn. naive_solver.
  - cbn. split; [done|]. intros (_ & _ & _ & [= ->] & ?). congruence.
Qed.

Lemma ApiPrincipal_new_Ok inner now p :
  ApiPrincipal_new inner now = Ok p → p = {| pr_inner := inner; pr_tenant := pr_tenant p |}.
Proof. intros (<- & _)%ApiPrincipal_new_spec. by destruct p. Qed.

(** The principal the worker rebuilds from a claim. *)
Definition rebuilt (c : AttachmentPrincipalClaim) : AuthenticatedPrincipal :=
  {| ap_subject := pc_subject c; ap_tenant := Some (pc_tenant c); ap_scopes := [];
     ap_issuer := pc_issuer c; ap_expires_at := pc_expires_at c; ap_method := method_MutualTls;
     ap_assurance := assurance_Anonymous |}.

Lemma into_authenticated_rebuilt c later q : into_authenticated c later = Ok q → q = rebuilt c.
Proof.
  unfold into_authenticated. rewrite map_err_to_Ok. fold (rebuilt c).
  destruct (ApiPrincipal_new _ _); cbn; [|done]. by intros [= <-].
Qed.

(** A claim made of a principal is accepted at any later time exactly while the credential lives,
    and gives the worker a principal with the same tenant, owner and expiry. *)
Lemma claim_keeps_owner p now a c later :
  ApiPrincipal_new p now = Ok a → from_authenticated p now = Ok c →
  c = {| pc_subject := ap_subject p; pc_tenant := pr_tenant a; pc_issuer := ap_issuer p;
         pc_expires_at := ap_expires_at p |} ∧
  (into_authenticated c later = Ok (rebuilt c) ↔ is_expired_at p later = false) ∧
  (is_expired_at p later = false →
   ApiPrincipal_new (rebuilt c) later = Ok {| pr_inner := rebuilt c; pr_tenant := pr_tenant a |}) ∧
  fingerprint_input {| pr_inner := rebuilt c; pr_tenant := pr_tenant a |} = fingerprint_input a.
Proof.
  intros Ha Hc. unfold from_authenticated in Hc. rewrite Ha in Hc. cbn in Hc. injection Hc as <-.
  set (c := Build_AttachmentPrincipalClaim _ _ _ _).
  assert (He : is_expired_at (rebuilt c) later = is_expired_at p later)
    by (apply is_expired_at_expiry; done).
  pose proof (ApiPrincipal_new_Ok _ _ _ Ha) as Ea. rewrite Ea in Ha.
  apply ApiPrincipal_new_iff in Ha as (Hs & Hi & _ & _ & Ht).
  assert (Hn : is_expired_at p later = false →
    ApiPrincipal_new (rebuilt c) later = Ok {| pr_inner := rebuilt c; pr_tenant := pr_tenant a |}).
  { intros Hl. apply ApiPrincipal_new_iff. by rewrite He. }
  split_and!; [done| |done|by rewrite Ea].
  split.
  - unfold into_authenticated. fold (rebuilt c). rewrite map_err_to_Ok. intros E.
    destruct (ApiPrincipal_new (rebuilt c) later) as [b|] eqn:Eb; [|done].
    apply ApiPrincipal_new_spec in Eb as (_ & _ & _ & Eb & _). by rewrite <- He.
  - intros Hl. unfold into_authenticated. fold (rebuilt c). by rewrite (Hn Hl).
Qed.
End Claims.

(** ** From the bearer to the worker *)

Section Admission.
Context `{AuthLaws, Hashing, Base64Laws}.
#[local] Set Default Proof Using "Type*".

Lemma parse_presented_token text t :
  parse_presented_attachment_token text = Ok t → pa_token t = text.
Proof.
  unfold parse_presented_attachment_token. intros E.
  repeat (case_match; [|done]). by injection E as <-.
Qed.

(** What a successful resolution has checked. *)
Lemma resolve_Ok {P} (hint : AttachmentRouteLookup → P * _) unread g p text tr now P' auth :
  resolve hint unread g p text tr now = Some (P', Ok auth) →
  ∃ a t binding,
    ApiPrincipal_new p now = Ok a ∧ parse_presented_attachment_token text = Ok t ∧
    derive (gr_fingerprint_key g) a = Some binding ∧
    hint {| al_token_digest := pa_digest t; al_transport := tr; al_tenant_binding := binding |} =
      (P', Ok (Some (ga_route auth))) ∧
    ar_token_digest (ga_route auth) = pa_digest t ∧ ar_transport (ga_route auth) = tr ∧
    ar_tenant_binding (ga_route auth) = binding ∧ now < ar_expires_at (ga_route auth) ∧
    (∀ f, gr_route_catalog_fingerprint g = Some f →
       ar_route_catalog_fingerprint (ga_route auth) = Some f) ∧
    from_authenticated p now = Ok (ga_principal auth) ∧ ga_token auth = t.
Proof.
  unfold resolve. intros E. destruct (ApiPrincipal_new p now) as [a|] eqn:Ea; cbn [map_err_to] in E;
    [|naive_solver].
  destruct (parse_presented_attachment_token text) as [t|] eqn:Et; cbn [map_err_to] in E;
    [|naive_solver].
  destruct (derive _ a) as [binding|] eqn:Eb; [|done]. cbn [mbind option_bind] in E.
  exists a, t, binding. destruct (hint _) as [P1 found] eqn:Eh. injection E as -> E.
  destruct found as [[route|]|]; [|done..]. cbn [mbind result_bind] in E.
  destruct (_ || _) eqn:Ec; [done|]. apply orb_false_iff in Ec as [Ec Ef]. bool_hyps.
  pose proof (ApiPrincipal_new_spec _ _ _ Ea) as (Ei & _). rewrite Ei in E.
  destruct (from_authenticated p now) as [c|] eqn:Ep; [|done]. cbn [mbind result_bind] in E.
  injection E as <-. cbn. split_and!; try done; try lia.
  intros f Hf. rewrite Hf in Ef. cbn in Ef. by apply negb_false_iff, bool_decide_eq_true in Ef.
Qed.

(** What the worker makes of a request of the gateway. *)
Lemma into_worker_parts_iff auth p now a t request_id worker later parts :
  ApiPrincipal_new p now = Ok a → from_authenticated p now = Ok (ga_principal auth) →
  parse_presented_attachment_token (pa_token t) = Ok t → ga_token auth = t →
  into_worker_parts (into_request auth request_id) worker later = Ok parts ↔
  request_id ≠ 0 ∧ worker = ar_worker (ga_route auth) ∧ is_expired_at p later = false ∧
  parts = {| wp_request_id := request_id; wp_transport := ar_transport (ga_route auth);
             wp_principal := rebuilt (ga_principal auth); wp_routing_token := pa_token t |}.
Proof.
  intros Ha Hc Ht Hg. destruct (claim_keeps_owner p now a _ later Ha Hc) as (_ & Hl & _ & _).
  unfold into_worker_parts, is_nil. cbn [into_request rq_version rq_request_id rq_expected_worker
    rq_routing_token rq_principal rq_transport]. rewrite Hg, Ht.
  change (negb (_ =? PRIVATE_ATTACHMENT_PROTOCOL_VERSION)) with false. cbn [orb].
  destruct (Z.eqb_spec request_id 0) as [->|Hid]; cbn [orb]; [naive_solver|].
  case_bool_decide as Hw; cbn [negb]; [|naive_solver]. cbn [map_err_to mbind result_bind].
  destruct (into_authenticated _ later) as [q|e] eqn:Eq; cbn [map_err_to mbind result_bind].
  - pose proof (into_authenticated_rebuilt _ _ _ Eq) as ->. rewrite (proj1 Hl) by done. naive_solver.
  - split; [done|]. intros (_ & _ & He & _). apply Hl in He. congruence.
Qed.

(** C28. An attachment reaches the worker it was issued for, as its owner.  When a gateway authorizes
    a presented bearer, the coordinator projects, under the digest of exactly that bearer, the
    route that was returned; the worker it names is live under that lease, the route's binding is
    the fingerprint of the presenting principal under the gateway's key, and nothing has expired.
    The request made of it is then accepted at a later time by exactly that worker incarnation,
    while the credential lives, with the bearer, the transport and the request identifier unchanged;
    and the principal the worker rebuilds has, under every key, the fingerprint of the presenter. *)
Theorem admission_reaches_the_issuing_worker coord pnow g p text tr now coord' auth request_id worker
    later :
  resolve (attachment_route_hint coord pnow) coord g p text tr now = Some (coord', Ok auth) →
  ∃ a t entry,
    ApiPrincipal_new p now = Ok a ∧ parse_presented_attachment_token text = Ok t ∧
    ms_attachment_routes (mc_state coord) !! pa_digest t = Some entry ∧
    vs_value entry = Some (ga_route auth) ∧
    accepts_attachments (mc_state coord) pnow (ar_worker (ga_route auth)) ∧
    now < ar_expires_at (ga_route auth) ∧ pnow < ar_expires_at (ga_route auth) ∧
    derive (gr_fingerprint_key g) a = Some (ar_tenant_binding (ga_route auth)) ∧
    (∀ parts, into_worker_parts (into_request auth request_id) worker later = Ok parts ↔
       request_id ≠ 0 ∧ worker = ar_worker (ga_route auth) ∧ is_expired_at p later = false ∧
       parts = {| wp_request_id := request_id; wp_transport := tr;
                  wp_principal := rebuilt (ga_principal auth); wp_routing_token := text |}) ∧
    (∀ key b, ApiPrincipal_new (rebuilt (ga_principal auth)) later = Ok b → derive key b = derive key a).
Proof.
  intros (a & t & binding & Ha & Ht & Hb & Hh & Hd & Htr & Hbind & Hnow & _ & Hc & Hg)%resolve_Ok.
  pose proof (parse_presented_token _ _ Ht) as Htext.
  apply (f_equal snd), attachment_route_hint_iff in Hh
    as (_ & _ & _ & Hexp & Hlive & entry & He & _ & Hv).
  exists a, t, entry. split_and!; try done; [by rewrite Hbind| |].
  - intros parts. rewrite <- Htr, <- Htext. apply (into_worker_parts_iff auth p now a t); try done.
    by rewrite Htext.
  - intros key b Hn. destruct (claim_keeps_owner p now a _ later Ha Hc) as (_ & _ & Hl & Hf).
    assert (b = {| pr_inner := rebuilt (ga_principal auth); pr_tenant := pr_tenant a |}) as ->.
    { pose proof (ApiPrincipal_new_Ok _ _ _ Hn) as Eb.
      apply ApiPrincipal_new_spec in Hn as (_ & Htn & _). rewrite Eb. f_equal. cbn in Htn.
      unfold from_authenticated in Hc. rewrite Ha in Hc. cbn in Hc. injection Hc as Hc.
      rewrite <- Hc in Htn. cbn in Htn. congruence. }
    unfold derive. by rewrite Hf.
Qed.
End Admission.

(** ** The private exchange *)

Section Exchange.
Context `{PrivateWireLaws}.
#[local] Set Default Proof Using "Type*".

Lemma validate_private_message_reliable label b :
  label ∈ [PRIVATE_ATTACHMENT_ADMISSION_REQUEST_LABEL; PRIVATE_ATTACHMENT_ADMISSION_RESPONSE_LABEL] →
  Z.of_nat (length b) ≤ MAX_PRIVATE_ATTACHMENT_MESSAGE_BYTES → b ≠ [] →
  validate_private_message (reliable label PRIVATE_ATTACHMENT_CONTENT_TYPE b) label = Ok ().
Proof.
  intros Hl Hb Hne. unfold validate_private_message, reliable, PRIVATE_ATTACHMENT_CONTENT_TYPE.
  rewrite message_validate_json by done.
  cbn [negb dm_label dm_content_type dm_reliability dm_bytes].
  rewrite !bool_decide_eq_true_2 by done.
  cbn [negb orb]. destruct b; [done|]. cbn [is_empty orb]. rewrite (proj2 (Z.ltb_ge _ _)) by done. done.
Qed.

Lemma validate_private_message_label l l' b :
  l ≠ l' → validate_private_message (reliable l PRIVATE_ATTACHMENT_CONTENT_TYPE b) l' =
    Err Gateway.InvalidProtocol.
Proof.
  intros Hne. unfold validate_private_message. destruct (negb _); [done|].
  cbn [reliable dm_label]. by rewrite (bool_decide_eq_false_2 (l = l')) by done.
Qed.

Lemma request_message_exact rq m :
  request_to_data_message rq = Ok m →
  request_from_data_message m = Ok rq ∧ response_from_data_message m = Err Gateway.InvalidProtocol.
Proof.
  unfold request_to_data_message. intros Hm. destruct (request_to_vec rq) as [b|] eqn:Eb; [|done].
  cbn [ok_or mbind result_bind] in Hm. destruct (_ <? _) eqn:El; [done|]. apply Z.ltb_ge in El.
  injection Hm as <-. apply request_bytes_roundtrip in Eb as [Eb Hne]. split.
  - unfold request_from_data_message. rewrite validate_private_message_reliable by (done || set_solver).
    cbn. by rewrite Eb.
  - unfold response_from_data_message. by rewrite validate_private_message_label.
Qed.

Lemma response_message_exact rs m :
  response_to_data_message rs = Ok m →
  response_from_data_message m = Ok rs ∧ request_from_data_message m = Err Gateway.InvalidProtocol.
Proof.
  unfold response_to_data_message. intros Hm. destruct (response_to_vec rs) as [b|] eqn:Eb; [|done].
  cbn [ok_or mbind result_bind] in Hm. destruct (_ <? _) eqn:El; [done|]. apply Z.ltb_ge in El.
  injection Hm as <-. apply response_bytes_roundtrip in Eb as [Eb Hne]. split.
  - unfold response_from_data_message. rewrite validate_private_message_reliable by (done || set_solver).
    cbn. by rewrite Eb.
  - unfold request_from_data_message. by rewrite validate_private_message_label.
Qed.

Lemma routing_hint_exact rq hint : to_routing_hint rq = Ok hint → from_routing_hint hint = Ok rq.
Proof.
  unfold to_routing_hint. intros Hm. destruct (request_to_string rq) as [s|] eqn:Es; [|done].
  cbn [ok_or mbind result_bind] in Hm. destruct (is_empty s || _) eqn:E1; cbn [orb] in Hm; [done|].
  destruct (existsb _ _); [done|]. injection Hm as <-. unfold from_routing_hint. rewrite E1.
  apply request_text_roundtrip in Es. by rewrite Es.
Qed.

Ltac response_cases :=
  unfold into_receipt, admitted, rejected, unavailable, is_nil;
  cbn [rs_version rs_request_id rs_outcome rs_receipt];
  repeat first
    [ progress cbn [negb orb]
    | match goal with |- context [Z.eqb ?a ?b] => destruct (Z.eqb_spec a b); subst end ];
  repeat case_match; try case_bool_decide; split; naive_solver.

Lemma into_receipt_Ok_iff rs expected worker receipt :
  into_receipt rs expected worker = Ok receipt ↔
  rs = admitted expected receipt ∧ expected ≠ 0 ∧ ad_worker receipt = worker.
Proof. destruct rs as [v i o r]. response_cases. Qed.

Lemma into_receipt_Err_iff rs expected worker e :
  into_receipt rs expected worker = Err e ∧ e ≠ Gateway.InvalidProtocol ↔
  expected ≠ 0 ∧ (rs = rejected expected ∧ e = Gateway.AdmissionRejected ∨
                  rs = unavailable expected ∧ e = Gateway.RoutingUnavailable).
Proof. destruct rs as [v i o r]. response_cases. Qed.

(** The private admission exchange is exact: a request reads back from its data message and from
    its routing hint, a response from its data message; a request is never read as a response nor
    a response as a request; and what the gateway takes from a response it reads is a receipt just
    when the response answers this very request (which is never the nil identifier), was admitted,
    and comes from the worker that was asked, while a refusal and an outage stay distinct. *)
Theorem private_exchange_is_exact (rq : WorkerAttachmentAdmissionRequest)
    (rs : WorkerAttachmentAdmissionResponse) (expected : Uuid) (worker : WorkerLease) :
  (∀ m, request_to_data_message rq = Ok m →
     request_from_data_message m = Ok rq ∧ response_from_data_message m = Err Gateway.InvalidProtocol) ∧
  (∀ hint, to_routing_hint rq = Ok hint → from_routing_hint hint = Ok rq) ∧
  (∀ m, response_to_data_message rs = Ok m →
     response_from_data_message m = Ok rs ∧ request_from_data_message m = Err Gateway.InvalidProtocol) ∧
  (∀ receipt, into_receipt rs expected worker = Ok receipt ↔
     rs = admitted expected receipt ∧ expected ≠ 0 ∧ ad_worker receipt = worker) ∧
  (∀ e, into_receipt rs expected worker = Err e ∧ e ≠ Gateway.InvalidProtocol ↔
     expected ≠ 0 ∧ (rs = rejected expected ∧ e = Gateway.AdmissionRejected ∨
                     rs = unavailable expected ∧ e = Gateway.RoutingUnavailable)).
Proof.
  split_and!; [apply request_message_exact|apply routing_hint_exact|apply response_message_exact|..].
  - intros receipt. apply (into_receipt_Ok_iff rs expected worker receipt).
  - intros e. apply (into_receipt_Err_iff rs expected worker e).
Qed.
End Exchange.

(** ** A concrete exchange *)

(** The gateway's principal is the sample one; its route is projected for the token of 32 bytes. *)
Definition sample_bearer : rstr := @b64_encode base64_sample (be_bytes 32 5).
Definition sample_gateway : GatewayAttachmentResolver :=
  {| gr_fingerprint_key := be_bytes 32 77; gr_route_catalog_fingerprint := None |}.
Definition sample_binding : PrincipalFingerprint :=
  default 0 (@derive auth_types_sample hashing_sample (be_bytes 32 77) sample_api_principal).
Definition sample_gateway_route : AttachmentRouteHint :=
  {| ar_token_digest := @sha256 hashing_sample (be_bytes 32 5);
     ar_worker := {| wl_worker_id := 7; wl_fence := 1%N |}; ar_route_catalog_fingerprint := None;
     ar_transport := AttachmentTransport.WebRtc; ar_tenant_binding := sample_binding;
     ar_expires_at := 50 |}.
Definition sample_routed : MemoryCoordinator :=
  @apply_all chrono_sample sample_coordinator
    [(sample_readings 2, sample_event 1%N (Worker (sample_worker 7 1%N false)));
     (sample_readings 4, sample_event 2%N (AttachmentRoute sample_gateway_route))].

Lemma admission_reaches_the_issuing_worker_witness :
  ∃ coord' auth,
    @resolve auth_types_sample auth_core_sample hashing_sample base64_sample _
      (attachment_route_hint sample_routed 10) sample_routed sample_gateway sample_token_principal
      sample_bearer AttachmentTransport.WebRtc 11 = Some (coord', Ok auth) ∧
    ∃ parts, @into_worker_parts auth_types_sample auth_core_sample hashing_sample base64_sample
      (into_request auth 3) {| wl_worker_id := 7; wl_fence := 1%N |} 12 = Ok parts.
Proof.
  destruct (@resolve auth_types_sample auth_core_sample hashing_sample base64_sample _
      (attachment_route_hint sample_routed 10) sample_routed sample_gateway sample_token_principal
      sample_bearer AttachmentTransport.WebRtc 11) as [[coord' [auth|]]|] eqn:E;
    [|exfalso; apply (f_equal (λ o, match o with Some (_, Ok _) => true | _ => false end)) in E;
      by vm_compute in E..].
  exists coord', auth. split; [reflexivity|].
  assert (ga_route auth = sample_gateway_route) as Hr.
  { assert (match @resolve auth_types_sample auth_core_sample hashing_sample base64_sample _
      (attachment_route_hint sample_routed 10) sample_routed sample_gateway sample_token_principal
      sample_bearer AttachmentTransport.WebRtc 11 with
      Some (_, Ok a) => Some (ga_route a) | _ => None end = Some sample_gateway_route) as Hm
      by (vm_compute; reflexivity).
    rewrite E in Hm. by injection Hm. }
  destruct (@admission_reaches_the_issuing_worker auth_types_sample auth_core_sample
    auth_core_sample_laws hashing_sample base64_sample base64_sample_laws sample_routed 10
    sample_gateway sample_token_principal sample_bearer AttachmentTransport.WebRtc 11 coord' auth 3
    {| wl_worker_id := 7; wl_fence := 1%N |} 12 E) as (a & t & entry & _ & _ & _ & _ & _ & _ & _ & _ & Hp & _).
  eexists. apply Hp. rewrite Hr. by split_and!.
Defined.

(** A positive as ASCII digits, least significant bit first. *)
Fixpoint bit_text (p : positive) : rstr :=
  match p with xH => [49] | xO p => 48 :: bit_text p | xI p => 49 :: bit_text p end.
Fixpoint text_bits (s : rstr) : option positive :=
  match s with
  | [] => None
  | [_] => Some xH
  | c :: s => p ← text_bits s; Some (if c =? 48 then xO p else xI p)
  end.

Lemma text_bits_of p : text_bits (bit_text p) = Some p.
Proof. induction p as [p IH|p IH|]; cbn; [| |done]; rewrite IH; by destruct p. Qed.

#[local] Instance claim_eq : EqDecision AttachmentPrincipalClaim. Proof. solve_decision. Defined.
#[local] Instance claim_countable : Countable AttachmentPrincipalClaim.
Proof.
  by apply (inj_countable' (λ c, (pc_subject c, pc_tenant c, pc_issuer c, pc_expires_at c))
    (λ '(s, t, i, e), {| pc_subject := s; pc_tenant := t; pc_issuer := i; pc_expires_at := e |}));
    intros [].
Defined.
#[local] Instance lease_countable : Countable WorkerLease.
Proof.
  by apply (inj_countable' (λ l, (wl_worker_id l, wl_fence l))
    (λ '(w, f), {| wl_worker_id := w; wl_fence := f |})); intros [].
Defined.
#[local] Instance transport_countable : Countable AttachmentTransport.
Proof.
  by apply (inj_countable' (λ t, match t with AttachmentTransport.Sip => true | _ => false end)
    (λ b : bool, if b then AttachmentTransport.Sip else AttachmentTransport.WebRtc)); intros [].
Defined.
#[local] Instance request_eq : EqDecision WorkerAttachmentAdmissionRequest.
Proof. solve_decision. Defined.
#[local] Instance request_countable : Countable WorkerAttachmentAdmissionRequest.
Proof.
  by apply (inj_countable'
    (λ r, (rq_version r, rq_request_id r, rq_expected_worker r, rq_transport r, rq_principal r,
           rq_routing_token r))
    (λ '(v, i, w, t, p, k), {| rq_version := v; rq_request_id := i; rq_expected_worker := w;
       rq_transport := t; rq_principal := p; rq_routing_token := k |})); intros [].
Defined.
#[local] Instance receipt_eq : EqDecision WorkerAttachmentAdmissionReceipt.
Proof. solve_decision. Defined.
#[local] Instance receipt_countable : Countable WorkerAttachmentAdmissionReceipt.
Proof.
  by apply (inj_countable'
    (λ r, (ad_tenant_id r, ad_call_id r, ad_leg_id r, ad_binding_generation r, ad_worker r))
    (λ '(t, c, l, g, w), {| ad_tenant_id := t; ad_call_id := c; ad_leg_id := l;
       ad_binding_generation := g; ad_worker := w |})); intros [].
Defined.
#[local] Instance outcome_eq : EqDecision WorkerAttachmentAdmissionOutcome.
Proof. solve_decision. Defined.
#[local] Instance response_eq : EqDecision WorkerAttachmentAdmissionResponse.
Proof. solve_decision. Defined.
#[local] Instance response_countable : Countable WorkerAttachmentAdmissionResponse.
Proof.
  by apply (inj_countable'
    (λ r, (rs_version r, rs_request_id r,
           match rs_outcome r with Outcome_Admitted => 0 | Outcome_Rejected => 1 | Outcome_Unavailable => 2 end, rs_receipt r))
    (λ '(v, i, o, r), {| rs_version := v; rs_request_id := i;
       rs_outcome := if o =? 0 then Outcome_Admitted else if o =? 1 then Outcome_Rejected else Outcome_Unavailable;
       rs_receipt := r |})); intros [?? [] ?].
Defined.

Definition private_wire_sample : PrivateWire := {|
  request_to_vec r := Some (bit_text (encode r));
  request_from_slice b := text_bits b ≫= decode;
  request_to_string r := Some (bit_text (encode r));
  request_from_str s := text_bits s ≫= decode;
  response_to_vec r := Some (bit_text (encode r));
  response_from_slice b := text_bits b ≫= decode;
  message_validate m := negb (is_empty (dm_label m));
  MAX_INBOUND_ROUTING_HINT_BYTES := 8192;
|}.

Lemma private_wire_sample_laws : @PrivateWireLaws private_wire_sample.
Proof.
  split; cbn.
  - intros r b [= <-]. rewrite text_bits_of. cbn. rewrite decode_encode. by destruct (encode r).
  - intros r t [= <-]. rewrite text_bits_of. cbn. apply decode_encode.
  - intros r b [= <-]. rewrite text_bits_of. cbn. rewrite decode_encode. by destruct (encode r).
  - intros label b Hl _. set_unfold in Hl. by destruct Hl as [->|[->|[]]].
Qed.

Lemma private_exchange_is_exact_witness :
  into_receipt (rejected 3) 3 {| wl_worker_id := 7; wl_fence := 1%N |} = Err Gateway.AdmissionRejected.
Proof.
  apply (@private_exchange_is_exact private_wire_sample private_wire_sample_laws
    {| rq_version := 1; rq_request_id := 3;
       rq_expected_worker := {| wl_worker_id := 7; wl_fence := 1%N |};
       rq_transport := AttachmentTransport.WebRtc;
       rq_principal := {| pc_subject := []; pc_tenant := []; pc_issuer := None; pc_expires_at := None |};
       rq_routing_token := sample_bearer |} (rejected 3) 3 {| wl_worker_id := 7; wl_fence := 1%N |}).
  split; [lia|]. by left.
Defined.
