(* ===== verification/SignalingToken.v ===== *)
(** Short-lived credentials for browser signaling, bound to one attachment
    ([src/signaling_token.rs]).  The JWT library, the text form of UUIDs and the bearer record of the
    authentication library are parameters. *)

From S2P Require Import Prelude RustText DomainTypes CoordModel Domain RepoTypes.
From S2P Require Import Principal ControlCrypto.
From stdpp Require Import options.

Definition SIGNALING_TOKEN_SCOPE : rstr := str "webrtc:connect".
Definition SIGNALING_TOKEN_PREFIX : rstr := str "bfs1.".
Definition SIGNALING_TOKEN_ISSUER : rstr := str "bridgefu:webrtc-signaling".
Definition SIGNALING_TOKEN_AUDIENCE : rstr := str "bridgefu-webrtc".
Definition SIGNALING_TOKEN_VERSION : Z := 1.
Definition MAX_SIGNALING_TOKEN_TTL : Duration := from_secs (2 * 60).

(** A byte string literal ending in [\0]. *)
Definition KEY_DOMAIN : list Z := str "bridgefu.webrtc-signaling-key.v1" ++ [0].
Definition MIN_SECRET_BYTES : Z := 32.
Definition MAX_SECRET_BYTES : Z := 4096.
Definition MAX_TOKEN_BYTES : Z := 8 * 1024.
Definition MAX_IDENTITY_BYTES : Z := 1024.

Module Signaling.
Inductive SignalingTokenError := InvalidSecret | InvalidPrincipal | InvalidExpiry | Signing | Invalid.
End Signaling.
Abbreviation SignalingTokenError := Signaling.SignalingTokenError.

Inductive AuthRejection := Forbidden.

Record SignalingTokenClaims := {
  sc_iss : rstr;
  sc_aud : rstr;
  sc_sub : rstr;
  sc_principal_issuer : option rstr;
  sc_tenant_id : rstr;
  sc_call_id : rstr;
  sc_leg_id : rstr;
  sc_attachment_digest : rstr;
  sc_scope : rstr;
  sc_exp : Z;
  sc_nbf : Z;
  sc_iat : Z;
  sc_jti : rstr;
  sc_ver : Z;
}.

(** ** The libraries *)

(** [jsonwebtoken]: [encode] with HS256, and [decode] with the validation the source sets up (the
    issuer, the audience, expiry and not-before without leeway) at a second of the clock. *)
Class Jwt := {
  jwt_encode : list Z → SignalingTokenClaims → option rstr;
  jwt_decode : list Z → rstr → Z → option SignalingTokenClaims;
}.

(** The text is compact serialization (printable ASCII); it decodes under the same secret to what was
    encoded, exactly while it is valid; decoding checks issuer, audience and the two times. *)
Class JwtLaws `{Jwt} : Prop := {
  jwt_text secret c t : jwt_encode secret c = Some t → Forall (λ ch, 33 ≤ ch ≤ 126) t;
  jwt_decode_encode secret c t now : jwt_encode secret c = Some t →
    sc_iss c = str "bridgefu:webrtc-signaling" → sc_aud c = str "bridgefu-webrtc" →
    sc_nbf c ≤ now ≤ sc_exp c → jwt_decode secret t now = Some c;
  jwt_decode_valid secret t now c c' : jwt_encode secret c = Some t →
    jwt_decode secret t now = Some c' → c' = c ∧ sc_nbf c ≤ now ≤ sc_exp c;
}.

(** [Uuid]: [to_string] (through the identifiers' [Display]) and [parse_str] (through their
    [FromStr]). *)
Class UuidText := {
  uuid_to_string : Uuid → rstr;
  uuid_parse_str : rstr → option Uuid;
}.

Class UuidTextLaws `{UuidText} : Prop := {
  uuid_text_roundtrip u : 0 ≤ u < 2 ^ 128 → uuid_parse_str (uuid_to_string u) = Some u;
  uuid_text_length u : len (uuid_to_string u) = 36;
}.

(** [DateTime::from_timestamp] with no fraction. *)
Class ChronoFrom := { from_timestamp : Z → option DateTime }.
Class ChronoFromLaws `{ChronoFrom} : Prop := {
  from_timestamp_exact s : Z.abs (s * 1000000000) ≤ chrono_limit →
    from_timestamp s = Some (s * 1000000000);
}.

(** [ValidatedBearer::new]: whether the library accepts the principal, identifier and issue time. *)
Class BearerCore `{AuthTypes} := {
  bearer_accepts : AuthenticatedPrincipal → rstr → DateTime → bool;
}.

Record ValidatedBearer `{AuthTypes} := {
  vb_principal : AuthenticatedPrincipal;
  vb_id : option rstr;
  vb_issued_at : option DateTime;
}.

(** [<CallId as FromStr>::from_str] and the same for legs. *)
Definition id_from_str `{UuidText} (label : string) (value : rstr) : result DomainError Uuid :=
  value ← ok_or (uuid_parse_str value) (InvalidIdentifier label);
  from_uuid label value.

(** [u8::is_ascii_hexdigit]. *)
Definition is_ascii_hexdigit (c : Z) : bool := is_ascii_digit c || between 97 102 c || between 65 70 c.

(** ** Checks *)

Section Signaling.
Context `{AuthCore, Hashing, UuidText, Jwt, Chrono, ChronoUnix, ChronoFrom} {bearer : BearerCore}.

Definition validate_identity (principal : AuthenticatedPrincipal)
    : result SignalingTokenError () :=
  tenant ← ok_or (ap_tenant principal) Signaling.InvalidPrincipal;
  if is_empty (trim (ap_subject principal)) || (MAX_IDENTITY_BYTES <? len (ap_subject principal))
     || existsb is_control (ap_subject principal)
     || negb (is_ok (TenantId_parse tenant))
     || is_some_and (λ issuer, is_empty (trim issuer) || (MAX_IDENTITY_BYTES <? len issuer)
                               || existsb is_control issuer) (ap_issuer principal)
  then Err Signaling.InvalidPrincipal
  else Ok ().

(** [i64] subtraction. *)
Definition sub_i64 (a b : Z) : Z := (a - b + 2 ^ 63) mod 2 ^ 64 - 2 ^ 63.

(** [as_secs] of the longest lifetime. *)
Definition MAX_TTL_SECS : Z := MAX_SIGNALING_TOKEN_TTL / 1000000000.

(** [validate_claims_shape], at the second [now] of the wall clock. *)
Definition validate_claims_shape (claims : SignalingTokenClaims) (now : Z)
    : result SignalingTokenError () :=
  if negb (sc_ver claims =? SIGNALING_TOKEN_VERSION)
     || (sc_iss claims !=? SIGNALING_TOKEN_ISSUER) || (sc_aud claims !=? SIGNALING_TOKEN_AUDIENCE)
     || (sc_scope claims !=? SIGNALING_TOKEN_SCOPE) || (128 <? len (sc_jti claims))
     || negb (is_some (uuid_parse_str (sc_jti claims)))
     || negb (is_ok (id_from_str "call" (sc_call_id claims)))
     || negb (is_ok (id_from_str "leg" (sc_leg_id claims)))
     || negb (len (sc_attachment_digest claims) =? 64)
     || negb (forallb (λ byte, is_ascii_hexdigit byte && negb (is_ascii_uppercase byte))
                (bytes (sc_attachment_digest claims)))
  then Err Signaling.Invalid
  else
    validate_identity
      {| ap_subject := sc_sub claims; ap_tenant := Some (sc_tenant_id claims);
         ap_scopes := [SIGNALING_TOKEN_SCOPE]; ap_issuer := sc_principal_issuer claims;
         ap_expires_at := None; ap_method := method_Jwt; ap_assurance := assurance_Anonymous |};;
    if (now <? sc_iat claims) || (now <? sc_nbf claims) || (sc_exp claims <=? now)
       || (sc_exp claims <=? sc_iat claims) || (sc_nbf claims <? sc_iat claims)
       || (let ttl := sub_i64 (sc_exp claims) (sc_iat claims) in (ttl <? 0) || (MAX_TTL_SECS <? ttl))
    then Err Signaling.InvalidExpiry
    else Ok ().

(** ** The service *)

Record SignalingTokenService := { ss_secret : list Z }.

Definition SignalingTokenService_new (control_key : list Z)
    : result SignalingTokenError SignalingTokenService :=
  if negb (between MIN_SECRET_BYTES MAX_SECRET_BYTES (Z.of_nat (length control_key)))
  then Err Signaling.InvalidSecret
  else Ok {| ss_secret := digest_bytes (hmac_sha256 control_key KEY_DOMAIN) |}.

Record IssuedSignalingToken := { it_token : rstr; it_expires_at : DateTime }.

(** The expiry of a token: the earliest of the attachment's, the principal's and the longest
    lifetime. *)
Definition token_expiry (principal : AuthenticatedPrincipal) (attachment_expires_at : DateTime)
    (maximum_expiry : DateTime) : DateTime :=
  let expires_at := Z.min attachment_expires_at maximum_expiry in
  match ap_expires_at principal with
  | Some principal_expiry => Z.min expires_at principal_expiry
  | None => expires_at
  end.

(** [issue], with the fresh UUID [jti]; [None] is the panic of a date beyond the calendar. *)
Definition issue (self : SignalingTokenService) (principal : AuthenticatedPrincipal)
    (call_id : CallId) (leg_id : LegId) (attachment_token : rstr) (attachment_expires_at : DateTime)
    (now : DateTime) (jti : Uuid) : option (result SignalingTokenError IssuedSignalingToken) :=
  match validate_identity principal with
  | Err e => Some (Err e)
  | Ok _ =>
  if is_empty attachment_token || (MAX_IDENTITY_BYTES <? len attachment_token)
  then Some (Err Signaling.Invalid)
  else
  match from_std MAX_SIGNALING_TOKEN_TTL with
  | None => Some (Err Signaling.InvalidExpiry)
  | Some ttl =>
  maximum_expiry ← checked_add_signed now ttl;
  let expires_at := token_expiry principal attachment_expires_at maximum_expiry in
  Some
    (if expires_at <=? now then Err Signaling.InvalidExpiry
     else
       tenant_id ← ok_or (ap_tenant principal) Signaling.InvalidPrincipal;
       let claims :=
         {| sc_iss := SIGNALING_TOKEN_ISSUER; sc_aud := SIGNALING_TOKEN_AUDIENCE;
            sc_sub := ap_subject principal; sc_principal_issuer := ap_issuer principal;
            sc_tenant_id := tenant_id; sc_call_id := uuid_to_string call_id;
            sc_leg_id := uuid_to_string leg_id;
            sc_attachment_digest := to_hex (sha256 (bytes attachment_token));
            sc_scope := SIGNALING_TOKEN_SCOPE; sc_exp := timestamp expires_at;
            sc_nbf := timestamp now; sc_iat := timestamp now; sc_jti := uuid_to_string jti;
            sc_ver := SIGNALING_TOKEN_VERSION |} in
       encoded ← ok_or (jwt_encode (ss_secret self) claims) Signaling.Signing;
       Ok {| it_token := SIGNALING_TOKEN_PREFIX ++ encoded; it_expires_at := expires_at |})
  end
  end.

(** [validate_claims], at an instant of the wall clock. *)
Definition validate_claims (self : SignalingTokenService) (token : rstr) (clock : DateTime)
    : result SignalingTokenError SignalingTokenClaims :=
  if (MAX_TOKEN_BYTES <? len token) || existsb is_control token then Err Signaling.Invalid
  else
    encoded ← ok_or (strip_prefix SIGNALING_TOKEN_PREFIX token) Signaling.Invalid;
    claims ← ok_or (jwt_decode (ss_secret self) encoded (timestamp clock)) Signaling.Invalid;
    validate_claims_shape claims (timestamp clock);;
    Ok claims.

Definition principal_from_claims (claims : SignalingTokenClaims)
    : result SignalingTokenError ValidatedBearer :=
  expires_at ← ok_or (from_timestamp (sc_exp claims)) Signaling.InvalidExpiry;
  issued_at ← ok_or (from_timestamp (sc_iat claims)) Signaling.InvalidExpiry;
  let scopes := [SIGNALING_TOKEN_SCOPE] in
  let principal :=
    {| ap_subject := sc_sub claims; ap_tenant := Some (sc_tenant_id claims); ap_scopes := scopes;
       ap_issuer := sc_principal_issuer claims; ap_expires_at := Some expires_at;
       ap_method := method_Jwt;
       ap_assurance := assurance_TaskScoped (sc_sub claims) (sc_call_id claims) scopes expires_at |} in
  if bearer_accepts principal (sc_jti claims) issued_at
  then Ok {| vb_principal := principal; vb_id := Some (sc_jti claims); vb_issued_at := Some issued_at |}
  else Err Signaling.Invalid.

Definition validate_credential (self : SignalingTokenService) (token : rstr) (clock : DateTime)
    : result BearerAuthError ValidatedBearer :=
  let invalid := BearerInvalid (str "invalid signaling credential") in
  match (claims ← validate_claims self token clock; principal_from_claims claims) with
  | Ok credential => Ok credential
  | Err _ => Err invalid
  end.

(** [WsBearerSessionBinding::authorize]. *)
Definition authorize_session (self : SignalingTokenService) (token session_hint : rstr)
    (principal : AuthenticatedPrincipal) (clock : DateTime) : result AuthRejection () :=
  match validate_claims self token clock with
  | Err _ => Err Forbidden
  | Ok claims =>
      let expected_digest := to_hex (sha256 (bytes session_hint)) in
      let exact_attachment := bytes (sc_attachment_digest claims) ==? bytes expected_digest in
      let exact_principal :=
        (sc_sub claims ==? ap_subject principal)
        && (sc_tenant_id claims ==? default [] (ap_tenant principal))
        && (sc_principal_issuer claims ==? ap_issuer principal)
        && (Z.of_nat (length (ap_scopes principal)) =? 1)
        && has_scope principal SIGNALING_TOKEN_SCOPE in
      if exact_attachment && exact_principal then Ok () else Err Forbidden
  end.

(** [WebRtcSignalingBearerValidator::validate_credential], over any control-plane validator. *)
Definition selected_validate_credential
    (control : rstr → result BearerAuthError ValidatedBearer) (signaling : SignalingTokenService)
    (token : rstr) (clock : DateTime) : result BearerAuthError ValidatedBearer :=
  if starts_with SIGNALING_TOKEN_PREFIX token then validate_credential signaling token clock
  else control token.
End Signaling.
