(* ===== verification/SignalingThms.v ===== *)
(** What a signaling token gives: exactly the attachment, owner and seconds it was issued for. *)

From S2P Require Import Prelude RustText DomainTypes CoordModel Domain RepoTypes RepoCatalog.
From S2P Require Import Principal PrincipalThms ControlCrypto CryptoThms SignalingToken.
From stdpp Require Import options.

(** SHA-256 has 256 bits. *)
Class HashingLaws `{Hashing} : Prop := { sha256_range l : 0 ≤ sha256 l < 2 ^ 256 }.

(** A listed scope is held. *)
Class ScopeLaws `{AuthCore} : Prop := {
  has_listed_scope p s : s ∈ ap_scopes p → has_scope p s = true;
}.

(** ** Text *)

Lemma to_hex_spec d : 0 ≤ d < 2 ^ 256 →
  len (to_hex d) = 64 ∧ bytes (to_hex d) = to_hex d ∧
  forallb (λ byte, is_ascii_hexdigit byte && negb (is_ascii_uppercase byte)) (to_hex d) = true.
Proof.
  intros Hd. destruct (hex_format (be_bytes 32 d) (be_bytes_bytes 32 d)) as (_ & E2 & E3).
  fold (to_hex d) in *. pose proof (hex_ascii _ E2) as Ha. unfold len. rewrite (bytes_ascii _ Ha), E3.
  rewrite length_be_bytes. split_and!; [done..|]. apply forallb_forall. intros c Hc.
  rewrite forallb_forall in E2. specialize (E2 c Hc). unfold is_hex, is_ascii_hexdigit,
    is_ascii_uppercase, is_ascii_digit, between in *. lia.
Qed.

Lemma to_hex_inj d d' : 0 ≤ d < 2 ^ 256 → 0 ≤ d' < 2 ^ 256 → to_hex d = to_hex d' → d = d'.
Proof.
  intros Hd Hd' E. apply from_str_hex in Hd, Hd'. rewrite E in Hd. congruence.
Qed.

Lemma strip_prefix_app p s : strip_prefix p (p ++ s) = Some s.
Proof.
  unfold strip_prefix, starts_with. rewrite take_app_length, bool_decide_eq_true_2 by done.
  by rewrite drop_app_length.
Qed.

Lemma printable_no_control s : Forall (λ c, 33 ≤ c ≤ 126) s → existsb is_control s = false.
Proof.
  intros Hs. induction Hs as [|c s Hc _ IH]; [done|]. cbn. rewrite IH.
  unfold is_control, between. lia.
Qed.

(** ** The claims of an issued token *)

Section Issued.
Context `{AuthCore, Hashing, UuidText, Jwt, ChronoLaws, ChronoUnix, ChronoFrom} {bearer : BearerCore}.
Context `{!HashingLaws, !UuidTextLaws, !JwtLaws, !ChronoUnixLaws, !ChronoFromLaws, !ScopeLaws}.
#[local] Set Default Proof Using "Type*".

(** The claims [issue] signs. *)
Definition issued_claims (p : AuthenticatedPrincipal) (tenant : rstr) (call_id leg_id jti : Uuid)
    (attachment : rstr) (now expires_at : DateTime) : SignalingTokenClaims :=
  {| sc_iss := SIGNALING_TOKEN_ISSUER; sc_aud := SIGNALING_TOKEN_AUDIENCE; sc_sub := ap_subject p;
     sc_principal_issuer := ap_issuer p; sc_tenant_id := tenant;
     sc_call_id := uuid_to_string call_id; sc_leg_id := uuid_to_string leg_id;
     sc_attachment_digest := to_hex (sha256 (bytes attachment)); sc_scope := SIGNALING_TOKEN_SCOPE;
     sc_exp := timestamp expires_at; sc_nbf := timestamp now; sc_iat := timestamp now;
     sc_jti := uuid_to_string jti; sc_ver := SIGNALING_TOKEN_VERSION |}.

Lemma token_expiry_spec p attexp m :
  token_expiry p attexp m ≤ attexp ∧ token_expiry p attexp m ≤ m ∧
  ∀ e, ap_expires_at p = Some e → token_expiry p attexp m ≤ e.
Proof. unfold token_expiry. destruct (ap_expires_at p); split_and!; naive_solver lia. Qed.

Lemma issue_Ok self p call leg att attexp now jti tok :
  issue self p call leg att attexp now jti = Some (Ok tok) →
  ∃ tenant encoded,
    ap_tenant p = Some tenant ∧ validate_identity p = Ok () ∧
    it_expires_at tok = token_expiry p attexp (now + from_secs 120) ∧ now < it_expires_at tok ∧
    it_token tok = SIGNALING_TOKEN_PREFIX ++ encoded ∧
    jwt_encode (ss_secret self) (issued_claims p tenant call leg jti att now (it_expires_at tok)) =
      Some encoded.
Proof.
  unfold issue. intros E. destruct (validate_identity p) as [[]|] eqn:Ei; [|naive_solver].
  destruct (is_empty att || _); [naive_solver|].
  destruct (from_std _) as [ttl|] eqn:Es; [|naive_solver]. apply from_std_exact in Es as ->.
  destruct (checked_add_signed _ _) as [m|] eqn:Em; [|done]. apply checked_add_signed_exact in Em as ->.
  cbn [mbind option_bind] in E. apply (inj Some) in E.
  destruct (Z.leb_spec (token_expiry p attexp (now + MAX_SIGNALING_TOKEN_TTL)) now); [done|].
  destruct (ap_tenant p) as [tenant|]; [|done]. cbn [ok_or mbind result_bind] in E.
  destruct (jwt_encode _ _) as [encoded|] eqn:Ee; [|done]. cbn [ok_or mbind result_bind] in E.
  injection E as <-. by exists tenant, encoded.
Qed.

(** The identity check looks at subject, tenant and issuer only. *)
Lemma validate_identity_ext p q :
  ap_subject p = ap_subject q → ap_tenant p = ap_tenant q → ap_issuer p = ap_issuer q →
  validate_identity p = validate_identity q.
Proof. unfold validate_identity. by intros -> -> ->. Qed.

Lemma sub_i64_small a b : - 2 ^ 62 ≤ a < 2 ^ 62 → - 2 ^ 62 ≤ b < 2 ^ 62 → sub_i64 a b = a - b.
Proof. intros ??. unfold sub_i64. rewrite Z.mod_small; lia. Qed.

Lemma small_timestamp t : Z.abs t ≤ chrono_limit → - 2 ^ 62 ≤ timestamp t < 2 ^ 62.
Proof.
  intros Ht. rewrite (timestamp_floor t Ht). unfold chrono_limit in Ht.
  Z.to_euclidean_division_equations. lia.
Qed.

Definition id_ok (u : Uuid) : Prop := 0 < u < 2 ^ 128.

Lemma id_from_str_ok label u : id_ok u → id_from_str label (uuid_to_string u) = Ok u.
Proof.
  intros Hu. unfold id_from_str. rewrite uuid_text_roundtrip by (unfold id_ok in Hu; lia).
  cbn. unfold from_uuid, is_nil, id_ok in *. rewrite (proj2 (Z.eqb_neq _ _)) by lia. done.
Qed.

(** The checks on the claims of an issued token come down to the clock. *)
Lemma issued_shape p tenant call leg jti att now e s :
  id_ok call → id_ok leg → id_ok jti → ap_tenant p = Some tenant → validate_identity p = Ok () →
  Z.abs now ≤ chrono_limit → Z.abs e ≤ chrono_limit → now < e ≤ now + from_secs 120 →
  validate_claims_shape (issued_claims p tenant call leg jti att now e) s =
  if (timestamp now <=? s) && (s <? timestamp e) then Ok () else Err Signaling.InvalidExpiry.
Proof.
  intros Hc Hl Hj Ht Hv Hn He Hne. unfold validate_claims_shape. cbn [issued_claims sc_ver sc_iss sc_aud
    sc_scope sc_jti sc_call_id sc_leg_id sc_attachment_digest sc_sub sc_tenant_id
    sc_principal_issuer sc_iat sc_nbf sc_exp].
  rewrite (id_from_str_ok "call" call Hc), (id_from_str_ok "leg" leg Hl).
  rewrite uuid_text_length, uuid_text_roundtrip by (unfold id_ok in Hj; lia).
  destruct (to_hex_spec _ (sha256_range (bytes att))) as (E1 & E2 & E3). rewrite E1, E2, E3.
  rewrite !bool_decide_eq_true_2 by done. cbn [negb orb is_ok is_some].
  change (SIGNALING_TOKEN_VERSION =? SIGNALING_TOKEN_VERSION) with true.
  change (128 <? 36) with false. change (64 =? 64) with true. cbn [negb orb].
  rewrite (validate_identity_ext _ p), Hv by done. cbn [mbind result_bind].
  rewrite sub_i64_small by (by apply small_timestamp).
  assert (Hb : timestamp now ≤ timestamp e ≤ timestamp now + MAX_TTL_SECS).
  { rewrite !timestamp_floor by done. change MAX_TTL_SECS with 120.
    unfold from_secs in Hne. Z.to_euclidean_division_equations. lia. }
  unfold MAX_TTL_SECS in *. set (m := MAX_SIGNALING_TOKEN_TTL / 1000000000) in *.
  match goal with |- (if ?a then _ else _) = if ?b then _ else _ => assert (a = negb b) as -> by lia end.
  by destruct (_ && _).
Qed.

(** The seconds in which a token issued at one instant and expiring at another is accepted. *)
Definition accepted_at (now expires_at clock : DateTime) : bool :=
  (timestamp now <=? timestamp clock) && (timestamp clock <? timestamp expires_at).

Lemma issued_validates self p tenant call leg jti att now e encoded clock :
  id_ok call → id_ok leg → id_ok jti → ap_tenant p = Some tenant → validate_identity p = Ok () →
  Z.abs now ≤ chrono_limit → Z.abs e ≤ chrono_limit → now < e ≤ now + from_secs 120 →
  jwt_encode (ss_secret self) (issued_claims p tenant call leg jti att now e) = Some encoded →
  len (SIGNALING_TOKEN_PREFIX ++ encoded) ≤ MAX_TOKEN_BYTES →
  (accepted_at now e clock = true →
   validate_claims self (SIGNALING_TOKEN_PREFIX ++ encoded) clock =
     Ok (issued_claims p tenant call leg jti att now e)) ∧
  (accepted_at now e clock = false →
   is_ok (validate_claims self (SIGNALING_TOKEN_PREFIX ++ encoded) clock) = false).
Proof.
  intros Hc Hl Hj Ht Hv Hn He Hne Henc Hlen. unfold validate_claims.
  rewrite (proj2 (Z.ltb_ge _ _)) by done.
  assert (Hctl : existsb is_control (SIGNALING_TOKEN_PREFIX ++ encoded) = false).
  { rewrite existsb_app. apply orb_false_iff. split; [done|].
    by eapply printable_no_control, jwt_text. }
  rewrite Hctl. cbn [orb].
  rewrite strip_prefix_app. cbn [ok_or mbind result_bind].
  pose proof (issued_shape p tenant call leg jti att now e (timestamp clock) Hc Hl Hj Ht Hv Hn He Hne)
    as Hshape. unfold accepted_at. split; intros Ha; rewrite Ha in Hshape.
  - rewrite (jwt_decode_encode _ _ _ (timestamp clock) Henc); [|done|done|cbn; lia].
    cbn [ok_or mbind result_bind]. by rewrite Hshape.
  - destruct (jwt_decode _ _ _) as [c|] eqn:Ed; [|done]. cbn [ok_or mbind result_bind].
    apply (jwt_decode_valid _ _ _ _ _ Henc) in Ed as [-> _]. by rewrite Hshape.
Qed.

(** The claims bind the session to the attachment and the owner. *)
Definition owns (p q : AuthenticatedPrincipal) : Prop :=
  ap_subject q = ap_subject p ∧ default [] (ap_tenant q) = default [] (ap_tenant p) ∧
  ap_issuer q = ap_issuer p ∧ length (ap_scopes q) = 1%nat ∧
  has_scope q SIGNALING_TOKEN_SCOPE = true.

Lemma authorize_issued self p tenant call leg jti att now e encoded clock hint q :
  ap_tenant p = Some tenant →
  validate_claims self (SIGNALING_TOKEN_PREFIX ++ encoded) clock =
    Ok (issued_claims p tenant call leg jti att now e) →
  authorize_session self (SIGNALING_TOKEN_PREFIX ++ encoded) hint q clock = Ok () ↔
  sha256 (bytes hint) = sha256 (bytes att) ∧ owns p q.
Proof.
  intros Ht Hv. unfold authorize_session, owns. rewrite Hv.
  cbn [issued_claims sc_attachment_digest sc_sub sc_tenant_id sc_principal_issuer].
  pose proof (sha256_range (bytes att)) as Ra. pose proof (sha256_range (bytes hint)) as Rh.
  destruct (to_hex_spec _ Ra) as (_ & -> & _), (to_hex_spec _ Rh) as (_ & -> & _). rewrite Ht.
  cbn [default from_option id].
  transitivity ((to_hex (sha256 (bytes att)) = to_hex (sha256 (bytes hint)) ∧ ap_subject p = ap_subject q ∧
    tenant = default [] (ap_tenant q) ∧ ap_issuer p = ap_issuer q ∧ Z.of_nat (length (ap_scopes q)) = 1 ∧
    has_scope q SIGNALING_TOKEN_SCOPE = true)).
  - match goal with |- (if ?b then _ else _) = _ ↔ _ => transitivity (b = true); [by destruct b|] end.
    rewrite !andb_true_iff, !bool_decide_eq_true, Z.eqb_eq. tauto.
  - split.
    + intros (E & ? & ? & ? & ? & ?). apply to_hex_inj in E; [|done..]. split_and!; try done; lia.
    + intros (E & ? & ? & ? & ? & ?). rewrite E. split_and!; try done; lia.
Qed.

(** A token that is issued and expires within one second of the clock is never accepted, although
    [issue] reports it with an expiry in the future: the guard compares instants, the claims carry
    whole seconds. *)
Lemma token_of_one_second_is_dead self p call leg att attexp now jti tok :
  issue self p call leg att attexp now jti = Some (Ok tok) →
  id_ok call → id_ok leg → id_ok jti → len (it_token tok) ≤ MAX_TOKEN_BYTES →
  Z.abs now ≤ chrono_limit → Z.abs (now + from_secs 120) ≤ chrono_limit →
  timestamp now = timestamp (it_expires_at tok) →
  now < it_expires_at tok ∧ ∀ clock, is_ok (validate_claims self (it_token tok) clock) = false.
Proof.
  intros Hi Hc Hl Hj Hlen Hn Hm Hs.
  apply issue_Ok in Hi as (tenant & encoded & Ht & Hv & He & Hlt & Htok & Henc).
  split; [done|]. intros clock. rewrite Htok in *.
  destruct (token_expiry_spec p attexp (now + from_secs 120)) as (_ & B2 & _). rewrite <- He in B2.
  destruct (issued_validates self p tenant call leg jti att now (it_expires_at tok) encoded clock)
    as [_ HF]; [done..|lia|done|done|done|].
  apply HF. unfold accepted_at. lia.
Qed.

(** C35. A signaling token gives exactly what it was issued for.  It expires after it was issued, no
    later than two minutes on, than the attachment, and than the credential it was made from.  Its
    claims are accepted in exactly the seconds from its issue to its expiry.  In those it opens a
    session just for the attachment whose digest it carries and the owner it was issued to, and
    the principal it authenticates is that owner with the signaling scope alone, which opens the
    session it was issued for; at any other time it opens none. *)
Theorem signaling_token_is_exact self p call leg att attexp now jti tok clock :
  issue self p call leg att attexp now jti = Some (Ok tok) →
  id_ok call → id_ok leg → id_ok jti → len (it_token tok) ≤ MAX_TOKEN_BYTES →
  Z.abs now ≤ chrono_limit → Z.abs (now + from_secs 120) ≤ chrono_limit →
  now < it_expires_at tok ≤ now + from_secs 120 ∧ it_expires_at tok ≤ attexp ∧
  (∀ e, ap_expires_at p = Some e → it_expires_at tok ≤ e) ∧
  is_ok (validate_claims self (it_token tok) clock) = accepted_at now (it_expires_at tok) clock ∧
  (∀ hint q, authorize_session self (it_token tok) hint q clock = Ok () ↔
     accepted_at now (it_expires_at tok) clock = true ∧
     sha256 (bytes hint) = sha256 (bytes att) ∧ owns p q) ∧
  (∀ cred, validate_credential self (it_token tok) clock = Ok cred →
     ap_subject (vb_principal cred) = ap_subject p ∧ ap_tenant (vb_principal cred) = ap_tenant p ∧
     ap_issuer (vb_principal cred) = ap_issuer p ∧
     ap_scopes (vb_principal cred) = [SIGNALING_TOKEN_SCOPE] ∧
     authorize_session self (it_token tok) att (vb_principal cred) clock = Ok ()).
Proof.
  intros Hi Hc Hl Hj Hlen Hn Hm.
  apply issue_Ok in Hi as (tenant & encoded & Ht & Hv & He & Hlt & Htok & Henc).
  destruct (token_expiry_spec p attexp (now + from_secs 120)) as (B1 & B2 & B3).
  rewrite <- He in B1, B2, B3. set (e := it_expires_at tok) in *.
  assert (Hel : Z.abs e ≤ chrono_limit) by lia. rewrite Htok in *.
  destruct (issued_validates self p tenant call leg jti att now e encoded clock) as [HT HF]; [done..|lia|done|done|].
  split_and!; [lia|lia|done|done|..].
  - destruct (accepted_at now e clock) eqn:Ea; [by rewrite HT|by apply HF].
  - intros hint q. destruct (accepted_at now e clock) eqn:Ea.
    + rewrite (authorize_issued self p tenant call leg jti att now e) by (done || by apply HT).
      split; [by intros [??]|by intros (_ & ? & ?)].
    + specialize (HF eq_refl). unfold authorize_session. destruct (validate_claims _ _ _); [done|].
      split; [done|by intros [? _]].
  - intros cred Hcr. unfold validate_credential in Hcr.
    destruct (accepted_at now e clock) eqn:Ea.
    2:{ specialize (HF eq_refl). by destruct (validate_claims _ _ _). }
    specialize (HT eq_refl). rewrite HT in Hcr. cbn [mbind result_bind] in Hcr.
    destruct (principal_from_claims _) as [v|] eqn:Ep; [|done]. injection Hcr as <-.
    unfold principal_from_claims in Ep. destruct (from_timestamp (sc_exp _)) as [xe|]; [|done].
    cbn [ok_or mbind result_bind] in Ep. destruct (from_timestamp (sc_iat _)) as [xi|]; [|done].
    cbn [ok_or mbind result_bind] in Ep. destruct (bearer_accepts _ _ _); [|done]. injection Ep as <-.
    cbn [vb_principal ap_subject ap_tenant ap_issuer ap_scopes issued_claims sc_sub sc_tenant_id
      sc_principal_issuer]. split_and!; try done.
    apply (authorize_issued self p tenant call leg jti att now e); [done..|].
    split; [done|]. unfold owns. cbn. rewrite Ht. split_and!; try done.
    apply has_listed_scope. cbn. set_solver.
Qed.
End Issued.

(** ** Concrete libraries *)

Lemma checksum_range l : 0 ≤ checksum l < 2 ^ 256.
Proof.
  unfold checksum. assert (H : ∀ h, 0 ≤ h < 2 ^ 256 →
    0 ≤ foldl (λ h b, (h * 257 + b + 1) mod 2 ^ 256) h l < 2 ^ 256); [|by apply H].
  induction l as [|b l IH]; intros h Hh; [done|]. cbn [foldl]. apply IH, Z.mod_pos_bound. lia.
Qed.

Lemma hashing_sample_laws : @HashingLaws hashing_sample.
Proof. split. intros l. apply checksum_range. Qed.

Lemma scope_sample_laws : @ScopeLaws auth_types_sample auth_core_sample.
Proof.
  split. cbn. intros p s Hs. apply existsb_exists. exists s. split; [by apply list_elem_of_In|].
  by rewrite bool_decide_eq_true_2.
Qed.

(** The text form 8-4-4-4-12 of a UUID. *)
Definition hyphenate (h : rstr) : rstr :=
  take 8 h ++ 45 :: take 4 (drop 8 h) ++ 45 :: take 4 (drop 12 h) ++ 45 :: take 4 (drop 16 h)
  ++ 45 :: drop 20 h.
Definition unhyphenate (s : rstr) : rstr := List.filter (λ c, negb (c =? 45)) s.

Definition uuid_text_sample : UuidText := {|
  uuid_to_string u := hyphenate (be_bytes 16 u ≫= format_02x);
  uuid_parse_str s := of_be_bytes <$> hex_pairs (unhyphenate s);
|}.

Lemma filter_hex h : forallb is_hex h = true → unhyphenate h = h.
Proof.
  unfold unhyphenate. induction h as [|c h IH]; [done|]. cbn. intros [Hc Hh]%andb_true_iff.
  unfold is_hex, is_ascii_digit, between in Hc. rewrite (proj2 (Z.eqb_neq c 45)) by lia. cbn.
  by rewrite IH.
Qed.

Lemma regroup (h : rstr) :
  take 8 h ++ take 4 (drop 8 h) ++ take 4 (drop 12 h) ++ take 4 (drop 16 h) ++ drop 20 h = h.
Proof. by do 20 (destruct h as [|? h]; [done|]). Qed.

Lemma unhyphenate_app l r : unhyphenate (l ++ 45 :: r) = unhyphenate l ++ unhyphenate r.
Proof. unfold unhyphenate. by rewrite List.filter_app. Qed.

Lemma unhyphenate_hyphenate h : forallb is_hex h = true → unhyphenate (hyphenate h) = h.
Proof.
  intros Hh. unfold hyphenate. rewrite !unhyphenate_app. unfold unhyphenate.
  rewrite <- !List.filter_app, regroup. by apply filter_hex.
Qed.

Lemma hyphenate_length h :
  forallb is_hex h = true → length h = 32%nat → len (hyphenate h) = 36.
Proof.
  intros Ha%hex_ascii Hl. unfold len, hyphenate.
  rewrite bytes_ascii; [|repeat first [by auto using Forall_take, Forall_drop
      | apply Forall_app; split | constructor; [lia|]]].
  repeat (rewrite length_app; cbn [length]). rewrite !length_take, !length_drop, Hl. done.
Qed.

Lemma uuid_text_sample_laws : @UuidTextLaws uuid_text_sample.
Proof.
  split; intros u; destruct (hex_format (be_bytes 16 u) (be_bytes_bytes 16 u)) as (E1 & E2 & E3);
    rewrite length_be_bytes in E3; cbn [uuid_to_string uuid_parse_str uuid_text_sample].
  - intros Hu. rewrite unhyphenate_hyphenate by done. rewrite E1. cbn [fmap option_fmap option_map].
    f_equal. by apply (of_be_bytes_to 16).
  - by apply hyphenate_length.
Qed.

(** Claims as their fields, the fields as digits of the URL-safe alphabet. *)
Definition claims_fields (c : SignalingTokenClaims) : list (list Z) :=
  [sc_iss c; sc_aud c; sc_sub c;
   match sc_principal_issuer c with Some i => 0 :: i | None => [] end; sc_tenant_id c; sc_call_id c;
   sc_leg_id c; sc_attachment_digest c; sc_scope c; [sc_exp c]; [sc_nbf c]; [sc_iat c]; sc_jti c;
   [sc_ver c]].
Definition fields_claims (l : list (list Z)) : option SignalingTokenClaims :=
  match l with
  | [iss; aud; sub; issuer; tenant; call; leg; digest; scope; [exp]; [nbf]; [iat]; jti; [ver]] =>
      Some {| sc_iss := iss; sc_aud := aud; sc_sub := sub;
              sc_principal_issuer := match issuer with [] => None | _ :: i => Some i end;
              sc_tenant_id := tenant; sc_call_id := call; sc_leg_id := leg;
              sc_attachment_digest := digest; sc_scope := scope; sc_exp := exp; sc_nbf := nbf;
              sc_iat := iat; sc_jti := jti; sc_ver := ver |}
  | _ => None
  end.

Definition digits_of (p : positive) : nat := Z.to_nat (Z.log2 (Z.pos p) / 6 + 1).

(** A JWT library whose signature is the empty one. *)
Definition jwt_sample : Jwt := {|
  jwt_encode _ c :=
    let p := encode (claims_fields c) in
    Some (map b64_char (sextets (digits_of p) (Z.pos p)));
  jwt_decode _ t now :=
    digits ← mapM b64_digit t;
    fields ← decode (Z.to_pos (of_sextets digits));
    c ← fields_claims fields;
    if (sc_iss c ==? SIGNALING_TOKEN_ISSUER) && (sc_aud c ==? SIGNALING_TOKEN_AUDIENCE)
       && (sc_nbf c <=? now) && (now <=? sc_exp c) then Some c else None;
|}.

Lemma fields_claims_of c : fields_claims (claims_fields c) = Some c.
Proof. by destruct c as [??? [i|]]. Qed.

Lemma digits_enough p : 0 ≤ Z.pos p < 64 ^ Z.of_nat (digits_of p).
Proof.
  unfold digits_of. split; [lia|]. pose proof (Z.log2_spec (Z.pos p) ltac:(lia)) as [_ H].
  pose proof (Z.log2_nonneg (Z.pos p)).
  assert (0 ≤ Z.log2 (Z.pos p) / 6) by (apply Z.div_pos; lia).
  rewrite Z2Nat.id by lia. eapply Z.lt_le_trans; [exact H|]. change 64 with (2 ^ 6).
  rewrite <- Z.pow_mul_r by lia. apply Z.pow_le_mono_r; [lia|].
  Z.to_euclidean_division_equations. lia.
Qed.

Lemma jwt_sample_reads secret c t :
  @jwt_encode jwt_sample secret c = Some t →
  ∀ now, @jwt_decode jwt_sample secret t now =
    if (sc_iss c ==? SIGNALING_TOKEN_ISSUER) && (sc_aud c ==? SIGNALING_TOKEN_AUDIENCE)
       && (sc_nbf c <=? now) && (now <=? sc_exp c) then Some c else None.
Proof.
  cbn [jwt_encode jwt_decode jwt_sample]. intros E now. apply (inj Some) in E as <-.
  rewrite b64_digits_of. cbn [mbind option_bind].
  rewrite of_sextets_to by apply digits_enough. cbn [Z.to_pos]. rewrite decode_encode. cbn [mbind option_bind].
  rewrite fields_claims_of. done.
Qed.

Lemma b64_char_visible :
  forallb (λ d, (33 <=? b64_char d) && (b64_char d <=? 126)) (seqZ 0 64) = true.
Proof. by vm_compute. Qed.

Lemma jwt_sample_laws : @JwtLaws jwt_sample.
Proof.
  split.
  - intros secret c t E. cbn [jwt_encode jwt_sample] in E. apply (inj Some) in E as <-.
    apply Forall_map. eapply Forall_impl; [apply sextets_range|]. intros d Hd. cbv beta in *.
    pose proof b64_char_visible as H. rewrite forallb_forall in H. specialize (H d).
    rewrite <- list_elem_of_In, elem_of_seqZ in H. specialize (H ltac:(lia)). apply andb_true_iff in H as [?%Z.leb_le ?%Z.leb_le]. done.
  - intros secret c t now E Hi Ha Hn. rewrite (jwt_sample_reads secret c t E), Hi, Ha.
    rewrite !bool_decide_eq_true_2 by done. by rewrite !(proj2 (Z.leb_le _ _)) by lia.
  - intros secret t now c c' E Ed. rewrite (jwt_sample_reads secret c t E) in Ed.
    destruct (_ && _) eqn:Eb; [|done]. bool_hyps. injection Ed as <-. split; [done|lia].
Qed.

Definition chrono_from_sample : ChronoFrom := {|
  from_timestamp s := if Z.abs (s * 1000000000) <=? chrono_limit then Some (s * 1000000000) else None;
|}.

Lemma chrono_from_sample_laws : @ChronoFromLaws chrono_from_sample.
Proof. split. cbn. intros s Hs. by rewrite (proj2 (Z.leb_le _ _)). Qed.

Definition bearer_sample : @BearerCore auth_types_sample := {| bearer_accepts _ _ _ := true |}.

Definition sample_signaling : SignalingTokenService := {| ss_secret := be_bytes 32 77 |}.
Definition sample_issue (attexp now : DateTime) :=
  @issue auth_types_sample hashing_sample uuid_text_sample jwt_sample chrono_sample
    chrono_unix_sample sample_signaling
    (@Build_AuthenticatedPrincipal auth_types_sample (str "alice") (Some (str "acme")) [str "*"]
       None None 0%nat None) 11 12 (str "attachment") attexp now 13.

(** [issue] does return such a token: issued at 0.2 s for an attachment that lives until 0.9 s. *)
Lemma one_second_token_is_issued :
  match sample_issue 900000000 200000000 with
  | Some (Ok tok) =>
      (@timestamp chrono_unix_sample 200000000 =? @timestamp chrono_unix_sample (it_expires_at tok)) = true
  | _ => False
  end.
Proof. vm_compute. reflexivity. Qed.

Lemma signaling_token_is_exact_witness :
  ∃ tok, sample_issue (from_secs 90) (from_secs 5) = Some (Ok tok) ∧
    @authorize_session auth_types_sample auth_core_sample hashing_sample uuid_text_sample jwt_sample
      chrono_unix_sample sample_signaling (it_token tok) (str "attachment")
      (@Build_AuthenticatedPrincipal auth_types_sample (str "alice") (Some (str "acme"))
         [SIGNALING_TOKEN_SCOPE] None None 0%nat None) (from_secs 89) = Ok ().
Proof.
  destruct (sample_issue (from_secs 90) (from_secs 5)) as [[tok|]|] eqn:E;
    [|exfalso; apply (f_equal (λ o, match o with Some (Ok _) => true | _ => false end)) in E;
      by vm_compute in E..].
  exists tok. split; [reflexivity|].
  assert (Hm : match sample_issue (from_secs 90) (from_secs 5) with
    | Some (Ok t) => (len (it_token t) <=? MAX_TOKEN_BYTES) && (it_expires_at t =? from_secs 90)
    | _ => false end = true) by (vm_compute; reflexivity).
  rewrite E in Hm. apply andb_true_iff in Hm as [Hlen%Z.leb_le Hexp%Z.eqb_eq].
  destruct (@signaling_token_is_exact auth_types_sample auth_core_sample hashing_sample
    uuid_text_sample jwt_sample chrono_sample chrono_sample_laws chrono_unix_sample chrono_from_sample
    bearer_sample hashing_sample_laws uuid_text_sample_laws jwt_sample_laws chrono_unix_sample_laws
    chrono_from_sample_laws scope_sample_laws sample_signaling _ 11 12 (str "attachment")
    (from_secs 90) (from_secs 5) 13 tok (from_secs 89) E) as (_ & _ & _ & _ & Ha & _);
    [unfold id_ok; lia..|exact Hlen|by vm_compute|by vm_compute|].
  apply Ha. rewrite Hexp. split_and!; by vm_compute.
Defined.
