(* ===== verification/ServiceBirths.v ===== *)
(** The creation of a call, as the store remembers it: exactly one command was decided on version
    zero of a call, so the result of the creation is found again however far the call has moved on,
    and a retained creation key answers with what was answered first. *)

From S2P Require Import Prelude RustText DomainTypes CoordModel Domain DomainInv DomainSafety.
From S2P Require Import DomainWorld DomainTrace DomainTheorems.
From S2P Require Import RepoTypes ServiceTypes RepoMemory RepoClaims Context PlanModel.
From S2P Require Import ServiceCommands ServiceMemory ServiceReconcile.
From S2P Require Import RepoFrame RepoCommit RepoInv RepoEffects ServiceEffects.
From S2P Require Import RepoTheorems RepoRows ServiceRecords ServicePlans.
From stdpp Require Import options.

(** ** Calls are past version zero, which was left once *)

Record births_ok (s : MemoryState) : Prop := {
  bt_version id c : rm_calls s !! id = Some c → (1 ≤ ca_version (sc_aggregate c))%N;
  bt_unique k k' m m' : rm_commands s !! k = Some m → rm_commands s !! k' = Some m' →
    sm_call_id m = sm_call_id m' → sm_observed_version m = 0%N → sm_observed_version m' = 0%N → k = k';
}.

(** The version does not move back. *)
Lemma decided_version a c d : valid_call a → decide a c = Ok d → (ca_version a ≤ ca_version (cd_aggregate d))%N.
Proof.
  intros Hv Hd. destruct (decide_keeps _ _ _ Hv Hd) as (_ & _ & _ & _ & E).
  destruct (applies d); [lia|]. destruct E as [-> _]. done.
Qed.

(** The command table grows by a command that was not the first of a call. *)
Lemma births_recorded s s' k m :
  births_ok s → rm_commands s' = <[k := m]> (rm_commands s) →
  (∀ id c, rm_calls s' !! id = Some c → (1 ≤ ca_version (sc_aggregate c))%N) →
  (sm_observed_version m = 0%N → ∀ k' m', rm_commands s !! k' = Some m' → sm_call_id m' ≠ sm_call_id m) →
  births_ok s'.
Proof.
  intros [V U] E Hv Hn. split; [done|]. rewrite E.
  intros k1 k2 m1 m2 [[<- <-]|[_ H1]]%lookup_insert_Some [[<- <-]|[_ H2]]%lookup_insert_Some Hc O1 O2.
  - done.
  - exfalso. by apply (Hn O1 _ _ H2).
  - exfalso. by apply (Hn O2 _ _ H1).
  - by eapply U.
Qed.

Lemma births_same s s' :
  births_ok s → rm_commands s' = rm_commands s → rm_calls s' = rm_calls s → births_ok s'.
Proof. intros [V U] Ec Ek. split; [by rewrite Ek|by rewrite Ec]. Qed.

(** One call moves on. *)
Lemma versions_put s s' (id : CallId) c' :
  births_ok s → rm_calls s' = <[id := c']> (rm_calls s) → (1 ≤ ca_version (sc_aggregate c'))%N →
  ∀ i c, rm_calls s' !! i = Some c → (1 ≤ ca_version (sc_aggregate c))%N.
Proof.
  intros [V U] E Hv i c. rewrite E. intros [[<- <-]|[_ Hc]]%lookup_insert_Some; [done|by eapply V].
Qed.

Lemma births_put s s' (id : CallId) c c' :
  births_ok s → rm_commands s' = rm_commands s → rm_calls s !! id = Some c →
  rm_calls s' = <[id := c']> (rm_calls s) → ca_version (sc_aggregate c') = ca_version (sc_aggregate c) →
  births_ok s'.
Proof.
  intros B Ec Hc Ek Ev. split.
  - eapply versions_put; [done..|]. rewrite Ev. by apply (bt_version _ B id).
  - rewrite Ec. apply B.
Qed.

Lemma births_commit_written new_id request s c d view s' :
  births_ok s → valid_call (sc_aggregate c) → commit_guarded request s c d →
  commit_written new_id request s c d view s' → births_ok s'.
Proof.
  intros B Hv G W. pose proof (bt_version _ B _ _ (cg_call _ _ _ _ G)) as Hc.
  pose proof (decided_version _ _ _ Hv (cg_decide _ _ _ _ G)) as Hd. destruct W.
  eapply births_recorded; [done|exact cw_commands| |].
  - eapply versions_put; [done..|]. cbn. lia.
  - cbn. lia.
Qed.

Section Births.
Context {chrono : Chrono} {libs : ServiceLibs}.

Lemma births_create_written new_id request s d k fp s' :
  births_ok s → rows_ok s → create_guarded request s d k fp →
  create_written new_id request s d k fp s' → births_ok s'.
Proof using.
  intros B R G W. destruct (decide_keeps _ _ _ (kg_valid _ _ _ _ _ G) (kg_decide _ _ _ _ _ G))
    as (_ & _ & _ & _ & Hd). unfold applies in Hd.
  rewrite (kg_applied _ _ _ _ _ G), (kg_version _ _ _ _ _ G), bool_decide_eq_true_2 in Hd by done. destruct W.
  eapply births_recorded; [done|exact kw_commands| |].
  - eapply versions_put; [done..|]. cbn. lia.
  - intros _ k' m' Hm'. destruct R as [[C _] _ _]. destruct (C _ _ Hm') as (_ & [c Hc] & _). cbn.
    pose proof (kg_call _ _ _ _ _ G). congruence.
Qed.

Definition family_ok (s : MemoryState) : Prop := rows_ok s ∧ births_ok s.

Lemma family_effect s s' : capacity_ok s → family_ok s → effect s s' → family_ok s'.
Proof using.
  intros Hcap [R B] He. split; [by eapply rows_effect|]. destruct He; try (by apply (births_same s)).
  - by eapply births_create_written.
  - eapply births_commit_written; eauto. apply (cy_calls s Hcap _ _ (cg_call _ _ _ _ H0)).
  - assert (Hv : valid_call (sc_aggregate (consumed_call request c))).
    { unfold consumed_call. destruct (replaces_pending _ _); apply (cy_calls s Hcap _ _ (ng_call _ _ _ _ H0)). }
    eapply births_commit_written; [|done..].
    eapply (births_put s _ _ c (consumed_call request c)); [done|done|apply (ng_call _ _ _ _ H0)|done|].
    unfold consumed_call. by destruct (replaces_pending _ _).
  - apply ingest_frame in H as (? & ? & ->). by apply (births_same s).
  - apply bind_frame in H as (? & ? & ->). by apply (births_same s).
  - apply apply_event_ok in H1 as (? & _ & _ & ->). by apply (births_same s).
  - by eapply (births_put s _ id c (restarted_call w c)).
Qed.

Lemma family_service s s' : capacity_ok s → family_ok s → service_effect s s' → family_ok s'.
Proof using.
  intros Hcap [R B] He. split; [by eapply rows_service|]. destruct He.
  - pose proof (side_core _ _ H) as E.
    by apply (births_same s); [|exact (f_equal rm_commands E)|exact (f_equal rm_calls E)].
  - by apply (births_same s).
  - by eapply births_create_written in H1 as [? ?].
  - by eapply (births_put s _ _ c (bound_call c (outbound_binding request))); [|done|apply H|done|].
  - assert (B1 : births_ok s1).
    { eapply births_commit_written; eauto. apply (cy_calls s Hcap _ _ (cg_call _ _ _ _ H0)). }
    eapply (births_put s1 _ _ (committed_call command c d) (bound_call (committed_call command c d) binding));
      [done|done| |done|done].
    rewrite (cw_calls _ _ _ _ _ _ _ H1). apply lookup_insert_eq.
Qed.

Lemma store_family r : store_reachable r → family_ok (mr_state r).
Proof using.
  apply (store_reachable_invariant family_ok); [apply family_effect|apply family_service|].
  split; [apply (store_rows MemoryRepository_default); apply rtc_refl|]. split; done.
Qed.

(** ** The result of the creation *)

Lemma filter_unique {K} `{Countable K} {V} (m : gmap K V) (p : V → bool) k v :
  m !! k = Some v → p v = true → (∀ k' v', m !! k' = Some v' → p v' = true → k' = k) →
  List.filter p (values m) = [v].
Proof using.
  intros Hk Hp Hu. apply Permutation_singleton_r.
  assert (E : values m ≡ₚ v :: values (delete k m)).
  { unfold values. rewrite <- (insert_delete_id m k v) at 1 by done.
    by rewrite map_to_list_insert by apply lookup_delete_eq. }
  assert (F : ∀ l l' : list V, l ≡ₚ l' → List.filter p l ≡ₚ List.filter p l').
  { induction 1; cbn; [done|by destruct (p x); [f_equiv|]| |by etrans].
    destruct (p x), (p y); try done. apply Permutation_swap. }
  rewrite (F _ _ E). cbn. rewrite Hp. f_equiv.
  destruct (List.filter p (values (delete k m))) as [|x l] eqn:Ef; [done|]. exfalso.
  assert (Hx : x ∈ List.filter p (values (delete k m))) by (rewrite Ef; by constructor).
  rewrite list_elem_of_In, filter_In, <- list_elem_of_In, values_elem in Hx.
  destruct Hx as [[k' Hk'] Hx]. apply lookup_delete_Some in Hk' as [Hne Hk']. by apply Hne; symmetry; eapply Hu.
Qed.

Lemma original_result s k view :
  family_ok s → rm_command_results s !! k = Some view → sm_observed_version (cv_command view) = 0%N →
  original_create_result s (sm_call_id (cv_command view)) = Ok view.
Proof using.
  intros [[[C R] _ _] [_ U]] Hk H0. unfold original_create_result.
  assert (Hm : ∀ k' view', rm_command_results s !! k' = Some view' → rm_commands s !! k' = Some (cv_command view')).
  { intros k' view' Hv. destruct (R _ _ Hv) as [m Hm]. destruct (C _ _ Hm) as (_ & _ & v & Hv' & <-).
    by simplify_eq. }
  rewrite (filter_unique _ _ k view); [done|done|by rewrite !bool_decide_eq_true_2|].
  intros k' view' Hv' Hp. apply andb_true_iff in Hp as [Hp1 Hp2]. bool_hyps.
  by eapply U; [apply Hm..| | |].
Qed.

(** What the store knows of a creation. *)
Record create_remembered (s : MemoryState) (key : IdempotencyKey) (row : IdempotencyRow)
    (stored : StoredServiceCall) : Prop := {
  cm_receipt : ir_receipt row = OperationIdempotencyReceipt.CreateCall;
  cm_result : ∃ k view, rm_command_results s !! k = Some view ∧
    sm_call_id (cv_command view) = ir_call_id row ∧ sm_observed_version (cv_command view) = 0%N ∧
    cv_call view = sl_call stored ∧ sm_attachments (cv_command view) = sl_attachments stored ∧
    is_Some (rm_commands s !! k);
  cm_tenant : ca_tenant_id (sc_aggregate (sl_call stored)) = key.1;
  cm_plan : rm_execution_plans s !! ir_call_id row = Some (sl_plan stored);
  cm_valid : validate_against (sl_plan stored) (sc_aggregate (sl_call stored)) = Ok ();
}.

Lemma remembered_replays s key row stored digest at_ :
  family_ok s → create_remembered s key row stored → rm_idempotency s !! key = Some row →
  ir_request_digest row = digest → at_ < ir_expires_at row →
  load_create_replay_in_state s key.1 key.2 digest at_ = Ok (Some stored).
Proof using.
  intros Hf [Hr (k & view & Hk & Hc & H0 & Ec & Ea & _) Ht Hp Hv] Hrow <- Hat. destruct key as [t key].
  cbn in Ht |- *. unfold load_create_replay_in_state. rewrite Hrow, (proj2 (Z.leb_gt _ _)) by lia.
  rewrite bool_decide_eq_true_2, Hr by done. cbn [negb orb].
  unfold original_create_snapshot, original_create_attachments.
  rewrite <- Hc, (original_result _ _ _ Hf Hk H0). cbn [mbind result_bind].
  rewrite Ec, Ht, bool_decide_eq_true_2 by done. cbn [negb reject_if mbind result_bind].
  rewrite Hc, Hp. cbn [ok_or mbind result_bind]. rewrite Hv, Ea. cbn [mbind result_bind]. by destruct stored.
Qed.

Lemma create_candidates_same request candidate :
  candidate ∈ create_candidates request →
  create_key candidate = create_key (sx_create request) ∧
  cc_request_digest candidate = cc_request_digest (sx_create request) ∧
  cc_at candidate = cc_at (sx_create request).
Proof using.
  unfold create_candidates. intros [->|H]%elem_of_cons; [done|].
  by apply list_elem_of_In, in_map_iff in H as (a & <- & _).
Qed.

(** A creation is remembered from then on. *)
Lemma created_remembered new_id r request r1 stored :
  store_reachable r → fresh_ids new_id (mr_state r) →
  create_with_plan new_id r request = (r1, Ok (ServiceCreateOutcome.Created stored)) →
  ∃ row, rm_idempotency (mr_state r1) !! create_key (sx_create request) = Some row ∧
    ir_request_digest row = cc_request_digest (sx_create request) ∧
    idempotency_expiry (cc_at (sx_create request)) = Ok (ir_expires_at row) ∧
    create_remembered (mr_state r1) (create_key (sx_create request)) row stored.
Proof using.
  intros Hr Hf Hc.
  assert (Hr1 : store_reachable r1).
  { unfold store_reachable in *. eapply rtc_r; [exact Hr|]. right.
    rewrite <- (f_equal fst Hc : (create_with_plan new_id r request).1 = r1). by apply step_create_with_plan. }
  pose proof (store_family _ Hr1) as Hfam. pose proof (store_plans _ Hr1) as Hplans.
  apply transaction_ok in Hc as (Hp & s' & H & ->). change (mr_state (r <| mr_state := s' |>)) with s' in *.
  unfold create_with_plan_in_state in H. cbv zeta in H.
  apply result_bind_ok in H as ([?|] & _ & H); [done|].
  apply bind_unit_ok in H as [Hplan H]. apply result_bind_ok in H as (fp & _ & H).
  apply result_bind_ok in H as (caps & _ & H). apply result_bind_ok in H as ([o s1] & Hq & H).
  apply try_candidates_ok in Hq as (q & Hq & Hcr). cbn [fst snd] in H.
  apply create_candidates_same in Hq as (Ekey & Edig & Eat).
  apply create_call_ok in Hcr as [(c & i & ret & -> & -> & Hi & _)|(d & k & fp' & -> & G & W)].
  { apply bind_reject_ok in H as [_ H]. apply result_bind_ok in H as (plan & _ & H).
    apply result_bind_ok in H as (snap & _ & H). by apply result_bind_ok in H as (att & _ & [=]). }
  cbn [created_call sc_aggregate] in H.
  destruct (decide_keeps _ _ _ (kg_valid _ _ _ _ _ G) (kg_decide _ _ _ _ _ G)) as (Eid & Et & _).
  rewrite Eid in H. apply bind_reject_ok in H as [_ H]. apply result_bind_ok in H as (att & Hatt & [= <- <-]).
  pose proof (kw_idempotency _ _ _ _ _ _ _ W) as (i & exp & _ & Hexp & Ei).
  pose proof (kw_results _ _ _ _ _ _ _ W) as Er. pose proof (kw_commands _ _ _ _ _ _ _ W) as Ec.
  exists (create_claim q exp). rewrite <- Ekey, <- Edig, <- Eat. cbn [set_field]. cbn.
  rewrite Ei, lookup_insert_eq. split_and!; try done.
  match type of Hatt with original_create_attachments ?st _ = _ => set (s2 := st) in * end.
  set (view := {| cv_command := create_receipt q d; cv_call := created_call q d fp';
                  cv_outbox := batch_records new_id (create_batch q d) 0 (cd_effects d) |}) in Er.
  assert (Hview : rm_command_results s2 !! cc_command_id q = Some view).
  { change (rm_command_results s2) with (rm_command_results s1). rewrite Er. apply lookup_insert_eq. }
  assert (Hver : sm_observed_version (cv_command view) = 0%N) by apply (kg_version _ _ _ _ _ G).
  pose proof (original_result _ _ _ Hfam Hview Hver) as Ho.
  unfold original_create_attachments in Hatt.
  change (sm_call_id (cv_command view)) with (ca_id (cc_initial q)) in Ho.
  rewrite Ho in Hatt. cbn in Hatt. injection Hatt as <-.
  assert (Hpl : rm_execution_plans s2 !! ca_id (cc_initial q) = Some (sx_plan request)) by apply lookup_insert_eq.
  split; [done| |cbn; exact Et|exact Hpl|].
  - exists (cc_command_id q), view. split_and!; [exact Hview|done|exact Hver|done|done|].
    change (rm_commands s2) with (rm_commands s1). rewrite Ec, lookup_insert_eq. by eexists.
  - destruct (pn_valid _ Hplans _ _ Hpl) as (c & Hcall & Hv). cbn.
    change (rm_calls s2) with (rm_calls s1) in Hcall.
    rewrite (kw_calls _ _ _ _ _ _ _ W), lookup_insert_eq in Hcall. by injection Hcall as <-.
Qed.

Lemma remembered_run r r' key row stored :
  store_reachable r → rtc store_step r r' → create_remembered (mr_state r) key row stored →
  create_remembered (mr_state r') key row stored.
Proof using.
  intros Hr Hrun [Hc (k & view & Hk & Hid & H0 & Ec & Ea & [m Hm]) Ht Hp Hv].
  pose proof (retains_run _ _ Hrun (store_capacity _ Hr)) as R.
  pose proof (records_run _ _ Hrun (store_capacity _ Hr)) as [_ _ _ _ _ Hplans _ _].
  destruct (rt_commands _ _ R _ _ Hm) as [Hm' Hk']. split; try done; [|by eapply lookup_weaken].
  exists k, view. rewrite Hk', Hm'. split_and!; done || by eexists.
Qed.
End Births.
