(* ===== verification/ServiceApi.v ===== *)
(** The values of the call service ([src/call_service/service.rs]) and what it shows of a call
    ([src/call_service/view.rs]): requests, inputs, deadlines, the transcripts that stand for a
    request in its digest, and the evidence a SIP INVITE must give.

    JSON of a replacement destination is a parameter.  Fields are read through the accessors'
    names; [Debug] output, zeroization and logging have no effect on values and are left out. *)

From S2P Require Import Prelude RustText DomainTypes CoordModel Domain RepoTypes ServiceTypes.
From S2P Require Import RepoMemory Context PlanModel Principal ControlCrypto.
From stdpp Require Import options.

(** ** Views *)

Record FailureView := {
  fv_code : rstr;
  fv_message : rstr;
  fv_retryable : bool;
}.

Definition FailureView_from (value : FailureDetails) : FailureView :=
  {| fv_code := fd_code value; fv_message := fd_message value; fv_retryable := fd_retryable value |}.

Record AttachmentView := {
  av_token : rstr;
  av_transport : AttachmentTransport;
  av_expires_at : DateTime;
}.

Definition AttachmentView_from_token (token : DerivedAttachmentToken)
    (transport : AttachmentTransport) : AttachmentView :=
  {| av_token := dt_token token; av_transport := transport; av_expires_at := dt_expires_at token |}.

Record LegView := {
  lv_leg_id : LegId;
  lv_direction : LegDirection;
  lv_signaling_initiator : SignalingInitiator;
  lv_media_flow : MediaFlow;
  lv_kind : LegKind;
  lv_state : LegState;
  lv_created_at : DateTime;
  lv_state_changed_at : DateTime;
  lv_connected_at : option DateTime;
  lv_ended_at : option DateTime;
  lv_failure : option FailureView;
  lv_attachment : option AttachmentView;
}.
#[export] Instance LegView_eta : Eta LegView := λ r,
  {| lv_leg_id := lv_leg_id r; lv_direction := lv_direction r;
     lv_signaling_initiator := lv_signaling_initiator r; lv_media_flow := lv_media_flow r;
     lv_kind := lv_kind r; lv_state := lv_state r; lv_created_at := lv_created_at r;
     lv_state_changed_at := lv_state_changed_at r; lv_connected_at := lv_connected_at r;
     lv_ended_at := lv_ended_at r; lv_failure := lv_failure r; lv_attachment := lv_attachment r |}.

Definition LegView_from_leg (leg : Leg) : LegView :=
  {| lv_leg_id := leg_id leg; lv_direction := leg_direction leg;
     lv_signaling_initiator := signaling_initiator leg; lv_media_flow := leg_media_flow leg;
     lv_kind := leg_kind leg; lv_state := leg_state leg; lv_created_at := leg_created_at leg;
     lv_state_changed_at := leg_state_changed_at leg; lv_connected_at := leg_connected_at leg;
     lv_ended_at := leg_ended_at leg; lv_failure := FailureView_from <$> leg_failure leg;
     lv_attachment := None |}.

Record CallView := {
  vw_call_id : CallId;
  vw_tenant_id : TenantId;
  vw_state : CallState;
  vw_legs : LegView * LegView;
  vw_created_at : DateTime;
  vw_updated_at : DateTime;
  vw_state_changed_at : DateTime;
}.
#[export] Instance CallView_eta : Eta CallView := λ r,
  {| vw_call_id := vw_call_id r; vw_tenant_id := vw_tenant_id r; vw_state := vw_state r;
     vw_legs := vw_legs r; vw_created_at := vw_created_at r; vw_updated_at := vw_updated_at r;
     vw_state_changed_at := vw_state_changed_at r |}.

Definition CallView_from_aggregate (aggregate : CallAggregate) : CallView :=
  {| vw_call_id := ca_id aggregate; vw_tenant_id := ca_tenant_id aggregate;
     vw_state := ca_state aggregate;
     vw_legs := (LegView_from_leg (ca_leg0 aggregate), LegView_from_leg (ca_leg1 aggregate));
     vw_created_at := ca_created_at aggregate; vw_updated_at := ca_updated_at aggregate;
     vw_state_changed_at := ca_state_changed_at aggregate |}.

Definition CallView_from_stored (call : StoredServiceCall) : CallView :=
  CallView_from_aggregate (sc_aggregate (sl_call call)).

(** [CallView::attach]: the first leg with the identifier. *)
Definition attach (self : CallView) (leg_id : LegId) (attachment : AttachmentView) : CallView :=
  let '(l, r) := vw_legs self in
  if lv_leg_id l ==? leg_id
  then self <| vw_legs := (l <| lv_attachment := Some attachment |>, r) |>
  else if lv_leg_id r ==? leg_id
  then self <| vw_legs := (l, r <| lv_attachment := Some attachment |>) |>
  else self.

Record CallOperationResult (T : Type) := { or_value : T; or_replayed : bool }.
Arguments or_value {T}.
Arguments or_replayed {T}.

Record DtmfAcceptedView := {
  da_call_id : CallId;
  da_leg_id : LegId;
  da_command_id : CommandId;
  da_effect_id : EffectId;
  da_accepted_at : DateTime;
}.

Definition DtmfAcceptedView_from_control (value : ControlCommandView) : DtmfAcceptedView :=
  {| da_call_id := sn_call_id (nv_command value); da_leg_id := sn_leg_id (nv_command value);
     da_command_id := sn_command_id (nv_command value);
     da_effect_id := cx_effect_id (nv_effect value);
     da_accepted_at := sn_recorded_at (nv_command value) |}.

(** ** Requests *)

Record RequestedLeg := {
  rl_direction : LegDirection;
  rl_signaling_initiator : option SignalingInitiator;
  rl_media_flow : MediaFlow;
  rl_endpoint : LegEndpointConfig;
  rl_amazon_connect_start : option AmazonConnectStartSpec;
}.

Definition resolved_signaling_initiator (self : RequestedLeg) : SignalingInitiator :=
  match rl_signaling_initiator self with
  | Some value => value
  | None => initiator_legacy_default (rl_direction self)
  end.

Definition requested_semantics (self : RequestedLeg) : LegSemantics :=
  {| sem_signaling_initiator := resolved_signaling_initiator self;
     sem_media_flow := rl_media_flow self |}.

(** [Twilio] and [Vonage], whose control is deferred. *)
Definition deferred_provider (provider : ProviderKind) : bool :=
  match provider with
  | ProviderKind.Twilio | ProviderKind.Vonage => true
  | ProviderKind.Telnyx => false
  end.

Definition deferred_endpoint (endpoint : LegEndpointConfig) : bool :=
  match endpoint with
  | LegEndpointConfig.Provider config => deferred_provider (pc_provider config)
  | _ => false
  end.

Definition telnyx_endpoint (endpoint : LegEndpointConfig) : bool :=
  match endpoint with
  | LegEndpointConfig.Provider config => pc_provider config ==? ProviderKind.Telnyx
  | _ => false
  end.

Definition validate_named_route_destination `{ServiceLibs} (self : RequestedLeg)
    : result RepositoryError () :=
  reject_if
    ((rl_direction self !=? LegDirection.Outbound)
     || (resolved_signaling_initiator self !=? SignalingInitiator.Bridgefu)
     || (rl_media_flow self !=? MediaFlow.SendReceive))
    (RepositoryError.InvalidInput
       "named-route destination must be outbound, Bridgefu-initiated, and full-duplex");;
  reject_if (deferred_endpoint (rl_endpoint self))
    (RepositoryError.InvalidInput "named-route provider is deferred");;
  LegEndpointConfig_validate (rl_endpoint self) (rl_direction self)
    (resolved_signaling_initiator self);;
  match rl_endpoint self, rl_amazon_connect_start self with
  | LegEndpointConfig.AmazonConnect endpoint, Some start =>
      if (ae_instance_id endpoint ==? as_instance_id start)
         && (ae_contact_flow_id endpoint ==? as_contact_flow_id start)
      then Ok ()
      else Err (RepositoryError.InvalidInput
                  "named Amazon route requires a matching durable start specification")
  | LegEndpointConfig.AmazonConnect _, None =>
      Err (RepositoryError.InvalidInput
             "named Amazon route requires a matching durable start specification")
  | _, None => Ok ()
  | _, Some _ =>
      Err (RepositoryError.InvalidInput
             "Amazon start specification is valid only for an Amazon route")
  end.

Record CreateCallInput := {
  ci_tenant_id : option rstr;
  ci_legs : RequestedLeg * RequestedLeg;
}.

Record TransferCallInput := {
  ti_tenant_id : option rstr;
  ti_target_leg_id : LegId;
  ti_target : TransferTarget;
}.

Record ReplaceLegInput := {
  ri_tenant_id : option rstr;
  ri_route_id : rstr;
}.

Record DtmfCallInput := {
  di_tenant_id : option rstr;
  di_leg_id : LegId;
  di_digits : rstr;
  di_duration_ms : N;
  di_gap_ms : N;
}.

Record CallTimeoutPolicy := {
  tp_setup : Duration;
  tp_media_idle : Duration;
  tp_transfer : Duration;
  tp_ending : Duration;
}.

Definition CallTimeoutPolicy_default : CallTimeoutPolicy :=
  {| tp_setup := from_secs 30; tp_media_idle := from_secs 30; tp_transfer := from_secs 30;
     tp_ending := from_secs 30 |}.

Record MediaActivityObservation := {
  mo_tenant_id : TenantId;
  mo_call_id : CallId;
  mo_expected_version : AggregateVersion;
  mo_command_id : CommandId;
  mo_leg_id : LegId;
  mo_binding_generation : BindingGeneration;
  mo_connection_id : ConnectionId;
  mo_activity_generation : MediaActivityGeneration;
  mo_worker : WorkerLease;
  mo_at : DateTime;
}.

Record BroadcastSourceBinding := {
  bcs_tenant_id : TenantId;
  bcs_call_id : CallId;
  bcs_leg_id : LegId;
  bcs_binding_generation : BindingGeneration;
  bcs_connection_id : ConnectionId;
  bcs_worker : WorkerLease;
}.

(** ** Errors *)

Module PlacementError.
Inductive PlacementError := CapacityExceeded | UnsupportedCapability | Unavailable.
End PlacementError.
Abbreviation PlacementError := PlacementError.PlacementError.

Inductive AttachmentPrincipalResolverError := resolver_unavailable.

Module CallServiceError.
Inductive CallServiceError :=
| Principal (error : ApiPrincipalError)
| Crypto (error : ControlCryptoError)
| Repository (error : RepositoryError)
| CapacityExceeded
| DependencyUnavailable
| AttachmentPrincipalUnresolved
| ProviderDeferred
| UnsupportedCapability
| InvalidInput (message : string)
| InvalidTransition.
End CallServiceError.
Abbreviation CallServiceError := CallServiceError.CallServiceError.

Module InboundAttachmentError.
Inductive InboundAttachmentError := ProofRejected | Unavailable.
End InboundAttachmentError.
Abbreviation InboundAttachmentError := InboundAttachmentError.InboundAttachmentError.

Definition map_placement_error (error : PlacementError) : CallServiceError :=
  match error with
  | PlacementError.CapacityExceeded => CallServiceError.CapacityExceeded
  | PlacementError.UnsupportedCapability => CallServiceError.UnsupportedCapability
  | PlacementError.Unavailable => CallServiceError.DependencyUnavailable
  end.

Definition map_inbound_attachment_repository_error (error : RepositoryError)
    : InboundAttachmentError :=
  match error with
  | RepositoryError.Unavailable | RepositoryError.CapacityExceeded
  | RepositoryError.WorkerCapabilityUnavailable | RepositoryError.IdempotencyConflict
  | RepositoryError.ProviderEventConflict | RepositoryError.ProviderReferenceConflict
  | RepositoryError.StaleClaim | RepositoryError.CounterExhausted
  | RepositoryError.InvalidInput _ => InboundAttachmentError.Unavailable
  | RepositoryError.NotFound | RepositoryError.StaleWorkerFence
  | RepositoryError.VersionConflict | RepositoryError.CommandConflict
  | RepositoryError.AttachmentRejected | RepositoryError.AttachmentConflict
  | RepositoryError.DomainRejected => InboundAttachmentError.ProofRejected
  end.

(** ** Deadlines *)

Definition checked_deadline `{Chrono} (at_ : DateTime) (duration : Duration)
    : result CallServiceError DateTime :=
  if duration =? 0 then Err (CallServiceError.InvalidInput "deadline duration must be positive")
  else
    duration ← ok_or (from_std duration)
      (CallServiceError.InvalidInput "deadline duration is too large");
    ok_or (checked_add_signed at_ duration)
      (CallServiceError.InvalidInput "deadline is outside supported range").

(** [signed_duration_since] followed by [to_std], which refuses a negative difference. *)
Definition remaining_budget (observed_at deadline : DateTime) : result CallServiceError Duration :=
  let remaining := deadline - observed_at in
  if remaining <? 0 then Err CallServiceError.DependencyUnavailable
  else if remaining =? 0 then Err CallServiceError.DependencyUnavailable
  else Ok remaining.

(** ** Attachments of a leg *)

Definition attachment_transport (kind : LegKind) : AttachmentTransport :=
  match kind with
  | LegKind.Sip | LegKind.Twilio | LegKind.Telnyx | LegKind.Vonage => AttachmentTransport.Sip
  | LegKind.InteractiveWebRtc | LegKind.Whip | LegKind.Whep | LegKind.AmazonConnect =>
      AttachmentTransport.WebRtc
  end.

Definition requested_leg_needs_attachment (leg : RequestedLeg) : bool :=
  (resolved_signaling_initiator leg ==? SignalingInitiator.Remote)
  || telnyx_endpoint (rl_endpoint leg).

Definition leg_needs_attachment (leg : Leg) : bool :=
  (signaling_initiator leg ==? SignalingInitiator.Remote) || (leg_kind leg ==? LegKind.Telnyx).

Definition attachment_purpose (leg : Leg) : AttachmentPurpose :=
  if leg_kind leg ==? LegKind.Telnyx then AttachmentPurpose.ProviderMedia
  else AttachmentPurpose.PublicInbound.

(** ** Transcripts *)

Definition provider_label (provider : ProviderKind) : rstr :=
  match provider with
  | ProviderKind.Twilio => str "twilio"
  | ProviderKind.Telnyx => str "telnyx"
  | ProviderKind.Vonage => str "vonage"
  end.

Definition direction_label (direction : LegDirection) : rstr :=
  match direction with
  | LegDirection.Inbound => str "inbound"
  | LegDirection.Outbound => str "outbound"
  end.

Definition initiator_label (initiator : SignalingInitiator) : rstr :=
  match initiator with
  | SignalingInitiator.Bridgefu => str "bridgefu_initiated"
  | SignalingInitiator.Remote => str "remote_initiated"
  end.

Definition media_flow_label (flow : MediaFlow) : rstr :=
  match flow with
  | MediaFlow.SendReceive => str "send_receive"
  | MediaFlow.SendOnly => str "send_only"
  | MediaFlow.ReceiveOnly => str "receive_only"
  | MediaFlow.Inactive => str "inactive"
  end.

Definition initial_context_label (mode : SipInitialContextMode) : rstr :=
  match mode with
  | SipInitialContextMode.None_ => str "initial_context_none"
  | SipInitialContextMode.Required => str "initial_context_required"
  end.

Definition push_endpoint (transcript : CanonicalRequestTranscript) (endpoint : LegEndpointConfig)
    : CanonicalRequestTranscript :=
  match endpoint with
  | LegEndpointConfig.Sip config =>
      let transcript := push_str transcript (str "sip") in
      let transcript := push_optional_str transcript (se_uri config) in
      push_str transcript (initial_context_label (se_initial_context config))
  | LegEndpointConfig.WebRtc config =>
      push_optional_str (push_str transcript (str "webrtc")) (we_signaling_uri config)
  | LegEndpointConfig.Whip config =>
      push_optional_str (push_str transcript (str "whip")) (wi_endpoint_uri config)
  | LegEndpointConfig.Whep config =>
      push_optional_str (push_str transcript (str "whep")) (wp_endpoint_uri config)
  | LegEndpointConfig.AmazonConnect config =>
      let transcript := push_str transcript (str "amazon_connect") in
      let transcript := push_str transcript (ae_instance_id config) in
      push_str transcript (ae_contact_flow_id config)
  | LegEndpointConfig.Provider config =>
      let transcript := push_str transcript (str "provider") in
      let transcript := push_str transcript (provider_label (pc_provider config)) in
      let transcript := push_str transcript (pc_account_profile config) in
      push_optional_str transcript (pc_destination config)
  end.

(** The entries of a [BTreeMap], in key order, after their number. *)
Definition push_entries (transcript : CanonicalRequestTranscript) (entries : gmap rstr rstr)
    : CanonicalRequestTranscript :=
  foldl (λ transcript entry, push_str (push_str transcript entry.1) entry.2)
    (push_u64 transcript (Z.of_nat (size entries))) (btree_entries entries).

Definition push_connect_start (transcript : CanonicalRequestTranscript)
    (start : option AmazonConnectStartSpec) : CanonicalRequestTranscript :=
  match start with
  | Some spec =>
      let transcript := push_str transcript (str "amazon_connect_start") in
      let transcript := push_str transcript (as_profile spec) in
      let transcript := push_str transcript (as_instance_id spec) in
      let transcript := push_str transcript (as_contact_flow_id spec) in
      let transcript := push_str transcript (as_display_name spec) in
      let transcript := push_optional_str transcript (as_description spec) in
      push_entries transcript (as_attributes spec)
  | None => push_str transcript (str "no_amazon_connect_start")
  end.

Definition push_leg (transcript : CanonicalRequestTranscript) (leg : RequestedLeg)
    : CanonicalRequestTranscript :=
  let transcript := push_str transcript (direction_label (rl_direction leg)) in
  let transcript := push_str transcript (initiator_label (resolved_signaling_initiator leg)) in
  let transcript := push_str transcript (media_flow_label (rl_media_flow leg)) in
  let transcript := push_endpoint transcript (rl_endpoint leg) in
  push_connect_start transcript (rl_amazon_connect_start leg).

Definition create_transcript (legs : RequestedLeg * RequestedLeg) : CanonicalRequestTranscript :=
  push_leg (push_leg CanonicalRequestTranscript_new legs.1) legs.2.

Definition push_named_route (transcript : CanonicalRequestTranscript) (binding : NamedRouteBinding)
    : CanonicalRequestTranscript :=
  let transcript := push_str transcript (str "bridgefu.named-route.v1") in
  let transcript := push_str transcript (nb_route_id binding) in
  let transcript :=
    match nb_required_sip_correlation_header binding with
    | Some header =>
        push_str (push_str transcript (str "required_sip_correlation_header_v1")) header
    | None => transcript
    end in
  match nb_context binding with
  | Some context =>
      let transcript := push_str transcript (str "context") in
      let transcript := push_str transcript (nc_correlation_id context) in
      push_entries transcript (nc_metadata context)
  | None => push_str transcript (str "no_context")
  end.

(** The derived orders of the two enumerations. *)
Definition role_index (role : NamedProfileRole) : Z :=
  match role with NamedProfileRole.Ingress => 0 | NamedProfileRole.Destination => 1 end.

Definition kind_index (kind : NamedProfileKind) : Z :=
  match kind with
  | NamedProfileKind.VapiIngress => 0 | NamedProfileKind.SipIngress => 1
  | NamedProfileKind.Sip => 2 | NamedProfileKind.WebRtc => 3
  | NamedProfileKind.AmazonConnect => 4 | NamedProfileKind.Telnyx => 5
  end.

Definition compare_profiles (l r : NamedProfileBinding) : comparison :=
  then_ (role_index (np_role l) ?= role_index (np_role r))
    (then_ (kind_index (np_kind l) ?= kind_index (np_kind r))
       (then_ (compare_rstr (np_profile_id l) (np_profile_id r))
          (compare_rstr (np_revision l) (np_revision r)))).

Definition role_label (role : NamedProfileRole) : rstr :=
  match role with
  | NamedProfileRole.Ingress => str "ingress"
  | NamedProfileRole.Destination => str "destination"
  end.

Definition kind_label (kind : NamedProfileKind) : rstr :=
  match kind with
  | NamedProfileKind.VapiIngress => str "vapi_ingress"
  | NamedProfileKind.SipIngress => str "sip_ingress"
  | NamedProfileKind.Sip => str "sip"
  | NamedProfileKind.WebRtc => str "webrtc"
  | NamedProfileKind.AmazonConnect => str "amazon_connect"
  | NamedProfileKind.Telnyx => str "telnyx"
  end.

Definition push_profile (transcript : CanonicalRequestTranscript) (profile : NamedProfileBinding)
    : CanonicalRequestTranscript :=
  let transcript := push_str transcript (role_label (np_role profile)) in
  let transcript := push_str transcript (kind_label (np_kind profile)) in
  push_str (push_str transcript (np_profile_id profile)) (np_revision profile).

Definition push_replacement_route (transcript : CanonicalRequestTranscript)
    (binding : NamedRouteBinding) : CanonicalRequestTranscript :=
  let transcript := push_str transcript (str "bridgefu.leg-replacement.route.v1") in
  let transcript := push_str transcript (nb_route_id binding) in
  let profiles := sort_by compare_profiles (nb_profiles binding) in
  foldl push_profile (push_u64 transcript (Z.of_nat (length profiles))) profiles.

(** A leg none of whose newer fields says anything. *)
Definition historical_leg (leg : RequestedLeg) : bool :=
  is_none (rl_amazon_connect_start leg)
  && negb (match rl_endpoint leg with
           | LegEndpointConfig.Sip config =>
               se_initial_context config ==? SipInitialContextMode.Required
           | _ => false
           end)
  && (resolved_signaling_initiator leg ==? initiator_legacy_default (rl_direction leg))
  && (rl_media_flow leg ==? MediaFlow.SendReceive).

Definition legacy_create_transcript (legs : RequestedLeg * RequestedLeg)
    : option CanonicalRequestTranscript :=
  if historical_leg legs.1 && historical_leg legs.2
  then
    let push transcript leg :=
      push_endpoint (push_str transcript (direction_label (rl_direction leg))) (rl_endpoint leg) in
    Some (push (push CanonicalRequestTranscript_new legs.1) legs.2)
  else None.

Definition push_transfer_target (transcript : CanonicalRequestTranscript) (target : TransferTarget)
    : CanonicalRequestTranscript :=
  match target with
  | TransferTarget.Sip uri => push_str (push_str transcript (str "sip")) uri
  | TransferTarget.WebRtc uri => push_str (push_str transcript (str "webrtc")) uri
  | TransferTarget.AmazonConnect instance_id contact_flow_id =>
      let transcript := push_str transcript (str "amazon_connect") in
      push_str (push_str transcript instance_id) contact_flow_id
  | TransferTarget.Provider provider account_profile destination =>
      let transcript := push_str transcript (str "provider") in
      let transcript := push_str transcript (provider_label provider) in
      push_str (push_str transcript account_profile) destination
  end.

(** ** Guards of a request *)

Definition reject_deferred_provider_legs (legs : RequestedLeg * RequestedLeg)
    : result CallServiceError () :=
  reject_if (deferred_endpoint (rl_endpoint legs.1) || deferred_endpoint (rl_endpoint legs.2))
    CallServiceError.ProviderDeferred.

Definition reject_deferred_provider_transfer (target : TransferTarget)
    : result CallServiceError () :=
  reject_if (match target with
             | TransferTarget.Provider provider _ _ => deferred_provider provider
             | _ => false
             end) CallServiceError.ProviderDeferred.

Definition ensure_transfer_capability (endpoint : LegEndpointConfig) (target : TransferTarget)
    : result CallServiceError () :=
  let supported :=
    match endpoint, target with
    | LegEndpointConfig.Sip _, TransferTarget.Sip _ => true
    | LegEndpointConfig.Provider config, TransferTarget.Sip _ =>
        pc_provider config ==? ProviderKind.Telnyx
    | LegEndpointConfig.Provider config, TransferTarget.Provider provider target_profile _ =>
        (pc_provider config ==? ProviderKind.Telnyx) && (provider ==? ProviderKind.Telnyx)
        && (pc_account_profile config ==? target_profile)
    | _, _ => false
    end in
  if supported then Ok () else Err CallServiceError.UnsupportedCapability.

(** ** SIP correlation *)

Definition MAX_INBOUND_SIGNALING_METADATA_ENTRIES : Z := 64.
Definition MAX_CORRELATION_BYTES : Z := 512.

Record SipInviteCorrelationEvidence := {
  iv_correlation_fingerprint : rstr;
  iv_header_name : rstr;
  iv_header_count : nat;
}.

(** [value.contains(['\r', '\n', '\0'])] is [breaks_line]. *)
Definition correlation_fingerprint `{Hashing} (value : rstr) : option rstr :=
  if is_empty value || (MAX_CORRELATION_BYTES <? len value) || breaks_line value then None
  else Some (take 6 (digest_bytes (sha256 (bytes value))) ≫= format_02x).

Definition verified_sip_invite_correlation `{Hashing} (required : option (rstr * rstr))
    (transport : AttachmentTransport) (signaling_metadata : list (rstr * rstr))
    : result InboundAttachmentError (option SipInviteCorrelationEvidence) :=
  if transport !=? AttachmentTransport.Sip then Ok None
  else
    match required with
    | None => Ok None
    | Some (required_header, expected) =>
        reject_if (is_empty expected) InboundAttachmentError.ProofRejected;;
        reject_if (MAX_INBOUND_SIGNALING_METADATA_ENTRIES <? Z.of_nat (length signaling_metadata))
          InboundAttachmentError.ProofRejected;;
        let presented :=
          List.filter (λ entry, ignore_case_eq entry.1 required_header) signaling_metadata in
        value ← ok_or (snd <$> head presented) InboundAttachmentError.ProofRejected;
        reject_if
          (negb (Z.of_nat (length presented) =? 1) || is_empty value || (512 <? len value)
           || breaks_line value || (value !=? expected)) InboundAttachmentError.ProofRejected;;
        fingerprint ← ok_or (correlation_fingerprint expected) InboundAttachmentError.ProofRejected;
        Ok (Some {| iv_correlation_fingerprint := fingerprint;
                    iv_header_name := to_lower required_header;
                    iv_header_count := length presented |})
    end.
