(* ===== verification/ServiceWorld.v ===== *)
(** The world a service operation runs in, and how to reason about a program in it. *)

From S2P Require Import Prelude RustText DomainTypes Domain DomainInv CoordModel RepoTypes.
From S2P Require Import ServiceTypes Context PlanModel RepoMemory RepoClaims ServiceCommands.
From S2P Require Import ServiceMemory ServiceReconcile RepoInv RepoEffects ServiceEffects.
From S2P Require Import RepoTheorems.
From stdpp Require Import options.

Class Environment := {
  (** [CallServiceClock::now], at a step. *)
  ev_now : nat → DateTime;
  (** A random identifier drawn at a step. *)
  ev_uuid : nat → Uuid;
  (** The two leg identifiers of a new call: [new_with_semantics] draws the second until it is
      different from the first. *)
  ev_leg_ids : nat → LegId * LegId;
  (** The identifiers drawn for the effects of a transaction on a store. *)
  ev_effect_ids : nat → MemoryRepository → nat → EffectId;
  (** What the other users of the store do before a step. *)
  ev_others : nat → MemoryRepository → MemoryRepository;
  (** Whether the [tokio::time::timeout] of a step strikes. *)
  ev_elapsed : nat → bool;
}.

(** The others use the methods of the two repositories, and random identifiers are fresh. *)
Class EnvironmentLaws `{Chrono, ServiceLibs} {environment : Environment} : Prop := {
  others_use_methods n r : rtc store_step r (ev_others n r);
  effect_ids_fresh n r : fresh_ids (ev_effect_ids n r) (mr_state r);
  leg_ids_differ n : (ev_leg_ids n).1 ≠ (ev_leg_ids n).2;
}.

Record World := { wo_store : MemoryRepository; wo_step : nat }.

Definition Svc (E A : Type) : Type := World → World * option (result E A).

#[export] Instance Svc_ret {E} : MRet (Svc E) := λ A x w, (w, Some (Ok x)).
#[export] Instance Svc_bind {E} : MBind (Svc E) := λ A B f m w,
  match m w with
  | (w, Some (Ok x)) => f x w
  | (w, Some (Err e)) => (w, Some (Err e))
  | (w, None) => (w, None)
  end.

Section World.
Context `{Environment}.

(** A value, an error, a panic. *)
Definition answer {E A} (r : result E A) : Svc E A := λ w, (w, Some r).
Definition fail {E A} (e : E) : Svc E A := answer (Err e).
Definition or_panic {E A} (o : option A) : Svc E A := λ w, (w, Ok <$> o).

(** [map_err]. *)
Definition map_err {E E' A} (f : E → E') (r : result E A) : result E' A :=
  match r with Ok x => Ok x | Err e => Err (f e) end.

Definition tick (w : World) : World := {| wo_store := wo_store w; wo_step := S (wo_step w) |}.

Definition now {E} : Svc E DateTime := λ w, (tick w, Some (Ok (ev_now (wo_step w)))).
Definition new_uuid {E} : Svc E Uuid := λ w, (tick w, Some (Ok (ev_uuid (wo_step w)))).
Definition new_leg_ids {E} : Svc E (LegId * LegId) := λ w,
  (tick w, Some (Ok (ev_leg_ids (wo_step w)))).

(** A repository method, after whatever the others did. *)
Definition call {E E' A} (error : E → E')
    (method : (nat → EffectId) → MemoryRepository → MemoryRepository * result E A) : Svc E' A := λ w,
  let store := ev_others (wo_step w) (wo_store w) in
  let '(store, outcome) := method (ev_effect_ids (wo_step w) store) store in
  ({| wo_store := store; wo_step := S (wo_step w) |}, Some (map_err error outcome)).

(** A repository method that reads. *)
Definition query {E E' A} (error : E → E') (method : MemoryRepository → result E A) : Svc E' A :=
  call error (λ _ store, (store, method store)).

(** The outcome of an operation as a value. *)
Definition attempt {E E' A} (m : Svc E A) : Svc E' (result E A) := λ w,
  let '(w, outcome) := m w in (w, Ok <$> outcome).

(** [tokio::time::timeout]: [None] when it strikes.  The operations it is used on only read, so what
    they did before is what the others do anyway. *)
Definition timeout {E E' A} (m : Svc E A) : Svc E' (option (result E A)) := λ w,
  if ev_elapsed (wo_step w) then (tick w, Some (Ok None))
  else let '(w, outcome) := m (tick w) in (w, (λ r, Ok (Some r)) <$> outcome).
End World.

(** Reasoning about the programs of [ServiceWorld]: what an answer tells about each step, and what
    an operation may have done to the store.

    [runs m] says that [m] uses the store only through the methods of the two repositories;
    [waits m e] that whenever [m] answers with an outcome satisfying [e], all changes of the store
    were made by others.  Both are closed under the combinators and proved by search. *)

Create HintDb svc discriminated.
Create Rewrite HintDb svc.

Section Inversion.
Context `{Environment}.

Lemma svc_bind_ok {E A B} (m : Svc E A) (f : A → Svc E B) w w' y :
  (m ≫= f) w = (w', Some (Ok y)) ↔
  ∃ w1 x, m w = (w1, Some (Ok x)) ∧ f x w1 = (w', Some (Ok y)).
Proof using.
  unfold mbind, Svc_bind. split.
  - destruct (m w) as [w1 [[x|]|]] eqn:Em; intros Ef; [|done..]. by exists w1, x.
  - by intros (w1 & x & -> & Ef).
Qed.

Lemma svc_bind_err {E A B} (m : Svc E A) (f : A → Svc E B) w w' e :
  (m ≫= f) w = (w', Some (Err e)) ↔
  m w = (w', Some (Err e)) ∨ ∃ w1 x, m w = (w1, Some (Ok x)) ∧ f x w1 = (w', Some (Err e)).
Proof using.
  unfold mbind, Svc_bind. split.
  - destruct (m w) as [w1 [[x|]|]] eqn:Em; intros Ef; [right|left|done]; [by exists w1, x|congruence].
  - by intros [->|(w1 & x & -> & Ef)].
Qed.

Lemma svc_ret_ok {E A} (x y : A) w w' : mret (M := Svc E) x w = (w', Some (Ok y)) ↔ w' = w ∧ y = x.
Proof using. unfold mret, Svc_ret. naive_solver. Qed.

Lemma svc_answer_ok {E A} (r : result E A) x w w' :
  answer r w = (w', Some (Ok x)) ↔ w' = w ∧ r = Ok x.
Proof using. unfold answer. naive_solver. Qed.

Lemma svc_panic_ok {E A} (o : option A) x w w' :
  or_panic (E := E) o w = (w', Some (Ok x)) ↔ w' = w ∧ o = Some x.
Proof using. unfold or_panic. destruct o; naive_solver. Qed.

Lemma svc_now_ok {E} t w w' :
  now (E := E) w = (w', Some (Ok t)) ↔ w' = tick w ∧ t = ev_now (wo_step w).
Proof using. unfold now. naive_solver. Qed.

Lemma svc_uuid_ok {E} u w w' :
  new_uuid (E := E) w = (w', Some (Ok u)) ↔ w' = tick w ∧ u = ev_uuid (wo_step w).
Proof using. unfold new_uuid. naive_solver. Qed.

(** The store a step finds. *)
Definition found (w : World) : MemoryRepository := ev_others (wo_step w) (wo_store w).

Definition after (store : MemoryRepository) (w : World) : World :=
  {| wo_store := store; wo_step := S (wo_step w) |}.

Lemma svc_query_ok {E E' A} (f : E → E') (method : MemoryRepository → result E A) x w w' :
  query f method w = (w', Some (Ok x)) ↔ w' = after (found w) w ∧ method (found w) = Ok x.
Proof using.
  unfold query, call, found, after. destruct (method _); cbn; naive_solver.
Qed.

Lemma svc_call_ok {E E' A} (f : E → E')
    (method : (nat → EffectId) → MemoryRepository → MemoryRepository * result E A) x w w' :
  call f method w = (w', Some (Ok x)) ↔
  ∃ store, w' = after store w ∧
           method (ev_effect_ids (wo_step w) (found w)) (found w) = (store, Ok x).
Proof using.
  unfold call, found, after. destruct (method _ _) as [store [y|]]; cbn; naive_solver.
Qed.

Lemma svc_attempt_ok {E E' A} (m : Svc E A) r w w' :
  attempt (E' := E') m w = (w', Some (Ok r)) ↔ m w = (w', Some r).
Proof using. unfold attempt. destruct (m w) as [w1 [o|]]; cbn; naive_solver. Qed.
End Inversion.

#[export] Hint Rewrite @svc_bind_ok @svc_ret_ok @svc_answer_ok @svc_panic_ok @svc_now_ok @svc_uuid_ok
  @svc_query_ok @svc_call_ok @svc_attempt_ok : svc.

(** ** What an operation does to the store *)

Section Runs.
Context `{Chrono, ServiceLibs, Environment}.

Definition runs {E A} (m : Svc E A) : Prop :=
  ∀ w, rtc store_step (wo_store w) (wo_store (m w).1).

(** A step of the others. *)
Definition other_step (r r' : MemoryRepository) : Prop := ∃ n, r' = ev_others n r.

(** Outcomes that leave the store to the others. *)
Definition waits {E A} (idle : option (result E A) → Prop) (m : Svc E A) : Prop :=
  ∀ w, idle (m w).2 → rtc other_step (wo_store w) (wo_store (m w).1).

Definition failed {E A} (o : option (result E A)) : Prop :=
  match o with Some (Ok _) => False | _ => True end.

Definition any {E A} (o : option (result E A)) : Prop := True.

Lemma runs_bind {E A B} (m : Svc E A) (f : A → Svc E B) : runs m → (∀ x, runs (f x)) → runs (m ≫= f).
Proof using.
  intros Hm Hf w. unfold mbind, Svc_bind. specialize (Hm w).
  destruct (m w) as [w1 [[x|]|]]; cbn in *; [|done..]. etrans; [done|apply Hf].
Qed.

Lemma waits_bind {E A B} idle (m : Svc E A) (f : A → Svc E B) :
  waits any m → (∀ x, waits idle (f x)) → waits idle (m ≫= f).
Proof using.
  intros Hm Hf w Hi. unfold mbind, Svc_bind in *. specialize (Hm w I).
  destruct (m w) as [w1 [[x|]|]]; cbn in *; [|done..]. etrans; [done|by apply Hf].
Qed.

Lemma waits_weaken {E A} (p q : option (result E A) → Prop) (m : Svc E A) :
  waits p m → (∀ o, q o → p o) → waits q m.
Proof using. intros Hm Hpq w Hq. by apply Hm, Hpq. Qed.

Lemma waits_any {E A} idle (m : Svc E A) : waits any m → waits idle m.
Proof using. intros Hm. by apply (waits_weaken any). Qed.

Lemma other_once r n : rtc other_step r (ev_others n r).
Proof using. apply rtc_once. by exists n. Qed.

(** A method whose refusals write nothing. *)
Definition refuses_cleanly {E A}
    (method : (nat → EffectId) → MemoryRepository → MemoryRepository * result E A) : Prop :=
  ∀ new_id r e r', method new_id r = (r', Err e) → r' = r.

Lemma waits_call {E E' A} (f : E → E')
    (method : (nat → EffectId) → MemoryRepository → MemoryRepository * result E A) :
  refuses_cleanly method → waits failed (call f method).
Proof using.
  intros Hm w. unfold call. destruct (method _ _) as [r' [x|e]] eqn:E1; cbn; [done|].
  apply Hm in E1 as ->. intros _. apply other_once.
Qed.

Lemma waits_query {E E' A} (f : E → E') (method : MemoryRepository → result E A) :
  waits any (query f method).
Proof using. intros w _. apply other_once. Qed.

Lemma waits_attempt {E E' A} (m : Svc E A) : waits any m → waits any (attempt (E' := E') m).
Proof using. intros Hm w _. unfold attempt. specialize (Hm w I). by destruct (m w) as [w1 o]. Qed.

Lemma waits_timeout {E E' A} (m : Svc E A) : waits any m → waits any (timeout (E' := E') m).
Proof using.
  intros Hm w _. unfold timeout. destruct (ev_elapsed _); [done|].
  specialize (Hm (tick w) I). by destruct (m (tick w)) as [w1 o].
Qed.

Lemma waits_still {E A} idle (m : Svc E A) : (∀ w, wo_store (m w).1 = wo_store w) → waits idle m.
Proof using. intros Hm w _. by rewrite Hm. Qed.

Lemma still_ret {E A} idle (x : A) : waits (E := E) idle (mret x).
Proof using. by apply waits_still. Qed.
Lemma still_answer {E A} idle (r : result E A) : waits idle (answer r).
Proof using. by apply waits_still. Qed.
Lemma still_fail {E A} idle (e : E) : waits (A := A) idle (fail e).
Proof using. by apply waits_still. Qed.
Lemma still_panic {E A} idle (o : option A) : waits (E := E) idle (or_panic o).
Proof using. by apply waits_still. Qed.
Lemma still_now {E} idle : waits (E := E) idle now.
Proof using. by apply waits_still. Qed.
Lemma still_uuid {E} idle : waits (E := E) idle new_uuid.
Proof using. by apply waits_still. Qed.
Lemma still_leg_ids {E} idle : waits (E := E) idle new_leg_ids.
Proof using. by apply waits_still. Qed.

(** Waiting is a run, as the others use the methods too. *)
Lemma waits_runs `{!EnvironmentLaws} {E A} (m : Svc E A) : waits any m → runs m.
Proof using.
  intros Hm w. specialize (Hm w I).
  refine (rtc_ind_l (λ r, rtc store_step r _) _ (rtc_refl _ _) _ _ Hm).
  intros r r' [n ->] _ IH. etrans; [apply others_use_methods|done].
Qed.

Lemma runs_attempt {E E' A} (m : Svc E A) : runs m → runs (attempt (E' := E') m).
Proof using. intros Hm w. unfold attempt. specialize (Hm w). by destruct (m w) as [w1 o]. Qed.

Lemma runs_call `{!EnvironmentLaws} {E E' A} (f : E → E')
    (method : (nat → EffectId) → MemoryRepository → MemoryRepository * result E A) :
  (∀ new_id r, fresh_ids new_id (mr_state r) → store_step r (method new_id r).1) →
  runs (call f method).
Proof using.
  intros Hm w. unfold call. specialize (Hm (ev_effect_ids (wo_step w) (found w)) (found w)).
  specialize (Hm (effect_ids_fresh _ _)). unfold found in Hm.
  destruct (method _ _) as [r' o]; cbn in *. etrans; [apply others_use_methods|by apply rtc_once].
Qed.

(** The methods that are transactions. *)
Lemma transaction_refuses {A} (tx : (nat → EffectId) → Tx A) :
  refuses_cleanly (λ new_id r, transaction r (tx new_id)).
Proof using.
  intros new_id r e r'. unfold transaction. destruct (lock r) as [s|]; [|congruence].
  destruct (tx new_id s) as [[? ?]|]; congruence.
Qed.
End Runs.

#[export] Hint Resolve runs_bind waits_bind still_ret still_answer still_fail still_panic still_now
  still_uuid still_leg_ids waits_query waits_attempt waits_timeout waits_call : svc.
