(* ===== verification/ServicePlacement.v ===== *)
(** Where a call may run and who may attach to it ([src/call_service/service.rs]): the worker
    placements and the resolvers of attachment principals.

    A projection of the coordination component answers [worker_hints] as it sees fit at each step;
    a set of worker identifiers is visited in their order. *)

From S2P Require Import Prelude RustText DomainTypes CoordModel Domain RepoTypes ServiceTypes.
From S2P Require Import RepoMemory RepoClaims Context PlanModel ServiceCommands ServiceMemory.
From S2P Require Import ServiceReconcile ServiceWorld.
From S2P Require Import Principal ControlCrypto ServiceApi.
From stdpp Require Import options.

Definition MAX_WORKER_CANDIDATES : nat := 8.

(** The trait [WorkerPlacement]. *)
Record WorkerPlacement := {
  select_workers : TenantId → CallExecutionPlan → DateTime → Svc PlacementError (list WorkerLease);
  requires_replacement_worker_guard : bool;
  allows_worker : WorkerId → bool;
  allows_assignment : WorkerAssignment → bool;
}.

Definition FixedWorkerPlacement (worker : WorkerLease) : WorkerPlacement :=
  let allows worker_id := wl_worker_id worker ==? worker_id in
  {| select_workers _ _ _ := mret [worker];
     requires_replacement_worker_guard := false;
     allows_worker := allows;
     allows_assignment assignment := allows (wl_worker_id (wa_lease assignment)) |}.

Record RepositoryWorkerPlacement := {
  rw_projection :
    option (nat → WorkerSelectionRequest → result CoordinationError (list WorkerCoordinationSnapshot));
  rw_limit : nat;
  rw_replacement_worker_guard : bool;
  rw_allowed_worker_ids : option (gset WorkerId);
  rw_route_catalog_fingerprint : option RouteCatalogFingerprint;
}.
#[export] Instance RepositoryWorkerPlacement_eta : Eta RepositoryWorkerPlacement := λ r,
  {| rw_projection := rw_projection r; rw_limit := rw_limit r;
     rw_replacement_worker_guard := rw_replacement_worker_guard r;
     rw_allowed_worker_ids := rw_allowed_worker_ids r;
     rw_route_catalog_fingerprint := rw_route_catalog_fingerprint r |}.

Definition RepositoryWorkerPlacement_new : RepositoryWorkerPlacement :=
  {| rw_projection := None; rw_limit := MAX_WORKER_CANDIDATES;
     rw_replacement_worker_guard := false; rw_allowed_worker_ids := None;
     rw_route_catalog_fingerprint := None |}.

Definition with_projection (self : RepositoryWorkerPlacement)
    (projection : nat → WorkerSelectionRequest → result CoordinationError (list WorkerCoordinationSnapshot))
    : RepositoryWorkerPlacement := self <| rw_projection := Some projection |>.
Definition with_replacement_worker_guard (self : RepositoryWorkerPlacement)
    : RepositoryWorkerPlacement := self <| rw_replacement_worker_guard := true |>.
Definition with_allowed_workers (self : RepositoryWorkerPlacement) (worker_ids : gset WorkerId)
    : RepositoryWorkerPlacement := self <| rw_allowed_worker_ids := Some worker_ids |>.
Definition with_route_catalog_fingerprint (self : RepositoryWorkerPlacement)
    (fingerprint : RouteCatalogFingerprint) : RepositoryWorkerPlacement :=
  self <| rw_route_catalog_fingerprint := Some fingerprint |>.

Section Placement.
Context `{Environment, ServiceLibs}.

Definition worker_outside (self : RepositoryWorkerPlacement) (worker_id : WorkerId) : bool :=
  is_some_and (λ allowed, negb (bool_decide (worker_id ∈ allowed))) (rw_allowed_worker_ids self).

Definition worker_has_room (worker : WorkerSnapshot) (selected : list WorkerLease) : bool :=
  (wk_reserved_calls worker <? wk_max_calls worker)%N
  && negb (bool_decide (wk_lease worker ∈ selected)).

(** The body of the loop over the hints. *)
Definition consider_hint (self : RepositoryWorkerPlacement) (required : gset rstr) (at_ : DateTime)
    (hint : WorkerCoordinationSnapshot) (selected : list WorkerLease)
    : Svc PlacementError (list WorkerLease) :=
  let worker_id := wl_worker_id (ws_lease hint) in
  if worker_outside self worker_id then mret selected
  else
    observed ← attempt (query id (λ store, worker_snapshot store worker_id));
    match observed with
    | Err _ => mret selected
    | Ok observed =>
        if wk_lease observed !=? ws_lease hint then mret selected
        else
          worker ← attempt (query id (λ store, active_worker_snapshot store (wk_lease observed) at_));
          match worker with
          | Err _ => mret selected
          | Ok worker =>
              mret (if worker_has_room worker selected
                       && bool_decide (required ⊆ wk_capabilities worker)
                    then selected ++ [wk_lease worker] else selected)
          end
    end.

Fixpoint consider_hints (self : RepositoryWorkerPlacement) (required : gset rstr) (at_ : DateTime)
    (hints : list WorkerCoordinationSnapshot) (selected : list WorkerLease)
    : Svc PlacementError (list WorkerLease) :=
  match hints with
  | [] => mret selected
  | hint :: hints =>
      selected ← consider_hint self required at_ hint selected;
      consider_hints self required at_ hints selected
  end.

(** The variables of the loop over the allowed workers. *)
Record Reachable := {
  re_selected : list WorkerLease;
  re_live : bool;
  re_capable : bool;
}.
#[export] Instance Reachable_eta : Eta Reachable := λ r,
  {| re_selected := re_selected r; re_live := re_live r; re_capable := re_capable r |}.

Definition not_registered (error : RepositoryError) : bool :=
  match error with RepositoryError.NotFound => true | _ => false end.

Definition not_active (error : RepositoryError) : bool :=
  match error with
  | RepositoryError.NotFound | RepositoryError.StaleWorkerFence => true
  | _ => false
  end.

(** Its body. *)
Definition consider_allowed (required : gset rstr) (at_ : DateTime) (worker_id : WorkerId)
    (reached : Reachable) : Svc PlacementError Reachable :=
  observed ← attempt (query id (λ store, worker_snapshot store worker_id));
  match observed with
  | Err error => if not_registered error then mret reached else fail PlacementError.Unavailable
  | Ok observed =>
      worker ← attempt (query id (λ store, active_worker_snapshot store (wk_lease observed) at_));
      match worker with
      | Err error => if not_active error then mret reached else fail PlacementError.Unavailable
      | Ok worker =>
          let reached := reached <| re_live := true |> in
          if negb (bool_decide (required ⊆ wk_capabilities worker)) then mret reached
          else
            let reached := reached <| re_capable := true |> in
            mret (if worker_has_room worker (re_selected reached)
                  then reached <| re_selected := re_selected reached ++ [wk_lease worker] |>
                  else reached)
      end
  end.

Fixpoint consider_all_allowed (limit : nat) (required : gset rstr) (at_ : DateTime)
    (allowed : list WorkerId) (reached : Reachable) : Svc PlacementError Reachable :=
  match allowed with
  | [] => mret reached
  | worker_id :: allowed =>
      if (limit <=? length (re_selected reached))%nat then mret reached
      else
        reached ← consider_allowed required at_ worker_id reached;
        consider_all_allowed limit required at_ allowed reached
  end.

(** The loop over the candidates of the database. *)
Definition add_candidate (limit : nat) (selected : list WorkerLease) (worker : WorkerSnapshot)
    : list WorkerLease :=
  if negb (bool_decide (wk_lease worker ∈ selected)) && (length selected <? limit)%nat
  then selected ++ [wk_lease worker] else selected.

Definition required_of (self : RepositoryWorkerPlacement) (capabilities : gset rstr) : gset rstr :=
  match rw_route_catalog_fingerprint self with
  | Some fingerprint => {[advertisement_capability fingerprint]} ∪ capabilities
  | None => capabilities
  end.

(** [projection.worker_hints]. *)
Definition hinted_workers (self : RepositoryWorkerPlacement) (required : gset rstr)
    : Svc PlacementError (list WorkerCoordinationSnapshot) := λ w,
  match rw_projection self with
  | None => (w, Some (Ok []))
  | Some worker_hints =>
      let request := {| sr_required_capabilities := required; sr_limit := N.of_nat (rw_limit self) |} in
      (tick w, Some (Ok (match worker_hints (wo_step w) request with
                         | Ok hints => hints
                         | Err _ => []
                         end)))
  end.

Definition repository_select_workers (self : RepositoryWorkerPlacement) (plan : CallExecutionPlan)
    (at_ : DateTime) : Svc PlacementError (list WorkerLease) :=
  capabilities ← answer (map_err (λ _, PlacementError.Unavailable) (required_worker_capabilities plan));
  let required := required_of self capabilities in
  hints ← hinted_workers self required;
  selected ← consider_hints self required at_ hints [];
  match rw_allowed_worker_ids self with
  | Some allowed =>
      reached ← consider_all_allowed (rw_limit self) required at_
        (sort_by Z.compare (elements allowed))
        {| re_selected := selected; re_live := false; re_capable := false |};
      if is_empty (re_selected reached)
      then fail (if negb (re_live reached) then PlacementError.Unavailable
                 else if negb (re_capable reached) then PlacementError.UnsupportedCapability
                 else PlacementError.CapacityExceeded)
      else mret (re_selected reached)
  | None =>
      workers ← query (λ _, PlacementError.Unavailable)
        (λ store, worker_candidates store required at_ (N.of_nat (rw_limit self)));
      let selected := foldl (add_candidate (rw_limit self)) selected workers in
      if is_empty selected then fail PlacementError.CapacityExceeded else mret selected
  end.

Definition repository_allows_worker (self : RepositoryWorkerPlacement) (worker_id : WorkerId) : bool :=
  is_none_or (λ allowed, bool_decide (worker_id ∈ allowed)) (rw_allowed_worker_ids self).

Definition repository_allows_assignment (self : RepositoryWorkerPlacement)
    (assignment : WorkerAssignment) : bool :=
  repository_allows_worker self (wl_worker_id (wa_lease assignment))
  && is_none_or (λ expected, wa_route_catalog_fingerprint assignment ==? Some expected)
       (rw_route_catalog_fingerprint self).

Definition repository_placement (self : RepositoryWorkerPlacement) : WorkerPlacement :=
  {| select_workers _ := repository_select_workers self;
     requires_replacement_worker_guard := rw_replacement_worker_guard self;
     allows_worker := repository_allows_worker self;
     allows_assignment := repository_allows_assignment self |}.
End Placement.

(** ** Attachment principals *)

Record AttachmentPrincipalRequest := {
  ar_tenant : TenantId;
  ar_leg : LegExecutionSpec;
  ar_named_route : option NamedRouteBinding;
  ar_api_principal : PrincipalFingerprint;
}.

(** The trait [AttachmentPrincipalResolver]; the answers may differ from step to step. *)
Record AttachmentPrincipalResolver `{AuthTypes} := {
  resolve_principal :
    nat → AttachmentPrincipalRequest →
    result AttachmentPrincipalResolverError (option PrincipalFingerprint);
  resolve_authenticated_principal :
    nat → AttachmentPrincipalRequest →
    result AttachmentPrincipalResolverError (option AuthenticatedPrincipal);
}.

(** A generic endpoint, whose own principal may attach. *)
Definition same_principal_endpoint (endpoint : LegEndpointConfig) : bool :=
  match endpoint with
  | LegEndpointConfig.Sip _ | LegEndpointConfig.WebRtc _ | LegEndpointConfig.Whip _
  | LegEndpointConfig.Whep _ => true
  | LegEndpointConfig.AmazonConnect _ | LegEndpointConfig.Provider _ => false
  end.

Definition is_sip_endpoint (endpoint : LegEndpointConfig) : bool :=
  match endpoint with LegEndpointConfig.Sip _ => true | _ => false end.

Definition same_principal (request : AttachmentPrincipalRequest) : option PrincipalFingerprint :=
  if same_principal_endpoint (ls_endpoint (ar_leg request)) then Some (ar_api_principal request)
  else None.

Definition SamePrincipalAttachmentResolver `{AuthTypes} : AttachmentPrincipalResolver :=
  {| resolve_principal _ request := Ok (same_principal request);
     resolve_authenticated_principal _ _ := Ok None |}.

Definition kind_of_index (index : Z) : NamedProfileKind :=
  if index =? 0 then NamedProfileKind.VapiIngress else if index =? 1 then NamedProfileKind.SipIngress
  else if index =? 2 then NamedProfileKind.Sip else if index =? 3 then NamedProfileKind.WebRtc
  else if index =? 4 then NamedProfileKind.AmazonConnect else NamedProfileKind.Telnyx.
#[export] Instance NamedProfileKind_countable : Countable NamedProfileKind.
Proof. apply (inj_countable' kind_index kind_of_index). by intros []. Defined.

Section Resolver.
Context `{AuthTypes}.

Record ConfiguredAttachmentPrincipalResolver := {
  cr_providers : gmap (rstr * rstr) (ProviderKind * AuthenticatedPrincipal);
  cr_sip_ingress : gmap (rstr * NamedProfileKind * rstr * rstr) AuthenticatedPrincipal;
}.
#[export] Instance ConfiguredAttachmentPrincipalResolver_eta :
    Eta ConfiguredAttachmentPrincipalResolver := λ r,
  {| cr_providers := cr_providers r; cr_sip_ingress := cr_sip_ingress r |}.

Definition ConfiguredAttachmentPrincipalResolver_new : ConfiguredAttachmentPrincipalResolver :=
  {| cr_providers := ∅; cr_sip_ingress := ∅ |}.

(** [principal.tenant.clone().unwrap_or_default()]. *)
Definition tenant_or_default (principal : AuthenticatedPrincipal) : rstr :=
  default [] (ap_tenant principal).

Definition with_provider (self : ConfiguredAttachmentPrincipalResolver) (kind : ProviderKind)
    (account_profile : rstr) (principal : AuthenticatedPrincipal)
    : ConfiguredAttachmentPrincipalResolver :=
  self <| cr_providers :=
    <[(account_profile, tenant_or_default principal) := (kind, principal)]> (cr_providers self) |>.

Definition ingress_kind (kind : NamedProfileKind) : bool :=
  match kind with
  | NamedProfileKind.VapiIngress | NamedProfileKind.SipIngress => true
  | _ => false
  end.

Definition with_sip_ingress (self : ConfiguredAttachmentPrincipalResolver) (kind : NamedProfileKind)
    (profile_id revision : rstr) (principal : AuthenticatedPrincipal)
    : ConfiguredAttachmentPrincipalResolver :=
  if negb (ingress_kind kind) then self
  else self <| cr_sip_ingress :=
         <[(tenant_or_default principal, kind, profile_id, revision) := principal]>
           (cr_sip_ingress self) |>.

Definition with_vapi_ingress (self : ConfiguredAttachmentPrincipalResolver)
    (profile_id revision : rstr) (principal : AuthenticatedPrincipal)
    : ConfiguredAttachmentPrincipalResolver :=
  with_sip_ingress self NamedProfileKind.VapiIngress profile_id revision principal.

Definition configured_resolve_principal (request : AttachmentPrincipalRequest)
    : option PrincipalFingerprint :=
  if is_some (ar_named_route request) && is_sip_endpoint (ls_endpoint (ar_leg request)) then None
  else same_principal request.

Definition configured_resolve_authenticated (self : ConfiguredAttachmentPrincipalResolver)
    (request : AttachmentPrincipalRequest) : option AuthenticatedPrincipal :=
  match ls_endpoint (ar_leg request) with
  | LegEndpointConfig.Sip _ =>
      route ← ar_named_route request;
      match List.filter (λ profile, np_role profile ==? NamedProfileRole.Ingress)
              (nb_profiles route) with
      | [binding] =>
          if ingress_kind (np_kind binding)
          then cr_sip_ingress self !!
                 (ar_tenant request, np_kind binding, np_profile_id binding, np_revision binding)
          else None
      | _ => None
      end
  | LegEndpointConfig.Provider endpoint =>
      '(kind, principal) ← cr_providers self !! (pc_account_profile endpoint, ar_tenant request);
      if kind ==? pc_provider endpoint then Some principal else None
  | _ => None
  end.

Definition configured_resolver (self : ConfiguredAttachmentPrincipalResolver)
    : AttachmentPrincipalResolver :=
  {| resolve_principal _ request := Ok (configured_resolve_principal request);
     resolve_authenticated_principal _ request := Ok (configured_resolve_authenticated self request) |}.
End Resolver.
