(* ===== verification/ServiceOperations.v ===== *)
(** The operations of [CallService] ([src/call_service/service.rs]), as programs of [ServiceWorld]
    over the standalone repository: admission of an inbound attachment, creation of a call, reading
    it, hanging up, transfer, replacement of a leg and DTMF.

    The placement and the resolver of attachment principals are the ones the service was built
    with. *)

From S2P Require Import Prelude RustText DomainTypes CoordModel Domain RepoTypes ServiceTypes.
From S2P Require Import RepoMemory RepoClaims Context PlanModel ServiceCommands ServiceMemory.
From S2P Require Import ServiceReconcile ServiceWorld.
From S2P Require Import Principal ControlCrypto ServiceApi ServicePlacement.
From stdpp Require Import options.

(** [serde_json::to_vec] of a replacement destination. *)
Class DestinationJson := destination_to_vec : RequestedLeg → option (list Z).

Section Service.
Context `{AuthCore, Hashing, Base64, Chrono, ChronoUnix, ServiceLibs, DestinationJson, Environment}.

Record CallService := {
  cs_placement : WorkerPlacement;
  cs_attachment_principals : AttachmentPrincipalResolver;
  cs_crypto : CallServiceCrypto;
  cs_timeouts : CallTimeoutPolicy;
}.

Definition repository {A} (r : result RepositoryError A) : result CallServiceError A :=
  map_err CallServiceError.Repository r.
Definition of_principal {A} (r : result ApiPrincipalError A) : result CallServiceError A :=
  map_err CallServiceError.Principal r.
Definition of_crypto {A} (r : result ControlCryptoError A) : result CallServiceError A :=
  map_err CallServiceError.Crypto r.

(** ** Inbound attachments *)

Record InboundAttachmentRequest := {
  ib_principal : AuthenticatedPrincipal;
  ib_routing_token : option rstr;
  ib_transport : AttachmentTransport;
  ib_worker : WorkerLease;
  ib_connection_id : ConnectionId;
  ib_signaling_metadata : list (rstr * rstr);
}.

Record InboundAttachmentResult := {
  it_binding : ConnectionBinding;
  it_commit : CommandCommitView;
}.

Definition MAX_VERSION_RACE_ATTEMPTS : nat := 4.

Definition proof_rejected {E A} (r : result E A) : result InboundAttachmentError A :=
  map_err (λ _, InboundAttachmentError.ProofRejected) r.

(** What attaching means for the leg. *)
Definition attachment_command (candidate : AttachmentCandidate) (consume_at : DateTime) : CallCommand :=
  if an_purpose candidate ==? AttachmentPurpose.ProviderMedia
  then ProviderMediaAttached consume_at (an_leg_id candidate) (an_binding_generation candidate)
  else SetLegState consume_at (an_leg_id candidate) (an_binding_generation candidate)
         LegState.Signaling None.

(** The loop; [attempts] are left. *)
Fixpoint consume_attempts (self : CallService) (request : InboundAttachmentRequest)
    (token_digest : AttachmentTokenDigest) (principal : ApiPrincipal)
    (principal_fingerprint : PrincipalFingerprint) (command_id : CommandId) (attempts : nat)
    : Svc InboundAttachmentError InboundAttachmentResult :=
  match attempts with
  | O => or_panic None
  | S attempts =>
      inspected_at ← now;
      answer (reject_if (is_expired_at (pr_inner principal) inspected_at)
                InboundAttachmentError.ProofRejected);;
      candidate ← query map_inbound_attachment_repository_error (λ store,
        inspect_attachment store
          {| lk_token_digest := token_digest; lk_tenant_id := pr_tenant principal;
             lk_transport := ib_transport request;
             lk_principal_fingerprint := principal_fingerprint;
             lk_worker := ib_worker request; lk_at := inspected_at |});
      answer (verified_sip_invite_correlation (an_required_sip_correlation candidate)
                (ib_transport request) (ib_signaling_metadata request));;
      consume_at ← now;
      answer (reject_if (is_expired_at (pr_inner principal) consume_at
                         || (an_expires_at candidate <=? consume_at)
                         || negb (allows_assignment (cs_placement self) (an_assignment candidate)))
                InboundAttachmentError.ProofRejected);;
      consumed ← attempt (call id (λ new_id store,
        consume_attachment new_id store
          {| am_candidate := candidate; am_command_id := command_id;
             am_command := attachment_command candidate consume_at;
             am_connection_id := ib_connection_id request;
             am_principal_fingerprint := principal_fingerprint;
             am_principal_expires_at := ap_expires_at (pr_inner principal);
             am_at := consume_at |}));
      match consumed with
      | Ok consumed => mret {| it_binding := ca_binding consumed; it_commit := ca_commit consumed |}
      | Err RepositoryError.VersionConflict =>
          if (0 <? attempts)%nat
          then consume_attempts self request token_digest principal principal_fingerprint command_id
                 attempts
          else fail InboundAttachmentError.Unavailable
      | Err error => fail (map_inbound_attachment_repository_error error)
      end
  end.

Definition consume_inbound_attachment (self : CallService) (request : InboundAttachmentRequest)
    : Svc InboundAttachmentError InboundAttachmentResult :=
  token ← answer (ok_or (ib_routing_token request) InboundAttachmentError.ProofRejected);
  token_digest ← answer (proof_rejected (digest_presented_attachment_token token));
  created_at ← now;
  principal ← answer (proof_rejected (ApiPrincipal_new (ib_principal request) created_at));
  principal_fingerprint ← or_panic (principal_fingerprint (cs_crypto self) principal);
  command_id ← new_uuid;
  consume_attempts self request token_digest principal principal_fingerprint command_id
    MAX_VERSION_RACE_ATTEMPTS.

(** ** Worker-internal observations *)

Definition service_commit_bound_connection_state (request : BoundConnectionStateCommit)
    : Svc CallServiceError ServiceCommandOutcome :=
  call CallServiceError.Repository (λ new_id store, commit_bound_connection_state new_id store request).

Definition service_reconcile_provider_event (request : ProviderEventReconciliationTransaction)
    : Svc CallServiceError ProviderEventReconciliationOutcome :=
  call CallServiceError.Repository (λ new_id store, reconcile_provider_event new_id store request).

Definition record_media_activity (self : CallService) (observation : MediaActivityObservation)
    : Svc CallServiceError ServiceCommandOutcome :=
  due_at ← answer (checked_deadline (mo_at observation) (tp_media_idle (cs_timeouts self)));
  call CallServiceError.Repository (λ new_id store, commit_media_activity new_id store
    {| ma_tenant_id := mo_tenant_id observation; ma_call_id := mo_call_id observation;
       ma_expected_version := mo_expected_version observation;
       ma_command_id := mo_command_id observation; ma_leg_id := mo_leg_id observation;
       ma_binding_generation := mo_binding_generation observation;
       ma_connection_id := mo_connection_id observation;
       ma_activity_generation := mo_activity_generation observation;
       ma_worker := mo_worker observation; ma_at := mo_at observation; ma_due_at := due_at |}).

(** [checked_sub_signed] of the token lifetime. *)
Definition token_issued_at (expires_at : DateTime) : option DateTime :=
  checked_add_signed expires_at (- from_secs ATTACHMENT_TOKEN_TTL_SECONDS).

Definition provider_media_attachment_token_for_generation (self : CallService)
    (stored : StoredServiceCall) (leg_id : LegId) (binding_generation : BindingGeneration)
    : Svc CallServiceError rstr :=
  match List.filter (λ descriptor,
          (ai_leg_id descriptor ==? leg_id)
          && (ai_binding_generation descriptor ==? binding_generation)
          && (ai_purpose descriptor ==? AttachmentPurpose.ProviderMedia)
          && (ai_transport descriptor ==? AttachmentTransport.Sip)) (sl_attachments stored) with
  | [descriptor] =>
      observed_at ← now;
      answer (reject_if (ai_expires_at descriptor <=? observed_at)
                CallServiceError.DependencyUnavailable);;
      issued_at ← answer (ok_or (token_issued_at (ai_expires_at descriptor))
                            CallServiceError.DependencyUnavailable);
      token ← answer (of_crypto (attachment_token (cs_crypto self)
        {| tc_tenant := ca_tenant_id (sc_aggregate (sl_call stored));
           tc_call_id := ca_id (sc_aggregate (sl_call stored)); tc_leg_id := leg_id;
           tc_generation := ai_binding_generation descriptor;
           tc_transport := AttachmentTransport.Sip; tc_purpose := AttachmentPurpose.ProviderMedia;
           tc_worker := wa_lease (sc_assignment (sl_call stored));
           tc_principal := ai_expected_principal descriptor; tc_created_at := issued_at |}));
      answer (reject_if ((dt_digest token !=? ai_token_digest descriptor)
                         || (dt_expires_at token !=? ai_expires_at descriptor))
                CallServiceError.DependencyUnavailable);;
      mret (dt_token token)
  | _ => fail CallServiceError.DependencyUnavailable
  end.

Definition provider_media_attachment_token (self : CallService) (stored : StoredServiceCall)
    (leg_id : LegId) : Svc CallServiceError rstr :=
  match find_leg (sc_aggregate (sl_call stored)) leg_id with
  | Some leg =>
      if (signaling_initiator leg ==? SignalingInitiator.Bridgefu)
         && (leg_kind leg ==? LegKind.Telnyx)
      then provider_media_attachment_token_for_generation self stored leg_id
             (leg_binding_generation leg)
      else fail (CallServiceError.InvalidInput
                   "provider media attachment requires a Bridgefu-initiated Telnyx leg")
  | None => fail (CallServiceError.InvalidInput
                    "provider media attachment requires a Bridgefu-initiated Telnyx leg")
  end.

(** ** Attachments of a call *)

(** A resolver's answer at a step. *)
Definition ask {E E' A} (error : E → E') (question : nat → result E A) : Svc E' A := λ w,
  (tick w, Some (map_err error (question (wo_step w)))).

Definition resolve_attachment_principal (self : CallService) (tenant : TenantId)
    (spec : LegExecutionSpec) (named_route : option NamedRouteBinding)
    (api_principal : PrincipalFingerprint) : Svc CallServiceError PrincipalFingerprint :=
  let request := {| ar_tenant := tenant; ar_leg := spec; ar_named_route := named_route;
                    ar_api_principal := api_principal |} in
  same ← ask (λ _, CallServiceError.DependencyUnavailable)
    (λ step, resolve_principal (cs_attachment_principals self) step request);
  match same with
  | Some principal => mret principal
  | None =>
      configured ← ask (λ _, CallServiceError.DependencyUnavailable)
        (λ step, resolve_authenticated_principal (cs_attachment_principals self) step request);
      configured ← answer (ok_or configured CallServiceError.AttachmentPrincipalUnresolved);
      observed_at ← now;
      configured ← answer (map_err (λ _, CallServiceError.AttachmentPrincipalUnresolved)
                             (ApiPrincipal_new configured observed_at));
      answer (reject_if (pr_tenant configured !=? tenant)
                CallServiceError.AttachmentPrincipalUnresolved);;
      or_panic (principal_fingerprint (cs_crypto self) configured)
  end.

(** One round of the loop over the legs of the plan. *)
Definition resolve_leg_principal (self : CallService) (tenant : TenantId) (aggregate : CallAggregate)
    (plan : CallExecutionPlan) (api_principal : PrincipalFingerprint) (spec : LegExecutionSpec)
    : Svc CallServiceError (option PrincipalFingerprint) :=
  leg ← answer (ok_or (find_leg aggregate (ls_leg_id spec))
                  (CallServiceError.InvalidInput "execution leg is outside call"));
  if negb (leg_needs_attachment leg) then mret None
  else
    principal ← resolve_attachment_principal self tenant spec (ep_named_route plan) api_principal;
    mret (Some principal).

Definition resolve_attachment_principals (self : CallService) (tenant : TenantId)
    (aggregate : CallAggregate) (plan : CallExecutionPlan) (api_principal : PrincipalFingerprint)
    : Svc CallServiceError (option PrincipalFingerprint * option PrincipalFingerprint) :=
  first ← resolve_leg_principal self tenant aggregate plan api_principal (ep_legs plan).1;
  second ← resolve_leg_principal self tenant aggregate plan api_principal (ep_legs plan).2;
  mret (first, second).

(** One round of the loop of [attachment_issues]. *)
Definition leg_attachment_issues (self : CallService) (tenant : TenantId) (aggregate : CallAggregate)
    (worker : WorkerLease) (created_at : DateTime) (leg : Leg)
    (principal : option PrincipalFingerprint) : Svc CallServiceError (list AttachmentIssue) :=
  match principal with
  | None => mret []
  | Some principal =>
      let transport := attachment_transport (leg_kind leg) in
      let purpose := attachment_purpose leg in
      token ← answer (of_crypto (attachment_token (cs_crypto self)
        {| tc_tenant := tenant; tc_call_id := ca_id aggregate; tc_leg_id := leg_id leg;
           tc_generation := leg_binding_generation leg; tc_transport := transport;
           tc_purpose := purpose; tc_worker := worker; tc_principal := principal;
           tc_created_at := created_at |}));
      attachment_id ← new_uuid;
      mret [{| ai_attachment_id := attachment_id; ai_token_digest := dt_digest token;
               ai_purpose := purpose; ai_leg_id := leg_id leg;
               ai_binding_generation := leg_binding_generation leg; ai_transport := transport;
               ai_expected_principal := principal; ai_expires_at := dt_expires_at token |}]
  end.

Definition attachment_issues (self : CallService) (tenant : TenantId) (aggregate : CallAggregate)
    (principals : option PrincipalFingerprint * option PrincipalFingerprint) (worker : WorkerLease)
    (created_at : DateTime) : Svc CallServiceError (list AttachmentIssue) :=
  first ← leg_attachment_issues self tenant aggregate worker created_at (ca_leg0 aggregate)
            principals.1;
  second ← leg_attachment_issues self tenant aggregate worker created_at (ca_leg1 aggregate)
             principals.2;
  mret (first ++ second).

(** ** The view of a created call *)

(** The loop over the descriptors. *)
Fixpoint attach_descriptors (self : CallService) (stored : StoredServiceCall)
    (descriptors : list AttachmentIssue) (attached_legs : gset LegId) (view : CallView)
    : result CallServiceError CallView :=
  match descriptors with
  | [] => Ok view
  | descriptor :: descriptors =>
      let aggregate := sc_aggregate (sl_call stored) in
      leg ← ok_or (find_leg aggregate (ai_leg_id descriptor)) CallServiceError.DependencyUnavailable;
      let transport := attachment_transport (leg_kind leg) in
      let purpose := attachment_purpose leg in
      reject_if
        (negb (leg_needs_attachment leg)
         || (ai_binding_generation descriptor !=? leg_binding_generation leg)
         || (ai_transport descriptor !=? transport) || (ai_purpose descriptor !=? purpose)
         || bool_decide (leg_id leg ∈ attached_legs)) CallServiceError.DependencyUnavailable;;
      token ← of_crypto (attachment_token (cs_crypto self)
        {| tc_tenant := ca_tenant_id aggregate; tc_call_id := ca_id aggregate;
           tc_leg_id := leg_id leg; tc_generation := ai_binding_generation descriptor;
           tc_transport := transport; tc_purpose := purpose;
           tc_worker := wa_lease (sc_assignment (sl_call stored));
           tc_principal := ai_expected_principal descriptor;
           tc_created_at := ca_created_at aggregate |});
      reject_if ((dt_digest token !=? ai_token_digest descriptor)
                 || (dt_expires_at token !=? ai_expires_at descriptor))
        CallServiceError.DependencyUnavailable;;
      attach_descriptors self stored descriptors ({[leg_id leg]} ∪ attached_legs)
        (if purpose ==? AttachmentPurpose.PublicInbound
         then attach view (leg_id leg) (AttachmentView_from_token token transport) else view)
  end.

Definition create_view (self : CallService) (stored : StoredServiceCall) (replayed : bool)
    : result CallServiceError (CallOperationResult CallView) :=
  let aggregate := sc_aggregate (sl_call stored) in
  map_err (λ _, CallServiceError.DependencyUnavailable) (validate_against (sl_plan stored) aggregate);;
  let expected_attachment_count :=
    length (List.filter leg_needs_attachment [ca_leg0 aggregate; ca_leg1 aggregate]) in
  reject_if (negb (length (sl_attachments stored) =? expected_attachment_count)%nat)
    CallServiceError.DependencyUnavailable;;
  view ← attach_descriptors self stored (sl_attachments stored) ∅ (CallView_from_stored stored);
  Ok {| or_value := view; or_replayed := replayed |}.

(** ** Creation *)

Definition replay_create (tenant : TenantId) (operation : OperationIdempotency) (at_ : DateTime)
    : Svc RepositoryError (option StoredServiceCall) :=
  query id (λ store, load_create_replay store tenant (oi_key_digest operation)
                       (oi_request_digest operation) at_).

Definition replay_create_or_error (self : CallService) (tenant : TenantId)
    (operation : OperationIdempotency) (error : CallServiceError)
    : Svc CallServiceError (CallOperationResult CallView) :=
  observed_at ← now;
  replay ← attempt (replay_create tenant operation observed_at);
  replay ← answer (repository replay);
  match replay with
  | Some stored => answer (create_view self stored true)
  | None => fail error
  end.

(** The preflight: the retained result, also under the transcript of older versions. *)
Definition load_replay (self : CallService) (tenant : TenantId) (owner : PrincipalFingerprint)
    (key : ControlCrypto.IdempotencyKey) (legs : RequestedLeg * RequestedLeg)
    (named_route : option NamedRouteBinding) (operation : OperationIdempotency)
    (request_at : DateTime) : Svc CallServiceError (option StoredServiceCall) :=
  replay ← attempt (replay_create tenant operation request_at);
  match replay with
  | Ok replay => mret replay
  | Err RepositoryError.IdempotencyConflict =>
      if is_some named_route
      then fail (CallServiceError.Repository RepositoryError.IdempotencyConflict)
      else
        match legacy_create_transcript legs with
        | None => fail (CallServiceError.Repository RepositoryError.IdempotencyConflict)
        | Some legacy_transcript =>
            let legacy := operation_idempotency (cs_crypto self) tenant owner key
                            ServiceOperationKind.CreateCall None legacy_transcript in
            replay ← attempt (replay_create tenant legacy request_at);
            answer (repository replay)
        end
  | Err error => fail (CallServiceError.Repository error)
  end.

Definition create_operation (self : CallService) (tenant : TenantId) (owner : PrincipalFingerprint)
    (key : ControlCrypto.IdempotencyKey) (legs : RequestedLeg * RequestedLeg)
    (named_route : option NamedRouteBinding) : OperationIdempotency :=
  let transcript := create_transcript legs in
  let transcript :=
    match named_route with
    | Some binding => push_named_route transcript binding
    | None => transcript
    end in
  operation_idempotency (cs_crypto self) tenant owner key ServiceOperationKind.CreateCall None
    transcript.

(** The instant by which the call must have been committed. *)
Definition creation_deadline (legs : RequestedLeg * RequestedLeg) (request_at setup_deadline : DateTime)
    : result CallServiceError DateTime :=
  if requested_leg_needs_attachment legs.1 || requested_leg_needs_attachment legs.2
  then
    token_deadline ← checked_deadline request_at (from_secs ATTACHMENT_TOKEN_TTL_SECONDS);
    Ok (Z.min setup_deadline token_deadline)
  else Ok setup_deadline.

Definition leg_spec (leg : RequestedLeg) : LegSpec :=
  {| spec_direction := rl_direction leg; spec_kind := endpoint_kind (rl_endpoint leg) |}.

(** [CallAggregate::new_with_semantics]. *)
Definition new_with_semantics (tenant : TenantId) (legs : RequestedLeg * RequestedLeg)
    (request_at : DateTime) : Svc CallServiceError CallAggregate :=
  ids ← new_leg_ids;
  call_id ← new_uuid;
  answer (map_err (λ _, CallServiceError.InvalidInput "invalid two-leg media plan")
    (with_ids_and_semantics call_id tenant
       ((ids.1, leg_spec legs.1), (ids.2, leg_spec legs.2))
       (requested_semantics legs.1, requested_semantics legs.2) request_at)).

(** The start specifications by leg, in the order of the map. *)
Definition connect_starts (legs : RequestedLeg * RequestedLeg) (aggregate : CallAggregate)
    : list (LegId * AmazonConnectStartSpec) :=
  let start leg id := from_option (λ spec, [(id, spec)]) [] (rl_amazon_connect_start leg) in
  sort_by (λ x y : LegId * AmazonConnectStartSpec, x.1 ?= y.1)
    (start legs.1 (leg_id (ca_leg0 aggregate)) ++ start legs.2 (leg_id (ca_leg1 aggregate))).

Definition execution_plan (legs : RequestedLeg * RequestedLeg) (aggregate : CallAggregate)
    (owner : PrincipalFingerprint) (named_route : option NamedRouteBinding)
    : result RepositoryError CallExecutionPlan :=
  let execution_legs :=
    ({| ls_leg_id := leg_id (ca_leg0 aggregate); ls_endpoint := rl_endpoint legs.1 |},
     {| ls_leg_id := leg_id (ca_leg1 aggregate); ls_endpoint := rl_endpoint legs.2 |}) in
  match named_route with
  | Some binding =>
      new_with_named_route aggregate execution_legs owner (connect_starts legs aggregate) binding
  | None => new_with_amazon_connect_starts aggregate execution_legs owner (connect_starts legs aggregate)
  end.

(** Whether some worker is listed twice. *)
Fixpoint repeats_worker (workers : list WorkerLease) : bool :=
  match workers with
  | [] => false
  | worker :: workers => bool_decide (worker ∈ workers) || repeats_worker workers
  end.

Fixpoint create_candidate_list (self : CallService) (tenant : TenantId) (aggregate : CallAggregate)
    (principals : option PrincipalFingerprint * option PrincipalFingerprint)
    (request_at : DateTime) (workers : list WorkerLease)
    : Svc CallServiceError (list ServiceCreateCandidate) :=
  match workers with
  | [] => mret []
  | worker :: workers =>
      attachments ← attachment_issues self tenant aggregate principals worker request_at;
      candidates ← create_candidate_list self tenant aggregate principals request_at workers;
      mret ({| sd_worker := worker; sd_attachments := attachments |} :: candidates)
  end.

Definition create_error (error : RepositoryError) : CallServiceError :=
  match error with
  | RepositoryError.WorkerCapabilityUnavailable => CallServiceError.UnsupportedCapability
  | error => CallServiceError.Repository error
  end.

(** From the workers on: the decision, the tokens of every candidate, and the transaction. *)
Definition commit_creation (self : CallService) (tenant : TenantId) (operation : OperationIdempotency)
    (aggregate : CallAggregate) (plan : CallExecutionPlan)
    (principals : option PrincipalFingerprint * option PrincipalFingerprint)
    (workers : list WorkerLease) (request_at setup_deadline commit_at : DateTime)
    : Svc CallServiceError (CallOperationResult CallView) :=
  let command := StartConnecting commit_at setup_deadline in
  decided ← answer (map_err (λ _, CallServiceError.InvalidTransition) (decide aggregate command));
  candidates ← create_candidate_list self tenant (cd_aggregate decided) principals request_at workers;
  match candidates with
  | [] => or_panic None
  | selected :: alternatives =>
      command_id ← new_uuid;
      outcome ← call create_error (λ new_id store, create_with_plan new_id store
        {| sx_create :=
             {| cc_initial := aggregate; cc_command_id := command_id; cc_command := command;
                cc_worker := sd_worker selected;
                cc_idempotency_key := oi_key_digest operation;
                cc_request_digest := oi_request_digest operation;
                cc_attachments := sd_attachments selected; cc_at := commit_at |};
           sx_plan := plan; sx_alternatives := alternatives |});
      match outcome with
      | ServiceCreateOutcome.Created stored => answer (create_view self stored false)
      | ServiceCreateOutcome.Replayed stored => answer (create_view self stored true)
      end
  end.

(** A dependency's answer, or the retained result of a concurrent request. *)
Definition or_replay {A} (self : CallService) (tenant : TenantId) (operation : OperationIdempotency)
    (r : result CallServiceError A) (k : A → Svc CallServiceError (CallOperationResult CallView))
    : Svc CallServiceError (CallOperationResult CallView) :=
  match r with
  | Ok x => k x
  | Err error => replay_create_or_error self tenant operation error
  end.

(** [None] is a timeout. *)
Definition timed {A} (r : option (result CallServiceError A)) : result CallServiceError A :=
  match r with
  | Some r => r
  | None => Err CallServiceError.DependencyUnavailable
  end.

Definition check_workers (workers : list WorkerLease) : result CallServiceError () :=
  reject_if (is_empty workers) CallServiceError.CapacityExceeded;;
  reject_if ((MAX_WORKER_CANDIDATES <? length workers)%nat || repeats_worker workers)
    CallServiceError.DependencyUnavailable.

(** What follows the preflight. *)
Definition create_new_call (self : CallService) (tenant : TenantId) (owner : PrincipalFingerprint)
    (operation : OperationIdempotency) (legs : RequestedLeg * RequestedLeg)
    (named_route : option NamedRouteBinding) (request_at : DateTime)
    : Svc CallServiceError (CallOperationResult CallView) :=
  answer (reject_deferred_provider_legs legs);;
  setup_deadline ← answer (checked_deadline request_at (tp_setup (cs_timeouts self)));
  creation_deadline ← answer (creation_deadline legs request_at setup_deadline);
  aggregate ← new_with_semantics tenant legs request_at;
  plan ← answer (repository (execution_plan legs aggregate owner named_route));
  resolver_at ← now;
  or_replay self tenant operation (remaining_budget resolver_at creation_deadline) (λ _,
  resolved ← timeout (resolve_attachment_principals self tenant aggregate plan owner);
  or_replay self tenant operation (timed resolved) (λ principals,
  placement_at ← now;
  or_replay self tenant operation (remaining_budget placement_at creation_deadline) (λ _,
  selected ← timeout (select_workers (cs_placement self) tenant plan placement_at);
  or_replay self tenant operation (timed (map_err map_placement_error <$> selected)) (λ workers,
  or_replay self tenant operation (check_workers workers) (λ _,
  commit_at ← now;
  or_replay self tenant operation (remaining_budget commit_at creation_deadline) (λ _,
  commit_creation self tenant operation aggregate plan principals workers request_at setup_deadline
    commit_at)))))).

Definition create_call_inner (self : CallService) (principal : ApiPrincipal)
    (key : ControlCrypto.IdempotencyKey) (input : CreateCallInput)
    (named_route : option NamedRouteBinding) : Svc CallServiceError (CallOperationResult CallView) :=
  request_at ← now;
  tenant ← answer (of_principal (resolve_tenant principal (ci_tenant_id input) Scope.Create request_at));
  answer (if is_none named_route
          then of_principal (authorize principal Scope.ArbitraryDestination request_at) else Ok ());;
  owner ← or_panic (principal_fingerprint (cs_crypto self) principal);
  let operation := create_operation self tenant owner key (ci_legs input) named_route in
  replay ← load_replay self tenant owner key (ci_legs input) named_route operation request_at;
  match replay with
  | Some stored => answer (create_view self stored true)
  | None => create_new_call self tenant owner operation (ci_legs input) named_route request_at
  end.

Definition service_create_call (self : CallService) (principal : ApiPrincipal)
    (key : ControlCrypto.IdempotencyKey) (input : CreateCallInput)
    : Svc CallServiceError (CallOperationResult CallView) :=
  create_call_inner self principal key input None.

Definition named_route_ingress (endpoint : LegEndpointConfig) : bool :=
  match endpoint with
  | LegEndpointConfig.Sip _ | LegEndpointConfig.WebRtc _ => true
  | _ => false
  end.

(** One remote ingress and one destination. *)
Definition validate_named_route_legs (input : CreateCallInput) : result CallServiceError () :=
  let legs := [(ci_legs input).1; (ci_legs input).2] in
  match List.filter (λ leg, resolved_signaling_initiator leg ==? SignalingInitiator.Remote) legs,
        List.filter (λ leg, resolved_signaling_initiator leg ==? SignalingInitiator.Bridgefu) legs with
  | [remote], [destination] =>
      reject_if ((rl_direction remote !=? LegDirection.Inbound)
                 || (rl_media_flow remote !=? MediaFlow.SendReceive)
                 || negb (named_route_ingress (rl_endpoint remote)))
        (CallServiceError.InvalidInput
           "named route requires one full-duplex SIP or WebRTC remote ingress");;
      repository (validate_named_route_destination destination)
  | _, _ => Err (CallServiceError.InvalidInput
                   "named route requires one full-duplex SIP or WebRTC remote ingress")
  end.

Definition create_named_route_call (self : CallService) (principal : ApiPrincipal)
    (key : ControlCrypto.IdempotencyKey) (input : CreateCallInput) (named_route : NamedRouteBinding)
    : Svc CallServiceError (CallOperationResult CallView) :=
  answer (reject_if (is_some (ci_tenant_id input))
            (CallServiceError.InvalidInput
               "named routes inherit tenant ownership from the principal"));;
  answer (validate_named_route_legs input);;
  create_call_inner self principal key input (Some named_route).
End Service.
