(* ===== verification/ServiceCalls.v ===== *)
(** The operations of [CallService] on a call that exists ([src/call_service/service.rs]): reading
    it, resolving the source of a broadcast, hanging up, transfer, replacement of a leg and DTMF. *)

From S2P Require Import Prelude RustText DomainTypes CoordModel Domain RepoTypes ServiceTypes.
From S2P Require Import RepoMemory RepoClaims Context PlanModel ServiceCommands ServiceMemory.
From S2P Require Import ServiceReconcile ServiceWorld.
From S2P Require Import Principal ControlCrypto ServiceApi ServicePlacement ServiceOperations.
From stdpp Require Import options.

Section Service.
Context `{AuthCore, Hashing, Base64, Chrono, ChronoUnix, ServiceLibs, DestinationJson, Environment}.

(** ** Reading *)

Definition load_owned_call (tenant : TenantId) (call_id : CallId) : Svc CallServiceError StoredServiceCall :=
  query CallServiceError.Repository (λ store, load_service_call store tenant call_id).

Definition get_call (principal : ApiPrincipal) (call_id : CallId) (tenant_id : option rstr)
    : Svc CallServiceError CallView :=
  at_ ← now;
  tenant ← answer (of_principal (resolve_tenant principal tenant_id Scope.Read at_));
  stored ← load_owned_call tenant call_id;
  mret (CallView_from_stored stored).

Definition resolve_assigned_broadcast_source (self : CallService) (principal : ApiPrincipal)
    (call_id : CallId) (leg_id : LegId) (requested_tenant : option rstr)
    : Svc CallServiceError BroadcastSourceBinding :=
  at_ ← now;
  tenant ← answer (of_principal (resolve_tenant principal requested_tenant Scope.Read at_));
  stored ← load_owned_call tenant call_id;
  loaded_at ← now;
  answer (of_principal (authorize principal Scope.Read loaded_at));;
  let call := sl_call stored in
  answer (reject_if (is_some (wa_released_at (sc_assignment call))
                     || negb (allows_assignment (cs_placement self) (sc_assignment call)))
            CallServiceError.DependencyUnavailable);;
  leg ← answer (ok_or (find_leg (sc_aggregate call) leg_id)
    (CallServiceError.InvalidInput "broadcast source leg does not belong to call"));
  answer (reject_if (leg_state leg !=? LegState.Connected) CallServiceError.InvalidTransition);;
  binding ← answer (ok_or
    (binding ← sc_bindings call !! leg_id;
     if (cb_leg_id binding ==? leg_id)
        && (cb_binding_generation binding ==? leg_binding_generation leg)
     then Some binding else None) CallServiceError.InvalidTransition);
  mret {| bcs_tenant_id := tenant; bcs_call_id := call_id; bcs_leg_id := leg_id;
          bcs_binding_generation := cb_binding_generation binding;
          bcs_connection_id := cb_connection_id binding;
          bcs_worker := wa_lease (sc_assignment call) |}.

Definition resolve_broadcast_source (self : CallService) (principal : ApiPrincipal)
    (call_id : CallId) (leg_id : LegId) (requested_tenant : option rstr) (worker : WorkerLease)
    : Svc CallServiceError BroadcastSourceBinding :=
  source ← resolve_assigned_broadcast_source self principal call_id leg_id requested_tenant;
  answer (reject_if (bcs_worker source !=? worker) CallServiceError.DependencyUnavailable);;
  mret source.

(** ** State commands *)

Definition operation (self : CallService) (tenant : TenantId) (principal : PrincipalFingerprint)
    (key : ControlCrypto.IdempotencyKey) (kind : ServiceOperationKind) (call_id : CallId)
    (transcript : CanonicalRequestTranscript) : OperationIdempotency :=
  operation_idempotency (cs_crypto self) tenant principal key kind (Some call_id) transcript.

Definition load_command_replay (tenant : TenantId) (call_id : CallId)
    (operation : OperationIdempotency) (at_ : DateTime)
    : Svc CallServiceError (option ServiceCommandView) :=
  query CallServiceError.Repository
    (λ store, load_service_command_replay store tenant call_id operation at_).

Definition command_result (view : ServiceCommandView) (replayed : bool) : CallOperationResult CallView :=
  {| or_value := CallView_from_aggregate (sc_aggregate (cv_call (sv_command view)));
     or_replayed := replayed |}.

Definition is_leg_replacement (command : CallCommand) : bool :=
  match command with BeginLegReplacement _ _ _ _ => true | _ => false end.

Definition commit_state_command_with_attachments (self : CallService) (stored : StoredServiceCall)
    (command : CallCommand) (effect_payloads : list ServiceEffectPayloadInput)
    (attachments : list AttachmentIssue) (operation : OperationIdempotency)
    : Svc CallServiceError (CallOperationResult CallView) :=
  let at_ := command_at command in
  let aggregate := sc_aggregate (sl_call stored) in
  replay ← load_command_replay (ca_tenant_id aggregate) (ca_id aggregate) operation at_;
  match replay with
  | Some view => mret (command_result view true)
  | None =>
      answer (reject_if (negb (allows_assignment (cs_placement self) (sc_assignment (sl_call stored))))
                CallServiceError.DependencyUnavailable);;
      let guarded_replacement :=
        is_leg_replacement command && requires_replacement_worker_guard (cs_placement self) in
      command_id ← new_uuid;
      let request :=
        {| st_command :=
             {| ct_tenant_id := ca_tenant_id aggregate; ct_call_id := ca_id aggregate;
                ct_expected_version := ca_version aggregate; ct_command_id := command_id;
                ct_command := command; ct_worker := wa_lease (sc_assignment (sl_call stored));
                ct_attachments := attachments; ct_deadline_claim := None; ct_at := at_ |};
           st_effect_payloads := effect_payloads; st_operation_idempotency := Some operation;
           st_bound_connection := None; st_media_activity := None;
           st_replacement_connection := None |} in
      outcome ← call CallServiceError.Repository (λ new_id store,
        if guarded_replacement then commit_leg_replacement_with_worker_guard new_id store request
        else commit_with_effect_payloads new_id store request);
      match outcome with
      | ServiceCommandOutcome.Committed view => mret (command_result view false)
      | ServiceCommandOutcome.Replayed view => mret (command_result view true)
      end
  end.

Definition commit_state_command (self : CallService) (stored : StoredServiceCall)
    (command : CallCommand) (effect_payloads : list ServiceEffectPayloadInput)
    (operation : OperationIdempotency) : Svc CallServiceError (CallOperationResult CallView) :=
  commit_state_command_with_attachments self stored command effect_payloads [] operation.

Definition hangup_call (self : CallService) (principal : ApiPrincipal) (call_id : CallId)
    (key : ControlCrypto.IdempotencyKey) (tenant_id : option rstr)
    : Svc CallServiceError (CallOperationResult CallView) :=
  at_ ← now;
  tenant ← answer (of_principal (resolve_tenant principal tenant_id Scope.Hangup at_));
  stored ← load_owned_call tenant call_id;
  fingerprint ← or_panic (principal_fingerprint (cs_crypto self) principal);
  let operation := operation self tenant fingerprint key ServiceOperationKind.HangupCall call_id
                     CanonicalRequestTranscript_new in
  ending_deadline ← answer (checked_deadline at_ (tp_ending (cs_timeouts self)));
  commit_state_command self stored
    (BeginEnding at_ (Some ending_deadline) StopLegReason.Requested) [] operation.

Definition transfer_transcript (input : TransferCallInput) : CanonicalRequestTranscript :=
  push_transfer_target
    (push_bytes CanonicalRequestTranscript_new (uuid_bytes (ti_target_leg_id input)))
    (ti_target input).

Definition transfer_call (self : CallService) (principal : ApiPrincipal) (call_id : CallId)
    (key : ControlCrypto.IdempotencyKey) (input : TransferCallInput)
    : Svc CallServiceError (CallOperationResult CallView) :=
  at_ ← now;
  tenant ← answer (of_principal (resolve_tenant principal (ti_tenant_id input) Scope.Transfer at_));
  answer (of_principal (authorize principal Scope.ArbitraryDestination at_));;
  fingerprint ← or_panic (principal_fingerprint (cs_crypto self) principal);
  let operation := operation self tenant fingerprint key ServiceOperationKind.TransferCall call_id
                     (transfer_transcript input) in
  replay ← load_command_replay tenant call_id operation at_;
  match replay with
  | Some view => mret (command_result view true)
  | None =>
      answer (reject_deferred_provider_transfer (ti_target input));;
      answer (repository (TransferTarget_validate (ti_target input)));;
      stored ← load_owned_call tenant call_id;
      target_leg ← answer (ok_or (find_leg (sc_aggregate (sl_call stored)) (ti_target_leg_id input))
        (CallServiceError.InvalidInput "transfer target leg does not belong to call"));
      answer (reject_if (negb (connected_or_held (leg_state target_leg)))
                CallServiceError.InvalidTransition);;
      spec ← answer (ok_or (find_spec (sl_plan stored) (ti_target_leg_id input))
                       CallServiceError.InvalidTransition);
      answer (ensure_transfer_capability (ls_endpoint spec) (ti_target input));;
      transfer_deadline ← answer (checked_deadline at_ (tp_transfer (cs_timeouts self)));
      commit_state_command self stored (BeginTransfer at_ transfer_deadline)
        [{| si_ordinal := 1%N;
            si_payload := ServiceEffectPayload.Transfer (ti_target_leg_id input)
                            (leg_binding_generation target_leg) (ti_target input) |}] operation
  end.

Definition replacement_transcript (leg_id : LegId) (replacement_route : NamedRouteBinding)
    (destination_bytes : list Z) : CanonicalRequestTranscript :=
  let transcript := push_bytes CanonicalRequestTranscript_new (uuid_bytes leg_id) in
  let transcript := push_str transcript (str "bridgefu.leg-replacement.v2") in
  push_bytes (push_replacement_route transcript replacement_route) destination_bytes.

(** The token of a provider that calls back, and who may use it. *)
Definition replacement_attachment (self : CallService) (tenant : TenantId) (call_id : CallId)
    (leg_id : LegId) (endpoint : LegEndpointConfig) (pending : BindingGeneration)
    (worker : WorkerLease) (principal_fingerprint : PrincipalFingerprint) (at_ : DateTime)
    : Svc CallServiceError (PrincipalFingerprint * list AttachmentIssue) :=
  if negb (telnyx_endpoint endpoint) then mret (principal_fingerprint, [])
  else
    let spec := {| ls_leg_id := leg_id; ls_endpoint := endpoint |} in
    resolved ← timeout (resolve_attachment_principal self tenant spec None principal_fingerprint);
    provider_principal ← answer (timed resolved);
    token ← answer (of_crypto (attachment_token (cs_crypto self)
      {| tc_tenant := tenant; tc_call_id := call_id; tc_leg_id := leg_id; tc_generation := pending;
         tc_transport := AttachmentTransport.Sip; tc_purpose := AttachmentPurpose.ProviderMedia;
         tc_worker := worker; tc_principal := provider_principal; tc_created_at := at_ |}));
    attachment_id ← new_uuid;
    mret (provider_principal,
      [{| ai_attachment_id := attachment_id; ai_token_digest := dt_digest token;
          ai_purpose := AttachmentPurpose.ProviderMedia; ai_leg_id := leg_id;
          ai_binding_generation := pending; ai_transport := AttachmentTransport.Sip;
          ai_expected_principal := provider_principal; ai_expires_at := dt_expires_at token |}]).

Definition replace_leg (self : CallService) (principal : ApiPrincipal) (call_id : CallId)
    (leg_id : LegId) (key : ControlCrypto.IdempotencyKey) (input : ReplaceLegInput)
    (destination : RequestedLeg) (replacement_route : NamedRouteBinding)
    : Svc CallServiceError (CallOperationResult CallView) :=
  at_ ← now;
  tenant ← answer (of_principal (resolve_tenant principal (ri_tenant_id input) Scope.Transfer at_));
  answer (repository (validate_named_route_destination destination));;
  answer (repository (validate_replacement_destination replacement_route (ri_route_id input)
                        (rl_endpoint destination)));;
  destination_bytes ← answer (ok_or (destination_to_vec destination)
    (CallServiceError.InvalidInput "invalid replacement destination"));
  fingerprint ← or_panic (principal_fingerprint (cs_crypto self) principal);
  let operation := operation self tenant fingerprint key ServiceOperationKind.TransferCall call_id
                     (replacement_transcript leg_id replacement_route destination_bytes) in
  replay ← load_command_replay tenant call_id operation at_;
  match replay with
  | Some view => mret (command_result view true)
  | None =>
      stored ← load_owned_call tenant call_id;
      let call := sl_call stored in
      answer (reject_if (negb (allows_assignment (cs_placement self) (sc_assignment call)))
                CallServiceError.DependencyUnavailable);;
      answer (reject_if ((ca_state (sc_aggregate call) !=? CallState.Active)
                         || is_some (ca_replacement (sc_aggregate call)))
                CallServiceError.InvalidTransition);;
      target ← answer (ok_or (find_leg (sc_aggregate call) leg_id)
        (CallServiceError.InvalidInput "replacement leg does not belong to call"));
      answer (reject_if ((leg_state target !=? LegState.Connected)
                         || (signaling_initiator target !=? SignalingInitiator.Bridgefu))
                CallServiceError.InvalidTransition);;
      pending ← answer (map_err (λ _, CallServiceError.InvalidTransition)
                          (next_replacement_binding_generation target));
      '(authorized, attachments) ←
        replacement_attachment self tenant call_id leg_id (rl_endpoint destination) pending
          (wa_lease (sc_assignment call)) fingerprint at_;
      transfer_deadline ← answer (checked_deadline at_ (tp_transfer (cs_timeouts self)));
      commit_state_command_with_attachments self stored
        (BeginLegReplacement at_ leg_id (endpoint_kind (rl_endpoint destination)) transfer_deadline)
        [{| si_ordinal := 2%N;
            si_payload := ServiceEffectPayload.LegReplacement
              {| lp_leg_id := leg_id;
                 lp_previous_binding_generation := leg_binding_generation target;
                 lp_pending_binding_generation := pending; lp_endpoint := rl_endpoint destination;
                 lp_amazon_connect_start := rl_amazon_connect_start destination;
                 lp_route_id := ri_route_id input; lp_replacement_route := Some replacement_route;
                 lp_authorization_principal_fingerprint := authorized |} |}] attachments operation
  end.

(** ** DTMF *)

Definition dtmf_transcript (leg_id : LegId) (sequence : DtmfSequence) : CanonicalRequestTranscript :=
  let transcript := push_bytes CanonicalRequestTranscript_new (uuid_bytes leg_id) in
  let transcript := push_str transcript (dt_digits sequence) in
  push_u64 (push_u64 transcript (Z.of_N (dt_duration_ms sequence))) (Z.of_N (dt_gap_ms sequence)).

Definition send_dtmf (self : CallService) (principal : ApiPrincipal) (call_id : CallId)
    (key : ControlCrypto.IdempotencyKey) (input : DtmfCallInput)
    : Svc CallServiceError (CallOperationResult DtmfAcceptedView) :=
  at_ ← now;
  tenant ← answer (of_principal (resolve_tenant principal (di_tenant_id input) Scope.Dtmf at_));
  let sequence := {| dt_digits := di_digits input; dt_duration_ms := di_duration_ms input;
                     dt_gap_ms := di_gap_ms input |} in
  answer (repository (DtmfSequence_validate sequence));;
  fingerprint ← or_panic (principal_fingerprint (cs_crypto self) principal);
  let operation := operation self tenant fingerprint key ServiceOperationKind.DtmfCall call_id
                     (dtmf_transcript (di_leg_id input) sequence) in
  replay ← query CallServiceError.Repository
    (λ store, load_control_command_replay store tenant call_id operation at_);
  match replay with
  | Some view => mret {| or_value := DtmfAcceptedView_from_control view; or_replayed := true |}
  | None =>
      stored ← load_owned_call tenant call_id;
      answer (reject_if (negb (allows_assignment (cs_placement self) (sc_assignment (sl_call stored))))
                CallServiceError.DependencyUnavailable);;
      leg ← answer (ok_or (find_leg (sc_aggregate (sl_call stored)) (di_leg_id input))
                      CallServiceError.InvalidTransition);
      command_id ← new_uuid;
      outcome ← call CallServiceError.Repository (λ new_id store, enqueue_control new_id store
        {| nt_command_id := command_id; nt_tenant_id := tenant; nt_call_id := call_id;
           nt_leg_id := di_leg_id input; nt_binding_generation := leg_binding_generation leg;
           nt_worker := wa_lease (sc_assignment (sl_call stored)); nt_intent := Dtmf sequence;
           nt_at := at_; nt_operation_idempotency := Some operation |});
      match outcome with
      | ControlCommandOutcome.Enqueued view =>
          mret {| or_value := DtmfAcceptedView_from_control view; or_replayed := false |}
      | ControlCommandOutcome.Replayed view =>
          mret {| or_value := DtmfAcceptedView_from_control view; or_replayed := true |}
      end
  end.
End Service.
