(* ===== verification/ServiceFlow.v ===== *)
(** A concrete world for the service, and a service in it. *)

From S2P Require Import Prelude RustText DomainTypes Domain CoordModel RepoTypes ServiceTypes.
From S2P Require Import Context PlanModel RepoMemory RepoClaims ServiceCommands ServiceMemory.
From S2P Require Import ServiceReconcile RepoInv RepoEffects ServiceEffects ServiceSample Principal.
From S2P Require Import PrincipalThms ControlCrypto CryptoThms ServiceApi ServiceWorld.
From S2P Require Import ServicePlacement ServiceOperations ServiceCalls.
From stdpp Require Import options.

(** An identifier above all keys of a table. *)
Definition above {A} (m : gmap Z A) : Z := foldr Z.max 0 (map_to_list m).*1 + 1.

Lemma above_fresh {A} (m : gmap Z A) (i : nat) : m !! (above m + Z.of_nat i) = None.
Proof.
  destruct (m !! _) as [x|] eqn:E; [|done].
  assert (Hm : ∀ l k, k ∈ l → k ≤ foldr Z.max 0 l).
  { induction l as [|y l IH]; intros k Hk; [set_solver|]. cbn.
    apply elem_of_cons in Hk as [->|Hk]; [lia|]. specialize (IH k Hk). lia. }
  specialize (Hm (map_to_list m).*1 (above m + Z.of_nat i)).
  assert (above m + Z.of_nat i ∈ (map_to_list m).*1) as Hin.
  { apply list_elem_of_fmap. exists (above m + Z.of_nat i, x). split; [done|].
    by apply elem_of_map_to_list. }
  specialize (Hm Hin). unfold above in *. lia.
Qed.

Definition environment (others : nat → MemoryRepository → MemoryRepository) : Environment := {|
  ev_now n := 10 + Z.of_nat n;
  ev_uuid n := 1000 + Z.of_nat n;
  ev_leg_ids n := (2000 + 2 * Z.of_nat n, 2001 + 2 * Z.of_nat n);
  ev_effect_ids _ r i := above (rm_outbox (mr_state r)) + Z.of_nat i;
  ev_others := others;
  ev_elapsed _ := false;
|}.

Lemma environment_laws `{Chrono, ServiceLibs} others :
  (∀ n r, rtc store_step r (others n r)) → EnvironmentLaws (environment := environment others).
Proof.
  intros Ho. split.
  - exact Ho.
  - intros n r. split; [intros i; apply above_fresh|]. intros i j E. cbn in E. lia.
  - intros n E. cbn in E. lia.
Qed.

(** Nobody else is there. *)
Definition alone : Environment := environment (λ _ r, r).

Lemma alone_laws `{Chrono, ServiceLibs} : EnvironmentLaws (environment := alone).
Proof. apply environment_laws. by intros. Qed.

(** A second worker registers before the fourth step. *)
Definition second_worker : RegisterWorker :=
  {| rw_worker_id := 8; rw_max_calls := 1%N; rw_capabilities := {[str "sip"; str "sip_egress"]};
     rw_at := 0; rw_lease_ttl := from_secs 30 |}.

Definition busy : Environment :=
  environment (λ n r, if Nat.eqb n 3
    then (@register_worker chrono_sample r second_worker).1 else r).

Lemma busy_laws : @EnvironmentLaws chrono_sample libs_sample busy.
Proof.
  apply environment_laws. intros n r. destruct (Nat.eqb n 3); [|done].
  apply rtc_once. left. apply step_register.
Qed.

(** A service over the sample store: a principal creates a call between an inbound and an outbound
    SIP leg, and its phone attaches with the token it got. *)

#[local] Existing Instances chrono_sample libs_sample auth_types_sample auth_core_sample
  hashing_sample base64_sample chrono_unix_sample alone.

(** JSON of a destination: its direction, for what it is worth here. *)
Definition json_sample : DestinationJson := λ leg, Some (direction_label (rl_direction leg)).

Definition sample_service : CallService :=
  {| cs_placement := repository_placement RepositoryWorkerPlacement_new;
     cs_attachment_principals := SamePrincipalAttachmentResolver;
     cs_crypto := sample_crypto; cs_timeouts := CallTimeoutPolicy_default |}.

Definition sip_leg (direction : LegDirection) (uri : option rstr) : RequestedLeg :=
  {| rl_direction := direction; rl_signaling_initiator := None;
     rl_media_flow := MediaFlow.SendReceive;
     rl_endpoint := LegEndpointConfig.Sip
       {| se_uri := uri; se_initial_context := SipInitialContextMode.None_ |};
     rl_amazon_connect_start := None |}.

Definition call_input : CreateCallInput :=
  {| ci_tenant_id := None;
     ci_legs := (sip_leg LegDirection.Inbound None,
                 sip_leg LegDirection.Outbound (Some (str "sip:agent@example.com"))) |}.

Definition caller_identity : AuthenticatedPrincipal :=
  {| ap_subject := str "alice"; ap_tenant := Some (str "acme");
     ap_scopes := map scope_as_str
       [Scope.Create; Scope.ArbitraryDestination; Scope.Read; Scope.Hangup; Scope.Transfer; Scope.Dtmf];
     ap_issuer := None; ap_expires_at := None; ap_method := method_ApiKey;
     ap_assurance := assurance_Anonymous |}.
Definition caller : ApiPrincipal := {| pr_inner := caller_identity; pr_tenant := str "acme" |}.

Definition opened : World := {| wo_store := enrolled; wo_step := 0 |}.

Definition create_run : World * option (result CallServiceError (CallOperationResult CallView)) :=
  service_create_call sample_service caller (str "key-1") call_input opened.

(** The answer is a new call. *)
Lemma create_run_answer : ∃ res, create_run.2 = Some (Ok res) ∧ or_replayed res = false.
Proof. vm_compute. eexists. split; reflexivity. Qed.

(** The token of the inbound leg. *)
Definition issued_token : option rstr :=
  match create_run.2 with
  | Some (Ok res) => av_token <$> lv_attachment (vw_legs (or_value res)).1
  | _ => None
  end.

Definition attach_request : InboundAttachmentRequest :=
  {| ib_principal := caller_identity; ib_routing_token := issued_token;
     ib_transport := AttachmentTransport.Sip; ib_worker := worker_one;
     ib_connection_id := str "conn-in"; ib_signaling_metadata := [] |}.

Definition attach_run : World * option (result InboundAttachmentError InboundAttachmentResult) :=
  consume_inbound_attachment sample_service attach_request create_run.1.

(** The phone is admitted: the leg is signaling. *)
Lemma attach_run_answer :
  ∃ res leg, attach_run.2 = Some (Ok res) ∧
    find_leg (sc_aggregate (cv_call (it_commit res))) (cb_leg_id (it_binding res)) = Some leg ∧
    leg_state leg = LegState.Signaling.
Proof. vm_compute. eexists _, _. split; [reflexivity|]. split; reflexivity. Qed.
