(* ===== verification/PlacementThms.v ===== *)
(** Placement ([ServicePlacement]): the workers a repository placement selects are distinct, no more
    than its limit, and each of them could take the call when the repository was asked about it. *)

From S2P Require Import Prelude RustText DomainTypes CoordModel CoordMemory Domain DomainInv.
From S2P Require Import RepoTypes ServiceTypes RepoMemory RepoClaims Context PlanModel.
From S2P Require Import ServiceCommands ServiceMemory ServiceReconcile RepoInv RepoEffects ServiceEffects.
From S2P Require Import RepoTheorems ServiceWorld ServiceSample ServiceFlow.
From S2P Require Import Principal ControlCrypto ServiceApi ServicePlacement ServiceOperations.
From stdpp Require Import options.

Section Placement.
Context `{Chrono, ServiceLibs, Environment, !EnvironmentLaws}.
Implicit Types (self : RepositoryWorkerPlacement).

(** The worker holds the lease, is alive and has room and the capabilities. *)
Definition placeable (required : gset rstr) (at_ : DateTime) (r : MemoryRepository)
    (lease : WorkerLease) : Prop :=
  ∃ k, rm_workers (mr_state r) !! wl_worker_id lease = Some k ∧ wk_lease k = lease ∧
       wk_draining k = false ∧ authoritative_time (mr_state r) at_ < wk_lease_expires_at k ∧
       (wk_reserved_calls k < wk_max_calls k)%N ∧ required ⊆ wk_capabilities k.

(** The placement may use the worker, which was placeable in a store between [r0] and [r1]. *)
Definition eligible self required at_ r0 r1 (lease : WorkerLease) : Prop :=
  repository_allows_worker self (wl_worker_id lease) = true ∧
  ∃ r, rtc other_step r0 r ∧ rtc other_step r r1 ∧ placeable required at_ r lease.

Definition chosen self required at_ r0 r1 (selected : list WorkerLease) : Prop :=
  NoDup selected ∧ ∀ lease, lease ∈ selected → eligible self required at_ r0 r1 lease.

Lemma chosen_later self required at_ r0 r1 r2 selected :
  chosen self required at_ r0 r1 selected → rtc other_step r1 r2 →
  chosen self required at_ r0 r2 selected.
Proof using.
  intros [Hn Hs] Hr. split; [done|]. intros lease (Ha & r & Hx & Hy & Hp)%Hs. split; [done|].
  exists r. split_and!; [done|by etrans|done].
Qed.

Lemma others_run r r' : rtc other_step r r' → rtc store_step r r'.
Proof using All.
  intros Hs. refine (rtc_ind_l (λ x, rtc store_step x r') _ (rtc_refl _ _) _ _ Hs).
  intros x y [n ->] _ IH. etrans; [apply others_use_methods|done].
Qed.

Lemma others_reachable r r' : store_reachable r → rtc other_step r r' → store_reachable r'.
Proof using All. intros Hr Hs%others_run. unfold store_reachable in *. by etrans. Qed.

Lemma worker_snapshot_ok r id k :
  worker_snapshot r id = Ok k → rm_workers (mr_state r) !! id = Some k.
Proof using.
  unfold worker_snapshot, read, lock. destruct (mr_poisoned r); [done|]. by intros ?%ok_or_ok.
Qed.

Lemma active_snapshot_ok r lease at_ k :
  active_worker_snapshot r lease at_ = Ok k →
  rm_workers (mr_state r) !! wl_worker_id lease = Some k ∧ wk_lease k = lease ∧
  wk_draining k = false ∧ authoritative_time (mr_state r) at_ < wk_lease_expires_at k.
Proof using.
  unfold active_worker_snapshot, read, lock. destruct (mr_poisoned r); [done|]. intros Hk%ok_or_ok.
  destruct (rm_workers _ !! _) as [k'|] eqn:Ew; [|done]. cbn in Hk.
  match type of Hk with (if ?b then _ else _) = _ => destruct b eqn:Eb; [|done] end.
  injection Hk as ->. bool_hyps. by split_and!.
Qed.

Lemma chosen_snoc self required at_ r0 r1 selected lease :
  chosen self required at_ r0 r1 selected → lease ∉ selected → eligible self required at_ r0 r1 lease →
  chosen self required at_ r0 r1 (selected ++ [lease]).
Proof using.
  intros [Hn Hs] Hl He. split.
  - rewrite Permutation_app_comm. by constructor.
  - intros l [Hl'|Hl'%list_elem_of_singleton]%elem_of_app; [auto|by subst].
Qed.

(** A snapshot that was read while the placement ran. *)
Lemma read_eligible self required at_ r0 r lease k :
  rtc other_step r0 r → repository_allows_worker self (wl_worker_id lease) = true →
  active_worker_snapshot r lease at_ = Ok k → (wk_reserved_calls k < wk_max_calls k)%N →
  required ⊆ wk_capabilities k → wk_lease k = lease ∧ eligible self required at_ r0 r lease.
Proof using.
  intros Hr Ha (Hk & Hl & Hd & Ht)%active_snapshot_ok Hm Hc. split; [done|]. split; [done|].
  exists r. split_and!; [done|done|]. by exists k.
Qed.

Lemma found_later r0 w : rtc other_step r0 (wo_store w) → rtc other_step r0 (found w).
Proof using. intros Hr. etrans; [exact Hr|apply other_once]. Qed.
Hint Resolve found_later : core.

(** The outcome of a read. *)
Lemma query_attempt {E A} (method : MemoryRepository → result RepositoryError A) w w' (r : result RepositoryError A) :
  attempt (E' := E) (query id method) w = (w', Some (Ok r)) → w' = after (found w) w ∧ method (found w) = r.
Proof using.
  unfold attempt, query, call, after, found. destruct (method _); cbn; intros [= <- <-]; done.
Qed.

Lemma consider_hint_ok self required at_ r0 hint selected w w' selected' :
  rtc other_step r0 (wo_store w) → chosen self required at_ r0 (wo_store w) selected →
  consider_hint self required at_ hint selected w = (w', Some (Ok selected')) →
  rtc other_step r0 (wo_store w') ∧ chosen self required at_ r0 (wo_store w') selected' ∧
  (length selected' ≤ S (length selected))%nat.
Proof using.
  intros Hr Hc. unfold consider_hint. destruct (worker_outside self _) eqn:Eo.
  { intros [-> ->]%svc_ret_ok. split_and!; [done..|lia]. }
  intros (w1 & o & [-> Ho]%query_attempt & Hk)%svc_bind_ok.
  assert (Hr1 : rtc other_step r0 (found w)) by auto.
  assert (Hc1 : chosen self required at_ r0 (found w) selected)
    by (eapply chosen_later; [exact Hc|apply other_once]).
  destruct o as [k|]; [|apply svc_ret_ok in Hk as [-> ->]; split_and!; [done..|lia]].
  case_bool_decide as El; cbn in Hk; [|apply svc_ret_ok in Hk as [-> ->]; split_and!; [done..|lia]].
  apply svc_bind_ok in Hk as (w2 & o & [-> Ho2]%query_attempt & Hk).
  assert (Hr2 : rtc other_step r0 (found (after (found w) w))) by (apply found_later; cbn; auto).
  assert (Hc2 : chosen self required at_ r0 (found (after (found w) w)) selected)
    by (eapply chosen_later; [exact Hc1|apply other_once]).
  destruct o as [k2|]; [|apply svc_ret_ok in Hk as [-> ->]; split_and!; [done..|lia]].
  apply svc_ret_ok in Hk as [-> ->]. split; [done|]. unfold worker_has_room.
  destruct (_ && _) eqn:Eb; [|split; [done|lia]]. bool_hyps.
  assert (Ha : repository_allows_worker self (wl_worker_id (wk_lease k)) = true).
  { rewrite El. revert Eo. unfold worker_outside, repository_allows_worker.
    destruct (rw_allowed_worker_ids self); cbn; [|done]. by case_bool_decide. }
  eapply read_eligible in Ho2 as [El2 He]; [|done..]. rewrite El2 in *. split; [by apply chosen_snoc|].
  rewrite length_app. cbn. lia.
Qed.

Lemma consider_hints_ok self required at_ r0 hints selected w w' selected' :
  rtc other_step r0 (wo_store w) → chosen self required at_ r0 (wo_store w) selected →
  consider_hints self required at_ hints selected w = (w', Some (Ok selected')) →
  rtc other_step r0 (wo_store w') ∧ chosen self required at_ r0 (wo_store w') selected' ∧
  (length selected' ≤ length hints + length selected)%nat.
Proof using.
  revert selected w. induction hints as [|hint hints IH]; intros selected w Hr Hc; cbn.
  - intros [-> ->]%svc_ret_ok. by split_and!.
  - intros (w1 & s1 & Hf & Hs)%svc_bind_ok.
    apply (consider_hint_ok _ _ _ r0) in Hf as (Hr1 & Hc1 & Hl1); [|done..].
    apply IH in Hs as (Hr2 & Hc2 & Hl2); [|done..]. split_and!; [done..|lia].
Qed.

Lemma consider_allowed_ok self required at_ r0 id reached w w' reached' :
  store_reachable r0 → rtc other_step r0 (wo_store w) → repository_allows_worker self id = true →
  chosen self required at_ r0 (wo_store w) (re_selected reached) →
  consider_allowed required at_ id reached w = (w', Some (Ok reached')) →
  rtc other_step r0 (wo_store w') ∧ chosen self required at_ r0 (wo_store w') (re_selected reached') ∧
  (length (re_selected reached') ≤ S (length (re_selected reached)))%nat.
Proof using All.
  intros Hr0 Hr Ha Hc. unfold consider_allowed.
  intros (w1 & o & [-> Ho]%query_attempt & Hk)%svc_bind_ok.
  assert (Hr1 : rtc other_step r0 (found w)) by auto.
  assert (Hc1 : chosen self required at_ r0 (found w) (re_selected reached))
    by (eapply chosen_later; [exact Hc|apply other_once]).
  destruct o as [k|e]; [|destruct (not_registered e); [|done];
    apply svc_ret_ok in Hk as [-> ->]; split_and!; [done..|lia]].
  apply svc_bind_ok in Hk as (w2 & o & [-> Ho2]%query_attempt & Hk).
  assert (Hr2 : rtc other_step r0 (found (after (found w) w))) by (apply found_later; cbn; auto).
  assert (Hc2 : chosen self required at_ r0 (found (after (found w) w)) (re_selected reached))
    by (eapply chosen_later; [exact Hc1|apply other_once]).
  destruct o as [k2|e]; [|destruct (not_active e); [|done];
    apply svc_ret_ok in Hk as [-> ->]; split_and!; [done..|lia]].
  case_bool_decide as Es; cbn in Hk;
    apply svc_ret_ok in Hk as [-> ->]; (split; [done|]); [|cbn; split; [done|lia]].
  unfold worker_has_room. destruct (_ && _) eqn:Eb; cbn; [|split; [done|lia]]. bool_hyps.
  assert (wl_worker_id (wk_lease k) = id) as Hid.
  { apply (wo_id (mr_state (found w))). apply (cy_workers _ (store_capacity _ (others_reachable _ _ Hr0 Hr1))).
    by apply worker_snapshot_ok. }
  eapply read_eligible in Ho2 as [El2 He]; [|done|by rewrite Hid|done..]. rewrite El2 in *.
  split; [by apply chosen_snoc|]. rewrite length_app. cbn. lia.
Qed.

Lemma consider_all_allowed_ok self limit required at_ r0 ids reached w w' reached' :
  store_reachable r0 → rtc other_step r0 (wo_store w) →
  (∀ id, id ∈ ids → repository_allows_worker self id = true) →
  chosen self required at_ r0 (wo_store w) (re_selected reached) →
  consider_all_allowed limit required at_ ids reached w = (w', Some (Ok reached')) →
  rtc other_step r0 (wo_store w') ∧ chosen self required at_ r0 (wo_store w') (re_selected reached') ∧
  (length (re_selected reached') ≤ limit `max` length (re_selected reached))%nat.
Proof using All.
  intros Hr0. revert reached w. induction ids as [|id ids IH]; intros reached w Hr Ha Hc; cbn.
  - intros [-> ->]%svc_ret_ok. split_and!; [done..|lia].
  - destruct (limit <=? _)%nat eqn:El; [intros [-> ->]%svc_ret_ok; split_and!; [done..|lia]|].
    apply Nat.leb_gt in El. intros (w1 & r1 & Hf & Hs)%svc_bind_ok.
    apply (consider_allowed_ok self _ _ r0) in Hf as (Hr1 & Hc1 & Hl1); [|done|done|apply Ha; set_solver|done].
    apply IH in Hs as (? & ? & ?); [split_and!; [done..|lia]|done| |done]. intros j Hj. apply Ha. set_solver.
Qed.

Lemma add_candidates_ok self limit required at_ r0 r workers selected :
  rw_allowed_worker_ids self = None → rtc other_step r0 r →
  (∀ k, k ∈ workers → placeable required at_ r (wk_lease k)) →
  chosen self required at_ r0 r selected →
  chosen self required at_ r0 r (foldl (add_candidate limit) selected workers) ∧
  (length (foldl (add_candidate limit) selected workers) ≤ limit `max` length selected)%nat.
Proof using All.
  intros Ha Hr. revert selected. induction workers as [|k workers IH]; intros selected Hk Hc; cbn; [split; [done|lia]|].
  assert (Hk' : ∀ k', k' ∈ workers → placeable required at_ r (wk_lease k')) by set_solver.
  unfold add_candidate. destruct (_ && _) eqn:Eb; [|by apply IH].
  apply andb_true_iff in Eb as [Hn Hlt%Nat.ltb_lt]. bool_hyps.
  destruct (IH (selected ++ [wk_lease k])) as [Hc' Hl']; [done| |split; [done|]].
  - apply chosen_snoc; [done..|]. split; [unfold repository_allows_worker; by rewrite Ha|].
    exists r. split_and!; [done|done|]. apply Hk. set_solver.
  - rewrite length_app in Hl'. cbn in Hl'. unfold add_candidate in Hl'. lia.
Qed.

Lemma worker_candidates_ok r required at_ limit workers :
  store_reachable r → worker_candidates r required at_ limit = Ok workers →
  ∀ k, k ∈ workers → placeable required at_ r (wk_lease k).
Proof using All.
  intros Hr Hw k Hk. unfold worker_candidates in Hw. apply bind_unit_ok in Hw as [_ Hw].
  destruct (limit =? 0)%N; [by injection Hw as <-; set_solver|].
  unfold read, lock in Hw. destruct (mr_poisoned r); [done|]. cbn in Hw. injection Hw as <-.
  apply elem_of_take in Hk as (i & Hk%list_elem_of_lookup_2 & _).
  rewrite sort_by_perm, list_elem_of_In, filter_In, <- list_elem_of_In, values_elem in Hk.
  destruct Hk as [[id Hid] Hc]. unfold is_candidate in Hc. bool_hyps.
  exists k. rewrite (wo_id _ _ _ (cy_workers _ (store_capacity _ Hr) _ _ Hid)). by split_and!.
Qed.

(** The coordination projection returns no more hints than it was asked for. *)
Definition hints_bounded self : Prop :=
  ∀ worker_hints n request hints, rw_projection self = Some worker_hints →
    worker_hints n request = Ok hints → (length hints ≤ N.to_nat (sr_limit request))%nat.

(** As the standalone coordinator does. *)
Lemma memory_hints_bounded self values (coordinator : nat → MemoryCoordinator) (at_ : nat → DateTime) :
  rw_projection self = Some (λ n request, (worker_hints values (coordinator n) (at_ n) request).2) →
  hints_bounded self.
Proof using.
  intros Hp f n request hints Hf Hh. rewrite Hp in Hf. injection Hf as <-. unfold worker_hints in Hh.
  destruct (_ ≫= _); [|done]. injection Hh as <-. rewrite length_take. lia.
Qed.

Lemma hinted_ok self required w w' hints :
  hinted_workers self required w = (w', Some (Ok hints)) →
  wo_store w' = wo_store w ∧ (hints_bounded self → (length hints ≤ rw_limit self)%nat).
Proof using.
  unfold hinted_workers. destruct (rw_projection self) as [f|] eqn:Ep.
  - intros [= <- <-]. split; [done|]. intros Hb. destruct (f _ _) as [hints|] eqn:Ef; [|cbn; lia].
    apply (Hb _ _ _ _ Ep) in Ef. cbn in Ef. lia.
  - intros [= <- <-]. split; [done|]. cbn. lia.
Qed.

Lemma workers_accepted workers :
  workers ≠ [] → NoDup workers → (length workers ≤ MAX_WORKER_CANDIDATES)%nat → check_workers workers = Ok ().
Proof using.
  intros Hne Hn Hm. unfold check_workers. destruct workers as [|x l]; [done|]. cbn [is_empty reject_if].
  apply bind_unit_ok. split; [done|]. apply reject_if_ok, orb_false_iff. split; [apply Nat.ltb_ge; lia|].
  clear -Hn. induction Hn as [|y ys Hy Hn IH]; [done|]. cbn. rewrite IH, bool_decide_eq_false_2 by done. done.
Qed.

(** C10. Placement is sound.  Whatever the coordination hints say, the workers a repository placement
    selects for a plan are distinct and at least one, and every one of them is among the workers the
    gateway may use and, in a state the repository had between the start of the selection and its
    end, held its lease, was live and not draining, had room for a call, and advertised every
    capability of the plan and the gateway's route catalogue.  They are at most as many as the limit
    of the placement, so that the service accepts the list, when the coordination component keeps to
    the number of hints it is asked for.  Selection writes nothing. *)
Theorem placement_is_sound self plan at_ w w' workers :
  store_reachable (wo_store w) →
  repository_select_workers self plan at_ w = (w', Some (Ok workers)) →
  rtc other_step (wo_store w) (wo_store w') ∧ workers ≠ [] ∧ NoDup workers ∧
  (hints_bounded self → (length workers ≤ rw_limit self)%nat ∧
     ((rw_limit self ≤ MAX_WORKER_CANDIDATES)%nat → check_workers workers = Ok ())) ∧
  ∃ capabilities, required_worker_capabilities plan = Ok capabilities ∧
    ∀ lease, lease ∈ workers →
      eligible self (required_of self capabilities) at_ (wo_store w) (wo_store w') lease.
Proof using All.
  intros Hr Hw. unfold repository_select_workers in Hw.
  apply svc_bind_ok in Hw as (w1 & caps & [-> Hcaps]%svc_answer_ok & Hw).
  destruct (required_worker_capabilities plan) as [caps'|]; [|done]. injection Hcaps as ->.
  apply svc_bind_ok in Hw as (w1 & hints & [Es Hl1]%hinted_ok & Hw).
  apply svc_bind_ok in Hw as (w2 & selected & Hs & Hw).
  apply (consider_hints_ok _ _ _ (wo_store w)) in Hs as (Hr2 & Hc2 & Hl2);
    [|by rewrite Es|split; [constructor|set_solver]].
  cbn in Hl2. rewrite Nat.add_0_r in Hl2.
  assert (rtc other_step (wo_store w) (wo_store w') ∧ workers ≠ [] ∧
          chosen self (required_of self caps) at_ (wo_store w) (wo_store w') workers ∧
          (length workers ≤ rw_limit self `max` length selected)%nat) as (Hr3 & Hne & [Hn He] & Hlen).
  { destruct (rw_allowed_worker_ids self) as [allowed|] eqn:Ea.
    - apply svc_bind_ok in Hw as (w3 & reached & Hx & Hw).
      apply (consider_all_allowed_ok self _ _ _ (wo_store w)) in Hx as (Hr3 & Hc3 & Hl3);
        [|done|done| |done].
      + destruct (is_empty (re_selected reached)) eqn:Ee; [done|].
        apply svc_ret_ok in Hw as [-> ->]. split_and!; try done. by destruct (re_selected reached).
      + intros id. rewrite sort_by_perm, elem_of_elements. unfold repository_allows_worker.
        rewrite Ea. cbn. intros ?. by apply bool_decide_eq_true_2.
    - apply svc_bind_ok in Hw as (w3 & ks & [-> Hks]%svc_query_ok & Hw). cbv zeta in Hw.
      assert (Hf : rtc other_step (wo_store w) (found w2)) by by apply found_later.
      destruct (add_candidates_ok self (rw_limit self) (required_of self caps) at_ (wo_store w) (found w2) ks
        selected) as [Hc3 Hl3]; [done|done| |eapply chosen_later; [exact Hc2|apply other_once]|].
      { eapply worker_candidates_ok; [|done]. by eapply others_reachable. }
      destruct (is_empty _) eqn:Ee; [done|]. apply svc_ret_ok in Hw as [-> ->].
      split_and!; try done. by destruct (foldl _ _ _). }
  split_and!; try done; [|by exists caps].
  intros Hb. specialize (Hl1 Hb). split; [lia|]. intros Hm. apply workers_accepted; [done|done|lia].
Qed.
End Placement.

(** A projection that knows worker 7 only. *)
Definition sample_hint (n : nat) (request : WorkerSelectionRequest)
    : result CoordinationError (list WorkerCoordinationSnapshot) :=
  Ok (take (N.to_nat (sr_limit request))
    [{| ws_lease := worker_one; ws_max_calls := 2%N; ws_reserved_calls := 0%N; ws_draining := false;
        ws_capabilities := {[str "sip"]}; ws_lease_expires_at := 99 |}]).

Definition sample_placement : RepositoryWorkerPlacement :=
  with_allowed_workers (with_projection RepositoryWorkerPlacement_new sample_hint) {[7; 8]}.

(** Worker 8 registers while the placement is asking; both are selected. *)
Lemma placement_is_sound_witness :
  ∃ w' workers, @repository_select_workers busy sample_placement sample_plan 10
    {| wo_store := enrolled; wo_step := 1 |} = (w', Some (Ok workers)) ∧
  length workers = 2%nat ∧ NoDup workers ∧ check_workers workers = Ok ().
Proof.
  destruct (@repository_select_workers busy sample_placement sample_plan 10
    {| wo_store := enrolled; wo_step := 1 |}) as [w' [[workers|]|]] eqn:E; [|by vm_compute in E..].
  exists w', workers. split; [done|].
  assert (Hl : length workers = 2%nat).
  { enough (length <$> ((@repository_select_workers busy sample_placement sample_plan 10
      {| wo_store := enrolled; wo_step := 1 |}).2 ≫= λ o, match o with Ok l => Some l | Err _ => None end)
      = Some 2%nat) as Hx by (rewrite E in Hx; cbn in Hx; congruence). vm_compute. reflexivity. }
  destruct (@placement_is_sound chrono_sample libs_sample busy busy_laws sample_placement sample_plan 10
    {| wo_store := enrolled; wo_step := 1 |} w' workers store_enrolled) as (_ & _ & Hn & Hc & _); [done|].
  destruct Hc as [_ Hc].
  - intros f n request hints [= <-] [= <-]. rewrite length_take. lia.
  - split_and!; [done..|]. apply Hc. unfold sample_placement. cbn. lia.
Defined.
