(* ===== verification/AdmissionThms.v ===== *)
(** Admission of inbound attachments by the service ([consume_inbound_attachment] of
    [ServiceOperations]): what an admitted connection has proved, and that a refused one has spent
    nothing. *)

From S2P Require Import Prelude RustText DomainTypes CoordModel Domain DomainInv.
From S2P Require Import RepoTypes ServiceTypes RepoMemory RepoClaims Context PlanModel.
From S2P Require Import ServiceCommands ServiceMemory ServiceReconcile RepoInv RepoEffects ServiceEffects.
From S2P Require Import RepoTheorems ServiceWorld.
From S2P Require Import Principal PrincipalThms ControlCrypto ServiceApi ServicePlacement ServiceOperations.
From S2P Require Import ServiceSample ServiceFlow CryptoThms.
From stdpp Require Import options.

(** The INVITE carried the required header once, with the value of the call's context. *)
Definition corroborated (required : option (rstr * rstr)) (transport : AttachmentTransport)
    (metadata : list (rstr * rstr)) : Prop :=
  ∀ header value, transport = AttachmentTransport.Sip → required = Some (header, value) →
    ∃ name, List.filter (λ entry, ignore_case_eq entry.1 header) metadata = [(name, value)].

Lemma verified_corroborated `{Hashing} required transport metadata evidence :
  verified_sip_invite_correlation required transport metadata = Ok evidence →
  corroborated required transport metadata.
Proof.
  intros Hv header value -> ->. unfold verified_sip_invite_correlation in Hv. cbn in Hv.
  apply bind_reject_ok in Hv as [_ Hv]. apply bind_reject_ok in Hv as [_ Hv].
  destruct (List.filter _ metadata) as [|[name v] rest]; [done|]. cbn [mbind result_bind] in Hv.
  cbn in Hv. apply bind_reject_ok in Hv as [Hb _].
  repeat (apply orb_false_iff in Hb; destruct Hb as [Hb ?]).
  apply negb_false_iff, Z.eqb_eq in Hb. bool_hyps. subst v. destruct rest; [by exists name|cbn in Hb; lia].
Qed.

Section Admission.
Context `{AuthCore, Hashing, Base64, Chrono, ChronoUnix, ServiceLibs, DestinationJson}.
Context `{!AuthLaws} {env : Environment}.
Implicit Types (self : CallService) (request : InboundAttachmentRequest).

(** The lookup and the consumption a request leads to. *)
Definition lookup_of request digest (principal : ApiPrincipal) fingerprint (at_ : DateTime)
    : AttachmentLookup :=
  {| lk_token_digest := digest; lk_tenant_id := pr_tenant principal;
     lk_transport := ib_transport request; lk_principal_fingerprint := fingerprint;
     lk_worker := ib_worker request; lk_at := at_ |}.

Definition consume_of request (principal : ApiPrincipal) fingerprint command_id
    (candidate : AttachmentCandidate) (at_ : DateTime) : AttachmentConsume :=
  {| am_candidate := candidate; am_command_id := command_id;
     am_command := attachment_command candidate at_; am_connection_id := ib_connection_id request;
     am_principal_fingerprint := fingerprint;
     am_principal_expires_at := ap_expires_at (pr_inner principal); am_at := at_ |}.

(** The attempt that succeeded.  It read the clock at step [i], inspected the store at the next step,
    read the clock again at step [i + 2] and consumed the token at the step after that, which was its
    last; the store it found at a step is what the others made of it before. *)
Record proved self request digest (principal : ApiPrincipal) fingerprint command_id
    (w0 w' : World) (answer_ : InboundAttachmentResult) : Prop := {
  pv_run : ∃ (i : nat) (r : MemoryRepository) candidate consumed,
    (wo_step w0 ≤ i)%nat ∧ wo_step w' = (i + 4)%nat ∧ rtc other_step (wo_store w0) r ∧
    let inspected_at := ev_now i in
    let r1 := ev_others (i + 1) r in
    let consume_at := ev_now (i + 2) in
    let r2 := ev_others (i + 3) r1 in
    inspect_attachment r1 (lookup_of request digest principal fingerprint inspected_at) = Ok candidate ∧
    consume_attachment (ev_effect_ids (i + 3) r2) r2
      (consume_of request principal fingerprint command_id candidate consume_at)
      = (wo_store w', Ok consumed) ∧
    answer_ = {| it_binding := ca_binding consumed; it_commit := ca_commit consumed |} ∧
    is_expired_at (pr_inner principal) inspected_at = false ∧
    is_expired_at (pr_inner principal) consume_at = false ∧ consume_at < an_expires_at candidate ∧
    allows_assignment (cs_placement self) (an_assignment candidate) = true ∧
    corroborated (an_required_sip_correlation candidate) (ib_transport request)
      (ib_signaling_metadata request);
}.

Lemma proved_later self request digest principal fingerprint command_id w0 w1 w' a :
  rtc other_step (wo_store w0) (wo_store w1) → (wo_step w0 ≤ wo_step w1)%nat →
  proved self request digest principal fingerprint command_id w1 w' a →
  proved self request digest principal fingerprint command_id w0 w' a.
Proof using.
  intros Hr Hn [(i & r & c & s & Hi & Hs & Hx & Hp)]. split. exists i, r, c, s.
  split_and!; [lia|done|by etrans|done..].
Qed.

(** What the loop may answer. *)
Definition admission self request digest principal fingerprint command_id (w0 : World)
    (o : World * option (result InboundAttachmentError InboundAttachmentResult)) : Prop :=
  match o with
  | (w', Some (Ok a)) => proved self request digest principal fingerprint command_id w0 w' a
  | (w', Some (Err _)) => rtc other_step (wo_store w0) (wo_store w')
  | (_, None) => False
  end.

Lemma attempts_step self request digest principal fingerprint command_id n w :
  (∀ w, (0 < n)%nat → admission self request digest principal fingerprint command_id w
     (consume_attempts self request digest principal fingerprint command_id n w)) →
  admission self request digest principal fingerprint command_id w
    (consume_attempts self request digest principal fingerprint command_id (S n) w).
Proof using.
  intros IH. cbn [consume_attempts]. unfold fail, mbind, Svc_bind, now, answer, query, call, attempt.
  cbn [reject_if tick wo_store wo_step].
  destruct (is_expired_at _ _) eqn:E1; [by cbn|]. cbn [reject_if tick wo_store wo_step].
  assert (Hf : rtc other_step (wo_store w) (ev_others (S (wo_step w)) (wo_store w))) by apply other_once.
  set (r1 := ev_others (S (wo_step w)) (wo_store w)) in *.
  destruct (inspect_attachment r1 _) as [candidate|e] eqn:Ei; [|by cbn]. cbn [map_err wo_store wo_step tick].
  destruct (verified_sip_invite_correlation _ _ _) as [evidence|e] eqn:Ev; [|by cbn].
  destruct (is_expired_at _ (ev_now (S (S (wo_step w))))) eqn:E2; [by cbn|].
  destruct (an_expires_at candidate <=? _) eqn:E3; [by cbn|].
  destruct (allows_assignment _ _) eqn:E4; [|by cbn]. cbn [orb negb reject_if tick wo_store wo_step].
  set (r2 := ev_others _ r1) in *.
  assert (Hf2 : rtc other_step r1 r2) by apply other_once.
  destruct (consume_attachment _ r2 _) as [r3 [consumed|e]] eqn:Ec; cbn [map_err option_fmap option_map wo_store].
  - cbn. split. exists (wo_step w), (wo_store w), candidate, consumed.
    replace (wo_step w + 1)%nat with (S (wo_step w)) by lia.
    replace (wo_step w + 2)%nat with (S (S (wo_step w))) by lia.
    replace (wo_step w + 3)%nat with (S (S (S (wo_step w)))) by lia. cbv zeta. fold r1. fold r2.
    split_and!; try done; [cbn; lia|lia|by eapply verified_corroborated].
  - assert (r3 = r2) as -> by (by eapply (transaction_refuses (λ new_id, consume_attachment_in_state new_id _))).
    destruct e; cbn; try by etrans.
    destruct n as [|n]; [cbn; by etrans|]. pose proof (Nat.lt_0_succ n) as En.
    match goal with |- context [consume_attempts _ _ _ _ _ _ _ ?w2] => specialize (IH w2 En) end.
    revert IH. destruct (consume_attempts _ _ _ _ _ _ _ _) as [w' [[a|e]|]]; cbn; [|intros He; etrans; [exact Hf|]; etrans; [exact Hf2|exact He]|done].
    apply proved_later; cbn; [by etrans|lia].
Qed.

Lemma attempts_admit self request digest principal fingerprint command_id n w :
  (0 < n)%nat →
  admission self request digest principal fingerprint command_id w
    (consume_attempts self request digest principal fingerprint command_id n w).
Proof using.
  revert w. induction n as [|n IH]; intros w Hn; [lia|]. by apply attempts_step.
Qed.

(** C9. Admission of an inbound connection is by proof, and only a proof spends the token.  The
    operation always answers.  When it admits the connection, the request carried a well-formed
    token and a principal that was valid by the clock when the request arrived; the clock was read
    again right before the inspection of the token and once more after it, and by these two readings
    the principal had not expired; the attachment that the repository found at the first of them for
    the token, tenant, transport, fingerprint and worker had not expired at the second, its
    assignment is one the gateway may use, and a SIP INVITE for a route with a correlation header
    carried that header exactly once with the value of the call's context; and the last step of the
    operation is the one transaction that consumed the inspected candidate, at the time of the
    second reading.  When it refuses, for whatever reason and after however many lost races, it has
    changed nothing. *)
Theorem admission_is_by_proof self request w :
  match consume_inbound_attachment self request w with
  | (w', Some (Ok a)) =>
      ∃ token digest principal fingerprint command_id,
        ib_routing_token request = Some token ∧
        digest_presented_attachment_token token = Ok digest ∧
        ApiPrincipal_new (ib_principal request) (ev_now (wo_step w)) = Ok principal ∧
        principal_fingerprint (cs_crypto self) principal = Some fingerprint ∧
        proved self request digest principal fingerprint command_id
          {| wo_store := wo_store w; wo_step := wo_step w + 2 |} w' a
  | (w', Some (Err _)) => rtc other_step (wo_store w) (wo_store w')
  | (_, None) => False
  end.
Proof using All.
  unfold consume_inbound_attachment, proof_rejected, mbind, Svc_bind, answer, now, or_panic, new_uuid.
  destruct (ib_routing_token request) as [token|] eqn:Et; [|by cbn]. cbn [ok_or].
  destruct (digest_presented_attachment_token token) as [digest|] eqn:Ed; [|by cbn]. cbn [map_err].
  destruct (ApiPrincipal_new _ _) as [principal|] eqn:Ep; [|by cbn]. cbn [map_err].
  destruct (principal_fingerprint (cs_crypto self) principal) as [fingerprint|] eqn:Ef.
  2:{ destruct (accepted_principal_has_fingerprint _ _ _ (cx_fingerprint_key (cs_crypto self)) Ep) as [x Hx].
      unfold principal_fingerprint in Ef. congruence. }
  cbn [fmap option_fmap option_map].
  match goal with |- context [consume_attempts _ _ _ _ _ ?c ?n ?w2] =>
    pose proof (attempts_admit self request digest principal fingerprint c n w2) as Ha end.
  unfold admission in Ha. cbn [wo_store tick] in Ha. specialize (Ha ltac:(unfold MAX_VERSION_RACE_ATTEMPTS; lia)).
  destruct (consume_attempts _ _ _ _ _ _ _ _) as [w' [[a|e]|]]; [|done|done].
  exists token, digest, principal, fingerprint, (ev_uuid (wo_step (tick w))). split_and!; [done..|].
  by rewrite Nat.add_comm.
Qed.
End Admission.

(** The phone of the sample flow is admitted, and leaves a bound connection behind. *)
Lemma admission_is_by_proof_witness :
  ∃ w' a, attach_run = (w', Some (Ok a)) ∧
  ∃ token digest, issued_token = Some token ∧
    @digest_presented_attachment_token hashing_sample base64_sample token = Ok digest.
Proof.
  pose proof (@admission_is_by_proof auth_types_sample auth_core_sample hashing_sample base64_sample
    chrono_sample chrono_unix_sample libs_sample json_sample auth_core_sample_laws alone sample_service
    attach_request create_run.1) as Hp.
  fold attach_run in Hp. destruct attach_run_answer as (res & leg & E & _).
  destruct attach_run as [w' o]. cbn in E. subst o.
  destruct Hp as (token & digest & _ & _ & _ & Ht & Hd & _).
  exists w', res. split; [reflexivity|]. exact (ex_intro _ token (ex_intro _ digest (conj Ht Hd))).
Defined.
