(* ===== verification/CreateThms.v ===== *)
(** Creation of a call through the service ([ServiceOperations]): a repeated request is answered
    with the first answer, tokens included, and a different request under the same key is refused. *)

From S2P Require Import Prelude RustText DomainTypes CoordModel Domain DomainInv.
From S2P Require Import RepoTypes ServiceTypes RepoMemory RepoClaims Context PlanModel.
From S2P Require Import ServiceCommands ServiceMemory ServiceReconcile RepoCommit RepoInv RepoEffects.
From S2P Require Import ServiceEffects RepoTheorems ServiceBirths ServiceWorld.
From S2P Require Import Principal PrincipalThms ControlCrypto ServiceApi ServicePlacement PlacementThms.
From S2P Require Import ServiceOperations ServiceSample ServiceFlow CryptoThms.
From stdpp Require Import options.

(** What the service asks of a placement: it only reads. *)
Class PlacementReads `{Environment} (placement : WorkerPlacement) : Prop :=
  placement_reads tenant plan at_ : waits any (select_workers placement tenant plan at_).

Section Reads.
Context `{Environment}.

#[export] Instance fixed_reads worker : PlacementReads (FixedWorkerPlacement worker).
Proof using. intros tenant plan at_. apply still_ret. Qed.

Lemma hint_reads self required at_ hint selected : waits any (consider_hint self required at_ hint selected).
Proof using.
  unfold consider_hint. destruct (worker_outside _ _); [apply still_ret|].
  apply waits_bind; [eauto with svc|]. intros [k|e]; [|apply still_ret].
  destruct (wk_lease k !=? _); [apply still_ret|]. apply waits_bind; [eauto with svc|].
  intros [k'|e]; apply still_ret.
Qed.

Lemma hints_read self required at_ hints selected : waits any (consider_hints self required at_ hints selected).
Proof using.
  revert selected. induction hints as [|h hints IH]; intros selected; [apply still_ret|].
  apply waits_bind; [apply hint_reads|apply IH].
Qed.

Lemma allowed_reads required at_ id reached : waits any (consider_allowed required at_ id reached).
Proof using.
  unfold consider_allowed. apply waits_bind; [eauto with svc|].
  intros [k|e]; [|destruct (not_registered e); [apply still_ret|apply still_fail]].
  apply waits_bind; [eauto with svc|].
  intros [k'|e]; [|destruct (not_active e); [apply still_ret|apply still_fail]].
  destruct (negb _); apply still_ret.
Qed.

Lemma all_allowed_read limit required at_ ids reached :
  waits any (consider_all_allowed limit required at_ ids reached).
Proof using.
  revert reached. induction ids as [|id ids IH]; intros reached; cbn; [apply still_ret|].
  destruct (_ <=? _)%nat; [apply still_ret|]. apply waits_bind; [apply allowed_reads|apply IH].
Qed.

#[export] Instance repository_reads self : PlacementReads (repository_placement self).
Proof using.
  intros tenant plan at_. cbn. unfold repository_select_workers.
  apply waits_bind; [apply still_answer|]. intros caps.
  apply waits_bind; [|intros hints; apply waits_bind; [apply hints_read|intros selected]].
  { apply waits_still. intros w. unfold hinted_workers. by destruct (rw_projection self). }
  destruct (rw_allowed_worker_ids self).
  - apply waits_bind; [apply all_allowed_read|]. intros reached.
    destruct (is_empty _); [apply still_fail|apply still_ret].
  - apply waits_bind; [apply waits_query|]. intros ks. cbv zeta.
    destruct (is_empty _); [apply still_fail|apply still_ret].
Qed.
End Reads.

Section Create.
Context `{AuthCore, Hashing, Base64, Chrono, ChronoUnix, ServiceLibs, DestinationJson}.
Context {env : Environment} `{!EnvironmentLaws}.
Implicit Types (self : CallService) (legs : RequestedLeg * RequestedLeg).

(** ** Every step before the transaction only reads *)

Lemma waits_ok {E A} (m : Svc E A) w w' o : waits any m → m w = (w', o) → rtc other_step (wo_store w) (wo_store w').
Proof using. intros Hm E1. specialize (Hm w I). by rewrite E1 in Hm. Qed.

Lemma ask_reads {E E' A} (f : E → E') (q : nat → result E A) : waits any (ask f q).
Proof using. by apply waits_still. Qed.

Lemma resolve_principal_reads self tenant spec route owner :
  waits any (resolve_attachment_principal self tenant spec route owner).
Proof using.
  unfold resolve_attachment_principal. apply waits_bind; [apply ask_reads|]. intros [p|]; [apply still_ret|].
  apply waits_bind; [apply ask_reads|]. intros configured. eauto 10 with svc.
Qed.

Lemma resolve_leg_reads self tenant aggregate plan owner spec :
  waits any (resolve_leg_principal self tenant aggregate plan owner spec).
Proof using.
  unfold resolve_leg_principal. apply waits_bind; [apply still_answer|]. intros leg.
  destruct (negb _); [apply still_ret|]. apply waits_bind; [apply resolve_principal_reads|eauto with svc].
Qed.

Lemma resolve_principals_read self tenant aggregate plan owner :
  waits any (resolve_attachment_principals self tenant aggregate plan owner).
Proof using. repeat (apply waits_bind; [apply resolve_leg_reads|intros ?]). apply still_ret. Qed.

Lemma issues_read self tenant aggregate principals worker at_ :
  waits any (attachment_issues self tenant aggregate principals worker at_).
Proof using.
  assert (Hl : ∀ leg p, waits any (leg_attachment_issues self tenant aggregate worker at_ leg p))
    by (intros leg [p|]; unfold leg_attachment_issues; eauto 10 with svc).
  unfold attachment_issues. eauto 10 with svc.
Qed.

Lemma candidates_read self tenant aggregate principals at_ workers :
  waits any (create_candidate_list self tenant aggregate principals at_ workers).
Proof using.
  induction workers as [|w workers IH]; cbn; [apply still_ret|].
  apply waits_bind; [apply issues_read|]. intros att. apply waits_bind; [apply IH|eauto with svc].
Qed.

(** ** Views *)

Lemma create_view_flag self stored b :
  create_view self stored b = (λ r, {| or_value := or_value r; or_replayed := b |}) <$> create_view self stored false.
Proof using.
  unfold create_view. destruct (map_err _ _) as [[]|]; cbn; [|done].
  destruct (reject_if _ _) as [[]|]; cbn; [|done]. by destruct (attach_descriptors _ _ _ _ _).
Qed.

Lemma create_view_replayed self stored b res : create_view self stored b = Ok res → or_replayed res = b.
Proof using. rewrite create_view_flag. destruct (create_view _ _ _); cbn; [|done]. by intros [= <-]. Qed.

(** ** A fresh answer comes from the transaction *)

Lemma replay_or_error_replayed self tenant operation error w w' res :
  replay_create_or_error self tenant operation error w = (w', Some (Ok res)) → or_replayed res = true.
Proof using.
  unfold replay_create_or_error. intros (w1 & t & _ & Hk)%svc_bind_ok.
  apply svc_bind_ok in Hk as (w2 & o & _ & Hk). apply svc_bind_ok in Hk as (w3 & [stored|] & _ & Hk); [|done].
  apply svc_answer_ok in Hk as [_ Hk]. by eapply create_view_replayed.
Qed.

Lemma or_replay_fresh {A} self tenant operation (r : result CallServiceError A) k w w' res :
  or_replay self tenant operation r k w = (w', Some (Ok res)) → or_replayed res = false →
  ∃ x, r = Ok x ∧ k x w = (w', Some (Ok res)).
Proof using.
  unfold or_replay. destruct r as [x|e]; [by exists x|]. intros Hk%replay_or_error_replayed Hf. congruence.
Qed.

(** The creation a fresh answer reports. *)
Record created_by self (tenant : TenantId) operation (r0 r1 : MemoryRepository)
    (res : CallOperationResult CallView) : Prop := {
  fb_run : ∃ r new_id request stored, rtc other_step r0 r ∧ fresh_ids new_id (mr_state r) ∧
    create_with_plan new_id r request = (r1, Ok (ServiceCreateOutcome.Created stored)) ∧
    create_key (sx_create request) = (tenant, oi_key_digest operation) ∧
    cc_request_digest (sx_create request) = oi_request_digest operation ∧
    create_view self stored false = Ok res;
}.

Lemma commit_creation_fresh self tenant operation aggregate plan principals workers at_ d t w w' res :
  ca_tenant_id aggregate = tenant →
  commit_creation self tenant operation aggregate plan principals workers at_ d t w = (w', Some (Ok res)) →
  or_replayed res = false → created_by self tenant operation (wo_store w) (wo_store w') res.
Proof using All.
  intros Ht Hk Hf. unfold commit_creation in Hk. cbv zeta in Hk.
  apply svc_bind_ok in Hk as (w1 & decided & [-> _]%svc_answer_ok & Hk).
  apply svc_bind_ok in Hk as (w2 & candidates & Hc%(waits_ok _ _ _ _ (candidates_read _ _ _ _ _ _)) & Hk).
  destruct candidates as [|selected alternatives]; [done|].
  apply svc_bind_ok in Hk as (w3 & id & [-> ->]%svc_uuid_ok & Hk).
  apply svc_bind_ok in Hk as (w4 & outcome & (r1 & -> & Hm)%svc_call_ok & Hk).
  destruct outcome as [stored|stored]; apply svc_answer_ok in Hk as [-> Hk];
    [|apply create_view_replayed in Hk; congruence].
  split. eexists _, _, _, stored. split_and!;
    [|apply effect_ids_fresh|exact Hm|cbn; unfold create_key; cbn; by rewrite Ht|done|done].
  etrans; [exact Hc|]. apply other_once.
Qed.

Lemma new_call_tenant tenant legs at_ w w' aggregate :
  new_with_semantics tenant legs at_ w = (w', Some (Ok aggregate)) →
  ca_tenant_id aggregate = tenant ∧ wo_store w' = wo_store w.
Proof using.
  unfold new_with_semantics. intros (w1 & ids & Hi & Hk)%svc_bind_ok. injection Hi as <- <-.
  apply svc_bind_ok in Hk as (w2 & id & [-> ->]%svc_uuid_ok & Hk). apply svc_answer_ok in Hk as [-> Hk].
  split; [|done]. unfold with_ids_and_semantics in Hk. case_bool_decide; [done|].
  destruct (validate _) as [[]|]; [|done]. by injection Hk as <-.
Qed.

Lemma create_new_call_fresh self `{!PlacementReads (cs_placement self)} tenant owner operation legs route at_ w w' res :
  create_new_call self tenant owner operation legs route at_ w = (w', Some (Ok res)) →
  or_replayed res = false → created_by self tenant operation (wo_store w) (wo_store w') res.
Proof using All.
  intros Hk Hf. unfold create_new_call in Hk.
  apply svc_bind_ok in Hk as (w1 & ? & [-> _]%svc_answer_ok & Hk).
  apply svc_bind_ok in Hk as (w1 & setup & [-> _]%svc_answer_ok & Hk).
  apply svc_bind_ok in Hk as (w1 & deadline & [-> _]%svc_answer_ok & Hk).
  apply svc_bind_ok in Hk as (w1 & aggregate & [Ht E1]%new_call_tenant & Hk).
  apply svc_bind_ok in Hk as (w2 & plan & [-> _]%svc_answer_ok & Hk).
  apply svc_bind_ok in Hk as (w2 & t2 & [-> _]%svc_now_ok & Hk).
  apply or_replay_fresh in Hk as (? & _ & Hk); [|done].
  apply svc_bind_ok in Hk as (w3 & o3 & Hw3%(waits_ok _ _ _ _ (waits_timeout _ (resolve_principals_read _ _ _ _ _))) & Hk).
  apply or_replay_fresh in Hk as (principals & _ & Hk); [|done].
  apply svc_bind_ok in Hk as (w4 & t4 & [-> _]%svc_now_ok & Hk).
  apply or_replay_fresh in Hk as (? & _ & Hk); [|done].
  apply svc_bind_ok in Hk as (w5 & o5 & Hw5%(waits_ok _ _ _ _ (waits_timeout _ (placement_reads _ _ _))) & Hk).
  apply or_replay_fresh in Hk as (workers & _ & Hk); [|done].
  apply or_replay_fresh in Hk as (? & _ & Hk); [|done].
  apply svc_bind_ok in Hk as (w6 & t6 & [-> _]%svc_now_ok & Hk).
  apply or_replay_fresh in Hk as (? & _ & Hk); [|done].
  apply commit_creation_fresh in Hk as [(r & n & q & st & Hr & Hp)]; [|done..].
  split. exists r, n, q, st. split; [|exact Hp].
  rewrite <- E1. etrans; [exact Hw3|]. etrans; [exact Hw5|exact Hr].
Qed.

Lemma load_replay_reads self tenant owner key legs route operation at_ :
  waits any (load_replay self tenant owner key legs route operation at_).
Proof using.
  unfold load_replay. apply waits_bind; [apply waits_attempt, waits_query|].
  intros [replay|e]; [apply still_ret|]. destruct e; try apply still_fail.
  destruct (is_some route); [apply still_fail|]. destruct (legacy_create_transcript legs); [|apply still_fail].
  apply waits_bind; [apply waits_attempt, waits_query|intros; apply still_answer].
Qed.

(** What the service derives from a request before it looks anything up. *)
Definition derives self (principal : ApiPrincipal) key (input : CreateCallInput) route (at_ : DateTime)
    (tenant : TenantId) (owner : PrincipalFingerprint) (operation : OperationIdempotency) : Prop :=
  resolve_tenant principal (ci_tenant_id input) Scope.Create at_ = Ok tenant ∧
  (route = None → authorize principal Scope.ArbitraryDestination at_ = Ok ()) ∧
  principal_fingerprint (cs_crypto self) principal = Some owner ∧
  operation = create_operation self tenant owner key (ci_legs input) route.

Lemma create_call_inner_ok self principal key input route w w' res :
  create_call_inner self principal key input route w = (w', Some (Ok res)) →
  ∃ tenant owner operation replay w1,
    derives self principal key input route (ev_now (wo_step w)) tenant owner operation ∧
    load_replay self tenant owner key (ci_legs input) route operation (ev_now (wo_step w)) (tick w)
      = (w1, Some (Ok replay)) ∧
    match replay with
    | Some stored => w' = w1 ∧ create_view self stored true = Ok res
    | None => create_new_call self tenant owner operation (ci_legs input) route (ev_now (wo_step w)) w1
                = (w', Some (Ok res))
    end.
Proof using.
  unfold create_call_inner. intros (w1 & t & [-> ->]%svc_now_ok & Hk)%svc_bind_ok.
  apply svc_bind_ok in Hk as (w1 & tenant & [-> Ht]%svc_answer_ok & Hk).
  apply svc_bind_ok in Hk as (w1 & u & [-> Ha]%svc_answer_ok & Hk).
  apply svc_bind_ok in Hk as (w1 & owner & [-> Ho]%svc_panic_ok & Hk).
  apply svc_bind_ok in Hk as (w1 & replay & Hl & Hk).
  exists tenant, owner, (create_operation self tenant owner key (ci_legs input) route), replay, w1.
  split; [split_and!; [| |done..]|].
  - revert Ht. unfold of_principal. destruct (resolve_tenant _ _ _ _); [|done]. by intros [= ->].
  - intros ->. revert Ha. cbn. unfold of_principal. by destruct (authorize _ _ _) as [[]|].
  - split; [done|]. destruct replay; [by apply svc_answer_ok in Hk|done].
Qed.

(** The answer to a request whose creation the store remembers. *)
Lemma remembered_create self principal key input route w tenant owner operation row stored res :
  store_reachable (wo_store w) →
  derives self principal key input route (ev_now (wo_step w)) tenant owner operation →
  let retry_at := found (tick w) in
  rm_idempotency (mr_state retry_at) !! (tenant, oi_key_digest operation) = Some row →
  create_remembered (mr_state retry_at) (tenant, oi_key_digest operation) row stored →
  ir_request_digest row = oi_request_digest operation → ev_now (wo_step w) < ir_expires_at row →
  create_view self stored false = Ok res →
  create_call_inner self principal key input route w =
    (after retry_at (tick w), Some (Ok {| or_value := or_value res; or_replayed := true |})).
Proof using All.
  intros Hr (Ht & Ha & Ho & ->) retry_at Hrow Hrem Hdig Hexp Hview.
  assert (Hr' : store_reachable retry_at).
  { eapply others_reachable; [exact Hr|]. apply other_once. }
  assert (Hrep : load_create_replay retry_at tenant
    (oi_key_digest (create_operation self tenant owner key (ci_legs input) route))
    (oi_request_digest (create_operation self tenant owner key (ci_legs input) route)) (ev_now (wo_step w))
    = Ok (Some stored)).
  { unfold load_create_replay, read, lock. rewrite (store_lock _ Hr'). cbn [mbind result_bind].
    by apply (remembered_replays _ (tenant, _) row); [apply store_family|..]. }
  unfold create_call_inner, mbind, Svc_bind, now, answer, or_panic. rewrite Ht. cbn [of_principal map_err].
  assert (Ha' : (if is_none route then of_principal (authorize principal Scope.ArbitraryDestination (ev_now (wo_step w)))
                 else Ok ()) = Ok ()).
  { destruct route; [done|]. cbn. by rewrite Ha. }
  rewrite Ha', Ho. cbn [fmap option_fmap option_map].
  unfold load_replay, mbind, Svc_bind, attempt, replay_create, query, call.
  fold (found (tick w)) retry_at. rewrite Hrep. cbn.
  unfold answer. by rewrite create_view_flag, Hview.
Qed.

(** The receipt is there at the first and, if there is one, at the second lookup of a request that
    starts in [w]. *)
Definition retained (w : World) (receipt : RepoMemory.IdempotencyKey) (row : IdempotencyRow) : Prop :=
  let first := found (tick w) in
  rm_idempotency (mr_state first) !! receipt = Some row ∧
  rm_idempotency (mr_state (found (after first (tick w)))) !! receipt = Some row ∧
  ev_now (wo_step w) < ir_expires_at row.

(** A lookup under the digest of another request. *)
Lemma conflicting_replay w tenant operation at_ row :
  store_reachable (wo_store w) →
  rm_idempotency (mr_state (found w)) !! ((tenant, oi_key_digest operation) : RepoMemory.IdempotencyKey) = Some row →
  at_ < ir_expires_at row → oi_request_digest operation ≠ ir_request_digest row →
  attempt (replay_create tenant operation at_) w =
    (after (found w) w, Some (Ok (E := CallServiceError) (Err RepositoryError.IdempotencyConflict))).
Proof using All.
  intros Hr Hrow Hexp Hne. unfold attempt, replay_create, query, call. fold (found w).
  assert (Hl : mr_poisoned (found w) = false).
  { apply store_lock. eapply others_reachable; [exact Hr|]. apply other_once. }
  unfold load_create_replay, read, lock. rewrite Hl. cbn [mbind result_bind].
  unfold load_create_replay_in_state. rewrite Hrow, (proj2 (Z.leb_gt _ _)) by lia.
  rewrite bool_decide_eq_false_2 by congruence. done.
Qed.

Lemma conflicting_create self principal key input route w tenant owner operation row :
  store_reachable (wo_store w) →
  derives self principal key input route (ev_now (wo_step w)) tenant owner operation →
  retained w (tenant, oi_key_digest operation) row →
  oi_request_digest operation ≠ ir_request_digest row →
  (∀ transcript, legacy_create_transcript (ci_legs input) = Some transcript →
     oi_request_digest (operation_idempotency (cs_crypto self) tenant owner key
       ServiceOperationKind.CreateCall None transcript) ≠ ir_request_digest row) →
  (create_call_inner self principal key input route w).2 =
    Some (Err (CallServiceError.Repository RepositoryError.IdempotencyConflict)).
Proof using All.
  intros Hr (Ht & Ha & Ho & ->) (H1st & H2nd & Hexp) Hne Hleg.
  assert (Ha' : (if is_none route then of_principal (authorize principal Scope.ArbitraryDestination (ev_now (wo_step w)))
                 else Ok ()) = Ok ()).
  { destruct route; [done|]. cbn. by rewrite Ha. }
  unfold create_call_inner, mbind, Svc_bind, now. cbn [answer]. unfold answer, or_panic.
  rewrite Ht. cbn [of_principal map_err]. rewrite Ha', Ho. cbn [fmap option_fmap option_map].
  unfold load_replay, mbind, Svc_bind. rewrite (conflicting_replay (tick w) _ _ _ row) by done.
  destruct (is_some route); [done|].
  destruct (legacy_create_transcript (ci_legs input)) as [transcript|]; [|done].
  rewrite (conflicting_replay (after (found (tick w)) (tick w)) _ _ _ row); [done| |exact H2nd|done|by apply Hleg].
  cbn. eapply others_reachable; [exact Hr|]. apply other_once.
Qed.

(** C6. Creating a call is idempotent across the whole service.  Suppose a creation was answered as
    new, and its receipt is still retained when a request with the same key comes, whatever happened
    to the call in between and whatever the other tasks do meanwhile.  If the same principal repeats
    the same request, the answer is the first one, with the same call in the same state and the very
    same attachment tokens, marked as replayed, and nothing is written.  If the request has another
    digest, and another digest in the format of older versions, it is refused as a conflict. *)
Theorem service_creation_is_idempotent self `{!PlacementReads (cs_placement self)} principal key input
    route w w1 res :
  store_reachable (wo_store w) →
  create_call_inner self principal key input route w = (w1, Some (Ok res)) → or_replayed res = false →
  ∃ tenant owner operation row,
    derives self principal key input route (ev_now (wo_step w)) tenant owner operation ∧
    rm_idempotency (mr_state (wo_store w1)) !! (tenant, oi_key_digest operation) = Some row ∧
    ∀ w2, rtc store_step (wo_store w1) (wo_store w2) →
      retained w2 (tenant, oi_key_digest operation) row →
      (derives self principal key input route (ev_now (wo_step w2)) tenant owner operation →
       create_call_inner self principal key input route w2 =
         (after (found (tick w2)) (tick w2),
          Some (Ok {| or_value := or_value res; or_replayed := true |}))) ∧
      (∀ principal' input' route' owner' operation',
         derives self principal' key input' route' (ev_now (wo_step w2)) tenant owner' operation' →
         oi_request_digest operation' ≠ oi_request_digest operation →
         (∀ transcript, legacy_create_transcript (ci_legs input') = Some transcript →
            oi_request_digest (operation_idempotency (cs_crypto self) tenant owner' key
              ServiceOperationKind.CreateCall None transcript) ≠ oi_request_digest operation) →
         (create_call_inner self principal' key input' route' w2).2 =
           Some (Err (CallServiceError.Repository RepositoryError.IdempotencyConflict))).
Proof using All.
  intros Hr Hc Hf.
  destruct (create_call_inner_ok _ _ _ _ _ _ _ _ Hc) as (tenant & owner & operation & replay & w0 & Hd & Hl & Hk).
  destruct replay as [stored|].
  { destruct Hk as [_ Hk%create_view_replayed]. congruence. }
  apply (waits_ok _ _ _ _ (load_replay_reads _ _ _ _ _ _ _ _)) in Hl.
  apply create_new_call_fresh in Hk as [(r & new_id & request & stored & Hrun & Hids & Hcr & Hkey & Hdig & Hview)]; [|done..].
  assert (Hr0 : store_reachable r).
  { eapply others_reachable; [exact Hr|]. etrans; [exact Hl|exact Hrun]. }
  assert (Hr1 : store_reachable (wo_store w1)).
  { unfold store_reachable in *. eapply rtc_r; [exact Hr0|]. right.
    pose proof (step_create_with_plan r new_id request Hids) as Hs. by rewrite Hcr in Hs. }
  destruct (created_remembered _ _ _ _ _ Hr0 Hids Hcr) as (row & Hrow & Hrd & _ & Hrem).
  rewrite Hkey in Hrow, Hrem. rewrite Hdig in Hrd. exists tenant, owner, operation, row.
  split; [done|]. split; [done|]. intros w2 Hrun2 Hret.
  assert (Hr2 : store_reachable (wo_store w2)) by (unfold store_reachable in *; by etrans).
  split.
  - intros Hd2. destruct Hret as (H1st & _ & Hexp). eapply remembered_create; eauto.
    eapply remembered_run; [exact Hr1| |exact Hrem]. etrans; [exact Hrun2|]. apply others_use_methods.
  - intros principal' input' route' owner' operation' Hd' Hne Hleg.
    eapply conflicting_create; [done|exact Hd'| |by rewrite Hrd|by rewrite Hrd].
    destruct Hd as (_ & _ & _ & ->), Hd' as (_ & _ & _ & ->). exact Hret.
Qed.
End Create.

(** The call of the sample flow is created once; the second request gets the same view. *)
Lemma service_creation_is_idempotent_witness :
  ∃ w1 res, create_run = (w1, Some (Ok res)) ∧
  (@create_call_inner auth_types_sample auth_core_sample hashing_sample base64_sample chrono_sample
     chrono_unix_sample libs_sample alone sample_service caller (str "key-1") call_input None w1).2
  = Some (Ok {| or_value := or_value res; or_replayed := true |}).
Proof.
  destruct create_run_answer as (res & E & Hf). destruct create_run as [w1 o] eqn:Er. cbn in E. subst o.
  exists w1, res. split; [reflexivity|].
  pose proof (f_equal fst Er : create_run.1 = w1) as Hw.
  destruct (@service_creation_is_idempotent auth_types_sample auth_core_sample hashing_sample base64_sample
    chrono_sample chrono_unix_sample libs_sample json_sample alone alone_laws sample_service
    (repository_reads RepositoryWorkerPlacement_new) caller (str "key-1") call_input None opened w1 res
    store_enrolled Er Hf) as (tenant & owner & operation & row & Hd & Hrow & Hk).
  destruct (Hk w1 (rtc_refl _ _)) as [Hsame _].
  - split; [exact Hrow|]. split; [exact Hrow|]. clear Hk.
    destruct Hd as (Ht & _ & Ho & ->). vm_compute in Ht. injection Ht as <-. vm_compute in Ho. injection Ho as <-.
    match type of Hrow with _ !! ?receipt = _ =>
      assert (Hx : is_none_or (λ row, @ev_now alone (wo_step create_run.1) <? ir_expires_at row)
        (rm_idempotency (mr_state (wo_store create_run.1)) !! receipt) = true) by (vm_compute; reflexivity)
    end.
    rewrite Hw, Hrow in Hx. apply Z.ltb_lt. exact Hx.
  - refine (f_equal snd (Hsame _)). destruct Hd as (Ht & Ha & Ho & Eo).
    split; [exact Ht|]. split; [intros _; reflexivity|]. split; [exact Ho|exact Eo].
Defined.
