(* ===== verification/TranscriptThms.v ===== *)
(** A transcript stands for one request: what the call service hashes for the idempotency of an
    operation ([create_transcript], [push_named_route], [legacy_create_transcript],
    [transfer_transcript], [replacement_transcript], [dtmf_transcript]) is read back field by field,
    so two requests with the same text are the same request. *)

From S2P Require Import Prelude RustText DomainTypes CoordModel Domain RepoTypes ServiceTypes.
From S2P Require Import RepoMemory RepoCatalog Context ContextThms PlanModel ServiceReconcile ServiceWorld.
From S2P Require Import Principal PrincipalThms ControlCrypto CryptoThms.
From S2P Require Import ServiceApi ServicePlacement ServiceOperations ServiceCalls.
From stdpp Require Import options.

(** ** Reading fields back *)

#[local] Opaque field be_bytes bytes str.

(** A Rust string: scalar values, of a length a 64-bit counter holds. *)
Definition text (s : rstr) : Prop := scalars s ∧ fits (bytes s).

Lemma text_app_inj s s' r r' :
  text s → text s' → field (bytes s) ++ r = field (bytes s') ++ r' → s = s' ∧ r = r'.
Proof.
  intros [? ?] [? ?] E. apply field_app_inj in E as [E ->]; [|done..]. by apply bytes_inj in E as ->.
Qed.

Definition small (v : Z) : Prop := 0 ≤ v < 2 ^ 64.

Lemma u64_app_inj v v' r r' :
  small v → small v' → be_bytes 8 v ++ r = be_bytes 8 v' ++ r' → v = v' ∧ r = r'.
Proof. intros ? ? [E ->]%be_bytes_app_inj. by apply be_bytes_inj in E. Qed.

Lemma uuid_app_inj u u' r r' :
  uuid_ok u → uuid_ok u' → field (uuid_bytes u) ++ r = field (uuid_bytes u') ++ r' → u = u' ∧ r = r'.
Proof.
  intros ? ? E. apply field_app_inj in E as [E ->]; [|apply uuid_fits..]. by apply uuid_bytes_inj in E.
Qed.

(** What [write] appends determines the [meaning] of a well-formed value, whatever follows. *)
Definition determines {A B} (ok : A → Prop) (meaning : A → B) (write : A → list Z) : Prop :=
  ∀ x y r r', ok x → ok y → write x ++ r = write y ++ r' → meaning x = meaning y ∧ r = r'.

Definition optional_field (o : option rstr) : list Z :=
  match o with Some s => 1 :: field (bytes s) | None => [0] end.

Lemma push_optional_str_app t o : push_optional_str t o = t ++ optional_field o.
Proof.
  unfold push_optional_str, push_str, optional_field. destruct o; [|done]. by rewrite <- app_assoc.
Qed.

Lemma optional_determines : determines (from_option text True) id optional_field.
Proof.
  intros [s|] [s'|] r r' Hs Hs' E; cbn in *; try done; apply (inj2 cons) in E as [_ E]; [|by subst].
  by apply text_app_inj in E as [-> ->].
Qed.

(** A counted list of values that are each determined. *)
Lemma list_determines {A B} ok (meaning : A → B) write (l l' : list A) r r' :
  determines ok meaning write → Forall ok l → Forall ok l' → length l = length l' →
  (l ≫= write) ++ r = (l' ≫= write) ++ r' → meaning <$> l = meaning <$> l' ∧ r = r'.
Proof.
  intros Hw Hl. revert l'. induction Hl as [|x l Hx Hl IH]; intros [|y l'] Hl' En E; try done.
  apply Forall_cons in Hl' as [Hy Hl']. cbn in E, En |- *. rewrite <- !app_assoc in E.
  apply Hw in E as [Em E]; [|done..]. apply IH in E as [Eml ->]; [|done|lia]. by rewrite Em, Eml.
Qed.

Definition write_pair (entry : rstr * rstr) : list Z := field (bytes entry.1) ++ field (bytes entry.2).
Definition pair_text (entry : rstr * rstr) : Prop := text entry.1 ∧ text entry.2.

Lemma pair_determines : determines pair_text id write_pair.
Proof.
  intros [k v] [k' v'] r r' [? ?] [? ?] E. unfold write_pair in E. rewrite <- !app_assoc in E.
  apply text_app_inj in E as [Ek E]; [|done..]. apply text_app_inj in E as [Ev ->]; [|done..].
  cbn in *. by subst.
Qed.

(** ** Maps *)

Definition entries_text (m : gmap rstr rstr) : Prop :=
  small (Z.of_nat (size m)) ∧ map_Forall (λ k v, text k ∧ text v) m.

Definition write_entries (m : gmap rstr rstr) : list Z :=
  be_bytes 8 (Z.of_nat (size m)) ++ (btree_entries m ≫= write_pair).

Lemma push_entries_app t m : push_entries t m = t ++ write_entries m.
Proof.
  unfold push_entries, write_entries, push_u64. rewrite app_assoc.
  generalize (t ++ be_bytes 8 (Z.of_nat (size m))), (btree_entries m). intros t' l. revert t'.
  induction l as [|[k v] l IH]; intros t'; cbn; [by rewrite app_nil_r|]. rewrite IH.
  unfold push_str, write_pair. by rewrite <- !app_assoc.
Qed.

Lemma btree_entries_length {V} (m : gmap rstr V) : length (btree_entries m) = size m.
Proof. unfold btree_entries. by rewrite sort_by_perm, length_map_to_list. Qed.

Lemma btree_entries_inj {V} (m m' : gmap rstr V) : btree_entries m = btree_entries m' → m = m'.
Proof.
  intros E. apply map_eq. intros k. apply option_eq. intros v.
  by rewrite <- !btree_entries_lookup, E.
Qed.

Lemma entries_determine : determines entries_text id write_entries.
Proof.
  intros m m' r r' [Hn Hm] [Hn' Hm'] E. unfold write_entries in E. rewrite <- !app_assoc in E.
  apply u64_app_inj in E as [Es E]; [|done..].
  assert (Ht : ∀ n : gmap rstr rstr, map_Forall (λ k v, text k ∧ text v) n →
    Forall pair_text (btree_entries n)).
  { intros n H. apply Forall_forall. intros [k v] Hk%btree_entries_lookup. by apply H. }
  eapply (list_determines _ _ _ _ _ _ _ pair_determines) in E as [E ->]; [|by apply Ht..|].
  - rewrite !list_fmap_id in E. by apply btree_entries_inj in E as ->.
  - rewrite !btree_entries_length. lia.
Qed.

(** ** The automation: normalise a transcript to its fields, then read them off in order *)

Create HintDb transcripts.
Create Rewrite HintDb written.
#[export] Hint Rewrite push_optional_str_app push_entries_app : written.

Lemma push_str_app t s : push_str t s = t ++ field (bytes s).
Proof. done. Qed.
Lemma push_bytes_app t v : push_bytes t v = t ++ field v.
Proof. done. Qed.
Lemma push_u64_app t v : push_u64 t v = t ++ be_bytes 8 v.
Proof. done. Qed.
#[export] Hint Rewrite push_str_app push_bytes_app push_u64_app : written.
#[local] Opaque push_str push_u64 push_bytes push_optional_str push_entries.

Lemma label_text s : bool_decide (text (str s)) = true → text (str s).
Proof. apply bool_decide_eq_true. Qed.

(** The label of each alternative, and that no two alternatives share one. *)
#[export] Instance provider_label_inj : Inj (=) (=) provider_label.
Proof. by intros [] [] ?. Qed.
#[export] Instance direction_label_inj : Inj (=) (=) direction_label.
Proof. by intros [] [] ?. Qed.
#[export] Instance initiator_label_inj : Inj (=) (=) initiator_label.
Proof. by intros [] [] ?. Qed.
#[export] Instance media_flow_label_inj : Inj (=) (=) media_flow_label.
Proof. by intros [] [] ?. Qed.
#[export] Instance initial_context_label_inj : Inj (=) (=) initial_context_label.
Proof. by intros [] [] ?. Qed.
#[export] Instance role_label_inj : Inj (=) (=) role_label.
Proof. by intros [] [] ?. Qed.
#[export] Instance kind_label_inj : Inj (=) (=) kind_label.
Proof. by intros [] [] ?. Qed.

Lemma provider_label_text p : text (provider_label p).
Proof. destruct p; by apply label_text; vm_compute. Qed.
Lemma direction_label_text d : text (direction_label d).
Proof. destruct d; by apply label_text; vm_compute. Qed.
Lemma initiator_label_text i : text (initiator_label i).
Proof. destruct i; by apply label_text; vm_compute. Qed.
Lemma media_flow_label_text f : text (media_flow_label f).
Proof. destruct f; by apply label_text; vm_compute. Qed.
Lemma initial_context_label_text m : text (initial_context_label m).
Proof. destruct m; by apply label_text; vm_compute. Qed.
Lemma role_label_text r : text (role_label r).
Proof. destruct r; by apply label_text; vm_compute. Qed.
Lemma kind_label_text k : text (kind_label k).
Proof. destruct k; by apply label_text; vm_compute. Qed.
#[export] Hint Resolve provider_label_text direction_label_text initiator_label_text
  media_flow_label_text initial_context_label_text role_label_text kind_label_text : transcripts.
#[export] Hint Extern 1 (text (str _)) => apply label_text; vm_compute; reflexivity : transcripts.

(** Normalise, then read one field after the other. *)
Ltac written H := autorewrite with written in H; cbn [app] in H; repeat rewrite <- app_assoc in H;
  cbn [app] in H.
Ltac read_field H :=
  lazymatch type of H with
  | field (bytes ?a) ++ _ = field (bytes ?b) ++ _ =>
      let E := fresh "E" in
      apply text_app_inj in H as [E H]; [|solve [eauto with transcripts]..];
      try (exfalso; vm_compute in E; discriminate E); try apply (inj _) in E
  | optional_field _ ++ _ = _ =>
      let E := fresh "E" in
      apply optional_determines in H as [E H]; [|done..]; unfold id in E
  | write_entries _ ++ _ = _ =>
      let E := fresh "E" in
      apply entries_determine in H as [E H]; [|done..]; unfold id in E
  | be_bytes 8 _ ++ _ = _ =>
      let E := fresh "E" in
      apply u64_app_inj in H as [E H]; [|solve [eauto with transcripts]..]
  | field (uuid_bytes _) ++ _ = _ =>
      let E := fresh "E" in
      apply uuid_app_inj in H as [E H]; [|done..]
  end.
Ltac read H := written H; repeat (read_field H).

(** ** Endpoints, legs and targets *)

Definition endpoint_text (endpoint : LegEndpointConfig) : Prop :=
  match endpoint with
  | LegEndpointConfig.Sip c => from_option text True (se_uri c)
  | LegEndpointConfig.WebRtc c => from_option text True (we_signaling_uri c)
  | LegEndpointConfig.Whip c => from_option text True (wi_endpoint_uri c)
  | LegEndpointConfig.Whep c => from_option text True (wp_endpoint_uri c)
  | LegEndpointConfig.AmazonConnect c => text (ae_instance_id c) ∧ text (ae_contact_flow_id c)
  | LegEndpointConfig.Provider c =>
      text (pc_account_profile c) ∧ from_option text True (pc_destination c)
  end.

Definition write_endpoint := push_endpoint [].

Lemma push_endpoint_app t e : push_endpoint t e = t ++ write_endpoint e.
Proof. unfold write_endpoint. destruct e; cbn; autorewrite with written; by rewrite <- ?app_assoc. Qed.

Lemma endpoint_determines : determines endpoint_text id write_endpoint.
Proof.
  unfold write_endpoint.
  intros e e' r r' He He' E.
  destruct e as [[]|[]|[]|[]|[]|[]], e' as [[]|[]|[]|[]|[]|[]]; cbn in He, He'; destruct_and?;
    cbn in E; read E; by subst.
Qed.

Definition start_text (start : option AmazonConnectStartSpec) : Prop :=
  match start with
  | Some s =>
      text (as_profile s) ∧ text (as_instance_id s) ∧ text (as_contact_flow_id s)
      ∧ text (as_display_name s) ∧ from_option text True (as_description s)
      ∧ entries_text (as_attributes s)
  | None => True
  end.

Definition write_start := push_connect_start [].

Lemma push_connect_start_app t s : push_connect_start t s = t ++ write_start s.
Proof. unfold write_start. destruct s; cbn; autorewrite with written; by rewrite <- ?app_assoc. Qed.

Lemma start_determines : determines start_text id write_start.
Proof.
  unfold write_start.
  intros [[]|] [[]|] r r' Hs Hs' E; cbn in Hs, Hs'; destruct_and?; cbn in E; read E; by subst.
Qed.

Definition leg_text (leg : RequestedLeg) : Prop :=
  endpoint_text (rl_endpoint leg) ∧ start_text (rl_amazon_connect_start leg).

(** What a leg asks for; an initiator left out means the one its direction implies. *)
Definition leg_meaning (leg : RequestedLeg) :=
  (rl_direction leg, resolved_signaling_initiator leg, rl_media_flow leg, rl_endpoint leg,
   rl_amazon_connect_start leg).

#[export] Hint Rewrite push_endpoint_app push_connect_start_app : written.

Definition write_leg := push_leg [].

Lemma push_leg_app t leg : push_leg t leg = t ++ write_leg leg.
Proof. unfold write_leg, push_leg. autorewrite with written. by rewrite <- ?app_assoc. Qed.

Lemma leg_determines : determines leg_text leg_meaning write_leg.
Proof.
  intros leg leg' r r' [? ?] [? ?] E. unfold write_leg, push_leg in E. read E.
  apply endpoint_determines in E as [? E]; [|done..].
  apply start_determines in E as [? E]; [|done..]. unfold leg_meaning, id in *. split; congruence.
Qed.

Definition target_text (target : TransferTarget) : Prop :=
  match target with
  | TransferTarget.Sip uri | TransferTarget.WebRtc uri => text uri
  | TransferTarget.AmazonConnect instance_id contact_flow_id => text instance_id ∧ text contact_flow_id
  | TransferTarget.Provider _ account_profile destination => text account_profile ∧ text destination
  end.

Definition write_target := push_transfer_target [].

Lemma push_transfer_target_app t x : push_transfer_target t x = t ++ write_target x.
Proof. unfold write_target. destruct x; cbn; autorewrite with written; by rewrite <- ?app_assoc. Qed.

Lemma target_determines : determines target_text id write_target.
Proof.
  unfold write_target.
  intros [] [] r r' Ht Ht' E; cbn in Ht, Ht'; destruct_and?; cbn in E; read E; by subst.
Qed.

(** ** Named routes *)

Definition context_text (context : option NamedRouteCallContext) : Prop :=
  from_option (λ c, text (nc_correlation_id c) ∧ entries_text (nc_metadata c)) True context.

Definition route_text (binding : NamedRouteBinding) : Prop :=
  text (nb_route_id binding) ∧ from_option text True (nb_required_sip_correlation_header binding)
  ∧ context_text (nb_context binding).

(** The profiles a route resolves to are the server's and no part of the request. *)
Definition route_meaning (binding : NamedRouteBinding) :=
  (nb_route_id binding, nb_required_sip_correlation_header binding, nb_context binding).

Definition write_route := push_named_route [].

Lemma push_named_route_app t b : push_named_route t b = t ++ write_route b.
Proof.
  unfold write_route, push_named_route. destruct (nb_required_sip_correlation_header b), (nb_context b);
    autorewrite with written; by rewrite <- ?app_assoc.
Qed.

Lemma route_determines : determines route_text route_meaning write_route.
Proof.
  intros [i [[c m]|] p [h|]] [i' [[c' m']|] p' [h'|]] r r' Hr Hr' E;
    unfold route_text, context_text in Hr, Hr'; cbn in Hr, Hr'; destruct_and?;
    unfold write_route, push_named_route in E; cbn in E; read E; unfold route_meaning; cbn; by subst.
Qed.

(** ** The profiles of a replacement route, in their canonical order *)

(** A comparison that is a total order on the values that satisfy [P]. *)
Record orders {A} (P : A → Prop) (cmp : A → A → comparison) : Prop := {
  ord_sym x y : P x → P y → cmp y x = CompOpp (cmp x y);
  ord_eq x y : P x → P y → cmp x y = Eq → x = y;
  ord_trans x y z : P x → P y → P z → cmp x y = Lt → cmp y z = Lt → cmp x z = Lt;
}.

Lemma Z_orders : orders (λ _, True) Z.compare.
Proof.
  split; intros.
  - apply Z.compare_antisym.
  - by apply Z.compare_eq.
  - rewrite Z.compare_lt_iff in *. lia.
Qed.

Lemma orders_refl {A} (P : A → Prop) cmp x : orders P cmp → P x → cmp x x = Eq.
Proof. intros Ho Hx. pose proof (ord_sym P cmp Ho x x Hx Hx). by destruct (cmp x x). Qed.

Lemma bytes_orders : orders (λ _, True) compare_bytes.
Proof.
  split.
  - intros x y _ _. revert y. induction x as [|a x IH]; intros [|b y]; cbn; try done.
    rewrite (Z.compare_antisym a b), IH. by destruct (a ?= b).
  - intros x y _ _. revert y. induction x as [|a x IH]; intros [|b y]; cbn; try done.
    destruct (a ?= b) eqn:E; try done. intros ->%IH. by apply Z.compare_eq in E as ->.
  - intros x y z _ _ _. revert y z. induction x as [|a x IH]; intros [|b y] [|c z]; cbn; try done.
    destruct (a ?= b) eqn:E1, (b ?= c) eqn:E2; try done; cbn;
      rewrite ?Z.compare_eq_iff, ?Z.compare_lt_iff in *; subst; intros.
    + rewrite Z.compare_refl. cbn. eauto.
    + by rewrite (proj2 (Z.compare_lt_iff b c)) by lia.
    + by rewrite (proj2 (Z.compare_lt_iff a c)) by lia.
    + by rewrite (proj2 (Z.compare_lt_iff a c)) by lia.
Qed.

Definition lexicographic {A B} (c : A → A → comparison) (d : B → B → comparison) (x y : A * B)
    : comparison := then_ (c x.1 y.1) (d x.2 y.2).

Lemma lexicographic_orders {A B} P Q (c : A → A → comparison) (d : B → B → comparison) :
  orders P c → orders Q d → orders (λ x, P x.1 ∧ Q x.2) (lexicographic c d).
Proof.
  intros Hc Hd. unfold lexicographic. split.
  - intros [x x'] [y y'] [? ?] [? ?]; cbn in *.
    rewrite (ord_sym P c Hc x y), (ord_sym Q d Hd x' y') by done. by destruct (c x y).
  - intros [x x'] [y y'] [? ?] [? ?]; cbn in *. destruct (c x y) eqn:E; try done. cbn.
    intros E'. apply (ord_eq P c Hc) in E as ->; [|done..].
    by apply (ord_eq Q d Hd) in E' as ->.
  - intros [x x'] [y y'] [z z'] [? ?] [? ?] [? ?]; cbn in *.
    destruct (c x y) eqn:E1, (c y z) eqn:E2; try done; cbn; intros.
    + apply (ord_eq P c Hc) in E1 as ->, E2 as ->; [|done..]. rewrite (orders_refl P) by done.
      by apply (ord_trans Q d Hd x' y' z').
    + apply (ord_eq P c Hc) in E1 as ->; [|done..]. by rewrite E2.
    + apply (ord_eq P c Hc) in E2 as ->; [|done..]. by rewrite E1.
    + by rewrite (ord_trans P c Hc x y z).
Qed.

Lemma pullback_orders {A B} (P : A → Prop) (Q : B → Prop) cmp (f : A → B) :
  orders Q cmp → (∀ x, P x → Q (f x)) → (∀ x y, P x → P y → f x = f y → x = y) →
  orders P (λ x y, cmp (f x) (f y)).
Proof. intros [] Hf Hi. split; eauto. Qed.

Lemma sort_by_canonical {A} (P : A → Prop) cmp (l l' : list A) :
  orders P cmp → Forall P l → l ≡ₚ l' → sort_by cmp l = sort_by cmp l'.
Proof.
  intros Ho Hl Hp. apply (sort_by_unique cmp P); [..|done|done|].
  - intros x y Hx Hy. unfold cmp_le. rewrite (ord_sym P cmp Ho x y) by done.
    destruct (cmp x y); cbn; auto.
  - intros x y z Hx Hy Hz. unfold cmp_le. intros Hxy Hyz.
    destruct (cmp x y) eqn:E1; [|destruct (cmp y z) eqn:E2|]; try done.
    + by apply (ord_eq P cmp Ho) in E1 as ->.
    + apply (ord_eq P cmp Ho) in E2 as <-; [|done..]. by rewrite E1.
    + by rewrite (ord_trans P cmp Ho x y z).
  - intros x y Hx Hy. rewrite Forall_forall in Hl. unfold cmp_le.
    rewrite (ord_sym P cmp Ho x y) by auto.
    destruct (cmp x y) eqn:E; cbn; try done. intros _ _. eapply ord_eq; eauto.
Qed.

Lemma sort_by_length {A} cmp (l : list A) : length (sort_by cmp l) = length l.
Proof. by rewrite sort_by_perm. Qed.

Definition profile_text (p : NamedProfileBinding) : Prop :=
  text (np_profile_id p) ∧ text (np_revision p).

Lemma profiles_ordered : orders profile_text compare_profiles.
Proof.
  pose (f p := (role_index (np_role p), (kind_index (np_kind p),
    (bytes (np_profile_id p), bytes (np_revision p))))).
  pose proof (lexicographic_orders _ _ _ _ Z_orders (lexicographic_orders _ _ _ _ Z_orders
    (lexicographic_orders _ _ _ _ bytes_orders bytes_orders))) as Ho.
  apply (pullback_orders profile_text _ _ f Ho).
  - done.
  - intros [[] [] i v] [[] [] i' v'] [[Hi _] [Hv _]] [[Hi' _] [Hv' _]] E; cbn in *; try done.
    all: unfold f in E; cbn in E; injection E as E1 E2; by apply bytes_inj in E1 as ->, E2 as ->.
Qed.

Definition write_profile := push_profile [].

Lemma push_profile_app t p : push_profile t p = t ++ write_profile p.
Proof. unfold write_profile, push_profile. autorewrite with written. by rewrite <- ?app_assoc. Qed.

Lemma push_profiles_app t l : foldl push_profile t l = t ++ (l ≫= write_profile).
Proof.
  revert t. induction l as [|p l IH]; intros t; cbn; [by rewrite app_nil_r|].
  by rewrite IH, push_profile_app, <- app_assoc.
Qed.

Lemma profile_determines : determines profile_text id write_profile.
Proof.
  intros [] [] r r' [? ?] [? ?] E. unfold write_profile, push_profile in E. cbn in *. read E.
  by subst.
Qed.

Definition replacement_text (b : NamedRouteBinding) : Prop :=
  text (nb_route_id b) ∧ small (Z.of_nat (length (nb_profiles b))) ∧ Forall profile_text (nb_profiles b).

Definition replacement_meaning (b : NamedRouteBinding) :=
  (nb_route_id b, sort_by compare_profiles (nb_profiles b)).

Definition write_replacement := push_replacement_route [].

Lemma push_replacement_route_app t b : push_replacement_route t b = t ++ write_replacement b.
Proof.
  unfold write_replacement, push_replacement_route. rewrite !push_profiles_app.
  autorewrite with written. by rewrite <- ?app_assoc.
Qed.

Lemma replacement_determines : determines replacement_text replacement_meaning write_replacement.
Proof.
  intros b b' r r' (? & Hn & Hl) (? & Hn' & Hl') E. unfold write_replacement, push_replacement_route in E.
  rewrite !push_profiles_app in E. rewrite !sort_by_length in E.
  read E. eapply (list_determines _ _ _ _ _ _ _ profile_determines) in E as [El ->].
  - rewrite !list_fmap_id in El. split; [|done]. unfold replacement_meaning. congruence.
  - by rewrite sort_by_perm.
  - by rewrite sort_by_perm.
  - rewrite !sort_by_length. lia.
Qed.

Lemma same_profiles b b' : replacement_text b → replacement_text b' →
  replacement_meaning b = replacement_meaning b' ↔
  nb_route_id b = nb_route_id b' ∧ nb_profiles b ≡ₚ nb_profiles b'.
Proof.
  intros (_ & _ & Hl) _. unfold replacement_meaning. split.
  - intros E. injection E as Ei E. split; [done|].
    by rewrite <- (sort_by_perm compare_profiles), E, sort_by_perm.
  - intros [-> Hp]. f_equal. by apply (sort_by_canonical _ _ _ _ profiles_ordered).
Qed.

(** ** Requests *)

(** A request as an operation sees it; [Earlier] is the text earlier versions wrote for a creation,
    which a replay may still find. *)
Inductive request :=
| Creation (legs : RequestedLeg * RequestedLeg) (route : option NamedRouteBinding)
| Earlier (legs : RequestedLeg * RequestedLeg)
| Hangup
| Transfer (input : TransferCallInput)
| Replacement (leg_id : LegId) (route : NamedRouteBinding) (destination : list Z)
| Tones (leg_id : LegId) (sequence : DtmfSequence).

Definition request_kind (r : request) : ServiceOperationKind :=
  match r with
  | Creation _ _ | Earlier _ => ServiceOperationKind.CreateCall
  | Hangup => ServiceOperationKind.HangupCall
  | Transfer _ | Replacement _ _ _ => ServiceOperationKind.TransferCall
  | Tones _ _ => ServiceOperationKind.DtmfCall
  end.

Definition request_transcript (r : request) : option CanonicalRequestTranscript :=
  match r with
  | Creation legs None => Some (create_transcript legs)
  | Creation legs (Some route) => Some (push_named_route (create_transcript legs) route)
  | Earlier legs => legacy_create_transcript legs
  | Hangup => Some CanonicalRequestTranscript_new
  | Transfer input => Some (transfer_transcript input)
  | Replacement leg_id route destination => Some (replacement_transcript leg_id route destination)
  | Tones leg_id sequence => Some (dtmf_transcript leg_id sequence)
  end.

(** Rust strings, UUIDs, 16-bit durations. *)
Definition request_ok (r : request) : Prop :=
  match r with
  | Creation legs route => leg_text legs.1 ∧ leg_text legs.2 ∧ from_option route_text True route
  | Earlier legs => leg_text legs.1 ∧ leg_text legs.2
  | Hangup => True
  | Transfer input => uuid_ok (ti_target_leg_id input) ∧ target_text (ti_target input)
  | Replacement leg_id route destination =>
      uuid_ok leg_id ∧ replacement_text route ∧ fits destination
  | Tones leg_id s =>
      uuid_ok leg_id ∧ text (dt_digits s) ∧ (dt_duration_ms s < 2 ^ 16)%N ∧ (dt_gap_ms s < 2 ^ 16)%N
  end.

Definition same_legs (l l' : RequestedLeg * RequestedLeg) : Prop :=
  leg_meaning l.1 = leg_meaning l'.1 ∧ leg_meaning l.2 = leg_meaning l'.2.

Definition same_request (a b : request) : Prop :=
  match a, b with
  | Creation l r, Creation l' r' => same_legs l l' ∧ route_meaning <$> r = route_meaning <$> r'
  | Earlier l, Earlier l' => same_legs l l'
  | Hangup, Hangup => True
  | Transfer i, Transfer i' => ti_target_leg_id i = ti_target_leg_id i' ∧ ti_target i = ti_target i'
  | Replacement l r d, Replacement l' r' d' =>
      l = l' ∧ nb_route_id r = nb_route_id r' ∧ nb_profiles r ≡ₚ nb_profiles r' ∧ d = d'
  | Tones l s, Tones l' s' => l = l' ∧ s = s'
  | _, _ => False
  end.

#[export] Hint Rewrite push_leg_app push_named_route_app push_transfer_target_app
  push_replacement_route_app : written.

Lemma create_transcript_eq legs : create_transcript legs = write_leg legs.1 ++ write_leg legs.2.
Proof. unfold create_transcript, CanonicalRequestTranscript_new. by autorewrite with written. Qed.

Lemma same_legs_transcript l l' : same_legs l l' → create_transcript l = create_transcript l'.
Proof.
  unfold same_legs, leg_meaning. intros [E1 E2]. rewrite !create_transcript_eq.
  unfold write_leg, push_leg. by simplify_eq; f_equal; congruence.
Qed.

Lemma legs_determine l l' r r' :
  leg_text l.1 → leg_text l.2 → leg_text l'.1 → leg_text l'.2 →
  create_transcript l ++ r = create_transcript l' ++ r' → same_legs l l' ∧ r = r'.
Proof.
  intros ? ? ? ? E. rewrite !create_transcript_eq, <- !app_assoc in E.
  apply leg_determines in E as [? E]; [|done..]. by apply leg_determines in E as [? ->].
Qed.

Lemma field_nonempty v r : field v ++ r ≠ [].
Proof.
  intros E%(f_equal length). with_strategy transparent [field] (unfold field in E).
  rewrite !length_app, length_be_bytes in E. cbn in E. lia.
Qed.

(** A route adds something to the text. *)
Lemma write_route_nonempty b : write_route b ≠ [].
Proof.
  unfold write_route, push_named_route. intros E.
  destruct (nb_required_sip_correlation_header b), (nb_context b); written E;
    by apply field_nonempty in E.
Qed.

Lemma creation_determines l r l' r' x :
  request_ok (Creation l r) → request_ok (Creation l' r') →
  request_transcript (Creation l r) = Some x → request_transcript (Creation l' r') = Some x →
  same_request (Creation l r) (Creation l' r').
Proof.
  intros (? & ? & Hr) (? & ? & Hr') E E'.
  assert (Hx : ∀ l r, request_transcript (Creation l r) = Some x →
    x = create_transcript l ++ from_option write_route [] r).
  { intros l0 [b|] E0; cbn in E0; simplify_eq; [apply push_named_route_app|by rewrite app_nil_r]. }
  apply Hx in E as ->. apply Hx in E'. apply legs_determine in E' as [Hl E']; [|done..].
  split; [done|]. destruct r as [b|], r' as [b'|]; cbn in *; [| | |done].
  - apply (app_inv_tail_iff []) in E'. apply route_determines in E' as [-> _]; done.
  - by apply write_route_nonempty in E'.
  - symmetry in E'. by apply write_route_nonempty in E'.
Qed.

(** The text of earlier versions. *)
Lemma legacy_eq l x : legacy_create_transcript l = Some x →
  historical_leg l.1 ∧ historical_leg l.2 ∧
  x = field (bytes (direction_label (rl_direction l.1))) ++ write_endpoint (rl_endpoint l.1)
      ++ field (bytes (direction_label (rl_direction l.2))) ++ write_endpoint (rl_endpoint l.2).
Proof.
  unfold legacy_create_transcript. intros E. destruct (_ && _) eqn:Eh; [|done].
  apply andb_true_iff in Eh as [-> ->]. apply (inj Some) in E as <-.
  unfold CanonicalRequestTranscript_new. autorewrite with written. by rewrite <- !app_assoc.
Qed.

Lemma historical_meaning leg : historical_leg leg →
  leg_meaning leg = (rl_direction leg, initiator_legacy_default (rl_direction leg),
                     MediaFlow.SendReceive, rl_endpoint leg, None).
Proof.
  unfold historical_leg, leg_meaning. intros H%Is_true_true. bool_hyps.
  destruct (rl_amazon_connect_start leg); [done|]. congruence.
Qed.

Lemma earlier_determines l l' x :
  request_ok (Earlier l) → request_ok (Earlier l') →
  legacy_create_transcript l = Some x → legacy_create_transcript l' = Some x → same_legs l l'.
Proof.
  intros [[? _] [? _]] [[? _] [? _]] (Hh & Hk & ->)%legacy_eq (Hh' & Hk' & E)%legacy_eq. read E.
  apply endpoint_determines in E as [? E]; [|done..]. read E.
  apply (app_inv_tail_iff []) in E. apply endpoint_determines in E as [? _]; [|done..].
  split; rewrite !historical_meaning by done; unfold id in *; congruence.
Qed.

(** The second field of a current text names the initiator, that of an earlier one the endpoint. *)
Lemma earlier_is_another l r l' x :
  request_ok (Creation l r) → request_ok (Earlier l') →
  request_transcript (Creation l r) = Some x → legacy_create_transcript l' ≠ Some x.
Proof.
  intros (Hl & _) [[? _] _] E (_ & _ & ->)%legacy_eq.
  assert (∃ rest, field (bytes (direction_label (rl_direction l.1)))
    ++ field (bytes (initiator_label (resolved_signaling_initiator l.1))) ++ rest
    = field (bytes (direction_label (rl_direction l'.1))) ++ write_endpoint (rl_endpoint l'.1)
      ++ field (bytes (direction_label (rl_direction l'.2))) ++ write_endpoint (rl_endpoint l'.2))
    as [rest Er].
  { destruct r as [b|]; apply (inj Some) in E; rewrite <- E; rewrite ?push_named_route_app,
      create_transcript_eq; unfold write_leg, push_leg; autorewrite with written; cbn [app];
      rewrite <- !app_assoc; by eexists. }
  read Er. unfold write_endpoint in Er.
  destruct (resolved_signaling_initiator l.1), (rl_endpoint l'.1); cbn in Er; read Er.
Qed.

Lemma transfer_is_no_replacement input leg route destination :
  request_ok (Transfer input) → uuid_ok leg →
  transfer_transcript input ≠ replacement_transcript leg route destination.
Proof.
  intros [? Ht] ? E. unfold transfer_transcript, replacement_transcript, CanonicalRequestTranscript_new in E.
  read E. unfold write_target in E. destruct (ti_target input); cbn in Ht, E; destruct_and?; read E.
Qed.

Lemma transfer_determines i i' :
  request_ok (Transfer i) → request_ok (Transfer i') →
  transfer_transcript i = transfer_transcript i' → same_request (Transfer i) (Transfer i').
Proof.
  intros [? ?] [? ?] E. unfold transfer_transcript, CanonicalRequestTranscript_new in E. read E.
  apply (app_inv_tail_iff []) in E. by apply target_determines in E as [? _].
Qed.

Lemma replacement_request_determines l r d l' r' d' :
  request_ok (Replacement l r d) → request_ok (Replacement l' r' d') →
  replacement_transcript l r d = replacement_transcript l' r' d' →
  same_request (Replacement l r d) (Replacement l' r' d').
Proof.
  intros (? & Hr & ?) (? & Hr' & ?) E.
  unfold replacement_transcript, CanonicalRequestTranscript_new in E. read E.
  apply replacement_determines in E as [Em E]; [|done..].
  apply (same_profiles _ _ Hr Hr') in Em as [? ?]. by apply field_inj in E as ->.
Qed.

Lemma small_of_u16 n : (n < 2 ^ 16)%N → small (Z.of_N n).
Proof. unfold small. lia. Qed.
#[local] Hint Resolve small_of_u16 : transcripts.

Lemma tones_determine l s l' s' :
  request_ok (Tones l s) → request_ok (Tones l' s') →
  dtmf_transcript l s = dtmf_transcript l' s' → l = l' ∧ s = s'.
Proof.
  intros (? & ? & ? & ?) (? & ? & ? & ?) E. unfold dtmf_transcript, CanonicalRequestTranscript_new in E.
  read E. apply (app_inv_tail_iff []) in E. read E. split; [done|].
  destruct s, s'; cbn in *. f_equal; lia || done.
Qed.

Lemma transcript_determines a b x :
  request_ok a → request_ok b → request_kind a = request_kind b →
  request_transcript a = Some x → request_transcript b = Some x → same_request a b.
Proof.
  intros Ha Hb Hk Ea Eb. destruct a as [l r|l| |i|l r d|l s], b as [l' r'|l'| |i'|l' r' d'|l' s'];
    try done.
  - by eapply creation_determines.
  - by eapply earlier_is_another in Eb.
  - by eapply earlier_is_another in Ea.
  - by eapply earlier_determines.
  - rewrite <- Eb in Ea. apply (inj Some) in Ea. by apply transfer_determines.
  - rewrite <- Eb in Ea. apply (inj Some) in Ea.
    by destruct (transfer_is_no_replacement i l' r' d' Ha (proj1 Hb)).
  - rewrite <- Ea in Eb. apply (inj Some) in Eb.
    by destruct (transfer_is_no_replacement i' l r d Hb (proj1 Ha)).
  - rewrite <- Eb in Ea. apply (inj Some) in Ea. by apply replacement_request_determines.
  - rewrite <- Eb in Ea. apply (inj Some) in Ea. by apply tones_determine.
Qed.

Lemma historical_same leg leg' : leg_meaning leg = leg_meaning leg' → historical_leg leg = historical_leg leg'.
Proof.
  unfold leg_meaning. intros E. injection E as Ed Ei Em Ee Es. unfold historical_leg.
  by rewrite Ed, Ei, Em, Ee, Es.
Qed.

Lemma same_transcript a b :
  request_ok a → request_ok b → same_request a b →
  request_kind a = request_kind b ∧ request_transcript a = request_transcript b.
Proof.
  intros Ha Hb E. destruct a as [l r|l| |i|l r d|l s], b as [l' r'|l'| |i'|l' r' d'|l' s']; try done;
    (split; [done|]); cbn [request_transcript].
  - destruct E as [El Er]. rewrite (same_legs_transcript l l') by done.
    destruct r as [b|], r' as [b'|]; cbn in Er; try done. apply (inj Some) in Er.
    unfold route_meaning in Er. injection Er as Ei Eh Ec. unfold push_named_route. by rewrite Ei, Eh, Ec.
  - destruct E as [E1 E2]. unfold legacy_create_transcript.
    rewrite (historical_same _ _ E1), (historical_same _ _ E2).
    unfold leg_meaning in E1, E2. by simplify_eq; destruct (_ && _); [f_equal; congruence|].
  - destruct E as [El Et]. unfold transfer_transcript. by rewrite El, Et.
  - destruct Ha as (_ & Hr & _), Hb as (_ & Hr' & _). destruct E as (-> & Ei & Hp & ->).
    unfold replacement_transcript. rewrite !push_replacement_route_app.
    assert (Em : replacement_meaning r = replacement_meaning r') by (by apply same_profiles).
    unfold replacement_meaning in Em. injection Em as _ Es.
    unfold write_replacement, push_replacement_route. by rewrite Ei, Es.
  - by destruct E as [-> ->].
Qed.

Section Text.
Context `{AuthCore, ChronoUnix}.

(** C11. The text whose digest stands for a request in the idempotency records of the service
    identifies the request.  Two well-formed requests, of whatever tenants, principals, operations
    and calls, have the same text exactly when tenant, principal and call are equal and the requests
    ask for the same: the same two legs (an initiator left out meaning the one of the direction)
    with the same route, header and context; the same transfer; the same replacement route up to the
    order of its profiles, and the same destination; the same tones.  In particular a transfer and a
    replacement, which share their operation kind, never have the same text, nor do a creation with
    and one without a named route, and no text of a creation of earlier versions is the text of a
    current one. *)
Theorem request_text_identifies_request t p c a x t' p' c' b y :
  request_ok a → request_ok b → request_transcript a = Some x → request_transcript b = Some y →
  authenticated_ok (ARequest t p (request_kind a) c x) →
  authenticated_ok (ARequest t' p' (request_kind b) c' y) →
  request_input t p (request_kind a) c x = request_input t' p' (request_kind b) c' y ↔
  t = t' ∧ p = p' ∧ c = c' ∧ same_request a b.
Proof.
  intros Ha Hb Ex Ey Hx Hy. split.
  - intros E. apply request_input_inj in E; [|done..]. injection E as -> -> Ek -> ->.
    split_and!; try done. by eapply transcript_determines.
  - intros (-> & -> & -> & Hs). destruct (same_transcript a b Ha Hb Hs) as [-> Et].
    rewrite Ex, Ey in Et. by apply (inj Some) in Et as ->.
Qed.
End Text.

(** ** Examples *)

Definition phone (initiator : option SignalingInitiator) (uri : string) : RequestedLeg :=
  {| rl_direction := LegDirection.Outbound; rl_signaling_initiator := initiator;
     rl_media_flow := MediaFlow.SendReceive;
     rl_endpoint := LegEndpointConfig.Sip
       {| se_uri := Some (str uri); se_initial_context := SipInitialContextMode.None_ |};
     rl_amazon_connect_start := None |}.

Definition phones (initiator : option SignalingInitiator) : request :=
  Creation (phone initiator "sip:a@example.com", phone initiator "sip:b@example.com") None.

Definition sales (reversed : bool) : NamedRouteBinding :=
  let profiles :=
    [{| np_role := NamedProfileRole.Ingress; np_kind := NamedProfileKind.SipIngress;
        np_profile_id := str "carrier"; np_revision := str "3" |};
     {| np_role := NamedProfileRole.Destination; np_kind := NamedProfileKind.Sip;
        np_profile_id := str "sales"; np_revision := str "1" |}] in
  {| nb_route_id := str "sales"; nb_context := None;
     nb_profiles := if reversed then rev profiles else profiles;
     nb_required_sip_correlation_header := None |}.

Ltac concrete := cbn; repeat (split || constructor); try (apply (bool_decide_unpack _); by vm_compute).

(** A direction's own initiator may be left out, and profiles may come in any order; a transfer is
    never taken for a replacement. *)
Lemma request_text_identifies_request_witness :
  let text_of r := request_input (str "acme") 5 (request_kind r) (Some 7) <$> request_transcript r in
  text_of (phones None) = text_of (phones (Some SignalingInitiator.Bridgefu)) ∧
  text_of (Replacement 3 (sales true) [1]) = text_of (Replacement 3 (sales false) [1]) ∧
  text_of (Transfer {| ti_tenant_id := None; ti_target_leg_id := 3;
                       ti_target := TransferTarget.Sip (str "sip:c@example.com") |})
    ≠ text_of (Replacement 3 (sales false) [1]).
Proof.
  intros text_of. split_and!.
  - apply (f_equal Some).
    apply (@request_text_identifies_request auth_types_sample); try reflexivity; concrete.
  - apply (f_equal Some).
    apply (@request_text_identifies_request auth_types_sample); try reflexivity; concrete.
  - intros E. apply (inj Some) in E.
    eapply (@request_text_identifies_request auth_types_sample (str "acme") 5 (Some 7) (Transfer _)
      _ (str "acme") 5 (Some 7) (Replacement 3 (sales false) [1])) in E;
      [by destruct E as (_ & _ & _ & [])|try reflexivity; concrete..].
Defined.
