(* ===== verification/CommandThms.v ===== *)
(** The commands of the service on a call it owns ([ServiceCalls]: hangup, transfer, replacement of a
    leg, DTMF): who may give them, what they do to the store, and what a retry is answered with. *)

From S2P Require Import Prelude RustText DomainTypes CoordModel Domain DomainInv DomainSafety.
From S2P Require Import RepoTypes ServiceTypes RepoMemory RepoClaims Context PlanModel.
From S2P Require Import ServiceCommands ServiceMemory ServiceReconcile RepoFrame RepoCommit RepoInv RepoEffects.
From S2P Require Import ServiceEffects RepoTheorems ServiceBirths ServiceWorld.
From S2P Require Import Principal PrincipalThms ControlCrypto ServiceApi ServicePlacement PlacementThms.
From S2P Require Import ServiceOperations ServiceCalls CreateThms.
From S2P Require Import ServiceSample ServiceFlow CryptoThms.
From stdpp Require Import options.

(** ** Only the row of the call itself is written *)

Definition elsewhere (call_id : CallId) (s s' : MemoryState) : Prop :=
  ∀ id, id ≠ call_id → rm_calls s' !! id = rm_calls s !! id.

#[export] Instance elsewhere_preorder call_id : PreOrder (elsewhere call_id).
Proof. split; [by intros s id Hid|]. intros s1 s2 s3 E1 E2 id Hid. by rewrite E2, E1. Qed.

Lemma elsewhere_same call_id s s' : rm_calls s' = rm_calls s → elsewhere call_id s s'.
Proof. intros E id _. by rewrite E. Qed.

Section Frames.
Context {chrono : Chrono} {libs : ServiceLibs}.

Lemma retain_calls s t id claim receipt at_ s' :
  retain_optional s t id claim receipt at_ = Ok s' → rm_calls s' = rm_calls s.
Proof using.
  destruct claim as [o|]; cbn; [|by intros [= <-]]. unfold retain_operation_receipt. intros H.
  apply result_bind_ok in H as (exp & _ & H). cbv zeta in H. by apply bind_reject_ok in H as [_ [= <-]].
Qed.

Lemma service_rows_elsewhere request core s out s' :
  service_command_rows request core s = Ok (out, s') →
  elsewhere (ct_call_id (st_command request)) s s'.
Proof using.
  unfold service_command_rows. intros H. cbv zeta in H.
  apply result_bind_ok in H as (s1 & H1 & H). apply result_bind_ok in H as ([core' s2] & H2 & H).
  cbn [fst snd] in H.
  apply result_bind_ok in H as (payloads & _ & H). apply bind_reject_ok in H as [_ H].
  apply result_bind_ok in H as (s3 & (p & -> & Hp)%insert_payloads_ok & H).
  apply result_bind_ok in H as (s4 & H4%retain_calls & [= _ <-]).
  transitivity s1.
  { unfold apply_replacement_connection in H1. destruct (st_replacement_connection request); [|by simplify_eq].
    cbv zeta in H1. apply result_bind_ok in H1 as (c & _ & [= <-]). intros id Hid. cbn.
    by rewrite lookup_insert_ne. }
  apply elsewhere_same.
  assert (E2 : rm_calls s2 = rm_calls s1).
  { unfold refresh_promoted in H2. destruct (st_replacement_connection request); [|by simplify_eq].
    cbv zeta in H2. apply result_bind_ok in H2 as (c & _ & H2). by apply result_bind_ok in H2 as (row & _ & [= _ <-]). }
  rewrite H4. by destruct (st_media_activity request).
Qed.

Lemma replay_service_calls request s o s' :
  replay_service_operation request s = Ok (o, s') → rm_calls s' = rm_calls s.
Proof using. by intros (i & ret & -> & _)%replay_service_ok. Qed.

Lemma commit_service_elsewhere new_id request allow s out s' :
  capacity_ok s → commit_service_command_in_state new_id request allow s = Ok (out, s') →
  elsewhere (ct_call_id (st_command request)) s s'.
Proof using.
  intros Hok H. unfold commit_service_command_in_state in H. cbv zeta in H.
  apply bind_reject_ok in H as [_ H]. apply result_bind_ok in H as ([o s1] & H1 & H). cbn [fst snd] in H.
  pose proof H1 as E1. apply replay_service_calls in E1. apply replay_service_ok in H1 as (i & ret & Es & _).
  assert (capacity_ok s1) as Hok1 by (rewrite Es; by apply (capacity_ok_ext s)). clear Es.
  transitivity s1; [by apply elsewhere_same|]. destruct o; [by simplify_eq|]. open_option H.
  { destruct (_ ==? _); [|done]. by injection H as _ <-. }
  apply bind_reject_ok in H as [_ H]. apply bind_reject_ok in H as [_ H].
  apply bind_unit_ok in H as [_ H]. apply bind_unit_ok in H as [_ H].
  apply bind_unit_ok in H as [_ H]. apply result_bind_ok in H as ([o s2] & H2 & H). cbn [fst snd] in H.
  apply commit_command_ok in H2 as [(_ & ? & ? & -> & _)|(c & d & view & -> & G & W)]; [done| |].
  2: { intros c Hc. apply (cy_calls s1 Hok1 _ _ Hc). }
  transitivity s2; [|by eapply service_rows_elsewhere].
  intros id Hid. by rewrite (cw_calls _ _ _ _ _ _ _ W), lookup_insert_ne.
Qed.

Lemma guarded_elsewhere new_id request s out s' :
  capacity_ok s → commit_leg_replacement_with_worker_guard_in_state new_id request s = Ok (out, s') →
  elsewhere (ct_call_id (st_command request)) s s'.
Proof using.
  intros Hok H. unfold commit_leg_replacement_with_worker_guard_in_state in H.
  apply result_bind_ok in H as ([o s1] & H1 & H). cbn [fst snd] in H.
  pose proof H1 as E1. apply replay_service_calls in E1. apply replay_service_ok in H1 as (i & ret & Es & _).
  transitivity s1; [by apply elsewhere_same|]. destruct o; [by simplify_eq|].
  apply bind_unit_ok in H as [_ H]. eapply commit_service_elsewhere; [|exact H].
  rewrite Es. by apply (capacity_ok_ext s).
Qed.

Lemma enqueue_calls new_id request s out s' :
  enqueue_control_in_state new_id request s = Ok (out, s') → rm_calls s' = rm_calls s.
Proof using.
  unfold enqueue_control_in_state. intros H. apply result_bind_ok in H as ([o s1] & H1 & H). cbn [fst snd] in H.
  apply replay_control_ok in H1 as (i & ret & Es & _).
  assert (rm_calls s1 = rm_calls s) as <- by by rewrite Es. clear Es.
  destruct o; [by simplify_eq|]. open_option H; [destruct (_ ==? _); [|done]; by injection H as _ <-|].
  apply bind_reject_ok in H as [_ H]. apply bind_unit_ok in H as [_ H]. apply bind_reject_ok in H as [_ H].
  apply result_bind_ok in H as (c & _ & H). apply result_bind_ok in H as (leg & _ & H).
  do 2 apply bind_reject_ok in H as [_ H]. apply result_bind_ok in H as (b & _ & H).
  do 3 apply bind_reject_ok in H as [_ H]. cbv zeta in H. apply result_bind_ok in H as (q & _ & H).
  apply bind_reject_ok in H as [_ H]. apply result_bind_ok in H as (s2 & H2%retain_calls & [= _ <-]).
  by rewrite H2.
Qed.
End Frames.

(** ** Programs that read and then write at most once *)

Section Settles.
Context `{Chrono, ServiceLibs} {env : Environment} `{!EnvironmentLaws}.

(** The program always answers; when it refuses, it has written nothing; and a success is a last
    step of its own, related by [acts] to the store the others left. *)
Definition settled {E A} (acts : MemoryRepository → MemoryRepository → A → Prop)
    (r0 : MemoryRepository) (o : World * option (result E A)) : Prop :=
  match o with
  | (w', Some (Ok a)) => ∃ r, rtc other_step r0 r ∧ acts r (wo_store w') a
  | (w', Some (Err _)) => rtc other_step r0 (wo_store w')
  | (_, None) => False
  end.

Definition settles {E A} acts (m : Svc E A) : Prop :=
  ∀ w, store_reachable (wo_store w) → settled acts (wo_store w) (m w).

(** A program that always answers and does not write. *)
Definition reads {E A} (m : Svc E A) : Prop := waits any m ∧ ∀ w, (m w).2 ≠ None.

(** Reading. *)
Lemma reads_after {E A B} (m : Svc E A) (f : A → Svc E B) :
  reads m → (∀ w w1 x, m w = (w1, Some (Ok x)) → reads (f x)) → reads (m ≫= f).
Proof using.
  intros [Hm Ha] Hf. split; intros w; [intros _|]; unfold mbind, Svc_bind; specialize (Hm w I);
    specialize (Ha w); destruct (m w) as [w1 [[x|]|]] eqn:Em; try done; cbn in Hm.
  - etrans; [exact Hm|]. by apply (Hf _ _ _ Em).
  - by apply (Hf _ _ _ Em).
Qed.
Lemma reads_bind {E A B} (m : Svc E A) (f : A → Svc E B) :
  reads m → (∀ x, reads (f x)) → reads (m ≫= f).
Proof using. intros Hm Hf. by apply reads_after. Qed.
Lemma reads_ret {E A} (x : A) : reads (E := E) (mret x).
Proof using. split; [apply still_ret|done]. Qed.
Lemma reads_answer {E A} (r : result E A) : reads (answer r).
Proof using. split; [apply still_answer|done]. Qed.
Lemma reads_now {E} : reads (E := E) now.
Proof using. split; [apply still_now|done]. Qed.
Lemma reads_uuid {E} : reads (E := E) new_uuid.
Proof using. split; [apply still_uuid|done]. Qed.
Lemma reads_some {E A} (x : A) : reads (E := E) (or_panic (Some x)).
Proof using. split; [apply still_panic|done]. Qed.
Lemma reads_query {E E' A} (f : E → E') (method : MemoryRepository → result E A) : reads (query f method).
Proof using. split; [apply waits_query|done]. Qed.
Lemma reads_timeout {E E' A} (m : Svc E A) : reads m → reads (timeout (E' := E') m).
Proof using.
  intros [Hm Ha]. split; [by apply waits_timeout|]. intros w. unfold timeout.
  destruct (ev_elapsed _); [done|]. specialize (Ha (tick w)). by destruct (m (tick w)) as [w1 [|]].
Qed.
Lemma settles_after {E A B} acts (m : Svc E A) (f : A → Svc E B) :
  reads m →
  (∀ w w1 x, store_reachable (wo_store w) → m w = (w1, Some (Ok x)) → settles acts (f x)) →
  settles acts (m ≫= f).
Proof using All.
  intros [Hm Ha] Hf w Hr. unfold settled, mbind, Svc_bind. specialize (Hm w I). specialize (Ha w).
  destruct (m w) as [w1 [[x|e]|]] eqn:Em; cbn in *; [|done..].
  specialize (Hf w w1 x Hr Em w1 (others_reachable _ _ Hr Hm)). unfold settled in Hf.
  destruct (f x w1) as [w2 [[a|e]|]]; [|by etrans|done].
  destruct Hf as (r & Hr' & Hacts). exists r. split; [by etrans|done].
Qed.

Lemma settles_bind {E A B} acts (m : Svc E A) (f : A → Svc E B) :
  reads m → (∀ x, settles acts (f x)) → settles acts (m ≫= f).
Proof using All. intros Hm Hf. by apply settles_after. Qed.

Lemma settles_answer {E A B} acts (r : result E A) (f : A → Svc E B) :
  (∀ x, r = Ok x → settles acts (f x)) → settles acts (answer r ≫= f).
Proof using All.
  intros Hf. apply settles_after; [apply reads_answer|].
  intros w w1 x _ [_ Hx]%svc_answer_ok. by apply Hf.
Qed.

Lemma settles_some {E A B} acts (x : A) (f : A → Svc E B) :
  settles acts (f x) → settles acts (or_panic (Some x) ≫= f).
Proof using. intros Hf w Hr. by apply Hf. Qed.

Lemma settles_fail {E A} acts (e : E) : settles acts (fail (A := A) e).
Proof using. intros w Hr. apply rtc_refl. Qed.

(** Map of the answer. *)
Lemma settled_map {E A B} (acts : _ → _ → A → Prop) acts' (m : Svc E A) (g : A → B) w :
  settled acts (wo_store w) (m w) → (∀ r r' a, acts r r' a → acts' r r' (g a)) →
  settled acts' (wo_store w) ((a ← m; mret (g a)) w).
Proof using.
  intros Hm Hg. unfold settled, mbind, Svc_bind in *.
  destruct (m w) as [w1 [[x|e]|]]; [|done..]. cbn. destruct Hm as (r & ? & ?). eauto.
Qed.

Lemma settles_weaken {E A} acts acts' (m : Svc E A) :
  settles acts m → (∀ r r' a, acts r r' a → acts' r r' a) → settles acts' m.
Proof using.
  intros Hm Hg w Hr. specialize (Hm w Hr). unfold settled in *. destruct (m w) as [w1 [[x|e]|]]; [|done..].
  destruct Hm as (r & ? & ?). eauto.
Qed.

(** The last step. *)
Lemma settles_call {E E' A B} acts (f : E → E')
    (method : (nat → EffectId) → MemoryRepository → MemoryRepository * result E A) (k : A → Svc E' B) g :
  refuses_cleanly method → (∀ x, k x = mret (g x)) →
  (∀ new_id r r' x, fresh_ids new_id (mr_state r) → method new_id r = (r', Ok x) → acts r r' (g x)) →
  settles acts (call f method ≫= k).
Proof using All.
  intros Hc Hk Ha w Hr. unfold settled, mbind, Svc_bind, call.
  destruct (method _ _) as [r' [x|e]] eqn:Em; cbn.
  - rewrite Hk. cbn. exists (ev_others (wo_step w) (wo_store w)). split; [apply other_once|].
    eapply Ha; [|exact Em]. apply effect_ids_fresh.
  - apply Hc in Em as ->. apply other_once.
Qed.

(** A retained result, if there is one. *)
Lemma settles_replay {E E' A B} acts (f : E → E') (method : MemoryRepository → result E (option A))
    (g : A → B) (k : Svc E' B) :
  (∀ r x, store_reachable r → method r = Ok (Some x) → acts r r (g x)) → settles acts k →
  settles acts (replay ← query f method;
                match replay with Some x => mret (g x) | None => k end).
Proof using All.
  intros Hg Hk w Hr. unfold settled, mbind, Svc_bind, query, call. cbn [fst snd].
  assert (Ho : rtc other_step (wo_store w) (ev_others (wo_step w) (wo_store w))) by apply other_once.
  pose proof (others_reachable _ _ Hr Ho) as Hr'.
  destruct (method _) as [[x|]|e] eqn:Em; cbn; [|..|done].
  - eexists. split; [exact Ho|]. by apply Hg.
  - specialize (Hk _ (Hr' : store_reachable (wo_store (after (ev_others (wo_step w) (wo_store w)) w)))).
    unfold settled, after in Hk. destruct (k _) as [w2 [[a|e]|]]; cbn in Hk; [|by etrans|done].
    destruct Hk as (r & Hr2 & Ha). exists r. split; [by etrans|done].
Qed.


(** The first reading of the clock. *)
Lemma settles_now {E A} (acts : DateTime → _ → _ → A → Prop) (f : DateTime → Svc E A) w :
  (∀ at_, settles (acts at_) (f at_)) → store_reachable (wo_store w) →
  settled (acts (ev_now (wo_step w))) (wo_store w) ((now ≫= f) w).
Proof using. intros Hf Hr. by apply (Hf (ev_now (wo_step w)) (tick w)). Qed.
End Settles.

(** ** The commands *)

Inductive CallAction :=
| HangUp (tenant_id : option rstr)
| TransferTo (input : TransferCallInput)
| ReplaceLeg (leg_id : LegId) (input : ReplaceLegInput) (destination : RequestedLeg)
    (route : NamedRouteBinding)
| SendTones (input : DtmfCallInput).

Inductive ActionAnswer :=
| Shown (result : CallOperationResult CallView)
| Queued (result : CallOperationResult DtmfAcceptedView).

Definition action_tenant (a : CallAction) : option rstr :=
  match a with
  | HangUp tenant_id => tenant_id
  | TransferTo input => ti_tenant_id input
  | ReplaceLeg _ input _ _ => ri_tenant_id input
  | SendTones input => di_tenant_id input
  end.

Definition action_scope (a : CallAction) : CallScope :=
  match a with
  | HangUp _ => Scope.Hangup
  | TransferTo _ | ReplaceLeg _ _ _ _ => Scope.Transfer
  | SendTones _ => Scope.Dtmf
  end.

Definition action_kind (a : CallAction) : ServiceOperationKind :=
  match a with
  | HangUp _ => ServiceOperationKind.HangupCall
  | TransferTo _ | ReplaceLeg _ _ _ _ => ServiceOperationKind.TransferCall
  | SendTones _ => ServiceOperationKind.DtmfCall
  end.

Definition tones (input : DtmfCallInput) : DtmfSequence :=
  {| dt_digits := di_digits input; dt_duration_ms := di_duration_ms input; dt_gap_ms := di_gap_ms input |}.

Definition outcome_result (outcome : ServiceCommandOutcome) : CallOperationResult CallView :=
  match outcome with
  | ServiceCommandOutcome.Committed view => command_result view false
  | ServiceCommandOutcome.Replayed view => command_result view true
  end.

Definition control_result (outcome : ControlCommandOutcome) : CallOperationResult DtmfAcceptedView :=
  match outcome with
  | ControlCommandOutcome.Enqueued view =>
      {| or_value := DtmfAcceptedView_from_control view; or_replayed := false |}
  | ControlCommandOutcome.Replayed view =>
      {| or_value := DtmfAcceptedView_from_control view; or_replayed := true |}
  end.

Section Commands.
Context `{AuthCore, Hashing, Base64, Chrono, ChronoUnix, ServiceLibs, DestinationJson}.
Context `{!AuthLaws} {env : Environment} `{!EnvironmentLaws}.
Implicit Types (self : CallService) (principal : ApiPrincipal).

Definition run_action self principal (call_id : CallId) (key : ControlCrypto.IdempotencyKey)
    (a : CallAction) : Svc CallServiceError ActionAnswer :=
  match a with
  | HangUp tenant_id => r ← hangup_call self principal call_id key tenant_id; mret (Shown r)
  | TransferTo input => r ← transfer_call self principal call_id key input; mret (Shown r)
  | ReplaceLeg leg_id input destination route =>
      r ← replace_leg self principal call_id leg_id key input destination route; mret (Shown r)
  | SendTones input => r ← send_dtmf self principal call_id key input; mret (Queued r)
  end.

Definition action_transcript (a : CallAction) : option CanonicalRequestTranscript :=
  match a with
  | HangUp _ => Some CanonicalRequestTranscript_new
  | TransferTo input => Some (transfer_transcript input)
  | ReplaceLeg leg_id _ destination route =>
      replacement_transcript leg_id route <$> destination_to_vec destination
  | SendTones input => Some (dtmf_transcript (di_leg_id input) (tones input))
  end.

(** Who gives the command: a principal of the tenant with the scope, and for a destination of the
    caller's choice with that scope too; and what its retries are recognised by. *)
Definition entitled self principal (call_id : CallId) (key : ControlCrypto.IdempotencyKey)
    (a : CallAction) (at_ : DateTime) (tenant : TenantId) (operation : OperationIdempotency) : Prop :=
  resolve_tenant principal (action_tenant a) (action_scope a) at_ = Ok tenant ∧
  (match a with TransferTo _ => authorize principal Scope.ArbitraryDestination at_ = Ok () | _ => True end) ∧
  ∃ fingerprint transcript,
    principal_fingerprint (cs_crypto self) principal = Some fingerprint ∧
    action_transcript a = Some transcript ∧
    operation = operation_idempotency (cs_crypto self) tenant fingerprint key (action_kind a)
                  (Some call_id) transcript.

(** The call as it was read before, in a state that led to [r]. *)
Definition seen (tenant : TenantId) (call_id : CallId) (stored : StoredServiceCall)
    (r : MemoryRepository) : Prop :=
  ∃ r0, load_service_call r0 tenant call_id = Ok stored ∧ rtc other_step r0 r.

(** Who may use the token of a replacement: the provider that calls back, which gets one, or the
    principal itself. *)
Definition replacement_token self principal (tenant : TenantId) (call_id : CallId) (leg_id : LegId)
    (endpoint : LegEndpointConfig) (pending : BindingGeneration) (worker : WorkerLease)
    (at_ : DateTime) (authorized : PrincipalFingerprint) (attachments : list AttachmentIssue) : Prop :=
  ∃ fingerprint, principal_fingerprint (cs_crypto self) principal = Some fingerprint ∧
  if telnyx_endpoint endpoint
  then
    (∃ w1 w2, resolve_attachment_principal self tenant {| ls_leg_id := leg_id; ls_endpoint := endpoint |}
       None fingerprint w1 = (w2, Some (Ok authorized))) ∧
    ∃ token attachment_id,
      attachment_token (cs_crypto self)
        {| tc_tenant := tenant; tc_call_id := call_id; tc_leg_id := leg_id; tc_generation := pending;
           tc_transport := AttachmentTransport.Sip; tc_purpose := AttachmentPurpose.ProviderMedia;
           tc_worker := worker; tc_principal := authorized; tc_created_at := at_ |} = Ok token ∧
      attachments =
        [{| ai_attachment_id := attachment_id; ai_token_digest := dt_digest token;
            ai_purpose := AttachmentPurpose.ProviderMedia; ai_leg_id := leg_id;
            ai_binding_generation := pending; ai_transport := AttachmentTransport.Sip;
            ai_expected_principal := authorized; ai_expires_at := dt_expires_at token |}]
  else authorized = fingerprint ∧ attachments = [].

(** What the requested action is as a command on the call, with the payloads of its effects and the
    tokens it issues. *)
Inductive carries self principal (call_id : CallId) (at_ : DateTime) (tenant : TenantId)
    (stored : StoredServiceCall)
    : CallAction → CallCommand → list ServiceEffectPayloadInput → list AttachmentIssue → Prop :=
| carries_hangup tenant_id deadline :
    checked_deadline at_ (tp_ending (cs_timeouts self)) = Ok deadline →
    carries self principal call_id at_ tenant stored (HangUp tenant_id)
      (BeginEnding at_ (Some deadline) StopLegReason.Requested) [] []
| carries_transfer input leg deadline :
    find_leg (sc_aggregate (sl_call stored)) (ti_target_leg_id input) = Some leg →
    connected_or_held (leg_state leg) = true →
    checked_deadline at_ (tp_transfer (cs_timeouts self)) = Ok deadline →
    carries self principal call_id at_ tenant stored (TransferTo input) (BeginTransfer at_ deadline)
      [{| si_ordinal := 1%N;
          si_payload := ServiceEffectPayload.Transfer (ti_target_leg_id input)
                          (leg_binding_generation leg) (ti_target input) |}] []
| carries_replacement leg_id input destination route leg pending deadline authorized attachments :
    find_leg (sc_aggregate (sl_call stored)) leg_id = Some leg →
    ca_state (sc_aggregate (sl_call stored)) = CallState.Active →
    ca_replacement (sc_aggregate (sl_call stored)) = None →
    leg_state leg = LegState.Connected → signaling_initiator leg = SignalingInitiator.Bridgefu →
    next_replacement_binding_generation leg = Ok pending →
    replacement_token self principal tenant call_id leg_id (rl_endpoint destination) pending
      (wa_lease (sc_assignment (sl_call stored))) at_ authorized attachments →
    checked_deadline at_ (tp_transfer (cs_timeouts self)) = Ok deadline →
    carries self principal call_id at_ tenant stored (ReplaceLeg leg_id input destination route)
      (BeginLegReplacement at_ leg_id (endpoint_kind (rl_endpoint destination)) deadline)
      [{| si_ordinal := 2%N;
          si_payload := ServiceEffectPayload.LegReplacement
            {| lp_leg_id := leg_id;
               lp_previous_binding_generation := leg_binding_generation leg;
               lp_pending_binding_generation := pending; lp_endpoint := rl_endpoint destination;
               lp_amazon_connect_start := rl_amazon_connect_start destination;
               lp_route_id := ri_route_id input; lp_replacement_route := Some route;
               lp_authorization_principal_fingerprint := authorized |} |}] attachments.

(** The transaction: the command at the version and for the worker that were read, under the
    idempotency claim. *)
Definition action_request (call_id : CallId) (at_ : DateTime) (tenant : TenantId)
    (operation : OperationIdempotency) (stored : StoredServiceCall) (command_id : CommandId)
    (command : CallCommand) (payloads : list ServiceEffectPayloadInput)
    (attachments : list AttachmentIssue) : ServiceCommandTransaction :=
  {| st_command :=
       {| ct_tenant_id := tenant; ct_call_id := call_id;
          ct_expected_version := ca_version (sc_aggregate (sl_call stored));
          ct_command_id := command_id; ct_command := command;
          ct_worker := wa_lease (sc_assignment (sl_call stored));
          ct_attachments := attachments; ct_deadline_claim := None; ct_at := at_ |};
     st_effect_payloads := payloads; st_operation_idempotency := Some operation;
     st_bound_connection := None; st_media_activity := None; st_replacement_connection := None |}.

Definition tones_request (call_id : CallId) (at_ : DateTime) (tenant : TenantId)
    (operation : OperationIdempotency) (stored : StoredServiceCall) (command_id : CommandId)
    (leg : Leg) (input : DtmfCallInput) : ControlCommandTransaction :=
  {| nt_command_id := command_id; nt_tenant_id := tenant; nt_call_id := call_id;
     nt_leg_id := di_leg_id input; nt_binding_generation := leg_binding_generation leg;
     nt_worker := wa_lease (sc_assignment (sl_call stored)); nt_intent := Dtmf (tones input);
     nt_at := at_; nt_operation_idempotency := Some operation |}.

(** The last step of a success: the retained result of the same operation, or one transaction on the
    call of the tenant. *)
Inductive acts self principal (call_id : CallId) (a : CallAction) (at_ : DateTime) (tenant : TenantId)
    (operation : OperationIdempotency) (r r' : MemoryRepository) : ActionAnswer → Prop :=
| retained_command view :
    load_service_command_replay r tenant call_id operation at_ = Ok (Some view) → r' = r →
    acts self principal call_id a at_ tenant operation r r' (Shown (command_result view true))
| retained_control view :
    load_control_command_replay r tenant call_id operation at_ = Ok (Some view) → r' = r →
    acts self principal call_id a at_ tenant operation r r'
      (Queued {| or_value := DtmfAcceptedView_from_control view; or_replayed := true |})
| acts_command new_id stored command_id command payloads attachments outcome :
    fresh_ids new_id (mr_state r) → seen tenant call_id stored r →
    allows_assignment (cs_placement self) (sc_assignment (sl_call stored)) = true →
    carries self principal call_id at_ tenant stored a command payloads attachments →
    (let request :=
       action_request call_id at_ tenant operation stored command_id command payloads attachments in
     commit_with_effect_payloads new_id r request = (r', Ok outcome) ∨
     commit_leg_replacement_with_worker_guard new_id r request = (r', Ok outcome)) →
    acts self principal call_id a at_ tenant operation r r' (Shown (outcome_result outcome))
| acts_control input new_id stored command_id leg outcome :
    a = SendTones input → fresh_ids new_id (mr_state r) → seen tenant call_id stored r →
    allows_assignment (cs_placement self) (sc_assignment (sl_call stored)) = true →
    find_leg (sc_aggregate (sl_call stored)) (di_leg_id input) = Some leg →
    enqueue_control new_id r (tones_request call_id at_ tenant operation stored command_id leg input)
      = (r', Ok outcome) →
    acts self principal call_id a at_ tenant operation r r' (Queued (control_result outcome)).

Lemma load_service_call_ok r tenant call_id stored :
  store_reachable r → load_service_call r tenant call_id = Ok stored →
  ca_tenant_id (sc_aggregate (sl_call stored)) = tenant ∧ ca_id (sc_aggregate (sl_call stored)) = call_id.
Proof using.
  intros Hr Hl. unfold load_service_call, read, lock in Hl. rewrite (store_lock _ Hr) in Hl.
  cbn [mbind result_bind] in Hl.
  apply result_bind_ok in Hl as (c & [Hc Ht]%tenant_call_ok & Hl). apply bind_reject_ok in Hl as [_ Hl].
  apply result_bind_ok in Hl as (plan & _ & Hl). apply result_bind_ok in Hl as (att & _ & [= <-]).
  cbn. split; [done|]. apply (cy_calls _ (store_capacity _ Hr) _ _ Hc).
Qed.

Lemma commit_refuses request : refuses_cleanly (λ new_id r, commit_with_effect_payloads new_id r request).
Proof using.
  intros new_id r e r'. unfold commit_with_effect_payloads. destruct (normalize_service_command _); [|congruence].
  by apply (transaction_refuses (λ new_id, commit_service_command_in_state new_id _ _)).
Qed.

Lemma guarded_refuses request :
  refuses_cleanly (λ new_id r, commit_leg_replacement_with_worker_guard new_id r request).
Proof using.
  intros new_id r e r'. unfold commit_leg_replacement_with_worker_guard.
  destruct (normalize_service_command _); [|congruence].
  by apply (transaction_refuses (λ new_id, commit_leg_replacement_with_worker_guard_in_state new_id _)).
Qed.

Lemma enqueue_refuses request : refuses_cleanly (λ new_id r, enqueue_control new_id r request).
Proof using.
  intros new_id r e r'. unfold enqueue_control. destruct (mbind _ _); [|congruence].
  by apply (transaction_refuses (λ new_id, enqueue_control_in_state new_id _)).
Qed.

(** The common end of hangup, transfer and replacement. *)
Lemma commit_state_settles self principal call_id a at_ tenant operation stored command payloads attachments :
  ca_tenant_id (sc_aggregate (sl_call stored)) = tenant →
  ca_id (sc_aggregate (sl_call stored)) = call_id → command_at command = at_ →
  carries self principal call_id at_ tenant stored a command payloads attachments →
  settles (λ r r' res, seen tenant call_id stored r →
             acts self principal call_id a at_ tenant operation r r' (Shown res))
    (commit_state_command_with_attachments self stored command payloads attachments operation).
Proof using All.
  intros Ht Hc Hat Hcar. unfold commit_state_command_with_attachments. cbv zeta. rewrite Ht, Hc, Hat.
  unfold load_command_replay. apply settles_replay.
  { intros r view _ Hv _. by apply retained_command. }
  apply settles_answer. intros _ Hal%reject_if_ok%negb_false_iff.
  apply settles_bind; [apply reads_uuid|]. intros command_id.
  match goal with |- settles _ (call _ (λ new_id store, if ?b then _ else _) ≫= _) => destruct b end.
  - apply (settles_call _ _ _ _ outcome_result); [apply guarded_refuses|by intros []|].
    intros new_id r r' outcome Hf Hm Hs. by eapply acts_command; [exact Hf|..|right; exact Hm].
  - apply (settles_call _ _ _ _ outcome_result); [apply commit_refuses|by intros []|].
    intros new_id r r' outcome Hf Hm Hs. by eapply acts_command; [exact Hf|..|left; exact Hm].
Qed.

Lemma of_principal_ok {A} (r : result ApiPrincipalError A) x : of_principal r = Ok x → r = Ok x.
Proof using. destruct r; [|done]. by intros [= ->]. Qed.

(** The principal was accepted, so it has a fingerprint. *)
Definition accepted principal : Prop := ∃ inner at_, ApiPrincipal_new inner at_ = Ok principal.

Lemma accepted_fingerprint self principal :
  accepted principal → ∃ fingerprint, principal_fingerprint (cs_crypto self) principal = Some fingerprint.
Proof using All.
  intros (inner & at_ & Hp).
  exact (accepted_principal_has_fingerprint _ _ _ (cx_fingerprint_key (cs_crypto self)) Hp).
Qed.

(** The continuation may use that the call was read. *)
Lemma settles_load {A} (acts : _ → _ → A → Prop) tenant call_id k :
  (∀ stored, ca_tenant_id (sc_aggregate (sl_call stored)) = tenant →
     ca_id (sc_aggregate (sl_call stored)) = call_id →
     settles (λ r r' a, seen tenant call_id stored r → acts r r' a) (k stored)) →
  settles acts (stored ← load_owned_call tenant call_id; k stored).
Proof using All.
  intros Hk w Hr. unfold load_owned_call, settled, mbind, Svc_bind, query, call.
  fold (found w). assert (Ho : rtc other_step (wo_store w) (found w)) by apply other_once.
  pose proof (others_reachable _ _ Hr Ho) as Hr1.
  destruct (load_service_call (found w) tenant call_id) as [stored|e] eqn:El; cbn; [|done].
  destruct (load_service_call_ok _ _ _ _ Hr1 El) as [Ht Hc].
  specialize (Hk stored Ht Hc (after (found w) w) Hr1). unfold settled, after in Hk. cbn [wo_store] in Hk.
  destruct (k stored _) as [w' [[a|e]|]]; [|by etrans|done].
  destruct Hk as (r & Hr' & Ha). exists r. split; [by etrans|]. apply Ha. by exists (found w).
Qed.

(** ** Each command *)

Definition does self principal call_id key a at_ (r r' : MemoryRepository) (answer_ : ActionAnswer) : Prop :=
  ∃ tenant operation, entitled self principal call_id key a at_ tenant operation ∧
    acts self principal call_id a at_ tenant operation r r' answer_.

Lemma does_retained_command self principal call_id key a at_ tenant operation r view :
  entitled self principal call_id key a at_ tenant operation →
  load_service_command_replay r tenant call_id operation at_ = Ok (Some view) →
  does self principal call_id key a at_ r r (Shown (command_result view true)).
Proof using. intros He Hv. exists tenant, operation. split; [done|by apply retained_command]. Qed.

Lemma commit_state_does self principal call_id key a at_ tenant operation stored command payloads attachments :
  entitled self principal call_id key a at_ tenant operation →
  ca_tenant_id (sc_aggregate (sl_call stored)) = tenant →
  ca_id (sc_aggregate (sl_call stored)) = call_id → command_at command = at_ →
  carries self principal call_id at_ tenant stored a command payloads attachments →
  settles (λ r r' res, seen tenant call_id stored r → does self principal call_id key a at_ r r' (Shown res))
    (commit_state_command_with_attachments self stored command payloads attachments operation).
Proof using All.
  intros He Ht Hc Hat Hcar. eapply settles_weaken; [by apply commit_state_settles|].
  intros r r' res Ha Hs. exists tenant, operation. split; [done|by apply Ha].
Qed.

(** The common start of the four. *)
Lemma head_settles {A} self principal call_id key a (g : A → ActionAnswer)
    (body : DateTime → TenantId → Svc CallServiceError A) w :
  store_reachable (wo_store w) →
  (∀ at_ tenant, resolve_tenant principal (action_tenant a) (action_scope a) at_ = Ok tenant →
     settles (λ r r' res, does self principal call_id key a at_ r r' (g res)) (body at_ tenant)) →
  settled (does self principal call_id key a (ev_now (wo_step w))) (wo_store w)
    ((res ← (at_ ← now;
             tenant ← answer (of_principal (resolve_tenant principal (action_tenant a) (action_scope a) at_));
             body at_ tenant); mret (g res)) w).
Proof using All.
  intros Hr Hb. eapply settled_map; [|by intros r r' res Ha; exact Ha].
  apply (settles_now (λ at_ r r' res, does self principal call_id key a at_ r r' (g res))); [|done].
  intros at_. apply settles_answer. intros tenant Ht%of_principal_ok. by apply Hb.
Qed.

Lemma hangup_settles self principal call_id key tenant_id w :
  accepted principal → store_reachable (wo_store w) →
  settled (does self principal call_id key (HangUp tenant_id) (ev_now (wo_step w))) (wo_store w)
    (run_action self principal call_id key (HangUp tenant_id) w).
Proof using All.
  intros [fp Hfp]%(accepted_fingerprint self) Hr.
  apply (head_settles self principal call_id key (HangUp tenant_id) Shown); [done|]. intros at_ tenant Ht.
  apply settles_load. intros stored Hst Hsc. rewrite Hfp. apply settles_some. cbv zeta.
  apply settles_answer. intros ending_deadline Hd.
  apply (commit_state_does self principal call_id key (HangUp tenant_id) at_ tenant); try done.
  - split; [done|]. split; [done|]. by exists fp, CanonicalRequestTranscript_new.
  - by constructor.
Qed.

Lemma transfer_settles self principal call_id key input w :
  accepted principal → store_reachable (wo_store w) →
  settled (does self principal call_id key (TransferTo input) (ev_now (wo_step w))) (wo_store w)
    (run_action self principal call_id key (TransferTo input) w).
Proof using All.
  intros [fp Hfp]%(accepted_fingerprint self) Hr.
  apply (head_settles self principal call_id key (TransferTo input) Shown); [done|]. intros at_ tenant Ht.
  apply settles_answer. intros [] Ha%of_principal_ok. rewrite Hfp. apply settles_some. cbv zeta.
  set (op := operation self tenant fp key _ _ _).
  assert (He : entitled self principal call_id key (TransferTo input) at_ tenant op).
  { split; [done|]. split; [done|]. by exists fp, (transfer_transcript input). }
  apply settles_replay; [intros r view _ Hv; by eapply does_retained_command|].
  do 2 (apply settles_answer; intros _ _). apply settles_load. intros stored Hst Hsc.
  apply settles_answer. intros leg Hleg%ok_or_ok. apply settles_answer. intros _ Hst2%reject_if_ok%negb_false_iff.
  apply settles_answer. intros spec _. apply settles_answer. intros _ _.
  apply settles_answer. intros deadline Hdl. apply (commit_state_does _ _ _ _ _ _ tenant); try done.
  by constructor.
Qed.

Lemma resolve_principal_answers self tenant spec route owner :
  reads (resolve_attachment_principal self tenant spec route owner).
Proof using All.
  assert (Hask : ∀ E E' A (f : E → E') (q : nat → result E A), reads (ask f q)) by (by split; [apply ask_reads|]).
  unfold resolve_attachment_principal. cbv zeta. apply reads_bind; [apply Hask|]. intros [p|]; [apply reads_ret|].
  apply reads_bind; [apply Hask|]. intros configured. apply reads_bind; [apply reads_answer|]. intros inner.
  apply reads_bind; [apply reads_now|]. intros at_. apply reads_after; [apply reads_answer|].
  intros w w1 p [_ Hp]%svc_answer_ok. apply reads_bind; [apply reads_answer|]. intros _.
  destruct (ApiPrincipal_new inner at_) as [q|] eqn:Eq; [|done]. injection Hp as ->.
  destruct (accepted_fingerprint self p) as [fp ->]; [by exists inner, at_|]. apply reads_some.
Qed.

Lemma replacement_attachment_reads self tenant call_id leg_id endpoint pending worker fp at_ :
  reads (replacement_attachment self tenant call_id leg_id endpoint pending worker fp at_).
Proof using All.
  unfold replacement_attachment. cbv zeta. destruct (negb _); [apply reads_ret|].
  apply reads_bind; [apply reads_timeout, resolve_principal_answers|]. intros resolved.
  do 2 (apply reads_bind; [apply reads_answer|]; intros ?).
  apply reads_bind; [apply reads_uuid|]. intros id. apply reads_ret.
Qed.

Lemma replacement_attachment_token self principal tenant call_id leg_id endpoint pending worker fp at_
    w w' authorized attachments :
  principal_fingerprint (cs_crypto self) principal = Some fp →
  replacement_attachment self tenant call_id leg_id endpoint pending worker fp at_ w
    = (w', Some (Ok (authorized, attachments))) →
  replacement_token self principal tenant call_id leg_id endpoint pending worker at_ authorized attachments.
Proof using.
  intros Hfp Ha. exists fp. split; [done|]. unfold replacement_attachment in Ha.
  destruct (telnyx_endpoint endpoint); cbn [negb] in Ha.
  - cbv zeta in Ha. apply svc_bind_ok in Ha as (w1 & resolved & Hres & Ha).
    apply svc_bind_ok in Ha as (w2 & provider & [-> Hp]%svc_answer_ok & Ha).
    apply svc_bind_ok in Ha as (w2 & token & [-> Ht]%svc_answer_ok & Ha).
    apply svc_bind_ok in Ha as (w2 & aid & _ & [_ [= -> ->]]%svc_ret_ok).
    split; [|exists token, aid; split; [|done]].
    + unfold timeout in Hres. destruct (ev_elapsed _); [injection Hres as _ <-; done|].
      destruct resolved as [o|]; [|done]. cbn in Hp. subst o. exists (tick w).
      destruct (resolve_attachment_principal _ _ _ _ _ (tick w)) as [w3 [o|]]; [|done].
      injection Hres as _ ->. by exists w3.
    + unfold of_crypto in Ht. by destruct (attachment_token _ _); [injection Ht as ->|].
  - by apply svc_ret_ok in Ha as [_ [= -> ->]].
Qed.

Lemma replace_settles self principal call_id key leg_id input destination route w :
  accepted principal → store_reachable (wo_store w) →
  settled (does self principal call_id key (ReplaceLeg leg_id input destination route) (ev_now (wo_step w)))
    (wo_store w) (run_action self principal call_id key (ReplaceLeg leg_id input destination route) w).
Proof using All.
  intros [fp Hfp]%(accepted_fingerprint self) Hr.
  apply (head_settles self principal call_id key (ReplaceLeg leg_id input destination route) Shown); [done|].
  intros at_ tenant Ht. do 2 (apply settles_answer; intros _ _).
  apply settles_answer. intros destination_bytes Hd%ok_or_ok. rewrite Hfp. apply settles_some. cbv zeta.
  set (op := operation self tenant fp key _ _ _).
  assert (He : entitled self principal call_id key (ReplaceLeg leg_id input destination route) at_ tenant op).
  { split; [done|]. split; [done|]. exists fp, (replacement_transcript leg_id route destination_bytes).
    cbn [action_transcript]. by rewrite Hd. }
  apply settles_replay; [intros r view _ Hv; by eapply does_retained_command|].
  apply settles_load. intros stored Hst Hsc. apply settles_answer. intros _ _.
  apply settles_answer. intros _ [Hact Hrep]%reject_if_ok%orb_false_iff.
  apply settles_answer. intros target Htg%ok_or_ok.
  apply settles_answer. intros _ [Hcon Hini]%reject_if_ok%orb_false_iff.
  apply settles_answer. intros pending Hpend.
  apply settles_after; [apply replacement_attachment_reads|]. intros v v1 [authorized attachments] _ Htok.
  apply settles_answer. intros deadline Hdl. bool_hyps. apply (commit_state_does _ _ _ _ _ _ tenant); try done.
  apply carries_replacement; try done.
  - by destruct (ca_replacement _).
  - revert Hpend. destruct (next_replacement_binding_generation target); [by intros [= ->]|done].
  - by eapply replacement_attachment_token.
Qed.

Lemma tones_settle self principal call_id key input w :
  accepted principal → store_reachable (wo_store w) →
  settled (does self principal call_id key (SendTones input) (ev_now (wo_step w))) (wo_store w)
    (run_action self principal call_id key (SendTones input) w).
Proof using All.
  intros [fp Hfp]%(accepted_fingerprint self) Hr.
  apply (head_settles self principal call_id key (SendTones input) Queued); [done|]. intros at_ tenant Ht.
  cbv zeta. apply settles_answer. intros _ _. rewrite Hfp. apply settles_some.
  fold (tones input). set (op := operation self tenant fp key _ _ _).
  assert (He : entitled self principal call_id key (SendTones input) at_ tenant op).
  { split; [done|]. split; [done|]. by exists fp, (dtmf_transcript (di_leg_id input) (tones input)). }
  apply (settles_replay _ _ _ (λ view, {| or_value := DtmfAcceptedView_from_control view; or_replayed := true |})).
  { intros r view _ Hv. exists tenant, op. split; [done|by apply retained_control]. }
  apply settles_load. intros stored Hst Hsc. apply settles_answer. intros _ Hal%reject_if_ok%negb_false_iff.
  apply settles_answer. intros leg Hleg%ok_or_ok. apply settles_bind; [apply reads_uuid|]. intros command_id.
  apply (settles_call _ _ _ _ control_result); [apply enqueue_refuses|by intros []|].
  intros new_id r r' outcome Hf Hm Hs. exists tenant, op. split; [done|].
  by eapply acts_control; [done|exact Hf|exact Hs|..|exact Hm].
Qed.

(** ** The theorem *)

Lemma normalized_same q q' : normalize_service_command q = Ok q' →
  st_command q' = st_command q ∧ st_operation_idempotency q' = st_operation_idempotency q ∧
  st_replacement_connection q' = st_replacement_connection q.
Proof using. unfold normalize_service_command. intros E. inv_ok E. by injection E as <-. Qed.

Lemma acts_step self principal call_id a at_ tenant operation r r' answer_ :
  acts self principal call_id a at_ tenant operation r r' answer_ → rtc store_step r r'.
Proof using.
  intros [view _ ->|view _ ->|n st c k p t o Hf _ _ _ Hm|i n st c l o _ Hf _ _ _ Hm]; [done|done|..];
    apply rtc_once; right.
  - destruct Hm as [Hm|Hm]; [rewrite <- (f_equal fst Hm : _ = r'); by apply step_service_command|
      rewrite <- (f_equal fst Hm : _ = r'); by apply step_guarded_replacement].
  - rewrite <- (f_equal fst Hm : _ = r'). apply step_enqueue_control.
Qed.

(** The last step leaves every other call as it is. *)
Lemma acts_elsewhere self principal call_id a at_ tenant operation r r' answer_ :
  store_reachable r → acts self principal call_id a at_ tenant operation r r' answer_ →
  elsewhere call_id (mr_state r) (mr_state r').
Proof using.
  intros Hr Ha. pose proof (store_capacity _ Hr) as Hok.
  destruct Ha as [view _ ->|view _ ->|n st c k p t o _ _ _ _ Hm|i n st c l o _ _ _ _ _ Hm]; [done|done|..].
  - set (q := action_request _ _ _ _ _ _ _ _ _) in Hm.
    assert (Ec : ct_call_id (st_command q) = call_id) by done. clearbody q. destruct Hm as [Hm|Hm]; [unfold commit_with_effect_payloads in Hm|
      unfold commit_leg_replacement_with_worker_guard in Hm];
      (destruct (normalize_service_command q) as [q'|] eqn:Eq; [|done]);
      destruct (normalized_same _ _ Eq) as (Eq' & _); rewrite <- Ec, <- Eq';
      apply transaction_ok in Hm as (_ & s' & Hm & ->).
    + by eapply commit_service_elsewhere.
    + by eapply guarded_elsewhere.
  - unfold enqueue_control in Hm. destruct (mbind _ _); [|done].
    apply transaction_ok in Hm as (_ & s' & Hm & ->). apply elsewhere_same. by eapply enqueue_calls.
Qed.

Lemma action_settles self principal call_id key a w :
  accepted principal → store_reachable (wo_store w) →
  settled (does self principal call_id key a (ev_now (wo_step w))) (wo_store w)
    (run_action self principal call_id key a w).
Proof using All.
  intros Hp Hr.
  destruct a; [by apply hangup_settles|by apply transfer_settles|by apply replace_settles|by apply tones_settle].
Qed.

End Commands.

(** ** A principal of the sample tenant, and its call with one leg connected *)

Section Sample.
#[local] Existing Instances chrono_sample libs_sample auth_types_sample auth_core_sample
  hashing_sample base64_sample chrono_unix_sample json_sample alone.

Definition owner_identity : AuthenticatedPrincipal :=
  {| ap_subject := str "alice"; ap_tenant := Some (str "tenant");
     ap_scopes := map scope_as_str
       [Scope.Create; Scope.ArbitraryDestination; Scope.Read; Scope.Hangup; Scope.Transfer; Scope.Dtmf];
     ap_issuer := None; ap_expires_at := None; ap_method := method_ApiKey;
     ap_assurance := assurance_Anonymous |}.
Definition owner : ApiPrincipal := {| pr_inner := owner_identity; pr_tenant := str "tenant" |}.

Lemma owner_accepted : accepted owner.
Proof. exists owner_identity, 0. vm_compute. reflexivity. Qed.

Definition in_call : World := {| wo_store := answered; wo_step := 0 |}.

Definition one_digit : CallAction :=
  SendTones {| di_tenant_id := None; di_leg_id := 3; di_digits := str "1"; di_duration_ms := 100%N;
               di_gap_ms := 50%N |}.

Definition digit_run : World * option (result CallServiceError ActionAnswer) :=
  run_action sample_service owner 1 (str "key-7") one_digit in_call.
Definition hangup_run : World * option (result CallServiceError ActionAnswer) :=
  run_action sample_service owner 1 (str "key-9") (HangUp None) in_call.

Lemma digit_run_answer : ∃ answer_, digit_run.2 = Some (Ok answer_).
Proof. vm_compute. by eexists. Qed.
End Sample.

