(* ===== verification/RetryThms.v ===== *)
(** Retries of the service's commands: a command that was carried out leaves a receipt, and as long
    as it is retained the same request is answered with the first answer. *)

From S2P Require Import Prelude RustText DomainTypes CoordModel Domain DomainInv DomainSafety.
From S2P Require Import RepoTypes ServiceTypes RepoMemory RepoClaims Context PlanModel.
From S2P Require Import ServiceCommands ServiceMemory ServiceReconcile RepoFrame RepoCommit RepoInv RepoEffects.
From S2P Require Import ServiceEffects RepoTheorems ServicePlans ServiceWorld.
From S2P Require Import Principal PrincipalThms ControlCrypto ServiceApi ServicePlacement PlacementThms.
From S2P Require Import ServiceOperations ServiceCalls CreateThms CommandThms.
From S2P Require Import ServiceSample ServiceFlow CryptoThms.
From stdpp Require Import options.

Section Receipts.
Context {chrono : Chrono} {libs : ServiceLibs}.

Definition service_claim (row : IdempotencyRow) (call_id : CallId) (o : OperationIdempotency)
    (receipt : OperationIdempotencyReceipt) : Prop :=
  ir_request_digest row = oi_request_digest o ∧ ir_call_id row = call_id ∧ ir_receipt row = receipt.

Lemma retained_receipt s t id o receipt at_ s' :
  retain_optional s t id (Some o) receipt at_ = Ok s' →
  ∃ row, rm_idempotency s' !! ((t, oi_key_digest o) : RepoMemory.IdempotencyKey) = Some row ∧
    service_claim row id o (receipt (oi_operation o)) ∧ idempotency_expiry at_ = Ok (ir_expires_at row).
Proof using.
  cbn. unfold retain_operation_receipt. intros H. apply result_bind_ok in H as (exp & Hexp & H). cbv zeta in H.
  apply bind_reject_ok in H as [_ [= <-]]. eexists. split; [apply lookup_insert_eq|done].
Qed.

Lemma plan_present {V} (m : gmap CallId V) id : contains_key m id = true → is_Some (m !! id).
Proof using. unfold contains_key. by destruct (m !! id). Qed.

(** A call of the service that the tenant owns. *)
Definition serviced (s : MemoryState) (tenant : TenantId) (call_id : CallId) : Prop :=
  is_Some (rm_execution_plans s !! call_id) ∧
  ∃ c, rm_calls s !! call_id = Some c ∧ ca_tenant_id (sc_aggregate c) = tenant.

(** A committed command leaves its receipt. *)
Lemma commit_service_receipt new_id request allow s o view s' :
  let command := st_command request in
  capacity_ok s → st_operation_idempotency request = Some o → st_replacement_connection request = None →
  commit_service_command_in_state new_id request allow s = Ok (ServiceCommandOutcome.Committed view, s') →
  ∃ row, rm_idempotency s' !! ((ct_tenant_id command, oi_key_digest o) : RepoMemory.IdempotencyKey) = Some row ∧
    service_claim row (ct_call_id command) o
      (OperationIdempotencyReceipt.ServiceCommand (oi_operation o) view) ∧
    idempotency_expiry (ct_at command) = Ok (ir_expires_at row) ∧
    sm_tenant_id (cv_command (sv_command view)) = ct_tenant_id command ∧
    sm_call_id (cv_command (sv_command view)) = ct_call_id command ∧
    serviced s (ct_tenant_id command) (ct_call_id command).
Proof using.
  intros command Hok Ho Hn H. unfold commit_service_command_in_state in H. cbv zeta in H. fold command in H.
  apply bind_reject_ok in H as [_ H]. apply result_bind_ok in H as ([q s1] & H1 & H). cbn [fst snd] in H.
  apply replay_service_ok in H1 as (i & ret & Es & Hq).
  assert (capacity_ok s1) as Hok1 by (rewrite Es; by apply (capacity_ok_ext s)).
  assert (rm_execution_plans s1 = rm_execution_plans s ∧ rm_calls s1 = rm_calls s) as [Ep Ek] by by rewrite Es.
  clear Es. destruct q as [outcome|].
  { injection H as -> _. rewrite Ho in Hq. by destruct Hq as [_ [?|[? ?]]]. }
  open_option H; [by destruct (_ ==? _)|].
  apply bind_reject_ok in H as [_ H]. apply bind_reject_ok in H as [Hman H].
  apply orb_false_iff in Hman as [_ Hplan%negb_false_iff]. rewrite Ep in Hplan.
  apply bind_unit_ok in H as [_ H]. apply bind_unit_ok in H as [_ H].
  apply bind_unit_ok in H as [_ H]. apply result_bind_ok in H as ([q s2] & H2 & H). cbn [fst snd] in H.
  apply commit_command_ok in H2 as [(_ & ? & ? & -> & _)|(c & d & core & -> & G & W)]; [done| |].
  2: { intros c Hc. apply (cy_calls s1 Hok1 _ _ Hc). }
  unfold service_command_rows, apply_replacement_connection, refresh_promoted in H. rewrite Hn in H.
  cbv zeta in H. fold command in H. cbn [mbind result_bind fst snd] in H.
  apply result_bind_ok in H as (payloads & _ & H). apply bind_reject_ok in H as [_ H].
  apply result_bind_ok in H as (s3 & _ & H). apply result_bind_ok in H as (s4 & H4 & [= <- <-]).
  rewrite Ho in H4. apply retained_receipt in H4 as (row & Hrow & Hcl & Hexp). exists row.
  split_and!; [done..| | |]; cbn; [by rewrite (cw_view _ _ _ _ _ _ _ W)..|].
  split; [by apply plan_present|]. exists c. rewrite <- Ek. split; apply G.
Qed.

Lemma guarded_receipt new_id request s o view s' :
  let command := st_command request in
  capacity_ok s → st_operation_idempotency request = Some o → st_replacement_connection request = None →
  commit_leg_replacement_with_worker_guard_in_state new_id request s
    = Ok (ServiceCommandOutcome.Committed view, s') →
  ∃ row, rm_idempotency s' !! ((ct_tenant_id command, oi_key_digest o) : RepoMemory.IdempotencyKey) = Some row ∧
    service_claim row (ct_call_id command) o
      (OperationIdempotencyReceipt.ServiceCommand (oi_operation o) view) ∧
    idempotency_expiry (ct_at command) = Ok (ir_expires_at row) ∧
    sm_tenant_id (cv_command (sv_command view)) = ct_tenant_id command ∧
    sm_call_id (cv_command (sv_command view)) = ct_call_id command ∧
    serviced s (ct_tenant_id command) (ct_call_id command).
Proof using.
  intros command Hok Ho Hn H. unfold commit_leg_replacement_with_worker_guard_in_state in H.
  apply result_bind_ok in H as ([q s1] & H1 & H). cbn [fst snd] in H.
  apply replay_service_ok in H1 as (i & ret & Es & Hq).
  assert (capacity_ok s1) as Hok1 by (rewrite Es; by apply (capacity_ok_ext s)).
  destruct q as [outcome|].
  { injection H as -> _. rewrite Ho in Hq. by destruct Hq as [_ [?|[? ?]]]. }
  apply bind_unit_ok in H as [_ H]. eapply commit_service_receipt in H; [|done..]. by rewrite Es in H.
Qed.

Lemma enqueue_receipt new_id request s o view s' :
  nt_operation_idempotency request = Some o →
  enqueue_control_in_state new_id request s = Ok (ControlCommandOutcome.Enqueued view, s') →
  ∃ row, rm_idempotency s' !! ((nt_tenant_id request, oi_key_digest o) : RepoMemory.IdempotencyKey) = Some row ∧
    service_claim row (nt_call_id request) o
      (OperationIdempotencyReceipt.ControlCommand (oi_operation o) view) ∧
    idempotency_expiry (nt_at request) = Ok (ir_expires_at row) ∧
    sn_tenant_id (nv_command view) = nt_tenant_id request ∧ sn_call_id (nv_command view) = nt_call_id request.
Proof using.
  intros Ho H. unfold enqueue_control_in_state in H. apply result_bind_ok in H as ([q s1] & H1 & H).
  cbn [fst snd] in H. destruct q as [outcome|].
  { injection H as -> _. unfold replay_control_operation in H1. rewrite Ho in H1. cbv zeta in H1. inv_ok H1; done. }
  open_option H; [by destruct (_ ==? _)|].
  apply bind_reject_ok in H as [_ H]. apply bind_unit_ok in H as [_ H]. apply bind_reject_ok in H as [_ H].
  apply result_bind_ok in H as (c & _ & H). apply result_bind_ok in H as (leg & _ & H).
  do 2 apply bind_reject_ok in H as [_ H]. apply result_bind_ok in H as (b & _ & H).
  do 3 apply bind_reject_ok in H as [_ H]. cbv zeta in H. apply result_bind_ok in H as (q & _ & H).
  apply bind_reject_ok in H as [_ H]. apply result_bind_ok in H as (s2 & H2 & [= <- <-]).
  rewrite Ho in H2. apply retained_receipt in H2 as (row & Hrow & Hcl & Hexp). exists row. by split_and!.
Qed.
End Receipts.

Section Retries.
Context `{AuthCore, Hashing, Base64, Chrono, ChronoUnix, ServiceLibs, DestinationJson}.
Context `{!AuthLaws} {env : Environment} `{!EnvironmentLaws}.
Implicit Types (self : CallService) (principal : ApiPrincipal).

Definition fresh_answer (answer_ : ActionAnswer) : bool :=
  match answer_ with Shown res => negb (or_replayed res) | Queued res => negb (or_replayed res) end.

Definition as_replayed (answer_ : ActionAnswer) : ActionAnswer :=
  match answer_ with
  | Shown res => Shown {| or_value := or_value res; or_replayed := true |}
  | Queued res => Queued {| or_value := or_value res; or_replayed := true |}
  end.

(** The receipt gives the answer again. *)
Definition answers_again (row : IdempotencyRow) (tenant : TenantId) (call_id : CallId)
    (operation : OperationIdempotency) (answer_ : ActionAnswer) : Prop :=
  match answer_ with
  | Shown _ => ∃ view, service_receipt row tenant call_id operation = Ok view ∧
                       as_replayed answer_ = Shown (command_result view true)
  | Queued _ => ∃ view, control_receipt row tenant call_id operation = Ok view ∧
      as_replayed answer_ = Queued {| or_value := DtmfAcceptedView_from_control view; or_replayed := true |}
  end.

Lemma service_claim_receipt row t id o view :
  service_claim row id o (OperationIdempotencyReceipt.ServiceCommand (oi_operation o) view) →
  sm_tenant_id (cv_command (sv_command view)) = t → sm_call_id (cv_command (sv_command view)) = id →
  service_receipt row t id o = Ok view.
Proof using.
  intros (Hd & Hi & Hr) Ht Hc. unfold service_receipt.
  rewrite Hd, Hi, Hr, Ht, Hc. by rewrite !bool_decide_eq_true_2.
Qed.

Lemma control_claim_receipt row t id o view :
  service_claim row id o (OperationIdempotencyReceipt.ControlCommand (oi_operation o) view) →
  sn_tenant_id (nv_command view) = t → sn_call_id (nv_command view) = id →
  control_receipt row t id o = Ok view.
Proof using.
  intros (Hd & Hi & Hr) Ht Hc. unfold control_receipt.
  rewrite Hd, Hi, Hr, Ht, Hc. by rewrite !bool_decide_eq_true_2.
Qed.

Lemma acts_receipted self principal call_id a at_ tenant operation r r' answer_ :
  store_reachable r → acts self principal call_id a at_ tenant operation r r' answer_ → fresh_answer answer_ = true →
  ∃ row, rm_idempotency (mr_state r') !! ((tenant, oi_key_digest operation) : RepoMemory.IdempotencyKey) = Some row ∧
    idempotency_expiry at_ = Ok (ir_expires_at row) ∧ answers_again row tenant call_id operation answer_ ∧
    (∀ t, a = HangUp t → serviced (mr_state r) tenant call_id).
Proof using.
  intros Hr Ha Hf. pose proof (store_capacity _ Hr) as Hok.
  destruct Ha as [view _ ->|view _ ->|n st c k p t o _ _ _ _ Hm|i n st c l o Ea _ _ _ _ Hm]; [done|done|..].
  - set (q := action_request _ _ _ _ _ _ _ _ _) in Hm.
    assert (ct_tenant_id (st_command q) = tenant ∧ ct_call_id (st_command q) = call_id ∧
      ct_at (st_command q) = at_ ∧ st_operation_idempotency q = Some operation ∧
      st_replacement_connection q = None) as (Et & Ec & Eat & Eo & En) by done. clearbody q. cbv zeta in Hm.
    destruct o as [view|view]; [|done].
    assert (Hrow : ∃ row, rm_idempotency (mr_state r') !!
        ((ct_tenant_id (st_command q), oi_key_digest operation) : RepoMemory.IdempotencyKey) = Some row ∧
      service_claim row (ct_call_id (st_command q)) operation
        (OperationIdempotencyReceipt.ServiceCommand (oi_operation operation) view) ∧
      idempotency_expiry (ct_at (st_command q)) = Ok (ir_expires_at row) ∧
      sm_tenant_id (cv_command (sv_command view)) = ct_tenant_id (st_command q) ∧
      sm_call_id (cv_command (sv_command view)) = ct_call_id (st_command q) ∧
      serviced (mr_state r) (ct_tenant_id (st_command q)) (ct_call_id (st_command q))).
    { destruct Hm as [Hm|Hm]; [unfold commit_with_effect_payloads in Hm|
        unfold commit_leg_replacement_with_worker_guard in Hm];
        (destruct (normalize_service_command q) as [q'|] eqn:Eq; [|done]);
        destruct (normalized_same _ _ Eq) as (<- & Eo' & En');
        apply transaction_ok in Hm as (_ & s' & Hm & ->).
      - eapply commit_service_receipt; [done|by rewrite Eo'|by rewrite En'|exact Hm].
      - eapply guarded_receipt; [done|by rewrite Eo'|by rewrite En'|exact Hm]. }
    destruct Hrow as (row & Hrow & Hcl & Hexp & Ht & Hc & Hs). rewrite Et, Ec, Eat in *.
    exists row. split_and!; [done..| |by intros]. exists view. split; [by apply service_claim_receipt|done].
  - set (q := tones_request _ _ _ _ _ _ _ _) in Hm.
    assert (nt_tenant_id q = tenant ∧ nt_call_id q = call_id ∧ nt_at q = at_ ∧
      nt_operation_idempotency q = Some operation) as (Et & Ec & Eat & Eo) by done. clearbody q.
    destruct o as [view|view]; [|done]. unfold enqueue_control in Hm. destruct (mbind _ _); [|done].
    apply transaction_ok in Hm as (_ & s' & Hm & ->).
    apply (enqueue_receipt _ _ _ _ _ _ Eo) in Hm as (row & Hrow & Hcl & Hexp & Ht & Hc).
    rewrite Et, Ec, Eat in *. exists row. split_and!; [done..| |by rewrite Ea]. exists view.
    split; [by apply control_claim_receipt|done].
Qed.

(** Looking the receipt up. *)
Lemma command_replayed r tenant call_id operation at_ row view :
  store_reachable r →
  rm_idempotency (mr_state r) !! ((tenant, oi_key_digest operation) : RepoMemory.IdempotencyKey) = Some row →
  at_ < ir_expires_at row → service_receipt row tenant call_id operation = Ok view →
  load_service_command_replay r tenant call_id operation at_ = Ok (Some view).
Proof using.
  intros Hr Hrow Hexp Hv. unfold load_service_command_replay, read, lock. rewrite (store_lock _ Hr).
  cbn [mbind result_bind]. rewrite Hrow, (proj2 (Z.leb_gt _ _)) by lia. by rewrite Hv.
Qed.

Lemma control_replayed r tenant call_id operation at_ row view :
  store_reachable r →
  rm_idempotency (mr_state r) !! ((tenant, oi_key_digest operation) : RepoMemory.IdempotencyKey) = Some row →
  at_ < ir_expires_at row → control_receipt row tenant call_id operation = Ok view →
  load_control_command_replay r tenant call_id operation at_ = Ok (Some view).
Proof using.
  intros Hr Hrow Hexp Hv. unfold load_control_command_replay, read, lock. rewrite (store_lock _ Hr).
  cbn [mbind result_bind]. rewrite Hrow, (proj2 (Z.leb_gt _ _)) by lia. by rewrite Hv.
Qed.

(** The checks before the lookup that do not depend on the moment. *)
Definition well_posed (a : CallAction) : Prop :=
  match a with
  | HangUp _ | TransferTo _ => True
  | ReplaceLeg _ input destination route =>
      validate_named_route_destination destination = Ok () ∧
      validate_replacement_destination route (ri_route_id input) (rl_endpoint destination) = Ok ()
  | SendTones input => DtmfSequence_validate (tones input) = Ok ()
  end.

Lemma repository_ok {A} (r : result RepositoryError A) x : repository r = Ok x → r = Ok x.
Proof using. destruct r; [|done]. by intros [= ->]. Qed.

Lemma answered_well_posed self principal call_id key a w w' answer_ :
  run_action self principal call_id key a w = (w', Some (Ok answer_)) → well_posed a.
Proof using.
  destruct a as [t|i|leg i d route|i]; intros Hrun; cbn [well_posed run_action] in *; try done.
  all: apply svc_bind_ok in Hrun as (w1 & res & Hrun & _).
  - apply svc_bind_ok in Hrun as (w2 & at_ & _ & Hrun). apply svc_bind_ok in Hrun as (w3 & tenant & _ & Hrun).
    apply svc_bind_ok in Hrun as (w4 & [] & [_ Hv]%svc_answer_ok & Hrun).
    apply svc_bind_ok in Hrun as (w5 & [] & [_ Hd]%svc_answer_ok & _). split; by apply repository_ok.
  - apply svc_bind_ok in Hrun as (w2 & at_ & _ & Hrun). apply svc_bind_ok in Hrun as (w3 & tenant & _ & Hrun).
    cbv zeta in Hrun. apply svc_bind_ok in Hrun as (w4 & [] & [_ Hv]%svc_answer_ok & _). by apply repository_ok.
Qed.

(** ** The retry of each command *)

Lemma transfer_retried self principal call_id key input w tenant operation view :
  entitled self principal call_id key (TransferTo input) (ev_now (wo_step w)) tenant operation →
  load_service_command_replay (found (tick w)) tenant call_id operation (ev_now (wo_step w)) = Ok (Some view) →
  run_action self principal call_id key (TransferTo input) w =
    (after (found (tick w)) (tick w), Some (Ok (Shown (command_result view true)))).
Proof using.
  intros (Ht & Ha & fp & tr & Hfp & [= <-] & ->) Hl. cbn [run_action].
  unfold transfer_call, mbind, Svc_bind, now, answer, or_panic. cbn [action_tenant action_scope] in Ht.
  rewrite Ht. cbn [of_principal map_err]. rewrite Ha. cbn [of_principal map_err]. rewrite Hfp.
  cbn [fmap option_fmap option_map]. unfold load_command_replay, query, call. fold (found (tick w)).
  unfold operation. cbn [action_kind] in Hl. by rewrite Hl.
Qed.

Lemma replacement_retried self principal call_id key leg input d route w tenant operation view :
  let a := ReplaceLeg leg input d route in
  well_posed a → entitled self principal call_id key a (ev_now (wo_step w)) tenant operation →
  load_service_command_replay (found (tick w)) tenant call_id operation (ev_now (wo_step w)) = Ok (Some view) →
  run_action self principal call_id key a w =
    (after (found (tick w)) (tick w), Some (Ok (Shown (command_result view true)))).
Proof using.
  intros a [Hv1 Hv2] (Ht & _ & fp & tr & Hfp & Htr & ->) Hl. cbn [run_action a].
  unfold replace_leg, mbind, Svc_bind, now, answer, or_panic. cbn [a action_tenant action_scope] in Ht.
  rewrite Ht. cbn [of_principal map_err]. rewrite Hv1, Hv2. cbn [repository map_err].
  cbn [a action_transcript] in Htr. destruct (destination_to_vec d) as [bytes_|]; [|done]. injection Htr as <-.
  cbn [ok_or]. rewrite Hfp. cbn [fmap option_fmap option_map].
  unfold load_command_replay, query, call. fold (found (tick w)). unfold operation.
  cbn [a action_kind] in Hl. by rewrite Hl.
Qed.

Lemma tones_retried self principal call_id key input w tenant operation view :
  well_posed (SendTones input) →
  entitled self principal call_id key (SendTones input) (ev_now (wo_step w)) tenant operation →
  load_control_command_replay (found (tick w)) tenant call_id operation (ev_now (wo_step w)) = Ok (Some view) →
  run_action self principal call_id key (SendTones input) w =
    (after (found (tick w)) (tick w),
     Some (Ok (Queued {| or_value := DtmfAcceptedView_from_control view; or_replayed := true |}))).
Proof using.
  intros Hv (Ht & _ & fp & tr & Hfp & [= <-] & ->) Hl. cbn [run_action].
  unfold send_dtmf, mbind, Svc_bind, now, answer, or_panic. cbn [action_tenant action_scope] in Ht.
  rewrite Ht. cbn [of_principal map_err]. fold (tones input). cbn [well_posed] in Hv. rewrite Hv.
  cbn [repository map_err]. rewrite Hfp. cbn [fmap option_fmap option_map].
  unfold query, call. fold (found (tick w)). unfold operation.
  cbn [action_kind] in Hl. by rewrite Hl.
Qed.

(** A hangup reads the call first. *)
Lemma hangup_retried self principal call_id key t w tenant operation view stored deadline :
  let w1 := after (found (tick w)) (tick w) in
  entitled self principal call_id key (HangUp t) (ev_now (wo_step w)) tenant operation →
  checked_deadline (ev_now (wo_step w)) (tp_ending (cs_timeouts self)) = Ok deadline →
  load_service_call (found (tick w)) tenant call_id = Ok stored →
  ca_tenant_id (sc_aggregate (sl_call stored)) = tenant → ca_id (sc_aggregate (sl_call stored)) = call_id →
  load_service_command_replay (found w1) tenant call_id operation (ev_now (wo_step w)) = Ok (Some view) →
  run_action self principal call_id key (HangUp t) w =
    (after (found w1) w1, Some (Ok (Shown (command_result view true)))).
Proof using.
  intros w1 (Ht & _ & fp & tr & Hfp & [= <-] & ->) Hd Hs Est Esc Hl. cbn [run_action].
  unfold hangup_call, mbind, Svc_bind, now, answer, or_panic. cbn [action_tenant action_scope] in Ht.
  rewrite Ht. cbn [of_principal map_err]. unfold load_owned_call, query, call. fold (found (tick w)).
  rewrite Hs. cbn [map_err]. rewrite Hfp. cbn [fmap option_fmap option_map]. rewrite Hd.
  unfold commit_state_command, commit_state_command_with_attachments, mbind, Svc_bind. cbv zeta.
  rewrite Est, Esc. unfold load_command_replay, query, call.
  change {| wo_store := found (tick w); wo_step := S (wo_step (tick w)) |} with w1. fold (found w1).
  unfold operation. cbn [action_kind command_at] in Hl |- *. by rewrite Hl.
Qed.

(** A retry in a world whose store still has the receipt. *)
Lemma retried self principal call_id key a w tenant operation row answer_ :
  store_reachable (wo_store w) → well_posed a →
  (∀ t, a = HangUp t → ∃ stored, load_service_call (found (tick w)) tenant call_id = Ok stored) →
  (∀ t, a = HangUp t → ∃ d, checked_deadline (ev_now (wo_step w)) (tp_ending (cs_timeouts self)) = Ok d) →
  entitled self principal call_id key a (ev_now (wo_step w)) tenant operation →
  retained w (tenant, oi_key_digest operation) row → answers_again row tenant call_id operation answer_ →
  (match a, answer_ with SendTones _, Queued _ => True | SendTones _, _ | _, Queued _ => False | _, _ => True end) →
  ∃ w', run_action self principal call_id key a w = (w', Some (Ok (as_replayed answer_))) ∧
        rtc other_step (wo_store w) (wo_store w').
Proof using All.
  intros Hr Hw Hload Hd He (H1st & H2nd & Hexp) Hans Hkind.
  assert (Hr1 : store_reachable (found (tick w))) by (eapply others_reachable; [exact Hr|apply other_once]).
  assert (Hr2 : store_reachable (found (after (found (tick w)) (tick w))))
    by (eapply others_reachable; [exact Hr1|apply other_once]).
  destruct answer_ as [res|res]; destruct Hans as (view & Hv & ->).
  - destruct a as [t|i|leg i d route|i]; [| | |done].
    + destruct (Hload t eq_refl) as [stored Hl]. destruct (Hd t eq_refl) as [deadline Hdl].
      destruct (load_service_call_ok _ _ _ _ Hr1 Hl) as [Est Esc]. eexists. split.
      * by eapply hangup_retried; [exact He|exact Hdl|exact Hl|..|by eapply command_replayed].
      * etrans; apply other_once.
    + eexists. split; [eapply transfer_retried; [exact He|by eapply command_replayed]|apply other_once].
    + eexists. split; [eapply replacement_retried; [exact Hw|exact He|by eapply command_replayed]|apply other_once].
  - destruct a as [t|i|leg i d route|i]; [done..|].
    eexists. split; [eapply tones_retried; [exact Hw|exact He|by eapply control_replayed]|apply other_once].
Qed.

(** C8. Commands of the service are idempotent.  When a hangup, transfer, replacement or DTMF request
    was carried out anew, the store keeps a receipt for its operation with the time until which it is
    retained.  As long as it is retained, the same principal repeating the same request under the
    same key, whatever has happened to the call and the store in between and whatever the other tasks
    do meanwhile, gets the first answer again, marked as replayed, and nothing is written for it.
    (A hangup computes its new deadline before it looks for the receipt, so its clock must still
    allow one.) *)
Theorem service_commands_are_idempotent self principal call_id key a w w1 answer_ :
  accepted principal → store_reachable (wo_store w) →
  run_action self principal call_id key a w = (w1, Some (Ok answer_)) → fresh_answer answer_ = true →
  ∃ tenant operation row,
    entitled self principal call_id key a (ev_now (wo_step w)) tenant operation ∧
    rm_idempotency (mr_state (wo_store w1)) !! ((tenant, oi_key_digest operation) : RepoMemory.IdempotencyKey)
      = Some row ∧
    idempotency_expiry (ev_now (wo_step w)) = Ok (ir_expires_at row) ∧
    ∀ w2, rtc store_step (wo_store w1) (wo_store w2) →
      retained w2 (tenant, oi_key_digest operation) row →
      entitled self principal call_id key a (ev_now (wo_step w2)) tenant operation →
      (∀ t, a = HangUp t → ∃ d, checked_deadline (ev_now (wo_step w2)) (tp_ending (cs_timeouts self)) = Ok d) →
      ∃ w3, run_action self principal call_id key a w2 = (w3, Some (Ok (as_replayed answer_))) ∧
            rtc other_step (wo_store w2) (wo_store w3).
Proof using All.
  intros Hp Hr Hrun Hf. pose proof (answered_well_posed _ _ _ _ _ _ _ _ Hrun) as Hw.
  pose proof (action_settles self principal call_id key a w Hp Hr) as Hs. rewrite Hrun in Hs.
  destruct Hs as (r & Ho & tenant & op & He & Ha).
  pose proof (others_reachable _ _ Hr Ho) as Hr0. pose proof (acts_step _ _ _ _ _ _ _ _ _ _ Ha) as Hstep.
  destruct (acts_receipted _ _ _ _ _ _ _ _ _ _ Hr0 Ha Hf) as (row & Hrow & Hexp & Hans & Hsv).
  exists tenant, op, row. split_and!; [done..|]. intros w2 Hrun2 Hret He2 Hd.
  assert (Hr2 : store_reachable (wo_store w2)) by (unfold store_reachable in *; etrans; [|exact Hrun2]; by etrans).
  eapply retried; try done.
  - intros t Et. destruct (Hsv t Et) as ([plan Hplan] & c & Hc & Htc).
    assert (Hall : rtc store_step r (found (tick w2))).
    { etrans; [exact Hstep|]. etrans; [exact Hrun2|]. apply others_use_methods. }
    destruct (readable_run _ _ _ _ _ Hr0 Hall Hc Hplan) as (c' & att & Hsame & Hc' & Hl).
    rewrite Htc in Hl. by eexists.
  - destruct Ha as [v _ _|v _ _|n st c k p t o _ _ _ Hcar _|i n st c l o Ea]; [done|done|by destruct Hcar|by rewrite Ea].
Qed.
End Retries.

(** ** The hangup of the sample, and its retry *)

Lemma hangup_run_answer : ∃ answer_, hangup_run.2 = Some (Ok answer_) ∧ fresh_answer answer_ = true.
Proof. vm_compute. eexists. split; reflexivity. Qed.

Lemma service_commands_are_idempotent_witness :
  ∃ w1 answer_ w3, hangup_run = (w1, Some (Ok answer_)) ∧
    @run_action auth_types_sample auth_core_sample hashing_sample base64_sample chrono_sample
      chrono_unix_sample libs_sample json_sample alone sample_service owner 1 (str "key-9") (HangUp None) w1
    = (w3, Some (Ok (as_replayed answer_))).
Proof.
  destruct hangup_run_answer as (answer_ & E & Hf). destruct hangup_run as [w1 o] eqn:Er. cbn in E. subst o.
  pose proof (f_equal fst Er : hangup_run.1 = w1) as Hw.
  destruct (@service_commands_are_idempotent auth_types_sample auth_core_sample hashing_sample
    base64_sample chrono_sample chrono_unix_sample libs_sample json_sample auth_core_sample_laws alone
    alone_laws sample_service owner 1 (str "key-9") (HangUp None) in_call w1 answer_ owner_accepted
    store_answered Er Hf) as (tenant & op & row & He & Hrow & Hexp & Hk).
  destruct (Hk w1 (rtc_refl _ _)) as (w3 & Hrun & _).
  - split; [exact Hrow|]. split; [exact Hrow|]. clear Hk He Hrow. rewrite <- Hw.
    match type of Hexp with ?e = _ => destruct e as [x|] eqn:Ex; [|discriminate Hexp] end.
    injection Hexp as <-. vm_compute in Ex. injection Ex as <-. vm_compute. reflexivity.
  - destruct He as (Ht & _ & Hop). split; [|split; [exact I|exact Hop]].
    vm_compute in Ht. injection Ht as <-. vm_compute. reflexivity.
  - intros t _. rewrite <- Hw. vm_compute. eexists. reflexivity.
  - exists w1, answer_, w3. split; [reflexivity|exact Hrun].
Defined.
