(* ===== verification/GetThms.v ===== *)
(** A call that the service has created can be read from then on ([get_call]). *)

From S2P Require Import Prelude RustText DomainTypes CoordModel Domain DomainInv DomainSafety.
From S2P Require Import RepoTypes ServiceTypes RepoMemory RepoClaims Context PlanModel.
From S2P Require Import ServiceCommands ServiceMemory ServiceReconcile RepoFrame RepoCommit RepoInv RepoEffects.
From S2P Require Import ServiceEffects RepoTheorems ServicePlans ServiceBirths ServiceWorld.
From S2P Require Import Principal PrincipalThms ControlCrypto ServiceApi ServicePlacement PlacementThms.
From S2P Require Import ServiceOperations ServiceCalls CreateThms.
From S2P Require Import ServiceSample ServiceFlow CryptoThms.
From stdpp Require Import options.

Section Get.
Context `{AuthCore, Hashing, Base64, Chrono, ChronoUnix, ServiceLibs, DestinationJson}.
Context {env : Environment} `{!EnvironmentLaws}.
Implicit Types (self : CallService).

(** The rows of a fresh creation. *)
Lemma created_rows new_id r request r1 stored :
  store_reachable r → create_with_plan new_id r request = (r1, Ok (ServiceCreateOutcome.Created stored)) →
  let id := ca_id (sc_aggregate (sl_call stored)) in
  rm_calls (mr_state r1) !! id = Some (sl_call stored) ∧
  rm_execution_plans (mr_state r1) !! id = Some (sl_plan stored).
Proof using.
  intros Hr Hc. apply transaction_ok in Hc as (Hp & s' & Hx & ->). change (mr_state (r <| mr_state := s' |>)) with s'.
  unfold create_with_plan_in_state in Hx. cbv zeta in Hx.
  apply result_bind_ok in Hx as ([?|] & _ & Hx); [done|].
  apply bind_unit_ok in Hx as [Hplan Hx]. apply result_bind_ok in Hx as (fp & _ & Hx).
  apply result_bind_ok in Hx as (caps & _ & Hx). apply result_bind_ok in Hx as ([o s1] & Hq & Hx).
  apply try_candidates_ok in Hq as (q & Hq & Hcr). cbn [fst snd] in Hx.
  apply create_call_ok in Hcr as [(c & i & ret & -> & -> & Hi & _)|(d & k & fp' & -> & G & W)].
  { apply bind_reject_ok in Hx as [_ Hx]. apply result_bind_ok in Hx as (plan & _ & Hx).
    apply result_bind_ok in Hx as (snap & _ & Hx). by apply result_bind_ok in Hx as (att & _ & [=]). }
  cbn [created_call sc_aggregate] in Hx.
  destruct (decide_keeps _ _ _ (kg_valid _ _ _ _ _ G) (kg_decide _ _ _ _ _ G)) as (Eid & Et & _).
  rewrite Eid in Hx. apply bind_reject_ok in Hx as [_ Hx]. apply result_bind_ok in Hx as (att & Hatt & [= <- <-]).
  cbn. rewrite Eid, (kw_calls _ _ _ _ _ _ _ W), !lookup_insert_eq. done.
Qed.

(** What never changes of a view. *)
Definition view_identity (view : CallView) : CallId * TenantId * LegId * LegId :=
  (vw_call_id view, vw_tenant_id view, lv_leg_id (vw_legs view).1, lv_leg_id (vw_legs view).2).

Lemma attach_identity view leg attachment : view_identity (attach view leg attachment) = view_identity view.
Proof using.
  destruct view as [? ? ? [l r] ? ? ?]. unfold attach, view_identity. cbn.
  destruct (_ ==? _); [done|]. by destruct (_ ==? _).
Qed.

Lemma create_view_identity self stored b res :
  create_view self stored b = Ok res → view_identity (or_value res) = view_identity (CallView_from_stored stored).
Proof using.
  unfold create_view. intros E. cbv zeta in E. apply bind_unit_ok in E as [_ E].
  apply bind_reject_ok in E as [_ E]. apply result_bind_ok in E as (view & E & [= <-]). cbn [or_value].
  revert E. generalize (CallView_from_stored stored) as v, (∅ : gset LegId) as legs, (sl_attachments stored) as ds.
  intros v legs ds. revert v legs. induction ds as [|x ds IH]; intros v legs E; [by injection E as <-|].
  cbn [attach_descriptors] in E. apply result_bind_ok in E as (leg & _ & E). cbv zeta in E.
  apply bind_reject_ok in E as [_ E]. apply result_bind_ok in E as (token & _ & E).
  apply bind_reject_ok in E as [_ E]. apply IH in E as ->.
  destruct (_ ==? _); [apply attach_identity|done].
Qed.


Lemma get_call_eq reader id requested tenant w :
  resolve_tenant reader requested Scope.Read (ev_now (wo_step w)) = Ok tenant →
  get_call reader id requested w =
    (after (found (tick w)) (tick w),
     Some (map_err CallServiceError.Repository
       (CallView_from_stored <$> load_service_call (found (tick w)) tenant id))).
Proof using.
  intros Ht. unfold get_call, mbind, Svc_bind, now, answer. rewrite Ht. cbn [of_principal map_err].
  unfold load_owned_call, query, call. fold (found (tick w)). by destruct (load_service_call _ _ _).
Qed.

(** C12. Whoever may read a call of the service can read it from its creation on, and nobody else.
    After a creation that was answered as new, whatever the store has been through since and whatever
    the other tasks do meanwhile, reading the call by its identifier under its tenant with the scope
    for reading always succeeds and shows a call of that identifier and tenant with the two legs it
    was created with, and no token; under any other tenant the call is not found.  Reading changes nothing. *)
Theorem created_call_can_be_read self `{!PlacementReads (cs_placement self)} principal key input route w w1 res :
  store_reachable (wo_store w) →
  create_call_inner self principal key input route w = (w1, Some (Ok res)) → or_replayed res = false →
  ∀ w2 reader requested tenant, rtc store_step (wo_store w1) (wo_store w2) →
    resolve_tenant reader requested Scope.Read (ev_now (wo_step w2)) = Ok tenant →
    let created := or_value res in
    ∃ w3 answer_, get_call reader (vw_call_id created) requested w2 = (w3, Some answer_) ∧
      rtc other_step (wo_store w2) (wo_store w3) ∧
      if tenant ==? vw_tenant_id created
      then ∃ view, answer_ = Ok view ∧ view_identity view = view_identity created ∧
             lv_attachment (vw_legs view).1 = None ∧ lv_attachment (vw_legs view).2 = None
      else answer_ = Err (CallServiceError.Repository RepositoryError.NotFound).
Proof using All.
  intros Hr Hc Hf w2 reader requested tenant Hrun Ht created.
  destruct (create_call_inner_ok _ _ _ _ _ _ _ _ Hc) as (t0 & owner & operation & replay & w0 & Hd & Hl & Hk).
  destruct replay as [stored|].
  { destruct Hk as [_ Hk%create_view_replayed]. congruence. }
  apply (waits_ok _ _ _ _ (load_replay_reads _ _ _ _ _ _ _ _)) in Hl.
  apply create_new_call_fresh in Hk as [(r & new_id & request & stored & Hrun0 & Hids & Hcr & _ & _ & Hview)]; [|done..].
  assert (Hr0 : store_reachable r).
  { eapply others_reachable; [exact Hr|]. etrans; [exact Hl|exact Hrun0]. }
  assert (Hr1 : store_reachable (wo_store w1)).
  { unfold store_reachable in *. eapply rtc_r; [exact Hr0|]. right.
    pose proof (step_create_with_plan r new_id request Hids) as Hs. by rewrite Hcr in Hs. }
  apply created_rows in Hcr as [Hcall Hplan]; [|done].
  apply create_view_identity in Hview. fold created in Hview.
  assert (Hall : rtc store_step (wo_store w1) (found (tick w2))).
  { etrans; [exact Hrun|]. apply others_use_methods. }
  assert (Hr2 : store_reachable (found (tick w2))) by (unfold store_reachable in *; by etrans).
  destruct (calls_move_run call_fits _ _ Hall (store_capacity _ Hr1) _ _ Hcall) as (c' & Hc' & Hfit).
  destruct (readable_run _ _ _ _ _ Hr1 Hall Hcall Hplan) as (c'' & att & Hsame & Hc'' & Hload).
  assert (c'' = c') as -> by congruence.
  assert (Hid : view_identity (CallView_from_aggregate (sc_aggregate c')) = view_identity created).
  { rewrite Hview. unfold view_identity. cbn. rewrite (sk_tenant _ _ Hsame).
    pose proof (fits_ids _ _ Leg0 Hfit) as E0. pose proof (fits_ids _ _ Leg1 Hfit) as E1. cbn in E0, E1.
    rewrite E0, E1. f_equal. f_equal. f_equal. apply (cy_calls _ (store_capacity _ Hr2) _ _ Hc'). }
  assert (Eid : ca_id (sc_aggregate (sl_call stored)) = vw_call_id created)
    by (unfold view_identity in Hview; by injection Hview).
  assert (Et : ca_tenant_id (sc_aggregate (sl_call stored)) = vw_tenant_id created)
    by (unfold view_identity in Hview; by injection Hview).
  rewrite Eid in Hc', Hload. rewrite Et in Hload.
  rewrite (get_call_eq _ _ _ _ _ Ht). eexists _, _. split; [done|]. split; [apply other_once|].
  case_bool_decide as E.
  - subst tenant. rewrite Hload. eexists. split; [done|]. by split.
  - assert (Hn : tenant_call (mr_state (found (tick w2))) tenant (vw_call_id created) = Err RepositoryError.NotFound).
    { unfold tenant_call. rewrite Hc'. cbn. rewrite bool_decide_eq_false_2; [reflexivity|].
      intros E'. apply E. by rewrite <- E', (sk_tenant _ _ Hsame). }
    unfold load_service_call, read, lock. rewrite (store_lock _ Hr2). cbn [mbind result_bind].
    rewrite Hn. reflexivity.
Qed.
End Get.

(** The call of the sample flow, read by the principal that created it. *)
Lemma created_call_can_be_read_witness :
  ∃ w1 res view, create_run = (w1, Some (Ok res)) ∧
    (@get_call auth_types_sample auth_core_sample alone caller (vw_call_id (or_value res)) None w1).2
      = Some (Ok view) ∧ view_identity view = view_identity (or_value res).
Proof.
  destruct create_run_answer as (res & E & Hf). destruct create_run as [w1 o] eqn:Er. cbn in E. subst o.
  assert (Htn : vw_tenant_id (or_value res) = str "acme").
  { assert (Hx : is_some_and (λ r, match r with Ok v => vw_tenant_id (or_value v) ==? str "acme" | Err _ => false end)
      create_run.2 = true) by (vm_compute; reflexivity).
    rewrite Er in Hx. cbn in Hx. by bool_hyps. }
  destruct (@created_call_can_be_read auth_types_sample auth_core_sample hashing_sample base64_sample
    chrono_sample chrono_unix_sample libs_sample json_sample alone alone_laws sample_service
    (repository_reads RepositoryWorkerPlacement_new) caller (str "key-1") call_input None opened w1 res
    store_enrolled Er Hf w1 caller None (str "acme") (rtc_refl _ _)) as (w3 & answer_ & Hg & _ & Hv).
  { reflexivity. }
  rewrite Htn in Hv. rewrite bool_decide_eq_true_2 in Hv by reflexivity. destruct Hv as (view & -> & Hid & _).
  exists w1, res, view. split; [reflexivity|]. split; [exact (f_equal snd Hg)|exact Hid].
Defined.
