(* ===== verification/Execution.v ===== *)
(** Durable work of a worker ([src/call_service/execution.rs]): the tasks that bring what happened,
    an executed effect, an elapsed deadline, a restart or a provider callback, into the store.  Each
    of them reads the call, builds a transaction for the version it read, and submits it until it is
    answered: a lost race is built anew, an unavailable store is asked again.

    The programs run in the world of [ServiceWorld].  A loop of the source is [rounds], which counts
    the attempts; sleeping between two attempts is the step [wait].  The methods of the repository
    have no suspension points, so a guarded await ([await_while_execution_owned]) is interrupted
    before the method runs or not at all. *)

From S2P Require Import Prelude RustText DomainTypes Domain CoordModel RepoTypes ServiceTypes.
From S2P Require Import Context PlanModel RepoMemory RepoClaims ServiceCommands ServiceMemory.
From S2P Require Import ServiceReconcile SignalingToken ServiceApi ServiceWorld.
From stdpp Require Import options.

(** ** The worker *)

(** What a task sees of [watch::Receiver<ActorShutdown>] at a step. *)
Class Ownership := {
  (** [*shutdown.borrow() == ActorShutdown::LeaseLost]. *)
  ow_lost : nat → bool;
  (** A [select!] is left through [shutdown.changed()], with the lease lost or the channel closed. *)
  ow_interrupted : nat → bool;
}.

(** The fields of [CallServiceRuntime] that the tasks use; its clock is that of the world. *)
Record CallServiceRuntime := {
  rt_worker : WorkerSnapshot;
  rt_activated_worker : option WorkerSnapshot;
  rt_timeouts : CallTimeoutPolicy;
}.

(** [CallServiceRuntime::worker]. *)
Definition runtime_worker (self : CallServiceRuntime) : WorkerSnapshot :=
  default (rt_worker self) (rt_activated_worker self).

Definition lease_of (runtime : CallServiceRuntime) : WorkerLease := wk_lease (runtime_worker runtime).

Definition WORK_CLAIM_TTL : Duration := from_secs (24 * 60 * 60).
Definition WORK_BATCH_SIZE : N := 64.

(** ** Loops *)

(** [loop { ... }] over the variables [S]: [None] when it is still running after so many rounds. *)
Fixpoint rounds {E S A} (fuel : nat) (body : S → Svc E (S + A)) (s : S) : Svc E (option A) :=
  match fuel with
  | O => mret None
  | Datatypes.S fuel =>
      next ← body s;
      match next with
      | inl s => rounds fuel body s
      | inr a => mret (Some a)
      end
  end.

Section Worker.
Context `{Chrono, ServiceLibs} {env : Environment} {own : Ownership}.
Implicit Types (runtime : CallServiceRuntime).

(** [if *shutdown.borrow() == ActorShutdown::LeaseLost { return Err(Unavailable) }]. *)
Definition ensure_owned : Svc RepositoryError () := λ w,
  (tick w, Some (reject_if (ow_lost (wo_step w)) RepositoryError.Unavailable)).

(** The [select!] of [shutdown.changed()] and [sleep(delay)]. *)
Definition wait : Svc RepositoryError () := λ w,
  (tick w, Some (reject_if (ow_interrupted (wo_step w)) RepositoryError.Unavailable)).

Definition await_while_execution_owned {A} (m : Svc RepositoryError A) : Svc RepositoryError A :=
  ensure_owned;; wait;; m.

(** The two nested loops that submit a request: the variable is the request of the inner loop, or
    none at the head of the outer one, which builds the next request or finds nothing to do.
    [watched]: the lease is looked at before waiting; [rebuild]: the guard of the arm for a version
    conflict. *)
Definition submit {Q A} (build : Svc RepositoryError (option Q))
    (method : Q → (nat → EffectId) → MemoryRepository → MemoryRepository * result RepositoryError A)
    (watched rebuild : bool) (pending : option Q) : Svc RepositoryError (option Q + ()) :=
  request ← match pending with Some request => mret (Some request) | None => build end;
  match request with
  | None => mret (inr ())
  | Some request =>
      outcome ← attempt (call id (method request));
      match outcome with
      | Ok _ => mret (inr ())
      | Err RepositoryError.Unavailable =>
          (if watched then ensure_owned else mret ());;
          wait;;
          mret (inl (Some request))
      | Err RepositoryError.VersionConflict =>
          if rebuild then mret (inl None) else fail RepositoryError.VersionConflict
      | Err error => fail error
      end
  end.

Definition load_stored (tenant_id : TenantId) (call_id : CallId)
    : Svc RepositoryError StoredServiceCall :=
  query id (λ store, load_service_call store tenant_id call_id).

(** [std::cmp::max(runtime.observation_time(), stored.call.aggregate.updated_at())]. *)
Definition observe (stored : StoredServiceCall) : Svc RepositoryError DateTime :=
  observed_at ← now;
  mret (Z.max observed_at (ca_updated_at (sc_aggregate (sl_call stored)))).

(** The end of the grace period of a call that starts to end at [at_]. *)
Definition ending_due runtime (at_ : DateTime) : result RepositoryError DateTime :=
  ending ← ok_or (from_std (tp_ending (rt_timeouts runtime)))
             (RepositoryError.InvalidInput "ending timeout is too large");
  ok_or (checked_add_signed at_ ending)
    (RepositoryError.InvalidInput "ending deadline is outside UTC range").

(** A transaction that carries one command on the version that was read. *)
Definition command_transaction (tenant_id : TenantId) (call_id : CallId) (stored : StoredServiceCall)
    (command_id : CommandId) (command : CallCommand) (worker : WorkerLease)
    (deadline_claim : option DeadlineClaimGuard) (at_ : DateTime)
    (replacement : option ReplacementConnectionPromotion) : ServiceCommandTransaction :=
  {| st_command :=
       {| ct_tenant_id := tenant_id; ct_call_id := call_id;
          ct_expected_version := ca_version (sc_aggregate (sl_call stored));
          ct_command_id := command_id; ct_command := command; ct_worker := worker;
          ct_attachments := []; ct_deadline_claim := deadline_claim; ct_at := at_ |};
     st_effect_payloads := []; st_operation_idempotency := None; st_bound_connection := None;
     st_media_activity := None; st_replacement_connection := replacement |}.

(** ** Deadlines *)

Definition elapsed_transaction runtime (claim : ClaimedDeadline)
    : Svc RepositoryError (option ServiceCommandTransaction) :=
  let record := cl_record claim in
  stored ← load_stored (dr_tenant_id record) (dr_call_id record);
  at_ ← observe stored;
  ending_deadline ← answer (ending_due runtime at_);
  command_id ← new_uuid;
  mret (Some (command_transaction (dr_tenant_id record) (dr_call_id record) stored command_id
    (DeadlineElapsed at_ (dr_kind record) (dr_generation record) (Some ending_deadline))
    (lease_of runtime) (Some (guard claim (lease_of runtime))) at_ None)).

Definition commit_transaction (request : ServiceCommandTransaction) (new_id : nat → EffectId)
    (store : MemoryRepository) : MemoryRepository * result RepositoryError ServiceCommandOutcome :=
  commit_with_effect_payloads new_id store request.

Definition commit_deadline (fuel : nat) (claim : ClaimedDeadline) runtime
    : Svc RepositoryError (option ()) :=
  rounds fuel (submit (elapsed_transaction runtime claim) commit_transaction true true) None.

(** The call is ending and nothing limits it. *)
Definition lacks_ending_deadline (stored : StoredServiceCall) : bool :=
  let aggregate := sc_aggregate (sl_call stored) in
  (ca_state aggregate ==? CallState.Ending)
  && is_none (slot_due_at (deadline_get (ca_deadlines aggregate) DeadlineKind.Ending)).

(** The body of its loop; the variable is the call that was read. *)
Definition ensure_ending_turn runtime (tenant_id : TenantId) (call_id : CallId)
    (command_id : CommandId) (stored : StoredServiceCall)
    : Svc RepositoryError (StoredServiceCall + ()) :=
  if negb (lacks_ending_deadline stored) then mret (inr ())
  else
    ensure_owned;;
    at_ ← observe stored;
    due_at ← answer (ending_due runtime at_);
    let request := command_transaction tenant_id call_id stored command_id
                     (ArmDeadline at_ DeadlineKind.Ending due_at) (lease_of runtime) None at_ None in
    outcome ← await_while_execution_owned (attempt (call id (commit_transaction request)));
    match outcome with
    | Ok _ => mret (inr ())
    | Err RepositoryError.VersionConflict =>
        stored ← load_stored tenant_id call_id;
        mret (inl stored)
    | Err RepositoryError.Unavailable => wait;; mret (inl stored)
    | Err error => fail error
    end.

Definition ensure_ending_deadline (fuel : nat) runtime (stored : StoredServiceCall)
    : Svc RepositoryError (option ()) :=
  let aggregate := sc_aggregate (sl_call stored) in
  command_id ← new_uuid;
  rounds fuel (ensure_ending_turn runtime (ca_tenant_id aggregate) (ca_id aggregate) command_id) stored.

(** ** Restarts *)

(** The body of the loop of [commit_binding_state]; the variable is the call that was read. *)
Definition binding_state_turn runtime (tenant_id : TenantId) (call_id : CallId)
    (binding : ConnectionBinding) (state : LegState) (failure : option FailureDetails)
    (at_ : DateTime) (cancel : bool) (command_id : CommandId) (stored : StoredServiceCall)
    : Svc RepositoryError (StoredServiceCall + StoredServiceCall) :=
  let aggregate := sc_aggregate (sl_call stored) in
  let request :=
    {| bs_tenant_id := tenant_id; bs_call_id := call_id; bs_expected_version := ca_version aggregate;
       bs_command_id := command_id; bs_leg_id := cb_leg_id binding;
       bs_binding_generation := cb_binding_generation binding;
       bs_connection_id := cb_connection_id binding; bs_worker := lease_of runtime;
       bs_state := state; bs_failure := failure; bs_at := Z.max at_ (ca_updated_at aggregate) |} in
  let commit := attempt (call id (λ new_id store,
                  commit_bound_connection_state new_id store request)) in
  outcome ← (if cancel then await_while_execution_owned commit else commit);
  match outcome with
  | Ok (ServiceCommandOutcome.Committed view) | Ok (ServiceCommandOutcome.Replayed view) =>
      let committed := sc_aggregate (cv_call (sv_command view)) in
      stored ← load_stored (ca_tenant_id committed) (ca_id committed);
      mret (inr stored)
  | Err RepositoryError.VersionConflict =>
      stored ← load_stored tenant_id call_id;
      leg ← answer (ok_or (find_leg (sc_aggregate (sl_call stored)) (cb_leg_id binding))
                      RepositoryError.StaleClaim);
      mret (if (leg_state leg ==? state) || leg_is_terminal (leg_state leg)
            then inr stored else inl stored)
  | Err RepositoryError.Unavailable =>
      (if cancel then ensure_owned;; wait else mret ());;
      mret (inl stored)
  | Err error => fail error
  end.

Definition commit_binding_state (fuel : nat) runtime (tenant_id : TenantId) (call_id : CallId)
    (binding : ConnectionBinding) (state : LegState) (failure : option FailureDetails)
    (at_ : DateTime) (cancel : bool) : Svc RepositoryError (option StoredServiceCall) :=
  stored ← load_stored tenant_id call_id;
  command_id ← new_uuid;
  rounds fuel (binding_state_turn runtime tenant_id call_id binding state failure at_ cancel command_id)
    stored.

(** At the head of the loop: the leg is over, or its failure is to be committed. *)
Definition restart_failure_transaction runtime (tenant_id : TenantId) (call_id : CallId)
    (leg_id : LegId) (binding_generation : BindingGeneration) (failure : FailureDetails)
    : Svc RepositoryError (option ServiceCommandTransaction) :=
  stored ← load_stored tenant_id call_id;
  if negb (is_some_and (λ leg, negb (leg_is_terminal (leg_state leg)))
             (find_leg (sc_aggregate (sl_call stored)) leg_id))
  then mret None
  else
    at_ ← observe stored;
    command_id ← new_uuid;
    mret (Some (command_transaction tenant_id call_id stored command_id
      (SetLegState at_ leg_id binding_generation LegState.Failed (Some failure))
      (lease_of runtime) None at_ None)).

Definition commit_unbound_restart_failure (fuel : nat) runtime (initial : StoredServiceCall)
    (leg_id : LegId) (binding_generation : BindingGeneration) (failure : FailureDetails)
    : Svc RepositoryError (option ()) :=
  let aggregate := sc_aggregate (sl_call initial) in
  rounds fuel
    (submit (restart_failure_transaction runtime (ca_tenant_id aggregate) (ca_id aggregate) leg_id
               binding_generation failure) commit_transaction true true) None.

Definition worker_restarted : FailureDetails :=
  sanitized (str "worker_restarted")
    (str "the previous process lost ownership of this active transport") true.

(** One leg of a call that another process of this worker left behind: the body of the loop of
    [recover_restarted_call]. *)
Definition recover_leg (fuel : nat) runtime (tenant_id : TenantId) (call_id : CallId) (leg_id : LegId)
    : Svc RepositoryError (option ()) :=
  stored ← load_stored tenant_id call_id;
  leg ← answer (ok_or (find_leg (sc_aggregate (sl_call stored)) leg_id) RepositoryError.NotFound);
  if leg_is_terminal (leg_state leg) then mret (Some ())
  else
    match sc_bindings (sl_call stored) !! leg_id with
    | Some binding =>
        at_ ← now;
        done ← commit_binding_state fuel runtime tenant_id call_id binding LegState.Failed
                 (Some worker_restarted) at_ true;
        mret ((λ _, ()) <$> done)
    | None =>
        commit_unbound_restart_failure fuel runtime stored leg_id (leg_binding_generation leg)
          worker_restarted
    end.

(** [for item in items { body(item).await?; }], stopped when a body is still running. *)
Fixpoint for_each {E A} (body : A → Svc E (option ())) (items : list A) : Svc E (option ()) :=
  match items with
  | [] => mret (Some ())
  | item :: items =>
      done ← body item;
      match done with
      | Some _ => for_each body items
      | None => mret None
      end
  end.

Definition recover_restarted_call (fuel : nat) runtime (claim : RestartClaim)
    : Svc RepositoryError (option ()) :=
  let aggregate := sc_aggregate (rc_call claim) in
  for_each (recover_leg fuel runtime (ca_tenant_id aggregate) (ca_id aggregate))
    (leg_id <$> List.filter (λ leg, negb (leg_is_terminal (leg_state leg))) (legs aggregate)).

(** The first loop of [recover_before_listeners]: every call left behind, in batches. *)
Definition recover_batch (fuel : nat) runtime (_ : ()) : Svc RepositoryError (() + option ()) :=
  at_ ← now;
  claims ← call id (λ _ store, claim_restart_calls store (lease_of runtime) at_ WORK_BATCH_SIZE);
  if is_empty claims then mret (inr (Some ()))
  else
    done ← for_each (recover_restarted_call fuel runtime) claims;
    mret (match done with Some _ => inl () | None => inr None end).

Definition recover_restarts (fuel : nat) runtime : Svc RepositoryError (option ()) :=
  done ← rounds fuel (recover_batch fuel runtime) ();
  mret (mjoin done).
End Worker.

(** ** Results of effects *)

Record ClaimedEffectMeta := {
  em_tenant_id : TenantId;
  em_call_id : CallId;
  em_effect_id : EffectId;
  em_claim_generation : ClaimGeneration;
}.

Module FollowUpPlan.
Inductive FollowUpPlan :=
| None_
| ProviderMediaStarted (leg_id : LegId) (binding_generation : BindingGeneration)
| FailLeg (leg_id : LegId) (binding_generation : BindingGeneration) (failure : FailureDetails)
| FinishTransfer (deadline_generation : DeadlineGeneration) (result : TransferResult)
| FinishLegReplacement (deadline_generation : DeadlineGeneration)
    (pending_binding_generation : BindingGeneration) (result : LegReplacementResult)
    (replacement_connection : option ReplacementConnectionPromotion).
End FollowUpPlan.
Abbreviation FollowUpPlan := FollowUpPlan.FollowUpPlan.

(** The command of a plan at a time: the source builds it with the time of the request and then
    again with the time it settles on. *)
Definition plan_command (plan : FollowUpPlan) (at_ : DateTime) : option CallCommand :=
  match plan with
  | FollowUpPlan.None_ => None
  | FollowUpPlan.ProviderMediaStarted leg_id generation =>
      Some (ProviderMediaStarted at_ leg_id generation)
  | FollowUpPlan.FailLeg leg_id generation failure =>
      Some (SetLegState at_ leg_id generation LegState.Failed (Some failure))
  | FollowUpPlan.FinishTransfer generation result => Some (FinishTransfer at_ generation result)
  | FollowUpPlan.FinishLegReplacement generation pending result _ =>
      Some (FinishLegReplacement at_ generation pending result)
  end.

Definition plan_connection (plan : FollowUpPlan) : option ReplacementConnectionPromotion :=
  match plan with
  | FollowUpPlan.FinishLegReplacement _ _ _ connection => connection
  | _ => None
  end.

Definition reports_media (plan : FollowUpPlan) : bool :=
  match plan with FollowUpPlan.ProviderMediaStarted _ _ => true | _ => false end.

Definition follows_up (plan : FollowUpPlan) : bool :=
  match plan with FollowUpPlan.None_ => false | _ => true end.

Section Effects.
Context `{Chrono, ServiceLibs} {env : Environment} {own : Ownership}.
Implicit Types (runtime : CallServiceRuntime).

Definition build_effect_follow_up (meta : ClaimedEffectMeta) (plan : FollowUpPlan) runtime
    (requested_at : DateTime) : Svc RepositoryError (option ServiceCommandTransaction) :=
  if negb (follows_up plan) then mret None
  else
    stored ← load_stored (em_tenant_id meta) (em_call_id meta);
    let aggregate := sc_aggregate (sl_call stored) in
    if reports_media plan && (ca_state aggregate !=? CallState.Connecting) then mret None
    else
      let at_ := Z.max requested_at (ca_updated_at aggregate) in
      command ← or_panic (plan_command plan at_);
      command_id ← new_uuid;
      mret (Some (command_transaction (em_tenant_id meta) (em_call_id meta) stored command_id command
                    (lease_of runtime) None at_ (plan_connection plan))).

(** The head of the outer loop. *)
Definition effect_request (meta : ClaimedEffectMeta) (result : ServiceEffectResult)
    (external_reference : option ExternalReferenceBinding)
    (additional_external_references : list ExternalReferenceBinding) (follow_up : FollowUpPlan) runtime
    : Svc RepositoryError (option EffectResultReconciliation) :=
  ensure_owned;;
  at_ ← now;
  built_follow_up ← build_effect_follow_up meta follow_up runtime at_;
  let at_ := match built_follow_up with Some f => ct_at (st_command f) | None => at_ end in
  mret (Some
    {| er_tenant_id := em_tenant_id meta; er_call_id := em_call_id meta;
       er_effect_id := em_effect_id meta; er_worker := lease_of runtime;
       er_claim_generation := em_claim_generation meta; er_result := result;
       er_external_reference := external_reference;
       er_additional_external_references := additional_external_references;
       er_follow_up := built_follow_up; er_at := at_ |}).

Definition submit_effect_result (request : EffectResultReconciliation) (new_id : nat → EffectId)
    (store : MemoryRepository) : MemoryRepository * result RepositoryError EffectResultOutcome :=
  reconcile_effect_result new_id store request.

Definition reconcile_effect_with_references (fuel : nat) (meta : ClaimedEffectMeta)
    (result : ServiceEffectResult) (external_reference : option ExternalReferenceBinding)
    (additional_external_references : list ExternalReferenceBinding) (follow_up : FollowUpPlan) runtime
    : Svc RepositoryError (option ()) :=
  rounds fuel
    (submit (effect_request meta result external_reference additional_external_references follow_up
               runtime) submit_effect_result true (follows_up follow_up)) None.

Definition reconcile_effect_with_reference (fuel : nat) (meta : ClaimedEffectMeta)
    (result : ServiceEffectResult) (external_reference : option ExternalReferenceBinding)
    (follow_up : FollowUpPlan) runtime : Svc RepositoryError (option ()) :=
  reconcile_effect_with_references fuel meta result external_reference [] follow_up runtime.

Definition reconcile_effect (fuel : nat) (meta : ClaimedEffectMeta) (result : ServiceEffectResult)
    (follow_up : FollowUpPlan) runtime : Svc RepositoryError (option ()) :=
  reconcile_effect_with_reference fuel meta result None follow_up runtime.
End Effects.

(** ** Provider dial state ([src/call_service/provider_execution.rs]) *)

Record ProviderExecutionContext := {
  px_tenant_id : TenantId;
  px_call_id : CallId;
  px_leg_id : LegId;
  px_binding_generation : BindingGeneration;
  px_effect_id : EffectId;
}.

(** The identifier of the second dial of an effect, before it is written out. *)
Definition destination_command_uuid (self : ProviderExecutionContext) : Uuid :=
  let value := px_effect_id self in
  if Z.land value 1 =? 0 then Z.lor value 1 else Z.lxor value 2.

Module ProviderDialRole.
Inductive ProviderDialRole := Media | Destination.
End ProviderDialRole.
Abbreviation ProviderDialRole := ProviderDialRole.ProviderDialRole.
#[export] Instance ProviderDialRole_eq : EqDecision ProviderDialRole.
Proof. solve_decision. Defined.

Module ProviderDialClientStateError.
Inductive ProviderDialClientStateError := OwnershipMismatch | InvalidContext | TooLarge.
End ProviderDialClientStateError.
Abbreviation ProviderDialClientStateError := ProviderDialClientStateError.ProviderDialClientStateError.

Record ProviderDialClientState := {
  ds_version : N;
  ds_role : ProviderDialRole;
  ds_tenant_id : TenantId;
  ds_call_id : CallId;
  ds_leg_id : LegId;
  ds_binding_generation : BindingGeneration;
  ds_effect_id : EffectId;
  ds_correlation_id : option rstr;
  ds_metadata : gmap rstr rstr;
}.

Record ProviderTransferCorrelation := {
  tr_version : N;
  tr_tenant_id : TenantId;
  tr_call_id : CallId;
  tr_leg_id : LegId;
  tr_binding_generation : BindingGeneration;
  tr_deadline_generation : DeadlineGeneration;
  tr_effect_id : EffectId;
}.

Definition MAX_PROVIDER_DIAL_CLIENT_STATE_JSON_BYTES : Z := 3 * 1024.
Definition ProviderDialClientState_VERSION : N := 1.
Definition ProviderTransferCorrelation_VERSION : N := 1.

Definition ProviderTransferCorrelation_new (context : ProviderExecutionContext)
    (deadline_generation : DeadlineGeneration) : ProviderTransferCorrelation :=
  {| tr_version := ProviderTransferCorrelation_VERSION; tr_tenant_id := px_tenant_id context;
     tr_call_id := px_call_id context; tr_leg_id := px_leg_id context;
     tr_binding_generation := px_binding_generation context;
     tr_deadline_generation := deadline_generation; tr_effect_id := px_effect_id context |}.

Definition matches_owner (self : ProviderTransferCorrelation) (tenant_id : TenantId) (call_id : CallId)
    (leg_id : LegId) (binding_generation : BindingGeneration) : bool :=
  (tr_version self =? ProviderTransferCorrelation_VERSION)%N && (tr_tenant_id self ==? tenant_id)
  && (tr_call_id self ==? call_id) && (tr_leg_id self ==? leg_id)
  && (tr_binding_generation self ==? binding_generation).

Definition transfer_matches (self : ProviderTransferCorrelation) (tenant_id : TenantId)
    (call_id : CallId) (leg_id : LegId) (binding_generation : BindingGeneration)
    (deadline_generation : DeadlineGeneration) : bool :=
  (tr_version self =? ProviderTransferCorrelation_VERSION)%N && (tr_tenant_id self ==? tenant_id)
  && (tr_call_id self ==? call_id) && (tr_leg_id self ==? leg_id)
  && (tr_binding_generation self ==? binding_generation)
  && (tr_deadline_generation self ==? deadline_generation).

(** JSON and the [client_state] encoding of the provider's library: the text found at
    [/data/payload/client_state] of a payload, and its decodings; the JSON of a dial state. *)
Class ProviderWire := {
  payload_client_state : Json → option rstr;
  decode_dial : rstr → option ProviderDialClientState;
  decode_transfer : rstr → option ProviderTransferCorrelation;
  dial_to_vec : ProviderDialClientState → option (list Z);
}.

Section Dial.
Context `{ProviderWire, UuidText}.

Definition dial_validate (self : ProviderDialClientState) : result ProviderDialClientStateError () :=
  reject_if (negb (ds_version self =? ProviderDialClientState_VERSION)%N)
    ProviderDialClientStateError.InvalidContext;;
  (if is_some (ds_correlation_id self) || negb (bool_decide (ds_metadata self = ∅))
   then
     let envelope :=
       ContextEnvelope_new (default (str "provider-context") (ds_correlation_id self))
         (ds_tenant_id self) (uuid_to_string (ds_call_id self)) (uuid_to_string (ds_leg_id self)) in
     map_err (λ _, ProviderDialClientStateError.InvalidContext)
       (ContextEnvelope_validate (envelope <| ce_metadata := ds_metadata self |>))
   else Ok ());;
  encoded ← ok_or (dial_to_vec self) ProviderDialClientStateError.InvalidContext;
  reject_if (MAX_PROVIDER_DIAL_CLIENT_STATE_JSON_BYTES <? Z.of_nat (length encoded))
    ProviderDialClientStateError.TooLarge.

(** The loop over the metadata of the envelope. *)
Fixpoint project_metadata (policy : ContextPolicy) (entries : list (rstr * rstr))
    (metadata : gmap rstr rstr) : result ProviderDialClientStateError (gmap rstr rstr) :=
  match entries with
  | [] => Ok metadata
  | (key, value) :: entries =>
      allowed ← map_err (λ _, ProviderDialClientStateError.InvalidContext)
                  (allows_metadata_key policy key);
      project_metadata policy entries (if allowed : bool then <[key := value]> metadata else metadata)
  end.

Definition project_context (context : ProviderExecutionContext) (envelope : ContextEnvelope)
    (policy : ContextPolicy)
    : result ProviderDialClientStateError (option rstr * gmap rstr rstr) :=
  map_err (λ _, ProviderDialClientStateError.InvalidContext) (ContextEnvelope_validate envelope);;
  reject_if ((ce_tenant_id envelope !=? px_tenant_id context)
             || (ce_call_id envelope !=? uuid_to_string (px_call_id context)))
    ProviderDialClientStateError.OwnershipMismatch;;
  correlated ← map_err (λ _, ProviderDialClientStateError.InvalidContext)
                 (allows_metadata_key policy (str "correlation_id"));
  metadata ← project_metadata policy (btree_entries (ce_metadata envelope)) ∅;
  Ok (if correlated : bool then Some (ce_correlation_id envelope) else None, metadata).

Definition ProviderDialClientState_new (context : ProviderExecutionContext) (role : ProviderDialRole)
    (envelope : option ContextEnvelope) (policy : ContextPolicy)
    : result ProviderDialClientStateError ProviderDialClientState :=
  map_err (λ _, ProviderDialClientStateError.InvalidContext) (ContextPolicy_validate policy);;
  '(correlation_id, metadata) ←
    match envelope with
    | Some envelope => project_context context envelope policy
    | None => Ok (None, ∅)
    end;
  let state :=
    {| ds_version := ProviderDialClientState_VERSION; ds_role := role;
       ds_tenant_id := px_tenant_id context; ds_call_id := px_call_id context;
       ds_leg_id := px_leg_id context; ds_binding_generation := px_binding_generation context;
       ds_effect_id := px_effect_id context; ds_correlation_id := correlation_id;
       ds_metadata := metadata |} in
  dial_validate state;;
  Ok state.

Definition dial_matches (self : ProviderDialClientState) (context : ProviderExecutionContext)
    (role : ProviderDialRole) : bool :=
  is_ok (dial_validate self) && (ds_role self ==? role)
  && (ds_tenant_id self ==? px_tenant_id context) && (ds_call_id self ==? px_call_id context)
  && (ds_leg_id self ==? px_leg_id context)
  && (ds_binding_generation self ==? px_binding_generation context)
  && (ds_effect_id self ==? px_effect_id context).
End Dial.

(** ** Provider callbacks *)

Record ProviderEventAuthority := {
  au_provider : ProviderKind;
  au_binding_generation : BindingGeneration;
  au_effect_id : EffectId;
  au_pending_replacement : bool;
}.

Module ProviderLifecycle.
Inductive ProviderLifecycle := Progress | Connected | Ended | Failed | Ignore.
End ProviderLifecycle.
Abbreviation ProviderLifecycle := ProviderLifecycle.ProviderLifecycle.
#[export] Instance ProviderLifecycle_eq : EqDecision ProviderLifecycle.
Proof. solve_decision. Defined.

(** [kind.trim().to_ascii_lowercase()], compared with literals. *)
Definition event_kind (kind : rstr) : rstr := to_lower (trim kind).
Definition one_of (kind : rstr) (names : list string) : bool :=
  existsb (λ name, kind ==? str name) names.

Definition classify_provider_lifecycle (provider : ProviderKind) (kind : rstr) : ProviderLifecycle :=
  let kind := event_kind kind in
  match provider with
  | ProviderKind.Twilio =>
      if one_of kind ["queued"; "ringing"] then ProviderLifecycle.Progress
      else if one_of kind ["in-progress"] then ProviderLifecycle.Connected
      else if one_of kind ["completed"] then ProviderLifecycle.Ended
      else if one_of kind ["busy"; "failed"; "no-answer"; "canceled"] then ProviderLifecycle.Failed
      else ProviderLifecycle.Ignore
  | ProviderKind.Telnyx =>
      if one_of kind ["call.initiated"; "call.ringing"; "call.answered"]
      then ProviderLifecycle.Progress
      else if one_of kind ["call.bridged"] then ProviderLifecycle.Connected
      else if one_of kind ["call.hangup"] then ProviderLifecycle.Ended
      else if one_of kind ["call.failed"] then ProviderLifecycle.Failed
      else ProviderLifecycle.Ignore
  | ProviderKind.Vonage =>
      if one_of kind ["started"; "ringing"] then ProviderLifecycle.Progress
      else if one_of kind ["answered"] then ProviderLifecycle.Connected
      else if one_of kind ["completed"] then ProviderLifecycle.Ended
      else if one_of kind ["busy"; "unanswered"; "rejected"; "timeout"; "failed"; "cancelled";
                           "canceled"] then ProviderLifecycle.Failed
      else ProviderLifecycle.Ignore
  end.

Definition provider_reference_matches_event (reference : StoredExternalReference)
    (event : ProviderEventEnvelope) : bool :=
  match xr_value reference with
  | ExternalReferenceValue.ProviderCall account provider_call_id =>
      (account ==? pe_account event) && (provider_call_id ==? pe_provider_call_id event)
  | _ => false
  end.

(** [Option::filter]. *)
Definition keep_if {A} (p : A → bool) (o : option A) : option A :=
  match o with Some x => if p x then Some x else None | None => None end.

Definition role_of_reference (role : ProviderReferenceRole) : ProviderDialRole :=
  match role with
  | ProviderReferenceRole.Media => ProviderDialRole.Media
  | ProviderReferenceRole.Destination => ProviderDialRole.Destination
  end.

(** A failure with a fixed code and message. *)
Definition fixed_failure (code message : string) : FailureDetails :=
  sanitized (str code) (str message) false.

(** The state the leg gets, with its failure: [build_provider_follow_up] after the transfers. *)
Definition lifecycle_state (lifecycle : ProviderLifecycle) (leg : Leg)
    : LegState * option FailureDetails :=
  match lifecycle with
  | ProviderLifecycle.Failed =>
      (LegState.Failed, Some (fixed_failure "provider_call_failed"
                                "provider signaling did not complete successfully"))
  | ProviderLifecycle.Ended =>
      match leg_state leg with
      | LegState.Connected | LegState.Held | LegState.Ending => (LegState.Ended, None)
      | _ => (LegState.Failed, Some (fixed_failure "provider_ended_during_setup"
                                       "provider signaling ended before the leg connected"))
      end
  | ProviderLifecycle.Connected =>
      match leg_state leg with
      | LegState.Connected | LegState.Held | LegState.Ending => (leg_state leg, None)
      | _ => (LegState.Connected, None)
      end
  | ProviderLifecycle.Progress =>
      match leg_state leg with
      | LegState.Pending | LegState.AwaitingAttach => (LegState.Signaling, None)
      | _ => (leg_state leg, None)
      end
  | ProviderLifecycle.Ignore => (leg_state leg, leg_failure leg)
  end.

Section Callbacks.
Context `{Chrono, ServiceLibs, ProviderWire, UuidText} {env : Environment} {own : Ownership}.
Implicit Types (runtime : CallServiceRuntime) (target : ProviderEventTarget).

(** The callback's reference is that of the current generation of the leg, of the one its
    replacement is waiting for, or of neither. *)
Definition event_reference (event : ProviderEventEnvelope) target (stored : StoredServiceCall)
    : Svc RepositoryError (option (StoredExternalReference * bool)) :=
  let aggregate := sc_aggregate (sl_call stored) in
  leg ← answer (ok_or (find_leg aggregate (pt_leg_id target))
                  RepositoryError.ProviderReferenceConflict);
  current_reference ← query id (λ store, load_external_reference_by_role store (pt_tenant_id target)
    (pt_call_id target) (pt_leg_id target) (pt_role target));
  let current_reference := keep_if (λ reference,
    (xr_binding_generation reference ==? leg_binding_generation leg)
    && provider_reference_matches_event reference event) current_reference in
  pending_reference ←
    match keep_if (λ r, rp_leg_id r ==? pt_leg_id target) (ca_replacement aggregate) with
    | Some replacement =>
        loaded ← query id (λ store, load_external_reference_for_binding store (pt_tenant_id target)
          (pt_call_id target) (pt_leg_id target) (rp_pending_binding_generation replacement)
          (pt_role target));
        mret (keep_if (λ reference, provider_reference_matches_event reference event) loaded)
    | None => mret None
    end;
  match current_reference, pending_reference with
  | Some reference, None => mret (Some (reference, false))
  | None, Some reference => mret (Some (reference, true))
  | None, None => mret None
  | Some _, Some _ => fail RepositoryError.ProviderReferenceConflict
  end.

Definition authority_of (provider : ProviderKind) (reference : StoredExternalReference)
    (pending_replacement : bool) : ProviderEventAuthority :=
  {| au_provider := provider; au_binding_generation := xr_binding_generation reference;
     au_effect_id := xr_effect_id reference; au_pending_replacement := pending_replacement |}.

(** The provider endpoint of a replacement payload. *)
Definition replacement_endpoint (payload : option StoredServiceEffectPayload)
    : option ProviderEndpointConfig :=
  payload ← payload;
  match sp_payload payload with
  | ServiceEffectPayload.LegReplacement replacement =>
      match lp_endpoint replacement with
      | LegEndpointConfig.Provider endpoint => Some endpoint
      | _ => None
      end
  | _ => None
  end.

Definition current_provider_for_event (event : ProviderEventEnvelope) target
    (stored : StoredServiceCall) : Svc RepositoryError (option ProviderEventAuthority) :=
  found ← event_reference event target stored;
  match found with
  | None => mret None
  | Some (reference, pending_replacement) =>
      payload ← query id (λ store,
        load_effect_payload store (pt_tenant_id target) (xr_effect_id reference));
      match replacement_endpoint payload with
      | Some endpoint =>
          if pc_account_profile endpoint ==? pe_account event
          then mret (Some (authority_of (pc_provider endpoint) reference pending_replacement))
          else fail RepositoryError.ProviderReferenceConflict
      | None =>
          answer (ok_or
            (spec ← find_spec (sl_plan stored) (pt_leg_id target);
             match ls_endpoint spec with
             | LegEndpointConfig.Provider endpoint =>
                 if pc_account_profile endpoint ==? pe_account event
                 then Some (Some (authority_of (pc_provider endpoint) reference pending_replacement))
                 else None
             | _ => None
             end) RepositoryError.ProviderReferenceConflict)
      end
  end.

(** [DateTime::checked_sub_signed] is the addition of the opposite. *)
Definition bounded_provider_received_at (observed_at received_at : DateTime) : DateTime :=
  let skew_bound := from_secs (5 * 60) in
  match checked_add_signed observed_at (- skew_bound), checked_add_signed observed_at skew_bound with
  | Some lower, Some upper =>
      if (received_at <? lower) || (upper <? received_at) then observed_at else received_at
  | _, _ => observed_at
  end.

Definition telnyx_dial_client_state_matches (authority : ProviderEventAuthority) (payload : Json)
    target : bool :=
  (au_provider authority ==? ProviderKind.Telnyx)
  && match (client_state ← payload_client_state payload; decode_dial client_state) with
     | Some state =>
         dial_matches state
           {| px_tenant_id := pt_tenant_id target; px_call_id := pt_call_id target;
              px_leg_id := pt_leg_id target; px_binding_generation := au_binding_generation authority;
              px_effect_id := au_effect_id authority |} (role_of_reference (pt_role target))
     | None => false
     end.

Definition telnyx_lifecycle_client_state_matches (authority : ProviderEventAuthority) (payload : Json)
    target : bool :=
  telnyx_dial_client_state_matches authority payload target
  || (pt_role target ==? ProviderReferenceRole.Media)
     && match (client_state ← payload_client_state payload; decode_transfer client_state) with
        | Some state =>
            matches_owner state (pt_tenant_id target) (pt_call_id target) (pt_leg_id target)
              (au_binding_generation authority)
        | None => false
        end.

Definition provider_follow_up_transaction target (stored : StoredServiceCall) (at_ : DateTime)
    (command : CallCommand) (command_id : CommandId) : ServiceCommandTransaction :=
  command_transaction (pt_tenant_id target) (pt_call_id target) stored command_id command
    (wa_lease (sc_assignment (sl_call stored))) None at_ None.

Definition correlated_provider_transfer_result (provider : ProviderKind) (kind : rstr) (payload : Json)
    target (stored : StoredServiceCall) (binding_generation : BindingGeneration)
    : option TransferResult :=
  let aggregate := sc_aggregate (sl_call stored) in
  if (provider !=? ProviderKind.Telnyx) || (pt_role target !=? ProviderReferenceRole.Media)
     || (ca_state aggregate !=? CallState.Transferring) then None
  else
    result ←
      (if one_of (event_kind kind) ["call.bridged"] then Some TransferCompleted
       else if one_of (event_kind kind) ["call.failed"]
       then Some (TransferRejected (fixed_failure "provider_transfer_rejected"
                    "the provider reported that the transfer did not complete"))
       else None);
    let deadline := deadline_get (ca_deadlines aggregate) DeadlineKind.Transfer in
    slot_due_at deadline;;
    client_state ← payload_client_state payload;
    correlation ← decode_transfer client_state;
    if transfer_matches correlation (pt_tenant_id target) (pt_call_id target) (pt_leg_id target)
         binding_generation (slot_generation deadline)
    then Some result else None.

(** What a callback says of the pending generation: nothing, or how the replacement ends. *)
Definition pending_replacement_result (kind : rstr) target : option LegReplacementResult :=
  let kind := event_kind kind in
  if one_of kind ["call.bridged"] && (pt_role target ==? ProviderReferenceRole.Destination)
  then Some ReplacementConnected
  else if one_of kind ["call.failed"; "call.hangup"; "call.not-connected"]
  then Some (ReplacementRejected (fixed_failure "provider_replacement_not_ready"
               "the provider destination ended before media was ready"))
  else None.

Definition build_pending_telnyx_replacement_follow_up (authority : ProviderEventAuthority)
    (kind : rstr) target (stored : StoredServiceCall) (at_ : DateTime)
    : Svc RepositoryError (option ServiceCommandTransaction) :=
  let aggregate := sc_aggregate (sl_call stored) in
  answer (reject_if (au_provider authority !=? ProviderKind.Telnyx)
            RepositoryError.ProviderReferenceConflict);;
  replacement ← answer (ok_or (keep_if (λ r,
      (rp_leg_id r ==? pt_leg_id target)
      && (rp_pending_binding_generation r ==? au_binding_generation authority)
      && (rp_pending_kind r ==? LegKind.Telnyx)) (ca_replacement aggregate))
    RepositoryError.StaleClaim);
  let deadline := deadline_get (ca_deadlines aggregate) DeadlineKind.Transfer in
  answer (reject_if ((ca_state aggregate !=? CallState.Transferring)
                     || is_none (slot_due_at deadline)) RepositoryError.StaleClaim);;
  match pending_replacement_result kind target with
  | None => mret None
  | Some result =>
      command_id ← new_uuid;
      let transaction := provider_follow_up_transaction target stored at_
        (FinishLegReplacement at_ (slot_generation deadline) (au_binding_generation authority) result)
        command_id in
      match result with
      | ReplacementRejected _ => mret (Some transaction)
      | ReplacementConnected =>
          previous ← answer (ok_or (keep_if (λ binding,
              cb_binding_generation binding ==? rp_previous_binding_generation replacement)
              (sc_bindings (sl_call stored) !! pt_leg_id target)) RepositoryError.StaleClaim);
          pending ← query id (λ store, load_attachment_binding store (pt_tenant_id target)
            (pt_call_id target) (pt_leg_id target) (au_binding_generation authority)
            AttachmentPurpose.ProviderMedia);
          pending ← answer (ok_or (keep_if (λ binding,
              (cb_leg_id binding ==? pt_leg_id target)
              && (cb_binding_generation binding ==? au_binding_generation authority)
              && (cb_transport binding ==? AttachmentTransport.Sip)) pending)
            RepositoryError.StaleClaim);
          mret (Some (transaction <| st_replacement_connection := Some
            {| rx_previous_connection_id := cb_connection_id previous;
               rx_connection_id := cb_connection_id pending; rx_leg_id := pt_leg_id target;
               rx_previous_binding_generation := rp_previous_binding_generation replacement;
               rx_pending_binding_generation := au_binding_generation authority;
               rx_transport := AttachmentTransport.Sip;
               rx_principal_fingerprint := cb_principal_fingerprint pending |} |>))
      end
  end.

(** A callback that could end a transfer in progress. *)
Definition transfer_callback (provider : ProviderKind) (kind : rstr) target
    (stored : StoredServiceCall) : bool :=
  (provider ==? ProviderKind.Telnyx) && (pt_role target ==? ProviderReferenceRole.Media)
  && (ca_state (sc_aggregate (sl_call stored)) ==? CallState.Transferring)
  && one_of (event_kind kind) ["call.bridged"; "call.failed"].

Definition build_provider_follow_up (authority : ProviderEventAuthority) (kind : rstr)
    (payload : Json) target (stored : StoredServiceCall) (at_ : DateTime)
    : Svc RepositoryError (option ServiceCommandTransaction) :=
  let aggregate := sc_aggregate (sl_call stored) in
  if call_is_terminal (ca_state aggregate) then mret None
  else
  leg ← answer (ok_or (find_leg aggregate (pt_leg_id target))
                  RepositoryError.ProviderReferenceConflict);
  if au_pending_replacement authority then
    if negb (telnyx_dial_client_state_matches authority payload target) then mret None
    else build_pending_telnyx_replacement_follow_up authority kind target stored at_
  else
  let provider := au_provider authority in
  match correlated_provider_transfer_result provider kind payload target stored
          (au_binding_generation authority) with
  | Some result =>
      let deadline := deadline_get (ca_deadlines aggregate) DeadlineKind.Transfer in
      command_id ← new_uuid;
      mret (Some (provider_follow_up_transaction target stored at_
              (FinishTransfer at_ (slot_generation deadline) result) command_id))
  | None =>
      if transfer_callback provider kind target stored then mret None
      else if (provider ==? ProviderKind.Telnyx)
              && negb (telnyx_lifecycle_client_state_matches authority payload target) then mret None
      else
        let lifecycle := classify_provider_lifecycle provider kind in
        answer (reject_if ((lifecycle ==? ProviderLifecycle.Connected)
                           && (provider ==? ProviderKind.Telnyx)
                           && negb (is_some_and (λ binding,
                                 cb_binding_generation binding ==? leg_binding_generation leg)
                                 (sc_bindings (sl_call stored) !! pt_leg_id target)))
                  RepositoryError.StaleClaim);;
        let '(state, failure) := lifecycle_state lifecycle leg in
        command_id ← new_uuid;
        mret (Some (provider_follow_up_transaction target stored at_
          (SetLegState at_ (pt_leg_id target) (leg_binding_generation leg) state failure) command_id))
  end.

(** The head of the outer loop. *)
Definition provider_request (claim : ClaimedProviderEvent) runtime target
    : Svc RepositoryError (option ProviderEventReconciliationTransaction) :=
  let event := cp_event claim in
  ensure_owned;;
  stored ← load_stored (pt_tenant_id target) (pt_call_id target);
  observed_at ← now;
  let received_at := bounded_provider_received_at observed_at (pe_received_at event) in
  let at_ := Z.max observed_at
               (Z.max (ca_updated_at (sc_aggregate (sl_call stored))) received_at) in
  authority ← current_provider_for_event event target stored;
  follow_up ← match authority with
              | Some authority =>
                  build_provider_follow_up authority (pe_kind event) (pe_payload event) target stored at_
              | None => mret None
              end;
  mret (Some
    {| pv_account := pe_account event; pv_event_digest := pe_event_digest event;
       pv_claim_generation := cp_claim_generation claim; pv_worker := lease_of runtime;
       pv_target := target; pv_follow_up := follow_up; pv_at := at_ |}).

Definition submit_provider_event (request : ProviderEventReconciliationTransaction)
    (new_id : nat → EffectId) (store : MemoryRepository)
    : MemoryRepository * result RepositoryError ProviderEventReconciliationOutcome :=
  reconcile_provider_event new_id store request.

Definition execute_provider_event (fuel : nat) (claim : ClaimedProviderEvent) runtime
    : Svc RepositoryError (option ()) :=
  target ← answer (ok_or (pe_target (cp_event claim)) RepositoryError.ProviderReferenceConflict);
  rounds fuel (submit (provider_request claim runtime target) submit_provider_event false true) None.
End Callbacks.

(** ** Claiming work *)

Module ActorWork.
Inductive ActorWork :=
| Call (claim : ClaimedOutbox)
| Control (claim : ClaimedControlEffect)
| Provider (claim : ClaimedProviderEvent)
| Deadline (claim : ClaimedDeadline)
| Restart (claim : RestartClaim).
End ActorWork.
Abbreviation ActorWork := ActorWork.ActorWork.

Definition actor_work_call_id (work : ActorWork) : option CallId :=
  match work with
  | ActorWork.Call claim => Some (ob_call_id (co_record claim))
  | ActorWork.Control claim => Some (cx_call_id (ce_record claim))
  | ActorWork.Provider claim => pt_call_id <$> pe_target (cp_event claim)
  | ActorWork.Deadline claim => Some (dr_call_id (cl_record claim))
  | ActorWork.Restart claim => Some (ca_id (sc_aggregate (rc_call claim)))
  end.

Section Claiming.
Context `{Chrono, ServiceLibs} {env : Environment}.
Implicit Types (runtime : CallServiceRuntime).

Definition claim_startup_cleanup runtime : Svc RepositoryError (list ActorWork) :=
  let worker := lease_of runtime in
  at_ ← now;
  calls ← call id (λ _ store, claim_outbox store worker at_ WORK_CLAIM_TTL WORK_BATCH_SIZE);
  controls ← call id (λ _ store,
    claim_control_effects store worker at_ WORK_CLAIM_TTL WORK_BATCH_SIZE);
  events ← call id (λ _ store,
    claim_provider_events store worker at_ WORK_CLAIM_TTL WORK_BATCH_SIZE);
  deadlines ← call id (λ _ store,
    claim_due_deadlines store worker at_ WORK_CLAIM_TTL WORK_BATCH_SIZE);
  mret ((ActorWork.Call <$> calls) ++ (ActorWork.Control <$> controls)
        ++ (ActorWork.Provider <$> events) ++ (ActorWork.Deadline <$> deadlines)).

(** A claim that fails is logged, and the batch goes on without it. *)
Definition claimed {A} (f : A → ActorWork) (outcome : result RepositoryError (list A))
    : list ActorWork :=
  match outcome with Ok claims => f <$> claims | Err _ => [] end.

Definition claim_durable_work {E} runtime : Svc E (list ActorWork) :=
  let worker := lease_of runtime in
  at_ ← now;
  calls ← attempt (call (E' := RepositoryError) id (λ _ store,
    claim_outbox store worker at_ WORK_CLAIM_TTL WORK_BATCH_SIZE));
  controls ← attempt (call (E' := RepositoryError) id (λ _ store,
    claim_control_effects store worker at_ WORK_CLAIM_TTL WORK_BATCH_SIZE));
  events ← attempt (call (E' := RepositoryError) id (λ _ store,
    claim_provider_events store worker at_ WORK_CLAIM_TTL WORK_BATCH_SIZE));
  deadlines ← attempt (call (E' := RepositoryError) id (λ _ store,
    claim_due_deadlines store worker at_ WORK_CLAIM_TTL WORK_BATCH_SIZE));
  restarts ← attempt (call (E' := RepositoryError) id (λ _ store,
    claim_restart_calls store worker at_ WORK_BATCH_SIZE));
  mret (claimed ActorWork.Call calls ++ claimed ActorWork.Control controls
        ++ claimed ActorWork.Provider events ++ claimed ActorWork.Deadline deadlines
        ++ claimed ActorWork.Restart restarts).
End Claiming.
