(* ===== verification/ExecutionThms.v ===== *)
(** Properties of the worker's tasks ([Execution]): their loops end, a lost race costs one round per
    command that others have committed, an elapsed deadline is committed once, the calls that a dead
    process left behind are wound up, and a provider's callback acts on its own leg only.  The
    programs are reasoned about with a weakest precondition ([wp]), in which other tasks may step
    the store before every action. *)

From S2P Require Import Prelude RustText DomainTypes Domain DomainInv DomainSafety DomainWorld.
From S2P Require Import DomainTrace DomainTheorems CoordModel RepoTypes ServiceTypes Context PlanModel.
From S2P Require Import RepoMemory RepoClaims ServiceCommands ServiceMemory ServiceReconcile.
From S2P Require Import RepoFrame RepoCommit RepoInv RepoEffects ServiceEffects ServiceSample.
From S2P Require Import ServiceControls RepoTheorems RepoDeadlines RepoProgress RepoRows ServiceRecords.
From S2P Require Import ServicePlans ServiceBirths SignalingToken ServiceApi ServiceWorld ServiceFlow.
From S2P Require Import ServiceLinks SignalingThms PlacementThms CommandThms Execution.
From stdpp Require Import options.

(** ** How a call moves on *)

(** A leg that is over stays over. *)
Definition leg_over (leg : Leg) : bool := leg_is_terminal (leg_state leg).

Definition overs_kept (a a' : CallAggregate) : Prop :=
  ∀ i, leg_over (leg_at a i) = true → leg_over (leg_at a' i) = true.

#[export] Instance overs_kept_preorder : PreOrder overs_kept.
Proof. split; [by intros a i|]. intros a b c E1 E2 i Hi. by apply E2, E1. Qed.

Lemma overs_same a a' : ca_leg0 a' = ca_leg0 a → ca_leg1 a' = ca_leg1 a → overs_kept a a'.
Proof. intros E0 E1 []; cbn; by rewrite ?E0, ?E1. Qed.

Lemma overs_set_leg a i leg :
  (leg_over (leg_at a i) = true → leg_over leg = true) → overs_kept a (set_leg a i leg).
Proof. intros Hl []; destruct i; cbn; auto. Qed.

Lemma stop_leg_over t reason leg : leg_over leg = true → leg_over (stop_leg t reason leg).1 = true.
Proof.
  unfold stop_leg, leg_over. intros Hl. destruct (leg_state leg) eqn:E; try done; cbn; by rewrite E.
Qed.

Lemma overs_arm k d a e g a' e' :
  arm_deadline_internal k d (a, e) = Ok (g, (a', e')) → overs_kept a a'.
Proof. intros (_ & _ & [= -> ->])%arm_deadline_ok. by apply overs_same. Qed.

Lemma overs_finalize t a e : overs_kept a (finalize_terminal t (a, e)).1.
Proof. rewrite finalize_terminal_eq, set_call_state_eq. by apply overs_same. Qed.

Lemma overs_begin_ending t o reason d a e a' e' :
  begin_ending_internal t o reason d (a, e) = Ok (a', e') → overs_kept a a'.
Proof.
  rewrite begin_ending_eq. cbv zeta. intros H.
  assert (Hb : overs_kept a (ending_body t o reason a)).
  { unfold ending_body. rewrite set_call_state_eq. intros [] Hi; cbn; by apply stop_leg_over. }
  inv_ok H; injection H as H; subst; [| |exact Hb].
  - pose proof (overs_finalize t (ending_body t o reason a) (e ++ ending_effects t reason a)) as Hf.
    rewrite H in Hf. by etrans.
  - destruct x as [g [b eb]]. cbn in H. simplify_eq. apply overs_arm in Hx. by etrans.
Qed.

Lemma overs_reconcile i t a e a' e' :
  reconcile_leg_state i t (a, e) = Ok (a', e') → overs_kept a a'.
Proof.
  unfold reconcile_leg_state. intros H.
  inv_ok H; try (injection H as <- <-); try (eapply overs_begin_ending; exact H); try done.
  - rewrite cancel_deadline_eq in E0. simplify_eq. rewrite set_call_state_eq. by apply overs_same.
  - injection H as H. match type of H with finalize_terminal _ (?b, _) = _ =>
      pose proof (overs_finalize t b e) as Hf; rewrite H in Hf; transitivity b; [|exact Hf] end.
    destruct (leg_failure _); by apply overs_same.
  - destruct (leg_failure _); by apply overs_same.
Qed.

(** Only the legs of a call that is ending can be over. *)
Lemma over_ending a i :
  valid_call a → leg_over (leg_at a i) = true →
  ca_state a = CallState.Ending ∨ call_is_terminal (ca_state a) = true.
Proof.
  intros [_ [S _ _]] Hl. unfold leg_over in Hl.
  destruct (ca_state a), i; cbn in *; auto; destruct (leg_state (ca_leg0 a)), (leg_state (ca_leg1 a));
    try done; intuition discriminate.
Qed.

Lemma overs_applied a c a' r :
  valid_call a → apply_command a c = Ok (a', r) → cr_disposition r = CommandDisposition.Applied →
  overs_kept a a'.
Proof.
  intros Hv H Hd i Hi. destruct (over_ending a i Hv Hi) as [He|He].
  2: { by destruct (terminal_not_applied a c a' r Hv He H). }
  revert i Hi. change (overs_kept a a'). destruct c; cbn [apply_command] in H.
  6: { destruct (rotate_leg_binding_applied _ _ _ _ _ _ H Hd) as (i & _ & _ & _ & Hc & _).
       congruence. }
  all: open_applied H; rewrite ?He in *; try done.
  - transitivity (set_leg a x (update_leg_state at_ state failure (leg_at a x)));
      [|by eapply overs_reconcile]. apply overs_set_leg.
    apply negb_false_iff, transition_nonterminal in E4. unfold leg_over. by rewrite E4.
  - etrans; [|by eapply overs_reconcile]. apply overs_set_leg. unfold leg_over. by rewrite E1.
  - by eapply overs_arm.
  - by eapply overs_begin_ending.
  - match type of E4 with finalize_terminal _ (?b, ?e) = _ =>
      pose proof (overs_finalize at_ b e) as Hf; rewrite E4 in Hf; transitivity b; [|exact Hf] end.
    intros [] Hi; cbn; unfold fail_leg, leg_over in *; cbn in Hi; by rewrite Hi.
  - assert (ca_replacement a = None) as En by (apply no_replacement; [apply Hv|by rewrite He]).
    change (ca_replacement (put_slot a _ _)) with (ca_replacement a) in E4. rewrite En in E4.
    by destruct (kind ==? DeadlineKind.Transfer).
  - transitivity (put_slot a kind ((deadline_get (ca_deadlines a) kind) <| slot_due_at := None |>));
      [by apply overs_same|by eapply overs_begin_ending].
Qed.

(** How a stored call moves on: its version never goes back, no binding generation does, and no leg
    comes back. *)
Record moves_on (a a' : CallAggregate) : Prop := {
  mv_version : (ca_version a ≤ ca_version a')%N;
  mv_legs i : leg_id (leg_at a' i) = leg_id (leg_at a i);
  mv_gens : gens_le a a';
  mv_overs : overs_kept a a';
}.

#[export] Instance moves_on_decided : Decided moves_on.
Proof.
  split; [split|].
  - intros a. by split.
  - intros a b c [V1 I1 G1 O1] [V2 I2 G2 O2]. split; [lia|intros i; by rewrite I2, I1|by etrans..].
  - intros a c d Hv H. pose proof (decided_version _ _ _ Hv H) as Hver.
    destruct (decide_inv _ _ _ Hv H) as [(b & r & Ha & Hr & _ & _ & E & _)|(E & _)].
    + rewrite E in *. split; [done| | |].
      * apply apply_command_identity, (identity_committed _ _ c) in Ha as (_ & _ & [= E0] & [= E1] & _).
        by intros [].
      * by apply gens_le_committed, (apply_command_progress _ _ _ _ Hv Ha Hr).
      * pose proof (overs_applied _ _ _ _ Hv Ha Hr) as O. intros i Hi. specialize (O i Hi). by destruct i.
    + rewrite E. by split.
Qed.

(** ** Legs that were wound up *)

(** The leg is over, or has another binding than the one of generation [g] or an older one. *)
Definition wound (a : CallAggregate) (id : LegId) (g : BindingGeneration) : Prop :=
  ∃ i, leg_id (leg_at a i) = id ∧
       (leg_over (leg_at a i) = true ∨ (g < leg_binding_generation (leg_at a i))%N).

Lemma wound_moves a a' id g : moves_on a a' → wound a id g → wound a' id g.
Proof.
  intros [_ I G O] (i & Hi & [Ho|Hg]); exists i; (split; [by rewrite I|]); [left; by apply O|right].
  destruct (G i) as [Hle _]. lia.
Qed.

Lemma wound_weaken a id g g' : (g' ≤ g)%N → wound a id g → wound a id g'.
Proof. intros Hle (i & Hi & [Ho|Hg]); exists i; (split; [done|]); [by left|right; lia]. Qed.

(** The command that fails a leg, when it is accepted, winds it up. *)
Lemma failed_leg_wound a t id g f d :
  valid_call a → decide a (SetLegState t id g LegState.Failed f) = Ok d →
  wound (cd_aggregate d) id g.
Proof.
  intros Hv E. pose proof (decided_step a _ d Hv E : moves_on a (cd_aggregate d)) as M.
  unfold decide in E. apply result_bind_ok in E as ([a1 r] & Ha & E).
  assert (∃ i, leg_id (leg_at a i) = id ∧
    (leg_over (leg_at a1 i) = true ∨ (g < leg_binding_generation (leg_at a1 i))%N)) as (i & Hi & Hw).
  { cbn [apply_command] in Ha. unfold set_leg_state in Ha. apply result_bind_ok in Ha as (i & Hi & Ha).
    apply leg_index_ok in Hi. apply result_bind_ok in Ha as (early & He & Ha).
    unfold compare_binding_generation in He.
    destruct (N.ltb_spec g (leg_binding_generation (leg_at a i))) as [Hlt|_].
    { injection He as <-. injection Ha as <- <-. exists i. auto. }
    destruct (_ <? _)%N; [done|]. injection He as <-.
    apply bind_unit_ok in Ha as [_ Ha]. destruct (_ || _); [done|].
    destruct (_ && _); [done|]. destruct (_ && _); [done|]. cbv zeta in Ha.
    destruct (leg_state (leg_at a i) ==? LegState.Failed) eqn:Es.
    { bool_hyps. injection Ha as <- <-. exists i. split; [done|]. left. unfold leg_over. by rewrite Es. }
    destruct (negb _); [done|]. destruct (_ && _); [done|].
    apply result_bind_ok in Ha as ([a2 e] & Hr & Ha). injection Ha as <- <-.
    pose proof (overs_reconcile _ _ _ _ _ _ Hr i) as Ho.
    exists i. split; [done|]. left. apply Ho. by destruct i. }
  exists i. split; [by rewrite (mv_legs _ _ M)|].
  apply result_bind_ok in E as (a2 & E2 & E). apply bind_unit_ok in E as [_ [= <-]]. cbn.
  destruct (_ ==? _); [|by injection E2 as <-].
  apply result_bind_ok in E2 as (v & _ & [= <-]). by destruct i.
Qed.

(** A recorded command that fails a leg has wound it up. *)
Definition fails_ok (s : MemoryState) : Prop :=
  ∀ k m t id g f, rm_commands s !! k = Some m → sm_command m = SetLegState t id g LegState.Failed f →
    ∃ c, rm_calls s !! sm_call_id m = Some c ∧ wound (sc_aggregate c) id g.

(** The command of a service transaction with a result is recorded. *)
Definition results_ok (s : MemoryState) : Prop :=
  ∀ k row, rm_service_command_results s !! k = Some row →
    ∃ m, rm_commands s !! k = Some m ∧ sm_command m = ct_command (st_command (sr_request row)) ∧
         sm_call_id m = ct_call_id (st_command (sr_request row)).

Lemma fails_moved s s' :
  fails_ok s → calls_move moves_on s s' → rm_commands s' = rm_commands s → fails_ok s'.
Proof.
  intros Hok M E k m t id g f Hm Hf. rewrite E in Hm. destruct (Hok _ _ _ _ _ _ Hm Hf) as (c & Hc & Hw).
  destruct (M _ _ Hc) as (c' & Hc' & Mc). exists c'. split; [done|]. by eapply wound_moves.
Qed.

(** One more command, decided on the row it leaves. *)
Lemma fails_recorded s s' k m a d c' :
  fails_ok s → calls_move moves_on s s' → rm_commands s' = <[k := m]> (rm_commands s) →
  valid_call a → decide a (sm_command m) = Ok d → rm_calls s' !! sm_call_id m = Some c' →
  sc_aggregate c' = cd_aggregate d → fails_ok s'.
Proof.
  intros Hok M E Hv Hd Hc Ea. assert (M' : calls_move moves_on s (s' <| rm_commands := rm_commands s |>)) by exact M.
  intros k' m' t id g f. rewrite E. intros [[<- <-]|[_ Hm]]%lookup_insert_Some Hf.
  - exists c'. split; [done|]. rewrite Ea. eapply failed_leg_wound; [exact Hv|]. by rewrite <- Hf.
  - by apply (fails_moved s _ Hok M' eq_refl k' m' t id g f).
Qed.

Section Recorded.
Context {chrono : Chrono} {libs : ServiceLibs}.

Lemma fails_commit_written new_id request s c d view s' :
  valid_call (sc_aggregate c) → fails_ok s → commit_guarded request s c d →
  commit_written new_id request s c d view s' → fails_ok s'.
Proof using.
  intros Hv Hok G W. eapply (fails_recorded s s'); [done|exact (calls_move_committed moves_on _ _ _ _ _ _ _ Hv G W)|apply W|exact Hv|apply G| |].
  - rewrite (cw_calls _ _ _ _ _ _ _ W). apply lookup_insert_eq.
  - done.
Qed.

Lemma fails_create_written new_id request s d k fp s' :
  fails_ok s → create_guarded request s d k fp → create_written new_id request s d k fp s' → fails_ok s'.
Proof using.
  intros Hok G W. eapply (fails_recorded s s'); [done|exact (calls_move_created moves_on _ _ _ _ _ _ _ G W)|apply W|apply G|apply G| |].
  - rewrite (kw_calls _ _ _ _ _ _ _ W). apply lookup_insert_eq.
  - done.
Qed.

Lemma fails_effect s s' : capacity_ok s → fails_ok s → effect s s' → fails_ok s'.
Proof using.
  intros Hcap Hok He. pose proof (calls_move_effect moves_on _ _ Hcap He) as M.
  destruct He; try (by apply (fails_moved s)).
  - by eapply fails_create_written.
  - eapply fails_commit_written; [|done..]. apply (ko_valid _ _ _ (cy_calls s Hcap _ _ (cg_call _ _ _ _ H0))).
  - eapply (fails_recorded s s'); [done|done|apply H2| |apply H1| |].
    + assert (Ha : sc_aggregate (consumed_call request c) = sc_aggregate c)
        by (unfold consumed_call; by destruct (replaces_pending _ _)).
      rewrite Ha. apply (ko_valid _ _ _ (cy_calls s Hcap _ _ (ng_call _ _ _ _ H0))).
    + rewrite (cw_calls _ _ _ _ _ _ _ H2). apply lookup_insert_eq.
    + done.
  - apply (fails_moved s); [done..|]. by apply ingest_frame in H as (? & ? & ->).
  - apply (fails_moved s); [done..|]. by apply bind_frame in H as (? & ? & ->).
  - apply (fails_moved s); [done..|]. by apply apply_event_ok in H1 as (? & _ & _ & ->).
Qed.

Lemma fails_service s s' : capacity_ok s → fails_ok s → service_effect s s' → fails_ok s'.
Proof using.
  intros Hcap Hok He. pose proof (calls_move_service moves_on _ _ Hcap He) as M.
  destruct He; try (by apply (fails_moved s)).
  - apply (fails_moved s); [done..|]. by apply (f_equal rm_commands (side_core _ _ H)).
  - by eapply fails_create_written in H1.
  - eapply (fails_recorded s); [done|done|apply H1| |apply H0| |].
    + apply (ko_valid _ _ _ (cy_calls s Hcap _ _ (cg_call _ _ _ _ H0))).
    + apply lookup_insert_eq.
    + done.
Qed.

Lemma results_kept s s' :
  results_ok s → retains s s' → rm_service_command_results s' = rm_service_command_results s →
  results_ok s'.
Proof using.
  intros Hok R E k row Hk. rewrite E in Hk. destruct (Hok _ _ Hk) as (m & Hm & Hr).
  exists m. split; [|done]. by apply (rt_commands _ _ R).
Qed.

Lemma results_service s s' : capacity_ok s → results_ok s → service_effect s s' → results_ok s'.
Proof using.
  intros Hcap Hok He. pose proof (retains_service _ _ Hcap He) as R. destruct He.
  - destruct H; try by apply (results_kept s).
    intros k row Hk. cbn in Hk. apply lookup_insert_Some in Hk as [[<- <-]|[_ Hk]]; [done|by apply Hok].
  - by apply (results_kept s).
  - apply (results_kept s); [done|done|]. exact (f_equal rm_service_command_results (kw_service _ _ _ _ _ _ _ H1)).
  - by apply (results_kept s).
  - apply (results_kept s); [done|done|]. exact (f_equal rm_service_command_results (cw_service _ _ _ _ _ _ _ H1)).
Qed.

Lemma results_effect s s' : capacity_ok s → results_ok s → effect s s' → results_ok s'.
Proof using.
  intros Hcap Hok He. apply (results_kept s); [done|by apply retains_effect|].
  exact (f_equal rm_service_command_results (effect_service_part _ _ He)).
Qed.

Lemma store_fails r : store_reachable r → fails_ok (mr_state r).
Proof using. by apply (store_reachable_invariant fails_ok); [apply fails_effect|apply fails_service|]. Qed.

Lemma store_results r : store_reachable r → results_ok (mr_state r).
Proof using. by apply (store_reachable_invariant results_ok); [apply results_effect|apply results_service|]. Qed.
End Recorded.

(** ** The row of a call *)

(** The version of a call is bounded, and its bindings are filed under their legs. *)
Record row_fine (c : StoredCall) : Prop := {
  rf_version : (ca_version (sc_aggregate c) ≤ MAX_PERSISTED_GENERATION)%N;
  rf_keys l binding : sc_bindings c !! l = Some binding → cb_leg_id binding = l;
}.

Definition rows_fine (s : MemoryState) : Prop := ∀ id c, rm_calls s !! id = Some c → row_fine c.

Lemma decided_bound a command d :
  valid_call a → (ca_version a ≤ MAX_PERSISTED_GENERATION)%N → decide a command = Ok d →
  (ca_version (cd_aggregate d) ≤ MAX_PERSISTED_GENERATION)%N.
Proof.
  intros Hv Hle Hd. destruct (decide_keeps _ _ _ Hv Hd) as (_ & _ & _ & _ & E).
  destruct (decide_inv _ _ _ Hv Hd) as [(b & r & _ & _ & _ & Hlt & _)|(-> & _)]; [|done].
  destruct (applies d); [lia|]. by destruct E as [-> _].
Qed.

Lemma row_fine_committed request c d :
  valid_call (sc_aggregate c) → decide (sc_aggregate c) (ct_command request) = Ok d → row_fine c →
  row_fine (committed_call request c d).
Proof.
  intros Hv Hd [Hle Hk]. split; cbn; [by eapply decided_bound|].
  intros l b. destruct (applies d); [|apply Hk]. intros [Hb _]%map_lookup_filter_Some. by apply Hk.
Qed.

Lemma row_fine_bound c binding : row_fine c → row_fine (bound_call c binding).
Proof. intros [Hle Hk]. split; [done|]. cbn. intros l b [[<- <-]|[_ Hb]]%lookup_insert_Some; auto. Qed.

Lemma row_fine_consumed request c : row_fine c → row_fine (consumed_call request c).
Proof.
  intros Hc. unfold consumed_call. destruct (replaces_pending _ _); [done|].
  by apply (row_fine_bound c (consumed_binding request)).
Qed.

Lemma rows_fine_put s s' (id : CallId) c :
  rows_fine s → rm_calls s' = <[id := c]> (rm_calls s) → row_fine c → rows_fine s'.
Proof. intros Hok E Hc id' c'. rewrite E. intros [[<- <-]|[_ Hc']]%lookup_insert_Some; eauto. Qed.

Lemma rows_fine_same s s' : rows_fine s → rm_calls s' = rm_calls s → rows_fine s'.
Proof. intros Hok E id c. rewrite E. apply Hok. Qed.

Section Rows.
Context {chrono : Chrono} {libs : ServiceLibs}.

Lemma rows_fine_created new_id request s d k fp s' :
  rows_fine s → create_guarded request s d k fp → create_written new_id request s d k fp s' →
  rows_fine s'.
Proof using.
  intros Hok G W. eapply rows_fine_put; [exact Hok|apply W|]. split; [|done]. cbn.
  eapply decided_bound; [apply G| |apply G]. rewrite (kg_version _ _ _ _ _ G). lia.
Qed.

Lemma rows_fine_written new_id request s c d view s' :
  valid_call (sc_aggregate c) → rows_fine s → row_fine c → commit_guarded request s c d →
  commit_written new_id request s c d view s' → rows_fine s'.
Proof using.
  intros Hv Hok Hc G W. eapply rows_fine_put; [exact Hok|apply W|].
  apply row_fine_committed; [done|apply G|done].
Qed.

Lemma rows_fine_effect s s' : capacity_ok s → rows_fine s → effect s s' → rows_fine s'.
Proof using.
  intros Hcap Hok He. destruct He; try done.
  - by eapply rows_fine_created.
  - pose proof (cg_call _ _ _ _ H0) as Hc.
    eapply rows_fine_written; [|done|by eapply Hok|done..]. apply (ko_valid _ _ _ (cy_calls s Hcap _ _ Hc)).
  - pose proof (ng_call _ _ _ _ H0) as Hc.
    assert (Hf : row_fine (consumed_call request c)) by (apply row_fine_consumed; by eapply Hok).
    eapply rows_fine_written; [|exact (rows_fine_put s (consumed_state request row c s) _ _ Hok eq_refl Hf)|exact Hf|exact H1|exact H2].
    assert (Ha : sc_aggregate (consumed_call request c) = sc_aggregate c)
      by (unfold consumed_call; by destruct (replaces_pending _ _)).
    rewrite Ha. apply (ko_valid _ _ _ (cy_calls s Hcap _ _ Hc)).
  - apply (rows_fine_same s); [done|]. by apply ingest_frame in H as (? & ? & ->).
  - apply (rows_fine_same s); [done|]. by apply bind_frame in H as (? & ? & ->).
  - apply (rows_fine_same s); [done|]. by apply apply_event_ok in H1 as (? & _ & _ & ->).
  - eapply rows_fine_put; [exact Hok|done|]. destruct (Hok _ _ H). by split.
Qed.

Lemma rows_fine_service s s' : capacity_ok s → rows_fine s → service_effect s s' → rows_fine s'.
Proof using.
  intros Hcap Hok He. destruct He; try done.
  - apply (rows_fine_same s); [done|]. by apply (f_equal rm_calls (side_core _ _ H)).
  - by eapply rows_fine_created in H1.
  - eapply rows_fine_put; [exact Hok|done|]. apply (row_fine_bound c (outbound_binding request)).
    eapply Hok, H.
  - pose proof (cg_call _ _ _ _ H0) as Hc.
    eapply (rows_fine_put s1); [|done|].
    + eapply rows_fine_written; [|done|by eapply Hok|done..]. apply (ko_valid _ _ _ (cy_calls s Hcap _ _ Hc)).
    + apply (row_fine_bound _ binding), row_fine_committed; [|apply H0|by eapply Hok].
      apply (ko_valid _ _ _ (cy_calls s Hcap _ _ Hc)).
Qed.

Lemma store_rows_fine r : store_reachable r → rows_fine (mr_state r).
Proof using.
  by apply (store_reachable_invariant rows_fine); [apply rows_fine_effect|apply rows_fine_service|].
Qed.
End Rows.

(** ** Why a commit is refused *)

Lemma ok_or_err {E A} (o : option A) (e e' : E) : ok_or o e = Err e' → e' = e.
Proof. destruct o; cbn; [done|by intros [= <-]]. Qed.

(** The store is never unavailable, and a version conflict means that the call is at another version
    than the one that was read. *)
Definition refused (s : MemoryState) (id : CallId) (version : AggregateVersion)
    (e : RepositoryError) : Prop :=
  match e with
  | RepositoryError.Unavailable => False
  | RepositoryError.VersionConflict =>
      ∃ c, rm_calls s !! id = Some c ∧ ca_version (sc_aggregate c) ≠ version
  | _ => True
  end.

Lemma ensure_worker_refused s id v w b at_ e : ensure_worker s w b at_ = Err e → refused s id v e.
Proof.
  unfold ensure_worker. intros [H|(k & _ & H)]%result_bind_err.
  - destruct (leased_worker _ _); [done|]. by injection H as <-.
  - cbv zeta in H. destruct (_ || _); [by injection H as <-|done].
Qed.

Lemma tenant_call_refused s id v t i e : tenant_call s t i = Err e → refused s id v e.
Proof. unfold tenant_call. destruct (_ : option StoredCall); [done|]. by intros [= <-]. Qed.

Lemma call_worker_refused s id v t i w at_ e :
  ensure_call_worker s t i w at_ = Err e → refused s id v e.
Proof.
  unfold ensure_call_worker. intros [H|(u & _ & H)]%result_bind_err; [by eapply ensure_worker_refused|].
  apply result_bind_err in H as [H|(c & _ & H)]; [by eapply tenant_call_refused|].
  destruct (_ || _); [by injection H as <-|done].
Qed.

Lemma command_claim_refused s id v request e :
  validate_command_deadline_claim request = Err e → refused s id v e.
Proof.
  unfold validate_command_deadline_claim.
  destruct (ct_command request), (ct_deadline_claim request); try done; try (by intros [= <-]).
  destruct (_ && _); [done|by intros [= <-]].
Qed.

Lemma deadline_claim_refused s id v claim at_ e :
  validate_deadline_claim s claim at_ = Err e → refused s id v e.
Proof.
  unfold validate_deadline_claim. destruct claim as [g|]; [|done].
  intros [H|(r & _ & H)]%result_bind_err; [destruct (rm_deadlines s !! _); [done|by injection H as <-]|].
  destruct (dr_state r); try by injection H as <-. destruct (_ && _); [done|by injection H as <-].
Qed.

(** What the guards of a commit rely on, in every reachable store. *)
Record sound (s : MemoryState) : Prop := {
  so_capacity : capacity_ok s;
  so_deadlines : deadlines_ok s;
  so_controls : controls_ok s;
}.

Lemma store_sound `{Chrono, ServiceLibs} r : store_reachable r → sound (mr_state r).
Proof. intros Hr. split; [by apply store_capacity|by apply store_deadlines|by apply store_controls]. Qed.

(** A fresh command without attachments. *)
Lemma commit_refused new_id request s e :
  sound s → rm_commands s !! ct_command_id request = None → ct_attachments request = [] →
  commit_command_in_state new_id request s = Err e →
  refused s (ct_call_id request) (ct_expected_version request) e.
Proof.
  intros [Hcap Hdl Hctl] Hf Ha H. unfold commit_command_in_state in H.
  apply result_bind_err in H as [H|([] & Ht & H)].
  { unfold validate_command_timestamp in H. destruct (_ ==? _); [done|by injection H as <-]. }
  destruct (command_id_conflicts_with_service_namespace _ _); [by injection H as <-|].
  rewrite Hf in H. apply result_bind_err in H as [H|([] & Hw & H)]; [by eapply call_worker_refused|].
  apply ensure_call_worker_ok in Hw as [Hcur (c & Hc & Hten & Hrel & Hl)].
  rewrite (proj2 (tenant_call_ok s _ _ c)) in H by done. cbn [mbind result_bind] in H.
  destruct (_ !=? _) eqn:Ev; [injection H as <-; exists c; split; [done|by bool_hyps]|]. bool_hyps.
  apply result_bind_err in H as [H|([] & Hd1 & H)]; [by eapply command_claim_refused|].
  apply result_bind_err in H as [H|([] & Hd2 & H)]; [by eapply deadline_claim_refused|].
  apply result_bind_err in H as [H|(d & Hd%domain_rejected_ok & H)].
  { unfold domain_rejected in H. destruct (Domain.decide _ _); [done|by injection H as <-]. }
  rewrite Ha in H. cbn [validate_requested_attachments try_each mbind result_bind] in H.
  apply validate_command_timestamp_ok in Ht.
  destruct (commit_command_rows_succeeds new_id request s c d) as [y Hy]; try done.
  - by rewrite Ha.
  - rewrite Ha. repeat split; constructor.
  - congruence.
Qed.

(** A transaction that carries one command, perhaps with the guard of a bound connection. *)
Record plain (request : ServiceCommandTransaction) : Prop := {
  pl_payloads : st_effect_payloads request = [];
  pl_operation : st_operation_idempotency request = None;
  pl_media : st_media_activity request = None;
  pl_replacement : st_replacement_connection request = None;
  pl_attachments : ct_attachments (st_command request) = [];
}.

Lemma match_nothing s id v outbox e : match_payloads [] outbox = Err e → refused s id v e.
Proof.
  induction outbox as [|o outbox IH]; [done|]. cbn [match_payloads].
  intros [H|(p & _ & H)]%result_bind_err.
  - unfold match_payload in H. cbn [List.find] in H. destruct (ob_intent o); unfold invalid in H; by simplify_eq.
  - apply result_bind_err in H as [H|(ps & _ & H)]; [by apply IH|done].
Qed.

(** The rows of the service that such a transaction adds. *)
Lemma plain_rows `{Chrono} request core s :
  plain request →
  (∃ e, service_command_rows request core s = Err e ∧ ∀ s0 id v, refused s0 id v e) ∨
  ∃ view, sv_command view = core ∧ service_command_rows request core s =
    Ok (ServiceCommandOutcome.Committed view,
        s <| rm_service_command_results :=
          <[ct_command_id (st_command request) := {| sr_request := request; sr_view := view |}]>
            (rm_service_command_results s) |>).
Proof.
  intros [Hp Ho Hm Hr Ha]. unfold service_command_rows, apply_replacement_connection, refresh_promoted.
  cbv zeta. rewrite Hp, Ho, Hm, Hr. cbn [mbind result_bind].
  destruct (match_payloads [] (cv_outbox core)) as [ps|e] eqn:Em.
  - assert (ps = []) as ->.
    { clear -Em. revert ps Em. induction (cv_outbox core) as [|o os IH]; intros ps Em; [by injection Em as <-|].
      cbn [match_payloads] in Em. apply result_bind_ok in Em as (p & Hp & Em).
      apply result_bind_ok in Em as (rest & Hrest & Em). apply IH in Hrest as ->.
      unfold match_payload in Hp. cbn [List.find] in Hp.
      destruct (ob_intent o); unfold invalid in Hp; by simplify_eq. }
    right. eexists. split; [|reflexivity]. done.
  - left. exists e. split; [done|]. intros. by eapply match_nothing.
Qed.

Section Plain.
Context `{Chrono, ServiceLibs}.

Lemma plain_refused new_id request allow s e :
  sound s → plain request → commit_service_command_in_state new_id request allow s = Err e →
  refused s (ct_call_id (st_command request)) (ct_expected_version (st_command request)) e.
Proof using.
  intros Hs Hpl E. pose proof Hpl as [Hp Ho Hm Hr Ha]. unfold commit_service_command_in_state in E.
  cbv zeta in E. rewrite Hm in E. cbn [is_some andb reject_if mbind result_bind] in E.
  unfold replay_service_operation in E. rewrite Ho in E. cbn [mbind result_bind] in E.
  open_option E; [destruct (_ ==? _); [done|by injection E as <-]|].
  apply result_bind_err in E as [E|([] & Hfresh & E)]; [by apply reject_if_err in E as [_ ->]|].
  apply reject_if_ok, orb_false_iff in Hfresh as [[Hf _]%orb_false_iff _].
  apply contains_key_false in Hf.
  apply result_bind_err in E as [E|([] & _ & E)]; [by apply reject_if_err in E as [_ ->]|].
  unfold validate_transfer_payload_targets, validate_media_activity_guard,
    validate_replacement_connection in E. rewrite Hp, Hm, Hr in E. cbn [mbind result_bind] in E.
  destruct (rm_calls s !! _) as [c|]; [|by injection E as <-]. cbn [ok_or try_each mbind result_bind] in E.
  apply result_bind_err in E as [E|([o s1] & _ & E)]; [by eapply commit_refused|].
  destruct o as [core|?]; [|by injection E as <-].
  destruct (plain_rows request core s1 Hpl) as [(e' & Er & Hh)|(view & _ & Er)]; [|congruence].
  rewrite E in Er. injection Er as <-. apply Hh.
Qed.

(** A success is the recorded answer to the same transaction, or the commit of its command. *)
Lemma plain_ok new_id request allow s out s' :
  sound s → plain request → commit_service_command_in_state new_id request allow s = Ok (out, s') →
  (∃ row, rm_service_command_results s !! ct_command_id (st_command request) = Some row ∧
     sr_request row = request ∧ s' = s ∧ out = ServiceCommandOutcome.Replayed (sr_view row)) ∨
  (∃ c d view s1, commit_guarded (st_command request) s c d ∧
     commit_written new_id (st_command request) s c d (sv_command view) s1 ∧
     out = ServiceCommandOutcome.Committed view ∧
     s' = s1 <| rm_service_command_results :=
       <[ct_command_id (st_command request) := {| sr_request := request; sr_view := view |}]>
         (rm_service_command_results s1) |>).
Proof using.
  intros Hs Hpl E. pose proof Hpl as [Hp Ho Hm Hr Ha]. unfold commit_service_command_in_state in E.
  cbv zeta in E. rewrite Hm in E. cbn [is_some andb reject_if mbind result_bind] in E.
  unfold replay_service_operation in E. rewrite Ho in E. cbn [mbind result_bind] in E.
  open_option E.
  { destruct (_ ==? _) eqn:Eq; [|done]. injection E as <- <-. left. bool_hyps. by eexists. }
  apply bind_reject_ok in E as [_ E]. apply bind_reject_ok in E as [_ E].
  do 3 apply bind_unit_ok in E as [_ E]. apply result_bind_ok in E as ([o s1] & E1 & E).
  apply commit_command_ok in E1 as [(_ & ? & ? & -> & _)|(c & d & core & -> & G & W)]; [done| |].
  2: { intros c Hc. apply (cy_calls _ (so_capacity _ Hs) _ _ Hc). }
  destruct (plain_rows request core s1 Hpl) as [(e' & Er & _)|(view & <- & Er)]; [congruence|].
  rewrite E in Er. injection Er as -> ->. right. by exists c, d, view, s1.
Qed.

(** Such a transaction is submitted as it is. *)
Lemma normalize_plain request :
  plain request →
  match st_bound_connection request with
  | Some guard => bound_guard_matches (ct_command (st_command request)) guard = true
  | None => True
  end → normalize_service_command request = Ok request.
Proof using.
  destruct request as [command payloads operation bound media replacement].
  intros [Hp Ho Hm Hr _] Hb. cbn in *. subst. unfold normalize_service_command. cbn.
  destruct bound as [guard|]; cbn; [by rewrite Hb|done].
Qed.

Lemma command_transaction_plain t i stored k command w claim at_ :
  plain (command_transaction t i stored k command w claim at_ None).
Proof using. done. Qed.

(** A method that a task submits, for a call at the version it read: a refusal leaves the store as it
    is, and is never for want of the store. *)
Record submits {A} (id : CallId) (version : AggregateVersion)
    (method : (nat → EffectId) → MemoryRepository → MemoryRepository * result RepositoryError A)
    : Prop := {
  sb_step new_id r : fresh_ids new_id (mr_state r) → store_step r (method new_id r).1;
  sb_refused new_id r r' e : store_reachable r → method new_id r = (r', Err e) →
    r' = r ∧ refused (mr_state r) id version e;
}.

Lemma transaction_refusal {A} r (tx : Tx A) r' e :
  store_reachable r → transaction r tx = (r', Err e) → r' = r ∧ tx (mr_state r) = Err e.
Proof using.
  intros Hr. unfold transaction, lock. rewrite (store_lock _ Hr).
  destruct (tx (mr_state r)) as [[v s]|]; [done|]. by intros [= <- <-].
Qed.

Lemma commit_transaction_submits request :
  plain request → st_bound_connection request = None →
  submits (ct_call_id (st_command request)) (ct_expected_version (st_command request))
    (commit_transaction request).
Proof using.
  intros Hp Hb. split; [right; by apply step_service_command|].
  intros new_id r r' e Hr. unfold commit_transaction, commit_with_effect_payloads.
  rewrite normalize_plain by (done || by rewrite Hb).
  intros [-> H1]%transaction_refusal; [|done]. split; [done|].
  by eapply plain_refused; [apply store_sound| |exact H1].
Qed.

(** What the success of a plain transaction did. *)
Inductive transacted (request : ServiceCommandTransaction) (r r' : MemoryRepository) : Prop :=
| was_recorded row :
    rm_service_command_results (mr_state r) !! ct_command_id (st_command request) = Some row →
    sr_request row = request → r' = r → transacted request r r'
| is_committed new_id c d view s1 :
    commit_guarded (st_command request) (mr_state r) c d →
    commit_written new_id (st_command request) (mr_state r) c d (sv_command view) s1 →
    r' = r <| mr_state := s1 <| rm_service_command_results :=
           <[ct_command_id (st_command request) := {| sr_request := request; sr_view := view |}]>
             (rm_service_command_results s1) |> |> → transacted request r r'.

Lemma transacted_intro new_id request allow r out s' :
  store_reachable r → plain request →
  commit_service_command_in_state new_id request allow (mr_state r) = Ok (out, s') →
  transacted request r (r <| mr_state := s' |>).
Proof using.
  intros Hr Hp E. apply plain_ok in E as [(row & Hrow & Eq & -> & _)|(c & d & view & s1 & G & W & _ & ->)];
    [| |by apply store_sound|done].
  - eapply was_recorded; [exact Hrow|exact Eq|]. by destruct r.
  - by eapply is_committed.
Qed.

Lemma commit_transaction_ok new_id request r r' out :
  store_reachable r → plain request → st_bound_connection request = None →
  commit_transaction request new_id r = (r', Ok out) → transacted request r r'.
Proof using.
  intros Hr Hp Hb. unfold commit_transaction, commit_with_effect_payloads.
  rewrite normalize_plain by (done || by rewrite Hb).
  intros (_ & s' & E & ->)%transaction_ok. by eapply transacted_intro.
Qed.

Definition bound_transaction (request : BoundConnectionStateCommit) : ServiceCommandTransaction :=
  guarded_transaction (bs_tenant_id request) (bs_call_id request) (bs_expected_version request)
    (bs_command_id request)
    (SetLegState (bs_at request) (bs_leg_id request) (bs_binding_generation request)
       (bs_state request) (bs_failure request))
    (bs_worker request) (bs_at request)
    (Some {| bg_connection_id := bs_connection_id request; bg_leg_id := bs_leg_id request;
             bg_binding_generation := bs_binding_generation request |}) None.

Lemma bound_plain request : plain (bound_transaction request).
Proof using. done. Qed.

Lemma bound_normal request :
  normalize_service_command (bound_transaction request) = Ok (bound_transaction request).
Proof using.
  apply normalize_plain; [done|]. cbn. by rewrite !bool_decide_eq_true_2.
Qed.

Lemma commit_bound_submits request :
  submits (bs_call_id request) (bs_expected_version request)
    (λ new_id store, commit_bound_connection_state new_id store request).
Proof using.
  split; [right; by apply step_bound_state|].
  intros new_id r r' e Hr [-> E]%transaction_refusal; [|done]. split; [done|].
  unfold commit_bound_connection_state_in_state in E.
  apply result_bind_err in E as [E|([] & _ & E)]; [by apply reject_if_err in E as [_ ->]|].
  cbv zeta in E. fold (bound_transaction request) in E. rewrite bound_normal in E.
  cbn [mbind result_bind] in E. unfold commit_bound_in_state in E.
  destruct (contains_key _ _); [by eapply (plain_refused _ (bound_transaction request)); [apply store_sound|..]|].
  apply result_bind_err in E as [E|([] & _ & E)]; [by eapply call_worker_refused|].
  apply result_bind_err in E as [E|(c & _ & E)]; [by apply ok_or_err in E as ->|].
  apply result_bind_err in E as [E|(b & _ & E)]; [by apply ok_or_err in E as ->|].
  apply result_bind_err in E as [E|([] & _ & E)]; [by apply reject_if_err in E as [_ ->]|].
  cbv zeta in E.
  apply result_bind_err in E as [E|([] & _ & E)]; [by apply reject_if_err in E as [_ ->]|].
  by eapply (plain_refused _ (bound_transaction request)); [apply store_sound|..].
Qed.

Lemma commit_bound_ok new_id request r r' out :
  store_reachable r → commit_bound_connection_state new_id r request = (r', Ok out) →
  transacted (bound_transaction request) r r'.
Proof using.
  intros Hr (_ & s' & E & ->)%transaction_ok. unfold commit_bound_connection_state_in_state in E.
  apply bind_reject_ok in E as [_ E]. cbv zeta in E. fold (bound_transaction request) in E.
  rewrite bound_normal in E. cbn [mbind result_bind] in E. unfold commit_bound_in_state in E.
  destruct (contains_key _ _); [by eapply transacted_intro|].
  apply bind_unit_ok in E as [_ E]. apply result_bind_ok in E as (c & _ & E).
  apply result_bind_ok in E as (b & _ & E). do 2 apply bind_reject_ok in E as [_ E].
  by eapply transacted_intro.
Qed.

(** A transaction that fails a leg has wound it up, also when it was recorded before. *)
Lemma transacted_wound request r r' t l g f :
  store_reachable r → transacted request r r' →
  ct_command (st_command request) = SetLegState t l g LegState.Failed f →
  ∃ c, rm_calls (mr_state r') !! ct_call_id (st_command request) = Some c ∧
       wound (sc_aggregate c) l g.
Proof using.
  intros Hr [row Hrow <- ->|new_id c d view s1 G W ->] Hc.
  - destruct (store_results _ Hr _ _ Hrow) as (m & Hm & Em & <-).
    eapply (store_fails _ Hr); [exact Hm|]. by rewrite Em.
  - exists (committed_call (st_command request) c d). split.
    + cbn. rewrite (cw_calls _ _ _ _ _ _ _ W). apply lookup_insert_eq.
    + eapply failed_leg_wound; [|rewrite <- Hc; apply G].
      apply (ko_valid _ _ _ (cy_calls _ (store_capacity _ Hr) _ _ (cg_call _ _ _ _ G))).
Qed.
End Plain.

(** ** Tasks that always answer *)

(** [wp m w Q]: from [w], the program neither panics nor hangs, and its answer satisfies [Q]. *)
Definition wp {E A} (m : Svc E A) (w : World) (Q : World → result E A → Prop) : Prop :=
  match m w with (w', Some r) => Q w' r | (_, None) => False end.

Section Wp.
Context `{Chrono, ServiceLibs} {env : Environment} `{!EnvironmentLaws}.

Lemma wp_weaken {E A} (m : Svc E A) w (P Q : World → result E A → Prop) :
  wp m w P → (∀ w' r, P w' r → Q w' r) → wp m w Q.
Proof using. unfold wp. destruct (m w) as [w' [r|]]; auto. Qed.

Lemma wp_bind {E A B} (m : Svc E A) (f : A → Svc E B) w Q :
  wp m w (λ w' r, match r with Ok x => wp (f x) w' Q | Err e => Q w' (Err e) end) →
  wp (m ≫= f) w Q.
Proof using. unfold wp, mbind, Svc_bind. by destruct (m w) as [w' [[x|e]|]]. Qed.

Lemma wp_ret {E A} (x : A) w (Q : World → result E A → Prop) : Q w (Ok x) → wp (mret x) w Q.
Proof using. done. Qed.

Lemma wp_answer {E A} (r : result E A) w Q : Q w r → wp (answer r) w Q.
Proof using. done. Qed.

Lemma wp_now {E} w (Q : World → result E DateTime → Prop) :
  (∀ t, Q (tick w) (Ok t)) → wp now w Q.
Proof using. intros HQ. apply HQ. Qed.

Lemma wp_uuid {E} w (Q : World → result E Uuid → Prop) : (∀ u, Q (tick w) (Ok u)) → wp new_uuid w Q.
Proof using. intros HQ. apply HQ. Qed.

Lemma wp_attempt {E E' A} (m : Svc E A) w (Q : World → result E' (result E A) → Prop) :
  wp m w (λ w' r, Q w' (Ok r)) → wp (attempt m) w Q.
Proof using. unfold wp, attempt. by destruct (m w) as [w' [r|]]. Qed.

(** A method, after whatever the others did. *)
Lemma wp_call {A} (method : (nat → EffectId) → MemoryRepository → MemoryRepository * result _ A) w
    (Q : World → result RepositoryError A → Prop) :
  (∀ new_id r, rtc other_step (wo_store w) r → fresh_ids new_id (mr_state r) →
     Q (after (method new_id r).1 w) (method new_id r).2) → wp (call id method) w Q.
Proof using All.
  intros HQ. specialize (HQ (ev_effect_ids (wo_step w) (found w)) (found w)).
  specialize (HQ (other_once _ _) (effect_ids_fresh _ _)). unfold wp, call. fold (found w).
  destruct (method _ _) as [r' o]. cbn in *. by destruct o.
Qed.

(** A loop whose rounds raise a measure: it still runs only when the measure has risen by as much as
    there were rounds. *)
Lemma wp_rounds {E S A} fuel (body : S → Svc E (S + A)) (I : S → World → Prop) (μ : S → World → N)
    bound (Q : World → result E (option A) → Prop) s w :
  (∀ s w, I s w → wp (body s) w (λ w' r,
     match r with
     | Ok (inl s') => I s' w' ∧ (μ s w < μ s' w')%N
     | Ok (inr a) => Q w' (Ok (Some a))
     | Err e => Q w' (Err e)
     end)) →
  (∀ s' w', I s' w' → (bound ≤ μ s' w')%N → Q w' (Ok None)) →
  I s w → (bound ≤ μ s w + N.of_nat fuel)%N → wp (rounds fuel body s) w Q.
Proof using.
  intros Hb Hend. revert s w. induction fuel as [|fuel IH]; intros s w HI Hm; cbn [rounds].
  - apply wp_ret, (Hend s); [done|lia].
  - apply wp_bind, (wp_weaken _ _ _ _ (Hb s w HI)). intros w' [[s'|a]|e]; [|done..].
    intros [HI' Hlt]. apply IH; [done|lia].
Qed.

(** ** The version of a call *)

Definition version_of (id : CallId) (r : MemoryRepository) : AggregateVersion :=
  from_option (λ c, ca_version (sc_aggregate c)) 0%N (rm_calls (mr_state r) !! id).

Lemma calls_move_on r r' :
  store_reachable r → rtc store_step r r' → calls_move moves_on (mr_state r) (mr_state r').
Proof using. intros Hr Hs. apply calls_move_run; [apply _|done|by apply store_capacity]. Qed.

Lemma version_run id r r' :
  store_reachable r → rtc store_step r r' → (version_of id r ≤ version_of id r')%N.
Proof using.
  intros Hr Hs. unfold version_of. destruct (rm_calls (mr_state r) !! id) as [c|] eqn:Hc; cbn; [|lia].
  destruct (calls_move_on _ _ Hr Hs _ _ Hc) as (c' & -> & M). apply M.
Qed.

(** ** Reading and submitting *)

Context {own : Ownership}.

(** Nothing is written: the others alone changed the store. *)
Definition idle (w w' : World) : Prop := rtc other_step (wo_store w) (wo_store w').

#[export] Instance idle_preorder : PreOrder idle.
Proof using. split; [intros w; apply rtc_refl|]. intros a b c E1 E2. unfold idle in *. by etrans. Qed.

Lemma idle_reachable w w' : store_reachable (wo_store w) → idle w w' → store_reachable (wo_store w').
Proof using All. apply others_reachable. Qed.

(** The error is that of a worker that has just found its lease lost or its wait interrupted. *)
Definition disturbed (w' : World) (e : RepositoryError) : Prop :=
  e = RepositoryError.Unavailable ∧
  ∃ n, wo_step w' = S n ∧ (ow_lost n = true ∨ ow_interrupted n = true).

Lemma wp_owned w Q :
  Q (tick w) (Ok ()) →
  (disturbed (tick w) RepositoryError.Unavailable → Q (tick w) (Err RepositoryError.Unavailable)) →
  wp ensure_owned w Q.
Proof using.
  intros HQ He. unfold wp, ensure_owned. destruct (ow_lost _) eqn:El; [|done].
  apply He. split; [done|]. exists (wo_step w). auto.
Qed.

Lemma wp_wait w Q :
  Q (tick w) (Ok ()) →
  (disturbed (tick w) RepositoryError.Unavailable → Q (tick w) (Err RepositoryError.Unavailable)) →
  wp wait w Q.
Proof using.
  intros HQ He. unfold wp, wait. destruct (ow_interrupted _) eqn:El; [|done].
  apply He. split; [done|]. exists (wo_step w). auto.
Qed.

Lemma wp_await {A} (m : Svc RepositoryError A) w Q :
  (∀ w', wo_store w' = wo_store w → wp m w' Q) →
  (∀ w', wo_store w' = wo_store w → disturbed w' RepositoryError.Unavailable →
     Q w' (Err RepositoryError.Unavailable)) →
  wp (await_while_execution_owned m) w Q.
Proof using.
  intros Hm He. apply wp_bind, wp_owned; [|by apply He].
  apply wp_bind, wp_wait; [by apply Hm|by apply He].
Qed.

(** The call that was read is the one in the store. *)
Definition loaded (t : TenantId) (id : CallId) (w : World) (stored : StoredServiceCall) : Prop :=
  rm_calls (mr_state (wo_store w)) !! id = Some (sl_call stored) ∧
  ca_tenant_id (sc_aggregate (sl_call stored)) = t ∧ ca_id (sc_aggregate (sl_call stored)) = id.

Lemma loaded_version t id w stored :
  loaded t id w stored → ca_version (sc_aggregate (sl_call stored)) = version_of id (wo_store w).
Proof using. intros [Hc _]. unfold version_of. by rewrite Hc. Qed.

Lemma wp_load t id w Q :
  store_reachable (wo_store w) →
  (∀ w' stored, idle w w' → loaded t id w' stored → Q w' (Ok stored)) →
  (∀ w' e, idle w w' → load_service_call (wo_store w') t id = Err e → Q w' (Err e)) →
  wp (load_stored t id) w Q.
Proof using All.
  intros Hr HQ He. apply wp_call. intros _ r Ho _. cbn [fst snd].
  pose proof (others_reachable _ _ Hr Ho) as Hr'.
  destruct (load_service_call r t id) as [stored|e] eqn:El; [|by apply He]. apply HQ; [done|].
  pose proof (load_service_call_ok _ _ _ _ Hr' El) as [Ht Hi]. split; [|done].
  unfold load_service_call, read, lock in El. rewrite (store_lock _ Hr') in El. cbn [mbind result_bind] in El.
  apply result_bind_ok in El as (c & [Hc _]%tenant_call_ok & El). apply bind_reject_ok in El as [_ El].
  apply result_bind_ok in El as (plan & _ & El). by apply result_bind_ok in El as (att & _ & [= <-]).
Qed.

Lemma wp_observe stored w Q :
  (∀ at_, ca_updated_at (sc_aggregate (sl_call stored)) ≤ at_ → Q (tick w) (Ok at_)) →
  wp (observe stored) w Q.
Proof using. intros HQ. apply wp_bind, wp_now. intros t. apply wp_ret, HQ. lia. Qed.

Lemma version_idle id w w' :
  store_reachable (wo_store w) → idle w w' →
  (version_of id (wo_store w) ≤ version_of id (wo_store w'))%N.
Proof using All. intros Hr Hi. by apply version_run, others_run. Qed.

(** The store refuses the method, and is as it was. *)
Definition refuses {A}
    (method : (nat → EffectId) → MemoryRepository → MemoryRepository * result RepositoryError A)
    (w' : World) (e : RepositoryError) : Prop :=
  ∃ new_id, fresh_ids new_id (mr_state (wo_store w')) ∧
    method new_id (wo_store w') = (wo_store w', Err e).

(** Submitting a request: a refusal is not for want of the store, and a version conflict is a lost
    race. *)
Lemma wp_race {A} call_id v
    (method : (nat → EffectId) → MemoryRepository → MemoryRepository * result RepositoryError A) w
    (Q : World → result RepositoryError (result RepositoryError A) → Prop) :
  store_reachable (wo_store w) → (v ≤ version_of call_id (wo_store w))%N → submits call_id v method →
  (∀ new_id r r' x, rtc other_step (wo_store w) r → fresh_ids new_id (mr_state r) →
     method new_id r = (r', Ok x) → Q (after r' w) (Ok (Ok x))) →
  (∀ w' e, idle w w' → refuses method w' e → e ≠ RepositoryError.Unavailable →
     (e = RepositoryError.VersionConflict → (v < version_of call_id (wo_store w'))%N) →
     Q w' (Ok (Err e))) →
  wp (attempt (call id method)) w Q.
Proof using All.
  intros Hr Hv [_ Hs] Hok He. apply wp_attempt, wp_call. intros new_id r Ho Hf.
  destruct (method new_id r) as [r' [x|e]] eqn:Em; cbn [fst snd]; [by eapply Hok|].
  pose proof (others_reachable _ _ Hr Ho) as Hr'. destruct (Hs _ _ _ _ Hr' Em) as [-> Hf'].
  apply He; [done|by exists new_id|by intros ->|]. intros ->. destruct Hf' as (c & Hc & Hne).
  pose proof (version_run call_id _ _ Hr (others_run _ _ Ho)) as Hle. cbn.
  unfold version_of at 2 in Hle. unfold version_of. rewrite Hc in *. cbn in *. lia.
Qed.

(** What a task comes to: one last transaction of its own, or as many lost races as it had rounds, or
    an error that wrote nothing, for one of the reasons [stop]. *)
Definition comes_to {A} (id : CallId) (fuel : nat)
    (acts : MemoryRepository → MemoryRepository → A → Prop) (stop : World → RepositoryError → Prop)
    (w w' : World) (answer_ : result RepositoryError (option A)) : Prop :=
  match answer_ with
  | Ok (Some a) => ∃ r, rtc other_step (wo_store w) r ∧ rtc store_step r (wo_store w') ∧
      acts r (wo_store w') a
  | Ok None => idle w w' ∧
      (version_of id (wo_store w) + N.of_nat fuel ≤ version_of id (wo_store w'))%N
  | Err e => idle w w' ∧ stop w' e
  end.

(** The head of a round: the next request is for the version that was read. *)
Definition builds {Q A} (id : CallId) (acts : MemoryRepository → MemoryRepository → () → Prop)
    (stop : World → RepositoryError → Prop)
    (method : Q → (nat → EffectId) → MemoryRepository → MemoryRepository * result RepositoryError A)
    (w : World) (answer_ : result RepositoryError (option Q)) : Prop :=
  match answer_ with
  | Ok (Some q) => submits id (version_of id (wo_store w)) (method q) ∧
      (∀ w' e, refuses (method q) w' e → e ≠ RepositoryError.VersionConflict → stop w' e) ∧
      ∀ new_id r r' x, rtc other_step (wo_store w) r → fresh_ids new_id (mr_state r) →
        method q new_id r = (r', Ok x) → acts r r' ()
  | Ok None => acts (wo_store w) (wo_store w) ()
  | Err e => stop w e
  end.

Lemma wp_submit {Q A} id fuel acts stop build
    (method : Q → (nat → EffectId) → MemoryRepository → MemoryRepository * result RepositoryError A)
    watched w :
  store_reachable (wo_store w) →
  (∀ w0, idle w w0 → wp build w0 (λ w1 r, idle w0 w1 ∧ builds id acts stop method w1 r)) →
  wp (rounds fuel (submit build method watched true) None) w (comes_to id fuel acts stop w).
Proof using All.
  intros Hr Hb.
  apply (wp_rounds _ _ (λ p w', p = None ∧ idle w w') (λ _ w', version_of id (wo_store w'))
           (version_of id (wo_store w) + N.of_nat fuel)); [|by intros _ w' [_ Hi] ?|by split|lia].
  intros _ w0 [-> Hi0]. pose proof (idle_reachable _ _ Hr Hi0) as Hr0.
  apply wp_bind, (wp_weaken _ _ _ _ (Hb w0 Hi0)). intros w1 [[q|]|e] [Hi1 Hq]; [..|exact (conj (transitivity Hi0 Hi1) Hq)].
  - destruct Hq as (Hs & He & Ha). pose proof (idle_reachable _ _ Hr0 Hi1) as Hr1.
    apply wp_bind, (wp_race id _ (method q) w1 _ Hr1 (reflexivity _) Hs).
    + intros new_id r r' x Ho Hf Em. apply wp_ret. exists r. split_and!; [| |by eapply Ha].
      * etrans; [exact Hi0|]. by etrans.
      * apply rtc_once. pose proof (f_equal fst Em) as E. cbn in E |- *. rewrite <- E. by apply Hs.
    + intros w2 e Hi2 Href Hn Hv. assert (idle w w2) as Hi by (etrans; [exact Hi0|]; by etrans).
      destruct e; try done; try (exact (conj Hi (He _ _ Href ltac:(done)))). split; [by split|]. specialize (Hv eq_refl).
      pose proof (version_idle id _ _ Hr0 Hi1). cbn. lia.
  - apply wp_ret. exists (wo_store w1). split; [by etrans|]. split; [apply rtc_refl|done].
Qed.

(** ** Deadlines *)

(** The request for an elapsed deadline: it carries the claim. *)
Record elapsed_request (runtime : CallServiceRuntime) (claim : ClaimedDeadline)
    (request : ServiceCommandTransaction) : Prop := {
  eq_tenant : ct_tenant_id (st_command request) = dr_tenant_id (cl_record claim);
  eq_call : ct_call_id (st_command request) = dr_call_id (cl_record claim);
  eq_worker : ct_worker (st_command request) = lease_of runtime;
  eq_claim : ct_deadline_claim (st_command request) = Some (guard claim (lease_of runtime));
  eq_command : ∃ ending_deadline, ct_command (st_command request) =
    DeadlineElapsed (ct_at (st_command request)) (dr_kind (cl_record claim))
      (dr_generation (cl_record claim)) (Some ending_deadline);
  eq_plain : plain request ∧ st_bound_connection request = None;
}.

Lemma elapsed_transaction_builds runtime claim w :
  let id := dr_call_id (cl_record claim) in
  store_reachable (wo_store w) →
  wp (elapsed_transaction runtime claim) w (λ w1 r, idle w w1 ∧
    builds id (λ r r' _, ∃ request, elapsed_request runtime claim request ∧ transacted request r r')
      (λ _ _, True) commit_transaction w1 r).
Proof using All.
  intros id Hr. apply wp_bind, wp_load; [done| |done]. intros w1 stored Hi1 Hl.
  apply wp_bind, wp_observe. intros at_ Hat. apply wp_bind, wp_answer.
  destruct (ending_due runtime at_) as [due|e]; [|done].
  apply wp_bind, wp_uuid. intros k. apply wp_ret. split; [done|].
  match goal with |- builds _ _ _ _ _ (Ok (Some ?q)) => set (request := q) end.
  assert (Hq : elapsed_request runtime claim request) by (split; try done; by exists due).
  split_and!; [|done|].
  - pose proof (commit_transaction_submits request) as Hs. cbn in Hs.
    rewrite (loaded_version _ _ _ _ Hl) in Hs. by apply Hs.
  - intros new_id r r' x Ho Hf Hm. exists request. split; [done|].
    eapply commit_transaction_ok; try apply Hq; [|exact Hm].
    eapply others_reachable; [|exact Ho]. by apply (idle_reachable w).
Qed.

Lemma commit_deadline_comes_to fuel claim runtime w :
  store_reachable (wo_store w) →
  wp (commit_deadline fuel claim runtime) w
    (comes_to (dr_call_id (cl_record claim)) fuel
       (λ r r' _, ∃ request, elapsed_request runtime claim request ∧ transacted request r r')
       (λ _ _, True) w).
Proof using All.
  intros Hr. apply wp_submit; [done|]. intros w0 Hi0. by apply elapsed_transaction_builds, (idle_reachable w).
Qed.

(** A call that was read, perhaps some time ago. *)
Definition read_before (id : CallId) (w : World) (stored : StoredServiceCall) : Prop :=
  (ca_version (sc_aggregate (sl_call stored)) ≤ version_of id (wo_store w))%N.

(** The request that arms the grace period of a call. *)
Record ending_request (runtime : CallServiceRuntime) (tenant_id : TenantId) (call_id : CallId)
    (request : ServiceCommandTransaction) : Prop := {
  nq_tenant : ct_tenant_id (st_command request) = tenant_id;
  nq_call : ct_call_id (st_command request) = call_id;
  nq_worker : ct_worker (st_command request) = lease_of runtime;
  nq_command : ∃ due_at, ct_command (st_command request) =
    ArmDeadline (ct_at (st_command request)) DeadlineKind.Ending due_at;
  nq_plain : plain request ∧ st_bound_connection request = None;
}.

Lemma ensure_ending_deadline_comes_to fuel runtime stored w :
  let tenant := ca_tenant_id (sc_aggregate (sl_call stored)) in
  let id := ca_id (sc_aggregate (sl_call stored)) in
  store_reachable (wo_store w) → read_before id w stored →
  wp (ensure_ending_deadline fuel runtime stored) w (λ w' answer_,
    match answer_ with
    | Ok (Some _) => idle w w' ∨ ∃ r request, rtc other_step (wo_store w) r ∧
        ending_request runtime tenant id request ∧ transacted request r (wo_store w')
    | Ok None => idle w w' ∧ (ca_version (sc_aggregate (sl_call stored)) + N.of_nat fuel
                              ≤ version_of id (wo_store w'))%N
    | Err _ => idle w w'
    end).
Proof using All.
  intros tenant id Hr Hb. apply wp_bind, wp_uuid. intros k.
  apply (wp_rounds _ _ (λ st w', idle w w' ∧ read_before id w' st)
           (λ st _, ca_version (sc_aggregate (sl_call st)))
           (ca_version (sc_aggregate (sl_call stored)) + N.of_nat fuel)).
  2: { intros st w' [Hi Hst] Hle. split; [done|]. unfold read_before in Hst. lia. }
  2: { split; [by apply (rtc_refl other_step)|done]. }
  2: { cbn. lia. }
  fold tenant id. clear Hb. intros st w0 [Hi0 Hb]. pose proof (idle_reachable _ _ Hr Hi0) as Hr0.
  unfold ensure_ending_turn. destruct (lacks_ending_deadline st); cbn [negb]; [|by apply wp_ret; left].
  apply wp_bind, wp_owned; [|done]. apply wp_bind, wp_observe. intros at_ Hat. apply wp_bind, wp_answer.
  destruct (ending_due runtime at_) as [due|e]; [|done].
  match goal with |- context [commit_transaction ?q] => set (request := q) end.
  assert (Hq : ending_request runtime tenant id request) by (split; try done; by exists due).
  apply wp_bind, wp_await; [|intros w1 E _; unfold idle; by rewrite E].
  intros w1 E1. assert (Hi1 : idle w w1) by (unfold idle; by rewrite E1).
  assert (Hr1 : store_reachable (wo_store w1)) by by rewrite E1.
  apply (wp_race id (ca_version (sc_aggregate (sl_call st)))); [done|by rewrite E1|
    by apply (commit_transaction_submits request)|..].
  - intros new_id r r' x Ho Hf Hm. apply wp_ret. right. exists r, request.
    split; [by etrans|]. split; [done|]. eapply commit_transaction_ok; try apply Hq; [|exact Hm].
    by apply (others_reachable (wo_store w1)).
  - intros w2 e Hi2 _ Hn Hv. assert (idle w w2) as Hi by by etrans.
    destruct e; try done; try exact Hi. pose proof (idle_reachable _ _ Hr Hi) as Hr2.
    apply wp_bind, wp_load; [done| |intros w3 e Hi3 _; exact (transitivity Hi Hi3)].
    intros w3 st' Hi3 Hl. apply wp_ret. rewrite (loaded_version _ _ _ _ Hl). split.
    + split; [exact (transitivity Hi Hi3)|]. unfold read_before. by rewrite (loaded_version _ _ _ _ Hl).
    + specialize (Hv eq_refl). pose proof (version_idle id _ _ Hr2 Hi3). lia.
Qed.

(** ** Restarts *)

(** The call has the leg, at that generation or a later one. *)
Definition has_leg_since (id : CallId) (l : LegId) (g : BindingGeneration) (r : MemoryRepository)
    : Prop :=
  ∃ c i, rm_calls (mr_state r) !! id = Some c ∧ leg_id (leg_at (sc_aggregate c) i) = l ∧
         (g ≤ leg_binding_generation (leg_at (sc_aggregate c) i))%N.

Definition wound_up (id : CallId) (l : LegId) (g : BindingGeneration) (r : MemoryRepository) : Prop :=
  ∃ c, rm_calls (mr_state r) !! id = Some c ∧ wound (sc_aggregate c) l g.

(** The leg's binding is older than the leg. *)
Definition outdated (id : CallId) (l : LegId) (r : MemoryRepository) : Prop :=
  ∃ c leg binding, rm_calls (mr_state r) !! id = Some c ∧ find_leg (sc_aggregate c) l = Some leg ∧
    sc_bindings c !! l = Some binding ∧
    (cb_binding_generation binding < leg_binding_generation leg)%N.

Lemma has_leg_run id l g r r' :
  store_reachable r → rtc store_step r r' → has_leg_since id l g r → has_leg_since id l g r'.
Proof using.
  intros Hr Hs (c & i & Hc & Hi & Hg). destruct (calls_move_on _ _ Hr Hs _ _ Hc) as (c' & Hc' & M).
  exists c', i. split; [done|]. split; [by rewrite (mv_legs _ _ M)|].
  destruct (mv_gens _ _ M i) as [[Hle _] _]. lia.
Qed.

Lemma wound_run id l g r r' :
  store_reachable r → rtc store_step r r' → wound_up id l g r → wound_up id l g r'.
Proof using.
  intros Hr Hs (c & Hc & Hw). destruct (calls_move_on _ _ Hr Hs _ _ Hc) as (c' & Hc' & M).
  exists c'. split; [done|]. by eapply wound_moves.
Qed.

(** The leg of a call that was read. *)
Lemma loaded_leg t id l g w stored :
  store_reachable (wo_store w) → loaded t id w stored → has_leg_since id l g (wo_store w) →
  ∃ i, find_leg (sc_aggregate (sl_call stored)) l = Some (leg_at (sc_aggregate (sl_call stored)) i) ∧
       leg_id (leg_at (sc_aggregate (sl_call stored)) i) = l ∧
       (g ≤ leg_binding_generation (leg_at (sc_aggregate (sl_call stored)) i))%N.
Proof using.
  intros Hr [Hc _] (c & i & Hc' & <- & Hg). simplify_eq. exists i. split; [|done].
  pose proof (ko_valid _ _ _ (cy_calls _ (store_capacity _ Hr) _ _ Hc)) as [Hcv _]. by eapply find_leg_at.
Qed.

Lemma terminal_wound t id g w stored i :
  loaded t id w stored →
  leg_is_terminal (leg_state (leg_at (sc_aggregate (sl_call stored)) i)) = true →
  wound_up id (leg_id (leg_at (sc_aggregate (sl_call stored)) i)) g (wo_store w).
Proof using. intros [Hc _] Ht. exists (sl_call stored). split; [done|]. exists i. auto. Qed.

(** The request that fails an unbound leg after a restart. *)
Record fails_leg (runtime : CallServiceRuntime) (t : TenantId) (id : CallId) (l : LegId)
    (g : BindingGeneration) (f : FailureDetails) (request : ServiceCommandTransaction) : Prop := {
  fl_tenant : ct_tenant_id (st_command request) = t;
  fl_call : ct_call_id (st_command request) = id;
  fl_worker : ct_worker (st_command request) = lease_of runtime;
  fl_command : ct_command (st_command request) =
    SetLegState (ct_at (st_command request)) l g LegState.Failed (Some f);
  fl_plain : plain request ∧ st_bound_connection request = None;
}.

(** Why failing an unbound leg may stop with an error. *)
Inductive failing_stopped runtime t id l g f (w' : World) (e : RepositoryError) : Prop :=
| failing_unread : load_service_call (wo_store w') t id = Err e → failing_stopped runtime t id l g f w' e
| failing_refused request :
    fails_leg runtime t id l g f request → refuses (commit_transaction request) w' e →
    e ≠ RepositoryError.VersionConflict → failing_stopped runtime t id l g f w' e.

Lemma restart_failure_builds runtime t id l g f w :
  store_reachable (wo_store w) → has_leg_since id l g (wo_store w) →
  wp (restart_failure_transaction runtime t id l g f) w (λ w1 r, idle w w1 ∧
    builds id (λ _ r' _, wound_up id l g r') (failing_stopped runtime t id l g f)
      commit_transaction w1 r).
Proof using All.
  intros Hr Hl. apply wp_bind, wp_load; [done| |intros w1 e Hi E; split; [done|by left]].
  intros w1 stored Hi1 Hst. pose proof (idle_reachable _ _ Hr Hi1) as Hr1.
  destruct (loaded_leg t id l g w1 stored Hr1 Hst) as (i & Hfind & Hid & _).
  { by eapply has_leg_run; [exact Hr|apply others_run|]. }
  rewrite Hfind. cbn [is_some_and]. destruct (leg_is_terminal _) eqn:Et; cbn [negb].
  { apply wp_ret. split; [done|]. rewrite <- Hid. by eapply terminal_wound. }
  apply wp_bind, wp_observe. intros at_ Hat. apply wp_bind, wp_uuid. intros k. apply wp_ret.
  split; [done|]. match goal with |- builds _ _ _ _ _ (Ok (Some ?q)) => set (request := q) end.
  split_and!; [|intros w' e Href Hv; by apply (failing_refused _ _ _ _ _ _ _ _ request)|].
  - pose proof (commit_transaction_submits request) as Hs. cbn in Hs.
    rewrite (loaded_version _ _ _ _ Hst) in Hs. by apply Hs.
  - intros new_id r r' x Ho Hf Hm.
    assert (Hr2 : store_reachable r) by by apply (others_reachable (wo_store w1)).
    eapply (transacted_wound request r r'); [done| |done].
    by eapply commit_transaction_ok; [..|exact Hm].
Qed.

Lemma unbound_restart_comes_to fuel runtime initial l g f w :
  let t := ca_tenant_id (sc_aggregate (sl_call initial)) in
  let id := ca_id (sc_aggregate (sl_call initial)) in
  store_reachable (wo_store w) → has_leg_since id l g (wo_store w) →
  wp (commit_unbound_restart_failure fuel runtime initial l g f) w
    (comes_to id fuel (λ _ r' _, wound_up id l g r') (failing_stopped runtime t id l g f) w).
Proof using All.
  intros t id Hr Hl. apply wp_submit; [done|]. intros w0 Hi0.
  apply restart_failure_builds; [by apply (idle_reachable w)|].
  by eapply has_leg_run; [exact Hr|apply others_run|].
Qed.

(** How a state is reported for a binding: a transaction of its own, or nothing when the leg already
    is in that state or over. *)
Definition reported (id : CallId) (binding : ConnectionBinding) (state : LegState) (r0 r1 : MemoryRepository)
    : Prop :=
  (∃ r r' request at_ failure, rtc other_step r0 r ∧ transacted request r r' ∧ rtc other_step r' r1 ∧
     store_reachable r ∧ rtc store_step r r' ∧ ct_call_id (st_command request) = id ∧
     ct_command (st_command request) =
       SetLegState at_ (cb_leg_id binding) (cb_binding_generation binding) state failure) ∨
  (rtc other_step r0 r1 ∧ ∃ c leg, rm_calls (mr_state r1) !! id = Some c ∧
     find_leg (sc_aggregate c) (cb_leg_id binding) = Some leg ∧
     (leg_state leg = state ∨ leg_is_terminal (leg_state leg) = true)).

Lemma reported_run id binding state r0 r1 :
  reported id binding state r0 r1 → rtc store_step r0 r1.
Proof using All.
  intros [(r & r' & request & at_ & failure & H2 & _ & H3 & _ & H4 & _)|[H2 _]]; [|by apply others_run].
  etrans; [by apply others_run|]. etrans; [exact H4|by apply others_run].
Qed.

(** The request that reports the state of a binding. *)
Record reports (runtime : CallServiceRuntime) (t : TenantId) (id : CallId) (binding : ConnectionBinding)
    (state : LegState) (failure : option FailureDetails) (request : BoundConnectionStateCommit) : Prop := {
  rq_tenant : bs_tenant_id request = t;
  rq_call : bs_call_id request = id;
  rq_leg : bs_leg_id request = cb_leg_id binding;
  rq_generation : bs_binding_generation request = cb_binding_generation binding;
  rq_connection : bs_connection_id request = cb_connection_id binding;
  rq_worker : bs_worker request = lease_of runtime;
  rq_state : bs_state request = state;
  rq_failure : bs_failure request = failure;
}.

(** Why a report may stop with an error: the worker is disturbed, the call cannot be read, the
    request is refused, the leg is not the call's; or it is made, and the call cannot be read back. *)
Inductive report_stopped runtime t id binding state failure (r0 : MemoryRepository) (w' : World)
    (e : RepositoryError) : Prop :=
| report_disturbed :
    disturbed w' e → report_stopped runtime t id binding state failure r0 w' e
| report_unread :
    load_service_call (wo_store w') t id = Err e → report_stopped runtime t id binding state failure r0 w' e
| report_refused request :
    reports runtime t id binding state failure request →
    refuses (λ new_id store, commit_bound_connection_state new_id store request) w' e →
    e ≠ RepositoryError.VersionConflict → report_stopped runtime t id binding state failure r0 w' e
| report_no_leg c :
    rm_calls (mr_state (wo_store w')) !! id = Some c →
    find_leg (sc_aggregate c) (cb_leg_id binding) = None →
    report_stopped runtime t id binding state failure r0 w' e
| report_unconfirmed t' id' :
    reported id binding state r0 (wo_store w') → load_service_call (wo_store w') t' id' = Err e →
    report_stopped runtime t id binding state failure r0 w' e.

(** What the task has come to in some store: the state is reported, as many races as there were rounds
    are lost, or it is stopped. *)
Definition binding_result {A} runtime t (id : CallId) (binding : ConnectionBinding) (state : LegState)
    failure (fuel : nat) (w w' : World) (answer_ : result RepositoryError (option A)) : Prop :=
  match answer_ with
  | Ok (Some _) => reported id binding state (wo_store w) (wo_store w')
  | Ok None => idle w w' ∧
      (version_of id (wo_store w) + N.of_nat fuel ≤ version_of id (wo_store w'))%N
  | Err e => rtc store_step (wo_store w) (wo_store w') ∧
      report_stopped runtime t id binding state failure (wo_store w) w' e
  end.

(** A commit that was accepted. *)
Lemma bound_reported id state request binding new_id w w1 r r' x :
  store_reachable (wo_store w) → idle w w1 → rtc other_step (wo_store w1) r →
  fresh_ids new_id (mr_state r) → commit_bound_connection_state new_id r request = (r', Ok x) →
  bs_call_id request = id → bs_leg_id request = cb_leg_id binding →
  bs_binding_generation request = cb_binding_generation binding → bs_state request = state →
  store_reachable r' ∧ ∀ r1, rtc other_step r' r1 → reported id binding state (wo_store w) r1.
Proof using All.
  intros Hr Hi Ho Hf Hm <- El Eg <-. pose proof (idle_reachable _ _ Hr Hi) as Hr1.
  assert (Hr2 : store_reachable r) by by apply (others_reachable (wo_store w1)).
  assert (Hs : rtc store_step r r').
  { apply rtc_once. pose proof (f_equal fst Hm) as E. cbn in E. rewrite <- E.
    by apply (sb_step _ _ _ (commit_bound_submits request)). }
  split; [unfold store_reachable in *; by etrans|]. intros r1 Hr3. left.
  exists r, r', (bound_transaction request), (bs_at request), (bs_failure request).
  rewrite <- El, <- Eg. split_and!; try done; [by etrans|by eapply commit_bound_ok].
Qed.

(** One round. *)
Lemma binding_turn fuel runtime t id binding state failure at_ cancel k st w w0 :
  store_reachable (wo_store w) → idle w w0 → read_before id w0 st →
  wp (binding_state_turn runtime t id binding state failure at_ cancel k st) w0 (λ w' r,
    match r with
    | Ok (inl st') => (idle w w' ∧ read_before id w' st') ∧
        (ca_version (sc_aggregate (sl_call st)) < ca_version (sc_aggregate (sl_call st')))%N
    | Ok (inr a) => binding_result runtime t id binding state failure fuel w w' (Ok (Some a))
    | Err e => binding_result (A := StoredServiceCall) runtime t id binding state failure fuel w w' (Err e)
    end).
Proof using All.
  intros Hr Hi0 Hb. unfold binding_state_turn. cbv zeta.
  match goal with |- context [commit_bound_connection_state _ _ ?q] => set (request := q) end.
  match goal with |- wp (_ ≫= ?rest) _ ?Q => set (k2 := rest); set (Q2 := Q) end.
  assert (Htry : ∀ w1, wo_store w1 = wo_store w0 →
    wp (attempt (call Datatypes.id (λ new_id store, commit_bound_connection_state new_id store request))) w1
      (λ w' r, match r with Ok x => wp (k2 x) w' Q2 | Err e => Q2 w' (Err e) end)).
  { intros w1 E1. assert (Hi1 : idle w w1) by (unfold idle; by rewrite E1).
    pose proof (idle_reachable _ _ Hr Hi1) as Hr1.
    apply (wp_race id (ca_version (sc_aggregate (sl_call st)))); [done|by rewrite E1|
      by apply (commit_bound_submits request)|..].
    - intros new_id r r' x Ho Hf Hm.
      destruct (bound_reported id state request binding new_id w w1 r r' x) as [Hr3 Hrep]; try done.
      unfold k2. destruct x as [view|view]; (apply wp_bind, wp_load; [done|intros w3 st' Hi3 _; apply wp_ret|]);
        first [by apply Hrep|intros w3 e Hi3 El; split; [by eapply reported_run, Hrep|]];
        by eapply report_unconfirmed; [apply Hrep|].
    - intros w2 e Hi2 Href Hn Hv. assert (idle w w2) as Hi by by etrans.
      assert (Hs2 : rtc store_step (wo_store w) (wo_store w2)) by by apply others_run.
      unfold k2. destruct e; try done;
        try (by split; [done|apply (report_refused _ _ _ _ _ _ _ _ _ request)]).
      pose proof (idle_reachable _ _ Hr Hi) as Hr2.
      apply wp_bind, wp_load; [done| |intros w3 e Hi3 El; split; [apply others_run; exact (transitivity Hi Hi3)|by apply report_unread]].
      intros w3 st' Hi3 Hl. pose proof (transitivity Hi Hi3) as Hi4.
      apply wp_bind, wp_answer. destruct (find_leg _ _) as [leg|] eqn:Ef.
      2: { split; [by apply others_run|]. by eapply report_no_leg; [apply Hl|]. }
      cbn [ok_or]. apply wp_ret. destruct (_ || _) eqn:Es.
      + right. split; [done|]. exists (sl_call st'), leg. split_and!; [apply Hl|done|].
        apply orb_true_iff in Es as [Es|Es]; [left; by bool_hyps|by right].
      + unfold Q2, read_before. rewrite (loaded_version _ _ _ _ Hl). split; [done|].
        specialize (Hv eq_refl). pose proof (version_idle id _ _ Hr2 Hi3). lia. }
  apply wp_bind. destruct cancel; [|by apply Htry].
  apply wp_await; [done|]. intros w1 E1 Hd. unfold Q2. cbn. rewrite E1.
  split; [by apply others_run|by apply report_disturbed].
Qed.

Lemma binding_state_comes_to fuel runtime t id binding state failure at_ cancel w :
  store_reachable (wo_store w) →
  wp (commit_binding_state fuel runtime t id binding state failure at_ cancel) w
    (binding_result runtime t id binding state failure fuel w).
Proof using All.
  intros Hr. apply wp_bind, wp_load; [done| |intros w1 e Hi El; split; [by apply others_run|by apply report_unread]].
  intros w1 stored Hi1 Hst. apply wp_bind, wp_uuid. intros k.
  pose proof (version_idle id _ _ Hr Hi1) as Hv1.
  apply (wp_rounds _ _ (λ st w', idle w w' ∧ read_before id w' st)
           (λ st _, ca_version (sc_aggregate (sl_call st)))
           (version_of id (wo_store w) + N.of_nat fuel)).
  - intros st w0 [Hi0 Hb]. by apply binding_turn.
  - intros st w' [Hi Hb] Hle. split; [done|]. unfold read_before in Hb. lia.
  - split; [done|]. unfold read_before. by rewrite (loaded_version _ _ _ _ Hst).
  - cbn. rewrite (loaded_version _ _ _ _ Hst). lia.
Qed.

(** A leg that was taken care of: it is wound up, unless its binding was found to be outdated. *)
Definition cared_for (id : CallId) (l : LegId) (g : BindingGeneration) (r r' : MemoryRepository)
    : Prop :=
  wound_up id l g r' ∨ ∃ r1, rtc store_step r r1 ∧ rtc store_step r1 r' ∧ outdated id l r1.

Lemma reported_failed id binding g r r' :
  store_reachable r → (g ≤ cb_binding_generation binding)%N →
  reported id binding LegState.Failed r r' → wound_up id (cb_leg_id binding) g r'.
Proof using All.
  intros Hr Hg [(r1 & r2 & request & at_ & f & H2 & Ht & H3 & Hr1 & H4 & <- & Hc)|(_ & c & leg & Hc & Hl & Ho)].
  - destruct (transacted_wound _ _ _ _ _ _ _ Hr1 Ht Hc) as (c & Hcall & Hw).
    eapply wound_run; [|apply others_run; exact H3|].
    + unfold store_reachable in *. by etrans.
    + exists c. split; [done|by eapply wound_weaken].
  - exists c. split; [done|]. apply find_leg_Some in Hl as [<- Hl].
    assert (leg_over leg = true) by (unfold leg_over; by destruct Ho as [->| ->]).
    destruct Hl as [->| ->]; [exists Leg0|exists Leg1]; auto.
Qed.

(** As many races on the call were lost as there were rounds. *)
Definition outraced (id : CallId) (fuel : nat) (r r' : MemoryRepository) : Prop :=
  (version_of id r + N.of_nat fuel ≤ version_of id r')%N.

(** Why the recovery of a leg may stop with an error: the worker has lost its lease or was interrupted,
    the store does not give the call, or it refuses the request that fails the leg: as unbound, at a
    generation since the claim, or through a binding that the leg had; or the leg is taken care of,
    and it is only the call that cannot be read back. *)
Inductive leg_stopped (runtime : CallServiceRuntime) t id l g (r0 : MemoryRepository) (w' : World)
    (e : RepositoryError) : Prop :=
| leg_disturbed : disturbed w' e → leg_stopped runtime t id l g r0 w' e
| leg_unread : load_service_call (wo_store w') t id = Err e → leg_stopped runtime t id l g r0 w' e
| leg_refused request g' :
    (g ≤ g')%N → fails_leg runtime t id l g' worker_restarted request →
    refuses (commit_transaction request) w' e → e ≠ RepositoryError.VersionConflict →
    leg_stopped runtime t id l g r0 w' e
| leg_bound_refused r1 c binding request :
    rtc store_step r0 r1 → rtc store_step r1 (wo_store w') →
    rm_calls (mr_state r1) !! id = Some c → sc_bindings c !! l = Some binding → cb_leg_id binding = l →
    reports runtime t id binding LegState.Failed (Some worker_restarted) request →
    refuses (λ new_id store, commit_bound_connection_state new_id store request) w' e →
    e ≠ RepositoryError.VersionConflict → leg_stopped runtime t id l g r0 w' e
| leg_unconfirmed t' id' :
    cared_for id l g r0 (wo_store w') → load_service_call (wo_store w') t' id' = Err e →
    leg_stopped runtime t id l g r0 w' e.

(** What a recovery has come to. *)
Definition recovered (post late : relation MemoryRepository)
    (stop : MemoryRepository → World → RepositoryError → Prop) (w w' : World)
    (answer_ : result RepositoryError (option ())) : Prop :=
  rtc store_step (wo_store w) (wo_store w') ∧
  match answer_ with
  | Ok (Some _) => post (wo_store w) (wo_store w')
  | Ok None => late (wo_store w) (wo_store w')
  | Err e => stop (wo_store w) w' e
  end.

(** A report through the binding of a leg takes care of the leg. *)
Lemma bound_cared_for t id l g w w1 stored i b r' :
  store_reachable (wo_store w1) → rtc store_step (wo_store w) (wo_store w1) → loaded t id w1 stored →
  find_leg (sc_aggregate (sl_call stored)) l = Some (leg_at (sc_aggregate (sl_call stored)) i) →
  (g ≤ leg_binding_generation (leg_at (sc_aggregate (sl_call stored)) i))%N →
  sc_bindings (sl_call stored) !! l = Some b →
  reported id b LegState.Failed (wo_store w1) r' → cared_for id l g (wo_store w) r'.
Proof using All.
  intros Hr1 Hs1 Hst Hfind Hg Hb Hres. destruct (N.ltb_spec (cb_binding_generation b)
    (leg_binding_generation (leg_at (sc_aggregate (sl_call stored)) i))) as [Hlt|Hge].
  - right. exists (wo_store w1). split_and!; [done|by eapply reported_run|]. exists (sl_call stored).
    do 2 eexists. split_and!; [apply Hst|exact Hfind|exact Hb|exact Hlt].
  - left. rewrite <- (rf_keys _ (store_rows_fine _ Hr1 _ _ (proj1 Hst)) _ _ Hb).
    eapply (reported_failed id b); [exact Hr1|lia|exact Hres].
Qed.

(** A report that is stopped stops the recovery of its leg: the leg is the call's. *)
Lemma report_stops_leg runtime t id l g w w1 w2 stored i b e :
  store_reachable (wo_store w1) → rtc store_step (wo_store w) (wo_store w1) →
  rtc store_step (wo_store w1) (wo_store w2) → loaded t id w1 stored →
  has_leg_since id l g (wo_store w1) →
  find_leg (sc_aggregate (sl_call stored)) l = Some (leg_at (sc_aggregate (sl_call stored)) i) →
  (g ≤ leg_binding_generation (leg_at (sc_aggregate (sl_call stored)) i))%N →
  sc_bindings (sl_call stored) !! l = Some b →
  report_stopped runtime t id b LegState.Failed (Some worker_restarted) (wo_store w1) w2 e →
  leg_stopped runtime t id l g (wo_store w) w2 e.
Proof using All.
  intros Hr1 Hs1 Hs2 Hst Hl Hfind Hg Hb Hres.
  pose proof (rf_keys _ (store_rows_fine _ Hr1 _ _ (proj1 Hst)) _ _ Hb) as Ek.
  destruct Hres as [Hd|Eu|request Hq Href Hv|c Hc Hn|t' id' Hrep Eu].
  - by apply leg_disturbed.
  - by apply leg_unread.
  - by apply (leg_bound_refused _ _ _ _ _ _ _ _ (wo_store w1) (sl_call stored) b request); try apply Hst.
  - assert (Hr2 : store_reachable (wo_store w2)) by (unfold store_reachable in *; by etrans).
    destruct (has_leg_run id l g _ _ Hr1 Hs2 Hl) as (c' & j & Hc' & Hj & _).
    rewrite Hc in Hc'. injection Hc' as <-.
    pose proof (ko_valid _ _ _ (cy_calls _ (store_capacity _ Hr2) _ _ Hc)) as [Hcv _].
    rewrite Ek, <- Hj in Hn. erewrite find_leg_at in Hn; done.
  - eapply leg_unconfirmed; [|exact Eu]. by eapply (bound_cared_for t id l g w w1 stored i b).
Qed.

Lemma recover_leg_recovers fuel runtime t id l g w :
  store_reachable (wo_store w) → has_leg_since id l g (wo_store w) →
  wp (recover_leg fuel runtime t id l) w
    (recovered (cared_for id l g) (outraced id fuel) (leg_stopped runtime t id l g) w).
Proof using All.
  intros Hr Hl. apply wp_bind, wp_load; [done| |intros w1 e Hi El; split; [by apply others_run|by apply leg_unread]].
  intros w1 stored Hi1 Hst. pose proof (idle_reachable _ _ Hr Hi1) as Hr1.
  pose proof (others_run _ _ Hi1) as Hs1. pose proof (version_idle id _ _ Hr Hi1) as Hv1.
  pose proof (has_leg_run id l g _ _ Hr Hs1 Hl) as Hl1.
  destruct (loaded_leg t id l g w1 stored Hr1 Hst Hl1) as (i & Hfind & Hid & Hg).
  apply wp_bind, wp_answer. rewrite Hfind. cbn [ok_or]. destruct (leg_is_terminal _) eqn:Et.
  { apply wp_ret. split; [done|]. left. rewrite <- Hid. by eapply terminal_wound. }
  destruct (sc_bindings (sl_call stored) !! l) as [b|] eqn:Hb.
  - apply wp_bind, wp_now. intros at_. apply wp_bind.
    apply (wp_weaken _ _ _ _ (binding_state_comes_to fuel runtime t id b _ _ at_ true (tick w1) Hr1)).
    intros w2 [[st|]|e] Hres.
    + apply wp_ret. pose proof (reported_run _ _ _ _ _ Hres) as Hs2. split; [by etrans|].
      by eapply (bound_cared_for t id l g w w1 stored i b).
    + destruct Hres as [Hi2 Hv2]. apply wp_ret. split; [etrans; [exact Hs1|by apply others_run]|].
      change (wo_store (tick w1)) with (wo_store w1) in Hv2. cbn. unfold outraced. lia.
    + destruct Hres as [Hs2 Hres]. split; [by etrans|]. by eapply (report_stops_leg _ t id l g w w1).
  - assert (Eid : ca_id (sc_aggregate (sl_call stored)) = id) by apply Hst.
    assert (Et' : ca_tenant_id (sc_aggregate (sl_call stored)) = t) by apply Hst.
    assert (Hl2 : has_leg_since id l (leg_binding_generation (leg_at (sc_aggregate (sl_call stored)) i))
      (wo_store w1)) by (exists (sl_call stored), i; split_and!; [apply Hst|done|lia]).
    pose proof (unbound_restart_comes_to fuel runtime stored l
      (leg_binding_generation (leg_at (sc_aggregate (sl_call stored)) i)) worker_restarted w1) as Hu.
    cbv zeta in Hu. rewrite Eid, Et' in Hu. apply (wp_weaken _ _ _ _ (Hu Hr1 Hl2)).
    intros w2 [[u|]|e] Hres; cbn in Hres.
    + destruct Hres as (r & Ho & Hs2 & Hw). split; [|left; destruct Hw as (c & Hc & Hw)].
      * etrans; [exact Hs1|]. etrans; [by apply others_run|done].
      * exists c. split; [done|by eapply wound_weaken].
    + destruct Hres as [Hi2 Hv2]. split; [etrans; [exact Hs1|by apply others_run]|unfold outraced; lia].
    + destruct Hres as [Hi2 Hstop]. split; [etrans; [exact Hs1|by apply others_run]|].
      destruct Hstop as [Eu|request Hq Href Hv]; [by apply leg_unread|by eapply leg_refused].
Qed.

Lemma cared_for_run id l g r0 r1 r2 r3 :
  store_reachable r2 → rtc store_step r0 r1 → rtc store_step r2 r3 → cared_for id l g r1 r2 →
  cared_for id l g r0 r3.
Proof using.
  intros Hr2 Hs0 Hs2 [Hw|(r & Hs & Hs' & Ho)]; [left; by eapply wound_run|right].
  exists r. split_and!; [by etrans..|done].
Qed.

Lemma leg_stopped_widen runtime t id l g r0 r1 w' e :
  rtc store_step r0 r1 → leg_stopped runtime t id l g r1 w' e → leg_stopped runtime t id l g r0 w' e.
Proof using.
  intros Hs [Hd|Eu|request g' Hg Hq Href Hv|r c b request Hs1 Hs2 Hc Hb El Hq Href Hv|t' id' Hc Eu].
  - by apply leg_disturbed.
  - by apply leg_unread.
  - by eapply leg_refused.
  - by eapply (leg_bound_refused _ _ _ _ _ _ _ _ r c b); [by etrans|..].
  - eapply leg_unconfirmed; [|exact Eu]. destruct Hc as [Hw|(r & Hs1 & Hs2 & Ho)]; [by left|right].
    exists r. split_and!; [by etrans|done..].
Qed.

(** One item after the other, for conditions that no step undoes. *)
Lemma wp_for_each {B} (body : B → Svc RepositoryError (option ())) (pre : B → MemoryRepository → Prop)
    (post late : B → relation MemoryRepository)
    (stop : B → MemoryRepository → World → RepositoryError → Prop) items w :
  (∀ b r r', store_reachable r → rtc store_step r r' → pre b r → pre b r') →
  (∀ b r0 r1 r2 r3, store_reachable r2 → rtc store_step r0 r1 → rtc store_step r2 r3 →
     post b r1 r2 → post b r0 r3) →
  (∀ b r0 r1 r2, store_reachable r0 → rtc store_step r0 r1 → late b r1 r2 → late b r0 r2) →
  (∀ b r0 r1 w' e, rtc store_step r0 r1 → stop b r1 w' e → stop b r0 w' e) →
  (∀ b w, store_reachable (wo_store w) → pre b (wo_store w) →
     wp (body b) w (recovered (post b) (late b) (stop b) w)) →
  store_reachable (wo_store w) → Forall (λ b, pre b (wo_store w)) items →
  wp (for_each body items) w
    (recovered (λ r r', Forall (λ b, post b r r') items) (λ r r', Exists (λ b, late b r r') items)
       (λ r w' e, Exists (λ b, stop b r w' e) items) w).
Proof using All.
  intros Hpre Hpost Hlate Hstop Hbody. revert w. induction items as [|b items IH]; intros w Hr Hitems.
  { apply wp_ret. split; [apply rtc_refl|constructor]. }
  apply Forall_cons in Hitems as [Hb Hitems]. cbn [for_each].
  apply wp_bind, (wp_weaken _ _ _ _ (Hbody b w Hr Hb)).
  intros w1 [[u|]|e] [Hs1 Hres]; [|by apply wp_ret; split; [|left]|by split; [|left]].
  assert (Hr1 : store_reachable (wo_store w1)) by (unfold store_reachable in *; by etrans).
  eapply wp_weaken; [apply (IH w1); [done|]|].
  { eapply Forall_impl; [exact Hitems|]. intros x Hx. by apply (Hpre x (wo_store w)). }
  intros w2 [[u'|]|e] [Hs2 Hres2]; (split; [by etrans|]); [|right|right].
  - assert (Hr2 : store_reachable (wo_store w2)) by (unfold store_reachable in *; by etrans).
    apply Forall_cons. split; [exact (Hpost _ _ _ _ _ Hr1 (rtc_refl _ _) Hs2 Hres)|].
    eapply Forall_impl; [exact Hres2|]. intros x Hx. exact (Hpost _ _ _ _ _ Hr2 Hs1 (rtc_refl _ _) Hx).
  - eapply Exists_impl; [exact Hres2|]. intros x Hx. by apply (Hlate x _ (wo_store w1)).
  - eapply Exists_impl; [exact Hres2|]. intros x Hx. by apply (Hstop x _ (wo_store w1)).
Qed.

Lemma for_each_fmap {E B C} (f : B → C) (body : C → Svc E (option ())) items :
  for_each body (f <$> items) = for_each (λ b, body (f b)) items.
Proof using. induction items as [|b items IH]; [done|]. cbn. by rewrite IH. Qed.

Lemma outraced_widen id fuel r0 r1 r2 :
  store_reachable r0 → rtc store_step r0 r1 → outraced id fuel r1 r2 → outraced id fuel r0 r2.
Proof using. intros Hr Hs Ho. pose proof (version_run id _ _ Hr Hs). unfold outraced in *. lia. Qed.

(** The call of a claim, as the store has it by now. *)
Definition claimed_call (claim : RestartClaim) (r : MemoryRepository) : Prop :=
  ∃ c, rm_calls (mr_state r) !! ca_id (sc_aggregate (RepoTypes.rc_call claim)) = Some c ∧
       moves_on (sc_aggregate (RepoTypes.rc_call claim)) (sc_aggregate c).

Lemma claimed_call_run claim r r' :
  store_reachable r → rtc store_step r r' → claimed_call claim r → claimed_call claim r'.
Proof using.
  intros Hr Hs (c & Hc & M). destruct (calls_move_on _ _ Hr Hs _ _ Hc) as (c' & Hc' & M').
  exists c'. split; [done|by etrans].
Qed.

(** Both legs of a claimed call are taken care of. *)
Definition call_cared_for (claim : RestartClaim) (r r' : MemoryRepository) : Prop :=
  ∀ i, let aggregate := sc_aggregate (RepoTypes.rc_call claim) in
       cared_for (ca_id aggregate) (leg_id (leg_at aggregate i))
         (leg_binding_generation (leg_at aggregate i)) r r'.

(** The recovery of one of its legs is stopped. *)
Definition call_stopped (runtime : CallServiceRuntime) (claim : RestartClaim) (r : MemoryRepository)
    (w' : World) (e : RepositoryError) : Prop :=
  ∃ i, let aggregate := sc_aggregate (RepoTypes.rc_call claim) in
       leg_stopped runtime (ca_tenant_id aggregate) (ca_id aggregate) (leg_id (leg_at aggregate i))
         (leg_binding_generation (leg_at aggregate i)) r w' e.

Lemma restarted_call_recovers fuel runtime claim w :
  store_reachable (wo_store w) → claimed_call claim (wo_store w) →
  wp (recover_restarted_call fuel runtime claim) w
    (recovered (call_cared_for claim) (outraced (ca_id (sc_aggregate (RepoTypes.rc_call claim))) fuel)
       (call_stopped runtime claim) w).
Proof using All.
  intros Hr (c & Hc & M). unfold recover_restarted_call. rewrite for_each_fmap.
  set (a := sc_aggregate (RepoTypes.rc_call claim)) in *.
  assert (Hof : ∀ leg, leg ∈ List.filter (λ leg, negb (leg_is_terminal (leg_state leg))) (legs a) →
                  ∃ i, leg = leg_at a i).
  { intros leg [Hleg _]%list_elem_of_In%filter_In. destruct Hleg as [<-|[<-|[]]]; [by exists Leg0|by exists Leg1]. }
  eapply wp_weaken; [apply (wp_for_each _
    (λ leg, has_leg_since (ca_id a) (leg_id leg) (leg_binding_generation leg))
    (λ leg, cared_for (ca_id a) (leg_id leg) (leg_binding_generation leg))
    (λ _, outraced (ca_id a) fuel)
    (λ leg, leg_stopped runtime (ca_tenant_id a) (ca_id a) (leg_id leg) (leg_binding_generation leg)))|].
  - intros leg. apply has_leg_run.
  - intros leg. apply cared_for_run.
  - intros _. apply outraced_widen.
  - intros leg. apply leg_stopped_widen.
  - intros leg w0 Hr0 Hl. by apply recover_leg_recovers.
  - done.
  - apply Forall_forall. intros leg [i ->]%Hof.
    exists c, i. split_and!; [done|by rewrite (mv_legs _ _ M)|].
    destruct (mv_gens _ _ M i) as [[Hle _] _]. lia.
  - intros w1 [[u|]|e] [Hs Hres]; (split; [done|]); [|by apply Exists_exists in Hres as (? & _ & ?)|].
    2: { apply Exists_exists in Hres as (leg & [i ->]%Hof & Hstop). by exists i. }
    intros i. cbv zeta. fold a. destruct (leg_over (leg_at a i)) eqn:Ho.
    + left. eapply wound_run; [exact Hr|exact Hs|]. exists c. split; [done|]. exists i.
      split; [by rewrite (mv_legs _ _ M)|]. left. by apply (mv_overs _ _ M).
    + rewrite Forall_forall in Hres. apply Hres, list_elem_of_In, filter_In.
      split; [destruct i; cbn; auto|]. unfold leg_over in Ho. by rewrite Ho.
Qed.

Definition same_aggregates (s s' : MemoryState) : Prop :=
  ∀ id c, rm_calls s !! id = Some c → ∃ c', rm_calls s' !! id = Some c' ∧ sc_aggregate c' = sc_aggregate c.

Lemma restart_calls_claimed worker at_ ids s claims s' :
  (∀ id c, rm_calls s !! id = Some c → ca_id (sc_aggregate c) = id) →
  restart_calls worker at_ ids s = Ok (claims, s') →
  same_aggregates s s' ∧
  ∀ claim, claim ∈ claims → ∃ c,
    rm_calls s' !! ca_id (sc_aggregate (RepoTypes.rc_call claim)) = Some c ∧
    sc_aggregate c = sc_aggregate (RepoTypes.rc_call claim).
Proof using All.
  revert s claims. induction ids as [|k ids IH]; intros s claims Hid E; cbn [restart_calls] in E.
  { injection E as <- <-. split; [by intros id c Hc; exists c|]. intros claim. set_solver. }
  apply result_bind_ok in E as ([claim0 s1] & E1 & E). cbn in E.
  apply result_bind_ok in E as ([claims1 s2] & E2 & [= <- <-]). unfold restart_call in E1. cbv zeta in E1.
  apply result_bind_ok in E1 as (c0 & Hc0%ok_or_ok & E1). injection E1 as <- E1.
  assert (Ec : rm_calls s1 = <[k := restarted_call worker c0]> (rm_calls s)) by by rewrite <- E1.
  clear E1. apply IH in E2 as [Hsame Hclaims].
  2: { intros id c. rewrite Ec. intros [[<- <-]|[_ Hc]]%lookup_insert_Some; [by apply (Hid _ c0)|by apply Hid]. }
  assert (Hk : ∃ c', rm_calls s2 !! k = Some c' ∧ sc_aggregate c' = sc_aggregate c0).
  { apply (Hsame k (restarted_call worker c0)). rewrite Ec. apply lookup_insert_eq. }
  split.
  - intros id c Hc. destruct (base.decide (k = id)) as [<-|]; [by simplify_eq|].
    apply Hsame. by rewrite Ec, lookup_insert_ne.
  - intros claim [->|Hin]%elem_of_cons; [|by apply Hclaims]. cbn. by rewrite (Hid _ _ Hc0).
Qed.

Lemma claim_restart_ok r worker at_ limit r' claims :
  store_reachable r → claim_restart_calls r worker at_ limit = (r', Ok claims) →
  rtc store_step r r' ∧ ∀ claim, claim ∈ claims → claimed_call claim r'.
Proof using All.
  intros Hr E. split.
  { apply rtc_once. left. rewrite <- (f_equal fst E : _ = r'). apply step_restart. }
  unfold claim_restart_calls in E. destruct (_ =? _)%N; [injection E as <- <-; set_solver|].
  apply transaction_ok in E as (_ & s' & E & ->). unfold claim_restart_calls_in_state in E.
  apply bind_unit_ok in E as [_ E]. apply result_bind_ok in E as (k & _ & E).
  apply result_bind_ok in E as (fp & _ & E). cbv zeta in E.
  apply restart_calls_claimed in E as [_ Hc].
  - intros claim (c & Hrow & Ea)%Hc. exists c. split; [done|]. by rewrite Ea.
  - intros id c Hrow. apply (cy_calls _ (store_capacity _ Hr) _ _ Hrow).
Qed.

(** Nothing is left behind: no call of the worker has an older fence and the worker's catalog. *)
Lemma claim_restart_none r worker at_ limit r' :
  limit ≠ 0%N → store_reachable r → claim_restart_calls r worker at_ limit = (r', Ok []) →
  r' = r ∧ ∃ snapshot fp, rm_workers (mr_state r) !! wl_worker_id worker = Some snapshot ∧
    from_capabilities (wk_capabilities snapshot) = Ok fp ∧
    ∀ id c, rm_calls (mr_state r) !! id = Some c → restartable (mr_state r) worker fp c = false.
Proof using All.
  intros Hl Hr E. unfold claim_restart_calls in E. apply N.eqb_neq in Hl. rewrite Hl in E.
  apply transaction_ok in E as (_ & s' & E & ->). unfold claim_restart_calls_in_state in E.
  apply bind_unit_ok in E as [_ E]. apply result_bind_ok in E as (k & Hk%ok_or_ok & E).
  apply result_bind_ok in E as (fp & Hfp & E). cbv zeta in E.
  match type of E with restart_calls _ _ (take _ (sort_by _ ?l)) _ = _ => set (ids := l) in * end.
  assert (Hids : take (N.to_nat limit) (sort_by Z.compare ids) = []).
  { destruct (take _ _) as [|x xs]; [done|]. cbn [restart_calls] in E.
    apply result_bind_ok in E as ([] & _ & E). by apply result_bind_ok in E as ([] & _ & [=]). }
  rewrite Hids in E. cbn in E. injection E as <-. split; [apply same_repository|].
  exists k, fp. split_and!; [done..|]. intros id c Hc. apply not_true_is_false. intros Hre.
  assert (Hin : id ∈ sort_by Z.compare ids).
  { rewrite sort_by_perm. apply list_elem_of_fmap. exists (id, c). split; [done|].
    apply list_elem_of_In, filter_In. split; [|done]. by apply list_elem_of_In, elem_of_map_to_list. }
  apply take_nil_inv in Hids as [Hn|Hn]; [apply N.eqb_neq in Hl; lia|]. rewrite Hn in Hin. set_solver.
Qed.

(** ** The tasks, and how they end *)

Inductive WorkerTask :=
| SettleDeadline (claim : ClaimedDeadline)
| LimitEnding (stored : StoredServiceCall)
| ReportBinding (tenant_id : TenantId) (call_id : CallId) (binding : ConnectionBinding)
    (state : LegState) (failure : option FailureDetails) (at_ : DateTime) (cancel : bool)
| RecoverCall (claim : RestartClaim).

Definition run_task (fuel : nat) (runtime : CallServiceRuntime) (task : WorkerTask)
    : Svc RepositoryError (option ()) :=
  match task with
  | SettleDeadline claim => commit_deadline fuel claim runtime
  | LimitEnding stored => ensure_ending_deadline fuel runtime stored
  | ReportBinding tenant_id call_id binding state failure at_ cancel =>
      done ← commit_binding_state fuel runtime tenant_id call_id binding state failure at_ cancel;
      mret ((λ _, ()) <$> done)
  | RecoverCall claim => recover_restarted_call fuel runtime claim
  end.

(** The call of a task, and the version it starts from. *)
Definition task_call (task : WorkerTask) : CallId :=
  match task with
  | SettleDeadline claim => dr_call_id (cl_record claim)
  | LimitEnding stored => ca_id (sc_aggregate (sl_call stored))
  | ReportBinding _ call_id _ _ _ _ _ => call_id
  | RecoverCall claim => ca_id (sc_aggregate (RepoTypes.rc_call claim))
  end.

Definition task_version (task : WorkerTask) (r : MemoryRepository) : AggregateVersion :=
  match task with
  | LimitEnding stored => ca_version (sc_aggregate (sl_call stored))
  | _ => version_of (task_call task) r
  end.

(** What a task was given was read from the store. *)
Definition task_read (task : WorkerTask) (w : World) : Prop :=
  match task with
  | LimitEnding stored => read_before (task_call task) w stored
  | RecoverCall claim => claimed_call claim (wo_store w)
  | _ => True
  end.

Lemma version_bound id r : store_reachable r → (version_of id r ≤ MAX_PERSISTED_GENERATION)%N.
Proof using.
  intros Hr. unfold version_of. destruct (rm_calls (mr_state r) !! id) as [c|] eqn:Hc; cbn; [|lia].
  apply (rf_version _ (store_rows_fine _ Hr _ _ Hc)).
Qed.

Lemma task_answers fuel runtime task w :
  store_reachable (wo_store w) → task_read task w →
  wp (run_task fuel runtime task) w (λ w' answer_, answer_ = Ok None →
    rtc store_step (wo_store w) (wo_store w') ∧
    (task_version task (wo_store w) + N.of_nat fuel ≤ version_of (task_call task) (wo_store w'))%N).
Proof using All.
  intros Hr Ht. destruct task as [claim|stored|t id b st f at_ cancel|claim]; cbn [run_task task_call task_version].
  - apply (wp_weaken _ _ _ _ (commit_deadline_comes_to fuel claim runtime w Hr)).
    intros w' answer_ Ha ->. destruct Ha. split; [by apply others_run|done].
  - apply (wp_weaken _ _ _ _ (ensure_ending_deadline_comes_to fuel runtime stored w Hr Ht)).
    intros w' answer_ Ha ->. destruct Ha. split; [by apply others_run|done].
  - apply wp_bind, (wp_weaken _ _ _ _ (binding_state_comes_to fuel runtime t id b st f at_ cancel w Hr)).
    intros w' [[u|]|e] Ha; [by apply wp_ret|apply wp_ret; intros _|done].
    destruct Ha. split; [by apply others_run|done].
  - apply (wp_weaken _ _ _ _ (restarted_call_recovers fuel runtime claim w Hr Ht)).
    intros w' answer_ Ha ->. by destruct Ha.
Qed.

(** ** The deadline of a claim *)

Definition claim_key (claim : ClaimedDeadline) : DeadlineKey :=
  (dr_call_id (cl_record claim), dr_kind (cl_record claim), dr_generation (cl_record claim)).

(** The claim is redeemed: its row, claimed by this worker and not expired, is completed, and no
    other call is touched. *)
Definition redeemed (runtime : CallServiceRuntime) (claim : ClaimedDeadline) (at_ : DateTime)
    (s s' : MemoryState) : Prop :=
  (∃ row expires_at, rm_deadlines s !! claim_key claim = Some row ∧
     dr_state row = DeadlineState.Claimed (lease_of runtime) (cl_claim_generation claim) expires_at ∧
     at_ < expires_at) ∧
  (∃ row, rm_deadlines s' !! claim_key claim = Some row ∧ dr_state row = DeadlineState.Completed at_) ∧
  elsewhere (dr_call_id (cl_record claim)) s s'.

Lemma elapsed_redeems runtime claim request new_id c d view s s' :
  elapsed_request runtime claim request → commit_guarded (st_command request) s c d →
  commit_written new_id (st_command request) s c d view s' →
  redeemed runtime claim (ct_at (st_command request)) s s'.
Proof using.
  intros [_ Ec _ Eq _ _] G W. split; [|split].
  - destruct (cg_claim _ _ _ _ G) as [_ Hv]. rewrite Eq in Hv. cbn in Hv.
    apply result_bind_ok in Hv as (row & Hrow%ok_or_ok & Hv). exists row.
    destruct (dr_state row) as [|w g e| |] eqn:Est; try done. destruct (_ && _) eqn:E; [|done].
    apply andb_true_iff in E as [[E1 E2]%andb_true_iff E3]. bool_hyps. exists e. split_and!; [done| |lia].
    by subst.
  - destruct (cw_deadlines _ _ _ _ _ _ _ W) as (dl & _ & Hc). apply completed_table in Hc. rewrite Eq in Hc.
    destruct Hc as (rec & _ & ->). eexists. split; [apply lookup_insert_eq|done].
  - intros id Hid. rewrite (cw_calls _ _ _ _ _ _ _ W), lookup_insert_ne; [done|]. congruence.
Qed.

(** The command of a claimed deadline takes effect: the row of a live deadline is armed in the call. *)
Lemma elapsed_applies runtime claim request r c d :
  store_reachable r → elapsed_request runtime claim request →
  commit_guarded (st_command request) (mr_state r) c d → cd_disposition d = CommandDisposition.Applied.
Proof using.
  intros Hr [_ Ec _ Eq (due & Ek) _] G. pose proof (cg_decide _ _ _ _ G) as Hd. rewrite Ek in Hd.
  destruct (cg_claim _ _ _ _ G) as [Hv1 Hv2]. rewrite Eq in Hv2.
  destruct (accepted_claim _ _ _ Eq Hv1 Hv2) as (_ & _ & rec & Hrec & Hlive).
  pose proof (do_books _ (store_deadlines _ Hr) _ _ (cg_call _ _ _ _ G)) as B. rewrite Ec in B.
  eapply armed_deadline_applies in Hd; [unfold applies in Hd; by bool_hyps|].
  apply (bk_live _ _ _ _ B). by exists rec.
Qed.

(** C16. The worker's tasks on one call (settling an elapsed deadline, limiting a call that is ending,
    reporting the state of a connection, recovering a call after a restart) always come to an answer:
    whatever the others do to the store between two of their steps, no task panics, no request is
    repeated for want of the store, and a round that ends without an answer has lost a race, so that
    the version of the call has risen.  A task that is still running after [fuel] rounds has seen the
    version rise by [fuel], and as versions are bounded this does not happen for more rounds than
    [MAX_PERSISTED_GENERATION]. *)
Theorem worker_tasks_terminate fuel runtime task w :
  store_reachable (wo_store w) → task_read task w →
  match run_task fuel runtime task w with
  | (w', Some (Ok None)) =>
      (task_version task (wo_store w) + N.of_nat fuel ≤ version_of (task_call task) (wo_store w'))%N ∧
      (N.of_nat fuel ≤ MAX_PERSISTED_GENERATION)%N
  | (_, Some _) => True
  | (_, None) => False
  end.
Proof using All.
  intros Hr Ht. pose proof (task_answers fuel runtime task w Hr Ht) as Ha. unfold wp in Ha.
  destruct (run_task fuel runtime task w) as [w' [[[u|]|e]|]]; try done.
  destruct (Ha eq_refl) as [Hs Hv]. split; [done|].
  assert (Hr' : store_reachable (wo_store w')) by (unfold store_reachable in *; by etrans).
  pose proof (version_bound (task_call task) _ Hr'). lia.
Qed.

(** C14. An elapsed deadline is settled once.  The task for a claimed deadline always answers.  When it
    succeeds, its last transaction is for the claim's call, kind and generation and carries the claim:
    either this very transaction was recorded before, and nothing is written, or the claim was held
    by this worker and had not expired, the command that the deadline elapsed was applied to the
    call, the deadline is completed, and no other call changed.  In every other case, be it a
    refusal, a lost lease or a lost race, the task has written nothing. *)
Theorem elapsed_deadline_is_settled fuel claim runtime w :
  store_reachable (wo_store w) →
  match commit_deadline fuel claim runtime w with
  | (w', Some (Ok (Some _))) => ∃ r request, rtc other_step (wo_store w) r ∧
      elapsed_request runtime claim request ∧
      ((wo_store w' = r ∧ ∃ row, sr_request row = request ∧
          rm_service_command_results (mr_state r) !! ct_command_id (st_command request) = Some row) ∨
       (∃ c d, commit_guarded (st_command request) (mr_state r) c d ∧
          cd_disposition d = CommandDisposition.Applied ∧
          rm_calls (mr_state (wo_store w')) !! ct_call_id (st_command request)
            = Some (committed_call (st_command request) c d) ∧
          redeemed runtime claim (ct_at (st_command request)) (mr_state r) (mr_state (wo_store w'))))
  | (w', Some _) => idle w w'
  | (_, None) => False
  end.
Proof using All.
  intros Hr. pose proof (commit_deadline_comes_to fuel claim runtime w Hr) as Hc. unfold wp in Hc.
  destruct (commit_deadline fuel claim runtime w) as [w' [[[u|]|e]|]]; [|apply Hc|apply Hc|done].
  destruct Hc as (r & Ho & _ & request & Hq & Ht). exists r, request. split; [done|]. split; [done|].
  pose proof (others_reachable _ _ Hr Ho) as Hr1.
  destruct Ht as [row Hrow Eq ->|new_id c d view s1 G W ->]; [left; split; [done|by exists row]|right].
  exists c, d. split; [done|]. split; [by eapply elapsed_applies|]. split.
  - cbn. rewrite (cw_calls _ _ _ _ _ _ _ W). apply lookup_insert_eq.
  - pose proof (elapsed_redeems _ _ _ _ _ _ _ _ _ Hq G W) as (H2 & H3 & H4). split_and!; done.
Qed.

(** ** A batch of restarted calls *)

(** No call of the worker is left at an older fence with the worker's route catalog. *)
Definition nothing_left (worker : WorkerLease) (s : MemoryState) : Prop :=
  ∃ snapshot fingerprint, rm_workers s !! wl_worker_id worker = Some snapshot ∧
    from_capabilities (wk_capabilities snapshot) = Ok fingerprint ∧
    ∀ id c, rm_calls s !! id = Some c → restartable s worker fingerprint c = false.

(** The calls of a batch, claimed at the time the batch starts. *)
Definition claims_restarts (worker : WorkerLease) (w : World) (r1 : MemoryRepository)
    (claims : list RestartClaim) : Prop :=
  ∃ r, rtc other_step (wo_store w) r ∧
    claim_restart_calls r worker (ev_now (wo_step w)) WORK_BATCH_SIZE = (r1, Ok claims).

(** What one batch has come to. *)
Definition batch_result (fuel : nat) (runtime : CallServiceRuntime) (w w' : World)
    (answer_ : result RepositoryError (() + option ())) : Prop :=
  let worker := lease_of runtime in
  match answer_ with
  | Ok (inl _) => ∃ r1 claims, claims_restarts worker w r1 claims ∧ claims ≠ [] ∧
      ∀ claim, claim ∈ claims → call_cared_for claim r1 (wo_store w')
  | Ok (inr (Some _)) => idle w w' ∧ nothing_left worker (mr_state (wo_store w'))
  | Ok (inr None) => ∃ r1 claims claim, claims_restarts worker w r1 claims ∧ claim ∈ claims ∧
      outraced (ca_id (sc_aggregate (RepoTypes.rc_call claim))) fuel r1 (wo_store w')
  | Err e =>
      (idle w w' ∧ claim_restart_calls (wo_store w') worker (ev_now (wo_step w)) WORK_BATCH_SIZE
                   = (wo_store w', Err e)) ∨
      ∃ r1 claims claim, claims_restarts worker w r1 claims ∧ claim ∈ claims ∧
        rtc store_step r1 (wo_store w') ∧ call_stopped runtime claim r1 w' e
  end.

Lemma call_cared_for_run claim r0 r1 r2 r3 :
  store_reachable r2 → rtc store_step r0 r1 → rtc store_step r2 r3 → call_cared_for claim r1 r2 →
  call_cared_for claim r0 r3.
Proof using. intros Hr Hs0 Hs2 Hc i. by eapply cared_for_run; [..|apply Hc]. Qed.

Lemma claim_restart_refused r worker at_ limit r' e :
  store_reachable r → claim_restart_calls r worker at_ limit = (r', Err e) → r' = r.
Proof using.
  intros Hr. unfold claim_restart_calls. destruct (_ =? _)%N; [done|].
  by intros [-> _]%transaction_refusal.
Qed.

Lemma call_stopped_widen runtime claim r0 r1 w' e :
  rtc store_step r0 r1 → call_stopped runtime claim r1 w' e → call_stopped runtime claim r0 w' e.
Proof using. intros Hs [i Hi]. exists i. by eapply leg_stopped_widen. Qed.

Lemma batch_recovers fuel runtime w :
  store_reachable (wo_store w) →
  wp (recover_batch fuel runtime ()) w (batch_result fuel runtime w).
Proof using All.
  intros Hr. apply wp_bind. change (wp now w ?Q) with (Q (tick w) (Ok (ev_now (wo_step w)))).
  cbv beta match. apply wp_bind, wp_call. intros _ r Ho _.
  change (wo_store (tick w)) with (wo_store w) in Ho. pose proof (others_reachable _ _ Hr Ho) as Hr0.
  destruct (claim_restart_calls _ _ _ _) as [r1 [claims|e]] eqn:Ec; cbn [fst snd].
  2: { rewrite (claim_restart_refused _ _ _ _ _ _ Hr0 Ec) in Ec |- *. by left. }
  destruct (claim_restart_ok _ _ _ _ _ _ Hr0 Ec) as [Hs1 Hclaims].
  assert (Hr1 : store_reachable r1) by (unfold store_reachable in *; by etrans).
  destruct claims as [|claim0 claims0]; cbn [is_empty].
  { apply wp_ret. destruct (claim_restart_none r (lease_of runtime) (ev_now (wo_step w)) WORK_BATCH_SIZE r1)
      as [-> Hn]; by try split. }
  set (claims := claim0 :: claims0) in *.
  assert (Hbatch : claims_restarts (lease_of runtime) w r1 claims) by by exists r.
  apply wp_bind. eapply wp_weaken; [apply (wp_for_each _ claimed_call call_cared_for
    (λ claim, outraced (ca_id (sc_aggregate (RepoTypes.rc_call claim))) fuel) (call_stopped runtime))|].
  - intros claim. apply claimed_call_run.
  - intros claim. apply call_cared_for_run.
  - intros claim. apply outraced_widen.
  - intros claim. apply call_stopped_widen.
  - intros claim w0 Hrw Hc. by apply restarted_call_recovers.
  - exact Hr1.
  - by apply Forall_forall.
  - intros w2 [[u|]|e] [Hs2 Hres]; [apply wp_ret|apply wp_ret|right].
    + exists r1, claims. split_and!; [done..|]. by apply Forall_forall.
    + apply Exists_exists in Hres as (claim & Hin & Hl). by exists r1, claims, claim.
    + apply Exists_exists in Hres as (claim & Hin & Hl). by exists r1, claims, claim.
Qed.

End Wp.

(** ** Provider callbacks *)

Section Callbacks.
Context `{Chrono, ServiceLibs, ProviderWire, UuidText} {env : Environment} `{!EnvironmentLaws}
  {own : Ownership}.
Implicit Types (target : ProviderEventTarget) (event : ProviderEventEnvelope).

Lemma wp_query {A} (method : MemoryRepository → result RepositoryError A) w Q :
  (∀ r, rtc other_step (wo_store w) r → Q (after r w) (method r)) → wp (query id method) w Q.
Proof using All. intros HQ. apply wp_call. intros _ r Ho _. by apply HQ. Qed.

(** The store says that the provider's call of the event is the target leg's, at generation [g]. *)
Definition refers event target (g : BindingGeneration) (reference : StoredExternalReference)
    (r : MemoryRepository) : Prop :=
  rm_external_references (mr_state r) !! external_reference_key (xr_value reference) = Some reference ∧
  xr_value reference = ExternalReferenceValue.ProviderCall (pe_account event) (pe_provider_call_id event) ∧
  xr_tenant_id reference = pt_tenant_id target ∧
  reference_binding reference = (pt_call_id target, pt_leg_id target, g, pt_role target).

(** The generation is the leg's own, or the one its replacement is waiting for. *)
Definition generation_known (a : CallAggregate) (l : LegId) (g : BindingGeneration) (pending : bool)
    : Prop :=
  if pending then ∃ rep, ca_replacement a = Some rep ∧ rp_leg_id rep = l ∧ rp_pending_binding_generation rep = g
  else ∃ leg, find_leg a l = Some leg ∧ leg_binding_generation leg = g.

Lemma keep_if_Some {A} (p : A → bool) o x : keep_if p o = Some x ↔ o = Some x ∧ p x = true.
Proof using.
  unfold keep_if. destruct o as [y|]; [|by split; [|intros []]].
  destruct (p y) eqn:E; split; [intros [= <-]; done|by intros [? _]|done|intros [[= ->] ?]; congruence].
Qed.

Lemma reference_event reference event :
  provider_reference_matches_event reference event = true →
  xr_value reference = ExternalReferenceValue.ProviderCall (pe_account event) (pe_provider_call_id event).
Proof using.
  unfold provider_reference_matches_event. destruct (xr_value reference); try done.
  intros [E1 E2]%andb_true_iff. bool_hyps. by subst.
Qed.

Lemma referenced_ok r t key p reference :
  store_reachable r → referenced (mr_state r) t key p = Ok (Some reference) →
  rm_external_references (mr_state r) !! external_reference_key (xr_value reference) = Some reference ∧
  xr_tenant_id reference = t ∧ reference_binding reference = key.
Proof using.
  intros Hr E. unfold referenced in E. destruct (rm_external_reference_bindings _ !! _) as [k|] eqn:Hk; [|done].
  apply result_bind_ok in E as (ref & Href%ok_or_ok & E). apply bind_reject_ok in E as [E [= ->]].
  apply orb_false_iff in E as [E _]. bool_hyps. pose proof (store_references _ Hr) as R.
  destruct (fo_reference _ R _ _ Href) as [Ek _]. destruct (fo_binding _ R _ _ Hk) as (ref' & Hr' & Eb).
  by simplify_eq.
Qed.

Lemma refers_run event target g reference r r' :
  store_reachable r → rtc store_step r r' → refers event target g reference r →
  refers event target g reference r'.
Proof using.
  intros Hr Hs (Hk & Hrest). split; [|done].
  eapply lookup_weaken; [exact Hk|]. apply (rk_references _ _ (records_run _ _ Hs (store_capacity _ Hr))).
Qed.

Lemma current_reference_known event target r reference :
  store_reachable r →
  load_external_reference_by_role r (pt_tenant_id target) (pt_call_id target) (pt_leg_id target)
    (pt_role target) = Ok (Some reference) →
  provider_reference_matches_event reference event = true →
  refers event target (xr_binding_generation reference) reference r.
Proof using.
  intros Hr E Hm. unfold load_external_reference_by_role, read, lock in E. rewrite (store_lock _ Hr) in E.
  cbn [mbind result_bind] in E. apply result_bind_ok in E as (c & _ & E).
  apply result_bind_ok in E as (leg & _ & E). apply referenced_ok in E as (Hk & Ht & Hb); [|done].
  split_and!; [done|by apply reference_event|done|]. unfold reference_binding in *.
  injection Hb as E1 E2 E3 E4. congruence.
Qed.

Lemma pending_reference_known event target g r reference :
  store_reachable r →
  load_external_reference_for_binding r (pt_tenant_id target) (pt_call_id target) (pt_leg_id target) g
    (pt_role target) = Ok (Some reference) →
  provider_reference_matches_event reference event = true → refers event target g reference r.
Proof using.
  intros Hr E Hm. unfold load_external_reference_for_binding, read, lock in E. rewrite (store_lock _ Hr) in E.
  cbn [mbind result_bind] in E. apply result_bind_ok in E as (c & _ & E).
  apply bind_reject_ok in E as [_ E]. apply referenced_ok in E as (Hk & Ht & Hb); [|done].
  split_and!; [done|by apply reference_event|done|done].
Qed.

Lemma refers_generation event target g reference r :
  refers event target g reference r → xr_binding_generation reference = g.
Proof using. intros (_ & _ & _ & Hb). unfold reference_binding in Hb. by injection Hb. Qed.

(** What the reference of a callback, and the authority it gives, tell. *)
Definition found_reference event target (stored : StoredServiceCall) (r : MemoryRepository)
    (found : option (StoredExternalReference * bool)) : Prop :=
  match found with
  | Some (reference, pending) =>
      refers event target (xr_binding_generation reference) reference r ∧
      generation_known (sc_aggregate (sl_call stored)) (pt_leg_id target)
        (xr_binding_generation reference) pending
  | None => True
  end.

Lemma event_reference_known event target stored w :
  store_reachable (wo_store w) →
  wp (event_reference event target stored) w (λ w' answer_, idle w w' ∧
    match answer_ with Ok found => found_reference event target stored (wo_store w') found | Err _ => True end).
Proof using All.
  intros Hr. apply wp_bind, wp_answer.
  destruct (find_leg _ _) as [leg|] eqn:Hleg; cbn [ok_or]; [|by split; [apply rtc_refl|]].
  apply wp_bind, wp_query. intros r1 Ho1. pose proof (others_reachable _ _ Hr Ho1) as Hr1.
  destruct (load_external_reference_by_role _ _ _ _ _) as [current|e] eqn:E1; [|done].
  match goal with |- context [keep_if ?p current] => set (cur := keep_if p current) end.
  assert (Hcur : ∀ reference, cur = Some reference →
    found_reference event target stored r1 (Some (reference, false))).
  { intros reference [-> E]%keep_if_Some. apply andb_true_iff in E as [Eg Em]. bool_hyps.
    split; [by apply current_reference_known|by exists leg]. }
  clearbody cur. apply wp_bind.
  destruct (keep_if _ (ca_replacement _)) as [rep|] eqn:Erep.
  - apply keep_if_Some in Erep as [Erep El]. bool_hyps. apply wp_bind, wp_query. intros r2 Ho2.
    change (wo_store (after r1 w)) with r1 in Ho2. pose proof (others_reachable _ _ Hr1 Ho2) as Hr2.
    assert (Hi : idle w (after r2 (after r1 w))) by (unfold idle; cbn; by etrans).
    destruct (load_external_reference_for_binding _ _ _ _ _ _) as [loaded_|e] eqn:E2; [|done].
    apply wp_ret. destruct (keep_if _ loaded_) as [pend|] eqn:Epend.
    + apply keep_if_Some in Epend as [-> Em]. pose proof (pending_reference_known _ _ _ _ _ Hr2 E2 Em) as Hp.
      destruct cur; [by apply wp_answer|]. apply wp_ret. split; [done|].
      unfold found_reference. rewrite (refers_generation _ _ _ _ _ Hp). split; [done|by exists rep].
    + destruct cur as [reference|]; apply wp_ret; (split; [done|]); [|done].
      destruct (Hcur _ eq_refl) as [H5 H6]. split; [|done]. by eapply refers_run; [exact Hr1|apply others_run|].
  - apply wp_ret. destruct cur as [reference|]; apply wp_ret; (split; [done|]); [by apply Hcur|done].
Qed.

(** The authority that a callback has over the leg. *)
Definition authorized event target (stored : StoredServiceCall) (r : MemoryRepository)
    (authority : ProviderEventAuthority) : Prop :=
  (∃ reference, refers event target (au_binding_generation authority) reference r ∧
     xr_effect_id reference = au_effect_id authority) ∧
  generation_known (sc_aggregate (sl_call stored)) (pt_leg_id target) (au_binding_generation authority)
    (au_pending_replacement authority).

Lemma provider_authorized event target stored w :
  store_reachable (wo_store w) →
  wp (current_provider_for_event event target stored) w (λ w' answer_, idle w w' ∧
    match answer_ with
    | Ok (Some authority) => authorized event target stored (wo_store w') authority
    | _ => True
    end).
Proof using All.
  intros Hr. apply wp_bind, (wp_weaken _ _ _ _ (event_reference_known event target stored w Hr)).
  intros w1 [[[reference pending]|]|e] [Hi1 Hf]; [|by apply wp_ret|done]. destruct Hf as [Href Hg].
  pose proof (idle_reachable _ _ Hr Hi1) as Hr1.
  apply wp_bind, wp_query. intros r2 Ho2.
  assert (Hi : idle w (after r2 w1)) by (unfold idle; cbn; by etrans).
  assert (Hau : ∀ provider, authorized event target stored r2 (authority_of provider reference pending)).
  { intros provider. split; [|done]. exists reference. split; [|done].
    by eapply refers_run; [exact Hr1|apply others_run|]. }
  destruct (load_effect_payload _ _ _) as [payload|e]; [|done].
  destruct (replacement_endpoint payload) as [endpoint|].
  - destruct (_ ==? _); [by apply wp_ret|by apply wp_answer].
  - apply wp_answer. destruct (find_spec _ _) as [spec|]; [|done]. cbn [mbind option_bind].
    destruct (ls_endpoint spec) as [?|?|?|?|?|endpoint]; try done. destruct (_ ==? _); [|done].
    split; [done|apply Hau].
Qed.

(** The callback's client state is that of the dial that the reference came from: same tenant, call,
    leg, generation, effect and side. *)
Definition dial_correlated (authority : ProviderEventAuthority) (payload : Json) target : Prop :=
  ∃ text state, payload_client_state payload = Some text ∧ decode_dial text = Some state ∧
    ds_tenant_id state = pt_tenant_id target ∧ ds_call_id state = pt_call_id target ∧
    ds_leg_id state = pt_leg_id target ∧ ds_binding_generation state = au_binding_generation authority ∧
    ds_effect_id state = au_effect_id authority ∧ ds_role state = role_of_reference (pt_role target).

(** ... or that of a transfer of the leg. *)
Definition transfer_correlated (authority : ProviderEventAuthority) (payload : Json) target : Prop :=
  ∃ text state, payload_client_state payload = Some text ∧ decode_transfer text = Some state ∧
    tr_tenant_id state = pt_tenant_id target ∧ tr_call_id state = pt_call_id target ∧
    tr_leg_id state = pt_leg_id target ∧ tr_binding_generation state = au_binding_generation authority.

Lemma dial_matches_correlated authority payload target :
  telnyx_dial_client_state_matches authority payload target = true →
  au_provider authority = ProviderKind.Telnyx ∧ dial_correlated authority payload target.
Proof using.
  unfold telnyx_dial_client_state_matches. intros [Ep E]%andb_true_iff. bool_hyps.
  destruct (payload_client_state payload) as [text|] eqn:Et; [|done]. cbn in E.
  destruct (decode_dial text) as [state|] eqn:Es; [|done]. unfold dial_matches in E.
  repeat (apply andb_true_iff in E; destruct E as [E ?]). bool_hyps. cbn in *.
  split; [done|]. exists text, state. split_and!; done.
Qed.

Lemma lifecycle_matches_correlated authority payload target :
  telnyx_lifecycle_client_state_matches authority payload target = true →
  dial_correlated authority payload target ∨ transfer_correlated authority payload target.
Proof using.
  unfold telnyx_lifecycle_client_state_matches.
  intros [E|E]%orb_true_iff; [left; by apply dial_matches_correlated|right].
  apply andb_true_iff in E as [_ E].
  destruct (payload_client_state payload) as [text|] eqn:Et; [|done]. cbn in E.
  destruct (decode_transfer text) as [state|] eqn:Es; [|done]. unfold matches_owner in E.
  repeat (apply andb_true_iff in E; destruct E as [E ?]). bool_hyps.
  exists text, state. split_and!; done.
Qed.

(** What a callback may do to the call: give the referenced leg the state that the provider reports,
    at the generation the reference is of; end the transfer in progress; or end the replacement in
    progress, and promote the new connection only when the provider has bridged the destination. *)
Inductive callback_command event target (stored : StoredServiceCall) (authority : ProviderEventAuthority)
    (at_ : DateTime) : CallCommand → option ReplacementConnectionPromotion → Prop :=
| reports_state leg :
    au_pending_replacement authority = false →
    find_leg (sc_aggregate (sl_call stored)) (pt_leg_id target) = Some leg →
    (au_provider authority = ProviderKind.Telnyx →
       dial_correlated authority (pe_payload event) target ∨
       transfer_correlated authority (pe_payload event) target) →
    let reported := lifecycle_state (classify_provider_lifecycle (au_provider authority) (pe_kind event)) leg in
    callback_command event target stored authority at_
      (SetLegState at_ (pt_leg_id target) (leg_binding_generation leg) reported.1 reported.2) None
| ends_transfer result :
    au_pending_replacement authority = false → au_provider authority = ProviderKind.Telnyx →
    ca_state (sc_aggregate (sl_call stored)) = CallState.Transferring →
    transfer_correlated authority (pe_payload event) target →
    callback_command event target stored authority at_
      (FinishTransfer at_ (slot_generation
         (deadline_get (ca_deadlines (sc_aggregate (sl_call stored))) DeadlineKind.Transfer)) result) None
| ends_replacement result promotion :
    au_pending_replacement authority = true → au_provider authority = ProviderKind.Telnyx →
    ca_state (sc_aggregate (sl_call stored)) = CallState.Transferring →
    dial_correlated authority (pe_payload event) target →
    (result = ReplacementConnected → pt_role target = ProviderReferenceRole.Destination ∧
       one_of (event_kind (pe_kind event)) ["call.bridged"] = true) →
    (is_Some promotion ↔ result = ReplacementConnected) →
    (∀ p, promotion = Some p → rx_leg_id p = pt_leg_id target ∧
       rx_pending_binding_generation p = au_binding_generation authority ∧
       ∃ previous, sc_bindings (sl_call stored) !! pt_leg_id target = Some previous ∧
         rx_previous_connection_id p = cb_connection_id previous ∧
         rx_previous_binding_generation p = cb_binding_generation previous) →
    callback_command event target stored authority at_
      (FinishLegReplacement at_ (slot_generation
         (deadline_get (ca_deadlines (sc_aggregate (sl_call stored))) DeadlineKind.Transfer))
         (au_binding_generation authority) result) promotion.

(** The follow-up of a callback is for the call that was read, at its version and for its worker. *)
Definition callback_follow_up event target stored authority at_ (q : ServiceCommandTransaction) : Prop :=
  ∃ command_id command promotion, callback_command event target stored authority at_ command promotion ∧
    q = command_transaction (pt_tenant_id target) (pt_call_id target) stored command_id command
          (wa_lease (sc_assignment (sl_call stored))) None at_ promotion.

Lemma correlated_transfer provider kind payload target stored g result authority :
  correlated_provider_transfer_result provider kind payload target stored g = Some result →
  g = au_binding_generation authority →
  provider = ProviderKind.Telnyx ∧ ca_state (sc_aggregate (sl_call stored)) = CallState.Transferring ∧
  transfer_correlated authority payload target.
Proof using.
  unfold correlated_provider_transfer_result. intros E ->.
  destruct (_ || _) eqn:Eg; [done|]. apply orb_false_iff in Eg as [[Ep Er]%orb_false_iff Es]. bool_hyps.
  match type of E with context [if ?b then Some TransferCompleted else ?x] =>
    destruct (if b then Some TransferCompleted else x) as [res|]; [|done] end. cbn in E.
  destruct (slot_due_at _); [|done]. cbn in E.
  destruct (payload_client_state payload) as [text|] eqn:Et; [|done]. cbn in E.
  destruct (decode_transfer text) as [state|] eqn:Ed; [|done]. cbn in E.
  destruct (transfer_matches _ _ _ _ _ _) eqn:Em; [|done]. unfold transfer_matches in Em.
  repeat (apply andb_true_iff in Em; destruct Em as [Em ?]). bool_hyps.
  split_and!; try done. exists text, state. split_and!; done.
Qed.

Lemma replacement_connected kind target :
  pending_replacement_result kind target = Some ReplacementConnected →
  pt_role target = ProviderReferenceRole.Destination ∧ one_of (event_kind kind) ["call.bridged"] = true.
Proof using.
  unfold pending_replacement_result. intros E. repeat case_match; simplify_eq; try done.
  match goal with Hb : _ && _ = true |- _ => apply andb_true_iff in Hb as [Hb Hrole] end. by bool_hyps.
Qed.

(** The pending generation. *)
Lemma pending_follow_up authority event target stored at_ w :
  store_reachable (wo_store w) → au_pending_replacement authority = true →
  telnyx_dial_client_state_matches authority (pe_payload event) target = true →
  wp (build_pending_telnyx_replacement_follow_up authority (pe_kind event) target stored at_) w
    (λ w' answer_, idle w w' ∧
      match answer_ with
      | Ok (Some q) => callback_follow_up event target stored authority at_ q
      | _ => True
      end).
Proof using All.
  intros Hr Hp [Hpr Hdial]%dial_matches_correlated. apply wp_bind, wp_answer.
  rewrite Hpr, bool_decide_eq_true_2 by done. cbn [negb reject_if].
  assert (Hi : idle w w) by apply rtc_refl.
  apply wp_bind, wp_answer. destruct (keep_if _ (ca_replacement _)) as [rep|] eqn:Erep; cbn [ok_or]; [|done].
  apply wp_bind, wp_answer. destruct (_ || _) eqn:Eg; cbn [reject_if]; [done|].
  apply orb_false_iff in Eg as [Est _]. bool_hyps.
  destruct (pending_replacement_result (pe_kind event) target) as [result|] eqn:Er; [|by apply wp_ret].
  apply wp_bind, wp_uuid. intros k. destruct result as [|failure].
  - apply replacement_connected in Er as [Erole Eb]. apply wp_bind, wp_answer.
    destruct (keep_if _ (sc_bindings _ !! _)) as [previous|] eqn:Eprev; cbn [ok_or]; [|done].
    apply keep_if_Some in Eprev as [Eprev Egen]. bool_hyps.
    apply wp_bind, wp_query. intros r2 Ho2. cbn [wo_store tick] in Ho2.
    destruct (load_attachment_binding _ _ _ _ _ _) as [pending|e]; [|done].
    apply wp_bind, wp_answer. destruct (keep_if _ pending) as [b|]; cbn [ok_or]; [|done].
    apply wp_ret. split; [done|]. do 3 eexists. split; [|reflexivity].
    apply ends_replacement; try done.
    intros p [= <-]. cbn. split_and!; [done..|]. by exists previous.
  - apply wp_ret. split; [done|]. do 3 eexists. split; [|reflexivity].
    by apply ends_replacement.
Qed.

Lemma follow_up_correlated authority event target stored at_ w :
  store_reachable (wo_store w) →
  wp (build_provider_follow_up authority (pe_kind event) (pe_payload event) target stored at_) w
    (λ w' answer_, idle w w' ∧
      match answer_ with
      | Ok (Some q) => callback_follow_up event target stored authority at_ q
      | _ => True
      end).
Proof using All.
  intros Hr. assert (Hi : idle w w) by apply rtc_refl. unfold build_provider_follow_up. cbv zeta.
  destruct (call_is_terminal _); [by apply wp_ret|]. apply wp_bind, wp_answer.
  destruct (find_leg _ _) as [leg|] eqn:Hleg; cbn [ok_or]; [|done].
  destruct (au_pending_replacement authority) eqn:Hp.
  { destruct (telnyx_dial_client_state_matches _ _ _) eqn:Hd; cbn [negb]; [|by apply wp_ret].
    by apply pending_follow_up. }
  destruct (correlated_provider_transfer_result _ _ _ _ _ _) as [result|] eqn:Hc.
  { destruct (correlated_transfer _ _ _ _ _ _ _ authority Hc eq_refl) as (Hpr & Hst & Ht).
    apply wp_bind, wp_uuid. intros k. apply wp_ret. split; [done|]. do 3 eexists. split; [|reflexivity].
    by apply ends_transfer. }
  destruct (transfer_callback _ _ _ _); [by apply wp_ret|].
  match goal with |- context [if ?b && negb (telnyx_lifecycle_client_state_matches ?x ?y ?z) then _ else _] =>
    destruct (b && negb (telnyx_lifecycle_client_state_matches x y z)) eqn:Hm; [by apply wp_ret|] end.
  apply wp_bind, wp_answer. destruct (reject_if _ _) as [[]|e]; [|done].
  destruct (lifecycle_state _ leg) as [state failure] eqn:Hl.
  apply wp_bind, wp_uuid. intros k. apply wp_ret. split; [done|]. do 3 eexists. split; [|reflexivity].
  pose proof (reports_state event target stored authority at_ leg Hp Hleg) as Hrep. rewrite Hl in Hrep.
  apply Hrep. intros Hpr. rewrite Hpr, bool_decide_eq_true_2 in Hm by done.
  apply lifecycle_matches_correlated. by apply negb_false_iff in Hm.
Qed.

(** What the request for a callback is. *)
Definition callback_request (claim : ClaimedProviderEvent) (runtime : CallServiceRuntime) target
    (w w' : World) (request : ProviderEventReconciliationTransaction) : Prop :=
  pv_account request = pe_account (cp_event claim) ∧
  pv_event_digest request = pe_event_digest (cp_event claim) ∧
  pv_claim_generation request = cp_claim_generation claim ∧
  pv_worker request = lease_of runtime ∧ pv_target request = target ∧
  ∀ q, pv_follow_up request = Some q → ∃ r stored authority,
    rtc other_step (wo_store w) r ∧ rtc other_step r (wo_store w') ∧
    rm_calls (mr_state r) !! pt_call_id target = Some (sl_call stored) ∧
    ca_tenant_id (sc_aggregate (sl_call stored)) = pt_tenant_id target ∧
    authorized (cp_event claim) target stored (wo_store w') authority ∧
    callback_follow_up (cp_event claim) target stored authority (pv_at request) q.

Lemma authorized_run event target stored authority r r' :
  store_reachable r → rtc store_step r r' → authorized event target stored r authority →
  authorized event target stored r' authority.
Proof using. intros Hr Hs [(ref & Href & He) Hg]. split; [|done]. exists ref. split; [by eapply refers_run|done]. Qed.

Lemma provider_request_known claim runtime target w :
  store_reachable (wo_store w) →
  wp (provider_request claim runtime target) w (λ w' answer_, idle w w' ∧
    match answer_ with
    | Ok (Some request) => callback_request claim runtime target w w' request
    | Ok None => False
    | Err _ => True
    end).
Proof using All.
  intros Hr. assert (Hi : idle w w) by apply rtc_refl. apply wp_bind, wp_owned; [|done].
  apply wp_bind, wp_load; [done| |done]. intros w1 stored Hi1 (Hc & Ht & _).
  change (idle w w1) in Hi1. pose proof (idle_reachable _ _ Hr Hi1) as Hr1.
  apply wp_bind, wp_now. intros observed_at. apply wp_bind.
  apply (wp_weaken _ _ _ _ (provider_authorized (cp_event claim) target stored (tick w1) Hr1)).
  intros w2 [found|e] [Hi2 Hau]; [|exact (conj (transitivity (R := idle) Hi1 Hi2) I)].
  change (idle w1 w2) in Hi2. pose proof (transitivity Hi1 Hi2 : idle w w2) as Hi3.
  pose proof (idle_reachable _ _ Hr Hi3) as Hr2. apply wp_bind.
  destruct found as [authority|]; [|by apply wp_ret, wp_ret].
  eapply wp_weaken; [by apply (follow_up_correlated authority (cp_event claim) target stored)|].
  intros w4 [follow_up|e] [Hi4 Hf]; [|exact (conj (transitivity Hi3 Hi4) I)].
  apply wp_ret. split; [exact (transitivity Hi3 Hi4)|]. split_and!; [done..|].
  intros q Hq. cbn in Hq. subst follow_up. exists (wo_store w1), stored, authority.
  split_and!; [done|exact (transitivity Hi2 Hi4)|done|done| |done].
  by eapply authorized_run; [exact Hr2|apply others_run|].
Qed.

(** C15. A provider's callback only acts on the leg that its call belongs to.  The worker builds a
    request for a claimed callback without writing, and always comes to an answer.  The request
    carries the claim; and when a command is to follow, then the store says that the provider account
    and call of the callback are those of the target leg, at the leg's own generation or at the one
    its replacement waits for, and the follow-up is for the call as it was read, at its version and
    for its worker.  Its command gives that leg the state the provider reports, or ends the transfer
    or the replacement in progress.  From Telnyx, it is accepted only with the client state of the
    dial, or of a transfer, of exactly that tenant, call, leg and generation; and a new connection
    is promoted only when the destination, not the media side, was bridged. *)
Theorem provider_callbacks_are_correlated claim runtime target w :
  store_reachable (wo_store w) →
  match provider_request claim runtime target w with
  | (w', Some (Ok (Some request))) => idle w w' ∧
      pv_account request = pe_account (cp_event claim) ∧
      pv_event_digest request = pe_event_digest (cp_event claim) ∧
      pv_claim_generation request = cp_claim_generation claim ∧
      pv_worker request = lease_of runtime ∧ pv_target request = target ∧
      ∀ q, pv_follow_up request = Some q → ∃ r stored authority,
        rtc other_step (wo_store w) r ∧ rtc other_step r (wo_store w') ∧
        rm_calls (mr_state r) !! pt_call_id target = Some (sl_call stored) ∧
        ca_tenant_id (sc_aggregate (sl_call stored)) = pt_tenant_id target ∧
        authorized (cp_event claim) target stored (wo_store w') authority ∧
        callback_follow_up (cp_event claim) target stored authority (pv_at request) q
  | (w', Some (Ok None)) => False
  | (w', Some (Err _)) => idle w w'
  | (_, None) => False
  end.
Proof using All.
  intros Hr. pose proof (provider_request_known claim runtime target w Hr) as Hp. unfold wp in Hp.
  destruct (provider_request claim runtime target w) as [w' [[[request|]|e]|]];
    [exact Hp|apply Hp|apply Hp|done].
Qed.
End Callbacks.

(** ** The sample call after a restart and at a deadline *)

Section Sample.
#[local] Existing Instances chrono_sample libs_sample alone.

(** The task keeps its lease. *)
Definition undisturbed : Ownership := {| ow_lost _ := false; ow_interrupted _ := false |}.
#[local] Existing Instance undisturbed.

(** The process of the sample worker comes back. *)
Definition reborn : MemoryRepository :=
  (register_worker answered
     {| rw_worker_id := 7; rw_max_calls := 2%N; rw_capabilities := {[str "sip"; str "sip_egress"]};
        rw_at := 9; rw_lease_ttl := from_secs 30 |}).1.

Lemma store_reborn : store_reachable reborn.
Proof. eapply rtc_r; [apply store_answered|]. left. apply step_register. Qed.

Definition runtime_of (fence : N) : CallServiceRuntime :=
  {| rt_worker :=
       {| wk_lease := {| wl_worker_id := 7; wl_fence := fence |}; wk_max_calls := 2%N;
          wk_reserved_calls := 1%N; wk_draining := false; wk_capabilities := ∅; wk_updated_at := 9;
          wk_lease_expires_at := 9 + from_secs 30 |};
     rt_activated_worker := None; rt_timeouts := CallTimeoutPolicy_default |}.

Definition restart_world : World := {| wo_store := reborn; wo_step := 0 |}.

Definition restart_run : World * option (result RepositoryError (() + option ())) :=
  recover_batch 1 (runtime_of 2) () restart_world.

Lemma restart_run_answer : restart_run.2 = Some (Ok (inl ())).
Proof. vm_compute. reflexivity. Qed.

(** The setup deadline of the sample call is claimed when it is due. *)
Definition due_claims : MemoryRepository * result RepositoryError (list ClaimedDeadline) :=
  claim_due_deadlines planned worker_one 10 (from_secs 5) 10%N.

Definition due_world : World := {| wo_store := due_claims.1; wo_step := 0 |}.

Lemma store_due : store_reachable (wo_store due_world).
Proof. eapply rtc_r; [apply store_planned|]. left. apply step_claim_deadlines. Qed.

Definition due_claim : ClaimedDeadline :=
  {| cl_record :=
       {| dr_tenant_id := str "tenant"; dr_call_id := 1; dr_kind := DeadlineKind.Setup;
          dr_generation := 1%N; dr_due_at := 10;
          dr_state := DeadlineState.Claimed worker_one 1%N (10 + from_secs 5) |};
     cl_claim_generation := 1%N |}.

Lemma due_claimed : due_claims.2 = Ok [due_claim].
Proof. vm_compute. reflexivity. Qed.

Definition deadline_run : World * option (result RepositoryError (option ())) :=
  commit_deadline 1 due_claim (runtime_of 1) due_world.

Lemma deadline_run_answer : deadline_run.2 = Some (Ok (Some ())).
Proof. vm_compute. reflexivity. Qed.
End Sample.

(** The setup deadline of the sample is settled in one round. *)
Lemma elapsed_deadline_is_settled_witness :
  ∃ w' r request, deadline_run = (w', Some (Ok (Some ()))) ∧
    @elapsed_request (runtime_of 1) due_claim request ∧ rtc (@other_step alone) (wo_store due_world) r.
Proof.
  pose proof (@elapsed_deadline_is_settled chrono_sample libs_sample alone alone_laws undisturbed
    1 due_claim (runtime_of 1) due_world store_due) as Hp.
  fold deadline_run in Hp. pose proof deadline_run_answer as E. destruct deadline_run as [w' o].
  cbn in E. subst o. destruct Hp as (r & request & Ho & Hq & _). by exists w', r, request.
Defined.


Definition left_behind : MemoryRepository * result RepositoryError (list RestartClaim) :=
  claim_restart_calls reborn {| wl_worker_id := 7; wl_fence := 2%N |} 10 WORK_BATCH_SIZE.

Lemma left_behind_one : match left_behind.2 with Ok [_] => true | _ => false end = true.
Proof. vm_compute. reflexivity. Qed.

(** The recovery of the claimed call of the sample comes to an answer. *)
Lemma worker_tasks_terminate_witness :
  ∃ claim, left_behind.2 = Ok [claim] ∧
    match @run_task chrono_sample libs_sample alone undisturbed 2 (runtime_of 2) (RecoverCall claim)
            {| wo_store := left_behind.1; wo_step := 0 |} with
    | (_, None) => False
    | _ => True
    end.
Proof.
  assert (∃ r1 claim, left_behind = (r1, Ok [claim])) as (r1 & claim & E).
  { pose proof left_behind_one as E. destruct left_behind as [r1 [[|claim [|? ?]]|]]; try done. eauto. }
  rewrite E. exists claim. split; [done|]. cbn [fst].
  destruct (@claim_restart_ok chrono_sample libs_sample alone alone_laws undisturbed _ _ _ _ _ _ store_reborn E) as [Hs Hc].
  pose proof (@worker_tasks_terminate chrono_sample libs_sample alone alone_laws undisturbed 2 (runtime_of 2)
    (RecoverCall claim) {| wo_store := r1; wo_step := 0 |}) as Hp.
  destruct (run_task _ _ _ _) as [w' [[[u|]|e]|]]; [done..|].
  apply Hp; [|apply Hc; left]. unfold store_reachable in *. etrans; [apply store_reborn|exact Hs].
Defined.

(** ** A callback for the outbound leg of a call over Telnyx *)

Section TelnyxSample.
#[local] Existing Instances chrono_sample libs_sample alone undisturbed uuid_text_sample.

Definition telnyx_call : CallAggregate :=
  sample_call <| ca_leg1 :=
    Leg_new 3 {| spec_direction := LegDirection.Outbound; spec_kind := LegKind.Telnyx |}
      (semantics_legacy_default LegDirection.Outbound) 0 |>.

Definition telnyx_request : ServiceCreateTransaction :=
  {| sx_create := create_request <| cc_initial := telnyx_call |>;
     sx_plan := sample_plan
       <| ep_legs := (sip_spec 2 None,
            {| ls_leg_id := 3; ls_endpoint := LegEndpointConfig.Provider
                 {| pc_provider := ProviderKind.Telnyx; pc_account_profile := str "acct";
                    pc_destination := Some (str "+15550100") |} |}) |>
       <| ep_leg_semantics := LegSemanticsBinding_from_aggregate telnyx_call |>;
     sx_alternatives := [] |}.

Definition telnyx_reference : ExternalReferenceBinding :=
  {| xb_leg_id := 3; xb_binding_generation := 1%N; xb_role := ProviderReferenceRole.Media;
     xb_value := ExternalReferenceValue.ProviderCall (str "acct") (str "call-9") |}.

Definition telnyx_enrolled : MemoryRepository :=
  (register_worker MemoryRepository_default
     {| rw_worker_id := 7; rw_max_calls := 2%N; rw_capabilities := {[str "sip"; str "telnyx"]};
        rw_at := 0; rw_lease_ttl := from_secs 30 |}).1.
Definition telnyx_planned : MemoryRepository :=
  (create_with_plan (ids_from 100) telnyx_enrolled telnyx_request).1.
Definition telnyx_awaiting : MemoryRepository :=
  (claim_outbox telnyx_planned worker_one 2 (from_secs 5) 10%N).1.
Definition telnyx_awaited : MemoryRepository :=
  (reconcile_effect_result (ids_from 200) telnyx_awaiting (succeeded 100 3 None)).1.
Definition telnyx_dialling : MemoryRepository :=
  (claim_outbox telnyx_awaited worker_one 4 (from_secs 5) 10%N).1.
Definition telnyx_dialled : MemoryRepository :=
  (reconcile_effect_result (ids_from 300) telnyx_dialling (succeeded 101 6 (Some telnyx_reference))).1.

Lemma store_telnyx : store_reachable telnyx_dialled.
Proof.
  eapply rtc_r; [|right; apply step_reconcile_effect; unused_ids].
  eapply rtc_r; [|left; apply step_claim_outbox].
  eapply rtc_r; [|right; apply step_reconcile_effect; unused_ids].
  eapply rtc_r; [|left; apply step_claim_outbox].
  eapply rtc_r; [|right; apply step_create_with_plan; unused_ids].
  apply rtc_once. left. apply step_register.
Qed.

(** Every payload carries the state of the one dial there is. *)
Definition wire_sample : ProviderWire := {|
  payload_client_state payload := Some payload;
  decode_dial _ := Some
    {| ds_version := ProviderDialClientState_VERSION; ds_role := ProviderDialRole.Media;
       ds_tenant_id := str "tenant"; ds_call_id := 1; ds_leg_id := 3; ds_binding_generation := 1%N;
       ds_effect_id := 101; ds_correlation_id := None; ds_metadata := ∅ |};
  decode_transfer _ := None;
  dial_to_vec _ := Some [];
|}.
#[local] Existing Instance wire_sample.

Definition telnyx_target : ProviderEventTarget :=
  {| pt_tenant_id := str "tenant"; pt_call_id := 1; pt_leg_id := 3;
     pt_role := ProviderReferenceRole.Media |}.

Definition ringing_callback : ClaimedProviderEvent :=
  {| cp_event :=
       {| pe_account := str "acct"; pe_event_digest := 70; pe_payload_digest := 71;
          pe_provider_call_id := str "call-9"; pe_kind := str " Call.Ringing";
          pe_payload := str "payload"; pe_occurred_at := None; pe_received_at := 9;
          pe_receipt_sequence := 1%N; pe_target := Some telnyx_target;
          pe_state := ProviderEventState.Ready; pe_applied_at := None |};
     cp_claim_generation := 1%N |}.

Definition telnyx_world : World := {| wo_store := telnyx_dialled; wo_step := 0 |}.

Definition callback_run
    : World * option (result RepositoryError (option ProviderEventReconciliationTransaction)) :=
  provider_request ringing_callback (runtime_of 1) telnyx_target telnyx_world.

Definition callback_commands : option (option CallCommand) :=
  match callback_run.2 with
  | Some (Ok (Some request)) => Some ((λ q, ct_command (st_command q)) <$> pv_follow_up request)
  | _ => None
  end.

Lemma callback_run_answer :
  callback_commands = Some (Some (SetLegState 12 3 1%N LegState.Signaling None)).
Proof. vm_compute. reflexivity. Qed.
End TelnyxSample.

(** The callback that the phone rings moves the leg it is for to signalling. *)
Lemma provider_callbacks_are_correlated_witness :
  ∃ w' request q stored authority, callback_run = (w', Some (Ok (Some request))) ∧
    pv_follow_up request = Some q ∧
    ct_command (st_command q) = SetLegState 12 3 1%N LegState.Signaling None ∧
    authorized (cp_event ringing_callback) telnyx_target stored (wo_store w') authority.
Proof.
  pose proof (@provider_callbacks_are_correlated chrono_sample libs_sample wire_sample uuid_text_sample
    alone alone_laws undisturbed ringing_callback (runtime_of 1) telnyx_target telnyx_world store_telnyx) as Hp.
  fold callback_run in Hp. pose proof callback_run_answer as E. unfold callback_commands in E.
  destruct callback_run as [w' [[[request|]|e]|]]; try discriminate E. cbn [snd] in E.
  destruct Hp as (_ & _ & _ & _ & _ & _ & Hq).
  destruct (pv_follow_up request) as [q|] eqn:Ef; [|discriminate E].
  destruct (Hq q eq_refl) as (r & stored & authority & _ & _ & _ & _ & Hau & _).
  injection E as E. exists w', request, q, stored, authority. by split_and!.
Defined.
